(* ===== verification/_CoqProject ===== *)
-Q . S2P
Prelude.v
Config.v
Capability.v
AuditLog.v
Block.v
BlockCache.v
FileMapping.v
Partition.v
Gpt.v
PageCache.v
Elf.v
Table.v
Ipc.v
Pipe.v
BlockIo.v
Swap.v
Heap.v
VfsPath.v
Vfs.v
VfsTree.v
VfsFiles.v
VfsTest.v
Fat.v
FatDir.v
FatTest.v
FatChain.v
FatRead.v
FatSafe.v
FatDirSafe.v
FatAlloc.v
FatStore.v
FatVolume.v
Memory.v
Paging.v
PagingOwn.v
PagingCow.v
FlatTables.v
AddressSpaces.v
UserBytes.v
Loader.v
LoaderArgv.v
LoaderImage.v
StubElf.v
Sched.v
SchedSafe.v
SchedCalls.v
SchedFair.v
SchedSleep.v
SchedRights.v
Environment.v
Cwd.v
Process.v
ProcessRefs.v
ProcessCalls.v
ProcessExit.v
Keyboard.v
Syscall.v
SyscallArgs.v
SyscallRights.v
SyscallReturn.v
FileFrames.v
Mappings.v
MappedSwap.v
MappedFrames.v
MappedPages.v
MappedPager.v
MappedFaults.v
MappedDemo.v
Storage.v
StorageDevice.v
StorageReads.v
StorageFiles.v
StorageEdits.v
StorageCalls.v
StorageImage.v
StorageKeeps.v
StorageMount.v
StorageTest.v
