(* ===== verification/Prelude.v ===== *)
(** * WovenHat OS: verification development (root file)

    WovenHat OS is a small x86-64 kernel written in Rust (src/kernel/src).  This
    library models the parts of it that are data structures, file systems,
    scheduling and memory management, and proves what makes them correct.

    ** Method

    A function of the kernel is a function of the same name.  A method that takes
    [&mut self] and may fail is a computation of the monad [M S E A] of this file:
    a state transformer whose outcome is [Ok], [Err] (a Rust error) or [Panic]
    (an aborted kernel: slice index out of range, arithmetic overflow, a spin lock
    taken twice by one thread).  Mutations made before an early return stay in
    the state.  Integers are [Z] with their width written at each operation
    ([checked_add 64], [wrapping_add 32], ...); arrays and slices are lists, and
    an index out of range panics.  Loops are structural, or run with fuel that is
    proved to suffice (below).  Spin locks make a locked section one step: where
    the code keeps a lock for a whole call, the call is one step; where it drops
    the lock in the middle (pipes, block requests, swap slots), the sections are
    steps that other threads interleave with.

    ** Parts, files and sources

    - shared: Prelude (results, integers, arrays, the monad), Config (config.rs),
      Table (tables of optional records, used by Ipc and BlockIo);
    - security: Capability (capability.rs), AuditLog (audit.rs);
    - block devices: Block (the trait of block.rs as the class [BlockDevice] with
      its laws, the RAM disk an instance), BlockCache (block_cache.rs, again an
      instance, over any device), Partition (partition.rs, an instance over a
      window of a device), Gpt (gpt.rs), BlockIo (block_io.rs: request queue,
      worker and clients as threads);
    - file caches: FileMapping (file_mapping.rs), PageCache (page_cache.rs);
    - program images: Elf (elf.rs), StubElf (the builder of the kernel's own ELF
      files in userspace.rs), Loader (the loader of userspace.rs, all definitions),
      LoaderArgv (the argument vector), LoaderImage (what a loaded program finds);
    - communication: Ipc (ipc.rs), Pipe (pipe.rs, readers and writers as threads);
    - tasks (task.rs): Sched (the task table, the dispatcher and every call that
      changes them, all definitions), SchedSafe (the invariant and the
      dispatcher), SchedCalls (the calls of all processors as steps), SchedFair
      (waiting), SchedSleep (stopping, sleeping), SchedRights (capabilities, self-kill);
    - processes (task.rs): Environment (variables), Cwd (path resolution), Process
      (the process table and every call on it, over Sched, Vfs, Pipe and Ipc, all
      definitions), ProcessRefs (reference counts, triples for the pieces of
      calls), ProcessCalls (the triples of all calls, reachable states),
      ProcessExit (collecting children, calls that do not return, a leak);
    - system calls (syscall.rs): Keyboard (keyboard.rs), Syscall (entry,
      dispatcher and all calls over Process, all definitions), SyscallArgs
      (command lines, packed words), SyscallRights (capabilities, messages),
      SyscallReturn (registers and signals);
    - memory: Heap (heap.rs), Swap (swap.rs), Memory (memory.rs, the frame
      allocator), Paging (paging.rs, all definitions), PagingOwn (the bookkeeping
      of owners and the effect of every primitive), PagingCow (the effect of every
      call), UserBytes (the same calls on the bytes of a space), FlatTables (a mapper that satisfies the laws assumed of the x86_64
      crate), AddressSpaces (the main theorems);
    - mapped files: FileFrames (file_frames.rs, the frames that hold file pages),
      Mappings (the file mappings of userspace.rs with their swap slots, the
      cloning of a space, eviction, and of task.rs the pager, the fault handlers,
      mmap and msync: all definitions over Vfs, FileFrames, Swap and Paging),
      MappedSwap (the swap calls), MappedFrames (the frame cache), MappedPages
      (triples for the cache), MappedPager (the invariant and the pager's steps),
      MappedFaults (the main theorems), MappedDemo (a machine with a mapped file);
    - virtual file system (vfs.rs): VfsPath (paths), Vfs (the node registry and
      open files, all definitions), VfsTree (directory tree), VfsFiles (open
      files), VfsTest (the boot self-tests);
    - FAT32 (fat32.rs): Fat (volume, allocation table, chains, file data), FatDir
      (directories and paths), FatTest (self-tests), FatChain, FatRead (the
      read-only half), FatSafe, FatDirSafe (confinement), FatAlloc, FatStore
      (writing), FatVolume (the main theorems);
    - the mounted volume (storage.rs): Storage (finding the volume, importing,
      writing back, file pages, mount state and swap area, all definitions over
      Vfs, FatDir, Partition, Gpt, PageCache and Swap), StorageDevice (triples on
      the disk seen directly, through a partition, and under the VFS),
      StorageReads (reads against a disk that never fails), StorageFiles (the
      files behind the page cache), StorageEdits (what calls may change),
      StorageCalls (triples for all calls), StorageImage (files as chains of
      clusters), StorageKeeps (the table of open files, syncs), StorageMount (the
      swap area and the main theorems), StorageTest (the live self-test and
      sessions on a test disk).

    The components meet at classes: a file system, a cache or a partition is
    proved against [BlockDeviceLaws], and the caches and partitions discharge it,
    so the theorems about FAT32 hold on a cached partition of any lawful disk.
    The VFS is proved against the volume's contract [VfsFiles.DiskLaws] and the
    processes against [ProcessCalls.MountKeeps]; the storage service discharges
    both ([shown_laws], [storage_keeps]), with the VFS itself as the device its
    imports run on.

    ** What the theorems show

    - Refinements: the write-back cache behaves as a disk whatever the trace
      ([cache_refines_disk], [flush_durable], [fault_atomic]); copy-on-write
      behaves as copying ([fork_snapshot]); the audit ring, IPC registry and swap
      slots implement a history, mailboxes and a map from handles to pages.
    - Ownership: [frames_exclusive], [frames_counted_exactly],
      [write_fault_resolved], [heap_alloc_safe]: no frame or block has two owners
      that do not know of each other, and counts are exact.
    - Programs: a loaded program is its file, with the permissions its segments
      ask for, a guarded stack and its arguments ([loaded_program],
      [arguments_on_stack]); the loader keeps the paging module's contract on
      every path ([loader_keeps_contract]); the kernel's own files parse back
      ([stub_elf_round_trip]).
    - Files: what is written is read back ([stored_file_reads_back],
      [write_then_read], [unlinked_file_readable]); tree operations change exactly
      the named entries ([rename_moves_subtree], [insert_effect], [remove_effect],
      [readdir_lists_directory]); FAT operations change exactly the stated table
      entries and stay inside the volume ([fat_calls_confined] and the [_exact]
      theorems).
    - The mounted volume: sessions of VFS and storage calls keep every invariant
      and change the disk only within the volume ([mounted_sessions_safe]); what
      an open file reads is the data of its cluster chain
      ([mounted_read_is_chain]); the swap area shares no sector with the volume
      ([swap_area_behind_volume]); a sync says whether all files were written
      ([sync_reports]); without a volume every call is refused
      ([unmounted_calls_refused]).  They assume of the disk the device contract,
      fewer than 2^64 sectors, and an MBR that does not name a FAT32 partition
      next to a protective entry.
    - Mapped files: the pager never leaves the paging module's contract
      ([pager_keeps_contract]), a page swapped out and back in is the page it was
      ([swapped_page_returns]), swap slots are copied for a child all or nothing
      ([share_slots_all_or_nothing]), and faults are answered while answers can be
      recorded ([faults_answered_while_room]).
    - Parsers: accepted ELF images, partitions and volumes are sound
      ([elf_parse_sound], [find_fat_partition_sound], [mount_geometry]), and no
      input makes them panic.
    - Concurrency: the bytes of a pipe are a queue under every interleaving
      ([pipe_fifo]), block requests run at most once and replies belong to their
      requests ([block_io_exactly_once]).
    - Scheduling: a processor runs one task of its own ([sched_exclusive]), never
      runs out of tasks ([stopped_processor_continues]), ready tasks wait for a
      bounded number of dispatches ([ready_task_waits_boundedly]), sleepers wake on
      time ([sleeps_until_deadline]), and rights only come from holders
      ([rights_come_from_holders]).
    - Processes: descriptors never refer to something freed
      ([descriptors_stay_valid]), a parent collects its child
      ([wait_process_spec]), directories compose ([chdir_composes]), the
      environment is a bounded map ([environment_refines_map]).
    - System calls: a call without its right changes nothing
      ([missing_right_rejected]), messages are neither forged nor lost
      ([messages_refine_mailboxes]), registers survive ([registers_restored]),
      arguments are split and packed as documented ([command_line_words],
      [pipe_call_unpacks]); keys typed are read ([scancodes_fifo],
      [keys_all_delivered]).
    - Defects the code has are theorems too: [exit_deadlocks],
      [getpgrp_never_returns], [dup_leaks], [pipe_lost_wakeup], [heap_leaks],
      [mapping_write_lost], [rename_into_itself], [private_map_self_deadlock],
      [self_kill_not_stopped], [signal_lost_on_bad_stack],
      [refused_arguments_leak], [pager_forgets_eviction],
      [live_test_not_skipped].

    ** Fuel

    Fuel bounds the loops the code bounds by data: ELF headers by their count,
    cluster chains by the number of clusters (a chain longer than that has a
    cycle, which the code's tortoise and hare detect first:
    [validate_cluster_chain_exact]), page-wise copies by the number of bytes
    (every round copies at least one).  Running out of fuel is [Panic], and the
    theorems show that no call panics.

    ** Parameters

    The x86_64 crate is the class [PageTables] with the laws [PageTableLaws]
    (what its Mapper documents) and the class [PhysFrames]; a block device is
    any instance of [BlockDevice]; the page cache's loader is a function with a
    state of its own.  Each class has an instance, so the laws are consistent.

    The process layer sees address spaces and sockets through the class [Others]
    and the mounted volume through [Mount]; its theorems need of the volume only
    that it opens and closes files in pairs ([MountKeeps]), which holds for the
    storage service.  The system calls
    see the copies of user memory, the loader, file mappings and the network
    through classes; [ResidentMemory] says that a copy changes page tables only.

    ** Not modelled

    The contents of spin locks (each locked section is atomic), TLB flushes and
    processor shootdown; the hardware drivers and the assembly; caller buffers
    after an error; the [GlobalAlloc] wrapper of heap.rs; of paging.rs
    the copies for the running process, which call back the fault handlers of
    task.rs, and the boot self-tests; of block_io.rs the spawning of its task.
    Of userspace.rs the programs' own assembly and the boot self-tests, most of
    the file.  The requests of the storage service
    reach the disk at once; the queue between them is BlockIo.  network.rs,
    terminal.rs, shell.rs and the tables of hal/acpi.rs are not modelled.  The boot sequence, the shell's command loop,
    drawing, interrupt setup and the port drivers are input and output only. *)
From stdpp Require Export base tactics list option numbers relations strings.
From Stdlib Require Export ZArith Lia.
From Stdlib Require Import Strings.Byte.
Abbreviation byte := Corelib.Init.Byte.byte.
Abbreviation x00 := Corelib.Init.Byte.x00.

#[global] Open Scope Z_scope.
#[global] Set Default Proof Using "Type".

(** ** Results: the outcome of a fallible Rust computation *)

(** [Ok]/[Err] are Rust's [Result]; [Panic] is an aborting panic (slice index
    out of range, arithmetic overflow under the dev profile's checks). *)
Inductive res (E A : Type) : Type :=
| Ok (a : A)
| Err (e : E)
| Panic.
Arguments Ok {E A} a.
Arguments Err {E A} e.
Arguments Panic {E A}.

#[export] Instance res_eq_dec {E A} `{EqDecision E, EqDecision A} : EqDecision (res E A).
Proof. solve_decision. Defined.

#[export] Instance res_ret {E} : MRet (res E) := λ A a, Ok a.
#[export] Instance res_bind {E} : MBind (res E) := λ A B f m,
  match m with Ok a => f a | Err e => Err e | Panic => Panic end.
#[export] Instance res_fmap {E} : FMap (res E) := λ A B f m,
  match m with Ok a => Ok (f a) | Err e => Err e | Panic => Panic end.

(** [Option::ok_or] *)
Definition ok_or {E A} (e : E) (o : option A) : res E A :=
  match o with Some a => Ok a | None => Err e end.

(** [Result::map_err] *)
Definition map_err {E F A} (f : E → F) (r : res E A) : res F A :=
  match r with Ok a => Ok a | Err e => Err (f e) | Panic => Panic end.

Definition is_ok {E A} (r : res E A) : bool :=
  match r with Ok _ => true | _ => false end.
Definition is_err {E A} (r : res E A) : bool :=
  match r with Err _ => true | _ => false end.

(** A Rust index or slice expression: out of range panics. *)
Definition or_panic {E A} (o : option A) : res E A :=
  match o with Some a => Ok a | None => Panic end.

(** [a + b] and [a - b] on [w]-bit integers under overflow checks. *)
Definition add_or_panic {E} (w a b : Z) : res E Z := if a + b <? 2 ^ w then Ok (a + b) else Panic.
Definition sub_or_panic {E} (a b : Z) : res E Z := if a <? b then Panic else Ok (a - b).

(** The short-circuiting [||] when the operands may fail. *)
Definition or_else {E} (a b : res E bool) : res E bool :=
  match a with Ok false => b | r => r end.

(** An outcome that is not a panic. *)
Definition no_panic {E A} (r : res E A) : Prop := r ≠ Panic.

Declare Scope res_scope.
Delimit Scope res_scope with res.
Infix "|||" := or_else (at level 50, left associativity) : res_scope.

(** ** Machine integers: values are [Z], the width is written at each use *)

Definition wrap (w : Z) (z : Z) : Z := z mod 2 ^ w.
Definition in_width (w z : Z) : Prop := 0 ≤ z < 2 ^ w.
Definition checked_add (w a b : Z) : option Z :=
  if a + b <? 2 ^ w then Some (a + b) else None.
Definition checked_mul (w a b : Z) : option Z :=
  if a * b <? 2 ^ w then Some (a * b) else None.
Definition wrapping_add (w a b : Z) : Z := wrap w (a + b).
Definition saturating_add (w a b : Z) : Z := Z.min (a + b) (2 ^ w - 1).
Definition saturating_sub (a b : Z) : Z := Z.max (a - b) 0.
(** [!x] on a [w]-bit unsigned integer. *)
Definition bnot (w x : Z) : Z := Z.lxor (2 ^ w - 1) x.
(** [is_power_of_two] of an unsigned integer. *)
Definition is_power_of_two (z : Z) : bool := (0 <? z) && (Z.land z (z - 1) =? 0).

Lemma checked_add_Some w a b c : checked_add w a b = Some c ↔ c = a + b ∧ a + b < 2 ^ w.
Proof. unfold checked_add. destruct (Z.ltb_spec (a + b) (2 ^ w)); naive_solver lia. Qed.

Lemma checked_add_ok w a b : a + b < 2 ^ w → checked_add w a b = Some (a + b).
Proof. intros. by apply checked_add_Some. Qed.

Lemma checked_add_None w a b : checked_add w a b = None ↔ 2 ^ w ≤ a + b.
Proof. unfold checked_add. destruct (Z.ltb_spec (a + b) (2 ^ w)); naive_solver lia. Qed.

Lemma checked_mul_Some w a b c : checked_mul w a b = Some c ↔ c = a * b ∧ a * b < 2 ^ w.
Proof. unfold checked_mul. destruct (Z.ltb_spec (a * b) (2 ^ w)); naive_solver lia. Qed.

Lemma wrap_bound w z : 0 ≤ w → 0 ≤ wrap w z < 2 ^ w.
Proof. intros. apply Z.mod_pos_bound. lia. Qed.

(** Masking with the complement of [2^k - 1] rounds down to a multiple of [2^k]. *)
Lemma land_bnot_ones w k x :
  0 ≤ k ≤ w → 0 ≤ x < 2 ^ w → Z.land x (bnot w (2 ^ k - 1)) = x - x mod 2 ^ k.
Proof.
  intros Hk Hx. unfold bnot.
  rewrite <-Z.land_ones by lia.
  replace (2 ^ w - 1) with (Z.ones w) by (rewrite Z.ones_equiv; lia).
  replace (2 ^ k - 1) with (Z.ones k) by (rewrite Z.ones_equiv; lia).
  assert (Z.land x (Z.lxor (Z.ones w) (Z.ones k)) = Z.ldiff x (Z.ones k)) as ->.
  { apply Z.bits_inj'; intros n Hn.
    rewrite Z.land_spec, Z.lxor_spec, Z.ldiff_spec.
    destruct (decide (n < k)).
    - rewrite !Z.ones_spec_low by lia. by destruct (Z.testbit x n).
    - rewrite (Z.ones_spec_high k) by lia.
      destruct (decide (n < w)).
      + rewrite Z.ones_spec_low by lia. by destruct (Z.testbit x n).
      + assert (Z.testbit x n = false) as ->; [|done].
        destruct (decide (x = 0)) as [->|]; [apply Z.bits_0|].
        apply Z.bits_above_log2; [lia|].
        apply Z.log2_lt_pow2; [lia|].
        apply Z.lt_le_trans with (2 ^ w); [lia|]. apply Z.pow_le_mono_r; lia. }
  pose proof (Z.add_lor_land (Z.ldiff x (Z.ones k)) (Z.land x (Z.ones k))) as H.
  rewrite Z.lor_ldiff_and in H.
  assert (Z.land (Z.ldiff x (Z.ones k)) (Z.land x (Z.ones k)) = 0) as H0.
  { apply Z.bits_inj'; intros n Hn.
    rewrite !Z.land_spec, Z.ldiff_spec, Z.bits_0.
    by destruct (Z.testbit x n), (Z.testbit (Z.ones k) n). }
  lia.
Qed.

(** ** Bytes *)

#[export] Instance byte_eq_dec' : EqDecision byte := Byte.byte_eq_dec.

Definition byte_z (b : byte) : Z := Z.of_N (Byte.to_N b).
(** Truncation to [u8] ([as u8]). *)
Definition z_byte (z : Z) : byte :=
  match Byte.of_N (Z.to_N (z mod 256)) with Some b => b | None => Byte.x00 end.

Lemma byte_z_bound b : 0 ≤ byte_z b < 256.
Proof. unfold byte_z. pose proof (Byte.to_N_bounded b). lia. Qed.

Lemma z_byte_z z : byte_z (z_byte z) = z mod 256.
Proof.
  pose proof (Z.mod_pos_bound z 256 ltac:(lia)) as Hb.
  unfold z_byte, byte_z. destruct (Byte.of_N _) eqn:E.
  - apply Byte.to_of_N in E. rewrite E. lia.
  - apply Byte.of_N_None_iff in E. lia.
Qed.

Lemma byte_z_inj b1 b2 : byte_z b1 = byte_z b2 → b1 = b2.
Proof.
  unfold byte_z. intros H.
  assert (Byte.to_N b1 = Byte.to_N b2) as H' by lia.
  pose proof (Byte.of_to_N b1). pose proof (Byte.of_to_N b2). congruence.
Qed.

Lemma byte_z_byte b : z_byte (byte_z b) = b.
Proof.
  apply byte_z_inj. rewrite z_byte_z. pose proof (byte_z_bound b).
  apply Z.mod_small. lia.
Qed.

(** Byte-string literals [b"..."]. *)
Definition bytes (s : string) : list byte := String.list_byte_of_string s.

(** Little-endian decoding ([from_le_bytes]) and encoding ([to_le_bytes]). *)
Fixpoint from_le_bytes (l : list byte) : Z :=
  match l with [] => 0 | b :: l => byte_z b + 256 * from_le_bytes l end.
Fixpoint to_le_bytes (n : nat) (z : Z) : list byte :=
  match n with O => [] | S n => z_byte z :: to_le_bytes n (z / 256) end.

Lemma from_le_bytes_bound l : 0 ≤ from_le_bytes l < 256 ^ Z.of_nat (length l).
Proof.
  induction l as [|b l IH]; simpl length; [simpl; lia|].
  rewrite Nat2Z.inj_succ, Z.pow_succ_r by lia.
  pose proof (byte_z_bound b). cbn [from_le_bytes]. lia.
Qed.

Lemma length_to_le_bytes n z : length (to_le_bytes n z) = n.
Proof. revert z; induction n; intros; simpl; auto. Qed.

Lemma from_to_le_bytes n z : from_le_bytes (to_le_bytes n z) = z mod 256 ^ Z.of_nat n.
Proof.
  revert z. induction n as [|n IH]; intros z; [by rewrite Z.mod_1_r|].
  cbn [to_le_bytes from_le_bytes]. rewrite IH, z_byte_z.
  rewrite Nat2Z.inj_succ, Z.pow_succ_r by lia.
  rewrite Z.rem_mul_r by lia. lia.
Qed.

(** ** Effects: code that mutates [self] and may fail *)

(** A method [fn m(&mut self) -> Result<A, E>]: mutations made before an early
    return stay in the state, as in Rust. *)
Definition M (S E A : Type) : Type := S → res E A * S.

#[export] Instance M_ret {S E} : MRet (M S E) := λ A a s, (Ok a, s).
#[export] Instance M_bind {S E} : MBind (M S E) := λ A B f m s,
  match m s with
  | (Ok a, s') => f a s'
  | (Err e, s') => (Err e, s')
  | (Panic, s') => (Panic, s')
  end.

Definition get {S E} : M S E S := λ s, (Ok s, s).
Definition gets {S E A} (f : S → A) : M S E A := λ s, (Ok (f s), s).
Definition modify {S E} (f : S → S) : M S E unit := λ s, (Ok tt, f s).
Definition lift {S E A} (r : res E A) : M S E A := λ s, (r, s).
Definition fail {S E A} (e : E) : M S E A := λ s, (Err e, s).
(** [if cond { return Err(e); }] *)
Definition guard_ok {S E} (c : bool) (e : E) : M S E unit :=
  if c then mret tt else fail e.

(** The outcome of a call as a value ([let result = ...; let _ = ...]). *)
Definition attempt {S E A} (m : M S E A) : M S E (res E A) := λ x,
  match m x with (Panic, x) => (Panic, x) | (r, x) => (Ok r, x) end.

(** A test step: the outcome of [m] must satisfy [p], else the test fails with [bad]. *)
Definition expecting {S E A} (bad : E) (p : res E A → bool) (m : M S E A) : M S E unit :=
  x ← attempt m; guard_ok (p x) bad.
(** The same, keeping the value. *)
Definition expecting_ok {S E A} (bad : E) (m : M S E A) : M S E A :=
  x ← attempt m; match x with Ok a => mret a | _ => fail bad end.
Definition fails_with {E A} `{EqDecision E} (e : E) (r : res E A) : bool :=
  match r with Err e' => bool_decide (e' = e) | _ => false end.

Lemma M_bind_inv {S E A B} (m : M S E A) (f : A → M S E B) s r s' :
  (m ≫= f) s = (r, s') →
  (∃ a s1, m s = (Ok a, s1) ∧ f a s1 = (r, s')) ∨
  (∃ e, m s = (Err e, s') ∧ r = Err e) ∨
  (m s = (Panic, s') ∧ r = Panic).
Proof. unfold mbind, M_bind. destruct (m s) as [[a|e|] s1]; naive_solver. Qed.

Lemma M_bind_Ok_inv {S E A B} (m : M S E A) (f : A → M S E B) s b s' :
  (m ≫= f) s = (Ok b, s') → ∃ a s1, m s = (Ok a, s1) ∧ f a s1 = (Ok b, s').
Proof. intros [|[]]%M_bind_inv; naive_solver. Qed.

(** Running a bind, by the outcome of its first computation. *)
Lemma bind_run {S E A B} (m : M S E A) (f : A → M S E B) s r s' : m s = (r, s') →
  (m ≫= f) s = match r with Ok a => f a s' | Err e => (Err e, s') | Panic => (Panic, s') end.
Proof. intros H. unfold mbind, M_bind. by rewrite H. Qed.
Lemma bind_gets {S E A B} (g : S → A) (f : A → M S E B) s : (gets g ≫= f) s = f (g s) s.
Proof. done. Qed.
Lemma bind_modify {S E B} (g : S → S) (f : unit → M S E B) s : (modify g ≫= f) s = f tt (g s).
Proof. done. Qed.
Lemma bind_ret {S E A B} (a : A) (f : A → M S E B) s : (mret a ≫= f) s = f a s.
Proof. done. Qed.
Lemma bind_lift {S E A B} (r : res E A) (f : A → M S E B) s :
  (lift r ≫= f) s = match r with Ok a => f a s | Err e => (Err e, s) | Panic => (Panic, s) end.
Proof. done. Qed.
Lemma bind_guard {S E B} (b : bool) e (f : unit → M S E B) s :
  (guard_ok b e ≫= f) s = if b then f tt s else (Err e, s).
Proof. by destruct b. Qed.

Lemma res_bind_Ok_inv {E A B} (m : res E A) (f : A → res E B) b :
  m ≫= f = Ok b ↔ ∃ a, m = Ok a ∧ f a = Ok b.
Proof. destruct m; naive_solver. Qed.

Lemma ok_or_Ok {E A} (e : E) (o : option A) a : ok_or e o = Ok a ↔ o = Some a.
Proof. destruct o; naive_solver. Qed.

(** ** Fixed-size arrays and slices *)

Section arrays.
Context {A : Type}.
Implicit Types (l d : list A) (f : A → bool).

(** [iter().position(f)] *)
Fixpoint position f l : option nat :=
  match l with
  | [] => None
  | x :: l => if f x then Some O else S <$> position f l
  end.

(** [iter().any(f)] *)
Definition any f l : bool := existsb f l.

(** [iter().filter(f).count()] *)
Definition count f l : nat := length (List.filter f l).

(** [&l[s..s + n]] *)
Definition slice l (s n : nat) : list A := take n (drop s l).

(** [l[s..s + d.len()].copy_from_slice(d)], for a range inside [l]. *)
Definition splice l (s : nat) d : list A := take s l ++ d ++ drop (s + length d) l.

(** [iter().enumerate().max_by_key(f)]: the index of the last maximum. *)
Fixpoint max_by_key_from (key : A → Z) (i best : nat) (bk : Z) l : nat :=
  match l with
  | [] => best
  | x :: l => if bk <=? key x then max_by_key_from key (S i) i (key x) l
              else max_by_key_from key (S i) best bk l
  end.
Definition max_by_key (key : A → Z) l : option nat :=
  match l with [] => None | x :: l => Some (max_by_key_from key 1 0 (key x) l) end.

Lemma position_Some f l i :
  position f l = Some i ↔
  (∃ x, l !! i = Some x ∧ f x = true) ∧ (∀ j y, (j < i)%nat → l !! j = Some y → f y = false).
Proof.
  revert i. induction l as [|x l IH]; intros i; [naive_solver|]. simpl.
  destruct (f x) eqn:Hf.
  - split; [intros [= <-]; naive_solver lia|].
    intros [_ Hlt]. destruct i as [|i]; [done|].
    by rewrite (Hlt 0%nat x) in Hf by (done || lia).
  - rewrite fmap_Some. setoid_rewrite IH. split.
    + intros (k & [Hk Hlt] & ->). split; [done|].
      intros [|j] y Hj ?; simplify_eq/=; [done|]. eapply Hlt; [|done]. lia.
    + intros [(y & Hy & Hfy) Hlt]. destruct i as [|i]; simplify_eq/=; [congruence|].
      exists i. split; [|done]. split; [by exists y|].
      intros j z Hj ?. apply (Hlt (S j)); [lia|done].
Qed.

Lemma position_Some_1 f l i :
  position f l = Some i → ∃ x, l !! i = Some x ∧ f x = true.
Proof. rewrite position_Some. naive_solver. Qed.

Lemma position_lt f l i : position f l = Some i → (i < length l)%nat.
Proof. intros (x & ? & _)%position_Some_1. by eapply lookup_lt_Some. Qed.

Lemma position_None f l : position f l = None ↔ ∀ i x, l !! i = Some x → f x = false.
Proof.
  induction l as [|x l IH]; [done|]. simpl. destruct (f x) eqn:Hf.
  - split; [done|]. intros H. by rewrite (H 0%nat x) in Hf.
  - rewrite fmap_None, IH. split.
    + intros H [|i] y ?; simplify_eq/=; [done|]. by apply (H i).
    + intros H i y ?. by apply (H (S i)).
Qed.

Lemma position_is_Some f l i x :
  l !! i = Some x → f x = true → is_Some (position f l).
Proof.
  intros Hi Hf. destruct (position f l) eqn:E; [eauto|].
  rewrite position_None in E. by rewrite (E i x Hi) in Hf.
Qed.

(** When at most one element satisfies [f], [position] finds it. *)
Lemma position_unique f l i x :
  l !! i = Some x → f x = true →
  (∀ j y, l !! j = Some y → f y = true → j = i) → position f l = Some i.
Proof.
  intros Hi Hf Hu. destruct (position_is_Some f l i x Hi Hf) as [k Hk].
  destruct (position_Some_1 f l k Hk) as (y & Hy & Hfy).
  by rewrite Hk, (Hu k y Hy Hfy).
Qed.

Lemma any_true f l : any f l = true ↔ ∃ i x, l !! i = Some x ∧ f x = true.
Proof.
  unfold any. rewrite existsb_exists. split.
  - intros (x & Hin & Hf). apply list_elem_of_In, list_elem_of_lookup in Hin. naive_solver.
  - intros (i & x & Hi & Hf). exists x. split; [|done].
    apply list_elem_of_In, list_elem_of_lookup. eauto.
Qed.

Lemma any_false f l : any f l = false ↔ ∀ i x, l !! i = Some x → f x = false.
Proof.
  rewrite <-not_true_iff_false, any_true. split.
  - intros H i x Hi. destruct (f x) eqn:Hf; naive_solver.
  - intros H (i & x & Hi & Hf). specialize (H i x Hi). congruence.
Qed.

Lemma length_slice l s n : (s + n ≤ length l)%nat → length (slice l s n) = n.
Proof. intros. unfold slice. rewrite length_take, length_drop. lia. Qed.

Lemma slice_all l n : length l = n → slice l 0 n = l.
Proof. intros <-. unfold slice. rewrite drop_0. by rewrite take_ge by lia. Qed.

Lemma lookup_slice l s n i :
  (i < n)%nat → slice l s n !! i = l !! (s + i)%nat.
Proof. intros. unfold slice. by rewrite lookup_take_lt, lookup_drop by lia. Qed.

Lemma slice_app l s n m : slice l s (n + m) = slice l s n ++ slice l (s + n) m.
Proof. unfold slice. rewrite <-drop_drop. by rewrite take_take_drop. Qed.

Lemma length_splice l s d : (s + length d ≤ length l)%nat → length (splice l s d) = length l.
Proof. intros. unfold splice. rewrite !length_app, length_take, length_drop. lia. Qed.

Lemma lookup_splice l s d i : (s + length d ≤ length l)%nat →
  splice l s d !! i =
    if decide (s ≤ i < s + length d)%nat then d !! (i - s)%nat else l !! i.
Proof.
  intros Hle. unfold splice. case_decide.
  - rewrite lookup_app_r by (rewrite length_take; lia).
    rewrite length_take, Nat.min_l by lia. by rewrite lookup_app_l by lia.
  - destruct (decide (i < s)%nat).
    + rewrite lookup_app_l by (rewrite length_take; lia). by rewrite lookup_take_lt.
    + rewrite lookup_app_r by (rewrite length_take; lia).
      rewrite lookup_app_r by (rewrite length_take; lia).
      rewrite lookup_drop, length_take. f_equal. lia.
Qed.

Lemma slice_splice_same l s d :
  (s + length d ≤ length l)%nat → slice (splice l s d) s (length d) = d.
Proof.
  intros. unfold slice, splice. rewrite drop_app_length' by (rewrite length_take; lia).
  by rewrite take_app_length.
Qed.

Lemma slice_splice_disjoint l s d i n :
  (s + length d ≤ length l)%nat → (i + n ≤ s ∨ s + length d ≤ i)%nat →
  slice (splice l s d) i n = slice l i n.
Proof.
  intros Hle Hd. apply list_eq. intros j.
  destruct (decide (j < n)%nat).
  - rewrite !lookup_slice, lookup_splice by lia. rewrite decide_False by lia. done.
  - unfold slice. by rewrite !lookup_take_ge by lia.
Qed.

Lemma splice_all l d : length l = length d → splice l 0 d = d.
Proof. intros Hl. unfold splice. simpl. rewrite drop_ge by lia. apply app_nil_r. Qed.

Lemma splice_insert l s x : (s < length l)%nat → splice l s [x] = <[s:=x]> l.
Proof.
  intros. unfold splice. rewrite insert_take_drop by done.
  simpl. by rewrite Nat.add_1_r.
Qed.

Lemma max_by_key_from_spec (key : A → Z) (all l : list A) i best bk x :
  drop i all = l → all !! best = Some x → key x = bk → (best < i)%nat →
  (∀ j y, (j < i)%nat → all !! j = Some y → key y ≤ bk ∧ ((best < j)%nat → key y < bk)) →
  ∃ z, all !! max_by_key_from key i best bk l = Some z ∧
    ∀ j y, all !! j = Some y →
      key y ≤ key z ∧ ((max_by_key_from key i best bk l < j)%nat → key y < key z).
Proof.
  revert i best bk x. induction l as [|y l IH]; intros i best bk x Hd Hb Hk Hlt Hinv; simpl.
  - exists x. split; [done|]. intros j y Hj. subst bk. apply Hinv; [|done].
    apply lookup_lt_Some in Hj. apply (f_equal length) in Hd.
    rewrite length_drop in Hd. simpl in Hd. lia.
  - assert (Hi : all !! i = Some y).
    { rewrite <-(Nat.add_0_r i), <-lookup_drop, Hd. done. }
    assert (Hd' : drop (S i) all = l).
    { replace (S i) with (i + 1)%nat by lia. by rewrite <-drop_drop, Hd. }
    destruct (Z.leb_spec bk (key y)).
    + eapply IH; [done|done|done|lia|]. intros j w Hj Hw.
      destruct (decide (j = i)) as [->|]; [simplify_eq; lia|].
      destruct (Hinv j w) as [? ?]; [lia|done|]. lia.
    + eapply (IH (S i) best bk x); [done..|lia|]. intros j w Hj Hw.
      destruct (decide (j = i)) as [->|]; [simplify_eq; lia|].
      apply Hinv; [lia|done].
Qed.

Lemma max_by_key_Some (key : A → Z) l i :
  max_by_key key l = Some i →
  ∃ z, l !! i = Some z ∧
    ∀ j y, l !! j = Some y → key y ≤ key z ∧ ((i < j)%nat → key y < key z).
Proof.
  destruct l as [|x l]; [done|]. simpl. intros [= <-].
  eapply (max_by_key_from_spec key (x :: l) l 1 0 _ x); [done..|lia|].
  intros [|j] y ? ?; [|lia]. simplify_eq/=. lia.
Qed.

Lemma max_by_key_is_Some (key : A → Z) l : (0 < length l)%nat → is_Some (max_by_key key l).
Proof. destruct l; simpl; [lia|eauto]. Qed.

(** An in-place update of a known element is a store. *)
Lemma alter_store (g : A → A) l i x : l !! i = Some x → alter g i l = <[i:=g x]> l.
Proof.
  intros Hi. apply list_eq. intros j. rewrite list_lookup_alter, list_lookup_insert.
  pose proof (lookup_lt_Some _ _ _ Hi).
  destruct (decide (i = j)) as [<-|].
  - rewrite Hi. by rewrite decide_True by done.
  - by rewrite decide_False by naive_solver.
Qed.

Lemma any_position f l : any f l = true ↔ is_Some (position f l).
Proof.
  rewrite any_true. split.
  - intros (i & x & Hi & Hf). by eapply position_is_Some.
  - intros [i (x & ? & ?)%position_Some_1]. eauto.
Qed.
End arrays.

Arguments slice {A} l s n : simpl never.
Arguments splice {A} l s d : simpl never.
Arguments position {A} f l : simpl never.
Arguments any {A} f l : simpl never.
Arguments count {A} f l : simpl never.
Arguments max_by_key {A} key l : simpl never.

(** ** Automation *)

(** Length equations of array operations: [autorewrite with lens using lia]. *)
Create Rewrite HintDb lens.
#[export] Hint Rewrite @length_insert @length_app @length_replicate @length_take
  @length_drop @length_fmap @length_nil @length_cons : lens.
#[export] Hint Rewrite @length_slice @length_splice using lia : lens.

(** [list_update]: case analysis of the lookups in updated lists. *)
Ltac list_update :=
  repeat match goal with
  | H : <[_:=_]> _ !! _ = Some _ |- _ =>
      apply list_lookup_insert_Some in H as [(?&?&?)|[??]]
  end; simplify_eq/=.

(** Split the boolean conjunctions of a guard the source tests. *)
Ltac split_guards :=
  repeat match goal with
  | H : _ && _ = true |- _ => apply andb_true_iff in H as [??]
  | H : _ || _ = false |- _ => apply orb_false_iff in H as [??]
  | H : negb _ = true |- _ => apply negb_true_iff in H
  | H : negb _ = false |- _ => apply negb_false_iff in H
  | H : bool_decide _ = true |- _ => apply bool_decide_eq_true_1 in H
  | H : bool_decide _ = false |- _ => apply bool_decide_eq_false_1 in H
  end.

(** [split_guards], with the comparisons as propositions. *)
Ltac open_guards :=
  split_guards;
  repeat match goal with
  | H : (_ =? _) = true |- _ => apply Z.eqb_eq in H
  | H : (_ =? _) = false |- _ => apply Z.eqb_neq in H
  | H : (_ <? _) = true |- _ => apply Z.ltb_lt in H
  | H : (_ <? _) = false |- _ => apply Z.ltb_ge in H
  | H : (_ <=? _) = true |- _ => apply Z.leb_le in H
  | H : (_ <=? _) = false |- _ => apply Z.leb_gt in H
  | H : Nat.eqb _ _ = true |- _ => apply Nat.eqb_eq in H
  | H : Nat.eqb _ _ = false |- _ => apply Nat.eqb_neq in H
  | H : Nat.ltb _ _ = true |- _ => apply Nat.ltb_lt in H
  | H : Nat.ltb _ _ = false |- _ => apply Nat.ltb_ge in H
  | H : Nat.leb _ _ = true |- _ => apply Nat.leb_le in H
  | H : Nat.leb _ _ = false |- _ => apply Nat.leb_gt in H
  end.

(** Run the first computation of a monadic block. *)
Ltac mstep := rewrite ?bind_gets, ?bind_modify, ?bind_ret, ?bind_lift, ?bind_guard; cbv beta.

Create HintDb kernel discriminated.
#[export] Hint Resolve byte_z_bound position_lt lookup_lt_Some : kernel.
