(* ===== verification/Config.v ===== *)
(** * Compile-time limits (kernel/src/config.rs)

    The resource limits the modelled components share, with the source's names
    and values.  Array sizes are [nat]. *)
From S2P Require Import Prelude.

Definition MAX_TASKS : nat := 32.
Definition MAX_PROCESSES : nat := 32.
Definition MAX_FILE_DESCRIPTORS : nat := 16.
Definition MAX_IPC_ENDPOINTS : nat := 32.
Definition IPC_QUEUE_DEPTH : nat := 16.
Definition MAX_MESSAGE_SIZE : nat := 256.
Definition MAX_PATH_SIZE : nat := 128.
Definition MAX_IO_SIZE : nat := 1024.
Definition MAX_VFS_NODES : nat := 64.
Definition VFS_NODE_CAPACITY : nat := Z.to_nat (64 * 1024).
Definition MAX_ELF_SEGMENTS : nat := 8.
Definition MAX_ANONYMOUS_MAPPINGS : nat := 16.
Definition MAX_DEVICES : nat := 32.
Definition MAX_HEAP_ALLOCATIONS : nat := 512.
Definition MAX_OPEN_FILES : nat := 64.
Definition MAX_PAGER_REQUESTS : nat := 16.
Definition MAX_BLOCK_IO_REQUESTS : nat := 16.
Definition MAX_SWAP_SLOTS : nat := 32.
