(* ===== verification/Capability.v ===== *)
(** * Capability sets (kernel/src/capability.rs)

    A process's rights are a 64-bit mask.  The theorems show that the mask
    operations implement a set of [Capability] values: [with] is insertion,
    [without] removal and [contains] membership, and that the two built-in
    sets hold exactly the rights they list. *)
From stdpp Require Import gmap finite.
From S2P Require Import Prelude.

Inductive Capability :=
| Console | TimerRead | TaskInspect | TaskControl | DeviceIo | InterruptControl
| MemoryInspect | FileRead | FileWrite | Ipc | ProcessCreate.

#[export] Instance Capability_eq_dec : EqDecision Capability.
Proof. solve_decision. Defined.

(** The enum's explicit discriminants ([repr(u8)]). *)
Definition discriminant (c : Capability) : Z :=
  match c with
  | Console => 0 | TimerRead => 1 | TaskInspect => 2 | TaskControl => 3
  | DeviceIo => 4 | InterruptControl => 5 | MemoryInspect => 6 | FileRead => 7
  | FileWrite => 8 | Ipc => 9 | ProcessCreate => 10
  end.

Record CapabilitySet := mkCapabilitySet { bits : Z }.

Definition bit (c : Capability) : Z := Z.shiftl 1 (discriminant c).

Definition empty : CapabilitySet := {| bits := 0 |}.
Definition with_cap (s : CapabilitySet) (c : Capability) : CapabilitySet :=
  {| bits := Z.lor (bits s) (bit c) |}.
Definition contains (s : CapabilitySet) (c : Capability) : bool :=
  negb (Z.land (bits s) (bit c) =? 0).
Definition without (s : CapabilitySet) (c : Capability) : CapabilitySet :=
  {| bits := Z.land (bits s) (bnot 64 (bit c)) |}.

Definition kernel_bootstrap : CapabilitySet :=
  foldl with_cap empty
    [Console; TimerRead; TaskInspect; TaskControl; DeviceIo; InterruptControl;
     MemoryInspect; FileRead; FileWrite; Ipc; ProcessCreate].
Definition userspace : CapabilitySet :=
  foldl with_cap empty [Console; FileRead; FileWrite; Ipc; ProcessCreate].

(** ** Abstraction: the set of rights a mask grants *)

#[export] Program Instance Capability_finite : Finite Capability := {|
  enum := [Console; TimerRead; TaskInspect; TaskControl; DeviceIo; InterruptControl;
           MemoryInspect; FileRead; FileWrite; Ipc; ProcessCreate] |}.
Next Obligation. repeat (constructor; [set_solver|]). constructor. Qed.
Next Obligation. intros []; set_solver. Qed.

Definition rights (s : CapabilitySet) : gset Capability :=
  list_to_set (List.filter (contains s) (enum Capability)).

Lemma discriminant_bound c : 0 ≤ discriminant c < 64.
Proof. destruct c; simpl; lia. Qed.

Lemma discriminant_inj c c' : discriminant c = discriminant c' → c = c'.
Proof. by destruct c, c'. Qed.

Lemma bit_testbit c n : 0 ≤ n → Z.testbit (bit c) n = bool_decide (n = discriminant c).
Proof.
  intros Hn. pose proof (discriminant_bound c). unfold bit.
  rewrite Z.shiftl_1_l, Z.pow2_bits_eqb by lia.
  destruct (Z.eqb_spec (discriminant c) n); [rewrite bool_decide_true|rewrite bool_decide_false]; auto.
Qed.

(** Membership is the mask's bit at the discriminant. *)
Lemma contains_testbit s c : contains s c = Z.testbit (bits s) (discriminant c).
Proof.
  pose proof (discriminant_bound c). unfold contains, bit. rewrite Z.shiftl_1_l.
  assert (Z.land (bits s) (2 ^ discriminant c)
          = if Z.testbit (bits s) (discriminant c) then 2 ^ discriminant c else 0) as ->.
  { apply Z.bits_inj'. intros n Hn. rewrite Z.land_spec, Z.pow2_bits_eqb by lia.
    destruct (Z.eqb_spec (discriminant c) n) as [<-|].
    - destruct (Z.testbit (bits s) _); [by rewrite Z.pow2_bits_true by lia|by rewrite Z.bits_0].
    - rewrite andb_false_r. destruct (Z.testbit (bits s) (discriminant c));
        [by rewrite Z.pow2_bits_false by lia|by rewrite Z.bits_0]. }
  destruct (Z.testbit _ _); simpl; [|done].
  apply negb_true_iff, Z.eqb_neq. pose proof (Z.pow_pos_nonneg 2 (discriminant c)). lia.
Qed.

Lemma contains_with s c c' : contains (with_cap s c) c' = bool_decide (c' = c) || contains s c'.
Proof.
  rewrite !contains_testbit. simpl. rewrite Z.lor_spec, bit_testbit by apply discriminant_bound.
  rewrite orb_comm. f_equal. apply bool_decide_ext.
  split; [apply discriminant_inj|by intros ->].
Qed.

Lemma contains_without s c c' :
  contains (without s c) c' = negb (bool_decide (c' = c)) && contains s c'.
Proof.
  rewrite !contains_testbit. simpl. unfold bnot.
  replace (2 ^ 64 - 1) with (Z.ones 64) by done.
  rewrite Z.land_spec, Z.lxor_spec, Z.ones_spec_low, bit_testbit by apply discriminant_bound.
  rewrite (bool_decide_ext (discriminant c' = discriminant c) (c' = c))
    by (split; [apply discriminant_inj|by intros ->]).
  by destruct (bool_decide _), (Z.testbit _ _).
Qed.

Lemma elem_of_rights s c : c ∈ rights s ↔ contains s c = true.
Proof.
  unfold rights. rewrite elem_of_list_to_set, list_elem_of_In, filter_In, <-list_elem_of_In.
  pose proof (elem_of_enum c). naive_solver.
Qed.

(** The mask operations refine finite sets of capabilities. *)
Theorem capability_set_refinement s c :
  rights empty = ∅ ∧
  rights (with_cap s c) = {[c]} ∪ rights s ∧
  rights (without s c) = rights s ∖ {[c]}.
Proof.
  split_and!; apply set_eq; intros c'; rewrite elem_of_rights.
  - rewrite contains_testbit. change (bits empty) with 0. rewrite Z.bits_0. set_solver.
  - rewrite contains_with, orb_true_iff, bool_decide_eq_true.
    rewrite elem_of_union, elem_of_singleton, elem_of_rights. done.
  - rewrite contains_without, andb_true_iff, negb_true_iff, bool_decide_eq_false.
    rewrite elem_of_difference, elem_of_singleton, elem_of_rights. naive_solver.
Qed.

(** The kernel's bootstrap task holds every right; a user process holds
    exactly console, file, IPC and process-creation rights, so no device,
    interrupt, task-control or memory-inspection right. *)
Theorem builtin_rights c :
  contains kernel_bootstrap c = true ∧
  (contains userspace c = true ↔
     c ∈ [Console; FileRead; FileWrite; Ipc; ProcessCreate]).
Proof. split; [by destruct c|]. destruct c; vm_compute; set_solver. Qed.
