(* ===== verification/AuditLog.v ===== *)
(** * The security audit log (kernel/src/audit.rs)

    A ring of the last [CAPACITY] events, each stamped with a sequence number.
    [log_rel] relates the ring to the unbounded history of recorded events; the
    theorems show that recording extends the history and that the ring holds
    its last [CAPACITY] entries in order. *)
From S2P Require Import Prelude.

Definition CAPACITY : nat := 64.

Inductive Action :=
| CapabilityGrant | CapabilityRevoke | IpcSend | FileWrite | ProcessFault
| ProcessExec | ProcessFork.

Record Event := mkEvent {
  sequence : Z; tick : Z; actor : Z; action : Action; target : Z; allowed : bool }.

Record Log := mkLog {
  events : list (option Event); next : nat; log_count : nat; log_sequence : Z }.

Definition new : Log :=
  {| events := replicate CAPACITY None; next := 0; log_count := 0; log_sequence := 0 |}.

Definition set_sequence (e : Event) (s : Z) : Event :=
  {| sequence := s; tick := tick e; actor := actor e; action := action e;
     target := target e; allowed := allowed e |}.

Definition record (event : Event) (self : Log) : Log :=
  {| events := <[next self := Some (set_sequence event (log_sequence self))]> (events self);
     next := (next self + 1) mod CAPACITY;
     log_count := Nat.min (log_count self + 1) CAPACITY;
     log_sequence := wrapping_add 64 (log_sequence self) 1 |}.

Definition latest (self : Log) : option Event :=
  if Nat.eqb (log_count self) 0 then None
  else mjoin (events self !! ((next self + CAPACITY - 1) mod CAPACITY)%nat).

(** The public [record]: the caller's fields and the timer's tick. *)
Definition record_event (ticks actor : Z) (action : Action) (target : Z) (allowed : bool)
    (self : Log) : Log :=
  record {| sequence := 0; tick := ticks; actor := actor; action := action;
            target := target; allowed := allowed |} self.

Definition self_test : bool :=
  let log := foldl (λ log index,
      record {| sequence := 0; tick := Z.of_nat index; actor := 1;
                action := CapabilityGrant; target := 2;
                allowed := Nat.eqb (index mod 2) 0 |} log)
    new (seq 0 (CAPACITY + 1)) in
  Nat.eqb (log_count log) CAPACITY &&
  match latest log with
  | Some e => (sequence e =? Z.of_nat CAPACITY) && (tick e =? Z.of_nat CAPACITY)
              && (actor e =? 1) && (target e =? 2) && allowed e
  | None => false
  end.

(** ** Refinement: the ring against the full history *)

Record log_rel (log : Log) (es : list Event) : Prop := {
  rel_len : length (events log) = CAPACITY;
  rel_next : next log = (length es mod CAPACITY)%nat;
  rel_count : log_count log = Nat.min (length es) CAPACITY;
  rel_seq : log_sequence log = wrap 64 (Z.of_nat (length es));
  rel_events : ∀ i e, es !! i = Some e → (length es ≤ i + CAPACITY)%nat →
    events log !! (i mod CAPACITY)%nat = Some (Some (set_sequence e (wrap 64 (Z.of_nat i)))) }.

Lemma log_rel_new : log_rel new [].
Proof. by split. Qed.

(** Two indices less than a capacity apart share a ring slot only if equal. *)
Lemma ring_slot_inj c i n :
  (0 < c)%nat → (i < n ≤ i + (c - 1))%nat → (i mod c ≠ n mod c)%nat.
Proof.
  intros Hc Hi Heq.
  pose proof (Nat.div_mod_eq i c). pose proof (Nat.div_mod_eq n c).
  destruct (decide (n / c ≤ i / c)%nat); nia.
Qed.

Lemma record_rel ev log es : log_rel log es → log_rel (record ev log) (es ++ [ev]).
Proof.
  intros [Hlen Hnext Hcount Hseq Hev].
  assert (HC : (0 < CAPACITY)%nat) by (unfold CAPACITY; lia).
  split; cbn [record events next log_count log_sequence]; rewrite ?length_app, ?length_insert; cbn [length]; auto.
  - rewrite Hnext. by rewrite Nat.Div0.add_mod_idemp_l.
  - lia.
  - rewrite Hseq. unfold wrapping_add, wrap. rewrite Zplus_mod_idemp_l. f_equal. lia.
  - intros i e Hi Hle. apply lookup_snoc_Some in Hi as [[Hlt Hi]|[-> <-]].
    + rewrite Hnext. rewrite list_lookup_insert_ne;
        [apply Hev; [done|lia]|].
      intros Heq. symmetry in Heq. revert Heq. apply ring_slot_inj; lia.
    + rewrite <-Hnext. rewrite list_lookup_insert_eq; [by rewrite Hseq|].
      rewrite Hlen, Hnext. apply Nat.mod_upper_bound. lia.
Qed.

(** The history recorded by a sequence of calls from the empty log. *)
Definition record_all (es : list Event) : Log := foldl (λ l e, record e l) new es.

Lemma record_all_rel es : log_rel (record_all es) es.
Proof.
  unfold record_all. induction es as [|e es IH] using rev_ind; [apply log_rel_new|].
  rewrite foldl_app. by apply record_rel.
Qed.

(** After any sequence of records the ring holds the most recent
    [CAPACITY] events, each at its history index modulo the capacity and
    stamped with that index, and [count] is the history's length up to the
    capacity. *)
Theorem audit_ring_refines_history es :
  log_count (record_all es) = Nat.min (length es) CAPACITY ∧
  ∀ i e, es !! i = Some e → (length es ≤ i + CAPACITY)%nat →
    events (record_all es) !! (i mod CAPACITY)%nat
      = Some (Some (set_sequence e (wrap 64 (Z.of_nat i)))).
Proof. destruct (record_all_rel es). done. Qed.

(** [latest] returns nothing for an empty history and otherwise the last
    recorded event with its sequence number. *)
Theorem audit_latest es :
  latest (record_all es) =
    match last es with
    | None => None
    | Some e => Some (set_sequence e (wrap 64 (Z.of_nat (length es - 1))))
    end.
Proof.
  destruct (record_all_rel es) as [Hlen Hnext Hcount Hseq Hev].
  unfold latest. rewrite Hcount.
  destruct (last es) as [e|] eqn:Hlast.
  - apply last_Some in Hlast as [es' ->].
    rewrite length_app in *. cbn [length] in *.
    destruct (Nat.eqb_spec (Nat.min (length es' + 1) CAPACITY) 0) as [H0|_].
    { unfold CAPACITY in H0. lia. }
    replace (length es' + 1 - 1)%nat with (length es') by lia.
    assert (next (record_all (es' ++ [e])) + CAPACITY - 1
            = (length es' + 1) mod CAPACITY + (CAPACITY - 1))%nat as ->
      by (rewrite Hnext; unfold CAPACITY; lia).
    rewrite Nat.Div0.add_mod_idemp_l.
    replace (length es' + 1 + (CAPACITY - 1))%nat with (length es' + 1 * CAPACITY)%nat
      by (unfold CAPACITY; lia).
    rewrite Nat.Div0.mod_add, (Hev (length es') e); [done| |unfold CAPACITY; lia].
    by rewrite lookup_app_r, Nat.sub_diag by lia.
  - apply last_None in Hlast as ->. done.
Qed.

(** The source's boot self-test holds of the model. *)
Example audit_self_test : self_test = true.
Proof. vm_compute. reflexivity. Qed.
