(* ===== verification/Block.v ===== *)
(** * Block devices (kernel/src/block.rs)

    The [BlockDevice] trait is the class [BlockDevice]; what every driver and
    wrapper promises its client is the class [BlockDeviceLaws], stated on the
    device's logical contents [dev_view].  [RamDisk] is the source's in-memory
    device; its instance discharges the laws.  The cache, the partition window,
    the page swapper and the partition-table readers are proved against the
    laws alone. *)
From S2P Require Import Prelude.

Definition SECTOR_SIZE : nat := 512.
Lemma SECTOR_SIZE_eq : Z.of_nat SECTOR_SIZE = 512.
Proof. reflexivity. Qed.
#[global] Opaque SECTOR_SIZE.

Inductive Error := OutOfBounds | InvalidBuffer | ReadOnly | DeviceFault.

#[export] Instance Error_eq_dec : EqDecision Error.
Proof. solve_decision. Defined.

(** The trait.  [read_sector] also returns the caller's buffer, which it may
    have filled, and both I/O calls return the device's new state. *)
Class BlockDevice (D : Type) := {
  sector_count : D → Z;
  is_read_only : D → bool;
  flush : D → res Error unit * D;
  read_sector : Z → list byte → D → res Error unit * list byte * D;
  write_sector : Z → list byte → D → res Error unit * D }.

(** ** The contract *)

(** Devices with the same geometry, protection and logical contents. *)
Definition same_dev {D} `{BlockDevice D} (ok : D → Prop) (view : D → Z → list byte)
    (d d' : D) : Prop :=
  ok d' ∧ sector_count d' = sector_count d ∧ is_read_only d' = is_read_only d ∧
  ∀ l, view d' l = view d l.

Class BlockDeviceLaws (D : Type) `{BlockDevice D} := {
  (** the driver's own invariant *)
  dev_ok : D → Prop;
  (** the contents of a sector as a later read must return them *)
  dev_view : D → Z → list byte;
  dev_view_length d lba :
    dev_ok d → 0 ≤ lba < sector_count d → length (dev_view d lba) = SECTOR_SIZE;
  (** A read leaves the contents alone and, when it succeeds, returns them. *)
  read_law d lba buf r buf' d' :
    dev_ok d → 0 ≤ lba → read_sector lba buf d = (r, buf', d') →
    same_dev dev_ok dev_view d d' ∧ length buf' = length buf ∧
    match r with
    | Ok _ => length buf = SECTOR_SIZE ∧ lba < sector_count d ∧ buf' = dev_view d lba
    | Err _ => True
    | Panic => False
    end;
  (** A successful write changes exactly its sector; a failed one may leave
      that sector, and no other, undefined. *)
  write_law d lba buf r d' :
    dev_ok d → 0 ≤ lba → write_sector lba buf d = (r, d') →
    dev_ok d' ∧ sector_count d' = sector_count d ∧ is_read_only d' = is_read_only d ∧
    match r with
    | Ok _ => length buf = SECTOR_SIZE ∧ lba < sector_count d ∧ is_read_only d = false ∧
              ∀ l, dev_view d' l = if decide (l = lba) then buf else dev_view d l
    | Err _ => ∀ l, l ≠ lba → dev_view d' l = dev_view d l
    | Panic => False
    end;
  flush_law d r d' :
    dev_ok d → flush d = (r, d') → same_dev dev_ok dev_view d d' ∧ r ≠ Panic }.

(** [d ≃ d']: both satisfy the invariant and no client can tell them apart. *)
Definition dev_equiv {D} `{BlockDeviceLaws D} (d d' : D) : Prop :=
  dev_ok d ∧ same_dev dev_ok dev_view d d'.
Infix "≃" := dev_equiv (at level 70) : stdpp_scope.

#[export] Instance dev_equiv_per {D} `{BlockDeviceLaws D} :
  RelationClasses.PER (dev_equiv (D:=D)).
Proof.
  split.
  - intros d d' (Hok & Hok' & Hc & Hr & Hv). do 2 (split; [done|]).
    split; [done|split; [done|]]. intros l. by rewrite Hv.
  - intros d1 d2 d3 (Hok1 & Hok2 & Hc & Hr & Hv) (_ & Hok3 & Hc' & Hr' & Hv').
    do 2 (split; [done|]). split; [congruence|split; [congruence|]].
    intros l. by rewrite Hv', Hv.
Qed.

(** Observations respect the equivalence. *)
#[export] Instance sector_count_proper {D} `{BlockDeviceLaws D} :
  Proper (dev_equiv ==> eq) (sector_count (D:=D)).
Proof. intros d d' (_ & _ & Hc & _). done. Qed.
#[export] Instance dev_view_proper {D} `{BlockDeviceLaws D} :
  Proper (dev_equiv ==> eq ==> eq) (dev_view (D:=D)).
Proof. intros d d' (_ & _ & _ & _ & Hv) l ? <-. by rewrite Hv. Qed.

Lemma read_equiv {D} `{BlockDeviceLaws D} (d : D) lba buf r buf' d' :
  dev_ok d → 0 ≤ lba → read_sector lba buf d = (r, buf', d') → d ≃ d'.
Proof. intros Hok Hl Hr. split; [done|]. by apply (read_law d lba buf r buf' d'). Qed.

(** ** [RamDisk] *)

Record RamDisk := mkRamDisk { sectors : list (list byte); read_only : bool }.

Definition ramdisk_new (SECTORS : nat) : RamDisk :=
  {| sectors := replicate SECTORS (replicate SECTOR_SIZE x00); read_only := false |}.

Definition set_read_only (ro : bool) (self : RamDisk) : RamDisk :=
  {| sectors := sectors self; read_only := ro |}.

(** [usize::try_from(lba)] cannot fail: [usize] is 64 bits wide. *)
Definition ramdisk_read_sector (lba : Z) (sector : list byte) (self : RamDisk)
    : res Error unit * list byte * RamDisk :=
  if negb (Nat.eqb (length sector) SECTOR_SIZE) then (Err InvalidBuffer, sector, self)
  else match sectors self !! Z.to_nat lba with
       | None => (Err OutOfBounds, sector, self)
       | Some source => (Ok tt, source, self)
       end.

Definition ramdisk_write_sector (lba : Z) (sector : list byte) (self : RamDisk)
    : res Error unit * RamDisk :=
  if negb (Nat.eqb (length sector) SECTOR_SIZE) then (Err InvalidBuffer, self)
  else if read_only self then (Err ReadOnly, self)
  else match sectors self !! Z.to_nat lba with
       | None => (Err OutOfBounds, self)
       | Some _ => (Ok tt, {| sectors := <[Z.to_nat lba := sector]> (sectors self);
                              read_only := read_only self |})
       end.

#[export] Instance RamDisk_device : BlockDevice RamDisk := {|
  sector_count d := Z.of_nat (length (sectors d));
  is_read_only := read_only;
  flush d := (Ok tt, d);
  read_sector := ramdisk_read_sector;
  write_sector := ramdisk_write_sector |}.

Definition self_test : bool :=
  let disk := ramdisk_new 2 in
  let written := splice (replicate SECTOR_SIZE x00) 0 (bytes "wovenhat-block") in
  let '(w, disk) := write_sector 1 written disk in
  if is_err w then false else
  let '(r1, read, disk) := read_sector 1 (replicate SECTOR_SIZE x00) disk in
  let round_trip := is_ok r1 && bool_decide (read = written) in
  let '(r2, read, disk) := read_sector 2 read disk in
  let bounds := bool_decide (r2 = Err OutOfBounds) in
  let '(r3, _, disk) := read_sector 0 (take (SECTOR_SIZE - 1) read) disk in
  let size := bool_decide (r3 = Err InvalidBuffer) in
  let disk := set_read_only true disk in
  let '(r4, disk) := write_sector 0 written disk in
  let protection := bool_decide (r4 = Err ReadOnly) in
  round_trip && bounds && size && protection.

(** ** The RAM disk keeps the contract *)

Definition ramdisk_ok (d : RamDisk) : Prop :=
  Forall (λ s, length s = SECTOR_SIZE) (sectors d).
Definition ramdisk_view (d : RamDisk) (l : Z) : list byte :=
  default [] (if 0 <=? l then sectors d !! Z.to_nat l else None).

Lemma ramdisk_new_ok n : ramdisk_ok (ramdisk_new n).
Proof. apply Forall_replicate. by rewrite length_replicate. Qed.

Lemma ramdisk_view_lookup d lba s :
  0 ≤ lba → sectors d !! Z.to_nat lba = Some s → ramdisk_view d lba = s.
Proof.
  intros Hl Hs. unfold ramdisk_view. rewrite (proj2 (Z.leb_le _ _) Hl). by rewrite Hs.
Qed.

Lemma ramdisk_read_law d lba buf r buf' d' :
  ramdisk_ok d → 0 ≤ lba → read_sector lba buf d = (r, buf', d') →
  same_dev ramdisk_ok ramdisk_view d d' ∧ length buf' = length buf ∧
  match r with
  | Ok _ => length buf = SECTOR_SIZE ∧ lba < sector_count d ∧ buf' = ramdisk_view d lba
  | Err _ => True
  | Panic => False
  end.
Proof.
  intros Hok Hl Hr. cbn [read_sector RamDisk_device] in Hr. unfold ramdisk_read_sector in Hr.
  destruct (Nat.eqb_spec (length buf) SECTOR_SIZE) as [Hb|]; simpl in Hr; [|by simplify_eq].
  destruct (sectors d !! Z.to_nat lba) as [s|] eqn:Hs; simplify_eq; [|done].
  split; [done|].
  assert (length buf' = SECTOR_SIZE) by exact (Forall_lookup_1 _ _ _ _ Hok Hs).
  split; [congruence|]. split; [done|]. split; [|symmetry; by apply ramdisk_view_lookup].
  apply lookup_lt_Some in Hs. simpl. lia.
Qed.

Lemma ramdisk_write_law d lba buf r d' :
  ramdisk_ok d → 0 ≤ lba → write_sector lba buf d = (r, d') →
  ramdisk_ok d' ∧ sector_count d' = sector_count d ∧ is_read_only d' = is_read_only d ∧
  match r with
  | Ok _ => length buf = SECTOR_SIZE ∧ lba < sector_count d ∧ is_read_only d = false ∧
            ∀ l, ramdisk_view d' l = if decide (l = lba) then buf else ramdisk_view d l
  | Err _ => ∀ l, l ≠ lba → ramdisk_view d' l = ramdisk_view d l
  | Panic => False
  end.
Proof.
  intros Hok Hl Hr. cbn [write_sector RamDisk_device] in Hr. unfold ramdisk_write_sector in Hr.
  destruct (Nat.eqb_spec (length buf) SECTOR_SIZE) as [Hb|]; simpl in Hr; [|by simplify_eq].
  destruct (read_only d) eqn:Hro; [by simplify_eq|].
  destruct (sectors d !! Z.to_nat lba) as [s|] eqn:Hs; simplify_eq; [|done].
  pose proof (lookup_lt_Some _ _ _ Hs) as Hlt. simpl.
  split_and!; [by apply Forall_insert|by rewrite length_insert|done|done|lia|done|].
  intros l. unfold ramdisk_view; simpl.
  destruct (Z.leb_spec 0 l); simpl; [|by rewrite decide_False by lia].
  case_decide as Hll; subst; [by rewrite list_lookup_insert_eq|].
  by rewrite list_lookup_insert_ne by lia.
Qed.

#[export] Program Instance RamDisk_laws : BlockDeviceLaws RamDisk := {|
  dev_ok := ramdisk_ok; dev_view := ramdisk_view |}.
Next Obligation.
  simpl. intros d lba Hok Hlba. destruct (lookup_lt_is_Some_2 (sectors d) (Z.to_nat lba)) as [s Hs];
    [lia|]. erewrite ramdisk_view_lookup by (done || lia). exact (Forall_lookup_1 _ _ _ _ Hok Hs).
Qed.
Next Obligation. intros. by eapply ramdisk_read_law. Qed.
Next Obligation. intros. by eapply ramdisk_write_law. Qed.
Next Obligation. simpl. intros d r d' Hok [= <- <-]. done. Qed.

(** ** Behaviour of the RAM disk on every branch *)

(** Which outcome a RAM-disk access has: a wrong buffer length is reported
    first, then write protection, then the bounds check; otherwise the access
    succeeds. *)
Theorem ramdisk_outcome d lba buf :
  0 ≤ lba →
  (∃ buf' d', read_sector lba buf d =
     (if negb (Nat.eqb (length buf) SECTOR_SIZE) then Err InvalidBuffer
      else if lba <? sector_count d then Ok tt else Err OutOfBounds, buf', d')) ∧
  (∃ d', write_sector lba buf d =
     (if negb (Nat.eqb (length buf) SECTOR_SIZE) then Err InvalidBuffer
      else if is_read_only d then Err ReadOnly
      else if lba <? sector_count d then Ok tt else Err OutOfBounds, d')).
Proof.
  intros Hl. cbn [read_sector write_sector RamDisk_device].
  unfold ramdisk_read_sector, ramdisk_write_sector.
  destruct (sectors d !! Z.to_nat lba) as [s|] eqn:Hs.
  - apply lookup_lt_Some in Hs. rewrite (proj2 (Z.ltb_lt _ _)) by (simpl; lia).
    split; repeat case_match; eauto; simpl in *; congruence.
  - apply lookup_ge_None in Hs. rewrite (proj2 (Z.ltb_ge _ _)) by (simpl; lia).
    split; repeat case_match; eauto; simpl in *; congruence.
Qed.

Lemma ramdisk_outcome_witness :
  fst (write_sector 1 (replicate SECTOR_SIZE x00) (ramdisk_new 1)) = Err OutOfBounds.
Proof.
  destruct (ramdisk_outcome (ramdisk_new 1) 1 (replicate SECTOR_SIZE x00) ltac:(lia))
    as [_ [d' ->]]. reflexivity.
Defined.

(** The source's boot self-test holds of the model. *)
Example block_self_test : self_test = true.
Proof. vm_compute. reflexivity. Qed.
