(* ===== verification/BlockCache.v ===== *)
(** * The write-back sector cache (kernel/src/block_cache.rs)

    [CachedDevice<D, N>] sits between a filesystem and a device.  The model is
    generic in the inner device through the [BlockDevice] class; the main
    theorem is that the cache over any device keeping the [BlockDeviceLaws]
    keeps them too, so no client can tell it from the device it wraps.  The
    other theorems give durability of [flush], atomicity under device faults
    and the least-recently-used eviction order. *)
From Stdlib Require Import Sorted.
From S2P Require Import Prelude Block.

Record CacheEntry := mkEntry {
  lba : Z; data : list byte; valid : bool; dirty : bool; age : Z }.

Definition entry_empty : CacheEntry :=
  {| lba := 0; data := replicate SECTOR_SIZE x00; valid := false; dirty := false; age := 0 |}.

Record CachedDevice (D : Type) := mkCached {
  inner : D; entries : list CacheEntry;
  writebacks : Z; evictions : Z; hits : Z; misses : Z }.
Arguments mkCached {D}.
Arguments inner {D}. Arguments entries {D}. Arguments writebacks {D}.
Arguments evictions {D}. Arguments hits {D}. Arguments misses {D}.

Record Stats := mkStats {
  st_hits : Z; st_misses : Z; st_writebacks : Z; st_evictions : Z;
  st_capacity : nat; st_resident : nat; st_dirty : nat }.

Section cache.
Context {D : Type} `{BlockDevice D}.
Implicit Types (c : CachedDevice D) (d : D).

Definition set_inner d c := mkCached d (entries c) (writebacks c) (evictions c) (hits c) (misses c).
Definition set_entries es c := mkCached (inner c) es (writebacks c) (evictions c) (hits c) (misses c).
Definition bump_writebacks c :=
  mkCached (inner c) (entries c) (saturating_add 64 (writebacks c) 1) (evictions c) (hits c) (misses c).
Definition bump_evictions c :=
  mkCached (inner c) (entries c) (writebacks c) (saturating_add 64 (evictions c) 1) (hits c) (misses c).
Definition bump_hits c :=
  mkCached (inner c) (entries c) (writebacks c) (evictions c) (saturating_add 64 (hits c) 1) (misses c).
Definition bump_misses c :=
  mkCached (inner c) (entries c) (writebacks c) (evictions c) (hits c) (saturating_add 64 (misses c) 1).

Definition set_age (a : Z) (e : CacheEntry) := mkEntry (lba e) (data e) (valid e) (dirty e) a.
Definition set_dirty (b : bool) (e : CacheEntry) := mkEntry (lba e) (data e) (valid e) b (age e).
Definition set_data (x : list byte) (e : CacheEntry) := mkEntry (lba e) x (valid e) (dirty e) (age e).

(** [N] is the length of the entry array. *)
Definition new (N : nat) d : CachedDevice D :=
  mkCached d (replicate N entry_empty) 0 0 0 0.

Definition touch (index : nat) c : CachedDevice D :=
  let aged := (λ e, if valid e then set_age (saturating_add 64 (age e) 1) e else e) <$> entries c in
  set_entries (alter (set_age 0) index aged) c.

Definition find (l : Z) c : option nat :=
  position (λ e, valid e && (lba e =? l)) (entries c).

Definition victim c : nat :=
  match position (λ e, negb (valid e)) (entries c) with
  | Some index => index
  | None => default 0%nat (max_by_key age (entries c))
  end.

Definition write_back (index : nat) : M (CachedDevice D) Error unit := λ c,
  match entries c !! index with
  | None => (Panic, c)
  | Some e =>
    if valid e && dirty e then
      match write_sector (lba e) (data e) (inner c) with
      | (Ok _, d') =>
          (Ok tt, bump_writebacks
                    (set_entries (alter (set_dirty false) index (entries c)) (set_inner d' c)))
      | (Err err, d') => (Err err, set_inner d' c)
      | (Panic, d') => (Panic, set_inner d' c)
      end
    else (Ok tt, c)
  end.

(** Count an eviction when the victim held a sector. *)
Definition count_eviction (index : nat) c : CachedDevice D :=
  if default false (valid <$> entries c !! index) then bump_evictions c else c.

Definition load (l : Z) : M (CachedDevice D) Error nat := λ c,
  match find l c with
  | Some index => (Ok index, touch index (bump_hits c))
  | None =>
    let c := bump_misses c in
    let index := victim c in
    match write_back index c with
    | (Ok _, c) =>
      match read_sector l (replicate SECTOR_SIZE x00) (inner c) with
      | (Ok _, sector, d') =>
        let c := count_eviction index (set_inner d' c) in
        let c := set_entries (<[index := mkEntry l sector true false 0]> (entries c)) c in
        (Ok index, touch index c)
      | (Err err, _, d') => (Err err, set_inner d' c)
      | (Panic, _, d') => (Panic, set_inner d' c)
      end
    | (Err err, c) => (Err err, c)
    | (Panic, c) => (Panic, c)
    end
  end.

Fixpoint write_back_all (idxs : list nat) : M (CachedDevice D) Error unit :=
  match idxs with
  | [] => mret tt
  | i :: idxs => _ ← write_back i; write_back_all idxs
  end.

Definition cache_flush : M (CachedDevice D) Error unit := λ c,
  match write_back_all (seq 0 (length (entries c))) c with
  | (Ok _, c) => let '(r, d') := flush (inner c) in (r, set_inner d' c)
  | out => out
  end.

Definition stats c : Stats := {|
  st_hits := hits c; st_misses := misses c; st_writebacks := writebacks c;
  st_evictions := evictions c; st_capacity := length (entries c);
  st_resident := count valid (entries c);
  st_dirty := count (λ e, valid e && dirty e) (entries c) |}.

Definition cache_read_sector (l : Z) (sector : list byte) (c : CachedDevice D)
    : res Error unit * list byte * CachedDevice D :=
  if negb (Nat.eqb (length sector) SECTOR_SIZE) then (Err InvalidBuffer, sector, c)
  else if sector_count (inner c) <=? l then (Err OutOfBounds, sector, c)
  else if Nat.eqb (length (entries c)) 0 then
    let '(r, sector, d') := read_sector l sector (inner c) in (r, sector, set_inner d' c)
  else match load l c with
       | (Ok index, c) =>
           match entries c !! index with
           | Some e => (Ok tt, data e, c)
           | None => (Panic, sector, c)
           end
       | (Err err, c) => (Err err, sector, c)
       | (Panic, c) => (Panic, sector, c)
       end.

(** The slot [write_sector] stores into: the sector's own slot on a hit,
    otherwise the victim's, written back and re-labelled. *)
Definition slot_for_write (l : Z) : M (CachedDevice D) Error nat := λ c,
  match find l c with
  | Some index => (Ok index, bump_hits c)
  | None =>
    let c := bump_misses c in
    let index := victim c in
    match write_back index c with
    | (Ok _, c) =>
        let c := count_eviction index c in
        (Ok index, set_entries
           (<[index := mkEntry l (replicate SECTOR_SIZE x00) true false 0]> (entries c)) c)
    | (Err err, c) => (Err err, c)
    | (Panic, c) => (Panic, c)
    end
  end.

Definition cache_write_sector (l : Z) (sector : list byte) (c : CachedDevice D)
    : res Error unit * CachedDevice D :=
  if negb (Nat.eqb (length sector) SECTOR_SIZE) then (Err InvalidBuffer, c)
  else if sector_count (inner c) <=? l then (Err OutOfBounds, c)
  else if is_read_only (inner c) then (Err ReadOnly, c)
  else if Nat.eqb (length (entries c)) 0 then
    let '(r, d') := write_sector l sector (inner c) in (r, set_inner d' c)
  else match slot_for_write l c with
       | (Ok index, c) =>
           let es := alter (λ e, set_dirty true (set_data sector e)) index (entries c) in
           (Ok tt, touch index (set_entries es c))
       | (Err err, c) => (Err err, c)
       | (Panic, c) => (Panic, c)
       end.

#[export] Instance CachedDevice_device : BlockDevice (CachedDevice D) := {|
  sector_count c := sector_count (inner c);
  is_read_only c := is_read_only (inner c);
  flush := cache_flush;
  read_sector := cache_read_sector;
  write_sector := cache_write_sector |}.
End cache.

Arguments touch : simpl never.
Arguments count_eviction : simpl never.
Arguments find : simpl never.
Arguments victim : simpl never.

(** ** Invariant and logical contents *)

Section invariant.
Context {D : Type} `{BlockDeviceLaws D}.
Implicit Types (c : CachedDevice D) (d : D).

(** Entry [e] caches sector [l]. *)
Definition caches (l : Z) (e : CacheEntry) : Prop := valid e = true ∧ lba e = l.

Record cache_ok c : Prop := {
  ok_inner : dev_ok (inner c);
  ok_data : ∀ i e, entries c !! i = Some e → length (data e) = SECTOR_SIZE;
  ok_range : ∀ i e, entries c !! i = Some e → valid e = true →
    0 ≤ lba e < sector_count (inner c);
  ok_distinct : ∀ i j e e', entries c !! i = Some e → entries c !! j = Some e' →
    valid e = true → valid e' = true → lba e = lba e' → i = j;
  ok_clean : ∀ i e, entries c !! i = Some e → valid e = true → dirty e = false →
    data e = dev_view (inner c) (lba e) }.

(** A sector's logical contents: its cached copy if there is one. *)
Definition cache_view c (l : Z) : list byte :=
  match find l c with
  | Some i => default [] (data <$> entries c !! i)
  | None => dev_view (inner c) l
  end.

Lemma find_Some l c i : find l c = Some i → ∃ e, entries c !! i = Some e ∧ caches l e.
Proof.
  intros (e & He & Hf)%position_Some_1. exists e. split; [done|].
  apply andb_true_iff in Hf as [? ?%Z.eqb_eq]. done.
Qed.

Lemma find_None l c i e : find l c = None → entries c !! i = Some e → ¬ caches l e.
Proof.
  intros Hf He [Hv Hl]. unfold find in Hf. rewrite position_None in Hf.
  specialize (Hf i e He). rewrite Hv, Hl, Z.eqb_refl in Hf. done.
Qed.

Lemma find_unique l c i e :
  cache_ok c → entries c !! i = Some e → caches l e → find l c = Some i.
Proof.
  intros Hok He [Hv Hl]. eapply position_unique; [done|by rewrite Hv, Hl, Z.eqb_refl|].
  intros j e' He' [Hv' ?%Z.eqb_eq]%andb_true_iff.
  eapply (ok_distinct c Hok); eauto. congruence.
Qed.

Lemma cache_view_cached l c i e :
  cache_ok c → entries c !! i = Some e → caches l e → cache_view c l = data e.
Proof.
  intros Hok He Hl. unfold cache_view. by rewrite (find_unique l c i e Hok He Hl), He.
Qed.

Lemma cache_view_uncached l c :
  (∀ i e, entries c !! i = Some e → ¬ caches l e) → cache_view c l = dev_view (inner c) l.
Proof.
  intros Hn. unfold cache_view. destruct (find l c) as [i|] eqn:Hf; [|done].
  apply find_Some in Hf as (e & He & Hc). by destruct (Hn i e He).
Qed.

(** Every sector is either cached by one entry or not at all. *)
Lemma cached_or_not l c :
  (∃ i e, entries c !! i = Some e ∧ caches l e) ∨
  (∀ i e, entries c !! i = Some e → ¬ caches l e).
Proof.
  destruct (find l c) as [i|] eqn:Hf.
  - left. apply find_Some in Hf as (e & ? & ?). eauto.
  - right. intros i e He. by eapply find_None.
Qed.

(** The contents are fixed by the cached copies and the device's view of the
    uncached sectors. *)
Lemma cache_view_ext c c' l :
  cache_ok c → cache_ok c' →
  (∀ i e, entries c !! i = Some e → caches l e →
     (∃ j e', entries c' !! j = Some e' ∧ caches l e' ∧ data e' = data e) ∨
     ((∀ j e', entries c' !! j = Some e' → ¬ caches l e') ∧ dev_view (inner c') l = data e)) →
  ((∀ i e, entries c !! i = Some e → ¬ caches l e) →
     (∃ j e', entries c' !! j = Some e' ∧ caches l e' ∧ data e' = dev_view (inner c) l) ∨
     ((∀ j e', entries c' !! j = Some e' → ¬ caches l e') ∧
      dev_view (inner c') l = dev_view (inner c) l)) →
  cache_view c' l = cache_view c l.
Proof.
  intros Hok Hok' Hc Hu.
  destruct (cached_or_not l c) as [(i & e & He & Hl)|Hn].
  - rewrite (cache_view_cached l c i e) by done.
    destruct (Hc i e He Hl) as [(j & e' & He' & Hl' & <-)|[Hn' <-]];
      [by eapply cache_view_cached|by apply cache_view_uncached].
  - rewrite (cache_view_uncached l c Hn).
    destruct (Hu Hn) as [(j & e' & He' & Hl' & <-)|[Hn' <-]];
      [by eapply cache_view_cached|by apply cache_view_uncached].
Qed.

(** [cache_eqv c c']: a client cannot tell [c'] from [c]. *)
Definition cache_eqv c c' : Prop :=
  cache_ok c' ∧ sector_count (inner c') = sector_count (inner c) ∧
  is_read_only (inner c') = is_read_only (inner c) ∧
  length (entries c') = length (entries c) ∧
  ∀ l, cache_view c' l = cache_view c l.

Lemma cache_eqv_refl c : cache_ok c → cache_eqv c c.
Proof. done. Qed.
Lemma cache_eqv_trans c1 c2 c3 : cache_eqv c1 c2 → cache_eqv c2 c3 → cache_eqv c1 c3.
Proof.
  intros (_ & Hc & Hr & Hn & Hv) (Hok & Hc' & Hr' & Hn' & Hv').
  split; [done|]. split_and!; try congruence; intros; by rewrite Hv', Hv.
Qed.

(** Statistics and ages do not matter. *)
Definition same_entry (e e' : CacheEntry) : Prop :=
  lba e' = lba e ∧ data e' = data e ∧ valid e' = valid e ∧ dirty e' = dirty e.

Lemma cache_ok_same c c' :
  inner c' = inner c → Forall2 same_entry (entries c) (entries c') →
  cache_ok c → cache_ok c'.
Proof.
  intros Hi Hf [Hin Hdat Hran Hdis Hcl].
  assert (Hlk : ∀ i e', entries c' !! i = Some e' →
            ∃ e, entries c !! i = Some e ∧ same_entry e e')
    by (intros i e' He'; eapply Forall2_lookup_r in Hf as (e & ? & ?); eauto).
  split; rewrite ?Hi; [done|..].
  - intros i e' (e & He & (_ & -> & _))%Hlk. eauto.
  - intros i e' (e & He & (-> & _ & -> & _))%Hlk. eauto.
  - intros i j e2 e2' (e & He & (-> & _ & -> & _))%Hlk (e3 & He3 & (-> & _ & -> & _))%Hlk. eauto.
  - intros i e' (e & He & (-> & -> & -> & ->))%Hlk. eauto.
Qed.

Lemma cache_eqv_same c c' :
  inner c' = inner c → Forall2 same_entry (entries c) (entries c') →
  cache_ok c → cache_eqv c c'.
Proof.
  intros Hi Hf Hok. pose proof (cache_ok_same c c' Hi Hf Hok) as Hok'.
  split; [done|]. rewrite Hi. split_and!; [done..| |]; [by eapply Forall2_length in Hf|].
  intros l. apply cache_view_ext; [done..| |]; rewrite ?Hi.
  - intros i e He [Hv Hl]. left.
    eapply Forall2_lookup_l in Hf as (e' & He' & (H1 & H2 & H3 & H4)); [|done].
    exists i, e'. unfold caches. by rewrite H1, H2, H3.
  - intros Hn. right. split; [|done]. intros j e' He' [Hv Hl].
    eapply Forall2_lookup_r in Hf as (e & He & (H1 & H2 & H3 & H4)); [|done].
    apply (Hn j e He). unfold caches. by rewrite <-H1, <-H3.
Qed.
End invariant.

(** ** The operations preserve the invariant and the contents *)

Section operations.
Context {D : Type} `{BlockDeviceLaws D}.
Implicit Types (c : CachedDevice D) (d : D).

Lemma same_entry_refl e : same_entry e e.
Proof. done. Qed.

Lemma touch_same i c : Forall2 same_entry (entries c) (entries (touch i c)).
Proof.
  apply Forall2_same_length_lookup. unfold touch. simpl. split.
  { by rewrite length_alter, length_fmap. }
  intros j e e' He He'. rewrite list_lookup_alter in He'.
  case_decide; subst; rewrite list_lookup_fmap, He in He'; simpl in He'; simplify_eq;
    by destruct (valid e).
Qed.

Lemma touch_eqv i c : cache_ok c → cache_eqv c (touch i c).
Proof. apply cache_eqv_same; [done|apply touch_same]. Qed.

(** A change of the statistics alone. *)
Lemma counters_eqv c c' :
  inner c' = inner c → entries c' = entries c → cache_ok c → cache_eqv c c'.
Proof.
  intros Hi He. apply cache_eqv_same; [done|]. rewrite He.
  apply Forall2_same_length_lookup. split; [done|]. intros; by simplify_eq.
Qed.

(** A change of the inner device that keeps its contents. *)
Lemma inner_eqv c d' :
  cache_ok c → same_dev dev_ok dev_view (inner c) d' → cache_eqv c (set_inner d' c).
Proof.
  intros [Hin Hdat Hran Hdis Hcl] (Hok' & Hc & Hr & Hv).
  assert (Hok : cache_ok (set_inner d' c)).
  { split; simpl; rewrite ?Hc; eauto. intros i e He Hva Hd. rewrite Hv. eauto. }
  split; [done|]. split_and!; [done..|]. intros l.
  apply cache_view_ext; [by split|done| |]; simpl; intros; [left; eauto|right; eauto].
Qed.

(** Replace slot [i], which must not hold the only copy of another sector, by
    a copy of sector [l]. *)
Lemma install_entry c i old e l :
  cache_ok c → entries c !! i = Some old → caches l e → length (data e) = SECTOR_SIZE →
  0 ≤ l < sector_count (inner c) →
  (dirty e = true ∨ data e = dev_view (inner c) l) →
  (valid old = true → dirty old = true → lba old = l) →
  (∀ j e', j ≠ i → entries c !! j = Some e' → ¬ caches l e') →
  cache_ok (set_entries (<[i:=e]> (entries c)) c) ∧
  ∀ x, cache_view (set_entries (<[i:=e]> (entries c)) c) x
       = if decide (x = l) then data e else cache_view c x.
Proof.
  intros Hok Hi [Hv Hl] Hlen Hran Hd Hold Hoth.
  pose proof Hok as [Hin Hdat Hr Hdis Hcl]. pose proof (lookup_lt_Some _ _ _ Hi) as Hlt.
  assert (Hok' : cache_ok (set_entries (<[i:=e]> (entries c)) c)).
  { split; simpl; [done|intros j e1 He1; list_update; eauto..| |].
    - intros j k e1 e2 He1 He2 Hv1 Hv2 Hll. list_update; eauto;
        exfalso; (eapply Hoth; [|eassumption|by split]); congruence.
    - intros j e1 He1 Hv1 Hd1. list_update; eauto. destruct Hd; congruence. }
  split; [done|]. intros x. case_decide as Hx; [subst x|].
  - eapply cache_view_cached; [done| |by split]. by apply list_lookup_insert_eq.
  - apply cache_view_ext; [done..| |]; simpl.
    + intros j e1 He1 [Hv1 Hl1]. destruct (decide (j = i)) as [->|]; simplify_eq.
      * right. split; [|symmetry; apply (Hcl _ _ Hi Hv1), not_true_is_false; auto].
        intros k e2 He2 [Hv2 Hl2]. list_update; try congruence.
        eapply (Hdis k i) in Hi; eauto.
      * left. exists j, e1. by rewrite list_lookup_insert_ne.
    + intros Hn. right. split; [|done]. intros j e1 He1 [Hv1 Hl1]. list_update; try congruence.
      by eapply Hn.
Qed.

(** Writing a slot back leaves the contents alone, even when the device
    fails; on success the slot is clean and the others are as before. *)
Lemma write_back_eqv i c r c' :
  cache_ok c → (i < length (entries c))%nat → write_back i c = (r, c') →
  cache_eqv c c' ∧ r ≠ Panic ∧
  (∀ j, lba <$> entries c' !! j = lba <$> entries c !! j) ∧
  (∀ j, valid <$> entries c' !! j = valid <$> entries c !! j) ∧
  (is_ok r → ∀ j e', entries c' !! j = Some e' → valid e' = true → dirty e' = true →
     j ≠ i ∧ entries c !! j = Some e').
Proof.
  intros Hok Hi Hwb. unfold write_back in Hwb.
  destruct (lookup_lt_is_Some_2 _ _ Hi) as [e He]. rewrite He in Hwb.
  destruct (valid e && dirty e) eqn:Hvd.
  - apply andb_true_iff in Hvd as [Hva Hdi].
    pose proof (ok_range c Hok i e He Hva) as Hran.
    destruct (write_sector (lba e) (data e) (inner c)) as [w d'] eqn:Hw.
    pose proof (write_law _ _ _ _ _ (ok_inner c Hok) (proj1 Hran) Hw) as (Hok' & Hc & Hr & Hw').
    pose proof Hok as [Hin Hdat Hra Hdis Hcl].
    assert (Hoth : ∀ j e', entries c !! j = Some e' → valid e' = true → dirty e' = false →
              lba e' ≠ lba e).
    { intros j e' He' Hv' Hd' Hl. assert (j = i) as -> by (eapply Hdis; eauto). congruence. }
    destruct w as [[]|err|]; simplify_eq; [| |done].
    + destruct Hw' as (_ & _ & _ & Hview).
      assert (Hlk : ∀ j e1, alter (set_dirty false) i (entries c) !! j = Some e1 →
        (j = i ∧ e1 = set_dirty false e) ∨ (j ≠ i ∧ entries c !! j = Some e1)).
      { intros j e1. rewrite list_lookup_alter. case_decide; subst; rewrite ?He; simpl; naive_solver. }
      assert (Hcok : cache_ok (bump_writebacks (set_entries
          (alter (set_dirty false) i (entries c)) (set_inner d' c)))).
      { split; simpl; rewrite ?Hc; [done|..].
        - intros j e1 [[-> ->]|[Hne He1]]%Hlk; simpl; eauto.
        - intros j e1 [[-> ->]|[Hne He1]]%Hlk; simpl; eauto.
        - intros j k e1 e2 [[-> ->]|[Hne He1]]%Hlk [[-> ->]|[Hne2 He2]]%Hlk; simpl; eauto.
        - intros j e1 [[-> ->]|[Hne He1]]%Hlk; simpl; intros; rewrite Hview.
          + by rewrite decide_True.
          + rewrite decide_False by eauto. eauto. }
      split_and!; [split; [done|]; split_and!| |..].
      * done.
      * done.
      * simpl. by rewrite length_alter.
      * intros l. apply cache_view_ext; [done..| |]; simpl.
        -- intros j e1 He1 Hl1. left. exists j. rewrite list_lookup_alter.
           case_decide; subst; simplify_eq; rewrite ?He, ?He1; simpl; eexists; split_and!; eauto.
        -- intros Hn. right. rewrite Hview. split.
           ++ intros j e1 [[-> ->]|[Hne He1]]%Hlk [Hv1 Hl1]; [by apply (Hn i e He)|by apply (Hn j e1)].
           ++ rewrite decide_False; [done|]. intros ->. by apply (Hn i e He).
      * done.
      * intros j. simpl. rewrite list_lookup_alter. case_decide; subst; [|done]. by rewrite He.
      * intros j. simpl. rewrite list_lookup_alter. case_decide; subst; [|done]. by rewrite He.
      * intros _ j e1 [[-> ->]|[Hne He1]]%Hlk; simpl; intros; [done|by split].
    + assert (Hcok : cache_ok (set_inner d' c)).
      { split; simpl; rewrite ?Hc; eauto. intros j e1 He1 Hv1 Hd1. rewrite Hw'; eauto. }
      split_and!; [split; [done|]; split_and!; try done| | | |]; try done.
      intros l. apply cache_view_ext; [done..| |]; simpl; [intros; left; eauto|].
      intros Hn. right. split; [done|]. apply Hw'. intros ->. by apply (Hn i e He).
  - simplify_eq. split_and!; [by apply cache_eqv_refl|done..|].
    intros _ j e' He' Hv' Hd'. split; [|done]. intros ->. simplify_eq.
    by rewrite Hv', Hd' in Hvd.
Qed.
End operations.

(** ** The cache keeps the block-device contract *)

Section laws.
Context {D : Type} `{BlockDeviceLaws D}.
Implicit Types (c : CachedDevice D) (d : D).

Lemma victim_lt c : (0 < length (entries c))%nat → (victim c < length (entries c))%nat.
Proof.
  intros Hn. unfold victim. destruct (position _ _) eqn:Hp; [by eapply position_lt|].
  destruct (max_by_key_is_Some age (entries c) Hn) as [i Hi]. rewrite Hi. simpl.
  apply max_by_key_Some in Hi as (z & Hz & _). by eapply lookup_lt_Some.
Qed.

Lemma count_eviction_fields i c :
  inner (count_eviction i c) = inner c ∧ entries (count_eviction i c) = entries c.
Proof. unfold count_eviction. by destruct (default _ _). Qed.

(** After a successful write-back of slot [i] that slot may be overwritten. *)
Lemma victim_ready c r c1 l i :
  cache_ok c → (0 < length (entries c))%nat → find l c = None → i = victim c →
  write_back i (bump_misses c) = (r, c1) →
  cache_eqv c c1 ∧ r ≠ Panic ∧
  (is_ok r → ∃ old, entries c1 !! i = Some old ∧
     (valid old = true → dirty old = true → lba old = l) ∧
     ∀ j e, entries c1 !! j = Some e → ¬ caches l e).
Proof.
  intros Hok Hn Hf -> Hwb.
  pose proof (counters_eqv c (bump_misses c) eq_refl eq_refl Hok) as Heq.
  pose proof (victim_lt c Hn) as Hv.
  destruct (write_back_eqv _ _ _ _ (proj1 Heq) Hv Hwb) as (Heq1 & Hnp & Hlba & Hval & Hok1).
  split; [exact (cache_eqv_trans _ _ _ Heq Heq1)|]. split; [done|]. intros Hr.
  assert (Hlen : length (entries c1) = length (entries c)).
  { destruct Heq1 as (_ & _ & _ & -> & _). done. }
  destruct (lookup_lt_is_Some_2 (entries c1) (victim c)) as [old Hold]; [lia|].
  exists old. split; [done|]. split.
  - intros Hvo Hdo. by destruct (Hok1 Hr _ _ Hold Hvo Hdo).
  - intros j e He [Hve Hle]. specialize (Hlba j). specialize (Hval j). rewrite He in Hlba, Hval.
    simpl in Hlba, Hval. destruct (entries c !! j) as [e0|] eqn:He0; simplify_eq/=.
    apply (find_None _ _ _ _ Hf He0). split; congruence.
Qed.

(** Label slot [i] with the sector just read from the device. *)
Lemma fill_slot c l i old d' :
  cache_ok c → entries c !! i = Some old →
  (valid old = true → dirty old = true → lba old = l) →
  (∀ j e, entries c !! j = Some e → ¬ caches l e) →
  0 ≤ l < sector_count (inner c) → same_dev dev_ok dev_view (inner c) d' →
  let c2 := count_eviction i (set_inner d' c) in
  let c3 := touch i (set_entries
              (<[i := mkEntry l (dev_view (inner c) l) true false 0]> (entries c2)) c2) in
  cache_eqv c c3 ∧ ∃ e, entries c3 !! i = Some e ∧ data e = cache_view c l.
Proof.
  intros Hok Hold Hdirty Hnone Hran Hsd c2 c3.
  pose proof (inner_eqv c d' Hok Hsd) as Heq.
  destruct (count_eviction_fields i (set_inner d' c)) as [Hi2 He2]. fold c2 in Hi2, He2.
  pose proof (counters_eqv (set_inner d' c) c2 Hi2 He2 (proj1 Heq)) as Heq2.
  pose proof (cache_eqv_trans _ _ _ Heq Heq2) as (Hok2 & Hc2 & Hr2 & Hn2 & Hv2).
  pose proof Hsd as (_ & _ & _ & Hvd). simpl in Hi2, He2.
  assert (Hview : cache_view c l = dev_view (inner c) l) by by apply cache_view_uncached.
  destruct (install_entry c2 i old (mkEntry l (dev_view (inner c) l) true false 0) l)
    as [Hoki Hvi]; try done.
  { by rewrite He2. }
  { simpl. rewrite dev_view_length; [done|exact (ok_inner _ Hok)|done]. }
  { by rewrite Hc2. }
  { right. simpl. by rewrite Hi2, Hvd. }
  { intros j e' _. rewrite He2. apply Hnone. }
  split.
  - eapply cache_eqv_trans; [|by apply touch_eqv]. split; [done|]. simpl.
    rewrite length_insert. split_and!; [done..|]. intros x. rewrite Hvi.
    case_decide; [by subst x|done].
  - pose proof (touch_same i (set_entries
      (<[i := mkEntry l (dev_view (inner c) l) true false 0]> (entries c2)) c2)) as Hs.
    eapply Forall2_lookup_l in Hs as (e' & He' & (_ & Hd & _));
      [|apply list_lookup_insert_eq; rewrite He2; by eapply lookup_lt_Some].
    exists e'. split; [done|]. by rewrite Hd.
Qed.

Lemma load_spec l c r c' :
  cache_ok c → (0 < length (entries c))%nat → 0 ≤ l < sector_count (inner c) →
  load l c = (r, c') →
  cache_eqv c c' ∧
  match r with
  | Ok i => ∃ e, entries c' !! i = Some e ∧ data e = cache_view c l
  | Err _ => True
  | Panic => False
  end.
Proof.
  intros Hok Hn Hran Hld. unfold load in Hld.
  destruct (find l c) as [i|] eqn:Hf.
  - simplify_eq.
    pose proof (counters_eqv c (bump_hits c) eq_refl eq_refl Hok) as Heq.
    split; [eapply cache_eqv_trans; [exact Heq|by apply touch_eqv, Heq]|].
    destruct (find_Some _ _ _ Hf) as (e & He & Hc).
    rewrite (cache_view_cached l c i e Hok He Hc).
    pose proof (touch_same i (bump_hits c)) as Hs.
    eapply Forall2_lookup_l in Hs as (e' & He' & (_ & Hd & _)); [|exact He]. eauto.
  - destruct (write_back _ _) as [w c1] eqn:Hwb.
    destruct (victim_ready c w c1 l _ Hok Hn Hf eq_refl Hwb) as (Heq1 & Hnp & Hrd).
    change (victim (bump_misses c)) with (victim c) in *.
    destruct w as [u|err|]; [|by simplify_eq|done].
    destruct (Hrd I) as (old & Hold & Hdirty & Hnone). clear Hrd.
    destruct (read_sector l _ (inner c1)) as [[rr sector] d'] eqn:Hrs.
    pose proof Heq1 as (Hok1 & Hc1 & _ & _ & Hv1).
    destruct (read_law _ _ _ _ _ _ (ok_inner _ Hok1) (proj1 Hran) Hrs) as (Hsd & Hbl & Hrr).
    pose proof (cache_eqv_trans _ _ _ Heq1 (inner_eqv c1 d' Hok1 Hsd)) as Heq2.
    destruct rr as [[]|err|]; [|by simplify_eq|done]. destruct Hrr as (_ & _ & ->).
    destruct (fill_slot c1 l _ old d' Hok1 Hold Hdirty Hnone) as [Heq3 Hdata];
      [by rewrite Hc1|done|].
    simplify_eq. rewrite <-Hv1. split; [|done]. exact (cache_eqv_trans _ _ _ Heq1 Heq3).
Qed.

Lemma cache_read_law c l buf r buf' c' :
  cache_ok c → 0 ≤ l → read_sector l buf c = (r, buf', c') →
  same_dev cache_ok cache_view c c' ∧ length buf' = length buf ∧
  match r with
  | Ok _ => length buf = SECTOR_SIZE ∧ l < sector_count c ∧ buf' = cache_view c l
  | Err _ => True
  | Panic => False
  end.
Proof.
  intros Hok Hl Hr. cbn [read_sector CachedDevice_device] in Hr. unfold cache_read_sector in Hr.
  destruct (Nat.eqb_spec (length buf) SECTOR_SIZE) as [Hb|]; simpl in Hr; [|by simplify_eq].
  destruct (Z.leb_spec (sector_count (inner c)) l); [by simplify_eq|].
  destruct (Nat.eqb_spec (length (entries c)) 0) as [H0n|Hn].
  - destruct (read_sector l buf (inner c)) as [[rr sector] d'] eqn:Hrs. simplify_eq.
    destruct (read_law _ _ _ _ _ _ (ok_inner _ Hok) Hl Hrs) as (Hsd & Hbl & Hrr).
    pose proof (inner_eqv c d' Hok Hsd) as (? & ? & ? & ? & ?).
    split; [done|]. split; [done|]. destruct r; [|done..].
    destruct Hrr as (? & ? & ->). split_and!; [done..|].
    rewrite cache_view_uncached; [done|]. intros i e He.
    apply nil_length_inv in H0n. by rewrite H0n in He.
  - destruct (load l c) as [lr c1] eqn:Hld.
    destruct (load_spec l c lr c1 Hok ltac:(lia) ltac:(lia) Hld) as [Heq Hlr].
    pose proof Heq as (? & ? & ? & ? & ?).
    destruct lr as [i|err|]; [|by simplify_eq|done]. destruct Hlr as (e & He & Hd).
    rewrite He in Hr. simplify_eq. split; [done|].
    assert (length (data e) = SECTOR_SIZE) by (by eapply ok_data). split; [congruence|].
    split_and!; [done..|]. by rewrite Hd.
Qed.

(** Storing into the slot [slot_for_write] chose updates just sector [l]. *)
Lemma slot_for_write_spec l buf c r c1 :
  cache_ok c → (0 < length (entries c))%nat → 0 ≤ l < sector_count (inner c) →
  length buf = SECTOR_SIZE → slot_for_write l c = (r, c1) →
  match r with
  | Ok i =>
      let es := alter (λ e, set_dirty true (set_data buf e)) i (entries c1) in
      let c2 := set_entries es c1 in
      cache_ok c2 ∧ sector_count (inner c2) = sector_count (inner c) ∧
      is_read_only (inner c2) = is_read_only (inner c) ∧
      ∀ x, cache_view c2 x = if decide (x = l) then buf else cache_view c x
  | Err _ => cache_eqv c c1
  | Panic => False
  end.
Proof.
  intros Hok Hn Hran Hb Hs. unfold slot_for_write in Hs.
  destruct (find l c) as [i|] eqn:Hf.
  - simplify_eq. destruct (find_Some _ _ _ Hf) as (e & He & Hc). simpl.
    rewrite (alter_store _ _ _ _ He).
    destruct (install_entry (bump_hits c) i e (set_dirty true (set_data buf e)) l)
      as [Hoki Hvi]; simpl; auto.
    { by apply (counters_eqv c (bump_hits c)). }
    { by destruct Hc. }
    intros j e' Hne He' Hc'. apply Hne. destruct Hc, Hc'.
    eapply (ok_distinct c Hok); eauto. congruence.
  - destruct (write_back _ _) as [w c2] eqn:Hwb.
    destruct (victim_ready c w c2 l _ Hok Hn Hf eq_refl Hwb) as (Heq & Hnp & Hrd).
    change (victim (bump_misses c)) with (victim c) in *.
    destruct w as [u|err|]; [|by simplify_eq|done].
    destruct (Hrd I) as (old & Hold & Hdirty & Hnone). clear Hrd.
    destruct (count_eviction_fields (victim c) c2) as [Hi2 He2]. simplify_eq.
    set (c3 := count_eviction (victim c) c2) in *.
    pose proof (cache_eqv_trans _ _ _ Heq (counters_eqv c2 c3 Hi2 He2 (proj1 Heq)))
      as (Hok3 & Hc3 & Hr3 & Hn3 & Hv3). simpl.
    erewrite alter_store by
      (apply list_lookup_insert_eq; rewrite He2; by eapply lookup_lt_Some).
    rewrite list_insert_insert_eq. simpl.
    destruct (install_entry c3 (victim c) old
      (set_dirty true (set_data buf (mkEntry l (replicate SECTOR_SIZE x00) true false 0))) l)
      as [Hoki Hvi];
      [done|by rewrite He2|by split|done|by rewrite Hc3|by left|done
      |intros j e' _; rewrite He2; apply Hnone|].
    split_and!; [done..|]. intros x. rewrite Hvi. case_decide; [done|apply Hv3].
Qed.

Lemma cache_write_spec c l buf r c' :
  cache_ok c → 0 ≤ l → (0 < length (entries c))%nat → write_sector l buf c = (r, c') →
  cache_ok c' ∧ sector_count c' = sector_count c ∧ is_read_only c' = is_read_only c ∧
  match r with
  | Ok _ => length buf = SECTOR_SIZE ∧ l < sector_count c ∧ is_read_only c = false ∧
            ∀ x, cache_view c' x = if decide (x = l) then buf else cache_view c x
  | Err _ => ∀ x, cache_view c' x = cache_view c x
  | Panic => False
  end.
Proof.
  intros Hok Hl Hn Hr. cbn [write_sector CachedDevice_device] in Hr. unfold cache_write_sector in Hr.
  destruct (Nat.eqb_spec (length buf) SECTOR_SIZE) as [Hb|]; simpl in Hr; [|by simplify_eq].
  destruct (Z.leb_spec (sector_count (inner c)) l); [by simplify_eq|].
  destruct (is_read_only (inner c)) eqn:Hro; [by simplify_eq|].
  destruct (Nat.eqb_spec (length (entries c)) 0) as [H0n|_]; [lia|].
  destruct (slot_for_write l c) as [w c1] eqn:Hs.
  pose proof (slot_for_write_spec l buf c w c1 Hok Hn ltac:(lia) Hb Hs) as Hspec.
  destruct w as [i|err|]; [|simplify_eq; by destruct Hspec as (? & ? & ? & ? & ?)|done].
  destruct Hspec as (Hok2 & Hc2 & Hr2 & Hv2). simplify_eq.
  destruct (touch_eqv i _ Hok2) as (Hok3 & Hc3 & Hr3 & _ & Hv3).
  split; [done|]. simpl in *. split; [congruence|]. split; [congruence|].
  split_and!; [done..|]. intros x. by rewrite Hv3, Hv2.
Qed.

Lemma cache_write_law c l buf r c' :
  cache_ok c → 0 ≤ l → write_sector l buf c = (r, c') →
  cache_ok c' ∧ sector_count c' = sector_count c ∧ is_read_only c' = is_read_only c ∧
  match r with
  | Ok _ => length buf = SECTOR_SIZE ∧ l < sector_count c ∧ is_read_only c = false ∧
            ∀ x, cache_view c' x = if decide (x = l) then buf else cache_view c x
  | Err _ => ∀ x, x ≠ l → cache_view c' x = cache_view c x
  | Panic => False
  end.
Proof.
  intros Hok Hl Hr. destruct (decide (0 < length (entries c))%nat) as [Hn|Hn].
  { destruct (cache_write_spec c l buf r c' Hok Hl Hn Hr) as (? & ? & ? & ?).
    split_and!; [done..|]. by destruct r. }
  cbn [write_sector CachedDevice_device] in Hr. unfold cache_write_sector in Hr.
  destruct (Nat.eqb_spec (length buf) SECTOR_SIZE) as [Hb|]; simpl in Hr; [|by simplify_eq].
  destruct (Z.leb_spec (sector_count (inner c)) l); [by simplify_eq|].
  destruct (is_read_only (inner c)) eqn:Hro; [by simplify_eq|].
  destruct (Nat.eqb_spec (length (entries c)) 0) as [H0n|]; [|lia].
  destruct (write_sector l buf (inner c)) as [w d'] eqn:Hw. simplify_eq.
  destruct (write_law _ _ _ _ _ (ok_inner _ Hok) Hl Hw) as (Hd & Hc & Hro' & Hrr).
  assert (Hno : ∀ i e, entries c !! i = Some e → False).
  { intros i e He. apply nil_length_inv in H0n. by rewrite H0n in He. }
  split; [split; simpl; [done|intros; exfalso; eauto..]|]. simpl.
  split; [done|]. split; [congruence|].
  assert (Hcv : ∀ d x, cache_view (set_inner d c) x = dev_view d x)
    by (intros d x; rewrite cache_view_uncached; [done|]; intros i e He; by destruct (Hno i e)).
  assert (Hcv' : ∀ x, cache_view c x = dev_view (inner c) x)
    by (intros x; rewrite cache_view_uncached; [done|]; intros i e He; by destruct (Hno i e)).
  destruct r; [|intros x Hx; rewrite Hcv, Hcv'; by apply Hrr|done].
  destruct Hrr as (? & ? & ? & Hv). split_and!; [done..|].
  intros x. by rewrite Hcv, Hcv', Hv.
Qed.

Lemma write_back_all_spec idxs c r c' :
  cache_ok c → Forall (λ i, (i < length (entries c))%nat) idxs →
  write_back_all idxs c = (r, c') →
  cache_eqv c c' ∧ r ≠ Panic ∧
  (is_ok r → ∀ j e', entries c' !! j = Some e' → valid e' = true → dirty e' = true →
     j ∉ idxs ∧ entries c !! j = Some e').
Proof.
  revert c. induction idxs as [|i idxs IH]; intros c Hok Hall Hr; simpl in Hr.
  { unfold mret, M_ret in Hr. simplify_eq. split_and!; [by apply cache_eqv_refl|done|].
    intros. split; [set_solver|done]. }
  apply Forall_cons in Hall as [Hi Hall].
  apply M_bind_inv in Hr as [([] & c1 & Hw & Hr)|[(err & Hw & ->)|[Hw ->]]].
  - destruct (write_back_eqv _ _ _ _ Hok Hi Hw) as (Heq & _ & _ & _ & Hd).
    pose proof Heq as (Hok1 & _ & _ & Hn & _).
    destruct (IH c1) as (Heq2 & Hnp & Hd2); [done|by rewrite Hn|done|].
    split; [exact (cache_eqv_trans _ _ _ Heq Heq2)|]. split; [done|].
    intros Hok' j e' He' Hv Hdi. destruct (Hd2 Hok' j e' He' Hv Hdi) as [Hj He1].
    destruct (Hd I j e' He1 Hv Hdi) as [Hji He]. set_solver.
  - destruct (write_back_eqv _ _ _ _ Hok Hi Hw) as (Heq & _). split_and!; done.
  - by destruct (write_back_eqv _ _ _ _ Hok Hi Hw) as (_ & ? & _).
Qed.

Lemma cache_flush_spec c r c' :
  cache_ok c → flush c = (r, c') →
  cache_eqv c c' ∧ r ≠ Panic ∧
  (is_ok r → ∀ l, dev_view (inner c') l = cache_view c l).
Proof.
  intros Hok Hr. cbn [flush CachedDevice_device] in Hr. unfold cache_flush in Hr.
  destruct (write_back_all _ c) as [w c1] eqn:Hw.
  assert (Hall : Forall (λ i, (i < length (entries c))%nat) (seq 0 (length (entries c)))).
  { apply Forall_forall. intros i Hi%elem_of_seq. lia. }
  destruct (write_back_all_spec _ _ _ _ Hok Hall Hw) as (Heq & Hnp & Hd).
  destruct w as [[]|err|]; [|simplify_eq; by split_and!|done].
  destruct (flush (inner c1)) as [fr d'] eqn:Hfl. simplify_eq.
  destruct (flush_law _ _ _ (ok_inner _ (proj1 Heq)) Hfl) as [Hsd Hnp'].
  pose proof (cache_eqv_trans _ _ _ Heq (inner_eqv c1 d' (proj1 Heq) Hsd)) as Heq2.
  split; [done|]. split; [done|]. intros _ l. simpl.
  destruct Heq as (Hok1 & _ & _ & Hn1 & Hv1). destruct Hsd as (_ & _ & _ & Hvd).
  rewrite Hvd, <-Hv1.
  destruct (cached_or_not l c1) as [(i & e & He & Hl)|Hn]; [|by rewrite cache_view_uncached].
  rewrite (cache_view_cached l c1 i e) by done. destruct Hl as [Hva <-].
  symmetry. apply (ok_clean c1 Hok1 i e He Hva). apply not_true_is_false. intros Hdi.
  destruct (Hd I i e He Hva Hdi) as [Hi _]. apply Hi, elem_of_seq.
  apply lookup_lt_Some in He. lia.
Qed.
End laws.

(** [CachedDevice] is itself a lawful block device: it can be stacked under any
    client proved against the interface. *)
#[export] Program Instance CachedDevice_laws {D} `{BlockDeviceLaws D} :
    BlockDeviceLaws (CachedDevice D) := {|
  dev_ok := cache_ok; dev_view := cache_view |}.
Next Obligation.
  simpl. intros D ?? c l Hok Hl. destruct (cached_or_not l c) as [(i & e & He & Hc)|Hn].
  - rewrite (cache_view_cached l c i e) by done. by eapply ok_data.
  - rewrite cache_view_uncached by done. by apply dev_view_length; [apply ok_inner|].
Qed.
Next Obligation. intros. by eapply cache_read_law. Qed.
Next Obligation. intros. by eapply cache_write_law. Qed.
Next Obligation.
  intros D ?? c r c' Hok Hf. destruct (cache_flush_spec c r c' Hok Hf) as ((?&?&?&_&?)&?&_).
  done.
Qed.

(** ** Least-recently-used replacement *)

Section lru.
Context {D : Type} `{BlockDeviceLaws D}.
Implicit Types (c : CachedDevice D) (q : list nat).

(** Slot [i] was used more recently than slot [j]. *)
Definition fresher c (i j : nat) : Prop :=
  ∀ ei ej, entries c !! i = Some ei → entries c !! j = Some ej → age ei < age ej.

(** [q] lists the occupied slots, most recently used first. *)
Record lru_rel c q : Prop := {
  lru_nodup : NoDup q;
  lru_dom : ∀ i, i ∈ q ↔ ∃ e, entries c !! i = Some e ∧ valid e = true;
  lru_sorted : StronglySorted (fresher c) q }.

(** No age counter is about to saturate. *)
Definition ages_small c : Prop :=
  ∀ i e, entries c !! i = Some e → 0 ≤ age e < 2 ^ 64 - 1.

(** Slot [i] moves to the front. *)
Definition promote (i : nat) q : list nat := i :: filter (λ j, j ≠ i) q.

Lemma StronglySorted_filter_map (R R' : relation nat) (P : nat → Prop) `{∀ x, Decision (P x)} q :
  (∀ i j, i ∈ q → j ∈ q → P i → P j → R i j → R' i j) →
  StronglySorted R q → StronglySorted R' (filter P q).
Proof.
  induction q as [|i q IH]; intros Himp Hs; [constructor|].
  apply StronglySorted_inv in Hs as [Hs Hall].
  assert (Hs' : StronglySorted R' (filter P q)) by (apply IH; [set_solver|done]).
  rewrite filter_cons. case_decide; [|done]. constructor; [done|].
  rewrite Forall_forall in Hall |- *. intros j [Hj Hjq]%list_elem_of_filter.
  apply Himp; [set_solver..|auto].
Qed.

Lemma elem_of_promote i j q : j ∈ promote i q ↔ j = i ∨ (j ≠ i ∧ j ∈ q).
Proof. unfold promote. by rewrite elem_of_cons, list_elem_of_filter. Qed.

Lemma lookup_touch i c j e' :
  entries (touch i c) !! j = Some e' →
  ∃ e, entries c !! j = Some e ∧ valid e' = valid e ∧ lba e' = lba e ∧
    age e' = if decide (i = j) then 0
             else if valid e then saturating_add 64 (age e) 1 else age e.
Proof.
  unfold touch. simpl. rewrite list_lookup_alter, !list_lookup_fmap.
  destruct (decide (i = j)) as [->|]; destruct (entries c !! j) as [e|]; simpl; intros;
    simplify_eq; exists e; destruct (valid e) eqn:Hve; simpl; by rewrite ?Hve.
Qed.

(** Touching slot [i], after storing into no other slot, promotes it. *)
Lemma touch_promotes c c1 i e q :
  lru_rel c q → ages_small c → entries c1 !! i = Some e → valid e = true →
  (∀ j, j ≠ i → valid <$> entries c1 !! j = valid <$> entries c !! j ∧
                age <$> entries c1 !! j = age <$> entries c !! j) →
  lru_rel (touch i c1) (promote i q).
Proof.
  intros [Hnd Hdom Hs] Hsm Hi Hv Hoth.
  assert (Hback : ∀ j e', j ≠ i → entries (touch i c1) !! j = Some e' → ∃ e0,
            entries c !! j = Some e0 ∧ valid e' = valid e0 ∧
            age e' = if valid e0 then saturating_add 64 (age e0) 1 else age e0).
  { intros j e' Hne He'. destruct (lookup_touch i c1 j e' He') as (e1 & He1 & Hv1 & _ & Ha1).
    destruct (Hoth j Hne) as [Hvj Haj]. rewrite He1 in Hvj, Haj.
    destruct (entries c !! j) as [e0|]; simplify_eq/=. rewrite decide_False in Ha1 by done.
    exists e0. split; [done|]. by rewrite Hv1, Ha1, Hvj, Haj. }
  assert (Hdomj : ∀ j, j ≠ i → j ∈ q ↔ ∃ e', entries (touch i c1) !! j = Some e' ∧ valid e' = true).
  { intros j Hne. rewrite Hdom. split.
    - intros (e0 & He0 & Hv0). pose proof (touch_same i c1) as Hf.
      destruct (Hoth j Hne) as [Hvj _]. rewrite He0 in Hvj.
      destruct (entries c1 !! j) as [e1|] eqn:He1; simplify_eq/=.
      eapply Forall2_lookup_l in Hf as (e' & He' & (_ & _ & Hv' & _)); [|done].
      exists e'. split; [done|]. congruence.
    - intros (e' & He' & Hv'). destruct (Hback j e' Hne He') as (e0 & He0 & Hv0 & _).
      exists e0. split; [done|]. congruence. }
  split.
  - unfold promote. apply NoDup_cons. split; [|by apply NoDup_filter].
    by intros [? _]%list_elem_of_filter.
  - intros j. rewrite elem_of_promote.
    destruct (decide (j = i)) as [->|Hne]; [|rewrite <-Hdomj by done; clear -Hne; naive_solver].
    split; [intros _|by left]. pose proof (touch_same i c1) as Hf.
    eapply Forall2_lookup_l in Hf as (e' & He' & (_ & _ & Hv' & _)); [|exact Hi].
    exists e'. split; [done|]. congruence.
  - assert (Hval : ∀ j e', j ∈ q → entries c !! j = Some e' → valid e' = true).
    { intros j e' (e0 & He0 & Hv0)%Hdom He'. by simplify_eq. }
    constructor.
    + eapply StronglySorted_filter_map; [|exact Hs].
      intros a b Ha Hb Hai Hbi Hab ea eb Hea Heb.
      destruct (Hback a ea Hai Hea) as (ea0 & Hea0 & _ & ->).
      destruct (Hback b eb Hbi Heb) as (eb0 & Heb0 & _ & ->).
      rewrite (Hval a ea0), (Hval b eb0) by done. specialize (Hab ea0 eb0 Hea0 Heb0).
      pose proof (Hsm _ _ Hea0). pose proof (Hsm _ _ Heb0). unfold saturating_add. lia.
    + apply Forall_forall. intros j [Hj Hjq]%list_elem_of_filter ei ej Hei Hej.
      destruct (lookup_touch i c1 i ei Hei) as (e1 & He1 & _ & _ & ->).
      rewrite decide_True by done. destruct (Hback j ej Hj Hej) as (e0 & He0 & _ & ->).
      rewrite (Hval j e0) by done. pose proof (Hsm _ _ He0). unfold saturating_add. lia.
Qed.

Lemma write_back_ages i c r c' :
  write_back i c = (r, c') →
  ∀ j, valid <$> entries c' !! j = valid <$> entries c !! j ∧
       age <$> entries c' !! j = age <$> entries c !! j.
Proof.
  unfold write_back. destruct (entries c !! i) as [e|] eqn:He; [|by intros; simplify_eq].
  destruct (valid e && dirty e); [|by intros; simplify_eq].
  destruct (write_sector _ _ _) as [[[]|err|] d']; intros; simplify_eq/=; try done.
  rewrite list_lookup_alter. case_decide; subst; [|done]. by rewrite He.
Qed.

(** When every slot is occupied the victim is the last of the recency order. *)
Lemma victim_is_last c q :
  lru_rel c q → (0 < length (entries c))%nat →
  (∀ i e, entries c !! i = Some e → valid e = true) → last q = Some (victim c).
Proof.
  intros [Hnd Hdom Hs] Hn Hfull. unfold victim.
  destruct (position _ _) as [i|] eqn:Hp.
  { apply position_Some_1 in Hp as (e & He & Hv). rewrite (Hfull _ _ He) in Hv. done. }
  destruct (max_by_key_is_Some age _ Hn) as [i Hi]. rewrite Hi. simpl.
  apply max_by_key_Some in Hi as (z & Hz & Hmax).
  assert (Hiq : i ∈ q) by (apply Hdom; eauto).
  destruct (last q) as [k|] eqn:Hl; [|apply last_None in Hl as ->; set_solver].
  f_equal. apply last_Some in Hl as [q' ->].
  apply elem_of_app in Hiq as [Hiq|Hiq]; [|set_solver]. exfalso.
  destruct (proj1 (Hdom k) ltac:(set_solver)) as (ek & Hek & _).
  destruct (Hmax _ _ Hek) as [Hle _].
  assert (Hf : fresher c i k).
  { clear -Hs Hiq. induction q' as [|x q' IH]; [set_solver|].
    apply StronglySorted_inv in Hs as [Hs Hall]. rewrite Forall_forall in Hall.
    apply elem_of_cons in Hiq as [->|?]; [apply Hall; set_solver|by apply IH]. }
  specialize (Hf z ek Hz Hek). lia.
Qed.
End lru.

(** ** Client traces against an abstract disk *)

Inductive request := RRead (l : Z) | RWrite (l : Z) (buf : list byte) | RFlush.

Definition request_lba (rq : request) : Z :=
  match rq with RRead l | RWrite l _ => l | RFlush => 0 end.

Section traces.
Context {D : Type} `{BlockDevice D}.

(** One client call; a read returns the bytes it delivered. *)
Definition exec (rq : request) (d : D) : res Error (list byte) * D :=
  match rq with
  | RRead l => let '(r, buf, d') := read_sector l (replicate SECTOR_SIZE x00) d in
               ((λ _, buf) <$> r, d')
  | RWrite l buf => let '(r, d') := write_sector l buf d in ((λ _, []) <$> r, d')
  | RFlush => let '(r, d') := flush d in ((λ _, []) <$> r, d')
  end.

Fixpoint run (rqs : list request) (d : D) : list (res Error (list byte)) * D :=
  match rqs with
  | [] => ([], d)
  | rq :: rqs => let '(r, d) := exec rq d in let '(rs, d) := run rqs d in (r :: rs, d)
  end.
End traces.

(** The abstract disk: only a successful write changes the store, a successful
    read returns the stored sector, nothing panics. *)
Definition spec_step (m : Z → list byte) (rq : request) (r : res Error (list byte))
    : Z → list byte :=
  match rq, r with
  | RWrite l buf, Ok _ => λ x, if decide (x = l) then buf else m x
  | _, _ => m
  end.
Definition spec_agrees (m : Z → list byte) (rq : request) (r : res Error (list byte)) : Prop :=
  match rq, r with
  | _, Panic => False
  | RRead l, Ok b => b = m l
  | _, _ => True
  end.
Fixpoint spec_run (m : Z → list byte) (rqs : list request) (rs : list (res Error (list byte)))
    (final : Z → list byte) : Prop :=
  match rqs, rs with
  | [], [] => ∀ l, final l = m l
  | rq :: rqs, r :: rs => spec_agrees m rq r ∧ spec_run (spec_step m rq r) rqs rs final
  | _, _ => False
  end.

Section properties.
Context {D : Type} `{BlockDeviceLaws D}.
Implicit Types (c : CachedDevice D) (d : D).

Lemma new_ok N d : dev_ok d → cache_ok (new N d).
Proof.
  intros Hok. split; simpl; [done|..].
  - intros i e [-> _]%lookup_replicate. simpl. by rewrite length_replicate.
  - by intros i e [-> _]%lookup_replicate.
  - by intros i j e e' [-> _]%lookup_replicate.
  - by intros i e [-> _]%lookup_replicate.
Qed.

Lemma new_view N d l : cache_view (new N d) l = dev_view d l.
Proof. rewrite cache_view_uncached; [done|]. by intros i e [-> _]%lookup_replicate [? _]. Qed.

Lemma spec_run_ext m m' rqs rs f :
  (∀ l, m l = m' l) → spec_run m rqs rs f → spec_run m' rqs rs f.
Proof.
  revert m m' rs. induction rqs as [|rq rqs IH]; intros m m' [|r rs] Hm; simpl; try done.
  - intros Hf l. by rewrite Hf, Hm.
  - intros [Ha Hr]. split.
    + destruct rq, r; simpl in *; try done. by rewrite Ha, Hm.
    + eapply IH; [|exact Hr]. destruct rq, r; simpl; try done.
      intros x. case_decide; auto.
Qed.

(** The number of slots is fixed. *)
Lemma touch_capacity i c : length (entries (touch i c)) = length (entries c).
Proof. unfold touch. simpl. by rewrite length_alter, length_fmap. Qed.
Lemma write_back_capacity i c r c' :
  write_back i c = (r, c') → length (entries c') = length (entries c).
Proof.
  unfold write_back. intros. repeat case_match; simplify_eq/=; auto. by rewrite length_alter.
Qed.
Lemma count_eviction_capacity i c :
  length (entries (count_eviction i c)) = length (entries c).
Proof. by destruct (count_eviction_fields i c) as [_ ->]. Qed.
Lemma read_capacity c l buf r buf' c' :
  read_sector l buf c = (r, buf', c') → length (entries c') = length (entries c).
Proof.
  cbn [read_sector CachedDevice_device]. unfold cache_read_sector, load. intros.
  repeat (case_match; simplify_eq/=); simpl;
    rewrite ?length_alter, ?length_fmap, ?length_insert, ?count_eviction_capacity; simpl; auto;
    by match goal with Hw : write_back _ _ = _ |- _ => rewrite (write_back_capacity _ _ _ _ Hw) end.
Qed.
Lemma write_capacity c l buf r c' :
  write_sector l buf c = (r, c') → length (entries c') = length (entries c).
Proof.
  cbn [write_sector CachedDevice_device]. unfold cache_write_sector, slot_for_write. intros.
  repeat (case_match; simplify_eq/=); simpl;
    rewrite ?length_alter, ?length_fmap, ?length_alter, ?length_insert, ?count_eviction_capacity; simpl; auto;
    by match goal with Hw : write_back _ _ = _ |- _ => rewrite (write_back_capacity _ _ _ _ Hw) end.
Qed.

(** One call on a nonempty cache follows the abstract disk. *)
Lemma exec_spec c rq r c' :
  cache_ok c → (0 < length (entries c))%nat → 0 ≤ request_lba rq → exec rq c = (r, c') →
  cache_ok c' ∧ (0 < length (entries c'))%nat ∧ spec_agrees (cache_view c) rq r ∧
  ∀ l, cache_view c' l = spec_step (cache_view c) rq r l.
Proof.
  intros Hok Hn Hl. destruct rq as [l|l buf|]; cbn [exec].
  - destruct (read_sector l _ c) as [[rr b] c1] eqn:Hr. intros [= <- <-].
    destruct (cache_read_law c l _ _ _ _ Hok Hl Hr) as ((?&?&?&?)&?&Hrr).
    split; [done|]. split.
    { by rewrite (read_capacity _ _ _ _ _ _ Hr). }
    destruct rr; simpl in *; [|done..]. split; [apply Hrr|done].
  - destruct (write_sector l buf c) as [rr c1] eqn:Hr. intros [= <- <-].
    destruct (cache_write_spec c l buf _ _ Hok Hl Hn Hr) as (?&?&?&Hrr).
    split; [done|]. split.
    { by rewrite (write_capacity _ _ _ _ _ Hr). }
    destruct rr; simpl in *; [|done..]. split; [done|apply Hrr].
  - destruct (flush c) as [rr c1] eqn:Hr. intros [= <- <-].
    destruct (cache_flush_spec c _ _ Hok Hr) as ((?&?&?&Hlen&?)&Hnp&_).
    split; [done|]. split; [by rewrite Hlen|]. by destruct rr.
Qed.
End properties.

Lemma run_spec {D} `{BlockDeviceLaws D} rqs : ∀ (c : CachedDevice D) rs c',
  cache_ok c → (0 < length (entries c))%nat → Forall (λ rq, 0 ≤ request_lba rq) rqs →
  run rqs c = (rs, c') → spec_run (cache_view c) rqs rs (cache_view c').
Proof.
  induction rqs as [|rq rqs IH]; intros c rs c' Hok Hn Hall Hr; simpl in Hr; simplify_eq; [done|].
  apply Forall_cons in Hall as [Hrq Hall].
  destruct (exec rq c) as [r c1] eqn:He. destruct (run rqs c1) as [rs1 c2] eqn:Hrun. simplify_eq.
  destruct (exec_spec c rq r c1 Hok Hn Hrq He) as (Hok1 & Hn1 & Ha & Hv).
  split; [done|]. eapply spec_run_ext; [exact Hv|]. by eapply IH.
Qed.

(** C26: A nonempty cache over any lawful device is indistinguishable from an
    abstract disk: along every sequence of reads, writes and flushes, starting
    from an empty cache, each successful read returns the last value
    successfully written to that sector (or the device's original contents),
    failed calls change nothing a client can see, and nothing panics. *)
Theorem cache_refines_disk {D} `{BlockDeviceLaws D} N (d : D) rqs rs c :
  dev_ok d → (0 < N)%nat → Forall (λ rq, 0 ≤ request_lba rq) rqs →
  run rqs (new N d) = (rs, c) → spec_run (dev_view d) rqs rs (dev_view c).
Proof.
  intros Hok HN Hall Hr. eapply spec_run_ext; [intros l; apply (new_view N)|].
  eapply run_spec; [by apply new_ok| |done|done]. simpl. by rewrite length_replicate.
Qed.

(** Two slots over a four-sector disk: write, evict, read back. *)
Definition trace_demo : list request :=
  [RWrite 1 (replicate SECTOR_SIZE (z_byte 7)); RRead 0; RRead 2; RRead 1; RFlush; RRead 9].

Lemma cache_refines_disk_witness :
  spec_run (dev_view (ramdisk_new 4)) trace_demo
    (fst (run trace_demo (new 2 (ramdisk_new 4))))
    (dev_view (snd (run trace_demo (new 2 (ramdisk_new 4))))).
Proof.
  apply (cache_refines_disk 2 (ramdisk_new 4) trace_demo).
  - apply ramdisk_new_ok.
  - lia.
  - repeat constructor; simpl; lia.
  - apply surjective_pairing.
Defined.

(** A successful flush is durable: afterwards the inner device itself
    holds every sector's logical contents, and the cache's contents are
    unchanged. *)
Theorem flush_durable {D} `{BlockDeviceLaws D} (c c' : CachedDevice D) :
  cache_ok c → flush c = (Ok tt, c') →
  ∀ l, dev_view (inner c') l = cache_view c l ∧ cache_view c' l = cache_view c l.
Proof.
  intros Hok Hf l. destruct (cache_flush_spec c _ _ Hok Hf) as ((_&_&_&_&Hv)&_&Hd).
  split; [by apply Hd|apply Hv].
Qed.

Lemma flush_durable_witness :
  let c := snd (exec (RWrite 1 (replicate SECTOR_SIZE (z_byte 7))) (new 2 (ramdisk_new 4))) in
  dev_view (inner (snd (flush c))) 1 = replicate SECTOR_SIZE (z_byte 7).
Proof.
  intros c. assert (Hok : cache_ok c).
  { eapply (exec_spec (new 2 (ramdisk_new 4)) (RWrite 1 (replicate SECTOR_SIZE (z_byte 7))));
      [apply new_ok, ramdisk_new_ok|simpl; lia|simpl; lia|apply surjective_pairing]. }
  assert (Hf : flush c = (Ok tt, snd (flush c))).
  { rewrite (surjective_pairing (flush c)) at 1. by f_equal. }
  destruct (flush_durable c (snd (flush c)) Hok Hf 1) as [-> _].
  vm_compute. reflexivity.
Defined.

(** A device failure loses nothing: when a read or write through a
    nonempty cache fails, whatever the failed device write left behind, every
    sector still reads as before the call. *)
Theorem fault_atomic {D} `{BlockDeviceLaws D} (c c' : CachedDevice D) rq e :
  cache_ok c → (0 < length (entries c))%nat → 0 ≤ request_lba rq →
  exec rq c = (Err e, c') → cache_ok c' ∧ ∀ l, cache_view c' l = cache_view c l.
Proof.
  intros Hok Hn Hl He. destruct (exec_spec c rq _ c' Hok Hn Hl He) as (Hok' & _ & _ & Hv).
  split; [done|]. intros l. rewrite Hv. by destruct rq.
Qed.

Lemma fault_atomic_witness :
  exec (RRead 4) (new 1 (ramdisk_new 4)) = (Err OutOfBounds, new 1 (ramdisk_new 4)) ∧
  ∀ l, cache_view (new 1 (ramdisk_new 4)) l = cache_view (new 1 (ramdisk_new 4)) l.
Proof.
  assert (He : exec (RRead 4) (new 1 (ramdisk_new 4)) = (Err OutOfBounds, new 1 (ramdisk_new 4)))
    by (vm_compute; reflexivity).
  split; [exact He|].
  apply (fault_atomic (new 1 (ramdisk_new 4)) (new 1 (ramdisk_new 4)) (RRead 4) OutOfBounds);
    [apply new_ok, ramdisk_new_ok|simpl; lia|simpl; lia|exact He].
Defined.

(** Replacement is least-recently-used: a successful load makes its slot
    the most recent and keeps the order of the others, and a miss in a full
    cache reuses exactly the least recent slot. *)
Theorem load_is_lru {D} `{BlockDeviceLaws D} (c c' : CachedDevice D) q l i :
  cache_ok c → (0 < length (entries c))%nat → lru_rel c q → ages_small c →
  load l c = (Ok i, c') →
  lru_rel c' (promote i q) ∧
  (find l c = None → (∀ j e, entries c !! j = Some e → valid e = true) → last q = Some i).
Proof.
  intros Hok Hn Hq Hsm Hld. unfold load in Hld. destruct (find l c) as [k|] eqn:Hf.
  - simplify_eq. split; [|done]. destruct (find_Some _ _ _ Hf) as (e & He & [Hv _]).
    by eapply (touch_promotes c (bump_hits c)).
  - change (victim (bump_misses c)) with (victim c) in Hld.
    destruct (write_back (victim c) (bump_misses c)) as [w c1] eqn:Hw.
    pose proof (write_back_ages _ _ _ _ Hw) as Hages.
    pose proof (write_back_capacity _ _ _ _ Hw) as Hcap. simpl in Hages, Hcap.
    destruct w as [[]|err|]; [|done..].
    destruct (read_sector l _ (inner c1)) as [[[[]|err|] s] d']; [|done..]. simplify_eq.
    split; [|intros _ Hfull; by apply victim_is_last].
    destruct (count_eviction_fields (victim c) (set_inner d' c1)) as [_ He2]. simpl in He2.
    eapply (touch_promotes c); [done..| | |]; simpl.
    + apply list_lookup_insert_eq. rewrite He2, Hcap. by apply victim_lt.
    + done.
    + intros j Hj. rewrite He2, list_lookup_insert_ne by done. apply Hages.
Qed.

(** An empty one-slot cache and its recency order. *)
Lemma load_is_lru_witness :
  lru_rel (snd (load 3 (new 1 (ramdisk_new 4)))) [0%nat].
Proof.
  refine (proj1 (load_is_lru (new 1 (ramdisk_new 4)) (snd (load 3 (new 1 (ramdisk_new 4))))
    [] 3 0 _ _ _ _ _)).
  - apply new_ok, ramdisk_new_ok.
  - simpl. lia.
  - split; [constructor| |constructor]. intros i. split; [set_solver|].
    intros (e & He & Hv). destruct i as [|i]; simplify_eq/=.
  - intros [|i] e He; simplify_eq/=. lia.
  - vm_compute. reflexivity.
Defined.

(** ** The source's self-tests *)

(** A RAM disk that counts accesses and injects faults. *)
Record Probe := mkProbe {
  disk : RamDisk; reads : nat; writes : nat; flushes : nat;
  fail_read : bool; fail_write : bool; fail_flush : bool }.

Definition probe_new : Probe := mkProbe (ramdisk_new 4) 0 0 0 false false false.

#[export] Instance Probe_device : BlockDevice Probe := {|
  sector_count p := sector_count (disk p);
  is_read_only p := is_read_only (disk p);
  read_sector l buf p :=
    let p := mkProbe (disk p) (reads p + 1) (writes p) (flushes p)
               (fail_read p) (fail_write p) (fail_flush p) in
    if fail_read p then (Err DeviceFault, buf, p)
    else let '(r, buf, d) := read_sector l buf (disk p) in
         (r, buf, mkProbe d (reads p) (writes p) (flushes p)
                    (fail_read p) (fail_write p) (fail_flush p));
  write_sector l buf p :=
    let p := mkProbe (disk p) (reads p) (writes p + 1) (flushes p)
               (fail_read p) (fail_write p) (fail_flush p) in
    if fail_write p then (Err DeviceFault, p)
    else let '(r, d) := write_sector l buf (disk p) in
         (r, mkProbe d (reads p) (writes p) (flushes p)
               (fail_read p) (fail_write p) (fail_flush p));
  flush p :=
    let p := mkProbe (disk p) (reads p) (writes p) (flushes p + 1)
               (fail_read p) (fail_write p) (fail_flush p) in
    (if fail_flush p then Err DeviceFault else Ok tt, p) |}.

Definition fill (z : Z) : list byte := replicate SECTOR_SIZE (z_byte z).

Definition reuse_and_eviction_test : bool :=
  let c0 := new 2 probe_new in
  let '(r1, out, c1) := read_sector 0 (fill 0) c0 in
  let '(r2, out, c2) := read_sector 0 out c1 in
  let '(r3, c3) := write_sector 1 (fill 1) c2 in
  let '(r4, c4) := write_sector 1 (fill 2) c3 in
  let '(r5, out, c5) := read_sector 1 out c4 in
  let phase1 := is_ok r1 && is_ok r2 && Nat.eqb (reads (inner c2)) 1 && is_ok r3 && is_ok r4
    && Nat.eqb (reads (inner c4)) 1 && Nat.eqb (writes (inner c4)) 0 && is_ok r5
    && bool_decide (out = fill 2) && Nat.eqb (st_dirty (stats c5)) 1 in
  let '(r6, out, c6) := read_sector 0 out c5 in
  let '(r7, out, c7) := read_sector 2 out c6 in
  let '(r8, out, _) := read_sector 1 out (disk (inner c7)) in
  let phase2 := is_ok r6 && is_ok r7 && Nat.eqb (writes (inner c7)) 1
    && (st_writebacks (stats c7) =? 1) && (st_evictions (stats c7) =? 1)
    && Nat.eqb (st_resident (stats c7)) 2 && is_ok r8 && bool_decide (out = fill 2) in
  let '(f1, c8) := flush c7 in
  let '(f2, c9) := flush c8 in
  let '(r9, out, c10) := read_sector 0 out c9 in
  phase1 && phase2 && is_ok f1 && is_ok f2 && Nat.eqb (writes (inner c9)) 1
  && Nat.eqb (flushes (inner c9)) 2 && Nat.eqb (st_dirty (stats c9)) 0 && is_ok r9
  && Nat.eqb (reads (inner c10)) 2 && (hits c10 =? 5) && (misses c10 =? 3).

Example cache_reuse_test : reuse_and_eviction_test = true.
Proof. vm_compute. reflexivity. Qed.

Definition set_fail (fr fw ff : bool) (c : CachedDevice Probe) : CachedDevice Probe :=
  let p := inner c in
  set_inner (mkProbe (disk p) (reads p) (writes p) (flushes p) fr fw ff) c.

Definition failure_recovery_test : bool :=
  let '(r1, c1) := write_sector 0 (fill 7) (new 1 probe_new) in
  let c1 := set_fail false true false c1 in
  let '(f1, c2) := flush c1 in
  let '(r2, out, c3) := read_sector 1 (fill 0) c2 in
  let '(r3, c4) := write_sector 1 (fill 9) c3 in
  let '(r4, out, c5) := read_sector 0 out c4 in
  let phase1 := is_ok r1 && bool_decide (f1 = Err DeviceFault) && bool_decide (r2 = Err DeviceFault)
    && bool_decide (r3 = Err DeviceFault) && Nat.eqb (st_dirty (stats c4)) 1
    && (st_evictions (stats c4) =? 0) && is_ok r4 && bool_decide (out = fill 7) in
  let c5 := set_fail false false false c5 in
  let '(f2, c6) := flush c5 in
  let '(r5, out, _) := read_sector 0 out (disk (inner c6)) in
  let phase2 := is_ok f2 && Nat.eqb (st_dirty (stats c6)) 0 && is_ok r5
    && bool_decide (out = fill 7) in
  let c6 := set_fail true false false c6 in
  let '(r6, out, c7) := read_sector 1 (fill 3) c6 in
  let kept := bool_decide (out = fill 3) in
  let '(r7, out, c8) := read_sector 0 out c7 in
  let phase3 := bool_decide (r6 = Err DeviceFault) && kept && is_ok r7
    && bool_decide (out = fill 7) in
  let c8 := set_fail false false true c8 in
  let '(f3, c9) := flush c8 in
  let c9 := set_fail false false false c9 in
  let '(f4, c10) := flush c9 in
  let '(r8, out, _) := read_sector 1 out c10 in
  phase1 && phase2 && phase3 && bool_decide (f3 = Err DeviceFault) && is_ok f4 && is_ok r8
  && bool_decide (out = fill 0).

Definition validation_and_bypass_test : bool :=
  let c0 := new 1 probe_new in
  let '(r1, out, c1) := read_sector 4 (fill 0) c0 in
  let '(r2, c2) := write_sector 4 out c1 in
  let '(r3, _, c3) := read_sector 0 (take 1 out) c2 in
  let '(r4, c4) := write_sector 0 (take 1 out) c3 in
  let phase1 := bool_decide (r1 = Err OutOfBounds) && bool_decide (r2 = Err OutOfBounds)
    && bool_decide (r3 = Err InvalidBuffer) && bool_decide (r4 = Err InvalidBuffer)
    && Nat.eqb (reads (inner c4)) 0 && Nat.eqb (writes (inner c4)) 0 in
  let p := inner c4 in
  let c4 := set_inner (mkProbe (set_read_only true (disk p)) (reads p) (writes p) (flushes p)
                         (fail_read p) (fail_write p) (fail_flush p)) c4 in
  let '(r5, c5) := write_sector 0 out c4 in
  let phase2 := bool_decide (r5 = Err ReadOnly) && Nat.eqb (st_dirty (stats c5)) 0 in
  let '(b1, y1) := write_sector 2 (fill 8) (new 0 probe_new) in
  let '(b2, out, y2) := read_sector 2 out y1 in
  let '(b3, y3) := flush y2 in
  phase1 && phase2 && is_ok b1 && is_ok b2 && bool_decide (out = fill 8)
  && Nat.eqb (writes (inner y2)) 1 && Nat.eqb (reads (inner y2)) 1
  && Nat.eqb (st_resident (stats y2)) 0 && is_ok b3 && Nat.eqb (flushes (inner y3)) 1.

Example cache_failure_test : failure_recovery_test = true.
Proof. vm_compute. reflexivity. Qed.
Example cache_bypass_test : validation_and_bypass_test = true.
Proof. vm_compute. reflexivity. Qed.
