(* ===== verification/FileMapping.v ===== *)
(** * Bounds of private file mappings (kernel/src/file_mapping.rs)

    [mapped_size] decides whether a file range may be mapped and how many bytes
    of whole pages it takes; every quantity is a 64-bit [usize]. *)
From S2P Require Import Prelude.

Definition MAX_SIZE : Z := 64 * 1024.

Definition mapped_size (file_size offset length : Z) : option Z :=
  if (length =? 0) || (MAX_SIZE <? length) || negb (offset mod 4096 =? 0) then None
  else
    endp ← checked_add 64 offset length;
    if file_size <? endp then None
    else (λ n, Z.land n (bnot 64 4095)) <$> checked_add 64 length 4095.

(** A range is mappable exactly when it is nonempty, at most [MAX_SIZE]
    bytes, page-aligned at its start and inside the file, with no overflow in
    the end computation; its mapping is the least whole number of 4096-byte
    pages that covers it. *)
Theorem mapped_size_spec file_size offset length n :
  in_width 64 file_size → in_width 64 offset → in_width 64 length →
  mapped_size file_size offset length = Some n ↔
  0 < length ≤ MAX_SIZE ∧ offset mod 4096 = 0 ∧ offset + length ≤ file_size ∧
  n mod 4096 = 0 ∧ length ≤ n < length + 4096.
Proof.
  unfold in_width, mapped_size. change MAX_SIZE with 65536. intros Hf Ho Hl.
  destruct (Z.eqb_spec length 0); simpl; [split; [done|lia]|].
  destruct (Z.ltb_spec 65536 length); simpl; [split; [done|lia]|].
  destruct (Z.eqb_spec (offset mod 4096) 0); simpl; [|split; [done|lia]].
  unfold checked_add.
  destruct (Z.ltb_spec (offset + length) (2 ^ 64)); simpl; [|split; [done|lia]].
  destruct (Z.ltb_spec file_size (offset + length)); simpl; [split; [done|lia]|].
  rewrite (proj2 (Z.ltb_lt _ _)) by lia. simpl.
  change 4095 with (2 ^ 12 - 1) at 2. rewrite land_bnot_ones by lia.
  change (2 ^ 12) with 4096.
  assert (Hn : (length + 4095 - (length + 4095) mod 4096) mod 4096 = 0)
    by (rewrite Zminus_mod_idemp_r, Z.sub_diag; done).
  pose proof (Z.mod_pos_bound (length + 4095) 4096).
  split; [intros [= <-]; lia|]. intros (_ & _ & _ & Hm & ?). f_equal.
  apply Z.mod_divide in Hm as [a ->]; [|lia]. apply Z.mod_divide in Hn as [b Hb]; lia.
Qed.

(** The boundary cases of the source's test module. *)
Lemma mapped_size_witness : mapped_size 4103 4096 7 = Some 4096.
Proof. apply mapped_size_spec; unfold in_width, MAX_SIZE; repeat split; (reflexivity || lia). Defined.

Example mapped_size_rejects :
  mapped_size 4096 0 4097 = None ∧ mapped_size 70000 0 65537 = None ∧
  mapped_size (2 ^ 64 - 1) (2 ^ 64 - 4096) 4096 = None.
Proof. vm_compute. done. Qed.
