(* ===== verification/Partition.v ===== *)
(** * MBR partitions and the partition window (kernel/src/partition.rs)

    [find_fat32] scans the master boot record of a device; [PartitionDevice]
    presents one partition as a block device of its own.  The window is proved
    to keep the block-device contract over any lawful device and to confine
    its writes to the partition. *)
From S2P Require Import Prelude Block.

Definition PARTITION_TABLE_OFFSET : nat := 446.
Definition PARTITION_ENTRY_SIZE : nat := 16.
Definition PARTITION_COUNT : nat := 4.
#[global] Opaque PARTITION_COUNT.

Record Partition := mkPartition { start_lba : Z; psectors : Z; kind : Z }.

#[export] Instance Partition_eq_dec : EqDecision Partition.
Proof. solve_decision. Defined.

Inductive PError := BlockErr (e : Block.Error) | InvalidTable | POutOfBounds.

#[export] Instance PError_eq_dec : EqDecision PError.
Proof. solve_decision. Defined.

(** [bytes[i]] for an index inside the buffer. *)
Definition byte_at (l : list byte) (i : nat) : Z := byte_z (default x00 (l !! i)).

Definition read_u32 (l : list byte) (offset : nat) : Z := from_le_bytes (slice l offset 4).

(** The loop of [find_fat32] over the four table entries; [result] is the first
    FAT32 entry met so far. *)
Fixpoint scan_mbr (sector : list byte) (disk_sectors : Z) (indices : list nat)
    (result : option Partition) : res PError (option Partition) :=
  match indices with
  | [] => Ok result
  | index :: indices =>
    let offset := (PARTITION_TABLE_OFFSET + index * PARTITION_ENTRY_SIZE)%nat in
    let boot := byte_at sector offset in
    if negb ((boot =? 0) || (boot =? 0x80)) then Err InvalidTable else
    let k := byte_at sector (offset + 4) in
    let start := read_u32 sector (offset + 8) in
    let len := read_u32 sector (offset + 12) in
    if (k =? 0) && (start =? 0) && (len =? 0) then scan_mbr sector disk_sectors indices result
    else match checked_add 64 start len with
         | None => Err POutOfBounds
         | Some endp =>
           if (start =? 0) || (len =? 0) || (disk_sectors <? endp) then Err POutOfBounds
           else
             let result :=
               match result with
               | None => if (k =? 0x0b) || (k =? 0x0c) then Some (mkPartition start len k) else None
               | Some _ => result
               end in
             scan_mbr sector disk_sectors indices result
         end
  end.

Record PartitionDevice (D : Type) := mkPDevice { device : D; partition : Partition }.
Arguments mkPDevice {D}. Arguments device {D}. Arguments partition {D}.

Section window.
Context {D : Type} `{BlockDevice D}.
Implicit Types (d : D) (v : PartitionDevice D).

Definition find_fat32 d : res PError (option Partition) * D :=
  match read_sector 0 (replicate SECTOR_SIZE x00) d with
  | (Ok _, sector, d) =>
      if negb (byte_at sector 510 =? 0x55) || negb (byte_at sector 511 =? 0xaa) then (Ok None, d)
      else (scan_mbr sector (sector_count d) (seq 0 PARTITION_COUNT) None, d)
  | (Err e, _, d) => (Err (BlockErr e), d)
  | (Panic, _, d) => (Panic, d)
  end.

Definition pdevice_new d (p : Partition) : res PError (PartitionDevice D) :=
  endp ← ok_or POutOfBounds (checked_add 64 (start_lba p) (psectors p));
  if (start_lba p =? 0) || (psectors p =? 0) || (sector_count d <? endp) then Err POutOfBounds
  else Ok (mkPDevice d p).

Definition absolute_lba v (lba : Z) : res Block.Error Z :=
  if psectors (partition v) <=? lba then Err Block.OutOfBounds
  else ok_or Block.OutOfBounds (checked_add 64 (start_lba (partition v)) lba).

Definition pdevice_read_sector (lba : Z) (sector : list byte) v
    : res Block.Error unit * list byte * PartitionDevice D :=
  match absolute_lba v lba with
  | Ok l => let '(r, sector, d) := read_sector l sector (device v) in
            (r, sector, mkPDevice d (partition v))
  | Err e => (Err e, sector, v)
  | Panic => (Panic, sector, v)
  end.

Definition pdevice_write_sector (lba : Z) (sector : list byte) v
    : res Block.Error unit * PartitionDevice D :=
  match absolute_lba v lba with
  | Ok l => let '(r, d) := write_sector l sector (device v) in (r, mkPDevice d (partition v))
  | Err e => (Err e, v)
  | Panic => (Panic, v)
  end.

#[export] Instance PartitionDevice_device : BlockDevice (PartitionDevice D) := {|
  sector_count v := psectors (partition v);
  is_read_only v := is_read_only (device v);
  flush v := let '(r, d) := flush (device v) in (r, mkPDevice d (partition v));
  read_sector := pdevice_read_sector;
  write_sector := pdevice_write_sector |}.
End window.

Definition self_test : bool :=
  let mbr := replicate SECTOR_SIZE x00 in
  let mbr := <[510%nat := z_byte 0x55]> (<[511%nat := z_byte 0xaa]> mbr) in
  let mbr := <[PARTITION_TABLE_OFFSET := z_byte 0x80]> mbr in
  let mbr := <[(PARTITION_TABLE_OFFSET + 4)%nat := z_byte 0x0c]> mbr in
  let mbr := splice mbr (PARTITION_TABLE_OFFSET + 8) (to_le_bytes 4 2) in
  let mbr := splice mbr (PARTITION_TABLE_OFFSET + 12) (to_le_bytes 4 4) in
  let '(w, disk) := write_sector 0 mbr (ramdisk_new 8) in
  if is_err w then false else
  match find_fat32 disk with
  | (Ok (Some p), disk) =>
    let payload := splice (replicate SECTOR_SIZE x00) 0 (bytes "partition") in
    match pdevice_new disk p with
    | Ok view =>
      let '(w1, view) := write_sector 1 payload view in
      let '(r1, _, view) := read_sector 4 payload view in
      if is_err w1 || is_ok r1 then false else
      let '(r2, physical, _) := read_sector 3 (replicate SECTOR_SIZE x00) (device view) in
      is_ok r2 && bool_decide (take 9 physical = bytes "partition")
      && (start_lba p =? 2) && (psectors p =? 4)
    | _ => false
    end
  | _ => false
  end.

(** ** The window keeps the block-device contract *)

Section laws.
Context {D : Type} `{BlockDeviceLaws D}.
Implicit Types (d : D) (v : PartitionDevice D).

(** The partition lies inside the device, clear of the boot sector. *)
Definition within (p : Partition) (count : Z) : Prop :=
  0 < start_lba p ∧ 0 < psectors p ∧ start_lba p + psectors p ≤ count.

Definition pdevice_ok v : Prop :=
  dev_ok (device v) ∧ within (partition v) (sector_count (device v)).

Definition pdevice_view v (l : Z) : list byte :=
  if (0 <=? l) && (l <? psectors (partition v))
  then dev_view (device v) (start_lba (partition v) + l) else [].

Lemma absolute_lba_Ok v lba l :
  absolute_lba v lba = Ok l ↔
  lba < psectors (partition v) ∧ l = start_lba (partition v) + lba ∧ l < 2 ^ 64.
Proof.
  unfold absolute_lba. destruct (Z.leb_spec (psectors (partition v)) lba); [naive_solver lia|].
  rewrite ok_or_Ok, checked_add_Some. naive_solver lia.
Qed.

Lemma absolute_lba_no_panic v lba : absolute_lba v lba ≠ Panic.
Proof. unfold absolute_lba. case_match; [done|]. by destruct (checked_add _ _ _). Qed.

(** Sectors of the window keep their contents across an equivalent device. *)
Lemma pdevice_same v d' :
  pdevice_ok v → same_dev dev_ok dev_view (device v) d' →
  same_dev pdevice_ok pdevice_view v (mkPDevice d' (partition v)).
Proof.
  intros [Hok Hw] (Hok' & Hc & Hr & Hv). split; [split; simpl; [done|by rewrite Hc]|].
  split_and!; [done..|]. intros l. unfold pdevice_view. simpl. case_match; [apply Hv|done].
Qed.

#[export] Program Instance PartitionDevice_laws : BlockDeviceLaws (PartitionDevice D) := {|
  dev_ok := pdevice_ok; dev_view := pdevice_view |}.
Next Obligation.
  simpl. intros v l [Hok (Hs & Hn & Hle)] Hl. unfold pdevice_view.
  rewrite (proj2 (Z.leb_le _ _)), (proj2 (Z.ltb_lt _ _)) by lia. simpl.
  apply dev_view_length; [done|lia].
Qed.
Next Obligation.
  simpl. intros v lba buf r buf' v' Hok Hl Hr. unfold pdevice_read_sector in Hr.
  destruct (absolute_lba v lba) as [l|e|] eqn:Ha;
    [|by simplify_eq|by apply absolute_lba_no_panic in Ha].
  apply absolute_lba_Ok in Ha as (Hlt & -> & _).
  destruct (read_sector _ buf (device v)) as [[rr b] d'] eqn:Hrs. simplify_eq.
  destruct Hok as [Hd Hw]. pose proof Hw as (Hs & _).
  assert (H0l : 0 ≤ start_lba (partition v) + lba) by lia.
  destruct (read_law _ _ _ _ _ _ Hd H0l Hrs) as (Hsd & Hb & Hrr).
  split; [by apply pdevice_same|]. split; [done|]. destruct r; [|done..].
  destruct Hrr as (? & ? & ->). split_and!; [done..|]. unfold pdevice_view.
  by rewrite (proj2 (Z.leb_le _ _)), (proj2 (Z.ltb_lt _ _)) by lia.
Qed.
Next Obligation.
  simpl. intros v lba buf r v' Hok Hl Hr. unfold pdevice_write_sector in Hr.
  destruct (absolute_lba v lba) as [l|e|] eqn:Ha;
    [|by simplify_eq|by apply absolute_lba_no_panic in Ha].
  apply absolute_lba_Ok in Ha as (Hlt & -> & _).
  destruct (write_sector _ buf (device v)) as [rr d'] eqn:Hws. simplify_eq.
  destruct Hok as [Hd Hw]. pose proof Hw as (Hs & _).
  assert (H0l : 0 ≤ start_lba (partition v) + lba) by lia.
  destruct (write_law _ _ _ _ _ Hd H0l Hws) as (Hok' & Hc & Hro & Hrr). simpl.
  split; [by split; simpl; [|rewrite Hc]|]. split_and!; [done..|]. unfold pdevice_view. simpl.
  destruct r; [|intros l Hne; case_match; [apply Hrr; lia|done]|done].
  destruct Hrr as (? & ? & ? & Hv). split_and!; [done..|]. intros l.
  destruct (decide (l = lba)) as [->|Hne].
  - rewrite (proj2 (Z.leb_le _ _)), (proj2 (Z.ltb_lt _ _)) by lia. simpl.
    rewrite Hv. by rewrite decide_True by lia.
  - case_match; [|done]. rewrite Hv. by rewrite decide_False by lia.
Qed.
Next Obligation.
  simpl. intros v r v' Hok Hf. destruct (flush (device v)) as [rr d'] eqn:Hfl. simplify_eq.
  destruct (flush_law _ _ _ (proj1 Hok) Hfl) as [Hsd Hnp]. split; [by apply pdevice_same|done].
Qed.

(** What a scan result must satisfy. *)
Definition good_result (count : Z) (o : option Partition) : Prop :=
  match o with
  | None => True
  | Some p => within p count ∧ (kind p = 0x0b ∨ kind p = 0x0c)
  end.

Lemma read_u32_bound l o : 0 ≤ read_u32 l o.
Proof. apply from_le_bytes_bound. Qed.

Lemma scan_mbr_good sector count indices result o :
  good_result count result → scan_mbr sector count indices result = Ok o → good_result count o.
Proof.
  revert result. induction indices as [|i indices IH]; intros result Hg Hs;
    cbn [scan_mbr] in Hs; [by simplify_eq|].
  case_match; [done|]. case_match; [by eapply IH|].
  destruct (checked_add _ _ _) as [endp|] eqn:Ha; [|done].
  apply checked_add_Some in Ha as [-> Hov]. case_match eqn:Hc; [done|].
  eapply IH; [|exact Hs]. destruct result as [p|]; [done|]. case_match eqn:Hk; [|done].
  cbn [good_result]. pose proof (read_u32_bound sector
    (PARTITION_TABLE_OFFSET + i * PARTITION_ENTRY_SIZE + 8)).
  pose proof (read_u32_bound sector (PARTITION_TABLE_OFFSET + i * PARTITION_ENTRY_SIZE + 12)).
  unfold within. cbn [start_lba psectors kind]. split_guards. apply orb_true_iff in Hk. lia.
Qed.
End laws.

(** A partition reported by the MBR scan is a nonempty FAT32 range inside
    the device that excludes the boot sector, so opening the window on it
    succeeds; the scan leaves the device's contents unchanged. *)
Theorem find_fat32_sound {D} `{BlockDeviceLaws D} (d d' : D) p :
  dev_ok d → sector_count d < 2 ^ 64 → find_fat32 d = (Ok (Some p), d') →
  d ≃ d' ∧ (kind p = 0x0b ∨ kind p = 0x0c) ∧
  0 < start_lba p ∧ 0 < psectors p ∧ start_lba p + psectors p ≤ sector_count d ∧
  pdevice_new d' p = Ok (mkPDevice d' p).
Proof.
  intros Hok Hcount Hf. unfold find_fat32 in Hf.
  destruct (read_sector 0 _ d) as [[rr sector] d1] eqn:Hr.
  pose proof (read_equiv d 0 _ _ _ _ Hok ltac:(lia) Hr) as Heq.
  destruct rr as [[]|e|]; [|done..]. case_match; [done|]. injection Hf as Hs <-.
  apply scan_mbr_good in Hs as [Hw Hk]; [|done]. rewrite <-Heq in Hw.
  split; [done|]. split; [done|]. pose proof Hw as (? & ? & ?). split_and!; [done..|].
  unfold pdevice_new, checked_add. rewrite (proj2 (Z.ltb_lt _ _)) by lia. simpl.
  assert (Hc : sector_count d1 = sector_count d) by by rewrite <-Heq.
  rewrite Hc. by rewrite (proj2 (Z.eqb_neq _ _)), (proj2 (Z.eqb_neq _ _)), (proj2 (Z.ltb_ge _ _)) by lia.
Qed.

(** A write through a partition window, successful or not, touches no
    sector outside the partition. *)
Theorem partition_confines_writes {D} `{BlockDeviceLaws D} (v v' : PartitionDevice D) lba buf r x :
  dev_ok v → 0 ≤ lba → write_sector lba buf v = (r, v') →
  x < start_lba (partition v) ∨ start_lba (partition v) + psectors (partition v) ≤ x →
  dev_view (device v') x = dev_view (device v) x.
Proof.
  intros [Hok (Hs & _)] Hl Hw Hx. cbn [write_sector PartitionDevice_device] in Hw.
  unfold pdevice_write_sector in Hw.
  destruct (absolute_lba v lba) as [l|e|] eqn:Ha; [|by simplify_eq..].
  apply absolute_lba_Ok in Ha as (Hlt & -> & _).
  destruct (write_sector _ buf (device v)) as [rr d'] eqn:Hws. simplify_eq. simpl.
  assert (H0l : 0 ≤ start_lba (partition v) + lba) by lia.
  destruct (write_law _ _ _ _ _ Hok H0l Hws) as (_ & _ & _ & Hrr).
  destruct r; [|apply Hrr; lia|done]. destruct Hrr as (_ & _ & _ & Hv).
  rewrite Hv. by rewrite decide_False by lia.
Qed.

(** The partition of the self-test's disk. *)
Definition demo_view : PartitionDevice RamDisk := mkPDevice (ramdisk_new 8) (mkPartition 2 4 0x0c).

Lemma demo_view_ok : dev_ok demo_view.
Proof. split; [apply ramdisk_new_ok|]. repeat split; simpl; lia. Defined.

Lemma partition_confines_writes_witness :
  dev_view (device (snd (write_sector 3 (replicate SECTOR_SIZE (z_byte 1)) demo_view))) 7
    = dev_view (device demo_view) 7.
Proof.
  eapply (partition_confines_writes demo_view _ 3 (replicate SECTOR_SIZE (z_byte 1)) _ 7);
    [apply demo_view_ok|lia|apply surjective_pairing|right; simpl; lia].
Defined.

(** A disk whose first table entry is a FAT32 partition of four sectors. *)
Definition demo_disk : RamDisk :=
  let mbr := <[510%nat := z_byte 0x55]> (<[511%nat := z_byte 0xaa]> (replicate SECTOR_SIZE x00)) in
  let mbr := <[450%nat := z_byte 0x0c]> (<[454%nat := z_byte 2]> (<[458%nat := z_byte 4]> mbr)) in
  mkRamDisk (mbr :: replicate 7 (replicate SECTOR_SIZE x00)) false.

Lemma find_fat32_sound_witness :
  find_fat32 demo_disk = (Ok (Some (mkPartition 2 4 0x0c)), demo_disk) ∧
  pdevice_new demo_disk (mkPartition 2 4 0x0c) = Ok (mkPDevice demo_disk (mkPartition 2 4 0x0c)).
Proof.
  assert (Hf : find_fat32 demo_disk = (Ok (Some (mkPartition 2 4 0x0c)), demo_disk))
    by (vm_compute; reflexivity).
  split; [exact Hf|].
  apply (find_fat32_sound demo_disk demo_disk (mkPartition 2 4 0x0c)); [|reflexivity|exact Hf].
  repeat (apply Forall_cons; split; [vm_compute; reflexivity|]). constructor.
Defined.

(** The source's boot self-test holds of the model. *)
Example partition_self_test : self_test = true.
Proof. vm_compute. reflexivity. Qed.
