(* ===== verification/Gpt.v ===== *)
(** * GUID partition tables (kernel/src/gpt.rs)

    The CRC-32 routines, the byte-granular readers over a block device, the
    protective-MBR check and [find_fat_partition].  The theorems: the chunked
    checksum equals the checksum of the bytes on disk, a one-byte corruption is
    always detected, and a reported partition lies inside the device. *)
From S2P Require Import Prelude Block Partition.

Definition GPT_HEADER_MIN_SIZE : Z := 92.
Definition MAX_PARTITION_ENTRIES : Z := 128.
Definition MAX_PARTITION_ENTRY_SIZE : nat := 256.
Definition EFI_SYSTEM_GUID : list byte := z_byte <$>
  [0x28; 0x73; 0x2a; 0xc1; 0x1f; 0xf8; 0xd2; 0x11; 0xba; 0x4b; 0x00; 0xa0; 0xc9; 0x3e; 0xc9; 0x3b].
Definition BASIC_DATA_GUID : list byte := z_byte <$>
  [0xa2; 0xa0; 0xd0; 0xeb; 0xe5; 0xb9; 0x33; 0x44; 0x87; 0xc0; 0x68; 0xb6; 0xb7; 0x26; 0x99; 0xc7].
#[global] Opaque MAX_PARTITION_ENTRY_SIZE EFI_SYSTEM_GUID BASIC_DATA_GUID.

Inductive GError :=
| GBlock (e : Block.Error) | MissingProtectiveMbr | InvalidHeader | InvalidChecksum
| Unsupported | GOutOfBounds.

#[export] Instance GError_eq_dec : EqDecision GError.
Proof. solve_decision. Defined.

(** ** CRC-32 *)

(** One round of the inner loop of [crc32_extend]. *)
Definition crc_round (state : Z) : Z :=
  Z.lxor (Z.shiftr state 1) (Z.land 0xedb88320 (wrap 32 (0 - Z.land state 1))).

Definition crc_byte (state : Z) (b : byte) : Z :=
  Nat.iter 8 crc_round (Z.lxor state (byte_z b)).

Definition crc32_extend (state : Z) (l : list byte) : Z := foldl crc_byte state l.

Definition crc32 (l : list byte) : Z := bnot 32 (crc32_extend (2 ^ 32 - 1) l).

Definition read_u64 (l : list byte) (offset : nat) : Z := from_le_bytes (slice l offset 8).

Section readers.
Context {D : Type} `{BlockDevice D}.
Implicit Types (d : D).

(** The loop of [entries_crc]; every round consumes at least one byte, so
    [length] rounds of fuel are enough ([entries_crc_total]). *)
Fixpoint entries_crc_loop (fuel : nat) (start : Z) (len consumed : nat) (state : Z)
    (sector : list byte) d : res GError Z * D :=
  if Nat.ltb consumed len then
    match fuel with
    | O => (Panic, d)
    | S fuel =>
      let byte_offset := start + Z.of_nat consumed in
      let lba := byte_offset / Z.of_nat SECTOR_SIZE in
      let offset := Z.to_nat (byte_offset mod Z.of_nat SECTOR_SIZE) in
      match read_sector lba sector d with
      | (Ok _, sector, d) =>
        let count := Nat.min (SECTOR_SIZE - offset) (len - consumed) in
        entries_crc_loop fuel start len (consumed + count)
          (crc32_extend state (slice sector offset count)) sector d
      | (Err e, _, d) => (Err (GBlock e), d)
      | (Panic, _, d) => (Panic, d)
      end
    end
  else (Ok (bnot 32 state), d).

Definition entries_crc (start : Z) (len : nat) d : res GError Z * D :=
  entries_crc_loop len start len 0 (2 ^ 32 - 1) (replicate SECTOR_SIZE x00) d.

Fixpoint read_bytes_loop (fuel : nat) (start : Z) (copied : nat) (output sector : list byte) d
    : res GError unit * list byte * D :=
  if Nat.ltb copied (length output) then
    match fuel with
    | O => (Panic, output, d)
    | S fuel =>
      let byte_offset := start + Z.of_nat copied in
      let lba := byte_offset / Z.of_nat SECTOR_SIZE in
      let offset := Z.to_nat (byte_offset mod Z.of_nat SECTOR_SIZE) in
      match read_sector lba sector d with
      | (Ok _, sector, d) =>
        let count := Nat.min (SECTOR_SIZE - offset) (length output - copied) in
        read_bytes_loop fuel start (copied + count)
          (splice output copied (slice sector offset count)) sector d
      | (Err e, _, d) => (Err (GBlock e), output, d)
      | (Panic, _, d) => (Panic, output, d)
      end
    end
  else (Ok tt, output, d).

Definition read_bytes (start : Z) (output : list byte) d : res GError unit * list byte * D :=
  read_bytes_loop (length output) start 0 output (replicate SECTOR_SIZE x00) d.

Definition validate_protective_mbr d : res GError unit * D :=
  match read_sector 0 (replicate SECTOR_SIZE x00) d with
  | (Ok _, sector, d) =>
    if negb (byte_at sector 510 =? 0x55) || negb (byte_at sector 511 =? 0xaa)
    then (Err MissingProtectiveMbr, d)
    else if any (λ index, let offset := (446 + index * 16)%nat in
                   (byte_at sector (offset + 4) =? 0xee) && (read_u32 sector (offset + 8) =? 1))
              (seq 0 4)
    then (Ok tt, d)
    else (Err MissingProtectiveMbr, d)
  | (Err e, _, d) => (Err (GBlock e), d)
  | (Panic, _, d) => (Panic, d)
  end.

(** The loop over the partition entries; [entry] is the 256-byte buffer reused
    by every round. *)
Fixpoint scan_entries (indices : list nat) (entries_start : Z) (entry_size : nat)
    (first_usable last_usable : Z) (entry : list byte) (selected : option Partition) d
    : res GError (option Partition) * D :=
  match indices with
  | [] => (Ok selected, d)
  | index :: indices =>
    match read_bytes (entries_start + Z.of_nat (index * entry_size)) (take entry_size entry) d with
    | (Ok _, head, d) =>
      let entry := head ++ drop entry_size entry in
      let kind := take 16 entry in
      if forallb (λ b, byte_z b =? 0) kind
      then scan_entries indices entries_start entry_size first_usable last_usable entry selected d
      else
        let first_lba := read_u64 entry 32 in
        let last_lba := read_u64 entry 40 in
        if (first_lba <? first_usable) || (last_usable <? last_lba) || (last_lba <? first_lba)
        then (Err GOutOfBounds, d)
        else
          let selected :=
            match selected with
            | None =>
              if bool_decide (kind = EFI_SYSTEM_GUID) || bool_decide (kind = BASIC_DATA_GUID)
              then Some (mkPartition first_lba (last_lba - first_lba + 1) 0xee) else None
            | Some _ => selected
            end in
          scan_entries indices entries_start entry_size first_usable last_usable entry selected d
    | (Err e, _, d) => (Err e, d)
    | (Panic, _, d) => (Panic, d)
    end
  end.

(** The checks of the header fields, up to the entry-table checksum. *)
Definition check_header (header : list byte) (disk_sectors : Z)
    : res GError (Z * nat * nat * Z * Z * Z) :=
  if negb (bool_decide (take 8 header = bytes "EFI PART")) || negb (read_u32 header 8 =? 0x00010000)
  then Err InvalidHeader else
  let header_size := read_u32 header 12 in
  if negb ((GPT_HEADER_MIN_SIZE <=? header_size) && (header_size <=? Z.of_nat SECTOR_SIZE))
  then Err InvalidHeader else
  let expected_header_crc := read_u32 header 16 in
  let header := splice header 16 (replicate 4 x00) in
  if negb (crc32 (take (Z.to_nat header_size) header) =? expected_header_crc)
  then Err InvalidChecksum else
  let current_lba := read_u64 header 24 in
  let backup_lba := read_u64 header 32 in
  let first_usable := read_u64 header 40 in
  let last_usable := read_u64 header 48 in
  let entries_lba := read_u64 header 72 in
  let entry_count := read_u32 header 80 in
  let entry_size := read_u32 header 84 in
  let expected_entries_crc := read_u32 header 88 in
  if negb (current_lba =? 1) || (disk_sectors <=? backup_lba) || (last_usable <? first_usable)
     || (disk_sectors <=? last_usable) || (entry_count =? 0) || (MAX_PARTITION_ENTRIES <? entry_count)
     || negb ((128 <=? entry_size) && (entry_size <=? Z.of_nat MAX_PARTITION_ENTRY_SIZE))
     || negb (entry_size mod 8 =? 0)
  then Err Unsupported else
  entries_bytes ← ok_or GOutOfBounds (checked_mul 64 entry_count entry_size);
  entries_start ← ok_or GOutOfBounds (checked_mul 64 entries_lba (Z.of_nat SECTOR_SIZE));
  disk_bytes ← ok_or GOutOfBounds (checked_mul 64 disk_sectors (Z.of_nat SECTOR_SIZE));
  match checked_add 64 entries_start entries_bytes with
  | Some endp =>
    if disk_bytes <? endp then Err GOutOfBounds
    else Ok (entries_start, Z.to_nat entry_count, Z.to_nat entry_size,
             first_usable, last_usable, expected_entries_crc)
  | None => Err GOutOfBounds
  end.

Definition find_fat_partition d : res GError (option Partition) * D :=
  match validate_protective_mbr d with
  | (Ok _, d) =>
    match read_sector 1 (replicate SECTOR_SIZE x00) d with
    | (Ok _, header, d) =>
      match check_header header (sector_count d) with
      | Ok (entries_start, entry_count, entry_size, first_usable, last_usable, expected) =>
        match entries_crc entries_start (entry_count * entry_size) d with
        | (Ok crc, d) =>
          if negb (crc =? expected) then (Err InvalidChecksum, d)
          else scan_entries (seq 0 entry_count) entries_start entry_size first_usable last_usable
                 (replicate MAX_PARTITION_ENTRY_SIZE x00) None d
        | (Err e, d) => (Err e, d)
        | (Panic, d) => (Panic, d)
        end
      | Err e => (Err e, d)
      | Panic => (Panic, d)
      end
    | (Err e, _, d) => (Err (GBlock e), d)
    | (Panic, _, d) => (Panic, d)
    end
  | (Err e, d) => (Err e, d)
  | (Panic, d) => (Panic, d)
  end.
End readers.

Definition set_at (i : nat) (z : Z) (l : list byte) : list byte := <[i := z_byte z]> l.

(** The self-test's disk; [flip_header] and [flip_entries] corrupt byte 20. *)
Definition test_disk (flip_header flip_entries : bool) : RamDisk :=
  let zero := replicate SECTOR_SIZE x00 in
  let mbr := set_at 450 0xee (splice (splice zero 454 (to_le_bytes 4 1)) 458 (to_le_bytes 4 15)) in
  let mbr := set_at 510 0x55 (set_at 511 0xaa mbr) in
  let entries := set_at 16 1 (splice zero 0 EFI_SYSTEM_GUID) in
  let entries := splice (splice entries 32 (to_le_bytes 8 3)) 40 (to_le_bytes 8 7) in
  let header := splice zero 0 (bytes "EFI PART") in
  let header := splice header 8 (to_le_bytes 4 0x00010000) in
  let header := splice header 12 (to_le_bytes 4 GPT_HEADER_MIN_SIZE) in
  let header := splice (splice header 24 (to_le_bytes 8 1)) 32 (to_le_bytes 8 15) in
  let header := splice (splice header 40 (to_le_bytes 8 3)) 48 (to_le_bytes 8 14) in
  let header := splice (splice header 72 (to_le_bytes 8 2)) 80 (to_le_bytes 4 1) in
  let header := splice header 84 (to_le_bytes 4 128) in
  let header := splice header 88 (to_le_bytes 4 (crc32 (take 128 entries))) in
  let header := splice header 16
    (to_le_bytes 4 (crc32 (take (Z.to_nat GPT_HEADER_MIN_SIZE) header))) in
  let header := if flip_header then set_at 20 1 header else header in
  let entries := if flip_entries then set_at 20 1 entries else entries in
  mkRamDisk ([mbr; header; entries] ++ replicate 13 zero) false.

Definition self_test : bool :=
  let valid := match fst (find_fat_partition (test_disk false false)) with
               | Ok (Some p) => (start_lba p =? 3) && (psectors p =? 5)
               | _ => false
               end in
  let header_corruption_rejected :=
    bool_decide (fst (find_fat_partition (test_disk true false)) = Err InvalidChecksum) in
  let entries_corruption_rejected :=
    bool_decide (fst (find_fat_partition (test_disk false true)) = Err InvalidChecksum) in
  valid && header_corruption_rejected && entries_corruption_rejected.

(** ** Error detection of the checksum *)

(** A round is injective on 32-bit states: the polynomial's top bit records the
    bit that was shifted out. *)
Lemma crc_round_bits s n :
  in_width 32 s → 0 ≤ n →
  Z.testbit (crc_round s) n =
    xorb (Z.testbit s (n + 1)) (Z.testbit s 0 && Z.testbit 0xedb88320 n).
Proof.
  intros Hs Hn. unfold crc_round. rewrite Z.lxor_spec, Z.shiftr_spec, Z.land_spec by lia.
  f_equal. assert (Hl : Z.land s 1 = Z.b2z (Z.testbit s 0)).
  { replace 1 with (Z.ones 1) by done. rewrite Z.land_ones by lia. rewrite Z.bit0_odd.
    change (2 ^ 1) with 2. rewrite Zmod_odd. by destruct (Z.odd s). }
  rewrite Hl. destruct (Z.testbit s 0); simpl.
  - change (wrap 32 (0 - 1)) with (Z.ones 32).
    destruct (decide (n < 32)); [by rewrite Z.ones_spec_low, andb_true_r by lia|].
    rewrite Z.ones_spec_high by lia. rewrite andb_false_r.
    symmetry. apply Z.bits_above_log2; [done|]. change (Z.log2 _) with 31. lia.
  - change (wrap 32 (0 - 0)) with 0. by rewrite Z.bits_0, andb_false_r.
Qed.

Lemma in_width_testbit w s n : in_width w s → 0 ≤ w ≤ n → Z.testbit s n = false.
Proof.
  intros [Hs0 Hs] Hn. destruct (decide (s = 0)) as [->|]; [apply Z.bits_0|].
  apply Z.bits_above_log2; [done|]. assert (Z.log2 s < w) by (apply Z.log2_lt_pow2; lia). lia.
Qed.

Lemma bits_in_width w s : 0 ≤ w → 0 ≤ s → (∀ n, w ≤ n → Z.testbit s n = false) → in_width w s.
Proof.
  intros Hw Hs Hb. split; [done|]. destruct (decide (s = 0)) as [->|]; [lia|].
  apply Z.log2_lt_pow2; [lia|]. destruct (decide (Z.log2 s < w)); [done|].
  specialize (Hb (Z.log2 s) ltac:(lia)). rewrite Z.bit_log2 in Hb by lia. done.
Qed.

Lemma crc_round_width s : in_width 32 s → in_width 32 (crc_round s).
Proof.
  intros Hs. apply bits_in_width; [done| |].
  - unfold crc_round. apply Z.lxor_nonneg. split; intros _.
    + apply Z.land_nonneg. by left.
    + apply Z.shiftr_nonneg. apply Hs.
  - intros n Hn. rewrite crc_round_bits by (done || lia).
    rewrite (in_width_testbit 32) by (done || lia).
    rewrite (in_width_testbit 32 0xedb88320) by (done || lia). by rewrite andb_false_r.
Qed.

Lemma crc_round_inj s s' :
  in_width 32 s → in_width 32 s' → crc_round s = crc_round s' → s = s'.
Proof.
  intros Hs Hs' Heq.
  assert (Hb : ∀ n, 0 ≤ n → xorb (Z.testbit s (n + 1)) (Z.testbit s 0 && Z.testbit 0xedb88320 n)
                = xorb (Z.testbit s' (n + 1)) (Z.testbit s' 0 && Z.testbit 0xedb88320 n))
    by (intros n Hn; rewrite <-!crc_round_bits by done; by rewrite Heq).
  assert (H0 : Z.testbit s 0 = Z.testbit s' 0).
  { pose proof (Hb 31 ltac:(lia)) as H31. rewrite !(in_width_testbit 32 _ (31 + 1)) in H31 by (done || lia).
    change (Z.testbit 0xedb88320 31) with true in H31. by rewrite !andb_true_r, !xorb_false_l in H31. }
  apply Z.bits_inj'. intros n Hn. destruct (decide (n = 0)) as [->|]; [done|].
  specialize (Hb (n - 1) ltac:(lia)). rewrite H0 in Hb. replace (n - 1 + 1) with n in Hb by lia.
  revert Hb. generalize (Z.testbit s' 0 && Z.testbit 0xedb88320 (n - 1)).
  by destruct (Z.testbit s n), (Z.testbit s' n), b.
Qed.

Lemma lxor_byte_width s b : in_width 32 s → in_width 32 (Z.lxor s (byte_z b)).
Proof.
  intros Hs. pose proof (byte_z_bound b). apply bits_in_width; [done| |].
  - apply Z.lxor_nonneg. unfold in_width in Hs. lia.
  - intros n Hn. rewrite Z.lxor_spec, (in_width_testbit 32 s) by (done || lia).
    rewrite (in_width_testbit 8) by (unfold in_width; lia). done.
Qed.

Lemma iter_round k s s' :
  in_width 32 s → in_width 32 s' →
  in_width 32 (Nat.iter k crc_round s) ∧
  (Nat.iter k crc_round s = Nat.iter k crc_round s' → s = s').
Proof.
  intros Hs Hs'.
  assert (Hw : ∀ x, in_width 32 x → in_width 32 (Nat.iter k crc_round x))
    by (intros x Hx; induction k; simpl; [done|by apply crc_round_width]).
  split; [by apply Hw|]. clear Hw. induction k as [|k IH]; simpl; [done|].
  intros Heq. apply IH, crc_round_inj; [| |done]; clear -Hs Hs'; induction k; simpl;
    (done || by apply crc_round_width).
Qed.

Lemma crc_byte_eq : ∃ k, ∀ s b, crc_byte s b = Nat.iter k crc_round (Z.lxor s (byte_z b)).
Proof. by exists 8%nat. Qed.

Lemma crc_byte_width s b : in_width 32 s → in_width 32 (crc_byte s b).
Proof.
  intros. destruct crc_byte_eq as [k ->].
  apply (iter_round k _ (Z.lxor s (byte_z b))); by apply lxor_byte_width.
Qed.

Lemma crc_byte_inj s s' b :
  in_width 32 s → in_width 32 s' → crc_byte s b = crc_byte s' b → s = s'.
Proof.
  intros Hs Hs' Heq. destruct crc_byte_eq as [k Hk]. rewrite !Hk in Heq.
  apply (proj2 (iter_round k _ _ (lxor_byte_width s b Hs) (lxor_byte_width s' b Hs'))) in Heq.
  apply (f_equal (λ z, Z.lxor z (byte_z b))) in Heq.
  by rewrite !Z.lxor_assoc, !Z.lxor_nilpotent, !Z.lxor_0_r in Heq.
Qed.

Lemma crc_byte_inj_byte s b b' : in_width 32 s → crc_byte s b = crc_byte s b' → b = b'.
Proof.
  intros Hs Heq. destruct crc_byte_eq as [k Hk]. rewrite !Hk in Heq.
  apply (proj2 (iter_round k _ _ (lxor_byte_width s b Hs) (lxor_byte_width s b' Hs))) in Heq.
  apply (f_equal (Z.lxor s)) in Heq.
  rewrite <-!Z.lxor_assoc, !Z.lxor_nilpotent, !Z.lxor_0_l in Heq. by apply byte_z_inj.
Qed.

Lemma crc32_extend_width l s : in_width 32 s → in_width 32 (crc32_extend s l).
Proof. revert s. induction l; intros s Hs; simpl; [done|]. by apply IHl, crc_byte_width. Qed.

Lemma crc32_extend_inj l s s' :
  in_width 32 s → in_width 32 s' → crc32_extend s l = crc32_extend s' l → s = s'.
Proof.
  revert s s'. induction l as [|b l IH]; intros s s' Hs Hs' Heq; simpl in Heq; [done|].
  apply IH in Heq; [|by apply crc_byte_width..]. by apply crc_byte_inj in Heq.
Qed.

Lemma crc32_extend_app s l l' : crc32_extend s (l ++ l') = crc32_extend (crc32_extend s l) l'.
Proof. apply foldl_app. Qed.

Lemma bnot_inj w x y : bnot w x = bnot w y → x = y.
Proof.
  unfold bnot. intros H. apply (f_equal (Z.lxor (2 ^ w - 1))) in H.
  by rewrite <-!Z.lxor_assoc, !Z.lxor_nilpotent, !Z.lxor_0_l in H.
Qed.

(** The checksum detects every corruption confined to a single byte of the
    header or the entry table. *)
Theorem crc32_detects_byte_corruption l1 b b' l2 :
  b ≠ b' → crc32 (l1 ++ b :: l2) ≠ crc32 (l1 ++ b' :: l2).
Proof.
  unfold crc32. intros Hne Heq%bnot_inj. apply Hne. rewrite !crc32_extend_app in Heq. simpl in Heq.
  assert (Hw : in_width 32 (crc32_extend (2 ^ 32 - 1) l1)) by (apply crc32_extend_width; done).
  apply crc32_extend_inj in Heq; [|by apply crc_byte_width..]. by apply crc_byte_inj_byte in Heq.
Qed.

Lemma crc32_detects_witness :
  crc32 (bytes "EFI" ++ Byte.x20 :: bytes "PART") ≠ crc32 (bytes "EFI" ++ Byte.x21 :: bytes "PART").
Proof.
  apply (crc32_detects_byte_corruption (bytes "EFI") Byte.x20 Byte.x21 (bytes "PART")).
  discriminate.
Defined.

(** ** Byte-granular access to the device *)

Section disk_bytes.
Context {D : Type} `{BlockDeviceLaws D}.
Implicit Types (d : D).

(** The byte at an absolute position, and the bytes of a range. *)
Definition dev_byte d (pos : Z) : byte :=
  default x00 (dev_view d (pos / Z.of_nat SECTOR_SIZE)
                 !! Z.to_nat (pos mod Z.of_nat SECTOR_SIZE)).
Definition disk_range d (start : Z) (n : nat) : list byte :=
  (λ i, dev_byte d (start + Z.of_nat i)) <$> seq 0 n.

Lemma length_disk_range d start n : length (disk_range d start n) = n.
Proof. unfold disk_range. by rewrite length_fmap, length_seq. Qed.

Lemma lookup_disk_range d start n i :
  (i < n)%nat → disk_range d start n !! i = Some (dev_byte d (start + Z.of_nat i)).
Proof. intros. unfold disk_range. by rewrite list_lookup_fmap, lookup_seq_lt. Qed.

Lemma disk_range_app d start n m :
  disk_range d start (n + m) = disk_range d start n ++ disk_range d (start + Z.of_nat n) m.
Proof.
  apply list_eq. intros i. destruct (decide (i < n + m)%nat).
  - rewrite lookup_disk_range by done. destruct (decide (i < n)%nat).
    + by rewrite lookup_app_l, lookup_disk_range by (rewrite ?length_disk_range; done).
    + rewrite lookup_app_r by (rewrite length_disk_range; lia).
      rewrite length_disk_range, lookup_disk_range by lia. do 2 f_equal. lia.
  - rewrite !lookup_ge_None_2; [done| |];
      rewrite ?length_app, !length_disk_range; lia.
Qed.

Lemma disk_range_equiv d d' start n : d ≃ d' → disk_range d start n = disk_range d' start n.
Proof. intros Heq. unfold disk_range, dev_byte. apply list_fmap_ext. intros. by rewrite Heq. Qed.

(** A run of bytes inside one sector is a slice of that sector. *)
Lemma slice_is_range d pos count :
  dev_ok d → 0 ≤ pos → pos / Z.of_nat SECTOR_SIZE < sector_count d →
  (count ≤ SECTOR_SIZE - Z.to_nat (pos mod Z.of_nat SECTOR_SIZE))%nat →
  slice (dev_view d (pos / Z.of_nat SECTOR_SIZE)) (Z.to_nat (pos mod Z.of_nat SECTOR_SIZE)) count
  = disk_range d pos count.
Proof.
  intros Hok Hpos Hlba Hc. pose proof SECTOR_SIZE_eq as HS. set (S := Z.of_nat SECTOR_SIZE) in *.
  pose proof (Z.mod_pos_bound pos S). assert (0 ≤ pos / S) by (apply Z.div_pos; lia).
  assert (Hlen : length (dev_view d (pos / S)) = SECTOR_SIZE) by (apply dev_view_length; [done|lia]).
  apply list_eq. intros i. destruct (decide (i < count)%nat).
  - rewrite lookup_slice, lookup_disk_range by done. unfold dev_byte. fold S.
    pose proof (Z.div_mod pos S).
    assert (Hd : (pos + Z.of_nat i) / S = pos / S)
      by (symmetry; apply Z.div_unique_pos with (pos mod S + Z.of_nat i); lia).
    assert (Hm : (pos + Z.of_nat i) mod S = pos mod S + Z.of_nat i)
      by (symmetry; apply Z.mod_unique_pos with (pos / S); lia).
    rewrite Hd, Hm, Z2Nat.inj_add, Nat2Z.id by lia.
    destruct (lookup_lt_is_Some_2 (dev_view d (pos / S)) (Z.to_nat (pos mod S) + i)) as [b Hb];
      [lia|]. by rewrite Hb.
  - rewrite !lookup_ge_None_2; [done|rewrite length_disk_range; lia|].
    unfold slice. rewrite length_take. lia.
Qed.

(** One round of either loop: the sector read holds the next bytes. *)
Lemma read_chunk d start k len sector r sector' d' :
  dev_ok d → 0 ≤ start → (k < len)%nat → length sector = SECTOR_SIZE →
  let pos := start + Z.of_nat k in
  let offset := Z.to_nat (pos mod Z.of_nat SECTOR_SIZE) in
  let count := Nat.min (SECTOR_SIZE - offset) (len - k) in
  read_sector (pos / Z.of_nat SECTOR_SIZE) sector d = (r, sector', d') →
  d ≃ d' ∧ r ≠ Panic ∧ length sector' = SECTOR_SIZE ∧ (0 < count ≤ len - k)%nat ∧
  (is_ok r → slice sector' offset count = disk_range d pos count).
Proof.
  intros Hok Hst Hk Hsec pos offset count Hr. pose proof SECTOR_SIZE_eq as HS.
  pose proof (Z.mod_pos_bound pos (Z.of_nat SECTOR_SIZE)).
  assert (Hl : 0 ≤ pos / Z.of_nat SECTOR_SIZE) by (apply Z.div_pos; lia).
  destruct (read_law _ _ _ _ _ _ Hok Hl Hr) as (Hsd & Hb & Hrr).
  split; [by split|]. split; [by destruct r|]. split; [congruence|]. split; [lia|].
  intros Hr'. destruct r as [[]|e|]; [|done..]. destruct Hrr as (_ & Hlt & ->).
  apply slice_is_range; [done|lia|done|lia].
Qed.

Lemma entries_crc_loop_spec fuel start len k state sector d r d' :
  dev_ok d → 0 ≤ start → (k ≤ len)%nat → (len - k ≤ fuel)%nat → length sector = SECTOR_SIZE →
  entries_crc_loop fuel start len k state sector d = (r, d') →
  d ≃ d' ∧ r ≠ Panic ∧
  ∀ c, r = Ok c →
    c = bnot 32 (crc32_extend state (disk_range d (start + Z.of_nat k) (len - k))).
Proof.
  revert k state sector d. induction fuel as [|fuel IH];
    intros k state sector d Hok Hst Hk Hf Hsec Hl; cbn [entries_crc_loop] in Hl;
    destruct (Nat.ltb_spec k len) as [Hlt|Hge]; try lia.
  1, 3: simplify_eq; replace (len - k)%nat with 0%nat by lia; split; [by split|]; split; [done|];
    by intros c [= <-].
  destruct (read_sector _ sector d) as [[rr sector'] d1] eqn:Hr.
  destruct (read_chunk d start k len sector rr sector' d1 Hok Hst Hlt Hsec Hr)
    as (Heq & Hnp & Hsec' & Hc & Hsl).
  destruct rr as [[]|e|]; [|by simplify_eq|done]. rewrite (Hsl I) in Hl.
  set (count := Nat.min _ _) in *.
  pose proof Heq as (_ & Hok1 & _).
  apply IH in Hl as (Heq1 & Hnp1 & Hc1); [|done|done|lia|lia|done].
  split; [by etrans|]. split; [done|]. intros c ->. rewrite (Hc1 c eq_refl).
  rewrite <-(disk_range_equiv d d1) by done. rewrite <-crc32_extend_app.
  replace (len - k)%nat with (count + (len - (k + count)))%nat by lia.
  rewrite disk_range_app. do 3 f_equal. f_equal; lia.
Qed.

Lemma read_bytes_loop_spec fuel start k out sector d r out' d' :
  dev_ok d → 0 ≤ start → (k ≤ length out)%nat → (length out - k ≤ fuel)%nat →
  length sector = SECTOR_SIZE → read_bytes_loop fuel start k out sector d = (r, out', d') →
  d ≃ d' ∧ r ≠ Panic ∧ length out' = length out ∧
  (is_ok r → out' = take k out ++ disk_range d (start + Z.of_nat k) (length out - k)).
Proof.
  revert k out sector d. induction fuel as [|fuel IH];
    intros k out sector d Hok Hst Hk Hf Hsec Hl; cbn [read_bytes_loop] in Hl;
    destruct (Nat.ltb_spec k (length out)) as [Hlt|Hge]; try lia.
  1, 3: simplify_eq; replace (length out' - k)%nat with 0%nat by lia; split; [by split|];
    split; [done|]; split; [done|]; intros _; rewrite take_ge by lia; by rewrite app_nil_r.
  destruct (read_sector _ sector d) as [[rr sector'] d1] eqn:Hr.
  destruct (read_chunk d start k (length out) sector rr sector' d1 Hok Hst Hlt Hsec Hr)
    as (Heq & Hnp & Hsec' & Hc & Hsl).
  destruct rr as [[]|e|]; [|by simplify_eq|done]. rewrite (Hsl I) in Hl.
  set (count := Nat.min _ _) in *. pose proof Heq as (_ & Hok1 & _).
  set (chunk := disk_range d (start + Z.of_nat k) count) in *.
  assert (Hchunk : length chunk = count) by apply length_disk_range.
  assert (Hlen : length (splice out k chunk) = length out) by (apply length_splice; lia).
  apply IH in Hl as (Heq1 & Hnp1 & Hl1 & Hc1); rewrite ?Hlen; [|done|done|lia|lia|done].
  split; [by etrans|]. split; [done|]. split; [lia|]. intros Hr'. rewrite (Hc1 Hr'), Hlen.
  rewrite <-(disk_range_equiv d d1) by done.
  replace (length out - k)%nat with (count + (length out - (k + count)))%nat by lia.
  rewrite disk_range_app, app_assoc. f_equal.
  - unfold splice. rewrite app_assoc. rewrite take_app_le by (rewrite length_app, length_take; lia).
    rewrite take_ge by (rewrite length_app, length_take; lia). done.
  - f_equal; lia.
Qed.
End disk_bytes.

(** Reading the entry table sector by sector and checksumming each piece
    gives the CRC-32 of the table's bytes on disk, whatever the alignment; the
    loop always finishes, and fails only with a device error. *)
Theorem entries_crc_is_crc32 {D} `{BlockDeviceLaws D} (d : D) start len :
  dev_ok d → 0 ≤ start →
  match entries_crc start len d with
  | (Ok c, d') => d ≃ d' ∧ c = crc32 (disk_range d start len)
  | (Err e, d') => d ≃ d' ∧ ∃ be, e = GBlock be
  | (Panic, _) => False
  end.
Proof.
  intros Hok Hst. destruct (entries_crc start len d) as [r d'] eqn:Hr.
  pose proof Hr as Hl. unfold entries_crc in Hl.
  apply entries_crc_loop_spec in Hl as (Heq & Hnp & Hc);
    [|done|done|lia|lia|by rewrite length_replicate].
  destruct r as [c|e|]; [|split; [done|]|done].
  - split; [done|]. rewrite (Hc c eq_refl), Z.add_0_r, Nat.sub_0_r. done.
  - clear -Hr. unfold entries_crc in Hr. revert Hr.
    generalize (replicate SECTOR_SIZE x00), (2 ^ 32 - 1), 0%nat, d. generalize len at 1.
    intros fuel. induction fuel as [|fuel IH]; intros sector st k d0; cbn [entries_crc_loop].
    + case_match; by intros.
    + case_match; [|by intros]. destruct (read_sector _ _ _) as [[[[]|be|] s'] d1];
        [apply IH|intros; simplify_eq; eauto|by intros].
Qed.

Lemma entries_crc_witness :
  fst (entries_crc 600 700 (ramdisk_new 4)) = Ok (crc32 (disk_range (ramdisk_new 4) 600 700)).
Proof.
  pose proof (entries_crc_is_crc32 (ramdisk_new 4) 600 700 (ramdisk_new_ok 4) ltac:(lia)) as Hw.
  destruct (entries_crc 600 700 (ramdisk_new 4)) as [[c|e|] d'] eqn:He; simpl.
  - by destruct Hw as [_ ->].
  - exfalso. destruct Hw as [_ [be ->]]. apply (f_equal fst) in He. vm_compute in He. discriminate.
  - done.
Defined.

(** ** The partition found lies inside the device *)

Section soundness.
Context {D : Type} `{BlockDeviceLaws D}.
Implicit Types (d : D).

(** A partition between the usable bounds of the header. *)
Definition usable (first last : Z) (o : option Partition) : Prop :=
  match o with
  | None => True
  | Some p => kind p = 0xee ∧ 0 ≤ start_lba p ∧ first ≤ start_lba p ∧ 0 < psectors p ∧
              start_lba p + psectors p ≤ last + 1
  end.

Lemma read_bytes_spec start out d r out' d' :
  dev_ok d → 0 ≤ start → read_bytes start out d = (r, out', d') →
  d ≃ d' ∧ r ≠ Panic ∧ length out' = length out ∧
  (is_ok r → out' = disk_range d start (length out)).
Proof.
  intros Hok Hst Hr. unfold read_bytes in Hr.
  apply read_bytes_loop_spec in Hr as (Heq & Hnp & Hl & Hc);
    [|done|done|lia|lia|by rewrite length_replicate].
  split_and!; [done..|]. intros Hr'. rewrite (Hc Hr'). simpl.
  by rewrite Z.add_0_r, Nat.sub_0_r.
Qed.

Lemma scan_entries_spec indices es size first last entry sel d r d' :
  dev_ok d → 0 ≤ es → usable first last sel →
  scan_entries indices es size first last entry sel d = (r, d') →
  d ≃ d' ∧ r ≠ Panic ∧ ∀ o, r = Ok o → usable first last o.
Proof.
  intros Hok Hes. revert entry sel d Hok.
  induction indices as [|i indices IH]; intros entry sel d Hok Hu Hs; cbn [scan_entries] in Hs.
  { simplify_eq. split; [by split|]. split; [done|]. by intros o [= <-]. }
  destruct (read_bytes _ _ d) as [[rr head] d1] eqn:Hr.
  apply read_bytes_spec in Hr as (Heq & Hnp & _); [|done|lia].
  pose proof Heq as (_ & Hok1 & _).
  destruct rr as [[]|e|]; [|by simplify_eq|done].
  case_match.
  { apply IH in Hs as (Heq1 & ?); [|done..]. split; [by etrans|done]. }
  case_match eqn:Hb; [by simplify_eq|].
  apply IH in Hs as (Heq1 & ?); [split; [by etrans|done]|done|].
  split_guards. destruct sel; [done|]. case_match; [|done]. simpl.
  pose proof (from_le_bytes_bound (slice (head ++ drop size entry) 32 8)).
  unfold read_u64 in *. lia.
Qed.

Lemma check_header_spec header count es n size first last crc :
  check_header header count = Ok (es, n, size, first, last, crc) →
  0 ≤ es ∧ first ≤ last < count.
Proof.
  unfold check_header. generalize (splice header 16 (replicate 4 x00)). intros h.
  case_match; [done|]. case_match; [done|]. case_match; [done|].
  case_match eqn:Hb; [done|]. split_guards. intros Hr.
  apply res_bind_Ok_inv in Hr as (eb & Heb & Hr). apply res_bind_Ok_inv in Hr as (es' & Hes & Hr).
  apply res_bind_Ok_inv in Hr as (db & Hdb & Hr).
  apply ok_or_Ok, checked_mul_Some in Hes as [-> _].
  destruct (checked_add _ _ _); [|done]. case_match; [done|]. simplify_eq.
  pose proof (from_le_bytes_bound (slice h 72 8)) as Hlb.
  unfold read_u64 in *. lia.
Qed.

Lemma check_header_no_panic header count : check_header header count ≠ Panic.
Proof.
  unfold check_header. repeat (case_match; [done|]).
  destruct (checked_mul 64 (read_u32 _ 80) _); [|done].
  destruct (checked_mul 64 (read_u64 _ 72) _); [|done].
  destruct (checked_mul 64 count _); [|done]. simpl.
  destruct (checked_add _ _ _); [|done]. by case_match.
Qed.

Lemma validate_spec d r d' :
  dev_ok d → validate_protective_mbr d = (r, d') → d ≃ d' ∧ r ≠ Panic.
Proof.
  intros Hok Hv. unfold validate_protective_mbr in Hv.
  destruct (read_sector 0 _ d) as [[rr sector] d1] eqn:Hr.
  destruct (read_law _ _ _ _ _ _ Hok (Z.le_refl 0) Hr) as (Hsd & _ & Hrr).
  assert (d ≃ d1) by by split.
  destruct rr as [[]|e|]; [|by simplify_eq|done].
  case_match; [by simplify_eq|]. case_match; by simplify_eq.
Qed.
End soundness.

(** The GPT reader never panics and never changes the device, and a
    partition it reports is a nonempty range inside the device, within the
    usable bounds of a header whose checksum matched. *)
Theorem find_fat_partition_sound {D} `{BlockDeviceLaws D} (d d' : D) r :
  dev_ok d → find_fat_partition d = (r, d') →
  d ≃ d' ∧ r ≠ Panic ∧
  ∀ p, r = Ok (Some p) →
    kind p = 0xee ∧ 0 ≤ start_lba p ∧ 0 < psectors p ∧
    start_lba p + psectors p ≤ sector_count d.
Proof.
  intros Hok Hf. unfold find_fat_partition in Hf.
  destruct (validate_protective_mbr d) as [v d1] eqn:Hv.
  apply validate_spec in Hv as [Heq1 Hnp1]; [|done]. pose proof Heq1 as (_ & Hok1 & Hc1 & _).
  destruct v as [[]|e|]; [|by simplify_eq|done].
  destruct (read_sector 1 _ d1) as [[rr header] d2] eqn:Hr.
  destruct (read_law _ _ _ _ _ _ Hok1 Z.le_0_1 Hr) as (Hsd & _ & Hrr).
  assert (Heq2 : d1 ≃ d2) by by split. pose proof Hsd as (Hok2 & Hc2 & _).
  assert (Heq02 : d ≃ d2) by by etrans.
  destruct rr as [[]|e|]; [|by simplify_eq|done].
  destruct (check_header header (sector_count d2)) as [[[[[[es n] size] first] last] crc]|e|] eqn:Hh;
    [|by simplify_eq|by apply check_header_no_panic in Hh].
  apply check_header_spec in Hh as [Hes Hlast].
  pose proof (entries_crc_is_crc32 d2 es (n * size) Hok2 Hes) as Hcrc.
  destruct (entries_crc es (n * size) d2) as [[c|e|] d3];
    [|simplify_eq; destruct Hcrc; split; [by etrans|done]|done].
  destruct Hcrc as [Heq3 _]. assert (Heq03 : d ≃ d3) by by etrans.
  case_match; [by simplify_eq|].
  apply scan_entries_spec in Hf as (Heq4 & Hnp & Hu); [|by destruct Heq3 as (_ & ? & _)|done|done].
  split; [by etrans|]. split; [done|]. intros p Hp.
  destruct (Hu _ Hp) as (? & ? & ? & ? & ?). lia.
Qed.

Lemma find_fat_partition_witness :
  find_fat_partition (test_disk false false)
    = (Ok (Some (mkPartition 3 5 0xee)), test_disk false false) ∧
  3 + 5 ≤ sector_count (test_disk false false).
Proof.
  assert (Hf : find_fat_partition (test_disk false false)
               = (Ok (Some (mkPartition 3 5 0xee)), test_disk false false))
    by (vm_compute; reflexivity).
  split; [exact Hf|].
  apply (find_fat_partition_sound (test_disk false false) (test_disk false false)
           (Ok (Some (mkPartition 3 5 0xee)))) in Hf as (_ & _ & Hp).
  - exact (proj2 (proj2 (proj2 (Hp _ eq_refl)))).
  - repeat (apply Forall_cons; split; [vm_compute; reflexivity|]). constructor.
Defined.

(** The source's boot self-test holds of the model. *)
Example gpt_self_test : self_test = true.
Proof. vm_compute. reflexivity. Qed.
