(* ===== verification/PageCache.v ===== *)
(** * The file page cache (kernel/src/page_cache.rs)

    Clean 4096-byte file pages, keyed by path and page number, loaded on demand
    by a closure the caller passes to [read].  The closure's captured state is
    an explicit parameter.  The main theorem: for a loader that delivers the
    pages of a file, a cached read is the file's own bytes. *)
From S2P Require Import Prelude Block.

Definition PAGE_SIZE : nat := Z.to_nat 4096.
Definition KEY_SIZE : nat := 128.
Lemma PAGE_SIZE_eq : Z.of_nat PAGE_SIZE = 4096.
Proof. reflexivity. Qed.
#[global] Opaque PAGE_SIZE KEY_SIZE.

Record Slot := mkSlot {
  key : list byte; key_len : nat; page : Z; data : list byte; slength : nat;
  valid : bool; age : Z }.

Definition slot_empty : Slot :=
  mkSlot (replicate KEY_SIZE x00) 0 0 (replicate PAGE_SIZE x00) 0 false 0.

Record Stats := mkStats {
  st_hits : Z; st_misses : Z; st_evictions : Z; st_resident : nat; st_capacity : nat }.

Record PageCache := mkCache { slots : list Slot; hits : Z; misses : Z; evictions : Z }.

(** [N] is the length of the slot array. *)
Definition new (N : nat) : PageCache := mkCache (replicate N slot_empty) 0 0 0.

Definition stats (c : PageCache) : Stats :=
  mkStats (hits c) (misses c) (evictions c) (count valid (slots c)) (length (slots c)).

Definition set_valid (v : bool) (s : Slot) : Slot :=
  mkSlot (key s) (key_len s) (page s) (data s) (slength s) v (age s).
Definition set_age (a : Z) (s : Slot) : Slot :=
  mkSlot (key s) (key_len s) (page s) (data s) (slength s) (valid s) a.
Definition set_data (d : list byte) (s : Slot) : Slot :=
  mkSlot (key s) (key_len s) (page s) d (slength s) (valid s) (age s).

Definition invalidate (c : PageCache) : PageCache :=
  mkCache (set_valid false <$> slots c) (hits c) (misses c) (evictions c).

Definition matches (k : list byte) (pg : Z) (s : Slot) : bool :=
  valid s && (page s =? pg) && Nat.eqb (key_len s) (length k)
  && bool_decide (take (key_len s) (key s) = k).

Lemma matches_true k pg s :
  matches k pg s = true → valid s = true ∧ page s = pg ∧ take (key_len s) (key s) = k.
Proof. unfold matches. intros. split_guards. by apply Z.eqb_eq in H2. Qed.

(** The slot a miss reuses: an invalid one, else the oldest. *)
Definition victim (c : PageCache) : option nat :=
  match position (λ s, negb (valid s)) (slots c) with
  | Some i => Some i
  | None => max_by_key age (slots c)
  end.

Definition touch (index : nat) (c : PageCache) : PageCache :=
  let aged := (λ s, if valid s then set_age (saturating_add 64 (age s) 1) s else s) <$> slots c in
  mkCache (alter (set_age 0) index aged) (hits c) (misses c) (evictions c).

Section read.
Context {L : Type} (load : Z → list byte → L → res Error nat * list byte * L).
Implicit Types (c : PageCache) (l : L).

(** Find the page's slot or load it into one. *)
Definition lookup_or_load (k : list byte) (pg : Z) c l : res Error nat * PageCache * L :=
  match position (matches k pg) (slots c) with
  | Some index =>
      (Ok index, mkCache (slots c) (saturating_add 64 (hits c) 1) (misses c) (evictions c), l)
  | None =>
    let c := mkCache (slots c) (hits c) (saturating_add 64 (misses c) 1) (evictions c) in
    match victim c with
    | None => (Panic, c, l)
    | Some index =>
      match slots c !! index with
      | None => (Panic, c, l)
      | Some s =>
        let ev := if valid s then saturating_add 64 (evictions c) 1 else evictions c in
        let c := mkCache (slots c) (hits c) (misses c) ev in
        let blank := set_data (replicate PAGE_SIZE x00) (set_valid false s) in
        let '(r, d, l) := load (pg * Z.of_nat PAGE_SIZE) (data blank) l in
        let s := set_data d blank in
        let store s := mkCache (<[index := s]> (slots c)) (hits c) (misses c) (evictions c) in
        match r with
        | Err e => (Err e, store s, l)
        | Panic => (Panic, store s, l)
        | Ok n =>
          if Nat.ltb PAGE_SIZE n then (Err InvalidBuffer, store s, l)
          else (Ok index,
                store (mkSlot (splice (key s) 0 k) (length k) pg (data s) n true (age s)), l)
        end
      end
    end
  end.

Fixpoint read_loop (fuel : nat) (k : list byte) (offset : Z) (copied : nat) (output : list byte)
    c l : res Error nat * list byte * PageCache * L :=
  if Nat.ltb copied (length output) then
    match fuel with
    | O => (Panic, output, c, l)
    | S fuel =>
      let position := offset + Z.of_nat copied in
      let pg := position / Z.of_nat PAGE_SIZE in
      let within := Z.to_nat (position mod Z.of_nat PAGE_SIZE) in
      match lookup_or_load k pg c l with
      | (Ok index, c, l) =>
        let c := touch index c in
        match slots c !! index with
        | None => (Panic, output, c, l)
        | Some s =>
          let count := Nat.min (slength s - within) (length output - copied) in
          if Nat.eqb count 0 then (Ok copied, output, c, l)
          else
            let output := splice output copied (slice (data s) within count) in
            let copied := (copied + count)%nat in
            if Nat.ltb (slength s) PAGE_SIZE then (Ok copied, output, c, l)
            else read_loop fuel k offset copied output c l
        end
      | (Err e, c, l) => (Err e, output, c, l)
      | (Panic, c, l) => (Panic, output, c, l)
      end
    end
  else (Ok copied, output, c, l).

(** Every round copies at least one byte or returns, so the output's length is
    enough fuel ([page_cache_read_exact]). *)
Definition read (k : list byte) (offset : Z) (output : list byte) c l
    : res Error nat * list byte * PageCache * L :=
  if Nat.eqb (length k) 0 || Nat.ltb KEY_SIZE (length k) || Nat.eqb (length (slots c)) 0
     || bool_decide (checked_add 64 offset (Z.of_nat (length output)) = None)
  then (Err InvalidBuffer, output, c, l)
  else read_loop (length output) k offset 0 output c l.
End read.

(** ** Coherence with the files behind the cache *)

(** The bytes of page [pg] of a file. *)
Definition page_content (f : list byte) (pg : Z) : list byte :=
  take PAGE_SIZE (drop (Z.to_nat (pg * Z.of_nat PAGE_SIZE)) f).

Section coherence.
Context (files : list byte → list byte).

(** A valid slot holds its page of the file its key names. *)
Record slot_ok (s : Slot) : Prop := {
  slot_key : length (key s) = KEY_SIZE;
  slot_data : length (data s) = PAGE_SIZE;
  slot_length : valid s = true → (slength s ≤ PAGE_SIZE)%nat;
  slot_page : valid s = true →
    take (slength s) (data s) = page_content (files (take (key_len s) (key s))) (page s) }.

Definition coherent (c : PageCache) : Prop := Forall slot_ok (slots c).

Lemma slot_ok_invalid s :
  length (key s) = KEY_SIZE → length (data s) = PAGE_SIZE → valid s = false → slot_ok s.
Proof. intros ?? Hv. split; [done..|congruence|congruence]. Qed.

Lemma slot_empty_ok : slot_ok slot_empty.
Proof. apply slot_ok_invalid; [apply length_replicate..|done]. Qed.

Lemma new_coherent N : coherent (new N).
Proof. apply Forall_replicate, slot_empty_ok. Qed.

Lemma invalidate_coherent c : coherent c → coherent (invalidate c).
Proof.
  intros Hc. apply Forall_fmap. eapply Forall_impl; [exact Hc|].
  intros s Hs. apply slot_ok_invalid; [apply (slot_key s Hs)|apply (slot_data s Hs)|done].
Qed.

Lemma set_age_ok a s : slot_ok s → slot_ok (set_age a s).
Proof. by intros [????]; split. Qed.

Lemma coherent_lookup c i s : coherent c → slots c !! i = Some s → slot_ok s.
Proof. intros Hc. by apply Forall_lookup_1. Qed.

Lemma coherent_insert c i s h m e :
  coherent c → slot_ok s → coherent (mkCache (<[i := s]> (slots c)) h m e).
Proof. intros. by apply Forall_insert. Qed.

Lemma touch_coherent i c : coherent c → coherent (touch i c).
Proof.
  intros Hc. apply Forall_alter; [|intros; by apply set_age_ok].
  apply Forall_fmap. eapply Forall_impl; [exact Hc|].
  intros s Hs. simpl. destruct (valid s); [by apply set_age_ok|done].
Qed.

Lemma touch_lookup i c s : slots c !! i = Some s →
  ∃ a, slots (touch i c) !! i = Some (set_age a s).
Proof.
  intros Hi. exists 0. unfold touch; simpl.
  rewrite list_lookup_alter_eq, list_lookup_fmap, Hi; simpl.
  by destruct (valid s).
Qed.

Lemma touch_length i c : length (slots (touch i c)) = length (slots c).
Proof. unfold touch; simpl. by rewrite length_alter, length_fmap. Qed.

Lemma victim_lookup c : (0 < length (slots c))%nat → ∃ i s, victim c = Some i ∧ slots c !! i = Some s.
Proof.
  intros Hl. unfold victim.
  destruct (position _ _) as [i|] eqn:E.
  - apply position_Some_1 in E as (s & ? & _). eauto.
  - destruct (max_by_key_is_Some age (slots c) Hl) as [i Hi].
    apply max_by_key_Some in Hi as Hz. destruct Hz as (z & ? & _). eauto.
Qed.
End coherence.

(** Without valid pages a cache is coherent with any files. *)
Lemma invalidate_any f g c : coherent f c → coherent g (invalidate c).
Proof.
  intros Hc. apply Forall_fmap. eapply Forall_impl; [exact Hc|].
  intros s Hs. apply slot_ok_invalid; [apply (slot_key f s Hs)|apply (slot_data f s Hs)|done].
Qed.
Lemma invalidate_twice c : invalidate (invalidate c) = invalidate c.
Proof. unfold invalidate. cbn. f_equal. rewrite <-list_fmap_compose. by apply list_fmap_ext. Qed.

(** What a loader promises for a file [f] in the states [I]: it stays in them,
    fills at most a page, never panics, and on success delivers the page that
    starts at the offset.  The cache always hands it a page of zeros. *)
Definition loads_from {L} (I : L → Prop) (load : Z → list byte → L → res Error nat * list byte * L)
    (f : list byte) : Prop :=
  ∀ pg l r buf' l', 0 ≤ pg → I l →
    load (pg * Z.of_nat PAGE_SIZE) (replicate PAGE_SIZE x00) l = (r, buf', l') →
    I l' ∧ length buf' = PAGE_SIZE ∧ r ≠ Panic ∧
    ∀ n, r = Ok n → (n ≤ PAGE_SIZE)%nat ∧ take n buf' = page_content f pg.

(** The same in every state and for every page-sized buffer. *)
Definition loads {L} (load : Z → list byte → L → res Error nat * list byte * L)
    (f : list byte) : Prop :=
  ∀ pg buf l r buf' l', length buf = PAGE_SIZE →
    load (pg * Z.of_nat PAGE_SIZE) buf l = (r, buf', l') →
    length buf' = PAGE_SIZE ∧ r ≠ Panic ∧
    ∀ n, r = Ok n → (n ≤ PAGE_SIZE)%nat ∧ take n buf' = page_content f pg.
Lemma loads_anywhere {L} load f : loads (L := L) load f → loads_from (λ _, True) load f.
Proof. intros Hl pg l r buf' l' _ _ Hr. split; [done|]. by eapply Hl; [apply length_replicate|]. Qed.

(** The bytes a read of [n] at [off] delivers: what the file has there. *)
Definition read_count (f : list byte) (off n : nat) : nat := Nat.min (length f - off) n.

Lemma page_content_slice f off pg within n :
  off = (Z.to_nat (pg * Z.of_nat PAGE_SIZE) + within)%nat →
  (within + n ≤ length (page_content f pg))%nat →
  slice (page_content f pg) within n = slice f off n.
Proof.
  intros -> Hle. unfold page_content in *. rewrite length_take, length_drop in Hle.
  unfold slice. rewrite <-drop_drop, skipn_firstn_comm, firstn_firstn.
  f_equal. lia.
Qed.

Lemma copy_step (f out : list byte) off i n :
  (off + (i + n) ≤ length f)%nat → (i + n ≤ length out)%nat →
  splice (slice f off i ++ drop i out) i (slice f (off + i) n)
  = slice f off (i + n) ++ drop (i + n) out.
Proof.
  intros. assert (length (slice f off i) = i) as Hi by (apply length_slice; lia).
  unfold splice. rewrite length_slice by lia.
  rewrite take_app_length' by done.
  rewrite slice_app, <-app_assoc. f_equal. f_equal.
  rewrite drop_app_ge by lia. rewrite drop_drop. f_equal. lia.
Qed.

Section read_correct.
Context (files : list byte → list byte).
Context {L : Type} (load : Z → list byte → L → res Error nat * list byte * L).
Context (I : L → Prop) (k : list byte) (Hload : loads_from I load (files k)).
Context (Hk : (length k ≤ KEY_SIZE)%nat).
Implicit Types (c : PageCache) (l : L).

(** [e] is an error some call of the loader returned. *)
Definition loader_error (e : Error) : Prop :=
  ∃ off buf l, (load off buf l).1.1 = Err e.

Lemma lookup_or_load_spec pg c l r c' l' :
  0 ≤ pg → I l → coherent files c → (0 < length (slots c))%nat →
  lookup_or_load load k pg c l = (r, c', l') →
  I l' ∧ coherent files c' ∧ length (slots c') = length (slots c) ∧
  match r with
  | Ok i => ∃ s, slots c' !! i = Some s ∧ (slength s ≤ PAGE_SIZE)%nat ∧
      take (slength s) (data s) = page_content (files k) pg
  | Err e => loader_error e
  | Panic => False
  end.
Proof using Hload Hk.
  intros Hpg HI Hc Hl. unfold lookup_or_load. destruct (position _ _) as [i|] eqn:E.
  - intros [= <- <- <-]. split; [done|]. split; [done|]. split; [done|].
    apply position_Some_1 in E as (s & Hs & Hm). exists s.
    apply matches_true in Hm as (Hv & <- & <-).
    destruct (coherent_lookup _ _ _ _ Hc Hs). auto.
  - destruct (victim_lookup (mkCache (slots c) (hits c) (saturating_add 64 (misses c) 1)
      (evictions c)) Hl) as (i & s & -> & Hs). simpl in Hs |- *. rewrite Hs.
    destruct (coherent_lookup _ _ _ _ Hc Hs) as [Hkey _ _ _].
    destruct (load _ _ _) as [[r1 d] l1] eqn:EL.
    destruct (Hload _ _ _ _ _ Hpg HI EL) as (HI' & Hd & Hnp & Hn).
    assert (Hbad : coherent files (mkCache (<[i := mkSlot (key s) (key_len s) (page s) d
      (slength s) false (age s)]> (slots c)) (hits c) (saturating_add 64 (misses c) 1)
      (if valid s then saturating_add 64 (evictions c) 1 else evictions c))).
    { apply coherent_insert; [done|]. by apply slot_ok_invalid. }
    destruct r1 as [n|e|]; [|intros [= <- <- <-]; simpl; autorewrite with lens..]; [|split_and!; try done..].
    + destruct (Hn n eq_refl) as [Hle Htake].
      destruct (Nat.ltb_spec PAGE_SIZE n); [lia|].
      intros [= <- <- <-]. simpl. autorewrite with lens. split_and!; [done| |done|].
      * apply coherent_insert; [done|]. split; simpl; [|done..|].
        -- by rewrite length_splice by (simpl; lia).
        -- intros _. rewrite Htake. f_equal. f_equal. unfold splice; simpl.
           by rewrite take_app_length.
      * eexists. split; [apply list_lookup_insert_eq; by eapply lookup_lt_Some|]. done.
    + by eexists _, _, _; rewrite EL.
Qed.

Definition read_result (off : nat) (out : list byte) (r : res Error nat) (out' : list byte) : Prop :=
  match r with
  | Ok n => n = read_count (files k) off (length out) ∧
      out' = slice (files k) off n ++ drop n out
  | Err e => length out' = length out ∧ loader_error e
  | Panic => False
  end.

Lemma read_loop_spec fuel off i out c l r out' c' l' :
  I l → coherent files c → (0 < length (slots c))%nat →
  (i ≤ length out)%nat → (length out - i ≤ fuel)%nat →
  (i = 0 ∨ off + i ≤ length (files k))%nat →
  read_loop load fuel k (Z.of_nat off) i (slice (files k) off i ++ drop i out) c l
    = (r, out', c', l') →
  I l' ∧ coherent files c' ∧ length (slots c') = length (slots c) ∧ read_result off out r out'.
Proof using Hload Hk.
  revert i c l. induction fuel as [|fuel IH]; intros i c l HI Hc Hl Hi Hf Hin.
  all: assert (Hlen : length (slice (files k) off i ++ drop i out) = length out)
    by (unfold slice; rewrite length_app, length_take, !length_drop; lia).
  all: cbn [read_loop]; rewrite Hlen; destruct (Nat.ltb_spec i (length out)) as [Hlt|Hge].
  all: try by lia.
  all: try by intros [= <- <- <- <-]; split; [done|]; split; [done|]; split; [done|]; split; [unfold read_count; lia|].
  destruct (lookup_or_load _ _ _ _ _) as [[r1 c1] l1] eqn:E1.
  assert (0 ≤ (Z.of_nat off + Z.of_nat i) / Z.of_nat PAGE_SIZE) as Hpg0 by (apply Z.div_pos; pose proof PAGE_SIZE_eq; lia).
  destruct (lookup_or_load_spec _ _ _ _ _ _ Hpg0 HI Hc Hl E1) as (HI1 & Hc1 & Hl1 & Hr).
  destruct r1 as [idx|e|]; [|intros [= <- <- <- <-]; by split_and!|done].
  destruct Hr as (s & Hs & Hle & Hpage).
  destruct (touch_lookup _ _ _ Hs) as [a ->]. simpl.
  pose proof (touch_coherent files idx c1 Hc1) as Hc2.
  pose proof (touch_length idx c1) as Hl2.
  generalize dependent (touch idx c1). intros c2 Hc2 Hl2.
  set (pg := (Z.of_nat off + Z.of_nat i) / Z.of_nat PAGE_SIZE) in *.
  set (w := Z.to_nat ((Z.of_nat off + Z.of_nat i) `mod` Z.of_nat PAGE_SIZE)).
  assert (Hpos : (off + i = Z.to_nat (pg * Z.of_nat PAGE_SIZE) + w)%nat ∧ (w < PAGE_SIZE)%nat).
  { unfold pg, w. pose proof (Z.div_mod (Z.of_nat off + Z.of_nat i) (Z.of_nat PAGE_SIZE)).
    pose proof (Z.mod_pos_bound (Z.of_nat off + Z.of_nat i) (Z.of_nat PAGE_SIZE)).
    pose proof PAGE_SIZE_eq.
    pose proof (Z.div_pos (Z.of_nat off + Z.of_nat i) (Z.of_nat PAGE_SIZE)). lia. }
  assert (Hsl : slength s = length (page_content (files k) pg)).
  { rewrite <-Hpage. rewrite length_take.
    pose proof (coherent_lookup _ _ _ _ Hc1 Hs) as [_ Hd _ _]. lia. }
  assert (Hpl : length (page_content (files k) pg) =
    Nat.min PAGE_SIZE (length (files k) - Z.to_nat (pg * Z.of_nat PAGE_SIZE))).
  { unfold page_content. by rewrite length_take, length_drop. }
  destruct Hpos as [Hpos Hw].
  set (n := Nat.min (slength s - w) (length out - i)).
  destruct (Nat.eqb_spec n 0) as [Hn|Hn].
  { intros [= <- <- <- <-]. split_and!; [done|done|congruence|]. split; [unfold read_count; lia|done]. }
  assert (Hslice : slice (data s) w n = slice (files k) (off + i) n).
  { rewrite <-(page_content_slice (files k) (off + i) pg w n) by lia.
    rewrite <-Hpage. unfold slice. rewrite skipn_firstn_comm, firstn_firstn. f_equal. lia. }
  rewrite Hslice, copy_step by lia.
  destruct (Nat.ltb_spec (slength s) PAGE_SIZE).
  - intros [= <- <- <- <-]. split_and!; [done|done|congruence|]. split; [unfold read_count; lia|done].
  - replace (length (slots c)) with (length (slots c2)) by congruence. apply IH; [done..|lia|lia|lia|lia].
Qed.
End read_correct.

(** A cached read in the states of the loader. *)
Lemma read_from_exact (files : list byte → list byte) {L : Type} (I : L → Prop)
    (load : Z → list byte → L → res Error nat * list byte * L)
    k (off : nat) out c l r out' c' l' :
  loads_from I load (files k) → I l → coherent files c →
  read load k (Z.of_nat off) out c l = (r, out', c', l') →
  I l' ∧ coherent files c' ∧ length (slots c') = length (slots c) ∧
  (r = Err InvalidBuffer ∧ out' = out ∧ c' = c ∧ l' = l ∨
   read_result files load k off out r out').
Proof.
  intros Hload HI Hc. unfold read. destruct (_ || _) eqn:Hg; [naive_solver|].
  open_guards.
  rewrite <-(drop_0 out) at 2. intros Hr.
  destruct (read_loop_spec files load I k Hload ltac:(lia) (length out) off 0 out c l r out' c' l') as (? & ? & ? & ?);
    [done|done|lia|lia|lia|by left| |by auto].
  rewrite <-Hr. done.
Qed.

(** a read through the page cache delivers the file's bytes.  For a cache
    coherent with [files] and a loader that delivers the pages of the file the
    key names, a read never panics, keeps the cache coherent, and on success
    returns exactly the number of bytes the file has at the offset, those bytes
    at the front of the buffer and the rest of the buffer unchanged.  A failure
    is a rejected argument (with nothing changed) or an error of the loader. *)
Theorem page_cache_read_exact (files : list byte → list byte) {L : Type}
    (load : Z → list byte → L → res Error nat * list byte * L)
    k (off : nat) out c l r out' c' l' :
  loads load (files k) → coherent files c →
  read load k (Z.of_nat off) out c l = (r, out', c', l') →
  coherent files c' ∧
  (r = Err InvalidBuffer ∧ out' = out ∧ c' = c ∧ l' = l ∨
   read_result files load k off out r out').
Proof.
  intros Hload Hc Hr.
  by destruct (read_from_exact files (λ _, True) load k off out c l r out' c' l' (loads_anywhere _ _ Hload) I Hc Hr) as (_ & ? & _ & ?).
Qed.

(** A loader over a file kept in memory; it counts its calls. *)
Definition file_loader (f : list byte) (offset : Z) (buf : list byte) (calls : nat)
    : res Error nat * list byte * nat :=
  let d := take (length buf) (drop (Z.to_nat offset) f) in
  (Ok (length d), splice buf 0 d, S calls).

Lemma file_loader_loads f : loads (file_loader f) f.
Proof.
  intros pg buf l r buf' l' Hb [= <- <- <-]. rewrite Hb.
  change (take PAGE_SIZE (drop (Z.to_nat (pg * Z.of_nat PAGE_SIZE)) f)) with (page_content f pg).
  assert (length (page_content f pg) ≤ PAGE_SIZE)%nat.
  { unfold page_content. rewrite length_take. lia. }
  split_and!; [rewrite length_splice; simpl; lia|done|].
  intros n [= <-]. split; [done|]. unfold splice. simpl. by rewrite take_app_length.
Qed.

Lemma surjective_tuple4 {A B C D} (x : A * B * C * D) : x = (x.1.1.1, x.1.1.2, x.1.2, x.2).
Proof. by destruct x as [[[??]?]?]. Qed.

Lemma page_cache_read_witness :
  let '(r, out', c', _) :=
    read (file_loader (bytes "hello")) (bytes "a") 1 (replicate 8 x00) (new 2) 0%nat in
  r = Ok 4%nat ∧ out' = bytes "ello" ++ replicate 4 x00 ∧ coherent (λ _, bytes "hello") c'.
Proof.
  pose proof (page_cache_read_exact (λ _, bytes "hello") _ (bytes "a") 1 (replicate 8 x00) (new 2)
    0%nat _ _ _ _ (file_loader_loads _) (new_coherent _ 2) (surjective_tuple4 _)) as [Hc _].
  destruct (read _ _ _ _ _ _) as [[[r out'] c'] n] eqn:E.
  split_and!; [..|exact Hc].
  - change r with (r, out', c', n).1.1.1. rewrite <-E. vm_compute. reflexivity.
  - change out' with (r, out', c', n).1.1.2. rewrite <-E. vm_compute. reflexivity.
Defined.

(** ** The module's self-tests *)

(** The test's closure: a file of one page of 1s and eleven 2s. *)
Definition boundary_load (offset : Z) (page : list byte) (loads : nat)
    : res Error nat * list byte * nat :=
  let length := Z.to_nat (Z.min (saturating_sub (Z.of_nat PAGE_SIZE + 11) offset)
                                (Z.of_nat PAGE_SIZE)) in
  (Ok length, splice page 0 (replicate length (z_byte (if offset =? 0 then 1 else 2))), S loads).

Definition boundary_test : bool :=
  let read := read boundary_load (bytes "/file") in
  let P := Z.of_nat PAGE_SIZE in
  let '(r1, out1, c, n) := read (P - 8) (replicate 32 x00) (new 2) 0%nat in
  let '(r2, out2, c, n) := read (P - 8) out1 c n in
  let '(r3, _, c, n) := read (P + 11) out2 c n in
  bool_decide (r1 = Ok 19%nat) && bool_decide (slice out1 0 8 = replicate 8 (z_byte 1))
  && bool_decide (slice out1 8 11 = replicate 11 (z_byte 2))
  && bool_decide (drop 19 out1 = replicate 13 x00)
  && bool_decide (r2 = Ok 19%nat) && bool_decide (r3 = Ok 0%nat)
  && Nat.eqb n 2 && Nat.eqb (st_resident (stats c)) 2 && (st_hits (stats c) =? 3).

(** A stateless closure filling the page with [b] and returning [r]. *)
Definition fill_load (b : Z) (r : res Error nat) (_ : Z) (page : list byte) (u : unit)
    : res Error nat * list byte * unit :=
  (r, replicate (length page) (z_byte b), u).

Definition eviction_and_failure_test : bool :=
  let ok := Ok PAGE_SIZE in
  let rd load k off out c := let '(r, out, c, _) := read load k off out c tt in (r, out, c) in
  let load := fill_load 4 ok in
  let '(r1, o, c) := rd load (bytes "a") 0 [x00] (new 2) in
  let '(r2, o, c) := rd load (bytes "b") 0 o c in
  let '(r3, o, c) := rd load (bytes "a") 0 o c in
  let '(r4, o, c) := rd load (bytes "c") 0 o c in
  let ev := evictions c in
  let '(r5, o, c) := rd (λ _ page u, (Err DeviceFault, page, u)) (bytes "a") 0 o c in
  let '(r6, o, c) := rd (fill_load 99 (Err DeviceFault)) (bytes "b") 0 o c in
  let '(r7, o7, c) := rd load (bytes "b") 0 o c in
  let c := invalidate c in
  let changed := fill_load 7 ok in
  let '(r8, o8, c') := rd changed (bytes "a") 0 o7 c in
  let '(r9, _, _) := rd changed [] 0 o8 c' in
  let '(r10, _, _) := rd changed (bytes "a") (2 ^ 64 - 1) o8 c' in
  let '(r11, _, _) := rd changed (bytes "a") 0 o8 (new 0) in
  negb (is_err r1) && negb (is_err r2) && negb (is_err r3) && negb (is_err r4) && (ev =? 1)
  && negb (is_err r5) && bool_decide (r6 = Err DeviceFault) && negb (is_err r7)
  && bool_decide (o7 = [z_byte 4]) && Nat.eqb (st_resident (stats c)) 0
  && is_ok r8 && bool_decide (o8 = [z_byte 7]) && bool_decide (r9 = Err InvalidBuffer)
  && bool_decide (r10 = Err InvalidBuffer) && bool_decide (r11 = Err InvalidBuffer).

Definition self_test : bool := boundary_test && eviction_and_failure_test.

Example page_cache_self_test : self_test = true.
Proof. vm_compute. reflexivity. Qed.
