(* ===== verification/Elf.v ===== *)
(** * ELF images (kernel/src/elf.rs)

    The bounds-checked ELF64 parser.  The main theorem: on every input [parse]
    returns (no panic, no overflow), and an accepted image has in-file, W^X,
    pairwise disjoint, page-aligned segments below the user address limit and
    an entry point in an executable segment. *)
From S2P Require Import Prelude Config.

Definition ELF_HEADER_SIZE : Z := 64.
Definition PROGRAM_HEADER_SIZE : Z := 56.
Definition PT_LOAD : Z := 1.
Definition PF_EXECUTE : Z := 1.
Definition PF_WRITE : Z := 2.
Definition ELF_MACHINE_X86_64 : Z := 0x3e.
Definition USER_ADDRESS_LIMIT : Z := 0x0000800000000000.
Definition PAGE_SIZE : Z := 4096.

Record LoadSegment := mkSegment {
  file_offset : Z; file_size : Z; virtual_address : Z; memory_size : Z;
  mapping_start : Z; mapping_size : Z; writable : bool; executable : bool }.

Record Image := mkImage {
  entry : Z; segments_array : list (option LoadSegment); segment_count : nat }.

Inductive ElfError :=
| Truncated | InvalidHeader | Unsupported | InvalidSegment
| OverlappingSegments | InvalidEntry | TooManySegments.

#[export] Instance ElfError_eq_dec : EqDecision ElfError.
Proof. solve_decision. Defined.

(** The iterator over the filled part of the array. *)
Definition segments (im : Image) : list LoadSegment :=
  omap id (take (segment_count im) (segments_array im)).

(** [bytes.get(offset..offset + n).ok_or(Truncated)?], read little-endian. *)
Definition read_le (n : nat) (l : list byte) (offset : Z) : res ElfError Z :=
  stop ← add_or_panic 64 offset (Z.of_nat n);
  if stop <=? Z.of_nat (length l) then Ok (from_le_bytes (slice l (Z.to_nat offset) n))
  else Err Truncated.
Definition read_u16 := read_le 2.
Definition read_u32 := read_le 4.
Definition read_u64 := read_le 8.

Definition align_down (value : Z) : Z := Z.land value (bnot 64 (PAGE_SIZE - 1)).
Definition align_up (value : Z) : option Z := align_down <$> checked_add 64 value (PAGE_SIZE - 1).

(** [bytes[i] != v], for an index the length check covers. *)
Definition byte_ne (l : list byte) (i : nat) (v : Z) : bool :=
  match l !! i with Some b => negb (byte_z b =? v) | None => true end.

Definition check_ident (l : list byte) : res ElfError bool :=
  let ne (r : res ElfError Z) (v : Z) : res ElfError bool := (λ x, negb (x =? v)) <$> r in
  (Ok (negb (bool_decide (take 4 l = z_byte <$> [0x7f; 0x45; 0x4c; 0x46])))
   ||| Ok (byte_ne l 4 2) ||| Ok (byte_ne l 5 1) ||| Ok (byte_ne l 6 1)
   ||| ne (read_u16 l 16) 2 ||| ne (read_u16 l 18) ELF_MACHINE_X86_64
   ||| ne (read_u32 l 20) 1 ||| ne (read_u16 l 52) ELF_HEADER_SIZE)%res.

(** The overlap scan over the segments found so far. *)
Fixpoint overlaps (ms me : Z) (l : list LoadSegment) : res ElfError bool :=
  match l with
  | [] => Ok false
  | x :: l =>
    existing_end ← add_or_panic 64 (mapping_start x) (mapping_size x);
    if (ms <? existing_end) && (mapping_start x <? me) then Ok true else overlaps ms me l
  end.

(** One program header: its segment (with the end of its memory), or [None] for
    an entry that is not [PT_LOAD]. *)
Definition load_header (l : list byte) (offset : Z) (im : Image)
    : res ElfError (option (LoadSegment * Z)) :=
  kind ← read_u32 l offset;
  if negb (kind =? PT_LOAD) then Ok None
  else if Nat.eqb (segment_count im) MAX_ELF_SEGMENTS then Err TooManySegments
  else
  flags ← read_u32 l (offset + 4);
  fo ← read_u64 l (offset + 8);
  va ← read_u64 l (offset + 16);
  fs ← read_u64 l (offset + 32);
  ms ← read_u64 l (offset + 40);
  alignment ← read_u64 l (offset + 48);
  let w := negb (Z.land flags PF_WRITE =? 0) in
  let x := negb (Z.land flags PF_EXECUTE =? 0) in
  if (ms =? 0) || (ms <? fs) || (w && x) || (alignment =? 0)
     || negb (is_power_of_two alignment) || negb (va mod alignment =? fo mod alignment)
  then Err InvalidSegment
  else
  _ ← ok_or Truncated (e ← checked_add 64 fo fs;
                       if e <=? Z.of_nat (length l) then Some e else None);
  memory_end ← ok_or InvalidSegment (e ← checked_add 64 va ms;
                                     if e <? USER_ADDRESS_LIMIT then Some e else None);
  let mstart := align_down va in
  mapping_end ← ok_or InvalidSegment (align_up memory_end);
  msize ← sub_or_panic mapping_end mstart;
  bad ← overlaps mstart mapping_end (segments im);
  if bad : bool then Err OverlappingSegments
  else Ok (Some (mkSegment fo fs va ms mstart msize w x, memory_end)).

(** [image.segments[count] = Some(segment); count += 1] *)
Definition push (s : LoadSegment) (im : Image) : Image :=
  mkImage (entry im) (<[segment_count im := Some s]> (segments_array im)) (S (segment_count im)).

Fixpoint load_headers (indices : list nat) (l : list byte) (program_offset entry_size : Z)
    (im : Image) (entry_is_executable : bool) : res ElfError (Image * bool) :=
  match indices with
  | [] => Ok (im, entry_is_executable)
  | index :: indices =>
    offset ← add_or_panic 64 program_offset (Z.of_nat index * entry_size);
    o ← load_header l offset im;
    match o with
    | None => load_headers indices l program_offset entry_size im entry_is_executable
    | Some (s, memory_end) =>
      let inside := executable s && (virtual_address s <=? entry im) && (entry im <? memory_end) in
      load_headers indices l program_offset entry_size (push s im) (inside || entry_is_executable)
    end
  end.

Definition parse (l : list byte) : res ElfError Image :=
  if Z.of_nat (length l) <? ELF_HEADER_SIZE then Err Truncated else
  bad ← check_ident l;
  if bad : bool then Err InvalidHeader else
  entry ← read_u64 l 24;
  program_offset ← read_u64 l 32;
  program_entry_size ← read_u16 l 54;
  program_count ← read_u16 l 56;
  if (program_entry_size <? PROGRAM_HEADER_SIZE) || (program_count =? 0) then Err Unsupported else
  table_size ← ok_or Truncated (checked_mul 64 program_entry_size program_count);
  if match checked_add 64 program_offset table_size with
     | Some e => Z.of_nat (length l) <? e
     | None => true
     end then Err Truncated else
  '(im, entry_is_executable) ←
    load_headers (seq 0 (Z.to_nat program_count)) l program_offset program_entry_size
      (mkImage entry (replicate MAX_ELF_SEGMENTS None) 0) false;
  if Nat.eqb (segment_count im) 0 || negb entry_is_executable then Err InvalidEntry
  else Ok im.

(** ** What an accepted image promises *)

Record segment_ok (file_len : Z) (s : LoadSegment) : Prop := {
  seg_nonempty : 0 < memory_size s;
  seg_file : 0 ≤ file_offset s ∧ 0 ≤ file_size s ≤ memory_size s ∧
    file_offset s + file_size s ≤ file_len;
  seg_wx : writable s && executable s = false;
  seg_pages : mapping_start s mod PAGE_SIZE = 0 ∧ mapping_size s mod PAGE_SIZE = 0;
  seg_covers : 0 ≤ mapping_start s ≤ virtual_address s ∧
    virtual_address s + memory_size s ≤ mapping_start s + mapping_size s ≤ USER_ADDRESS_LIMIT }.

(** Two mappings that share no page. *)
Definition disjoint_mappings (a b : LoadSegment) : Prop :=
  mapping_start a + mapping_size a ≤ mapping_start b ∨
  mapping_start b + mapping_size b ≤ mapping_start a.

Definition separated (l : list LoadSegment) : Prop :=
  ∀ i j a b, l !! i = Some a → l !! j = Some b → i ≠ j → disjoint_mappings a b.

(** The address is in an executable segment of the list. *)
Definition in_executable (e : Z) (l : list LoadSegment) : Prop :=
  ∃ s, s ∈ l ∧ executable s = true ∧ virtual_address s ≤ e < virtual_address s + memory_size s.

Record image_ok (file_len : Z) (im : Image) : Prop := {
  img_count : segment_count im = length (segments im) ∧
    (0 < segment_count im ≤ MAX_ELF_SEGMENTS)%nat;
  img_segments : Forall (segment_ok file_len) (segments im);
  img_separated : separated (segments im);
  img_entry : in_executable (entry im) (segments im) }.

(** The array holds the list [l] and is empty behind it. *)
Definition holds (im : Image) (l : list LoadSegment) : Prop :=
  segments_array im = (Some <$> l) ++ replicate (MAX_ELF_SEGMENTS - length l) None ∧
  segment_count im = length l ∧ (length l ≤ MAX_ELF_SEGMENTS)%nat.

Lemma holds_segments im l : holds im l → segments im = l.
Proof.
  intros (Ha & Hc & _). unfold segments. rewrite Ha, Hc.
  rewrite take_app_length' by (by rewrite length_fmap).
  clear. induction l as [|a l IH]; [done|]. cbn. f_equal. exact IH.
Qed.

Lemma holds_push im l s : holds im l → segment_count im ≠ MAX_ELF_SEGMENTS → holds (push s im) (l ++ [s]).
Proof.
  intros (Ha & Hc & Hle) Hne. unfold push. repeat split; simpl; autorewrite with lens; simpl; [|lia..].
  rewrite Ha, Hc, fmap_app, <-app_assoc. simpl.
  rewrite insert_app_r_alt by (rewrite length_fmap; lia).
  rewrite length_fmap, Nat.sub_diag.
  replace (MAX_ELF_SEGMENTS - length l)%nat with (S (MAX_ELF_SEGMENTS - (length l + 1))) by lia.
  done.
Qed.

Lemma separated_snoc l s :
  separated l → (∀ a, a ∈ l → disjoint_mappings a s) → separated (l ++ [s]).
Proof.
  intros Hl Hs i j a b Hi Hj Hij.
  apply lookup_snoc_Some in Hi as [[Hi ?]|[-> ->]], Hj as [[Hj ?]|[-> ->]].
  - by eapply Hl.
  - apply Hs. by eapply list_elem_of_lookup_2.
  - destruct (Hs b) as [?|?]; [by eapply list_elem_of_lookup_2|by right|by left].
  - done.
Qed.

Lemma in_executable_snoc e l s :
  in_executable e (l ++ [s]) ↔ in_executable e l ∨
    executable s = true ∧ virtual_address s ≤ e < virtual_address s + memory_size s.
Proof.
  unfold in_executable. split.
  - intros (a & [Ha| ->%list_elem_of_singleton]%elem_of_app & ?); [left; by exists a|by right].
  - intros [(a & Ha & ?)|?]; [exists a|exists s]; (split; [apply elem_of_app|done]).
    + by left.
    + right. by apply list_elem_of_singleton.
Qed.

(** ** Page rounding *)

Lemma align_down_spec v : 0 ≤ v < 2 ^ 64 → align_down v = v - v mod PAGE_SIZE.
Proof. intros. unfold align_down. apply (land_bnot_ones 64 12); lia. Qed.

Lemma align_up_spec v u : 0 ≤ v → align_up v = Some u →
  v ≤ u < v + PAGE_SIZE ∧ u mod PAGE_SIZE = 0.
Proof.
  unfold align_up. intros Hv (e & He & ->)%fmap_Some.
  apply checked_add_Some in He as [-> He]. rewrite align_down_spec by (unfold PAGE_SIZE in *; lia).
  unfold PAGE_SIZE in *.
  pose proof (Z.mod_pos_bound (v + (4096 - 1)) 4096 ltac:(lia)). split; [lia|].
  rewrite Zminus_mod_idemp_r. by rewrite Z.sub_diag.
Qed.

Lemma overlaps_spec ms me l :
  Forall (λ a, mapping_start a + mapping_size a ≤ USER_ADDRESS_LIMIT) l →
  ∃ b, overlaps ms me l = Ok b ∧
    (b = false → ∀ a, a ∈ l → mapping_start a + mapping_size a ≤ ms ∨ me ≤ mapping_start a).
Proof.
  induction 1 as [|a l Ha Hl (b & IH & IHb)]; simpl.
  { exists false. split; [done|]. intros _ a Ha. by apply not_elem_of_nil in Ha. }
  unfold add_or_panic. destruct (Z.ltb_spec (mapping_start a + mapping_size a) (2 ^ 64));
    [|unfold USER_ADDRESS_LIMIT in *; lia]. simpl.
  destruct (_ && _) eqn:E; [by exists true|].
  exists b. split; [done|]. intros Hb a' [->|Ha']%elem_of_cons; [|by apply IHb].
  apply andb_false_iff in E as [E|E]; apply Z.ltb_ge in E; lia.
Qed.

(** ** Field reads *)

Lemma read_le_spec n l off : off + Z.of_nat n < 2 ^ 64 →
  (∃ v, read_le n l off = Ok v ∧ 0 ≤ v < 2 ^ (8 * Z.of_nat n)) ∨ read_le n l off = Err Truncated.
Proof.
  intros Hlt. unfold read_le, add_or_panic.
  destruct (Z.ltb_spec (off + Z.of_nat n) (2 ^ 64)); [|lia]. cbn [mbind res_bind].
  destruct (_ <=? _) eqn:E; [left|by right]. eexists. split; [done|].
  pose proof (from_le_bytes_bound (slice l (Z.to_nat off) n)) as Hb.
  change 256 with (2 ^ 8) in Hb. rewrite <-Z.pow_mul_r in Hb by lia.
  split; [lia|]. eapply Z.lt_le_trans; [apply Hb|]. apply Z.pow_le_mono_r; [lia|].
  unfold slice. rewrite length_take. lia.
Qed.

(** Steps through [x ← read_le n l off; ...] in a goal that holds for [Err]. *)
Ltac step_read v Hv :=
  match goal with
  | |- context [mbind _ (read_le ?n ?l ?off)] =>
      destruct (read_le_spec n l off ltac:(lia)) as [(v & -> & Hv)| ->]; [|exact I];
      cbn [mbind res_bind]
  end.

(** What a program header contributes, next to the segments [segs] found before. *)
Definition header_result (len : Z) (im : Image) (segs : list LoadSegment)
    (r : res ElfError (option (LoadSegment * Z))) : Prop :=
  match r with
  | Panic => False
  | Ok (Some (s, me)) => segment_count im ≠ MAX_ELF_SEGMENTS ∧ segment_ok len s ∧
      me = virtual_address s + memory_size s ∧ ∀ a, a ∈ segs → disjoint_mappings a s
  | _ => True
  end.

Lemma segment_ok_intro len fo fs va ms me w x :
  0 ≤ fo → 0 ≤ fs → 0 ≤ va → ms ≠ 0 → 0 ≤ ms → fs ≤ ms → w && x = false → fo + fs ≤ len →
  va + ms < USER_ADDRESS_LIMIT → align_up (va + ms) = Some me →
  align_down va ≤ me ∧
  segment_ok len (mkSegment fo fs va ms (align_down va) (me - align_down va) w x).
Proof.
  intros ????????? Hup. apply align_up_spec in Hup as [Hme Hmod]; [|lia].
  assert (me ≤ USER_ADDRESS_LIMIT).
  { apply Z.lt_succ_r. pose proof (Z.div_mod me PAGE_SIZE). unfold PAGE_SIZE, USER_ADDRESS_LIMIT in *.
    lia. }
  assert (Hva : 0 ≤ va < 2 ^ 64) by (unfold USER_ADDRESS_LIMIT in *; lia).
  pose proof (align_down_spec va Hva) as Hd.
  pose proof (Z.mod_pos_bound va PAGE_SIZE ltac:(done)).
  pose proof (Z.mod_le va PAGE_SIZE ltac:(lia) ltac:(done)).
  assert (Hdm : align_down va mod PAGE_SIZE = 0).
  { rewrite Hd, Zminus_mod_idemp_r. by rewrite Z.sub_diag. }
  split; [lia|]. split; simpl; [lia|lia|done| |lia].
  split; [done|]. rewrite Zminus_mod, Hmod, Hdm. done.
Qed.

Lemma load_header_spec l off im segs :
  0 ≤ off → off + PROGRAM_HEADER_SIZE ≤ Z.of_nat (length l) → Z.of_nat (length l) < 2 ^ 63 →
  holds im segs → Forall (segment_ok (Z.of_nat (length l))) segs →
  header_result (Z.of_nat (length l)) im segs (load_header l off im).
Proof.
  intros Ho Hlen H63 Hh Hok. unfold load_header, PROGRAM_HEADER_SIZE, read_u32, read_u64 in *.
  rewrite (holds_segments im segs Hh).
  step_read k Hkind. destruct (negb _); [done|].
  destruct (Nat.eqb_spec (segment_count im) MAX_ELF_SEGMENTS) as [|Hcnt]; [done|].
  step_read flags Hfl. step_read fo Hfo. step_read va Hva. step_read fs Hfs.
  step_read ms Hms. step_read al Hal.
  destruct (_ || _) eqn:Eg; [done|]. open_guards.
  destruct (checked_add 64 fo fs) as [e|] eqn:Ee; [|done]. apply checked_add_Some in Ee as [-> _].
  cbn [mbind option_bind ok_or res_bind].
  destruct (Z.leb_spec (fo + fs) (Z.of_nat (length l))); [|done]. cbn [ok_or mbind res_bind].
  destruct (checked_add 64 va ms) as [e|] eqn:Ee; [|done]. apply checked_add_Some in Ee as [-> _].
  cbn [mbind option_bind ok_or res_bind].
  destruct (Z.ltb_spec (va + ms) USER_ADDRESS_LIMIT); [|done]. cbn [ok_or mbind res_bind].
  destruct (align_up (va + ms)) as [me|] eqn:Eup; [|done]. cbn [ok_or mbind res_bind].
  edestruct (segment_ok_intro (Z.of_nat (length l)) fo fs va ms me) as [Hle Hs];
    [lia..|eassumption|lia|done|done|].
  unfold sub_or_panic. destruct (Z.ltb_spec me (align_down va)); [lia|]. cbn [mbind res_bind].
  destruct (overlaps_spec (align_down va) me segs) as (b & -> & Hb).
  { eapply Forall_impl; [exact Hok|]. intros a [_ _ _ _ ?]. lia. }
  cbn [mbind res_bind]. destruct b; [done|]. simpl. split_and!; [done|done|done|].
  intros a Ha. unfold disjoint_mappings; simpl. destruct (Hb eq_refl a Ha); [left|right]; lia.
Qed.

(** The loop invariant: the array holds good, separated segments, and the flag
    says whether the entry lies in an executable one. *)
Definition loop_ok (len : Z) (im : Image) (flag : bool) : Prop :=
  ∃ segs, holds im segs ∧ Forall (segment_ok len) segs ∧ separated segs ∧
    (flag = true ↔ in_executable (entry im) segs).

Lemma push_ok len im flag segs s :
  holds im segs → Forall (segment_ok len) segs → separated segs →
  (flag = true ↔ in_executable (entry im) segs) →
  segment_count im ≠ MAX_ELF_SEGMENTS → segment_ok len s → (∀ a, a ∈ segs → disjoint_mappings a s) →
  loop_ok len (push s im)
    (executable s && (virtual_address s <=? entry im)
     && (entry im <? virtual_address s + memory_size s) || flag).
Proof.
  intros Hh Hok Hsep Hfl Hc Hs Hd. exists (segs ++ [s]). split_and!.
  - by apply holds_push.
  - apply Forall_app. by split; [|apply Forall_singleton].
  - by apply separated_snoc.
  - rewrite in_executable_snoc, orb_true_iff, !andb_true_iff, Z.leb_le, Z.ltb_lt. simpl. tauto.
Qed.

Lemma load_headers_spec indices l po es im flag :
  PROGRAM_HEADER_SIZE ≤ es → 0 ≤ po → Z.of_nat (length l) < 2 ^ 63 →
  Forall (λ i, po + Z.of_nat i * es + PROGRAM_HEADER_SIZE ≤ Z.of_nat (length l)) indices →
  loop_ok (Z.of_nat (length l)) im flag →
  match load_headers indices l po es im flag with
  | Panic => False
  | Ok (im', flag') => loop_ok (Z.of_nat (length l)) im' flag' ∧ entry im' = entry im
  | Err _ => True
  end.
Proof.
  intros Hes Hpo H63 Hin. revert im flag.
  induction Hin as [|i indices Hi Hin IH]; intros im flag Hok; cbn [load_headers]; [done|].
  assert (0 ≤ Z.of_nat i * es) by (unfold PROGRAM_HEADER_SIZE in *; lia).
  unfold add_or_panic. unfold PROGRAM_HEADER_SIZE in *.
  destruct (Z.ltb_spec (po + Z.of_nat i * es) (2 ^ 64)); [|lia]. cbn [mbind res_bind].
  destruct Hok as (segs & Hh & Hseg & Hsep & Hfl).
  pose proof (load_header_spec l (po + Z.of_nat i * es) im segs
    ltac:(lia) ltac:(unfold PROGRAM_HEADER_SIZE; lia) H63 Hh Hseg) as Hr.
  destruct (load_header _ _ _) as [[[s me]|]|e|]; cbn [mbind res_bind header_result] in *;
    [|apply IH; by exists segs|done|done].
  destruct Hr as (Hc & Hs & -> & Hd).
  exact (IH (push s im) _ (push_ok _ _ _ _ _ Hh Hseg Hsep Hfl Hc Hs Hd)).
Qed.

Lemma header_table_bound es pc po len : PROGRAM_HEADER_SIZE ≤ es → po + es * pc ≤ len →
  Forall (λ i, po + Z.of_nat i * es + PROGRAM_HEADER_SIZE ≤ len) (seq 0 (Z.to_nat pc)).
Proof.
  intros Hes Hle. apply Forall_forall. intros i [_ Hi]%elem_of_seq.
  assert ((Z.of_nat i + 1) * es ≤ pc * es) by (apply Z.mul_le_mono_nonneg_r; unfold PROGRAM_HEADER_SIZE in *; lia).
  lia.
Qed.

Lemma or_else_no_panic {E} (a b : res E bool) : no_panic a → no_panic b → no_panic (or_else a b).
Proof. by destruct a as [[]| |]. Qed.

Lemma fmap_no_panic {E A B} (f : A → B) (r : res E A) : no_panic r → no_panic (f <$> r).
Proof. by destruct r. Qed.

Lemma read_le_no_panic n l off : off + Z.of_nat n < 2 ^ 64 → no_panic (read_le n l off).
Proof. by intros [(? & -> & _)| ->]%(read_le_spec n l). Qed.

Lemma check_ident_total l : no_panic (check_ident l).
Proof.
  unfold check_ident.
  repeat apply or_else_no_panic; try done; apply fmap_no_panic, read_le_no_panic; simpl; lia.
Qed.

Lemma new_image_ok len e : loop_ok len (mkImage e (replicate MAX_ELF_SEGMENTS None) 0) false.
Proof.
  exists []. unfold holds, separated, in_executable. split_and!; [done|done|simpl; lia|constructor|done|].
  split; [done|]. by intros (s & []%not_elem_of_nil & _).
Qed.

(** C39: the ELF loader's parser is total and safe.  On every byte slice [parse]
    returns without a panic (no index out of range, no overflow), and an image
    it accepts has at most [MAX_ELF_SEGMENTS] segments, each inside the file,
    never both writable and executable, mapped on whole pages below the user
    address limit; no two mappings overlap; and the entry point lies in an
    executable segment.  The hypothesis is Rust's bound on slice lengths. *)
Theorem elf_parse_sound l :
  Z.of_nat (length l) < 2 ^ 63 →
  match parse l with
  | Panic => False
  | Ok im => image_ok (Z.of_nat (length l)) im
  | Err _ => True
  end.
Proof.
  intros H63. unfold parse. destruct (_ <? _); [done|].
  pose proof (check_ident_total l) as Hid.
  destruct (check_ident l) as [[]|e|]; cbn [mbind res_bind]; [done| |done|by destruct Hid].
  unfold read_u64, read_u16.
  step_read en Hen. step_read po Hpo. step_read es Hes. step_read pc Hpc.
  destruct (_ || _) eqn:Eg; [done|]. open_guards.
  destruct (checked_mul 64 es pc) as [ts|] eqn:Ets; cbn [ok_or mbind res_bind]; [|done].
  apply checked_mul_Some in Ets as [-> _].
  destruct (checked_add 64 po (es * pc)) as [te|] eqn:Ete; [|done].
  apply checked_add_Some in Ete as [-> _].
  destruct (Z.ltb_spec (Z.of_nat (length l)) (po + es * pc)); [done|].
  pose proof (load_headers_spec _ l po es _ _ ltac:(eassumption) ltac:(lia) H63
    (header_table_bound es pc po _ ltac:(eassumption) ltac:(eassumption)) (new_image_ok _ en)) as Hl.
  destruct (load_headers _ _ _ _ _ _) as [[im flag]|e|]; cbn [mbind res_bind]; [|done|done].
  destruct Hl as ((segs & Hh & Hseg & Hsep & Hfl) & _).
  destruct (_ || _) eqn:Eg2; [done|]. open_guards. apply holds_segments in Hh as Hs.
  destruct Hh as (_ & Hcnt & Hmax). split; rewrite ?Hs; [lia|done|done|by apply Hfl].
Qed.

(** ** The image is the program header table *)

(** The little-endian field at an offset of the file. *)
Definition field (n : nat) (l : list byte) (off : Z) : Z := from_le_bytes (slice l (Z.to_nat off) n).

(** The segment a program header describes, by the ELF64 layout. *)
Definition decode_header (l : list byte) (off : Z) : option LoadSegment :=
  if decide (field 4 l off = PT_LOAD) then
    let va := field 8 l (off + 16) in
    let ms := field 8 l (off + 40) in
    let start := va - va mod PAGE_SIZE in
    let stop := va + ms + (PAGE_SIZE - 1) - (va + ms + (PAGE_SIZE - 1)) mod PAGE_SIZE in
    Some (mkSegment (field 8 l (off + 8)) (field 8 l (off + 32)) va ms start (stop - start)
            (bool_decide (Z.land (field 4 l (off + 4)) PF_WRITE ≠ 0))
            (bool_decide (Z.land (field 4 l (off + 4)) PF_EXECUTE ≠ 0)))
  else None.

Lemma read_le_field n l off v : read_le n l off = Ok v → v = field n l off.
Proof.
  unfold read_le, add_or_panic. destruct (_ <? _); [|done]. cbn [mbind res_bind].
  destruct (_ <=? _); [|done]. by intros [= <-].
Qed.

Lemma negb_eqb_bool_decide x y : negb (x =? y) = bool_decide (x ≠ y).
Proof. destruct (Z.eqb_spec x y); case_bool_decide; naive_solver. Qed.

Lemma load_header_decodes l off im o :
  load_header l off im = Ok o → decode_header l off = fst <$> o.
Proof.
  unfold load_header, decode_header, read_u32, read_u64. intros H.
  apply res_bind_Ok_inv in H as (k & ->%read_le_field & H).
  destruct (Z.eqb_spec (field 4 l off) PT_LOAD) as [E|E]; cbn [negb] in H;
    [rewrite decide_True by done|rewrite decide_False by done; by injection H as <-].
  destruct (Nat.eqb _ _); [done|].
  apply res_bind_Ok_inv in H as (fl & ->%read_le_field & H).
  apply res_bind_Ok_inv in H as (fo & ->%read_le_field & H).
  apply res_bind_Ok_inv in H as (va & Eva & H).
  apply res_bind_Ok_inv in H as (fs & ->%read_le_field & H).
  apply res_bind_Ok_inv in H as (ms & Ems & H).
  apply res_bind_Ok_inv in H as (al & _ & H).
  destruct (_ || _); [done|].
  apply res_bind_Ok_inv in H as (fe & _ & H).
  apply res_bind_Ok_inv in H as (me & Hme & H).
  apply ok_or_Ok, bind_Some in Hme as (e & [-> Hov]%checked_add_Some & Hme).
  destruct (Z.ltb_spec (va + ms) USER_ADDRESS_LIMIT) as [Hlim|]; [|done]. injection Hme as <-.
  apply res_bind_Ok_inv in H as (mend & Hup%ok_or_Ok & H).
  apply res_bind_Ok_inv in H as (msz & Hsub & H).
  apply res_bind_Ok_inv in H as ([] & _ & H); [done|]. injection H as <-. simpl.
  pose proof (from_le_bytes_bound (slice l (Z.to_nat (off + 16)) 8)) as B1.
  pose proof (from_le_bytes_bound (slice l (Z.to_nat (off + 40)) 8)) as B2.
  apply read_le_field in Eva, Ems. unfold field in Eva, Ems. rewrite <-Eva in B1. rewrite <-Ems in B2.
  fold (field 8 l (off + 16)) in Eva. fold (field 8 l (off + 40)) in Ems.
  unfold USER_ADDRESS_LIMIT in Hlim.
  rewrite <-Eva, <-Ems, !negb_eqb_bool_decide, (align_down_spec va) in * by lia.
  unfold align_up in Hup. apply fmap_Some in Hup as (z & [-> Hz]%checked_add_Some & ->).
  rewrite align_down_spec in Hsub by (unfold PAGE_SIZE in *; lia).
  unfold sub_or_panic in Hsub. destruct (_ <? _); [done|]. by injection Hsub as <-.
Qed.

Lemma load_headers_decode indices l po es im flag im' flag' segs :
  load_headers indices l po es im flag = Ok (im', flag') → holds im segs →
  holds im' (segs ++ omap (λ i, decode_header l (po + Z.of_nat i * es)) indices) ∧ entry im' = entry im.
Proof.
  revert im flag segs. induction indices as [|i indices IH]; intros im flag segs; cbn [load_headers].
  { intros [= -> ->]. cbn. by rewrite app_nil_r. }
  intros H Hh. apply res_bind_Ok_inv in H as (off & Hoff & H).
  unfold add_or_panic in Hoff. destruct (_ <? _); [|done]. injection Hoff as <-.
  apply res_bind_Ok_inv in H as (o & Ho & H).
  pose proof (load_header_decodes _ _ _ _ Ho) as Hd. cbn. rewrite Hd.
  destruct o as [[s me]|]; cbn [fmap option_fmap option_map fst].
  - rewrite cons_middle, app_assoc. change (entry im) with (entry (push s im)).
    eapply IH; [exact H|]. apply holds_push; [done|].
    unfold load_header in Ho. apply res_bind_Ok_inv in Ho as (k & _ & Ho).
    destruct (negb _); [done|]. by destruct (Nat.eqb_spec (segment_count im) MAX_ELF_SEGMENTS).
  - by eapply IH.
Qed.

(** the segments of an accepted image are, in order, exactly the [PT_LOAD]
    entries of the file's program header table, each with the fields the ELF64
    layout puts at its offsets, and the entry point is the header's. *)
Theorem elf_parse_decodes l im :
  parse l = Ok im →
  entry im = field 8 l 24 ∧
  segments im = omap (λ i, decode_header l (field 8 l 32 + Z.of_nat i * field 2 l 54))
                     (seq 0 (Z.to_nat (field 2 l 56))).
Proof.
  unfold parse, read_u64, read_u16. destruct (_ <? _); [done|]. intros H.
  apply res_bind_Ok_inv in H as ([] & _ & H); [done|].
  apply res_bind_Ok_inv in H as (en & ->%read_le_field & H).
  apply res_bind_Ok_inv in H as (po & ->%read_le_field & H).
  apply res_bind_Ok_inv in H as (es & ->%read_le_field & H).
  apply res_bind_Ok_inv in H as (pc & ->%read_le_field & H).
  destruct (_ || _); [done|].
  apply res_bind_Ok_inv in H as (ts & _ & H). destruct (checked_add _ _ _) as [te|]; [|done]. destruct (_ <? _); [done|].
  apply res_bind_Ok_inv in H as ([im' flag] & Hl & H).
  destruct (_ || _); [done|]. injection H as <-.
  apply (load_headers_decode _ _ _ _ _ _ _ _ []) in Hl as [Hh ->]; [|split_and!; [done..|simpl; lia]].
  split; [done|]. by apply holds_segments in Hh.
Qed.

(** A two-page image: one executable segment, entry at its first byte. *)
Definition sample_elf : list byte :=
  (z_byte <$> [0x7f; 0x45; 0x4c; 0x46; 2; 1; 1]) ++ replicate 9 x00
  ++ to_le_bytes 2 2 ++ to_le_bytes 2 0x3e ++ to_le_bytes 4 1
  ++ to_le_bytes 8 0x400078 ++ to_le_bytes 8 64 ++ to_le_bytes 8 0 ++ to_le_bytes 4 0
  ++ to_le_bytes 2 64 ++ to_le_bytes 2 56 ++ to_le_bytes 2 1 ++ replicate 6 x00
  ++ to_le_bytes 4 1 ++ to_le_bytes 4 5 ++ to_le_bytes 8 120 ++ to_le_bytes 8 0x400078
  ++ to_le_bytes 8 0x400078 ++ to_le_bytes 8 2 ++ to_le_bytes 8 0x1000 ++ to_le_bytes 8 8
  ++ (z_byte <$> [0xeb; 0xfe]).

Definition sample_segment : LoadSegment := mkSegment 120 2 0x400078 0x1000 0x400000 0x2000 false true.

Lemma elf_parse_sound_witness :
  ∃ im, parse sample_elf = Ok im ∧ image_ok (Z.of_nat (length sample_elf)) im.
Proof.
  assert (H : Z.of_nat (length sample_elf) < 2 ^ 63) by (vm_compute; reflexivity).
  pose proof (elf_parse_sound sample_elf H) as Hs.
  eexists. split; [vm_compute; reflexivity|]. exact Hs.
Defined.

Lemma elf_parse_decodes_witness :
  ∃ im, parse sample_elf = Ok im ∧ segments im = [sample_segment] ∧ entry im = field 8 sample_elf 24.
Proof.
  eexists. assert (E : parse sample_elf = Ok (mkImage 0x400078
    (Some sample_segment :: replicate 7 None) 1)) by (vm_compute; reflexivity).
  split; [exact E|]. split; [vm_compute; reflexivity|]. exact (proj1 (elf_parse_decodes _ _ E)).
Defined.
