(* ===== verification/Table.v ===== *)
(** * Fixed tables of optional records

    Several components keep an array of [Option<T>] searched by a key of its
    records (IPC endpoints by owner, I/O requests by id).  This file relates
    such an array to a finite map: with pairwise distinct keys, filling a free
    slot, clearing a slot and updating a record in place are insertion,
    deletion and update of the map, and the free slots count down its size. *)
From stdpp Require Import fin_maps gmap.
From S2P Require Import Prelude.

Section table.
Context {A B : Type} (key : A → Z) (val : A → B).
Implicit Types (t : list (option A)) (a : A).

(** The position of the record with key [k]. *)
Definition key_is (k : Z) (o : option A) : bool :=
  match o with Some a => key a =? k | None => false end.
Definition is_free (o : option A) : bool := match o with None => true | Some _ => false end.

Definition entries t : list (Z * B) := omap (fmap (λ a, (key a, val a))) t.
Definition distinct t : Prop := NoDup (entries t).*1.
Definition table_map t : gmap Z B := list_to_map (entries t).

Lemma entries_app t1 t2 : entries (t1 ++ t2) = entries t1 ++ entries t2.
Proof. apply omap_app. Qed.

Lemma entries_insert t i o : (i < length t)%nat →
  entries (<[i := o]> t) = entries (take i t) ++ entries [o] ++ entries (drop (S i) t).
Proof. intros. rewrite insert_take_drop by done. by rewrite cons_middle, !entries_app. Qed.

Lemma entries_lookup t i o : t !! i = Some o →
  entries t = entries (take i t) ++ entries [o] ++ entries (drop (S i) t).
Proof.
  intros Hi. rewrite <-entries_insert by (by eapply lookup_lt_Some). by rewrite list_insert_id.
Qed.

Lemma elem_of_entries t k v :
  (k, v) ∈ entries t ↔ ∃ i a, t !! i = Some (Some a) ∧ key a = k ∧ val a = v.
Proof.
  unfold entries. rewrite list_elem_of_omap. split.
  - intros ([a|] & (i & Hi)%list_elem_of_lookup & [= <- <-]); eauto.
  - intros (i & a & Hi & <- & <-). exists (Some a). split; [by eapply list_elem_of_lookup_2|done].
Qed.

Lemma keys_lookup t k : k ∈ (entries t).*1 ↔ ∃ i a, t !! i = Some (Some a) ∧ key a = k.
Proof.
  rewrite list_elem_of_fmap. split.
  - intros ([k' v] & -> & (i & a & ? & ? & ?)%elem_of_entries). eauto.
  - intros (i & a & Hi & <-). exists (key a, val a). split; [done|]. apply elem_of_entries. eauto.
Qed.

Lemma distinct_inj t i j a b :
  distinct t → t !! i = Some (Some a) → t !! j = Some (Some b) → key a = key b → i = j.
Proof.
  intros Hd Hi Hj Hk. destruct (decide (i = j)) as [|Hne]; [done|exfalso].
  unfold distinct in Hd. rewrite (entries_lookup t i _ Hi) in Hd. simpl in Hd.
  rewrite fmap_app in Hd. apply NoDup_app in Hd as (_ & Hd1 & Hd2).
  apply NoDup_cons in Hd2 as [Hd2 _].
  destruct (decide (j < i)%nat).
  - apply (Hd1 (key b)); [apply keys_lookup; exists j, b; by rewrite lookup_take_lt|].
    rewrite Hk. apply list_elem_of_here.
  - apply Hd2. rewrite Hk. apply keys_lookup. exists (j - S i)%nat, b.
    rewrite lookup_drop. split; [|done]. replace (S i + (j - S i))%nat with j by lia. done.
Qed.

Lemma table_map_lookup t i a :
  distinct t → t !! i = Some (Some a) → table_map t !! key a = Some (val a).
Proof. intros Hd Hi. apply elem_of_list_to_map_1; [done|]. apply elem_of_entries. eauto. Qed.

Lemma table_map_lookup_inv t k v :
  table_map t !! k = Some v → ∃ i a, t !! i = Some (Some a) ∧ key a = k ∧ val a = v.
Proof. intros Hk%elem_of_list_to_map_2. by apply elem_of_entries. Qed.

(** The scan for a key is the map's lookup. *)
Lemma position_key t k :
  distinct t →
  match position (key_is k) t with
  | Some i => ∃ a, t !! i = Some (Some a) ∧ key a = k ∧ table_map t !! k = Some (val a)
  | None => table_map t !! k = None
  end.
Proof.
  intros Hd. destruct (position _ _) as [i|] eqn:E.
  - apply position_Some_1 in E as ([a|] & Hi & Hk); [|done]. apply Z.eqb_eq in Hk as <-.
    exists a. split_and!; [done..|]. by eapply table_map_lookup.
  - apply not_elem_of_list_to_map_1. intros (i & a & Hi & Hk)%keys_lookup.
    rewrite position_None in E. specialize (E i (Some a) Hi). simpl in E. lia.
Qed.

Lemma table_free t i : t !! i = Some None →
  ∀ a, ¬ (∃ j b, t !! j = Some (Some b) ∧ key b = key a) → distinct t →
  distinct (<[i := Some a]> t) ∧ table_map (<[i := Some a]> t) = <[key a := val a]> (table_map t).
Proof.
  intros Hi a Hfresh Hd. rewrite <-keys_lookup in Hfresh.
  pose proof (lookup_lt_Some _ _ _ Hi) as Hlt.
  unfold distinct, table_map in *. rewrite entries_insert by done.
  rewrite (entries_lookup t i _ Hi) in Hd, Hfresh |- *. simpl in *.
  set (l1 := entries (take i t)) in *. set (l2 := entries (drop (S i) t)) in *.
  rewrite fmap_app in Hd, Hfresh. rewrite elem_of_app in Hfresh.
  apply NoDup_app in Hd as (Hd1 & Hdd & Hd2). split.
  - rewrite fmap_app. apply NoDup_app. split_and!; [done| |].
    + intros k Hk [->|Hk2]%elem_of_cons; [naive_solver|by eapply Hdd].
    + simpl. apply NoDup_cons. naive_solver.
  - rewrite !list_to_map_app. simpl. rewrite <-insert_union_r; [done|].
    apply not_elem_of_list_to_map_1. naive_solver.
Qed.

Lemma table_clear t i a : distinct t → t !! i = Some (Some a) →
  distinct (<[i := None]> t) ∧ table_map (<[i := None]> t) = delete (key a) (table_map t).
Proof.
  intros Hd Hi. pose proof (lookup_lt_Some _ _ _ Hi) as Hlt.
  unfold distinct, table_map in *. rewrite entries_insert by done.
  rewrite (entries_lookup t i _ Hi) in Hd |- *. simpl in *.
  set (l1 := entries (take i t)) in *. set (l2 := entries (drop (S i) t)) in *.
  rewrite fmap_app in Hd. apply NoDup_app in Hd as (Hd1 & Hdd & Hd2).
  apply NoDup_cons in Hd2 as [Hn Hd2].
  assert (Hn1 : key a ∉ l1.*1) by (intros Hk; apply (Hdd _ Hk), list_elem_of_here).
  split.
  - rewrite fmap_app. apply NoDup_app. split_and!; [done| |done].
    intros k Hk Hk2. apply (Hdd k Hk). by apply list_elem_of_further.
  - rewrite !list_to_map_app. simpl. rewrite delete_union, delete_insert_eq.
    rewrite !delete_id; [done|by apply not_elem_of_list_to_map_1..].
Qed.

(** An in-place update that keeps the key. *)
Lemma table_update t i a b : distinct t → t !! i = Some (Some a) → key b = key a →
  distinct (<[i := Some b]> t) ∧ table_map (<[i := Some b]> t) = <[key a := val b]> (table_map t).
Proof.
  intros Hd Hi Hk. pose proof (lookup_lt_Some _ _ _ Hi) as Hlt.
  destruct (table_clear t i a Hd Hi) as [Hd' Hm'].
  destruct (table_free (<[i := None]> t) i (list_lookup_insert_eq _ _ _ Hlt) b) as [Hd'' Hm'']; [|done|].
  - rewrite Hk. intros (j & c & Hj & Hkc). apply list_lookup_insert_Some in Hj as [(_ & ? & _)|[Hij Hj]]; [done|].
    apply Hij. exact (distinct_inj t i j a c Hd Hi Hj (eq_sym Hkc)).
  - rewrite list_insert_insert_eq in Hd'', Hm''. split; [done|].
    by rewrite Hm'', Hm', Hk, insert_delete_eq.
Qed.

Lemma table_empty n : distinct (replicate n None) ∧ table_map (replicate n None) = ∅.
Proof.
  assert (entries (replicate n None) = []) as E by (induction n; [done|exact IHn]).
  unfold distinct, table_map. rewrite E. split; [constructor|done].
Qed.

(** A free slot exists exactly when the map is smaller than the table. *)
Lemma table_size t : distinct t → (size (table_map t) + count is_free t = length t)%nat.
Proof.
  intros Hd. unfold table_map. rewrite <-(length_map_to_list (list_to_map _)).
  rewrite map_to_list_to_map by done.
  clear Hd. induction t as [|[a|] t IH]; [done|..]; unfold count in *; simpl in *; lia.
Qed.

Lemma position_free t : distinct t →
  match position is_free t with
  | Some i => t !! i = Some None ∧ (size (table_map t) < length t)%nat
  | None => size (table_map t) = length t
  end.
Proof.
  intros Hd. pose proof (table_size t Hd) as Hs. destruct (position _ _) as [i|] eqn:E.
  - apply position_Some_1 in E as ([a|] & Hi & Hf); [done|]. split; [done|].
    assert (0 < count is_free t)%nat; [|lia]. unfold count.
    assert (Hin : In None (List.filter is_free t)).
    { apply filter_In. split; [|done]. apply list_elem_of_In. by eapply list_elem_of_lookup_2. }
    destruct (List.filter is_free t); [done|]. simpl. lia.
  - rewrite position_None in E. assert (count is_free t = 0)%nat; [|lia]. unfold count.
    destruct (List.filter is_free t) as [|o l] eqn:F; [done|].
    assert (In o (List.filter is_free t)) as [Hin Hf]%filter_In by (rewrite F; by left).
    apply list_elem_of_In, list_elem_of_lookup in Hin as [j Hj]. by rewrite (E j o Hj) in Hf.
Qed.
End table.

Arguments key_is {A} key k o /.
Arguments is_free {A} o /.
