(* ===== verification/Ipc.v ===== *)
(** * Message passing (kernel/src/ipc.rs)

    Endpoints with bounded FIFO queues.  The state is refined to a finite map
    from owners to queues of (sender, payload) pairs: along every sequence of
    calls the code returns exactly what the map returns. *)
From stdpp Require Import gmap.
From S2P Require Import Prelude Config Table.

Record Message := mkMessage { sender : Z; mlength : nat; mbytes : list byte }.

Definition message_empty : Message := mkMessage 0 0 (replicate MAX_MESSAGE_SIZE x00).
Definition payload (m : Message) : list byte := take (mlength m) (mbytes m).

Inductive IpcError :=
| EndpointExists | NoEndpoint | RegistryFull | QueueFull | QueueEmpty | MessageTooLarge.

#[export] Instance IpcError_eq_dec : EqDecision IpcError.
Proof. solve_decision. Defined.
#[export] Instance Message_eq_dec : EqDecision Message.
Proof. solve_decision. Defined.

Record Endpoint := mkEndpoint { owner : Z; messages : list Message; elength : nat }.

Definition endpoint_empty : Endpoint :=
  mkEndpoint 0 (replicate IPC_QUEUE_DEPTH message_empty) 0.

Definition enqueue (m : Message) : M Endpoint IpcError unit := λ e,
  if Nat.eqb (elength e) IPC_QUEUE_DEPTH then (Err QueueFull, e)
  else (Ok tt, mkEndpoint (owner e) (<[elength e := m]> (messages e)) (S (elength e))).

Definition dequeue : M Endpoint IpcError Message := λ e,
  if Nat.eqb (elength e) 0 then (Err QueueEmpty, e)
  else match messages e !! 0%nat with
  | None => (Panic, e)
  | Some m =>
    let len := (elength e - 1)%nat in
    let moved := splice (messages e) 0 (slice (messages e) 1 len) in
    (Ok m, mkEndpoint (owner e) (<[len := message_empty]> moved) len)
  end.

Record State := mkState { endpoints : list (option Endpoint) }.

Definition new : State := mkState (replicate MAX_IPC_ENDPOINTS None).

(** [endpoint]/[endpoint_mut]: where the first endpoint of [o] is. *)
Definition endpoint_index (o : Z) (s : State) : option nat :=
  position (key_is owner o) (endpoints s).
Definition endpoint (o : Z) (s : State) : option Endpoint :=
  i ← endpoint_index o s; mjoin (endpoints s !! i).

(** Run a method of the endpoint in slot [i]. *)
Definition at_endpoint {A} (o : Z) (m : M Endpoint IpcError A) : M State IpcError A := λ s,
  match endpoint_index o s with
  | None => (Err NoEndpoint, s)
  | Some i =>
    match endpoints s !! i with
    | Some (Some e) => let '(r, e) := m e in (r, mkState (<[i := Some e]> (endpoints s)))
    | _ => (Panic, s)
    end
  end.

Definition register (o : Z) : M State IpcError unit := λ s,
  match endpoint o s with
  | Some _ => (Err EndpointExists, s)
  | None =>
    match position is_free (endpoints s) with
    | None => (Err RegistryFull, s)
    | Some i =>
      (Ok tt, mkState (<[i := Some (mkEndpoint o (messages endpoint_empty)
                                      (elength endpoint_empty))]> (endpoints s)))
    end
  end.

Definition unregister (o : Z) : M State IpcError unit := λ s,
  match endpoint_index o s with
  | None => (Err NoEndpoint, s)
  | Some i => (Ok tt, mkState (<[i := None]> (endpoints s)))
  end.

Definition send (from receiver : Z) (p : list byte) : M State IpcError unit := λ s,
  if Nat.ltb MAX_MESSAGE_SIZE (length p) then (Err MessageTooLarge, s)
  else match endpoint from s with
  | None => (Err NoEndpoint, s)
  | Some _ =>
    at_endpoint receiver
      (enqueue (mkMessage from (length p) (splice (mbytes message_empty) 0 p))) s
  end.

Definition receive (receiver : Z) : M State IpcError Message := at_endpoint receiver dequeue.

Definition peek (receiver : Z) (s : State) : res IpcError Message :=
  match endpoint receiver s with
  | None => Err NoEndpoint
  | Some e => ok_or QueueEmpty (m ← head (messages e);
                                if Nat.eqb (elength e) 0 then None else Some m)
  end.

Definition endpoint_count (s : State) : nat := count (λ o, negb (is_free o)) (endpoints s).

Definition self_test : bool :=
  let p := bytes "wovenhat-ipc" in
  let '(r1, s) := register 10 new in
  let '(r2, s) := register 20 s in
  let '(r3, s) := register 10 s in
  let '(r4, s) := send 10 20 p s in
  let '(r5, s) := receive 20 s in
  let '(r6, s) := receive 20 s in
  let '(r7, s) := send 99 20 p s in
  let '(r8, s) := unregister 10 s in
  let '(r9, s) := unregister 10 s in
  negb (is_err r1) && negb (is_err r2) && bool_decide (r3 = Err EndpointExists)
  && negb (is_err r4)
  && match r5 with Ok m => (sender m =? 10) && bool_decide (payload m = p) | _ => false end
  && bool_decide (r6 = Err QueueEmpty) && bool_decide (r7 = Err NoEndpoint)
  && is_ok r8 && bool_decide (r9 = Err NoEndpoint).

Example ipc_self_test : self_test = true.
Proof. vm_compute. reflexivity. Qed.

#[global] Opaque MAX_MESSAGE_SIZE IPC_QUEUE_DEPTH MAX_IPC_ENDPOINTS.

(** ** The abstract mailboxes *)

Abbreviation Mailboxes := (gmap Z (list (Z * list byte))).

Inductive Op :=
| Register (o : Z) | Unregister (o : Z) | Send (from receiver : Z) (p : list byte)
| Receive (receiver : Z) | Peek (receiver : Z).

(** A reply: nothing, or a message as its sender and payload. *)
Definition Reply := option (Z * list byte).

Definition spec_step (op : Op) (b : Mailboxes) : res IpcError Reply * Mailboxes :=
  match op with
  | Register o =>
    if decide (is_Some (b !! o)) then (Err EndpointExists, b)
    else if decide (size b = MAX_IPC_ENDPOINTS) then (Err RegistryFull, b)
    else (Ok None, <[o := []]> b)
  | Unregister o => if decide (is_Some (b !! o)) then (Ok None, delete o b) else (Err NoEndpoint, b)
  | Send from receiver p =>
    if decide (MAX_MESSAGE_SIZE < length p)%nat then (Err MessageTooLarge, b)
    else match b !! from, b !! receiver with
    | Some _, Some q =>
      if decide (length q = IPC_QUEUE_DEPTH) then (Err QueueFull, b)
      else (Ok None, <[receiver := q ++ [(from, p)]]> b)
    | _, _ => (Err NoEndpoint, b)
    end
  | Receive o =>
    match b !! o with
    | None => (Err NoEndpoint, b)
    | Some [] => (Err QueueEmpty, b)
    | Some (m :: q) => (Ok (Some m), <[o := q]> b)
    end
  | Peek o =>
    match b !! o with
    | None => (Err NoEndpoint, b)
    | Some q => (Some <$> ok_or QueueEmpty (head q), b)
    end
  end.

Definition view (m : Message) : Z * list byte := (sender m, payload m).

Definition code_step (op : Op) (s : State) : res IpcError Reply * State :=
  match op with
  | Register o => let '(r, s) := register o s in ((λ _, None) <$> r, s)
  | Unregister o => let '(r, s) := unregister o s in ((λ _, None) <$> r, s)
  | Send from receiver p => let '(r, s) := send from receiver p s in ((λ _, None) <$> r, s)
  | Receive o => let '(r, s) := receive o s in ((λ m, Some (view m)) <$> r, s)
  | Peek o => ((λ m, Some (view m)) <$> peek o s, s)
  end.

(** The replies of a sequence of calls. *)
Fixpoint replies {S} (step : Op → S → res IpcError Reply * S) (ops : list Op) (s : S)
    : list (res IpcError Reply) :=
  match ops with
  | [] => []
  | op :: ops => let '(r, s) := step op s in r :: replies step ops s
  end.

(** ** The simulation *)

Definition queue (e : Endpoint) : list (Z * list byte) := view <$> take (elength e) (messages e).

Definition endpoint_ok (e : Endpoint) : Prop :=
  length (messages e) = IPC_QUEUE_DEPTH ∧ (elength e ≤ IPC_QUEUE_DEPTH)%nat.

Definition endpoints_ok (l : list (option Endpoint)) : Prop :=
  ∀ i e, l !! i = Some (Some e) → endpoint_ok e.

Record ipc_rel (s : State) (b : Mailboxes) : Prop := {
  rel_len : length (endpoints s) = MAX_IPC_ENDPOINTS;
  rel_distinct : distinct owner queue (endpoints s);
  rel_ok : endpoints_ok (endpoints s);
  rel_map : table_map owner queue (endpoints s) = b }.

Lemma length_queue e : endpoint_ok e → length (queue e) = elength e.
Proof. intros [??]. unfold queue. rewrite length_fmap, length_take. lia. Qed.

Lemma endpoints_ok_insert l i o :
  endpoints_ok l → (∀ e, o = Some e → endpoint_ok e) → endpoints_ok (<[i := o]> l).
Proof. intros Hl Ho j e [(_ & ? & _)|[_ Hj]]%list_lookup_insert_Some; [by apply Ho|by eapply Hl]. Qed.

Lemma endpoint_empty_ok o :
  endpoint_ok (mkEndpoint o (messages endpoint_empty) (elength endpoint_empty)).
Proof. split; simpl; [apply length_replicate|lia]. Qed.

(** [endpoint] finds an endpoint exactly for the owners of mailboxes. *)
Lemma endpoint_spec s b o : ipc_rel s b →
  match endpoint_index o s with
  | None => endpoint o s = None ∧ b !! o = None
  | Some i => ∃ e, endpoints s !! i = Some (Some e) ∧ endpoint o s = Some e ∧
      endpoint_ok e ∧ owner e = o ∧ b !! o = Some (queue e)
  end.
Proof.
  intros [Hl Hd Hok Hm]. pose proof (position_key owner queue (endpoints s) o Hd) as Hp.
  unfold endpoint, endpoint_index. destruct (position _ _) as [i|]; [|by rewrite Hm in Hp].
  destruct Hp as (e & Hi & Ho & Hq). rewrite Hm in Hq.
  exists e. split_and!; [done| |by eapply Hok|done|done]. simpl. by rewrite Hi.
Qed.

(** A method of the endpoint in slot [i] updates its mailbox. *)
Lemma ipc_rel_update s b i e e' : ipc_rel s b → endpoints s !! i = Some (Some e) →
  owner e' = owner e → endpoint_ok e' →
  ipc_rel (mkState (<[i := Some e']> (endpoints s))) (<[owner e := queue e']> b).
Proof.
  intros [Hl Hd Hok <-] Hi Ho He'.
  destruct (table_update owner queue _ _ _ _ Hd Hi Ho) as [Hd' Hm'].
  split; simpl; [by rewrite length_insert|done| |done].
  apply endpoints_ok_insert; [done|]. by intros ? [= <-].
Qed.

Lemma ipc_rel_same s b i e : ipc_rel s b → endpoints s !! i = Some (Some e) →
  ipc_rel (mkState (<[i := Some e]> (endpoints s))) b.
Proof. intros Hr Hi. rewrite list_insert_id by done. by destruct s. Qed.

Lemma enqueue_spec m e : endpoint_ok e →
  if decide (length (queue e) = IPC_QUEUE_DEPTH) then enqueue m e = (Err QueueFull, e)
  else ∃ e', enqueue m e = (Ok tt, e') ∧ endpoint_ok e' ∧ owner e' = owner e ∧
    queue e' = queue e ++ [view m].
Proof.
  intros He. rewrite (length_queue e He). destruct He as [Hl Hle]. unfold enqueue.
  destruct (Nat.eqb_spec (elength e) IPC_QUEUE_DEPTH) as [Heq|Hne].
  { by rewrite decide_True by done. }
  rewrite decide_False by done. eexists. split; [done|]. split_and!; [|done|].
  - split; simpl; [by rewrite length_insert|lia].
  - unfold queue; simpl. rewrite (take_S_r _ _ m) by (apply list_lookup_insert_eq; lia).
    rewrite fmap_app. by rewrite take_insert_ge by lia.
Qed.

Lemma dequeue_spec e : endpoint_ok e →
  match queue e with
  | [] => dequeue e = (Err QueueEmpty, e)
  | x :: q => ∃ m e', dequeue e = (Ok m, e') ∧ view m = x ∧ endpoint_ok e' ∧
      owner e' = owner e ∧ queue e' = q
  end.
Proof.
  intros [Hl Hle]. unfold queue, dequeue. destruct (Nat.eqb_spec (elength e) 0) as [E|Hne].
  { by rewrite E. }
  destruct (messages e) as [|m ms] eqn:Em; simpl in *; [lia|].
  destruct (elength e) as [|n] eqn:En; [done|]. simpl in *.
  exists m. eexists. split; [done|]. unfold endpoint_ok; simpl. rewrite Nat.sub_0_r.
  assert (Hs : length (slice (m :: ms) 1 n) = n) by (apply length_slice; simpl; lia).
  split_and!; [done| |lia|done|].
  - rewrite length_insert, length_splice by (simpl; lia). simpl. lia.
  - rewrite take_insert_ge by lia. unfold splice. simpl. by rewrite take_app_length' by (by rewrite Hs).
Qed.

Lemma view_send from p : (length p ≤ MAX_MESSAGE_SIZE)%nat →
  view (mkMessage from (length p) (splice (mbytes message_empty) 0 p)) = (from, p).
Proof. intros. unfold view, payload, splice; simpl. by rewrite take_app_length. Qed.

(** Sending to, and receiving from, one mailbox. *)
Lemma at_endpoint_spec {A} o (m : M Endpoint IpcError A) s b : ipc_rel s b →
  match b !! o with
  | None => at_endpoint o m s = (Err NoEndpoint, s)
  | Some q => ∃ i e, q = queue e ∧ endpoint_ok e ∧ owner e = o ∧
      endpoints s !! i = Some (Some e) ∧
      at_endpoint o m s = ((m e).1, mkState (<[i := Some (m e).2]> (endpoints s)))
  end.
Proof.
  intros Hr. pose proof (endpoint_spec s b o Hr) as He. unfold at_endpoint.
  destruct (endpoint_index o s) as [i|]; [|destruct He as [_ ->]; done].
  destruct He as (e & Hi & _ & Hok & Ho & ->). exists i, e. rewrite Hi. by destruct (m e).
Qed.

(** ** One call *)

Lemma register_sim o s b : ipc_rel s b →
  ∃ s', code_step (Register o) s = ((spec_step (Register o) b).1, s') ∧
        ipc_rel s' (spec_step (Register o) b).2.
Proof.
  intros Hr. pose proof (endpoint_spec s b o Hr) as He. simpl. unfold register.
  destruct (endpoint_index o s) as [i|].
  { destruct He as (e & _ & -> & _ & _ & Hq). rewrite decide_True by eauto. by exists s. }
  destruct He as [-> Hb]. rewrite (decide_False (P := is_Some _)) by (rewrite Hb; by intros [??]).
  pose proof Hr as [Hl Hd Hok Hm]. pose proof (position_free owner queue _ Hd) as Hf.
  rewrite Hm, Hl in Hf. destruct (position _ _) as [i|].
  - destruct Hf as [Hi Hsz]. rewrite decide_False by (by apply Nat.lt_neq). eexists. split; [done|].
    set (e := mkEndpoint o _ _).
    destruct (table_free owner queue _ _ Hi e) as [Hd' Hm'].
    { intros (j & e' & Hj & Ho). pose proof (table_map_lookup owner queue _ _ _ Hd Hj) as Hq.
      rewrite Hm, Ho in Hq. simpl in Hq. congruence. }
    { done. }
    rewrite Hm in Hm'. simpl in Hm'. split; simpl; [by rewrite length_insert|done| |done].
    apply endpoints_ok_insert; [done|]. intros ? [= <-]. apply endpoint_empty_ok.
  - rewrite decide_True by done. by exists s.
Qed.

Lemma unregister_sim o s b : ipc_rel s b →
  ∃ s', code_step (Unregister o) s = ((spec_step (Unregister o) b).1, s') ∧
        ipc_rel s' (spec_step (Unregister o) b).2.
Proof.
  intros Hr. pose proof (endpoint_spec s b o Hr) as He. simpl. unfold unregister.
  destruct (endpoint_index o s) as [i|].
  - destruct He as (e & Hi & _ & _ & <- & Hq). rewrite decide_True by eauto. eexists. split; [done|].
    destruct Hr as [Hl Hd Hok <-]. destruct (table_clear owner queue _ _ _ Hd Hi) as [Hd' Hm'].
    split; simpl; [by rewrite length_insert|done| |done]. by apply endpoints_ok_insert.
  - destruct He as [_ Hb]. rewrite decide_False by (rewrite Hb; by intros [??]). by exists s.
Qed.

Lemma send_sim from o p s b : ipc_rel s b →
  ∃ s', code_step (Send from o p) s = ((spec_step (Send from o p) b).1, s') ∧
        ipc_rel s' (spec_step (Send from o p) b).2.
Proof.
  intros Hr. cbn [code_step spec_step]. unfold send.
  destruct (Nat.ltb_spec MAX_MESSAGE_SIZE (length p)).
  { rewrite decide_True by done. by exists s. }
  rewrite decide_False by lia. pose proof (endpoint_spec s b from Hr) as He.
  destruct (endpoint_index from s) as [i|]; [|destruct He as [-> ->]; by exists s].
  destruct He as (e0 & _ & -> & _ & _ & ->).
  pose proof (at_endpoint_spec o (enqueue (mkMessage from (length p)
    (splice (mbytes message_empty) 0 p))) s b Hr) as Ha.
  destruct (b !! o) as [q|] eqn:Hb; [|rewrite Ha; by exists s].
  destruct Ha as (j & e & -> & Hok & Ho & Hj & ->).
  pose proof (enqueue_spec (mkMessage from (length p) (splice (mbytes message_empty) 0 p)) e Hok) as Hq.
  rewrite view_send in Hq by done. case_decide.
  - rewrite Hq. eexists. split; [done|]. by apply ipc_rel_same.
  - destruct Hq as (e' & -> & Hok' & Ho' & Hq'). eexists. split; [done|]. simpl.
    rewrite <-Hq', <-Ho. by apply ipc_rel_update.
Qed.

Lemma receive_sim o s b : ipc_rel s b →
  ∃ s', code_step (Receive o) s = ((spec_step (Receive o) b).1, s') ∧
        ipc_rel s' (spec_step (Receive o) b).2.
Proof.
  intros Hr. cbn [code_step spec_step]. unfold receive.
  pose proof (at_endpoint_spec o dequeue s b Hr) as Ha.
  destruct (b !! o) as [q|] eqn:Hb; [|rewrite Ha; by exists s].
  destruct Ha as (j & e & -> & Hok & Ho & Hj & ->).
  pose proof (dequeue_spec e Hok) as Hq. destruct (queue e) as [|x q'].
  - rewrite Hq. eexists. split; [done|]. by apply ipc_rel_same.
  - destruct Hq as (m & e' & -> & Hx & Hok' & Ho' & <-). eexists. split; [by simpl; rewrite Hx|].
    simpl. rewrite <-Ho. by apply ipc_rel_update.
Qed.

Lemma peek_sim o s b : ipc_rel s b →
  ∃ s', code_step (Peek o) s = ((spec_step (Peek o) b).1, s') ∧
        ipc_rel s' (spec_step (Peek o) b).2.
Proof.
  intros Hr. pose proof (endpoint_spec s b o Hr) as He. cbn [code_step spec_step]. exists s.
  unfold peek. destruct (endpoint_index o s) as [i|]; [|destruct He as [-> ->]; done].
  destruct He as (e & _ & -> & [Hl Hle] & _ & ->). split; [|done]. f_equal.
  unfold queue. destruct (messages e) as [|m ms]; destruct (elength e); simpl in *; try done; lia.
Qed.

Lemma ipc_step_sim op s b : ipc_rel s b →
  ∃ s', code_step op s = ((spec_step op b).1, s') ∧ ipc_rel s' (spec_step op b).2.
Proof.
  destruct op; [apply register_sim|apply unregister_sim|apply send_sim|apply receive_sim|apply peek_sim].
Qed.

Lemma ipc_rel_new : ipc_rel new ∅.
Proof.
  destruct (table_empty owner queue MAX_IPC_ENDPOINTS) as [Hd Hm].
  split; [apply length_replicate|done| |done].
  intros i e Hi. apply lookup_replicate_1 in Hi as [? _]. done.
Qed.

(** the IPC registry refines abstract mailboxes.  For every sequence of
    calls from the empty registry, the code returns the replies of the
    specification: at most [MAX_IPC_ENDPOINTS] owners, one mailbox each, every
    mailbox a FIFO queue of at most [IPC_QUEUE_DEPTH] messages that are
    delivered with their sender and exact payload; no call panics. *)
Theorem ipc_refines_mailboxes ops : replies code_step ops new = replies spec_step ops ∅.
Proof.
  generalize ipc_rel_new. generalize new, (∅ : Mailboxes).
  induction ops as [|op ops IH]; intros s b Hr; [done|]. cbn [replies].
  destruct (ipc_step_sim op s b Hr) as (s' & -> & Hr').
  destruct (spec_step op b) as [r b']. simpl in *. f_equal. by apply IH.
Qed.

(** the number of live endpoints the kernel reports is the number of
    mailboxes, after any sequence of calls. *)
Theorem ipc_endpoint_count ops :
  let s := foldl (λ s op, (code_step op s).2) new ops in
  let b := foldl (λ b op, (spec_step op b).2) ∅ ops in
  endpoint_count s = size b ∧ (size b ≤ MAX_IPC_ENDPOINTS)%nat.
Proof.
  assert (H : ipc_rel (foldl (λ s op, (code_step op s).2) new ops)
    (foldl (λ b op, (spec_step op b).2) ∅ ops)).
  { generalize ipc_rel_new. generalize new, (∅ : Mailboxes).
    induction ops as [|op ops IH]; intros s b Hr; [done|]. cbn [foldl]. apply IH.
    by destruct (ipc_step_sim op s b Hr) as (s' & -> & Hr'). }
  cbn zeta. destruct H as [Hl Hd _ <-]. pose proof (table_size owner queue _ Hd).
  assert (count is_free (endpoints (foldl (λ s op, (code_step op s).2) new ops))
    + endpoint_count (foldl (λ s op, (code_step op s).2) new ops)
    = length (endpoints (foldl (λ s op, (code_step op s).2) new ops)))%nat; [|lia].
  unfold endpoint_count, count. generalize (endpoints (foldl (λ s op, (code_step op s).2) new ops)).
  clear. intros l. induction l as [|[e|] l IH]; simpl in *; lia.
Qed.
