(* ===== verification/Pipe.v ===== *)
(** * Anonymous pipes (kernel/src/pipe.rs)

    The pipe table with its ring buffers, and the blocking [read] and [write]
    as programs of threads that interleave at the code's lock acquisitions
    (each [TABLE.lock()] section and each [wake_task]/[block_current] is one
    step).  The main theorem holds for every interleaving: what readers got is,
    in order, what writers put in.  A second group shows how the code behaves
    when an end is closed during a call, and the wake-up a sleeper can miss. *)
From stdpp Require Import gmap.
From S2P Require Import Prelude.

Definition PIPE_BUFFER : nat := Z.to_nat 2048.
Definition MAX_PIPES : nat := 32.
Definition MAX_WAITERS : nat := 32.
Lemma PIPE_BUFFER_pos : (0 < PIPE_BUFFER)%nat.
Proof. vm_compute. lia. Qed.
#[global] Opaque PIPE_BUFFER MAX_PIPES MAX_WAITERS.

Inductive PipeError := Full | Invalid | Closed.
#[export] Instance PipeError_eq_dec : EqDecision PipeError.
Proof. solve_decision. Defined.

Abbreviation TaskId := Z (only parsing).

Record Pipe := mkPipe {
  data : list byte; phead : nat; ptail : nat; plen : nat; readers : Z; writers : Z;
  occupied : bool; read_waiters : list (option TaskId); write_waiters : list (option TaskId) }.

Definition pipe_empty : Pipe :=
  mkPipe (replicate PIPE_BUFFER x00) 0 0 0 0 0 false
    (replicate MAX_WAITERS None) (replicate MAX_WAITERS None).

Definition new : list Pipe := replicate MAX_PIPES pipe_empty.

(** Field updates. *)
Definition set_ring (d : list byte) (h t n : nat) (p : Pipe) : Pipe :=
  mkPipe d h t n (readers p) (writers p) (occupied p) (read_waiters p) (write_waiters p).
Definition set_ends (r w : Z) (p : Pipe) : Pipe :=
  mkPipe (data p) (phead p) (ptail p) (plen p) r w (occupied p) (read_waiters p) (write_waiters p).
Definition set_read_waiters (l : list (option TaskId)) (p : Pipe) : Pipe :=
  mkPipe (data p) (phead p) (ptail p) (plen p) (readers p) (writers p) (occupied p) l (write_waiters p).
Definition set_write_waiters (l : list (option TaskId)) (p : Pipe) : Pipe :=
  mkPipe (data p) (phead p) (ptail p) (plen p) (readers p) (writers p) (occupied p) (read_waiters p) l.

Definition alloc : M (list Pipe) PipeError nat := λ t,
  match position (λ p, negb (occupied p)) t with
  | None => (Err Full, t)
  | Some slot =>
    (Ok slot, <[slot := mkPipe (replicate PIPE_BUFFER x00) 0 0 0 1 1 true
                          (replicate MAX_WAITERS None) (replicate MAX_WAITERS None)]> t)
  end.

Fixpoint push_waiter (slots : list (option TaskId)) (id : TaskId) : list (option TaskId) :=
  match slots with
  | [] => []
  | None :: l => Some id :: l
  | Some x :: l => if x =? id then Some x :: l else Some x :: push_waiter l id
  end.

(** [take_waiters] returns the old list and leaves this one. *)
Definition no_waiters : list (option TaskId) := replicate MAX_WAITERS None.

(** The loop of [try_write]: how many bytes of [buf] fit. *)
Fixpoint write_loop (buf : list byte) (written : nat) (p : Pipe) : res PipeError nat * Pipe :=
  match buf with
  | [] => (Ok written, p)
  | b :: buf =>
    if Nat.ltb (plen p) PIPE_BUFFER then
      if Nat.ltb (ptail p) (length (data p)) then
        write_loop buf (S written)
          (set_ring (<[ptail p := b]> (data p)) (phead p) ((ptail p + 1) mod PIPE_BUFFER)
             (S (plen p)) p)
      else (Panic, p)
    else (Ok written, p)
  end.

Definition try_write (id : nat) (buf : list byte) : M (list Pipe) PipeError (nat * bool) := λ t,
  match t !! id with
  | None => (Err Invalid, t)
  | Some p =>
    if negb (occupied p) then (Err Invalid, t)
    else if readers p =? 0 then (Err Closed, t)
    else
      let '(r, p) := write_loop buf 0 p in
      ((λ written, let need_block := Nat.ltb written (length buf) && (0 <? readers p) in
                   (written, need_block && Nat.eqb written 0)) <$> r,
       <[id := p]> t)
  end.

(** The loop of [try_read]: [space] bytes of the buffer are left, [out] is read. *)
Fixpoint read_loop (space : nat) (out : list byte) (p : Pipe) : res PipeError (list byte) * Pipe :=
  match space with
  | O => (Ok out, p)
  | S space =>
    if Nat.ltb 0 (plen p) then
      match data p !! phead p with
      | None => (Panic, p)
      | Some b =>
        read_loop space (out ++ [b])
          (set_ring (data p) ((phead p + 1) mod PIPE_BUFFER) (ptail p) (plen p - 1) p)
      end
    else (Ok out, p)
  end.

(** The result also carries the caller's buffer. *)
Definition try_read (id : nat) (buf : list byte)
    : M (list Pipe) PipeError (list byte * nat * bool * bool) := λ t,
  match t !! id with
  | None => (Err Invalid, t)
  | Some p =>
    if negb (occupied p) then (Err Invalid, t)
    else if Nat.eqb (plen p) 0 then
      if writers p =? 0 then (Ok (buf, 0%nat, false, true), t) else (Ok (buf, 0%nat, true, false), t)
    else
      let '(r, p) := read_loop (length buf) [] p in
      ((λ out, (splice buf 0 out, length out, false, false)) <$> r, <[id := p]> t)
  end.

(** [table.pipes.get_mut(id).filter(|p| p.occupied)], then an update. *)
Definition with_pipe (id : nat) (f : Pipe → Pipe) : M (list Pipe) PipeError unit := λ t,
  match t !! id with
  | Some p => if occupied p then (Ok tt, <[id := f p]> t) else (Err Invalid, t)
  | None => (Err Invalid, t)
  end.

Definition clone_reader (id : nat) : M (list Pipe) PipeError unit :=
  with_pipe id (λ p, set_ends (saturating_add 32 (readers p) 1) (writers p) p).
Definition clone_writer (id : nat) : M (list Pipe) PipeError unit :=
  with_pipe id (λ p, set_ends (readers p) (saturating_add 32 (writers p) 1) p).

(** The locked part of [close_reader]: the new table and the waiters to wake. *)
Definition close_reader (id : nat) (t : list Pipe) : list (option TaskId) * list Pipe :=
  match t !! id with
  | Some p =>
    if occupied p then
      let p := set_ends (saturating_sub (readers p) 1) (writers p) p in
      let w := write_waiters p in
      let p := set_write_waiters no_waiters p in
      (w, <[id := if (readers p =? 0) && (writers p =? 0) then pipe_empty else p]> t)
    else ([], t)
  | None => ([], t)
  end.

Definition close_writer (id : nat) (t : list Pipe) : list (option TaskId) * list Pipe :=
  match t !! id with
  | Some p =>
    if occupied p then
      let p := set_ends (readers p) (saturating_sub (writers p) 1) p in
      let w := read_waiters p in
      let p := set_read_waiters no_waiters p in
      (w, <[id := if (readers p =? 0) && (writers p =? 0) then pipe_empty else p]> t)
    else ([], t)
  | None => ([], t)
  end.

(** ** Calls as threads *)

(** Where a thread is in its call; [Done] carries the result and the caller's
    buffer.  [Wake] is the loop of [wake_list], one [wake_task] per step. *)
Inductive PC :=
| PCreate | PCloneR (id : nat) | PCloneW (id : nat) | PCloseR (id : nat) | PCloseW (id : nat)
| WTry (id : nat) (buf : list byte) (total : nat)
| WTake (id : nat) (buf : list byte) (total written : nat) (block : bool)
| WCheck (id : nat) (buf : list byte) (total : nat)
| WBlock (id : nat) (buf : list byte) (total : nat)
| RTry (id : nat) (buf : list byte)
| RTake (id : nat) (buf : list byte) (n : nat)
| RCheck (id : nat) (buf : list byte)
| RBlock (id : nat) (buf : list byte)
| Wake (ids : list TaskId) (next : PC)
| Done (r : res PipeError nat) (buf : list byte).

(** The table, the tasks the scheduler holds blocked, and every thread's place. *)
Record Sys := mkSys { table : list Pipe; blocked : gset TaskId; threads : gmap TaskId PC }.

(** What a step did to a pipe's contents. *)
Inductive Event :=
| ECreate (id : nat) | EWrite (id : nat) (bs : list byte) | ERead (id : nat) (bs : list byte).

(** Entry of [write] and [read]. *)
Definition write (id : nat) (buf : list byte) : PC :=
  if bool_decide (buf = []) then Done (Ok 0%nat) buf else WTry id buf 0.
Definition read (id : nat) (buf : list byte) : PC :=
  if bool_decide (buf = []) then Done (Ok 0%nat) buf else RTry id buf.

(** The rest of [write]'s loop body after the wake-ups. *)
Definition write_next (id : nat) (buf : list byte) (total written : nat) (block : bool) : PC :=
  if Nat.eqb total (length buf) then Done (Ok total) buf
  else if block then WCheck id buf total
  else if Nat.eqb written 0 then
    Done (if Nat.ltb 0 total then Ok total else Err Closed) buf
  else WTry id buf total.

(** The rest of [read]'s loop body for [n = 0]. *)
Definition read_next (id : nat) (buf : list byte) (block eof : bool) : PC :=
  if eof then Done (Ok 0%nat) buf
  else if block then RCheck id buf
  else Done (Ok 0%nat) buf.

Definition waiting (l : list (option TaskId)) : list TaskId := omap id l.

Definition update_pipe (id : nat) (f : Pipe → Pipe) (t : list Pipe) : list Pipe :=
  match t !! id with Some p => <[id := f p]> t | None => t end.

(** One locked section of thread [tid]: the new table, the next place and what
    happened; [None] where the code would panic. *)
Definition section (tid : TaskId) (pc : PC) (t : list Pipe)
    : option (list Pipe * PC * list Event) :=
  match pc with
  | PCreate =>
    match alloc t with
    | (Ok slot, t) => Some (t, Done (Ok slot) [], [ECreate slot])
    | (Err e, t) => Some (t, Done (Err e) [], [])
    | (Panic, t) => None
    end
  | PCloneR i => let '(r, t) := clone_reader i t in Some (t, Done ((λ _, 0%nat) <$> r) [], [])
  | PCloneW i => let '(r, t) := clone_writer i t in Some (t, Done ((λ _, 0%nat) <$> r) [], [])
  | PCloseR i => let '(w, t) := close_reader i t in Some (t, Wake (waiting w) (Done (Ok 0%nat) []), [])
  | PCloseW i => let '(w, t) := close_writer i t in Some (t, Wake (waiting w) (Done (Ok 0%nat) []), [])
  | WTry i buf total =>
    if Nat.ltb total (length buf) then
      match try_write i (drop total buf) t with
      | (Ok (written, block), t) =>
        let t := if block : bool then update_pipe i (λ p, set_write_waiters (push_waiter (write_waiters p) tid) p) t
                 else t in
        Some (t, if Nat.ltb 0 written then WTake i buf (total + written) written block
                 else write_next i buf total written block,
              [EWrite i (slice buf total written)])
      | (Err e, t) => Some (t, Done (Err e) buf, [])
      | (Panic, t) => None
      end
    else Some (t, Done (Ok total) buf, [])
  | WTake i buf total written block =>
    let w := match t !! i with Some p => read_waiters p | None => no_waiters end in
    Some (update_pipe i (set_read_waiters no_waiters) t,
          Wake (waiting w) (write_next i buf total written block), [])
  | WCheck i buf total =>
    let still := match t !! i with
      | Some p => occupied p && (0 <? readers p) && Nat.leb PIPE_BUFFER (plen p)
      | None => false end in
    Some (t, if still then WBlock i buf total else WTry i buf total, [])
  | RTry i buf =>
    match try_read i buf t with
    | (Ok (buf, n, block, eof), t) =>
      let t := if block : bool then update_pipe i (λ p, set_read_waiters (push_waiter (read_waiters p) tid) p) t
               else t in
      Some (t, if Nat.ltb 0 n then RTake i buf n else read_next i buf block eof,
            [ERead i (take n buf)])
    | (Err e, t) => Some (t, Done (Err e) buf, [])
    | (Panic, t) => None
    end
  | RTake i buf n =>
    let w := match t !! i with Some p => write_waiters p | None => no_waiters end in
    Some (update_pipe i (set_write_waiters no_waiters) t, Wake (waiting w) (Done (Ok n) buf), [])
  | RCheck i buf =>
    let still := match t !! i with
      | Some p => occupied p && Nat.eqb (plen p) 0 && (0 <? writers p)
      | None => false end in
    Some (t, if still then RBlock i buf else RTry i buf, [])
  | _ => None
  end.

(** One step of thread [tid].  [block_current] marks the task blocked and it
    resumes at its loop's head; [wake_task] makes a blocked task ready and does
    nothing to a task that is not blocked. *)
Definition thread_step (tid : TaskId) (s : Sys) : option (Sys * list Event) :=
  if bool_decide (tid ∈ blocked s) then None else
  pc ← threads s !! tid;
  match pc with
  | WBlock i buf total =>
    Some (mkSys (table s) ({[tid]} ∪ blocked s) (<[tid := WTry i buf total]> (threads s)), [])
  | RBlock i buf =>
    Some (mkSys (table s) ({[tid]} ∪ blocked s) (<[tid := RTry i buf]> (threads s)), [])
  | Wake [] next => Some (mkSys (table s) (blocked s) (<[tid := next]> (threads s)), [])
  | Wake (w :: ws) next =>
    Some (mkSys (table s) (blocked s ∖ {[w]}) (<[tid := Wake ws next]> (threads s)), [])
  | _ =>
    '(t, pc, ev) ← section tid pc (table s);
    Some (mkSys t (blocked s) (<[tid := pc]> (threads s)), ev)
  end.

(** A call a client may make. *)
Definition is_call (pc : PC) : Prop :=
  match pc with
  | PCreate | PCloneR _ | PCloneW _ | PCloseR _ | PCloseW _ => True
  | WTry _ _ 0 | RTry _ _ => True
  | _ => False
  end.

(** Interleaved executions: threads start calls and take steps in any order. *)
Inductive exec : Sys → list Event → Prop :=
| exec_init : exec (mkSys new ∅ ∅) []
| exec_call s h tid pc : exec s h → is_call pc →
    (threads s !! tid = None ∨ ∃ r b, threads s !! tid = Some (Done r b)) →
    exec (mkSys (table s) (blocked s) (<[tid := pc]> (threads s))) h
| exec_step s h tid s' ev : exec s h → thread_step tid s = Some (s', ev) → exec s' (h ++ ev).

(** ** The ring buffer is a queue *)

#[export] Instance byte_inhabited : Inhabited byte := populate x00.

(** The bytes in the ring, oldest first. *)
Definition contents (p : Pipe) : list byte :=
  (λ i, data p !!! ((phead p + i) mod PIPE_BUFFER)%nat) <$> seq 0 (plen p).

Record pipe_ok (p : Pipe) : Prop := {
  ok_data : length (data p) = PIPE_BUFFER;
  ok_head : (phead p < PIPE_BUFFER)%nat;
  ok_tail : ptail p = ((phead p + plen p) mod PIPE_BUFFER)%nat;
  ok_len : (plen p ≤ PIPE_BUFFER)%nat;
  ok_ends : 0 ≤ readers p ∧ 0 ≤ writers p;
  ok_live : occupied p = true → 0 < readers p ∨ 0 < writers p }.

(** Two pipes that differ in the ring only. *)
Definition same_ends (p q : Pipe) : Prop :=
  readers p = readers q ∧ writers p = writers q ∧ occupied p = occupied q ∧
  read_waiters p = read_waiters q ∧ write_waiters p = write_waiters q.

Lemma length_contents p : length (contents p) = plen p.
Proof. unfold contents. by rewrite length_fmap, length_seq. Qed.

Lemma ring_distinct n h i j : (0 < n)%nat → (i < n)%nat → (j < n)%nat →
  ((h + i) mod n = (h + j) mod n)%nat → i = j.
Proof.
  intros. pose proof (Nat.div_mod_eq (h + i) n). pose proof (Nat.div_mod_eq (h + j) n).
  assert (n * ((h + i) / n) + j = n * ((h + j) / n) + i)%nat as E by lia.
  assert ((h + i) / n = (h + j) / n)%nat by nia. lia.
Qed.

Lemma ring_push_ok p b : pipe_ok p → (plen p < PIPE_BUFFER)%nat →
  let p' := set_ring (<[ptail p := b]> (data p)) (phead p) ((ptail p + 1) mod PIPE_BUFFER)
              (S (plen p)) p in
  pipe_ok p' ∧ contents p' = contents p ++ [b].
Proof.
  intros [Hd Hh Ht Hl He Hlive] Hlt. pose proof PIPE_BUFFER_pos as Hp. simpl. split.
  - split; simpl; [by rewrite length_insert|done| |lia|done|done].
    rewrite Ht, Nat.Div0.add_mod_idemp_l. f_equal. lia.
  - unfold contents, set_ring; cbn [data phead plen]. rewrite seq_S, fmap_app. simpl. f_equal.
    + apply list_fmap_ext. intros i j [-> Hj]%lookup_seq.
      rewrite Ht, list_lookup_total_insert_ne; [done|].
      intros E. symmetry in E. apply ring_distinct in E; lia.
    + f_equal. rewrite Ht. apply list_lookup_total_insert_eq.
      rewrite Hd. apply Nat.mod_upper_bound. lia.
Qed.

Lemma ring_pop_ok p : pipe_ok p → (0 < plen p)%nat →
  let p' := set_ring (data p) ((phead p + 1) mod PIPE_BUFFER) (ptail p) (plen p - 1) p in
  pipe_ok p' ∧ ∃ b, data p !! phead p = Some b ∧ contents p = b :: contents p'.
Proof.
  intros [Hd Hh Ht Hl He Hlive] Hlt. pose proof PIPE_BUFFER_pos as Hp. simpl. split.
  - split; simpl; [done|apply Nat.mod_upper_bound; lia| |lia|done|done].
    rewrite Ht, Nat.Div0.add_mod_idemp_l. f_equal. lia.
  - destruct (lookup_lt_is_Some_2 (data p) (phead p)) as [b Hb]; [lia|].
    exists b. split; [done|]. unfold contents, set_ring; cbn [data phead plen].
    destruct (plen p) as [|n]; [lia|]. cbn [seq fmap list_fmap].
    replace (S n - 1)%nat with n by lia. f_equal.
    + rewrite Nat.add_0_r, Nat.mod_small by lia. by apply list_lookup_total_correct.
    + rewrite <-seq_shift. change (map S) with (fmap (M := list) S). rewrite <-list_fmap_compose.
      apply list_fmap_ext. intros i j [-> _]%lookup_seq. unfold compose. f_equal.
      rewrite Nat.Div0.add_mod_idemp_l. f_equal. lia.
Qed.

Lemma ring_write_spec buf k p : pipe_ok p →
  ∃ p', write_loop buf k p = (Ok (k + Nat.min (length buf) (PIPE_BUFFER - plen p))%nat, p') ∧
    pipe_ok p' ∧ same_ends p' p ∧
    contents p' = contents p ++ take (Nat.min (length buf) (PIPE_BUFFER - plen p)) buf.
Proof.
  revert k p. induction buf as [|b buf IH]; intros k p Hok; cbn [write_loop length].
  { exists p. rewrite Nat.add_0_r, app_nil_r. done. }
  pose proof Hok as [Hd Hh Ht Hl _ _]. pose proof PIPE_BUFFER_pos.
  destruct (Nat.ltb_spec (plen p) PIPE_BUFFER) as [Hlt|Hge].
  - destruct (Nat.ltb_spec (ptail p) (length (data p))) as [_|Hbad].
    2: { pose proof (Nat.mod_upper_bound (phead p + plen p) PIPE_BUFFER). lia. }
    destruct (ring_push_ok p b Hok Hlt) as [Hok' Hc']. cbn zeta in *.
    destruct (IH (S k) _ Hok') as (p' & -> & Hok'' & Hs & Hc).
    exists p'. cbn [plen set_ring] in *.
    replace (Nat.min (S (length buf)) (PIPE_BUFFER - plen p))
      with (S (Nat.min (length buf) (PIPE_BUFFER - S (plen p)))) by lia.
    split_and!; [do 2 f_equal; lia|done|done|]. by rewrite Hc, Hc', <-app_assoc.
  - exists p. replace (PIPE_BUFFER - plen p)%nat with 0%nat by lia.
    rewrite Nat.min_0_r, Nat.add_0_r, app_nil_r. done.
Qed.

Lemma ring_read_spec space out p : pipe_ok p →
  ∃ p', read_loop space out p = (Ok (out ++ take space (contents p)), p') ∧
    pipe_ok p' ∧ same_ends p' p ∧ contents p' = drop space (contents p).
Proof.
  revert out p. induction space as [|n IH]; intros out p Hok; cbn [read_loop].
  { exists p. by rewrite app_nil_r. }
  destruct (Nat.ltb_spec 0 (plen p)) as [Hlt|Hge].
  - destruct (ring_pop_ok p Hok Hlt) as [Hok' (b & -> & ->)].
    destruct (IH (out ++ [b]) _ Hok') as (p' & -> & Hok'' & Hs & Hc).
    exists p'. split_and!; [|done|done|done]. by rewrite <-app_assoc.
  - assert (contents p = []) as E by (apply nil_length_inv; rewrite length_contents; lia).
    exists p. rewrite E, app_nil_r. split_and!; done.
Qed.

(** ** Histories *)

(** What was written to, and read from, pipe [i] since it was last created. *)
Definition sent (i : nat) (h : list Event) : list byte :=
  foldl (λ acc e, match e with
    | ECreate j => if decide (j = i) then [] else acc
    | EWrite j bs => if decide (j = i) then acc ++ bs else acc
    | ERead _ _ => acc end) [] h.
Definition received (i : nat) (h : list Event) : list byte :=
  foldl (λ acc e, match e with
    | ECreate j => if decide (j = i) then [] else acc
    | ERead j bs => if decide (j = i) then acc ++ bs else acc
    | EWrite _ _ => acc end) [] h.

(** Every pipe is well formed and holds what was sent and not yet received. *)
Record table_ok (t : list Pipe) (h : list Event) : Prop := {
  tab_ok : Forall pipe_ok t;
  tab_len : length t = MAX_PIPES;
  tab_fifo : ∀ i p, t !! i = Some p → occupied p = true →
    sent i h = received i h ++ contents p }.

Lemma pipe_empty_ok : pipe_ok pipe_empty.
Proof.
  pose proof PIPE_BUFFER_pos. split; simpl; [apply length_replicate|lia| |lia|lia|done].
  by rewrite Nat.Div0.mod_0_l.
Qed.

Lemma table_ok_new : table_ok new [].
Proof.
  split; [apply Forall_replicate, pipe_empty_ok|apply length_replicate|].
  intros i p [-> _]%lookup_replicate. done.
Qed.

Lemma table_ok_lookup t h i p : table_ok t h → t !! i = Some p → pipe_ok p.
Proof. intros [Ht _ _]. by apply Forall_lookup_1. Qed.

(** A store in slot [i]: the other pipes' histories must be as before. *)
Lemma table_ok_store t h ev i p' :
  table_ok t h → pipe_ok p' →
  (∀ j, j ≠ i → sent j (h ++ ev) = sent j h ∧ received j (h ++ ev) = received j h) →
  (occupied p' = true → sent i (h ++ ev) = received i (h ++ ev) ++ contents p') →
  table_ok (<[i := p']> t) (h ++ ev).
Proof.
  intros [Ht Hl Hf] Hp' Hother Hi. split; [by apply Forall_insert|by rewrite length_insert|].
  intros j p [(-> & -> & _)|[Hne Hj]]%list_lookup_insert_Some Ho; [by apply Hi|].
  destruct (Hother j) as [-> ->]; [done|]. by apply Hf.
Qed.

(** An update that leaves the ring alone. *)
Lemma table_ok_update t h i p p' :
  table_ok t h → t !! i = Some p → pipe_ok p' → contents p' = contents p →
  (occupied p' = true → occupied p = true) → table_ok (<[i := p']> t) h.
Proof.
  intros Ht Hi Hp' Hc Ho. rewrite <-(app_nil_r h). apply table_ok_store; [done|done|by rewrite app_nil_r|].
  intros Ho'. rewrite app_nil_r, Hc. apply (tab_fifo _ _ Ht); [done|by apply Ho].
Qed.

Lemma same_ends_ok p q : same_ends p q → occupied p = occupied q.
Proof. by intros (_ & _ & ? & _). Qed.

Lemma set_waiters_ok f t h i :
  (∀ p, pipe_ok p → pipe_ok (f p)) → (∀ p, contents (f p) = contents p) →
  (∀ p, occupied (f p) = occupied p) →
  table_ok t h → table_ok (update_pipe i f t) h.
Proof.
  intros Hok Hc Ho Ht. unfold update_pipe. destruct (t !! i) as [p|] eqn:Hi; [|done].
  eapply table_ok_update; [done|done|apply Hok; by eapply table_ok_lookup|apply Hc|].
  by rewrite Ho.
Qed.

Lemma set_read_waiters_ok w t h i :
  table_ok t h → table_ok (update_pipe i (λ p, set_read_waiters (w p) p) t) h.
Proof. apply set_waiters_ok; [by intros p []|done|done]. Qed.
Lemma set_write_waiters_ok w t h i :
  table_ok t h → table_ok (update_pipe i (λ p, set_write_waiters (w p) p) t) h.
Proof. apply set_waiters_ok; [by intros p []|done|done]. Qed.

Lemma pipe_alloc_spec t h : table_ok t h →
  ∃ r t', alloc t = (r, t') ∧
    match r with
    | Ok slot => table_ok t' (h ++ [ECreate slot])
    | Err _ => t' = t
    | Panic => False
    end.
Proof.
  intros Ht. unfold alloc. destruct (position _ t) as [i|]; [|by eexists _, _].
  eexists _, _. split; [done|]. simpl. pose proof PIPE_BUFFER_pos.
  apply table_ok_store; [done| | |].
  - split; simpl; [apply length_replicate|lia| |lia|lia|lia]. by rewrite Nat.Div0.mod_0_l.
  - intros j Hj. unfold sent, received. rewrite !foldl_app. simpl. by rewrite !decide_False by done.
  - intros _. unfold sent, received. rewrite !foldl_app. simpl. by rewrite !decide_True by done.
Qed.

Lemma with_pipe_ok t h i f r t' : table_ok t h →
  (∀ p, occupied p = true → pipe_ok p → pipe_ok (f p) ∧ contents (f p) = contents p) →
  with_pipe i f t = (r, t') → table_ok t' h ∧ r ≠ Panic.
Proof.
  intros Ht Hf. unfold with_pipe. destruct (t !! i) as [p|] eqn:Hi; [|by intros [= <- <-]].
  destruct (occupied p) eqn:Ho; intros [= <- <-]; [|done].
  destruct (Hf p Ho) as [Hok Hc]; [by eapply table_ok_lookup|].
  split; [|done]. by eapply table_ok_update.
Qed.

Lemma close_reader_ok t h i w t' : table_ok t h → close_reader i t = (w, t') → table_ok t' h.
Proof.
  intros Ht. unfold close_reader. destruct (t !! i) as [p|] eqn:Hi; [|by intros [= <- <-]].
  destruct (occupied p) eqn:Ho; intros [= <- <-]; [|done]. cbn [readers writers set_ends set_write_waiters].
  pose proof (table_ok_lookup _ _ _ _ Ht Hi) as [Hd Hh Htl Hl He Hlv]. destruct (_ && _) eqn:E.
  - rewrite <-(app_nil_r h). apply table_ok_store; [done|apply pipe_empty_ok|by rewrite app_nil_r|done].
  - eapply table_ok_update; [done|done| |done|done]. unfold saturating_sub in *.
    apply andb_false_iff in E as [E|E]; apply Z.eqb_neq in E; split; simpl; try done; unfold saturating_sub; lia.
Qed.

Lemma close_writer_ok t h i w t' : table_ok t h → close_writer i t = (w, t') → table_ok t' h.
Proof.
  intros Ht. unfold close_writer. destruct (t !! i) as [p|] eqn:Hi; [|by intros [= <- <-]].
  destruct (occupied p) eqn:Ho; intros [= <- <-]; [|done]. cbn [readers writers set_ends set_read_waiters].
  pose proof (table_ok_lookup _ _ _ _ Ht Hi) as [Hd Hh Htl Hl He Hlv]. destruct (_ && _) eqn:E.
  - rewrite <-(app_nil_r h). apply table_ok_store; [done|apply pipe_empty_ok|by rewrite app_nil_r|done].
  - eapply table_ok_update; [done|done| |done|done]. unfold saturating_sub in *.
    apply andb_false_iff in E as [E|E]; apply Z.eqb_neq in E; split; simpl; try done; unfold saturating_sub; lia.
Qed.

Lemma try_write_spec t h i buf : table_ok t h →
  ∃ r t', try_write i buf t = (r, t') ∧
    match r with
    | Ok (n, block) => table_ok t' (h ++ [EWrite i (take n buf)]) ∧ (n ≤ length buf)%nat ∧
        (block = true ↔ n = 0%nat ∧ buf ≠ [])
    | Err _ => t' = t
    | Panic => False
    end.
Proof.
  intros Ht. unfold try_write. destruct (t !! i) as [p|] eqn:Hi; [|by eexists _, _].
  destruct (occupied p) eqn:Ho; [|by eexists _, _]. cbn [negb].
  destruct (Z.eqb_spec (readers p) 0) as [|Hr]; [by eexists _, _|].
  pose proof (table_ok_lookup _ _ _ _ Ht Hi) as Hok.
  destruct (ring_write_spec buf 0 p Hok) as (p' & -> & Hok' & Hs & Hc).
  eexists _, _. split; [done|]. cbn [fmap res_fmap]. rewrite Nat.add_0_l. split_and!; [|lia|].
  - apply table_ok_store; [done|done| |].
    + intros j Hj. unfold sent, received. rewrite !foldl_app. simpl. by rewrite decide_False by done.
    + intros _. unfold sent, received in *. rewrite !foldl_app. simpl. rewrite decide_True by done.
      rewrite Hc, app_assoc. f_equal. by apply (tab_fifo _ _ Ht).
  - destruct Hs as (-> & _). rewrite !andb_true_iff, Nat.ltb_lt, Z.ltb_lt, Nat.eqb_eq.
    destruct (ok_ends p Hok). destruct buf as [|b buf]; cbn [length].
    + split; [intros [[? _] _]; lia|by intros [_ []]].
    + split; [by intros [_ ?]|]. intros [? _]. lia.
Qed.

Lemma try_read_spec t h i buf : table_ok t h →
  ∃ r t', try_read i buf t = (r, t') ∧
    match r with
    | Ok (buf', n, block, eof) => table_ok t' (h ++ [ERead i (take n buf')]) ∧
        length buf' = length buf ∧ (n ≤ length buf)%nat ∧ drop n buf' = drop n buf
    | Err _ => t' = t
    | Panic => False
    end.
Proof.
  intros Ht. assert (Hnil : table_ok t (h ++ [ERead i []])).
  { destruct Ht as [H1 H2 Hf]. split; [done|done|]. intros j p Hj Ho. unfold sent, received in *.
    rewrite !foldl_app. simpl. rewrite app_nil_r. case_decide; by apply Hf. }
  unfold try_read. destruct (t !! i) as [p|] eqn:Hi; [|by eexists _, _].
  destruct (occupied p) eqn:Ho; [|by eexists _, _]. cbn [negb].
  destruct (Nat.eqb_spec (plen p) 0).
  { destruct (_ =? _); eexists _, _; (split; [done|]; split_and!; [done|done|lia|done]). }
  pose proof (table_ok_lookup _ _ _ _ Ht Hi) as Hok.
  destruct (ring_read_spec (length buf) [] p Hok) as (p' & -> & Hok' & Hs & Hc).
  eexists _, _. split; [done|]. cbn [fmap res_fmap]. rewrite app_nil_l.
  set (out := take (length buf) (contents p)).
  assert (Hout : (length out ≤ length buf)%nat) by (unfold out; rewrite length_take; lia).
  split_and!; [|apply length_splice; simpl; lia|done|].
  - unfold splice. simpl. rewrite take_app_length. apply table_ok_store; [done|done| |].
    + intros j Hj. unfold sent, received. rewrite !foldl_app. simpl. by rewrite decide_False by done.
    + intros _. unfold sent, received in *. rewrite !foldl_app. simpl. rewrite decide_True by done.
      rewrite Hc, <-app_assoc. unfold out. rewrite take_drop. by apply (tab_fifo _ _ Ht).
  - unfold splice. simpl. by rewrite drop_app_length.
Qed.

(** The places where a locked section starts. *)
Definition is_section (pc : PC) : bool :=
  match pc with Wake _ _ | Done _ _ | WBlock _ _ _ | RBlock _ _ => false | _ => true end.

Lemma section_ok tid pc t h : table_ok t h → is_section pc = true →
  ∃ t' pc' ev, section tid pc t = Some (t', pc', ev) ∧ table_ok t' (h ++ ev).
Proof.
  intros Ht. destruct pc; intros Hsec; try done; cbn [section]; clear Hsec.
  - destruct (pipe_alloc_spec t h Ht) as ([slot|e|] & t' & -> & Hr); [by eexists _, _, _|subst|done].
    eexists _, _, _. split; [done|]. by rewrite app_nil_r.
  - destruct (clone_reader id t) as [r t'] eqn:E. eexists _, _, _. split; [done|].
    rewrite app_nil_r. eapply with_pipe_ok; [done| |exact E]. intros p Ho [????[] ?].
    split; [split; simpl; try done; unfold saturating_add; lia|done].
  - destruct (clone_writer id t) as [r t'] eqn:E. eexists _, _, _. split; [done|].
    rewrite app_nil_r. eapply with_pipe_ok; [done| |exact E]. intros p Ho [????[] ?].
    split; [split; simpl; try done; unfold saturating_add; lia|done].
  - destruct (close_reader id t) as [w t'] eqn:E. eexists _, _, _. split; [done|].
    rewrite app_nil_r. by eapply close_reader_ok.
  - destruct (close_writer id t) as [w t'] eqn:E. eexists _, _, _. split; [done|].
    rewrite app_nil_r. by eapply close_writer_ok.
  - destruct (Nat.ltb _ _); [|eexists _, _, _; split; [done|]; by rewrite app_nil_r].
    destruct (try_write_spec t h id (drop total buf) Ht) as ([[n b]|e|] & t' & -> & Hr); [|subst|done].
    + destruct Hr as (Hr & _ & _). eexists _, _, _. split; [done|]. unfold slice.
      destruct b; [by apply set_write_waiters_ok|done].
    + eexists _, _, _. split; [done|]. by rewrite app_nil_r.
  - eexists _, _, _. split; [done|]. rewrite app_nil_r. by apply (set_read_waiters_ok (λ _, _)).
  - eexists _, _, _. split; [done|]. by rewrite app_nil_r.
  - destruct (try_read_spec t h id buf Ht) as ([[[[buf' n] b] eof]|e|] & t' & -> & Hr); [|subst|done].
    + destruct Hr as (Hr & _). eexists _, _, _. split; [done|].
      destruct b; [by apply set_read_waiters_ok|done].
    + eexists _, _, _. split; [done|]. by rewrite app_nil_r.
  - eexists _, _, _. split; [done|]. rewrite app_nil_r. by apply (set_write_waiters_ok (λ _, _)).
  - eexists _, _, _. split; [done|]. by rewrite app_nil_r.
Qed.

Lemma thread_step_section tid s pc : tid ∉ blocked s → threads s !! tid = Some pc →
  is_section pc = true →
  thread_step tid s = '(t, pc', ev) ← section tid pc (table s);
    Some (mkSys t (blocked s) (<[tid := pc']> (threads s)), ev).
Proof.
  intros Hb Hpc Hs. unfold thread_step. rewrite bool_decide_eq_false_2 by done. rewrite Hpc. simpl.
  by destruct pc.
Qed.

Lemma exec_table_ok s h : exec s h → table_ok (table s) h.
Proof.
  induction 1 as [|s h tid pc _ IH _ _|s h tid s' ev _ IH Hstep]; [apply table_ok_new|done|].
  destruct (decide (tid ∈ blocked s)) as [Hb|Hb].
  { unfold thread_step in Hstep. by rewrite bool_decide_eq_true_2 in Hstep. }
  destruct (threads s !! tid) as [pc|] eqn:Hpc.
  2: { unfold thread_step in Hstep. rewrite bool_decide_eq_false_2, Hpc in Hstep; done. }
  destruct (is_section pc) eqn:Hsec.
  - rewrite (thread_step_section _ _ _ Hb Hpc Hsec) in Hstep.
    destruct (section_ok tid pc (table s) h IH Hsec) as (t' & pc' & ev' & E & Hok).
    rewrite E in Hstep. by injection Hstep as <- <-.
  - unfold thread_step in Hstep. rewrite bool_decide_eq_false_2, Hpc in Hstep by done. simpl in Hstep.
    destruct pc as [| | | | | | | | | | | | |[|w ws]|]; try done; injection Hstep as <- <-; by rewrite app_nil_r.
Qed.

(** C32: pipes are FIFO under every interleaving.  However threads interleave
    their reads, writes, clones and closes, in every reachable state and for
    every live pipe the bytes written since its creation are, in order, the
    bytes read followed by the bytes still buffered, which are at most
    [PIPE_BUFFER]: nothing is lost, duplicated or reordered. *)
Theorem pipe_fifo s h i p :
  exec s h → table s !! i = Some p → occupied p = true →
  sent i h = received i h ++ contents p ∧ (length (contents p) ≤ PIPE_BUFFER)%nat.
Proof.
  intros He Hi Ho. pose proof (exec_table_ok s h He) as Ht. split; [by apply (tab_fifo _ _ Ht)|].
  rewrite length_contents. by apply ok_len, (table_ok_lookup _ _ _ _ Ht Hi).
Qed.

(** no call panics or gets stuck other than by blocking.  In every
    reachable state a thread inside a call that is not blocked has a step. *)
Theorem pipe_progress s h tid pc :
  exec s h → threads s !! tid = Some pc → tid ∉ blocked s →
  (∃ r b, pc = Done r b) ∨ is_Some (thread_step tid s).
Proof.
  intros He Hpc Hb. pose proof (exec_table_ok s h He) as Ht.
  destruct (is_section pc) eqn:Hsec.
  - right. rewrite (thread_step_section _ _ _ Hb Hpc Hsec).
    destruct (section_ok tid pc (table s) h Ht Hsec) as (t' & pc' & ev & -> & _). by eexists.
  - unfold thread_step. rewrite bool_decide_eq_false_2 by done. rewrite Hpc. simpl.
    destruct pc as [| | | | | | | | | | | | |[|w ws]|]; try done; try (right; by eexists). left. eauto.
Qed.

(** ** The outcome of a blocking write *)

(** The steps of one thread, with the table changed arbitrarily by the others
    in between. *)
Inductive flow (tid : TaskId) : PC → PC → Prop :=
| flow_section pc t h t' pc' ev :
    table_ok t h → section tid pc t = Some (t', pc', ev) → flow tid pc pc'
| flow_wake w ws next : flow tid (Wake (w :: ws) next) (Wake ws next)
| flow_woken next : flow tid (Wake [] next) next
| flow_wblock i buf total : flow tid (WBlock i buf total) (WTry i buf total)
| flow_rblock i buf : flow tid (RBlock i buf) (RTry i buf).

(** The places of a [write] of [buf]. *)
Fixpoint writing (buf : list byte) (pc : PC) : Prop :=
  match pc with
  | WTry _ b total | WCheck _ b total | WBlock _ b total => b = buf ∧ (total < length buf)%nat
  | WTake _ b total written block =>
      b = buf ∧ (total ≤ length buf)%nat ∧ (0 < written)%nat ∧ block = false
  | Wake _ next => writing buf next
  | Done (Ok n) b => b = buf ∧ n = length buf
  | Done (Err _) b => b = buf
  | _ => False
  end.

Lemma write_section_flow tid i buf total t h t' pc' ev : (total < length buf)%nat →
  table_ok t h → section tid (WTry i buf total) t = Some (t', pc', ev) → writing buf pc'.
Proof.
  intros Hlt Ht. cbn [section]. destruct (Nat.ltb_spec total (length buf)); [|lia].
  destruct (try_write_spec t h i (drop total buf) Ht) as ([[n b]|e|] & t1 & -> & Hr);
    [|by intros [= <- <- <-]|done].
  destruct Hr as (_ & Hn & Hb). rewrite length_drop in Hn. intros [= <- <- <-].
  destruct (Nat.ltb_spec 0 n) as [Hpos|Hz]; simpl.
  - split_and!; [done|lia|done|]. destruct b; [|done]. destruct Hb as [[-> _] _]; [done|lia].
  - assert (n = 0%nat) as -> by lia. destruct b.
    + unfold write_next. destruct (Nat.eqb_spec total (length buf)); [lia|]. done.
    + destruct Hb as [_ Hb]. discriminate Hb. split; [done|]. intros E%(f_equal length).
      rewrite length_drop in E. simpl in E. lia.
Qed.

Lemma writing_flow tid buf pc pc' : flow tid pc pc' → writing buf pc → writing buf pc'.
Proof.
  intros Hf. destruct Hf as [pc t h t' pc' ev Ht Hs|w ws next|next|i b total|i b]; try done.
  destruct pc; cbn [writing]; try done.
  - intros [-> Hlt]. by eapply write_section_flow.
  - intros (-> & Hle & Hw & ->). injection Hs as <- <- <-. simpl. unfold write_next.
    destruct (Nat.eqb_spec total (length buf)); [done|].
    destruct (Nat.eqb_spec written 0); [lia|]. simpl. split; [done|lia].
  - intros [-> Hlt]. injection Hs as <- <- <-.
    destruct (t !! id) as [p|]; [destruct (_ && _)|]; done.
Qed.

(** a blocking write is all or error.  Whatever other threads do between
    its steps, a [write] of a nonempty buffer that returns has either
    transferred the whole buffer or returns an error; it never returns a
    partial count, so the branch that would return one after the readers left
    is dead. *)
Theorem write_all_or_error tid i buf r b :
  buf ≠ [] → rtc (flow tid) (write i buf) (Done r b) →
  r = Ok (length buf) ∨ ∃ e, r = Err e.
Proof.
  intros Hne Hrun. assert (writing buf (Done r b)) as Hw.
  { eapply (rtc_ind_r (λ pc, writing buf pc)); [|intros; by eapply writing_flow|exact Hrun].
    unfold write. rewrite bool_decide_eq_false_2 by done. simpl. split; [done|].
    destruct buf; [done|simpl; lia]. }
  destruct r as [n|e|]; simpl in Hw; [left|right|]; naive_solver.
Qed.

(** ** Concrete executions *)

Inductive Action := Call (tid : TaskId) (pc : PC) | Step (tid : TaskId).

Definition callable (pc : PC) : bool :=
  match pc with
  | PCreate | PCloneR _ | PCloneW _ | PCloseR _ | PCloseW _ | RTry _ _ => true
  | WTry _ _ total => Nat.eqb total 0
  | _ => false
  end.
Definition is_done (o : option PC) : bool :=
  match o with None | Some (Done _ _) => true | _ => false end.

Fixpoint run (l : list Action) (s : Sys) (h : list Event) : option (Sys * list Event) :=
  match l with
  | [] => Some (s, h)
  | Call tid pc :: l =>
    if callable pc && is_done (threads s !! tid)
    then run l (mkSys (table s) (blocked s) (<[tid := pc]> (threads s))) h else None
  | Step tid :: l => '(s, ev) ← thread_step tid s; run l s (h ++ ev)
  end.

Lemma run_exec l s h s' h' : exec s h → run l s h = Some (s', h') → exec s' h'.
Proof.
  revert s h. induction l as [|[tid pc|tid] l IH]; intros s h He; cbn [run].
  - by intros [= <- <-].
  - destruct (callable pc) eqn:Hc; [|done]. destruct (is_done _) eqn:Hd; [|done]. simpl.
    apply IH. apply exec_call; [done| |].
    + destruct pc as [| | | | |? ? []| | | | | | | | |]; done.
    + destruct (threads s !! tid) as [[]|]; try done; eauto.
  - intros ([s1 ev] & Hs & Hr)%bind_Some. eapply IH; [|exact Hr]. by eapply exec_step.
Qed.

Definition start : Sys := mkSys new ∅ ∅.

(** The schedule of [self_test]: create a pipe, write, read back, close the
    writer, read the end of file, close the reader. *)
Definition self_test : bool :=
  let p := bytes "blocking-pipe-test" in
  match run ([Call 1 PCreate; Step 1; Call 1 (write 0 p)] ++ replicate 3 (Step 1)
             ++ [Call 1 (read 0 (replicate 32 x00))] ++ replicate 3 (Step 1)) start [] with
  | Some (s, h) =>
    let r1 := threads s !! 1 in
    match run ([Call 1 (PCloseW 0); Step 1; Step 1; Call 1 (read 0 (replicate 32 x00)); Step 1]) s h with
    | Some (s, h) =>
      match run [Call 2 (PCloseR 0); Step 2; Step 2] s h with
      | Some (s2, _) =>
        match r1, threads s !! 1 with
        | Some (Done (Ok n) b), Some (Done (Ok m) _) =>
          Nat.eqb n (length p) && bool_decide (take (length p) b = p) && Nat.eqb m 0
          && forallb (λ q, negb (occupied q)) (table s2)
        | _, _ => false
        end
      | None => false
      end
    | None => false
    end
  | None => false
  end.

Example pipe_self_test : self_test = true.
Proof. vm_compute. reflexivity. Qed.

(** A closed execution that satisfies a check. *)
Lemma run_check (P : Sys → list Event → bool) l :
  match run l start [] with Some (s, h) => P s h | None => false end = true →
  ∃ s h, exec s h ∧ P s h = true.
Proof.
  destruct (run l start []) as [[s h]|] eqn:E; [|done]. intros HP.
  exists s, h. split; [|done]. exact (run_exec _ _ _ _ _ exec_init E).
Qed.

(** A writer fills the buffer, then the reader closes while the rest waits. *)
Definition closed_midway : list Action :=
  [Call 1 PCreate; Step 1; Call 1 (WTry 0 (replicate (PIPE_BUFFER + 1) x00) 0); Step 1; Step 1; Step 1;
   Call 2 (PCloseR 0); Step 2; Step 2; Step 1].

Definition finished_with (o : option PC) (r : res PipeError nat) : bool :=
  match o with Some (Done r' _) => bool_decide (r' = r) | _ => false end.

(** a write whose reader closes after a full buffer was transferred reports
    [Closed], not the bytes it transferred: the execution ends with the error
    although [PIPE_BUFFER] bytes of the call are in the history. *)
Theorem write_closed_midway :
  ∃ s h, exec s h ∧ finished_with (threads s !! 1) (Err Closed) = true ∧
    length (sent 0 h) = PIPE_BUFFER.
Proof.
  destruct (run_check (λ s h, finished_with (threads s !! 1) (Err Closed)
    && Nat.eqb (length (sent 0 h)) PIPE_BUFFER) closed_midway) as (s & h & He & Hp);
    [vm_compute; reflexivity|].
  apply andb_true_iff in Hp as [H1 H2]. apply Nat.eqb_eq in H2. by exists s, h.
Qed.

(** The reader finds the pipe empty and decides to sleep; before it sleeps the
    writer fills the pipe and wakes the waiters; then the reader sleeps. *)
Definition wake_before_sleep : list Action :=
  [Call 2 PCreate; Step 2; Call 1 (read 0 [x00]); Step 1; Step 1;
   Call 2 (write 0 (bytes "x")); Step 2; Step 2; Step 2; Step 2; Step 1].

(** Task [tid] sleeps in a read of pipe [i] that has data, is in no waiter
    list, and every other thread has returned. *)
Definition stranded (tid : TaskId) (i : nat) (s : Sys) : Prop :=
  tid ∈ blocked s ∧ (∃ buf, threads s !! tid = Some (RTry i buf)) ∧
  (∃ p, table s !! i = Some p ∧ contents p ≠ []) ∧
  Forall (λ p, tid ∉ waiting (read_waiters p) ∧ tid ∉ waiting (write_waiters p)) (table s) ∧
  map_Forall (λ t pc, t ≠ tid → is_done (Some pc) = true) (threads s).

Definition stranded_b (tid : TaskId) (i : nat) (s : Sys) : bool :=
  bool_decide (tid ∈ blocked s)
  && match threads s !! tid with Some (RTry j _) => Nat.eqb j i | _ => false end
  && match table s !! i with Some p => bool_decide (contents p ≠ []) | None => false end
  && bool_decide (Forall (λ p, tid ∉ waiting (read_waiters p) ∧ tid ∉ waiting (write_waiters p)) (table s))
  && bool_decide (map_Forall (λ t pc, t ≠ tid → is_done (Some pc) = true) (threads s)).

Lemma stranded_b_true tid i s : stranded_b tid i s = true → stranded tid i s.
Proof.
  unfold stranded_b, stranded.
  intros [[[[Hb Hpc]%andb_true_iff Hp]%andb_true_iff Hw]%andb_true_iff Ht]%andb_true_iff.
  apply bool_decide_eq_true_1 in Hb, Hw, Ht. split_and!; [done| | |done|done].
  - destruct (threads s !! tid) as [[]|]; try done. apply Nat.eqb_eq in Hpc as ->. eauto.
  - destruct (table s !! i) as [p|]; [|done]. exists p. by apply bool_decide_eq_true_1 in Hp.
Qed.

(** a wake-up can be lost.  There is an execution in which a reader sleeps
    for ever on a pipe that holds data: the writer's wake-up came after the
    reader's last check and before it blocked, where [wake_task] has no effect. *)
Theorem pipe_lost_wakeup : ∃ s h, exec s h ∧ stranded 1 0 s.
Proof.
  destruct (run_check (λ s _, stranded_b 1 0 s) wake_before_sleep) as (s & h & He & Hp);
    [vm_compute; reflexivity|].
  exists s, h. split; [done|]. by apply stranded_b_true.
Qed.

Lemma pipe_fifo_witness :
  ∃ s h p, exec s h ∧ table s !! 0%nat = Some p ∧ sent 0 h = received 0 h ++ contents p.
Proof.
  destruct (run_check (λ s h, match table s !! 0%nat with Some p => occupied p | None => false end)
    [Call 1 PCreate; Step 1; Call 1 (write 0 (bytes "abc")); Step 1]) as (s & h & He & Hp);
    [vm_compute; reflexivity|].
  exists s, h. destruct (table s !! 0%nat) as [p|] eqn:Hi; [|discriminate Hp].
  exists p. split; [exact He|]. split; [reflexivity|]. exact (proj1 (pipe_fifo s h 0 p He Hi Hp)).
Defined.

Lemma pipe_progress_witness : ∃ s h, exec s h ∧ threads s !! 1 = Some PCreate ∧
  ((∃ r b, PCreate = Done r b) ∨ is_Some (thread_step 1 s)).
Proof.
  assert (He : exec (mkSys new ∅ {[1 := PCreate]}) []).
  { apply (exec_call start [] 1 PCreate exec_init I). left. reflexivity. }
  assert (Hpc : threads (mkSys new ∅ {[1 := PCreate]}) !! 1 = Some PCreate) by reflexivity.
  assert (Hb : 1 ∉ blocked (mkSys new ∅ {[1 := PCreate]})) by (apply not_elem_of_empty).
  exists (mkSys new ∅ {[1 := PCreate]}), []. split; [exact He|]. split; [exact Hpc|].
  exact (pipe_progress _ _ _ _ He Hpc Hb).
Defined.

Lemma write_all_or_error_witness :
  rtc (flow 1) (write 0 (bytes "a")) (Done (Err Invalid) (bytes "a")) ∧
  (Err Invalid = Ok (length (bytes "a")) ∨ ∃ e : PipeError, @Err _ nat Invalid = Err e).
Proof.
  assert (Hne : bytes "a" ≠ []) by discriminate.
  assert (Hrun : rtc (flow 1) (write 0 (bytes "a")) (Done (Err Invalid) (bytes "a"))).
  { apply rtc_once. eapply (flow_section 1 _ new []); [exact table_ok_new|]. vm_compute. reflexivity. }
  split; [exact Hrun|]. exact (write_all_or_error 1 0 (bytes "a") _ _ Hne Hrun).
Defined.
