(* ===== verification/BlockIo.v ===== *)
(** * The block I/O queue (kernel/src/block_io.rs)

    Requests from tasks, a worker that performs them on the disk, and the
    clients that wait for their results.  The disk is any [BlockDevice].  The
    parts run as interleaved steps, one per lock acquisition; the theorem says
    that every delivered result is the result of performing its own request
    exactly once, in an order of disk operations that explains all results. *)
From S2P Require Import Prelude Config Block Table.

Inductive Operation := Read | Write | Flush.
Inductive RequestState := Pending | InProgress | Complete.
#[export] Instance Operation_eq_dec : EqDecision Operation.
Proof. solve_decision. Defined.
#[export] Instance RequestState_eq_dec : EqDecision RequestState.
Proof. solve_decision. Defined.

Record Request := mkRequest {
  rid : Z; operation : Operation; lba : Z; rdata : list byte;
  result : res Error unit; rstate : RequestState }.

Definition pending (id : Z) (op : Operation) (l : Z) (d : list byte) : Request :=
  mkRequest id op l d (Ok tt) Pending.

Record WorkItem := mkWork { slot : nat; request : Request }.

Record Queue := mkQueue { entries : list (option Request); next_id : Z }.

Definition new : Queue := mkQueue (replicate MAX_BLOCK_IO_REQUESTS None) 1.

Definition push (op : Operation) (l : Z) (d : list byte) (q : Queue) : option Z * Queue :=
  match position is_free (entries q) with
  | None => (None, q)
  | Some i =>
    (Some (next_id q),
     mkQueue (<[i := Some (pending (next_id q) op l d)]> (entries q))
             (Z.max (wrapping_add 64 (next_id q) 1) 1))
  end.

Definition set_state (st : RequestState) (r : Request) : Request :=
  mkRequest (rid r) (operation r) (lba r) (rdata r) (result r) st.

Definition state_is (st : RequestState) (o : option Request) : bool :=
  match o with Some r => bool_decide (rstate r = st) | None => false end.

(** The first pending request in slot order. *)
Definition take_pending (q : Queue) : option WorkItem * Queue :=
  match position (state_is Pending) (entries q) with
  | Some i =>
    match entries q !! i with
    | Some (Some r) =>
      let r := set_state InProgress r in
      (Some (mkWork i r), mkQueue (<[i := Some r]> (entries q)) (next_id q))
    | _ => (None, q)
    end
  | None => (None, q)
  end.

Definition finish (i : nat) (id : Z) (res : res Error unit) (d : list byte) (q : Queue) : Queue :=
  match entries q !! i with
  | Some (Some r) =>
    if (rid r =? id) && bool_decide (rstate r = InProgress)
    then mkQueue (<[i := Some (mkRequest (rid r) (operation r) (lba r) d res Complete)]> (entries q))
                 (next_id q)
    else q
  | _ => q
  end.

(** [copy_from_slice] into the caller's buffer: [None] on a length mismatch. *)
Definition deliver (r : Request) (output : option (list byte)) : option (option (list byte)) :=
  if is_ok (result r) then
    match output with
    | Some out => if Nat.eqb (length out) (length (rdata r)) then Some (Some (rdata r)) else None
    | None => Some None
    end
  else Some output.

Definition take_result (id : Z) (output : option (list byte)) (q : Queue)
    : option (res Error unit) * option (list byte) * Queue :=
  match position (λ o, key_is rid id o && state_is Complete o) (entries q) with
  | Some i =>
    match entries q !! i with
    | Some (Some r) =>
      match deliver r output with
      | Some output => (Some (result r), output, mkQueue (<[i := None]> (entries q)) (next_id q))
      | None => (Some Panic, output, q)
      end
    | _ => (None, output, q)
    end
  | None => (None, output, q)
  end.

Definition pending_count (q : Queue) : nat := count (state_is Pending) (entries q).
Definition active_count (q : Queue) : nat := count (λ o, negb (is_free o)) (entries q).

Section devices.
Context {D : Type} `{BlockDevice D}.

(** One request on a device: its result, the request's buffer, the device. *)
Definition perform (op : Operation) (l : Z) (d : list byte) (dev : D)
    : res Error unit * list byte * D :=
  match op with
  | Read => read_sector l d dev
  | Write => let '(r, dev) := write_sector l d dev in (r, d, dev)
  | Flush => let '(r, dev) := flush dev in (r, d, dev)
  end.

(** [crate::ata::with_primary_master]: the disk may be absent. *)
Definition direct_primary (op : Operation) (l : Z) (input output : option (list byte))
    (disk : option D) : res Error unit * option (list byte) * option D :=
  match disk with
  | None => (Err DeviceFault, output, None)
  | Some dev =>
    match op with
    | Read =>
      match output with
      | None => (Err InvalidBuffer, output, disk)
      | Some out => let '(r, out, dev) := read_sector l out dev in (r, Some out, Some dev)
      end
    | Write =>
      match input with
      | None => (Err InvalidBuffer, output, disk)
      | Some inp => let '(r, dev) := write_sector l inp dev in (r, output, Some dev)
      end
    | Flush => let '(r, dev) := flush dev in (r, output, Some dev)
    end
  end.

(** The disk part of [process_one_primary]. *)
Definition run_request (r : Request) (disk : option D) : res Error unit * list byte * option D :=
  match operation r with
  | Read =>
    let '(res, out, disk) := direct_primary Read (lba r) None (Some (rdata r)) disk in
    (res, default (rdata r) out, disk)
  | Write =>
    let '(res, _, disk) := direct_primary Write (lba r) (Some (rdata r)) None disk in
    (res, rdata r, disk)
  | Flush =>
    let '(res, _, disk) := direct_primary Flush (lba r) None None disk in (res, rdata r, disk)
  end.

Definition process_one_primary (q : Queue) (disk : option D) : bool * Queue * option D :=
  match take_pending q with
  | (None, q) => (false, q, disk)
  | (Some w, q) =>
    let '(res, d, disk) := run_request (request w) disk in
    (true, finish (slot w) (rid (request w)) res d q, disk)
  end.

Definition drive_one (q : Queue) (dev : D) : bool * Queue * D :=
  match take_pending q with
  | (None, q) => (false, q, dev)
  | (Some w, q) =>
    let r := request w in
    let '(res, d, dev) := perform (operation r) (lba r) (rdata r) dev in
    (true, finish (slot w) (rid r) res d q, dev)
  end.

(** [while drive_one(..) {}]; a round serves one request, so the table's size
    is enough fuel. *)
Fixpoint drive_all (fuel : nat) (q : Queue) (dev : D) : Queue * D :=
  match fuel with
  | O => (q, dev)
  | S fuel => let '(b, q, dev) := drive_one q dev in
              if b : bool then drive_all fuel q dev else (q, dev)
  end.
End devices.

Definition push_all (ops : list (Operation * Z * list byte)) (q : Queue) : list (option Z) * Queue :=
  foldl (λ '(ids, q) '(op, l, d), let '(id, q) := push op l d q in (ids ++ [id], q)) ([], q) ops.

Definition take_all (ids : list (option Z)) (q : Queue) : bool * Queue :=
  foldl (λ '(ok, q) o, match o with
    | Some id => let '(r, _, q) := take_result id None q in (ok && bool_decide (r = Some (Ok tt)), q)
    | None => (false, q) end) (true, q) ids.

Definition self_test : bool :=
  let zero := replicate SECTOR_SIZE x00 in
  let first := splice zero 0 (bytes "wovenhat-io!") in
  let second := replicate SECTOR_SIZE (z_byte 0xaa) in
  let '(write_id, q) := push Write 2 first new in
  let n1 := pending_count q in
  let '(b1, q, disk) := drive_one q (ramdisk_new 4) in
  let '(r1, _, q) := take_result (default 0 write_id) None q in
  let '(r2, out, disk) := read_sector 2 zero disk in
  let '(read_id, q) := push Read 2 zero q in
  let '(b2, q, disk) := drive_one q disk in
  let '(r3, out3, q) := take_result (default 0 read_id) (Some out) q in
  let '(ids, q) := push_all ((λ i, (Write, Z.of_nat i mod 4, second)) <$> seq 0 MAX_BLOCK_IO_REQUESTS) q in
  let '(full, q) := push Flush 0 zero q in
  let active := active_count q in
  let '(q, disk) := drive_all (S MAX_BLOCK_IO_REQUESTS) q disk in
  let '(all, q) := take_all ids q in
  let '(fail_id, q') := push Write 1 first q in
  let '(b4, q', _) := drive_one q' (set_read_only true disk) in
  let '(r4, _, _) := take_result (default 0 fail_id) None q' in
  bool_decide (is_Some write_id) && Nat.eqb n1 1 && b1 && bool_decide (r1 = Some (Ok tt))
  && negb (is_err r2) && bool_decide (out = first) && bool_decide (is_Some read_id) && b2
  && bool_decide (r3 = Some (Ok tt)) && bool_decide (out3 = Some first)
  && forallb (λ o, bool_decide (is_Some o)) ids && bool_decide (full = None)
  && Nat.eqb active MAX_BLOCK_IO_REQUESTS && all && Nat.eqb (active_count q) 0
  && bool_decide (is_Some fail_id) && b4 && bool_decide (r4 = Some (Err ReadOnly)).

Example block_io_self_test : self_test = true.
Proof. vm_compute. reflexivity. Qed.

(** Whether a request goes through the queue: the flags and task ids the
    function reads. *)
Definition should_queue (in_worker interrupts : bool) (current worker : option Z) : bool :=
  if in_worker || negb interrupts then false
  else match current with
  | None => false
  | Some c => if c =? 0 then false
              else match worker with Some w => negb (w =? c) | None => false end
  end.

(** ** Interleaved executions *)

(** The worker: between [take_pending] and the disk, and between the disk and
    [finish]. *)
Inductive Worker :=
| Idle
| Taken (w : WorkItem)
| Performed (w : WorkItem) (r : res Error unit) (d : list byte).

Inductive Event :=
| ESubmit (id : Z) (op : Operation) (l : Z) (d : list byte)
| ERun (id : Z) (op : Operation) (l : Z) (d : list byte) (r : res Error unit) (d' : list byte)
| EDirect (op : Operation) (l : Z) (input output : option (list byte)) (r : res Error unit)
    (output' : option (list byte))
| EDeliver (id : Z) (r : res Error unit) (output output' : option (list byte)).

Section executions.
Context {D : Type} `{BlockDevice D}.

Record Sys := mkSys { queue : Queue; worker : Worker; disk : option D }.

(** Clients push and poll ([submit], [wait_for_completion]); the worker takes,
    performs and finishes; a caller that may not queue goes to the disk itself. *)
Inductive step : Sys → list Event → Sys → Prop :=
| step_submit q w k op l d id q' :
    push op l d q = (Some id, q') → step (mkSys q w k) [ESubmit id op l d] (mkSys q' w k)
| step_full q w k op l d q' :
    push op l d q = (None, q') → step (mkSys q w k) [] (mkSys q' w k)
| step_take q k w q' :
    take_pending q = (Some w, q') → step (mkSys q Idle k) [] (mkSys q' (Taken w) k)
| step_run q k w r d k' :
    run_request (request w) k = (r, d, k') →
    step (mkSys q (Taken w) k)
      [ERun (rid (request w)) (operation (request w)) (lba (request w)) (rdata (request w)) r d]
      (mkSys q (Performed w r d) k')
| step_finish q k w r d :
    step (mkSys q (Performed w r d) k) []
      (mkSys (finish (slot w) (rid (request w)) r d q) Idle k)
| step_direct q w k op l i o r o' k' :
    direct_primary op l i o k = (r, o', k') →
    step (mkSys q w k) [EDirect op l i o r o'] (mkSys q w k')
| step_deliver q w k id o r o' q' :
    take_result id o q = (Some r, o', q') → r ≠ Panic →
    step (mkSys q w k) [EDeliver id r o o'] (mkSys q' w k)
| step_poll q w k id o :
    (take_result id o q).1.1 = None → step (mkSys q w k) [] (mkSys q w k).

Inductive exec (k0 : option D) : Sys → list Event → Prop :=
| exec_init : exec k0 (mkSys new Idle k0) []
| exec_step s h ev s' : exec k0 s h → step s ev s' → exec k0 s' (h ++ ev).

(** ** The disk history explains every result *)

(** Replaying the disk operations of a history, checking their results. *)
Fixpoint replay (h : list Event) (k : option D) : option (option D) :=
  match h with
  | [] => Some k
  | ERun id op l d r d' :: h =>
    let '(r1, d1, k) := run_request (mkRequest id op l d (Ok tt) InProgress) k in
    if bool_decide (r1 = r ∧ d1 = d') then replay h k else None
  | EDirect op l i o r o' :: h =>
    let '(r1, o1, k) := direct_primary op l i o k in
    if bool_decide (r1 = r ∧ o1 = o') then replay h k else None
  | _ :: h => replay h k
  end.

Lemma replay_app h1 h2 k : replay (h1 ++ h2) k = replay h1 k ≫= replay h2.
Proof.
  revert k. induction h1 as [|[] h1 IH]; intros k; simpl; [done|apply IH| | |apply IH].
  - destruct (run_request _ _) as [[??]?]. case_bool_decide; [apply IH|done].
  - destruct (direct_primary _ _ _ _ _) as [[??]?]. case_bool_decide; [apply IH|done].
Qed.

Lemma run_request_fields r r' (k : option D) :
  operation r = operation r' → lba r = lba r' → rdata r = rdata r' →
  run_request r k = run_request r' k.
Proof. intros E1 E2 E3. unfold run_request. by rewrite E1, E2, E3. Qed.

Lemma exec_replay k0 s h : exec k0 s h → replay h k0 = Some (disk s).
Proof.
  induction 1 as [|s h ev s' _ IH Hs]; [done|]. rewrite replay_app, IH. simpl.
  destruct Hs; simpl in *; try done.
  - rewrite (run_request_fields _ (request w)) by done.
    rewrite H0. by rewrite bool_decide_eq_true_2 by done.
  - rewrite H0. by rewrite bool_decide_eq_true_2 by done.
Qed.
End executions.
Arguments Sys : clear implicits.

(** ** Each request is performed exactly once *)

Definition submitted (h : list Event) : list (Z * (Operation * Z * list byte)) :=
  omap (λ e, match e with ESubmit id op l d => Some (id, (op, l, d)) | _ => None end) h.
Definition ran (h : list Event) : list (Z * (Operation * Z * list byte * res Error unit * list byte)) :=
  omap (λ e, match e with ERun id op l d r d' => Some (id, (op, l, d, r, d')) | _ => None end) h.
Definition delivered (h : list Event)
    : list (Z * (res Error unit * option (list byte) * option (list byte))) :=
  omap (λ e, match e with EDeliver id r o o' => Some (id, (r, o, o')) | _ => None end) h.

(** The life of the request in a slot. *)
Definition entry_ok (h : list Event) (w : Worker) (i : nat) (r : Request) : Prop :=
  ∃ d0, (rid r, (operation r, lba r, d0)) ∈ submitted h ∧ rid r ∉ (delivered h).*1 ∧
    match rstate r with
    | Pending => rdata r = d0 ∧ rid r ∉ (ran h).*1
    | InProgress => rdata r = d0 ∧
        (w = Taken (mkWork i r) ∧ rid r ∉ (ran h).*1 ∨
         ∃ res d, w = Performed (mkWork i r) res d ∧
           (rid r, (operation r, lba r, d0, res, d)) ∈ ran h)
    | Complete => (rid r, (operation r, lba r, d0, result r, rdata r)) ∈ ran h
    end.

(** The worker's item is in its slot, in progress. *)
Definition worker_ok (q : Queue) (w : Worker) : Prop :=
  match w with
  | Idle => True
  | Taken x | Performed x _ _ =>
    entries q !! slot x = Some (Some (request x)) ∧ rstate (request x) = InProgress
  end.

(** What a delivery returns for the run of its request. *)
Definition delivery_ok (h : list Event) (id : Z) (r : res Error unit)
    (o o' : option (list byte)) : Prop :=
  ∃ op l d d', (id, (op, l, d)) ∈ submitted h ∧ (id, (op, l, d, r, d')) ∈ ran h ∧
    o' = if is_ok r then (λ _, d') <$> o else o.

Record io_ok (q : Queue) (w : Worker) (h : list Event) : Prop := {
  io_next : next_id q = 1 + Z.of_nat (length (submitted h));
  io_ids : ∀ id x, (id, x) ∈ submitted h → 1 ≤ id < next_id q;
  io_inj : ∀ i j a b, entries q !! i = Some (Some a) → entries q !! j = Some (Some b) →
    rid a = rid b → i = j;
  io_entries : ∀ i r, entries q !! i = Some (Some r) → entry_ok h w i r;
  io_worker : worker_ok q w;
  io_submitted : NoDup (submitted h).*1;
  io_ran : NoDup (ran h).*1;
  io_ran_ids : ∀ id x, (id, x) ∈ ran h → ∃ y, (id, y) ∈ submitted h;
  io_delivered : NoDup (delivered h).*1;
  io_delivery : ∀ id r o o', (id, (r, o, o')) ∈ delivered h → delivery_ok h id r o o' }.

Lemma submitted_app h1 h2 : submitted (h1 ++ h2) = submitted h1 ++ submitted h2.
Proof. apply omap_app. Qed.
Lemma ran_app h1 h2 : ran (h1 ++ h2) = ran h1 ++ ran h2.
Proof. apply omap_app. Qed.
Lemma delivered_app h1 h2 : delivered (h1 ++ h2) = delivered h1 ++ delivered h2.
Proof. apply omap_app. Qed.

Lemma delivery_ok_app h h2 id r o o' : delivery_ok h id r o o' → delivery_ok (h ++ h2) id r o o'.
Proof.
  intros (op & l & d & d' & H1 & H2 & H3). exists op, l, d, d'.
  rewrite submitted_app, ran_app, !elem_of_app. auto.
Qed.

(** An event that concerns another request leaves an entry's life as it was. *)
Lemma entry_ok_app h ev w i r :
  entry_ok h w i r → rid r ∉ (ran ev).*1 → rid r ∉ (delivered ev).*1 → entry_ok (h ++ ev) w i r.
Proof.
  intros (d0 & Hs & Hd & Hst) Hr Hd'. exists d0.
  rewrite submitted_app, delivered_app, ran_app, !fmap_app. split_and!.
  - apply elem_of_app. by left.
  - by intros [|]%elem_of_app.
  - destruct (rstate r); [destruct Hst as [-> Hst]|destruct Hst as [-> Hst]|].
    + split; [done|]. by intros [|]%elem_of_app.
    + split; [done|]. destruct Hst as [[-> Hn]|(res & d & -> & Hin)]; [left|right].
      * split; [done|]. by intros [|]%elem_of_app.
      * exists res, d. split; [done|]. apply elem_of_app. by left.
    + apply elem_of_app. by left.
Qed.

(** Only an entry in progress depends on the worker. *)
Lemma entry_ok_worker h w w' i r : entry_ok h w i r → rstate r ≠ InProgress → entry_ok h w' i r.
Proof. intros (d0 & Hs & Hd & Hst) Hne. exists d0. split_and!; [done..|]. by destruct (rstate r). Qed.

Lemma lookup_new i r : entries new !! i = Some (Some r) → False.
Proof. intros [? _]%lookup_replicate_1. done. Qed.

Lemma io_ok_new : io_ok new Idle [].
Proof.
  split; cbn [submitted ran delivered]; try done; try constructor.
  all: intros; try (by exfalso; eapply lookup_new).
  all: match goal with H : _ ∈ _ |- _ => by apply not_elem_of_nil in H end.
Qed.

(** At most the worker's own entry is in progress. *)
Lemma in_progress_worker q w h i r : io_ok q w h → entries q !! i = Some (Some r) →
  rstate r = InProgress →
  match w with Idle => False | Taken x | Performed x _ _ => x = mkWork i r end.
Proof.
  intros Hio Hi Hst. destruct (io_entries _ _ _ Hio i r Hi) as (d0 & _ & _ & H). rewrite Hst in H.
  destruct H as (_ & [[-> _]|(res & d & -> & _)]); done.
Qed.

Lemma fresh_id q w h : io_ok q w h →
  next_id q ∉ (submitted h).*1 ∧ next_id q ∉ (ran h).*1 ∧ next_id q ∉ (delivered h).*1 ∧
  ∀ i r, entries q !! i = Some (Some r) → rid r ≠ next_id q.
Proof.
  intros Hio. assert (Hs : next_id q ∉ (submitted h).*1).
  { intros ([id x] & Heq & Hin)%list_elem_of_fmap. simpl in Heq. subst id.
    destruct (io_ids _ _ _ Hio _ _ Hin). lia. }
  split_and!; [done| | |].
  - intros ([id x] & Heq & Hin)%list_elem_of_fmap. simpl in Heq. subst id.
    destruct (io_ran_ids _ _ _ Hio _ _ Hin) as [y Hy]. apply Hs.
    apply list_elem_of_fmap. by exists (next_id q, y).
  - intros ([id [[r o] o']] & Heq & Hin)%list_elem_of_fmap. simpl in Heq. subst id.
    destruct (io_delivery _ _ _ Hio _ _ _ _ Hin) as (op & l & d & d' & Hy & _). apply Hs.
    apply list_elem_of_fmap. by exists (next_id q, (op, l, d)).
  - intros i r Hi Heq. destruct (io_entries _ _ _ Hio i r Hi) as (d0 & Hin & _). rewrite Heq in Hin.
    destruct (io_ids _ _ _ Hio _ _ Hin). lia.
Qed.

Lemma submit_ok q w h op l d id q' :
  io_ok q w h → push op l d q = (Some id, q') →
  Z.of_nat (length (submitted h)) + 2 < 2 ^ 64 → io_ok q' w (h ++ [ESubmit id op l d]).
Proof.
  intros Hio. unfold push. destruct (position _ _) as [i|] eqn:Hp; [|done].
  apply position_Some_1 in Hp as ([r0|] & Hi & Hf); [done|]. intros [= <- <-] Hlt.
  destruct (fresh_id q w h Hio) as (Hfs & Hfr & Hfd & Hfe). destruct Hio as [Hn Hids Hinj Hen Hw Hns Hnr Hri Hnd Hdel].
  assert (Hnext : Z.max (wrapping_add 64 (next_id q) 1) 1 = next_id q + 1).
  { unfold wrapping_add, wrap. rewrite Z.mod_small by lia. lia. }
  rewrite Hnext. split; rewrite ?submitted_app, ?ran_app, ?delivered_app, ?app_nil_r; cbn [next_id entries].
  - rewrite length_app, Hn. simpl. lia.
  - intros id x [Hin|[= -> ->]%list_elem_of_singleton]%elem_of_app; [|lia].
    destruct (Hids _ _ Hin). lia.
  - intros j k a b Ha Hb Hab. apply list_lookup_insert_Some in Ha as [(<- & [= <-] & _)|[? Ha]],
      Hb as [(<- & [= <-] & _)|[? Hb]]; [done| | |by eapply Hinj].
    + by destruct (Hfe _ _ Hb).
    + by destruct (Hfe _ _ Ha).
  - intros j r [(<- & [= <-] & _)|[? Hj]]%list_lookup_insert_Some.
    + exists d. rewrite submitted_app, ran_app, delivered_app, !app_nil_r. simpl.
      split_and!; [apply elem_of_app; right; by apply list_elem_of_singleton|done|done|done].
    + apply entry_ok_app; [by apply Hen|apply not_elem_of_nil..].
  - assert (Hne : ∀ x, entries q !! slot x = Some (Some (request x)) →
      <[i:=Some (pending (next_id q) op l d)]> (entries q) !! slot x = Some (Some (request x))).
    { intros x Hx. rewrite list_lookup_insert_ne; [done|]. intros ->. congruence. }
    destruct w; simpl in *; [done|..]; (destruct Hw as [Hw1 Hw2]; split; [by apply Hne|done]).
  - rewrite fmap_app. apply NoDup_app. split_and!; [done| |apply NoDup_singleton].
    intros x Hx ->%list_elem_of_singleton. done.
  - done.
  - intros id x Hin. destruct (Hri id x Hin) as [y Hy]. exists y. apply elem_of_app. by left.
  - done.
  - intros. apply delivery_ok_app. by apply Hdel.
Qed.

Lemma take_ok q h w q' : io_ok q Idle h → take_pending q = (Some w, q') → io_ok q' (Taken w) h.
Proof.
  intros Hio. unfold take_pending. destruct (position _ _) as [i|] eqn:Hp; [|done].
  apply position_Some_1 in Hp as ([r|] & Hi & Hst); [|done]. rewrite Hi. intros [= <- <-].
  apply bool_decide_eq_true_1 in Hst.
  pose proof (λ j r, in_progress_worker q Idle h j r Hio) as Hidle.
  destruct Hio as [Hn Hids Hinj Hen Hw Hns Hnr Hri Hnd Hdel].
  split; cbn [next_id entries]; try done.
  - intros j k a b Ha Hb Hab. apply list_lookup_insert_Some in Ha as [(<- & [= <-] & _)|[? Ha]],
      Hb as [(<- & [= <-] & _)|[? Hb]]; [done|..]; by eapply Hinj.
  - intros j x [(<- & [= <-] & _)|[? Hj]]%list_lookup_insert_Some.
    + destruct (Hen i r Hi) as (d0 & Hs & Hd & H). rewrite Hst in H. destruct H as [Hdat Hr].
      exists d0. simpl. split_and!; [done..|]. left. done.
    + eapply entry_ok_worker; [by apply Hen|]. intros E. by apply (Hidle j x).
  - simpl. split; [|done]. apply list_lookup_insert_eq. by eapply lookup_lt_Some.
Qed.

Lemma run_ok q h w r d : io_ok q (Taken w) h →
  io_ok q (Performed w r d)
    (h ++ [ERun (rid (request w)) (operation (request w)) (lba (request w)) (rdata (request w)) r d]).
Proof.
  intros Hio. pose proof (λ j r, in_progress_worker q (Taken w) h j r Hio) as Hprog.
  destruct Hio as [Hn Hids Hinj Hen [Hw Hws] Hns Hnr Hri Hnd Hdel].
  destruct (Hen _ _ Hw) as (d0 & Hs & Hd & H). rewrite Hws in H. destruct H as (<- & [[_ Hnot]|(?&?&?&_)]); [|done].
  split; rewrite ?submitted_app, ?ran_app, ?delivered_app, ?app_nil_r; try done.
  - intros j x Hj. destruct (decide (j = slot w)) as [->|Hne].
    + assert (x = request w) as -> by congruence. exists (rdata (request w)).
      rewrite submitted_app, ran_app, delivered_app, !app_nil_r, Hws.
      split_and!; [done..|]. right. exists r, d. split; [by destruct w|].
      apply elem_of_app. right. by apply list_elem_of_singleton.
    + apply entry_ok_app; [|simpl|apply not_elem_of_nil].
      * eapply entry_ok_worker; [by apply Hen|]. intros E. specialize (Hprog j x Hj E). simpl in Hprog. by subst w.
      * intros E%list_elem_of_singleton. destruct Hne. by eapply Hinj.
  - rewrite fmap_app. apply NoDup_app. split_and!; [done| |apply NoDup_singleton].
    intros x Hx ->%list_elem_of_singleton. done.
  - intros id x [Hin|[= -> ->]%list_elem_of_singleton]%elem_of_app; [by apply (Hri id x)|eauto].
  - intros. apply delivery_ok_app. by apply Hdel.
Qed.

Lemma finish_ok q h w r d : io_ok q (Performed w r d) h →
  io_ok (finish (slot w) (rid (request w)) r d q) Idle h.
Proof.
  intros Hio. pose proof (λ j r', in_progress_worker q (Performed w r d) h j r' Hio) as Hprog.
  destruct Hio as [Hn Hids Hinj Hen [Hw Hws] Hns Hnr Hri Hnd Hdel].
  unfold finish. rewrite Hw, Z.eqb_refl, bool_decide_eq_true_2 by done. cbn [andb].
  split; cbn [next_id entries]; try done.
  - intros j k a b Ha Hb Hab. apply list_lookup_insert_Some in Ha as [(<- & [= <-] & _)|[? Ha]],
      Hb as [(<- & [= <-] & _)|[? Hb]]; [done|..]; by eapply Hinj.
  - intros j x [(<- & [= <-] & _)|[? Hj]]%list_lookup_insert_Some.
    + destruct (Hen _ _ Hw) as (d0 & Hs & Hd & H). rewrite Hws in H.
      destruct H as (_ & [[? _]|(res & d' & [= _ <- <-] & Hin)]); [done|].
      exists d0. simpl. done.
    + eapply entry_ok_worker; [by apply Hen|]. intros E. specialize (Hprog j x Hj E). simpl in Hprog. by subst w.
Qed.

(** What [take_result] hands over, and from which slot. *)
Lemma take_result_Some id o q r o' q' : take_result id o q = (Some r, o', q') → r ≠ Panic →
  ∃ i x, entries q !! i = Some (Some x) ∧ rid x = id ∧ rstate x = Complete ∧ r = result x ∧
    o' = (if is_ok r then (λ _, rdata x) <$> o else o) ∧
    q' = mkQueue (<[i := None]> (entries q)) (next_id q).
Proof.
  unfold take_result. destruct (position _ _) as [i|] eqn:Hp; [|done].
  apply position_Some_1 in Hp as ([x|] & Hi & Hx); [|done]. rewrite Hi. simpl in Hx.
  apply andb_true_iff in Hx as [<-%Z.eqb_eq Hst%bool_decide_eq_true_1].
  unfold deliver. destruct (is_ok (result x)) eqn:Hok.
  - destruct o as [out|].
    + destruct (Nat.eqb _ _); intros [= <- <- <-] ?; [|done]. exists i, x. rewrite Hok. done.
    + intros [= <- <- <-] _. exists i, x. rewrite Hok. done.
  - intros [= <- <- <-] _. exists i, x. rewrite Hok. done.
Qed.

Lemma deliver_ok q w h id o r o' q' : io_ok q w h →
  take_result id o q = (Some r, o', q') → r ≠ Panic → io_ok q' w (h ++ [EDeliver id r o o']).
Proof.
  intros Hio Htr Hnp. destruct (take_result_Some _ _ _ _ _ _ Htr Hnp) as (i & x & Hi & <- & Hst & -> & -> & ->).
  destruct Hio as [Hn Hids Hinj Hen Hw Hns Hnr Hri Hnd Hdel].
  destruct (Hen i x Hi) as (d0 & Hs & Hd & Hran). rewrite Hst in Hran.
  split; cbn [next_id entries]; rewrite ?submitted_app, ?ran_app, ?delivered_app, ?app_nil_r; try done.
  - intros j k a b Ha Hb. apply list_lookup_insert_Some in Ha as [(_ & ? & _)|[? Ha]]; [done|].
    apply list_lookup_insert_Some in Hb as [(_ & ? & _)|[? Hb]]; [done|]. by apply Hinj.
  - intros j y Hj. apply list_lookup_insert_Some in Hj as [(_ & ? & _)|[Hne Hj]]; [done|].
    apply entry_ok_app; [by apply Hen|apply not_elem_of_nil|].
    intros E%list_elem_of_singleton. apply Hne. by eapply Hinj.
  - assert (Hkeep : ∀ y, entries q !! slot y = Some (Some (request y)) → rstate (request y) = InProgress →
      <[i:=None]> (entries q) !! slot y = Some (Some (request y))).
    { intros y Hy Hp. rewrite list_lookup_insert_ne; [done|]. intros ->. congruence. }
    destruct w; simpl in *; [done|..]; (destruct Hw as [Hw1 Hw2]; split; [by apply Hkeep|done]).
  - rewrite fmap_app. apply NoDup_app. split_and!; [done| |apply NoDup_singleton].
    intros y Hy ->%list_elem_of_singleton. done.
  - intros id r o1 o1' [Hin|[= -> -> -> ->]%list_elem_of_singleton]%elem_of_app;
      [apply delivery_ok_app; by apply Hdel|].
    apply delivery_ok_app. by exists (operation x), (lba x), d0, (rdata x).
Qed.

Section exactly_once.
Context {D : Type} `{BlockDevice D}.

Lemma step_ok (s s' : Sys D) ev h : io_ok (queue s) (worker s) h → step s ev s' →
  Z.of_nat (length (submitted (h ++ ev))) + 1 < 2 ^ 64 → io_ok (queue s') (worker s') (h ++ ev).
Proof.
  intros Hio Hs Hlt. destruct Hs; simpl in *; rewrite ?app_nil_r.
  - eapply submit_ok; [done..|]. rewrite submitted_app, length_app in Hlt. simpl in Hlt. lia.
  - unfold push in *. destruct (position _ _); simplify_eq. done.
  - by eapply take_ok.
  - by apply run_ok.
  - by apply finish_ok.
  - destruct Hio as [Hn Hids Hinj Hen Hw Hns Hnr Hri Hnd Hdel].
    split; rewrite ?submitted_app, ?ran_app, ?delivered_app, ?app_nil_r; try done.
    + intros. apply entry_ok_app; [by apply Hen|apply not_elem_of_nil..].
    + intros. apply delivery_ok_app. by apply Hdel.
  - by eapply deliver_ok.
  - done.
Qed.

Lemma exec_io_ok (k0 : option D) s h : exec k0 s h →
  Z.of_nat (length (submitted h)) + 1 < 2 ^ 64 → io_ok (queue s) (worker s) h.
Proof.
  induction 1 as [|s h ev s' _ IH Hs]; intros Hlt; [apply io_ok_new|].
  eapply step_ok; [apply IH|done|done]. rewrite submitted_app, length_app in Hlt. lia.
Qed.
End exactly_once.

(** C34: the block I/O queue performs each request exactly once and delivers its
    own result.  Along every interleaving of submitting, polling and
    direct-access clients with the worker (with fewer than 2^64 - 1
    submissions, so that ids do not repeat): request ids are distinct; no
    request is performed twice or delivered twice; a delivered reply belongs to
    a submitted request, carries the result of its run and, for a successful
    read into a buffer, the data of that run; and replaying the disk
    operations in the order they ran reproduces every result and the disk. *)
Theorem block_io_exactly_once {D} `{BlockDevice D} (k0 : option D) (s : Sys D) h :
  exec k0 s h → Z.of_nat (length (submitted h)) + 1 < 2 ^ 64 →
  NoDup (submitted h).*1 ∧ NoDup (ran h).*1 ∧ NoDup (delivered h).*1 ∧
  (∀ id r o o', (id, (r, o, o')) ∈ delivered h → delivery_ok h id r o o') ∧
  replay h k0 = Some (disk s).
Proof.
  intros He Hlt. destruct (exec_io_ok k0 s h He Hlt).
  split_and!; [done..|]. by apply exec_replay.
Qed.

(** the device loop used by the tests and the worker's loop on the primary
    disk agree: serving one request through [process_one_primary] is serving
    it through [drive_one]. *)
Theorem process_one_is_drive_one {D} `{BlockDevice D} (q : Queue) (dev : D) :
  process_one_primary q (Some dev) =
    let '(b, q', dev') := drive_one q dev in (b, q', Some dev').
Proof.
  unfold process_one_primary, drive_one. destruct (take_pending q) as [[w|] q1]; [|done].
  unfold run_request, perform, direct_primary.
  destruct (operation (request w)); [destruct (read_sector _ _ _) as [[??]?]
    |destruct (write_sector _ _ _)|destruct (flush _)]; done.
Qed.

(** a queued request succeeds through one round of the worker: on an idle
    queue, submitting a request, one worker round and one poll return exactly
    what performing the request on the disk returns, and free the slot. *)
Theorem queued_request_is_direct {D} `{BlockDevice D} op l d (dev : D) r d' dev' out :
  length out = length d' →
  perform op l d dev = (r, d', dev') → r ≠ Panic →
  ∃ id q1 q2, push op l d new = (Some id, q1) ∧ drive_one q1 dev = (true, q2, dev') ∧
    take_result id (Some out) q2 =
      (Some r, Some (if is_ok r then d' else out), mkQueue (entries new) (next_id q1)).
Proof.
  intros Hout Hp Hnp.
  eexists _, _, _. split; [reflexivity|]. split.
  - unfold drive_one. simpl. rewrite Hp. reflexivity.
  - unfold take_result. simpl. unfold deliver. simpl.
    destruct r as [[]|e|]; simpl; [rewrite Hout, Nat.eqb_refl|..]; done.
Qed.

(** A request is submitted, taken, performed, finished and delivered. *)
Lemma exec_one_request : ∃ (s : Sys RamDisk) h,
  exec (Some (ramdisk_new 1)) s h ∧ submitted h = [(1, (Flush, 0, []))] ∧
  delivered h = [(1, (Ok tt, None, None))].
Proof.
  pose proof (exec_init (Some (ramdisk_new 1))) as E.
  pose proof (exec_step _ _ _ _ _ E
    (step_submit new Idle (Some (ramdisk_new 1)) Flush 0 [] _ _ eq_refl)) as E1.
  match type of E1 with exec _ (mkSys ?q _ ?k) _ =>
    pose proof (exec_step _ _ _ _ _ E1 (step_take q k _ _ eq_refl)) as E2 end.
  match type of E2 with exec _ (mkSys ?q (Taken ?w) ?k) _ =>
    pose proof (exec_step _ _ _ _ _ E2 (step_run q k w _ _ _ eq_refl)) as E3 end.
  pose proof (exec_step _ _ _ _ _ E3 (step_finish _ _ _ _ _)) as E4.
  assert (Hne : Ok (E := Error) tt ≠ Panic) by discriminate.
  match type of E4 with exec _ (mkSys ?q ?w ?k) _ =>
    pose proof (exec_step _ _ _ _ _ E4 (step_deliver q w k 1 None _ _ _ eq_refl Hne)) as E5 end.
  eexists _, _. split; [exact E5|]. split; reflexivity.
Qed.

Lemma block_io_exactly_once_witness : ∃ (s : Sys RamDisk) h,
  exec (Some (ramdisk_new 1)) s h ∧ NoDup (ran h).*1 ∧ delivery_ok h 1 (Ok tt) None None.
Proof.
  destruct exec_one_request as (s & h & He & Hs & Hd).
  assert (Hlt : Z.of_nat (length (submitted h)) + 1 < 2 ^ 64) by (rewrite Hs; reflexivity).
  destruct (block_io_exactly_once _ s h He Hlt) as (_ & Hr & _ & Hdel & _).
  exists s, h. split; [exact He|]. split; [exact Hr|]. apply Hdel. rewrite Hd. left.
Defined.

Lemma queued_request_witness :
  ∃ id q1 q2, push Flush 0 [] new = (Some id, q1) ∧
    drive_one q1 (ramdisk_new 1) = (true, q2, ramdisk_new 1) ∧
    take_result id (Some []) q2 = (Some (Ok tt), Some [], mkQueue (entries new) (next_id q1)).
Proof.
  assert (Hne : Ok (E := Error) tt ≠ Panic) by discriminate.
  exact (queued_request_is_direct Flush 0 [] (ramdisk_new 1) (Ok tt) [] (ramdisk_new 1) []
    eq_refl eq_refl Hne).
Defined.
