(* ===== verification/Swap.v ===== *)
(** * Swapped pages (kernel/src/swap.rs)

    Reference-counted page slots with generation-tagged handles, kept in RAM or
    on a block device.  The refinement: the slots, reservations and disk
    sectors implement a partial map from live handles to (page, count), under
    interleaved allocations whose disk writes run outside the lock. *)
From stdpp Require Import gmap.
From S2P Require Import Prelude Config Block.

Definition PAGE_SIZE : nat := Z.to_nat 4096.
Definition SECTORS_PER_PAGE : nat := 8.
Lemma page_sectors : PAGE_SIZE = (SECTORS_PER_PAGE * SECTOR_SIZE)%nat.
Proof. vm_compute. reflexivity. Qed.
#[global] Opaque PAGE_SIZE.

Record Handle := mkHandle { hindex : N; hgeneration : Z }.
#[export] Instance Handle_eq_dec : EqDecision Handle.
Proof. solve_decision. Defined.
Definition index (h : Handle) : nat := N.to_nat (hindex h).
(** [Handle { index: index as u16, generation }] *)
Definition handle (i : nat) (g : Z) : Handle := mkHandle (Z.to_N (wrap 16 (Z.of_nat i))) g.

Inductive Backing := Ram | Disk.
#[export] Instance Backing_eq_dec : EqDecision Backing.
Proof. solve_decision. Defined.

Record Slot := mkSlot {
  data : list byte; refcount : Z; generation : Z; occupied : bool; backing : Backing }.

Definition slot_empty : Slot := mkSlot (replicate PAGE_SIZE x00) 0 0 false Ram.
Definition clear (s : Slot) : Slot :=
  mkSlot (data slot_empty) (refcount slot_empty) (generation s) (occupied slot_empty)
    (backing slot_empty).

Record DiskBacking := mkBacking { start_lba : Z; dslots : nat }.
Record State := mkState { slots : list Slot; disk : option DiskBacking }.

Definition new : State := mkState (replicate MAX_SWAP_SLOTS slot_empty) None.

Definition used (st : State) : nat := count (λ s, occupied s && (0 <? refcount s)) (slots st).

Definition configure_disk (start sectors : Z) (st : State) : option nat * State :=
  if negb (Nat.eqb (used st) 0) || (sectors <? Z.of_nat SECTORS_PER_PAGE) then (None, st)
  else
    let n := Nat.min MAX_SWAP_SLOTS (Z.to_nat (sectors / Z.of_nat SECTORS_PER_PAGE)) in
    if Nat.eqb n 0 then (None, st)
    else (Some n, mkState (slots st) (Some (mkBacking start n))).

Definition free_slot (st : State) : option nat := position (λ s, negb (occupied s)) (slots st).

Definition disk_lba (i : nat) (st : State) : option Z :=
  d ← disk st;
  if Nat.leb (dslots d) i then None
  else (m ← checked_mul 64 (Z.of_nat i) (Z.of_nat SECTORS_PER_PAGE); checked_add 64 (start_lba d) m).

Definition next_generation (s : Slot) : Z :=
  let g := wrapping_add 16 (generation s) 1 in if g =? 0 then 1 else g.

Definition set_slot (i : nat) (s : Slot) (st : State) : State :=
  mkState (<[i := s]> (slots st)) (disk st).

(** [occupy] of an index [free_slot] returned; [index as u16] truncates. *)
Definition occupy (i : nat) (s : Slot) (b : Backing) (bytes : option (list byte)) (st : State)
    : Handle * State :=
  let g := next_generation s in
  let d := match bytes with Some x => x | None => data (clear s) end in
  (handle i g, set_slot i (mkSlot d 1 g true b) st).

Definition reserve_disk (st : State) : option (nat * Z * Z) * State :=
  match free_slot st with
  | None => (None, st)
  | Some i =>
    match disk_lba i st, slots st !! i with
    | Some l, Some s =>
      let g := next_generation s in
      (Some (i, g, l), set_slot i (mkSlot (data (clear s)) 0 g true Disk) st)
    | _, _ => (None, st)
    end
  end.

Definition publish_reserved_disk (i : nat) (g : Z) (st : State) : option Handle * State :=
  match slots st !! i with
  | None => (None, st)
  | Some s =>
    if negb (occupied s) || negb (refcount s =? 0) || negb (generation s =? g) then (None, st)
    else (Some (handle i g),
          set_slot i (mkSlot (data s) 1 (generation s) (occupied s) Disk) st)
  end.

Definition cancel_reserved (i : nat) (g : Z) (st : State) : State :=
  match slots st !! i with
  | None => st
  | Some s => if occupied s && (refcount s =? 0) && (generation s =? g)
              then set_slot i (clear s) st else st
  end.

Definition allocate_ram (bytes : list byte) (st : State) : option Handle * State :=
  match free_slot st with
  | None => (None, st)
  | Some i =>
    match slots st !! i with
    | Some s => let '(h, st) := occupy i s Ram (Some bytes) st in (Some h, st)
    | None => (None, st)
    end
  end.

Definition get (h : Handle) (st : State) : option Slot :=
  s ← slots st !! index h;
  if occupied s && (0 <? refcount s) && (generation s =? hgeneration h) then Some s else None.

(** [Some] page when the caller's buffer was filled and [true] returned. *)
Definition read_ram (h : Handle) (st : State) : option (list byte) :=
  s ← get h st; if bool_decide (backing s = Ram) then Some (data s) else None.

Definition disk_read_lba (h : Handle) (st : State) : option Z :=
  s ← get h st; if bool_decide (backing s = Disk) then disk_lba (index h) st else None.

Definition share (h : Handle) (st : State) : bool * State :=
  match get h st with
  | None => (false, st)
  | Some s =>
    match checked_add 16 (refcount s) 1 with
    | None => (false, st)
    | Some rc => (true, set_slot (index h) (mkSlot (data s) rc (generation s) (occupied s) (backing s)) st)
    end
  end.

Definition release (h : Handle) (st : State) : bool * State :=
  match get h st with
  | None => (false, st)
  | Some s =>
    let rc := saturating_sub (refcount s) 1 in
    let s := mkSlot (data s) rc (generation s) (occupied s) (backing s) in
    (true, set_slot (index h) (if rc =? 0 then clear s else s) st)
  end.

Record Stats := mkStats { st_used : nat; ram_used : nat; disk_used : nat; disk_slots : nat }.

Definition stats (st : State) : Stats :=
  let live := List.filter (λ s, occupied s && (0 <? refcount s)) (slots st) in
  mkStats (length live) (count (λ s, bool_decide (backing s = Ram)) live)
    (count (λ s, bool_decide (backing s = Disk)) live)
    (match disk st with Some d => dslots d | None => 0%nat end).

Section devices.
Context {D : Type} `{BlockDevice D}.

(** The loops over the sectors of a page. *)
Fixpoint write_sectors (sectors : list nat) (start : Z) (page : list byte) (d : D)
    : res Error unit * D :=
  match sectors with
  | [] => (Ok tt, d)
  | k :: sectors =>
    match checked_add 64 start (Z.of_nat k) with
    | None => (Err OutOfBounds, d)
    | Some l =>
      match write_sector l (slice page (k * SECTOR_SIZE) SECTOR_SIZE) d with
      | (Ok _, d) => write_sectors sectors start page d
      | (Err e, d) => (Err e, d)
      | (Panic, d) => (Panic, d)
      end
    end
  end.
Definition write_page_to_device (start : Z) (page : list byte) (d : D) : res Error unit * D :=
  write_sectors (seq 0 SECTORS_PER_PAGE) start page d.

Fixpoint read_sectors (sectors : list nat) (start : Z) (page : list byte) (d : D)
    : res Error unit * list byte * D :=
  match sectors with
  | [] => (Ok tt, page, d)
  | k :: sectors =>
    match checked_add 64 start (Z.of_nat k) with
    | None => (Err OutOfBounds, page, d)
    | Some l =>
      let '(r, s, d) := read_sector l (slice page (k * SECTOR_SIZE) SECTOR_SIZE) d in
      let page := splice page (k * SECTOR_SIZE) s in
      match r with
      | Ok _ => read_sectors sectors start page d
      | Err e => (Err e, page, d)
      | Panic => (Panic, page, d)
      end
    end
  end.
Definition read_page_from_device (start : Z) (page : list byte) (d : D)
    : res Error unit * list byte * D :=
  read_sectors (seq 0 SECTORS_PER_PAGE) start page d.

(** [write_page_to_device(..).is_ok() && device.flush().is_ok()] *)
Definition write_and_flush (start : Z) (page : list byte) (d : D) : bool * D :=
  match write_page_to_device start page d with
  | (Ok _, d) => let '(r, d) := flush d in (is_ok r, d)
  | (_, d) => (false, d)
  end.

Definition allocate_disk (page : list byte) (st : State) (d : D) : option Handle * State * D :=
  match reserve_disk st with
  | (None, st) => (None, st, d)
  | (Some (i, g, l), st) =>
    let '(ok, d) := write_and_flush l page d in
    if ok : bool then let '(h, st) := publish_reserved_disk i g st in (h, st, d)
    else (None, cancel_reserved i g st, d)
  end.

Definition read_disk (h : Handle) (page : list byte) (st : State) (d : D) : bool * list byte * D :=
  match disk_read_lba h st with
  | None => (false, page, d)
  | Some l => let '(r, page, d) := read_page_from_device l page d in (is_ok r, page, d)
  end.

(** The module's entry points; [dev] is the primary disk, if present. *)
Definition allocate_page (page : list byte) (st : State) (dev : option D)
    : option Handle * State * option D :=
  match reserve_disk st with
  | (Some (i, g, l), st) =>
    let '(wrote, dev) := match dev with
      | Some d => let '(ok, d) := write_and_flush l page d in (ok, Some d)
      | None => (false, None) end in
    let '(published, st) := if wrote : bool then publish_reserved_disk i g st else (None, st) in
    match published with
    | Some h => (Some h, st, dev)
    | None => let '(h, st) := allocate_ram page (cancel_reserved i g st) in (h, st, dev)
    end
  | (None, st) => let '(h, st) := allocate_ram page st in (h, st, dev)
  end.

Definition read_page (h : Handle) (page : list byte) (st : State) (dev : option D)
    : bool * list byte * option D :=
  match read_ram h st with
  | Some x => (true, x, dev)
  | None =>
    match disk_read_lba h st, dev with
    | Some l, Some d => let '(r, page, d) := read_page_from_device l page d in (is_ok r, page, Some d)
    | _, _ => (false, page, dev)
    end
  end.
End devices.

Definition self_test : bool :=
  let first := (λ i, z_byte (Z.of_nat i * 3 + 7)) <$> seq 0 PAGE_SIZE in
  let second := (λ i, z_byte (255 - Z.of_nat i)) <$> seq 0 PAGE_SIZE in
  let zero := replicate PAGE_SIZE x00 in
  let eq (a b : list byte) := bool_decide (a = b) in
  let '(c, st) := configure_disk 8 (Z.of_nat SECTORS_PER_PAGE * 2) new in
  match allocate_disk first st (ramdisk_new 32) with
  | (Some h1, st, d) =>
    match allocate_disk second st d with
    | (Some h2, st, d) =>
      let '(none, st, d) := allocate_disk first st d in
      let '(b1, out1, d) := read_disk h1 zero st d in
      let '(b2, st) := share h1 st in
      let '(b3, st) := release h1 st in
      let '(b4, out4, d) := read_disk h1 zero st d in
      let '(b5, st) := release h1 st in
      let '(b6, out6, d) := read_disk h1 out4 st d in
      match allocate_disk second st d with
      | (Some reused, st, d) =>
        let '(b7, _, d) := read_disk h1 out6 st d in
        let '(b8, st) := release h2 st in
        let '(b9, st) := release reused st in
        match allocate_ram first new with
        | (Some hr, rs) =>
          let '(b10, _) := release hr rs in
          let '(fail, st', _) := allocate_disk first st (set_read_only true d) in
          bool_decide (c = Some 2%nat) && bool_decide (none = None) && b1 && eq out1 first
          && b2 && b3 && b4 && eq out4 first && b5 && negb b6 && negb (bool_decide (reused = h1))
          && negb b7 && b8 && b9 && Nat.eqb (used st) 0
          && match read_ram hr rs with Some x => eq x first | None => false end && b10
          && bool_decide (fail = None) && Nat.eqb (used st') 0
        | _ => false
        end
      | _ => false
      end
    | _ => false
    end
  | _ => false
  end.

Example swap_self_test : self_test = true.
Proof. vm_compute. reflexivity. Qed.

(** ** Pages on the device *)

Section pages.
Context {D : Type} `{BlockDeviceLaws D}.

(** The page stored at the sectors from [l]. *)
Definition page_at (d : D) (l : Z) : list byte :=
  concat ((λ k, dev_view d (l + Z.of_nat k)) <$> seq 0 SECTORS_PER_PAGE).

Lemma concat_slices (page : list byte) n a :
  length page = ((a + n) * SECTOR_SIZE)%nat →
  concat ((λ k, slice page (k * SECTOR_SIZE) SECTOR_SIZE) <$> seq a n) = drop (a * SECTOR_SIZE) page.
Proof.
  revert a. induction n as [|n IH]; intros a Hl; simpl.
  { symmetry. apply drop_ge. lia. }
  rewrite IH by lia. unfold slice.
  replace (S a * SECTOR_SIZE)%nat with (a * SECTOR_SIZE + SECTOR_SIZE)%nat by lia.
  rewrite <-drop_drop. apply take_drop.
Qed.

Lemma page_slices (page : list byte) : length page = PAGE_SIZE →
  concat ((λ k, slice page (k * SECTOR_SIZE) SECTOR_SIZE) <$> seq 0 SECTORS_PER_PAGE) = page.
Proof. intros Hl. rewrite concat_slices, drop_0; [done|]. by rewrite Hl, page_sectors. Qed.

Lemma write_sectors_spec ks start page (d : D) r d' :
  dev_ok d → 0 ≤ start → NoDup ks → write_sectors ks start page d = (r, d') →
  dev_ok d' ∧ (∀ l, (∀ k, k ∈ ks → l ≠ start + Z.of_nat k) → dev_view d' l = dev_view d l) ∧
  r ≠ Panic ∧
  (r = Ok tt → ∀ k, k ∈ ks →
     dev_view d' (start + Z.of_nat k) = slice page (k * SECTOR_SIZE) SECTOR_SIZE).
Proof.
  intros Hok Hs Hnd. revert d Hok. induction Hnd as [|k ks Hk Hnd IH]; intros d Hok; cbn [write_sectors].
  { intros [= <- <-]. split_and!; [done..|]. intros _ k Hk. by apply not_elem_of_nil in Hk. }
  destruct (checked_add 64 start (Z.of_nat k)) as [l|] eqn:El.
  2: { intros [= <- <-]. done. }
  apply checked_add_Some in El as [-> _].
  destruct (write_sector _ _ d) as [r1 d1] eqn:Ew.
  assert (Hpos : 0 ≤ start + Z.of_nat k) by lia.
  pose proof (write_law d _ _ r1 d1 Hok Hpos Ew) as (Hok1 & _ & _ & Hw).
  destruct r1 as [[]|e|]; [|intros [= <- <-]|done].
  - destruct Hw as (_ & _ & _ & Hv). intros Hrun. destruct (IH d1 Hok1 Hrun) as (Hok' & Hfr & Hnp & Hin).
    split_and!; [done| |done|].
    + intros l Hl. rewrite Hfr by (intros; apply Hl; by apply list_elem_of_further).
      rewrite Hv. apply decide_False. apply Hl. apply list_elem_of_here.
    + intros Hr k' [->|Hk']%elem_of_cons; [|by apply Hin].
      rewrite Hfr by (intros k2 Hk2 E; apply Hk; assert (k = k2) as -> by lia; done).
      rewrite Hv. by apply decide_True.
  - split_and!; [done| |done|done]. intros l Hl. apply Hw. apply Hl, list_elem_of_here.
Qed.

Lemma write_and_flush_spec start page (d : D) b d' :
  dev_ok d → 0 ≤ start → length page = PAGE_SIZE → write_and_flush start page d = (b, d') →
  dev_ok d' ∧ (∀ l, (l < start ∨ start + Z.of_nat SECTORS_PER_PAGE ≤ l) → dev_view d' l = dev_view d l) ∧
  (b = true → page_at d' start = page).
Proof.
  intros Hok Hs Hl. unfold write_and_flush, write_page_to_device.
  destruct (write_sectors _ start page d) as [r d1] eqn:Ew.
  destruct (write_sectors_spec _ _ _ _ _ _ Hok Hs (NoDup_seq _ _) Ew) as (Hok1 & Hfr & Hnp & Hin).
  assert (Hframe : ∀ l, (l < start ∨ start + Z.of_nat SECTORS_PER_PAGE ≤ l) → dev_view d1 l = dev_view d l).
  { intros l Hout. apply Hfr. intros k [_ Hk]%elem_of_seq. lia. }
  destruct r as [[]|e|]; [|by intros [= <- <-]|done].
  destruct (flush d1) as [rf d2] eqn:Ef. intros [= <- <-].
  destruct (flush_law d1 rf d2 Hok1 Ef) as [(Hok2 & _ & _ & Hv) _].
  split_and!; [done|intros; rewrite Hv; by apply Hframe|].
  intros _. rewrite <-(page_slices page) by done. unfold page_at. f_equal.
  apply list_fmap_ext. intros i k Hk. rewrite Hv. apply Hin; [done|]. by eapply list_elem_of_lookup_2.
Qed.

Lemma read_sectors_spec ks start page (d : D) r page' d' :
  dev_ok d → 0 ≤ start → NoDup ks → length page = PAGE_SIZE →
  (∀ k, k ∈ ks → (k < SECTORS_PER_PAGE)%nat) →
  read_sectors ks start page d = (r, page', d') →
  d ≃ d' ∧ length page' = PAGE_SIZE ∧ r ≠ Panic ∧
  (∀ j, j ∉ ks → slice page' (j * SECTOR_SIZE) SECTOR_SIZE = slice page (j * SECTOR_SIZE) SECTOR_SIZE) ∧
  (r = Ok tt → ∀ k, k ∈ ks →
     slice page' (k * SECTOR_SIZE) SECTOR_SIZE = dev_view d (start + Z.of_nat k)).
Proof.
  intros Hok Hs Hnd. revert d page Hok.
  induction Hnd as [|k ks Hk Hnd IH]; intros d page Hok Hl Hin; cbn [read_sectors].
  { intros [= <- <- <-]. split_and!; [by split|done..|]. intros _ k Hk. by apply not_elem_of_nil in Hk. }
  destruct (checked_add 64 start (Z.of_nat k)) as [l|] eqn:El.
  2: { intros [= <- <- <-]. split_and!; [by split|done..]. }
  apply checked_add_Some in El as [-> _].
  assert (Hks : (k < SECTORS_PER_PAGE)%nat) by (apply Hin, list_elem_of_here).
  assert (Hfit : (k * SECTOR_SIZE + SECTOR_SIZE ≤ length page)%nat) by (rewrite Hl, page_sectors; nia).
  destruct (read_sector _ _ d) as [[r1 s1] d1] eqn:Er.
  assert (Hpos : 0 ≤ start + Z.of_nat k) by lia.
  pose proof (read_equiv d _ _ _ _ _ Hok Hpos Er) as Hd1.
  pose proof (read_law d _ _ r1 s1 d1 Hok Hpos Er) as (Hsame & Hls & Hr).
  rewrite length_slice in Hls by lia.
  assert (Hl1 : length (splice page (k * SECTOR_SIZE) s1) = PAGE_SIZE) by (rewrite length_splice; lia).
  assert (Hother : ∀ j, j ≠ k → slice (splice page (k * SECTOR_SIZE) s1) (j * SECTOR_SIZE) SECTOR_SIZE
    = slice page (j * SECTOR_SIZE) SECTOR_SIZE).
  { intros j Hj. apply slice_splice_disjoint; [lia|]. rewrite Hls. nia. }
  destruct r1 as [[]|e|]; [|intros [= <- <- <-]|done].
  - destruct Hr as (_ & _ & ->). destruct Hsame as (Hok1 & _ & _ & Hv). intros Hrun.
    assert (Hin' : ∀ k', k' ∈ ks → (k' < SECTORS_PER_PAGE)%nat)
      by (intros; apply Hin; by apply list_elem_of_further).
    destruct (IH d1 _ Hok1 Hl1 Hin' Hrun)
      as (Hd2 & Hl2 & Hnp & Hout & Hget).
    split_and!; [by etrans|done|done| |].
    + intros j [Hj1 Hj2]%not_elem_of_cons. rewrite Hout by done. by apply Hother.
    + intros Hr k' [->|Hk']%elem_of_cons.
      * rewrite Hout by done. 
        pose proof (slice_splice_same page (k * SECTOR_SIZE) (dev_view d (start + Z.of_nat k))) as E.
        rewrite Hls in E. apply E. lia.
      * rewrite Hget by done. apply Hv.
  - split_and!; [done|done|done| |done]. intros j [Hj _]%not_elem_of_cons. by apply Hother.
Qed.

Lemma read_page_spec start page (d : D) r page' d' :
  dev_ok d → 0 ≤ start → length page = PAGE_SIZE →
  read_page_from_device start page d = (r, page', d') →
  d ≃ d' ∧ length page' = PAGE_SIZE ∧ r ≠ Panic ∧ (r = Ok tt → page' = page_at d start).
Proof.
  intros Hok Hs Hl Hr.
  assert (Hin : ∀ k, k ∈ seq 0 SECTORS_PER_PAGE → (k < SECTORS_PER_PAGE)%nat)
    by (intros k [_ Hk]%elem_of_seq; lia).
  destruct (read_sectors_spec _ _ _ _ _ _ _ Hok Hs (NoDup_seq 0 SECTORS_PER_PAGE) Hl Hin Hr)
    as (Hd & Hl' & Hnp & _ & Hget).
  split_and!; [done..|]. intros Hok'. rewrite <-(page_slices page') by done. unfold page_at. f_equal.
  apply list_fmap_ext. intros i k Hk. apply Hget; [done|]. by eapply list_elem_of_lookup_2.
Qed.

Lemma page_at_equiv (d d' : D) l : d ≃ d' → page_at d' l = page_at d l.
Proof.
  intros (_ & _ & _ & _ & Hv). unfold page_at. f_equal. apply list_fmap_ext. intros. apply Hv.
Qed.

Lemma page_at_frame (d d' : D) l start :
  (∀ x, (x < start ∨ start + Z.of_nat SECTORS_PER_PAGE ≤ x) → dev_view d' x = dev_view d x) →
  (l + Z.of_nat SECTORS_PER_PAGE ≤ start ∨ start + Z.of_nat SECTORS_PER_PAGE ≤ l) →
  page_at d' l = page_at d l.
Proof.
  intros Hv Hl. unfold page_at. f_equal. apply list_fmap_ext.
  intros i k [-> Hk]%lookup_seq. apply Hv. lia.
Qed.
End pages.

(** ** Interleaved executions *)

(** A disk allocation between its locked sections. *)
Inductive Status := Reserved | Written | Failed.
Record Reservation := mkReservation {
  pi : nat; pgen : Z; plba : Z; pbytes : list byte; pstatus : Status }.
Definition set_status (x : Status) (r : Reservation) : Reservation :=
  mkReservation (pi r) (pgen r) (plba r) (pbytes r) x.

Inductive Label :=
| LTau
| LReserve
| LAlloc (page : list byte) (h : Handle)
| LShare (h : Handle) (ok : bool)
| LRelease (h : Handle) (ok : bool)
| LRead (h : Handle) (ok : bool) (page : list byte).

Section system.
Context {D : Type} `{BlockDeviceLaws D}.

Record Sys := mkSys { st : State; dev : option D; pend : gmap nat Reservation }.

(** The locked sections of [allocate_page] and its disk write in between, and
    the other calls, as steps that threads take in any order. *)
Inductive step : Sys → Label → Sys → Prop :=
| s_reserve s k p t b i g l t' :
    p !! t = None → length b = PAGE_SIZE → reserve_disk s = (Some (i, g, l), t') →
    step (mkSys s k p) LReserve (mkSys t' k (<[t := mkReservation i g l b Reserved]> p))
| s_write s d p t r ok d' :
    p !! t = Some r → pstatus r = Reserved → write_and_flush (plba r) (pbytes r) d = (ok, d') →
    step (mkSys s (Some d) p) LTau
      (mkSys s (Some d') (<[t := set_status (if ok : bool then Written else Failed) r]> p))
| s_absent s p t r :
    p !! t = Some r → pstatus r = Reserved →
    step (mkSys s None p) LTau (mkSys s None (<[t := set_status Failed r]> p))
| s_publish s k p t r h t' :
    p !! t = Some r → pstatus r = Written →
    publish_reserved_disk (pi r) (pgen r) s = (Some h, t') →
    step (mkSys s k p) (LAlloc (pbytes r) h) (mkSys t' k (delete t p))
| s_publish_none s k p t r t' :
    p !! t = Some r → pstatus r = Written →
    publish_reserved_disk (pi r) (pgen r) s = (None, t') →
    step (mkSys s k p) LTau (mkSys t' k (<[t := set_status Failed r]> p))
| s_cancel s k p t r :
    p !! t = Some r → pstatus r = Failed →
    step (mkSys s k p) LTau (mkSys (cancel_reserved (pi r) (pgen r) s) k (delete t p))
| s_ram s k p b h t' :
    length b = PAGE_SIZE → allocate_ram b s = (Some h, t') →
    step (mkSys s k p) (LAlloc b h) (mkSys t' k p)
| s_ram_full s k p b t' :
    allocate_ram b s = (None, t') → step (mkSys s k p) LTau (mkSys t' k p)
| s_share s k p h ok t' :
    share h s = (ok, t') → step (mkSys s k p) (LShare h ok) (mkSys t' k p)
| s_release s k p h ok t' :
    release h s = (ok, t') → step (mkSys s k p) (LRelease h ok) (mkSys t' k p)
| s_read s k p h page ok page' k' :
    length page = PAGE_SIZE → read_page h page s k = (ok, page', k') →
    step (mkSys s k p) (LRead h ok page') (mkSys s k' p).

(** ** What handles denote *)

Definition content (s : Sys) (i : nat) (x : Slot) : list byte :=
  match backing x with
  | Ram => data x
  | Disk => match disk_lba i (st s), dev s with Some l, Some d => page_at d l | _, _ => [] end
  end.

Definition live (s : Sys) (h : Handle) : option (list byte * Z) :=
  x ← get h (st s); Some (content s (index h) x, refcount x).

Definition pages := Handle → option (list byte * Z).

(** The abstract pages: what each labelled step may do. *)
Definition spec_step (l : Label) (m m' : pages) : Prop :=
  match l with
  | LTau | LReserve => ∀ h, m' h = m h
  | LAlloc b h => m h = None ∧ m' h = Some (b, 1) ∧ ∀ h', h' ≠ h → m' h' = m h'
  | LShare h ok =>
    match m h with
    | Some (b, n) => if ok then m' h = Some (b, n + 1) ∧ ∀ h', h' ≠ h → m' h' = m h'
                     else n = 2 ^ 16 - 1 ∧ ∀ h, m' h = m h
    | None => ok = false ∧ ∀ h, m' h = m h
    end
  | LRelease h ok =>
    match m h with
    | Some (b, n) => ok = true ∧ m' h = (if decide (n = 1) then None else Some (b, n - 1)) ∧
                     ∀ h', h' ≠ h → m' h' = m h'
    | None => ok = false ∧ ∀ h, m' h = m h
    end
  | LRead h ok page =>
    (∀ h, m' h = m h) ∧ match m h with Some (b, _) => ok = true → page = b | None => ok = false end
  end.

Inductive exec (st0 : State) (k0 : option D) : Sys → list Label → Prop :=
| exec_init : exec st0 k0 (mkSys st0 k0 ∅) []
| exec_step s tr l s' : exec st0 k0 s tr → step s l s' → exec st0 k0 s' (tr ++ [l]).

Inductive spec_exec : pages → list Label → Prop :=
| spec_init m : (∀ h, m h = None) → spec_exec m []
| spec_next m tr l m' : spec_exec m tr → spec_step l m m' → spec_exec m' (tr ++ [l]).

(** ** The invariant *)

Record slot_ok (x : Slot) : Prop := {
  slot_data : length (data x) = PAGE_SIZE;
  slot_rc : 0 ≤ refcount x < 2 ^ 16;
  slot_free : occupied x = false → refcount x = 0 }.

Definition resv_ok (s : Sys) (r : Reservation) : Prop :=
  ∃ x, slots (st s) !! pi r = Some x ∧ occupied x = true ∧ refcount x = 0 ∧
    generation x = pgen r ∧ disk_lba (pi r) (st s) = Some (plba r) ∧
    length (pbytes r) = PAGE_SIZE ∧
    (pstatus r = Written → ∃ d, dev s = Some d ∧ page_at d (plba r) = pbytes r).

Record sys_ok (s : Sys) : Prop := {
  sys_len : length (slots (st s)) = MAX_SWAP_SLOTS;
  sys_slots : Forall slot_ok (slots (st s));
  sys_start : ∀ d, disk (st s) = Some d → 0 ≤ start_lba d;
  sys_dev : ∀ d, dev s = Some d → dev_ok d;
  sys_resv : ∀ t r, pend s !! t = Some r → resv_ok s r;
  sys_inj : ∀ t t' r r', pend s !! t = Some r → pend s !! t' = Some r' → pi r = pi r' → t = t';
  sys_disk : ∀ i x, slots (st s) !! i = Some x → 0 < refcount x → backing x = Disk →
    is_Some (disk_lba i (st s)) ∧ is_Some (dev s) }.

Lemma disk_lba_Some i s l : disk_lba i s = Some l →
  ∃ d, disk s = Some d ∧ l = start_lba d + Z.of_nat i * Z.of_nat SECTORS_PER_PAGE.
Proof.
  unfold disk_lba. intros (d & Hd & Hl)%bind_Some. exists d. split; [done|].
  destruct (Nat.leb _ _); [done|]. apply bind_Some in Hl as (m & [-> _]%checked_mul_Some & Hl).
  by apply checked_add_Some in Hl as [-> _].
Qed.

(** Different slots have disjoint sectors. *)
Lemma disk_lba_disjoint i j s l l' : disk_lba i s = Some l → disk_lba j s = Some l' → i ≠ j →
  l + Z.of_nat SECTORS_PER_PAGE ≤ l' ∨ l' + Z.of_nat SECTORS_PER_PAGE ≤ l.
Proof.
  intros (d & Hd & ->)%disk_lba_Some (d' & Hd' & ->)%disk_lba_Some Hij. simplify_eq. nia.
Qed.

Lemma disk_lba_pos i s l : (∀ d, disk s = Some d → 0 ≤ start_lba d) → disk_lba i s = Some l → 0 ≤ l.
Proof. intros Hs (d & Hd & ->)%disk_lba_Some. specialize (Hs d Hd). lia. Qed.

Lemma get_Some h s x : get h s = Some x ↔
  slots s !! index h = Some x ∧ occupied x = true ∧ 0 < refcount x ∧ generation x = hgeneration h.
Proof.
  unfold get. rewrite bind_Some. split.
  - intros (y & Hy & Hg). destruct (_ && _) eqn:E; simplify_eq. open_guards. done.
  - intros (Hy & Ho & Hr & Hg). exists x. split; [done|]. rewrite Ho, Hg, Z.eqb_refl.
    apply Z.ltb_lt in Hr as ->. done.
Qed.

Lemma index_handle i g : (i < MAX_SWAP_SLOTS)%nat → index (handle i g) = i.
Proof.
  intros Hi. unfold index, handle, wrap, MAX_SWAP_SLOTS in *; simpl.
  rewrite Z.mod_small by lia. lia.
Qed.

Lemma handle_eta h : (index h < MAX_SWAP_SLOTS)%nat → h = handle (index h) (hgeneration h).
Proof.
  destruct h as [i g]. unfold index, handle, wrap, MAX_SWAP_SLOTS; simpl. intros Hi. f_equal.
  rewrite Z.mod_small by lia. lia.
Qed.

(** ** Stores into a slot *)

Lemma lookup_set_slot i j x (s : State) : (i < length (slots s))%nat →
  slots (set_slot i x s) !! j = if decide (i = j) then Some x else slots s !! j.
Proof.
  intros Hi. simpl. rewrite list_lookup_insert. destruct (decide (i = j)) as [<-|].
  - by rewrite decide_True.
  - by rewrite decide_False by naive_solver.
Qed.

Lemma live_same s s' k p p' h :
  slots s' !! index h = slots s !! index h → disk s' = disk s →
  live (mkSys s' k p') h = live (mkSys s k p) h.
Proof. intros Hs Hd. unfold live, get, content, disk_lba. simpl. by rewrite Hs, Hd. Qed.

Lemma live_store_ne s k p p' i x h :
  index h ≠ i → live (mkSys (set_slot i x s) k p') h = live (mkSys s k p) h.
Proof. intros Hne. apply live_same; [|done]. simpl. by rewrite list_lookup_insert_ne. Qed.

Lemma live_dead s h x : slots (st s) !! index h = Some x → refcount x = 0 → live s h = None.
Proof.
  intros Hx Hr. unfold live. destruct (get h (st s)) as [y|] eqn:E; [|done].
  apply get_Some in E as (? & _ & ? & _). simplify_eq. lia.
Qed.

(** A store between two dead slots changes no live handle. *)
Lemma live_store_dead s k p p' i x y h :
  slots s !! i = Some x → refcount x = 0 → refcount y = 0 →
  live (mkSys (set_slot i y s) k p') h = live (mkSys s k p) h.
Proof.
  intros Hx Hrx Hry. destruct (decide (index h = i)) as [<-|]; [|by apply live_store_ne].
  rewrite (live_dead (mkSys s k p) h x) by done.
  apply (live_dead (mkSys _ k p') h y); [|done]. simpl.
  apply list_lookup_insert_eq. by eapply lookup_lt_Some.
Qed.

Lemma resv_ok_store s k p p' i x r :
  resv_ok (mkSys s k p) r → pi r ≠ i → resv_ok (mkSys (set_slot i x s) k p') r.
Proof.
  intros (y & Hy & Hr) Hne. exists y. split; [|done]. simpl. by rewrite list_lookup_insert_ne by done.
Qed.

(** The invariant after a store in slot [i]. *)
Lemma sys_ok_store s k p p' i x x' :
  sys_ok (mkSys s k p) → slots s !! i = Some x → slot_ok x' →
  (0 < refcount x' → backing x' = Disk → is_Some (disk_lba i s) ∧ is_Some k) →
  (∀ t r, p' !! t = Some r → resv_ok (mkSys (set_slot i x' s) k p') r) →
  (∀ t t' r r', p' !! t = Some r → p' !! t' = Some r' → pi r = pi r' → t = t') →
  sys_ok (mkSys (set_slot i x' s) k p').
Proof.
  intros [Hl Hs Hst Hd Hr Hi Hk] Hx Hx' Hdisk Hr' Hi'. simpl in *.
  split; simpl; [by rewrite length_insert|by apply Forall_insert|done..|].
  intros j y [(<- & <- & _)|[_ Hj]]%list_lookup_insert_Some; [by apply Hdisk|by apply Hk].
Qed.

(** The same reservations, for a store in a slot that none of them holds. *)
Lemma sys_ok_store_same s k p i x x' :
  sys_ok (mkSys s k p) → slots s !! i = Some x → (occupied x = false ∨ 0 < refcount x) → slot_ok x' →
  (0 < refcount x' → backing x' = Disk → is_Some (disk_lba i s) ∧ is_Some k) →
  sys_ok (mkSys (set_slot i x' s) k p).
Proof.
  intros Hok Hx Hfree Hx' Hdisk. eapply sys_ok_store; [done..| |by apply (sys_inj _ Hok)].
  intros t r Hr. apply (resv_ok_store s k p p); [by apply (sys_resv _ Hok t)|].
  intros <-. destruct (sys_resv _ Hok t r Hr) as (y & Hy & Ho & Hrc & _). simpl in Hy. simplify_eq.
  destruct Hfree; [congruence|lia].
Qed.

Lemma free_slot_Some s i : free_slot s = Some i → ∃ x, slots s !! i = Some x ∧ occupied x = false.
Proof. intros (x & Hx & Ho%negb_true_iff)%position_Some_1. eauto. Qed.

Lemma sys_slot s i x : sys_ok s → slots (st s) !! i = Some x → slot_ok x.
Proof. intros Hok. apply Forall_lookup_1, (sys_slots _ Hok). Qed.

Lemma clear_ok x : slot_ok (clear x).
Proof. split; simpl; [apply length_replicate|lia|done]. Qed.

Lemma sys_index s i x : sys_ok s → slots (st s) !! i = Some x → (i < MAX_SWAP_SLOTS)%nat.
Proof. intros Hok Hx. rewrite <-(sys_len _ Hok). by eapply lookup_lt_Some. Qed.

(** ** The steps *)

Lemma reserve_sim s k p t b i g l t' :
  sys_ok (mkSys s k p) → p !! t = None → length b = PAGE_SIZE → reserve_disk s = (Some (i, g, l), t') →
  let s' := mkSys t' k (<[t := mkReservation i g l b Reserved]> p) in
  sys_ok s' ∧ spec_step LReserve (live (mkSys s k p)) (live s').
Proof.
  intros Hok Ht Hb. unfold reserve_disk. destruct (free_slot s) as [j|] eqn:Hf; [|done].
  destruct (disk_lba j s) as [l0|] eqn:Hl; [|done]. destruct (slots s !! j) as [x|] eqn:Hx; [|done].
  intros [= <- <- <- <-]. apply free_slot_Some in Hf as (x' & Hx' & Hfree).
  assert (x' = x) as -> by congruence. clear Hx'.
  pose proof (slot_free x (sys_slot _ _ _ Hok Hx) Hfree) as Hrc.
  split; [|intros h; by eapply live_store_dead].
  assert (Hnone : ∀ t2 r2, p !! t2 = Some r2 → pi r2 ≠ j).
  { intros t2 r2 H2 <-. destruct (sys_resv _ Hok _ _ H2) as (y & Hy & Ho & _). simpl in Hy. congruence. }
  eapply sys_ok_store; [done|done| |simpl; lia| |].
  - split; simpl; [apply length_replicate|lia|done].
  - intros t2 r2 [[<- <-]|[Hne H2]]%lookup_insert_Some.
    + eexists. simpl. split; [apply list_lookup_insert_eq; by eapply lookup_lt_Some|]. by split_and!.
    + apply (resv_ok_store s k p); [by apply (sys_resv _ Hok t2)|by eapply Hnone].
  - intros t1 t2 r1 r2 [[<- <-]|[_ Hp1]]%lookup_insert_Some [[<- <-]|[_ Hp2]]%lookup_insert_Some Hpi; [done|..].
    + by destruct (Hnone _ _ Hp2).
    + by destruct (Hnone _ _ Hp1).
    + by apply (sys_inj _ Hok t1 t2 r1 r2).
Qed.

(** A status change that keeps the reservation's promise. *)
Lemma sys_ok_status s k k' p t r x :
  sys_ok (mkSys s k p) → p !! t = Some r →
  (∀ d, k' = Some d → dev_ok d) → (is_Some k → is_Some k') →
  (∀ t2 r2, p !! t2 = Some r2 → t2 ≠ t → resv_ok (mkSys s k p) r2 → resv_ok (mkSys s k' p) r2) →
  (x = Written → ∃ d, k' = Some d ∧ page_at d (plba r) = pbytes r) →
  sys_ok (mkSys s k' (<[t := set_status x r]> p)).
Proof.
  intros Hok Ht Hd Hk Hother Hx. destruct Hok as [Hl Hs Hst Hdv Hr Hi Hdk]. simpl in *.
  split; simpl; [done..| | |].
  - intros t2 r2 [[<- <-]|[Hne H2]]%lookup_insert_Some.
    + destruct (Hr t r Ht) as (y & Hy & Ho & Hrc & Hg & Hlb & Hb & _). exists y. by split_and!.
    + exact (Hother t2 r2 H2 (not_eq_sym Hne) (Hr t2 r2 H2)).
  - intros t1 t2 r1 r2 [[<- <-]|[_ Hp1]]%lookup_insert_Some [[<- <-]|[_ Hp2]]%lookup_insert_Some Hpi;
      [done| | |by eapply Hi].
    + by apply (Hi t t2 r r2).
    + by apply (Hi t1 t r1 r).
  - intros i y Hy Hrc Hb. destruct (Hdk i y Hy Hrc Hb). auto.
Qed.

(** Writing the sectors of a dead slot leaves every other page alone. *)
Lemma live_write s d d' p p' i x l h :
  sys_ok (mkSys s (Some d) p) → slots s !! i = Some x → refcount x = 0 → disk_lba i s = Some l →
  (∀ y, (y < l ∨ l + Z.of_nat SECTORS_PER_PAGE ≤ y) → dev_view d' y = dev_view d y) →
  live (mkSys s (Some d') p') h = live (mkSys s (Some d) p) h.
Proof.
  intros Hok Hx Hrc Hl Hv. unfold live. simpl. destruct (get h s) as [y|] eqn:Hy; [|done]. simpl.
  do 2 f_equal. unfold content. destruct (backing y); [done|]. simpl.
  destruct (disk_lba (index h) s) as [l'|] eqn:Hl'; [|done].
  eapply page_at_frame; [exact Hv|]. eapply disk_lba_disjoint; [done|done|].
  intros E. apply get_Some in Hy as (Hy & _ & Hpos & _). rewrite E in Hy. simplify_eq. lia.
Qed.

Lemma write_sim s d p t r ok d' :
  sys_ok (mkSys s (Some d) p) → p !! t = Some r → pstatus r = Reserved →
  write_and_flush (plba r) (pbytes r) d = (ok, d') →
  let s' := mkSys s (Some d') (<[t := set_status (if ok : bool then Written else Failed) r]> p) in
  sys_ok s' ∧ spec_step LTau (live (mkSys s (Some d) p)) (live s').
Proof.
  intros Hok Ht Hst Hw. destruct (sys_resv _ Hok t r Ht) as (x & Hx & Ho & Hrc & Hg & Hl & Hb & _).
  simpl in *. pose proof (disk_lba_pos _ _ _ (sys_start _ Hok) Hl) as Hpos.
  destruct (write_and_flush_spec _ _ _ _ _ (sys_dev _ Hok d eq_refl) Hpos Hb Hw) as (Hd' & Hv & Hpage).
  split; [|intros h; by eapply live_write].
  eapply sys_ok_status; [done|done|by intros ? [= <-]|eauto| |].
  - intros t2 r2 H2 Hne (y & Hy & Hyo & Hyr & Hyg & Hyl & Hyb & Hyw). exists y. split_and!; try done.
    intros E. destruct (Hyw E) as (d0 & [= <-] & Hp). exists d'. split; [done|]. rewrite <-Hp.
    eapply page_at_frame; [exact Hv|]. eapply disk_lba_disjoint; [done|done|].
    intros E2. apply Hne. by apply (sys_inj _ Hok t2 t r2 r).
  - destruct ok; [|done]. intros _. exists d'. auto.
Qed.

Lemma absent_sim s p t r :
  sys_ok (mkSys s None p) → p !! t = Some r →
  let s' := mkSys s None (<[t := set_status Failed r]> p) in
  sys_ok s' ∧ spec_step LTau (live (mkSys s None p)) (live s').
Proof.
  intros Hok Ht. split; [|intros h; by apply live_same].
  eapply sys_ok_status; [done|done|done|done| |done]. intros t2 r2 _ _ (y & Hy). by exists y.
Qed.

Lemma live_hit s h x : slots (st s) !! index h = Some x → occupied x = true → 0 < refcount x →
  generation x = hgeneration h → live s h = Some (content s (index h) x, refcount x).
Proof. intros ????. unfold live. assert (get h (st s) = Some x) as -> by by apply get_Some. done. Qed.

Lemma live_miss s h x : slots (st s) !! index h = Some x → generation x ≠ hgeneration h → live s h = None.
Proof.
  intros Hx Hg. unfold live. destruct (get h (st s)) as [y|] eqn:E; [|done].
  apply get_Some in E as (? & _ & _ & ?). simplify_eq.
Qed.

Lemma live_Some s h b n : live s h = Some (b, n) ↔
  ∃ x, get h (st s) = Some x ∧ b = content s (index h) x ∧ n = refcount x.
Proof. unfold live. rewrite bind_Some. naive_solver. Qed.

Lemma set_slot_lookup i x y s : slots s !! i = Some x → slots (set_slot i y s) !! i = Some y.
Proof. intros Hx. simpl. apply list_lookup_insert_eq. by eapply lookup_lt_Some. Qed.

(** Filling a dead slot creates exactly one handle. *)
Lemma live_publish s k p p' i x y b :
  sys_ok (mkSys s k p) → slots s !! i = Some x → refcount x = 0 → occupied y = true → refcount y = 1 →
  content (mkSys (set_slot i y s) k p') i y = b →
  let h := handle i (generation y) in
  spec_step (LAlloc b h) (live (mkSys s k p)) (live (mkSys (set_slot i y s) k p')).
Proof.
  intros Hok Hx Hrx Hoy Hry Hb h. pose proof (sys_index _ _ _ Hok Hx) as Hi.
  pose proof (set_slot_lookup i x y s Hx) as Hy.
  assert (index h = i) as Hh by by apply index_handle. split_and!.
  - eapply live_dead; [|done]. by rewrite Hh.
  - rewrite (live_hit _ h y) by (rewrite ?Hh; done || lia). by rewrite Hh, Hb, Hry.
  - intros h' Hne. destruct (decide (index h' = i)) as [E|]; [|by apply live_store_ne].
    rewrite (live_dead (mkSys s k p) h' x) by (rewrite ?E; done).
    apply (live_miss _ h' y); [by rewrite E|]. intros Hg. apply Hne.
    unfold h. rewrite Hg, <-E. apply handle_eta. by rewrite E.
Qed.

Lemma publish_sim s k p t r h t' :
  sys_ok (mkSys s k p) → p !! t = Some r → pstatus r = Written →
  publish_reserved_disk (pi r) (pgen r) s = (Some h, t') →
  let s' := mkSys t' k (delete t p) in
  sys_ok s' ∧ spec_step (LAlloc (pbytes r) h) (live (mkSys s k p)) (live s').
Proof.
  intros Hok Ht Hst. destruct (sys_resv _ Hok t r Ht) as (x & Hx & Ho & Hrc & Hg & Hl & Hb & Hw).
  destruct (Hw Hst) as (d & Hd & Hpage). simpl in *. unfold publish_reserved_disk. rewrite Hx.
  destruct (_ || _); [done|]. intros [= <- <-].
  set (y := mkSlot (data x) 1 (generation x) (occupied x) Disk).
  pose proof (sys_slot _ _ _ Hok Hx) as [Hdata _ _]. split.
  - eapply sys_ok_store; [done|done| |by rewrite Hl, Hd| |].
    + split; simpl; [done|lia|congruence].
    + intros t2 r2 [Hne H2]%lookup_delete_Some. apply (resv_ok_store s k p); [by apply (sys_resv _ Hok t2)|].
      intros E. apply Hne. symmetry. by apply (sys_inj _ Hok t2 t r2 r).
    + intros t1 t2 r1 r2 [_ Hp1]%lookup_delete_Some [_ Hp2]%lookup_delete_Some.
      by apply (sys_inj _ Hok t1 t2 r1 r2).
  - rewrite <-Hg. change (generation x) with (generation y). eapply live_publish; try done.
    unfold content. simpl. change (disk_lba (pi r) (set_slot (pi r) y s)) with (disk_lba (pi r) s).
    by rewrite Hl, Hd.
Qed.

(** A written reservation is always published. *)
Lemma publish_succeeds s k p t r :
  sys_ok (mkSys s k p) → p !! t = Some r →
  (publish_reserved_disk (pi r) (pgen r) s).1 ≠ None.
Proof.
  intros Hok Ht. destruct (sys_resv _ Hok t r Ht) as (x & Hx & Ho & Hrc & Hg & _). simpl in Hx.
  unfold publish_reserved_disk. rewrite Hx, Ho, Hrc, Hg. simpl. by rewrite Z.eqb_refl.
Qed.

Lemma cancel_sim s k p t r :
  sys_ok (mkSys s k p) → p !! t = Some r →
  let s' := mkSys (cancel_reserved (pi r) (pgen r) s) k (delete t p) in
  sys_ok s' ∧ spec_step LTau (live (mkSys s k p)) (live s').
Proof.
  intros Hok Ht. destruct (sys_resv _ Hok t r Ht) as (x & Hx & Ho & Hrc & Hg & Hl & Hb & _).
  simpl in *. unfold cancel_reserved. rewrite Hx, Ho, Hrc, Hg. simpl. rewrite Z.eqb_refl.
  split; [|intros h; by eapply live_store_dead].
  eapply sys_ok_store; [done|done|apply clear_ok|simpl; lia| |].
  - intros t2 r2 [Hne H2]%lookup_delete_Some. apply (resv_ok_store s k p); [by apply (sys_resv _ Hok t2)|].
    intros E. apply Hne. symmetry. by apply (sys_inj _ Hok t2 t r2 r).
  - intros t1 t2 r1 r2 [_ Hp1]%lookup_delete_Some [_ Hp2]%lookup_delete_Some.
    by apply (sys_inj _ Hok t1 t2 r1 r2).
Qed.

Lemma ram_sim s k p b h t' :
  sys_ok (mkSys s k p) → length b = PAGE_SIZE → allocate_ram b s = (Some h, t') →
  let s' := mkSys t' k p in
  sys_ok s' ∧ spec_step (LAlloc b h) (live (mkSys s k p)) (live s').
Proof.
  intros Hok Hb. unfold allocate_ram. destruct (free_slot s) as [i|] eqn:Hf; [|done].
  apply free_slot_Some in Hf as (x & Hx & Hfree). rewrite Hx. unfold occupy. intros [= <- <-].
  set (y := mkSlot b 1 (next_generation x) true Ram). split.
  - eapply sys_ok_store_same; [done|done|by left| |done]. split; simpl; [done|lia|done].
  - change (next_generation x) with (generation y). eapply live_publish; try done.
    exact (slot_free x (sys_slot _ _ _ Hok Hx) Hfree).
Qed.

(** A count update of a live slot concerns its own handle only. *)
Lemma live_update s k p h x y :
  get h s = Some x → generation y = generation x →
  ∀ h', h' ≠ h → (index h < MAX_SWAP_SLOTS)%nat →
  live (mkSys (set_slot (index h) y s) k p) h' = live (mkSys s k p) h'.
Proof.
  intros (Hx & Ho & Hr & Hg)%get_Some Hgy h' Hne Hi.
  destruct (decide (index h' = index h)) as [E|]; [|by apply live_store_ne].
  assert (hgeneration h' ≠ hgeneration h).
  { intros E2. apply Hne. rewrite (handle_eta h'), (handle_eta h), E, E2 by (by rewrite ?E). done. }
  rewrite (live_miss (mkSys s k p) h' x); [|by rewrite E|congruence].
  apply (live_miss _ h' y); [rewrite E; by eapply set_slot_lookup|congruence].
Qed.

Lemma share_sim s k p h ok t' :
  sys_ok (mkSys s k p) → share h s = (ok, t') →
  let s' := mkSys t' k p in
  sys_ok s' ∧ spec_step (LShare h ok) (live (mkSys s k p)) (live s').
Proof.
  intros Hok. unfold share. cbn [spec_step]. destruct (get h s) as [x|] eqn:Hget.
  2: { intros [= <- <-]. split; [done|]. unfold live; simpl. by rewrite Hget. }
  pose proof Hget as (Hx & Ho & Hr & Hg)%get_Some. pose proof (sys_slot _ _ _ Hok Hx) as [Hdata Hrc _].
  rewrite (live_hit (mkSys s k p) h x) by done. destruct (checked_add 16 (refcount x) 1) as [rc|] eqn:Erc.
  - apply checked_add_Some in Erc as [-> Hlt]. intros [= <- <-].
    set (y := mkSlot (data x) (refcount x + 1) (generation x) (occupied x) (backing x)). split.
    + eapply sys_ok_store_same; [done|done|by right| |].
      * split; simpl; [done|lia|congruence].
      * intros _ Hbk. by apply (sys_disk _ Hok _ _ Hx).
    + split; [|intros h' Hne; eapply live_update; [done..|by eapply sys_index]].
      rewrite (live_hit _ h y); [done|by eapply set_slot_lookup|done|simpl; lia|done].
  - apply checked_add_None in Erc. intros [= <- <-]. split; [done|]. split; [lia|done].
Qed.

Lemma release_sim s k p h ok t' :
  sys_ok (mkSys s k p) → release h s = (ok, t') →
  let s' := mkSys t' k p in
  sys_ok s' ∧ spec_step (LRelease h ok) (live (mkSys s k p)) (live s').
Proof.
  intros Hok. unfold release. cbn [spec_step]. destruct (get h s) as [x|] eqn:Hget.
  2: { intros [= <- <-]. split; [done|]. unfold live; simpl. by rewrite Hget. }
  pose proof Hget as (Hx & Ho & Hr & Hg)%get_Some. pose proof (sys_slot _ _ _ Hok Hx) as [Hdata Hrc _].
  rewrite (live_hit (mkSys s k p) h x) by done. intros [= <- <-].
  unfold saturating_sub. rewrite Z.max_l by lia.
  set (y0 := mkSlot (data x) (refcount x - 1) (generation x) (occupied x) (backing x)).
  destruct (Z.eqb_spec (refcount x - 1) 0) as [E|E].
  - split; [eapply sys_ok_store_same; [done|done|by right|apply clear_ok|simpl; lia]|].
    split_and!; [done| |intros h' Hne; eapply live_update; [done..|by eapply sys_index]].
    rewrite decide_True by lia. apply (live_dead _ h (clear y0)); [by eapply set_slot_lookup|done].
  - split.
    + eapply sys_ok_store_same; [done|done|by right| |].
      * split; simpl; [done|lia|congruence].
      * intros _ Hbk. by apply (sys_disk _ Hok _ _ Hx).
    + split_and!; [done| |intros h' Hne; eapply live_update; [done..|by eapply sys_index]].
      rewrite decide_False by lia.
      rewrite (live_hit _ h y0); [done|by eapply set_slot_lookup|done|simpl; lia|done].
Qed.

Lemma live_equiv s d d' p h : d ≃ d' → live (mkSys s (Some d') p) h = live (mkSys s (Some d) p) h.
Proof.
  intros Hd. unfold live, content; simpl. destruct (get h s) as [x|]; [|done]. simpl. do 2 f_equal.
  destruct (backing x); [done|]. destruct (disk_lba _ _); [|done]. by apply page_at_equiv.
Qed.

Lemma sys_ok_equiv s d d' p : d ≃ d' → sys_ok (mkSys s (Some d) p) → sys_ok (mkSys s (Some d') p).
Proof.
  intros Hd [Hl Hs Hst Hdv Hr Hi Hdk]. simpl in *. split; simpl; try done.
  - intros ? [= <-]. apply Hd.
  - intros t r Ht. destruct (Hr t r Ht) as (y & Hy & Ho & Hrc & Hg & Hlb & Hb & Hw).
    exists y. split_and!; try done. intros E. destruct (Hw E) as (d0 & [= <-] & <-).
    exists d'. split; [done|]. by apply page_at_equiv.
  - intros i x Hx Hrc Hb. destruct (Hdk i x Hx Hrc Hb). split; [done|by eexists].
Qed.

Lemma read_sim s k p h page ok page' k' :
  sys_ok (mkSys s k p) → length page = PAGE_SIZE → read_page h page s k = (ok, page', k') →
  let s' := mkSys s k' p in
  sys_ok s' ∧ spec_step (LRead h ok page') (live (mkSys s k p)) (live s').
Proof.
  intros Hok Hlen. unfold read_page, read_ram, disk_read_lba. cbn [spec_step].
  destruct (get h s) as [x|] eqn:Hget; simpl.
  2: { intros [= <- <- <-]. split; [done|]. split; [done|]. unfold live; simpl. by rewrite Hget. }
  pose proof Hget as (Hx & Ho & Hr & Hg)%get_Some.
  rewrite (live_hit (mkSys s k p) h x) by done. unfold content. simpl.
  destruct (backing x) eqn:Hb; simpl.
  { intros [= <- <- <-]. done. }
  destruct (disk_lba (index h) s) as [l|] eqn:Hl; [|by intros [= <- <- <-]].
  destruct k as [d|]; [|by intros [= <- <- <-]].
  destruct (read_page_from_device l page d) as [[r pg] d'] eqn:Er. intros [= <- <- <-].
  pose proof (disk_lba_pos _ _ _ (sys_start _ Hok) Hl) as Hpos.
  destruct (read_page_spec _ _ _ _ _ _ (sys_dev _ Hok d eq_refl) Hpos Hlen Er) as (Hd & _ & _ & Hpg).
  split; [by eapply sys_ok_equiv|]. split; [intros; by apply live_equiv|].
  intros E. apply Hpg. by destruct r as [[]| |].
Qed.

Lemma swap_step_sim s l s' :
  sys_ok s → step s l s' → sys_ok s' ∧ spec_step l (live s) (live s').
Proof.
  intros Hok Hs. destruct Hs.
  - by eapply reserve_sim.
  - by eapply write_sim.
  - by eapply absent_sim.
  - by eapply publish_sim.
  - exfalso. eapply publish_succeeds; [done..|]. by rewrite H3.
  - by eapply cancel_sim.
  - by eapply ram_sim.
  - unfold allocate_ram in *. destruct (free_slot _); [destruct (slots _ !! _)|]; simplify_eq; done.
  - by eapply share_sim.
  - by eapply release_sim.
  - by eapply read_sim.
Qed.

(** A configured state: nothing stored, the swap area at a nonnegative sector. *)
Lemma configured_ok start sectors (k0 : option D) :
  0 ≤ start → (∀ d, k0 = Some d → dev_ok d) → sys_ok (mkSys (configure_disk start sectors new).2 k0 ∅).
Proof.
  intros Hs Hd.
  assert (Hsl : slots (configure_disk start sectors new).2 = slots new).
  { unfold configure_disk. destruct (_ || _); [done|]. by destruct (Nat.eqb _ _). }
  assert (Hempty : Forall slot_ok (slots new)).
  { apply Forall_replicate. split; simpl; [apply length_replicate|lia|done]. }
  split; cbn [st dev pend]; rewrite ?Hsl; try done.
  - intros d. unfold configure_disk. destruct (_ || _); [done|]. destruct (Nat.eqb _ _); [done|].
    by intros [= <-].
  - intros i x [-> _]%lookup_replicate. simpl. lia.
Qed.

Lemma configured_live start sectors (k0 : option D) h :
  live (mkSys (configure_disk start sectors new).2 k0 ∅) h = None.
Proof.
  unfold live, get. cbn [st].
  assert (slots (configure_disk start sectors new).2 = slots new) as ->.
  { unfold configure_disk. destruct (_ || _); [done|]. by destruct (Nat.eqb _ _). }
  destruct (slots new !! index h) as [x|] eqn:E; [|done]. by apply lookup_replicate in E as [-> _].
Qed.
End system.
Arguments Sys : clear implicits.


(** ** Handles are not reused *)

(** The steps that advance a slot's generation, and the handles returned. *)
Definition bumps (tr : list Label) : nat :=
  count (λ l, match l with LReserve | LAlloc _ _ => true | _ => false end) tr.
Definition allocated (tr : list Label) : list Handle :=
  omap (λ l, match l with LAlloc _ h => Some h | _ => None end) tr.

Lemma bumps_app tr1 tr2 : bumps (tr1 ++ tr2) = (bumps tr1 + bumps tr2)%nat.
Proof. unfold bumps, count. by rewrite List.filter_app, length_app. Qed.
Lemma allocated_app tr1 tr2 : allocated (tr1 ++ tr2) = allocated tr1 ++ allocated tr2.
Proof. apply omap_app. Qed.

Lemma next_generation_spec x n : 0 ≤ generation x ≤ n → n < 2 ^ 16 - 1 →
  next_generation x = generation x + 1.
Proof.
  intros. unfold next_generation, wrapping_add, wrap. rewrite Z.mod_small by lia.
  destruct (Z.eqb_spec (generation x + 1) 0); lia.
Qed.

Section generations.
Context {D : Type} `{BlockDeviceLaws D}.
Implicit Types (s : Sys D).

Record gen_ok s (tr : list Label) : Prop := {
  g_range : ∀ i x, slots (st s) !! i = Some x → 0 ≤ generation x ≤ Z.of_nat (bumps tr);
  g_alloc : ∀ h, h ∈ allocated tr → ∃ x, slots (st s) !! index h = Some x ∧ hgeneration h ≤ generation x;
  g_pend : ∀ t r h, pend s !! t = Some r → h ∈ allocated tr → index h = pi r → hgeneration h < pgen r;
  g_nodup : NoDup (allocated tr) }.

(** Steps that change no generation and issue no handle. *)
Lemma gen_ok_keep s s' tr l :
  gen_ok s tr → bumps [l] = 0%nat → allocated [l] = [] →
  (∀ i, generation <$> slots (st s') !! i = generation <$> slots (st s) !! i) →
  (∀ t r, pend s' !! t = Some r → ∃ r0, pend s !! t = Some r0 ∧ pi r0 = pi r ∧ pgen r0 = pgen r) →
  gen_ok s' (tr ++ [l]).
Proof.
  intros [Hr Ha Hp Hn] Hb0 Ha0 Hg Hpend. split; rewrite ?bumps_app, ?allocated_app, ?Hb0, ?Ha0, ?app_nil_r.
  - intros i x Hx. specialize (Hg i). rewrite Hx in Hg. symmetry in Hg.
    apply fmap_Some in Hg as (y & Hy & Hgy). rewrite Hgy, Nat.add_0_r. by apply (Hr i).
  - intros h Hh. destruct (Ha h Hh) as (x & Hx & Hle). specialize (Hg (index h)). rewrite Hx in Hg.
    apply fmap_Some in Hg as (y & Hy & Hgy). exists y. split; [done|]. lia.
  - intros t r h Ht Hh Hi. destruct (Hpend t r Ht) as (r0 & Hr0 & Hpi & <-).
    apply (Hp t r0 h Hr0 Hh). congruence.
  - done.
Qed.

Lemma store_generation (s : State) i x y j : slots s !! i = Some x → generation y = generation x →
  generation <$> slots (set_slot i y s) !! j = generation <$> slots s !! j.
Proof.
  intros Hx Hg. simpl. destruct (decide (i = j)) as [<-|]; [|by rewrite list_lookup_insert_ne].
  rewrite list_lookup_insert_eq by (by eapply lookup_lt_Some). rewrite Hx. simpl. by rewrite Hg.
Qed.

(** A new generation of a slot is above every handle issued for it. *)
Lemma gen_ok_bump (s : State) k k' p p' tr i x y l :
  sys_ok (mkSys s k p) → gen_ok (mkSys s k p) tr → slots s !! i = Some x → occupied x = false →
  generation y = generation x + 1 → bumps [l] = 1%nat →
  (∀ h, h ∈ allocated [l] → h = handle i (generation y)) → (length (allocated [l]) ≤ 1)%nat →
  (∀ t r, p' !! t = Some r → p !! t = Some r ∨ pi r = i ∧ pgen r = generation y ∧ allocated [l] = []) →
  gen_ok (mkSys (set_slot i y s) k' p') (tr ++ [l]).
Proof.
  intros Hok [Hr Ha Hp Hn] Hx Hfree Hg Hb0 Hl Hl1 Hpend. cbn [st pend] in *.
  pose proof (sys_index _ _ _ Hok Hx) as Hi.
  assert (Hlt : (i < length (slots s))%nat) by by eapply lookup_lt_Some.
  assert (Hold : ∀ h, h ∈ allocated tr → index h = i → hgeneration h < generation y).
  { intros h Hh E. destruct (Ha h Hh) as (x' & Hx' & Hle). rewrite E in Hx'. simplify_eq. lia. }
  split; rewrite ?bumps_app, ?allocated_app, ?Hb0; cbn [st pend].
  - intros j z Hz. rewrite lookup_set_slot in Hz by done. destruct (decide (i = j)).
    + simplify_eq. destruct (Hr _ _ Hx). lia.
    + destruct (Hr _ _ Hz). lia.
  - intros h [Hh|Hh]%elem_of_app.
    + destruct (Ha h Hh) as (z & Hz & Hle). destruct (decide (i = index h)) as [E|].
      * exists y. rewrite lookup_set_slot, decide_True by done. split; [done|].
        specialize (Hold h Hh (eq_sym E)). lia.
      * exists z. by rewrite lookup_set_slot, decide_False by done.
    + rewrite (Hl h Hh), index_handle by done. exists y.
      rewrite lookup_set_slot, decide_True by done. done.
  - intros t r h Ht Hh Hih. destruct (Hpend t r Ht) as [Hr0|(Hpi & Hpg & Hnil)].
    + apply elem_of_app in Hh as [Hh|Hh]; [by eapply Hp|]. exfalso.
      rewrite (Hl h Hh), index_handle in Hih by done.
      destruct (sys_resv _ Hok t r Hr0) as (z & Hz & Hoz & _). simpl in Hz. rewrite <-Hih in Hz. congruence.
    + rewrite Hnil, app_nil_r in Hh. rewrite Hpg. apply Hold; [done|congruence].
  - apply NoDup_app. split_and!; [done| |].
    + intros h Hh Hh2. specialize (Hl h Hh2). subst h. specialize (Hold _ Hh (index_handle _ _ Hi)).
      simpl in Hold. lia.
    + destruct (allocated [l]) as [|h [|]]; simpl in *; [constructor|apply NoDup_singleton|lia].
Qed.

Lemma reserve_gen (s : State) k p t b i g l t' tr :
  sys_ok (mkSys s k p) → gen_ok (mkSys s k p) tr → Z.of_nat (bumps tr) < 2 ^ 16 - 1 →
  reserve_disk s = (Some (i, g, l), t') →
  gen_ok (mkSys t' k (<[t := mkReservation i g l b Reserved]> p)) (tr ++ [LReserve]).
Proof.
  intros Hok Hg Hlt. unfold reserve_disk. destruct (free_slot s) as [j|] eqn:Hf; [|done].
  destruct (disk_lba j s) as [l0|]; [|done]. destruct (slots s !! j) as [x|] eqn:Hx; [|done].
  intros [= <- <- <- <-]. apply free_slot_Some in Hf as (x' & Hx' & Hfree).
  assert (x' = x) as -> by congruence.
  apply (gen_ok_bump s k k p _ tr j x); try done; simpl.
  - eapply next_generation_spec; [by apply (g_range _ _ Hg j)|done].
  - intros h Hh. by apply not_elem_of_nil in Hh.
  - lia.
  - intros t2 r2 [[<- <-]|[_ H2]]%lookup_insert_Some; [by right|by left].
Qed.

Lemma ram_gen (s : State) k p b h t' tr :
  sys_ok (mkSys s k p) → gen_ok (mkSys s k p) tr → Z.of_nat (bumps tr) < 2 ^ 16 - 1 →
  allocate_ram b s = (Some h, t') → gen_ok (mkSys t' k p) (tr ++ [LAlloc b h]).
Proof.
  intros Hok Hg Hlt. unfold allocate_ram. destruct (free_slot s) as [i|] eqn:Hf; [|done].
  apply free_slot_Some in Hf as (x & Hx & Hfree). rewrite Hx. unfold occupy. intros [= <- <-].
  apply (gen_ok_bump s k k p _ tr i x); try done; simpl.
  - eapply next_generation_spec; [by apply (g_range _ _ Hg i)|done].
  - by intros h ->%list_elem_of_singleton.
  - intros t2 r2 H2. by left.
Qed.

Lemma publish_gen (s : State) k p t r h t' tr :
  sys_ok (mkSys s k p) → gen_ok (mkSys s k p) tr → p !! t = Some r →
  publish_reserved_disk (pi r) (pgen r) s = (Some h, t') →
  gen_ok (mkSys t' k (delete t p)) (tr ++ [LAlloc (pbytes r) h]).
Proof.
  intros Hok [Hr Ha Hp Hn] Ht. destruct (sys_resv _ Hok t r Ht) as (x & Hx & Ho & Hrc & Hg & _).
  simpl in *. unfold publish_reserved_disk. rewrite Hx. destruct (_ || _); [done|]. intros [= <- <-].
  pose proof (sys_index _ _ _ Hok Hx) as Hi.
  set (y := mkSlot (data x) 1 (generation x) (occupied x) Disk).
  pose proof (λ j, store_generation s (pi r) x y j Hx eq_refl) as Hgen.
  split; rewrite ?bumps_app, ?allocated_app; cbn [st pend].
  - intros j z Hz. specialize (Hgen j). rewrite Hz in Hgen. symmetry in Hgen.
    apply fmap_Some in Hgen as (z' & Hz' & Hgz). destruct (Hr _ _ Hz'). lia.
  - intros h [Hh| ->%list_elem_of_singleton]%elem_of_app.
    + destruct (Ha h Hh) as (z & Hz & Hle). specialize (Hgen (index h)). rewrite Hz in Hgen.
      apply fmap_Some in Hgen as (z' & Hz' & Hgz). exists z'. split; [done|]. lia.
    + rewrite index_handle by done. exists y. split; [by eapply set_slot_lookup|]. simpl. lia.
  - intros t2 r2 h [Hne H2]%lookup_delete_Some [Hh| ->%list_elem_of_singleton]%elem_of_app Hih.
    + by eapply Hp.
    + rewrite index_handle in Hih by done. destruct Hne. by apply (sys_inj _ Hok t t2 r r2).
  - apply NoDup_app. split_and!; [done| |apply NoDup_singleton].
    intros h Hh ->%list_elem_of_singleton.
    pose proof (Hp t r _ Ht Hh (index_handle _ _ Hi)) as Hbad. simpl in Hbad. lia.
Qed.

Lemma swap_step_generations s l s' tr :
  sys_ok s → gen_ok s tr → step s l s' → Z.of_nat (bumps tr) < 2 ^ 16 - 1 → gen_ok s' (tr ++ [l]).
Proof.
  intros Hok Hg Hs Hlt. destruct Hs as [s k p t b i g l t' _ _ Hres|s d p t r ok d' Ht _ _|s p t r Ht _
    |s k p t r h t' Ht _ Hpub|s k p t r t' Ht _ Hpub|s k p t r Ht _|s k p b h t' _ Hram|s k p b t' Hram
    |s k p h ok t' Hsh|s k p h ok t' Hrel|s k p h page ok page' k' _ _].
  - by eapply reserve_gen.
  - apply (gen_ok_keep _ _ _ _ Hg); [done..|]. simpl.
    intros t2 r2 [[<- <-]|[_ H2]]%lookup_insert_Some; [by exists r|by exists r2].
  - apply (gen_ok_keep _ _ _ _ Hg); [done..|]. simpl.
    intros t2 r2 [[<- <-]|[_ H2]]%lookup_insert_Some; [by exists r|by exists r2].
  - by eapply publish_gen.
  - exfalso. eapply publish_succeeds; [done..|]. by rewrite Hpub.
  - apply (gen_ok_keep _ _ _ _ Hg); [done|done| |]; simpl.
    + intros j. unfold cancel_reserved. destruct (slots s !! pi r) as [x|] eqn:Hx; [|done].
      destruct (_ && _); [|done]. by apply (store_generation s (pi r) x).
    + intros t2 r2 [_ H2]%lookup_delete_Some. by exists r2.
  - by eapply ram_gen.
  - apply (gen_ok_keep _ _ _ _ Hg); [done|done| |]; simpl; [|by eauto].
    unfold allocate_ram in Hram. destruct (free_slot _); [destruct (slots _ !! _)|]; by simplify_eq.
  - apply (gen_ok_keep _ _ _ _ Hg); [done|done| |]; simpl; [|by eauto]. intros j. revert Hsh. unfold share.
    destruct (get h s) as [x|] eqn:Hx; [|by intros [= _ <-]]. apply get_Some in Hx as (Hx & _).
    destruct (checked_add _ _ _); intros [= _ <-]; [|done]. by apply (store_generation s _ x).
  - apply (gen_ok_keep _ _ _ _ Hg); [done|done| |]; simpl; [|by eauto]. intros j. revert Hrel. unfold release.
    destruct (get h s) as [x|] eqn:Hx; [|by intros [= _ <-]]. apply get_Some in Hx as (Hx & _).
    intros [= _ <-]. apply (store_generation s _ x); [done|]. by destruct (_ =? _).
  - apply (gen_ok_keep _ _ _ _ Hg); [done..|]. simpl. eauto.
Qed.
End generations.

(** swap handles are not reused.  Along every interleaved execution with
    fewer than 2^16 - 1 allocation attempts, the handles returned by the
    successful allocations are pairwise distinct, so a released handle never
    comes to denote another page. *)
Theorem swap_handles_unique {D} `{BlockDeviceLaws D} start sectors (k0 : option D) s tr :
  0 ≤ start → (∀ d, k0 = Some d → dev_ok d) →
  exec (configure_disk start sectors new).2 k0 s tr → Z.of_nat (bumps tr) < 2 ^ 16 - 1 →
  NoDup (allocated tr).
Proof.
  intros Hs Hd He Hlt. assert (sys_ok s ∧ gen_ok s tr) as [_ []]; [|done].
  induction He as [|s tr l s' _ IH Hstep].
  - split; [by apply configured_ok|]. split; cbn [st pend allocated omap list_omap]; [| |done|constructor].
    + intros j x Hx. unfold configure_disk in Hx.
      destruct (_ || _); [|destruct (Nat.eqb _ _)]; apply lookup_replicate in Hx as [-> _]; done.
    + intros h Hh. by apply not_elem_of_nil in Hh.
  - rewrite bumps_app in Hlt. destruct IH as [Hok Hg]; [lia|].
    split; [by eapply swap_step_sim|]. eapply swap_step_generations; [done..|lia].
Qed.

(** One page stored in RAM: the execution the witnesses use. *)
Lemma exec_ram : ∃ (s : Sys RamDisk) tr h,
  exec (configure_disk 0 16 new).2 None s tr ∧ tr = [LAlloc (replicate PAGE_SIZE x00) h].
Proof.
  destruct (allocate_ram (replicate PAGE_SIZE x00) (configure_disk 0 16 new).2) as [[h|] st'] eqn:E.
  - eexists _, _, h. split; [|done]. apply (exec_step _ _ _ [] _ _ (exec_init _ None)).
    apply s_ram; [apply length_replicate|exact E].
  - exfalso. revert E. unfold allocate_ram. simpl. discriminate.
Qed.


Lemma swap_handles_unique_witness : ∃ (s : Sys RamDisk) tr,
  exec (configure_disk 0 16 new).2 None s tr ∧ NoDup (allocated tr).
Proof.
  destruct exec_ram as (s & tr & h & He & Htr). exists s, tr. split; [exact He|].
  apply (swap_handles_unique 0 16 None s tr); [lia|discriminate|exact He|].
  rewrite Htr. reflexivity.
Defined.
