(* ===== verification/Heap.v ===== *)
(** * The kernel heap (kernel/src/heap.rs)

    The tracked bump allocator with its free list.  Along every sequence of
    allocations and deallocations the live blocks are aligned, inside the heap
    and pairwise disjoint, and the accounting is exact; a second theorem shows
    how the free list runs out of slots. *)
From stdpp Require Import list.
From S2P Require Import Prelude Config.

Definition START : Z := 0x444450000000.
Definition SIZE : Z := 256 * 1024.
Definition MAX_FREE_BLOCKS : nat := 128.

(** [FreeBlock] and [LiveAllocation]: an address and a size. *)
Record Block := mkBlock { ptr : Z; size : Z }.
#[export] Instance Block_eq_dec : EqDecision Block.
Proof. solve_decision. Defined.

Record Layout := mkLayout { lsize : Z; lalign : Z }.

Record HeapState := mkHeap {
  start : Z; end_ : Z; next : Z; total_allocations : Z; total_allocated_bytes : Z;
  live_allocations : list (option Block); free_list : list (option Block); free_count : nat }.

Definition heap_empty : HeapState :=
  mkHeap 0 0 0 0 0 (replicate MAX_HEAP_ALLOCATIONS None) (replicate MAX_FREE_BLOCKS None) 0.

Inductive InitError := Paging | AlreadyInitialized | AddressOverflow.

(** [map_range] is the outcome of [paging::map_range(START, SIZE)]. *)
Definition init (map_range : bool) : M HeapState InitError unit := λ s,
  if negb (start s =? 0) then (Err AlreadyInitialized, s)
  else if negb map_range then (Err Paging, s)
  else match checked_add 64 START SIZE with
  | None => (Err AddressOverflow, s)
  | Some e =>
    (Ok tt, mkHeap START e START (total_allocations s) (total_allocated_bytes s)
              (live_allocations s) (free_list s) (free_count s))
  end.

Definition align_up (value alignment : Z) : option Z :=
  if (alignment =? 0) || negb (is_power_of_two alignment) then None
  else (λ a, Z.land a (bnot 64 (alignment - 1))) <$> checked_add 64 value (alignment - 1).

Definition set_free (l : list (option Block)) (n : nat) (s : HeapState) : HeapState :=
  mkHeap (start s) (end_ s) (next s) (total_allocations s) (total_allocated_bytes s)
    (live_allocations s) l n.

Definition insert_free_block (b : Block) (s : HeapState) : HeapState :=
  if size b =? 0 then s
  else if Nat.ltb (free_count s) MAX_FREE_BLOCKS
  then set_free (<[free_count s := Some b]> (free_list s)) (S (free_count s)) s
  else s.

(** The scan for the smallest block that fits; [Err tt] is its early [None]. *)
Fixpoint best_fit (indices : list nat) (l : list (option Block)) (lay : Layout)
    (best_idx : option nat) (best_size : Z) : res unit (option nat) :=
  match indices with
  | [] => Ok best_idx
  | i :: indices =>
    match l !! i with
    | None => Panic
    | Some None => best_fit indices l lay best_idx best_size
    | Some (Some b) =>
      match align_up (ptr b) (lalign lay) with
      | None => Err tt
      | Some aligned =>
        total ← add_or_panic 64 (saturating_sub aligned (ptr b)) (lsize lay);
        if (total <=? size b) && (size b <? best_size)
        then best_fit indices l lay (Some i) (size b)
        else best_fit indices l lay best_idx best_size
      end
    end
  end.

Definition find_free (lay : Layout) (s : HeapState) : res unit Z * HeapState :=
  match best_fit (seq 0 (free_count s)) (free_list s) lay None (2 ^ 64 - 1) with
  | Panic => (Panic, s)
  | Err _ | Ok None => (Err tt, s)
  | Ok (Some idx) =>
    match free_list s !! idx with
    | None => (Panic, s)
    | Some None => (Err tt, s)
    | Some (Some b) =>
      let s := set_free (<[idx := None]> (free_list s)) (free_count s) s in
      match align_up (ptr b) (lalign lay) with
      | None => (Err tt, s)
      | Some aligned =>
        match add_or_panic 64 (saturating_sub aligned (ptr b)) (lsize lay) : res unit Z with
        | Ok total =>
          let remaining := saturating_sub (size b) total in
          if 0 <? remaining then
            match add_or_panic 64 aligned (lsize lay) : res unit Z with
            | Ok rem_ptr => (Ok aligned, insert_free_block (mkBlock rem_ptr remaining) s)
            | _ => (Panic, s)
            end
          else (Ok aligned, s)
        | _ => (Panic, s)
        end
      end
    end
  end.

(** Record a live allocation in [slot]; the counters are overflow-checked. *)
Definition record_live (slot : nat) (b : Block) (new_next : Z) (s : HeapState) : res unit Z * HeapState :=
  match add_or_panic 64 (total_allocations s) 1 : res unit Z,
        add_or_panic 64 (total_allocated_bytes s) (size b) : res unit Z with
  | Ok n, Ok t =>
    (Ok (ptr b), mkHeap (start s) (end_ s) new_next n t
       (<[slot := Some b]> (live_allocations s)) (free_list s) (free_count s))
  | _, _ => (Panic, s)
  end.

(** A null pointer is [Ok 0]. *)
Definition alloc (lay : Layout) (s : HeapState) : res unit Z * HeapState :=
  if start s =? 0 then (Ok 0, s)
  else match find_free lay s with
  | (Panic, s) => (Panic, s)
  | (Ok p, s) =>
    match position (λ o : option Block, bool_decide (o = None)) (live_allocations s) with
    | Some slot => record_live slot (mkBlock p (lsize lay)) (next s) s
    | None => (Ok 0, s)
    end
  | (Err _, s) =>
    match align_up (next s) (lalign lay) with
    | None => (Ok 0, s)
    | Some aligned =>
      match checked_add 64 aligned (lsize lay) with
      | None => (Ok 0, s)
      | Some e =>
        if end_ s <? e then (Ok 0, s)
        else match position (λ o : option Block, bool_decide (o = None)) (live_allocations s) with
        | Some slot => record_live slot (mkBlock aligned (lsize lay)) e s
        | None => (Ok 0, s)
        end
      end
    end
  end.

Definition at_ptr (p : Z) (o : option Block) : bool :=
  match o with Some b => ptr b =? p | None => false end.

Definition dealloc (p : Z) (s : HeapState) : HeapState :=
  match position (at_ptr p) (live_allocations s) with
  | None => s
  | Some slot =>
    match live_allocations s !! slot with
    | Some (Some b) =>
      insert_free_block b
        (mkHeap (start s) (end_ s) (next s) (saturating_sub (total_allocations s) 1)
           (saturating_sub (total_allocated_bytes s) (size b))
           (<[slot := None]> (live_allocations s)) (free_list s) (free_count s))
    | _ => s
    end
  end.

Record Stats := mkStats {
  st_start : Z; st_size : Z; allocated_bytes : Z; free_bytes : Z; allocations : Z }.

Definition block_sum (l : list (option Block)) : Z :=
  foldr (λ o n, match o with Some b => size b + n | None => n end) 0 l.

Definition stats (s : HeapState) : Stats :=
  mkStats START SIZE (total_allocated_bytes s) (block_sum (take (free_count s) (free_list s)))
    (total_allocations s).

(** ** Disjoint blocks *)

Definition sep (a b : Block) : Prop := ptr a + size a ≤ ptr b ∨ ptr b + size b ≤ ptr a.

Fixpoint apart (l : list Block) : Prop :=
  match l with [] => True | b :: l => Forall (sep b) l ∧ apart l end.

Lemma sep_sym a b : sep a b → sep b a.
Proof. unfold sep. tauto. Qed.

#[export] Instance apart_perm : Proper (Permutation ==> iff) apart.
Proof.
  assert (H : ∀ l1 l2, l1 ≡ₚ l2 → apart l1 → apart l2).
  { induction 1 as [|b l1 l2 Hp IH|a b l|l1 l2 l3 _ IH1 _ IH2]; simpl; [done| | |by eauto].
    - intros [Hb Hl]. split; [by rewrite <-Hp|by apply IH].
    - rewrite !Forall_cons. intros [[Hab Ha] [Hb Hl]]. split; [split; [by apply sep_sym|done]|done]. }
  intros l1 l2 Hp. split; apply H; [done|by symmetry].
Qed.

Lemma apart_app_l l1 l2 : apart (l1 ++ l2) → apart l1.
Proof.
  induction l1 as [|b l1 IH]; simpl; [done|]. intros [Hb Hl].
  apply Forall_app in Hb as [Hb _]. split; [done|by apply IH].
Qed.

(** Sub-blocks of a block are apart from what the block was apart from. *)
Definition within (a b : Block) : Prop := ptr b ≤ ptr a ∧ ptr a + size a ≤ ptr b + size b.

Lemma sep_within a b c : within a b → sep b c → sep a c.
Proof. unfold within, sep. lia. Qed.

Lemma Forall_sep_within a b l : within a b → Forall (sep b) l → Forall (sep a) l.
Proof. intros Hw Hl. eapply Forall_impl; [exact Hl|]. intros c. by apply sep_within. Qed.

(** The blocks in a table of slots. *)
Definition held (l : list (option Block)) : list Block := omap id l.

Lemma held_take l i o : l !! i = Some o → held l ≡ₚ option_list o ++ held (<[i := None]> l).
Proof.
  revert i. induction l as [|x l IH]; intros [|i]; [done..| |].
  - intros [= ->]. by destruct o.
  - intros Hi. simpl. specialize (IH i Hi). destruct x as [b|]; simpl; [|done].
    rewrite IH. apply Permutation_middle.
Qed.

Lemma held_put l i b : l !! i = Some None → held (<[i := Some b]> l) ≡ₚ b :: held l.
Proof.
  revert i. induction l as [|x l IH]; intros [|i]; [done..| |].
  - by intros [= ->].
  - intros Hi. simpl. specialize (IH i Hi). destruct x as [c|]; simpl; [|done].
    rewrite IH. apply perm_swap.
Qed.

(** ** The invariant *)

Definition all_blocks (s : HeapState) : list Block := held (live_allocations s) ++ held (free_list s).

Definition inside (lo hi : Z) (b : Block) : Prop := lo ≤ ptr b ∧ 0 < size b ∧ ptr b + size b ≤ hi.

Definition sum_sizes (l : list Block) : Z := foldr (λ b n, size b + n) 0 l.

Record heap_ok (s : HeapState) : Prop := {
  ok_start : start s = START;
  ok_end : end_ s = START + SIZE;
  ok_next : START ≤ next s ≤ START + SIZE;
  ok_live_len : length (live_allocations s) = MAX_HEAP_ALLOCATIONS;
  ok_free_len : length (free_list s) = MAX_FREE_BLOCKS;
  ok_count : (free_count s ≤ MAX_FREE_BLOCKS)%nat;
  ok_tail : ∀ i, (free_count s ≤ i < MAX_FREE_BLOCKS)%nat → free_list s !! i = Some None;
  ok_inside : Forall (inside START (next s)) (all_blocks s);
  ok_apart : apart (all_blocks s);
  ok_allocs : total_allocations s = Z.of_nat (length (held (live_allocations s)));
  ok_bytes : total_allocated_bytes s = sum_sizes (held (live_allocations s)) }.

(** What the allocator API guarantees of a layout. *)
Definition layout_ok (lay : Layout) : Prop :=
  0 < lsize lay ∧ (∃ k, 0 ≤ k < 63 ∧ lalign lay = 2 ^ k) ∧ lsize lay + lalign lay ≤ 2 ^ 63.

Lemma round_up_spec v a u : 0 ≤ v → (∃ k, 0 ≤ k < 63 ∧ a = 2 ^ k) → align_up v a = Some u →
  v ≤ u < v + a ∧ u mod a = 0.
Proof.
  intros Hv (k & Hk & ->). unfold align_up. destruct (_ || _); [done|].
  intros (e & [-> He]%checked_add_Some & ->)%fmap_Some.
  assert (0 < 2 ^ k) by (apply Z.pow_pos_nonneg; lia).
  rewrite (land_bnot_ones 64 k) by lia.
  pose proof (Z.mod_pos_bound (v + (2 ^ k - 1)) (2 ^ k) ltac:(lia)). split; [lia|].
  rewrite Zminus_mod_idemp_r. by rewrite Z.sub_diag.
Qed.

#[export] Instance sum_sizes_perm : Proper (Permutation ==> eq) sum_sizes.
Proof. intros l1 l2. induction 1; simpl; lia. Qed.

Lemma sum_sizes_app l1 l2 : sum_sizes (l1 ++ l2) = sum_sizes l1 + sum_sizes l2.
Proof. induction l1; simpl; lia. Qed.

(** Disjoint blocks inside a range fit in it. *)
Lemma apart_sum lo hi l : lo ≤ hi → Forall (inside lo hi) l → apart l → sum_sizes l ≤ hi - lo.
Proof.
  revert lo hi. induction (well_founded_ltof _ (length (A := Block)) l) as [l _ IH]. intros lo hi Hle Hin Hap.
  destruct l as [|b l]; simpl; [lia|]. apply Forall_cons in Hin as [Hb Hin]. destruct Hap as [Hsep Hap].
  pose proof (filter_app_complement (λ c, ptr c + size c ≤ ptr b) l) as Hp.
  set (lower := filter (λ c, ptr c + size c ≤ ptr b) l) in *.
  set (upper := filter (λ c, ¬ ptr c + size c ≤ ptr b) l) in *.
  rewrite <-Hp in Hap |- *. rewrite sum_sizes_app.
  unfold inside in Hb. rewrite Forall_forall in Hin, Hsep.
  assert (sum_sizes lower ≤ ptr b - lo).
  { apply IH; [apply Nat.lt_succ_r, length_filter|lia| |by eapply apart_app_l].
    apply Forall_forall. intros c [Hc Hcl]%list_elem_of_filter. specialize (Hin c Hcl).
    unfold inside in *. lia. }
  assert (sum_sizes upper ≤ hi - (ptr b + size b)).
  { apply IH; [apply Nat.lt_succ_r, length_filter|lia| |].
    - apply Forall_forall. intros c [Hc Hcl]%list_elem_of_filter. specialize (Hin c Hcl).
      specialize (Hsep c Hcl). unfold inside, sep in *. lia.
    - rewrite Permutation_app_comm in Hap. by eapply apart_app_l. }
  lia.
Qed.

Lemma is_power_of_two_pow k : 0 ≤ k → is_power_of_two (2 ^ k) = true.
Proof.
  intros Hk. unfold is_power_of_two. assert (0 < 2 ^ k) by (apply Z.pow_pos_nonneg; lia).
  apply andb_true_iff. split; [by apply Z.ltb_lt|]. apply Z.eqb_eq.
  replace (2 ^ k - 1) with (Z.ones k) by (rewrite Z.ones_equiv; lia).
  rewrite Z.land_ones by lia. by apply Z.mod_same, Z.neq_sym, Z.lt_neq.
Qed.

(** Rounding up succeeds for every address of the heap. *)
Lemma align_up_total lay v : layout_ok lay → 0 ≤ v < 2 ^ 63 →
  ∃ u, align_up v (lalign lay) = Some u ∧ v ≤ u < v + lalign lay ∧ u mod lalign lay = 0.
Proof.
  intros (_ & (k & Hk & Ha) & _) Hv.
  assert (0 < 2 ^ k) by (apply Z.pow_pos_nonneg; lia).
  assert (2 ^ k ≤ 2 ^ 62) by (apply Z.pow_le_mono_r; lia).
  destruct (align_up v (lalign lay)) as [u|] eqn:E.
  - exists u. split; [done|]. apply round_up_spec; [lia|by exists k|done].
  - exfalso. rewrite Ha in E. unfold align_up in E. rewrite is_power_of_two_pow in E by lia.
    rewrite (proj2 (Z.eqb_neq _ _)) in E by lia. simpl in E.
    apply fmap_None, checked_add_None in E. lia.
Qed.

(** The block can hold the layout at the aligned address [u]. *)
Definition fits_at (lay : Layout) (b : Block) (u : Z) : Prop :=
  align_up (ptr b) (lalign lay) = Some u ∧ u - ptr b + lsize lay ≤ size b.

(** [best] is a smallest fitting block among the free slots in [seen], if any fits. *)
Definition best_of (l : list (option Block)) (lay : Layout) (seen : list nat) (best : option nat) (bs : Z) : Prop :=
  match best with
  | Some i => ∃ b u, l !! i = Some (Some b) ∧ fits_at lay b u ∧ bs = size b ∧
      ∀ j c v, j ∈ seen → l !! j = Some (Some c) → fits_at lay c v → size b ≤ size c
  | None => bs = 2 ^ 64 - 1 ∧ ∀ j c v, j ∈ seen → l !! j = Some (Some c) → ¬ fits_at lay c v
  end.

Lemma best_of_skip l lay seen best bs i :
  (∀ c v, l !! i = Some (Some c) → fits_at lay c v → best ≠ None ∧ bs ≤ size c) →
  best_of l lay seen best bs → best_of l lay (seen ++ [i]) best bs.
Proof.
  intros Hi. destruct best as [k|]; simpl.
  - intros (b & u & Hb & Hf & -> & Hmin). exists b, u. split_and!; try done.
    intros j c v [Hj| ->%list_elem_of_singleton]%elem_of_app Hc Hfc; [by eapply Hmin|].
    by destruct (Hi c v Hc Hfc).
  - intros [-> Hnone]. split; [done|].
    intros j c v [Hj| ->%list_elem_of_singleton]%elem_of_app Hc Hfc; [by eapply Hnone|].
    by destruct (Hi c v Hc Hfc).
Qed.

Lemma best_fit_spec indices l lay seen best bs :
  layout_ok lay → Forall (inside START (START + SIZE)) (held l) →
  (∀ i, i ∈ indices → (i < length l)%nat) → best_of l lay seen best bs →
  ∃ best' bs', best_fit indices l lay best bs = Ok best' ∧ best_of l lay (seen ++ indices) best' bs'.
Proof.
  intros Hlay Hin. revert seen best bs.
  induction indices as [|i indices IH]; intros seen best bs Hidx Hbest; cbn [best_fit].
  { exists best, bs. by rewrite app_nil_r. }
  assert (Hrest : ∀ j, j ∈ indices → (j < length l)%nat) by (intros; apply Hidx; by right).
  destruct (lookup_lt_is_Some_2 l i) as [o Ho]; [apply Hidx; left|]. rewrite Ho, cons_middle, app_assoc.
  destruct o as [b|].
  2: { apply IH; [done|]. apply best_of_skip; [intros c v Hc; congruence|done]. }
  rewrite (held_take l i _ Ho) in Hin. simpl in Hin. apply Forall_cons in Hin as [Hb Hin].
  unfold inside, START, SIZE in Hb.
  destruct (align_up_total lay (ptr b)) as (u & Hu & Hur & _); [done|lia|]. rewrite Hu.
  destruct Hlay as (Hsz & _ & Hmax). unfold add_or_panic, saturating_sub. rewrite Z.max_l by lia.
  destruct (Z.ltb_spec (u - ptr b + lsize lay) (2 ^ 64)); [|lia]. cbn [mbind res_bind].
  destruct (_ && _) eqn:E; apply IH; try done.
  - open_guards. exists b, u. split_and!; [done|done|done|].
    intros j c v [Hj| ->%list_elem_of_singleton]%elem_of_app Hc Hfc.
    + destruct best as [k|]; simpl in Hbest.
      * destruct Hbest as (b0 & u0 & _ & _ & -> & Hmin). specialize (Hmin j c v Hj Hc Hfc). lia.
      * destruct Hbest as [_ Hnone]. by destruct (Hnone j c v Hj Hc).
    + replace c with b by congruence. lia.
  - apply best_of_skip; [|done]. intros c v Hc [Hcu Hcf]. replace c with b in * by congruence.
    replace v with u in * by congruence. apply andb_false_iff in E as [E|E]; open_guards; [lia|].
    split; [|lia]. intros ->. simpl in Hbest. lia.
Qed.

(** ** The operations keep the invariant *)

Lemma insert_free_spec s b :
  heap_ok s → inside START (next s) b → Forall (sep b) (all_blocks s) →
  let s' := insert_free_block b s in
  heap_ok s' ∧ live_allocations s' = live_allocations s ∧ next s' = next s ∧
  ∀ P : Block → Prop, P b → Forall P (all_blocks s) → Forall P (all_blocks s').
Proof.
  intros Hok Hb Hsep. unfold insert_free_block. unfold inside in Hb.
  destruct (Z.eqb_spec (size b) 0); [lia|].
  destruct (Nat.ltb_spec (free_count s) MAX_FREE_BLOCKS) as [Hlt|]; [|done].
  destruct Hok as [Hs He Hn Hll Hfl Hc Ht Hin Hap Ha Hby].
  assert (Hput : held (<[free_count s := Some b]> (free_list s)) ≡ₚ b :: held (free_list s)).
  { apply held_put, Ht. lia. }
  assert (Hall : held (live_allocations s) ++ held (<[free_count s := Some b]> (free_list s))
    ≡ₚ b :: all_blocks s).
  { rewrite Hput. symmetry. apply Permutation_middle. }
  split_and!; [|done|done|].
  - split; unfold all_blocks, set_free; simpl; try done.
    + by rewrite length_insert.
    + intros i Hi. rewrite list_lookup_insert_ne by lia. apply Ht. lia.
    + rewrite Hall. by apply Forall_cons.
    + rewrite Hall. by split.
  - intros P HP Hall'. unfold all_blocks, set_free; simpl. rewrite Hall. by apply Forall_cons.
Qed.

(** Taking a free block out of its slot. *)
Lemma take_free_ok s i b :
  heap_ok s → free_list s !! i = Some (Some b) →
  let s' := set_free (<[i := None]> (free_list s)) (free_count s) s in
  heap_ok s' ∧ all_blocks s ≡ₚ b :: all_blocks s'.
Proof.
  intros [Hs He Hn Hll Hfl Hc Ht Hin Hap Ha Hby] Hi.
  assert (Hall : all_blocks s ≡ₚ b :: all_blocks (set_free (<[i := None]> (free_list s)) (free_count s) s)).
  { unfold all_blocks, set_free; simpl. rewrite (held_take _ _ _ Hi). simpl. symmetry. apply Permutation_middle. }
  split; [|done]. rewrite Hall in Hin, Hap. apply Forall_cons in Hin as [_ Hin]. destruct Hap as [_ Hap].
  split; simpl; try done.
  - by rewrite length_insert.
  - intros j Hj. destruct (decide (i = j)) as [->|]; [|rewrite list_lookup_insert_ne by done; by apply Ht].
    apply list_lookup_insert_eq. rewrite Hfl. lia.
Qed.

(** What a successful search provides: a block for the layout apart from all. *)
Definition provides (lay : Layout) (s s' : HeapState) (u : Z) : Prop :=
  heap_ok s' ∧ live_allocations s' = live_allocations s ∧ next s' = next s ∧
  u mod lalign lay = 0 ∧ inside START (next s) (mkBlock u (lsize lay)) ∧
  Forall (sep (mkBlock u (lsize lay))) (all_blocks s').

Lemma find_free_spec lay s : heap_ok s → layout_ok lay →
  ∃ r s', find_free lay s = (r, s') ∧
    match r with
    | Ok u => provides lay s s' u
    | Err _ => s' = s ∧ ∀ j c v, (j < free_count s)%nat → free_list s !! j = Some (Some c) → ¬ fits_at lay c v
    | Panic => False
    end.
Proof.
  intros Hok Hlay. unfold find_free.
  assert (Hfin : Forall (inside START (START + SIZE)) (held (free_list s))).
  { pose proof (ok_inside s Hok) as Hin. apply Forall_app in Hin as [_ Hin].
    eapply Forall_impl; [exact Hin|]. intros b. pose proof (ok_next s Hok). unfold inside. lia. }
  destruct (best_fit_spec (seq 0 (free_count s)) (free_list s) lay [] None (2 ^ 64 - 1))
    as (best & bs & -> & Hbest); [done|done| | |].
  { intros i [_ Hi]%elem_of_seq. rewrite (ok_free_len s Hok). pose proof (ok_count s Hok). lia. }
  { split; [done|]. intros j c v Hj. by apply not_elem_of_nil in Hj. }
  destruct best as [i|].
  2: { eexists _, _. split; [done|]. split; [done|]. destruct Hbest as [_ Hnone].
       intros j c v Hj. apply Hnone. apply elem_of_seq. lia. }
  destruct Hbest as (b & u & Hb & [Hu Hfit] & _). rewrite Hb, Hu.
  destruct (take_free_ok s i b Hok Hb) as [Hok1 Hall].
  set (s1 := set_free _ _ s) in *.
  pose proof (ok_inside s Hok) as Hin. rewrite Hall in Hin. apply Forall_cons in Hin as [Hbin Hin].
  pose proof (ok_apart s Hok) as Hap. rewrite Hall in Hap. destruct Hap as [Hbsep _].
  pose proof (ok_next s Hok) as Hnx. unfold START, SIZE in Hnx. unfold inside in Hbin.
  destruct (align_up_total lay (ptr b)) as (u' & Hu' & Hur & Hmod); [done|unfold START in *; lia|].
  assert (u' = u) as -> by congruence. pose proof Hlay as (Hsz & _ & Hmax).
  unfold add_or_panic, saturating_sub. rewrite (Z.max_l (u - ptr b)) by lia.
  unfold START in Hbin. destruct (Z.ltb_spec (u - ptr b + lsize lay) (2 ^ 64)); [|lia].
  rewrite Z.max_l by lia.
  assert (Hw : within (mkBlock u (lsize lay)) b) by (unfold within; simpl; lia).
  assert (HB : inside START (next s) (mkBlock u (lsize lay))) by (unfold inside, START; simpl; lia).
  pose proof (Forall_sep_within _ _ _ Hw Hbsep) as HBsep.
  destruct (Z.ltb_spec 0 (size b - (u - ptr b + lsize lay))) as [Hrem|Hrem].
  - destruct (Z.ltb_spec (u + lsize lay) (2 ^ 64)); [|lia]. eexists _, _. split; [done|].
    set (rb := mkBlock (u + lsize lay) (size b - (u - ptr b + lsize lay))).
    assert (Hwr : within rb b) by (unfold within; simpl; lia).
    destruct (insert_free_spec s1 rb Hok1) as (Hok2 & Hl2 & Hn2 & HP).
    + unfold inside, START; simpl. lia.
    + by eapply Forall_sep_within.
    + split_and!; [done..|]. apply HP; [unfold sep; simpl; lia|done].
  - eexists _, _. split; [done|]. by split_and!.
Qed.

Lemma held_length l : (length (held l) ≤ length l)%nat.
Proof. induction l as [|[b|] l IH]; simpl in *; lia. Qed.

Lemma live_bytes_bound s : heap_ok s → 0 ≤ total_allocated_bytes s ≤ SIZE.
Proof.
  intros Hok. pose proof (ok_next s Hok) as Hn. pose proof (ok_inside s Hok) as Hin.
  pose proof (ok_apart s Hok) as Hap. apply Forall_app in Hin as [Hin _]. apply apart_app_l in Hap.
  pose proof (apart_sum START (next s) _ ltac:(lia) Hin Hap) as Hs. rewrite (ok_bytes s Hok).
  split; [|lia]. clear -Hin. induction Hin as [|b l [_ [Hb _]] _ IH]; simpl; lia.
Qed.

Lemma record_live_spec s slot b nx :
  heap_ok s → live_allocations s !! slot = Some None → next s ≤ nx ≤ START + SIZE →
  inside START nx b → Forall (sep b) (all_blocks s) →
  ∃ s', record_live slot b nx s = (Ok (ptr b), s') ∧ heap_ok s' ∧
    held (live_allocations s') ≡ₚ b :: held (live_allocations s).
Proof.
  intros Hok Hslot Hnx Hb Hsep. pose proof (live_bytes_bound s Hok) as Hby.
  assert (Hlen : (length (held (live_allocations s)) ≤ MAX_HEAP_ALLOCATIONS)%nat).
  { rewrite <-(ok_live_len s Hok). apply held_length. }
  assert (H512 : Z.of_nat MAX_HEAP_ALLOCATIONS = 512) by done.
  unfold inside, START, SIZE in Hnx, Hb, Hby.
  unfold record_live, add_or_panic. rewrite (ok_allocs s Hok).
  destruct (Z.ltb_spec (Z.of_nat (length (held (live_allocations s))) + 1) (2 ^ 64)); [|lia].
  destruct (Z.ltb_spec (total_allocated_bytes s + size b) (2 ^ 64)); [|lia].
  eexists. split; [done|]. pose proof (held_put _ _ b Hslot) as Hput. simpl. split; [|done].
  destruct Hok as [Hs He Hn Hll Hfl Hc Ht Hin Hap Ha Hbs].
  assert (Hall : held (<[slot:=Some b]> (live_allocations s)) ++ held (free_list s) ≡ₚ b :: all_blocks s).
  { by rewrite Hput. }
  split; unfold all_blocks; simpl; try done.
  - unfold START, SIZE. lia.
  - by rewrite length_insert.
  - rewrite Hall. apply Forall_cons. split; [unfold inside, START; lia|].
    eapply Forall_impl; [exact Hin|]. intros c. unfold inside. lia.
  - rewrite Hall. by split.
  - rewrite Hput. simpl. lia.
  - rewrite Hput. simpl. lia.
Qed.

(** The outcome of an allocation. *)
Definition alloc_result (lay : Layout) (s s' : HeapState) (p : Z) : Prop :=
  p = 0 ∧ held (live_allocations s') = held (live_allocations s) ∨
  START ≤ p ∧ p mod lalign lay = 0 ∧ p + lsize lay ≤ START + SIZE ∧
  Forall (sep (mkBlock p (lsize lay))) (held (live_allocations s)) ∧
  held (live_allocations s') ≡ₚ mkBlock p (lsize lay) :: held (live_allocations s).

Lemma position_none_slot l i :
  position (λ o : option Block, bool_decide (o = None)) l = Some i → l !! i = Some None.
Proof. by intros (o & Ho & ->%bool_decide_eq_true_1)%position_Some_1. Qed.

Lemma bump_sep lo nx a n l : nx ≤ a → Forall (inside lo nx) l → Forall (sep (mkBlock a n)) l.
Proof. intros Ha Hin. eapply Forall_impl; [exact Hin|]. intros c. unfold inside, sep; simpl. lia. Qed.

Lemma heap_alloc_spec lay s : heap_ok s → layout_ok lay →
  ∃ p s', alloc lay s = (Ok p, s') ∧ heap_ok s' ∧ alloc_result lay s s' p.
Proof.
  intros Hok Hlay. unfold alloc. rewrite (ok_start s Hok). simpl.
  destruct (find_free_spec lay s Hok Hlay) as (r & s1 & -> & Hr). destruct r as [u|[]|]; [| |done].
  - destruct Hr as (Hok1 & Hl1 & Hn1 & Hmod & HB & HBs).
    destruct (position _ _) as [slot|] eqn:Hp.
    2: { exists 0, s1. split_and!; [done..|]. left. by rewrite Hl1. }
    apply position_none_slot in Hp. pose proof (ok_next s1 Hok1) as Hnx.
    destruct (record_live_spec s1 slot (mkBlock u (lsize lay)) (next s1)) as (s2 & -> & Hok2 & Hh);
      [done|done|lia|by rewrite Hn1|done|].
    exists u, s2. split_and!; [done..|]. right. rewrite Hl1 in Hh. unfold inside in HB; simpl in HB.
    split_and!; [lia|done|lia| |done]. rewrite <-Hl1. by apply Forall_app in HBs as [? _].
  - destruct Hr as [-> _]. pose proof (ok_next s Hok) as Hnx. unfold START, SIZE in Hnx.
    destruct (align_up_total lay (next s)) as (u & -> & Hu & Hmod); [done|lia|].
    destruct (checked_add 64 u (lsize lay)) as [e|] eqn:Ee.
    2: { exists 0, s. split_and!; [done..|by left]. }
    apply checked_add_Some in Ee as [-> _]. rewrite (ok_end s Hok).
    destruct (Z.ltb_spec (START + SIZE) (u + lsize lay)); [exists 0, s; split_and!; [done..|by left]|].
    destruct (position _ _) as [slot|] eqn:Hp; [|exists 0, s; split_and!; [done..|by left]].
    apply position_none_slot in Hp. destruct Hlay as (Hsz & _ & _).
    assert (Hsep : Forall (sep (mkBlock u (lsize lay))) (all_blocks s)).
    { apply (bump_sep START (next s)); [lia|apply (ok_inside s Hok)]. }
    destruct (record_live_spec s slot (mkBlock u (lsize lay)) (u + lsize lay)) as (s2 & -> & Hok2 & Hh);
      [done|done|lia|unfold inside, START; simpl; lia|done|].
    exists u, s2. split_and!; [done..|]. right. split_and!; [unfold START; lia|done|lia| |done].
    by apply Forall_app in Hsep as [? _].
Qed.

Lemma dealloc_spec p s : heap_ok s →
  heap_ok (dealloc p s) ∧
  (held (live_allocations (dealloc p s)) = held (live_allocations s) ∧
     (∀ b, b ∈ held (live_allocations s) → ptr b ≠ p) ∨
   ∃ b, ptr b = p ∧ held (live_allocations s) ≡ₚ b :: held (live_allocations (dealloc p s))).
Proof.
  intros Hok. unfold dealloc. destruct (position _ _) as [slot|] eqn:Hp.
  2: { split; [done|]. left. split; [done|]. intros b (o & Ho & Hob)%list_elem_of_omap E. simpl in Hob. subst o.
       apply list_elem_of_lookup in Ho as [i Hi]. rewrite position_None in Hp.
       specialize (Hp i (Some b) Hi). simpl in Hp. lia. }
  apply position_Some_1 in Hp as ([b|] & Hslot & Hb); [|done]. apply Z.eqb_eq in Hb. rewrite Hslot.
  set (s1 := mkHeap _ _ _ _ _ _ _ _).
  pose proof (held_take _ _ _ Hslot) as Htake. simpl in Htake.
  assert (Hall : all_blocks s ≡ₚ b :: all_blocks s1).
  { unfold all_blocks, s1; simpl. by rewrite Htake. }
  pose proof (ok_inside s Hok) as Hin. pose proof (ok_apart s Hok) as Hap.
  rewrite Hall in Hin, Hap. apply Forall_cons in Hin as [Hbin Hin]. destruct Hap as [Hbsep Hap].
  assert (Hok1 : heap_ok s1).
  { destruct Hok as [Hs He Hn Hll Hfl Hc Ht _ _ Ha Hbs]. rewrite Htake in Ha, Hbs. simpl in Ha, Hbs.
    pose proof (live_bytes_bound s) as Hbound.
    assert (0 ≤ sum_sizes (held (<[slot:=None]> (live_allocations s)))).
    { clear -Hin. unfold all_blocks, s1 in Hin; simpl in Hin. apply Forall_app in Hin as [Hin _].
      induction Hin as [|c l [_ [Hc _]] _ IH]; simpl; lia. }
    unfold inside in Hbin. split; unfold s1; simpl; try done; unfold saturating_sub.
    - by rewrite length_insert.
    - lia.
    - lia. }
  destruct (insert_free_spec s1 b Hok1 Hbin Hbsep) as (Hok2 & Hl2 & _).
  split; [done|]. right. exists b. split; [done|]. rewrite Hl2. by unfold s1.
Qed.

(** ** Every client of the allocator *)

Inductive Call := Alloc (lay : Layout) | Dealloc (p : Z).

Definition legal (c : Call) : Prop := match c with Alloc lay => layout_ok lay | Dealloc _ => True end.

Definition apply_call (s : HeapState) (c : Call) : HeapState :=
  match c with Alloc lay => (alloc lay s).2 | Dealloc p => dealloc p s end.

(** The heap after [init] and a sequence of calls. *)
Definition run (calls : list Call) : HeapState := foldl apply_call (init true heap_empty).2 calls.

Lemma init_ok : heap_ok (init true heap_empty).2.
Proof.
  assert (H : ∀ n, held (replicate n None) = []) by (induction n; [done|exact IHn]).
  change (init true heap_empty).2 with (mkHeap START (START + SIZE) START 0 0
    (replicate MAX_HEAP_ALLOCATIONS None) (replicate MAX_FREE_BLOCKS None) 0).
  split; unfold all_blocks; cbn [start end_ next live_allocations free_list free_count
    total_allocations total_allocated_bytes]; rewrite ?H, ?length_replicate; try done; try (unfold START, SIZE; lia); try constructor.
  intros i Hi. apply lookup_replicate_2. lia.
Qed.

Lemma heap_run_ok calls : Forall legal calls → heap_ok (run calls).
Proof.
  unfold run. intros Hl. assert (H : ∀ s, heap_ok s → heap_ok (foldl apply_call s calls)); [|apply H, init_ok].
  induction Hl as [|c calls Hc _ IH]; intros s Hs; simpl; [done|]. apply IH.
  destruct c as [lay|p]; simpl.
  - by destruct (heap_alloc_spec lay s Hs Hc) as (p & s' & -> & Hs' & _).
  - by destruct (dealloc_spec p s Hs).
Qed.

(** C35: the heap never hands out overlapping memory.  After any sequence of
    legal allocations and any deallocations (of live, stale or foreign
    pointers), an allocation does not panic and either returns null and
    leaves the live blocks alone, or returns an address aligned as asked
    whose block lies inside the heap, is disjoint from every live block and
    becomes live. *)
Theorem heap_alloc_safe calls lay :
  Forall legal calls → layout_ok lay →
  ∃ p s', alloc lay (run calls) = (Ok p, s') ∧ alloc_result lay (run calls) s' p.
Proof.
  intros Hc Hl. destruct (heap_alloc_spec lay (run calls) (heap_run_ok calls Hc) Hl) as (p & s' & E & _ & Hr). eauto.
Qed.

(** a deallocation ends exactly the live block at the pointer.  After any
    legal calls, [dealloc] of a live pointer removes that block from the live
    blocks, and of any other pointer changes none. *)
Theorem heap_dealloc_exact calls p :
  Forall legal calls →
  let s := run calls in
  held (live_allocations (dealloc p s)) = held (live_allocations s) ∧
     (∀ b, b ∈ held (live_allocations s) → ptr b ≠ p) ∨
  ∃ b, ptr b = p ∧ held (live_allocations s) ≡ₚ b :: held (live_allocations (dealloc p s)).
Proof. intros Hc s. apply (dealloc_spec p s (heap_run_ok calls Hc)). Qed.

Lemma block_sum_held l : block_sum l = sum_sizes (held l).
Proof. induction l as [|[b|] l IH]; simpl in *; lia. Qed.

Lemma held_tail l n : (∀ i, (n ≤ i < length l)%nat → l !! i = Some None) → held (take n l) = held l.
Proof.
  intros Ht. rewrite <-(take_drop n l) at 2. unfold held. rewrite omap_app.
  assert (omap id (drop n l) = []) as ->; [|by rewrite app_nil_r].
  assert (Hall : ∀ o, o ∈ drop n l → o = None).
  { intros o [i Hi]%list_elem_of_lookup. rewrite lookup_drop in Hi.
    pose proof (lookup_lt_Some _ _ _ Hi). rewrite Ht in Hi; [congruence|lia]. }
  induction (drop n l) as [|o l' IH]; [done|]. simpl. rewrite (Hall o) by left. simpl. apply IH.
  intros o' Ho'. apply Hall. by right.
Qed.

(** the reported statistics are exact: after any legal calls the number and
    bytes of allocations are those of the live blocks, the free bytes those of
    the blocks in the free list, and together they fit in the heap. *)
Theorem heap_stats_exact calls :
  Forall legal calls →
  let s := run calls in
  allocations (stats s) = Z.of_nat (length (held (live_allocations s))) ∧
  allocated_bytes (stats s) = sum_sizes (held (live_allocations s)) ∧
  free_bytes (stats s) = sum_sizes (held (free_list s)) ∧
  allocated_bytes (stats s) + free_bytes (stats s) ≤ SIZE.
Proof.
  intros Hc s. pose proof (heap_run_ok calls Hc) as Hok. fold s in Hok. cbn [stats allocations allocated_bytes free_bytes].
  assert (Hf : block_sum (take (free_count s) (free_list s)) = sum_sizes (held (free_list s))).
  { rewrite block_sum_held, held_tail; [done|]. rewrite (ok_free_len s Hok). apply (ok_tail s Hok). }
  split_and!; [apply Hok|apply Hok|exact Hf|].
  rewrite Hf, (ok_bytes s Hok), <-sum_sizes_app. pose proof (ok_next s Hok).
  pose proof (apart_sum START (next s) _ ltac:(lia) (ok_inside s Hok) (ok_apart s Hok)) as H'.
  unfold all_blocks in H'. lia.
Qed.

(** Allocate a block and give it straight back. *)
Definition churn (lay : Layout) (s : HeapState) : HeapState :=
  match alloc lay s with (Ok p, s) => dealloc p s | (_, s) => s end.

(** freed memory is lost once the free list's slots are used up.  [find_free]
    empties a slot but never lowers [free_count], so after 128 insertions no
    freed block is kept: a client that holds at most one page at a time
    exhausts the heap, with nothing live and nothing free. *)
Theorem heap_leaks :
  let page := mkLayout 4096 8 in
  let s := Nat.iter 192 (churn page) (init true heap_empty).2 in
  held (live_allocations s) = [] ∧ free_bytes (stats s) = 0 ∧ (alloc page s).1 = Ok 0.
Proof. vm_compute. done. Qed.

Lemma layout_16 : layout_ok (mkLayout 16 8).
Proof. split; [done|]. split; [by exists 3|done]. Qed.

Lemma legal_16 : Forall legal [Alloc (mkLayout 16 8); Dealloc START; Alloc (mkLayout 16 8)].
Proof. repeat constructor; apply layout_16. Qed.

Lemma heap_alloc_safe_witness : ∃ s',
  alloc (mkLayout 16 8) (run [Alloc (mkLayout 16 8); Dealloc START; Alloc (mkLayout 16 8)])
    = (Ok (START + 16), s') ∧ held (live_allocations s') ≠ [].
Proof.
  destruct (heap_alloc_safe _ _ legal_16 layout_16) as (p & s' & E & Hr).
  assert (Hp : (alloc (mkLayout 16 8)
    (run [Alloc (mkLayout 16 8); Dealloc START; Alloc (mkLayout 16 8)])).1 = Ok (START + 16))
    by (vm_compute; reflexivity).
  rewrite E in Hp. simpl in Hp. injection Hp as ->. exists s'. split; [exact E|].
  destruct Hr as [[Hz _]|(_ & _ & _ & _ & Hl)]; [discriminate Hz|].
  intros Hnil. rewrite Hnil in Hl. by apply Permutation_nil_cons in Hl.
Defined.

Lemma heap_dealloc_exact_witness :
  let s := run [Alloc (mkLayout 16 8); Dealloc START; Alloc (mkLayout 16 8)] in
  held (live_allocations (dealloc 5 s)) = held (live_allocations s).
Proof.
  destruct (heap_dealloc_exact _ 5 legal_16) as [[H _]|(b & Hb & Hp)]; [exact H|].
  exfalso. assert (Hl : length (held (live_allocations
    (run [Alloc (mkLayout 16 8); Dealloc START; Alloc (mkLayout 16 8)]))) = 1%nat) by (vm_compute; reflexivity).
  rewrite Hp in Hl. revert Hl. vm_compute. discriminate.
Defined.

Lemma heap_stats_exact_witness :
  let s := run [Alloc (mkLayout 16 8); Dealloc START; Alloc (mkLayout 16 8)] in
  allocated_bytes (stats s) + free_bytes (stats s) ≤ SIZE.
Proof. apply (heap_stats_exact _ legal_16). Defined.
