(* ===== verification/VfsPath.v ===== *)
(** * VFS paths (kernel/src/vfs.rs, the path helpers)

    Paths are the byte strings the code handles.  [validate_absolute_path],
    [parent_path], [descendant_suffix] and [immediate_child_name] are the
    source's string operations; the theorems relate them to lists of
    components: a valid path is the rendering of a list of good components,
    and the helpers compute the parent, the relative suffix and the last
    component of that list.  UTF-8 validity (what [core::str::from_utf8] tests)
    is defined here too, for the stored paths. *)
From stdpp Require Import list.
From Stdlib Require Import Strings.Byte.
From S2P Require Import Prelude Config.

Definition SLASH : byte := Corelib.Init.Byte.x2f.
Definition DOT : byte := Corelib.Init.Byte.x2e.
Definition MAX_DIR_NAME : nat := 64.

(** [vfs::Error] *)
Inductive VError :=
| NotFound | InvalidDescriptor | InvalidPath | AlreadyExists | ReadOnly | Full | NotEmpty | Io.
#[export] Instance VError_eq_dec : EqDecision VError.
Proof. solve_decision. Defined.

Definition is_slash (b : byte) : bool := bool_decide (b = SLASH).

(** ** UTF-8 *)

Definition continuation (b : byte) : bool := (0x80 <=? byte_z b) && (byte_z b <=? 0xbf).
Definition in_range (lo hi : Z) (b : byte) : bool := (lo <=? byte_z b) && (byte_z b <=? hi).

Definition three_bytes (b0 b1 b2 : byte) : bool :=
  (in_range 0xe0 0xe0 b0 && in_range 0xa0 0xbf b1
   || (in_range 0xe1 0xec b0 || in_range 0xee 0xef b0) && continuation b1
   || in_range 0xed 0xed b0 && in_range 0x80 0x9f b1) && continuation b2.
Definition four_bytes (b0 b1 b2 b3 : byte) : bool :=
  (in_range 0xf0 0xf0 b0 && in_range 0x90 0xbf b1
   || in_range 0xf1 0xf3 b0 && continuation b1
   || in_range 0xf4 0xf4 b0 && in_range 0x80 0x8f b1) && continuation b2 && continuation b3.

Fixpoint utf8_valid (l : list byte) : bool :=
  match l with
  | [] => true
  | b0 :: l1 =>
    if byte_z b0 <? 0x80 then utf8_valid l1 else
    match l1 with
    | [] => false
    | b1 :: l2 =>
      if in_range 0xc2 0xdf b0 && continuation b1 then utf8_valid l2 else
      match l2 with
      | [] => false
      | b2 :: l3 =>
        if three_bytes b0 b1 b2 then utf8_valid l3 else
        match l3 with
        | [] => false
        | b3 :: l4 => if four_bytes b0 b1 b2 b3 then utf8_valid l4 else false
        end
      end
    end
  end.

(** [core::str::from_utf8(l).unwrap_or("")] *)
Definition str_or_empty (l : list byte) : list byte := if utf8_valid l then l else [].

(** A validity test does not depend on what follows. *)
Lemma utf8_app a b : utf8_valid a = true → utf8_valid (a ++ b) = utf8_valid b.
Proof.
  induction (well_founded_ltof _ (length (A := byte)) a) as [a _ IH].
  assert (Hrec : ∀ a', (length a' < length a)%nat → utf8_valid a' = true → utf8_valid (a' ++ b) = utf8_valid b)
    by (intros; by apply IH).
  clear IH. destruct a as [|b0 l1]; [done|]. simpl. destruct (byte_z b0 <? 0x80).
  { intros H. apply Hrec; [simpl; lia|done]. }
  destruct l1 as [|b1 l2]; [done|]. simpl. destruct (_ && _).
  { intros H. apply Hrec; [simpl; lia|done]. }
  destruct l2 as [|b2 l3]; [done|]. simpl. destruct (three_bytes _ _ _).
  { intros H. apply Hrec; [simpl; lia|done]. }
  destruct l3 as [|b3 l4]; [done|]. simpl. destruct (four_bytes _ _ _ _); [|done].
  intros H. apply Hrec; [simpl; lia|done].
Qed.

Lemma str_valid l : utf8_valid l = true → str_or_empty l = l.
Proof. unfold str_or_empty. by intros ->. Qed.

(** ** The string operations *)

Definition starts_with (p l : list byte) : bool := bool_decide (take (length p) l = p).
Definition strip_prefix (p l : list byte) : option (list byte) :=
  if starts_with p l then Some (drop (length p) l) else None.
Definition starts_with_slash (l : list byte) : bool :=
  match l with b :: _ => is_slash b | [] => false end.

(** [split('/')] *)
Fixpoint split_slash (l : list byte) : list (list byte) :=
  match l with
  | [] => [[]]
  | b :: l =>
    if is_slash b then [] :: split_slash l
    else match split_slash l with p :: ps => (b :: p) :: ps | [] => [[b]] end
  end.

Definition bad_component (part : list byte) : bool :=
  bool_decide (part = []) || bool_decide (part = [DOT]) || bool_decide (part = [DOT; DOT])
  || Nat.ltb MAX_DIR_NAME (length part).

Definition validate_absolute_path (path : list byte) : res VError unit :=
  if bool_decide (path = []) || negb (starts_with_slash path) || Nat.ltb MAX_PATH_SIZE (length path)
  then Err InvalidPath
  else if any (λ b, bool_decide (b = x00)) path then Err InvalidPath
  else if negb (bool_decide (path = [SLASH])) && any bad_component (split_slash (drop 1 path))
  then Err InvalidPath
  else Ok tt.

Definition descendant_suffix (directory path : list byte) : option (list byte) :=
  s ← strip_prefix directory path; if starts_with_slash s then Some s else None.

(** [trim_end_matches('/')] and [rfind('/')] *)
Fixpoint trim_start (l : list byte) : list byte :=
  match l with b :: l' => if is_slash b then trim_start l' else l | [] => [] end.
Definition trim_end (l : list byte) : list byte := reverse (trim_start (reverse l)).
Definition rfind_slash (l : list byte) : option nat :=
  (λ i, (length l - 1 - i)%nat) <$> position is_slash (reverse l).

Definition parent_path (path : list byte) : option (list byte) :=
  if bool_decide (path = [SLASH]) then None
  else
    let trimmed := trim_end path in
    match rfind_slash trimmed with
    | Some 0%nat => Some [SLASH]
    | Some pos => Some (take pos trimmed)
    | None => None
    end.

Definition immediate_child_name (dir child : list byte) : option (list byte) :=
  if bool_decide (child = dir) then None
  else if bool_decide (dir = [SLASH]) then
    if negb (starts_with_slash child) || Nat.ltb (length child) 2 then None
    else let rest := drop 1 child in if any is_slash rest then None else Some rest
  else if negb (starts_with dir child) then None
  else
    let rest := drop (length dir) child in
    if negb (starts_with_slash rest) then None
    else let name := drop 1 rest in
         if bool_decide (name = []) || any is_slash name then None else Some name.

(** ** Paths as component lists *)

Definition good (c : list byte) : Prop :=
  c ≠ [] ∧ SLASH ∉ c ∧ c ≠ [DOT] ∧ c ≠ [DOT; DOT] ∧ (length c ≤ MAX_DIR_NAME)%nat ∧ x00 ∉ c.

(** ["/a/b"] for [["a"; "b"]], and [""] for the empty list. *)
Definition suffix_of (cs : list (list byte)) : list byte := concat ((λ c, SLASH :: c) <$> cs).
Definition render (cs : list (list byte)) : list byte :=
  match cs with [] => [SLASH] | _ => suffix_of cs end.

Lemma render_nonempty cs : cs ≠ [] → render cs = suffix_of cs.
Proof. by destruct cs. Qed.

Lemma suffix_app cs ds : suffix_of (cs ++ ds) = suffix_of cs ++ suffix_of ds.
Proof. unfold suffix_of. by rewrite fmap_app, concat_app. Qed.

Lemma is_slash_true b : is_slash b = true ↔ b = SLASH.
Proof. unfold is_slash. by rewrite bool_decide_eq_true. Qed.

Lemma any_slash_false c : any is_slash c = false ↔ SLASH ∉ c.
Proof.
  rewrite any_false. split.
  - intros H [i Hi]%list_elem_of_lookup. by specialize (H i _ Hi).
  - intros H i b Hi. destruct (is_slash b) eqn:E; [|done]. apply is_slash_true in E as ->.
    destruct H. by eapply list_elem_of_lookup_2.
Qed.

(** Splitting the rendering after its first slash gives the components back. *)
Lemma split_no_slash c : SLASH ∉ c → split_slash c = [c].
Proof.
  induction c as [|b c IH]; [done|]. intros [Hb Hc]%not_elem_of_cons. simpl.
  rewrite IH by done. by destruct (is_slash b) eqn:E; [apply is_slash_true in E|].
Qed.

Lemma split_cons c l : SLASH ∉ c → split_slash (c ++ SLASH :: l) = c :: split_slash l.
Proof.
  induction c as [|b c IH]; [done|]. intros [Hb Hc]%not_elem_of_cons. simpl.
  rewrite IH by done. by destruct (is_slash b) eqn:E; [apply is_slash_true in E|].
Qed.

Lemma split_suffix c cs : SLASH ∉ c → Forall (λ c, SLASH ∉ c) cs →
  split_slash (c ++ suffix_of cs) = c :: cs.
Proof.
  intros Hc Hcs. revert c Hc. induction Hcs as [|d cs Hd _ IH]; intros c Hc.
  - unfold suffix_of; simpl. rewrite app_nil_r. by apply split_no_slash.
  - change (suffix_of (d :: cs)) with (SLASH :: d ++ suffix_of cs).
    by rewrite split_cons, IH.
Qed.

(** ... and rendering undoes splitting. *)
Lemma split_slash_spec l : ∃ c cs, split_slash l = c :: cs ∧ l = c ++ suffix_of cs ∧
  Forall (λ c, SLASH ∉ c) (c :: cs).
Proof.
  induction l as [|b l (c & cs & Hs & Hl & HF)].
  { exists [], []. split_and!; [done|done|]. repeat constructor. apply not_elem_of_nil. }
  simpl. rewrite Hs. destruct (is_slash b) eqn:E.
  - apply is_slash_true in E as ->. exists [], (c :: cs). split_and!; [done|by rewrite Hl|].
    constructor; [apply not_elem_of_nil|done].
  - exists (b :: c), cs. split_and!; [done|by rewrite Hl|].
    apply Forall_cons in HF as [Hc HF]. constructor; [|done].
    apply not_elem_of_cons. split; [|done]. intros <-. by apply bool_decide_eq_false_1 in E.
Qed.

Lemma split_suffix_slash c cs t : SLASH ∉ c → Forall (λ c, SLASH ∉ c) cs →
  split_slash (c ++ suffix_of cs ++ SLASH :: t) = c :: cs ++ split_slash t.
Proof.
  intros Hc Hcs. revert c Hc. induction Hcs as [|d cs Hd _ IH]; intros c Hc.
  - change (suffix_of []) with (@nil byte). by rewrite app_nil_l, split_cons.
  - change (suffix_of (d :: cs)) with (SLASH :: d ++ suffix_of cs).
    simpl. rewrite split_cons by done. by rewrite <-app_assoc, IH.
Qed.

Lemma good_no_slash cs : Forall good cs → Forall (λ c, SLASH ∉ c) cs.
Proof. intros H. eapply Forall_impl; [exact H|]. by intros c (_ & ? & _). Qed.

Lemma suffix_inj cs ds : Forall (λ c, SLASH ∉ c) cs → Forall (λ c, SLASH ∉ c) ds →
  suffix_of cs = suffix_of ds → cs = ds.
Proof.
  intros Hc Hd. destruct cs as [|c cs], ds as [|d ds]; [done..|].
  change (suffix_of (c :: cs)) with (SLASH :: c ++ suffix_of cs).
  change (suffix_of (d :: ds)) with (SLASH :: d ++ suffix_of ds). intros [= E].
  apply Forall_cons in Hc as [Hc Hcs], Hd as [Hd Hds].
  apply (f_equal split_slash) in E. by rewrite !split_suffix in E.
Qed.

Lemma render_inj cs ds : Forall good cs → Forall good ds → render cs = render ds → cs = ds.
Proof.
  intros Hc Hd E.
  assert (Hone : ∀ e es, Forall good (e :: es) → [SLASH] ≠ suffix_of (e :: es)).
  { intros e es [He _]%Forall_cons. destruct He as [He _]. by destruct e. }
  destruct cs as [|c cs], ds as [|d ds]; [done| | |].
  - by destruct (Hone d ds Hd).
  - symmetry in E. by destruct (Hone c cs Hc).
  - apply suffix_inj; [by apply good_no_slash..|exact E].
Qed.

Lemma elem_of_suffix b cs : b ∈ suffix_of cs ↔ ∃ c, c ∈ cs ∧ (b = SLASH ∨ b ∈ c).
Proof.
  induction cs as [|d cs IH].
  - split; [by intros []%not_elem_of_nil|by intros (c & []%not_elem_of_nil & _)].
  - change (suffix_of (d :: cs)) with (SLASH :: d ++ suffix_of cs).
    rewrite elem_of_cons, elem_of_app, IH. split.
    + intros [->|[Hb|(c & Hc & Hb)]]; [exists d|exists d|exists c]; rewrite elem_of_cons; auto.
    + intros (c & [->|Hc]%elem_of_cons & [->|Hb]); auto; right; right; eauto.
Qed.

Lemma render_starts cs : starts_with_slash (render cs) = true.
Proof. destruct cs; by apply is_slash_true. Qed.

Lemma bad_component_false c : SLASH ∉ c → x00 ∉ c → bad_component c = false ↔ good c.
Proof.
  intros Hs H0. unfold bad_component, good. rewrite !orb_false_iff, !bool_decide_eq_false, Nat.ltb_ge.
  tauto.
Qed.

Lemma any_bad_false cs : Forall (λ c, SLASH ∉ c ∧ x00 ∉ c) cs → any bad_component cs = false ↔ Forall good cs.
Proof.
  intros H. rewrite any_false, Forall_lookup. rewrite Forall_lookup in H.
  split; intros Hb i c Hc; destruct (H i c Hc); apply bad_component_false; eauto.
Qed.

Lemma validate_ok path :
  validate_absolute_path path = Ok tt ↔
  ∃ cs, path = render cs ∧ Forall good cs ∧ (length path ≤ MAX_PATH_SIZE)%nat.
Proof.
  unfold validate_absolute_path. split.
  - destruct (_ || _) eqn:E1; [done|]. open_guards. destruct (any _ path) eqn:E2; [done|].
    rewrite any_false in E2.
    assert (Hnul : x00 ∉ path).
    { intros [i Hi]%list_elem_of_lookup. specialize (E2 i _ Hi). by apply bool_decide_eq_false_1 in E2. }
    destruct path as [|b path]; [done|]. simpl in *. assert (b = SLASH) as -> by by apply is_slash_true.
    destruct (bool_decide (SLASH :: path = [SLASH])) eqn:E3; simpl.
    { apply bool_decide_eq_true_1 in E3. intros _. exists []. split_and!; [done|constructor|done]. }
    destruct (any bad_component _) eqn:E4; [done|]. intros _.
    destruct (split_slash_spec path) as (c & cs & Hs & Hp & HF). rewrite drop_0, Hs in E4.
    exists (c :: cs). split_and!; [by rewrite Hp| |done].
    apply any_bad_false; [|done]. apply Forall_forall. intros d Hd. rewrite Forall_forall in HF.
    split; [by apply HF|]. intros Hx. apply Hnul, list_elem_of_further. rewrite Hp.
    apply elem_of_app. apply elem_of_cons in Hd as [->|Hd]; [by left|right].
    apply elem_of_suffix. eauto.
  - intros (cs & -> & Hg & Hlen). rewrite render_starts.
    rewrite bool_decide_eq_false_2 by (by destruct cs). rewrite (proj2 (Nat.ltb_ge _ _)) by done. simpl.
    assert (any (λ b, bool_decide (b = x00)) (render cs) = false) as ->.
    { apply any_false. intros i b Hi%list_elem_of_lookup_2. apply bool_decide_eq_false. intros ->.
      assert (Hin : x00 ∈ suffix_of cs).
      { destruct cs; [|done]. by apply list_elem_of_singleton in Hi. }
      apply elem_of_suffix in Hin as (c & Hc & [Hbad|Hin]); [done|].
      rewrite Forall_forall in Hg. by destruct (Hg c Hc) as (_ & _ & _ & _ & _ & ?). }
    destruct cs as [|c cs]; [by rewrite bool_decide_eq_true_2|].
    destruct (bool_decide _); [done|].
    change (render (c :: cs)) with (SLASH :: c ++ suffix_of cs). cbn [drop]. rewrite ?drop_0.
    pose proof (good_no_slash _ Hg) as [Hc Hcs]%Forall_cons. rewrite split_suffix by done.
    assert (any bad_component (c :: cs) = false) as ->; [|done].
    apply any_bad_false; [|exact Hg]. apply Forall_forall. intros d Hd.
    rewrite Forall_forall in Hg. destruct (Hg d Hd) as (_ & ? & _ & _ & _ & ?). done.
Qed.

(** A rendering that continues another one at a slash extends its components. *)
Lemma suffix_prefix ds cs t : Forall good ds → Forall good cs →
  suffix_of cs = suffix_of ds ++ SLASH :: t → ∃ r, r ≠ [] ∧ cs = ds ++ r ∧ SLASH :: t = suffix_of r.
Proof.
  intros Hd Hc E. assert (Hr : ∃ r, cs = ds ++ r).
  { destruct cs as [|c cs].
    { exfalso. apply (f_equal length) in E. rewrite length_app in E. change (length (suffix_of [])) with 0%nat in E.
      simpl in E. lia. }
    change (suffix_of (c :: cs)) with (SLASH :: c ++ suffix_of cs) in E.
    pose proof (good_no_slash _ Hc) as [Hc1 Hc2]%Forall_cons.
    destruct ds as [|d ds]; [by exists (c :: cs)|].
    change (suffix_of (d :: ds)) with (SLASH :: d ++ suffix_of ds) in E. injection E as E.
    pose proof (good_no_slash _ Hd) as [Hd1 Hd2]%Forall_cons.
    apply (f_equal split_slash) in E.
    rewrite split_suffix, <-app_assoc, split_suffix_slash in E by done.
    exists (split_slash t). exact E. }
  destruct Hr as [r ->]. rewrite suffix_app in E. apply app_inv_head in E.
  exists r. split_and!; [|done|done]. intros ->. discriminate E.
Qed.

Lemma parent_render cs c :
  Forall good (cs ++ [c]) → parent_path (render (cs ++ [c])) = Some (render cs).
Proof.
  intros [Hcs [Hc _]%Forall_cons]%Forall_app. destruct Hc as (Hne & Hs & _).
  assert (Hr : render (cs ++ [c]) = suffix_of cs ++ SLASH :: c).
  { rewrite render_nonempty by (by destruct cs). rewrite suffix_app. unfold suffix_of; simpl.
    by rewrite app_nil_r. }
  assert (Hlen : (0 < length c)%nat) by (destruct c; [done|simpl; lia]).
  unfold parent_path. rewrite bool_decide_eq_false_2.
  2: { rewrite Hr. intros E%(f_equal length). rewrite length_app in E. simpl in E. lia. }
  rewrite Hr.
  assert (Htrim : trim_end (suffix_of cs ++ SLASH :: c) = suffix_of cs ++ SLASH :: c).
  { unfold trim_end. destruct c as [|b c _] using rev_ind; [done|].
    rewrite cons_middle, app_assoc, app_assoc, reverse_snoc. cbn [trim_start].
    destruct (is_slash b) eqn:Eb.
    - apply is_slash_true in Eb as ->. destruct Hs. apply elem_of_app. right. by apply list_elem_of_singleton.
    - rewrite <-reverse_snoc. by rewrite reverse_involutive. }
  rewrite Htrim. unfold rfind_slash.
  assert (Hpos : position is_slash (reverse (suffix_of cs ++ SLASH :: c)) = Some (length c)).
  { apply position_Some. rewrite reverse_app, reverse_cons, <-app_assoc. split.
    - exists SLASH. split; [|by apply is_slash_true].
      rewrite lookup_app_r, length_reverse, Nat.sub_diag by (by rewrite length_reverse). done.
    - intros j b Hj Hb. rewrite lookup_app_l in Hb by (by rewrite length_reverse).
      apply list_elem_of_lookup_2 in Hb. rewrite elem_of_reverse in Hb.
      destruct (is_slash b) eqn:E; [|done]. apply is_slash_true in E. subst b. by destruct Hs. }
  rewrite Hpos. simpl. rewrite length_app. simpl.
  replace (length (suffix_of cs) + S (length c) - 1 - length c)%nat with (length (suffix_of cs)) by lia.
  destruct cs as [|d cs]; [done|]. change (length (suffix_of (d :: cs))) with (S (length (d ++ suffix_of cs))).
  change (S (length (d ++ suffix_of cs))) with (length (suffix_of (d :: cs))).
  by rewrite take_app_length.
Qed.

Lemma starts_with_true p l : starts_with p l = true ↔ ∃ t, l = p ++ t.
Proof.
  unfold starts_with. rewrite bool_decide_eq_true. split.
  - intros E. exists (drop (length p) l). rewrite <-E at 1. symmetry. apply take_drop.
  - intros [t ->]. apply take_app_length.
Qed.

Lemma descendant_render ds cs s :
  ds ≠ [] → Forall good ds → Forall good cs →
  descendant_suffix (render ds) (render cs) = Some s ↔
  ∃ r, r ≠ [] ∧ cs = ds ++ r ∧ s = suffix_of r.
Proof.
  intros Hne Hd Hc. rewrite (render_nonempty ds) by done. unfold descendant_suffix, strip_prefix. split.
  - destruct (starts_with _ _) eqn:E; [|done]. apply starts_with_true in E as [t Ht].
    rewrite Ht, drop_app_length. simpl. destruct t as [|b t]; [done|]. simpl.
    destruct (is_slash b) eqn:Eb; [|done]. apply is_slash_true in Eb as ->. intros [= <-].
    destruct cs as [|c cs].
    + exfalso. destruct ds as [|d ds]; [done|]. apply Forall_cons in Hd as [[Hd _] _].
      change (suffix_of (d :: ds)) with (SLASH :: d ++ suffix_of ds) in Ht. injection Ht as Ht.
      destruct d; [done|discriminate Ht].
    + by apply suffix_prefix.
  - intros (r & Hr & -> & ->). rewrite render_nonempty by (by destruct ds). rewrite suffix_app.
    assert (starts_with (suffix_of ds) (suffix_of ds ++ suffix_of r) = true) as ->
      by (apply starts_with_true; eauto).
    rewrite drop_app_length. destruct r as [|x r]; [done|]. simpl. done.
Qed.

Lemma child_of_root cs n : Forall good cs →
  immediate_child_name [SLASH] (render cs) = Some n ↔ cs = [n].
Proof.
  intros Hc. unfold immediate_child_name. rewrite (bool_decide_eq_true_2 ([SLASH] = [SLASH])) by done.
  destruct cs as [|c cs]; [by rewrite bool_decide_eq_true_2|].
  change (render (c :: cs)) with (SLASH :: c ++ suffix_of cs).
  apply Forall_cons in Hc as [Hc Hcs]. destruct Hc as (Hne & Hs & _).
  rewrite bool_decide_eq_false_2 by (by destruct c).
  change (starts_with_slash (SLASH :: c ++ suffix_of cs)) with (is_slash SLASH).
  rewrite (proj2 (is_slash_true SLASH)) by done. rewrite (proj2 (Nat.ltb_ge _ _)) by (destruct c; simpl; [done|lia]).
  cbn [negb orb drop]. rewrite ?drop_0. destruct cs as [|d cs].
  - change (suffix_of []) with (@nil byte). rewrite app_nil_r, (proj2 (any_slash_false c)) by done.
    naive_solver.
  - assert (any is_slash (c ++ suffix_of (d :: cs)) = true) as ->; [|done].
    apply any_true. exists (length c), SLASH. split; [|by apply is_slash_true].
    by rewrite lookup_app_r, Nat.sub_diag.
Qed.

Lemma child_render ds cs n :
  Forall good ds → Forall good cs →
  immediate_child_name (render ds) (render cs) = Some n ↔ cs = ds ++ [n].
Proof.
  intros Hd Hc. destruct ds as [|d0 ds0]; [by apply child_of_root|].
  remember (d0 :: ds0) as ds eqn:Eds. assert (Hne : ds ≠ []) by by subst.
  unfold immediate_child_name. destruct (bool_decide (render cs = render ds)) eqn:E.
  { apply bool_decide_eq_true_1, render_inj in E as ->; [|done..]. split; [done|].
    intros H%(f_equal length). rewrite length_app in H. simpl in H. lia. }
  rewrite bool_decide_eq_false_2.
  2: { change [SLASH] with (render []). intros H%render_inj; [done|done|constructor]. }
  pose proof (descendant_render ds cs) as Hdesc. unfold descendant_suffix, strip_prefix in Hdesc.
  destruct (starts_with (render ds) (render cs)) eqn:Es; cbn [negb].
  2: { split; [done|]. intros ->. specialize (Hdesc (suffix_of [n]) Hne Hd Hc).
       destruct Hdesc as [_ Hx]. discriminate Hx. by exists [n]. }
  cbn [mbind option_bind] in Hdesc. destruct (starts_with_slash (drop _ _)) eqn:Ess; cbn [negb].
  2: { split; [done|]. intros ->. specialize (Hdesc (suffix_of [n]) Hne Hd Hc).
       destruct Hdesc as [_ Hx]. discriminate Hx. by exists [n]. }
  destruct (proj1 (Hdesc _ Hne Hd Hc) eq_refl) as (r & Hr & -> & ->).
  destruct r as [|c r]; [done|]. apply Forall_app in Hc as [_ [Hc Hr']%Forall_cons].
  destruct Hc as (Hcne & Hs & _).
  change (drop 1 (suffix_of (c :: r))) with (drop 0 (c ++ suffix_of r)). rewrite drop_0.
  destruct r as [|c' r].
  - change (suffix_of []) with (@nil byte). rewrite app_nil_r, bool_decide_eq_false_2 by done.
    rewrite (proj2 (any_slash_false c)) by done. split; [by intros [= ->]|].
    intros H%app_inv_head. by injection H as ->.
  - rewrite bool_decide_eq_false_2 by (by destruct c).
    assert (any is_slash (c ++ suffix_of (c' :: r)) = true) as ->.
    { apply any_true. exists (length c), SLASH. split; [|by apply is_slash_true].
      by rewrite lookup_app_r, Nat.sub_diag. }
    split; [done|]. intros H%app_inv_head. discriminate H.
Qed.

(** ** The properties *)

(** C38: the paths the VFS accepts are exactly the canonical absolute paths: the
    renderings, within the path capacity, of lists of components that are not
    empty, ["."] or [".."], have at most 64 bytes and no slash or NUL. *)
Theorem valid_path_iff path :
  validate_absolute_path path = Ok tt ↔
  ∃ cs, path = render cs ∧ Forall good cs ∧ (length path ≤ MAX_PATH_SIZE)%nat.
Proof. apply validate_ok. Qed.

(** [parent_path] of a valid path is the path without its last component. *)
Theorem parent_path_render cs c :
  Forall good (cs ++ [c]) → parent_path (render (cs ++ [c])) = Some (render cs).
Proof. apply parent_render. Qed.

(** [descendant_suffix] finds exactly the paths strictly below a directory:
    for valid paths other than the root, it returns a suffix just when the
    path's components extend the directory's, and the suffix is the rest. *)
Theorem descendant_suffix_render ds cs s :
  ds ≠ [] → Forall good ds → Forall good cs →
  descendant_suffix (render ds) (render cs) = Some s ↔
  ∃ r, r ≠ [] ∧ cs = ds ++ r ∧ s = suffix_of r.
Proof. apply descendant_render. Qed.

(** [immediate_child_name] recognises exactly the direct children: for valid
    paths it returns a name just when the child's components are the
    directory's followed by that name. *)
Theorem immediate_child_render ds cs n :
  Forall good ds → Forall good cs →
  immediate_child_name (render ds) (render cs) = Some n ↔ cs = ds ++ [n].
Proof. apply child_render. Qed.

(** ** Concrete paths *)

#[export] Instance good_dec c : Decision (good c).
Proof. unfold good. apply _. Defined.

(** The components of [/home/anthony/docs]. *)
Definition home : list (list byte) := [bytes "home"; bytes "anthony"].
Definition docs : list byte := bytes "docs".

Lemma home_good : Forall good (home ++ [docs]).
Proof. apply (bool_decide_eq_true_1 (Forall good (home ++ [docs]))). vm_compute. reflexivity. Qed.
Lemma home_good_prefix : Forall good home.
Proof. apply (bool_decide_eq_true_1 (Forall good home)). vm_compute. reflexivity. Qed.

Lemma parent_path_render_witness : parent_path (bytes "/home/anthony/docs") = Some (bytes "/home/anthony").
Proof.
  change (bytes "/home/anthony/docs") with (render (home ++ [docs])).
  change (bytes "/home/anthony") with (render home).
  exact (parent_path_render home docs home_good).
Defined.

Lemma descendant_suffix_witness :
  descendant_suffix (bytes "/home/anthony") (bytes "/home/anthony/docs") = Some (bytes "/docs") ∧
  descendant_suffix (bytes "/home/anthony") (bytes "/home/anthony2") = None.
Proof.
  assert (Hne : home ≠ []) by discriminate.
  split; [|vm_compute; reflexivity].
  apply (descendant_suffix_render home (home ++ [docs]) (bytes "/docs") Hne home_good_prefix home_good).
  exists [docs]. split; [discriminate|]. split; reflexivity.
Defined.

Lemma immediate_child_witness :
  immediate_child_name (bytes "/home/anthony") (bytes "/home/anthony/docs") = Some (bytes "docs").
Proof.
  apply (immediate_child_render home (home ++ [docs]) docs home_good_prefix home_good). reflexivity.
Defined.
