(* ===== verification/Vfs.v ===== *)
(** * The virtual file system (kernel/src/vfs.rs)

    The node registry: a fixed table of named files and directories.  The
    theorems: every operation keeps the tree well formed (distinct canonical
    names whose parents are directories, contents within capacity) and acts on
    it as on a map from component lists to nodes. *)
From stdpp Require Import list.
From S2P Require Import Prelude Config VfsPath.

Definition NODE_CAPACITY : nat := VFS_NODE_CAPACITY.
#[global] Opaque NODE_CAPACITY MAX_PATH_SIZE MAX_VFS_NODES.

Inductive NodeKind := File | Directory.
#[export] Instance NodeKind_eq_dec : EqDecision NodeKind.
Proof. solve_decision. Defined.

Record DiskPath := mkDiskPath { dbytes : list byte; dlength : nat }.
Definition as_str (d : DiskPath) : list byte := str_or_empty (take (dlength d) (dbytes d)).

Record Node := mkNode {
  path : list byte; path_length : nat; data : list byte; backing : option DiskPath;
  nlength : nat; writable : bool; kind : NodeKind; occupied : bool }.

Definition node_empty : Node :=
  mkNode (replicate MAX_PATH_SIZE x00) 0 (replicate NODE_CAPACITY x00) None 0 false File false.

Definition node_with_data (p d : list byte) (w : bool) : Node :=
  mkNode (splice (path node_empty) 0 p) (length p) (splice (data node_empty) 0 d) None (length d) w File true.

Definition node_directory (p : list byte) : Node :=
  mkNode (splice (path node_empty) 0 p) (length p) (data node_empty) None 0 true Directory true.

Definition matches (p : list byte) (n : Node) : bool :=
  occupied n && bool_decide (take (path_length n) (path n) = p).
Definition path_str (n : Node) : list byte := str_or_empty (take (path_length n) (path n)).

Record Stat := mkStat { st_kind : NodeKind; st_size : nat; st_writable : bool }.
Record DirEntry := mkEntry { de_name : list byte; de_length : nat; de_kind : NodeKind }.
Definition name_str (e : DirEntry) : list byte := str_or_empty (take (de_length e) (de_name e)).

Record Registry := mkRegistry { versions : list Z; generations : list Z; nodes : list Node }.

Definition registry_empty : Registry :=
  mkRegistry (replicate MAX_VFS_NODES 0) (replicate MAX_VFS_NODES 0) (replicate MAX_VFS_NODES node_empty).

Definition boot : Registry :=
  mkRegistry (replicate MAX_VFS_NODES 0) (replicate MAX_VFS_NODES 0)
    (splice (replicate MAX_VFS_NODES node_empty) 0
      [node_directory (bytes "/"); node_directory (bytes "/etc"); node_directory (bytes "/tmp");
       node_directory (bytes "/mnt"); node_directory (bytes "/bin");
       node_with_data (bytes "/etc/motd") (bytes "Welcome to WovenHat OS." ++ [Corelib.Init.Byte.x0a]) false;
       node_with_data (bytes "/etc/version")
         (bytes "WovenHat kernel 0.8.0 Multicore Foundation" ++ [Corelib.Init.Byte.x0a]) false;
       node_with_data (bytes "/tmp/vfs-self-test") [] true]).

(** Replace node [i]. *)
Definition set_node (i : nat) (n : Node) (r : Registry) : Registry :=
  mkRegistry (versions r) (generations r) (<[i := n]> (nodes r)).

Definition find_node (p : list byte) (r : Registry) : option nat := position (matches p) (nodes r).

(** [self.nodes.iter().any(|n| n.matches(parent) && n.kind == Directory)] *)
Definition has_directory (p : list byte) (r : Registry) : bool :=
  any (λ n, matches p n && bool_decide (kind n = Directory)) (nodes r).

(** A fallible observation of the state. *)
Definition asks {S A} (f : S → res VError A) : M S VError A := λ s, (f s, s).
Definition require {S} (b : bool) (e : VError) : M S VError unit := guard_ok b e.

(** The parent of a new name must be a directory. *)
Definition check_parent (p : list byte) : M Registry VError unit :=
  parent ← lift (ok_or InvalidPath (parent_path p));
  ok ← gets (has_directory parent);
  require ok NotFound.

Definition free_node : M Registry VError nat := λ r,
  (ok_or Full (position (λ n, negb (occupied n)) (nodes r)), r).

(** Store the file in the free node [i]; the node's other bytes stay. *)
Definition fill_file (i : nat) (p d : list byte) (w : bool) : M Registry VError unit := λ r,
  match nodes r !! i with
  | Some n =>
    (Ok tt, set_node i (mkNode (splice (path n) 0 p) (length p) (splice (data n) 0 d) (backing n)
                          (length d) w File true) r)
  | None => (Panic, r)
  end.

Definition insert (p d : list byte) (w : bool) : M Registry VError nat :=
  _ ← lift (validate_absolute_path p);
  _ ← require (Nat.leb (length d) NODE_CAPACITY) Full;
  taken ← gets (λ r, any (matches p) (nodes r));
  _ ← require (negb taken) AlreadyExists;
  _ ← (if bool_decide (p = [SLASH]) then mret tt else check_parent p);
  i ← free_node;
  _ ← fill_file i p d w;
  mret i.

Definition mkdir (p : list byte) : M Registry VError nat :=
  _ ← lift (validate_absolute_path p);
  _ ← require (negb (bool_decide (p = [SLASH]))) AlreadyExists;
  taken ← gets (λ r, any (matches p) (nodes r));
  _ ← require (negb taken) AlreadyExists;
  _ ← check_parent p;
  i ← free_node;
  _ ← modify (set_node i (node_directory p));
  mret i.

Definition node_count (r : Registry) : nat :=
  count (λ n, occupied n && negb (Nat.eqb (path_length n) 0)) (nodes r).

Definition has_child (dir : list byte) (r : Registry) : bool :=
  any (λ n, occupied n && bool_decide (is_Some (immediate_child_name dir (path_str n)))) (nodes r).

Definition removable_index (p : list byte) (r : Registry) : res VError nat :=
  _ ← validate_absolute_path p;
  if bool_decide (p = [SLASH]) then Err ReadOnly else
  i ← ok_or NotFound (find_node p r);
  n ← or_panic (nodes r !! i);
  if bool_decide (kind n = Directory) && has_child (path_str n) r then Err NotEmpty else Ok i.

Definition can_remove (p : list byte) (r : Registry) : res VError unit := (λ _, tt) <$> removable_index p r.

(** [self.generations[i].checked_add(1).ok_or(Full)?], stored. *)
Definition bump_generation (i : nat) : M Registry VError unit := λ r,
  match generations r !! i with
  | None => (Panic, r)
  | Some g =>
    match checked_add 64 g 1 with
    | None => (Err Full, r)
    | Some g => (Ok tt, mkRegistry (versions r) (<[i := g]> (generations r)) (nodes r))
    end
  end.

Definition cleared (n : Node) : Node :=
  mkNode (replicate (length (path n)) x00) 0 (replicate (length (data n)) x00) None 0 false (kind n) false.

Definition remove (p : list byte) : M Registry VError unit :=
  r ← get;
  i ← lift (removable_index p r);
  _ ← bump_generation i;
  n ← lift (or_panic (nodes r !! i));
  modify (set_node i (cleared n)).

Definition is_directory (n : Node) : bool := bool_decide (kind n = Directory).

(** The preflight of a node: every path the rename would make must fit. *)
Definition too_long (old new : list byte) (p : list byte) : bool :=
  match descendant_suffix old p with
  | Some s => Nat.ltb MAX_PATH_SIZE (length new + length s)
  | None => false
  end.

Definition preflight_fails (directory : bool) (old new : list byte) (n : Node) : bool :=
  directory && too_long old new (path_str n)
  || match backing n with
     | Some b => if directory then too_long old new (as_str b)
                 else bool_decide (as_str b = old) && Nat.ltb MAX_PATH_SIZE (length new)
     | None => false
     end.

Definition validate_rename (old new : list byte) (r : Registry) : res VError unit :=
  _ ← validate_absolute_path old;
  _ ← validate_absolute_path new;
  if bool_decide (old = [SLASH]) || bool_decide (new = [SLASH]) then Err ReadOnly else
  i ← ok_or NotFound (find_node old r);
  if bool_decide (old = new) then Ok tt
  else if any (matches new) (nodes r) then Err AlreadyExists
  else if bool_decide (is_Some (descendant_suffix old new)) then Err InvalidPath
  else
    parent ← ok_or InvalidPath (parent_path new);
    if negb (has_directory parent r) then Err NotFound else
    n ← or_panic (nodes r !! i);
    if any (λ m, occupied m && preflight_fails (is_directory n) old new m) (nodes r)
    then Err InvalidPath else Ok tt.

(** The in-place move of a stored path: its first [start] bytes become [new].
    [None] where a slice operation would panic. *)
Definition move_prefix (start : nat) (new bs : list byte) (len : nat) : option (list byte * nat) :=
  if Nat.ltb len start || Nat.ltb (length bs) (length new + (len - start)) then None
  else
    let suffix_len := (len - start)%nat in
    let bs := splice bs (length new) (slice bs start suffix_len) in
    let bs := splice bs 0 new in
    let len := (length new + suffix_len)%nat in
    Some (take len bs ++ replicate (length bs - len) x00, len).

Definition rename_node (directory : bool) (old new : list byte) (n : Node) : option Node :=
  if negb (occupied n) then Some n else
  n ← (if matches old n || directory && bool_decide (is_Some (descendant_suffix old (path_str n)))
       then '(p, len) ← move_prefix (length old) new (path n) (path_length n);
            Some (mkNode p len (data n) (backing n) (nlength n) (writable n) (kind n) (occupied n))
       else Some n);
  match backing n with
  | Some b =>
    if bool_decide (as_str b = old) || directory && bool_decide (is_Some (descendant_suffix old (as_str b)))
    then '(p, len) ← move_prefix (length old) new (dbytes b) (dlength b);
         Some (mkNode (path n) (path_length n) (data n) (Some (mkDiskPath p len)) (nlength n)
                 (writable n) (kind n) (occupied n))
    else Some n
  | None => Some n
  end.

Definition rename (old new : list byte) : M Registry VError unit := λ r,
  match validate_rename old new r with
  | Err e => (Err e, r)
  | Panic => (Panic, r)
  | Ok _ =>
    if bool_decide (old = new) then (Ok tt, r) else
    match find_node old r with
    | None => (Err NotFound, r)
    | Some i =>
      match nodes r !! i with
      | None => (Panic, r)
      | Some n =>
        match mapM (rename_node (is_directory n) old new) (nodes r) with
        | Some ns => (Ok tt, mkRegistry (versions r) (generations r) ns)
        | None => (Panic, r)
        end
      end
    end
  end.

Definition stat (p : list byte) (r : Registry) : res VError Stat :=
  _ ← validate_absolute_path p;
  n ← ok_or NotFound (i ← find_node p r; nodes r !! i);
  Ok (mkStat (kind n) (nlength n) (writable n)).

(** The occupied children of a directory, in table order. *)
Definition children (dir : list byte) (ns : list Node) : list (list byte * NodeKind) :=
  omap (λ n, if occupied n then (λ name, (name, kind n)) <$> immediate_child_name dir (path_str n) else None) ns.

Definition dir_entry (name : list byte) (k : NodeKind) : DirEntry :=
  let len := Nat.min (length name) MAX_DIR_NAME in
  mkEntry (splice (replicate MAX_DIR_NAME x00) 0 (take len name)) len k.

(** The loop of [readdir] returns the [index]-th child. *)
Definition readdir (dir : list byte) (index : nat) (r : Registry) : res VError DirEntry :=
  _ ← validate_absolute_path dir;
  d ← ok_or NotFound
    (i ← position (λ n, matches dir n && is_directory n) (nodes r); nodes r !! i);
  '(name, k) ← ok_or NotFound (children (path_str d) (nodes r) !! index);
  Ok (dir_entry name k).

(** ** Open-file descriptions *)

Record OpenFileDescription := mkOpen {
  onode : nat; ogeneration : Z; offset : nat; refcount : Z; ooccupied : bool }.
Definition open_empty : OpenFileDescription := mkOpen 0 0 0 0 false.

Abbreviation OpenFileId := nat.
Abbreviation OpenFileTable := (list OpenFileDescription).
Definition table_empty : OpenFileTable := replicate MAX_OPEN_FILES open_empty.

Definition alloc (n : nat) (g : Z) : M OpenFileTable VError OpenFileId := λ t,
  match position (λ e, negb (ooccupied e)) t with
  | None => (Err Full, t)
  | Some slot => (Ok slot, <[slot := mkOpen n g 0 1 true]> t)
  end.

Definition get_mut (id : OpenFileId) (t : OpenFileTable) : res VError OpenFileDescription :=
  ok_or InvalidDescriptor (e ← t !! id; if ooccupied e && (0 <? refcount e) then Some e else None).

Definition set_refcount (n : Z) (e : OpenFileDescription) : OpenFileDescription :=
  mkOpen (onode e) (ogeneration e) (offset e) n (ooccupied e).
Definition set_offset (n : nat) (e : OpenFileDescription) : OpenFileDescription :=
  mkOpen (onode e) (ogeneration e) n (refcount e) (ooccupied e).

Definition clone_id (id : OpenFileId) : M OpenFileTable VError OpenFileId := λ t,
  match get_mut id t with
  | Ok e =>
    match checked_add 32 (refcount e) 1 with
    | None => (Err Full, t)
    | Some n => (Ok id, <[id := set_refcount n e]> t)
    end
  | Err e => (Err e, t)
  | Panic => (Panic, t)
  end.

Definition drop_id (id : OpenFileId) : M OpenFileTable VError unit := λ t,
  match t !! id with
  | Some e =>
    if negb (ooccupied e) then (Err InvalidDescriptor, t)
    else if refcount e =? 0 then (Err InvalidDescriptor, t)
    else
      let e := set_refcount (refcount e - 1) e in
      (Ok tt, <[id := if refcount e =? 0 then open_empty else e]> t)
  | None => (Err InvalidDescriptor, t)
  end.

Definition live_count (t : OpenFileTable) : nat := count ooccupied t.

(** Some description refers to node [i]. *)
Definition is_open (i : nat) (t : OpenFileTable) : bool :=
  any (λ e, ooccupied e && Nat.eqb (onode e) i) t.

(** ** The components the VFS calls *)

(** [crate::file_frames]: the physical pages shared by file mappings, updated on
    every write and laid over every read. *)
Class Frames (F : Type) := {
  fr_replace : nat → Z → list byte → F → F;
  fr_update : nat → Z → nat → list byte → F → F;
  fr_overlay : nat → Z → nat → list byte → F → list byte }.

(** [crate::storage::read_disk_file]: reads a file of the mounted volume into a
    buffer; [K] is the storage layer's state. *)
Class DiskFiles (K : Type) := {
  read_disk_file : list byte → nat → list byte → K → res unit nat * list byte * K }.

(** The three globals [REGISTRY], [OPEN_FILES], the frame cache, and the storage. *)
Record Fs (F K : Type) := mkFs { registry : Registry; files : OpenFileTable; frames : F; storage : K }.
Arguments mkFs {F K}. Arguments registry {F K}. Arguments files {F K}. Arguments frames {F K}.
Arguments storage {F K}.

Section operations.
Context {F K : Type} `{Frames F, DiskFiles K}.
Implicit Types (s : Fs F K).
Abbreviation Op := (M (Fs F K) VError).

(** Run a method of one of the globals. *)
Definition on_registry {A} (m : M Registry VError A) : Op A := λ s,
  let '(r, reg) := m (registry s) in (r, mkFs reg (files s) (frames s) (storage s)).
Definition on_files {A} (m : M OpenFileTable VError A) : Op A := λ s,
  let '(r, t) := m (files s) in (r, mkFs (registry s) t (frames s) (storage s)).
Definition on_frames (f : F → F) : Op unit := λ s,
  (Ok tt, mkFs (registry s) (files s) (f (frames s)) (storage s)).

Definition reg_node (i : nat) : Op Node := λ s, (or_panic (nodes (registry s) !! i), s).
Definition reg_generation (i : nat) : Op Z := λ s, (or_panic (generations (registry s) !! i), s).
Definition put_node (i : nat) (n : Node) : Op unit := on_registry (modify (set_node i n)).
Definition open_entry (id : OpenFileId) : Op OpenFileDescription := λ s, (get_mut id (files s), s).

Definition bump_version (i : nat) : M Registry VError unit := λ r,
  match versions r !! i with
  | None => (Panic, r)
  | Some v => (Ok tt, mkRegistry (<[i := wrapping_add 64 v 1]> (versions r)) (generations r) (nodes r))
  end.

Definition write_file (p d : list byte) : Op unit :=
  _ ← lift (validate_absolute_path p);
  _ ← require (Nat.leb (length d) NODE_CAPACITY) Full;
  found ← gets (λ s, find_node p (registry s));
  match found with
  | Some i =>
    n ← reg_node i;
    _ ← require (bool_decide (kind n = File)) AlreadyExists;
    _ ← require (writable n) ReadOnly;
    _ ← put_node i (mkNode (path n) (path_length n)
          (splice (replicate (length (data n)) x00) 0 d) None (length d) (writable n) (kind n) (occupied n));
    _ ← on_registry (bump_version i);
    g ← reg_generation i;
    on_frames (fr_replace i g d)
  | None => _ ← on_registry (insert p d true); mret tt
  end.

Definition create_read_only (p d : list byte) : Op unit := _ ← on_registry (insert p d false); mret tt.

Definition create_disk_file_with_writable (p : list byte) (len : nat) (w : bool) : Op unit :=
  _ ← require (Nat.leb len NODE_CAPACITY) Full;
  i ← on_registry (insert p [] w);
  n ← reg_node i;
  let b := mkDiskPath (splice (replicate MAX_PATH_SIZE x00) 0 p) (length p) in
  put_node i (mkNode (path n) (path_length n) (data n) (Some b) len (writable n) (kind n) (occupied n)).

Definition create_disk_file (p : list byte) (len : nat) : Op unit :=
  create_disk_file_with_writable p len false.

(** [read_disk_file] with its error mapped to [Io]. *)
Definition disk_read (p : list byte) (off : nat) (buf : list byte) : Op (nat * list byte) := λ s,
  let '(r, buf, k) := read_disk_file p off buf (storage s) in
  let s := mkFs (registry s) (files s) (frames s) k in
  match r with Ok n => (Ok (n, buf), s) | Err _ => (Err Io, s) | Panic => (Panic, s) end.

(** Load the payload of a disk-backed node; the node's buffer keeps what was
    read even when the call fails. *)
Definition materialize_disk_node (i : nat) : Op unit := λ s,
  match nodes (registry s) !! i with
  | None => (Panic, s)
  | Some n =>
    match backing n with
    | None => (Ok tt, s)
    | Some b =>
      if Nat.ltb (length (data n)) (nlength n) then (Panic, s) else
      let '(r, buf, k) := read_disk_file (as_str b) 0 (take (nlength n) (data n)) (storage s) in
      let filled bk := set_node i (mkNode (path n) (path_length n) (splice (data n) 0 buf) bk
                                     (nlength n) (writable n) (kind n) (occupied n)) (registry s) in
      let st bk := mkFs (filled bk) (files s) (frames s) k in
      match r with
      | Panic => (Panic, st (Some b))
      | Err _ => (Err Io, st (Some b))
      | Ok c => if Nat.eqb c (nlength n) then (Ok tt, st None) else (Err Io, st (Some b))
      end
    end
  end.

(** An index past the end, or a subtraction below zero, panics. *)
Definition require_range (a b : nat) : res VError unit := if Nat.leb a b then Ok tt else Panic.

Definition can_remove_path (p : list byte) : Op unit := λ s, (can_remove p (registry s), s).

(** An open file's node. *)
Definition is_open_file (i : nat) (n : Node) : Op bool :=
  gets (λ s, bool_decide (kind n = File) && is_open i (files s)).

Definition prepare_remove (p : list byte) : Op unit :=
  _ ← lift (validate_absolute_path p);
  i ← asks (λ s, ok_or NotFound (find_node p (registry s)));
  _ ← can_remove_path p;
  n ← reg_node i;
  b ← is_open_file i n;
  if b : bool then materialize_disk_node i else mret tt.

(** The module's [remove]: an open file keeps its node, without a name. *)
Definition unlink (p : list byte) : Op unit :=
  _ ← lift (validate_absolute_path p);
  i ← asks (λ s, ok_or NotFound (find_node p (registry s)));
  n ← reg_node i;
  b ← is_open_file i n;
  if b : bool then
    _ ← materialize_disk_node i;
    n ← reg_node i;
    put_node i (mkNode (replicate (length (path n)) x00) 0 (data n) (backing n) (nlength n)
                  (writable n) (kind n) (occupied n))
  else on_registry (remove p).

Definition open (p : list byte) : Op OpenFileId :=
  _ ← lift (validate_absolute_path p);
  i ← asks (λ s, ok_or NotFound (position (λ n, matches p n && bool_decide (kind n = File))
                                  (nodes (registry s))));
  g ← reg_generation i;
  on_files (alloc i g).

Definition clone_open_file (id : OpenFileId) : Op OpenFileId := on_files (clone_id id).

(** The tail of [close_open_file] for a node no description refers to. *)
Definition release_unnamed (i : nat) : Op unit :=
  n ← reg_node i;
  if occupied n && Nat.eqb (path_length n) 0 then
    _ ← on_registry (bump_generation i);
    put_node i (mkNode (path n) (path_length n) (replicate (length (data n)) x00) None 0
                  (writable n) (kind n) false)
  else mret tt.

Definition close_open_file (id : OpenFileId) : Op unit :=
  e ← open_entry id;
  _ ← on_files (drop_id id);
  still ← gets (λ s, is_open (onode e) (files s));
  if still : bool then mret tt else release_unnamed (onode e).

Definition file_identity (id : OpenFileId) : Op (nat * Z * Z) :=
  e ← open_entry id;
  n ← reg_node (onode e);
  g ← reg_generation (onode e);
  _ ← require (occupied n && (g =? ogeneration e)) InvalidDescriptor;
  v ← asks (λ s, or_panic (versions (registry s) !! onode e));
  mret (onode e, ogeneration e, v).

Definition file_generation (id : OpenFileId) : Op Z :=
  e ← open_entry id;
  n ← reg_node (onode e);
  g ← reg_generation (onode e);
  _ ← require (occupied n && (g =? ogeneration e)) InvalidDescriptor;
  mret (ogeneration e).

Definition prepare_shared_file (id : OpenFileId) : Op unit :=
  e ← open_entry id;
  n ← reg_node (onode e);
  _ ← require (occupied n) InvalidDescriptor;
  if writable n then mret tt else
  _ ← require (bool_decide (is_Some (backing n))) ReadOnly;
  _ ← materialize_disk_node (onode e);
  n ← reg_node (onode e);
  put_node (onode e) (mkNode (path n) (path_length n) (data n) (backing n) (nlength n) true
                        (kind n) (occupied n)).

Definition write_mapping_at (id : OpenFileId) (off : nat) (bs : list byte) : Op unit :=
  e ← open_entry id;
  n ← reg_node (onode e);
  _ ← require (occupied n && writable n) ReadOnly;
  _ ← require (Nat.leb (off + length bs) (nlength n)) Full;
  _ ← lift (require_range (off + length bs) (length (data n)));
  _ ← put_node (onode e) (mkNode (path n) (path_length n) (splice (data n) off bs) (backing n)
                            (nlength n) (writable n) (kind n) (occupied n));
  _ ← on_registry (bump_version (onode e));
  on_frames (fr_update (onode e) (ogeneration e) off bs).

Definition file_size (id : OpenFileId) : Op nat :=
  e ← open_entry id;
  asks (λ s, ok_or InvalidDescriptor
    (n ← nodes (registry s) !! onode e;
     if occupied n && bool_decide (kind n = File) then Some (nlength n) else None)).

Definition open_file_path_starts_with (id : OpenFileId) (prefix : list byte) : Op bool :=
  e ← open_entry id;
  asks (λ s, ok_or InvalidDescriptor
    (n ← nodes (registry s) !! onode e;
     if occupied n then Some (starts_with prefix (path_str n)) else None)).

(** An occupied node, as [get(i).filter(occupied)]. *)
Definition live_node (e : VError) (i : nat) : Op Node := λ s,
  (ok_or e (n ← nodes (registry s) !! i; if occupied n then Some n else None), s).

Definition set_entry (id : OpenFileId) (f : OpenFileDescription → OpenFileDescription) : Op unit :=
  e ← open_entry id;
  on_files (modify (λ t, <[id := f e]> t)).

(** The bytes of the node: from the volume for a disk-backed node, else from memory. *)
Definition fetch (n : Node) (off cnt : nat) (buf : list byte) : Op (list byte) :=
  match backing n with
  | Some b =>
    '(k, chunk) ← disk_read (as_str b) off (take cnt buf);
    _ ← require (Nat.eqb k cnt) Io;
    mret (splice buf 0 chunk)
  | None =>
    _ ← lift (require_range (off + cnt) (length (data n)));
    mret (splice buf 0 (slice (data n) off cnt))
  end.

(** Returns the count and the caller's buffer. *)
Definition read_from (id : OpenFileId) (pos : option nat) (buf : list byte) (gen : option Z)
    : Op (nat * list byte) :=
  e ← open_entry id;
  let off := default (offset e) pos in
  g ← reg_generation (onode e);
  _ ← require (match gen with Some v => g =? v | None => true end) InvalidDescriptor;
  n ← live_node InvalidDescriptor (onode e);
  _ ← require (Nat.leb off (nlength n)) InvalidDescriptor;
  let cnt := Nat.min (nlength n - off) (length buf) in
  buf ← fetch n off cnt buf;
  buf ← gets (λ s, splice buf 0 (fr_overlay (onode e) (ogeneration e) off (take cnt buf) (frames s)));
  _ ← (match pos with
       | None => set_entry id (set_offset (off + cnt)%nat)
       | Some _ => _ ← open_entry id; mret tt
       end);
  mret (cnt, buf).

Definition read_mapping_at (id : OpenFileId) (gen : Z) (off : nat) (buf : list byte) :=
  read_from id (Some off) buf (Some gen).
Definition read_at (id : OpenFileId) (off : nat) (buf : list byte) := read_from id (Some off) buf None.
Definition read (id : OpenFileId) (buf : list byte) := read_from id None buf None.

Definition read_all (p : list byte) (buf : list byte) : Op (nat * list byte) :=
  id ← open p;
  result ← attempt (size ← file_size id;
                    _ ← require (Nat.leb size (length buf)) Full;
                    '(n, chunk) ← read_at id 0 (take size buf);
                    mret (n, splice buf 0 chunk));
  _ ← attempt (close_open_file id);
  lift result.

Definition seek (id : OpenFileId) (off : nat) : Op nat :=
  e ← open_entry id;
  n ← live_node NotFound (onode e);
  let pos := Nat.min off (nlength n) in
  _ ← set_entry id (set_offset pos);
  mret pos.

Definition write (id : OpenFileId) (buf : list byte) : Op nat :=
  e ← open_entry id;
  n ← live_node InvalidDescriptor (onode e);
  _ ← require (writable n) ReadOnly;
  _ ← materialize_disk_node (onode e);
  n ← reg_node (onode e);
  let off := offset e in
  _ ← require (Nat.leb off (nlength n)) InvalidDescriptor;
  _ ← lift (require_range off NODE_CAPACITY);
  let cnt := Nat.min (length buf) (NODE_CAPACITY - off) in
  let chunk := take cnt buf in
  _ ← lift (require_range (off + cnt) (length (data n)));
  _ ← put_node (onode e) (mkNode (path n) (path_length n) (splice (data n) off chunk) (backing n)
        (Nat.max (nlength n) (off + cnt)) (writable n) (kind n) (occupied n));
  _ ← on_registry (bump_version (onode e));
  _ ← on_frames (fr_update (onode e) (ogeneration e) off chunk);
  _ ← set_entry id (set_offset (off + cnt)%nat);
  _ ← require (negb (Nat.ltb cnt (length buf))) Full;
  mret cnt.

Definition for_each_file_with_prefix (prefix : list byte) (s : Fs F K) : list (list byte) :=
  omap (λ n, if occupied n && bool_decide (kind n = File) && starts_with prefix (path_str n)
             then Some (path_str n) else None) (nodes (registry s)).
End operations.
