(* ===== verification/VfsTree.v ===== *)
(** * The directory tree (kernel/src/vfs.rs, the registry's operations)

    The registry's invariant: every named node carries a canonical name, names
    are distinct, and the parent of every name is a directory.  [insert],
    [mkdir], [remove] and [rename] keep it and have the effect of the
    corresponding operation on the tree of names. *)
From stdpp Require Import list.
From S2P Require Import Prelude Config VfsPath Vfs.

(** Node [n] has the name with components [cs]. *)
Definition names (n : Node) (cs : list (list byte)) : Prop :=
  occupied n = true ∧ take (path_length n) (path n) = render cs ∧ Forall good cs.

Definition backing_ok (b : DiskPath) : Prop :=
  length (dbytes b) = MAX_PATH_SIZE ∧ (dlength b ≤ MAX_PATH_SIZE)%nat ∧
  ∃ cs, Forall good cs ∧ take (dlength b) (dbytes b) = render cs ∧ utf8_valid (render cs) = true.

Record node_ok (n : Node) : Prop := {
  node_path : length (path n) = MAX_PATH_SIZE;
  node_path_length : (path_length n ≤ MAX_PATH_SIZE)%nat;
  node_data : length (data n) = NODE_CAPACITY;
  node_length : (nlength n ≤ NODE_CAPACITY)%nat;
  node_backing : ∀ b, backing n = Some b → backing_ok b;
  node_free : occupied n = false → backing n = None;
  node_name : occupied n = true →
    (path_length n = 0%nat ∧ kind n = File) ∨
    ∃ cs, names n cs ∧ utf8_valid (render cs) = true }.

(** Node [i] of the table has the name [cs]. *)
Definition named_at (r : Registry) (i : nat) (n : Node) (cs : list (list byte)) : Prop :=
  nodes r !! i = Some n ∧ names n cs.

Record tree_ok (r : Registry) : Prop := {
  tree_len : length (nodes r) = MAX_VFS_NODES ∧ length (generations r) = MAX_VFS_NODES ∧
    length (versions r) = MAX_VFS_NODES;
  tree_nodes : Forall node_ok (nodes r);
  tree_unique : ∀ i j n m cs, named_at r i n cs → named_at r j m cs → i = j;
  tree_parent : ∀ i n cs c, named_at r i n (cs ++ [c]) →
    ∃ j m, named_at r j m cs ∧ kind m = Directory;
  tree_root : ∃ i n, named_at r i n [] ∧ kind n = Directory }.

Lemma names_inj n cs ds : names n cs → names n ds → cs = ds.
Proof. intros (_ & H1 & Hg1) (_ & H2 & Hg2). apply render_inj; [done..|congruence]. Qed.

Lemma render_nonnil cs : Forall good cs → render cs ≠ [].
Proof. intros _. destruct cs; done. Qed.

Lemma names_path_length n cs : names n cs → node_ok n → path_length n = length (render cs).
Proof.
  intros (_ & <- & _) [Hp Hl _ _ _ _ _]. rewrite length_take. lia.
Qed.

Lemma node_ok_at r i n : tree_ok r → nodes r !! i = Some n → node_ok n.
Proof. intros Ht. apply Forall_lookup_1, (tree_nodes r Ht). Qed.

(** The stored name of a node, as the code reads it. *)
Lemma path_str_names n cs : names n cs → utf8_valid (render cs) = true → path_str n = render cs.
Proof. intros (_ & E & _) Hu. unfold path_str. rewrite E. by apply str_valid. Qed.

Lemma path_str_spec n : node_ok n → occupied n = true →
  path_str n = [] ∨ ∃ cs, names n cs ∧ path_str n = render cs.
Proof.
  intros Hok Ho. destruct (node_name n Hok Ho) as [[Hl _]|(cs & Hn & Hu)].
  - left. unfold path_str. by rewrite Hl.
  - right. exists cs. split; [done|]. by apply path_str_names.
Qed.

Lemma matches_render cs n : Forall good cs → matches (render cs) n = true ↔ names n cs.
Proof.
  intros Hg. unfold matches, names. rewrite andb_true_iff, bool_decide_eq_true. tauto.
Qed.

Lemma find_node_Some r cs i : tree_ok r → Forall good cs →
  find_node (render cs) r = Some i ↔ ∃ n, named_at r i n cs.
Proof.
  intros Ht Hg. unfold find_node. split.
  - intros (n & Hi & Hm)%position_Some_1. exists n. split; [done|]. by apply matches_render in Hm.
  - intros (n & Hi & Hn). apply (position_unique _ _ i n); [done|by apply matches_render|].
    intros j m Hj Hm. apply matches_render in Hm; [|done]. by apply (tree_unique r Ht j i m n cs).
Qed.

Lemma find_node_None r cs : Forall good cs →
  find_node (render cs) r = None ↔ ∀ i n, ¬ named_at r i n cs.
Proof.
  intros Hg. unfold find_node. rewrite position_None. split.
  - intros H i n [Hi Hn]. apply (matches_render cs n Hg) in Hn. specialize (H i n Hi). congruence.
  - intros H i n Hi. destruct (matches (render cs) n) eqn:E; [|done].
    apply matches_render in E; [|done]. by destruct (H i n).
Qed.

Lemma any_matches r cs : Forall good cs →
  any (matches (render cs)) (nodes r) = true ↔ ∃ i n, named_at r i n cs.
Proof.
  intros Hg. rewrite any_true. split.
  - intros (i & n & Hi & Hm). exists i, n. split; [done|]. by apply matches_render in Hm.
  - intros (i & n & Hi & Hn). exists i, n. split; [done|]. by apply matches_render.
Qed.

Lemma has_directory_true r cs : Forall good cs →
  has_directory (render cs) r = true ↔ ∃ i n, named_at r i n cs ∧ kind n = Directory.
Proof.
  intros Hg. unfold has_directory. rewrite any_true. split.
  - intros (i & n & Hi & [Hm Hk%bool_decide_eq_true_1]%andb_true_iff).
    exists i, n. split; [|done]. split; [done|]. by apply matches_render in Hm.
  - intros (i & n & [Hi Hn] & Hk). exists i, n. split; [done|].
    apply andb_true_iff. split; [by apply matches_render|by apply bool_decide_eq_true_2].
Qed.

Lemma validate_cases p : validate_absolute_path p = Ok tt ∨ validate_absolute_path p = Err InvalidPath.
Proof.
  unfold validate_absolute_path. destruct (_ || _); [by right|]. destruct (any _ p); [by right|].
  destruct (_ && _); [by right|by left].
Qed.

(** ** Adding a node *)

Lemma named_at_set r i n j m cs : (i < length (nodes r))%nat →
  named_at (set_node i n r) j m cs ↔ (j = i ∧ m = n ∧ names n cs) ∨ (j ≠ i ∧ named_at r j m cs).
Proof.
  intros Hi. unfold named_at, set_node; simpl. rewrite list_lookup_insert_Some. naive_solver.
Qed.

(** A new node under an existing directory keeps the tree well formed. *)
Lemma tree_ok_add r i old n cs c :
  tree_ok r → nodes r !! i = Some old → occupied old = false → node_ok n → names n (cs ++ [c]) →
  (∀ j m, ¬ named_at r j m (cs ++ [c])) → (∃ j m, named_at r j m cs ∧ kind m = Directory) →
  tree_ok (set_node i n r).
Proof.
  intros [Hl Hn Hu Hp (k & nk & Hk & Hkd)] Hi Ho Hok Hname Hfresh (pj & pm & Hpj & Hpd).
  pose proof (lookup_lt_Some _ _ _ Hi) as Hlt.
  assert (Hold : ∀ j m ds, named_at r j m ds → j ≠ i).
  { intros j m ds [Hj (Hjo & _)] ->. congruence. }
  split.
  - unfold set_node; simpl. by rewrite length_insert.
  - by apply Forall_insert.
  - intros j1 j2 n1 n2 ds [(-> & -> & H1)|[Hne1 H1]]%named_at_set [(-> & -> & H2)|[Hne2 H2]]%named_at_set; try done.
    + exfalso. rewrite <-(names_inj _ _ _ Hname H1) in H2. by eapply Hfresh.
    + exfalso. rewrite <-(names_inj _ _ _ Hname H2) in H1. by eapply Hfresh.
    + by eapply Hu.
  - intros j m ds d [(-> & -> & H1)|[Hne H1]]%named_at_set; [| |done].
    + pose proof (names_inj _ _ _ Hname H1) as E. apply app_inj_tail in E as [<- <-].
      exists pj, pm. split; [|done]. apply named_at_set; [done|]. right. split; [by eapply Hold|done].
    + destruct (Hp _ _ _ _ H1) as (q & mq & Hq & Hqd). exists q, mq. split; [|done].
      apply named_at_set; [done|]. right. split; [by eapply Hold|done].
  - exists k, nk. split; [|done]. apply named_at_set; [done|]. right. split; [by eapply Hold|done].
Qed.

Lemma take_splice (l d : list byte) : (length d ≤ length l)%nat → take (length d) (splice l 0 d) = d.
Proof. intros H. pose proof (slice_splice_same l 0 d H) as E. unfold slice in E. by rewrite drop_0 in E. Qed.

(** [i] is a free node of [r], and [r'] stores the new file or directory [n]
    of canonical name [cs ++ [c]] there. *)
Record created (p : list byte) (i : nat) (n : Node) (r r' : Registry) : Prop := {
  cr_store : r' = set_node i n r;
  cr_free : ∃ old, nodes r !! i = Some old ∧ occupied old = false;
  cr_ok : node_ok n;
  cr_names : ∃ cs c, p = render (cs ++ [c]) ∧ names n (cs ++ [c]) ∧
    (∀ j m, ¬ named_at r j m (cs ++ [c])) ∧ (∃ j m, named_at r j m cs ∧ kind m = Directory) }.

Lemma created_tree_ok p i n r r' : tree_ok r → created p i n r r' → tree_ok r'.
Proof.
  intros Ht [-> (old & Hi & Ho) Hok (cs & c & _ & Hn & Hf & Hp)]. by eapply tree_ok_add.
Qed.

Lemma check_parent_spec cs c r : Forall good (cs ++ [c]) →
  check_parent (render (cs ++ [c])) r = (Ok tt, r) ∧ (∃ j m, named_at r j m cs ∧ kind m = Directory)
  ∨ check_parent (render (cs ++ [c])) r = (Err NotFound, r) ∧ ∀ j m, named_at r j m cs → kind m ≠ Directory.
Proof.
  intros Hg. pose proof Hg as [Hcs _]%Forall_app. unfold check_parent. rewrite parent_render by done.
  unfold mbind, M_bind, lift, ok_or, gets. destruct (has_directory (render cs) r) eqn:E; [left|right].
  - by apply has_directory_true in E.
  - split; [done|]. intros j m Hm Hk. apply not_true_iff_false in E. apply E, has_directory_true; eauto.
Qed.

(** What [insert] and [mkdir] share: the checks on the new path. *)
Lemma new_path_cases p r : tree_ok r → validate_absolute_path p = Ok tt → any (matches p) (nodes r) = false →
  ∃ cs c, p = render (cs ++ [c]) ∧ Forall good (cs ++ [c]) ∧ p ≠ [SLASH] ∧ (length p ≤ MAX_PATH_SIZE)%nat ∧
    (∀ j m, ¬ named_at r j m (cs ++ [c])).
Proof.
  intros Ht (cs & -> & Hg & Hl)%validate_ok Ha.
  destruct cs as [|c cs _] using rev_ind.
  - destruct (tree_root r Ht) as (i & n & Hn & _).
    assert (any (matches (render [])) (nodes r) = true) by (apply any_matches; eauto). congruence.
  - exists cs, c. split_and!; [done|done| |done|].
    + change [SLASH] with (render []). intros E%render_inj; [|done|constructor]. by destruct cs.
    + intros j m Hj. assert (any (matches (render (cs ++ [c]))) (nodes r) = true) by (apply any_matches; eauto).
      congruence.
Qed.

Lemma free_node_spec r : free_node r = (Err Full, r) ∧ Forall (λ n, occupied n = true) (nodes r) ∨
  ∃ i old, free_node r = (Ok i, r) ∧ nodes r !! i = Some old ∧ occupied old = false.
Proof.
  unfold free_node. destruct (position _ _) as [i|] eqn:E; [right|left].
  - apply position_Some_1 in E as (old & Hi & Ho). exists i, old. split; [done|]. by open_guards.
  - split; [done|]. apply Forall_lookup. intros i n Hi. rewrite position_None in E.
    specialize (E i n Hi). by open_guards.
Qed.

(** Why no node of [size] bytes can be created at [p]. *)
Definition create_error (p : list byte) (size : nat) (r : Registry) (e : VError) : Prop :=
  match e with
  | InvalidPath => validate_absolute_path p = Err InvalidPath
  | AlreadyExists => p = [SLASH] ∨ ∃ cs i n, p = render cs ∧ named_at r i n cs
  | NotFound => ∃ cs c, p = render (cs ++ [c]) ∧ ∀ i n, named_at r i n cs → kind n ≠ Directory
  | Full => (NODE_CAPACITY < size)%nat ∨ Forall (λ n, occupied n = true) (nodes r)
  | _ => False
  end.

(** The outcome of an operation that creates a node. *)
Definition creates (p : list byte) (size : nat) (Q : Node → Prop) (r : Registry)
    (out : res VError nat * Registry) : Prop :=
  match out with
  | (Ok i, r') => ∃ n, created p i n r r' ∧ Q n
  | (Err e, r') => r' = r ∧ create_error p size r e
  | (Panic, _) => False
  end.

Definition new_file (d : list byte) (w : bool) (n : Node) : Prop :=
  kind n = File ∧ nlength n = length d ∧ take (length d) (data n) = d ∧ writable n = w ∧ backing n = None.

Lemma taken_error p size Q r : validate_absolute_path p = Ok tt → any (matches p) (nodes r) = true →
  creates p size Q r (Err AlreadyExists, r).
Proof.
  intros (cs & -> & Hg & _)%validate_ok Ha. split; [done|]. right.
  apply any_matches in Ha as (i & n & Hn); [|done]. by exists cs, i, n.
Qed.

Lemma insert_creates p d w r : tree_ok r → utf8_valid p = true →
  creates p (length d) (new_file d w) r (insert p d w r).
Proof.
  intros Ht Hu. unfold insert, require. mstep. destruct (validate_cases p) as [Hv|Hv]; rewrite Hv; [|done].
  mstep. destruct (Nat.leb _ _) eqn:Hd; open_guards; [|by repeat (split || left)]. mstep.
  destruct (any (matches p) (nodes r)) eqn:Ha; cbn [negb]; [by apply taken_error|].
  destruct (new_path_cases p r Ht Hv Ha) as (cs & c & -> & Hg & Hne & Hl & Hfresh).
  rewrite bool_decide_eq_false_2 by done.
  destruct (check_parent_spec cs c r Hg) as [[Hc Hpar]|[Hc Hpar]]; rewrite (bind_run _ _ _ _ _ Hc);
    [|by split; [done|exists cs, c]].
  destruct (free_node_spec r) as [[Hf Hfull]|(i & old & Hf & Hi & Ho)]; rewrite (bind_run _ _ _ _ _ Hf);
    [by split; [done|right]|].
  unfold mbind, M_bind, fill_file. rewrite Hi. cbn. destruct (node_ok_at r i old Ht Hi) as [H1 H2 H3 H4 H5 H6 H7].
  eexists. split; [split; [done|by exists old| |]|].
  - split; cbn; try done.
    + by rewrite length_splice by lia.
    + by rewrite length_splice by lia.
    + intros _. right. exists (cs ++ [c]). split; [|done]. split_and!; cbn; [done| |done].
      apply take_splice. lia.
  - exists cs, c. split_and!; [done| |done|done]. split_and!; cbn; [done| |done]. apply take_splice. lia.
  - split_and!; cbn; [done|done| |done|by apply H6]. apply take_splice. lia.
Qed.

Lemma mkdir_creates p r : tree_ok r → utf8_valid p = true →
  creates p 0 (λ n, kind n = Directory) r (mkdir p r).
Proof.
  intros Ht Hu. unfold mkdir, require. mstep. destruct (validate_cases p) as [Hv|Hv]; rewrite Hv; [|done].
  mstep. destruct (bool_decide _) eqn:Hroot; open_guards; cbn [negb]; [by repeat (split || left)|]. mstep.
  destruct (any (matches p) (nodes r)) eqn:Ha; cbn [negb]; [by apply taken_error|].
  destruct (new_path_cases p r Ht Hv Ha) as (cs & c & -> & Hg & Hne & Hl & Hfresh).
  destruct (check_parent_spec cs c r Hg) as [[Hc Hpar]|[Hc Hpar]]; rewrite (bind_run _ _ _ _ _ Hc);
    [|by split; [done|exists cs, c]].
  destruct (free_node_spec r) as [[Hf Hfull]|(i & old & Hf & Hi & Ho)]; rewrite (bind_run _ _ _ _ _ Hf);
    [by split; [done|right]|].
  mstep. cbn [mret M_ret creates].
  assert (Hname : names (node_directory (render (cs ++ [c]))) (cs ++ [c])).
  { split_and!; cbn; [done| |done]. apply take_splice. by rewrite length_replicate. }
  exists (node_directory (render (cs ++ [c]))). split; [split; [done|by exists old| |]|done].
  - split; cbn [node_directory path path_length data nlength backing occupied kind node_empty]; try done.
    + rewrite length_splice by (rewrite length_replicate; lia). apply length_replicate.
    + lia.
    + intros _. right. by exists (cs ++ [c]).
  - by exists cs, c.
Qed.

(** ** Removing a node *)

Lemma names_utf8 n cs : node_ok n → names n cs → utf8_valid (render cs) = true.
Proof.
  intros Hok Hn. destruct (node_name n Hok (proj1 Hn)) as [[Hl _]|(ds & Hd & Hu)].
  - destruct Hn as (_ & E & _). rewrite Hl in E. by destruct cs.
  - by rewrite (names_inj _ _ _ Hn Hd).
Qed.

Lemma path_str_named n cs : node_ok n → names n cs → path_str n = render cs.
Proof. intros Hok Hn. apply path_str_names; [done|]. by eapply names_utf8. Qed.

Lemma has_child_false r cs : tree_ok r → Forall good cs → has_child (render cs) r = false →
  ∀ j m d, ¬ named_at r j m (cs ++ [d]).
Proof.
  intros Ht Hg Hc j m d [Hj Hm]. unfold has_child in Hc. rewrite any_false in Hc. specialize (Hc j m Hj).
  rewrite (path_str_named m (cs ++ [d])) in Hc by (by eauto using node_ok_at). destruct Hm as (Ho & _ & Hg').
  rewrite Ho, (proj2 (child_render cs (cs ++ [d]) d Hg Hg') eq_refl) in Hc. done.
Qed.

Lemma has_child_true r cs : tree_ok r → Forall good cs → has_child (render cs) r = true →
  ∃ j m d, named_at r j m (cs ++ [d]).
Proof.
  intros Ht Hg Hc. apply any_true in Hc as (j & m & Hj & [Ho Hm]%andb_true_iff).
  apply bool_decide_eq_true_1 in Hm as [d Hd]. exists j, m, d.
  destruct (path_str_spec m (node_ok_at r j m Ht Hj) Ho) as [E|(ds & Hn & E)]; rewrite E in Hd.
  - exfalso. unfold immediate_child_name in Hd. destruct (bool_decide _); [done|].
    destruct (bool_decide _); [done|]. unfold starts_with in Hd. rewrite take_nil in Hd.
    destruct (bool_decide ([] = render cs)) eqn:E'; [|done]. apply bool_decide_eq_true_1 in E'. by destruct cs.
  - apply child_render in Hd as ->; [|done|apply Hn]. by split.
Qed.

Lemma bump_generation_spec i r : length (generations r) = length (nodes r) → is_Some (nodes r !! i) →
  (∃ g, generations r !! i = Some g ∧ 2 ^ 64 ≤ g + 1 ∧ bump_generation i r = (Err Full, r)) ∨
  ∃ g, generations r !! i = Some g ∧ g + 1 < 2 ^ 64 ∧
    bump_generation i r = (Ok tt, mkRegistry (versions r) (<[i := g + 1]> (generations r)) (nodes r)).
Proof.
  intros Hl Hi%lookup_lt_is_Some. rewrite <-Hl in Hi. apply lookup_lt_is_Some in Hi as [g Hg].
  unfold bump_generation. rewrite Hg. destruct (checked_add 64 g 1) as [g'|] eqn:E; [right|left].
  - apply checked_add_Some in E as [-> ?]. by exists g.
  - apply checked_add_None in E. by exists g.
Qed.

Lemma tree_gen_len r : tree_ok r → length (generations r) = length (nodes r).
Proof. intros Ht. destruct (tree_len r Ht) as (H1 & H2 & _). congruence. Qed.

(** Why the path [p] cannot be removed. *)
Definition remove_error (p : list byte) (r : Registry) (e : VError) : Prop :=
  match e with
  | InvalidPath => validate_absolute_path p = Err InvalidPath
  | ReadOnly => p = [SLASH]
  | NotFound => ∃ cs, p = render cs ∧ ∀ i n, ¬ named_at r i n cs
  | NotEmpty => ∃ cs i n, p = render cs ∧ named_at r i n cs ∧ kind n = Directory ∧
      ∃ j m d, named_at r j m (cs ++ [d])
  | Full => ∃ cs i n g, p = render cs ∧ named_at r i n cs ∧ generations r !! i = Some g ∧ 2 ^ 64 ≤ g + 1
  | _ => False
  end.

(** The node that [remove] may free: a file, or a directory without entries. *)
Lemma removable_spec p r : tree_ok r →
  match removable_index p r with
  | Ok i => ∃ cs c n, p = render (cs ++ [c]) ∧ named_at r i n (cs ++ [c]) ∧
      ∀ j m d, ¬ named_at r j m ((cs ++ [c]) ++ [d])
  | Err e => remove_error p r e
  | Panic => False
  end.
Proof.
  intros Ht. unfold removable_index. destruct (validate_cases p) as [Hv|Hv]; rewrite Hv; [|done]. unfold mbind, res_bind.
  apply validate_ok in Hv as (cs & -> & Hg & _). destruct (bool_decide _) eqn:Hroot; [by open_guards|].
  destruct (find_node (render cs) r) as [i|] eqn:Hf; cbn [ok_or].
  2: { exists cs. split; [done|]. by apply find_node_None. }
  apply find_node_Some in Hf as (n & Hi & Hn); [|done..]. rewrite Hi. unfold or_panic.
  rewrite (path_str_named n cs) by (by eauto using node_ok_at).
  destruct cs as [|c cs _] using rev_ind.
  { apply bool_decide_eq_false_1 in Hroot. done. }
  destruct (_ && _) eqn:Hc.
  { open_guards. exists (cs ++ [c]), i, n. split_and!; [done|done|done|].
    by apply (has_child_true r (cs ++ [c]) Ht Hg). }
  exists cs, c, n. split_and!; [done|by split|].
  intros j m d Hm. apply andb_false_iff in Hc as [Hk|Hc].
  - destruct (tree_parent r Ht _ _ _ _ Hm) as (j' & m' & Hm' & Hk').
    assert (j' = i) as -> by (eapply (tree_unique r Ht); [exact Hm'|by split]).
    apply bool_decide_eq_false_1 in Hk. destruct Hm' as [Hm' _]. congruence.
  - by apply (has_child_false r (cs ++ [c]) Ht Hg Hc j m d).
Qed.

Definition removed (p : list byte) (r r' : Registry) : Prop := ∃ cs c i n g,
  p = render (cs ++ [c]) ∧ named_at r i n (cs ++ [c]) ∧ (∀ j m d, ¬ named_at r j m ((cs ++ [c]) ++ [d])) ∧
  generations r !! i = Some g ∧ g + 1 < 2 ^ 64 ∧
  r' = mkRegistry (versions r) (<[i := g + 1]> (generations r)) (<[i := cleared n]> (nodes r)).

Lemma remove_spec p r : tree_ok r →
  match remove p r with
  | (Ok _, r') => removed p r r'
  | (Err e, r') => r' = r ∧ remove_error p r e
  | (Panic, _) => False
  end.
Proof.
  intros Ht. unfold remove. change (get) with (@gets Registry VError _ (λ r, r)). mstep.
  pose proof (removable_spec p r Ht) as Hr. destruct (removable_index p r) as [i|e|]; [|done..].
  destruct Hr as (cs & c & n & -> & [Hi Hn] & Hch).
  destruct (bump_generation_spec i r) as [(g & Hg & Hge & Hb)|(g & Hg & Hlt & Hb)]; [by apply tree_gen_len|done| |];
    rewrite (bind_run _ _ _ _ _ Hb).
  { split; [done|]. by exists (cs ++ [c]), i, n, g. }
  cbn [nodes]. mstep. rewrite Hi. cbn. exists cs, c, i, n, g. done.
Qed.

(** Taking a name away keeps the others. *)
Lemma named_at_freed r i n vs gs m j mj ds : nodes r !! i = Some n → (∀ ds, ¬ names m ds) →
  named_at (mkRegistry vs gs (<[i := m]> (nodes r))) j mj ds ↔ j ≠ i ∧ named_at r j mj ds.
Proof.
  intros Hi Ho. unfold named_at; cbn. rewrite list_lookup_insert_Some. split.
  - intros [[(-> & <- & _)|[Hne Hj]] Hm]; [by destruct (Ho ds)|done].
  - intros [Hne [Hj Hn]]. split; [|done]. right. done.
Qed.

Lemma free_unnamed n : occupied n = false → ∀ ds, ¬ names n ds.
Proof. intros Ho ds [? _]. congruence. Qed.

Lemma zero_unnamed n : path_length n = 0%nat → ∀ ds, ¬ names n ds.
Proof. intros Hl ds (_ & E & _). rewrite Hl in E. by destruct ds. Qed.

Lemma cleared_ok n : node_ok n → node_ok (cleared n).
Proof. intros [H1 H2 H3 H4 H5 H6 H7]. split; cbn; try done; rewrite ?length_replicate; by try lia. Qed.

(** Node [i], whose name is not the root's and has nothing below it, loses its name. *)
Lemma tree_ok_unname r i n cs m vs gs : tree_ok r → named_at r i n cs → cs ≠ [] →
  (∀ j q d, ¬ named_at r j q (cs ++ [d])) → node_ok m → (∀ ds, ¬ names m ds) →
  length vs = MAX_VFS_NODES → length gs = MAX_VFS_NODES →
  tree_ok (mkRegistry vs gs (<[i := m]> (nodes r))).
Proof.
  intros [(H1 & H2 & H3) Hns Hu Hp (k & nk & Hk & Hkd)] [Hi Hn] Hne0 Hch Hm Hmn Hlv Hlg.
  assert (Hin : ∀ j mj ds, named_at (mkRegistry vs gs (<[i := m]> (nodes r))) j mj ds ↔
    j ≠ i ∧ named_at r j mj ds) by (intros; by apply named_at_freed with n).
  split.
  - cbn. by rewrite !length_insert.
  - by apply Forall_insert.
  - intros j1 j2 n1 n2 ds [_ Ha]%Hin [_ Hb]%Hin. by eapply Hu.
  - intros j q ds d [Hne Hj]%Hin. destruct (Hp _ _ _ _ Hj) as (jp & mp & Hq & Hqd). exists jp, mp. split; [|done].
    apply Hin. split; [|done]. intros ->. destruct Hq as [Hq Hqn].
    assert (mp = n) as -> by congruence. rewrite (names_inj _ _ _ Hqn Hn) in Hj. by eapply Hch.
  - exists k, nk. split; [|done]. apply Hin. split; [|done]. intros ->. destruct Hk as [Hk Hkn].
    assert (nk = n) as -> by congruence. by pose proof (names_inj _ _ _ Hkn Hn).
Qed.

Lemma tree_ok_removed p r r' : tree_ok r → removed p r r' → tree_ok r'.
Proof.
  intros Ht (cs & c & i & n & g & -> & [Hi Hn] & Hch & Hg & Hlt & ->).
  pose proof (node_ok_at r i n Ht Hi) as Hok. destruct (tree_len r Ht) as (H1 & H2 & H3).
  eapply tree_ok_unname; try done.
  - by destruct cs.
  - by apply cleared_ok.
  - by apply free_unnamed.
  - by rewrite length_insert.
Qed.

(** A node that keeps its names and kind may change otherwise. *)
Lemma tree_ok_same r i n m vs gs : tree_ok r → nodes r !! i = Some n → node_ok m → kind m = kind n →
  (∀ ds, names m ds ↔ names n ds) → length vs = MAX_VFS_NODES → length gs = MAX_VFS_NODES →
  tree_ok (mkRegistry vs gs (<[i := m]> (nodes r))).
Proof.
  intros [(H1 & H2 & H3) Hns Hu Hp (k & nk & Hk & Hkd)] Hi Hm Hkind Hnm Hlv Hlg.
  pose proof (lookup_lt_Some _ _ _ Hi) as Hlt.
  assert (Hback : ∀ j mj ds, named_at (mkRegistry vs gs (<[i := m]> (nodes r))) j mj ds →
    ∃ mj', named_at r j mj' ds ∧ kind mj' = kind mj).
  { intros j mj ds [Hj Hn]. cbn in Hj. apply list_lookup_insert_Some in Hj as [(<- & <- & _)|[_ Hj]].
    - exists n. split; [|done]. split; [done|]. by apply Hnm.
    - exists mj. done. }
  assert (Hfwd : ∀ j mj ds, named_at r j mj ds →
    ∃ mj', named_at (mkRegistry vs gs (<[i := m]> (nodes r))) j mj' ds ∧ kind mj' = kind mj).
  { intros j mj ds [Hj Hn]. destruct (decide (j = i)) as [->|Hne].
    - assert (mj = n) as -> by congruence. exists m. split; [|done]. split; [cbn; by apply list_lookup_insert_eq|].
      by apply Hnm.
    - exists mj. split; [|done]. split; [cbn; by rewrite list_lookup_insert_ne|done]. }
  split.
  - cbn. by rewrite !length_insert.
  - by apply Forall_insert.
  - intros j1 j2 n1 n2 ds (? & Ha & _)%Hback (? & Hb & _)%Hback. by eapply Hu.
  - intros j q ds d (q' & Hq & _)%Hback. destruct (Hp _ _ _ _ Hq) as (jp & mp & Hq' & Hqd).
    destruct (Hfwd _ _ _ Hq') as (mp' & ? & ?). exists jp, mp'. split; [done|congruence].
  - destruct (Hfwd _ _ _ Hk) as (mk' & ? & ?). exists k, mk'. split; [done|congruence].
Qed.

(** ** Renaming *)

(** The name of a node once the subtree [old] is called [new]. *)
Definition moved (old new cs : list (list byte)) : list (list byte) :=
  if decide (old `prefix_of` cs) then new ++ drop (length old) cs else cs.

Lemma moved_under old new s : moved old new (old ++ s) = new ++ s.
Proof. unfold moved. rewrite decide_True by by exists s. by rewrite drop_app_length. Qed.

Lemma moved_other old new cs : ¬ old `prefix_of` cs → moved old new cs = cs.
Proof. intros. unfold moved. by rewrite decide_False. Qed.

Lemma moved_id old cs : moved old old cs = cs.
Proof. unfold moved. destruct (decide _) as [[s ->]|]; [|done]. by rewrite drop_app_length. Qed.

Lemma render_app cs ds : cs ≠ [] → render (cs ++ ds) = render cs ++ suffix_of ds.
Proof. intros H. rewrite !render_nonempty by (by destruct cs). apply suffix_app. Qed.

(** The in-place move of a stored path replaces its prefix. *)
Lemma move_prefix_spec o nw s bs len : take len bs = o ++ s → (len ≤ length bs)%nat →
  (length nw + length s ≤ length bs)%nat →
  ∃ bs', move_prefix (length o) nw bs len = Some (bs', (length nw + length s)%nat) ∧
    length bs' = length bs ∧ take (length nw + length s) bs' = nw ++ s.
Proof.
  intros Ht Hl Hfit. assert (Hlen : len = (length o + length s)%nat).
  { rewrite <-length_app, <-Ht, length_take. lia. }
  subst len. unfold move_prefix. replace (length o + length s - length o)%nat with (length s) by lia.
  rewrite (proj2 (Nat.ltb_ge _ _)), (proj2 (Nat.ltb_ge _ _)) by lia. cbn [orb].
  assert (Hs : slice bs (length o) (length s) = s).
  { unfold slice. by rewrite take_drop_commute, Ht, drop_app_length. }
  rewrite Hs. set (b1 := splice bs (length nw) s).
  assert (Hb1 : length b1 = length bs) by (by apply length_splice).
  assert (Hb2 : take (length nw + length s) (splice b1 0 nw) = nw ++ s).
  { pose proof (slice_app (splice b1 0 nw) 0 (length nw) (length s)) as E.
    rewrite Nat.add_0_l, slice_splice_same, (slice_splice_disjoint b1 0 nw (length nw)) in E by lia.
    unfold b1 in E at 2. rewrite slice_splice_same in E by lia. unfold slice in E. by rewrite drop_0 in E. }
  eexists. split; [reflexivity|]. rewrite Hb2. split.
  - rewrite !length_app, length_replicate, length_splice by lia. lia.
  - rewrite <-length_app. apply take_app_length.
Qed.

(** Everything above an existing name is a directory. *)
Lemma ancestors r j m cs s : tree_ok r → named_at r j m (cs ++ s) → s ≠ [] →
  ∃ i n, named_at r i n cs ∧ kind n = Directory.
Proof.
  intros Ht. revert j m. induction s as [|x s IH] using rev_ind; [done|]. intros j m Hj _.
  rewrite app_assoc in Hj. destruct (tree_parent r Ht _ _ _ _ Hj) as (i & n & Hn & Hk).
  destruct (decide (s = [])) as [->|Hs]; [|by eapply IH]. rewrite app_nil_r in Hn. eauto.
Qed.

(** The facts a successful validation establishes. *)
Record renaming (dir : bool) (olds news : list (list byte)) (r : Registry) : Prop := {
  rn_olds : olds ≠ [] ∧ Forall good olds;
  rn_news : news ≠ [] ∧ Forall good news ∧ (length (render news) ≤ MAX_PATH_SIZE)%nat;
  rn_utf8 : utf8_valid (render olds) = true ∧ utf8_valid (render news) = true;
  rn_src : ∃ i n, named_at r i n olds ∧ is_directory n = dir;
  rn_free : ∀ j m, ¬ named_at r j m news;
  rn_out : ¬ olds `prefix_of` news;
  rn_parent : ∃ ps c j m, news = ps ++ [c] ∧ named_at r j m ps ∧ kind m = Directory;
  rn_fit : ∀ j m, nodes r !! j = Some m → occupied m = true →
    preflight_fails dir (render olds) (render news) m = false }.

Lemma validate_rename_spec old new r : tree_ok r → utf8_valid old = true → utf8_valid new = true →
  match validate_rename old new r with
  | Ok _ => ∃ olds news i n, old = render olds ∧ new = render news ∧ named_at r i n olds ∧
      (old = new ∨ old ≠ new ∧ renaming (is_directory n) olds news r)
  | Err _ => True
  | Panic => False
  end.
Proof.
  intros Ht Hu1 Hu2. unfold validate_rename. destruct (validate_cases old) as [Ho|Ho]; rewrite Ho; [|done].
  unfold mbind, res_bind. destruct (validate_cases new) as [Hn|Hn]; rewrite Hn; [|done].
  apply validate_ok in Ho as (olds & -> & Hg1 & Hl1), Hn as (news & -> & Hg2 & Hl2).
  destruct (_ || _) eqn:Hroot; [done|]. open_guards.
  destruct (find_node (render olds) r) as [i|] eqn:Hf; [|done]. cbn [ok_or].
  apply find_node_Some in Hf as (n & Hi & Hin); [|done..].
  destruct (bool_decide (render olds = _)) eqn:Heq; open_guards.
  { exists olds, news, i, n. split_and!; [done..|]. by left. }
  destruct (any (matches _) _) eqn:Ha; [done|].
  destruct (bool_decide (is_Some _)) eqn:Hd; [done|]. open_guards.
  assert (Hne1 : olds ≠ []) by (by intros ->). assert (Hne2 : news ≠ []) by (by intros ->).
  assert (Hfree : ∀ j m, ¬ named_at r j m news).
  { intros j m Hm. rewrite (proj2 (any_matches r news Hg2)) in Ha by eauto. done. }
  destruct news as [|c ps _] using rev_ind; [done|]. rewrite parent_render by done. cbn [ok_or].
  destruct (has_directory (render ps) r) eqn:Hp; [|done]. cbn [negb].
  apply has_directory_true in Hp as (jp & mp & Hp & Hpk); [|by apply Forall_app in Hg2 as [? _]].
  rewrite Hi. cbn [or_panic]. match goal with |- context [any ?f (nodes r)] => destruct (any f (nodes r)) eqn:Hfit end; [done|].
  exists olds, (ps ++ [c]), i, n. split_and!; [done..|]. right. split; [done|]. split; try done.
  - by exists i, n.
  - intros [s E]. destruct (decide (s = [])) as [->|Hs].
    + rewrite app_nil_r in E. by rewrite E in Heq.
    + apply Hd. rewrite E. exists (suffix_of s). apply descendant_render; [done|done|by rewrite <-E|eauto].
  - by exists ps, c, jp, mp.
  - intros j m Hj Hmo. rewrite any_false in Hfit. specialize (Hfit j m Hj). by rewrite Hmo in Hfit.
Qed.

(** The rename's test on a stored path. *)
Definition under (dir : bool) (old p : list byte) : bool :=
  bool_decide (p = old) || dir && bool_decide (is_Some (descendant_suffix old p)).

Lemma under_true dir olds cs : olds ≠ [] → Forall good olds → Forall good cs →
  under dir (render olds) (render cs) = true ↔ ∃ s, cs = olds ++ s ∧ (s = [] ∨ dir = true).
Proof.
  intros Hne Hg1 Hg2. unfold under. rewrite orb_true_iff, andb_true_iff, !bool_decide_eq_true. split.
  - intros [E|[Hd [s Hs]]].
    + apply render_inj in E as ->; [|done..]. exists []. rewrite app_nil_r. auto.
    + apply descendant_render in Hs as (s' & _ & -> & _); [|done..]. eauto.
  - intros (s & -> & Hs). destruct (decide (s = [])) as [->|Hn]; [left; by rewrite app_nil_r|right].
    split; [naive_solver|]. exists (suffix_of s). apply descendant_render; eauto.
Qed.

Section rename.
Context (dir : bool) (olds news : list (list byte)) (r : Registry).
Hypothesis R : renaming dir olds news r.

Lemma move_stored s bs len : Forall good (olds ++ s) → length bs = MAX_PATH_SIZE → (len ≤ MAX_PATH_SIZE)%nat →
  take len bs = render (olds ++ s) → utf8_valid (render (olds ++ s)) = true →
  (s ≠ [] → too_long (render olds) (render news) (render (olds ++ s)) = false) →
  ∃ bs' len', move_prefix (length (render olds)) (render news) bs len = Some (bs', len') ∧
    length bs' = MAX_PATH_SIZE ∧ (len' ≤ MAX_PATH_SIZE)%nat ∧
    Forall good (news ++ s) ∧ take len' bs' = render (news ++ s) ∧ utf8_valid (render (news ++ s)) = true.
Proof using R.
  intros Hg Hb Hl Ht Hu Hfit. destruct R as [[Hne1 Hg1] (Hne2 & Hg2 & Hln) [Hu1 Hu2] _ _ _ _ _].
  rewrite render_app in Ht by done. rewrite render_app in Hu by done. rewrite render_app by done.
  assert (Hlen : (length (render news) + length (suffix_of s) ≤ MAX_PATH_SIZE)%nat).
  { destruct (decide (s = [])) as [->|Hs]; [change (length (suffix_of [])) with 0%nat; lia|].
    specialize (Hfit Hs). unfold too_long in Hfit.
    rewrite (proj2 (descendant_render olds (olds ++ s) (suffix_of s) Hne1 Hg1 Hg)) in Hfit by eauto.
    by apply Nat.ltb_ge in Hfit. }
  destruct (move_prefix_spec (render olds) (render news) (suffix_of s) bs len) as (bs' & Hm & Hb' & Ht');
    [done|lia|lia|].
  exists bs', (length (render news) + length (suffix_of s))%nat. rewrite Hm. split_and!; [done|lia|lia| |done|].
  - apply Forall_app. apply Forall_app in Hg as [_ ?]. done.
  - rewrite utf8_app in Hu by done. by rewrite utf8_app.
Qed.

(** What the rename makes of one node. *)
Record moved_node (m m' : Node) : Prop := {
  mv_same : data m' = data m ∧ nlength m' = nlength m ∧ writable m' = writable m ∧ kind m' = kind m ∧
    occupied m' = occupied m;
  mv_ok : node_ok m';
  mv_names : ∀ ds, names m' ds ↔ ∃ cs, names m cs ∧ ds = moved olds news cs;
  mv_backing : ∀ cs b, backing m = Some b → take (dlength b) (dbytes b) = render cs → Forall good cs →
    ∃ b', backing m' = Some b' ∧ take (dlength b') (dbytes b') = render (if dir then moved olds news cs
                                   else if decide (cs = olds) then news else cs) }.

(** The backing path moves with the name. *)
Definition move_backing (n : Node) : option Node :=
  match backing n with
  | Some b =>
    if under dir (render olds) (as_str b)
    then '(p, len) ← move_prefix (length (render olds)) (render news) (dbytes b) (dlength b);
         Some (mkNode (path n) (path_length n) (data n) (Some (mkDiskPath p len)) (nlength n)
                 (writable n) (kind n) (occupied n))
    else Some n
  | None => Some n
  end.

Lemma moved_dec cs s : cs = olds ++ s → (s = [] ∨ dir = true) →
  (if dir then moved olds news cs else if decide (cs = olds) then news else cs) = news ++ s.
Proof using R.
  intros -> Hs. destruct dir; [apply moved_under|]. destruct Hs as [->|?]; [|done].
  rewrite app_nil_r, decide_True by done. by rewrite app_nil_r.
Qed.

Lemma moved_not_under cs : Forall good cs → under dir (render olds) (render cs) = false →
  (if dir then moved olds news cs else if decide (cs = olds) then news else cs) = cs.
Proof using R.
  intros Hg Hf. destruct R as [[Hne1 Hg1] _ _ _ _ _ _ _].
  assert (Hn : ∀ s, cs = olds ++ s → ¬ (s = [] ∨ dir = true)).
  { intros s -> Hs. rewrite (proj2 (under_true dir olds (olds ++ s) Hne1 Hg1 Hg)) in Hf by eauto. done. }
  destruct dir.
  - apply moved_other. intros [s E]. by destruct (Hn s E); right.
  - rewrite decide_False; [done|]. intros ->. destruct (Hn []); [by rewrite app_nil_r|by left].
Qed.

Lemma move_backing_spec n : node_ok n → occupied n = true →
  (∀ b, backing n = Some b → dir = true → too_long (render olds) (render news) (as_str b) = false) →
  ∃ n', move_backing n = Some n' ∧ node_ok n' ∧ path n' = path n ∧ path_length n' = path_length n ∧
    data n' = data n ∧ nlength n' = nlength n ∧ writable n' = writable n ∧ kind n' = kind n ∧
    occupied n' = occupied n ∧
    ∀ cs b, backing n = Some b → take (dlength b) (dbytes b) = render cs → Forall good cs →
      ∃ b', backing n' = Some b' ∧ take (dlength b') (dbytes b') = render (if dir then moved olds news cs
                                     else if decide (cs = olds) then news else cs).
Proof using R.
  intros Hok Ho Hpre. pose proof Hok as [H1 H2 H3 H4 H5 H6 H7]. unfold move_backing.
  destruct (backing n) as [b|] eqn:Hb; [|by exists n; naive_solver]. specialize (Hpre b eq_refl).
  destruct (H5 b eq_refl) as (Hb1 & Hb2 & cs & Hg & Ht & Hu).
  assert (Hs : as_str b = render cs) by (unfold as_str; rewrite Ht; by apply str_valid).
  rewrite Hs in *. pose proof R as [[Hne1 Hg1] _ _ _ _ _ _ _].
  assert (Hcs : ∀ ds, take (dlength b) (dbytes b) = render ds → Forall good ds → ds = cs).
  { intros ds E Hd. apply render_inj; [done..|congruence]. }
  destruct (under _ _ _) eqn:Hun.
  - apply under_true in Hun as (s & -> & Hsd); [|done..].
    destruct (move_stored s (dbytes b) (dlength b)) as (bs' & len' & -> & Hl1 & Hl2 & Hg' & Ht' & Hu'); try done.
    { intros Hne. destruct Hsd as [?|Hdir]; [done|]. by apply Hpre. }
    cbn. eexists. split; [reflexivity|]. split_and!; try done.
    + split; cbn; try done; [|congruence]. intros b' [= <-]. split_and!; cbn; [done..|]. by exists (news ++ s).
    + cbn. intros ds b' [= <-] Hr Hd. eexists. split; [reflexivity|]. cbn.
      rewrite (Hcs ds Hr Hd). by rewrite (moved_dec (olds ++ s) s).
  - exists n. split_and!; try done. intros ds b' [= <-] Hr Hd. exists b. split; [done|].
    rewrite (Hcs ds Hr Hd). by rewrite moved_not_under.
Qed.

Lemma preflight_backing n : preflight_fails dir (render olds) (render news) n = false →
  ∀ b, backing n = Some b → dir = true → too_long (render olds) (render news) (as_str b) = false.
Proof using R. intros [_ Hp]%orb_false_iff b Hb Hd. by rewrite Hb, Hd in Hp. Qed.

Lemma rename_node_unnamed n : node_ok n → (∀ cs, ¬ names n cs) → preflight_fails dir (render olds) (render news) n = false →
  ∃ n', rename_node dir (render olds) (render news) n = Some n' ∧ moved_node n n'.
Proof using R.
  intros Hok Hno Hpre. unfold rename_node. destruct (occupied n) eqn:Ho; cbn [negb].
  - destruct R as [[Hne1 Hg1] _ _ _ _ _ _ _].
    assert (matches (render olds) n = false) as ->.
    { apply not_true_iff_false. rewrite matches_render by done. apply Hno. }
    assert (Hp : path_str n = []).
    { destruct (path_str_spec n Hok Ho) as [?|(cs & Hn & _)]; [done|]. by destruct (Hno cs). }
    rewrite Hp. assert (descendant_suffix (render olds) [] = None) as ->.
    { unfold descendant_suffix, strip_prefix, starts_with. rewrite take_nil, bool_decide_eq_false_2; [done|].
      intros E. by destruct olds. }
    rewrite andb_false_r. destruct (move_backing_spec n Hok Ho (preflight_backing n Hpre))
      as (n' & Hm & Hok' & Hp1 & Hp2 & Hd & Hl & Hw & Hk & Ho' & Hbk).
    exists n'. split; [exact Hm|]. split; [by split_and!|done| |exact Hbk].
    intros ds. split; [|by intros (cs & Hn & _); destruct (Hno cs)].
    intros (Ha & Hb & Hc). destruct (Hno ds). split_and!; congruence.
  - exists n. split; [done|]. split; [by split_and!|done| |].
    + intros ds. split; [intros [? _]; congruence|]. by intros (cs & Hn & _); destruct (Hno cs).
    + intros cs b Hb. rewrite (node_free n Hok Ho) in Hb. done.
Qed.

Lemma rename_node_moved n s : node_ok n → names n (olds ++ s) → (s = [] ∨ dir = true) →
  preflight_fails dir (render olds) (render news) n = false →
  ∃ n', rename_node dir (render olds) (render news) n = Some n' ∧ moved_node n n'.
Proof using R.
  intros Hok Hn Hs Hpre. pose proof Hn as (Ho & Ht & Hg). unfold rename_node. rewrite Ho. cbn [negb].
  pose proof R as [[Hne1 Hg1] _ _ _ _ _ _ _].
  assert (Hm : matches (render olds) n || dir && bool_decide (is_Some (descendant_suffix (render olds) (path_str n))) = true).
  { rewrite (path_str_named n (olds ++ s)) by done. unfold matches. rewrite Ho, Ht. by apply under_true; eauto. }
  rewrite Hm. pose proof Hok as [H1 H2 H3 H4 H5 H6 H7].
  destruct (move_stored s (path n) (path_length n)) as (bs' & len' & -> & Hl1 & Hl2 & Hg' & Ht' & Hu'); try done.
  { by eapply names_utf8. }
  { intros Hne. destruct Hs as [?|Hd]; [done|]. apply orb_false_iff in Hpre as [Hp _].
    rewrite Hd, (path_str_named n (olds ++ s)) in Hp by done. done. }
  cbn [mbind option_bind backing].
  set (n1 := mkNode bs' len' (data n) (backing n) (nlength n) (writable n) (kind n) true).
  assert (Hok1 : node_ok n1).
  { split; cbn; try done. intros _. right. exists (news ++ s). by split_and!. }
  destruct (move_backing_spec n1 Hok1 eq_refl (preflight_backing n Hpre))
    as (n' & Hmb & Hok' & Hp1 & Hp2 & Hd & Hl & Hw & Hk & Ho' & Hbk).
  unfold n1 in *. cbn [path path_length data nlength writable kind occupied backing] in *.
  exists n'. split; [exact Hmb|]. split; [split_and!; congruence|done| |exact Hbk].
  assert (Hn' : names n' (news ++ s)) by (split_and!; [congruence| |done]; by rewrite Hp1, Hp2).
  intros ds. split.
  - intros Hds. exists (olds ++ s). split; [done|]. rewrite moved_under. by eapply names_inj.
  - intros (cs & Hcs & ->). by rewrite (names_inj _ _ _ Hcs Hn), moved_under.
Qed.

Lemma rename_node_kept n cs : node_ok n → names n cs → under dir (render olds) (render cs) = false →
  (dir = false → ¬ olds `prefix_of` cs) →
  preflight_fails dir (render olds) (render news) n = false →
  ∃ n', rename_node dir (render olds) (render news) n = Some n' ∧ moved_node n n'.
Proof using R.
  intros Hok Hn Hun Hdir Hpre. pose proof Hn as (Ho & Ht & Hg). unfold rename_node. rewrite Ho. cbn [negb].
  assert (Hm : matches (render olds) n || dir && bool_decide (is_Some (descendant_suffix (render olds) (path_str n))) = false).
  { rewrite (path_str_named n cs) by done. unfold matches. by rewrite Ho, Ht. }
  rewrite Hm. cbn [mbind option_bind].
  destruct (move_backing_spec n Hok Ho (preflight_backing n Hpre))
      as (n' & Hmb & Hok' & Hp1 & Hp2 & Hd & Hl & Hw & Hk & Ho' & Hbk).
  exists n'. split; [exact Hmb|]. split; [by split_and!|done| |exact Hbk].
  assert (Hn' : names n' cs) by (split_and!; [congruence| |done]; by rewrite Hp1, Hp2).
  assert (Hmv : moved olds news cs = cs).
  { pose proof (moved_not_under cs Hg Hun) as E. destruct dir; [done|]. apply moved_other. by apply Hdir. }
  intros ds. split.
  - intros Hds. exists cs. split; [done|]. rewrite Hmv. by eapply names_inj.
  - intros (cs' & Hcs & ->). by rewrite (names_inj _ _ _ Hcs Hn), Hmv.
Qed.
End rename.

Lemma rename_node_total dir olds news r i n : tree_ok r → renaming dir olds news r → nodes r !! i = Some n →
  ∃ n', rename_node dir (render olds) (render news) n = Some n' ∧ moved_node dir olds news n n'.
Proof.
  intros Ht R Hi. pose proof (node_ok_at r i n Ht Hi) as Hok.
  destruct (decide (occupied n = true)) as [Ho|Hno].
  2: { apply not_true_is_false in Hno. exists n. unfold rename_node. rewrite Hno. split; [done|].
       assert (Hnn : ∀ cs, ¬ names n cs) by (intros cs [? _]; congruence).
       split; [by split_and!|done| |].
       - intros ds. split; [by intros ?%Hnn|]. by intros (? & ?%Hnn & _).
       - intros cs b Hb. by rewrite (node_free n Hok Hno) in Hb. }
  pose proof (rn_fit _ _ _ _ R i n Hi Ho) as Hpre.
  destruct (node_name n Hok Ho) as [[Hl _]|(cs & Hn & Hu)].
  - eapply rename_node_unnamed; try done. intros cs (_ & E & _). rewrite Hl in E. by destruct cs.
  - destruct (rn_olds _ _ _ _ R) as [Hne1 Hg1]. pose proof Hn as (_ & _ & Hg).
    assert (Hfile : ∀ s, cs = olds ++ s → s = [] ∨ dir = true).
    { intros s ->. destruct (decide (s = [])) as [?|Hs]; [by left|right].
      destruct (ancestors r i n olds s Ht) as (j & m & Hm & Hk); [by split|done|].
      destruct (rn_src _ _ _ _ R) as (k & mk & Hmk & <-).
      assert (j = k) as -> by by eapply (tree_unique r Ht). destruct Hm as [Hm _], Hmk as [Hmk _].
      assert (m = mk) as -> by congruence. by apply bool_decide_eq_true_2. }
    destruct (decide (olds `prefix_of` cs)) as [[s ->]|Hnp].
    + eapply rename_node_moved; eauto.
    + eapply rename_node_kept; eauto. apply not_true_is_false. rewrite under_true by done.
      intros (s & -> & _). apply Hnp. by exists s.
Qed.

(** The effect of a rename on the tree. *)
Definition renamed (old new : list byte) (r r' : Registry) : Prop := ∃ dir olds news,
  old = render olds ∧ new = render news ∧ renaming dir olds news r ∧
  generations r' = generations r ∧ versions r' = versions r ∧
  Forall2 (moved_node dir olds news) (nodes r) (nodes r').

Lemma rename_spec old new r : tree_ok r → utf8_valid old = true → utf8_valid new = true →
  match rename old new r with
  | (Ok _, r') => old = new ∧ r' = r ∨ old ≠ new ∧ renamed old new r r'
  | (Err _, r') => r' = r
  | (Panic, _) => False
  end.
Proof.
  intros Ht Hu1 Hu2. unfold rename. pose proof (validate_rename_spec old new r Ht Hu1 Hu2) as Hv.
  destruct (validate_rename old new r); [|done..]. destruct Hv as (olds & news & i & n & -> & -> & Hin & Hv).
  destruct (bool_decide _) eqn:E; open_guards; [by left|]. destruct Hv as [?|[_ R]]; [done|].
  rewrite (proj2 (find_node_Some r olds i Ht (proj2 (rn_olds _ _ _ _ R)))) by eauto.
  pose proof Hin as [Hi Hn]. rewrite Hi.
  assert (Hall : Forall (λ m, is_Some (rename_node (is_directory n) (render olds) (render news) m)) (nodes r)).
  { apply Forall_lookup. intros j m Hj. destruct (rename_node_total _ _ _ _ _ _ Ht R Hj) as (m' & -> & _). eauto. }
  apply mapM_is_Some_2 in Hall as [ns Hns]. rewrite Hns. right. split; [done|].
  exists (is_directory n), olds, news. split_and!; try done. cbn. apply mapM_Some in Hns.
  apply Forall2_same_length_lookup. split; [by eapply Forall2_length|]. intros j m m' Hj Hj'.
  destruct (rename_node_total _ _ _ _ _ _ Ht R Hj) as (m2 & Hm2 & Hmv).
  pose proof (Forall2_lookup_lr _ _ _ _ _ _ Hns Hj Hj') as E'. cbv beta in E'. congruence.
Qed.

Section renamed_tree.
Context (dir : bool) (olds news : list (list byte)) (r r' : Registry).
Hypothesis Ht : tree_ok r.
Hypothesis R : renaming dir olds news r.
Hypothesis HF : Forall2 (moved_node dir olds news) (nodes r) (nodes r').

Lemma named_at_moved i m' ds : named_at r' i m' ds ↔
  ∃ m cs, named_at r i m cs ∧ nodes r' !! i = Some m' ∧ moved_node dir olds news m m' ∧ ds = moved olds news cs.
Proof using HF.
  split.
  - intros [Hi Hn]. destruct (Forall2_lookup_r _ _ _ _ _ HF Hi) as (m & Hm & Hmv).
    pose proof Hn as Hn0. apply (mv_names _ _ _ _ _ Hmv) in Hn0 as (cs & Hcs & ->). exists m, cs. done.
  - intros (m & cs & [Hi Hn] & Hi' & Hmv & ->). split; [done|]. apply (mv_names _ _ _ _ _ Hmv). eauto.
Qed.

Lemma named_at_forward i m cs : named_at r i m cs →
  ∃ m', named_at r' i m' (moved olds news cs) ∧ kind m' = kind m.
Proof using HF.
  intros Hn. pose proof Hn as [Hi _]. destruct (Forall2_lookup_l _ _ _ _ _ HF Hi) as (m' & Hi' & Hmv).
  exists m'. split; [|apply (mv_same _ _ _ _ _ Hmv)]. apply named_at_moved. exists m, cs. done.
Qed.

(** No existing name is at or below the new name. *)
Lemma nothing_below_new i m cs : named_at r i m cs → ¬ news `prefix_of` cs.
Proof using Ht R.
  intros Hn [s ->]. destruct (decide (s = [])) as [->|Hs].
  - rewrite app_nil_r in Hn. by eapply (rn_free _ _ _ _ R).
  - destruct (ancestors _ _ _ _ _ Ht Hn Hs) as (j & n & Hj & _). by eapply (rn_free _ _ _ _ R).
Qed.

Lemma moved_inj i j m n cs ds : named_at r i m cs → named_at r j n ds →
  moved olds news cs = moved olds news ds → cs = ds.
Proof using Ht R.
  intros Hc Hd. unfold moved. pose proof (nothing_below_new _ _ _ Hc) as Nc.
  pose proof (nothing_below_new _ _ _ Hd) as Nd.
  destruct (decide _) as [[s ->]|], (decide _) as [[t ->]|]; rewrite ?drop_app_length; intros E.
  - by apply app_inv_head in E as ->.
  - destruct Nd. rewrite <-E. by eexists.
  - destruct Nc. rewrite E. by eexists.
  - done.
Qed.

Lemma moved_parent_ok i m cs ds d : named_at r i m cs → ds ++ [d] = moved olds news cs →
  ∃ j n qs, named_at r j n qs ∧ kind n = Directory ∧ ds = moved olds news qs.
Proof using Ht R.
  intros Hn E. unfold moved in E. destruct (decide _) as [[s ->]|Hnp].
  - rewrite drop_app_length in E. destruct s as [|x s _] using rev_ind.
    + rewrite app_nil_r in E. destruct (rn_parent _ _ _ _ R) as (ps & c & j & n & E' & Hj & Hk).
      rewrite E' in E. apply app_inj_tail in E as [-> _]. exists j, n, ps. split_and!; [done..|].
      rewrite moved_other; [done|]. intros [t ->]. apply (rn_out _ _ _ _ R). rewrite E', <-app_assoc. by eexists.
    + rewrite !app_assoc in E. apply app_inj_tail in E as [-> _]. rewrite app_assoc in Hn.
      destruct (tree_parent r Ht _ _ _ _ Hn) as (j & n & Hj & Hk). exists j, n, (olds ++ s).
      by rewrite moved_under.
  - subst cs. destruct (tree_parent r Ht _ _ _ _ Hn) as (j & n & Hj & Hk). exists j, n, ds.
    split_and!; [done..|]. rewrite moved_other; [done|]. intros [t ->]. apply Hnp. rewrite <-app_assoc. by eexists.
Qed.

Lemma tree_ok_renamed : generations r' = generations r → versions r' = versions r → tree_ok r'.
Proof using Ht R HF.
  intros Hg Hv. destruct (tree_len r Ht) as (H1 & H2 & H3). split.
  - rewrite Hg, Hv, <-(Forall2_length _ _ _ HF). done.
  - apply Forall_lookup. intros i m' Hi. destruct (Forall2_lookup_r _ _ _ _ _ HF Hi) as (m & _ & Hmv).
    apply (mv_ok _ _ _ _ _ Hmv).
  - intros i j n m ds (n0 & cs1 & Hn0 & _ & _ & ->)%named_at_moved (m0 & cs2 & Hm0 & _ & _ & E)%named_at_moved.
    pose proof (moved_inj _ _ _ _ _ _ Hn0 Hm0 E) as ->. by eapply (tree_unique r Ht).
  - intros i n ds d (n0 & cs & Hn0 & _ & _ & E)%named_at_moved.
    destruct (moved_parent_ok _ _ _ _ _ Hn0 E) as (j & q & qs & Hq & Hk & ->).
    destruct (named_at_forward _ _ _ Hq) as (q' & Hq' & Hk'). exists j, q'. split; [done|congruence].
  - destruct (tree_root r Ht) as (i & n & Hn & Hk). destruct (named_at_forward _ _ _ Hn) as (n' & Hn' & Hk').
    exists i, n'. split; [|congruence]. rewrite moved_other in Hn'; [done|].
    intros [t E]. destruct (rn_olds _ _ _ _ R) as [Hne _]. by destruct olds.
Qed.
End renamed_tree.

(** ** Listing a directory *)

Lemma NoDup_omap {A B C} (f : A → option B) (h : B → C) (l : list A) :
  (∀ i j x y b c, l !! i = Some x → l !! j = Some y → f x = Some b → f y = Some c → h b = h c → i = j) →
  NoDup (h <$> omap f l).
Proof.
  induction l as [|x l IH]; intros H; [constructor|]. cbn [omap list_omap].
  assert (Hl : NoDup (h <$> omap f l)).
  { apply IH. intros i j y z b c Hi Hj Hb Hc E. enough (S i = S j) by lia. by eapply H. }
  destruct (f x) as [b|] eqn:Hx; [|done]. cbn. constructor; [|done].
  intros (c & E & (y & Hy & Hfy)%list_elem_of_omap)%list_elem_of_fmap.
  apply list_elem_of_lookup in Hy as [j Hj]. enough (0 = S j)%nat by lia. by eapply (H 0%nat (S j)).
Qed.

Section listing.
Context (r : Registry) (ds : list (list byte)).
Hypothesis Ht : tree_ok r.
Hypothesis Hg : Forall good ds.

Lemma child_of_node i n c : nodes r !! i = Some n → occupied n = true →
  immediate_child_name (render ds) (path_str n) = Some c ↔ names n (ds ++ [c]).
Proof using Ht Hg.
  intros Hi Ho. pose proof (node_ok_at r i n Ht Hi) as Hok. split.
  - destruct (path_str_spec n Hok Ho) as [E|(cs & Hn & E)]; rewrite E.
    + unfold immediate_child_name. destruct (bool_decide _); [done|].
      destruct (bool_decide _); [done|]. unfold starts_with. rewrite take_nil.
      destruct (bool_decide ([] = render ds)) eqn:E'; [|done]. apply bool_decide_eq_true_1 in E'. by destruct ds.
    + intros Hc. apply child_render in Hc as ->; [done|done|apply Hn].
  - intros Hn. rewrite (path_str_named n _ Hok Hn). apply child_render; [done|apply Hn|done].
Qed.

Lemma children_spec c k : (c, k) ∈ children (render ds) (nodes r) ↔
  ∃ i n, named_at r i n (ds ++ [c]) ∧ kind n = k.
Proof using Ht Hg.
  unfold children. rewrite list_elem_of_omap. split.
  - intros (n & [i Hi]%list_elem_of_lookup & Hf). destruct (occupied n) eqn:Ho; [|done].
    apply fmap_Some in Hf as (c' & Hc & [= -> ->]). apply (child_of_node i n c' Hi Ho) in Hc.
    exists i, n. done.
  - intros (i & n & [Hi Hn] & <-). exists n. split; [by eapply list_elem_of_lookup_2|].
    rewrite (proj1 Hn). apply fmap_Some. exists c. split; [|done]. by apply (child_of_node i n c Hi (proj1 Hn)).
Qed.

Lemma children_NoDup : NoDup (children (render ds) (nodes r)).*1.
Proof using Ht Hg.
  apply NoDup_omap. intros i j n m [c k] [c' k'] Hi Hj Hn Hm E. cbn in E. subst c'.
  destruct (occupied n) eqn:Ho1; [|done]. destruct (occupied m) eqn:Ho2; [|done].
  apply fmap_Some in Hn as (? & Hn & [= <- _]), Hm as (? & Hm & [= <- _]).
  apply (child_of_node i n _ Hi Ho1) in Hn. apply (child_of_node j m _ Hj Ho2) in Hm.
  by eapply (tree_unique r Ht i j).
Qed.

Lemma utf8_last c : utf8_valid (render (ds ++ [c])) = true → utf8_valid (render ds) = true → utf8_valid c = true.
Proof using Hg.
  destruct (decide (ds = [])) as [->|Hne].
  - change (render ([] ++ [c])) with (SLASH :: c ++ []). by rewrite app_nil_r.
  - rewrite render_app by done. intros H1 H2. rewrite utf8_app in H1 by done.
    change (suffix_of [c]) with (SLASH :: c ++ []) in H1. by rewrite app_nil_r in H1.
Qed.

Lemma dir_entry_name c k : utf8_valid c = true → (length c ≤ MAX_DIR_NAME)%nat → name_str (dir_entry c k) = c.
Proof using Hg.
  intros Hu Hl. unfold name_str, dir_entry. cbn [de_name de_length]. rewrite Nat.min_l by done. rewrite (take_ge c) by done.
  rewrite take_splice by by rewrite length_replicate. by apply str_valid.
Qed.

Lemma readdir_nth index : (length (render ds) ≤ MAX_PATH_SIZE)%nat →
  (∃ i n, named_at r i n ds ∧ kind n = Directory) →
  readdir (render ds) index r =
    match children (render ds) (nodes r) !! index with
    | Some (c, k) => Ok (dir_entry c k)
    | None => Err NotFound
    end.
Proof using Ht Hg.
  intros Hl (i & n & [Hi Hn] & Hk). unfold readdir.
  rewrite (proj2 (validate_ok _)) by eauto. unfold mbind at 1, res_bind at 1.
  rewrite (position_unique _ _ i n Hi).
  - cbn [mbind option_bind]. rewrite Hi. cbn [ok_or]. unfold mbind, res_bind.
    rewrite (path_str_named n ds) by (by eauto using node_ok_at).
    by destruct (children _ _ !! index) as [[c k]|].
  - apply andb_true_iff. split; [by apply matches_render|]. by apply bool_decide_eq_true_2.
  - intros j m Hj [Hm _]%andb_true_iff. apply matches_render in Hm; [|done].
    by eapply (tree_unique r Ht j i).
Qed.
End listing.

(** ** The effects, for every canonical tree *)

(** creating a file: the call either stores a new writable or read-only file
    with exactly the given name and bytes in a free slot below an existing
    directory, changing no other node, or reports why it cannot and changes
    nothing; it never panics and the tree stays well formed. *)
Theorem insert_effect p d w r : tree_ok r → utf8_valid p = true →
  match insert p d w r with
  | (Ok i, r') => tree_ok r' ∧ ∃ n, new_file d w n ∧
      (∀ j, j ≠ i → nodes r' !! j = nodes r !! j) ∧
      (∀ j m cs, named_at r' j m cs ↔ named_at r j m cs ∨ j = i ∧ m = n ∧ p = render cs ∧ Forall good cs) ∧
      (∀ m cs, ¬ named_at r i m cs)
  | (Err e, r') => r' = r ∧ create_error p (length d) r e
  | (Panic, _) => False
  end.
Proof.
  intros Ht Hu. pose proof (insert_creates p d w r Ht Hu) as H. destruct (insert p d w r) as [[i|e|] r']; [|done..].
  destruct H as (n & Hc & Hnew). split; [by eapply created_tree_ok|]. exists n. split; [done|].
  destruct Hc as [-> (old & Hi & Ho) _ (cs & c & -> & Hn & _ & _)].
  assert (Hno : ∀ m cs, ¬ named_at r i m cs) by (intros m ? [? [? _]]; congruence).
  split_and!; [|intros j m ds|done].
  - intros j Hj. apply list_lookup_insert_ne. congruence.
  - rewrite named_at_set by (by eapply lookup_lt_Some). split.
    + intros [(-> & -> & Hds)|[_ ?]]; [right|by left]. split_and!; [done..| |apply Hds].
      by rewrite (names_inj _ _ _ Hn Hds).
    + intros [Hj|(-> & -> & E & Hg)]; [right|left].
      * split; [|done]. intros ->. by eapply Hno.
      * split_and!; [done..|]. apply render_inj in E as <-; [done|apply Hn|done].
Qed.

(** removing a name frees exactly its node (a file, or a directory without
    entries) and bumps its generation, leaving every other node as it was, or
    reports why it cannot and changes nothing; the tree stays well formed. *)
Theorem remove_effect p r : tree_ok r →
  match remove p r with
  | (Ok _, r') => tree_ok r' ∧ ∃ i n g cs, p = render cs ∧ named_at r i n cs ∧
      generations r !! i = Some g ∧ generations r' = <[i := g + 1]> (generations r) ∧
      (∀ j, j ≠ i → nodes r' !! j = nodes r !! j) ∧
      (∀ j m ds, named_at r' j m ds ↔ named_at r j m ds ∧ ds ≠ cs)
  | (Err e, r') => r' = r ∧ remove_error p r e
  | (Panic, _) => False
  end.
Proof.
  intros Ht. pose proof (remove_spec p r Ht) as H. destruct (remove p r) as [[[]|e|] r']; [|done..].
  split; [by eapply tree_ok_removed|].
  destruct H as (cs & c & i & n & g & -> & [Hi Hn] & _ & Hg & _ & ->).
  exists i, n, g, (cs ++ [c]). split_and!; try done.
  - intros j Hj. apply list_lookup_insert_ne. congruence.
  - intros j m ds. rewrite (named_at_freed r i n) by (done || by apply free_unnamed). split.
    + intros [Hne Hj]. split; [done|]. intros ->. apply Hne. by eapply (tree_unique r Ht).
    + intros [Hj Hne]. split; [|done]. intros ->. destruct Hj as [Hj Hds].
      assert (m = n) as -> by congruence. apply Hne. by eapply names_inj.
Qed.

(** C37: renaming moves a whole subtree: the names after the rename are the names
    before with the old prefix replaced by the new one, every node keeps its
    index, kind, contents and generation, the tree stays well formed, and a
    rename that fails changes nothing. *)
Theorem rename_moves_subtree old new r : tree_ok r → utf8_valid old = true → utf8_valid new = true →
  match rename old new r with
  | (Ok _, r') => tree_ok r' ∧ generations r' = generations r ∧ versions r' = versions r ∧
      ∃ olds news, old = render olds ∧ new = render news ∧ (∃ i n, named_at r i n olds) ∧
      length (nodes r') = length (nodes r) ∧
      ∀ i n n', nodes r !! i = Some n → nodes r' !! i = Some n' →
        kind n' = kind n ∧ data n' = data n ∧ nlength n' = nlength n ∧ writable n' = writable n ∧
        occupied n' = occupied n ∧ ∀ ds, names n' ds ↔ ∃ cs, names n cs ∧ ds = moved olds news cs
  | (Err _, r') => r' = r
  | (Panic, _) => False
  end.
Proof.
  intros Ht Hu1 Hu2. pose proof (rename_spec old new r Ht Hu1 Hu2) as H. pose proof (validate_rename_spec old new r Ht Hu1 Hu2) as Hv.
  unfold rename in *. destruct (validate_rename old new r) as [[]|e|]; [|done..].
  destruct Hv as (o0 & n0 & i0 & m0 & Eo & En & Hin & _).
  match type of H with match ?x with _ => _ end => destruct x as [[[]|e|] r'] end; [|done..].
  destruct H as [[E ->]|[Hne (dir & olds & news & -> & -> & R & Hgen & Hver & HF)]].
  - split_and!; [done..|]. exists o0, o0. split_and!; [done|congruence|by eauto|done|].
    intros i n n' Hn Hn'. assert (n' = n) as -> by congruence. split_and!; [done..|]. intros ds. split.
    + intros Hds. exists ds. by rewrite moved_id.
    + intros (cs & Hcs & ->). by rewrite moved_id.
  - split_and!; [by eapply tree_ok_renamed|done..|]. exists olds, news. split_and!; [done|done| | |].
    + destruct (rn_src _ _ _ _ R) as (i & n & Hn & _). eauto.
    + symmetry. by eapply Forall2_length.
    + intros i n n' Hn Hn'. pose proof (Forall2_lookup_lr _ _ _ _ _ _ HF Hn Hn') as Hmv.
      destruct (mv_same _ _ _ _ _ Hmv) as (? & ? & ? & ? & ?). split_and!; [done..|].
      apply (mv_names _ _ _ _ _ Hmv).
Qed.

(** listing a directory: [readdir] enumerates exactly the directory's entries,
    each once, with its name and kind, by position, and ends with [NotFound]. *)
Theorem readdir_lists_directory r ds : tree_ok r → (length (render ds) ≤ MAX_PATH_SIZE)%nat →
  (∃ i n, named_at r i n ds ∧ kind n = Directory) →
  ∃ entries, NoDup entries.*1 ∧
    (∀ c k, (c, k) ∈ entries ↔ ∃ i n, named_at r i n (ds ++ [c]) ∧ kind n = k) ∧
    ∀ index, match readdir (render ds) index r with
             | Ok e => entries !! index = Some (name_str e, de_kind e)
             | Err e => e = NotFound ∧ (length entries ≤ index)%nat
             | Panic => False
             end.
Proof.
  intros Ht Hl (i & n & Hn & Hk). assert (Hg : Forall good ds) by apply Hn.
  exists (children (render ds) (nodes r)). split_and!; [by apply children_NoDup|by intros; apply children_spec|].
  intros index. rewrite readdir_nth by eauto.
  destruct (children _ _ !! index) as [[c k]|] eqn:E; [|split; [done|by apply lookup_ge_None]].
  pose proof (list_elem_of_lookup_2 _ _ _ E) as Hin. apply (children_spec r ds Ht Hg) in Hin as (j & m & [Hj Hm] & <-).
  pose proof (node_ok_at r j m Ht Hj) as Hok. rewrite (dir_entry_name ds Hg); [done| |].
  - eapply (utf8_last ds Hg); [by eapply names_utf8|]. eapply names_utf8; [|apply Hn].
    by eapply (node_ok_at r i), Hn.
  - destruct Hm as (_ & _ & [_ [Hc _]%Forall_cons]%Forall_app). destruct Hc as (_ & _ & _ & _ & Hc & _). lia.
Qed.

(** ** The registry at boot *)

Definition boot_file (cs : list (list byte)) (content : option (list byte * bool)) : Node :=
  match content with
  | None => node_directory (render cs)
  | Some (d, w) => node_with_data (render cs) d w
  end.

Definition boot_entries : list (list (list byte) * option (list byte * bool)) :=
  [([], None); ([bytes "etc"], None); ([bytes "tmp"], None); ([bytes "mnt"], None); ([bytes "bin"], None);
   ([bytes "etc"; bytes "motd"], Some (bytes "Welcome to WovenHat OS." ++ [Corelib.Init.Byte.x0a], false));
   ([bytes "etc"; bytes "version"],
      Some (bytes "WovenHat kernel 0.8.0 Multicore Foundation" ++ [Corelib.Init.Byte.x0a], false));
   ([bytes "tmp"; bytes "vfs-self-test"], Some ([], true))].

Definition entry_ok (e : list (list byte) * option (list byte * bool)) : Prop :=
  Forall good (fst e) ∧ (length (render (fst e)) ≤ 100)%nat ∧ utf8_valid (render (fst e)) = true ∧
  (length (from_option fst [] (snd e)) ≤ 100)%nat.
#[export] Instance entry_ok_dec e : Decision (entry_ok e).
Proof. unfold entry_ok. apply _. Defined.

Lemma boot_entries_ok : Forall entry_ok boot_entries.
Proof. apply (bool_decide_eq_true_1 (Forall entry_ok boot_entries)). vm_compute. reflexivity. Qed.

(** Names are distinct and every parent is a directory of the list. *)
Lemma boot_names_distinct : NoDup boot_entries.*1.
Proof. apply (bool_decide_eq_true_1 (NoDup boot_entries.*1)). vm_compute. reflexivity. Qed.

Lemma boot_parents : Forall (λ e, fst e = [] ∨ (removelast (fst e), None) ∈ boot_entries) boot_entries.
Proof.
  apply (bool_decide_eq_true_1 (Forall (λ e, fst e = [] ∨ (removelast (fst e), None) ∈ boot_entries) boot_entries)).
  vm_compute. reflexivity.
Qed.

Lemma limits : (100 ≤ MAX_PATH_SIZE)%nat ∧ (100 ≤ NODE_CAPACITY)%nat ∧ (8 ≤ MAX_VFS_NODES)%nat.
Proof. with_strategy transparent [MAX_PATH_SIZE NODE_CAPACITY MAX_VFS_NODES] (unfold MAX_PATH_SIZE, NODE_CAPACITY, VFS_NODE_CAPACITY, MAX_VFS_NODES). lia. Qed.

Lemma boot_file_ok e : entry_ok e → node_ok (boot_file (fst e) (snd e)) ∧ names (boot_file (fst e) (snd e)) (fst e).
Proof.
  destruct e as [cs [[d w]|]]; intros (Hg & Hl & Hu & Hd); cbn [fst snd boot_file from_option] in *;
    destruct limits as (? & ? & _);
    (assert (Hn : names (boot_file cs (Some ([], true))) cs);
      [split_and!; cbn; [done| |done]; apply take_splice; rewrite length_replicate; lia|]).
  - split; [|exact Hn]. split; cbn; try done; rewrite ?length_splice, ?length_replicate;
      rewrite ?length_replicate; try lia. intros _. right. by exists cs.
  - split; [|exact Hn]. split; cbn; try done; rewrite ?length_splice, ?length_replicate;
      rewrite ?length_replicate; try lia. intros _. right. by exists cs.
Qed.

Lemma boot_nodes : nodes boot = splice (replicate MAX_VFS_NODES node_empty) 0 ((λ e, boot_file (fst e) (snd e)) <$> boot_entries).
Proof. reflexivity. Qed.

Lemma boot_lookup i n : nodes boot !! i = Some n →
  (∃ e, boot_entries !! i = Some e ∧ n = boot_file (fst e) (snd e)) ∨ n = node_empty.
Proof.
  rewrite boot_nodes, lookup_splice.
  2: { rewrite length_fmap, length_replicate. apply limits. }
  case_decide.
  - rewrite Nat.sub_0_r. intros (e & -> & He)%list_lookup_fmap_Some. left. eauto.
  - intros [-> _]%lookup_replicate. by right.
Qed.

Lemma node_empty_ok : node_ok node_empty.
Proof. split; cbn; try done; rewrite ?length_replicate; try done; lia. Qed.

Lemma boot_named i n cs : named_at boot i n cs ↔
  ∃ c, boot_entries !! i = Some (cs, c) ∧ n = boot_file cs c.
Proof.
  pose proof boot_entries_ok as Hall. split.
  - intros [Hi Hn]. destruct (boot_lookup i n Hi) as [([ds c] & He & ->)| ->]; [|by destruct Hn].
    destruct (boot_file_ok (ds, c)) as [_ Hn']; [by eapply Forall_lookup_1|].
    rewrite (names_inj _ _ _ Hn Hn'). by exists c.
  - intros (c & He & ->). split; [|by apply (boot_file_ok (cs, c)); eapply Forall_lookup_1].
    rewrite boot_nodes, lookup_splice by (rewrite length_fmap, length_replicate; apply limits).
    rewrite length_fmap, decide_True, Nat.sub_0_r by (apply lookup_lt_Some in He; lia).
    by rewrite list_lookup_fmap, He.
Qed.

Lemma boot_tree_ok : tree_ok boot.
Proof.
  split.
  - cbn [versions generations boot]. rewrite boot_nodes, length_splice, !length_replicate; [done|].
    rewrite length_fmap, length_replicate. apply limits.
  - apply Forall_lookup. intros i n Hi. destruct (boot_lookup i n Hi) as [(e & He & ->)| ->]; [|apply node_empty_ok].
    apply boot_file_ok. eapply Forall_lookup_1; [apply boot_entries_ok|done].
  - intros i j n m cs (c & Hi & _)%boot_named (c' & Hj & _)%boot_named.
    eapply (NoDup_lookup _ _ _ cs boot_names_distinct); rewrite list_lookup_fmap; [by rewrite Hi|by rewrite Hj].
  - intros i n cs c (e & Hi & _)%boot_named. pose proof boot_parents as Hp.
    eapply Forall_lookup_1 in Hp; [|exact Hi]. cbn [fst] in Hp. destruct Hp as [Hp|Hp]; [by destruct cs|].
    rewrite removelast_last in Hp. apply list_elem_of_lookup in Hp as [j Hj].
    exists j, (boot_file cs None). split; [|done]. apply boot_named. by exists None.
  - exists 0%nat, (boot_file [] None). split; [|done]. apply boot_named. by exists None.
Qed.

Lemma insert_effect_witness : tree_ok boot ∧
  ∃ i r', insert (bytes "/tmp/a") (bytes "hi") true boot = (Ok i, r') ∧ tree_ok r' ∧
    ∀ j m cs, named_at boot j m cs → named_at r' j m cs.
Proof.
  split; [exact boot_tree_ok|]. pose proof (insert_effect (bytes "/tmp/a") (bytes "hi") true boot boot_tree_ok eq_refl) as H.
  assert (E : is_ok (fst (insert (bytes "/tmp/a") (bytes "hi") true boot)) = true) by exact_no_check (@eq_refl bool true).
  destruct (insert (bytes "/tmp/a") (bytes "hi") true boot) as [[i|e|] r']; [|discriminate E..].
  destruct H as (Ht & n & _ & _ & Hn & _). exists i, r'. split; [reflexivity|]. split; [exact Ht|].
  intros j m cs Hj. apply Hn. left. exact Hj.
Defined.

Lemma remove_effect_witness : tree_ok boot ∧
  ∃ r', remove (bytes "/etc/motd") boot = (Ok tt, r') ∧ tree_ok r'.
Proof.
  split; [exact boot_tree_ok|]. pose proof (remove_effect (bytes "/etc/motd") boot boot_tree_ok) as H.
  assert (E : is_ok (fst (remove (bytes "/etc/motd") boot)) = true) by exact_no_check (@eq_refl bool true).
  destruct (remove (bytes "/etc/motd") boot) as [[[]|e|] r']; [|discriminate E..].
  exists r'. split; [reflexivity|]. exact (proj1 H).
Defined.

(** [/etc] with its two files becomes [/tmp/conf]. *)
Lemma rename_moves_witness : tree_ok boot ∧
  ∃ r', rename (bytes "/etc") (bytes "/tmp/conf") boot = (Ok tt, r') ∧ tree_ok r' ∧
    find_node (bytes "/tmp/conf/motd") r' = Some 5%nat.
Proof.
  split; [exact boot_tree_ok|].
  pose proof (rename_moves_subtree (bytes "/etc") (bytes "/tmp/conf") boot boot_tree_ok eq_refl eq_refl) as H.
  assert (E : is_ok (fst (rename (bytes "/etc") (bytes "/tmp/conf") boot)) = true) by exact_no_check (@eq_refl bool true).
  assert (E' : find_node (bytes "/tmp/conf/motd") (snd (rename (bytes "/etc") (bytes "/tmp/conf") boot)) = Some 5%nat)
    by exact_no_check (@eq_refl (option nat) (Some 5%nat)).
  destruct (rename (bytes "/etc") (bytes "/tmp/conf") boot) as [[[]|e|] r']; [|discriminate E..].
  exists r'. split; [reflexivity|]. split; [exact (proj1 H)|exact E'].
Defined.

Lemma readdir_lists_witness : tree_ok boot ∧
  (∃ entries, NoDup entries.*1 ∧ (bytes "motd", File) ∈ entries) ∧
  (name_str <$> readdir (bytes "/etc") 1 boot) = Ok (bytes "version").
Proof.
  assert (Hd : ∃ i n, named_at boot i n [bytes "etc"] ∧ kind n = Directory).
  { exists 1%nat, (boot_file [bytes "etc"] None). split; [|done]. apply boot_named. by exists None. }
  split; [exact boot_tree_ok|]. split; [|exact_no_check (@eq_refl (res VError (list byte)) (Ok (bytes "version")))].
  destruct (readdir_lists_directory boot [bytes "etc"] boot_tree_ok) as (l & Hnd & Hin & _).
  - etrans; [|apply limits]. apply Nat.leb_le. reflexivity.
  - exact Hd.
  - exists l. split; [exact Hnd|]. apply Hin. exists 5%nat. eexists. split; [apply boot_named; eexists; split; reflexivity|]. reflexivity.
Defined.
