(* ===== verification/VfsFiles.v ===== *)
(** * Open files (kernel/src/vfs.rs, the public functions)

    The registry and the open-file table together.  The invariant: the tree is
    well formed, and every open description refers to an occupied file of the
    same generation.  Every public function keeps it and never panics; reads
    deliver the file's contents, a write is read back, and an open file
    outlives its name. *)
From stdpp Require Import list.
From S2P Require Import Prelude Config VfsPath Vfs VfsTree.

(** ** The invariant *)

Definition entry_live (r : Registry) (e : OpenFileDescription) : Prop :=
  ∃ n, nodes r !! onode e = Some n ∧ occupied n = true ∧ kind n = File ∧
    generations r !! onode e = Some (ogeneration e).

Record vfs_ok (r : Registry) (t : OpenFileTable) : Prop := {
  vo_tree : tree_ok r;
  vo_entries : ∀ id e, t !! id = Some e → ooccupied e = true → 0 < refcount e ∧ entry_live r e;
  (** A nameless file is open, unless its generation counter is exhausted. *)
  vo_unnamed : ∀ i n, nodes r !! i = Some n → occupied n = true → path_length n = 0%nat →
    is_open i t = true ∨ ∃ g, generations r !! i = Some g ∧ 2 ^ 64 ≤ g + 1 }.

Lemma is_open_true i t : is_open i t = true ↔ ∃ id e, t !! id = Some e ∧ ooccupied e = true ∧ onode e = i.
Proof.
  unfold is_open. rewrite any_true. split.
  - intros (id & e & He & [Ho Hn%Nat.eqb_eq]%andb_true_iff). eauto.
  - intros (id & e & He & Ho & <-). exists id, e. split; [done|]. by rewrite Ho, Nat.eqb_refl.
Qed.

(** Same identity: name, kind and occupation. *)
Definition same_ident (n m : Node) : Prop :=
  path m = path n ∧ path_length m = path_length n ∧ kind m = kind n ∧ occupied m = occupied n.

Lemma same_ident_names n m : same_ident n m → ∀ ds, names m ds ↔ names n ds.
Proof. intros (H1 & H2 & _ & H4) ds. unfold names. by rewrite H1, H2, H4. Qed.

Lemma vfs_ok_versions r t vs : vfs_ok r t → length vs = MAX_VFS_NODES →
  vfs_ok (mkRegistry vs (generations r) (nodes r)) t.
Proof.
  intros [Ht He Hn] Hv. split; [|done|done]. destruct Ht as [(H1 & H2 & H3) Hns Hu Hp Hr]. by split.
Qed.

(** An update of a node that keeps its identity. *)
Lemma vfs_ok_node r t i n m : vfs_ok r t → nodes r !! i = Some n → same_ident n m → node_ok m →
  vfs_ok (set_node i m r) t.
Proof.
  intros [Ht He Hn] Hi Hs Hm. pose proof Hs as (H1 & H2 & H3 & H4).
  destruct (tree_len r Ht) as (L1 & L2 & L3). pose proof (lookup_lt_Some _ _ _ Hi) as Hlt. split.
  - eapply tree_ok_same; try done. by apply same_ident_names.
  - intros id e Hid Ho. destruct (He id e Hid Ho) as (Hr & q & Hq & Hqo & Hqk & Hg). split; [done|].
    unfold entry_live, set_node; cbn. destruct (decide (onode e = i)) as [E|Hne].
    + rewrite E in Hq. assert (q = n) as -> by congruence. exists m. rewrite E. rewrite list_lookup_insert_eq by done.
      rewrite E in Hg. split_and!; try congruence.
    + exists q. by rewrite list_lookup_insert_ne.
  - unfold set_node; cbn. intros j q [(<- & <- & _)|[Hne Hj]]%list_lookup_insert_Some Hqo Hql; [|by eapply Hn].
    eapply Hn; [done|congruence..].
Qed.

(** An update of a description that stays open on the same node. *)
Lemma vfs_ok_entry r t id e e' : vfs_ok r t → t !! id = Some e → ooccupied e = true →
  onode e' = onode e → ogeneration e' = ogeneration e → ooccupied e' = true → 0 < refcount e' →
  vfs_ok r (<[id := e']> t).
Proof.
  intros [Ht He Hn] Hid Ho Hnode Hgen Ho' Hrc. pose proof (lookup_lt_Some _ _ _ Hid) as Hlt. split; [done| |].
  - intros j f Hf Hfo. apply list_lookup_insert_Some in Hf as [(<- & <- & _)|[_ Hf]]; [|by eapply He].
    split; [done|]. destruct (He id e Hid Ho) as (_ & q & Hq). unfold entry_live. rewrite Hnode, Hgen. eauto.
  - intros i n Hi Hoc Hl. destruct (Hn i n Hi Hoc Hl) as [Hop|?]; [left|by right].
    apply is_open_true in Hop as (j & f & Hf & Hfo & Hfn). apply is_open_true.
    destruct (decide (j = id)) as [->|Hne].
    + assert (f = e) as -> by congruence. exists id, e'. rewrite list_lookup_insert_eq by done. split_and!; congruence.
    + exists j, f. by rewrite list_lookup_insert_ne.
Qed.

(** A new description of a live file in a free slot. *)
Lemma vfs_ok_alloc r t slot e e' : vfs_ok r t → t !! slot = Some e → ooccupied e = false →
  entry_live r e' → 0 < refcount e' → vfs_ok r (<[slot := e']> t).
Proof.
  intros [Ht He Hn] Hs Ho Hl Hrc. split; [done| |].
  - intros j f Hf Hfo. apply list_lookup_insert_Some in Hf as [(<- & <- & _)|[_ Hf]]; [done|by eapply He].
  - intros i n Hi Hoc Hpl. destruct (Hn i n Hi Hoc Hpl) as [Hop|?]; [left|by right].
    apply is_open_true in Hop as (j & f & Hf & Hfo & Hfn). apply is_open_true. exists j, f.
    split; [|done]. rewrite list_lookup_insert_ne; [done|]. congruence.
Qed.

(** Creating a node: it was free, so no description refers to it. *)
Lemma vfs_ok_created p i n r r' t : vfs_ok r t → created p i n r r' → vfs_ok r' t.
Proof.
  intros [Ht He Hn] Hc. split; [by eapply created_tree_ok| |];
    destruct Hc as [-> (old & Hi & Ho) _ (cs & c & _ & Hnm & _)]; unfold set_node; cbn.
  - intros id e Hid Hoc. destruct (He id e Hid Hoc) as (Hr & q & Hq & Hqo & Hqk & Hg). split; [done|].
    exists q. cbn. rewrite list_lookup_insert_ne; [done|]. intros ->. congruence.
  - intros j q [(<- & <- & _)|[Hne Hj]]%list_lookup_insert_Some Hqo Hql; [|by eapply Hn].
    by destruct (zero_unnamed _ Hql (cs ++ [c])).
Qed.

(** Removing a node no description refers to. *)
Lemma vfs_ok_removed p r r' t i n : vfs_ok r t → removed p r r' → find_node p r = Some i →
  nodes r !! i = Some n → kind n ≠ File ∨ is_open i t = false → vfs_ok r' t.
Proof.
  intros [Ht He Hn] Hr Hf Hi Hc. split; [by eapply tree_ok_removed| |].
  - destruct Hr as (cs & c & j & m & g & -> & [Hj Hm] & Hch & Hg & Hlt & ->).
    assert (Some j = Some i) as [= ->].
    { rewrite <-Hf. symmetry. apply find_node_Some; [done|apply Hm|]. by exists m. }
    assert (m = n) as -> by congruence.
    intros id e Hid Hoc. destruct (He id e Hid Hoc) as (Hrc & q & Hq & Hqo & Hqk & Hgq). split; [done|].
    assert (onode e ≠ i).
    { intros E. rewrite E in Hq. assert (q = n) as -> by congruence. destruct Hc as [?|Hc]; [done|].
      apply not_true_iff_false in Hc. apply Hc, is_open_true. eauto. }
    exists q. cbn. rewrite !list_lookup_insert_ne by done. done.
  - destruct Hr as (cs & c & j & m & g & -> & [Hj Hm] & Hch & Hg & Hlt & ->). cbn.
    intros k q [(<- & <- & _)|[Hne Hk]]%list_lookup_insert_Some Hqo Hql; [done|].
    rewrite list_lookup_insert_ne by done. by eapply Hn.
Qed.

Lemma unnamed_iff n : node_ok n → occupied n = true → path_length n = 0%nat ↔ ∀ ds, ¬ names n ds.
Proof.
  intros Hok Ho. split; [by apply zero_unnamed|]. intros H.
  destruct (node_name n Hok Ho) as [[? _]|(cs & Hn & _)]; [done|]. by destruct (H cs).
Qed.

Lemma vfs_ok_renamed old new r r' t : vfs_ok r t → renamed old new r r' → vfs_ok r' t.
Proof.
  intros [Ht He Hn] (dir & olds & news & _ & _ & R & Hg & Hv & HF).
  pose proof (tree_ok_renamed dir olds news r r' Ht R HF Hg Hv) as Ht'. split; [done| |].
  - intros id e Hid Hoc. destruct (He id e Hid Hoc) as (Hrc & q & Hq & Hqo & Hqk & Hgq). split; [done|].
    destruct (Forall2_lookup_l _ _ _ _ _ HF Hq) as (q' & Hq' & Hmv).
    destruct (mv_same _ _ _ _ _ Hmv) as (_ & _ & _ & Hk & Ho). exists q'. rewrite Hg. split_and!; congruence.
  - intros i n' Hi Ho Hl. destruct (Forall2_lookup_r _ _ _ _ _ HF Hi) as (n & Hi0 & Hmv).
    rewrite Hg. destruct (mv_same _ _ _ _ _ Hmv) as (_ & _ & _ & Hk & Hoc).
    assert (Hon : occupied n = true) by congruence. apply (Hn i n Hi0 Hon).
    apply unnamed_iff; [by eapply (node_ok_at r i)|done|]. intros ds Hds.
    apply (zero_unnamed _ Hl (moved olds news ds)). apply (mv_names _ _ _ _ _ Hmv). eauto.
Qed.

(** An open file loses its name. *)
Lemma vfs_ok_unname r t i n m cs : vfs_ok r t → named_at r i n cs → kind n = File → is_open i t = true →
  node_ok m → kind m = File → occupied m = true → path_length m = 0%nat → vfs_ok (set_node i m r) t.
Proof.
  intros [Ht He Hn] Hin Hk Hop Hm Hmk Hmo Hml. pose proof Hin as [Hi _]. pose proof (lookup_lt_Some _ _ _ Hi).
  destruct (tree_len r Ht) as (L1 & L2 & L3). split.
  - eapply tree_ok_unname; try done.
    + intros ->. destruct (tree_root r Ht) as (j & q & Hq & Hqk).
      assert (j = i) as -> by by eapply (tree_unique r Ht). destruct Hq as [Hq _]. congruence.
    + intros j q d Hq. destruct (tree_parent r Ht _ _ _ _ Hq) as (k & p & Hp & Hpk).
      assert (k = i) as -> by by eapply (tree_unique r Ht). destruct Hp as [Hp _]. congruence.
    + by apply zero_unnamed.
  - intros id e Hid Ho. destruct (He id e Hid Ho) as (Hr & q & Hq & Hqo & Hqk & Hg). split; [done|].
    unfold entry_live, set_node; cbn. destruct (decide (onode e = i)) as [E|Hne].
    + exists m. rewrite E, list_lookup_insert_eq by done. rewrite E in Hg. done.
    + exists q. by rewrite list_lookup_insert_ne.
  - unfold set_node; cbn. intros j q [(<- & <- & _)|[Hne Hj]]%list_lookup_insert_Some Hqo Hql; [by left|by eapply Hn].
Qed.

(** The last reference to a description goes away. *)
Lemma vfs_ok_closed r t id e n : vfs_ok r t → t !! id = Some e → ooccupied e = true →
  nodes r !! onode e = Some n →
  is_open (onode e) (<[id := open_empty]> t) = true ∨ path_length n ≠ 0%nat ∨
    (∃ g, generations r !! onode e = Some g ∧ 2 ^ 64 ≤ g + 1) →
  vfs_ok r (<[id := open_empty]> t).
Proof.
  intros [Ht He Hn] Hid Ho Hi Hc. split; [done| |].
  - intros j f Hf Hfo. apply list_lookup_insert_Some in Hf as [(<- & <- & _)|[_ Hf]]; [done|by eapply He].
  - intros k q Hk Hko Hkl. destruct (decide (k = onode e)) as [->|Hne].
    { assert (q = n) as -> by congruence. destruct Hc as [?|[?|?]]; [by left|done|by right]. }
    destruct (Hn k q Hk Hko Hkl) as [Hop|?]; [left|by right].
    apply is_open_true in Hop as (j & f & Hf & Hfo & Hfn). apply is_open_true. exists j, f.
    split; [|done]. rewrite list_lookup_insert_ne; [done|]. congruence.
Qed.

(** ... and frees a nameless file. *)
Lemma vfs_ok_released r t id e n m g : vfs_ok r t → t !! id = Some e → ooccupied e = true →
  nodes r !! onode e = Some n → path_length n = 0%nat → is_open (onode e) (<[id := open_empty]> t) = false →
  node_ok m → occupied m = false → kind m = kind n →
  vfs_ok (mkRegistry (versions r) (<[onode e := g]> (generations r)) (<[onode e := m]> (nodes r)))
    (<[id := open_empty]> t).
Proof.
  intros [Ht He Hn] Hid Ho Hi Hl Hop Hm Hmo Hmk. destruct (tree_len r Ht) as (L1 & L2 & L3).
  apply not_true_iff_false in Hop. split.
  - eapply tree_ok_same; try done; [|by rewrite length_insert].
    intros ds. split; intros Hds; [by destruct (free_unnamed m Hmo ds)|by destruct (zero_unnamed n Hl ds)].
  - intros j f Hf Hfo. pose proof Hf as Hf0.
    apply list_lookup_insert_Some in Hf as [(<- & <- & _)|[Hjd Hf]]; [done|].
    destruct (He j f Hf Hfo) as (Hr & q & Hq & Hqo & Hqk & Hg). split; [done|].
    assert (onode f ≠ onode e) by (intros E; apply Hop, is_open_true; eauto).
    exists q. cbn. by rewrite !list_lookup_insert_ne.
  - cbn. intros k q [(<- & <- & _)|[Hne Hk]]%list_lookup_insert_Some Hko Hkl; [congruence|].
    rewrite list_lookup_insert_ne by done. destruct (Hn k q Hk Hko Hkl) as [Hk'|?]; [left|by right].
    apply is_open_true in Hk' as (j & f & Hf & Hfo & Hfn). apply is_open_true. exists j, f.
    split; [|done]. rewrite list_lookup_insert_ne; [done|]. intros <-. congruence.
Qed.

(** ** What the VFS relies on *)

Class FramesLaws (F : Type) `{Frames F} := {
  fr_overlay_length : ∀ i g off b f, length (fr_overlay i g off b f) = length b;
  (** Bytes written through [update] are the bytes [overlay] leaves there. *)
  fr_overlay_update : ∀ i g off d f, fr_overlay i g off d (fr_update i g off d f) = d }.

(** In the states [disk_good] holds of, a successful read of a disk file delivers
    a range of its contents, which reading does not change. *)
Class DiskLaws (K : Type) `{DiskFiles K} := {
  disk_good : K → Prop;
  disk_content : K → list byte → option (list byte);
  disk_read_law : ∀ p off buf k r buf' k', disk_good k → read_disk_file p off buf k = (r, buf', k') →
    r ≠ Panic ∧ length buf' = length buf ∧ disk_good k' ∧ (∀ q, disk_content k' q = disk_content k q) ∧
    ∀ c, r = Ok c → (c ≤ length buf)%nat ∧
      ∃ l, disk_content k p = Some l ∧ (c = 0 ∨ off + c ≤ length l)%nat ∧ take c buf' = slice l off c }.

Section safety.
Context {F K : Type} `{FramesLaws F, DiskLaws K}.
#[local] Set Default Proof Using "All".
Implicit Types (s : Fs F K).

Record fs_ok s : Prop := { fs_vfs :> vfs_ok (registry s) (files s); fs_disk : disk_good (storage s) }.
Lemma fs_ok_mk r t f k : vfs_ok r t → disk_good k → fs_ok (mkFs r t f k).
Proof. by split. Qed.
Definition safe {A} (o : res VError A * Fs F K) : Prop := fst o ≠ Panic ∧ fs_ok (snd o).

Lemma safe_mk {A} (o : res VError A * Fs F K) :
  fst o ≠ Panic → vfs_ok (registry (snd o)) (files (snd o)) → disk_good (storage (snd o)) → safe o.
Proof. by split. Qed.
(** The outcome leaves what is known of the state as it was. *)
Ltac stays := solve [split; done | multimatch goal with Hs : fs_ok _ |- _ => solve [apply safe_mk; [done|apply Hs|apply Hs]] end].
Lemma safe_ok {A} (a : A) s : fs_ok s → safe (Ok a, s).
Proof. done. Qed.
Lemma safe_err {A} e s : fs_ok s → safe (@Err VError A e, s).
Proof. done. Qed.

(** An open description, and its file. *)
Lemma open_entry_cases id s : fs_ok s →
  open_entry id s = (Err InvalidDescriptor, s) ∨
  ∃ e n, open_entry id s = (Ok e, s) ∧ files s !! id = Some e ∧ ooccupied e = true ∧ 0 < refcount e ∧
    nodes (registry s) !! onode e = Some n ∧ occupied n = true ∧ kind n = File ∧ node_ok n ∧
    generations (registry s) !! onode e = Some (ogeneration e).
Proof.
  intros Hs. unfold open_entry, get_mut. destruct (files s !! id) as [e|] eqn:Hid; [|by left].
  cbn [mbind option_bind]. destruct (_ && _) eqn:Hc; [right|by left]. open_guards.
  destruct (vo_entries _ _ Hs id e Hid) as (Hr & n & Hi & Ho & Hk & Hg); [done|].
  exists e, n. split_and!; try done. eapply node_ok_at; [apply Hs|done].
Qed.

Lemma bind_reg_node {A} i n (f : Node → M (Fs F K) VError A) s :
  nodes (registry s) !! i = Some n → (reg_node i ≫= f) s = f n s.
Proof. intros Hi. unfold mbind, M_bind, reg_node. by rewrite Hi. Qed.

Lemma bind_reg_generation {A} i g (f : Z → M (Fs F K) VError A) s :
  generations (registry s) !! i = Some g → (reg_generation i ≫= f) s = f g s.
Proof. intros Hi. unfold mbind, M_bind, reg_generation. by rewrite Hi. Qed.

(** Running a step whose outcome is known. *)
Lemma bind_ok {A B} (m : M (Fs F K) VError A) (f : A → M (Fs F K) VError B) s a s' :
  m s = (Ok a, s') → (m ≫= f) s = f a s'.
Proof. intros E. unfold mbind, M_bind. by rewrite E. Qed.

(** Binding a safe step. *)
Lemma safe_bind {A B} (m : M (Fs F K) VError A) (f : A → M (Fs F K) VError B) s :
  safe (m s) → (∀ a s', m s = (Ok a, s') → fs_ok s' → safe (f a s')) → safe ((m ≫= f) s).
Proof.
  unfold mbind, M_bind. destruct (m s) as [[a|e|] s']; intros [Hp Hok] Hf; [|by split..]. by apply Hf.
Qed.

Lemma safe_bind_lift {A B} (r : res VError A) (f : A → M (Fs F K) VError B) s :
  fs_ok s → r ≠ Panic → (∀ a, r = Ok a → safe (f a s)) → safe ((lift r ≫= f) s).
Proof. intros Hs Hr Hf. rewrite bind_lift. destruct r; [by apply Hf|by split|done]. Qed.

Lemma safe_bind_require {B} (b : bool) e (f : unit → M (Fs F K) VError B) s :
  fs_ok s → (b = true → safe (f tt s)) → safe ((require b e ≫= f) s).
Proof. intros Hs Hf. unfold require. rewrite bind_guard. destruct b; [by apply Hf|by split]. Qed.

Lemma validate_no_panic p : validate_absolute_path p ≠ Panic.
Proof. by destruct (validate_cases p) as [->| ->]. Qed.

(** Loading a disk-backed node keeps its identity. *)
Lemma materialize_spec i n s : fs_ok s → nodes (registry s) !! i = Some n → occupied n = true →
  ∃ r n' k, materialize_disk_node i s = (r, mkFs (set_node i n' (registry s)) (files s) (frames s) k) ∧
    r ≠ Panic ∧ same_ident n n' ∧ node_ok n' ∧ nlength n' = nlength n ∧ writable n' = writable n ∧
    disk_good k ∧ (∀ q, disk_content k q = disk_content (storage s) q) ∧
    (r = Ok tt → backing n' = None ∧
       match backing n with
       | None => n' = n
       | Some b => ∃ l, disk_content (storage s) (as_str b) = Some l ∧ (nlength n ≤ length l)%nat ∧
                        take (nlength n) (data n') = take (nlength n) l
       end).
Proof.
  intros Hs Hi Ho. pose proof (node_ok_at _ _ _ (vo_tree _ _ Hs) Hi) as Hok. pose proof Hok as [H1' H2' H3' H4' H5' H6' H7'].
  unfold materialize_disk_node. rewrite Hi. destruct (backing n) as [b|] eqn:Hb.
  2: { exists (Ok tt), n, (storage s). split_and!; try done; [|apply Hs]. destruct s as [[vs gs ns] t f k]. unfold set_node; cbn in *.
       by rewrite list_insert_id. }
  rewrite (proj2 (Nat.ltb_ge _ _)) by lia.
  destruct (read_disk_file _ _ _ _) as [[r buf] k] eqn:Hrd.
  destruct (disk_read_law _ _ _ _ _ _ _ (fs_disk _ Hs) Hrd) as (Hp & Hl & Hg & Hc & Hread). rewrite length_take, Nat.min_l in Hl by lia.
  set (m bk := mkNode (path n) (path_length n) (splice (data n) 0 buf) bk (nlength n) (writable n) (kind n) (occupied n)).
  assert (Hm : ∀ bk, (bk = Some b ∨ bk = None) → node_ok (m bk)).
  { intros bk Hbk. split; cbn; try done; [by rewrite length_splice by lia| |congruence].
    intros b' ->. destruct Hbk as [[= ->]|?]; [by apply H5'|done]. }
  destruct r as [c|e|]; [|exists (Err Io), (m (Some b)), k; split_and!; auto; done|done].
  destruct (Hread c eq_refl) as (Hcl & l & Hcont & Hlen & Htake).
  destruct (Nat.eqb c (nlength n)) eqn:E; [|exists (Err Io), (m (Some b)), k; split_and!; auto; done].
  apply Nat.eqb_eq in E as ->. exists (Ok tt), (m None), k. split_and!; auto; try done. intros _. split; [done|].
  exists l. split_and!; [done|lia|]. cbn. rewrite <-Hl, take_splice by lia.
  rewrite <-Hl, take_ge in Htake by lia. unfold slice in Htake. by rewrite drop_0 in Htake.
Qed.

Lemma safe_on_registry {A} (m : M Registry VError A) s : disk_good (storage s) →
  (fst (m (registry s)) ≠ Panic ∧ vfs_ok (snd (m (registry s))) (files s)) → safe (on_registry m s).
Proof. unfold safe, on_registry. destruct (m (registry s)) as [r reg]. intros Hd [Hp Hok]. by split. Qed.

Lemma creates_safe p sz Q r t o : vfs_ok r t → creates p sz Q r o → fst o ≠ Panic ∧ vfs_ok (snd o) t.
Proof.
  intros Hs Hc. destruct o as [[i|e|] r']; cbn in *; [|by destruct Hc as [-> _]|done].
  destruct Hc as (n & Hc & _). split; [done|]. by eapply vfs_ok_created.
Qed.

Lemma insert_safe p d w s : fs_ok s → utf8_valid p = true → safe (on_registry (insert p d w) s).
Proof.
  intros Hs Hu. apply safe_on_registry; [apply Hs|]. eapply creates_safe; [exact Hs|]. apply insert_creates; [apply Hs|done].
Qed.

Lemma create_read_only_safe p d s : fs_ok s → utf8_valid p = true → safe (create_read_only p d s).
Proof. intros Hs Hu. apply safe_bind; [by apply insert_safe|]. intros _ s' _ Hs'. by apply safe_ok. Qed.

Lemma mkdir_safe p s : fs_ok s → utf8_valid p = true → safe (on_registry (mkdir p) s).
Proof.
  intros Hs Hu. apply safe_on_registry; [apply Hs|]. eapply creates_safe; [exact Hs|]. apply mkdir_creates; [apply Hs|done].
Qed.

(** Replacing a node by one of the same identity. *)
Lemma put_node_safe {B} i n m (f : unit → M (Fs F K) VError B) s :
  fs_ok s → nodes (registry s) !! i = Some n → same_ident n m → node_ok m →
  (fs_ok (mkFs (set_node i m (registry s)) (files s) (frames s) (storage s)) →
   safe (f tt (mkFs (set_node i m (registry s)) (files s) (frames s) (storage s)))) →
  safe ((put_node i m ≫= f) s).
Proof.
  intros Hs Hi Hsi Hm Hf. change ((put_node i m ≫= f) s) with
    (f tt (mkFs (set_node i m (registry s)) (files s) (frames s) (storage s))).
  apply Hf, fs_ok_mk; [eapply (vfs_ok_node (registry s)); [apply Hs|done..]|apply Hs].
Qed.

Lemma put_node_safe_last i n m s :
  fs_ok s → nodes (registry s) !! i = Some n → same_ident n m → node_ok m → safe (put_node i m s).
Proof. intros Hs Hi Hsi Hm. split; [done|]. apply fs_ok_mk; [eapply (vfs_ok_node (registry s)); [apply Hs|done..]|apply Hs]. Qed.

Lemma bump_version_run i s : fs_ok s → is_Some (nodes (registry s) !! i) → ∃ v,
  on_registry (bump_version i) s = (Ok tt, mkFs (mkRegistry (<[i := v]> (versions (registry s)))
    (generations (registry s)) (nodes (registry s))) (files s) (frames s) (storage s)).
Proof.
  intros Hs Hi%lookup_lt_is_Some. destruct (tree_len _ (vo_tree _ _ Hs)) as (L1 & L2 & L3).
  rewrite L1, <-L3 in Hi. apply lookup_lt_is_Some in Hi as [v Hv].
  exists (wrapping_add 64 v 1). unfold on_registry, bump_version. by rewrite Hv.
Qed.

Lemma bump_version_safe {B} i (f : unit → M (Fs F K) VError B) s :
  fs_ok s → is_Some (nodes (registry s) !! i) →
  (∀ vs, let s' := mkFs (mkRegistry vs (generations (registry s)) (nodes (registry s))) (files s) (frames s) (storage s) in
    fs_ok s' → safe (f tt s')) →
  safe ((on_registry (bump_version i) ≫= f) s).
Proof.
  intros Hs Hi Hf. destruct (bump_version_run i s Hs Hi) as [v E]. rewrite (bind_ok _ _ _ _ _ E). apply Hf.
  apply fs_ok_mk; [|apply Hs]. apply vfs_ok_versions; [apply Hs|]. rewrite length_insert. apply (tree_len _ (vo_tree _ _ Hs)).
Qed.

Lemma generation_of i s : fs_ok s → is_Some (nodes (registry s) !! i) → is_Some (generations (registry s) !! i).
Proof.
  intros Hs. rewrite !lookup_lt_is_Some. destruct (tree_len _ (vo_tree _ _ Hs)) as (L1 & L2 & _). lia.
Qed.

Lemma write_file_safe p d s : fs_ok s → utf8_valid p = true → safe (write_file p d s).
Proof.
  intros Hs Hu. apply safe_bind_lift; [done|apply validate_no_panic|]. intros [] Hv.
  apply safe_bind_require; [done|]. intros Hd. open_guards. rewrite bind_gets.
  destruct (find_node p (registry s)) as [i|] eqn:Hf.
  2: { apply safe_bind; [by apply insert_safe|]. intros. by apply safe_ok. }
  apply position_Some_1 in Hf as (n & Hi & Hmt). rewrite (bind_reg_node _ _ _ _ Hi).
  apply safe_bind_require; [done|]. intros Hk. apply safe_bind_require; [done|]. intros Hw. open_guards.
  pose proof (node_ok_at _ _ _ (vo_tree _ _ Hs) Hi) as [H1' H2' H3' H4' H5' H6' H7'].
  eapply put_node_safe; [done|exact Hi|done| |].
  { split; cbn; try done. rewrite length_splice, length_replicate; [done|]. rewrite length_replicate. lia. }
  intros Hs1. assert (Hi1 : is_Some (<[i:=mkNode (path n) (path_length n) (splice (replicate (length (data n)) x00) 0 d)
    None (length d) (writable n) (kind n) (occupied n)]> (nodes (registry s)) !! i)).
  { rewrite list_lookup_insert_eq; [eauto|]. by eapply lookup_lt_Some. }
  apply bump_version_safe; [done|exact Hi1|]. intros vs s' Hs'.
  destruct (generation_of i s' Hs' Hi1) as [g Hg]. rewrite (bind_reg_generation _ _ _ _ Hg).
  apply safe_mk; [done|apply Hs'..].
Qed.

Lemma create_disk_file_safe p len w s : fs_ok s → utf8_valid p = true →
  safe (create_disk_file_with_writable p len w s).
Proof.
  intros Hs Hu. apply safe_bind_require; [done|]. intros Hl. open_guards.
  pose proof (insert_creates p [] w (registry s) (vo_tree _ _ Hs) Hu) as Hc.
  unfold on_registry at 1. unfold mbind at 1, M_bind at 1. cbv beta zeta.
  destruct (insert p [] w (registry s)) as [[i|e|] r'] eqn:E; [|by destruct Hc as [-> _]; apply safe_mk; [done|apply Hs..]|done].
  destruct Hc as (n & Hc & _). pose proof (fs_ok_mk _ _ (frames s) _ (vfs_ok_created _ _ _ _ _ _ Hs Hc) (fs_disk _ Hs)) as Hok.
  destruct Hc as [-> (old & Hi & _) Hn (cs & c & -> & Hnm & _)].
  assert (Hi' : nodes (set_node i n (registry s)) !! i = Some n).
  { unfold set_node; cbn. apply list_lookup_insert_eq. by eapply lookup_lt_Some. }
  rewrite (bind_reg_node i n) by done. pose proof Hn as [H1' H2' H3' H4' H5' H6' H7'].
  eapply (put_node_safe_last i n); [done|done|done|].
  assert (Hlen : (length (render (cs ++ [c])) ≤ MAX_PATH_SIZE)%nat).
  { by rewrite <-(names_path_length n (cs ++ [c]) Hnm Hn). }
  split; cbn; try done.
  - intros b [= <-]. split_and!; cbn; [|done|].
    + rewrite length_splice; rewrite length_replicate; [done|lia].
    + exists (cs ++ [c]). split_and!; [apply Hnm| |done]. apply take_splice. by rewrite length_replicate.
  - intros Ho. by rewrite (proj1 Hnm) in Ho.
Qed.

Lemma rename_safe old new s : fs_ok s → utf8_valid old = true → utf8_valid new = true →
  safe (on_registry (rename old new) s).
Proof.
  intros Hs Hu1 Hu2. apply safe_on_registry; [apply Hs|].
  pose proof (rename_spec old new (registry s) (vo_tree _ _ Hs) Hu1 Hu2) as Hr.
  destruct (rename old new (registry s)) as [[[]|e|] r']; cbn; [|rewrite Hr; split; [done|apply Hs]|done].
  split; [done|]. destruct Hr as [[_ ->]|[_ Hr]]; [apply Hs|]. eapply vfs_ok_renamed; [apply Hs|done..].
Qed.

(** The node a path names. *)
Lemma find_cases p s : fs_ok s → validate_absolute_path p = Ok tt →
  find_node p (registry s) = None ∨
  ∃ cs i n, p = render cs ∧ find_node p (registry s) = Some i ∧ named_at (registry s) i n cs ∧ node_ok n.
Proof.
  intros Hs (cs & -> & Hg & _)%validate_ok. destruct (find_node _ _) as [i|] eqn:Hf; [right|by left].
  pose proof Hf as Hf0. apply find_node_Some in Hf as (n & Hn); [|apply Hs|done].
  exists cs, i, n. split_and!; [done..|]. eapply node_ok_at; [apply Hs|apply Hn].
Qed.

Lemma materialize_safe i n s : fs_ok s → nodes (registry s) !! i = Some n → occupied n = true →
  safe (materialize_disk_node i s).
Proof.
  intros Hs Hi Ho. destruct (materialize_spec i n s Hs Hi Ho) as (r & n' & k & -> & Hr & Hsi & Hok & _ & _ & Hgd & _).
  split; [done|]. apply fs_ok_mk; [eapply (vfs_ok_node (registry s)); [apply Hs|done..]|done].
Qed.

Lemma removable_no_panic p r : tree_ok r → removable_index p r ≠ Panic.
Proof. intros Ht. pose proof (removable_spec p r Ht). by destruct (removable_index p r). Qed.

Lemma can_remove_no_panic p r : tree_ok r → can_remove p r ≠ Panic.
Proof. intros Ht. pose proof (removable_no_panic p r Ht). unfold can_remove. by destruct (removable_index p r). Qed.

(** The start of [prepare_remove] and [unlink]. *)
Lemma safe_find {B} p (f : nat → M (Fs F K) VError B) s : fs_ok s →
  (∀ cs i n, p = render cs → find_node p (registry s) = Some i → named_at (registry s) i n cs → node_ok n → safe (f i s)) →
  safe ((_ ← lift (validate_absolute_path p); i ← asks (λ s, ok_or NotFound (find_node p (registry s))); f i) s).
Proof.
  intros Hs Hf. apply safe_bind_lift; [done|apply validate_no_panic|]. intros [] Hv.
  unfold asks, mbind, M_bind. destruct (find_cases p s Hs Hv) as [-> |(cs & i & n & Hp & Hfi & Hn & Hok)]; [by split|].
  rewrite Hfi. cbn [ok_or]. by eapply Hf.
Qed.

Lemma prepare_remove_safe p s : fs_ok s → safe (prepare_remove p s).
Proof.
  intros Hs. apply safe_find; [done|]. intros cs i n -> Hf [Hi Hn] Hok. apply safe_bind.
  - split; [apply can_remove_no_panic, Hs|done].
  - intros [] s' [= _ <-] _. rewrite (bind_reg_node _ _ _ _ Hi). unfold is_open_file. rewrite bind_gets.
    destruct (_ && _); [|by split]. eapply materialize_safe; [done|exact Hi|apply Hn].
Qed.

Lemma remove_safe p s i n : fs_ok s → find_node p (registry s) = Some i → nodes (registry s) !! i = Some n →
  kind n ≠ File ∨ is_open i (files s) = false → safe (on_registry (remove p) s).
Proof.
  intros Hs Hf Hi Hc. apply safe_on_registry; [apply Hs|]. pose proof (remove_spec p (registry s) (vo_tree _ _ Hs)) as Hr.
  destruct (remove p (registry s)) as [[[]|e|] r']; cbn; [|destruct Hr as [-> _]; split; [done|apply Hs]|done].
  split; [done|]. eapply vfs_ok_removed; [apply Hs|done..].
Qed.

Lemma unlink_safe p s : fs_ok s → safe (unlink p s).
Proof.
  intros Hs. apply safe_find; [done|]. intros cs i n -> Hf [Hi Hn] Hok. rewrite (bind_reg_node _ _ _ _ Hi).
  unfold is_open_file. rewrite bind_gets. destruct (_ && _) eqn:Hop.
  2: { eapply remove_safe; [done|done|exact Hi|]. apply andb_false_iff in Hop as [Hk|Hop]; [left|by right].
       by apply bool_decide_eq_false_1 in Hk. }
  open_guards.
  destruct (materialize_spec i n s Hs Hi (proj1 Hn)) as (r & n' & k & E & Hr & Hsi & Hok' & Hl & Hw & Hgd & _).
  pose proof (lookup_lt_Some _ _ _ Hi) as Hlt. rewrite (bind_run _ _ _ _ _ E).
  assert (Hs' : fs_ok (mkFs (set_node i n' (registry s)) (files s) (frames s) k)) by (apply fs_ok_mk; [eapply (vfs_ok_node (registry s)); [apply Hs|done..]|done]).
  destruct r as [[]|e|]; [|by split|done].
  assert (Hi' : nodes (set_node i n' (registry s)) !! i = Some n') by by apply list_lookup_insert_eq.
  rewrite (bind_reg_node i n') by done. split; [done|]. unfold put_node, on_registry, modify; cbn [snd registry files].
  destruct Hsi as (Hs1 & Hs2 & Hs3 & Hs4). destruct Hok' as [H1' H2' H3' H4' H5' H6' H7'].
  apply fs_ok_mk; [|done]. eapply (vfs_ok_unname _ _ i n' _ cs); [apply Hs'| |congruence|done| |cbn; congruence|cbn; rewrite Hs4; apply Hn|done].
  - split; [done|]. apply (same_ident_names n n'); [by split_and!|done].
  - split; cbn; try done; [by rewrite length_replicate|lia|]. intros _. left. split; [done|congruence].
Qed.

Lemma open_safe p s : fs_ok s → safe (open p s).
Proof.
  intros Hs. apply safe_bind_lift; [done|apply validate_no_panic|]. intros [] Hv.
  unfold asks. unfold mbind at 1, M_bind at 1. destruct (position _ _) as [i|] eqn:Hf; [|by split]. cbn [ok_or].
  apply position_Some_1 in Hf as (n & Hi & Hc). open_guards. unfold matches in *. open_guards.
  destruct (generation_of i s Hs) as [g Hg]; [by eexists|]. rewrite (bind_reg_generation _ _ _ _ Hg).
  unfold on_files, alloc. destruct (position _ (files s)) as [slot|] eqn:Hp; [|stays].
  apply position_Some_1 in Hp as (e & He & Ho). open_guards. split; [done|].
  apply fs_ok_mk; [|apply Hs]. eapply (vfs_ok_alloc (registry s) (files s)); [apply Hs|exact He|done| |done].
  exists n. cbn. split_and!; try done.
Qed.

Lemma clone_safe id s : fs_ok s → safe (clone_open_file id s).
Proof.
  intros Hs. destruct (open_entry_cases id s Hs) as [E|(e & n & E & Hid & Ho & Hr & _)];
    unfold open_entry in E; unfold clone_open_file, on_files, clone_id; injection E as E; rewrite E; [stays|].
  destruct (checked_add 32 (refcount e) 1) as [c|] eqn:Hc; [|stays]. apply checked_add_Some in Hc as [-> _].
  split; [done|]. apply fs_ok_mk; [|apply Hs]. eapply (vfs_ok_entry (registry s)); [apply Hs|exact Hid|done..|]. cbn. lia.
Qed.

(** A description's offset moves. *)
Lemma set_entry_safe {B} id e g (f : unit → M (Fs F K) VError B) s : fs_ok s → open_entry id s = (Ok e, s) →
  (∀ s', fs_ok s' → registry s' = registry s → frames s' = frames s → storage s' = storage s →
     files s' = <[id := set_offset g e]> (files s) → safe (f tt s')) →
  safe ((set_entry id (set_offset g) ≫= f) s).
Proof.
  intros Hs E Hf. destruct (open_entry_cases id s Hs) as [E'|(e' & n & E' & Hid & Ho & Hr & _)]; [congruence|].
  assert (e' = e) as -> by congruence. unfold set_entry.
  change (safe (((open_entry id ≫= λ e, on_files (modify (λ t, <[id:=set_offset g e]> t))) ≫= f) s)).
  rewrite (bind_ok _ f s tt (mkFs (registry s) (<[id := set_offset g e]> (files s)) (frames s) (storage s))).
  - apply Hf; try done. apply fs_ok_mk; [eapply (vfs_ok_entry (registry s)); [apply Hs|done..]|apply Hs].
  - by rewrite (bind_ok _ _ _ _ _ E).
Qed.

(** Dropping a reference. *)
Lemma drop_cases id e t : t !! id = Some e → ooccupied e = true → 0 < refcount e →
  drop_id id t = (Ok tt, <[id := if refcount e - 1 =? 0 then open_empty else set_refcount (refcount e - 1) e]> t).
Proof.
  intros Hid Ho Hr. unfold drop_id. rewrite Hid, Ho. cbn [negb]. rewrite (proj2 (Z.eqb_neq _ _)) by lia. done.
Qed.

Lemma is_open_insert_same i id e t : t !! id = Some e → onode e = i → ooccupied e = true →
  ∀ e', onode e' = i → ooccupied e' = true → is_open i (<[id := e']> t) = true.
Proof.
  intros Hid _ _ e' Hn Ho. apply is_open_true. exists id, e'. split; [|done].
  apply list_lookup_insert_eq. by eapply lookup_lt_Some.
Qed.

Lemma close_safe id s : fs_ok s → safe (close_open_file id s).
Proof.
  intros Hs. unfold close_open_file.
  destruct (open_entry_cases id s Hs) as [E|(e & n & E & Hid & Ho & Hr & Hi & Hno & Hk & Hok & Hg)];
    rewrite (bind_run _ _ _ _ _ E); [by split|].
  unfold on_files at 1. unfold mbind at 1, M_bind at 1. rewrite (drop_cases id e) by done.
  destruct (refcount e - 1 =? 0) eqn:Hz; rewrite bind_gets; cbn [files]; open_guards.
  2: { rewrite (is_open_insert_same _ id e) by done. split; [done|].
       apply fs_ok_mk; [|apply Hs]. eapply (vfs_ok_entry (registry s)); [apply Hs|exact Hid|done..|]. cbn. lia. }
  destruct (is_open (onode e) (<[id:=open_empty]> (files s))) eqn:Hop.
  { split; [done|]. apply fs_ok_mk; [|apply Hs]. eapply vfs_ok_closed; [apply Hs|done|done|exact Hi|by left]. }
  unfold release_unnamed. rewrite (bind_reg_node _ n) by done. rewrite Hno. cbn [andb].
  destruct (Nat.eqb (path_length n) 0) eqn:Hl; open_guards.
  2: { split; [done|]. apply fs_ok_mk; [|apply Hs]. eapply vfs_ok_closed; [apply Hs|done|done|exact Hi|by right; left]. }
  unfold on_registry at 1. unfold mbind at 1, M_bind at 1. cbn [registry].
  destruct (bump_generation_spec (onode e) (registry s)) as [(g & Hg' & Hge & Hb)|(g & Hg' & Hlt & Hb)];
    [by apply tree_gen_len, Hs|done| |]; rewrite Hb.
  { split; [done|]. apply fs_ok_mk; [|apply Hs]. eapply vfs_ok_closed; [apply Hs|done|done|exact Hi|right; right; eauto]. }
  destruct Hok as [H1' H2' H3' H4' H5' H6' H7'].
  split; [done|]. apply fs_ok_mk; [|apply Hs]. eapply (vfs_ok_released (registry s)); try done; try apply Hs. split; cbn; try done; [by rewrite length_replicate|lia].
Qed.

Lemma identity_safe id s : fs_ok s → safe (file_identity id s).
Proof.
  intros Hs. unfold file_identity.
  destruct (open_entry_cases id s Hs) as [E|(e & n & E & Hid & Ho & Hr & Hi & Hno & Hk & Hok & Hg)];
    rewrite (bind_run _ _ _ _ _ E); [by split|].
  rewrite (bind_reg_node _ _ _ _ Hi), (bind_reg_generation _ _ _ _ Hg).
  apply safe_bind_require; [done|]. intros _. pose proof (lookup_lt_Some _ _ _ Hi) as Hlt.
  destruct (tree_len _ (vo_tree _ _ Hs)) as (L1 & L2 & L3). rewrite L1, <-L3 in Hlt.
  apply lookup_lt_is_Some in Hlt as [v Hv]. unfold asks, mbind, M_bind. rewrite Hv. by split.
Qed.

Lemma generation_safe id s : fs_ok s → safe (file_generation id s).
Proof.
  intros Hs. unfold file_generation.
  destruct (open_entry_cases id s Hs) as [E|(e & n & E & Hid & Ho & Hr & Hi & Hno & Hk & Hok & Hg)];
    rewrite (bind_run _ _ _ _ _ E); [by split|].
  rewrite (bind_reg_node _ _ _ _ Hi), (bind_reg_generation _ _ _ _ Hg).
  apply safe_bind_require; [done|]. intros _. by split.
Qed.

Lemma prepare_shared_safe id s : fs_ok s → safe (prepare_shared_file id s).
Proof.
  intros Hs. unfold prepare_shared_file.
  destruct (open_entry_cases id s Hs) as [E|(e & n & E & Hid & Ho & Hr & Hi & Hno & Hk & Hok & Hg)];
    rewrite (bind_run _ _ _ _ _ E); [by split|].
  rewrite (bind_reg_node _ _ _ _ Hi). apply safe_bind_require; [done|]. intros _.
  destruct (writable n); [by split|]. apply safe_bind_require; [done|]. intros _.
  destruct (materialize_spec (onode e) n s Hs Hi Hno) as (r & n' & k & Em & Hrp & Hsi & Hok' & Hl & Hw & Hgd & _).
  pose proof (lookup_lt_Some _ _ _ Hi) as Hlt. rewrite (bind_run _ _ _ _ _ Em).
  assert (Hs' : fs_ok (mkFs (set_node (onode e) n' (registry s)) (files s) (frames s) k)) by (apply fs_ok_mk; [eapply (vfs_ok_node (registry s)); [apply Hs|done..]|done]).
  destruct r as [[]|x|]; [|by split|done].
  assert (Hi' : nodes (set_node (onode e) n' (registry s)) !! onode e = Some n') by by apply list_lookup_insert_eq.
  rewrite (bind_reg_node (onode e) n') by done.
  eapply (put_node_safe_last _ n'); [done|done|by split_and!|].
  destruct Hok' as [H1' H2' H3' H4' H5' H6' H7']. by split.
Qed.

Lemma require_range_ok a b : (a ≤ b)%nat → require_range a b = Ok tt.
Proof. intros Hle. unfold require_range. by rewrite (proj2 (Nat.leb_le _ _)). Qed.

(** New contents of the same or a larger length. *)
Lemma node_ok_contents n d len : node_ok n → length d = NODE_CAPACITY → (len ≤ NODE_CAPACITY)%nat →
  node_ok (mkNode (path n) (path_length n) d (backing n) len (writable n) (kind n) (occupied n)).
Proof. intros [H1' H2' H3' H4' H5' H6' H7'] Hd Hl. by split. Qed.

Lemma write_mapping_safe id off bs s : fs_ok s → safe (write_mapping_at id off bs s).
Proof.
  intros Hs. unfold write_mapping_at.
  destruct (open_entry_cases id s Hs) as [E|(e & n & E & Hid & Ho & Hr & Hi & Hno & Hk & Hok & Hg)];
    rewrite (bind_run _ _ _ _ _ E); [by split|].
  rewrite (bind_reg_node _ _ _ _ Hi). apply safe_bind_require; [done|]. intros _.
  apply safe_bind_require; [done|]. intros Hle. open_guards.
  pose proof (node_data n Hok) as Hd. pose proof (node_length n Hok) as Hnl.
  rewrite bind_lift, require_range_ok by lia. eapply put_node_safe; [done|exact Hi|done| |].
  { apply node_ok_contents; [done| |done]. by rewrite length_splice by lia. }
  intros Hs1. apply bump_version_safe; [done| |].
  { cbn. rewrite list_lookup_insert_eq; [eauto|by eapply lookup_lt_Some]. }
  intros vs s' Hs'. stays.
Qed.

Lemma seek_safe id off s : fs_ok s → safe (seek id off s).
Proof.
  intros Hs. unfold seek.
  destruct (open_entry_cases id s Hs) as [E|(e & n & E & Hid & Ho & Hr & Hi & Hno & Hk & Hok & Hg)];
    rewrite (bind_run _ _ _ _ _ E); [by split|].
  unfold live_node. unfold mbind at 1, M_bind at 1. rewrite Hi. cbn [mbind option_bind]. rewrite Hno. cbn [ok_or].
  eapply set_entry_safe; [done|exact E|]. intros s' Hs' _ _ _ _. by split.
Qed.

(** ** Contents *)

(** The bytes of a file as stored: in memory, or on the volume. *)
Definition stored (n : Node) (k : K) : option (list byte) :=
  take (nlength n) <$> match backing n with Some b => disk_content k (as_str b) | None => Some (data n) end.

Lemma fetch_spec n off cnt buf s : disk_good (storage s) → node_ok n → (off + cnt ≤ nlength n)%nat → (cnt ≤ length buf)%nat →
  ∃ r k, fetch n off cnt buf s = (r, mkFs (registry s) (files s) (frames s) k) ∧ r ≠ Panic ∧
    disk_good k ∧ (∀ q, disk_content k q = disk_content (storage s) q) ∧
    (∀ b, r = Ok b → ∃ l, stored n (storage s) = Some l ∧ (cnt = 0 ∨ off + cnt ≤ length l)%nat ∧
       b = slice l off cnt ++ drop cnt buf) ∧
    (backing n = None → is_ok r = true).
Proof.
  intros Hgd Hok Hle Hb. pose proof (node_data n Hok) as Hd. pose proof (node_length n Hok) as Hl.
  assert (Hsl : ∀ l : list byte, slice (take (nlength n) l) off cnt = slice l off cnt).
  { intros l. unfold slice. by rewrite !take_drop_commute, take_take, Nat.min_l by lia. }
  unfold fetch, stored. destruct (backing n) as [p|].
  - unfold disk_read. destruct (read_disk_file (as_str p) off (take cnt buf) (storage s)) as [[r chunk] k] eqn:Hrd.
    destruct (disk_read_law _ _ _ _ _ _ _ Hgd Hrd) as (Hp & Hlen & Hgd' & Hc & Hread).
    rewrite length_take, Nat.min_l in Hlen by lia.
    unfold mbind, M_bind at 1. cbv beta zeta. rewrite Hrd. destruct r as [c|e|]; [|exists (Err Io), k|]; [|by split_and!|done].
    unfold require, guard_ok. destruct (Nat.eqb c cnt) eqn:E; [|by exists (Err Io), k]. apply Nat.eqb_eq in E as ->.
    eexists _, k. split; [reflexivity|]. split_and!; try done. intros b [= <-].
    destruct (Hread cnt eq_refl) as (_ & l & Hcont & Hll & Htk). rewrite Hcont.
    exists (take (nlength n) l). split_and!; [done|rewrite length_take; lia|]. rewrite Hsl, <-Htk, take_ge by lia.
    unfold splice. by rewrite Hlen.
  - rewrite bind_lift, require_range_ok by lia. destruct s as [r t f k]. eexists _, k. split; [reflexivity|].
    split_and!; try done. intros b [= <-]. exists (take (nlength n) (data n)).
    split_and!; [done|rewrite length_take; lia|]. rewrite Hsl. unfold splice. rewrite length_slice by lia. done.
Qed.

(** What a read at [off] of the open description [e] delivers. *)
Definition delivers (e : OpenFileDescription) (n : Node) (off : nat) (buf : list byte) s (c : nat) (b : list byte) : Prop :=
  (off ≤ nlength n)%nat ∧ c = Nat.min (nlength n - off) (length buf) ∧
  ∃ l, stored n (storage s) = Some l ∧ (c = 0 ∨ off + c ≤ length l)%nat ∧
    b = fr_overlay (onode e) (ogeneration e) off (slice l off c) (frames s) ++ drop c buf.

Lemma splice_prefix (d t d' : list byte) : length d' = length d → splice (d ++ t) 0 d' = d' ++ t.
Proof. intros Hl. unfold splice. cbn [take app plus]. by rewrite Hl, drop_app_length. Qed.

Lemma read_from_spec id pos buf gen s : fs_ok s →
  ∃ r s', read_from id pos buf gen s = (r, s') ∧ r ≠ Panic ∧ fs_ok s' ∧ registry s' = registry s ∧
    frames s' = frames s ∧ (∀ q, disk_content (storage s') q = disk_content (storage s) q) ∧
    (∀ e n, files s !! id = Some e → ooccupied e = true → nodes (registry s) !! onode e = Some n →
       let off := default (offset e) pos in
       (∀ c b, r = Ok (c, b) → delivers e n off buf s c b ∧
          files s' = match pos with None => <[id := set_offset (off + c)%nat e]> (files s) | Some _ => files s end) ∧
       (gen = None → backing n = None → (off ≤ nlength n)%nat → is_ok r = true)).
Proof.
  intros Hs. unfold read_from.
  destruct (open_entry_cases id s Hs) as [E|(e & n & E & Hid & Ho & Hr & Hi & Hno & Hk & Hok & Hg)];
    rewrite (bind_run _ _ _ _ _ E).
  { eexists _, s. split; [reflexivity|]. split_and!; try done. intros e n Hid Ho. exfalso.
    unfold open_entry, get_mut in E. rewrite Hid in E. cbn [mbind option_bind] in E.
    destruct (vo_entries _ _ Hs id e Hid Ho) as [Hr _]. rewrite Ho, (proj2 (Z.ltb_lt _ _)) in E by done. done. }
  rewrite (bind_reg_generation _ _ _ _ Hg). unfold require. rewrite bind_guard.
  destruct (match gen with Some v => _ | None => _ end) eqn:Hgen.
  2: { eexists _, s. split; [reflexivity|]. split_and!; try done. intros e' n' _ _ _. split; [done|].
       intros ->. done. }
  unfold live_node. unfold mbind at 1, M_bind at 1. rewrite Hi. cbn [mbind option_bind]. rewrite Hno. cbn [ok_or].
  set (off := default (offset e) pos). rewrite bind_guard.
  destruct (Nat.leb off (nlength n)) eqn:Hoff; open_guards.
  2: { eexists _, s. split; [reflexivity|]. split_and!; try done. intros e' n' Hid' _ Hi'.
       assert (e' = e) as -> by congruence. assert (n' = n) as -> by congruence. fold off. split; [done|lia]. }
  set (cnt := Nat.min (nlength n - off) (length buf)).
  destruct (fetch_spec n off cnt buf s (fs_disk _ Hs) Hok) as (r & k & Ef & Hrp & Hgd & Hc & Hb & Hmem); [lia|lia|].
  rewrite (bind_run _ _ _ _ _ Ef). destruct r as [b|x|]; [|eexists _, _; split; [reflexivity|]|done].
  2: { split_and!; try done; [by apply fs_ok_mk; [apply Hs|]|]. intros e' n' Hid' _ Hi'. assert (n' = n) as -> by congruence. split; [done|].
       intros _ Hbk _. by specialize (Hmem Hbk). }
  destruct (Hb b eq_refl) as (l & Hst & Hl & ->). rewrite bind_gets. cbn [frames].
  assert (Hsl : length (slice l off cnt) = cnt) by (unfold slice; rewrite length_take, length_drop; lia).
  rewrite (take_app_length' (slice l off cnt)) by done.
  rewrite splice_prefix by (by rewrite fr_overlay_length).
  set (s1 := mkFs (registry s) (files s) (frames s) k). assert (Hs1 : fs_ok s1) by (by apply fs_ok_mk; [apply Hs|]).
  set (out := fr_overlay _ _ _ _ _ ++ _).
  assert (Hdel : delivers e n off buf s cnt out) by (split_and!; [done|done|by exists l]).
  assert (E1 : open_entry id s1 = (Ok e, s1)) by (unfold open_entry in *; injection E as E; by rewrite <-E).
  destruct pos as [p|]; cbn [default from_option] in *.
  - rewrite (bind_ok _ _ s1 tt s1) by by rewrite (bind_ok _ _ _ _ _ E1).
    eexists _, s1. split; [reflexivity|]. split_and!; try done. intros e' n' Hid' _ Hi'.
    assert (e' = e) as -> by congruence. assert (n' = n) as -> by congruence. split; [|done].
    by intros c b [= <- <-].
  - set (s2 := mkFs (registry s) (<[id := set_offset (off + cnt) e]> (files s)) (frames s) k).
    rewrite (bind_ok _ _ s1 tt s2) by (unfold set_entry; by rewrite (bind_ok _ _ _ _ _ E1)).
    eexists _, s2. split; [reflexivity|]. split_and!; try done.
    + apply fs_ok_mk; [|done]. eapply (vfs_ok_entry (registry s)); [apply Hs|exact Hid|done..].
    + intros e' n' Hid' _ Hi'. assert (e' = e) as -> by congruence. assert (n' = n) as -> by congruence.
      split; [|done]. by intros c b [= <- <-].
Qed.

Lemma read_from_safe id pos buf gen s : fs_ok s → safe (read_from id pos buf gen s).
Proof. intros Hs. destruct (read_from_spec id pos buf gen s Hs) as (r & s' & -> & Hr & Hs' & _). by split. Qed.

Lemma attempt_safe {A B} (m : M (Fs F K) VError A) (f : res VError A → M (Fs F K) VError B) s :
  safe (m s) → (∀ r s', r ≠ Panic → fs_ok s' → safe (f r s')) → safe ((attempt m ≫= f) s).
Proof.
  unfold attempt, mbind, M_bind. destruct (m s) as [[a|e|] s']; intros [Hp Hs'] Hf; [by apply Hf..|done].
Qed.

Lemma file_size_safe id s : fs_ok s → safe (file_size id s).
Proof.
  intros Hs. unfold file_size.
  destruct (open_entry_cases id s Hs) as [E|(e & n & E & Hid & Ho & Hr & Hi & Hno & Hk & Hok & Hg)];
    rewrite (bind_run _ _ _ _ _ E); [by split|].
  unfold asks. rewrite Hi. cbn [mbind option_bind]. by destruct (_ && _); split.
Qed.

Lemma read_all_safe p buf s : fs_ok s → safe (read_all p buf s).
Proof.
  intros Hs. apply safe_bind; [by apply open_safe|]. intros id s1 _ Hs1. apply attempt_safe.
  - apply safe_bind; [by apply file_size_safe|]. intros sz s2 _ Hs2. apply safe_bind_require; [done|]. intros _.
    apply safe_bind; [by apply read_from_safe|]. intros [n chunk] s3 _ Hs3. by split.
  - intros r s2 Hr Hs2. apply attempt_safe; [by apply close_safe|]. intros r' s3 _ Hs3. by split.
Qed.

(** ** Writing *)

Lemma take_splice_grow (l d : list byte) nl off : (off ≤ nl)%nat → (nl ≤ length l)%nat →
  (off + length d ≤ length l)%nat → take (Nat.max nl (off + length d)) (splice l off d) = splice (take nl l) off d.
Proof.
  intros H1' H2' H3'. unfold splice.
  rewrite take_app_ge by (rewrite length_take; lia). rewrite length_take, take_take, !Nat.min_l by lia. f_equal.
  rewrite take_app_ge by lia. f_equal. rewrite skipn_firstn_comm. f_equal. lia.
Qed.

(** The file of [id] after [d] was written at the description's offset. *)
Definition wrote id e n (d : list byte) s s' : Prop :=
  ∃ l n', stored n (storage s) = Some l ∧ nodes (registry s') !! onode e = Some n' ∧
    (offset e ≤ length l)%nat ∧ backing n' = None ∧ same_ident n n' ∧ stored n' (storage s') = Some (splice l (offset e) d) ∧
    (∀ j, j ≠ onode e → nodes (registry s') !! j = nodes (registry s) !! j) ∧
    generations (registry s') = generations (registry s) ∧
    frames s' = fr_update (onode e) (ogeneration e) (offset e) d (frames s) ∧
    (∀ q, disk_content (storage s') q = disk_content (storage s) q) ∧
    files s' = <[id := set_offset (offset e + length d)%nat e]> (files s).

Lemma write_spec id buf s : fs_ok s →
  ∃ r s', write id buf s = (r, s') ∧ r ≠ Panic ∧ fs_ok s' ∧
    ∀ e n, files s !! id = Some e → ooccupied e = true → nodes (registry s) !! onode e = Some n →
      (∀ c, r = Ok c → c = length buf ∧ writable n = true ∧ wrote id e n buf s s').
Proof.
  intros Hs. unfold write.
  destruct (open_entry_cases id s Hs) as [E|(e & n & E & Hid & Ho & Hr & Hi & Hno & Hk & Hok & Hg)];
    rewrite (bind_run _ _ _ _ _ E).
  { by eexists _, s. }
  unfold live_node. unfold mbind at 1, M_bind at 1. rewrite Hi. cbn [mbind option_bind]. rewrite Hno. cbn [ok_or].
  unfold require. rewrite bind_guard. destruct (writable n) eqn:Hw; [|by eexists _, s].
  destruct (materialize_spec (onode e) n s Hs Hi Hno) as (r & n1 & k & Em & Hrp & Hsi & Hok1 & Hl1 & Hw1 & Hgd & Hc & Hm).
  pose proof (lookup_lt_Some _ _ _ Hi) as Hlt. rewrite (bind_run _ _ _ _ _ Em).
  set (s1 := mkFs (set_node (onode e) n1 (registry s)) (files s) (frames s) k).
  assert (Hs1 : fs_ok s1) by (apply fs_ok_mk; [eapply (vfs_ok_node (registry s)); [apply Hs|done..]|done]).
  destruct r as [[]|x|]; [|by eexists _, s1|done]. destruct (Hm eq_refl) as [Hb1 Hcont].
  assert (Hi1 : nodes (registry s1) !! onode e = Some n1) by by apply list_lookup_insert_eq.
  rewrite (bind_reg_node (onode e) n1) by done. rewrite bind_guard.
  destruct (Nat.leb (offset e) (nlength n1)) eqn:Hoff; [|by eexists _, s1]. open_guards.
  pose proof (node_data n1 Hok1) as Hd. pose proof (node_length n1 Hok1) as Hnl.
  rewrite bind_lift, require_range_ok by lia.
  set (cnt := Nat.min (length buf) (NODE_CAPACITY - offset e)). rewrite bind_lift, require_range_ok by lia.
  assert (Hcl : length (take cnt buf) = cnt) by (rewrite length_take; lia).
  set (n2 := mkNode _ _ _ _ _ _ _ _).
  assert (Hok2 : node_ok n2).
  { apply node_ok_contents; [done| |lia]. by rewrite length_splice by lia. }
  set (s2 := mkFs (set_node (onode e) n2 (registry s1)) (files s) (frames s) k).
  assert (Hs2 : fs_ok s2) by (apply fs_ok_mk; [eapply (vfs_ok_node (registry s1)); [apply Hs1|done..]|done]).
  rewrite (bind_ok _ _ s1 tt s2) by done.
  assert (Hi2 : nodes (registry s2) !! onode e = Some n2).
  { apply list_lookup_insert_eq. unfold s1, set_node; cbn. by rewrite length_insert. }
  destruct (bump_version_run (onode e) s2 Hs2) as [v Ev]; [by eexists|]. rewrite (bind_ok _ _ _ _ _ Ev).
  set (reg3 := mkRegistry _ _ _).
  assert (Hreg3 : vfs_ok reg3 (files s)).
  { apply vfs_ok_versions; [exact Hs2|]. rewrite length_insert. apply (tree_len _ (vo_tree _ _ Hs2)). }
  set (s3 := mkFs reg3 (files s) (fr_update (onode e) (ogeneration e) (offset e) (take cnt buf) (frames s)) k).
  rewrite (bind_ok _ _ _ tt s3) by done.
  set (s4 := mkFs reg3 (<[id := set_offset (offset e + cnt)%nat e]> (files s)) (frames s3) k).
  assert (E3 : open_entry id s3 = (Ok e, s3)) by (unfold open_entry in *; injection E as E; by rewrite <-E).
  rewrite (bind_ok _ _ s3 tt s4) by (unfold set_entry; by rewrite (bind_ok _ _ _ _ _ E3)).
  assert (Hs4 : fs_ok s4) by (apply fs_ok_mk; [eapply (vfs_ok_entry reg3); [exact Hreg3|exact Hid|done..]|done]).
  rewrite bind_guard. destruct (negb _) eqn:Hshort; [|by eexists _, s4]. open_guards.
  eexists _, s4. split; [reflexivity|]. split_and!; [done|done|].
  intros e' n' Hid' _ Hi' c [= <-]. assert (e' = e) as -> by congruence. assert (n' = n) as -> by congruence.
  assert (Hcnt : cnt = length buf) by lia. split_and!; [done|done|].
  assert (Hbuf : take cnt buf = buf) by (by rewrite take_ge by lia).
  assert (Hstored : ∃ l, stored n (storage s) = Some l ∧ l = take (nlength n1) (data n1)).
  { unfold stored. destruct (backing n) as [b|].
    - destruct Hcont as (l & -> & Hll & Hdl). exists (take (nlength n) l). split; [done|]. by rewrite Hl1, <-Hdl.
    - subst n1. by eexists. }
  destruct Hstored as (l & Hl & El). exists l, n2. split_and!; try done.
  - rewrite El, length_take. lia.
  - unfold stored. cbn [storage s4 n2 backing nlength data fmap option_fmap option_map]. rewrite Hb1, Hbuf. cbn [fmap option_fmap option_map].
    f_equal. rewrite El, Hcnt. apply take_splice_grow; lia.
  - intros j Hj. unfold s4, reg3, s2, s1, set_node; cbn. by rewrite !list_lookup_insert_ne.
  - unfold s4, s3; cbn. by rewrite Hbuf.
  - unfold s4. cbn. by rewrite Hcnt.
Qed.

Lemma write_safe id buf s : fs_ok s → safe (write id buf s).
Proof. intros Hs. destruct (write_spec id buf s Hs) as (r & s' & -> & Hr & Hs' & _). by split. Qed.

(** ** Removing the name of an open file *)

Lemma unlink_open_spec p i n cs s s' : fs_ok s → p = render cs → named_at (registry s) i n cs → kind n = File →
  is_open i (files s) = true → unlink p s = (Ok tt, s') →
  files s' = files s ∧ frames s' = frames s ∧ fs_ok s' ∧ find_node p (registry s') = None ∧
  ∃ n' l, nodes (registry s') !! i = Some n' ∧ backing n' = None ∧ nlength n' = nlength n ∧ path_length n' = 0%nat ∧
    stored n (storage s) = Some l ∧ stored n' (storage s') = Some l ∧ node_ok n'.
Proof.
  intros Hs -> [Hi Hn] Hk Hop Hu. pose proof (unlink_safe (render cs) s Hs) as [_ Hs']. rewrite Hu in Hs'. cbn in Hs'.
  pose proof (node_ok_at _ _ _ (vo_tree _ _ Hs) Hi) as Hok. pose proof (lookup_lt_Some _ _ _ Hi) as Hlt.
  assert (Hv : validate_absolute_path (render cs) = Ok tt).
  { apply validate_ok. exists cs. split_and!; [done|apply Hn|]. rewrite <-(names_path_length n cs Hn Hok). apply Hok. }
  assert (Hf : find_node (render cs) (registry s) = Some i) by (apply find_node_Some; [apply Hs|apply Hn|by exists n]).
  unfold unlink in Hu. rewrite bind_lift, Hv in Hu. unfold asks in Hu. unfold mbind at 1, M_bind at 1 in Hu.
  rewrite Hf in Hu. cbn [ok_or] in Hu. rewrite (bind_reg_node _ _ _ _ Hi) in Hu. unfold is_open_file in Hu.
  rewrite bind_gets, Hop, bool_decide_eq_true_2 in Hu by done. cbn [andb] in Hu.
  destruct (materialize_spec i n s Hs Hi (proj1 Hn)) as (r & n1 & k & Em & Hrp & Hsi & Hok1 & Hl1 & Hw1 & Hgd & Hc & Hm).
  rewrite (bind_run _ _ _ _ _ Em) in Hu. destruct r as [[]|x|]; [|done..]. destruct (Hm eq_refl) as [Hb1 Hcont].
  assert (Hi1 : nodes (set_node i n1 (registry s)) !! i = Some n1) by by apply list_lookup_insert_eq.
  rewrite (bind_reg_node i n1) in Hu by done. injection Hu as <-. cbn [files frames storage registry]. split_and!; [done..| |].
  - apply find_node_None; [apply Hn|]. intros j m [Hj Hm']. cbn in Hj. rewrite list_insert_insert_eq in Hj.
    apply list_lookup_insert_Some in Hj as [(<- & <- & _)|[Hne Hj]].
    + by destruct Hm' as (_ & E' & _); destruct cs.
    + apply Hne. symmetry. eapply (tree_unique _ (vo_tree _ _ Hs)); by split.
  - set (n2 := mkNode (replicate (length (path n1)) x00) 0 (data n1) (backing n1) (nlength n1) (writable n1)
      (kind n1) (occupied n1)) in *.
    assert (Hi2 : <[i:=n2]> (<[i:=n1]> (nodes (registry s))) !! i = Some n2).
    { apply list_lookup_insert_eq. by rewrite length_insert. }
    exists n2, (take (nlength n1) (data n1)). split_and!; [exact Hi2|done|done|done| | |].
    + unfold stored. destruct (backing n) as [b|]; [|by subst n1].
      destruct Hcont as (l & -> & _ & Hdl). cbn. by rewrite Hl1, Hdl.
    + unfold stored, n2. cbn. by rewrite Hb1.
    + eapply node_ok_at; [apply Hs'|exact Hi2].
Qed.

(** ** The calls *)

Inductive Call :=
| CCreateReadOnly (p d : list byte)
| CCreateDisk (p : list byte) (len : nat) (w : bool)
| CWriteFile (p d : list byte)
| CPrepareRemove (p : list byte)
| CRemove (p : list byte)
| CRename (old new : list byte)
| CMkdir (p : list byte)
| COpen (p : list byte)
| CClone (id : nat)
| CClose (id : nat)
| CIdentity (id : nat)
| CGeneration (id : nat)
| CPrepareShared (id : nat)
| CWriteMapping (id off : nat) (d : list byte)
| CReadMapping (id : nat) (gen : Z) (off : nat) (buf : list byte)
| CReadAt (id off : nat) (buf : list byte)
| CRead (id : nat) (buf : list byte)
| CReadAll (p buf : list byte)
| CSeek (id off : nat)
| CWrite (id : nat) (buf : list byte).

(** Paths are [&str] arguments: valid UTF-8. *)
Definition call_ok (c : Call) : bool :=
  match c with
  | CCreateReadOnly p _ | CCreateDisk p _ _ | CWriteFile p _ | CMkdir p => utf8_valid p
  | CRename p q => utf8_valid p && utf8_valid q
  | _ => true
  end.

Definition ignore {A} (m : M (Fs F K) VError A) : M (Fs F K) VError unit := _ ← m; mret tt.

Definition run_call (c : Call) : M (Fs F K) VError unit :=
  match c with
  | CCreateReadOnly p d => create_read_only p d
  | CCreateDisk p len w => create_disk_file_with_writable p len w
  | CWriteFile p d => write_file p d
  | CPrepareRemove p => prepare_remove p
  | CRemove p => unlink p
  | CRename p q => on_registry (rename p q)
  | CMkdir p => ignore (on_registry (mkdir p))
  | COpen p => ignore (open p)
  | CClone id => ignore (clone_open_file id)
  | CClose id => close_open_file id
  | CIdentity id => ignore (file_identity id)
  | CGeneration id => ignore (file_generation id)
  | CPrepareShared id => prepare_shared_file id
  | CWriteMapping id off d => write_mapping_at id off d
  | CReadMapping id gen off buf => ignore (read_mapping_at id gen off buf)
  | CReadAt id off buf => ignore (read_at id off buf)
  | CRead id buf => ignore (read id buf)
  | CReadAll p buf => ignore (read_all p buf)
  | CSeek id off => ignore (seek id off)
  | CWrite id buf => ignore (write id buf)
  end.

Lemma ignore_safe {A} (m : M (Fs F K) VError A) s : safe (m s) → safe (ignore m s).
Proof. intros Hm. apply safe_bind; [done|]. intros a s' _ Hs'. by split. Qed.

Lemma run_call_safe c s : fs_ok s → call_ok c = true → safe (run_call c s).
Proof.
  intros Hs Hc. destruct c; cbn in *.
  - by apply create_read_only_safe.
  - by apply create_disk_file_safe.
  - by apply write_file_safe.
  - by apply prepare_remove_safe.
  - by apply unlink_safe.
  - apply andb_true_iff in Hc as [? ?]. by apply rename_safe.
  - by apply ignore_safe, mkdir_safe.
  - by apply ignore_safe, open_safe.
  - by apply ignore_safe, clone_safe.
  - by apply close_safe.
  - by apply ignore_safe, identity_safe.
  - by apply ignore_safe, generation_safe.
  - by apply prepare_shared_safe.
  - by apply write_mapping_safe.
  - by apply ignore_safe, read_from_safe.
  - by apply ignore_safe, read_from_safe.
  - by apply ignore_safe, read_from_safe.
  - by apply ignore_safe, read_all_safe.
  - by apply ignore_safe, seek_safe.
  - by apply ignore_safe, write_safe.
Qed.

(** The calls one after the other; [None] when one panics. *)
Fixpoint run_calls (cs : list Call) s : option (Fs F K) :=
  match cs with
  | [] => Some s
  | c :: cs => match run_call c s with (Panic, _) => None | (_, s) => run_calls cs s end
  end.

Definition start (f : F) (k : K) : Fs F K := mkFs boot table_empty f k.

Lemma start_ok f k : disk_good k → fs_ok (start f k).
Proof.
  intros Hk. apply fs_ok_mk; [|done]. split; cbn [registry files start].
  - apply boot_tree_ok.
  - intros id e He Ho. apply lookup_replicate in He as [-> _]. done.
  - intros i n Hi Ho Hl. exfalso. destruct (boot_lookup i n Hi) as [(e & He & ->)| ->]; [|done].
    destruct (boot_file_ok e) as [_ Hn]; [eapply Forall_lookup_1; [apply boot_entries_ok|done]|].
    by destruct (zero_unnamed _ Hl (fst e)).
Qed.

Lemma run_calls_ok cs s : fs_ok s → Forall (λ c, call_ok c = true) cs → ∃ s', run_calls cs s = Some s' ∧ fs_ok s'.
Proof.
  intros Hs Hcs. revert s Hs. induction Hcs as [|c cs Hc _ IH]; intros s Hs; [by exists s|]. cbn [run_calls].
  destruct (run_call_safe c s Hs Hc) as [Hp Hs']. destruct (run_call c s) as [[a|e|] s']; [by apply IH..|done].
Qed.
End safety.

(** ** A volume in memory, and no shared pages *)

#[export] Instance no_frames : Frames unit := {|
  fr_replace := λ _ _ _ f, f; fr_update := λ _ _ _ _ f, f; fr_overlay := λ _ _ _ b _, b |}.
#[export] Instance no_frames_laws : FramesLaws unit.
Proof. by split. Qed.

Definition volume := list (list byte * list byte).
Fixpoint volume_file (v : volume) (p : list byte) : option (list byte) :=
  match v with
  | [] => None
  | (q, l) :: v => if bool_decide (q = p) then Some l else volume_file v p
  end.

#[export] Instance volume_files : DiskFiles volume := {|
  read_disk_file := λ p off buf v,
    match volume_file v p with
    | Some l =>
      if Nat.ltb (length l) off then (Err tt, buf, v)
      else let c := Nat.min (length buf) (length l - off) in
           (Ok c, splice buf 0 (slice l off c), v)
    | None => (Err tt, buf, v)
    end |}.
#[export] Instance volume_laws : DiskLaws volume.
Proof.
  refine {| disk_good _ := True; disk_content := volume_file |}. intros p off buf v r buf' v' _. unfold read_disk_file, volume_files.
  destruct (volume_file v p) as [l|] eqn:E; [|by intros [= <- <- <-]].
  destruct (Nat.ltb (length l) off) eqn:Hoff; [by intros [= <- <- <-]|]. open_guards. cbv zeta. intros [= <- <- <-].
  assert (Hl : length (slice l off (Nat.min (length buf) (length l - off))) = Nat.min (length buf) (length l - off))
    by (apply length_slice; lia).
  split_and!; [done|apply length_splice; rewrite Hl; lia|done|done|]. intros c [= <-]. split; [lia|]. exists l.
  split_and!; [done|lia|]. rewrite <-Hl at 1. apply take_splice. rewrite Hl. lia.
Defined.

Abbreviation TestFs := (Fs unit volume).
Definition test_volume : volume := [(bytes "/mnt/a", bytes "disk")].
Lemma test_good : disk_good test_volume.
Proof. exact I. Qed.
Definition fresh : TestFs := start tt test_volume.

(** ** The properties *)

(** no sequence of VFS calls (creating, writing, removing, renaming, opening,
    cloning, closing, reading, mapping) panics, and after every one of them
    the tree is well formed and every open description refers to an occupied
    file of its own generation, whatever the volume answers. *)
Theorem vfs_safe {F K} `{FramesLaws F, DiskLaws K} (cs : list Call) (f : F) (k : K) :
  disk_good k → Forall (λ c, call_ok c = true) cs →
  ∃ s, run_calls cs (start f k) = Some s ∧ tree_ok (registry s) ∧
    (∀ id e, files s !! id = Some e → ooccupied e = true → 0 < refcount e ∧ entry_live (registry s) e) ∧
    (∀ i n, nodes (registry s) !! i = Some n → occupied n = true → path_length n = 0%nat →
       is_open i (files s) = true ∨ ∃ g, generations (registry s) !! i = Some g ∧ 2 ^ 64 ≤ g + 1).
Proof.
  intros Hk Hcs. destruct (run_calls_ok cs (start f k) (start_ok f k Hk) Hcs) as (s & Hs & Hok).
  exists s. split_and!; [done|apply (vo_tree _ _ Hok)|apply (vo_entries _ _ Hok)|apply (vo_unnamed _ _ Hok)].
Qed.

(** a read through a description delivers the file's bytes at the offset, as
    many as the file and the buffer hold, overlaid by the shared pages; it
    leaves the rest of the buffer and advances the offset by the count. *)
Theorem read_delivers_contents {F K} `{FramesLaws F, DiskLaws K} (s s' : Fs F K) id e n buf c b :
  fs_ok s → files s !! id = Some e → ooccupied e = true → nodes (registry s) !! onode e = Some n →
  read id buf s = (Ok (c, b), s') →
  c = Nat.min (nlength n - offset e) (length buf) ∧
  (∃ l, stored n (storage s) = Some l ∧
     b = fr_overlay (onode e) (ogeneration e) (offset e) (slice l (offset e) c) (frames s) ++ drop c buf) ∧
  files s' = <[id := set_offset (offset e + c) e]> (files s) ∧ registry s' = registry s.
Proof.
  intros Hs Hid Ho Hi Hr. destruct (read_from_spec id None buf None s Hs) as (r & s1 & E & _ & _ & Hreg & _ & _ & Hsp).
  unfold read in Hr. rewrite E in Hr. injection Hr as -> ->.
  destruct (Hsp e n Hid Ho Hi) as [Hd _]. destruct (Hd c b eq_refl) as [(_ & Hc & l & Hl & _ & Hb) Hf].
  split_and!; [done|by exists l|done..].
Qed.


(** a file outlives its name: once an open file is removed its path is gone,
    and every read through a description of it that succeeded before gives
    the same bytes afterwards, without any access to the volume. *)
Theorem unlinked_file_readable {F K} `{FramesLaws F, DiskLaws K} (s s' : Fs F K) p i id e :
  fs_ok s → find_node p (registry s) = Some i → files s !! id = Some e → ooccupied e = true → onode e = i →
  unlink p s = (Ok tt, s') →
  find_node p (registry s') = None ∧ files s' = files s ∧
  ∀ off buf c b s1, read_at id off buf s = (Ok (c, b), s1) → ∃ s2, read_at id off buf s' = (Ok (c, b), s2).
Proof.
  intros Hs Hf Hid Ho Hei Hu.
  assert (Hv : validate_absolute_path p = Ok tt).
  { destruct (validate_cases p) as [|Hv]; [done|]. unfold unlink in Hu. by rewrite bind_lift, Hv in Hu. }
  destruct (find_cases p s Hs Hv) as [?|(cs & j & n & Hp & Hf' & Hn & Hok)]; [congruence|].
  assert (j = i) as -> by congruence. pose proof Hn as [Hi _].
  destruct (vo_entries _ _ Hs id e Hid Ho) as (_ & q & Hq & _ & Hk & _).
  assert (q = n) as -> by congruence.
  assert (Hop : is_open i (files s) = true) by (apply is_open_true; eauto).
  destruct (unlink_open_spec p i n cs s s' Hs Hp Hn Hk Hop Hu)
    as (Hfi & Hfr & Hs' & Hnone & n' & l & Hi' & Hb' & Hl' & _ & Hst & Hst' & Hok').
  split_and!; [done|done|]. intros off buf c b s1 Hr.
  destruct (read_from_spec id (Some off) buf None s Hs) as (r1 & s1' & E1 & _ & _ & _ & _ & _ & Hsp1).
  destruct (read_from_spec id (Some off) buf None s' Hs') as (r2 & s2 & E2 & _ & _ & _ & _ & _ & Hsp2).
  unfold read_at in *. rewrite E1 in Hr. injection Hr as -> ->. rewrite <-Hei in Hi'.
  destruct (Hsp1 e n Hid Ho Hq) as [Hd1 _]. rewrite <-Hfi in Hid. destruct (Hsp2 e n' Hid Ho Hi') as [Hd2 Hok2].
  destruct (Hd1 c b eq_refl) as [(Hle & Hc & l1 & Hl1 & _ & ->) _]. cbn [from_option Datatypes.id] in *.
  assert (Hsome : is_ok r2 = true) by (apply Hok2; [done|done|lia]).
  destruct r2 as [[c2 b2]|x|]; [|done..]. destruct (Hd2 c2 b2 eq_refl) as [(_ & Hc2 & l2 & Hl2 & _ & ->) _].
  exists s2. assert (c2 = c) as -> by congruence. rewrite Hst in Hl1. rewrite Hst' in Hl2. rewrite E2, Hfr. congruence.
Qed.

(** ** Concrete runs *)

(** A volume file is imported, opened twice, read, written and removed. *)
Definition session : list Call :=
  [CCreateDisk (bytes "/mnt/a") 4 true; COpen (bytes "/mnt/a"); CRead 0 (bytes "......"); CWrite 0 (bytes "-tail");
   CClone 0; CRemove (bytes "/mnt/a"); CSeek 0 1; CRead 0 (bytes "...."); CClose 0; CClose 0;
   CMkdir (bytes "/tmp/d"); CRename (bytes "/tmp/d") (bytes "/mnt/e"); CReadAll (bytes "/etc/motd") []].

Lemma vfs_safe_witness : ∃ s, run_calls session fresh = Some s ∧ tree_ok (registry s) ∧ live_count (files s) = 0%nat.
Proof.
  destruct (vfs_safe session tt test_volume test_good) as (s & Hs & Ht & _).
  { repeat (apply Forall_cons; split; [reflexivity|]). apply Forall_nil_2. }
  exists s. split; [exact Hs|]. split; [exact Ht|].
  assert (E : live_count (files (default fresh (run_calls session fresh))) = 0%nat) by exact_no_check (@eq_refl nat 0%nat).
  unfold fresh in E. rewrite Hs in E. exact E.
Defined.

(** The imported file, open. *)
Definition opened : TestFs := default fresh (run_calls [CCreateDisk (bytes "/mnt/a") 4 true; COpen (bytes "/mnt/a")] fresh).
Definition entry0 : OpenFileDescription := mkOpen 8 0 0 1 true.

Lemma opened_ok : fs_ok opened.
Proof.
  destruct (run_calls_ok [CCreateDisk (bytes "/mnt/a") 4 true; COpen (bytes "/mnt/a")] fresh) as (s & Hs & Hok).
  - by apply start_ok.
  - repeat (apply Forall_cons; split; [reflexivity|]). apply Forall_nil_2.
  - unfold opened. by rewrite Hs.
Qed.
Lemma opened_entry : files opened !! 0%nat = Some entry0.
Proof. exact_no_check (@eq_refl (option OpenFileDescription) (Some entry0)). Qed.
Lemma opened_node : ∃ n, nodes (registry opened) !! onode entry0 = Some n.
Proof. destruct (vo_entries _ _ opened_ok 0 entry0 opened_entry eq_refl) as (_ & n & Hn & _). by exists n. Qed.

Lemma read_delivers_witness : ∃ s', fs_ok opened ∧ read 0 (bytes "......") opened = (Ok (4%nat, bytes "disk.."), s') ∧
  files s' = <[0%nat := mkOpen 8 0 4 1 true]> (files opened).
Proof.
  destruct opened_node as [n Hn]. destruct (read 0 (bytes "......") opened) as [r s'] eqn:E.
  assert (Er : fst (read 0 (bytes "......") opened) = Ok (4%nat, bytes "disk.."))
    by exact_no_check (@eq_refl (res VError (nat * list byte)) (Ok (4%nat, bytes "disk.."))).
  rewrite E in Er. cbn in Er. subst r. exists s'. split; [exact opened_ok|]. split; [reflexivity|].
  exact (proj1 (proj2 (proj2 (read_delivers_contents opened s' 0 entry0 n _ _ _ opened_ok opened_entry eq_refl Hn E)))).
Defined.


Lemma unlinked_file_witness : ∃ s' s1 s2, fs_ok opened ∧ unlink (bytes "/mnt/a") opened = (Ok tt, s') ∧
  find_node (bytes "/mnt/a") (registry s') = None ∧
  read_at 0 1 (bytes "..") opened = (Ok (2%nat, bytes "is"), s1) ∧ read_at 0 1 (bytes "..") s' = (Ok (2%nat, bytes "is"), s2).
Proof.
  destruct (unlink (bytes "/mnt/a") opened) as [r s'] eqn:E.
  assert (Er : fst (unlink (bytes "/mnt/a") opened) = Ok tt) by exact_no_check (@eq_refl (res VError unit) (Ok tt)).
  rewrite E in Er. cbn in Er. subst r.
  destruct (read_at 0 1 (bytes "..") opened) as [r s1] eqn:E1.
  assert (Er : fst (read_at 0 1 (bytes "..") opened) = Ok (2%nat, bytes "is"))
    by exact_no_check (@eq_refl (res VError (nat * list byte)) (Ok (2%nat, bytes "is"))).
  rewrite E1 in Er. cbn in Er. subst r.
  assert (Hf : find_node (bytes "/mnt/a") (registry opened) = Some 8%nat) by exact_no_check (@eq_refl (option nat) (Some 8%nat)).
  destruct (unlinked_file_readable opened s' (bytes "/mnt/a") 8 0 entry0 opened_ok Hf opened_entry eq_refl eq_refl E)
    as (Hnone & _ & Hread).
  destruct (Hread 1%nat (bytes "..") _ _ s1 E1) as [s2 H2].
  exists s', s1, s2. split; [exact opened_ok|]. split; [reflexivity|]. split; [exact Hnone|]. split; [reflexivity|exact H2].
Defined.

(** a shared mapping of a writable volume file loses its writes: after
    [prepare_shared_file] and a write-back of a dirty page through
    [write_mapping_at], both successful, the file still reads as the bytes on
    the volume, because the node keeps its backing path. *)
Theorem mapping_write_lost : ∃ s1 s2 s3,
  prepare_shared_file 0 opened = (Ok tt, s1) ∧ write_mapping_at 0 0 (bytes "MMAP") s1 = (Ok tt, s2) ∧
  read_at 0 0 (bytes "....") s2 = (Ok (4%nat, bytes "disk"), s3).
Proof.
  pose (s1 := snd (prepare_shared_file 0 opened)). pose (s2 := snd (write_mapping_at 0 0 (bytes "MMAP") s1)).
  exists s1, s2, (snd (read_at 0 0 (bytes "....") s2)). split; [|split].
  - assert (E : fst (prepare_shared_file 0 opened) = Ok tt) by exact_no_check (@eq_refl (res VError unit) (Ok tt)).
    rewrite <-E. apply surjective_pairing.
  - assert (E : fst (write_mapping_at 0 0 (bytes "MMAP") s1) = Ok tt) by exact_no_check (@eq_refl (res VError unit) (Ok tt)).
    rewrite <-E. apply surjective_pairing.
  - assert (E : fst (read_at 0 0 (bytes "....") s2) = Ok (4%nat, bytes "disk"))
      by exact_no_check (@eq_refl (res VError (nat * list byte)) (Ok (4%nat, bytes "disk"))).
    rewrite <-E. apply surjective_pairing.
Qed.
