(* ===== verification/Fat.v ===== *)
(** * FAT32 volumes (kernel/src/fat32.rs, the volume and its allocation table)

    Mounting, the links of the file allocation table, cluster chains with the
    cycle guard, the FSInfo hints, allocation and freeing of clusters, and the
    file contents stored in a chain.  The device is any [BlockDevice].

    Loops that the code bounds by a counter are structural recursions on the
    remaining count, so running out of it is the code's own [ChainTooLong]. *)
From stdpp Require Import list.
From S2P Require Import Prelude Block.

Definition FAT32_MIN_CLUSTERS : Z := 65525.
Definition DIRECTORY_ENTRY_SIZE : nat := 32.
Definition DIRECTORY_ENTRIES_PER_SECTOR : nat := 16.
Definition FAT32_ENTRY_MASK : Z := 0x0fffffff.
Definition FAT32_BAD_CLUSTER : Z := 0x0ffffff7.
Definition FAT32_END_MIN : Z := 0x0ffffff8.
Definition FSINFO_UNKNOWN : Z := 0xffffffff.
Definition FSINFO_LEAD_SIGNATURE : Z := 0x41615252.
Definition FSINFO_STRUCT_SIGNATURE : Z := 0x61417272.
Definition FSINFO_TRAIL_SIGNATURE : Z := 0xaa550000.
Definition FSINFO_FREE_COUNT_OFFSET : nat := 488.
Definition FSINFO_NEXT_FREE_OFFSET : nat := 492.
Definition MAX_DIRECTORY_CLUSTERS : nat := 128.
#[global] Opaque FSINFO_FREE_COUNT_OFFSET FSINFO_NEXT_FREE_OFFSET MAX_DIRECTORY_CLUSTERS.

Inductive FError :=
| FBlock (e : Block.Error) | InvalidBootSector | UnsupportedGeometry | CorruptDirectory | DirectoryFull
| CorruptChain | ChainLoop | ChainTooLong | TruncatedFile | NotFound | NoSpace | NameTooLong
| AlreadyExists | DirectoryNotEmpty | FReadOnly | InvalidPath | WriteFailed.
#[export] Instance FError_eq_dec : EqDecision FError.
Proof. solve_decision. Defined.

Record Volume := mkVolume {
  total_sectors : Z; sectors_per_cluster : Z; fat_count : Z; fat_size : Z; root_cluster : Z;
  first_fat_sector : Z; first_data_sector : Z;
  fs_info_sector : option Z; backup_fs_info_sector : option Z; cluster_count : Z }.

Record FsInfo := mkFsInfo { free_count : Z; next_free : Z }.

Inductive ClusterLink := Next (c : Z) | End.
#[export] Instance ClusterLink_eq_dec : EqDecision ClusterLink.
Proof. solve_decision. Defined.

Record SpaceInfo := mkSpaceInfo {
  total_clusters : Z; free_clusters : Z; bytes_per_cluster : Z;
  fs_info_free_count : option Z; fs_info_next_free : option Z; fs_info_matches : bool }.

Definition read_u16 (l : list byte) (off : nat) : Z := from_le_bytes (slice l off 2).
Definition read_u32 (l : list byte) (off : nat) : Z := from_le_bytes (slice l off 4).
Definition write_u16 (l : list byte) (off : nat) (z : Z) : list byte := splice l off (to_le_bytes 2 z).
Definition write_u32 (l : list byte) (off : nat) (z : Z) : list byte := splice l off (to_le_bytes 4 z).
Definition byte_at (l : list byte) (i : nat) : Z := byte_z (default x00 (l !! i)).

Definition zero_sector : list byte := replicate SECTOR_SIZE x00.
Definition sector_z : Z := Z.of_nat SECTOR_SIZE.

(** [is_allocatable_cluster], which is also [cluster_lba]'s range test. *)
Definition is_allocatable_cluster (v : Volume) (c : Z) : bool :=
  (2 <=? c) && (c <? saturating_add 32 (cluster_count v) 2).

Definition cluster_lba (v : Volume) (c : Z) : res FError Z :=
  if (c <? 2) || (saturating_add 32 (cluster_count v) 2 <=? c) then Err CorruptChain
  else ok_or UnsupportedGeometry (checked_add 64 (first_data_sector v) ((c - 2) * sectors_per_cluster v)).

Definition next_cluster_hint (v : Volume) (c : Z) : Z :=
  let next := saturating_add 32 c 1 in if is_allocatable_cluster v next then next else 2.

Definition fs_info_signatures_valid (s : list byte) : bool :=
  Nat.eqb (length s) SECTOR_SIZE && (read_u32 s 0 =? FSINFO_LEAD_SIGNATURE) &&
  (read_u32 s 484 =? FSINFO_STRUCT_SIGNATURE) && (read_u32 s 508 =? FSINFO_TRAIL_SIGNATURE).

Definition sanitize_fs_info_value (value max : Z) : Z :=
  if (value =? FSINFO_UNKNOWN) || (value <=? max) then value else FSINFO_UNKNOWN.
Definition sanitize_next_free (v : Volume) (value : Z) : Z :=
  if is_allocatable_cluster v value then value else FSINFO_UNKNOWN.

(** The sector of the allocation table, and the offset in it, of a cluster's entry. *)
Definition fat_position (v : Volume) (c : Z) : res FError (Z * nat) :=
  off ← ok_or CorruptChain (checked_mul 64 c 4);
  sector ← ok_or CorruptChain (checked_add 64 (first_fat_sector v) (off / sector_z));
  if first_data_sector v <=? sector then Err CorruptChain
  else Ok (sector, Z.to_nat (off mod sector_z)).

Section device.
Context {D : Type} `{BlockDevice D}.
Abbreviation Io := (M D FError).

(** [device.read_sector(lba, &mut sector).map_err(Error::Block)?], with the buffer. *)
Definition dread (lba : Z) (buf : list byte) : Io (list byte) := λ d,
  match read_sector lba buf d with
  | (Ok _, buf, d) => (Ok buf, d)
  | (Err e, _, d) => (Err (FBlock e), d)
  | (Panic, _, d) => (Panic, d)
  end.
Definition dwrite (lba : Z) (buf : list byte) : Io unit := λ d,
  let '(r, d) := write_sector lba buf d in (map_err FBlock r, d).

(** [let _ = m]: the result is dropped, the effects stay. *)
Definition ignored {A} (m : Io A) : Io unit := λ d,
  match m d with (Panic, d) => (Panic, d) | (_, d) => (Ok tt, d) end.

(** [match m { Ok(a) => .., Err(e) => { cleanup; return Err(e) } }] *)
Definition or_cleanup {A} (m : Io A) (cleanup : Io unit) : Io A := λ d,
  match m d with
  | (Err e, d) => (_ ← cleanup; fail e) d
  | out => out
  end.

(** [match m { Err(e) => h, out => out }] for one error [e]. *)
Definition on_error {A} (e : FError) (m h : Io A) : Io A := λ d,
  match m d with
  | (Err e', d) => if decide (e' = e) then h d else (Err e', d)
  | out => out
  end.

(** [device.read_sector(..).is_err()] *)
Definition valid_fs_info_sector (lba reserved : Z) : Io (option Z) := λ d,
  if (lba =? 0) || (reserved <=? lba) then (Ok None, d) else
  match read_sector lba zero_sector d with
  | (Ok _, s, d) => (Ok (if fs_info_signatures_valid s then Some lba else None), d)
  | (Err _, _, d) => (Ok None, d)
  | (Panic, _, d) => (Panic, d)
  end.

(** The fields of the boot sector that [mount] reads, checked for FAT32. *)
Definition boot_fields_bad (s : list byte) : bool :=
  negb (read_u16 s 11 =? sector_z)
  || (byte_at s 13 =? 0) || negb (is_power_of_two (byte_at s 13)) || (128 <? byte_at s 13)
  || (read_u16 s 14 =? 0)
  || negb ((byte_at s 16 =? 1) || (byte_at s 16 =? 2))
  || negb (read_u16 s 17 =? 0) || negb (read_u16 s 19 =? 0) || negb (read_u16 s 22 =? 0)
  || (read_u32 s 32 =? 0) || (read_u32 s 36 =? 0) || (read_u32 s 44 <? 2).

Definition mount : Io Volume :=
  s ← dread 0 zero_sector;
  _ ← guard_ok ((byte_at s 510 =? 0x55) && (byte_at s 511 =? 0xaa)) InvalidBootSector;
  let spc := byte_at s 13 in
  let reserved := read_u16 s 14 in
  let fats := byte_at s 16 in
  let total := read_u32 s 32 in
  let fsize := read_u32 s 36 in
  let root := read_u32 s 44 in
  let info := read_u16 s 48 in
  let backup := read_u16 s 50 in
  _ ← guard_ok (negb (boot_fields_bad s)) UnsupportedGeometry;
  sectors ← gets sector_count;
  _ ← guard_ok (negb (sectors <? total)) UnsupportedGeometry;
  fat_sectors ← lift (ok_or UnsupportedGeometry (checked_mul 32 fats fsize));
  first_data ← lift (ok_or UnsupportedGeometry (checked_add 32 reserved fat_sectors));
  _ ← guard_ok (first_data <=? total) UnsupportedGeometry;
  let clusters := (total - first_data) / spc in
  _ ← guard_ok (negb ((clusters <? FAT32_MIN_CLUSTERS) || (saturating_add 32 clusters 2 <=? root))) UnsupportedGeometry;
  fs_info ← valid_fs_info_sector info reserved;
  fs_backup ← (if backup =? 0 then mret None else
    match checked_add 32 backup 1 with
    | Some sector => valid_fs_info_sector sector reserved
    | None => mret None
    end);
  mret (mkVolume total spc fats fsize root reserved first_data fs_info fs_backup clusters).

Context (v : Volume).

(** [read_fat_entry] *)
Definition read_fat_entry (c : Z) : Io Z :=
  _ ← lift (cluster_lba v c);
  '(sector, off) ← lift (fat_position v c);
  s ← dread sector zero_sector;
  mret (Z.land (read_u32 s off) FAT32_ENTRY_MASK).

(** [next_cluster]: the code repeats the entry's lookup. *)
Definition next_cluster (c : Z) : Io ClusterLink :=
  _ ← lift (cluster_lba v c);
  '(sector, off) ← lift (fat_position v c);
  s ← dread sector zero_sector;
  let value := Z.land (read_u32 s off) FAT32_ENTRY_MASK in
  if FAT32_END_MIN <=? value then mret End else
  _ ← guard_ok (negb ((value <? 2) || (value =? FAT32_BAD_CLUSTER))) CorruptChain;
  _ ← lift (cluster_lba v value);
  mret (Next value).

(** ** The cycle guard *)

Record ChainCycleGuard := mkGuard { tortoise : Z; hare : Z; active : bool; steps : Z }.
Definition guard_new (start : Z) : ChainCycleGuard := mkGuard start start true 0.

Definition advance_chain_once (c : Z) : Io (option Z) :=
  l ← next_cluster c; mret (match l with Next n => Some n | End => None end).

Definition advance (g : ChainCycleGuard) : Io ChainCycleGuard :=
  if negb (active g) then mret g else
  n ← lift (ok_or ChainTooLong (checked_add 32 (steps g) 1));
  _ ← guard_ok (negb (cluster_count v <? n)) ChainTooLong;
  t ← advance_chain_once (tortoise g);
  match t with
  | None => mret (mkGuard (tortoise g) (hare g) false n)
  | Some t =>
    h1 ← advance_chain_once (hare g);
    match h1 with
    | None => mret (mkGuard t (hare g) false n)
    | Some h1 =>
      h ← advance_chain_once h1;
      match h with
      | None => mret (mkGuard t h1 false n)
      | Some h => if t =? h then fail ChainLoop else mret (mkGuard t h true n)
      end
    end
  end.

(** The loop of [validate_cluster_chain]; [room] is [cluster_count - traversed]. *)
Fixpoint validate_loop (room : nat) (c : Z) (g : ChainCycleGuard) : Io unit :=
  match room with
  | O => fail ChainTooLong
  | S room =>
    l ← next_cluster c;
    match l with
    | Next n => g ← advance g; validate_loop room n g
    | End => mret tt
    end
  end.

Definition clusters_nat : nat := Z.to_nat (cluster_count v).
Definition validate_cluster_chain (start : Z) : Io unit := validate_loop clusters_nat start (guard_new start).

(** ** FSInfo *)

Definition read_fs_info : Io (option FsInfo) :=
  match fs_info_sector v with
  | None => mret None
  | Some lba =>
    s ← dread lba zero_sector;
    mret (if fs_info_signatures_valid s
          then Some (mkFsInfo (sanitize_fs_info_value (read_u32 s FSINFO_FREE_COUNT_OFFSET) (cluster_count v))
                              (sanitize_next_free v (read_u32 s FSINFO_NEXT_FREE_OFFSET)))
          else None)
  end.

Definition write_fs_info_sector (lba : Z) (info : FsInfo) : Io unit :=
  s ← dread lba zero_sector;
  if fs_info_signatures_valid s then
    dwrite lba (write_u32 (write_u32 s FSINFO_FREE_COUNT_OFFSET (free_count info))
                          FSINFO_NEXT_FREE_OFFSET (next_free info))
  else mret tt.

Definition write_fs_info (info : FsInfo) : Io unit :=
  _ ← (match fs_info_sector v with Some lba => write_fs_info_sector lba info | None => mret tt end);
  match backup_fs_info_sector v with Some lba => write_fs_info_sector lba info | None => mret tt end.

Definition fs_info_next_free_hint : Io Z := λ d,
  match read_fs_info d with
  | (Ok (Some info), d) => (Ok (if is_allocatable_cluster v (next_free info) then next_free info else 2), d)
  | (Panic, d) => (Panic, d)
  | (_, d) => (Ok 2, d)
  end.

Definition update_fs_info_after_alloc (allocated : Z) : Io unit :=
  o ← read_fs_info;
  match o with
  | None => mret tt
  | Some info =>
    let fc := if free_count info =? FSINFO_UNKNOWN then free_count info else saturating_sub (free_count info) 1 in
    write_fs_info (mkFsInfo fc (next_cluster_hint v allocated))
  end.

Definition update_fs_info_after_free (freed first : Z) : Io unit :=
  o ← read_fs_info;
  match o with
  | None => mret tt
  | Some info =>
    let fc := if free_count info =? FSINFO_UNKNOWN then free_count info
              else Z.min (saturating_add 32 (free_count info) freed) (cluster_count v) in
    let nf := if is_allocatable_cluster v first then first else next_free info in
    write_fs_info (mkFsInfo fc nf)
  end.

(** ** Writing the table *)

(** One copy of the table. *)
Definition write_fat_copy (c value fat : Z) : Io unit :=
  off ← lift (ok_or CorruptChain (checked_mul 64 c 4));
  base ← lift (ok_or CorruptChain (checked_add 64 (first_fat_sector v) (fat * fat_size v)));
  sector ← lift (ok_or CorruptChain (checked_add 64 base (off / sector_z)));
  _ ← guard_ok (sector <? first_data_sector v) CorruptChain;
  s ← dread sector zero_sector;
  let o := Z.to_nat (off mod sector_z) in
  let existing := read_u32 s o in
  let masked := Z.land value FAT32_ENTRY_MASK in
  dwrite sector (write_u32 s o (Z.lor (Z.land existing (bnot 32 FAT32_ENTRY_MASK)) masked)).

Fixpoint for_each {A} (l : list A) (f : A → Io unit) : Io unit :=
  match l with [] => mret tt | a :: l => _ ← f a; for_each l f end.

Definition fat_copies : list Z := Z.of_nat <$> seq 0 (Z.to_nat (fat_count v)).

Definition write_fat_entry (c value : Z) : Io unit :=
  _ ← lift (cluster_lba v c);
  for_each fat_copies (write_fat_copy c value).

(** The loop over [start..end]; [n] is the number of clusters left. *)
Fixpoint allocate_loop (n : nat) (c : Z) : Io Z :=
  match n with
  | O => fail NoSpace
  | S n =>
    e ← read_fat_entry c;
    if e =? 0 then
      _ ← write_fat_entry c FAT32_END_MIN;
      _ ← ignored (update_fs_info_after_alloc c);
      mret c
    else allocate_loop n (c + 1)
  end.

Definition allocate_cluster_in_range (start endc : Z) : Io Z := allocate_loop (Z.to_nat (endc - start)) start.

Definition allocate_cluster : Io Z :=
  max ← lift (ok_or UnsupportedGeometry (checked_add 32 (cluster_count v) 2));
  start ← fs_info_next_free_hint;
  let start := if is_allocatable_cluster v start then start else 2 in
  on_error NoSpace (allocate_cluster_in_range start max)
    (if 2 <? start then allocate_cluster_in_range 2 start else fail NoSpace).

(** The loop of [free_cluster_chain]; [room] is [cluster_count - freed]. *)
Fixpoint free_loop (room : nat) (start c freed : Z) : Io unit :=
  match room with
  | O => fail ChainTooLong
  | S room =>
    let freed := freed + 1 in
    l ← next_cluster c;
    _ ← write_fat_entry c 0;
    match l with
    | Next n => free_loop room start n freed
    | End => ignored (update_fs_info_after_free freed start)
    end
  end.

Definition free_cluster_chain (start : Z) : Io unit :=
  if start <? 2 then mret tt else
  _ ← validate_cluster_chain start;
  free_loop clusters_nat start start 0.

(** The loop of [allocate_file_chain]: [n] clusters are left, [prev] is the last. *)
Fixpoint allocate_more (n : nat) (first prev : Z) : Io Z :=
  match n with
  | O => mret first
  | S n =>
    let undo := if 2 <=? first then ignored (free_cluster_chain first) else mret tt in
    c ← or_cleanup allocate_cluster undo;
    _ ← or_cleanup (write_fat_entry prev c) (_ ← ignored (free_cluster_chain c); undo);
    allocate_more n first c
  end.

Definition allocate_file_chain (n : nat) : Io Z :=
  match n with
  | O => mret 0
  | S n => c ← allocate_cluster; allocate_more n c c
  end.

(** ** The contents of a chain *)

Definition sectors_of_cluster : list Z := Z.of_nat <$> seq 0 (Z.to_nat (sectors_per_cluster v)).

(** The locals of [read_file_at]: the file position, the bytes copied, the
    caller's buffer and the sector buffer. *)
Record ReadState := mkRead { rposition : Z; copied : nat; rbuffer : list byte; rsector : list byte }.

Section range.
Context (offset : Z) (target : nat).

Fixpoint read_sectors (idx : list Z) (lba : Z) (st : ReadState) : Io ReadState :=
  match idx with
  | [] => mret st
  | i :: idx =>
    if Nat.eqb (copied st) target then mret st else
    st ← (if offset <? rposition st + sector_z then
            s ← dread (lba + i) (rsector st);
            let start := Z.to_nat (saturating_sub offset (rposition st)) in
            let count := Nat.min (SECTOR_SIZE - start) (target - copied st) in
            mret (mkRead (rposition st) (copied st + count)
                    (splice (rbuffer st) (copied st) (slice s start count)) s)
          else mret st);
    read_sectors idx lba (mkRead (rposition st + sector_z) (copied st) (rbuffer st) (rsector st))
  end.

Fixpoint read_chain (room : nat) (c : Z) (g : ChainCycleGuard) (st : ReadState) : Io ReadState :=
  if negb (Nat.ltb (copied st) target) then mret st else
  match room with
  | O => fail ChainTooLong
  | S room =>
    lba ← lift (cluster_lba v c);
    st ← read_sectors sectors_of_cluster lba st;
    if Nat.eqb (copied st) target then mret st else
    l ← next_cluster c;
    match l with
    | Next n => g ← advance g; read_chain room n g st
    | End => fail TruncatedFile
    end
  end.
End range.

Record DirectoryEntry := mkDirEntry { short_name : list byte; first_cluster : Z; size : Z; attributes : Z }.

(** Returns the count and the caller's buffer. *)
Definition read_file_at (e : DirectoryEntry) (offset : Z) (buffer : list byte) : Io (nat * list byte) :=
  let target := Z.to_nat (Z.min (saturating_sub (size e) offset) (Z.of_nat (length buffer))) in
  if Nat.eqb target 0 then mret (0%nat, buffer) else
  st ← read_chain offset target clusters_nat (first_cluster e) (guard_new (first_cluster e))
         (mkRead 0 0 buffer zero_sector);
  mret (copied st, rbuffer st).

Definition read_file (e : DirectoryEntry) (buffer : list byte) : Io (nat * list byte) := read_file_at e 0 buffer.

(** One cluster's worth of data, the last sector filled up with zeros. *)
Fixpoint write_sectors (idx : list Z) (lba : Z) (remaining : list byte) : Io (list byte) :=
  match idx with
  | [] => mret remaining
  | i :: idx =>
    _ ← dwrite (lba + i) (splice zero_sector 0 (take SECTOR_SIZE remaining));
    write_sectors idx lba (drop SECTOR_SIZE remaining)
  end.

Fixpoint write_data_loop (room : nat) (c : Z) (remaining : list byte) : Io unit :=
  match remaining with
  | [] => mret tt
  | _ =>
    match room with
    | O => fail ChainTooLong
    | S room =>
      lba ← lift (cluster_lba v c);
      remaining ← write_sectors sectors_of_cluster lba remaining;
      match remaining with
      | [] => mret tt
      | _ =>
        l ← next_cluster c;
        match l with
        | Next n => write_data_loop room n remaining
        | End => fail TruncatedFile
        end
      end
    end
  end.

Definition write_file_data_chain (first : Z) (data : list byte) : Io unit :=
  match data with
  | [] => mret tt
  | _ => if first <? 2 then fail CorruptChain else write_data_loop clusters_nat first data
  end.

Definition zero_cluster (c : Z) : Io unit :=
  base ← lift (cluster_lba v c);
  for_each sectors_of_cluster (λ i, dwrite (base + i) zero_sector).

(** ** Free space *)

Definition entries_per_sector : Z := sector_z / 4.

(** The free entries of one table sector from [index] on, below cluster [endc]. *)
Fixpoint count_free (n : nat) (s : list byte) (base index endc : Z) (free : Z) : Z :=
  match n with
  | O => free
  | S n =>
    if endc <=? base + index then free else
    let e := Z.land (read_u32 s (Z.to_nat (index * 4))) FAT32_ENTRY_MASK in
    count_free n s base (index + 1) endc (if e =? 0 then saturating_add 32 free 1 else free)
  end.

(** The scan of [space_info]; each round moves on by a cluster at least, so
    [cluster_count] rounds suffice. *)
Fixpoint space_loop (fuel : nat) (c endc free : Z) (buf : list byte) : Io Z :=
  if endc <=? c then mret free else
  match fuel with
  | O => lift Panic
  | S fuel =>
    _ ← lift (cluster_lba v c);
    '(sector, _) ← lift (fat_position v c);
    s ← dread sector buf;
    let base := wrap 32 ((sector - first_fat_sector v) * entries_per_sector) in
    let first := c - base in
    let free := count_free (Z.to_nat (entries_per_sector - first)) s base first endc free in
    let next := saturating_add 32 base entries_per_sector in
    _ ← guard_ok (negb (next <=? c)) CorruptChain;
    space_loop fuel next endc free s
  end.

Definition space_info : Io SpaceInfo :=
  let total := cluster_count v in
  endc ← lift (ok_or UnsupportedGeometry (checked_add 32 total 2));
  free ← space_loop clusters_nat 2 endc 0 zero_sector;
  info ← read_fs_info;
  let hint := i ← info; if free_count i =? FSINFO_UNKNOWN then None else Some (free_count i) in
  let next := i ← info; if (next_free i =? FSINFO_UNKNOWN) || negb (is_allocatable_cluster v (next_free i))
                        then None else Some (next_free i) in
  mret (mkSpaceInfo total free (sectors_per_cluster v * sector_z) hint next
          (match hint with None => true | Some h => h =? free end)).
End device.
