(* ===== verification/FatDir.v ===== *)
(** * FAT32 directories (kernel/src/fat32.rs, directories and paths)

    Short names, the scans of a directory's cluster chain, and the operations
    on paths: look up, list, create, delete, rename and check.  The scans share
    one loop in the source's form: at most 128 clusters, no cluster twice, the
    sectors of each cluster in order, the entries of each sector in order. *)
From stdpp Require Import list.
From S2P Require Import Prelude Block VfsPath Fat.

Definition MAX_FS_CHECK_DEPTH : nat := 4.
Definition READ_ONLY_ATTRIBUTE : Z := 0x01.
Definition VOLUME_ID_ATTRIBUTE : Z := 0x08.
Definition DIRECTORY_ATTRIBUTE : Z := 0x10.
Definition LONG_NAME_ATTRIBUTE : Z := 0x0f.
Definition ARCHIVE_ATTRIBUTE : Z := 0x20.

Definition has_attribute (attrs bit : Z) : bool := negb (Z.land attrs bit =? 0).

(** ** Short names *)

Definition upper_case (b : byte) : bool := in_range 0x41 0x5a b.
Definition lower_case (b : byte) : bool := in_range 0x61 0x7a b.
Definition digit (b : byte) : bool := in_range 0x30 0x39 b.
Definition UNDERSCORE : byte := Corelib.Init.Byte.x5f.
Definition DASH : byte := Corelib.Init.Byte.x2d.
Definition SPACE : byte := Corelib.Init.Byte.x20.

Definition to_fat_char (b : byte) : option byte :=
  if lower_case b then Some (z_byte (byte_z b - 32))
  else if upper_case b || digit b || bool_decide (b = UNDERSCORE) || bool_decide (b = DASH) then Some b
  else None.

Definition is_dot (b : byte) : bool := bool_decide (b = DOT).

(** [name.find('.')] splits off the extension. *)
Definition split_extension (name : list byte) : list byte * list byte :=
  match position is_dot name with
  | Some pos => (take pos name, drop (S pos) name)
  | None => (name, [])
  end.

Definition encode_short_name (name : list byte) : option (list byte) :=
  if bool_decide (name = []) || Nat.ltb 12 (length name) then None else
  let '(base, ext) := split_extension name in
  if bool_decide (base = []) || Nat.ltb 8 (length base) || Nat.ltb 3 (length ext) then None else
  if any is_dot base || any is_dot ext then None else
  b ← mapM to_fat_char base;
  e ← mapM to_fat_char ext;
  Some (splice (splice (replicate 11 SPACE) 0 b) 8 e).

Definition dot_name : list byte := DOT :: replicate 10 SPACE.
Definition dotdot_name : list byte := DOT :: DOT :: replicate 9 SPACE.

Definition is_space (b : byte) : bool := bool_decide (b = SPACE).
Definition is_dot_directory_short_name (n : list byte) : bool :=
  (byte_at n 0 =? byte_z DOT) && forallb is_space (drop 1 n)
  || (byte_at n 0 =? byte_z DOT) && (byte_at n 1 =? byte_z DOT) && forallb is_space (drop 2 n).

(** ** Entries *)

Record DirectorySlot := mkSlot { slot_lba : Z; slot_offset : nat; slot_entry : DirectoryEntry; slot_raw : list byte }.
Record DirectoryExtension := mkExtension { ext_parent : Z; ext_cluster : Z }.
Record Reservation := mkReservation {
  res_lba : Z; res_offset : nat; existing : option DirectoryEntry; extension : option DirectoryExtension }.
Record CheckReport := mkReport {
  cr_files : Z; cr_directories : Z; cr_total : Z; cr_free : Z; cr_hint : option Z; cr_matches : bool }.

Definition entry_cluster (s : list byte) (off : nat) : Z :=
  Z.lor (Z.shiftl (read_u16 s (off + 20)) 16) (read_u16 s (off + 26)).
Definition entry_name (s : list byte) (off : nat) : list byte := slice s off 11.

Definition directory_entry_from_sector (s : list byte) (off : nat) : res FError DirectoryEntry :=
  let c := entry_cluster s off in
  let sz := read_u32 s (off + 28) in
  let attrs := byte_at s (off + 11) in
  if (c <? 2) && (negb (sz =? 0) || has_attribute attrs DIRECTORY_ATTRIBUTE) then Err CorruptDirectory
  else Ok (mkDirEntry (entry_name s off) c sz attrs).

(** An entry the scans pass over. *)
Definition long_or_label (attrs : Z) : bool :=
  (attrs =? LONG_NAME_ATTRIBUTE) || has_attribute attrs VOLUME_ID_ATTRIBUTE.
Definition deleted_mark : Z := 0xe5.

Inductive DirectoryScan := Found (e : DirectoryEntry) | Continue | ScanEnd.

Definition entry_offsets : list nat := (λ i, (i * DIRECTORY_ENTRY_SIZE)%nat) <$> seq 0 DIRECTORY_ENTRIES_PER_SECTOR.

Fixpoint scan_directory_offsets (offs : list nat) (s short : list byte) : res FError DirectoryScan :=
  match offs with
  | [] => Ok Continue
  | off :: offs =>
    let first := byte_at s off in
    if first =? 0 then Ok ScanEnd else
    let attrs := byte_at s (off + 11) in
    if (first =? deleted_mark) || long_or_label attrs then scan_directory_offsets offs s short else
    if negb (bool_decide (entry_name s off = short)) then scan_directory_offsets offs s short else
    let c := entry_cluster s off in
    if (c <? 2) && negb (read_u32 s (off + 28) =? 0) then Err CorruptDirectory
    else Ok (Found (mkDirEntry (entry_name s off) c (read_u32 s (off + 28)) attrs))
  end.
Definition scan_directory_sector (s short : list byte) : res FError DirectoryScan :=
  scan_directory_offsets entry_offsets s short.

(** ** The walk over a directory's clusters *)

Inductive walked (A R : Type) := More (a : A) | Done (r : R).
Arguments More {A R} a. Arguments Done {A R} r.

Section device.
Context {D : Type} `{BlockDevice D}.
Abbreviation Io := (M D FError).
Context (v : Volume).

Section walk.
Context {A R : Type}.

(** One round per entry of the sector; [f] decides whether the scan goes on. *)
Fixpoint each_entry (f : nat → A → Io (walked A R)) (offs : list nat) (a : A) : Io (walked A R) :=
  match offs with
  | [] => mret (More a)
  | off :: offs =>
    w ← f off a;
    match w with More a => each_entry f offs a | Done r => mret (Done r) end
  end.

Fixpoint each_sector (f : Z → list byte → A → Io (walked A R)) (idx : list Z) (base : Z) (buf : list byte) (a : A)
    : Io (list byte * walked A R) :=
  match idx with
  | [] => mret (buf, More a)
  | i :: idx =>
    s ← dread (base + i) buf;
    w ← f (base + i) s a;
    match w with
    | More a => each_sector f idx base s a
    | Done r => mret (s, Done r)
    end
  end.

(** [room] is [MAX_DIRECTORY_CLUSTERS - visited_count]. *)
Fixpoint walk (f : Z → list byte → A → Io (walked A R)) (finish : Z → A → Io R)
    (room : nat) (visited : list Z) (c : Z) (buf : list byte) (a : A) : Io R :=
  match room with
  | O => fail ChainTooLong
  | S room =>
    if bool_decide (c ∈ visited) then fail ChainLoop else
    base ← lift (cluster_lba v c);
    '(buf, w) ← each_sector f (sectors_of_cluster v) base buf a;
    match w with
    | Done r => mret r
    | More a =>
      l ← next_cluster v c;
      match l with
      | Next n => walk f finish room (visited ++ [c]) n buf a
      | End => finish c a
      end
    end
  end.

Definition walk_directory (f : Z → list byte → A → Io (walked A R)) (finish : Z → A → Io R) (dir : Z) (a : A) : Io R :=
  walk f finish MAX_DIRECTORY_CLUSTERS [] dir zero_sector a.
End walk.

(** ** Reading directories *)

Definition find_in_directory (dir : Z) (short : list byte) : Io DirectoryEntry :=
  walk_directory
    (λ _ s (_ : unit),
      scan ← lift (scan_directory_sector s short);
      match scan with
      | Found e => mret (Done e)
      | ScanEnd => fail NotFound
      | Continue => mret (More tt)
      end)
    (λ _ _, fail NotFound) dir tt.
Definition find_root (short : list byte) : Io DirectoryEntry := find_in_directory (root_cluster v) short.

(** The visitor is a closure with captured state [A]; what else it changes is
    part of the state the walk runs on. *)
Definition for_each_directory_entry {A} (dir : Z) (visitor : DirectoryEntry → A → Io A) (a : A) : Io A :=
  walk_directory
    (λ _ s a, each_entry
      (λ off a,
        let first := byte_at s off in
        if first =? 0 then mret (Done a) else
        let attrs := byte_at s (off + 11) in
        if (first =? deleted_mark) || long_or_label attrs then mret (More a) else
        e ← lift (directory_entry_from_sector s off);
        a ← visitor e a;
        mret (More a)) entry_offsets a)
    (λ _ a, mret a) dir a.

(** The entries, for an output of [capacity] slots. *)
Definition list_directory (dir : Z) (capacity : nat) : Io (list DirectoryEntry) :=
  for_each_directory_entry dir
    (λ e out, if Nat.ltb (length out) capacity then mret (out ++ [e]) else fail DirectoryFull) [].
Definition list_root (capacity : nat) : Io (list DirectoryEntry) := list_directory (root_cluster v) capacity.

(** The components of a path, at most [limit] of them; ["."] and empty ones are skipped. *)
Fixpoint path_parts (limit : nat) (bad : FError) (l acc : list (list byte)) : res FError (list (list byte)) :=
  match l with
  | [] => Ok acc
  | c :: l =>
    if bool_decide (c = []) || bool_decide (c = [DOT]) then path_parts limit bad l acc
    else if bool_decide (c = [DOT; DOT]) || Nat.eqb (length acc) limit then Err bad
    else path_parts limit bad l (acc ++ [c])
  end.

Definition is_directory_entry (e : DirectoryEntry) : bool := has_attribute (attributes e) DIRECTORY_ATTRIBUTE.

Fixpoint resolve_parts (parts : list (list byte)) (c : Z) (current : option DirectoryEntry) : Io DirectoryEntry :=
  match parts with
  | [] => lift (ok_or NotFound current)
  | p :: parts =>
    short ← lift (ok_or NotFound (encode_short_name p));
    e ← find_in_directory c short;
    match parts with
    | [] => resolve_parts parts c (Some e)
    | _ =>
      _ ← guard_ok (is_directory_entry e && negb (first_cluster e <? 2)) NotFound;
      resolve_parts parts (first_cluster e) (Some e)
    end
  end.

Definition resolve_path (path : list byte) : Io DirectoryEntry :=
  let path := trim_start path in
  _ ← guard_ok (negb (bool_decide (path = []))) NotFound;
  parts ← lift (path_parts 8 NotFound (split_slash path) []);
  _ ← guard_ok (negb (bool_decide (parts = []))) NotFound;
  resolve_parts parts (root_cluster v) None.

(** ** Checking a volume *)

Definition count_file (r : CheckReport) : CheckReport :=
  mkReport (cr_files r + 1) (cr_directories r) (cr_total r) (cr_free r) (cr_hint r) (cr_matches r).
Definition count_directory (r : CheckReport) : CheckReport :=
  mkReport (cr_files r) (cr_directories r + 1) (cr_total r) (cr_free r) (cr_hint r) (cr_matches r).

(** [levels] is [MAX_FS_CHECK_DEPTH - depth]. *)
Fixpoint check_directory_tree (levels : nat) (dir : Z) (report : CheckReport) : Io CheckReport :=
  walk_directory
    (λ _ s r, each_entry
      (λ off r,
        let first := byte_at s off in
        if first =? 0 then mret (Done r) else
        if first =? deleted_mark then mret (More r) else
        if long_or_label (byte_at s (off + 11)) then mret (More r) else
        e ← lift (directory_entry_from_sector s off);
        if is_dot_directory_short_name (short_name e) then mret (More r) else
        if is_directory_entry e then
          _ ← validate_cluster_chain v (first_cluster e);
          let r := count_directory r in
          match levels with
          | O => mret (More r)
          | S levels => r ← check_directory_tree levels (first_cluster e) r; mret (More r)
          end
        else
          _ ← (if 2 <=? first_cluster e then validate_cluster_chain v (first_cluster e) else mret tt);
          mret (More (count_file r))) entry_offsets r)
    (λ _ r, mret r) dir report.

Definition check_volume : Io CheckReport :=
  _ ← lift (cluster_lba v (root_cluster v));
  _ ← validate_cluster_chain v (root_cluster v);
  space ← space_info v;
  check_directory_tree MAX_FS_CHECK_DEPTH (root_cluster v)
    (mkReport 0 1 (total_clusters space) (free_clusters space) (fs_info_free_count space) (fs_info_matches space)).

(** ** Slots *)

Definition extend_directory_chain (last : Z) : Io Reservation :=
  c ← allocate_cluster v;
  _ ← or_cleanup (zero_cluster v c) (ignored (free_cluster_chain v c));
  _ ← or_cleanup (write_fat_entry v last c) (ignored (free_cluster_chain v c));
  lba ← lift (cluster_lba v c);
  mret (mkReservation lba 0 None (Some (mkExtension last c))).

Definition rollback_directory_extension (e : DirectoryExtension) : Io unit :=
  _ ← write_fat_entry v (ext_parent e) FAT32_END_MIN;
  free_cluster_chain v (ext_cluster e).

Definition rollback_reserved_slot (slot : Reservation) : Io unit :=
  match extension slot with
  | Some e => ignored (rollback_directory_extension e)
  | None => mret tt
  end.

Definition find_directory_slot (dir : Z) (short : list byte) : Io Reservation :=
  walk_directory
    (λ lba s deleted, each_entry
      (λ off deleted,
        let first := byte_at s off in
        if first =? 0 then
          let '(l, o) := default (lba, off) deleted in mret (Done (mkReservation l o None None))
        else if first =? deleted_mark then
          mret (More (match deleted with None => Some (lba, off) | Some _ => deleted end))
        else
          let attrs := byte_at s (off + 11) in
          if long_or_label attrs then mret (More deleted) else
          if bool_decide (entry_name s off = short) then
            mret (Done (mkReservation lba off
              (Some (mkDirEntry (entry_name s off) (entry_cluster s off) (read_u32 s (off + 28)) attrs)) None))
          else mret (More deleted)) entry_offsets deleted)
    (λ c deleted,
      match deleted with
      | Some (l, o) => mret (mkReservation l o None None)
      | None => extend_directory_chain c
      end) dir None.

Definition find_existing_directory_slot (dir : Z) (short : list byte) : Io DirectorySlot :=
  walk_directory
    (λ lba s (_ : unit), each_entry
      (λ off _,
        let first := byte_at s off in
        if first =? 0 then fail NotFound else
        if first =? deleted_mark then mret (More tt) else
        if long_or_label (byte_at s (off + 11)) then mret (More tt) else
        if bool_decide (entry_name s off = short) then
          e ← lift (directory_entry_from_sector s off);
          mret (Done (mkSlot lba off e (slice s off DIRECTORY_ENTRY_SIZE)))
        else mret (More tt)) entry_offsets tt)
    (λ _ _, fail NotFound) dir tt.

Definition directory_is_empty (dir : Z) : Io bool :=
  walk_directory
    (λ _ s (_ : unit), each_entry
      (λ off _,
        let first := byte_at s off in
        if first =? 0 then mret (Done true) else
        if first =? deleted_mark then mret (More tt) else
        if long_or_label (byte_at s (off + 11)) then mret (More tt) else
        if bool_decide (entry_name s off = dot_name) || bool_decide (entry_name s off = dotdot_name)
        then mret (More tt)
        else mret (Done false)) entry_offsets tt)
    (λ _ _, mret true) dir tt.

(** Rewrite part of a directory sector. *)
Definition edit_sector (lba : Z) (f : list byte → list byte) : Io unit :=
  s ← dread lba zero_sector;
  dwrite lba (f s).

Definition mark_directory_entry_deleted (lba : Z) (off : nat) : Io unit :=
  edit_sector lba (λ s, <[off := z_byte deleted_mark]> s).
Definition write_short_name (lba : Z) (off : nat) (short : list byte) : Io unit :=
  edit_sector lba (λ s, splice s off short).
Definition write_raw_directory_slot (lba : Z) (off : nat) (raw : list byte) : Io unit :=
  edit_sector lba (λ s, splice s off raw).

Definition set_entry_cluster (s : list byte) (off : nat) (c : Z) : list byte :=
  write_u16 (write_u16 s (off + 20) (Z.shiftr c 16)) (off + 26) c.

Definition write_directory_entry (lba : Z) (off : nat) (short : list byte) (attrs first sz : Z) : Io unit :=
  edit_sector lba (λ s,
    let s := splice s off (replicate DIRECTORY_ENTRY_SIZE x00) in
    let s := splice s off short in
    let s := <[(off + 11)%nat := z_byte attrs]> s in
    write_u32 (set_entry_cluster s off first) (off + 28) sz).

(** The first live [".."] entry of the sector, before its end mark. *)
Fixpoint find_dotdot (offs : list nat) (s : list byte) : option nat :=
  match offs with
  | [] => None
  | off :: offs =>
    let first := byte_at s off in
    if first =? 0 then None
    else if first =? deleted_mark then find_dotdot offs s
    else if bool_decide (entry_name s off = dotdot_name) then Some off
    else find_dotdot offs s
  end.

Definition update_dotdot (dir parent : Z) : Io unit :=
  base ← lift (cluster_lba v dir);
  s ← dread base zero_sector;
  match find_dotdot entry_offsets s with
  | Some off => dwrite base (set_entry_cluster s off parent)
  | None => fail CorruptDirectory
  end.

(** ** Creating *)

Definition create_file_in_directory (dir : Z) (name data : list byte) : Io unit :=
  short ← lift (ok_or NameTooLong (encode_short_name name));
  _ ← guard_ok (Z.of_nat (length data) <? 2 ^ 32) NoSpace;
  slot ← find_directory_slot dir short;
  old ← (match existing slot with
         | Some e =>
           _ ← guard_ok (negb (is_directory_entry e)) WriteFailed;
           _ ← (if 2 <=? first_cluster e then validate_cluster_chain v (first_cluster e) else mret tt);
           mret (Some (first_cluster e))
         | None => mret None
         end);
  let bytes_per_cluster := (sectors_per_cluster v * sector_z)%Z in
  let needed := Z.to_nat ((Z.of_nat (length data) + bytes_per_cluster - 1) / bytes_per_cluster) in
  first ← or_cleanup (allocate_file_chain v needed) (rollback_reserved_slot slot);
  let undo := _ ← (if 2 <=? first then ignored (free_cluster_chain v first) else mret tt);
              rollback_reserved_slot slot in
  _ ← or_cleanup (write_file_data_chain v first data) undo;
  _ ← or_cleanup (write_directory_entry (res_lba slot) (res_offset slot) short ARCHIVE_ATTRIBUTE first
                    (Z.of_nat (length data))) undo;
  match old with
  | Some c => if 2 <=? c then free_cluster_chain v c else mret tt
  | None => mret tt
  end.

Definition create_root_file (name data : list byte) : Io unit :=
  create_file_in_directory (root_cluster v) name data.

(** The first sector of a new directory. *)
Definition directory_sector (c parent : Z) : list byte :=
  let dotdot := if parent =? root_cluster v then root_cluster v else parent in
  let s := splice zero_sector 0 dot_name in
  let s := <[11%nat := z_byte DIRECTORY_ATTRIBUTE]> s in
  let s := set_entry_cluster s 0 c in
  let s := splice s 32 dotdot_name in
  let s := <[43%nat := z_byte DIRECTORY_ATTRIBUTE]> s in
  set_entry_cluster s 32 dotdot.

Definition create_directory_in (parent : Z) (name : list byte) : Io Z :=
  short ← lift (ok_or NameTooLong (encode_short_name name));
  slot ← find_directory_slot parent short;
  match existing slot with
  | Some e => if is_directory_entry e && (2 <=? first_cluster e) then mret (first_cluster e) else fail WriteFailed
  | None =>
    c ← or_cleanup (allocate_cluster v) (rollback_reserved_slot slot);
    let undo := _ ← ignored (free_cluster_chain v c); rollback_reserved_slot slot in
    _ ← or_cleanup (zero_cluster v c) undo;
    base ← or_cleanup (lift (cluster_lba v c)) undo;
    _ ← or_cleanup (dwrite base (directory_sector c parent)) undo;
    _ ← or_cleanup (write_directory_entry (res_lba slot) (res_offset slot) short DIRECTORY_ATTRIBUTE c 0) undo;
    mret c
  end.

(** [path.trim_matches('/')] *)
Definition trim (path : list byte) : list byte := trim_end (trim_start path).

Fixpoint mkdir_parts (l : list (list byte)) (c : Z) : Io unit :=
  match l with
  | [] => mret tt
  | p :: l =>
    if bool_decide (p = []) || bool_decide (p = [DOT]) then mkdir_parts l c else
    _ ← guard_ok (negb (bool_decide (p = [DOT; DOT]))) NameTooLong;
    short ← lift (ok_or NameTooLong (encode_short_name p));
    c ← on_error NotFound
          (e ← find_in_directory c short;
           _ ← guard_ok (is_directory_entry e && (2 <=? first_cluster e)) WriteFailed;
           mret (first_cluster e))
          (create_directory_in c p);
    mkdir_parts l c
  end.

Definition mkdir_path (path : list byte) : Io unit :=
  let path := trim path in
  if bool_decide (path = []) then mret tt else mkdir_parts (split_slash path) (root_cluster v).

Fixpoint resolve_parents (parents : list (list byte)) (create_missing : bool) (c : Z) : Io Z :=
  match parents with
  | [] => mret c
  | p :: parents =>
    short ← lift (ok_or NameTooLong (encode_short_name p));
    found ← on_error NotFound (e ← find_in_directory c short; mret (Some e))
              (if create_missing then mret None else fail NotFound);
    c ← (match found with
         | Some e =>
           _ ← guard_ok (is_directory_entry e && negb (first_cluster e <? 2)) NotFound;
           mret (first_cluster e)
         | None => create_directory_in c p
         end);
    resolve_parents parents create_missing c
  end.

(** Returns the parent's cluster and the last component. *)
Definition resolve_parent_cluster (path : list byte) (create_missing : bool) : Io (Z * list byte) :=
  let path := trim path in
  _ ← guard_ok (negb (bool_decide (path = []))) NameTooLong;
  parts ← lift (path_parts 16 NameTooLong (split_slash path) []);
  leaf ← lift (ok_or NameTooLong (last parts));
  _ ← lift (ok_or NameTooLong (encode_short_name leaf));
  c ← resolve_parents (removelast parts) create_missing (root_cluster v);
  mret (c, leaf).

Definition create_path_file (path data : list byte) : Io unit :=
  '(parent, leaf) ← resolve_parent_cluster path true;
  create_file_in_directory parent leaf data.

(** ** Deleting and renaming *)

Definition delete_path (path : list byte) : Io unit :=
  let path := trim path in
  _ ← guard_ok (negb (bool_decide (path = []))) InvalidPath;
  '(parent, leaf) ← resolve_parent_cluster path false;
  short ← lift (ok_or NameTooLong (encode_short_name leaf));
  slot ← find_existing_directory_slot parent short;
  let e := slot_entry slot in
  _ ← guard_ok (negb (has_attribute (attributes e) READ_ONLY_ATTRIBUTE)) FReadOnly;
  _ ← (if is_directory_entry e then
         empty ← directory_is_empty (first_cluster e);
         _ ← guard_ok empty DirectoryNotEmpty;
         validate_cluster_chain v (first_cluster e)
       else if 2 <=? first_cluster e then validate_cluster_chain v (first_cluster e) else mret tt);
  _ ← mark_directory_entry_deleted (slot_lba slot) (slot_offset slot);
  if 2 <=? first_cluster e then free_cluster_chain v (first_cluster e) else mret tt.

Definition path_is_descendant (parent child : list byte) : bool :=
  let parent := trim parent in
  let child := trim child in
  negb (bool_decide (parent = [])) && Nat.ltb (length parent) (length child) &&
  starts_with parent child && bool_decide (child !! length parent = Some SLASH).

(** The move of an entry to another directory, undone step by step on errors. *)
Definition move_entry (old : DirectorySlot) (old_parent new_parent : Z) (new_short : list byte) : Io unit :=
  let dir := is_directory_entry (slot_entry old) in
  slot ← find_directory_slot new_parent new_short;
  _ ← guard_ok (negb (bool_decide (is_Some (existing slot)))) AlreadyExists;
  _ ← or_cleanup (write_raw_directory_slot (res_lba slot) (res_offset slot) (splice (slot_raw old) 0 new_short))
        (rollback_reserved_slot slot);
  _ ← (if dir then
         or_cleanup (update_dotdot (first_cluster (slot_entry old)) new_parent)
           (_ ← ignored (mark_directory_entry_deleted (res_lba slot) (res_offset slot)); rollback_reserved_slot slot)
       else mret tt);
  or_cleanup (mark_directory_entry_deleted (slot_lba old) (slot_offset old))
    (_ ← ignored (mark_directory_entry_deleted (res_lba slot) (res_offset slot));
     _ ← (if dir then ignored (update_dotdot (first_cluster (slot_entry old)) old_parent) else mret tt);
     rollback_reserved_slot slot).

Definition rename_path (old new : list byte) : Io unit :=
  let old_path := trim old in
  let new_path := trim new in
  _ ← guard_ok (negb (bool_decide (old_path = []) || bool_decide (new_path = []))) InvalidPath;
  '(old_parent, old_leaf) ← resolve_parent_cluster old_path false;
  old_short ← lift (ok_or NameTooLong (encode_short_name old_leaf));
  slot ← find_existing_directory_slot old_parent old_short;
  let e := slot_entry slot in
  _ ← guard_ok (negb (has_attribute (attributes e) READ_ONLY_ATTRIBUTE)) FReadOnly;
  let dir := is_directory_entry e in
  _ ← guard_ok (negb (dir && path_is_descendant old_path new_path)) InvalidPath;
  _ ← guard_ok (negb (dir && (first_cluster e <? 2))) CorruptDirectory;
  '(new_parent, new_leaf) ← resolve_parent_cluster new_path false;
  new_short ← lift (ok_or NameTooLong (encode_short_name new_leaf));
  if (old_parent =? new_parent) && bool_decide (old_short = new_short) then mret tt else
  _ ← on_error NotFound (_ ← find_existing_directory_slot new_parent new_short; fail AlreadyExists) (mret tt);
  if old_parent =? new_parent then write_short_name (slot_lba slot) (slot_offset slot) new_short
  else move_entry slot old_parent new_parent new_short.
End device.
