(* ===== verification/FatTest.v ===== *)
(** * The FAT32 self-tests (kernel/src/fat32.rs)

    The test disks of the source as devices, and its self-tests as programs
    over the model.  They pass; a last test shows a directory moved into
    itself. *)
From stdpp Require Import list.
From S2P Require Import Prelude Block VfsPath Fat FatDir.

(** ** The read-only disks *)

Definition TOTAL_SECTORS : Z := 70000.
Definition FAT_LBA : Z := 32.
Definition ROOT_LBA : Z := 1232.
Definition FILE_LBA : Z := 1233.

Definition put8 (i : nat) (z : Z) (s : list byte) : list byte := <[i := z_byte z]> s.
Definition put16 (i : nat) (z : Z) (s : list byte) : list byte := write_u16 s i z.
Definition put32 (i : nat) (z : Z) (s : list byte) : list byte := write_u32 s i z.
Definition name (s : string) : list byte := bytes s.

(** The boot sector the disks share. *)
Definition boot_sector : list byte :=
  put32 44 2 (put32 36 600 (put32 32 TOTAL_SECTORS (put8 16 2 (put16 14 32 (put8 13 1 (put16 11 512 zero_sector)))))).
Definition signed (s : list byte) : list byte := put8 510 0x55 (put8 511 0xaa s).

Record TestDisk := mkTestDisk { valid_signature : bool; cyclic_chain : bool }.

Definition test_sector (d : TestDisk) (lba : Z) : list byte :=
  if lba =? 0 then if valid_signature d then signed boot_sector else boot_sector
  else if lba =? FAT_LBA then
    let s := put32 8 5 zero_sector in
    let s := if cyclic_chain d then put32 12 3 s else put32 16 FAT32_END_MIN (put32 12 4 s) in
    put32 20 FAT32_END_MIN s
  else if lba =? ROOT_LBA then
    foldl (λ s i, put8 (i * DIRECTORY_ENTRY_SIZE) 0xe5 s) zero_sector (seq 0 DIRECTORY_ENTRIES_PER_SECTOR)
  else if lba =? ROOT_LBA + 3 then
    let s := put8 11 0x20 (splice zero_sector 0 (name "KERNEL  BIN")) in
    put32 28 (if cyclic_chain d then 1024 else 600) (put16 26 3 s)
  else if lba =? FILE_LBA then replicate SECTOR_SIZE Corelib.Init.Byte.x41
  else if lba =? FILE_LBA + 1 then replicate SECTOR_SIZE Corelib.Init.Byte.x42
  else zero_sector.

Definition bad_request (lba : Z) (buf : list byte) : bool :=
  negb (Nat.eqb (length buf) SECTOR_SIZE) || (TOTAL_SECTORS <=? lba).

#[export] Instance TestDisk_device : BlockDevice TestDisk := {|
  sector_count _ := TOTAL_SECTORS;
  is_read_only _ := false;
  flush d := (Ok tt, d);
  read_sector lba buf d := if bad_request lba buf then (Err OutOfBounds, buf, d) else (Ok tt, test_sector d lba, d);
  write_sector _ _ d := (Err Block.ReadOnly, d) |}.

Record RootCycleDisk := mkRootCycle { rc_inner : TestDisk }.
#[export] Instance RootCycleDisk_device : BlockDevice RootCycleDisk := {|
  sector_count d := sector_count (rc_inner d);
  is_read_only _ := false;
  flush d := (Ok tt, d);
  read_sector lba buf d :=
    let '(r, s, i) := read_sector lba buf (rc_inner d) in
    (r, if is_ok r && (lba =? FAT_LBA) then put32 8 2 s else s, mkRootCycle i);
  write_sector lba buf d := let '(r, i) := write_sector lba buf (rc_inner d) in (r, mkRootCycle i) |}.

Inductive StreamingReadDisk := Streaming.

(** All 128 entries of a table sector, in order. *)
Definition streaming_fat (lba : Z) : list byte :=
  concat ((λ i,
    let c := (lba - FAT_LBA) * 128 + Z.of_nat i in
    to_le_bytes 4 (if (3 <=? c) && (c <? 260) then c + 1 else FAT32_END_MIN)) <$> seq 0 128).
Definition streaming_data (lba : Z) : list byte :=
  (λ i, z_byte (((lba - FILE_LBA) * sector_z + Z.of_nat i) mod 251)) <$> seq 0 SECTOR_SIZE.

#[export] Instance StreamingReadDisk_device : BlockDevice StreamingReadDisk := {|
  sector_count _ := TOTAL_SECTORS;
  is_read_only _ := false;
  flush d := (Ok tt, d);
  read_sector lba buf d :=
    if bad_request lba buf then (Err OutOfBounds, buf, d)
    else if lba =? 0 then (Ok tt, signed boot_sector, d)
    else if (FAT_LBA <=? lba) && (lba <? FAT_LBA + 600) then (Ok tt, streaming_fat lba, d)
    else if (FILE_LBA <=? lba) && (lba <? FILE_LBA + 258) then (Ok tt, streaming_data lba, d)
    else (Err OutOfBounds, zero_sector, d);
  write_sector _ _ d := (Err Block.ReadOnly, d) |}.

(** ** The writable disk *)

Record MutableFatDisk := mkMutable {
  boot : list byte; fs_info : list byte; backup_fs_info : list byte; fat0 : list byte; fat1 : list byte;
  root : list byte; mdata : list (list byte) }.

Definition fresh_info : list byte :=
  put32 508 FSINFO_TRAIL_SIGNATURE (put32 492 3 (put32 488 (TOTAL_SECTORS - ROOT_LBA - 1)
    (put32 484 FSINFO_STRUCT_SIGNATURE (put32 0 FSINFO_LEAD_SIGNATURE zero_sector)))).
Definition mutable_new : MutableFatDisk :=
  let fat := put32 8 FAT32_END_MIN zero_sector in
  mkMutable (signed (put16 50 6 (put16 48 1 boot_sector))) fresh_info fresh_info fat fat zero_sector
    (replicate 128 zero_sector).

Definition data_slot (lba : Z) : option nat :=
  if (FILE_LBA <=? lba) && (lba <? FILE_LBA + 128) then Some (Z.to_nat (lba - FILE_LBA)) else None.

Definition mutable_sector (d : MutableFatDisk) (lba : Z) : list byte :=
  if lba =? 0 then boot d else if lba =? 1 then fs_info d else if lba =? 7 then backup_fs_info d
  else if lba =? FAT_LBA then fat0 d else if lba =? FAT_LBA + 600 then fat1 d
  else if lba =? ROOT_LBA then root d
  else match data_slot lba with Some i => default zero_sector (mdata d !! i) | None => zero_sector end.

Definition mutable_write (lba : Z) (s : list byte) (d : MutableFatDisk) : res Block.Error unit * MutableFatDisk :=
  let 'mkMutable b i k f0 f1 r dt := d in
  if lba =? 0 then (Ok tt, mkMutable s i k f0 f1 r dt)
  else if lba =? 1 then (Ok tt, mkMutable b s k f0 f1 r dt)
  else if lba =? 7 then (Ok tt, mkMutable b i s f0 f1 r dt)
  else if lba =? FAT_LBA then (Ok tt, mkMutable b i k s f1 r dt)
  else if lba =? FAT_LBA + 600 then (Ok tt, mkMutable b i k f0 s r dt)
  else if lba =? ROOT_LBA then (Ok tt, mkMutable b i k f0 f1 s dt)
  else match data_slot lba with
       | Some n => (Ok tt, mkMutable b i k f0 f1 r (<[n := s]> dt))
       | None => (Err OutOfBounds, d)
       end.

#[export] Instance MutableFatDisk_device : BlockDevice MutableFatDisk := {|
  sector_count _ := TOTAL_SECTORS;
  is_read_only _ := false;
  flush d := (Ok tt, d);
  read_sector lba buf d := if bad_request lba buf then (Err OutOfBounds, buf, d) else (Ok tt, mutable_sector d lba, d);
  write_sector lba s d := if bad_request lba s then (Err OutOfBounds, d) else mutable_write lba s d |}.

Record FailingWriteDisk := mkFailing { f_inner : MutableFatDisk; fail_lba : Z; failed : bool }.
#[export] Instance FailingWriteDisk_device : BlockDevice FailingWriteDisk := {|
  sector_count d := sector_count (f_inner d);
  is_read_only _ := false;
  flush d := (Ok tt, d);
  read_sector lba buf d :=
    let '(r, s, i) := read_sector lba buf (f_inner d) in (r, s, mkFailing i (fail_lba d) (failed d));
  write_sector lba s d :=
    if (lba =? fail_lba d) && negb (failed d) then (Err DeviceFault, mkFailing (f_inner d) (fail_lba d) true)
    else let '(r, i) := write_sector lba s (f_inner d) in (r, mkFailing i (fail_lba d) (failed d)) |}.

(** ** The tests *)

Section tests.
Context {D : Type} `{BlockDevice D}.
Abbreviation Io := (M D FError).

Definition ensure (b : bool) : Io unit := guard_ok b WriteFailed.
Definition expect_ok {A} (m : Io A) : Io A := expecting_ok WriteFailed m.
Definition expect_error {A} (e : FError) (m : Io A) : Io unit := expecting WriteFailed (fails_with e) m.
Definition expect {A} `{EqDecision A} (w : A) (m : Io A) : Io unit :=
  expecting WriteFailed (λ r, bool_decide (r = Ok w)) m.
Definition kernel_bin : list byte := name "KERNEL  BIN".
Definition missing_txt : list byte := name "MISSING TXT".

Definition all_are (b : byte) (l : list byte) : bool := forallb (λ x, bool_decide (x = b)) l.
Definition b_A : byte := Corelib.Init.Byte.x41.
Definition b_B : byte := Corelib.Init.Byte.x42.

Definition basic_self_test : Io unit :=
  v ← expect_ok mount;
  e ← expect_ok (find_root v kernel_bin);
  es ← expect_ok (list_root v 2);
  _ ← ensure (bool_decide (short_name <$> es = [short_name e]));
  _ ← expect_error DirectoryFull (list_root v 0);
  _ ← ensure ((total_sectors v =? TOTAL_SECTORS) && (fat_count v =? 2) && (fat_size v =? 600));
  _ ← expect ROOT_LBA (lift (cluster_lba v (root_cluster v)));
  _ ← expect (Next 5) (next_cluster v (root_cluster v));
  _ ← ensure (bool_decide (short_name e = kernel_bin) && (first_cluster e =? 3) && (size e =? 600) && (attributes e =? 0x20));
  _ ← expect (Next 4) (next_cluster v 3);
  _ ← expect End (next_cluster v 4);
  '(n, payload) ← expect_ok (read_file v e (replicate 600 x00));
  _ ← ensure (Nat.eqb n 600 && all_are b_A (take 512 payload) && all_are b_B (drop 512 payload));
  expect_error NotFound (find_root v missing_txt).

Definition cycle_self_test : Io unit :=
  v ← expect_ok mount;
  e ← expect_ok (find_root v kernel_bin);
  expect_error ChainLoop (read_file v e (replicate 1024 x00)).

Definition root_cycle_self_test : Io unit :=
  v ← expect_ok mount;
  expect_error ChainLoop (find_root v missing_txt).

Definition range_self_test : Io unit :=
  v ← expect_ok mount;
  e ← expect_ok (find_root v kernel_bin);
  '(n, data) ← expect_ok (read_file_at v e 500 (replicate 32 x00));
  _ ← ensure (Nat.eqb n 32 && all_are b_A (take 12 data) && all_are b_B (drop 12 data));
  '(n, data) ← expect_ok (read_file_at v e 590 (replicate 32 x00));
  _ ← ensure (Nat.eqb n 10 && all_are b_B (take 10 data) && all_are x00 (drop 10 data));
  '(n, _) ← expect_ok (read_file_at v e 600 data);
  _ ← ensure (Nat.eqb n 0);
  '(n, _) ← expect_ok (read_file_at v e (2 ^ 64 - 1) data);
  ensure (Nat.eqb n 0).

Definition streaming_read_self_test : Io unit :=
  v ← expect_ok mount;
  let e := mkDirEntry (name "STREAM  BIN") 3 (260 * sector_z) 0x20 in
  let offset := 140 * sector_z + 11 in
  '(n, data) ← expect_ok (read_file_at v e offset (replicate 73 x00));
  ensure (Nat.eqb n 73 && bool_decide (data = (λ i, z_byte ((offset + Z.of_nat i) mod 251)) <$> seq 0 73)).

Definition read_path_bytes (v : Volume) (path out : list byte) : Io (nat * list byte) :=
  e ← resolve_path v path; read_file v e out.

Definition holds (v : Volume) (path : string) (out : nat) (content : string) : Io unit :=
  '(n, data) ← expect_ok (read_path_bytes v (bytes path) (replicate out x00));
  ensure (Nat.eqb n (length (bytes content)) && bool_decide (take n data = bytes content)).
Definition gone (v : Volume) (path : string) : Io unit := expect_error NotFound (resolve_path v (bytes path)).

Definition mutation_self_test : Io unit :=
  v ← expect_ok mount;
  _ ← expect_ok (create_path_file v (bytes "a.txt") (bytes "one"));
  _ ← expect_ok (create_path_file v (bytes "docs/a.txt") (bytes "two"));
  _ ← expect_ok (mkdir_path v (bytes "other"));
  _ ← expect_ok (rename_path v (bytes "a.txt") (bytes "b.txt"));
  _ ← gone v "a.txt";
  _ ← holds v "b.txt" 8 "one";
  _ ← expect_error AlreadyExists (rename_path v (bytes "docs/a.txt") (bytes "b.txt"));
  _ ← expect_ok (rename_path v (bytes "docs") (bytes "archive"));
  _ ← gone v "docs/a.txt";
  _ ← holds v "archive/a.txt" 8 "two";
  _ ← expect_ok (rename_path v (bytes "archive") (bytes "other/docs"));
  _ ← gone v "archive/a.txt";
  _ ← holds v "other/docs/a.txt" 8 "two";
  _ ← expect_error DirectoryNotEmpty (delete_path v (bytes "other/docs"));
  _ ← expect_ok (delete_path v (bytes "other/docs/a.txt"));
  _ ← gone v "other/docs/a.txt";
  _ ← expect 0 (read_fat_entry v 5);
  _ ← expect_ok (delete_path v (bytes "other/docs"));
  _ ← gone v "other/docs";
  expect 0 (read_fat_entry v 4).

Definition fs_info_free_count_for_test (v : Volume) : Io (option Z) :=
  r ← attempt (read_fs_info v);
  mret (match r with Ok (Some i) => Some (free_count i) | _ => None end).

Definition numbered_leaf (prefix : string) (i : nat) : list byte :=
  bytes prefix ++ [z_byte (48 + Z.of_nat (i / 10)); z_byte (48 + Z.of_nat (i mod 10))] ++ bytes ".txt".
Definition numbered_child_path (dir prefix : string) (i : nat) : list byte :=
  bytes dir ++ SLASH :: numbered_leaf prefix i.

Definition is_next (l : ClusterLink) : bool := match l with Next _ => true | End => false end.

Definition extended (v : Volume) (c : Z) : Io unit :=
  l ← expect_ok (next_cluster v c); ensure (is_next l).

Definition fill (v : Volume) (n : nat) (path : nat → list byte) (data : string) : Io unit :=
  for_each (seq 0 n) (λ i, _ ← expect_ok (create_path_file v (path i) (bytes data)); mret tt).

Definition directory_growth_self_test : Io unit :=
  v ← expect_ok mount;
  initial ← fs_info_free_count_for_test v; initial ← lift (ok_or WriteFailed initial);
  _ ← fill v 18 (numbered_leaf "f") "x";
  _ ← extended v (root_cluster v);
  _ ← holds v "f17.txt" 1 "x";
  _ ← expect_ok (mkdir_path v (bytes "big"));
  _ ← fill v 15 (numbered_child_path "big" "g") "y";
  big ← expect_ok (resolve_path v (bytes "big"));
  _ ← extended v (first_cluster big);
  _ ← holds v "big/g14.txt" 1 "y";
  _ ← expect_ok (mkdir_path v (bytes "dst"));
  _ ← fill v 14 (numbered_child_path "dst" "d") "q";
  _ ← expect_ok (create_path_file v (bytes "move.txt") (bytes "z"));
  _ ← expect_ok (rename_path v (bytes "move.txt") (bytes "dst/move.txt"));
  _ ← gone v "move.txt";
  _ ← holds v "dst/move.txt" 1 "z";
  dst ← expect_ok (resolve_path v (bytes "dst"));
  _ ← extended v (first_cluster dst);
  after ← fs_info_free_count_for_test v; after ← lift (ok_or WriteFailed after);
  _ ← ensure (after =? saturating_sub initial 53);
  _ ← expect_ok (delete_path v (bytes "dst/move.txt"));
  final ← fs_info_free_count_for_test v;
  ensure (bool_decide (final = Some (after + 1))).

(** A directory moved below itself under a name that differs in case only. *)
Definition move_into_itself : Io unit :=
  v ← expect_ok mount;
  _ ← expect_ok (create_path_file v (bytes "docs/a.txt") (bytes "two"));
  _ ← expect_ok (rename_path v (bytes "docs") (bytes "DOCS/x"));
  gone v "docs".
End tests.

(** The first part of the rollback tests runs on the plain disk, the second on
    the disk that fails one write; the last reads go to the disk inside. *)
Definition overwrite_rollback_self_test (d : MutableFatDisk) : bool :=
  match (v ← expect_ok mount; _ ← expect_ok (create_path_file v (bytes "keep.txt") (bytes "old"));
         lba ← expect_ok (lift (cluster_lba v 4)); mret (v, lba)) d with
  | (Ok (v, lba), d) =>
    match expect_error (FBlock DeviceFault) (create_path_file v (bytes "keep.txt") (bytes "new")) (mkFailing d lba false) with
    | (Ok _, fd) => is_ok (fst ((_ ← holds v "keep.txt" 4 "old"; expect 0 (read_fat_entry v 4)) (f_inner fd)))
    | _ => false
    end
  | _ => false
  end.

Definition directory_extension_rollback_self_test (d : MutableFatDisk) : bool :=
  match (v ← expect_ok mount; _ ← fill v 16 (numbered_leaf "r") ""; _ ← expect End (next_cluster v (root_cluster v));
         lba ← expect_ok (lift (cluster_lba v 4)); mret (v, lba)) d with
  | (Ok (v, lba), d) =>
    match expect_error (FBlock DeviceFault) (create_path_file v (bytes "boom.txt") (bytes "new")) (mkFailing d lba false) with
    | (Ok _, fd) =>
      is_ok (fst ((_ ← gone v "boom.txt"; _ ← expect End (next_cluster v (root_cluster v));
                   _ ← expect 0 (read_fat_entry v 3); expect 0 (read_fat_entry v 4)) (f_inner fd)))
    | _ => false
    end
  | _ => false
  end.

Definition passes {D} (m : M D FError unit) (d : D) : bool := is_ok (fst (m d)).

Definition self_test : bool :=
  passes basic_self_test (mkTestDisk true false)
  && passes (expect_error InvalidBootSector mount) (mkTestDisk false false)
  && passes cycle_self_test (mkTestDisk true true)
  && passes root_cycle_self_test (mkRootCycle (mkTestDisk true false))
  && passes range_self_test (mkTestDisk true false)
  && passes streaming_read_self_test Streaming
  && passes mutation_self_test mutable_new
  && passes directory_growth_self_test mutable_new
  && overwrite_rollback_self_test mutable_new
  && directory_extension_rollback_self_test mutable_new.

(** ** The writable disk keeps the device contract *)

Definition mutable_ok (d : MutableFatDisk) : Prop :=
  length (boot d) = SECTOR_SIZE ∧ length (fs_info d) = SECTOR_SIZE ∧ length (backup_fs_info d) = SECTOR_SIZE ∧
  length (fat0 d) = SECTOR_SIZE ∧ length (fat1 d) = SECTOR_SIZE ∧ length (root d) = SECTOR_SIZE ∧
  Forall (λ s, length s = SECTOR_SIZE) (mdata d) ∧ length (mdata d) = 128%nat.

Lemma length_zero : length zero_sector = SECTOR_SIZE.
Proof. apply length_replicate. Qed.

Lemma data_slot_lt lba i : data_slot lba = Some i → (i < 128)%nat ∧ lba = FILE_LBA + Z.of_nat i.
Proof. unfold data_slot. destruct (_ && _) eqn:E; [|done]. apply andb_true_iff in E as [?%Z.leb_le ?%Z.ltb_lt]. intros [= <-]. lia. Qed.

Lemma mutable_sector_length d lba : mutable_ok d → length (mutable_sector d lba) = SECTOR_SIZE.
Proof.
  intros (? & ? & ? & ? & ? & ? & Hd & _). unfold mutable_sector. repeat (case_match; [done|]).
  destruct (data_slot lba) as [i|]; [|apply length_zero].
  destruct (mdata d !! i) eqn:E; [|apply length_zero]. by eapply Forall_lookup_1 in Hd.
Qed.

Lemma mutable_write_law d lba s r d' : mutable_ok d → length s = SECTOR_SIZE → mutable_write lba s d = (r, d') →
  mutable_ok d' ∧ r ≠ Panic ∧
  match r with Ok _ => ∀ l, mutable_sector d' l = if decide (l = lba) then s else mutable_sector d l
             | _ => d' = d end.
Proof.
  destruct d as [b i k f0 f1 rt dt]. intros Hok Hs. unfold mutable_write.
  destruct Hok as (? & ? & ? & ? & ? & ? & Hd & Hl). simpl in *.
  assert (∀ z z' (x y : list byte), (if z =? z' then x else y) = if decide (z = z') then x else y) as Hif.
  { intros z z' x y. destruct (Z.eqb_spec z z'); by case_decide. }
  do 6 (let E := fresh "E" in case_match eqn:E; [apply Z.eqb_eq in E; intros [= <- <-]; split_and!; [by repeat split|done|];
    intros l; unfold mutable_sector; cbn [boot fs_info backup_fs_info fat0 fat1 root mdata]; subst lba; rewrite !Hif;
    unfold FAT_LBA, ROOT_LBA; repeat case_decide; (done || lia)|apply Z.eqb_neq in E]).
  destruct (data_slot lba) as [n|] eqn:En; intros [= <- <-]; [|by repeat split].
  apply data_slot_lt in En as [Hn Elba].
  split_and!; [by repeat split; cbn; [..|apply Forall_insert|rewrite length_insert]|done|].
  intros l. unfold mutable_sector; cbn [boot fs_info backup_fs_info fat0 fat1 root mdata]. rewrite !Hif.
  do 6 (case_decide; [by rewrite decide_False by congruence|]).
  destruct (data_slot l) as [m|] eqn:Em.
  - apply data_slot_lt in Em as [Hm El]. case_decide.
    + assert (m = n) as -> by lia. by rewrite list_lookup_insert_eq by lia.
    + by rewrite list_lookup_insert_ne by lia.
  - rewrite decide_False; [done|]. intros ->. unfold data_slot in Em. rewrite Elba in Em.
    rewrite (proj2 (Z.leb_le _ _)), (proj2 (Z.ltb_lt _ _)) in Em by lia. done.
Qed.

Lemma bad_request_false lba s : bad_request lba s = false → length s = SECTOR_SIZE ∧ lba < TOTAL_SECTORS.
Proof. unfold bad_request. by intros [?%negb_false_iff%Nat.eqb_eq ?%Z.leb_gt]%orb_false_iff. Qed.

#[export] Program Instance MutableFatDisk_laws : BlockDeviceLaws MutableFatDisk := {|
  dev_ok := mutable_ok; dev_view := mutable_sector |}.
Next Obligation. intros d lba Hd _. by apply mutable_sector_length. Qed.
Next Obligation.
  intros d lba buf r buf' d' Hok Hl Hr. cbn [read_sector MutableFatDisk_device] in Hr.
  destruct (bad_request lba buf) eqn:E; simplify_eq; [done|]. apply bad_request_false in E as [Hb Hlt].
  split; [done|]. split; [by rewrite mutable_sector_length|done].
Qed.
Next Obligation.
  intros d lba buf r d' Hok Hl Hr. cbn [write_sector MutableFatDisk_device] in Hr.
  destruct (bad_request lba buf) eqn:E; [by simplify_eq|]. apply bad_request_false in E as [Hb Hlt].
  apply mutable_write_law in Hr as (Hok' & Hp & Hr); [|done..]. destruct r; [by split_and!|by subst|done].
Qed.
Next Obligation. intros d r d' Hok [= <- <-]. done. Qed.
