(* ===== verification/FatChain.v ===== *)
(** * Cluster chains (kernel/src/fat32.rs, the read-only half of the volume)

    A read-only operation on a lawful device is a function of the device's
    contents, up to the faults the device reports: [computes w m r].  The links
    of the allocation table, the chains they form and the cycle guard are
    characterised by that function: [validate_cluster_chain] accepts exactly
    the finite chains. *)
From stdpp Require Import list.
From S2P Require Import Prelude Block Fat.

(** ** The geometry [mount] accepts *)

Definition info_sector_ok (v : Volume) (o : option Z) : Prop :=
  match o with Some lba => 0 < lba < first_fat_sector v | None => True end.

Record geometry (v : Volume) : Prop := {
  geo_spc : 0 < sectors_per_cluster v ≤ 128;
  geo_fat : 0 < first_fat_sector v;
  geo_fats : fat_count v = 1 ∨ fat_count v = 2;
  geo_size : 0 < fat_size v;
  geo_data : first_data_sector v = first_fat_sector v + fat_count v * fat_size v;
  geo_clusters : 0 ≤ cluster_count v;
  geo_total : first_data_sector v + cluster_count v * sectors_per_cluster v ≤ total_sectors v;
  geo_width : total_sectors v < 2 ^ 32;
  geo_root : is_allocatable_cluster v (root_cluster v) = true;
  geo_info : info_sector_ok v (fs_info_sector v);
  geo_backup : info_sector_ok v (backup_fs_info_sector v) }.

Lemma byte_at_bound l i : 0 ≤ byte_at l i < 256.
Proof. apply byte_z_bound. Qed.

Lemma le_slice_bound l off n : 0 ≤ from_le_bytes (slice l off n) < 256 ^ Z.of_nat n.
Proof.
  pose proof (from_le_bytes_bound (slice l off n)) as [H1 H2]. split; [done|].
  eapply Z.lt_le_trans; [exact H2|]. apply Z.pow_le_mono_r; [lia|].
  unfold slice. rewrite length_take. lia.
Qed.
Lemma fat_u16_bound l off : 0 ≤ read_u16 l off < 2 ^ 16.
Proof. exact (le_slice_bound l off 2). Qed.
Lemma fat_u32_bound l off : 0 ≤ read_u32 l off < 2 ^ 32.
Proof. exact (le_slice_bound l off 4). Qed.

Lemma allocatable_spec v c :
  is_allocatable_cluster v c = true ↔ 2 ≤ c < Z.min (cluster_count v + 2) (2 ^ 32 - 1).
Proof. unfold is_allocatable_cluster, saturating_add. rewrite andb_true_iff, Z.leb_le, Z.ltb_lt. done. Qed.

Lemma cluster_lba_spec v c : geometry v →
  cluster_lba v c = if is_allocatable_cluster v c
                    then Ok (first_data_sector v + (c - 2) * sectors_per_cluster v) else Err CorruptChain.
Proof.
  intros G. unfold cluster_lba. destruct (is_allocatable_cluster v c) eqn:Ha.
  - apply allocatable_spec in Ha as Hb. unfold saturating_add.
    rewrite (proj2 (Z.ltb_ge _ _)), (proj2 (Z.leb_gt _ _)) by lia. simpl.
    destruct G. assert ((c - 2) * sectors_per_cluster v ≤ cluster_count v * sectors_per_cluster v) by nia.
    rewrite (proj2 (checked_add_Some _ _ _ _)) by (split; [reflexivity|lia]). done.
  - unfold is_allocatable_cluster in Ha. apply andb_false_iff in Ha as [->%Z.leb_gt%Z.ltb_lt|Ha]; [done|].
    rewrite (proj2 (Z.leb_le _ _)) by lia. by rewrite orb_true_r.
Qed.

(** Every sector of an allocatable cluster lies in the data region. *)
Lemma cluster_inside v c lba : geometry v → cluster_lba v c = Ok lba →
  first_data_sector v ≤ lba ∧ lba + sectors_per_cluster v ≤ total_sectors v.
Proof.
  intros G Hl. rewrite cluster_lba_spec in Hl by done.
  destruct (is_allocatable_cluster v c) eqn:Ha; [|done]. injection Hl as <-.
  apply allocatable_spec in Ha. destruct G. nia.
Qed.

Lemma cluster_lba_range v c : geometry v → (∃ lba, cluster_lba v c = Ok lba) ↔ is_allocatable_cluster v c = true.
Proof. intros G. rewrite cluster_lba_spec by done. destruct (is_allocatable_cluster v c); naive_solver. Qed.

Lemma ok_or_no_panic {A} (e : FError) (o : option A) : ok_or e o ≠ Panic.
Proof. by destruct o. Qed.

(** ** Computations that only read *)

Section view.
Context {D : Type} `{BlockDeviceLaws D}.
Context (w : Z → list byte) (n : Z).
#[local] Set Default Proof Using "All".
Abbreviation Io := (M D FError).

(** The device has [n] sectors whose contents are [w]. *)
Definition shows (d : D) : Prop := dev_ok d ∧ sector_count d = n ∧ ∀ l, dev_view d l = w l.

(** On such a device [m] leaves the contents alone, and has the outcome [r]
    unless the device fails. *)
Definition computes {A} (m : Io A) (r : res FError A) : Prop := ∀ d, shows d →
  ∃ d', shows d' ∧ (m d = (r, d') ∨ ∃ b, m d = (Err (FBlock b), d')).

Lemma computes_lift {A} (r : res FError A) : computes (lift r) r.
Proof. intros d Hd. exists d. by split; [|left]. Qed.
Lemma computes_ret {A} (a : A) : computes (mret a) (Ok a).
Proof. apply (computes_lift (Ok a)). Qed.
Lemma computes_fail {A} e : computes (A:=A) (fail e) (Err e).
Proof. apply (computes_lift (Err e)). Qed.

Lemma computes_bind {A B} (m : Io A) (f : A → Io B) r1 (g : A → res FError B) :
  computes m r1 → (∀ a, r1 = Ok a → computes (f a) (g a)) → computes (m ≫= f) (r1 ≫= g).
Proof.
  intros Hm Hf d Hd. destruct (Hm d Hd) as (d1 & Hd1 & [E|[b E]]); rewrite (bind_run _ _ _ _ _ E).
  - destruct r1; simpl; [by apply Hf|eauto|eauto].
  - eauto.
Qed.
Lemma computes_ok {A B} (m : Io A) (f : A → Io B) a r :
  computes m (Ok a) → computes (f a) r → computes (m ≫= f) r.
Proof. intros Hm Hf. apply (computes_bind m f (Ok a) (λ _, r) Hm). by intros ? [= <-]. Qed.
Lemma computes_err {A B} (m : Io A) (f : A → Io B) e : computes m (Err e) → computes (m ≫= f) (Err e).
Proof. intros Hm. by apply (computes_bind m f (Err e) (λ _, Err e) Hm). Qed.

Lemma computes_guard {B} (b : bool) e (f : unit → Io B) r :
  (b = true → computes (f tt) r) → (b = false → r = Err e) → computes (guard_ok b e ≫= f) r.
Proof.
  destruct b; intros Ht Hf.
  - exact (computes_ok _ _ tt r (computes_ret tt) (Ht eq_refl)).
  - rewrite Hf by done. apply computes_err, computes_fail.
Qed.

Lemma computes_dread lba buf : 0 ≤ lba → computes (dread lba buf) (Ok (w lba)).
Proof.
  intros Hl d (Hok & Hn & Hv). unfold dread. destruct (read_sector lba buf d) as [[r s] d'] eqn:E.
  pose proof (read_law d lba buf r s d' Hok Hl E) as ((Hok' & Hc & _ & Hv') & _ & Hr).
  exists d'. split; [repeat split; [done|congruence|intros; by rewrite Hv', Hv]|].
  destruct r as [?|e|]; [|eauto|done]. left. destruct Hr as (_ & _ & ->). by rewrite Hv.
Qed.

Lemma shows_length d lba : shows d → 0 ≤ lba < n → length (w lba) = SECTOR_SIZE.
Proof. intros (Hok & <- & Hv) Hl. rewrite <-Hv. by apply dev_view_length. Qed.
End view.

(** The state a computation finds is the one it is run on. *)
Lemma shows_self {D} `{BlockDeviceLaws D} (d : D) : dev_ok d → shows (dev_view d) (sector_count d) d.
Proof. by repeat split. Qed.

(** ** Links and chains *)

Section chains.
Context (v : Volume) (w : Z → list byte).

(** The 28-bit table entry stored for a cluster. *)
Definition entry_value (c : Z) : res FError Z :=
  _ ← cluster_lba v c;
  '(sector, off) ← fat_position v c;
  Ok (Z.land (read_u32 (w sector) off) FAT32_ENTRY_MASK).

Definition decode_link (value : Z) : res FError ClusterLink :=
  if FAT32_END_MIN <=? value then Ok End
  else if (value <? 2) || (value =? FAT32_BAD_CLUSTER) then Err CorruptChain
  else _ ← cluster_lba v value; Ok (Next value).

Definition link (c : Z) : res FError ClusterLink := value ← entry_value c; decode_link value.

(** [chain c l]: the links lead from [c] through [l] to an end mark. *)
Inductive chain : Z → list Z → Prop :=
| chain_end c : link c = Ok End → chain c [c]
| chain_next c c' l : link c = Ok (Next c') → chain c' l → chain c (c :: l).

Lemma chain_head c l : chain c l → l !! 0%nat = Some c.
Proof. by destruct 1. Qed.

Lemma chain_unique c l l' : chain c l → chain c l' → l = l'.
Proof.
  intros Hc. revert l'. induction Hc as [c He|c c' l Hn Hc IH]; intros l' Hc'; inversion Hc'; subst; try congruence.
  f_equal. apply IH. congruence.
Qed.

Lemma chain_drop c l i c' : chain c l → l !! i = Some c' → chain c' (drop i l).
Proof.
  intros Hc. revert i. induction Hc as [c He|c c1 l Hn Hc IH]; intros [|i] Hi; simplify_eq/=.
  - by constructor.
  - by econstructor.
  - by apply IH.
Qed.

(** A chain that ends visits no cluster twice. *)
Lemma chain_nodup c l : chain c l → NoDup l.
Proof.
  intros Hc. apply NoDup_alt. intros i j x Hi Hj.
  pose proof (chain_unique _ _ _ (chain_drop _ _ _ _ Hc Hi) (chain_drop _ _ _ _ Hc Hj)) as E.
  apply (f_equal length) in E. rewrite !length_drop in E.
  apply lookup_lt_Some in Hi, Hj. lia.
Qed.

Lemma chain_succ c l i x y : chain c l → l !! i = Some x → l !! S i = Some y → link x = Ok (Next y).
Proof.
  intros Hc Hi Hj. pose proof (chain_drop _ _ _ _ Hc Hi) as Hd.
  rewrite (drop_S _ _ _ Hi) in Hd. inversion Hd as [|? z ? Hn Ht]; subst.
  - apply lookup_lt_Some in Hj. assert (length (drop (S i) l) = 0%nat) as E by (by replace (drop (S i) l) with (@nil Z)).
    rewrite length_drop in E. lia.
  - apply chain_head in Ht. rewrite lookup_drop, Nat.add_0_r in Ht. congruence.
Qed.

Lemma chain_last c l i x : chain c l → l !! i = Some x → l !! S i = None → link x = Ok End.
Proof.
  intros Hc Hi Hj. pose proof (chain_drop _ _ _ _ Hc Hi) as Hd.
  rewrite (drop_S _ _ _ Hi) in Hd. rewrite (drop_ge l (S i)) in Hd by by apply lookup_ge_None in Hj.
  inversion Hd as [|? z ? Hn Ht]; subst; [done|]. by inversion Ht.
Qed.

Lemma link_allocatable c k : geometry v → link c = Ok k → is_allocatable_cluster v c = true.
Proof.
  intros G. unfold link, entry_value. destruct (cluster_lba v c) as [lba| |] eqn:E; [|done|done].
  intros _. apply cluster_lba_range; eauto.
Qed.

Lemma decode_next value c : decode_link value = Ok (Next c) → value = c ∧ ∃ lba, cluster_lba v c = Ok lba.
Proof.
  unfold decode_link. destruct (_ <=? _); [done|]. destruct (_ || _); [done|].
  destruct (cluster_lba v value) eqn:E; [|done|done]. intros [= ->]. eauto.
Qed.

Lemma link_next_allocatable c c' : geometry v → link c = Ok (Next c') → is_allocatable_cluster v c' = true.
Proof.
  intros G. unfold link. destruct (entry_value c) as [value| |]; [|done|done]. simpl.
  intros [_ Hl]%decode_next. by apply cluster_lba_range.
Qed.

Lemma chain_allocatable c l : geometry v → chain c l → Forall (λ x, is_allocatable_cluster v x = true) l.
Proof. intros G. induction 1; constructor; eauto using link_allocatable. Qed.

(** Distinct allocatable clusters number at most [cluster_count]. *)
Lemma nodup_allocatable_length l : geometry v →
  NoDup l → Forall (λ x, is_allocatable_cluster v x = true) l → (length l ≤ clusters_nat v)%nat.
Proof.
  intros G Hn Ha. unfold clusters_nat.
  assert (NoDup ((λ x, Z.to_nat (x - 2)) <$> l)) as Hn'.
  { apply NoDup_fmap_2_strong; [|done]. intros x y Hx Hy E. rewrite Forall_forall in Ha.
    apply Ha, allocatable_spec in Hx. apply Ha, allocatable_spec in Hy. lia. }
  rewrite <-(length_fmap (λ x, Z.to_nat (x - 2)) l).
  rewrite <-(length_seq (Z.to_nat (cluster_count v)) 0). apply submseteq_length, NoDup_submseteq; [done|].
  intros k (x & -> & Hx)%list_elem_of_fmap. rewrite Forall_forall in Ha.
  apply Ha, allocatable_spec in Hx. apply elem_of_seq. destruct G. lia.
Qed.

Lemma chain_length c l : geometry v → chain c l → (length l ≤ clusters_nat v)%nat.
Proof. eauto using nodup_allocatable_length, chain_nodup, chain_allocatable. Qed.
End chains.

(** ** The link reader and the cycle guard on a lawful device *)

Lemma sector_z_eq : sector_z = 512.
Proof. apply SECTOR_SIZE_eq. Qed.

Lemma fat_position_spec v c sector off : geometry v → fat_position v c = Ok (sector, off) →
  sector = first_fat_sector v + c * 4 / 512 ∧ off = Z.to_nat ((c * 4) mod 512) ∧ sector < first_data_sector v.
Proof.
  intros G. unfold fat_position. rewrite sector_z_eq. intros (o & Ho & Hs)%res_bind_Ok_inv.
  apply ok_or_Ok, checked_mul_Some in Ho as [-> _].
  apply res_bind_Ok_inv in Hs as (s & [-> _]%ok_or_Ok%checked_add_Some & Hs).
  destruct (Z.leb_spec (first_data_sector v) (first_fat_sector v + c * 4 / 512)); simplify_eq. done.
Qed.

Lemma fat_sector_nonneg v c : geometry v → is_allocatable_cluster v c = true → 0 ≤ first_fat_sector v + c * 4 / 512.
Proof. intros [] Ha%allocatable_spec. pose proof (Z.div_pos (c * 4) 512). lia. Qed.

Section guard.
Context {D : Type} `{BlockDeviceLaws D} (v : Volume) (G : geometry v).
Context (w : Z → list byte) (n : Z).
#[local] Set Default Proof Using "All".
Abbreviation computes := (computes w n (D:=D)).

Lemma read_fat_entry_computes c : computes (read_fat_entry v c) (entry_value v w c).
Proof.
  unfold read_fat_entry, entry_value. destruct (cluster_lba v c) as [lba|e|] eqn:El.
  1: rewrite cluster_lba_spec in El by done; destruct (is_allocatable_cluster v c) eqn:Ha; [|done].
  all: eapply computes_bind; [apply computes_lift|]; intros ? [= <-].
  eapply computes_bind; [apply computes_lift|]. intros [sector off] E.
  apply fat_position_spec in E as (-> & -> & _); [|done].
  eapply computes_ok; [apply computes_dread; by apply fat_sector_nonneg|]. apply computes_ret.
Qed.

Lemma next_cluster_computes c : computes (next_cluster v c) (link v w c).
Proof.
  unfold next_cluster, link, entry_value. destruct (cluster_lba v c) as [lba|e|] eqn:El.
  1: rewrite cluster_lba_spec in El by done; destruct (is_allocatable_cluster v c) eqn:Ha; [|done].
  2, 3: by (eapply computes_bind with (g := λ _, _); [apply computes_lift|]; intros ? [= <-]).
  eapply computes_ok; [apply computes_lift|]. cbn [mbind res_bind].
  destruct (fat_position v c) as [[sector off]|e|] eqn:E.
  2: apply computes_err, computes_lift.
  2: { apply (computes_bind _ _ _ _ Panic (λ _, Panic)); [apply computes_lift|done]. }
  eapply computes_ok; [apply computes_lift|]. cbn beta iota.
  apply fat_position_spec in E as (-> & -> & _); [|done].
  eapply computes_ok; [apply computes_dread; by apply fat_sector_nonneg|]. cbv zeta.
  cbn [mbind res_bind]. generalize (Z.land (read_u32 (w (first_fat_sector v + c * 4 / 512)) (Z.to_nat ((c * 4) mod 512))) FAT32_ENTRY_MASK) as value.
  intros value. unfold decode_link. destruct (FAT32_END_MIN <=? _); [apply computes_ret|].
  apply computes_guard; [|by intros ->%negb_false_iff].
  intros ->%negb_true_iff. eapply computes_bind; [apply computes_lift|]. intros. apply computes_ret.
Qed.

(** A computation with some outcome on every device that shows [w]: it reads only. *)
Definition readonly {A} (m : M D FError A) : Prop := ∃ r, r ≠ Panic ∧ computes m r.

Lemma readonly_ok {A} (m : M D FError A) r : r ≠ Panic → computes m r → readonly m.
Proof. by exists r. Qed.

Lemma readonly_bind {A B} (m : M D FError A) (f : A → M D FError B) :
  readonly m → (∀ a, readonly (f a)) → readonly (m ≫= f).
Proof.
  intros (r1 & Hp & Hm) Hf. destruct r1 as [a|e|]; [|exists (Err e)|done].
  - destruct (Hf a) as (r & Hr & ?). exists r. split; [done|]. by eapply computes_ok.
  - split; [done|]. by apply computes_err.
Qed.
Lemma readonly_ret {A} (a : A) : readonly (mret a).
Proof. by apply (readonly_ok _ (Ok a)), computes_ret. Qed.
Lemma readonly_lift {A} (r : res FError A) : r ≠ Panic → readonly (lift r).
Proof. intros. by apply (readonly_ok _ r), computes_lift. Qed.
Lemma readonly_guard (b : bool) e : readonly (guard_ok b e).
Proof. destruct b; by apply readonly_lift. Qed.

Lemma link_no_panic c : link v w c ≠ Panic.
Proof.
  unfold link, entry_value, fat_position, decode_link. rewrite cluster_lba_spec by done.
  destruct (is_allocatable_cluster v c); [|done]. simpl.
  destruct (checked_mul 64 c 4); [|done]. simpl. destruct (checked_add 64 _ _); [|done]. simpl.
  case_match; [done|]. simpl. case_match; [done|]. case_match; [done|].
  rewrite cluster_lba_spec by done. by case_match.
Qed.

Lemma next_cluster_readonly c : readonly (next_cluster v c).
Proof. apply (readonly_ok _ _ (link_no_panic c)), next_cluster_computes. Qed.

Lemma once_readonly c : readonly (advance_chain_once v c).
Proof. apply readonly_bind; [apply next_cluster_readonly|]. intros. apply readonly_ret. Qed.

Lemma advance_readonly g : readonly (advance v g).
Proof.
  unfold advance. destruct (negb _); [apply readonly_ret|].
  apply readonly_bind; [apply readonly_lift, ok_or_no_panic|intros k].
  apply readonly_bind; [apply readonly_guard|intros _].
  do 3 (apply readonly_bind; [apply once_readonly|intros [?|]]; [|apply readonly_ret]).
  case_match; [by apply (readonly_lift (Err ChainLoop))|apply readonly_ret].
Qed.

(** ** Validation accepts the finite chains *)

Lemma validate_loop_sound room c g :
  ∃ r, r ≠ Panic ∧ computes (validate_loop v room c g) r ∧ (r = Ok tt → ∃ l, chain v w c l).
Proof.
  revert c g. induction room as [|room IH]; intros c g.
  { exists (Err ChainTooLong). split_and!; [done|apply computes_fail|done]. }
  cbn [validate_loop]. pose proof (next_cluster_computes c) as Hn.
  pose proof (link_no_panic c) as Hp. destruct (link v w c) as [[c'|]|e|] eqn:E; [| | |done].
  - destruct (advance_readonly g) as (rg & Hg & Ha). destruct rg as [g'|e|]; [| |done].
    + destruct (IH c' g') as (r & Hr & Hc & Hs). exists r. split_and!; [done| |].
      * eapply computes_ok; [exact Hn|]. cbn beta iota. by eapply computes_ok.
      * intros ->. destruct (Hs eq_refl) as [l Hl]. exists (c :: l). by econstructor.
    + exists (Err e). split_and!; [done| |done]. eapply computes_ok; [exact Hn|]. by apply computes_err.
  - exists (Ok tt). split_and!; [done| |].
    + eapply computes_ok; [exact Hn|]. apply computes_ret.
    + intros _. exists [c]. by constructor.
  - exists (Err e). split_and!; [done| |done]. by apply computes_err.
Qed.

(** Where the guard stands after [i] steps along the chain [l]. *)
Definition guard_at (l : list Z) (i : nat) (g : ChainCycleGuard) : Prop :=
  active g = false ∨
  (l !! i = Some (tortoise g) ∧ l !! (2 * i)%nat = Some (hare g) ∧ steps g = Z.of_nat i).

Lemma once_computes c0 l i c : chain v w c0 l → l !! i = Some c →
  computes (advance_chain_once v c) (Ok (l !! S i)).
Proof.
  intros Hc Hi. unfold advance_chain_once. pose proof (next_cluster_computes c) as Hn.
  destruct (l !! S i) as [c'|] eqn:E.
  - rewrite (chain_succ _ _ _ _ _ _ _ Hc Hi E) in Hn. eapply computes_ok; [exact Hn|apply computes_ret].
  - rewrite (chain_last _ _ _ _ _ _ Hc Hi E) in Hn. eapply computes_ok; [exact Hn|apply computes_ret].
Qed.

(** The guard never reports a loop on a finite chain: the hare is ahead. *)
Lemma advance_computes c0 l i g : chain v w c0 l → guard_at l i g → (S i < length l)%nat →
  ∃ g', computes (advance v g) (Ok g') ∧ guard_at l (S i) g'.
Proof.
  intros Hc Hg Hi. destruct g as [t h act st]. unfold advance; cbn [tortoise hare active steps] in *.
  destruct act; [|exists (mkGuard t h false st); split; [apply computes_ret|by left]].
  destruct Hg as [|(Ht & Hh & Hst)]; [done|]. cbn [tortoise hare steps negb] in *. subst st.
  pose proof (chain_length v w c0 l G Hc) as Hlen. unfold clusters_nat in Hlen.
  assert (cluster_count v < 2 ^ 32) by (destruct G; nia).
  pose proof (lookup_lt_is_Some_2 l (S i) Hi) as [t' Ht'].
  assert (checked_add 32 (Z.of_nat i) 1 = Some (Z.of_nat i + 1)) as Hadd
    by (apply checked_add_Some; split; [reflexivity|lia]).
  enough (∃ g', computes (
    t0 ← advance_chain_once v t;
    match t0 with
    | None => mret (mkGuard t h false (Z.of_nat i + 1))
    | Some t0 =>
      h1 ← advance_chain_once v h;
      match h1 with
      | None => mret (mkGuard t0 h false (Z.of_nat i + 1))
      | Some h1 =>
        h2 ← advance_chain_once v h1;
        match h2 with
        | None => mret (mkGuard t0 h1 false (Z.of_nat i + 1))
        | Some h2 => if t0 =? h2 then fail ChainLoop else mret (mkGuard t0 h2 true (Z.of_nat i + 1))
        end
      end
    end) (Ok g') ∧ guard_at l (S i) g') as (g' & Hg' & ?).
  { exists g'. split; [|done]. eapply computes_ok; [|cbn beta].
    - rewrite Hadd. apply computes_lift.
    - apply computes_guard; [done|]. intros Hf%negb_false_iff%Z.ltb_lt. lia. }
  pose proof (once_computes _ _ _ _ Hc Ht) as E1. rewrite Ht' in E1.
  pose proof (once_computes _ _ _ _ Hc Hh) as E2. destruct (l !! S (2 * i)) as [h1|] eqn:Eh1.
  2: { eexists. split; [eapply computes_ok; [exact E1|]; cbn beta iota;
       eapply computes_ok; [exact E2|]; apply computes_ret|by left]. }
  pose proof (once_computes _ _ _ _ Hc Eh1) as E3. destruct (l !! S (S (2 * i))) as [h2|] eqn:Eh2.
  2: { eexists. split; [eapply computes_ok; [exact E1|]; cbn beta iota;
       eapply computes_ok; [exact E2|]; cbn beta iota; eapply computes_ok; [exact E3|]; apply computes_ret|by left]. }
  exists (mkGuard t' h2 true (Z.of_nat i + 1)). split.
  - do 3 (eapply computes_ok; [eassumption|]; cbn beta iota).
    destruct (Z.eqb_spec t' h2) as [->|]; [|apply computes_ret]. exfalso.
    pose proof (proj1 (NoDup_alt l) (chain_nodup _ _ _ _ Hc) _ _ _ Ht' Eh2). lia.
  - right. cbn [tortoise hare steps]. split; [done|split; [|lia]].
    by replace (2 * S i)%nat with (S (S (2 * i))) by lia.
Qed.

Lemma validate_loop_complete c0 l room i c g : chain v w c0 l → l !! i = Some c → guard_at l i g →
  (length l ≤ room + i)%nat → computes (validate_loop v room c g) (Ok tt).
Proof.
  intros Hc. revert i c g. induction room as [|room IH]; intros i c g Hi Hg Hr.
  { apply lookup_lt_Some in Hi. lia. }
  cbn [validate_loop]. pose proof (next_cluster_computes c) as Hn. destruct (l !! S i) as [c'|] eqn:E.
  - rewrite (chain_succ _ _ _ _ _ _ _ Hc Hi E) in Hn. eapply computes_ok; [exact Hn|]. cbn beta iota.
    destruct (advance_computes c0 l i g Hc Hg) as (g' & Ha & Hg'); [by apply lookup_lt_Some in E|].
    eapply computes_ok; [exact Ha|]. apply (IH (S i)); [done|done|lia].
  - rewrite (chain_last _ _ _ _ _ _ Hc Hi E) in Hn. eapply computes_ok; [exact Hn|apply computes_ret].
Qed.

Lemma guard_new_at c l : chain v w c l → guard_at l 0 (guard_new c).
Proof. intros Hc%chain_head. right. done. Qed.

Lemma validate_complete start l : chain v w start l → computes (validate_cluster_chain v start) (Ok tt).
Proof.
  intros Hl. eapply (validate_loop_complete start l _ 0); [done|by eapply chain_head|by apply guard_new_at|].
  pose proof (chain_length v w start l G Hl). lia.
Qed.
End guard.

Lemma chain_validate_cases {D} `{BlockDeviceLaws D} v start (d : D) r d' :
  geometry v → dev_ok d → validate_cluster_chain v start d = (r, d') →
  shows (dev_view d) (sector_count d) d' ∧ r ≠ Panic ∧
  (r = Ok tt → ∃ l, chain v (dev_view d) start l) ∧
  ((∃ l, chain v (dev_view d) start l) → r = Ok tt ∨ ∃ b, r = Err (FBlock b)).
Proof.
  intros G Hok E. pose proof (shows_self d Hok) as Hd.
  destruct (validate_loop_sound v G (dev_view d) (sector_count d) (clusters_nat v) start (guard_new start))
    as (r0 & Hp & Hc & Hs).
  unfold validate_cluster_chain in E.
  destruct (Hc d Hd) as (d1 & Hd1 & [E1|[b E1]]); rewrite E in E1; simplify_eq.
  - split_and!; [done|done|done|]. intros [l Hl].
    destruct (validate_complete v G (dev_view d) (sector_count d) start l Hl d Hd) as (d2 & _ & [E2|[b E2]]);
      unfold validate_cluster_chain in E2; rewrite E in E2; simplify_eq; eauto.
  - split_and!; [done|done|done|]. eauto.
Qed.
