(* ===== verification/FatRead.v ===== *)
(** * Reading files (kernel/src/fat32.rs, [read_file_at])

    The contents of a chain are its clusters' sectors in order; a ranged read
    delivers exactly the requested slice of them. *)
From stdpp Require Import list.
From S2P Require Import Prelude Block Fat FatChain.

(** ** Lists cut into sectors *)

Lemma splice_splice_adjacent {A} (l d1 d2 : list A) :
  (length d1 + length d2 ≤ length l)%nat →
  splice (splice l 0 d1) (length d1) d2 = splice l 0 (d1 ++ d2).
Proof.
  intros Hl. apply list_eq. intros i.
  rewrite !lookup_splice; rewrite ?length_splice, ?length_app; try lia.
  case_decide; [case_decide; [|lia]|case_decide; case_decide; try lia; try done].
  - rewrite lookup_app_r by lia. f_equal. lia.
  - rewrite lookup_app_l by lia. f_equal.
Qed.

Lemma splice_nil {A} (l : list A) : splice l 0 [] = l.
Proof. unfold splice. simpl. by rewrite drop_0. Qed.

Section uniform.
Context {A B : Type} (f : A → list B) (size : nat).
#[local] Set Default Proof Using "Type".

(** [size]-byte blocks laid end to end. *)
Definition blocks (l : list A) : list B := concat (map f l).

Lemma length_blocks l : (∀ a, a ∈ l → length (f a) = size) → length (blocks l) = (length l * size)%nat.
Proof.
  unfold blocks. induction l as [|a l IH]; intros Hf; [done|]. simpl.
  rewrite length_app, IH, Hf; [lia|left|]. intros. apply Hf. by right.
Qed.

Lemma slice_block l k a : (∀ a, a ∈ l → length (f a) = size) → l !! k = Some a →
  slice (blocks l) (k * size) size = f a.
Proof.
  revert k. induction l as [|b l IH]; intros k Hf Hk; [done|].
  assert (length (f b) = size) as Hb by (apply Hf; left).
  assert (∀ a, a ∈ l → length (f a) = size) as Hl by (intros; apply Hf; by right).
  unfold blocks in *. cbn [map concat]. destruct k as [|k]; cbn in Hk.
  - injection Hk as ->. unfold slice. rewrite drop_0. by rewrite take_app_length'.
  - unfold slice. rewrite (drop_app_ge (f b)) by lia. rewrite Hb.
    replace (S k * size - size)%nat with (k * size)%nat by lia. exact (IH k Hl Hk).
Qed.

Lemma slice_slice (l : list B) a b s n : (s + n ≤ b)%nat → slice (slice l a b) s n = slice l (a + s) n.
Proof.
  intros. unfold slice. rewrite skipn_firstn_comm, drop_drop. rewrite firstn_firstn. f_equal. lia.
Qed.
End uniform.

(** ** The contents of a chain *)

Definition cluster_base (v : Volume) (c : Z) : Z := first_data_sector v + (c - 2) * sectors_per_cluster v.
Definition cluster_sectors (v : Volume) (c : Z) : list Z := (Z.add (cluster_base v c)) <$> sectors_of_cluster v.
Definition chain_sectors (v : Volume) (l : list Z) : list Z := blocks (cluster_sectors v) l.
Definition chain_data (v : Volume) (w : Z → list byte) (l : list Z) : list byte := blocks w (chain_sectors v l).

Definition spc_nat (v : Volume) : nat := Z.to_nat (sectors_per_cluster v).

Lemma length_cluster_sectors v c : length (cluster_sectors v c) = spc_nat v.
Proof. unfold cluster_sectors, sectors_of_cluster. by rewrite !length_fmap, length_seq. Qed.

Lemma length_chain_sectors v l : length (chain_sectors v l) = (length l * spc_nat v)%nat.
Proof. apply length_blocks. intros. apply length_cluster_sectors. Qed.

Lemma cluster_sectors_elem v c x : x ∈ cluster_sectors v c ↔ cluster_base v c ≤ x < cluster_base v c + sectors_per_cluster v.
Proof.
  unfold cluster_sectors, sectors_of_cluster. rewrite list_elem_of_fmap. setoid_rewrite list_elem_of_fmap.
  setoid_rewrite elem_of_seq. split.
  - intros (y & -> & k & -> & Hk). lia.
  - intros Hx. exists (x - cluster_base v c). split; [lia|]. exists (Z.to_nat (x - cluster_base v c)). lia.
Qed.

Lemma chain_sectors_elem v l x : x ∈ chain_sectors v l ↔ ∃ c, c ∈ l ∧ x ∈ cluster_sectors v c.
Proof.
  unfold chain_sectors, blocks. induction l as [|c l IH]; cbn [map concat].
  - split; [by intros ?%not_elem_of_nil|]. intros (c & ?%not_elem_of_nil & _). done.
  - rewrite elem_of_app, IH. setoid_rewrite elem_of_cons. naive_solver.
Qed.

Lemma cluster_sector_inside v c x : geometry v → is_allocatable_cluster v c = true → x ∈ cluster_sectors v c →
  first_data_sector v ≤ x < total_sectors v.
Proof.
  intros G Ha Hx%cluster_sectors_elem.
  pose proof (cluster_inside v c (cluster_base v c) G) as Hi. rewrite cluster_lba_spec, Ha in Hi by done.
  destruct (Hi eq_refl). lia.
Qed.

Lemma geometry_data_pos v : geometry v → 0 < first_data_sector v.
Proof. intros []. nia. Qed.

Lemma chain_sectors_lookup v l i c j x : l !! i = Some c → sectors_of_cluster v !! j = Some x →
  chain_sectors v l !! (i * spc_nat v + j)%nat = Some (cluster_base v c + x).
Proof.
  intros Hi Hj. assert (j < spc_nat v)%nat.
  { apply lookup_lt_Some in Hj. unfold sectors_of_cluster in Hj. by rewrite length_fmap, length_seq in Hj. }
  rewrite <-(lookup_slice _ _ (spc_nat v)) by done. unfold chain_sectors.
  rewrite (slice_block _ _ _ _ c) by (done || (intros; apply length_cluster_sectors)).
  unfold cluster_sectors. by rewrite list_lookup_fmap, Hj.
Qed.

Lemma sectors_of_cluster_nonneg v : Forall (Z.le 0) (sectors_of_cluster v).
Proof. apply Forall_fmap, Forall_forall. intros. simpl. lia. Qed.
Lemma length_sectors_of_cluster v : length (sectors_of_cluster v) = spc_nat v.
Proof. unfold sectors_of_cluster. by rewrite length_fmap, length_seq. Qed.

Section reading.
Context {D : Type} `{BlockDeviceLaws D} (v : Volume) (G : geometry v).
Context (w : Z → list byte) (n : Z).
Context (Hw : ∀ lba, 0 ≤ lba < n → length (w lba) = SECTOR_SIZE) (Hn : total_sectors v ≤ n).
#[local] Set Default Proof Using "All".
Abbreviation computes := (computes w n (D:=D)).

Lemma allocatable_sector_length l x : Forall (λ c, is_allocatable_cluster v c = true) l →
  x ∈ chain_sectors v l → length (w x) = SECTOR_SIZE.
Proof.
  intros Ha (c & Hc & Hx)%chain_sectors_elem. rewrite Forall_forall in Ha. apply Hw.
  pose proof (cluster_sector_inside v c x G (Ha _ Hc) Hx). pose proof (geometry_data_pos v G). lia.
Qed.

Lemma chain_sector_length c l x : chain v w c l → x ∈ chain_sectors v l → length (w x) = SECTOR_SIZE.
Proof. intros. eapply allocatable_sector_length; [by eapply chain_allocatable|done]. Qed.

Lemma length_chain_data c l : chain v w c l → length (chain_data v w l) = (length l * spc_nat v * SECTOR_SIZE)%nat.
Proof.
  intros Hc. unfold chain_data. rewrite length_blocks with (size := SECTOR_SIZE).
  - by rewrite length_chain_sectors.
  - intros x. by apply (chain_sector_length c).
Qed.

(** The position in the chain after [k] sectors. *)
Section range.
Context (c0 : Z) (l : list Z) (Hc : chain v w c0 l) (offset : Z) (target : nat) (buffer : list byte).
Context (Hoff : 0 ≤ offset) (Hbuf : (target ≤ length buffer)%nat).
Abbreviation data := (chain_data v w l).
Abbreviation off := (Z.to_nat offset).

Definition delivered (k : nat) : list byte := splice buffer 0 (slice data off k).

Definition read_inv (k : nat) (st : ReadState) : Prop :=
  rposition st = Z.of_nat k * sector_z ∧
  copied st = Nat.min target (k * SECTOR_SIZE - off) ∧ rbuffer st = delivered (copied st) ∧
  (k ≤ length (chain_sectors v l))%nat.

Definition read_done (st : ReadState) : Prop := copied st = target ∧ rbuffer st = delivered target ∧
  (off + target ≤ length data)%nat.

Lemma inv_done k st : (target ≠ 0)%nat → read_inv k st → copied st = target → read_done st.
Proof.
  intros Ht (_ & Hc' & Hb & Hk) E. split; [done|]. rewrite E in Hb. split; [done|].
  rewrite (length_chain_data _ _ Hc). rewrite length_chain_sectors in Hk. nia.
Qed.

(** One sector's copy. *)
Lemma delivered_step k sec start count st :
  read_inv k st → chain_sectors v l !! k = Some sec → copied st ≠ target →
  offset < rposition st + sector_z →
  start = Z.to_nat (saturating_sub offset (rposition st)) →
  count = Nat.min (SECTOR_SIZE - start) (target - copied st) →
  read_inv (S k) (mkRead (rposition st + sector_z) (copied st + count)
                    (splice (rbuffer st) (copied st) (slice (w sec) start count)) (w sec)).
Proof.
  intros (Hp & Hcp & Hb & Hk) Hs Hne Hlt -> ->. unfold saturating_sub. rewrite Hp in *.
  pose proof SECTOR_SIZE_eq. unfold sector_z in *. apply lookup_lt_Some in Hs as Hk'.
  set (start := Z.to_nat (Z.max (offset - Z.of_nat k * Z.of_nat SECTOR_SIZE) 0)).
  set (count := Nat.min (SECTOR_SIZE - start) (target - copied st)).
  assert (k * SECTOR_SIZE + start = off + copied st)%nat as Hpos by lia.
  assert (slice (w sec) start count = slice data (off + copied st) count) as Hsl.
  { rewrite <-(slice_block w SECTOR_SIZE (chain_sectors v l) k sec) by
      (done || (intros; by eapply chain_sector_length)).
    rewrite slice_slice by lia. by rewrite Hpos. }
  pose proof (length_chain_data _ _ Hc) as Hlen. rewrite length_chain_sectors in Hk'.
  assert (off + copied st + count ≤ length data)%nat as Hroom by nia.
  unfold read_inv, sector_z. split_and!; cbn [rposition copied rbuffer]; [lia|lia| |rewrite length_chain_sectors; lia].
  rewrite Hsl, Hb. unfold delivered. rewrite slice_app.
  rewrite <-splice_splice_adjacent; rewrite !length_slice by lia; [done|lia].
Qed.

Lemma read_sectors_computes idx lba k st : (target ≠ 0)%nat → read_inv k st →
  (∀ j i, idx !! j = Some i → chain_sectors v l !! (k + j)%nat = Some (lba + i)) → (0 ≤ lba)%Z →
  Forall (Z.le 0) idx →
  ∃ st', computes (read_sectors offset target idx lba st) (Ok st') ∧
    (read_done st' ∨ (read_inv (k + length idx) st' ∧ copied st' ≠ target)).
Proof.
  intros Ht. revert k st. induction idx as [|i idx IH]; intros k st Hinv Hidx Hlba Hpos; cbn [read_sectors].
  { exists st. split; [apply computes_ret|]. destruct (decide (copied st = target)) as [E|].
    - left. by eapply inv_done.
    - right. by rewrite Nat.add_0_r. }
  destruct (Nat.eqb_spec (copied st) target) as [E|Hne].
  { exists st. split; [apply computes_ret|]. left. by eapply inv_done. }
  pose proof (Hidx 0%nat i eq_refl) as Hk. rewrite Nat.add_0_r in Hk.
  apply Forall_cons in Hpos as [Hi Hpos].
  assert (∀ st1, read_inv (S k) (mkRead (rposition st1 + sector_z) (copied st1) (rbuffer st1) (rsector st1)) →
    ∃ st', computes (read_sectors offset target idx lba (mkRead (rposition st1 + sector_z) (copied st1) (rbuffer st1) (rsector st1))) (Ok st') ∧
      (read_done st' ∨ (read_inv (k + length (i :: idx)) st' ∧ copied st' ≠ target))) as Hrest.
  { intros st1 H1. destruct (IH (S k) _ H1) as (st' & Hst & Hd); [|done|done|].
    - intros j i' Hj. specialize (Hidx (S j) i' Hj). by replace (S k + j)%nat with (k + S j)%nat by lia.
    - exists st'. split; [done|]. by replace (k + length (i :: idx))%nat with (S k + length idx)%nat by (simpl; lia). }
  destruct (Z.ltb_spec offset (rposition st + sector_z)) as [Hlt|Hge].
  - pose proof (delivered_step k _ _ _ st Hinv Hk Hne Hlt eq_refl eq_refl) as Hstep.
    destruct (Hrest (mkRead (rposition st) _ _ _) Hstep) as (st' & Hst & Hd). exists st'. split; [|done].
    eapply computes_ok; [|exact Hst]. eapply computes_ok; [apply computes_dread; lia|]. apply computes_ret.
  - destruct (Hrest st) as (st' & Hst & Hd).
    { destruct Hinv as (Hp & Hcp & Hb & Hk'). pose proof SECTOR_SIZE_eq. apply lookup_lt_Some in Hk.
      unfold read_inv, sector_z in *. split_and!; cbn [rposition copied rbuffer]; [lia|lia|done|lia]. }
    exists st'. split; [|done]. eapply computes_ok; [apply computes_ret|exact Hst].
Qed.

Definition read_outcome : res FError unit :=
  if Nat.leb (off + target) (length data) then Ok tt else Err TruncatedFile.

Lemma read_chain_computes room i c g st : (target ≠ 0)%nat → l !! i = Some c → guard_at l i g →
  read_inv (i * spc_nat v) st → (length l ≤ room + i)%nat → copied st ≠ target →
  ∃ r, computes (read_chain v offset target room c g st) r ∧
    match r with Ok st' => read_done st' ∧ read_outcome = Ok tt | Err e => read_outcome = Err e | Panic => False end.
Proof.
  intros Ht. revert i c g st. induction room as [|room IH]; intros i c g st Hi Hg Hinv Hroom Hne.
  { apply lookup_lt_Some in Hi. lia. }
  cbn [read_chain]. assert (copied st < target)%nat as Hlt by (destruct Hinv as (_ & ? & _); lia).
  rewrite (proj2 (Nat.ltb_lt _ _) Hlt). cbn [negb].
  pose proof (proj1 (Forall_lookup _ _) (chain_allocatable v w c0 l G Hc) i c Hi) as Ha. simpl in Ha.
  assert (cluster_lba v c = Ok (cluster_base v c)) as Hlba by by rewrite cluster_lba_spec, Ha.
  assert (0 ≤ cluster_base v c) as Hpos.
  { pose proof (cluster_inside v c _ G Hlba). pose proof (geometry_data_pos v G). lia. }
  destruct (read_sectors_computes (sectors_of_cluster v) (cluster_base v c) _ st Ht Hinv) as (st1 & Hrs & Hst1);
    [intros; by apply chain_sectors_lookup|done|apply sectors_of_cluster_nonneg|].
  rewrite length_sectors_of_cluster in Hst1.
  assert (∀ (r : res FError ReadState), computes (
      if Nat.eqb (copied st1) target then mret st1 else
      k ← next_cluster v c;
      match k with
      | Next c' => g ← advance v g; read_chain v offset target room c' g st1
      | End => fail TruncatedFile
      end) r → computes (
      lba ← lift (cluster_lba v c);
      st ← read_sectors offset target (sectors_of_cluster v) lba st;
      if Nat.eqb (copied st) target then mret st else
      k ← next_cluster v c;
      match k with
      | Next c' => g ← advance v g; read_chain v offset target room c' g st
      | End => fail TruncatedFile
      end) r) as Hgo.
  { intros r Hr. rewrite Hlba. eapply computes_ok; [apply computes_lift|]. eapply computes_ok; [exact Hrs|exact Hr]. }
  destruct (Nat.eqb_spec (copied st1) target) as [E|Hne1].
  { exists (Ok st1). split; [apply Hgo, computes_ret|]. destruct Hst1 as [Hd|[_ ?]]; [|done].
    split; [done|]. destruct Hd as (_ & _ & Hd). unfold read_outcome. by rewrite (proj2 (Nat.leb_le _ _) Hd). }
  destruct Hst1 as [(Hd & _)|[Hinv1 _]]; [done|].
  pose proof (next_cluster_computes v G w n c) as Hnx. destruct (l !! S i) as [c'|] eqn:Hi'.
  - rewrite (chain_succ _ _ _ _ _ _ _ Hc Hi Hi') in Hnx.
    destruct (advance_computes v G w n c0 l i g Hc Hg) as (g' & Hadv & Hg'); [by apply lookup_lt_Some in Hi'|].
    destruct (IH (S i) c' g' st1 Hi' Hg') as (r & Hr & Hm); [|lia|done|].
    { by replace (S i * spc_nat v)%nat with (i * spc_nat v + spc_nat v)%nat by lia. }
    exists r. split; [|done]. apply Hgo. eapply computes_ok; [exact Hnx|]. cbn beta iota.
    eapply computes_ok; [exact Hadv|exact Hr].
  - rewrite (chain_last _ _ _ _ _ _ Hc Hi Hi') in Hnx. exists (Err TruncatedFile). split.
    + apply Hgo. eapply computes_ok; [exact Hnx|apply computes_fail].
    + unfold read_outcome. rewrite (proj2 (Nat.leb_gt _ _)); [done|].
      destruct Hinv1 as (_ & Hcp & _ & _). rewrite (length_chain_data _ _ Hc).
      apply lookup_lt_Some in Hi. apply lookup_ge_None in Hi'.
      assert (length l = S i) as -> by lia. lia.
Qed.
End range.

(** A ranged read's outcome, from the chain's contents. *)
Definition file_target (e : DirectoryEntry) (offset : Z) (buffer : list byte) : nat :=
  Z.to_nat (Z.min (saturating_sub (size e) offset) (Z.of_nat (length buffer))).

Definition file_read_spec (data : list byte) (e : DirectoryEntry) (offset : Z) (buffer : list byte)
    : res FError (nat * list byte) :=
  let target := file_target e offset buffer in
  if Nat.eqb target 0 then Ok (0%nat, buffer)
  else if Nat.leb (Z.to_nat offset + target) (length data)
  then Ok (target, splice buffer 0 (slice data (Z.to_nat offset) target))
  else Err TruncatedFile.

Lemma read_file_at_computes e offset buffer l : chain v w (first_cluster e) l → 0 ≤ offset →
  computes (read_file_at v e offset buffer) (file_read_spec (chain_data v w l) e offset buffer).
Proof.
  intros Hc Hoff. unfold read_file_at, file_read_spec. fold (file_target e offset buffer).
  set (target := file_target e offset buffer). destruct (Nat.eqb_spec target 0) as [_|Ht]; [apply computes_ret|].
  assert (target ≤ length buffer)%nat as Hbuf by (unfold target, file_target; lia).
  pose proof (chain_length v w _ l G Hc).
  destruct (read_chain_computes (first_cluster e) l Hc offset target buffer Hoff Hbuf (clusters_nat v) 0
    (first_cluster e) (guard_new (first_cluster e)) (mkRead 0 0 buffer zero_sector)) as (r & Hr & Hm);
    [done|by eapply chain_head|by eapply guard_new_at| |lia|simpl; lia|].
  { split_and!; cbn [rposition copied rbuffer]; [done|lia|symmetry; apply splice_nil|lia]. }
  unfold read_outcome in Hm. destruct (Nat.leb _ _); destruct r as [st|e'|]; try done; try naive_solver.
  - destruct Hm as ((E1 & E2 & _) & _). rewrite <-E1 at 2. unfold delivered in E2. rewrite <-E2.
    eapply computes_ok; [exact Hr|]. apply computes_ret.
  - injection Hm as <-. by apply computes_err.
Qed.
End reading.
