(* ===== verification/FatSafe.v ===== *)
(** * FAT32 operations stay inside the volume (kernel/src/fat32.rs)

    [safe P m Q]: run on a lawful device, [m] does not panic, changes only
    sectors in [P] whatever errors the device reports, and a value it returns
    satisfies [Q].  Every operation of the file system is shown safe for the
    volume's own sectors: its table, its data and its FSInfo sectors. *)
From stdpp Require Import list.
From S2P Require Import Prelude Block Fat FatChain FatDir.

Section triples.
Context {D : Type} `{BlockDeviceLaws D}.
#[local] Set Default Proof Using "All".
Abbreviation Io := (M D FError).

(** [d'] is [d] but for the sectors in [P]. *)
Definition touches (P : Z → Prop) (d d' : D) : Prop :=
  dev_ok d' ∧ sector_count d' = sector_count d ∧ ∀ l, ¬ P l → dev_view d' l = dev_view d l.

Lemma touches_refl P d : dev_ok d → touches P d d.
Proof. by repeat split. Qed.
Lemma touches_trans P d1 d2 d3 : touches P d1 d2 → touches P d2 d3 → touches P d1 d3.
Proof.
  intros (_ & Hc & Hv) (Hok & Hc' & Hv'). split_and!; [done|congruence|]. intros l Hl. by rewrite Hv', Hv.
Qed.
Lemma touches_weaken (P P' : Z → Prop) d d' : (∀ l, P l → P' l) → touches P d d' → touches P' d d'.
Proof. intros HP (Hok & Hc & Hv). split_and!; [done..|]. intros l Hl. apply Hv. auto. Qed.

Definition safe (P : Z → Prop) {Er A} (m : M D Er A) (Q : A → Prop) : Prop := ∀ d, dev_ok d →
  touches P d (snd (m d)) ∧ fst (m d) ≠ Panic ∧ ∀ a, fst (m d) = Ok a → Q a.

Context (P : Z → Prop) (Ppos : ∀ l, P l → 0 ≤ l).
#[local] Set Default Proof Using "Type".

Lemma safe_ret {Er A} (a : A) (Q : A → Prop) : Q a → safe P (Er := Er) (mret a) Q.
Proof. intros HQ d Hd. split_and!; [by apply touches_refl|done|by intros ? [= <-]]. Qed.

Lemma safe_lift {Er A} (r : res Er A) (Q : A → Prop) : r ≠ Panic → (∀ a, r = Ok a → Q a) → safe P (lift r) Q.
Proof. intros Hr HQ d Hd. split_and!; [by apply touches_refl|done|done]. Qed.

Lemma safe_ok_or {Er A} (e : Er) (o : option A) : safe P (lift (ok_or e o)) (λ a, o = Some a).
Proof. apply safe_lift; [by destruct o|]. by intros a ?%ok_or_Ok. Qed.

Lemma safe_fail {Er A} (e : Er) (Q : A → Prop) : safe P (fail e) Q.
Proof. by apply (safe_lift (Err e)). Qed.

Lemma safe_seq {Er A B} (m : M D Er A) (f : A → M D Er B) (Q : A → Prop) (R : B → Prop) :
  safe P m Q → (∀ a, Q a → safe P (f a) R) → safe P (m ≫= f) R.
Proof.
  intros Hm Hf d Hd. destruct (Hm d Hd) as (Ht & Hp & HQ). destruct (m d) as [r d1] eqn:E. simpl in *.
  rewrite (bind_run _ _ _ _ _ E). destruct r as [a|e|]; simpl; [|by split_and!|done].
  destruct (Hf a (HQ a eq_refl) d1) as (Ht' & Hp' & HR); [by destruct Ht|].
  split_and!; [by eapply touches_trans|done|done].
Qed.

Lemma safe_consequence {Er A} (m : M D Er A) (Q R : A → Prop) : safe P m Q → (∀ a, Q a → R a) → safe P m R.
Proof. intros Hm HQ d Hd. destruct (Hm d Hd) as (? & ? & ?). split_and!; auto. Qed.

Lemma safe_any {Er A} (m : M D Er A) (Q : A → Prop) : safe P m Q → safe P m (λ _, True).
Proof. intros Hm. by eapply safe_consequence. Qed.

Lemma safe_guard {Er} (b : bool) (e : Er) : safe P (guard_ok b e) (λ _, b = true).
Proof. destruct b; [by apply safe_ret|apply safe_fail]. Qed.

Lemma safe_dread lba buf (Q : list byte → Prop) : 0 ≤ lba → (∀ s, Q s) → safe P (dread lba buf) Q.
Proof.
  intros Hl HQ d Hok. unfold dread. destruct (read_sector lba buf d) as [[r s] d'] eqn:E.
  pose proof (read_law d lba buf r s d' Hok Hl E) as ((Hok' & Hc & _ & Hv) & _ & Hr).
  assert (touches P d d') by by split_and!. by destruct r; split_and!.
Qed.

Lemma safe_dwrite lba s : P lba → safe P (dwrite lba s) (λ _, True).
Proof using Ppos.
  intros Hl d Hok. unfold dwrite. destruct (write_sector lba s d) as [r d'] eqn:E.
  pose proof (write_law d lba s r d' Hok (Ppos _ Hl) E) as (Hok' & Hc & _ & Hr).
  assert (touches P d d').
  { split_and!; [done..|]. intros l Hnl. assert (l ≠ lba) by by intros ->.
    destruct r; [destruct Hr as (_ & _ & _ & ->); by rewrite decide_False|by apply Hr|done]. }
  by destruct r; split_and!.
Qed.

Lemma safe_ignored {A} (m : Io A) (Q : A → Prop) : safe P m Q → safe P (ignored m) (λ _, True).
Proof.
  intros Hm d Hd. destruct (Hm d Hd) as (Ht & Hp & _). unfold ignored.
  destruct (m d) as [[]]; by split_and!.
Qed.

Lemma safe_or_cleanup {A} (m : Io A) cleanup (Q : A → Prop) (R : unit → Prop) :
  safe P m Q → safe P cleanup R → safe P (or_cleanup m cleanup) Q.
Proof.
  intros Hm Hc d Hd. destruct (Hm d Hd) as (Ht & Hp & HQ). unfold or_cleanup.
  destruct (m d) as [r d1]. simpl in *. destruct r as [a|e|]; [by split_and!| |done].
  destruct (safe_seq cleanup (λ _, fail e) R Q Hc) with (d := d1) as (Ht' & Hp' & HQ');
    [intros; apply safe_fail|by destruct Ht|].
  split_and!; [by eapply touches_trans|done|done].
Qed.

Lemma safe_on_error {A} e (m h : Io A) (Q : A → Prop) : safe P m Q → safe P h Q → safe P (on_error e m h) Q.
Proof.
  intros Hm Hh d Hd. destruct (Hm d Hd) as (Ht & Hp & HQ). unfold on_error.
  destruct (m d) as [r d1]. simpl in *. destruct r as [a|e'|]; [by split_and!| |done].
  case_decide; [|by split_and!]. destruct (Hh d1) as (? & ? & ?); [by destruct Ht|].
  split_and!; [by eapply touches_trans|done|done].
Qed.

Lemma safe_for_each {A} (l : list A) (f : A → Io unit) :
  (∀ a, a ∈ l → safe P (f a) (λ _, True)) → safe P (for_each l f) (λ _, True).
Proof.
  induction l as [|a l IH]; intros Hf; [by apply safe_ret|]. simpl.
  eapply safe_seq; [apply Hf; left|]. intros _ _. apply IH. intros. apply Hf. by right.
Qed.

Lemma safe_computes {A} (m : Io A) (Q : A → Prop) :
  (∀ d, dev_ok d → ∃ r, r ≠ Panic ∧ computes (dev_view d) (sector_count d) m r ∧ ∀ a, r = Ok a → Q a) → safe P m Q.
Proof.
  intros Hm d Hd. destruct (Hm d Hd) as (r & Hr & Hc & HQ).
  destruct (Hc d (shows_self d Hd)) as (d' & (Hok & Hn & Hv) & [E|[b E]]); rewrite E; by split_and!.
Qed.
Lemma safe_readonly {A} (m : Io A) : (∀ d, dev_ok d → readonly (dev_view d) (sector_count d) m) → safe P m (λ _, True).
Proof. intros Hm. apply safe_computes. intros d Hd. destruct (Hm d Hd) as (r & ? & ?). by exists r. Qed.
End triples.

(** ** The volume's sectors *)

Definition volume_sector (v : Volume) (l : Z) : Prop :=
  first_fat_sector v ≤ l < total_sectors v ∨ fs_info_sector v = Some l ∨ backup_fs_info_sector v = Some l.

Definition info_sector (v : Volume) (l : Z) : Prop :=
  fs_info_sector v = Some l ∨ backup_fs_info_sector v = Some l.

Lemma volume_sector_pos v l : geometry v → volume_sector v l → 0 < l.
Proof.
  intros G Hl. pose proof (geo_fat v G). pose proof (geo_info v G). pose proof (geo_backup v G).
  unfold info_sector_ok in *. destruct Hl as [?|[E|E]]; rewrite ?E in *; lia.
Qed.
Lemma info_sector_pos v l : geometry v → info_sector v l → 0 < l < first_fat_sector v.
Proof.
  intros G Hl. pose proof (geo_info v G). pose proof (geo_backup v G).
  unfold info_sector_ok in *. destruct Hl as [E|E]; rewrite ?E in *; lia.
Qed.

Section ops.
Context {D : Type} `{BlockDeviceLaws D} (v : Volume) (G : geometry v).
#[local] Set Default Proof Using "All".
Abbreviation Io := (M D FError).
Abbreviation safe_info := (safe (D:=D) (info_sector v)).
Abbreviation safe_vol := (safe (D:=D) (volume_sector v)).

Lemma safe_weaken {A} (m : Io A) Q : safe_info m Q → safe_vol m Q.
Proof.
  intros Hm d Hd. destruct (Hm d Hd) as (Ht & ? & ?). split_and!; [|done|done].
  eapply touches_weaken; [|exact Ht]. intros l Hl. by right.
Qed.

Lemma info_pos l : info_sector v l → 0 ≤ l.
Proof. intros Hl%info_sector_pos; [lia|done]. Qed.
Lemma vol_pos l : volume_sector v l → 0 ≤ l.
Proof. intros Hl%volume_sector_pos; [lia|done]. Qed.

Lemma safe_read P lba buf : 0 ≤ lba → safe (D:=D) P (dread lba buf) (λ _, True).
Proof. intros. by apply safe_dread. Qed.
Lemma safe_write lba s : volume_sector v lba → safe_vol (dwrite lba s) (λ _, True).
Proof. apply safe_dwrite, vol_pos. Qed.

(** *** FSInfo *)

Lemma read_fs_info_safe P : safe (D:=D) P (read_fs_info v) (λ _, True).
Proof.
  unfold read_fs_info. destruct (fs_info_sector v) as [lba|] eqn:E; [|by apply safe_ret].
  eapply safe_seq; [apply (safe_read _ lba), info_pos; by left|]. intros s _. by apply safe_ret.
Qed.

Lemma write_fs_info_sector_safe lba i : info_sector v lba → safe_info (write_fs_info_sector lba i) (λ _, True).
Proof.
  intros Hl. unfold write_fs_info_sector. eapply safe_seq; [by apply safe_read, info_pos|]. intros s _.
  case_match; [|by apply safe_ret]. by apply safe_dwrite; [apply info_pos|].
Qed.

Lemma write_fs_info_safe i : safe_info (write_fs_info v i) (λ _, True).
Proof.
  unfold write_fs_info. eapply safe_seq with (Q := λ _, True).
  - case_match; [by apply write_fs_info_sector_safe; left|by apply safe_ret].
  - intros _ _. case_match; [by apply write_fs_info_sector_safe; right|by apply safe_ret].
Qed.

Lemma update_after_alloc_safe c : safe_info (update_fs_info_after_alloc v c) (λ _, True).
Proof.
  unfold update_fs_info_after_alloc. eapply safe_seq; [apply read_fs_info_safe|]. intros [i|] _; [|by apply safe_ret].
  apply write_fs_info_safe.
Qed.
Lemma update_after_free_safe freed c : safe_info (update_fs_info_after_free v freed c) (λ _, True).
Proof.
  unfold update_fs_info_after_free. eapply safe_seq; [apply read_fs_info_safe|]. intros [i|] _; [|by apply safe_ret].
  apply write_fs_info_safe.
Qed.

Lemma next_free_hint_safe : safe_info (fs_info_next_free_hint v) (λ _, True).
Proof.
  intros d Hd. destruct (read_fs_info_safe (info_sector v) d Hd) as (Ht & Hp & _). unfold fs_info_next_free_hint.
  destruct (read_fs_info v d) as [[[i|]|e|] d']; by split_and!.
Qed.

(** *** The table *)

Lemma lba_allocatable c lba : cluster_lba v c = Ok lba → is_allocatable_cluster v c = true.
Proof. intros. by apply cluster_lba_range; [|exists lba]. Qed.

Lemma cluster_lba_no_panic c : cluster_lba v c ≠ Panic.
Proof. rewrite cluster_lba_spec by done. by case_match. Qed.

Lemma safe_cluster_lba P c : safe (D:=D) P (lift (cluster_lba v c)) (λ lba, cluster_lba v c = Ok lba).
Proof. apply safe_lift; [apply cluster_lba_no_panic|done]. Qed.

Lemma write_fat_copy_safe c value fat : is_allocatable_cluster v c = true → 0 ≤ fat →
  safe_vol (write_fat_copy v c value fat) (λ _, True).
Proof.
  intros Ha%allocatable_spec Hf. unfold write_fat_copy. rewrite sector_z_eq.
  eapply safe_seq; [apply safe_ok_or|]. intros off [-> _]%checked_mul_Some.
  eapply safe_seq; [apply safe_ok_or|]. intros base [-> _]%checked_add_Some.
  eapply safe_seq; [apply safe_ok_or|]. intros sector [-> _]%checked_add_Some.
  eapply safe_seq; [apply safe_guard|]. intros _ Hlt%Z.ltb_lt.
  pose proof (Z.div_pos (c * 4) 512). destruct G.
  eapply safe_seq; [apply safe_read; nia|]. intros s _. apply safe_write. left. nia.
Qed.

Lemma fat_copies_elem f : f ∈ fat_copies v ↔ 0 ≤ f < fat_count v.
Proof.
  unfold fat_copies. rewrite list_elem_of_fmap. setoid_rewrite elem_of_seq. split.
  - intros (k & -> & Hk). lia.
  - intros Hf. exists (Z.to_nat f). lia.
Qed.

Lemma write_fat_entry_safe c value : safe_vol (write_fat_entry v c value) (λ _, True).
Proof.
  unfold write_fat_entry. eapply safe_seq; [apply safe_cluster_lba|]. intros lba Ha%lba_allocatable.
  apply safe_for_each. intros f Hf%fat_copies_elem. apply write_fat_copy_safe; [done|lia].
Qed.

Lemma read_fat_entry_safe P c : safe (D:=D) P (read_fat_entry v c) (λ _, is_allocatable_cluster v c = true).
Proof.
  apply safe_computes. intros d Hd. exists (entry_value v (dev_view d) c). split_and!; [|by apply read_fat_entry_computes|].
  - unfold entry_value, fat_position. rewrite cluster_lba_spec by done. case_match; [|done]. simpl.
    destruct (checked_mul 64 c 4); [|done]. simpl. destruct (checked_add 64 _ _); [|done]. simpl. by case_match.
  - intros a. unfold entry_value. rewrite cluster_lba_spec by done. by case_match.
Qed.

Definition link_target_ok (l : ClusterLink) : Prop :=
  match l with Next c => is_allocatable_cluster v c = true | End => True end.

Lemma next_cluster_safe P c : safe (D:=D) P (next_cluster v c) link_target_ok.
Proof.
  apply safe_computes. intros d Hd. exists (link v (dev_view d) c). split_and!; [|by apply next_cluster_computes|].
  - exact (link_no_panic v G (dev_view d) (sector_count d) c).
  - intros [c'|]; [|done]. by apply link_next_allocatable.
Qed.

Lemma advance_safe P g : safe (D:=D) P (advance v g) (λ _, True).
Proof. apply safe_readonly. intros. by apply advance_readonly. Qed.

Lemma validate_safe P c : safe (D:=D) P (validate_cluster_chain v c) (λ _, True).
Proof.
  apply safe_computes. intros d Hd. unfold validate_cluster_chain.
  destruct (validate_loop_sound v G (dev_view d) (sector_count d) (clusters_nat v) c (guard_new c)) as (r & ? & ? & ?).
  by exists r.
Qed.

(** *** Allocation *)

Abbreviation allocatable := (λ c, is_allocatable_cluster v c = true).

Lemma allocate_loop_safe k c : safe_vol (allocate_loop v k c) allocatable.
Proof.
  revert c. induction k as [|k IH]; intros c; [apply safe_fail|]. cbn [allocate_loop].
  eapply safe_seq; [apply read_fat_entry_safe|]. intros e Ha. case_match; [|apply IH].
  eapply safe_seq; [apply write_fat_entry_safe|]. intros _ _.
  eapply safe_seq; [eapply safe_ignored, safe_weaken, update_after_alloc_safe|]. intros _ _. by apply safe_ret.
Qed.

Lemma allocate_cluster_safe : safe_vol (allocate_cluster v) allocatable.
Proof.
  unfold allocate_cluster, allocate_cluster_in_range. eapply safe_seq; [apply safe_ok_or|]. intros m _.
  eapply safe_seq; [apply safe_weaken, next_free_hint_safe|]. intros start _. cbv zeta.
  apply safe_on_error; [apply allocate_loop_safe|]. case_match; [apply allocate_loop_safe|apply safe_fail].
Qed.

Lemma free_loop_safe room start c freed : safe_vol (free_loop v room start c freed) (λ _, True).
Proof.
  revert c freed. induction room as [|room IH]; intros c freed; [apply safe_fail|]. cbn [free_loop]. cbv zeta.
  eapply safe_seq; [apply next_cluster_safe|]. intros l _.
  eapply safe_seq; [apply write_fat_entry_safe|]. intros _ _.
  case_match; [apply IH|]. eapply safe_ignored, safe_weaken, update_after_free_safe.
Qed.

Lemma free_cluster_chain_safe c : safe_vol (free_cluster_chain v c) (λ _, True).
Proof.
  unfold free_cluster_chain. case_match; [by apply safe_ret|].
  eapply safe_seq; [apply validate_safe|]. intros _ _. apply free_loop_safe.
Qed.

Lemma free_if_safe (b : bool) c : safe_vol (if b then ignored (free_cluster_chain v c) else mret tt) (λ _, True).
Proof. destruct b; [eapply safe_ignored, free_cluster_chain_safe|by apply safe_ret]. Qed.

Lemma allocate_more_safe k first prev : safe_vol (allocate_more v k first prev) (λ _, True).
Proof.
  revert prev. induction k as [|k IH]; intros prev; [by apply safe_ret|]. cbn [allocate_more]. cbv zeta.
  eapply safe_seq; [eapply safe_or_cleanup; [apply allocate_cluster_safe|apply free_if_safe]|]. intros c _.
  eapply safe_seq; [eapply safe_or_cleanup; [apply write_fat_entry_safe|]|intros _ _; apply IH].
  eapply safe_seq; [eapply safe_ignored, free_cluster_chain_safe|]. intros _ _. apply free_if_safe.
Qed.

Lemma allocate_file_chain_safe k : safe_vol (allocate_file_chain v k) (λ _, True).
Proof.
  destruct k as [|k]; [by apply safe_ret|]. cbn [allocate_file_chain].
  eapply safe_seq; [apply allocate_cluster_safe|]. intros c _. apply allocate_more_safe.
Qed.

(** *** Data *)

(** The sectors of a cluster the code has checked. *)
Lemma checked_sector c lba i : cluster_lba v c = Ok lba → i ∈ sectors_of_cluster v → volume_sector v (lba + i).
Proof.
  intros Hl Hi. left. pose proof (cluster_inside v c lba G Hl). unfold sectors_of_cluster in Hi.
  apply list_elem_of_fmap in Hi as (k & -> & Hk%elem_of_seq). destruct G. nia.
Qed.

Lemma checked_base c lba : cluster_lba v c = Ok lba → volume_sector v lba.
Proof. intros Hl. left. pose proof (cluster_inside v c lba G Hl). destruct G. nia. Qed.

Lemma zero_cluster_safe c : safe_vol (zero_cluster v c) (λ _, True).
Proof.
  unfold zero_cluster. eapply safe_seq; [apply safe_cluster_lba|]. intros base Hb.
  apply safe_for_each. intros i Hi. apply safe_write. exact (checked_sector _ _ _ Hb Hi).
Qed.

Lemma write_sectors_safe idx lba data : (∀ i, i ∈ idx → volume_sector v (lba + i)) →
  safe_vol (write_sectors idx lba data) (λ _, True).
Proof.
  revert data. induction idx as [|i idx IH]; intros data Hi; [by apply safe_ret|]. cbn [write_sectors].
  eapply safe_seq; [apply safe_write, Hi; left|]. intros _ _. apply IH. intros. apply Hi. by right.
Qed.

Lemma write_data_loop_safe room c data : safe_vol (write_data_loop v room c data) (λ _, True).
Proof.
  revert c data. induction room as [|room IH]; intros c [|b data]; cbn [write_data_loop];
    [by apply safe_ret|apply safe_fail|by apply safe_ret|].
  eapply safe_seq; [apply safe_cluster_lba|]. intros lba Hl.
  eapply safe_seq; [apply write_sectors_safe; intros i Hi; exact (checked_sector _ _ _ Hl Hi)|]. intros [|b' rest] _; [by apply safe_ret|].
  eapply safe_seq; [apply next_cluster_safe|]. intros [n|] _; [apply IH|apply safe_fail].
Qed.

Lemma write_file_data_chain_safe first data : safe_vol (write_file_data_chain v first data) (λ _, True).
Proof.
  unfold write_file_data_chain. destruct data; [by apply safe_ret|].
  case_match; [apply safe_fail|apply write_data_loop_safe].
Qed.

Lemma read_sectors_safe P offset target idx lba st : (∀ i, i ∈ idx → 0 ≤ lba + i) →
  safe (D:=D) P (read_sectors offset target idx lba st) (λ _, True).
Proof.
  revert st. induction idx as [|i idx IH]; intros st Hi; [by apply safe_ret|]. cbn [read_sectors].
  case_match; [by apply safe_ret|]. eapply safe_seq with (Q := λ _, True).
  - case_match; [|by apply safe_ret]. eapply safe_seq; [apply safe_read, Hi; left|]. intros. by apply safe_ret.
  - intros st' _. apply IH. intros. apply Hi. by right.
Qed.

Lemma read_chain_safe P offset target room c g st : safe (D:=D) P (read_chain v offset target room c g st) (λ _, True).
Proof.
  revert c g st. induction room as [|room IH]; intros c g st; cbn [read_chain];
    (case_match; [by apply safe_ret|]); [apply safe_fail|].
  eapply safe_seq; [apply safe_cluster_lba|]. intros lba Hl.
  eapply safe_seq; [apply read_sectors_safe; intros i Hi; exact (vol_pos _ (checked_sector _ _ _ Hl Hi))|]. intros st' _.
  case_match; [by apply safe_ret|]. eapply safe_seq; [apply next_cluster_safe|]. intros [n|] _; [|apply safe_fail].
  eapply safe_seq; [apply advance_safe|]. intros g' _. apply IH.
Qed.

Lemma read_file_at_safe P e offset buf : safe (D:=D) P (read_file_at v e offset buf) (λ _, True).
Proof.
  unfold read_file_at. case_match; [by apply safe_ret|].
  eapply safe_seq; [apply read_chain_safe|]. intros st _. by apply safe_ret.
Qed.

(** The scan of the table always moves on: the fuel does not run out. *)
Lemma space_loop_safe P fuel c endc free buf : endc - c ≤ Z.of_nat fuel →
  safe (D:=D) P (space_loop v fuel c endc free buf) (λ _, True).
Proof.
  revert c free buf. induction fuel as [|fuel IH]; intros c free buf Hf; cbn [space_loop];
    (case_match; [by apply safe_ret|]). { apply Z.leb_gt in H1. lia. }
  eapply safe_seq; [apply safe_cluster_lba|]. intros lba Ha%lba_allocatable.
  eapply safe_seq with (Q := λ p, fat_position v c = Ok p).
  { apply safe_lift; [|done]. unfold fat_position. destruct (checked_mul 64 c 4); [|done]. simpl.
    destruct (checked_add 64 _ _); [|done]. simpl. by case_match. }
  intros [sector off] (-> & _ & _)%fat_position_spec; [|done].
  eapply safe_seq; [by apply safe_read, fat_sector_nonneg|]. intros s _. cbv zeta.
  eapply safe_seq; [apply safe_guard|]. intros _ Hlt%negb_true_iff%Z.leb_gt. apply IH. lia.
Qed.

Lemma space_info_safe P : safe (D:=D) P (space_info v) (λ _, True).
Proof.
  unfold space_info. cbv zeta. eapply safe_seq; [apply safe_ok_or|]. intros endc [-> _]%checked_add_Some.
  eapply safe_seq; [apply space_loop_safe; unfold clusters_nat; lia|]. intros free _.
  eapply safe_seq; [apply read_fs_info_safe|]. intros i _. by apply safe_ret.
Qed.
End ops.
