(* ===== verification/FatDirSafe.v ===== *)
(** * Directory operations stay inside the volume (kernel/src/fat32.rs)

    The triples of [FatSafe] for the directory scans and the path operations:
    no call panics, and none writes outside the volume's own sectors, whatever
    the directory contains and whatever errors the device reports. *)
From stdpp Require Import list.
From S2P Require Import Prelude Block VfsPath Fat FatChain FatDir FatSafe.

(** ** Scans, which write nothing of their own

    [P] is what the visitor of a scan may write; with no visitor it is empty. *)
Section reading.
Context {D : Type} `{BlockDeviceLaws D} (v : Volume) (G : geometry v) (P : Z → Prop).
#[local] Set Default Proof Using "All".
Abbreviation Io := (M D FError).
Abbreviation safe_vol := (safe (D:=D) P).
Abbreviation any := (λ _, True).

Lemma each_or {A} (b : bool) (m1 m2 : Io A) (Q : A → Prop) :
  (b = true → safe_vol m1 Q) → (b = false → safe_vol m2 Q) → safe_vol (if b then m1 else m2) Q.
Proof. destruct b; auto. Qed.

Lemma read_safe lba buf : volume_sector v lba → safe_vol (dread lba buf) any.
Proof. intros Hl. apply (safe_read v G), (vol_pos v G lba Hl). Qed.

Section scans.
Context {A R : Type} (I : A → Prop) (Q : R → Prop).

Definition walked_ok (w : walked A R) : Prop := match w with More a => I a | Done r => Q r end.

Lemma each_entry_safe (f : nat → A → Io (walked A R)) offs a :
  (∀ off a, I a → safe_vol (f off a) walked_ok) → I a → safe_vol (each_entry f offs a) walked_ok.
Proof.
  intros Hf. revert a. induction offs as [|off offs IH]; intros a Ha; cbn [each_entry]; [by apply safe_ret|].
  eapply safe_seq; [by apply Hf|]. intros [a'|r] Hw; [by apply IH|by apply safe_ret].
Qed.

Lemma each_sector_safe (f : Z → list byte → A → Io (walked A R)) idx base buf a :
  (∀ lba s a, volume_sector v lba → I a → safe_vol (f lba s a) walked_ok) → I a →
  (∀ i, i ∈ idx → volume_sector v (base + i)) →
  safe_vol (each_sector f idx base buf a) (λ p, walked_ok (snd p)).
Proof.
  intros Hf. revert buf a. induction idx as [|i idx IH]; intros buf a Ha Hi; cbn [each_sector]; [by apply safe_ret|].
  assert (volume_sector v (base + i)) as Hv by (apply Hi; left).
  eapply safe_seq; [by apply read_safe|]. intros s _.
  eapply safe_seq; [by apply Hf|]. intros [a'|r] Hw; [|by apply safe_ret].
  apply IH; [done|]. intros. apply Hi. by right.
Qed.

Lemma walk_safe (f : Z → list byte → A → Io (walked A R)) finish room visited c buf a :
  (∀ lba s a, volume_sector v lba → I a → safe_vol (f lba s a) walked_ok) →
  (∀ c a, I a → safe_vol (finish c a) Q) → I a →
  safe_vol (walk v f finish room visited c buf a) Q.
Proof.
  intros Hf Hfin. revert visited c buf a. induction room as [|room IH]; intros visited c buf a Ha; cbn [walk]; [apply safe_fail|].
  apply each_or; intros _; [apply safe_fail|].
  eapply safe_seq; [by apply safe_cluster_lba|]. intros base Hb.
  eapply safe_seq; [apply each_sector_safe; [done|done|intros i Hi; exact (checked_sector v G _ _ _ Hb Hi)]|].
  intros [buf' [a'|r]] Hw; simpl in Hw; [|by apply safe_ret].
  eapply safe_seq; [by apply next_cluster_safe|]. intros [n|] _; [by apply IH|by apply Hfin].
Qed.

Lemma walk_directory_safe (f : Z → list byte → A → Io (walked A R)) finish dir a :
  (∀ lba s a, volume_sector v lba → I a → safe_vol (f lba s a) walked_ok) →
  (∀ c a, I a → safe_vol (finish c a) Q) → I a →
  safe_vol (walk_directory v f finish dir a) Q.
Proof. apply walk_safe. Qed.
End scans.

Lemma scan_no_panic s short : scan_directory_sector s short ≠ Panic.
Proof.
  unfold scan_directory_sector. generalize entry_offsets as offs. induction offs as [|off offs IH]; [done|].
  cbn [scan_directory_offsets]. by repeat case_match.
Qed.

Lemma entry_from_sector_no_panic s off : directory_entry_from_sector s off ≠ Panic.
Proof. unfold directory_entry_from_sector. by case_match. Qed.

Lemma safe_entry s off : safe_vol (lift (directory_entry_from_sector s off)) any.
Proof. apply safe_lift; [apply entry_from_sector_no_panic|done]. Qed.

Lemma find_in_directory_safe dir short : safe_vol (find_in_directory v dir short) any.
Proof.
  unfold find_in_directory. apply (walk_directory_safe any any); [|intros; apply safe_fail|done].
  intros lba s a _ _. eapply safe_seq; [apply (safe_lift _ _ any); [apply scan_no_panic|done]|].
  intros [e| |] _; [by apply safe_ret|by apply safe_ret|apply safe_fail].
Qed.

Lemma for_each_entry_safe {A} dir (f : DirectoryEntry → A → Io A) a :
  (∀ e a, safe_vol (f e a) any) → safe_vol (for_each_directory_entry v dir f a) any.
Proof.
  intros Hf. unfold for_each_directory_entry. apply (walk_directory_safe any any); [|intros; by apply safe_ret|done].
  intros lba s a' _ _. apply each_entry_safe; [|done]. intros off b _. cbv zeta.
  do 2 (apply each_or; intros _; [by apply safe_ret|]).
  eapply safe_seq; [apply safe_entry|]. intros e _.
  eapply safe_seq; [apply Hf|]. intros b' _. by apply safe_ret.
Qed.

Lemma list_directory_safe dir capacity : safe_vol (list_directory v dir capacity) any.
Proof. apply for_each_entry_safe. intros e a. case_match; [by apply safe_ret|apply safe_fail]. Qed.

Lemma resolve_parts_safe parts c cur : safe_vol (resolve_parts v parts c cur) any.
Proof.
  revert c cur. induction parts as [|p parts IH]; intros c cur; cbn [resolve_parts].
  { eapply safe_any, safe_ok_or. }
  eapply safe_seq; [apply safe_ok_or|]. intros short _.
  eapply safe_seq; [apply find_in_directory_safe|]. intros e _. destruct parts; [apply IH|].
  eapply safe_seq; [apply safe_guard|]. intros _ _. apply IH.
Qed.

Lemma path_parts_no_panic limit bad l acc : path_parts limit bad l acc ≠ Panic.
Proof. revert acc. induction l as [|c l IH]; intros acc; [done|]. cbn [path_parts]. by repeat case_match. Qed.

Lemma safe_parts limit bad l acc : safe_vol (lift (path_parts limit bad l acc)) any.
Proof. apply safe_lift; [apply path_parts_no_panic|done]. Qed.

Lemma resolve_path_safe path : safe_vol (resolve_path v path) any.
Proof.
  unfold resolve_path. cbv zeta. eapply safe_seq; [apply safe_guard|]. intros _ _.
  eapply safe_seq; [apply safe_parts|]. intros parts _.
  eapply safe_seq; [apply safe_guard|]. intros _ _. apply resolve_parts_safe.
Qed.

Lemma check_tree_safe levels dir r : safe_vol (check_directory_tree v levels dir r) any.
Proof.
  revert dir r. induction levels as [|levels IH]; intros dir r; cbn [check_directory_tree];
    (apply (walk_directory_safe any any); [|intros; by apply safe_ret|done]);
    intros lba s r' _ _; (apply each_entry_safe; [|done]); intros off r1 _; cbv zeta;
    (do 3 (apply each_or; intros _; [by apply safe_ret|]));
    (eapply safe_seq; [apply safe_entry|]; intros e _);
    (apply each_or; intros _; [by apply safe_ret|]);
    (apply each_or; intros _; [eapply safe_seq; [by apply validate_safe|]; intros _ _|]).
  1: by apply safe_ret.
  2: eapply safe_seq; [apply IH|intros r2 _; by apply safe_ret].
  all: eapply safe_seq with (Q := any); [apply each_or; intros _; [by apply validate_safe|by apply safe_ret]|].
  all: intros _ _; by apply safe_ret.
Qed.

Lemma check_volume_safe : safe_vol (check_volume v) any.
Proof.
  unfold check_volume. eapply safe_seq; [by apply safe_cluster_lba|]. intros _ _.
  eapply safe_seq; [by apply validate_safe|]. intros _ _.
  eapply safe_seq; [by apply space_info_safe|]. intros s _. apply check_tree_safe.
Qed.

End reading.

Section directories.
Context {D : Type} `{BlockDeviceLaws D} (v : Volume) (G : geometry v).
#[local] Set Default Proof Using "All".
Abbreviation Io := (M D FError).
Abbreviation safe_vol := (safe (D:=D) (volume_sector v)).
Abbreviation any := (λ _, True).

(** ** Slots *)

Definition slot_ok (r : Reservation) : Prop := volume_sector v (res_lba r).

Lemma extend_safe last : safe_vol (extend_directory_chain v last) slot_ok.
Proof.
  unfold extend_directory_chain. eapply safe_seq; [by apply allocate_cluster_safe|]. intros c _.
  eapply safe_seq; [eapply safe_or_cleanup; [by apply zero_cluster_safe|]; by eapply safe_ignored, free_cluster_chain_safe|].
  intros _ _.
  eapply safe_seq; [eapply safe_or_cleanup; [by apply write_fat_entry_safe|]; by eapply safe_ignored, free_cluster_chain_safe|].
  intros _ _. eapply safe_seq; [by apply safe_cluster_lba|]. intros lba Hl. apply safe_ret. exact (checked_base v G _ _ Hl).
Qed.

Lemma rollback_slot_safe r : safe_vol (rollback_reserved_slot v r) any.
Proof.
  unfold rollback_reserved_slot. destruct (extension r); [|by apply safe_ret].
  eapply safe_ignored. unfold rollback_directory_extension.
  eapply safe_seq; [by apply write_fat_entry_safe|]. intros _ _. by apply free_cluster_chain_safe.
Qed.

Lemma find_slot_safe dir short : safe_vol (find_directory_slot v dir short) slot_ok.
Proof.
  unfold find_directory_slot.
  set (I := λ d : option (Z * nat), match d with Some (l, _) => volume_sector v l | None => True end).
  apply (walk_directory_safe v G _ I slot_ok); [| |done].
  - intros lba s d Hl Hd. apply (each_entry_safe v G _); [|done]. intros off d' Hd'. cbv zeta.
    apply (each_or v G _); intros _. { destruct d' as [[l o]|]; by apply safe_ret. }
    apply (each_or v G _); intros _. { apply safe_ret. by destruct d'. }
    apply (each_or v G _); intros _; [by apply safe_ret|]. apply (each_or v G _); intros _; by apply safe_ret.
  - intros c [[l o]|] Hd; [by apply safe_ret|apply extend_safe].
Qed.

Definition found_ok (s : DirectorySlot) : Prop := volume_sector v (slot_lba s).

Lemma find_existing_safe dir short : safe_vol (find_existing_directory_slot v dir short) found_ok.
Proof.
  unfold find_existing_directory_slot.
  apply (walk_directory_safe v G _ any found_ok); [|intros; apply safe_fail|done].
  intros lba s d Hl _. apply (each_entry_safe v G _); [|done]. intros off [] _. cbv zeta.
  apply (each_or v G _); intros _; [apply safe_fail|]. do 2 (apply (each_or v G _); intros _; [by apply safe_ret|]).
  apply (each_or v G _); intros _; [|by apply safe_ret]. eapply safe_seq; [apply (safe_entry v G _)|]. intros e _. by apply safe_ret.
Qed.

Lemma is_empty_safe dir : safe_vol (directory_is_empty v dir) any.
Proof.
  unfold directory_is_empty. apply (walk_directory_safe v G _ any any); [|intros; by apply safe_ret|done].
  intros lba s d _ _. apply (each_entry_safe v G _); [|done]. intros off [] _. cbv zeta.
  do 4 (apply (each_or v G _); intros _; [by apply safe_ret|]). by apply safe_ret.
Qed.

Lemma edit_safe lba f : volume_sector v lba → safe_vol (edit_sector lba f) any.
Proof.
  intros Hl. unfold edit_sector. eapply safe_seq; [by apply (read_safe v G _)|]. intros s _. by apply safe_write.
Qed.

Lemma update_dotdot_safe dir parent : safe_vol (update_dotdot v dir parent) any.
Proof.
  unfold update_dotdot. eapply safe_seq; [by apply safe_cluster_lba|]. intros base Hb%(checked_base v G).
  eapply safe_seq; [by apply (read_safe v G _)|]. intros s _. case_match; [by apply safe_write|apply safe_fail].
Qed.

(** ** Paths *)

Lemma create_file_safe dir name data : safe_vol (create_file_in_directory v dir name data) any.
Proof.
  unfold create_file_in_directory. cbv zeta. eapply safe_seq; [apply safe_ok_or|]. intros short _.
  eapply safe_seq; [apply safe_guard|]. intros _ _.
  eapply safe_seq; [apply find_slot_safe|]. intros slot Hs.
  eapply safe_seq with (Q := any).
  { destruct (existing slot); [|by apply safe_ret]. eapply safe_seq; [apply safe_guard|]. intros _ _.
    eapply safe_seq with (Q := any); [apply (each_or v G _); intros _; [by apply validate_safe|by apply safe_ret]|].
    intros _ _. by apply safe_ret. }
  intros old _. eapply safe_seq; [eapply safe_or_cleanup; [by apply allocate_file_chain_safe|apply rollback_slot_safe]|].
  intros first _. eapply safe_seq.
  { eapply safe_or_cleanup; [by apply write_file_data_chain_safe|].
    eapply safe_seq; [by apply free_if_safe|]. intros _ _. apply rollback_slot_safe. }
  intros _ _. eapply safe_seq.
  { eapply safe_or_cleanup; [by apply edit_safe|].
    eapply safe_seq; [by apply free_if_safe|]. intros _ _. apply rollback_slot_safe. }
  intros _ _. destruct old; [|by apply safe_ret].
  apply (each_or v G _); intros _; [by apply free_cluster_chain_safe|by apply safe_ret].
Qed.

Lemma create_dir_safe parent name : safe_vol (create_directory_in v parent name) any.
Proof.
  unfold create_directory_in. cbv zeta. eapply safe_seq; [apply safe_ok_or|]. intros short _.
  eapply safe_seq; [apply find_slot_safe|]. intros slot Hs. destruct (existing slot).
  { apply (each_or v G _); intros _; [by apply safe_ret|apply safe_fail]. }
  eapply safe_seq; [eapply safe_or_cleanup; [by apply allocate_cluster_safe|apply rollback_slot_safe]|]. intros c _.
  assert (safe_vol (_ ← ignored (free_cluster_chain v c); rollback_reserved_slot v slot) any) as Hundo.
  { eapply safe_seq; [by eapply safe_ignored, free_cluster_chain_safe|]. intros _ _. apply rollback_slot_safe. }
  eapply safe_seq; [eapply safe_or_cleanup; [by apply zero_cluster_safe|exact Hundo]|]. intros _ _.
  eapply safe_seq; [eapply safe_or_cleanup; [by apply safe_cluster_lba|exact Hundo]|]. intros base Hb%(checked_base v G).
  eapply safe_seq; [eapply safe_or_cleanup; [by apply safe_write|exact Hundo]|]. intros _ _.
  eapply safe_seq; [eapply safe_or_cleanup; [by apply edit_safe|exact Hundo]|]. intros _ _. by apply safe_ret.
Qed.

Lemma mkdir_parts_safe l c : safe_vol (mkdir_parts v l c) any.
Proof.
  revert c. induction l as [|p l IH]; intros c; cbn [mkdir_parts]; [by apply safe_ret|].
  apply (each_or v G _); intros _; [apply IH|]. eapply safe_seq; [apply safe_guard|]. intros _ _.
  eapply safe_seq; [apply safe_ok_or|]. intros short _. eapply safe_seq with (Q := any); [|intros; apply IH].
  apply safe_on_error; [|apply create_dir_safe]. eapply safe_seq; [apply (find_in_directory_safe v G _)|]. intros e _.
  eapply safe_seq; [apply safe_guard|]. intros _ _. by apply safe_ret.
Qed.

Lemma mkdir_path_safe path : safe_vol (mkdir_path v path) any.
Proof. unfold mkdir_path. cbv zeta. apply (each_or v G _); intros _; [by apply safe_ret|apply mkdir_parts_safe]. Qed.

Lemma resolve_parents_safe l create c : safe_vol (resolve_parents v l create c) any.
Proof.
  revert c. induction l as [|p l IH]; intros c; cbn [resolve_parents]; [by apply safe_ret|].
  eapply safe_seq; [apply safe_ok_or|]. intros short _. eapply safe_seq with (Q := any).
  { apply safe_on_error; [|apply (each_or v G _); intros _; [by apply safe_ret|apply safe_fail]].
    eapply safe_seq; [apply (find_in_directory_safe v G _)|]. intros e _. by apply safe_ret. }
  intros found _. eapply safe_seq with (Q := any); [|intros; apply IH].
  destruct found; [|apply create_dir_safe]. eapply safe_seq; [apply safe_guard|]. intros _ _. by apply safe_ret.
Qed.

Lemma resolve_parent_cluster_safe path create : safe_vol (resolve_parent_cluster v path create) any.
Proof.
  unfold resolve_parent_cluster. cbv zeta. eapply safe_seq; [apply safe_guard|]. intros _ _.
  eapply safe_seq; [apply (safe_parts v G _)|]. intros parts _.
  do 2 (eapply safe_seq; [apply safe_ok_or|]; intros ? _).
  eapply safe_seq; [apply resolve_parents_safe|]. intros c _. by apply safe_ret.
Qed.

Lemma create_path_file_safe path data : safe_vol (create_path_file v path data) any.
Proof.
  unfold create_path_file. eapply safe_seq; [apply resolve_parent_cluster_safe|]. intros [p l] _. apply create_file_safe.
Qed.

Lemma delete_path_safe path : safe_vol (delete_path v path) any.
Proof.
  unfold delete_path. cbv zeta. eapply safe_seq; [apply safe_guard|]. intros _ _.
  eapply safe_seq; [apply resolve_parent_cluster_safe|]. intros [p l] _.
  eapply safe_seq; [apply safe_ok_or|]. intros short _.
  eapply safe_seq; [apply find_existing_safe|]. intros slot Hs.
  eapply safe_seq; [apply safe_guard|]. intros _ _. eapply safe_seq with (Q := any).
  { apply (each_or v G _); intros _; [|apply (each_or v G _); intros _; [by apply validate_safe|by apply safe_ret]].
    eapply safe_seq; [apply is_empty_safe|]. intros b _.
    eapply safe_seq; [apply safe_guard|]. intros _ _. by apply validate_safe. }
  intros _ _. eapply safe_seq; [by apply edit_safe|]. intros _ _.
  apply (each_or v G _); intros _; [by apply free_cluster_chain_safe|by apply safe_ret].
Qed.

Lemma move_entry_safe old p np short : found_ok old → safe_vol (move_entry v old p np short) any.
Proof.
  intros Ho. unfold move_entry. cbv zeta. eapply safe_seq; [apply find_slot_safe|]. intros slot Hs.
  eapply safe_seq; [apply safe_guard|]. intros _ _.
  assert (safe_vol (ignored (mark_directory_entry_deleted (res_lba slot) (res_offset slot))) any) as Hmark
    by by eapply safe_ignored, edit_safe.
  eapply safe_seq; [eapply safe_or_cleanup; [by apply edit_safe|apply rollback_slot_safe]|]. intros _ _.
  eapply safe_seq with (Q := any).
  { apply (each_or v G _); intros _; [|by apply safe_ret]. eapply safe_or_cleanup; [apply update_dotdot_safe|].
    eapply safe_seq; [exact Hmark|]. intros _ _. apply rollback_slot_safe. }
  intros _ _. eapply safe_or_cleanup; [by apply edit_safe|].
  eapply safe_seq; [exact Hmark|]. intros _ _. eapply safe_seq with (Q := any).
  { apply (each_or v G _); intros _; [eapply safe_ignored, update_dotdot_safe|by apply safe_ret]. }
  intros _ _. apply rollback_slot_safe.
Qed.

Lemma rename_path_safe old new : safe_vol (rename_path v old new) any.
Proof.
  unfold rename_path. cbv zeta. eapply safe_seq; [apply safe_guard|]. intros _ _.
  eapply safe_seq; [apply resolve_parent_cluster_safe|]. intros [p l] _.
  eapply safe_seq; [apply safe_ok_or|]. intros short _.
  eapply safe_seq; [apply find_existing_safe|]. intros slot Hs.
  do 3 (eapply safe_seq; [apply safe_guard|]; intros _ _).
  eapply safe_seq; [apply resolve_parent_cluster_safe|]. intros [np nl] _.
  eapply safe_seq; [apply safe_ok_or|]. intros nshort _.
  apply (each_or v G _); intros _; [by apply safe_ret|]. eapply safe_seq with (Q := any).
  { apply safe_on_error; [|by apply safe_ret]. eapply safe_seq; [apply find_existing_safe|]. intros ? _. apply safe_fail. }
  intros _ _. apply (each_or v G _); intros _; [by apply edit_safe|by apply move_entry_safe].
Qed.
End directories.
