(* ===== verification/FatAlloc.v ===== *)
(** * Writing the allocation table (kernel/src/fat32.rs)

    The table as a map from clusters to 28-bit entries: what each operation
    that returns [Ok] changes in it.  [table_ok] is the part of the FAT32
    format that [mount] does not check: the table has an entry for every
    cluster, and no cluster number is one of the reserved marks. *)
From stdpp Require Import list gmap.
From S2P Require Import Prelude Block Fat FatChain FatDir FatSafe.

(** ** 32-bit fields in a sector *)

Lemma length_write_u32 s off z : (off + 4 ≤ length s)%nat → length (write_u32 s off z) = length s.
Proof. intros. unfold write_u32. apply length_splice. by rewrite length_to_le_bytes. Qed.

Lemma read_write_u32 s off z : (off + 4 ≤ length s)%nat → in_width 32 z → read_u32 (write_u32 s off z) off = z.
Proof.
  intros Hl Hz. unfold read_u32, write_u32.
  rewrite <-(length_to_le_bytes 4 z) at 2. rewrite slice_splice_same by by rewrite length_to_le_bytes.
  rewrite from_to_le_bytes. apply Z.mod_small. exact Hz.
Qed.

Lemma read_write_u32_disjoint s off z i : (off + 4 ≤ length s)%nat → (i + 4 ≤ off ∨ off + 4 ≤ i)%nat →
  read_u32 (write_u32 s off z) i = read_u32 s i.
Proof.
  intros Hl Hd. unfold read_u32, write_u32. by rewrite slice_splice_disjoint; rewrite ?length_to_le_bytes.
Qed.

(** The new word: the reserved high bits stay, the entry is replaced. *)
Definition merge (existing value : Z) : Z :=
  Z.lor (Z.land existing (bnot 32 FAT32_ENTRY_MASK)) (Z.land value FAT32_ENTRY_MASK).

Lemma mask_ones : FAT32_ENTRY_MASK = Z.ones 28.
Proof. reflexivity. Qed.

Lemma merge_land e value : Z.land (merge e value) FAT32_ENTRY_MASK = Z.land value FAT32_ENTRY_MASK.
Proof.
  unfold merge, bnot. rewrite mask_ones. change (2 ^ 32 - 1) with (Z.ones 32).
  apply Z.bits_inj'; intros k Hk. rewrite !Z.land_spec, Z.lor_spec, !Z.land_spec, Z.lxor_spec.
  destruct (Z.ltb_spec k 28).
  - rewrite !Z.ones_spec_low by lia. by destruct (Z.testbit e k), (Z.testbit value k).
  - rewrite (Z.ones_spec_high 28) by lia. by rewrite !andb_false_r.
Qed.

Lemma merge_high e value : in_width 32 e → Z.land (merge e value) (bnot 32 FAT32_ENTRY_MASK) = Z.land e (bnot 32 FAT32_ENTRY_MASK).
Proof.
  intros He. unfold merge, bnot. rewrite mask_ones. change (2 ^ 32 - 1) with (Z.ones 32).
  apply Z.bits_inj'; intros k Hk. rewrite !Z.land_spec, Z.lor_spec, !Z.land_spec, Z.lxor_spec.
  destruct (Z.ltb_spec k 28).
  - rewrite !Z.ones_spec_low by lia. by rewrite !andb_false_r.
  - rewrite (Z.ones_spec_high 28) by lia. by destruct (Z.testbit e k), (Z.testbit (Z.ones 32) k), (Z.testbit value k).
Qed.

Lemma merge_width e value : in_width 32 e → in_width 32 (merge e value).
Proof.
  intros He. assert (merge e value = Z.land (merge e value) (Z.ones 32)) as ->.
  { unfold merge, bnot. rewrite mask_ones. change (2 ^ 32 - 1) with (Z.ones 32).
    apply Z.bits_inj'; intros k Hk. rewrite !Z.land_spec, Z.lor_spec, !Z.land_spec, Z.lxor_spec.
    destruct (Z.ltb_spec k 32).
    - rewrite (Z.ones_spec_low 32) by lia. by rewrite andb_true_r.
    - by rewrite !Z.ones_spec_high, !andb_false_r by lia. }
  rewrite Z.land_ones by lia. apply Z.mod_pos_bound. lia.
Qed.

(** ** The table *)

Definition table_ok (v : Volume) : Prop :=
  cluster_count v + 2 ≤ fat_size v * 128 ∧ cluster_count v + 2 ≤ FAT32_BAD_CLUSTER.

(** Where copy [fat] keeps the word of cluster [c]. *)
Definition fat_sector (v : Volume) (fat c : Z) : Z := first_fat_sector v + fat * fat_size v + c * 4 / 512.
Definition fat_off (c : Z) : nat := Z.to_nat ((c * 4) mod 512).
Definition fat_word (v : Volume) (w : Z → list byte) (fat c : Z) : Z := read_u32 (w (fat_sector v fat c)) (fat_off c).
Definition entry (v : Volume) (w : Z → list byte) (c : Z) : Z := Z.land (fat_word v w 0 c) FAT32_ENTRY_MASK.

Lemma fat_off_fits c : (fat_off c + 4 ≤ 512)%nat.
Proof.
  unfold fat_off. replace (c * 4) with (4 * c) by lia. change 512 with (4 * 128) at 1.
  rewrite Z.mul_mod_distr_l by lia. pose proof (Z.mod_pos_bound c 128). lia.
Qed.

Lemma fat_place c : c * 4 / 512 = c / 128 ∧ (c * 4) mod 512 = 4 * (c mod 128).
Proof.
  replace (c * 4) with (4 * c) by lia. change 512 with (4 * 128).
  by rewrite Z.div_mul_cancel_l, Z.mul_mod_distr_l by lia.
Qed.

Section table.
Context (v : Volume) (G : geometry v) (T : table_ok v).
#[local] Set Default Proof Using "All".
Implicit Types w : Z → list byte.

Lemma fat_sector_bounds fat c : 0 ≤ fat < fat_count v → is_allocatable_cluster v c = true →
  first_fat_sector v ≤ fat_sector v fat c < first_data_sector v.
Proof.
  intros Hf Ha%allocatable_spec. unfold fat_sector. destruct (fat_place c) as [-> _].
  destruct G, T as [T1 _]. assert (c / 128 < fat_size v) by (apply Z.div_lt_upper_bound; lia).
  pose proof (Z.div_pos c 128). nia.
Qed.

(** Different words do not overlap. *)
Lemma fat_separate fat c fat' c' : 0 ≤ fat → 0 ≤ fat' →
  is_allocatable_cluster v c = true → is_allocatable_cluster v c' = true → (fat, c) ≠ (fat', c') →
  fat_sector v fat c ≠ fat_sector v fat' c' ∨ (fat_off c + 4 ≤ fat_off c' ∨ fat_off c' + 4 ≤ fat_off c)%nat.
Proof.
  intros Hf Hf' Ha%allocatable_spec Ha'%allocatable_spec Hne. unfold fat_sector, fat_off.
  destruct (fat_place c) as [-> ->], (fat_place c') as [-> ->]. destruct G, T as [T1 _].
  assert (c / 128 < fat_size v) by (apply Z.div_lt_upper_bound; lia).
  assert (c' / 128 < fat_size v) by (apply Z.div_lt_upper_bound; lia).
  pose proof (Z.div_pos c 128). pose proof (Z.div_pos c' 128).
  pose proof (Z.div_mod c 128). pose proof (Z.div_mod c' 128).
  pose proof (Z.mod_pos_bound c 128). pose proof (Z.mod_pos_bound c' 128).
  destruct (decide (fat = fat')) as [->|]; [|left; nia].
  assert (c ≠ c') by congruence. destruct (decide (c / 128 = c' / 128)) as [E|]; [|left; lia].
  right. lia.
Qed.

Lemma entry_value_spec w c : is_allocatable_cluster v c = true → entry_value v w c = Ok (entry v w c).
Proof.
  intros Ha. unfold entry_value. rewrite cluster_lba_spec, Ha by done. cbn [mbind res_bind].
  pose proof (fat_sector_bounds 0 c) as Hb. unfold fat_position. rewrite sector_z_eq.
  pose proof Ha as Hc%allocatable_spec. unfold fat_sector in Hb.
  rewrite (proj2 (checked_mul_Some 64 c 4 _)) by (split; [reflexivity|lia]). cbn [ok_or mbind res_bind].
  assert (1 ≤ fat_count v) by (destruct G; lia). destruct (Hb ltac:(lia) Ha) as [Hb1 Hb2].
  assert (first_data_sector v < 2 ^ 32) by (destruct G; nia).
  rewrite (proj2 (checked_add_Some 64 _ _ _)) by (split; [reflexivity|lia]). cbn [ok_or mbind res_bind].
  rewrite (proj2 (Z.leb_gt _ _)) by lia. cbn [mbind res_bind]. unfold entry, fat_word, fat_sector, fat_off.
  do 4 f_equal. lia.
Qed.

Lemma link_entry w c : is_allocatable_cluster v c = true → link v w c = decode_link v (entry v w c).
Proof. intros Ha. unfold link. by rewrite entry_value_spec. Qed.

Lemma decode_link_cluster c : is_allocatable_cluster v c = true → decode_link v c = Ok (Next c).
Proof.
  intros Ha. unfold decode_link. rewrite cluster_lba_spec, Ha by done. apply allocatable_spec in Ha.
  destruct T as [_ T2]. unfold FAT32_BAD_CLUSTER, FAT32_END_MIN in *.
  rewrite (proj2 (Z.leb_gt _ _)), (proj2 (Z.ltb_ge _ _)), (proj2 (Z.eqb_neq _ _)) by lia. done.
Qed.

Lemma land_mask_small z : 0 ≤ z < 2 ^ 28 → Z.land z FAT32_ENTRY_MASK = z.
Proof. intros. rewrite mask_ones, Z.land_ones by lia. by apply Z.mod_small. Qed.

(** ** Updates of the table *)

(** [w'] is [w] with the entries [m] written and nothing else of the table or
    the data region changed. *)
Definition updates w w' (m : gmap Z Z) : Prop :=
  (∀ c, is_allocatable_cluster v c = true → entry v w' c = default (entry v w c) (m !! c)) ∧
  ∀ l, first_data_sector v ≤ l → w' l = w l.

Lemma updates_refl w w' : (∀ l, first_fat_sector v ≤ l → w' l = w l) → updates w w' ∅.
Proof.
  intros Hw. split.
  - intros c Ha. rewrite lookup_empty. cbn [from_option Datatypes.id]. unfold entry, fat_word. rewrite Hw; [done|].
    apply fat_sector_bounds; [destruct G; lia|done].
  - intros l Hl. apply Hw. destruct G. nia.
Qed.

Lemma updates_trans w1 w2 w3 m1 m2 : updates w1 w2 m1 → updates w2 w3 m2 → updates w1 w3 (m2 ∪ m1).
Proof.
  intros [H1 D1] [H2 D2]. split.
  - intros c Ha. rewrite H2, lookup_union, H1 by done. by destruct (m2 !! c), (m1 !! c).
  - intros l Hl. by rewrite D2, D1.
Qed.

Lemma updates_link w w' m c : updates w w' m → is_allocatable_cluster v c = true →
  link v w' c = match m !! c with Some z => decode_link v z | None => link v w c end.
Proof.
  intros [Hu _] Ha. rewrite link_entry, Hu by done. destruct (m !! c); [done|]. by rewrite link_entry.
Qed.

(** A chain that avoids the written entries is still the same chain. *)
Lemma updates_chain w w' m c l : updates w w' m → (∀ x, x ∈ l → m !! x = None) → chain v w c l → chain v w' c l.
Proof.
  intros Hu Hm Hc. induction Hc as [c He|c c' l Hn Hc IH].
  - constructor. rewrite (updates_link _ _ _ _ Hu) by by eapply link_allocatable. rewrite Hm; [done|left].
  - apply chain_next with c'.
    + rewrite (updates_link _ _ _ _ Hu) by by eapply link_allocatable. rewrite Hm; [done|left].
    + apply IH. intros. apply Hm. by right.
Qed.
End table.

(** ** The writing operations, when they succeed *)

Section runs.
Context {D : Type} `{BlockDeviceLaws D}.
#[local] Set Default Proof Using "All".
Abbreviation Io := (M D FError).
Implicit Types d : D.

(** [m] returned [a]; the device went from [d] to [d']. *)
Abbreviation runs m d a d' := (m d = (Ok a, d')).

Lemma dread_runs lba buf d s d' : dev_ok d → 0 ≤ lba → runs (dread lba buf) d s d' →
  touches (λ _, False) d d' ∧ s = dev_view d lba ∧ lba < sector_count d.
Proof.
  intros Hok Hl. unfold dread. destruct (read_sector lba buf d) as [[r b] d1] eqn:E.
  pose proof (read_law d lba buf r b d1 Hok Hl E) as ((Hok' & Hc & _ & Hv) & _ & Hr).
  destruct r; intros [= <- <-]. destruct Hr as (_ & ? & ->). by split_and!.
Qed.

Lemma dwrite_runs lba s d u d' : dev_ok d → 0 ≤ lba → runs (dwrite lba s) d u d' →
  dev_ok d' ∧ sector_count d' = sector_count d ∧ length s = SECTOR_SIZE ∧
  ∀ l, dev_view d' l = if decide (l = lba) then s else dev_view d l.
Proof.
  intros Hok Hl. unfold dwrite. destruct (write_sector lba s d) as [r d1] eqn:E.
  pose proof (write_law d lba s r d1 Hok Hl E) as (Hok' & Hc & _ & Hr).
  destruct r; intros [= <- <-]. destruct Hr as (? & _ & _ & ?). by split_and!.
Qed.

Lemma touches_nowhere d d' : touches (λ _, False) d d' → dev_ok d' ∧ sector_count d' = sector_count d ∧ ∀ l, dev_view d' l = dev_view d l.
Proof. intros (? & ? & Hv). split_and!; [done..|]. intros l. apply Hv. by intros []. Qed.

Lemma runs_bind {A B} (m : Io A) (f : A → Io B) d b d' : runs (m ≫= f) d b d' →
  ∃ a d1, runs m d a d1 ∧ runs (f a) d1 b d'.
Proof. apply M_bind_Ok_inv. Qed.
Lemma runs_lift {A} (r : res FError A) d a d' : runs (lift r) d a d' → r = Ok a ∧ d' = d.
Proof. by intros [= -> ->]. Qed.
Lemma runs_guard b (e : FError) d u d' : runs (guard_ok b e) d u d' → b = true ∧ d' = d.
Proof. destruct b; by intros [= _ ->]. Qed.

Lemma computes_runs {A} (m : Io A) r d a d' : dev_ok d → computes (dev_view d) (sector_count d) m r →
  runs m d a d' → r = Ok a ∧ dev_ok d' ∧ sector_count d' = sector_count d ∧ ∀ l, dev_view d' l = dev_view d l.
Proof.
  intros Hok Hc Hr. destruct (Hc d (shows_self d Hok)) as (d1 & (? & ? & ?) & [E|[b E]]); rewrite Hr in E; simplify_eq.
  by split_and!.
Qed.

Lemma runs_or_cleanup {A} (m : Io A) cleanup d a d' : runs (or_cleanup m cleanup) d a d' → runs m d a d'.
Proof.
  unfold or_cleanup. destruct (m d) as [[x|e|] d1]; [done| |done].
  unfold mbind, M_bind. by destruct (cleanup d1) as [[] ?].
Qed.
End runs.

Section writing.
Context {D : Type} `{BlockDeviceLaws D} (v : Volume) (G : geometry v) (T : table_ok v).
#[local] Set Default Proof Using "All".
Abbreviation Io := (M D FError).
Implicit Types d : D.
Abbreviation runs m d a d' := (m d = (Ok a, d')).

(** One copy of the word. *)
Lemma write_fat_copy_runs c value fat d u d' : dev_ok d → is_allocatable_cluster v c = true → 0 ≤ fat < fat_count v →
  runs (write_fat_copy v c value fat) d u d' →
  dev_ok d' ∧ sector_count d' = sector_count d ∧
  ∀ l, dev_view d' l = if decide (l = fat_sector v fat c)
         then write_u32 (dev_view d l) (fat_off c) (merge (fat_word v (dev_view d) fat c) value) else dev_view d l.
Proof.
  intros Hok Ha Hf Hr. pose proof (fat_sector_bounds v G T fat c Hf Ha) as Hb. unfold write_fat_copy in Hr.
  rewrite sector_z_eq in Hr.
  apply runs_bind in Hr as (off & ? & [[-> _]%ok_or_Ok%checked_mul_Some ->]%runs_lift & Hr).
  apply runs_bind in Hr as (base & ? & [[-> _]%ok_or_Ok%checked_add_Some ->]%runs_lift & Hr).
  apply runs_bind in Hr as (sector & ? & [[Hs _]%ok_or_Ok%checked_add_Some ->]%runs_lift & Hr).
  fold (fat_sector v fat c) in Hs. subst sector.
  apply runs_bind in Hr as (? & ? & [_ ->]%runs_guard & Hr).
  apply runs_bind in Hr as (s & d1 & Hrd & Hr). cbv zeta in Hr.
  assert (0 ≤ fat_sector v fat c) as Hpos by (destruct G; lia).
  apply dread_runs in Hrd as (Ht & -> & _); [|done..]. apply touches_nowhere in Ht as (Hok1 & Hc1 & Hv1).
  apply dwrite_runs in Hr as (Hok' & Hc' & _ & Hv'); [|done..].
  split_and!; [done|congruence|]. intros l. rewrite Hv', Hv1. by case_decide; subst.
Qed.

Lemma fat_word_width w fat c : in_width 32 (fat_word v w fat c).
Proof. apply fat_u32_bound. Qed.

(** All the copies: each gets the new entry, no other word and no sector
    outside the table changes. *)
Lemma for_copies_runs c value fats d u d' : dev_ok d → total_sectors v ≤ sector_count d →
  is_allocatable_cluster v c = true → (∀ f, f ∈ fats → 0 ≤ f < fat_count v) → NoDup fats →
  runs (for_each fats (write_fat_copy v c value)) d u d' →
  dev_ok d' ∧ sector_count d' = sector_count d ∧
  (∀ fat c', 0 ≤ fat < fat_count v → is_allocatable_cluster v c' = true →
     fat_word v (dev_view d') fat c' =
       if decide (fat ∈ fats ∧ c' = c) then merge (fat_word v (dev_view d) fat c) value else fat_word v (dev_view d) fat c') ∧
  ∀ l, ¬ (first_fat_sector v ≤ l < first_data_sector v) → dev_view d' l = dev_view d l.
Proof.
  intros Hok Hn Ha. revert d Hok Hn. induction fats as [|f fats IH]; intros d Hok Hn Hin Hnd Hr; cbn [for_each] in Hr.
  { apply runs_lift in Hr as [_ ->]. split_and!; [done|done| |done]. intros fat c' _ _.
    rewrite decide_False; [done|]. by intros [?%not_elem_of_nil _]. }
  apply runs_bind in Hr as (? & d1 & Hr1 & Hr). apply NoDup_cons in Hnd as [Hnf Hnd].
  assert (0 ≤ f < fat_count v) as Hf by (apply Hin; left).
  apply write_fat_copy_runs in Hr1 as (Hok1 & Hc1 & Hv1); [|done..].
  destruct (IH d1) as (Hok' & Hc' & Hw' & Hv'); [done|lia|intros; apply Hin; by right|done|done|].
  pose proof (fat_sector_bounds v G T f c Hf Ha) as Hb.
  split_and!; [done|congruence| |].
  - intros fat c' Hfat Hc''. rewrite Hw' by done.
    assert (length (dev_view d (fat_sector v f c)) = SECTOR_SIZE) as Hlen.
    { apply dev_view_length; [done|]. destruct G. nia. }
    assert (fat_off c + 4 ≤ length (dev_view d (fat_sector v f c)))%nat as Hfit.
    { rewrite Hlen. pose proof (fat_off_fits c). pose proof SECTOR_SIZE_eq. lia. }
    assert (∀ fat' y, 0 ≤ fat' → is_allocatable_cluster v y = true → (f, c) ≠ (fat', y) →
      fat_word v (dev_view d1) fat' y = fat_word v (dev_view d) fat' y) as Hother.
    { intros fat' y Hp Hy Hne. unfold fat_word. rewrite Hv1. case_decide as E; [|done].
      destruct (fat_separate v G T f c fat' y) as [?|?]; [lia|done..| |]; [by rewrite E in *|].
      rewrite E. apply read_write_u32_disjoint; [done|]. lia. }
    destruct (decide (fat = f)) as [->|Hff].
    + rewrite (decide_False (P := f ∈ fats ∧ c' = c)) by tauto.
      destruct (decide (c' = c)) as [->|Hcc].
      * rewrite decide_True by (split; [left|done]). unfold fat_word at 1. rewrite Hv1, decide_True by done.
        apply read_write_u32; [done|]. apply merge_width, fat_word_width.
      * rewrite decide_False by tauto. apply Hother; [lia|done|congruence].
    + assert (fat_word v (dev_view d1) fat c = fat_word v (dev_view d) fat c) as ->
        by (apply Hother; [lia|done|congruence]).
      rewrite (Hother fat c') by (lia || done || congruence).
      destruct (decide (fat ∈ fats ∧ c' = c)) as [[? ->]|Hn1].
      * by rewrite decide_True by (split; [by right|done]).
      * rewrite decide_False; [done|]. intros [[?|?]%elem_of_cons ?]; [done|tauto].
  - intros l Hl. rewrite Hv', Hv1 by done. by rewrite decide_False by (intros ->; lia).
Qed.

Lemma fat_copies_nodup : NoDup (fat_copies v).
Proof. unfold fat_copies. apply NoDup_fmap_2; [intros ? ?; lia|apply NoDup_seq]. Qed.

Lemma write_fat_entry_runs c value d u d' : dev_ok d → total_sectors v ≤ sector_count d →
  runs (write_fat_entry v c value) d u d' →
  is_allocatable_cluster v c = true ∧ dev_ok d' ∧ sector_count d' = sector_count d ∧
  (∀ fat c', 0 ≤ fat < fat_count v → is_allocatable_cluster v c' = true →
     fat_word v (dev_view d') fat c' =
       if decide (c' = c) then merge (fat_word v (dev_view d) fat c) value else fat_word v (dev_view d) fat c') ∧
  ∀ l, ¬ (first_fat_sector v ≤ l < first_data_sector v) → dev_view d' l = dev_view d l.
Proof.
  intros Hok Hn Hr. unfold write_fat_entry in Hr.
  apply runs_bind in Hr as (lba & ? & [Ha ->]%runs_lift & Hr).
  assert (is_allocatable_cluster v c = true) as Hc by (apply cluster_lba_range; eauto).
  apply for_copies_runs in Hr as (? & ? & Hw & ?); [|done|done|done|by intros ? ?%fat_copies_elem|apply fat_copies_nodup].
  split_and!; [done..| |done]. intros fat c' Hf Hc'. rewrite Hw by done.
  assert (fat ∈ fat_copies v) by by apply fat_copies_elem. by repeat case_decide; try tauto.
Qed.

(** ** Allocating and freeing *)

(** [d'] is lawful, as large as [d], and its table is [d]'s with [m] written. *)
Definition retabled (m : gmap Z Z) d d' : Prop :=
  dev_ok d' ∧ sector_count d' = sector_count d ∧ updates v (dev_view d) (dev_view d') m.

Lemma retabled_trans m1 m2 d1 d2 d3 : retabled m1 d1 d2 → retabled m2 d2 d3 → retabled (m2 ∪ m1) d1 d3.
Proof. intros (_ & ? & ?) (? & ? & ?). split_and!; [done|congruence|by eapply updates_trans]. Qed.

Lemma unchanged_retabled d d' : dev_ok d' → sector_count d' = sector_count d →
  (∀ l, first_fat_sector v ≤ l → dev_view d' l = dev_view d l) → retabled ∅ d d'.
Proof. intros. split_and!; [done..|]. by apply updates_refl. Qed.

Lemma safe_info_retabled {A} (m : Io A) d r d' : dev_ok d → safe (info_sector v) (ignored m) (λ _, True) →
  runs (ignored m) d r d' → retabled ∅ d d'.
Proof.
  intros Hok Hs Hr. destruct (Hs d Hok) as ((? & ? & Hv) & _). rewrite Hr in *.
  apply unchanged_retabled; [done..|]. intros l Hl. apply Hv. intros Hi%info_sector_pos; [lia|done].
Qed.

Lemma write_entry_retabled c value d u d' : dev_ok d → total_sectors v ≤ sector_count d →
  runs (write_fat_entry v c value) d u d' →
  is_allocatable_cluster v c = true ∧ retabled {[c := Z.land value FAT32_ENTRY_MASK]} d d'.
Proof.
  intros Hok Hn Hr%write_fat_entry_runs; [|done..]. destruct Hr as (Ha & ? & ? & Hw & Hv).
  split; [done|]. split_and!; [done..|]. split.
  - intros c' Hc'. unfold entry. rewrite Hw by (done || destruct G; lia).
    case_decide as E; [subst; rewrite lookup_singleton_eq; apply merge_land|].
    by rewrite lookup_singleton_ne by congruence.
  - intros l Hl. apply Hv. lia.
Qed.

Lemma allocate_loop_runs k c d a d' : dev_ok d → total_sectors v ≤ sector_count d →
  runs (allocate_loop v k c) d a d' →
  is_allocatable_cluster v a = true ∧ entry v (dev_view d) a = 0 ∧ retabled {[a := FAT32_END_MIN]} d d'.
Proof.
  revert c d. induction k as [|k IH]; intros c d Hok Hn Hr; [done|]. cbn [allocate_loop] in Hr.
  apply runs_bind in Hr as (e & d1 & Hr1 & Hr).
  apply (computes_runs _ (entry_value v (dev_view d) c)) in Hr1 as (He & Hok1 & Hc1 & Hv1);
    [|done|by apply read_fat_entry_computes].
  assert (is_allocatable_cluster v c = true) as Ha.
  { unfold entry_value in He. rewrite cluster_lba_spec in He by done. by destruct (is_allocatable_cluster v c). }
  rewrite entry_value_spec in He by done. injection He as He.
  assert (retabled ∅ d d1) as H01 by by apply unchanged_retabled.
  destruct (Z.eqb_spec e 0) as [->|].
  - apply runs_bind in Hr as (? & d2 & Hr2 & Hr). apply write_entry_retabled in Hr2 as [_ H12]; [|done|lia].
    apply runs_bind in Hr as (? & d3 & Hr3 & Hr). injection Hr as <- <-.
    destruct H12 as (Hok2 & Hc2 & Hu2) eqn:E. clear E.
    apply safe_info_retabled in Hr3; [|done|eapply safe_ignored, update_after_alloc_safe; done].
    split_and!; [done|done|].
    pose proof (retabled_trans _ _ _ _ _ (retabled_trans _ _ _ _ _ H01 (conj Hok2 (conj Hc2 Hu2))) Hr3) as Hf.
    by rewrite (left_id_L ∅ (∪)), (right_id_L ∅ (∪)) in Hf.
  - apply IH in Hr as (Haa & Hea & Ht); [|done|lia]. split_and!; [done| |].
    + rewrite <-Hea. unfold entry, fat_word. by rewrite Hv1.
    + pose proof (retabled_trans _ _ _ _ _ H01 Ht) as Hf. by rewrite (right_id_L ∅ (∪)) in Hf.
Qed.

Lemma retabled_ok m d d' : retabled m d d' → dev_ok d' ∧ sector_count d' = sector_count d.
Proof. by intros (? & ? & _). Qed.
Lemma retabled_after_nothing m d d1 d2 : retabled ∅ d d1 → retabled m d1 d2 → retabled m d d2.
Proof. intros H1 H2. pose proof (retabled_trans _ _ _ _ _ H1 H2) as Hf. by rewrite (right_id_L ∅ (∪)) in Hf. Qed.
Lemma retabled_before_nothing m d d1 d2 : retabled m d d1 → retabled ∅ d1 d2 → retabled m d d2.
Proof. intros H1 H2. pose proof (retabled_trans _ _ _ _ _ H1 H2) as Hf. by rewrite (left_id_L ∅ (∪)) in Hf. Qed.
Lemma retabled_entry m d d' c : retabled m d d' → is_allocatable_cluster v c = true →
  entry v (dev_view d') c = default (entry v (dev_view d) c) (m !! c).
Proof. intros (_ & _ & Hu & _). apply Hu. Qed.

(** *** Errors a computation cannot report *)

Definition no_err {A} (e : FError) (m : Io A) : Prop := ∀ d, fst (m d) ≠ Err e.

Lemma no_err_bind {A B} e (m : Io A) (f : A → Io B) : no_err e m → (∀ a, no_err e (f a)) → no_err e (m ≫= f).
Proof.
  intros Hm Hf d. specialize (Hm d). destruct (m d) as [r d1] eqn:E. rewrite (bind_run _ _ _ _ _ E).
  destruct r; [apply Hf|simpl in *; congruence|done].
Qed.
Lemma no_err_lift {A} e (r : res FError A) : r ≠ Err e → no_err e (lift r).
Proof. intros Hr d. exact Hr. Qed.
Lemma no_err_guard e b e' : e' ≠ e → no_err e (guard_ok b e').
Proof. intros He. destruct b; apply no_err_lift; congruence. Qed.
Lemma no_err_dread lba buf : no_err NoSpace (dread lba buf).
Proof. intros d. unfold dread. by destruct (read_sector lba buf d) as [[[] ?] ?]. Qed.
Lemma no_err_dwrite lba s : no_err NoSpace (dwrite lba s).
Proof. intros d. unfold dwrite. by destruct (write_sector lba s d) as [[] ?]. Qed.
Lemma no_err_for_each {A} e (l : list A) f : (∀ a, no_err e (f a)) → no_err e (for_each l f).
Proof. intros Hf. induction l; simpl; [by apply no_err_lift|]. by apply no_err_bind. Qed.

Lemma write_fat_entry_no_nospace c value : no_err NoSpace (write_fat_entry v c value).
Proof.
  apply no_err_bind.
  { apply no_err_lift. rewrite cluster_lba_spec by done. by case_match. }
  intros _. apply no_err_for_each. intros fat. unfold write_fat_copy.
  do 3 (apply no_err_bind; [apply no_err_lift; unfold ok_or; by case_match|intros ?]).
  apply no_err_bind; [by apply no_err_guard|intros _].
  apply no_err_bind; [apply no_err_dread|intros s]. apply no_err_dwrite.
Qed.

(** A search that finds no free cluster has only read, and all it looked at are in use. *)
Lemma allocate_loop_nospace k c d d' : dev_ok d → allocate_loop v k c d = (Err NoSpace, d') →
  retabled ∅ d d' ∧ ∀ x, c ≤ x < c + Z.of_nat k → entry v (dev_view d) x ≠ 0.
Proof.
  revert c d. induction k as [|k IH]; intros c d Hok E; cbn [allocate_loop] in E.
  { injection E as <-. split; [by apply unchanged_retabled|lia]. }
  destruct (read_fat_entry_computes v G (dev_view d) (sector_count d) c d (shows_self d Hok))
    as (d1 & (Hok1 & Hc1 & Hv1) & Hr).
  assert (retabled ∅ d d1) as H01 by by apply unchanged_retabled.
  destruct Hr as [Hr|[b Hr]]; rewrite (bind_run _ _ _ _ _ Hr) in E; [|done].
  destruct (is_allocatable_cluster v c) eqn:Ha.
  2: { unfold entry_value in E. rewrite cluster_lba_spec, Ha in E by done. done. }
  rewrite entry_value_spec in E by done. destruct (Z.eqb_spec (entry v (dev_view d) c) 0) as [_|Hne].
  - exfalso. pose proof (write_fat_entry_no_nospace c FAT32_END_MIN d1) as Hno.
    destruct (write_fat_entry v c FAT32_END_MIN d1) as [r d2] eqn:Ew. rewrite (bind_run _ _ _ _ _ Ew) in E.
    destruct r; simpl in Hno; [|congruence|done].
    unfold mbind, M_bind, ignored in E. by destruct (update_fs_info_after_alloc v c d2) as [[] ?].
  - apply IH in E as [Ht Hx]; [|done]. split; [by eapply retabled_after_nothing|]. intros x Hxr.
    destruct (decide (x = c)) as [->|]; [done|]. intros He. apply (Hx x); [lia|].
    rewrite <-He. unfold entry, fat_word. by rewrite Hv1.
Qed.

(** A successful allocation returns a cluster that was free, and marks it, and
    only it, as the end of a chain. *)
Lemma allocate_cluster_runs d a d' : dev_ok d → total_sectors v ≤ sector_count d →
  runs (allocate_cluster v) d a d' →
  is_allocatable_cluster v a = true ∧ entry v (dev_view d) a = 0 ∧ retabled {[a := FAT32_END_MIN]} d d'.
Proof.
  intros Hok Hn Hr. unfold allocate_cluster, allocate_cluster_in_range in Hr.
  apply runs_bind in Hr as (m & ? & [_ ->]%runs_lift & Hr).
  apply runs_bind in Hr as (start & d1 & Hr1 & Hr). cbv zeta in Hr.
  assert (retabled ∅ d d1) as H01.
  { destruct (next_free_hint_safe v G d Hok) as ((? & ? & Hv) & _). rewrite Hr1 in *.
    apply unchanged_retabled; [done..|]. intros l Hl. apply Hv. intros Hi%info_sector_pos; [lia|done]. }
  destruct (retabled_ok _ _ _ H01) as [Hok1 Hc1].
  unfold on_error in Hr. destruct (allocate_loop _ _ _ d1) as [[a1|e|] d2] eqn:E; [| |done].
  - injection Hr as -> ->. apply allocate_loop_runs in E as (? & He & Ht); [|done|lia].
    split_and!; [done| |by eapply retabled_after_nothing].
    rewrite (retabled_entry _ _ _ _ H01) in He by done. by rewrite lookup_empty in He.
  - destruct (decide (e = NoSpace)) as [->|]; [|done]. apply allocate_loop_nospace in E as [E _]; [|done].
    destruct (retabled_ok _ _ _ E) as [Hok2 Hc2]. destruct (2 <? _); [|done].
    apply allocate_loop_runs in Hr as (? & He & Ht); [|done|lia].
    pose proof (retabled_after_nothing _ _ _ _ H01 E) as H02.
    split_and!; [done| |by eapply retabled_after_nothing].
    rewrite (retabled_entry _ _ _ _ H02) in He by done. by rewrite lookup_empty in He.
Qed.

(** "No space" is reported only when every cluster is in use. *)
Lemma allocate_cluster_nospace d d' : dev_ok d → allocate_cluster v d = (Err NoSpace, d') →
  ∀ c, is_allocatable_cluster v c = true → entry v (dev_view d) c ≠ 0.
Proof.
  intros Hok Hr c Ha He. unfold allocate_cluster, allocate_cluster_in_range in Hr.
  destruct (checked_add 32 (cluster_count v) 2) as [m|] eqn:Em; [|done].
  apply checked_add_Some in Em as [-> _]. rewrite bind_lift in Hr. cbn [ok_or] in Hr.
  destruct (fs_info_next_free_hint v d) as [r1 d1] eqn:E1. rewrite (bind_run _ _ _ _ _ E1) in Hr.
  assert (retabled ∅ d d1) as H01.
  { destruct (next_free_hint_safe v G d Hok) as ((? & ? & Hv) & _). rewrite E1 in *.
    apply unchanged_retabled; [done..|]. intros l Hl. apply Hv. intros Hi%info_sector_pos; [lia|done]. }
  destruct (retabled_ok _ _ _ H01) as [Hok1 _]. destruct r1 as [start|e|]; [| |done].
  2: { injection Hr as -> <-. unfold fs_info_next_free_hint in E1. by destruct (read_fs_info v d) as [[[]| |] ?]. }
  cbv zeta in Hr. set (s' := if is_allocatable_cluster v start then start else 2) in *.
  apply allocatable_spec in Ha as Hb. destruct T as [_ T2]. unfold FAT32_BAD_CLUSTER in T2.
  assert (∀ x, is_allocatable_cluster v x = true → entry v (dev_view d1) x = entry v (dev_view d) x) as Hsame.
  { intros x Hx. rewrite (retabled_entry _ _ _ _ H01) by done. by rewrite lookup_empty. }
  assert (2 ≤ s') as Hs by (unfold s'; destruct (is_allocatable_cluster v start) eqn:Hst; [apply allocatable_spec in Hst|]; lia).
  unfold on_error in Hr. destruct (allocate_loop _ _ s' d1) as [[a1|e|] d2] eqn:E2; [done| |done].
  destruct (decide (e = NoSpace)) as [->|Hne]; [|by injection Hr as ->].
  apply allocate_loop_nospace in E2 as [H12 Hall]; [|done].
  destruct (decide (s' ≤ c)). { apply (Hall c); [lia|]. by rewrite Hsame. }
  rewrite (proj2 (Z.ltb_lt _ _)) in Hr by lia. destruct (retabled_ok _ _ _ H12) as [Hok2 _].
  apply allocate_loop_nospace in Hr as [_ Hall2]; [|done]. apply (Hall2 c); [lia|].
  rewrite (retabled_entry _ _ _ _ H12) by done. rewrite lookup_empty. cbn. by rewrite Hsame.
Qed.

(** The entries of [l] made free. *)
Definition freed_entries (l : list Z) : gmap Z Z := gset_to_gmap 0 (list_to_set l).

Lemma freed_cons c l : c ∉ l → freed_entries l ∪ {[c := 0]} = freed_entries (c :: l).
Proof.
  intros Hc. apply map_eq. intros x. unfold freed_entries.
  rewrite lookup_union, !lookup_gset_to_gmap. destruct (decide (x = c)) as [->|Hx].
  - rewrite lookup_singleton_eq. rewrite option_guard_False by by rewrite elem_of_list_to_set.
    by rewrite option_guard_True by set_solver.
  - rewrite lookup_singleton_ne by done. destruct (decide (x ∈ (list_to_set l : gset Z))).
    + by rewrite !option_guard_True by set_solver.
    + by rewrite !option_guard_False by set_solver.
Qed.

Lemma freed_lookup l c : c ∉ l → freed_entries l !! c = None.
Proof using Type. intros Hc. unfold freed_entries. rewrite lookup_gset_to_gmap, option_guard_False; [done|]. by rewrite elem_of_list_to_set. Qed.

Lemma retabled_chain m d d' c l : retabled m d d' → (∀ x, x ∈ l → m !! x = None) →
  chain v (dev_view d) c l → chain v (dev_view d') c l.
Proof. intros (_ & _ & Hu) Hm Hc. by eapply updates_chain. Qed.

Lemma chain_ext w w' c l : (∀ x, w' x = w x) → chain v w c l → chain v w' c l.
Proof. intros Hw. apply (updates_chain v G T w w' ∅); [by apply updates_refl|by intros; rewrite lookup_empty]. Qed.

Lemma chain_cons_inv w c l : chain v w c l → ∃ l', l = c :: l' ∧ c ∉ l' ∧
  ((link v w c = Ok End ∧ l' = []) ∨ ∃ c', link v w c = Ok (Next c') ∧ chain v w c' l').
Proof.
  intros Hc. pose proof (chain_nodup _ _ _ _ Hc) as Hn.
  inversion Hc; subst; apply NoDup_cons in Hn as [Hn _]; eauto 8.
Qed.

Lemma free_loop_runs room start c freed l d u d' : dev_ok d → total_sectors v ≤ sector_count d →
  chain v (dev_view d) c l → runs (free_loop v room start c freed) d u d' → retabled (freed_entries l) d d'.
Proof.
  revert c freed l d. induction room as [|room IH]; intros c freed l d Hok Hn Hch Hr; [done|]. cbn [free_loop] in Hr.
  cbv zeta in Hr. apply runs_bind in Hr as (k & d1 & Hr1 & Hr).
  apply (computes_runs _ (link v (dev_view d) c)) in Hr1 as (Hk & Hok1 & Hc1 & Hv1);
    [|done|by apply next_cluster_computes].
  assert (retabled ∅ d d1) as H01 by by apply unchanged_retabled.
  apply runs_bind in Hr as (? & d2 & Hr2 & Hr). apply write_entry_retabled in Hr2 as [Ha H12]; [|done|lia].
  change (Z.land 0 FAT32_ENTRY_MASK) with 0 in H12. pose proof (retabled_after_nothing _ _ _ _ H01 H12) as H02.
  apply chain_cons_inv in Hch as (l' & -> & Hcl & [[He ->]|(c' & He & Hch)]); rewrite He in Hk; injection Hk as <-.
  - apply safe_info_retabled in Hr; [|by destruct H12|eapply safe_ignored, update_after_free_safe; done].
    rewrite <-freed_cons by apply not_elem_of_nil. by eapply retabled_trans; [exact H02|].
  - destruct (retabled_ok _ _ _ H02). apply IH with (l := l') in Hr; [|done|lia|].
    + rewrite <-freed_cons by done. by eapply retabled_trans.
    + eapply retabled_chain; [exact H02| |done]. intros y Hy. apply lookup_singleton_ne. by intros <-.
Qed.

(** Freeing a chain frees exactly its clusters. *)
Lemma free_cluster_chain_runs start d u d' : dev_ok d → total_sectors v ≤ sector_count d → 2 ≤ start →
  runs (free_cluster_chain v start) d u d' →
  ∃ l, chain v (dev_view d) start l ∧ retabled (freed_entries l) d d'.
Proof.
  intros Hok Hn Hs Hr. unfold free_cluster_chain in Hr. rewrite (proj2 (Z.ltb_ge _ _)) in Hr by done.
  apply runs_bind in Hr as ([] & d1 & Hr1 & Hr).
  destruct (chain_validate_cases v start d (Ok tt) d1 G Hok Hr1) as ((Hok1 & Hc1 & Hv1) & _ & Hch & _).
  destruct (Hch eq_refl) as [l Hl]. exists l. split; [done|].
  eapply retabled_after_nothing; [by apply unchanged_retabled|].
  eapply free_loop_runs; [done|lia| |exact Hr]. by eapply chain_ext.
Qed.

(** ** Building a chain *)

Lemma free_entry_not_in_chain w c l a : chain v w c l → entry v w a = 0 → is_allocatable_cluster v a = true → a ∉ l.
Proof.
  intros Hch He Ha Hin. apply list_elem_of_lookup in Hin as [i Hi].
  pose proof (chain_drop _ _ _ _ _ _ Hch Hi) as Hd. apply chain_cons_inv in Hd as (l' & _ & _ & Hd).
  rewrite link_entry, He in Hd by done. destruct Hd as [[? _]|(c' & ? & _)]; done.
Qed.

(** A fresh cluster linked behind the last one. *)
Lemma chain_extend w w' c l prev a : chain v w c l → last l = Some prev → a ∉ l → is_allocatable_cluster v a = true →
  link v w a = Ok End → updates v w w' {[prev := a]} → chain v w' c (l ++ [a]).
Proof.
  intros Hch. induction Hch as [c He|c c' l Hn Hch IH]; intros Hlast Hal Ha Hea Hu.
  - injection Hlast as ->. apply chain_next with a.
    + rewrite (updates_link v G T _ _ _ _ Hu) by by eapply link_allocatable.
      rewrite lookup_singleton_eq. by apply decode_link_cluster.
    + constructor. rewrite (updates_link v G T _ _ _ _ Hu) by done.
      by rewrite lookup_singleton_ne by (intros ->; apply Hal; left).
  - assert (l ≠ []) as Hne by by inversion Hch.
    assert (last l = Some prev) as Hl by (destruct l; [done|exact Hlast]).
    assert (c ≠ prev) as Hcp.
    { intros ->. pose proof (chain_nodup _ _ _ _ (chain_next _ _ _ _ _ Hn Hch)) as [Hni _]%NoDup_cons.
      apply Hni. rewrite last_lookup in Hl. by eapply list_elem_of_lookup_2. }
    apply chain_next with c'.
    + rewrite (updates_link v G T _ _ _ _ Hu) by by eapply link_allocatable. by rewrite lookup_singleton_ne.
    + apply IH; [done|by intros ?; apply Hal; right|done|done|done].
Qed.

Lemma end_mark_link w a : is_allocatable_cluster v a = true → entry v w a = FAT32_END_MIN → link v w a = Ok End.
Proof. intros Ha He. rewrite link_entry, He by done. done. Qed.

(** What a successful chain allocation leaves: clusters that were free, linked
    in order; no other entry and no data sector changed. *)
Definition grown (m : gmap Z Z) (l : list Z) d d' : Prop :=
  retabled m d d' ∧ (∀ c, c ∉ l → m !! c = None) ∧ Forall (λ c, entry v (dev_view d) c = 0) l.

Lemma allocate_more_runs k first prev l d r d' : dev_ok d → total_sectors v ≤ sector_count d →
  chain v (dev_view d) first l → last l = Some prev →
  runs (allocate_more v k first prev) d r d' →
  r = first ∧ ∃ l' m, chain v (dev_view d') first (l ++ l') ∧ length l' = k ∧
    retabled m d d' ∧ (∀ c, c ∉ l → c ∉ l' → m !! c = None) ∧ Forall (λ c, entry v (dev_view d) c = 0) l'.
Proof.
  revert prev l d. induction k as [|k IH]; intros prev l d Hok Hn Hch Hlast Hr; cbn [allocate_more] in Hr; cbv zeta in Hr.
  { injection Hr as <- <-. split; [done|]. exists [], ∅. rewrite app_nil_r.
    split_and!; [done|done|by apply unchanged_retabled|done|by constructor]. }
  apply runs_bind in Hr as (a & d1 & Hr1%runs_or_cleanup & Hr).
  apply allocate_cluster_runs in Hr1 as (Ha & Hea & H01); [|done..].
  pose proof (free_entry_not_in_chain _ _ _ _ Hch Hea Ha) as Hal.
  destruct (retabled_ok _ _ _ H01) as [Hok1 Hc1].
  apply runs_bind in Hr as (? & d2 & Hr2%runs_or_cleanup & Hr).
  apply write_entry_retabled in Hr2 as [Hp H12]; [|done|lia].
  assert (Z.land a FAT32_ENTRY_MASK = a) as Hmask.
  { apply (land_mask_small v G T). apply allocatable_spec in Ha. destruct T as [_ T2]. unfold FAT32_BAD_CLUSTER in T2. lia. }
  rewrite Hmask in H12. destruct (retabled_ok _ _ _ H12) as [Hok2 Hc2].
  assert (chain v (dev_view d1) first l) as Hch1.
  { eapply retabled_chain; [exact H01| |done]. intros y Hy. apply lookup_singleton_ne. by intros <-. }
  assert (chain v (dev_view d2) first (l ++ [a])) as Hch2.
  { eapply chain_extend; [exact Hch1|done..| |by destruct H12 as (_ & _ & ?)].
    apply end_mark_link; [done|]. rewrite (retabled_entry _ _ _ _ H01) by done. by rewrite lookup_singleton_eq. }
  destruct (IH a (l ++ [a]) d2) as (-> & l' & m & Hch' & Hlen & H23 & Hm & Hz); [done|lia|done|by rewrite last_snoc|done|].
  pose proof (retabled_trans _ _ _ _ _ H01 H12) as H02. split; [done|].
  exists (a :: l'), (m ∪ ({[prev := a]} ∪ {[a := FAT32_END_MIN]})). rewrite <-app_assoc in Hch'. split_and!.
  - done.
  - simpl. lia.
  - by eapply retabled_trans.
  - intros c Hcl Hcl'. rewrite !lookup_union.
    rewrite Hm by set_solver. assert (prev ≠ c).
    { intros ->. apply Hcl. rewrite last_lookup in Hlast. by eapply list_elem_of_lookup_2. }
    rewrite !lookup_singleton_ne by set_solver. done.
  - constructor; [done|]. rewrite Forall_forall in *. intros c Hc. specialize (Hz c Hc).
    assert (is_allocatable_cluster v c = true) as Hca.
    { pose proof (chain_allocatable _ _ _ _ G Hch') as Hall. rewrite Forall_forall in Hall. apply Hall. set_solver. }
    rewrite (retabled_entry _ _ _ _ H02) in Hz by done.
    pose proof (chain_nodup _ _ _ _ Hch') as Hnd. apply NoDup_app in Hnd as (_ & Hdisj & Hnd).
    apply NoDup_app in Hnd as (_ & Hdisj' & _).
    assert (prev ≠ c).
    { intros ->. apply (Hdisj c); [|set_solver]. rewrite last_lookup in Hlast. by eapply list_elem_of_lookup_2. }
    assert (a ≠ c) by (intros ->; apply (Hdisj' c); set_solver).
    by rewrite lookup_union, !lookup_singleton_ne in Hz by done.
Qed.

Lemma allocate_file_chain_runs k d first d' : dev_ok d → total_sectors v ≤ sector_count d →
  runs (allocate_file_chain v (S k)) d first d' →
  ∃ l m, chain v (dev_view d') first l ∧ length l = S k ∧ grown m l d d'.
Proof.
  intros Hok Hn Hr. cbn [allocate_file_chain] in Hr. apply runs_bind in Hr as (a & d1 & Hr1 & Hr).
  apply allocate_cluster_runs in Hr1 as (Ha & Hea & H01); [|done..]. destruct (retabled_ok _ _ _ H01) as [Hok1 Hc1].
  assert (chain v (dev_view d1) a [a]) as Hch.
  { constructor. apply end_mark_link; [done|]. rewrite (retabled_entry _ _ _ _ H01) by done. by rewrite lookup_singleton_eq. }
  destruct (allocate_more_runs k a a [a] d1 first d') as (-> & l' & m & Hch' & Hlen & H12 & Hm & Hz); [done|lia|done..|].
  exists (a :: l'), (m ∪ {[a := FAT32_END_MIN]}). unfold grown. split_and!; [done|simpl; lia|by eapply retabled_trans| |].
  - intros c Hc. rewrite lookup_union, Hm, lookup_singleton_ne by set_solver. done.
  - constructor; [done|]. rewrite Forall_forall in *. intros c Hc. specialize (Hz c Hc).
    pose proof (chain_nodup _ _ _ _ Hch') as [Hni _]%NoDup_cons.
    assert (is_allocatable_cluster v c = true) as Hca.
    { pose proof (chain_allocatable _ _ _ _ G Hch') as Hall. rewrite Forall_forall in Hall. apply Hall. set_solver. }
    rewrite (retabled_entry _ _ _ _ H01) in Hz by done. by rewrite lookup_singleton_ne in Hz by (intros ->; done).
Qed.
End writing.
