(* ===== verification/FatStore.v ===== *)
(** * Storing file contents (kernel/src/fat32.rs)

    Writing data into a chain and the round trip: a freshly allocated chain
    holds exactly the bytes written, every later ranged read returns them, and
    the files stored before keep their chains and contents. *)
From stdpp Require Import list gmap.
From S2P Require Import Prelude Block Fat FatChain FatRead FatDir FatSafe FatAlloc.

(** A sector of file data, filled up with zeros. *)
Definition padded (s : list byte) : list byte := splice zero_sector 0 s.

Lemma length_zero_sector : length zero_sector = SECTOR_SIZE.
Proof. apply length_replicate. Qed.

Lemma length_padded s : (length s ≤ SECTOR_SIZE)%nat → length (padded s) = SECTOR_SIZE.
Proof. intros. unfold padded. by rewrite length_splice, length_zero_sector by (rewrite length_zero_sector; lia). Qed.

Lemma lookup_padded s i b : (length s ≤ SECTOR_SIZE)%nat → s !! i = Some b → padded s !! i = Some b.
Proof.
  intros Hs Hi. unfold padded. pose proof (lookup_lt_Some _ _ _ Hi).
  rewrite lookup_splice by (rewrite length_zero_sector; lia). rewrite decide_True by lia. by rewrite Nat.sub_0_r.
Qed.

(** ** The sectors of a chain are distinct *)

Lemma cluster_sectors_disjoint v c c' x : geometry v → x ∈ cluster_sectors v c → x ∈ cluster_sectors v c' → c = c'.
Proof. intros G Hc%cluster_sectors_elem Hc'%cluster_sectors_elem. unfold cluster_base in *. destruct G. nia. Qed.

Lemma cluster_sectors_nodup v c : NoDup (cluster_sectors v c).
Proof.
  unfold cluster_sectors, sectors_of_cluster. apply NoDup_fmap_2; [intros ? ?; lia|].
  apply NoDup_fmap_2; [intros ? ?; lia|apply NoDup_seq].
Qed.

Lemma chain_sectors_nodup v l : geometry v → NoDup l → NoDup (chain_sectors v l).
Proof.
  intros G. unfold chain_sectors, blocks. induction l as [|c l IH]; cbn [map concat]; [intros; constructor|].
  intros [Hc Hl]%NoDup_cons. apply NoDup_app. split_and!; [apply cluster_sectors_nodup| |by apply IH].
  intros x Hx (c' & Hc' & Hx')%chain_sectors_elem. by rewrite (cluster_sectors_disjoint v c c' x G Hx Hx') in Hc.
Qed.

(** The links depend on the table only. *)
Lemma link_below v w w' c : geometry v → (∀ x, x < first_data_sector v → w' x = w x) → link v w' c = link v w c.
Proof.
  intros G Hw. unfold link, entry_value. rewrite cluster_lba_spec by done.
  destruct (is_allocatable_cluster v c); [|done]. cbn [mbind res_bind].
  destruct (fat_position v c) as [[sector off]|e|] eqn:E; [|done|done]. cbn [mbind res_bind].
  apply fat_position_spec in E as (_ & _ & Hs); [|done]. by rewrite Hw.
Qed.

Lemma chain_below v w w' c l : geometry v → (∀ x, x < first_data_sector v → w' x = w x) → chain v w c l → chain v w' c l.
Proof.
  intros G Hw. induction 1; [constructor|econstructor]; try done; by rewrite (link_below v w w').
Qed.

Section storing.
Context {D : Type} `{BlockDeviceLaws D} (v : Volume) (G : geometry v).
#[local] Set Default Proof Using "All".
Abbreviation Io := (M D FError).
Implicit Types d : D.
Abbreviation runs m d a d' := (m d = (Ok a, d')).

Lemma write_sectors_runs idx lba rest d r d' : dev_ok d → (∀ i, i ∈ idx → 0 ≤ lba + i) → NoDup idx →
  runs (write_sectors idx lba rest) d r d' →
  dev_ok d' ∧ sector_count d' = sector_count d ∧ r = drop (length idx * SECTOR_SIZE) rest ∧
  (∀ x, x ∉ (Z.add lba <$> idx) → dev_view d' x = dev_view d x) ∧
  ∀ j i, idx !! j = Some i → dev_view d' (lba + i) = padded (slice rest (j * SECTOR_SIZE) SECTOR_SIZE).
Proof.
  revert rest d. induction idx as [|i idx IH]; intros rest d Hok Hpos Hnd Hr; cbn [write_sectors] in Hr.
  { injection Hr as <- <-. split_and!; [done|done|done|done|]. intros j i Hj. by rewrite lookup_nil in Hj. }
  apply NoDup_cons in Hnd as [Hi Hnd].
  apply M_bind_Ok_inv in Hr as (u & d1 & Hr1 & Hr).
  apply dwrite_runs in Hr1 as (Hok1 & Hc1 & _ & Hv1); [|done|apply Hpos; left].
  apply IH in Hr as (Hok' & Hc' & -> & Hout & Hin); [|done|intros; apply Hpos; by right|done].
  split_and!; [done|congruence| | |].
  - rewrite drop_drop. done.
  - intros x Hx. rewrite fmap_cons, not_elem_of_cons in Hx. destruct Hx as [Hxi Hx].
    rewrite Hout, Hv1 by done. by rewrite decide_False.
  - intros [|j] i' Hj; cbn in Hj.
    + injection Hj as <-. rewrite Hout.
      * rewrite Hv1, decide_True by done. unfold padded, slice. by rewrite drop_0.
      * intros (y & ? & Hy)%list_elem_of_fmap. assert (y = i) by lia. congruence.
    + rewrite (Hin _ _ Hj). unfold slice. by rewrite drop_drop.
Qed.

Section chain.
Context (c0 : Z) (l : list Z) (data : list byte).
Abbreviation sectors := (chain_sectors v l).
Abbreviation bytes_to i := (i * spc_nat v * SECTOR_SIZE)%nat.

(** The device after the sectors from the [i]-th cluster on were written. *)
Definition stored (i : nat) d d' : Prop :=
  dev_ok d' ∧ sector_count d' = sector_count d ∧
  (∀ x, x ∉ sectors → dev_view d' x = dev_view d x) ∧
  (∀ j x, sectors !! j = Some x → (j < i * spc_nat v)%nat → dev_view d' x = dev_view d x) ∧
  (∀ j x, sectors !! j = Some x → (i * spc_nat v ≤ j)%nat → (j * SECTOR_SIZE < length data)%nat →
     dev_view d' x = padded (slice data (j * SECTOR_SIZE) SECTOR_SIZE)) ∧
  (length data ≤ bytes_to (length l))%nat.

Lemma spc_pos : (0 < spc_nat v)%nat.
Proof. unfold spc_nat. destruct G. lia. Qed.

Lemma sector_index_inv j x : NoDup l → sectors !! j = Some x → ∀ k, sectors !! k = Some x → k = j.
Proof. intros Hn Hj k Hk. pose proof (chain_sectors_nodup v l G Hn) as Hs. exact (NoDup_lookup _ _ _ _ Hs Hk Hj). Qed.

Lemma write_data_loop_runs room i c rest d u d' : dev_ok d → chain v (dev_view d) c0 l → l !! i = Some c →
  rest = drop (bytes_to i) data →
  runs (write_data_loop v room c rest) d u d' → stored i d d'.
Proof.
  revert i c rest d. induction room as [|room IH]; intros i c rest d Hok Hch Hi Hrest Hr.
  all: assert (rest = [] → (length data ≤ bytes_to i)%nat) as Hshort
    by (intros ->; apply (f_equal length) in Hrest; rewrite length_drop in Hrest; simpl in Hrest; lia).
  all: pose proof (lookup_lt_Some _ _ _ Hi) as Hil; pose proof spc_pos as Hspc; pose proof SECTOR_SIZE_eq as Hsz.
  all: assert (rest = [] → runs (write_data_loop v 0 c []) d u d' → stored i d d') as Hnil.
  1, 3: intros Hnil0 [= <- <-]; specialize (Hshort Hnil0); unfold stored; split_and!; [done|done|done|done| |nia];
    intros j x _ Hj1 Hj2; nia.
  all: destruct rest as [|b rest']; [by apply Hnil|]; cbn [write_data_loop] in Hr.
  { done. }
  apply M_bind_Ok_inv in Hr as (lba & d0 & [Hlba ->]%runs_lift & Hr).
  apply M_bind_Ok_inv in Hr as (rest & d1 & Hr1 & Hr).
  assert (lba = cluster_base v c ∧ is_allocatable_cluster v c = true) as [-> Ha].
  { rewrite cluster_lba_spec in Hlba by done. destruct (is_allocatable_cluster v c) eqn:E; [|done].
    by injection Hlba as <-. }
  pose proof (geometry_data_pos v G) as Hdpos. pose proof (cluster_inside v c _ G Hlba) as Hinside.
  assert (NoDup l) as Hnd by by eapply chain_nodup.
  apply write_sectors_runs in Hr1 as (Hok1 & Hc1 & Hrem & Hout & Hin); [|done| |].
  2: { intros k Hk. pose proof (sectors_of_cluster_nonneg v) as Hnn. rewrite Forall_forall in Hnn. specialize (Hnn k Hk). lia. }
  2: { unfold sectors_of_cluster. apply NoDup_fmap_2; [intros ? ?; lia|apply NoDup_seq]. }
  fold (cluster_sectors v c) in Hout. rewrite length_sectors_of_cluster, Hrest, drop_drop in Hrem.
  replace (bytes_to i + spc_nat v * SECTOR_SIZE)%nat with (bytes_to (S i)) in Hrem by lia.
  assert (c ∈ l) as Hcl by by eapply list_elem_of_lookup_2.
  assert (∀ x, x ∈ cluster_sectors v c → x ∈ sectors) as Hsub by (intros x Hx; apply chain_sectors_elem; eauto).
  assert (∀ x, x < first_data_sector v → dev_view d1 x = dev_view d x) as Hbelow.
  { intros x Hx. apply Hout. intros Hx'%cluster_sectors_elem. lia. }
  (* what this round stored *)
  assert (∀ j x, sectors !! j = Some x → (i * spc_nat v ≤ j < S i * spc_nat v)%nat →
    dev_view d1 x = padded (slice data (j * SECTOR_SIZE) SECTOR_SIZE)) as Hround.
  { intros j x Hj Hjr. set (k := (j - i * spc_nat v)%nat).
    assert (sectors_of_cluster v !! k = Some (Z.of_nat k)) as Hk.
    { unfold sectors_of_cluster. rewrite list_lookup_fmap, lookup_seq_lt by (fold (spc_nat v); lia). done. }
    pose proof (chain_sectors_lookup v l i c k _ Hi Hk) as Hx. replace (i * spc_nat v + k)%nat with j in Hx by lia.
    rewrite Hj in Hx. injection Hx as ->. rewrite (Hin _ _ Hk), Hrest. unfold slice. rewrite drop_drop.
    do 3 f_equal. lia. }
  assert (∀ j x, sectors !! j = Some x → ¬ (i * spc_nat v ≤ j < S i * spc_nat v)%nat → dev_view d1 x = dev_view d x) as Hkeep.
  { intros j x Hj Hjr. apply Hout. intros Hx. apply list_elem_of_lookup in Hx as [k Hk]. apply Hjr.
    pose proof (lookup_lt_Some _ _ _ Hk) as Hkl. rewrite length_cluster_sectors in Hkl.
    unfold cluster_sectors in Hk. apply list_lookup_fmap_Some in Hk as (y & -> & Hy).
    pose proof (chain_sectors_lookup v l i c k y Hi Hy) as Hx.
    pose proof (sector_index_inv _ _ Hnd Hj _ Hx). lia. }
  destruct rest as [|b2 rest2].
  - injection Hr as <- <-. apply (f_equal length) in Hrem. rewrite length_drop in Hrem. cbn [length] in Hrem.
    unfold stored. split_and!; [done|done| | | |].
    + intros x Hx. apply Hout. auto.
    + intros j x Hj Hji. apply (Hkeep j); [done|lia].
    + intros j x Hj Hj1 Hj2. apply Hround; [done|]. nia.
    + nia.
  - apply M_bind_Ok_inv in Hr as (k & d2 & Hr2 & Hr).
    apply (computes_runs _ (link v (dev_view d1) c)) in Hr2 as (Hk & Hok2 & Hc2 & Hv2);
      [|done|by apply next_cluster_computes].
    destruct k as [c'|]; [|done].
    assert (chain v (dev_view d1) c0 l) as Hch1 by by apply (chain_below v (dev_view d)).
    assert (l !! S i = Some c') as Hi'.
    { destruct (l !! S i) as [c''|] eqn:E.
      - rewrite (chain_succ _ _ _ _ _ _ _ Hch1 Hi E) in Hk. by injection Hk as ->.
      - by rewrite (chain_last _ _ _ _ _ _ Hch1 Hi E) in Hk. }
    assert (chain v (dev_view d2) c0 l) as Hch2 by by apply (chain_below v (dev_view d1)).
    apply (IH (S i)) in Hr as (Hok' & Hc' & Ho & Hb & Hs & Hl); [|done..].
    unfold stored. split_and!; [done|congruence| | | |done].
    + intros x Hx. rewrite Ho, Hv2 by done. apply Hout. auto.
    + intros j x Hj Hji. rewrite (Hb j) by (done || lia). rewrite Hv2. apply (Hkeep j); [done|lia].
    + intros j x Hj Hj1 Hj2. destruct (decide (j < S i * spc_nat v)%nat).
      * rewrite (Hb j) by (done || lia). rewrite Hv2. by apply Hround.
      * apply Hs; [done|lia|done].
Qed.
End chain.
End storing.

(** ** The round trip *)

(** [create_file_in_directory]'s preparation of the data: a fresh chain of [k]
    clusters, then the bytes. *)
Definition store {D} `{BlockDevice D} (v : Volume) (k : nat) (data : list byte) : M D FError Z :=
  first ← allocate_file_chain v k;
  _ ← write_file_data_chain v first data;
  mret first.

Lemma stored_contents {D} `{BlockDeviceLaws D} v c0 l data (d d' : D) : geometry v →
  total_sectors v ≤ sector_count d' → chain v (dev_view d') c0 l → stored v l data 0 d d' →
  take (length data) (chain_data v (dev_view d') l) = data.
Proof.
  intros G Hn Hch (Hok & _ & _ & _ & Hs & Hl). pose proof SECTOR_SIZE_eq.
  assert (∀ lba, 0 ≤ lba < sector_count d' → length (dev_view d' lba) = SECTOR_SIZE) as Hw by (intros; by apply dev_view_length).
  pose proof (chain_sector_length v G _ _ Hw Hn c0 l) as Hsl.
  pose proof (length_chain_data v G _ _ Hw Hn c0 l Hch) as Hlen.
  apply list_eq. intros p. destruct (decide (p < length data)%nat) as [Hp|Hp].
  2: { rewrite lookup_take_ge by lia. symmetry. apply lookup_ge_None. lia. }
  rewrite lookup_take_lt by done. set (j := (p / SECTOR_SIZE)%nat). set (r := (p mod SECTOR_SIZE)%nat).
  assert (p = j * SECTOR_SIZE + r)%nat as Ep by (unfold j, r; pose proof (Nat.div_mod p SECTOR_SIZE); lia).
  assert (r < SECTOR_SIZE)%nat as Hr by (apply Nat.mod_upper_bound; lia).
  assert (j < length (chain_sectors v l))%nat as Hj by (rewrite length_chain_sectors; nia).
  apply lookup_lt_is_Some in Hj as [x Hx].
  rewrite Ep at 1. rewrite <-(lookup_slice _ _ SECTOR_SIZE) by done. unfold chain_data.
  rewrite (slice_block _ _ _ _ x) by (done || (intros; by apply Hsl)).
  rewrite (Hs j x Hx) by (lia || nia). destruct (lookup_lt_is_Some_2 data p Hp) as [b Hb]. rewrite Hb.
  apply lookup_padded; [unfold slice; rewrite length_take; lia|]. rewrite lookup_slice by done. by rewrite <-Ep.
Qed.

Lemma take_slice {A} (l : list A) n s k : (s + k ≤ n)%nat → slice (take n l) s k = slice l s k.
Proof.
  intros. apply list_eq. intros i. destruct (decide (i < k)%nat).
  - by rewrite !lookup_slice, lookup_take_lt by lia.
  - unfold slice. by rewrite !lookup_take_ge by lia.
Qed.

Section store.
Context {D : Type} `{BlockDeviceLaws D} (v : Volume) (G : geometry v) (T : table_ok v).
#[local] Set Default Proof Using "All".

(** The state after a successful [store]: a fresh chain that holds the data. *)
Lemma store_runs k data (d : D) first d' : dev_ok d → total_sectors v ≤ sector_count d → data ≠ [] →
  store v k data d = (Ok first, d') →
  ∃ l m d1, length l = k ∧ chain v (dev_view d') first l ∧ grown v m l d d1 ∧ stored v l data 0 d1 d' ∧
    sector_count d' = sector_count d.
Proof.
  intros Hok Hn Hd Hr. unfold store in Hr. apply M_bind_Ok_inv in Hr as (c & d1 & Hr1 & Hr).
  apply M_bind_Ok_inv in Hr as (u & d2 & Hr2 & Hr). injection Hr as -> ->.
  unfold write_file_data_chain in Hr2. destruct data as [|b data]; [done|].
  destruct (Z.ltb_spec first 2); [done|]. destruct k as [|k]; [injection Hr1 as <- <-; lia|].
  apply (allocate_file_chain_runs v G T) in Hr1 as (l & m & Hch & Hlen & Hg); [|done..].
  pose proof Hg as ((Hok1 & Hc1 & Hu) & _).
  apply (write_data_loop_runs v G first l (b :: data) _ 0) in Hr2; [|done|done|by eapply chain_head|by rewrite drop_0].
  pose proof Hr2 as (Hok2 & Hc2 & Hout & _). exists l, m, d1. split_and!; [done| |exact Hg|done|congruence].
  apply (chain_below v (dev_view d1)); [done| |done]. intros x Hx. apply Hout. intros (c & Hc & Hxc)%chain_sectors_elem.
  pose proof (chain_allocatable _ _ _ _ G Hch) as Ha. rewrite Forall_forall in Ha.
  pose proof (cluster_sector_inside v c x G (Ha _ Hc) Hxc). lia.
Qed.

(** Reading any range of a stored file. *)
Lemma store_reads k data (d : D) first d1 name attrs offset buffer r d2 :
  dev_ok d → total_sectors v ≤ sector_count d → data ≠ [] → 0 ≤ offset →
  store v k data d = (Ok first, d1) →
  let e := mkDirEntry name first (Z.of_nat (length data)) attrs in
  let target := file_target e offset buffer in
  read_file_at v e offset buffer d1 = (r, d2) →
  r = Ok (target, splice buffer 0 (slice data (Z.to_nat offset) target)) ∨ ∃ b, r = Err (FBlock b).
Proof.
  intros Hok Hn Hd Hoff Hst e target Hr.
  destruct (store_runs _ _ _ _ _ Hok Hn Hd Hst) as (l & m & d0 & Hlen & Hch & _ & Hs & Hc1).
  assert (dev_ok d1) as Hok1 by by destruct Hs.
  assert (∀ lba, 0 ≤ lba < sector_count d1 → length (dev_view d1 lba) = SECTOR_SIZE) as Hw by (intros; by apply dev_view_length).
  assert (total_sectors v ≤ sector_count d1) as Hn1 by lia.
  pose proof (stored_contents v first l data d0 d1 G Hn1 Hch Hs) as Htake.
  destruct (read_file_at_computes v G (dev_view d1) (sector_count d1) Hw Hn1 e offset buffer l Hch Hoff d1 (shows_self d1 Hok1))
    as (d2' & _ & [E|[b E]]); rewrite Hr in E; simplify_eq; [|eauto].
  left. unfold file_read_spec. fold target. destruct (Nat.eqb_spec target 0) as [->|Ht].
  { change (slice data (Z.to_nat offset) 0) with (@nil byte). by rewrite splice_nil. }
  assert (Z.to_nat offset + target ≤ length data)%nat as Hfit.
  { unfold target, file_target, saturating_sub in *. cbn [size e] in *. lia. }
  pose proof (length_chain_data v G _ _ Hw Hn1 first l Hch) as Hcl.
  assert (length data ≤ length (chain_data v (dev_view d1) l))%nat as Hll.
  { rewrite <-Htake, length_take. lia. }
  rewrite (proj2 (Nat.leb_le _ _)) by lia. do 2 f_equal. f_equal. rewrite <-Htake. by rewrite take_slice.
Qed.

(** A chain stored before stays, with its contents. *)
Lemma store_preserves k data (d : D) first d' c l :
  dev_ok d → total_sectors v ≤ sector_count d → data ≠ [] →
  store v k data d = (Ok first, d') → chain v (dev_view d) c l →
  chain v (dev_view d') c l ∧ chain_data v (dev_view d') l = chain_data v (dev_view d) l ∧
  ∃ l', chain v (dev_view d') first l' ∧ l ## l'.
Proof.
  intros Hok Hn Hd Hst Hl. destruct (store_runs _ _ _ _ _ Hok Hn Hd Hst) as (l' & m & d1 & Hlen & Hch & Hg & Hs & _).
  destruct Hg as ((_ & _ & Hu) & Hm & Hz). destruct Hs as (_ & _ & Hout & _).
  pose proof (chain_allocatable _ _ _ _ G Hch) as Ha'. pose proof (chain_allocatable _ _ _ _ G Hl) as Ha.
  rewrite Forall_forall in Ha, Ha', Hz.
  assert (l ## l') as Hdis.
  { intros x Hx Hx'. by apply (free_entry_not_in_chain v G T _ _ _ _ Hl (Hz x Hx') (Ha' x Hx')). }
  assert (∀ x, x < first_data_sector v → dev_view d' x = dev_view d1 x) as Hbelow.
  { intros x Hx. apply Hout. intros (y & Hy & Hxy)%chain_sectors_elem.
    pose proof (cluster_sector_inside v y x G (Ha' _ Hy) Hxy). lia. }
  split_and!.
  - apply (chain_below v (dev_view d1)); [done..|]. eapply updates_chain; [done|done|exact Hu| |done].
    intros x Hx. apply Hm. intros Hx'. by apply (Hdis x).
  - unfold chain_data, blocks. f_equal. apply map_ext_in. intros x Hx%list_elem_of_In.
    apply chain_sectors_elem in Hx as (y & Hy & Hxy). pose proof (cluster_sector_inside v y x G (Ha _ Hy) Hxy) as Hr.
    rewrite Hout.
    + destruct Hu as [_ Hu]. apply Hu. lia.
    + intros (z & Hzl & Hxz)%chain_sectors_elem. rewrite (cluster_sectors_disjoint v y z x G Hxy Hxz) in Hy.
      by apply (Hdis z).
  - by exists l'.
Qed.
End store.
