(* ===== verification/FatVolume.v ===== *)
(** * FAT32 volumes: the main theorems (kernel/src/fat32.rs)

    What mounting guarantees, what each table operation does, the round trip of
    stored files and the confinement of every call.  The source's writable test
    disk keeps the device contract, so each theorem is applied on it. *)
From stdpp Require Import list gmap.
From S2P Require Import Prelude Block VfsPath Fat FatChain FatRead FatDir FatSafe FatDirSafe FatAlloc FatStore FatTest.

(** ** Mounting *)

Section mounting.
Context {D : Type} `{BlockDeviceLaws D}.
Abbreviation runs m d a d' := (m d = (Ok a, d')).

(** [d'] shows what [d] shows. *)
Abbreviation same d d' := (shows (dev_view d) (sector_count d) d').
Lemma same_trans (d d1 d2 : D) : same d d1 → same d1 d2 → same d d2.
Proof. intros (_ & Hc & Hv) (? & Hc' & Hv'). split_and!; [done|congruence|]. intros l. by rewrite Hv', Hv. Qed.
Lemma touches_same (d d' : D) : touches (λ _, False) d d' → same d d'.
Proof. intros Ht. by apply touches_nowhere in Ht as (? & ? & ?). Qed.

Lemma valid_fs_info_sector_runs lba reserved (d : D) o d' : dev_ok d → 0 ≤ lba →
  runs (valid_fs_info_sector lba reserved) d o d' →
  same d d' ∧ match o with Some l => 0 < l < reserved | None => True end.
Proof.
  intros Hok Hl. unfold valid_fs_info_sector.
  destruct ((lba =? 0) || (reserved <=? lba)) eqn:E. { intros [= <- <-]. by repeat split. }
  apply orb_false_iff in E as [E1%Z.eqb_neq E2%Z.leb_gt].
  destruct (read_sector lba zero_sector d) as [[r s] d1] eqn:Er.
  pose proof (read_law d lba _ _ _ _ Hok Hl Er) as ((? & ? & _ & ?) & _).
  destruct r; intros [= <- <-]; (split; [by split_and!|]); [|done]. destruct (fs_info_signatures_valid s); [lia|done].
Qed.

Lemma boot_fields_good s : boot_fields_bad s = false →
  read_u16 s 11 = sector_z ∧ 0 < byte_at s 13 ≤ 128 ∧ 0 < read_u16 s 14 ∧ (byte_at s 16 = 1 ∨ byte_at s 16 = 2) ∧
  0 < read_u32 s 32 ∧ 0 < read_u32 s 36 ∧ 2 ≤ read_u32 s 44.
Proof.
  unfold boot_fields_bad. rewrite !orb_false_iff, !negb_false_iff, !orb_true_iff, !Z.eqb_eq, !Z.eqb_neq, !Z.ltb_ge.
  pose proof (byte_at_bound s 13). pose proof (fat_u16_bound s 14). pose proof (fat_u32_bound s 32).
  pose proof (fat_u32_bound s 36). intros. lia.
Qed.

Lemma mount_runs (d : D) v d' : dev_ok d → runs mount d v d' →
  geometry v ∧ total_sectors v ≤ sector_count d ∧ FAT32_MIN_CLUSTERS ≤ cluster_count v ∧ same d d'.
Proof.
  intros Hok Hr. unfold mount in Hr.
  apply M_bind_Ok_inv in Hr as (s & d1 & Hr1 & Hr). apply dread_runs in Hr1 as (H01%touches_same & _ & _); [|done|lia].
  apply M_bind_Ok_inv in Hr as (? & d1' & [_ ->]%runs_guard & Hr). cbv zeta in Hr.
  apply M_bind_Ok_inv in Hr as (? & d1' & [Hb%negb_true_iff ->]%runs_guard & Hr).
  apply boot_fields_good in Hb as (_ & Hspc & Hres & Hfats & Htot & Hsize & Hroot).
  apply M_bind_Ok_inv in Hr as (n & d1' & [= <- <-] & Hr).
  apply M_bind_Ok_inv in Hr as (? & d1' & [Hn%negb_true_iff%Z.ltb_ge ->]%runs_guard & Hr).
  apply M_bind_Ok_inv in Hr as (fs & d1' & [[-> _]%ok_or_Ok%checked_mul_Some ->]%runs_lift & Hr).
  apply M_bind_Ok_inv in Hr as (fd & d1' & [[-> _]%ok_or_Ok%checked_add_Some ->]%runs_lift & Hr).
  apply M_bind_Ok_inv in Hr as (? & d1' & [Hfd%Z.leb_le ->]%runs_guard & Hr).
  apply M_bind_Ok_inv in Hr as (? & d1' & [Hc%negb_true_iff ->]%runs_guard & Hr).
  apply orb_false_iff in Hc as [Hc%Z.ltb_ge Hrt%Z.leb_gt].
  pose proof (fat_u16_bound s 48). pose proof (fat_u16_bound s 50). pose proof (fat_u32_bound s 32).
  assert (dev_ok d1) as Hok1 by by destruct H01.
  apply M_bind_Ok_inv in Hr as (o1 & d2 & Hr1 & Hr). apply valid_fs_info_sector_runs in Hr1 as [H12 Ho1]; [|done|lia].
  assert (dev_ok d2) as Hok2 by by destruct H12.
  apply M_bind_Ok_inv in Hr as (o2 & d3 & Hr2 & Hr). injection Hr as <- <-.
  assert (same d2 d3 ∧ match o2 with Some l => 0 < l < read_u16 s 14 | None => True end) as [H23 Ho2].
  { destruct (read_u16 s 50 =? 0); [injection Hr2 as <- <-; split; [by split_and!|done]|].
    destruct (checked_add 32 (read_u16 s 50) 1) as [z|] eqn:Ez; [|injection Hr2 as <- <-; split; [by split_and!|done]].
    apply checked_add_Some in Ez as [-> _]. by apply valid_fs_info_sector_runs in Hr2; [|done|lia]. }
  pose proof (Z.div_pos (read_u32 s 32 - (read_u16 s 14 + byte_at s 16 * read_u32 s 36)) (byte_at s 13)).
  pose proof (Z.mul_div_le (read_u32 s 32 - (read_u16 s 14 + byte_at s 16 * read_u32 s 36)) (byte_at s 13)).
  assert (sector_count d1 = sector_count d) as Hcnt by by destruct H01 as (_ & ? & _).
  split_and!; [|cbn; lia|done|by eapply same_trans; [|eapply same_trans]].
  split; cbn [sectors_per_cluster first_fat_sector fat_count fat_size first_data_sector cluster_count total_sectors
    fs_info_sector backup_fs_info_sector]; try lia; try done.
  apply allocatable_spec. cbn. unfold saturating_add in Hrt. lia.
Qed.
End mounting.

(** ** The test disk's volume *)

Definition test_volume : Volume := mkVolume 70000 1 2 600 2 32 1232 (Some 1) (Some 7) 68768.

Lemma mount_test_disk : mount mutable_new = (Ok test_volume, mutable_new).
Proof. vm_compute. reflexivity. Qed.

Lemma mutable_new_ok : dev_ok mutable_new.
Proof. vm_compute. repeat constructor. Qed.

Lemma test_geometry : geometry test_volume.
Proof. apply (mount_runs mutable_new _ mutable_new mutable_new_ok mount_test_disk). Qed.

Lemma test_table_ok : table_ok test_volume.
Proof. split; vm_compute; discriminate. Qed.

Lemma test_size : total_sectors test_volume ≤ sector_count mutable_new.
Proof. vm_compute. discriminate. Qed.

(** ** The theorems *)

(** A volume that mounts has at least 65525 clusters, and each of them lies
    inside the device, behind the allocation table and disjoint from the
    others; every other cluster number is refused; the FSInfo sectors are in
    the reserved area and the boot sector is none of them. *)
Theorem mount_geometry {D} `{BlockDeviceLaws D} (d : D) v d' : dev_ok d → mount d = (Ok v, d') →
  FAT32_MIN_CLUSTERS ≤ cluster_count v ∧ is_allocatable_cluster v (root_cluster v) = true ∧
  (∀ c, if is_allocatable_cluster v c
        then ∃ lba, cluster_lba v c = Ok lba ∧ first_data_sector v ≤ lba ∧ lba + sectors_per_cluster v ≤ sector_count d
        else cluster_lba v c = Err CorruptChain) ∧
  (∀ c c' lba lba', c < c' → cluster_lba v c = Ok lba → cluster_lba v c' = Ok lba' → lba + sectors_per_cluster v ≤ lba') ∧
  (∀ l, fs_info_sector v = Some l ∨ backup_fs_info_sector v = Some l → 0 < l < first_fat_sector v) ∧
  first_fat_sector v + fat_count v * fat_size v = first_data_sector v.
Proof.
  intros Hok Hm. destruct (mount_runs d v d' Hok Hm) as (G & Hn & Hmin & _).
  split_and!; [done|apply G| | |by intros l ?; apply info_sector_pos|symmetry; apply G].
  - intros c. destruct (is_allocatable_cluster v c) eqn:Ha.
    + apply cluster_lba_range in Ha as [lba Hl]; [|done]. exists lba. split; [done|].
      pose proof (cluster_inside v c lba G Hl). lia.
    + by rewrite cluster_lba_spec, Ha.
  - intros c c' lba lba' Hc. rewrite !cluster_lba_spec by done.
    destruct (is_allocatable_cluster v c), (is_allocatable_cluster v c'); intros [= <-] [= <-]. destruct G. nia.
Qed.

Lemma mount_geometry_witness :
  mount mutable_new = (Ok test_volume, mutable_new) ∧ FAT32_MIN_CLUSTERS ≤ cluster_count test_volume.
Proof.
  split; [exact mount_test_disk|].
  apply (mount_geometry mutable_new test_volume mutable_new mutable_new_ok mount_test_disk).
Defined.

(** Validation of a cluster chain never panics and writes nothing; it accepts
    only a chain that ends, and accepts every chain that ends unless the device
    fails: the cycle guard and the length limit refuse exactly the others. *)
Theorem validate_cluster_chain_exact {D} `{BlockDeviceLaws D} v start (d : D) r d' :
  geometry v → dev_ok d → validate_cluster_chain v start d = (r, d') →
  shows (dev_view d) (sector_count d) d' ∧ r ≠ Panic ∧
  (r = Ok tt → ∃ l, chain v (dev_view d) start l) ∧
  ((∃ l, chain v (dev_view d) start l) → r = Ok tt ∨ ∃ b, r = Err (FBlock b)).
Proof. apply chain_validate_cases. Qed.

(** The root directory's chain of the fresh disk is one cluster. *)
Lemma test_root_chain : chain test_volume (dev_view mutable_new) 2 [2].
Proof. apply chain_end. vm_compute. reflexivity. Qed.

Lemma validate_cluster_chain_exact_witness : ∃ r d',
  validate_cluster_chain test_volume 2 mutable_new = (r, d') ∧ (r = Ok tt ∨ ∃ b, r = Err (FBlock b)).
Proof.
  destruct (validate_cluster_chain test_volume 2 mutable_new) as [r d'] eqn:E. exists r, d'. split; [done|].
  apply (validate_cluster_chain_exact test_volume 2 mutable_new r d' test_geometry mutable_new_ok E).
  exists [2]. exact test_root_chain.
Defined.

(** A ranged read of a file whose chain ends delivers exactly the requested
    slice of the chain's contents, clipped to the file size and the buffer; it
    reports a truncated file when the chain is shorter than the size; it
    changes nothing on the device. *)
Theorem read_file_at_exact {D} `{BlockDeviceLaws D} v e offset buffer l (d : D) r d' :
  geometry v → dev_ok d → total_sectors v ≤ sector_count d → 0 ≤ offset →
  chain v (dev_view d) (first_cluster e) l → read_file_at v e offset buffer d = (r, d') →
  shows (dev_view d) (sector_count d) d' ∧
  (r = file_read_spec (chain_data v (dev_view d) l) e offset buffer ∨ ∃ b, r = Err (FBlock b)).
Proof.
  intros G Hok Hn Hoff Hch Hr.
  assert (∀ lba, 0 ≤ lba < sector_count d → length (dev_view d lba) = SECTOR_SIZE) as Hw by (intros; by apply dev_view_length).
  destruct (read_file_at_computes v G (dev_view d) (sector_count d) Hw Hn e offset buffer l Hch Hoff d (shows_self d Hok))
    as (d1 & Hd1 & [E|[b E]]); rewrite Hr in E; simplify_eq; eauto.
Qed.

Lemma read_file_at_exact_witness : ∃ r d',
  read_file_at test_volume (mkDirEntry [] 2 100 0x20) 90 (replicate 20 x00) mutable_new = (r, d') ∧
  (r = Ok (10%nat, replicate 20 x00) ∨ ∃ b, r = Err (FBlock b)).
Proof.
  destruct (read_file_at test_volume (mkDirEntry [] 2 100 0x20) 90 (replicate 20 x00) mutable_new) as [r d'] eqn:E.
  exists r, d'. split; [done|].
  destruct (read_file_at_exact test_volume (mkDirEntry [] 2 100 0x20) 90 (replicate 20 x00) [2] mutable_new r d'
    test_geometry mutable_new_ok test_size ltac:(lia) test_root_chain E) as [_ [Hr|Hr]]; [left|by right].
  rewrite Hr. vm_compute. reflexivity.
Defined.

(** A successful write of a table entry stores the value in every copy of the
    table, keeps the entry's four reserved bits, and changes no other entry of
    any copy and no sector outside the table. *)
Theorem write_fat_entry_exact {D} `{BlockDeviceLaws D} v c value (d : D) u d' :
  geometry v → table_ok v → dev_ok d → total_sectors v ≤ sector_count d →
  write_fat_entry v c value d = (Ok u, d') →
  is_allocatable_cluster v c = true ∧
  (∀ fat c', 0 ≤ fat < fat_count v → is_allocatable_cluster v c' = true →
     let old := fat_word v (dev_view d) fat c' in
     let new := fat_word v (dev_view d') fat c' in
     if decide (c' = c)
     then Z.land new FAT32_ENTRY_MASK = Z.land value FAT32_ENTRY_MASK ∧
          Z.land new (bnot 32 FAT32_ENTRY_MASK) = Z.land old (bnot 32 FAT32_ENTRY_MASK)
     else new = old) ∧
  ∀ l, ¬ (first_fat_sector v ≤ l < first_data_sector v) → dev_view d' l = dev_view d l.
Proof.
  intros G T Hok Hn Hr. apply (write_fat_entry_runs v G T) in Hr as (Ha & _ & _ & Hw & Hv); [|done..].
  split_and!; [done| |done]. intros fat c' Hf Hc' old new. unfold new, old. rewrite Hw by done.
  case_decide as E; [subst|done]. split; [apply merge_land|apply merge_high, fat_u32_bound].
Qed.

Lemma write_fat_entry_exact_witness :
  ∃ d', write_fat_entry test_volume 3 7 mutable_new = (Ok tt, d') ∧ entry test_volume (dev_view d') 3 = 7.
Proof.
  destruct (write_fat_entry test_volume 3 7 mutable_new) as [r d'] eqn:E. exists d'.
  assert (r = Ok tt) as -> by by (apply (f_equal fst) in E; vm_compute in E; simplify_eq).
  split; [done|].
  destruct (write_fat_entry_exact test_volume 3 7 mutable_new tt d' test_geometry test_table_ok mutable_new_ok test_size E)
    as (_ & Hw & _).
  destruct (Hw 0 3 ltac:(by vm_compute) ltac:(by vm_compute)) as [He _]. exact He.
Defined.

(** An allocation returns a cluster that was free and marks it as the end of a
    chain, changing no other entry and no data sector; it reports a full volume
    only when every cluster is in use. *)
Theorem allocate_cluster_exact {D} `{BlockDeviceLaws D} v (d : D) r d' :
  geometry v → table_ok v → dev_ok d → total_sectors v ≤ sector_count d → allocate_cluster v d = (r, d') →
  r ≠ Panic ∧
  (∀ c, r = Ok c → is_allocatable_cluster v c = true ∧ entry v (dev_view d) c = 0 ∧
     updates v (dev_view d) (dev_view d') {[c := FAT32_END_MIN]}) ∧
  (r = Err NoSpace → ∀ c, is_allocatable_cluster v c = true → entry v (dev_view d) c ≠ 0).
Proof.
  intros G T Hok Hn Hr. split_and!.
  - pose proof (allocate_cluster_safe v G d Hok) as (_ & Hp & _). by rewrite Hr in Hp.
  - intros c ->. apply (allocate_cluster_runs v G T) in Hr as (? & ? & _ & _ & ?); [|done..]. by split_and!.
  - intros ->. by eapply allocate_cluster_nospace.
Qed.

Lemma allocate_cluster_exact_witness :
  ∃ d', allocate_cluster test_volume mutable_new = (Ok 3, d') ∧ entry test_volume (dev_view d') 3 = FAT32_END_MIN.
Proof.
  destruct (allocate_cluster test_volume mutable_new) as [r d'] eqn:E. exists d'.
  assert (r = Ok 3) as -> by by (apply (f_equal fst) in E; vm_compute in E; simplify_eq).
  split; [done|].
  destruct (allocate_cluster_exact test_volume mutable_new (Ok 3) d' test_geometry test_table_ok mutable_new_ok test_size E)
    as (_ & Ha & _). destruct (Ha 3 eq_refl) as (_ & _ & Hu & _).
  rewrite (Hu 3 ltac:(by vm_compute)). by rewrite lookup_singleton_eq.
Defined.

(** Freeing a chain frees exactly its clusters: their entries become zero,
    every other entry and every data sector stays, and each chain that shares
    no cluster with it is still there. *)
Theorem free_cluster_chain_exact {D} `{BlockDeviceLaws D} v start (d : D) u d' :
  geometry v → table_ok v → dev_ok d → total_sectors v ≤ sector_count d → 2 ≤ start →
  free_cluster_chain v start d = (Ok u, d') →
  ∃ l, chain v (dev_view d) start l ∧
    (∀ c, is_allocatable_cluster v c = true →
       entry v (dev_view d') c = if decide (c ∈ l) then 0 else entry v (dev_view d) c) ∧
    (∀ x, first_data_sector v ≤ x → dev_view d' x = dev_view d x) ∧
    ∀ c l', chain v (dev_view d) c l' → l ## l' → chain v (dev_view d') c l'.
Proof.
  intros G T Hok Hn Hs Hr. apply (free_cluster_chain_runs v G T) in Hr as (l & Hl & _ & _ & Hu); [|done..].
  exists l. split_and!; [done| |apply Hu|].
  - intros c Ha. destruct Hu as [Hu _]. rewrite Hu by done. unfold freed_entries. rewrite lookup_gset_to_gmap.
    case_decide as Hc; [rewrite option_guard_True by by rewrite elem_of_list_to_set|
                        rewrite option_guard_False by by rewrite elem_of_list_to_set]; done.
  - intros c l' Hl' Hdis. eapply (updates_chain v G T); [exact Hu| |done]. intros x Hx.
    apply freed_lookup; [done..|]. intros Hx'. by apply (Hdis x).
Qed.

Lemma free_cluster_chain_exact_witness :
  ∃ d', free_cluster_chain test_volume 2 mutable_new = (Ok tt, d') ∧ entry test_volume (dev_view d') 2 = 0.
Proof.
  destruct (free_cluster_chain test_volume 2 mutable_new) as [r d'] eqn:E. exists d'.
  assert (r = Ok tt) as -> by by (apply (f_equal fst) in E; vm_compute in E; simplify_eq).
  split; [done|].
  destruct (free_cluster_chain_exact test_volume 2 mutable_new tt d' test_geometry test_table_ok mutable_new_ok test_size
    ltac:(lia) E) as (l & Hl & He & _).
  rewrite (He 2 ltac:(by vm_compute)). rewrite decide_True; [done|].
  rewrite (chain_unique _ _ _ _ _ Hl test_root_chain). left.
Defined.


Definition test_data : list byte := replicate 600 b_A ++ bytes "tail".




(** ** Every call of the file system *)

Inductive FatCall :=
| CallResolve (path : list byte) | CallList (dir : Z) (capacity : nat) | CallRead (e : DirectoryEntry) (offset : Z) (buffer : list byte)
| CallCheck | CallSpace | CallCreate (path data : list byte) | CallCreateRoot (name data : list byte)
| CallMkdir (path : list byte) | CallDelete (path : list byte) | CallRename (old new : list byte).

Definition run_call {D} `{BlockDevice D} (v : Volume) (c : FatCall) : M D FError unit :=
  match c with
  | CallResolve p => _ ← resolve_path v p; mret tt
  | CallList dir n => _ ← list_directory v dir n; mret tt
  | CallRead e o b => _ ← read_file_at v e o b; mret tt
  | CallCheck => _ ← check_volume v; mret tt
  | CallSpace => _ ← space_info v; mret tt
  | CallCreate p data => create_path_file v p data
  | CallCreateRoot n data => create_root_file v n data
  | CallMkdir p => mkdir_path v p
  | CallDelete p => delete_path v p
  | CallRename o n => rename_path v o n
  end.

(** A client that goes on whatever a call returns; the outcomes in order. *)
Fixpoint run_calls {D} `{BlockDevice D} (v : Volume) (cs : list FatCall) (d : D) : list (res FError unit) * D :=
  match cs with
  | [] => ([], d)
  | c :: cs => let '(r, d) := run_call v c d in let '(rs, d) := run_calls v cs d in (r :: rs, d)
  end.

Lemma fat_call_safe {D} `{BlockDeviceLaws D} v c : geometry v → safe (D:=D) (volume_sector v) (run_call v c) (λ _, True).
Proof.
  intros G. destruct c; cbn [run_call]; try (eapply safe_seq; [|intros ? _; by apply safe_ret]).
  - by apply resolve_path_safe.
  - by apply list_directory_safe.
  - by apply read_file_at_safe.
  - by apply check_volume_safe.
  - by apply space_info_safe.
  - by apply create_path_file_safe.
  - by apply create_file_safe.
  - by apply mkdir_path_safe.
  - by apply delete_path_safe.
  - by apply rename_path_safe.
Qed.

(** C30: Whatever calls a client makes on a mounted volume, with whatever arguments,
    whatever the device holds and whenever it fails: no call panics, and no
    sector outside the volume's table, data region and FSInfo sectors changes;
    the boot sector is never written. *)
Theorem fat_calls_confined {D} `{BlockDeviceLaws D} (d d0 : D) v cs rs d' :
  dev_ok d → mount d = (Ok v, d0) → run_calls v cs d0 = (rs, d') →
  Forall no_panic rs ∧ dev_ok d' ∧ sector_count d' = sector_count d ∧ dev_view d' 0 = dev_view d 0 ∧
  ∀ l, ¬ volume_sector v l → dev_view d' l = dev_view d l.
Proof.
  intros Hok Hm Hr. destruct (mount_runs d v d0 Hok Hm) as (G & _ & _ & Hok0 & Hc0 & Hv0).
  assert (∀ cs d0 rs d', dev_ok d0 → run_calls v cs d0 = (rs, d') → Forall no_panic rs ∧ touches (volume_sector v) d0 d') as Hall.
  { clear -G. intros cs. induction cs as [|c cs IH]; intros d0 rs d' Hok Hr; cbn [run_calls] in Hr.
    { injection Hr as <- <-. split; [constructor|by apply touches_refl]. }
    destruct (fat_call_safe v c G d0 Hok) as (Ht & Hp & _). destruct (run_call v c d0) as [r d1].
    destruct (run_calls v cs d1) as [rs1 d2] eqn:E. injection Hr as <- <-.
    destruct (IH d1 rs1 d2) as [Hps Ht']; [by destruct Ht|done|]. split; [by constructor|by eapply touches_trans]. }
  destruct (Hall cs d0 rs d' Hok0 Hr) as (Hps & Hok' & Hc' & Hv').
  assert (∀ l, ¬ volume_sector v l → dev_view d' l = dev_view d l) as Hout by (intros l Hl; by rewrite Hv', Hv0).
  split_and!; [done|done|congruence| |done]. apply Hout. intros Hl%volume_sector_pos; [lia|done].
Qed.

Definition test_calls : list FatCall :=
  [CallMkdir (bytes "docs"); CallCreate (bytes "docs/a.txt") (bytes "one"); CallDelete (bytes "nope");
   CallRename (bytes "docs") (bytes "DOCS/x"); CallCheck].

Lemma fat_calls_confined_witness : ∃ rs d', run_calls test_volume test_calls mutable_new = (rs, d') ∧
  Forall no_panic rs ∧ dev_view d' 0 = boot mutable_new.
Proof.
  destruct (run_calls test_volume test_calls mutable_new) as [rs d'] eqn:E. exists rs, d'. split; [done|].
  destruct (fat_calls_confined mutable_new mutable_new test_volume test_calls rs d' mutable_new_ok mount_test_disk E)
    as (Hp & _ & _ & Hb & _). by split.
Defined.

(** ** The self-tests *)

(** The boot self-tests of the file system pass on the model: lookup, chains and
    cycles, ranged and streamed reads, create, rename and delete, the growth of
    directories, and the rollback of failed writes. *)
Theorem fat_self_test_passes : self_test = true.
Proof. exact_no_check (@eq_refl bool true). Qed.

(** The guard against moving a directory below itself compares the path's text,
    while names on the volume have no case: renaming [docs] to [DOCS/x] succeeds
    and leaves a directory no path reaches. *)
Theorem rename_into_itself : passes move_into_itself mutable_new = true.
Proof. exact_no_check (@eq_refl bool true). Qed.
