(* ===== verification/Memory.v ===== *)
(** * Physical frames (kernel/src/memory.rs)

    The frame allocator: ranges of usable memory handed out by a cursor, and a
    stack of reclaimed frames.  The frames its account calls allocated and the
    reclaimed ones are, together, exactly those the cursors have passed. *)
From stdpp Require Import list gmap.
From S2P Require Import Prelude.

Definition FRAME_SIZE : Z := 4096.
Definition MAX_USABLE_REGIONS : nat := 128.
Definition MAX_RECLAIMED_FRAMES : nat := 1024.
#[global] Opaque MAX_USABLE_REGIONS MAX_RECLAIMED_FRAMES.

Record FrameRange := mkRange { start : Z; next : Z; end_ : Z }.
Definition range_empty : FrameRange := mkRange 0 0 0.

Record Stats := mkStats { usable_regions : nat; total : Z; allocated : Z; remaining : Z }.
Inductive InitError := AlreadyInitialized | TooManyUsableRegions | AddressOverflow | NoUsableFrames.

Record PhysicalFrameAllocator := mkAllocator {
  ranges : list FrameRange; range_count : nat; current_range : nat; total_frames : Z; allocated_frames : Z;
  reclaimed_frames : list Z; reclaimed_count : nat; initialized : bool }.

Definition allocator_empty : PhysicalFrameAllocator :=
  mkAllocator (replicate MAX_USABLE_REGIONS range_empty) 0 0 0 0 (replicate MAX_RECLAIMED_FRAMES 0) 0 false.

(** The boot loader's memory map: the kind is usable or not. *)
Record MemoryRegion := mkRegion { region_start : Z; region_end : Z; usable : bool }.

Definition align_down (address alignment : Z) : Z := Z.land address (bnot 64 (alignment - 1)).
Definition align_up (address alignment : Z) : option Z :=
  (λ v, align_down v alignment) <$> checked_add 64 address (alignment - 1).

(** [PhysFrame::from_start_address(PhysAddr::new(address))] of the x86_64 crate:
    it accepts the page-aligned addresses below 2^52. *)
Class PhysFrames := {
  phys_frame : Z → option Z;
  phys_frame_law a : 0 ≤ a < 2 ^ 52 → a mod FRAME_SIZE = 0 → phys_frame a = Some a }.

(** The loop body of [initialize]. *)
Definition add_region (r : MemoryRegion) (s : PhysicalFrameAllocator) : res InitError unit * PhysicalFrameAllocator :=
  if negb (usable r) then (Ok tt, s) else
  match align_up (Z.max (region_start r) 0x100000) FRAME_SIZE with
  | None => (Err AddressOverflow, s)
  | Some a =>
    let b := align_down (region_end r) FRAME_SIZE in
    if b <=? a then (Ok tt, s) else
    if Nat.eqb (range_count s) (length (ranges s)) then (Err TooManyUsableRegions, s) else
    match checked_add 64 (total_frames s) ((b - a) / FRAME_SIZE) with
    | None => (Err AddressOverflow, s)
    | Some t =>
      (Ok tt, mkAllocator (<[range_count s := mkRange a a b]> (ranges s)) (range_count s + 1) (current_range s) t
                (allocated_frames s) (reclaimed_frames s) (reclaimed_count s) (initialized s))
    end
  end.

Fixpoint add_regions (rs : list MemoryRegion) : M PhysicalFrameAllocator InitError unit :=
  match rs with
  | [] => mret tt
  | r :: rs => _ ← add_region r; add_regions rs
  end.

Definition set_initialized (s : PhysicalFrameAllocator) : PhysicalFrameAllocator :=
  mkAllocator (ranges s) (range_count s) (current_range s) (total_frames s) (allocated_frames s)
    (reclaimed_frames s) (reclaimed_count s) true.

Definition initialize (regions : list MemoryRegion) : M PhysicalFrameAllocator InitError unit :=
  was ← gets initialized;
  _ ← guard_ok (negb was) AlreadyInitialized;
  _ ← add_regions regions;
  n ← gets total_frames;
  _ ← guard_ok (negb (n =? 0)) NoUsableFrames;
  modify set_initialized.

Definition stats (s : PhysicalFrameAllocator) : Stats :=
  mkStats (range_count s) (total_frames s) (allocated_frames s) (saturating_sub (total_frames s) (allocated_frames s)).

Definition in_range (a : Z) (r : FrameRange) : bool := (start r <=? a) && (a <? end_ r).
Definition contains (frame : Z) (s : PhysicalFrameAllocator) : bool :=
  any (in_range frame) (take (range_count s) (ranges s)).

(** The count never underflows: zero is refused before. *)
Definition deallocate_frame (frame : Z) (s : PhysicalFrameAllocator) : bool * PhysicalFrameAllocator :=
  if negb (contains frame s) || (allocated_frames s =? 0)
     || Nat.eqb (reclaimed_count s) (length (reclaimed_frames s))
     || bool_decide (frame ∈ take (reclaimed_count s) (reclaimed_frames s))
  then (false, s)
  else (true, mkAllocator (ranges s) (range_count s) (current_range s) (total_frames s) (allocated_frames s - 1)
                (<[reclaimed_count s := frame]> (reclaimed_frames s)) (reclaimed_count s + 1) (initialized s)).

Section allocate.
Context `{PhysFrames}.

(** The cursor loop; [n] ranges are left.  Indexing past the array panics. *)
Fixpoint advance_cursor (n : nat) (s : PhysicalFrameAllocator) : res unit (option Z) * PhysicalFrameAllocator :=
  match n with
  | O => (Ok None, s)
  | S n =>
    match ranges s !! current_range s with
    | None => (Panic, s)
    | Some r =>
      if next r <? end_ r then
        (Ok (phys_frame (next r)),
         mkAllocator (<[current_range s := mkRange (start r) (next r + FRAME_SIZE) (end_ r)]> (ranges s))
           (range_count s) (current_range s) (total_frames s) (allocated_frames s + 1)
           (reclaimed_frames s) (reclaimed_count s) (initialized s))
      else advance_cursor n (mkAllocator (ranges s) (range_count s) (current_range s + 1) (total_frames s)
             (allocated_frames s) (reclaimed_frames s) (reclaimed_count s) (initialized s))
    end
  end.

Definition allocate_frame (s : PhysicalFrameAllocator) : res unit (option Z) * PhysicalFrameAllocator :=
  if negb (initialized s) then (Ok None, s)
  else if negb (Nat.eqb (reclaimed_count s) 0) then
    let k := (reclaimed_count s - 1)%nat in
    match reclaimed_frames s !! k with
    | None => (Panic, s)
    | Some a => (Ok (phys_frame a),
        mkAllocator (ranges s) (range_count s) (current_range s) (total_frames s) (allocated_frames s + 1)
          (reclaimed_frames s) k (initialized s))
    end
  else advance_cursor (range_count s - current_range s) s.

(** The locked operations, one after another; three frames are never given back. *)
Definition self_test (s : PhysicalFrameAllocator) : bool * PhysicalFrameAllocator :=
  let '(f1, s) := allocate_frame s in
  let '(f2, s) := allocate_frame s in
  let '(f3, s) := allocate_frame s in
  (match f1, f2, f3 with
   | Ok (Some a), Ok (Some b), Ok (Some c) =>
     negb (a =? b) && negb (b =? c) && negb (a =? c) && contains a s && contains b s && contains c s
   | _, _, _ => false
   end, s).
End allocate.

(** ** Alignment *)

Lemma align_down_eq a : 0 ≤ a < 2 ^ 64 → align_down a FRAME_SIZE = a - a mod FRAME_SIZE.
Proof. intros. unfold align_down, FRAME_SIZE. exact (land_bnot_ones 64 12 a ltac:(lia) ltac:(lia)). Qed.

Lemma frame_align_down_spec a : 0 ≤ a < 2 ^ 64 →
  align_down a FRAME_SIZE mod FRAME_SIZE = 0 ∧ 0 ≤ align_down a FRAME_SIZE ∧ a - FRAME_SIZE < align_down a FRAME_SIZE ≤ a.
Proof.
  intros Ha. rewrite align_down_eq by done. unfold FRAME_SIZE.
  pose proof (Z.mod_pos_bound a 4096). pose proof (Z.div_mod a 4096). pose proof (Z.div_pos a 4096).
  split; [|lia]. replace (a - a mod 4096) with (a / 4096 * 4096) by lia. apply Z.mod_mul. lia.
Qed.

Lemma frame_align_up_spec a b : 0 ≤ a → align_up a FRAME_SIZE = Some b → b mod FRAME_SIZE = 0 ∧ a ≤ b < a + FRAME_SIZE.
Proof.
  intros Ha. unfold align_up. destruct (checked_add 64 a (FRAME_SIZE - 1)) as [c|] eqn:E; [|done].
  apply checked_add_Some in E as [-> Hlt]. intros [= <-]. unfold FRAME_SIZE in *.
  destruct (frame_align_down_spec (a + (4096 - 1))) as (Hm & _ & Hb); [lia|]. unfold FRAME_SIZE in *. split; [done|lia].
Qed.

Lemma aligned_diff a b : a mod FRAME_SIZE = 0 → b mod FRAME_SIZE = 0 → a ≤ b → ∃ k : nat, b = a + Z.of_nat k * FRAME_SIZE.
Proof.
  unfold FRAME_SIZE. intros Ha Hb Hab. apply Z.mod_divide in Ha as [x ->]; [|lia]. apply Z.mod_divide in Hb as [y ->]; [|lia].
  exists (Z.to_nat (y - x)). lia.
Qed.

(** ** Frames handed out *)

Definition frames_between (a b : Z) : list Z := (λ i, a + Z.of_nat i * FRAME_SIZE) <$> seq 0 (Z.to_nat ((b - a) / FRAME_SIZE)).

(** What the cursor of a range has passed, and all the range has. *)
Definition passed (r : FrameRange) : list Z := frames_between (start r) (next r).

Definition range_wf (r : FrameRange) : Prop :=
  0x100000 ≤ start r ∧ start r mod FRAME_SIZE = 0 ∧ next r mod FRAME_SIZE = 0 ∧ end_ r mod FRAME_SIZE = 0 ∧
  start r ≤ next r ≤ end_ r ∧ end_ r ≤ 2 ^ 52.

Definition apart (r1 r2 : FrameRange) : Prop := end_ r1 ≤ start r2 ∨ end_ r2 ≤ start r1.

Lemma frames_between_elem a b f : a mod FRAME_SIZE = 0 → b mod FRAME_SIZE = 0 → a ≤ b →
  f ∈ frames_between a b ↔ a ≤ f < b ∧ f mod FRAME_SIZE = 0.
Proof.
  intros Ha Hb Hab. destruct (aligned_diff a b Ha Hb Hab) as [k ->]. unfold frames_between, FRAME_SIZE in *.
  replace ((a + Z.of_nat k * 4096 - a) / 4096) with (Z.of_nat k) by (rewrite Z.add_simpl_l, Z.div_mul; lia).
  rewrite Nat2Z.id, list_elem_of_fmap. setoid_rewrite elem_of_seq. split.
  - intros (i & -> & Hi). split; [lia|]. by rewrite Z.mod_add by lia.
  - intros [Hf Hm]. destruct (aligned_diff a f) as [i ->]; [done|done|lia|]. unfold FRAME_SIZE in *. exists i. split; [done|lia].
Qed.

Lemma frames_between_step a b : a mod FRAME_SIZE = 0 → b mod FRAME_SIZE = 0 → a ≤ b →
  frames_between a (b + FRAME_SIZE) = frames_between a b ++ [b].
Proof.
  intros Ha Hb Hab. destruct (aligned_diff a b Ha Hb Hab) as [k ->]. unfold frames_between, FRAME_SIZE.
  replace ((a + Z.of_nat k * 4096 + 4096 - a) / 4096) with (Z.of_nat (S k))
    by (replace (a + Z.of_nat k * 4096 + 4096 - a) with (Z.of_nat (S k) * 4096) by lia; rewrite Z.div_mul; lia).
  replace ((a + Z.of_nat k * 4096 - a) / 4096) with (Z.of_nat k) by (rewrite Z.add_simpl_l, Z.div_mul; lia).
  by rewrite !Nat2Z.id, seq_S, fmap_app.
Qed.

Lemma frames_between_nil a : frames_between a a = [].
Proof. unfold frames_between. by rewrite Z.sub_diag. Qed.

Lemma length_frames_between a b : a mod FRAME_SIZE = 0 → b mod FRAME_SIZE = 0 → a ≤ b →
  Z.of_nat (length (frames_between a b)) = (b - a) / FRAME_SIZE.
Proof.
  intros Ha Hb Hab. unfold frames_between. rewrite length_fmap, length_seq.
  pose proof (Z.div_pos (b - a) FRAME_SIZE). unfold FRAME_SIZE in *. lia.
Qed.

Lemma frames_between_nodup a b : NoDup (frames_between a b).
Proof. apply NoDup_fmap_2; [|apply NoDup_seq]. intros i j. unfold FRAME_SIZE. lia. Qed.

(** Every frame the cursors have passed. *)
Definition issued (rs : list FrameRange) : list Z := concat (map passed rs).

Lemma issued_elem rs f : f ∈ issued rs ↔ ∃ r, r ∈ rs ∧ f ∈ passed r.
Proof.
  unfold issued. induction rs as [|r rs IH]; cbn [map concat].
  - split; [by intros ?%not_elem_of_nil|by intros (? & ?%not_elem_of_nil & _)].
  - rewrite elem_of_app, IH. setoid_rewrite elem_of_cons. naive_solver.
Qed.

Lemma passed_elem r f : range_wf r → f ∈ passed r ↔ start r ≤ f < next r ∧ f mod FRAME_SIZE = 0.
Proof. intros (? & ? & ? & ? & ? & ?). apply frames_between_elem; done || lia. Qed.

Inductive all_apart : list FrameRange → Prop :=
| apart_nil : all_apart []
| apart_cons r rs : Forall (apart r) rs → all_apart rs → all_apart (r :: rs).

Lemma issued_nodup rs : Forall range_wf rs → all_apart rs → NoDup (issued rs).
Proof.
  intros Hwf Ha. induction Ha as [|r rs Hr Ha IH]; [constructor|]. apply Forall_cons in Hwf as [Hw Hwf].
  unfold issued; cbn [map concat]. fold (issued rs). apply NoDup_app. split_and!; [apply frames_between_nodup| |auto].
  intros f Hf (r' & Hr' & Hf')%issued_elem. rewrite Forall_forall in Hwf, Hr.
  apply passed_elem in Hf; [|done]. apply passed_elem in Hf'; [|auto].
  destruct (Hwf r' Hr') as (? & ? & ? & ? & ? & ?), Hw as (? & ? & ? & ? & ? & ?).
  destruct (Hr r' Hr'); lia.
Qed.

Lemma all_apart_snoc rs r : all_apart rs → Forall (λ r', apart r' r) rs → all_apart (rs ++ [r]).
Proof.
  induction 1 as [|r0 rs Hr Ha IH]; intros Hf; [by repeat constructor|]. apply Forall_cons in Hf as [Hf0 Hf].
  simpl. constructor; [|auto]. apply Forall_app. split; [done|by constructor].
Qed.

(** Advancing one cursor. *)
Lemma issued_advance rs i r : rs !! i = Some r → range_wf r →
  issued (<[i := mkRange (start r) (next r + FRAME_SIZE) (end_ r)]> rs) ≡ₚ next r :: issued rs.
Proof.
  intros Hi (H1 & H2 & H3 & H4 & H5 & H6). revert i Hi. induction rs as [|r0 rs IH]; intros [|i] Hi; simplify_eq/=.
  - unfold issued; cbn [map concat]. unfold passed at 1; cbn [start next].
    rewrite frames_between_step by (done || lia). rewrite <-app_assoc. simpl. by rewrite <-Permutation_middle.
  - unfold issued in *; cbn [map concat]. rewrite IH by done. by rewrite Permutation_middle.
Qed.

Lemma all_apart_advance rs i r x : rs !! i = Some r → all_apart rs →
  all_apart (<[i := mkRange (start r) x (end_ r)]> rs).
Proof.
  intros Hi Ha. revert i Hi. induction Ha as [|r0 rs Hr Ha IH]; intros [|i] Hi; simplify_eq/=.
  - constructor; [|done]. apply (Forall_impl _ _ _ Hr). done.
  - constructor; [|auto]. apply Forall_insert; [done|]. exact (Forall_lookup_1 _ _ _ _ Hr Hi).
Qed.

Definition range_frames (r : FrameRange) : Z := (end_ r - start r) / FRAME_SIZE.
Definition all_frames (rs : list FrameRange) : Z := foldr (λ r n, range_frames r + n) 0 rs.

(** ** The invariant: [live] are the frames the account calls allocated *)

Record frames_inv (s : PhysicalFrameAllocator) (live : list Z) : Prop := {
  inv_ranges : length (ranges s) = MAX_USABLE_REGIONS;
  inv_count : (range_count s ≤ MAX_USABLE_REGIONS)%nat;
  inv_reclaimed : length (reclaimed_frames s) = MAX_RECLAIMED_FRAMES;
  inv_rcount : (reclaimed_count s ≤ MAX_RECLAIMED_FRAMES)%nat;
  inv_wf : Forall range_wf (take (range_count s) (ranges s));
  inv_apart : all_apart (take (range_count s) (ranges s));
  inv_before : ∀ i r, (i < current_range s)%nat → take (range_count s) (ranges s) !! i = Some r → next r = end_ r;
  inv_frames : live ++ take (reclaimed_count s) (reclaimed_frames s) ≡ₚ issued (take (range_count s) (ranges s));
  inv_allocated : allocated_frames s = Z.of_nat (length live);
  inv_total : total_frames s = all_frames (take (range_count s) (ranges s)) }.

(** A frame of usable memory. *)
Definition usable_frame (s : PhysicalFrameAllocator) (f : Z) : Prop :=
  f mod FRAME_SIZE = 0 ∧ 0x100000 ≤ f < 2 ^ 52 ∧ contains f s = true.

Lemma frames_nodup s live : frames_inv s live → NoDup (live ++ take (reclaimed_count s) (reclaimed_frames s)).
Proof. intros []. rewrite inv_frames0. by apply issued_nodup. Qed.

Lemma contains_spec f s : contains f s = true ↔ ∃ r, r ∈ take (range_count s) (ranges s) ∧ start r ≤ f < end_ r.
Proof.
  unfold contains. rewrite any_true. unfold in_range. setoid_rewrite andb_true_iff. setoid_rewrite Z.leb_le. setoid_rewrite Z.ltb_lt.
  setoid_rewrite list_elem_of_lookup. naive_solver.
Qed.

Lemma issued_usable s live f : frames_inv s live → f ∈ issued (take (range_count s) (ranges s)) → usable_frame s f.
Proof.
  intros [] (r & Hr & Hf)%issued_elem. rewrite Forall_forall in inv_wf0. pose proof (inv_wf0 r Hr) as Hw.
  apply passed_elem in Hf as [Hf Hm]; [|done]. destruct Hw as (? & ? & ? & ? & ? & ?).
  split_and!; [done|lia|lia|]. apply contains_spec. exists r. split; [done|lia].
Qed.

Lemma live_usable s live f : frames_inv s live → f ∈ live → usable_frame s f.
Proof. intros Hi Hf. eapply issued_usable; [done|]. rewrite <-inv_frames by done. apply elem_of_app. by left. Qed.

(** Releasing a live frame succeeds unless the stack of reclaimed frames is full. *)
Lemma deallocate_spec s live live' f b s' : frames_inv s live → live ≡ₚ f :: live' → deallocate_frame f s = (b, s') →
  if b then frames_inv s' live' else s' = s ∧ reclaimed_count s = MAX_RECLAIMED_FRAMES.
Proof.
  intros Hi Hp Hd. pose proof (frames_nodup s live Hi) as Hnd.
  assert (f ∈ live) as Hf by (rewrite Hp; left).
  destruct (live_usable _ _ _ Hi Hf) as (_ & _ & Hcon). pose proof Hi as []. unfold deallocate_frame in Hd.
  rewrite Hcon in Hd. cbn [negb orb] in Hd.
  rewrite (proj2 (Z.eqb_neq _ _)) in Hd by (rewrite inv_allocated0, Hp; simpl; lia). cbn [orb] in Hd.
  rewrite inv_reclaimed0 in Hd. destruct (Nat.eqb_spec (reclaimed_count s) MAX_RECLAIMED_FRAMES) as [E|Hne].
  { injection Hd as <- <-. done. }
  cbn [orb] in Hd. apply NoDup_app in Hnd as (_ & Hdis & _).
  rewrite bool_decide_eq_false_2 in Hd by auto. injection Hd as <- <-.
  split; cbn [ranges range_count reclaimed_frames reclaimed_count current_range allocated_frames total_frames]; try done.
  - by rewrite length_insert.
  - lia.
  - rewrite Nat.add_1_r, take_S_r with (x := f) by (apply list_lookup_insert_eq; lia).
    rewrite take_insert_ge by lia. rewrite <-inv_frames0, Hp.
    rewrite (Permutation_app_comm live'), (Permutation_app_comm (f :: live')), <-app_assoc. done.
  - rewrite inv_allocated0, Hp. simpl. lia.
Qed.

Section frames.
Context `{PhysFrames}.
#[local] Set Default Proof Using "Type".

Lemma usable_accepted s live f : frames_inv s live → f ∈ issued (take (range_count s) (ranges s)) → phys_frame f = Some f.
Proof. intros Hi Hf. destruct (issued_usable _ _ _ Hi Hf) as (Hm & Hb & _). apply phys_frame_law; [lia|done]. Qed.

Lemma all_passed_total rs : Forall range_wf rs → (∀ i r, rs !! i = Some r → next r = end_ r) →
  Z.of_nat (length (issued rs)) = all_frames rs.
Proof.
  intros Hwf. induction Hwf as [|r rs (? & ? & ? & ? & ? & ?) Hwf IH]; intros Hend; [done|].
  unfold issued; cbn [map concat all_frames foldr]. rewrite length_app, Nat2Z.inj_add. fold (issued rs).
  rewrite IH by (intros i; exact (Hend (S i))). unfold passed. rewrite length_frames_between by (done || lia).
  by rewrite (Hend 0%nat r eq_refl).
Qed.

Lemma frames_inv_advance s live : frames_inv s live → (current_range s < range_count s)%nat →
  (∀ r, take (range_count s) (ranges s) !! current_range s = Some r → next r = end_ r) →
  frames_inv (mkAllocator (ranges s) (range_count s) (current_range s + 1) (total_frames s)
             (allocated_frames s) (reclaimed_frames s) (reclaimed_count s) (initialized s)) live.
Proof.
  intros [] Hlt Hend. split; try done. cbn. intros i r Hir Hr.
  destruct (decide (i = current_range s)) as [->|]; [by apply Hend|]. apply (inv_before0 i); [lia|done].
Qed.

(** What an allocation returns. *)
Definition allocation_ok (live : list Z) (o : option Z) (s' : PhysicalFrameAllocator) : Prop :=
  match o with
  | Some f => f ∉ live ∧ usable_frame s' f ∧ frames_inv s' (f :: live)
  | None => frames_inv s' live ∧ Z.of_nat (length live) = total_frames s'
  end.

Lemma advance_cursor_spec n s live : frames_inv s live → reclaimed_count s = 0%nat →
  n = (range_count s - current_range s)%nat →
  ∃ o s', advance_cursor n s = (Ok o, s') ∧ allocation_ok live o s'.
Proof.
  revert s. induction n as [|n IH]; intros s Hi Hrc Hn; cbn [advance_cursor].
  { exists None, s. split; [done|]. pose proof Hi as []. split; [done|].
    rewrite Hrc, app_nil_r in inv_frames0. rewrite inv_frames0, inv_total0. apply all_passed_total; [done|].
    intros i r Hr. apply (inv_before0 i); [|done]. pose proof (lookup_lt_Some _ _ _ Hr) as Hlt.
    rewrite length_take in Hlt. lia. }
  pose proof Hi as []. assert (current_range s < range_count s)%nat as Hcur by lia.
  destruct (ranges s !! current_range s) as [r|] eqn:Er.
  2: { apply lookup_ge_None in Er. lia. }
  assert (take (range_count s) (ranges s) !! current_range s = Some r) as Ert by by rewrite lookup_take_lt.
  pose proof (Forall_lookup_1 _ _ _ _ inv_wf0 Ert) as Hw. pose proof Hw as (W1 & W2 & W3 & W4 & W5 & W6).
  destruct (Z.ltb_spec (next r) (end_ r)) as [Hlt|Hge].
  - set (r' := mkRange (start r) (next r + FRAME_SIZE) (end_ r)).
    assert (next r + FRAME_SIZE ≤ end_ r) as Hfit.
    { destruct (aligned_diff (next r) (end_ r)) as [k Hk]; [done|done|lia|].
      assert (k ≠ 0%nat) by (intros ->; lia). unfold FRAME_SIZE in *. lia. }
    assert (range_wf r') as Hw'.
    { unfold range_wf, r'; cbn [start next end_]. split_and!; try done; [|unfold FRAME_SIZE in *; lia].
      unfold FRAME_SIZE in *. rewrite Z.add_mod, W3 by lia. done. }
    rewrite phys_frame_law by (done || lia).
    eexists (Some (next r)), _. split; [reflexivity|]. unfold allocation_ok.
    assert (frames_inv (mkAllocator (<[current_range s := r']> (ranges s)) (range_count s) (current_range s)
      (total_frames s) (allocated_frames s + 1) (reclaimed_frames s) (reclaimed_count s) (initialized s)) (next r :: live)) as Hi'.
    { assert (take (range_count s) (<[current_range s := r']> (ranges s)) = <[current_range s := r']> (take (range_count s) (ranges s)))
        as Htake by by rewrite take_insert_lt.
      split; cbn [ranges range_count reclaimed_frames reclaimed_count current_range allocated_frames total_frames];
        rewrite ?Htake, ?length_insert; try done.
      - by apply Forall_insert.
      - exact (all_apart_advance _ _ _ _ Ert inv_apart0).
      - intros i r1 Hir Hr1. rewrite list_lookup_insert_ne in Hr1 by lia. by apply (inv_before0 i).
      - simpl. rewrite inv_frames0. symmetry. exact (issued_advance _ _ _ Ert Hw).
      - rewrite inv_allocated0. simpl. lia.
      - rewrite inv_total0. clear -Ert. revert Ert. generalize (current_range s) as i.
        induction (take (range_count s) (ranges s)) as [|r0 rs IH]; intros [|i] Hi; simplify_eq/=; [done|].
        by rewrite (IH i Hi). }
    split_and!; [| |exact Hi'].
    + pose proof (frames_nodup _ _ Hi') as Hnd. simpl in Hnd. apply NoDup_cons in Hnd as [Hni _].
      intros Hin. apply Hni. apply elem_of_app. by left.
    + eapply live_usable; [exact Hi'|left].
  - destruct (IH _ (frames_inv_advance s live Hi Hcur ltac:(intros r1 Hr1; rewrite Ert in Hr1; injection Hr1 as <-; lia)))
      as (o & s' & Ha & Hok); [done|cbn; lia|].
    exists o, s'. split; [exact Ha|]. destruct o; exact Hok.
Qed.

Lemma advance_cursor_initialized n s o s' : initialized s = true → advance_cursor n s = (Ok o, s') → initialized s' = true.
Proof.
  revert s. induction n as [|n IH]; intros s Hinit Ha; cbn [advance_cursor] in Ha; [by simplify_eq|].
  destruct (ranges s !! current_range s); [|done]. case_match; [by simplify_eq|]. by apply IH in Ha.
Qed.

Lemma allocate_spec s live : frames_inv s live → initialized s = true →
  ∃ o s', allocate_frame s = (Ok o, s') ∧ allocation_ok live o s' ∧ initialized s' = true.
Proof.
  intros Hi Hinit. unfold allocate_frame. rewrite Hinit. cbn [negb].
  destruct (Nat.eqb_spec (reclaimed_count s) 0) as [Hrc|Hrc]; cbn [negb].
  - destruct (advance_cursor_spec _ s live Hi Hrc eq_refl) as (o & s' & Ha & Hok). exists o, s'.
    split_and!; [done|done|]. by eapply advance_cursor_initialized.
  - pose proof Hi as []. set (k := (reclaimed_count s - 1)%nat).
    destruct (lookup_lt_is_Some_2 (reclaimed_frames s) k) as [a Ha]; [unfold k; lia|]. rewrite Ha.
    assert (take (reclaimed_count s) (reclaimed_frames s) = take k (reclaimed_frames s) ++ [a]) as Htake.
    { replace (reclaimed_count s) with (S k) by (unfold k; lia). by apply take_S_r. }
    assert (a ∈ issued (take (range_count s) (ranges s))) as Hin.
    { rewrite <-inv_frames0, Htake. set_solver. }
    rewrite (usable_accepted _ _ _ Hi Hin). eexists (Some a), _. split; [reflexivity|]. split; [|reflexivity].
    pose proof (frames_nodup _ _ Hi) as Hnd. rewrite Htake in Hnd.
    assert (frames_inv (mkAllocator (ranges s) (range_count s) (current_range s) (total_frames s) (allocated_frames s + 1)
          (reclaimed_frames s) k true) (a :: live)) as Hi'.
    { split; cbn; try done; [unfold k; lia| |lia]. rewrite <-inv_frames0, Htake.
      rewrite app_assoc, (Permutation_app_comm _ [a]). done. }
    split_and!; [| |exact Hi'].
    + apply NoDup_app in Hnd as (_ & Hdis & _). intros Hl. apply (Hdis a Hl). set_solver.
    + eapply live_usable; [exact Hi'|left].
Qed.

(** ** Initialisation *)

(** The usable parts of the memory map, as the allocator rounds them. *)
Definition rounded (r : MemoryRegion) : FrameRange :=
  let a := default 0 (align_up (Z.max (region_start r) 0x100000) FRAME_SIZE) in
  mkRange a a (align_down (region_end r) FRAME_SIZE).

(** The boot loader's map lists disjoint physical regions below 2^52. *)
Definition map_ok (regions : list MemoryRegion) : Prop :=
  Forall (λ r, 0 ≤ region_start r ∧ 0 ≤ region_end r ≤ 2 ^ 52) regions ∧
  all_apart ((λ r, mkRange (region_start r) (region_start r) (region_end r)) <$> List.filter usable regions).

Lemma add_region_spec r s s' : frames_inv s [] → reclaimed_count s = 0%nat → current_range s = 0%nat →
  0 ≤ region_start r → 0 ≤ region_end r ≤ 2 ^ 52 →
  (∀ x, x ∈ take (range_count s) (ranges s) → next x = start x) →
  (usable r = true → Forall (λ x, apart x (mkRange (region_start r) 0 (region_end r))) (take (range_count s) (ranges s))) →
  add_region r s = (Ok tt, s') →
  frames_inv s' [] ∧ reclaimed_count s' = 0%nat ∧ current_range s' = 0%nat ∧ initialized s' = initialized s ∧
  (∀ x, x ∈ take (range_count s') (ranges s') → next x = start x) ∧
  ∀ x, x ∈ take (range_count s') (ranges s') →
    x ∈ take (range_count s) (ranges s) ∨ (usable r = true ∧ region_start r ≤ start x ∧ end_ x ≤ region_end r).
Proof.
  intros Hi Hrc Hcur Hs He Hstart Hap. unfold add_region. destruct (usable r); cbn [negb].
  2: { intros [= <-]. split_and!; try done. by left. }
  destruct (align_up _ _) as [a|] eqn:Ea; [|done]. apply frame_align_up_spec in Ea as [Ham Hab]; [|lia].
  destruct (frame_align_down_spec (region_end r)) as (Hbm & Hb0 & Hbe); [lia|].
  set (b := align_down (region_end r) FRAME_SIZE) in *.
  destruct (Z.leb_spec b a) as [|Hlt]. { intros [= <-]. split_and!; try done. by left. }
  pose proof Hi as []. rewrite inv_ranges0.
  destruct (Nat.eqb_spec (range_count s) MAX_USABLE_REGIONS) as [|Hne]; [done|].
  destruct (checked_add _ _ _) as [t|] eqn:Et; [|done]. apply checked_add_Some in Et as [-> _]. intros [= <-].
  assert (take (range_count s + 1) (<[range_count s := mkRange a a b]> (ranges s)) = take (range_count s) (ranges s) ++ [mkRange a a b]) as Htake.
  { rewrite Nat.add_1_r, take_S_r with (x := mkRange a a b) by (apply list_lookup_insert_eq; lia). by rewrite take_insert_ge by lia. }
  cbn [ranges range_count current_range reclaimed_count initialized]. rewrite Htake.
  assert (Forall (λ x, apart x (mkRange a a b)) (take (range_count s) (ranges s))) as Hap'.
  { apply (Forall_impl _ _ _ (Hap eq_refl)). intros x [Hx|Hx]; [left|right]; cbn in *; lia. }
  split_and!; try done.
  - split; cbn [ranges range_count reclaimed_frames reclaimed_count current_range allocated_frames total_frames];
      rewrite ?Htake, ?length_insert; try done.
    + lia.
    + apply Forall_app. split; [done|]. constructor; [|constructor].
      unfold range_wf; cbn [start next end_]. split_and!; (done || lia).
    + by apply all_apart_snoc.
    + rewrite Hcur. lia.
    + unfold issued. rewrite map_app, concat_app. cbn. unfold passed; cbn [start next].
      rewrite frames_between_nil, app_nil_r. exact inv_frames0.
    + rewrite inv_total0. unfold all_frames. rewrite foldr_app. cbn. unfold range_frames; cbn.
      clear. induction (take (range_count s) (ranges s)) as [|x l IH]; cbn; lia.
  - intros x [Hx|Hx]%elem_of_app; [auto|]. apply list_elem_of_singleton in Hx as ->. done.
  - intros x [Hx|Hx]%elem_of_app; [by left|]. apply list_elem_of_singleton in Hx as ->. right. cbn. split; [done|lia].
Qed.

Lemma take_regions_spec (regions : list MemoryRegion) s s' : map_ok regions → frames_inv s [] →
  reclaimed_count s = 0%nat → current_range s = 0%nat →
  (∀ x, x ∈ take (range_count s) (ranges s) → next x = start x) →
  (∀ r x, r ∈ regions → usable r = true → x ∈ take (range_count s) (ranges s) →
     apart x (mkRange (region_start r) 0 (region_end r))) →
  add_regions regions s = (Ok tt, s') → frames_inv s' [] ∧ initialized s' = initialized s.
Proof.
  revert s. induction regions as [|r regions IH]; intros s [Hb Ha] Hi Hrc Hcur Hst Hap Hr; cbn [add_regions] in Hr.
  { injection Hr as <-. done. }
  apply M_bind_Ok_inv in Hr as ([] & s1 & Hr1 & Hr). apply Forall_cons in Hb as [[Hb1 Hb2] Hb].
  destruct (add_region_spec r s s1 Hi Hrc Hcur Hb1 Hb2 Hst) as (Hi1 & Hrc1 & Hcur1 & Hini & Hst1 & Hnew); [|done|].
  { intros Hu. apply Forall_forall. intros x Hx. apply Hap; [left|done|done]. }
  rewrite <-Hini. apply IH; try done.
  - split; [done|]. cbn [List.filter] in Ha. destruct (usable r); [|done]. by inversion Ha.
  - intros r' x Hr' Hu Hx. destruct (Hnew x Hx) as [Hx'|(Hur & Hsx & Hex)]; [apply Hap; [by right|done|done]|].
    cbn [List.filter] in Ha. rewrite Hur in Ha. inversion Ha as [|? ? Hall Ha']; subst.
    rewrite Forall_forall in Hall. specialize (Hall (mkRange (region_start r') (region_start r') (region_end r'))).
    destruct Hall as [Hx'|Hx'].
    + apply list_elem_of_fmap. exists r'. split; [done|]. apply list_elem_of_In, filter_In.
      split; [by apply list_elem_of_In|done].
    + left. cbn in *. lia.
    + right. cbn in *. lia.
Qed.

Lemma empty_inv : frames_inv allocator_empty [].
Proof.
  split; cbn; rewrite ?length_replicate; try done; try lia; try constructor.
Qed.

Lemma all_frames_nonneg rs : Forall range_wf rs → 0 ≤ all_frames rs.
Proof.
  induction 1 as [|x l (? & ? & ? & ? & ? & ?) _ IH]; [done|]. cbn [all_frames foldr]. fold (all_frames l).
  assert (0 ≤ range_frames x) by (apply Z.div_pos; unfold FRAME_SIZE; lia). lia.
Qed.

Lemma initialize_spec regions s : map_ok regions → initialize regions allocator_empty = (Ok tt, s) →
  frames_inv s [] ∧ initialized s = true ∧ 0 < total_frames s.
Proof.
  intros Hm Hr. unfold initialize in Hr. rewrite bind_gets, bind_guard in Hr. cbn [initialized allocator_empty negb] in Hr.
  apply M_bind_Ok_inv in Hr as ([] & s1 & Hr1 & Hr).
  assert (frames_inv s1 [] ∧ initialized s1 = false) as [Hi Hini].
  { apply (take_regions_spec regions allocator_empty s1 Hm empty_inv); try done.
    - intros x Hx. by apply not_elem_of_nil in Hx.
    - intros r x _ _ Hx. by apply not_elem_of_nil in Hx. }
  rewrite bind_gets, bind_guard in Hr. destruct (Z.eqb_spec (total_frames s1) 0) as [|Hne]; [done|].
  injection Hr as <-. pose proof Hi as []. split; [split; done|split; [done|]]. cbn.
  pose proof (all_frames_nonneg _ inv_wf0). lia.
Qed.

(** ** Clients: allocate, and give back a frame that is held *)

Inductive frame_step : PhysicalFrameAllocator * list Z → PhysicalFrameAllocator * list Z → Prop :=
| step_take s held f s' : allocate_frame s = (Ok (Some f), s') → frame_step (s, held) (s', f :: held)
| step_none s held s' : allocate_frame s = (Ok None, s') → frame_step (s, held) (s', held)
| step_give s held f held' s' : held ≡ₚ f :: held' → deallocate_frame f s = (true, s') → frame_step (s, held) (s', held')
| step_refused s held f held' s' : held ≡ₚ f :: held' → deallocate_frame f s = (false, s') → frame_step (s, held) (s', held).

Lemma frame_step_inv p p' : frame_step p p' →
  frames_inv (fst p) (snd p) ∧ initialized (fst p) = true → frames_inv (fst p') (snd p') ∧ initialized (fst p') = true.
Proof.
  intros [s held f s' Ha|s held s' Ha|s held f held' s' Hp Hd|s held f held' s' Hp Hd] [Hi Hini]; cbn [fst snd] in *.
  - destruct (allocate_spec s held Hi Hini) as (o & s1 & Ha' & Hok & Hini'). rewrite Ha in Ha'. simplify_eq.
    destruct Hok as (_ & _ & ?). done.
  - destruct (allocate_spec s held Hi Hini) as (o & s1 & Ha' & Hok & Hini'). rewrite Ha in Ha'. simplify_eq.
    destruct Hok as (? & _). done.
  - pose proof (deallocate_spec _ _ _ _ _ _ Hi Hp Hd). split; [done|].
    unfold deallocate_frame in Hd. destruct (_ || _); [done|]. injection Hd as <-. exact Hini.
  - destruct (deallocate_spec _ _ _ _ _ _ Hi Hp Hd) as [-> _]. done.
Qed.

(** C40: From a memory map of disjoint regions, whatever frames clients take and give
    back: the allocator's count is the number of frames held; all of them are
    distinct page-aligned frames of usable memory above 1 MiB; the next request
    never panics and returns a frame that is not held, or none when every frame
    of the map is held; and a frame given back is refused only when the stack
    of 1024 reclaimed frames is full. *)
Theorem frames_exclusive regions s0 s held :
  map_ok regions → initialize regions allocator_empty = (Ok tt, s0) → rtc frame_step (s0, []) (s, held) →
  allocated_frames s = Z.of_nat (length held) ∧ NoDup held ∧ Forall (usable_frame s) held ∧
  (∃ o s', allocate_frame s = (Ok o, s') ∧
     match o with
     | Some f => f ∉ held ∧ usable_frame s' f
     | None => Z.of_nat (length held) = total_frames s'
     end) ∧
  ∀ f s', f ∈ held → deallocate_frame f s = (false, s') → reclaimed_count s = MAX_RECLAIMED_FRAMES.
Proof.
  intros Hm Hinit Hr. destruct (initialize_spec regions s0 Hm Hinit) as (Hi0 & Hini0 & _).
  assert (frames_inv s held ∧ initialized s = true) as [Hi Hini].
  { change (frames_inv (fst (s, held)) (snd (s, held)) ∧ initialized (fst (s, held)) = true). generalize dependent (s, held).
    intros p Hp. remember (s0, []) as p0 eqn:E. assert (frames_inv (fst p0) (snd p0) ∧ initialized (fst p0) = true) as H0 by by subst.
    clear E. induction Hp; [done|]. eauto using frame_step_inv. }
  split_and!.
  - by apply inv_allocated.
  - by apply frames_nodup, NoDup_app in Hi as [? _].
  - apply Forall_forall. intros f Hf. by eapply live_usable.
  - destruct (allocate_spec s held Hi Hini) as (o & s' & Ha & Hok & _). exists o, s'. split; [done|].
    destruct o; [by destruct Hok as (? & ? & _)|exact (proj2 Hok)].
  - intros f s' Hf Hd. apply elem_of_Permutation in Hf as [held' Hp].
    by destruct (deallocate_spec _ _ _ _ _ _ Hi Hp Hd).
Qed.
End frames.

(** A concrete memory map, and the crate's frame constructor as documented. *)
Section example.
#[local] Program Instance plain_frames : PhysFrames := {|
  phys_frame a := if (a mod FRAME_SIZE =? 0) && (a <? 2 ^ 52) then Some a else None |}.
Next Obligation. intros a Ha Hm. cbn beta. rewrite Hm, (proj2 (Z.ltb_lt _ _)) by lia. done. Qed.

Definition test_map : list MemoryRegion := [mkRegion 0 0x9fc00 true; mkRegion 0x100000 0x103800 true; mkRegion 0x200000 0x300000 false].

Lemma frames_exclusive_witness : ∃ s0 s, initialize test_map allocator_empty = (Ok tt, s0) ∧
  rtc frame_step (s0, []) (s, [0x101000; 0x100000]) ∧ allocated_frames s = 2.
Proof.
  destruct (initialize test_map allocator_empty) as [r s0] eqn:E0.
  assert (r = Ok tt) as -> by (apply (f_equal fst) in E0; vm_compute in E0; by simplify_eq).
  destruct (allocate_frame s0) as [r1 s1] eqn:E1.
  assert (r1 = Ok (Some 0x100000)) as ->.
  { apply (f_equal snd) in E0. simpl in E0. subst s0. apply (f_equal fst) in E1. vm_compute in E1. by simplify_eq. }
  destruct (allocate_frame s1) as [r2 s2] eqn:E2.
  assert (r2 = Ok (Some 0x101000)) as ->.
  { apply (f_equal snd) in E0, E1. simpl in E0, E1. subst s1 s0. apply (f_equal fst) in E2. vm_compute in E2. by simplify_eq. }
  assert (rtc frame_step (s0, []) (s2, [0x101000; 0x100000])) as Hr.
  { eapply rtc_l; [by apply step_take|]. eapply rtc_l; [by apply step_take|]. apply rtc_refl. }
  exists s0, s2. split; [done|split; [done|]].
  refine (proj1 (frames_exclusive test_map s0 s2 _ _ E0 Hr)).
  split; [repeat constructor; simpl; lia|]. repeat constructor. simpl; lia.
Defined.
End example.
