(* ===== verification/Paging.v ===== *)
(** * Address spaces and copy-on-write (kernel/src/paging.rs)

    The table of shared frames, user mappings, sharing for fork, the resolution
    of write faults, and the frames of the file cache.  A call that takes a
    spin lock its own caller holds never returns; like a panic it is [Panic].  The page tables of the
    x86_64 crate are a parameter, the class [PageTables]; TLB flushes and the
    shootdown of other processors have no counterpart.  Each function holds the
    paging lock throughout, so it is one step of [Machine]. *)
From stdpp Require Import list.
From S2P Require Import Prelude Memory.

Definition PAGE : Z := 4096.
Definition PAGE_BYTES : nat := 4096.
#[global] Opaque PAGE_BYTES.
Definition MAX_COW_FRAMES : nat := 1024.
#[global] Opaque MAX_COW_FRAMES.

Inductive MapRangeError := NotInitialized | InvalidRange | AlreadyMapped | OutOfFrames | MappingFailed | NotMapped.
#[export] Instance MapRangeError_eq_dec : EqDecision MapRangeError.
Proof. solve_decision. Defined.

(** ** The table of shared frames *)

Record CowEntry := mkCow { cow_frame : Z; refcount : Z; occupied : bool }.
Definition cow_empty : CowEntry := mkCow 0 0 false.
Definition CowTable : Type := list CowEntry.
Definition cow_new : CowTable := replicate MAX_COW_FRAMES cow_empty.

Definition find_slot (t : list CowEntry) (frame : Z) : option nat :=
  position (λ e, occupied e && (cow_frame e =? frame)) t.

(** The first share of a frame counts the owner and the new sharer. *)
Definition share (frame : Z) (t : list CowEntry) : res MapRangeError unit * list CowEntry :=
  match find_slot t frame with
  | Some slot =>
    match t !! slot with
    | None => (Panic, t)
    | Some e =>
      match checked_add 32 (refcount e) 1 with
      | None => (Err OutOfFrames, t)
      | Some n => (Ok tt, <[slot := mkCow (cow_frame e) n (occupied e)]> t)
      end
    end
  | None =>
    match position (λ e, negb (occupied e)) t with
    | None => (Err OutOfFrames, t)
    | Some slot => (Ok tt, <[slot := mkCow frame 2 true]> t)
    end
  end.

(** True when the frame should be freed. *)
Definition release (frame : Z) (t : list CowEntry) : bool * list CowEntry :=
  match find_slot t frame with
  | None => (true, t)
  | Some slot =>
    match t !! slot with
    | None => (true, t)
    | Some e =>
      let n := saturating_sub (refcount e) 1 in
      if n =? 0 then (true, <[slot := cow_empty]> t)
      else (false, <[slot := mkCow (cow_frame e) n (occupied e)]> t)
    end
  end.

Definition references (t : list CowEntry) (frame : Z) : Z :=
  match find_slot t frame with
  | Some slot => default 1 (refcount <$> t !! slot)
  | None => 1
  end.

(** ** Page tables *)

Record Flags := mkFlags { f_present : bool; f_writable : bool; f_user : bool; f_nx : bool }.
#[export] Instance Flags_eq_dec : EqDecision Flags.
Proof. solve_decision. Defined.
Definition user_flags (writable executable : bool) : Flags := mkFlags true writable true (negb executable).

(** The operations of the x86_64 crate's mapper on one root table: translation
    to a frame, an offset in it and the flags; mapping, which takes frames for
    missing tables; unmapping; changing the flags; the clone of the kernel's
    table without the slot of a user address; the three tables below the root
    that serve an address; and [VirtAddr::new]'s test. *)
Class PageTables (PT : Type) := {
  translate : Z → PT → option (Z * Z * Flags);
  map_to : Z → Z → Flags → PT → PhysicalFrameAllocator → bool * (PT * PhysicalFrameAllocator);
  unmap : Z → PT → option (Z * PT);
  update_flags : Z → Flags → PT → option PT;
  clone_without : Z → PT → PT;
  lower_tables : Z → PT → option (list Z);
  drop_slot : Z → PT → PT;
  canonical : Z → bool }.

Record Machine (PT : Type) := mkMachine {
  ready : bool; memory_offset : Z; kernel_root : Z; active_root : Z; tables : Z → PT;
  memory : PhysicalFrameAllocator; cow : list CowEntry; contents : Z → list byte }.
Arguments mkMachine {PT}. Arguments ready {PT}. Arguments memory_offset {PT}. Arguments kernel_root {PT}.
Arguments active_root {PT}. Arguments tables {PT}. Arguments memory {PT}. Arguments cow {PT}. Arguments contents {PT}.

(** The addresses of the pages of a range. *)
Definition pages_from (start : Z) (n : nat) : list Z := (λ i, start + Z.of_nat i * PAGE) <$> seq 0 n.

Section paging.
Context {PT : Type} `{PageTables PT, PhysFrames}.
Abbreviation Io := (M (Machine PT) MapRangeError).
Implicit Types m : Machine PT.

Definition set_tables root pt m := mkMachine (ready m) (memory_offset m) (kernel_root m) (active_root m)
  (λ r, if r =? root then pt else tables m r) (memory m) (cow m) (contents m).
Definition set_memory a m := mkMachine (ready m) (memory_offset m) (kernel_root m) (active_root m)
  (tables m) a (cow m) (contents m).
Definition set_cow t m := mkMachine (ready m) (memory_offset m) (kernel_root m) (active_root m)
  (tables m) (memory m) t (contents m).
Definition set_contents f m := mkMachine (ready m) (memory_offset m) (kernel_root m) (active_root m)
  (tables m) (memory m) (cow m) f.

(** A page's bytes replaced from an offset on. *)
Definition poke (frame : Z) (off : nat) (b : list byte) m : Machine PT :=
  set_contents (λ f, if f =? frame then splice (contents m f) off b else contents m f) m.

Definition alloc : Io (option Z) := λ m,
  match allocate_frame (memory m) with
  | (Ok o, a) => (Ok o, set_memory a m)
  | (_, a) => (Panic, set_memory a m)
  end.
Definition dealloc (frame : Z) : Io bool := λ m,
  let '(b, a) := deallocate_frame frame (memory m) in (Ok b, set_memory a m).
(** [memory::deallocate_frame] called while the caller still holds the
    allocator's guard: the spin lock is taken twice by one thread. *)
Definition dealloc_while_locked : Io unit := lift Panic.
Definition cow_share (frame : Z) : Io (res MapRangeError unit) := λ m,
  let '(r, t) := share frame (cow m) in
  match r with Panic => (Panic, m) | _ => (Ok r, set_cow t m) end.
Definition cow_release (frame : Z) : Io bool := λ m,
  let '(b, t) := release frame (cow m) in (Ok b, set_cow t m).

(** Mapper calls on the table at [root]. *)
Definition pt_translate (root address : Z) : Io (option (Z * Z * Flags)) := gets (λ m, translate address (tables m root)).
Definition pt_map (root page frame : Z) (fl : Flags) : Io bool := λ m,
  let '(b, (pt, a)) := map_to page frame fl (tables m root) (memory m) in
  (Ok b, set_memory a (set_tables root pt m)).
Definition pt_unmap (root page : Z) : Io (option Z) := λ m,
  match unmap page (tables m root) with
  | Some (f, pt) => (Ok (Some f), set_tables root pt m)
  | None => (Ok None, m)
  end.
Definition pt_update (root page : Z) (fl : Flags) : Io bool := λ m,
  match update_flags page fl (tables m root) with
  | Some pt => (Ok true, set_tables root pt m)
  | None => (Ok false, m)
  end.

(** [page_range]: the pages of an aligned, nonempty range.  [VirtAddr::new]
    panics on an address that is not canonical. *)
Definition page_range (start : Z) (sz : Z) : res MapRangeError (list Z) :=
  if (sz =? 0) || negb (start mod PAGE =? 0) || negb (sz mod PAGE =? 0) then Err InvalidRange else
  match checked_add 64 start (sz - 1) with
  | None => Err InvalidRange
  | Some last => if canonical start && canonical last then Ok (pages_from start (Z.to_nat (sz / PAGE))) else Panic
  end.

(** [physical_memory_offset.checked_add(physical)] *)
Definition direct (physical : Z) (e : MapRangeError) : Io unit :=
  off ← gets memory_offset;
  lift (match checked_add 64 off physical with Some _ => Ok tt | None => Err e end).

(** [mapper_for] *)
Definition mapper_for (root : Z) : Io unit := direct root MappingFailed.

(** ** Mapping fresh frames *)

(** [map_range_with_flags], in the kernel's table; nothing is undone on an error. *)
Fixpoint map_kernel_pages (fl : Flags) (pages : list Z) : Io unit :=
  match pages with
  | [] => mret tt
  | p :: pages =>
    root ← gets kernel_root;
    t ← pt_translate root p;
    _ ← guard_ok (bool_decide (t = None)) AlreadyMapped;
    o ← alloc;
    frame ← lift (ok_or OutOfFrames o);
    b ← pt_map root p frame fl;
    _ ← guard_ok b MappingFailed;
    map_kernel_pages fl pages
  end.
Definition map_range_with_flags (start sz : Z) (fl : Flags) : Io unit :=
  pages ← lift (page_range start sz);
  r ← gets ready;
  _ ← guard_ok r NotInitialized;
  map_kernel_pages fl pages.
Definition map_range (start sz : Z) : Io unit := map_range_with_flags start sz (mkFlags true true false false).

(** One page; the error is a value, because the caller rolls back. *)
Definition map_page (root page : Z) (fl : Flags) : Io (option MapRangeError) :=
  t ← pt_translate root page;
  match t with
  | Some _ => mret (Some AlreadyMapped)
  | None =>
    o ← alloc;
    match o with
    | None => mret (Some OutOfFrames)
    | Some frame =>
      b ← pt_map root page frame fl;
      if b : bool then mret None else _ ← dealloc frame; mret (Some MappingFailed)
    end
  end.

(** Undo the pages mapped so far. *)
Fixpoint unmap_fresh (root : Z) (pages : list Z) : Io unit :=
  match pages with
  | [] => mret tt
  | p :: pages =>
    o ← pt_unmap root p;
    match o with
    | Some frame => _ ← dealloc frame; unmap_fresh root pages
    | None => unmap_fresh root pages
    end
  end.

Fixpoint map_pages (root : Z) (fl : Flags) (done pages : list Z) : Io unit :=
  match pages with
  | [] => mret tt
  | p :: pages =>
    e ← map_page root p fl;
    match e with
    | None => map_pages root fl (done ++ [p]) pages
    | Some e => _ ← unmap_fresh root done; fail e
    end
  end.

Definition map_user_range_in (root start sz : Z) (writable executable : bool) : Io unit :=
  pages ← lift (page_range start sz);
  _ ← mapper_for root;
  map_pages root (user_flags writable executable) [] pages.

(** ** Sharing for fork *)

Fixpoint rollback_shared (root : Z) (pages : list Z) : Io unit :=
  match pages with
  | [] => mret tt
  | p :: pages =>
    o ← pt_unmap root p;
    match o with
    | None => rollback_shared root pages
    | Some frame =>
      free ← cow_release frame;
      _ ← (if free : bool then _ ← dealloc frame; mret tt else mret tt);
      rollback_shared root pages
    end
  end.

(** One page: the shared mapping, then the owner's page made read-only.  The
    number is how many pages the caller must roll back beyond those done. *)
Definition share_page (source destination page : Z) (writable executable : bool) : Io (option (MapRangeError * bool)) :=
  t ← pt_translate source page;
  match t with
  | None => mret (Some (NotMapped, false))
  | Some (frame, off, fl) =>
    if negb (off =? 0) || negb (f_user fl) then mret (Some (MappingFailed, false)) else
    t2 ← pt_translate destination page;
    match t2 with
    | Some _ => mret (Some (AlreadyMapped, false))
    | None =>
      r ← cow_share frame;
      match r with
      | Err _ | Panic => mret (Some (OutOfFrames, false))
      | Ok _ =>
        b ← pt_map destination page frame (user_flags false executable);
        if b : bool then
          if writable && f_writable fl then
            u ← pt_update source page (user_flags false executable);
            if u : bool then mret None else mret (Some (MappingFailed, true))
          else mret None
        else _ ← cow_release frame; mret (Some (MappingFailed, false))
      end
    end
  end.

Fixpoint share_pages (source destination : Z) (writable executable : bool) (done pages : list Z) : Io unit :=
  match pages with
  | [] => mret tt
  | p :: pages =>
    e ← share_page source destination p writable executable;
    match e with
    | None => share_pages source destination writable executable (done ++ [p]) pages
    | Some (e, this) => _ ← rollback_shared destination (if this : bool then done ++ [p] else done); fail e
    end
  end.

Definition share_user_range_in (source destination start sz : Z) (writable executable : bool) : Io unit :=
  if source =? destination then fail InvalidRange else
  pages ← lift (page_range start sz);
  _ ← mapper_for source;
  _ ← mapper_for destination;
  share_pages source destination writable executable [] pages.

(** ** Write faults *)

Definition page_of (address : Z) : Z := address - address mod PAGE.

(** [checked_add(..).unwrap_or(0)], null when the sum overflows or is zero. *)
Definition null_pointer (off physical : Z) : bool :=
  match checked_add 64 off physical with Some a => a =? 0 | None => true end.

Definition break_flags (fl : Flags) : Flags := mkFlags true true true (f_nx fl).

(** The private copy of a shared page. *)
Definition copy_page (root page old : Z) (fl : Flags) : Io bool :=
  o ← alloc;
  match o with
  | None => mret false
  | Some fresh =>
    off ← gets memory_offset;
    if null_pointer off old || null_pointer off fresh then _ ← dealloc fresh; mret false else
    _ ← modify (λ m, poke fresh 0 (contents m old) m);
    u ← pt_unmap root page;
    match u with
    | None => _ ← dealloc fresh; mret false
    | Some _ =>
      b ← pt_map root page fresh (break_flags fl);
      if b : bool then
        free ← cow_release old;
        _ ← (if free : bool then dealloc_while_locked else mret tt);
        mret true
      else
        _ ← pt_map root page old fl;
        _ ← dealloc_while_locked;
        mret false
    end
  end.

Definition try_break_cow (root fault : Z) : Io bool :=
  let page := page_of fault in
  if negb (canonical fault) then lift Panic else
  off ← gets memory_offset;
  match checked_add 64 off root with
  | None => mret false
  | Some _ =>
    t ← pt_translate root page;
    match t with
    | None => mret false
    | Some (old, o, fl) =>
      if negb (o =? 0) || negb (f_present fl) then mret false else
      if f_writable fl then mret false else
      refs ← gets (λ m, references (cow m) old);
      if refs <=? 1 then
        u ← pt_update root page (break_flags fl);
        if u : bool then
          _ ← modify (λ m, match find_slot (cow m) old with
                           | Some slot => set_cow (<[slot := cow_empty]> (cow m)) m
                           | None => m
                           end);
          mret true
        else mret false
      else copy_page root page old fl
    end
  end.

(** ** Unmapping *)

Definition release_frame (frame : Z) : Io bool :=
  free ← cow_release frame;
  if free : bool then dealloc frame else mret true.

Fixpoint unmap_pages (root : Z) (pages : list Z) : Io unit :=
  match pages with
  | [] => mret tt
  | p :: pages =>
    o ← pt_unmap root p;
    frame ← lift (ok_or NotMapped o);
    b ← release_frame frame;
    _ ← guard_ok b MappingFailed;
    unmap_pages root pages
  end.

Definition unmap_user_range_in (root start sz : Z) : Io unit :=
  pages ← lift (page_range start sz);
  _ ← mapper_for root;
  unmap_pages root pages.

Fixpoint unmap_ranges (root : Z) (ranges : list (Z * Z)) : Io unit :=
  match ranges with
  | [] => mret tt
  | (start, sz) :: ranges =>
    pages ← lift (page_range start sz);
    _ ← unmap_pages root pages;
    unmap_ranges root ranges
  end.

Fixpoint dealloc_all (frames : list Z) : Io unit :=
  match frames with
  | [] => mret tt
  | f :: frames => b ← dealloc f; _ ← guard_ok b MappingFailed; dealloc_all frames
  end.

Definition destroy_user_address_space (root : Z) (ranges : list (Z * Z)) : Io unit :=
  active ← gets active_root;
  match ranges with
  | [] => fail MappingFailed
  | (first, _) :: _ =>
    _ ← guard_ok (negb (active =? root)) MappingFailed;
    _ ← mapper_for root;
    _ ← unmap_ranges root ranges;
    o ← gets (λ m, lower_tables first (tables m root));
    lower ← lift (ok_or MappingFailed o);
    _ ← modify (λ m, set_tables root (drop_slot first (tables m root)) m);
    dealloc_all (lower ++ [root])
  end.

Definition discard_empty_user_address_space (root : Z) : Io bool :=
  active ← gets active_root;
  if active =? root then mret false else dealloc root.

Definition create_user_address_space (address : Z) : Io (option Z) :=
  r ← gets ready;
  if negb r then mret None else
  o ← alloc;
  match o with
  | None => mret None
  | Some root =>
    off ← gets memory_offset; k ← gets kernel_root;
    match checked_add 64 off k, checked_add 64 off root with
    | Some _, Some _ =>
      if negb (canonical address) then lift Panic else
      _ ← modify (λ m, set_tables root (clone_without address (tables m k)) m);
      mret (Some root)
    | _, _ => mret None
    end
  end.

(** ** Access *)

Fixpoint protect_pages (root : Z) (fl : Flags) (pages : list Z) : Io unit :=
  match pages with
  | [] => mret tt
  | p :: pages => b ← pt_update root p fl; _ ← guard_ok b NotMapped; protect_pages root fl pages
  end.

Definition protect_user_range_in (root start sz : Z) (writable executable : bool) : Io unit :=
  pages ← lift (page_range start sz);
  _ ← mapper_for root;
  protect_pages root (user_flags writable executable) pages.

(** The loop of [write_user_bytes]: each round stores up to the end of a page. *)
Fixpoint write_loop (fuel : nat) (root address : Z) (b : list byte) : Io unit :=
  match fuel, b with
  | _, [] => mret tt
  | O, _ => lift Panic
  | S fuel, _ =>
    _ ← guard_ok (address <? 2 ^ 64) InvalidRange;
    if negb (canonical address) then lift Panic else
    t ← pt_translate root address;
    '(frame, off, _) ← lift (ok_or NotMapped t);
    let count := Nat.min (Z.to_nat (PAGE - address mod PAGE)) (length b) in
    _ ← direct (frame + off) InvalidRange;
    _ ← modify (poke (page_of (frame + off)) (Z.to_nat ((frame + off) mod PAGE)) (take count b));
    write_loop fuel root (address + Z.of_nat count) (drop count b)
  end.

Definition write_user_bytes (root start : Z) (b : list byte) : Io unit :=
  _ ← mapper_for root; write_loop (length b) root start b.

Definition zero_user_range_in (root start sz : Z) : Io unit :=
  _ ← lift (page_range start sz);
  _ ← mapper_for root;
  write_loop (Z.to_nat sz) root start (replicate (Z.to_nat sz) x00).

(** [read_user_bytes_in]; the mapper's frames are 4 KiB frames. *)
Fixpoint read_loop (fuel : nat) (root address : Z) (n : nat) (out : list byte) : Io (list byte) :=
  match fuel, n with
  | _, O => mret out
  | O, _ => lift Panic
  | S fuel, _ =>
    _ ← guard_ok (address <? 2 ^ 64) InvalidRange;
    if negb (canonical address) then lift Panic else
    t ← pt_translate root address;
    '(frame, off, fl) ← lift (ok_or NotMapped t);
    let count := Nat.min (Z.to_nat (PAGE - off)) n in
    _ ← guard_ok (f_user fl) InvalidRange;
    _ ← direct (frame + off) InvalidRange;
    b ← gets (λ m, slice (contents m frame) (Z.to_nat off) count);
    read_loop fuel root (address + Z.of_nat count) (n - count) (out ++ b)
  end.

Definition read_user_bytes_in (root start : Z) (n : nat) : Io (list byte) :=
  _ ← mapper_for root; read_loop n root start n [].

Definition user_range_is_unmapped_in (root start sz : Z) m : res MapRangeError bool :=
  match page_range start sz with
  | Ok pages =>
    Ok (match checked_add 64 (memory_offset m) root with
        | None => false
        | Some _ => forallb (λ p, bool_decide (translate p (tables m root) = None)) pages
        end)
  | Err _ => Ok false
  | Panic => Panic
  end.

Definition has_protection (writable executable : bool) (t : option (Z * Z * Flags)) : bool :=
  match t with
  | None => false
  | Some (_, _, fl) => f_present fl && f_user fl && Bool.eqb (f_writable fl) writable && xorb (f_nx fl) executable
  end.

Definition user_range_has_protection_in (root start sz : Z) (writable executable : bool) m : res MapRangeError bool :=
  match page_range start sz with
  | Ok pages =>
    Ok (match checked_add 64 (memory_offset m) root with
        | None => false
        | Some _ => forallb (λ p, has_protection writable executable (translate p (tables m root))) pages
        end)
  | Err _ => Ok false
  | Panic => Panic
  end.

(** ** Frames of the file cache *)

(** A frame is lost when the direct map cannot reach it. *)
Definition allocate_file_frame (b : list byte) : Io (option Z) :=
  o ← alloc;
  match o with
  | None => mret None
  | Some frame =>
    off ← gets memory_offset;
    match checked_add 64 off frame with
    | None => mret None
    | Some _ => _ ← modify (poke frame 0 b); mret (Some frame)
    end
  end.

Definition file_frame_references (frame : Z) : Io Z := gets (λ m, references (cow m) frame).

Definition release_file_frame (frame : Z) : Io bool :=
  match phys_frame frame with None => mret false | Some f => release_frame f end.

Definition read_file_frame (frame : Z) (off n : nat) : Io (list byte) :=
  if Nat.leb off PAGE_BYTES && Nat.leb n (PAGE_BYTES - off)
  then gets (λ m, slice (contents m frame) off n) else lift Panic.
Definition write_file_frame (frame : Z) (off : nat) (b : list byte) : Io unit :=
  if Nat.leb off PAGE_BYTES && Nat.leb (length b) (PAGE_BYTES - off)
  then modify (poke frame off b) else lift Panic.

(** [Page::from_start_address(VirtAddr::new(address))]: canonical or panic, aligned or error. *)
Definition page_start (address : Z) : res MapRangeError bool :=
  if canonical address then Ok (address mod PAGE =? 0) else Panic.

Definition map_file_frame (root address physical : Z) (writable : bool) : Io bool :=
  off ← gets memory_offset;
  match checked_add 64 off root with
  | None => mret false
  | Some _ =>
    aligned ← lift (page_start address);
    if negb aligned then mret false else
    t ← pt_translate root address;
    match t with
    | Some _ => mret false
    | None =>
      match phys_frame physical with
      | None => mret false
      | Some frame =>
        r ← cow_share physical;
        match r with
        | Err _ | Panic => mret false
        | Ok _ =>
          b ← pt_map root address frame (user_flags writable false);
          if b : bool then mret true else _ ← cow_release physical; mret false
        end
      end
    end
  end.

Definition map_private_frame_from_bytes (root address : Z) (b : list byte) (writable : bool) : Io bool :=
  o ← alloc;
  match o with
  | None => mret false
  | Some frame =>
    off ← gets memory_offset;
    match checked_add 64 off root with
    | None => _ ← dealloc frame; mret false
    | Some _ =>
      aligned ← lift (page_start address);
      if negb aligned then _ ← dealloc frame; mret false else
      t ← pt_translate root address;
      match t with
      | Some _ => _ ← dealloc frame; mret false
      | None =>
        match checked_add 64 off frame with
        | None => _ ← dealloc frame; mret false
        | Some _ =>
          _ ← modify (poke frame 0 b);
          r ← pt_map root address frame (user_flags writable false);
          if r : bool then mret true else _ ← dealloc_while_locked; mret false
        end
      end
    end
  end.

Definition user_frame_in (root address : Z) : Io (option Z) :=
  off ← gets memory_offset;
  match checked_add 64 off root with
  | None => mret None
  | Some _ =>
    if negb (canonical (page_of address)) then lift Panic else
    t ← pt_translate root (page_of address);
    mret ((λ '(frame, o, _), frame + o) <$> t)
  end.

Definition switch_to (root : Z) m : Machine PT :=
  mkMachine (ready m) (memory_offset m) (kernel_root m) root (tables m) (memory m) (cow m) (contents m).
End paging.
