(* ===== verification/PagingOwn.v ===== *)
(** * Who owns a frame (kernel/src/paging.rs)

    The table of shared frames counts owners: user pages that map a frame and
    holders outside the page tables.  [owned m g] relates a machine to the
    bookkeeping [g] of its pages and holders; this file proves what each call on
    the allocator, the page tables and the table of shared frames does to it. *)
From stdpp Require Import list gmap.
From S2P Require Import Prelude Memory Paging.

(** ** The table of shared frames counts *)

(** The count of a frame, when the table has an entry for it. *)
Definition cow_get (t : list CowEntry) (f : Z) : option Z := slot ← find_slot t f; refcount <$> t !! slot.

(** A frame has one entry. *)
Definition cow_wf (t : list CowEntry) : Prop := ∀ i j e e', t !! i = Some e → t !! j = Some e' →
  occupied e = true → occupied e' = true → cow_frame e = cow_frame e' → i = j.

Lemma find_slot_Some t f i : cow_wf t →
  find_slot t f = Some i ↔ ∃ e, t !! i = Some e ∧ occupied e = true ∧ cow_frame e = f.
Proof.
  intros Hw. unfold find_slot. split.
  - intros (e & He & Hf)%position_Some_1. open_guards. eauto.
  - intros (e & He & Ho & Hf). apply position_unique with (x := e); [done|by rewrite Ho, Hf, Z.eqb_refl|].
    intros j y Hj Hy. open_guards. eapply Hw; [done|done|done|done|congruence].
Qed.

Lemma cow_get_Some t f n : cow_wf t →
  cow_get t f = Some n ↔ ∃ i e, t !! i = Some e ∧ occupied e = true ∧ cow_frame e = f ∧ refcount e = n.
Proof.
  intros Hw. unfold cow_get. split.
  - intros (i & Hi & (e & He & ->)%fmap_Some)%bind_Some. apply find_slot_Some in Hi as (e' & ? & ? & ?); [|done].
    simplify_eq. eauto 10.
  - intros (i & e & He & Ho & Hf & <-). rewrite (proj2 (find_slot_Some t f i Hw)) by eauto. simpl. by rewrite He.
Qed.

Lemma cow_get_find t f : cow_wf t → cow_get t f = None ↔ find_slot t f = None.
Proof.
  intros Hw. unfold cow_get. destruct (find_slot t f) as [i|] eqn:E; simpl; [|done].
  apply find_slot_Some in E as (e & He & _); [|done]. by rewrite He.
Qed.

(** A stored entry: the other frames keep their counts. *)
Lemma cow_store t i e : cow_wf t → (i < length t)%nat →
  (∀ e0, t !! i = Some e0 → occupied e0 = true → occupied e = true → cow_frame e = cow_frame e0) →
  (occupied e = true → ∀ j e', t !! j = Some e' → occupied e' = true → cow_frame e' = cow_frame e → j = i) →
  cow_wf (<[i := e]> t) ∧
  ∀ f, cow_get (<[i := e]> t) f =
    if occupied e && (cow_frame e =? f) then Some (refcount e)
    else if bool_decide (find_slot t f = Some i) then None else cow_get t f.
Proof.
  intros Hw Hlt Hsame Huniq.
  assert (Hw' : cow_wf (<[i := e]> t)).
  { intros j k ej ek Hj Hk Hoj Hok Hf. list_update; try done;
      solve [by eapply Huniq | symmetry; by eapply Huniq | by eapply Hw]. }
  split; [exact Hw'|]. intros f. apply option_eq. intros n. rewrite cow_get_Some by done.
  destruct (occupied e && (cow_frame e =? f)) eqn:Eg; open_guards.
  { split.
    - intros (j & ej & Hj & Hoj & Hfj & <-). list_update; [done|]. exfalso.
      match goal with H : ?i0 ≠ ?j0 |- _ => apply H; symmetry; eapply Huniq; eauto; congruence end.
    - intros [= <-]. exists i, e. rewrite list_lookup_insert_eq by done. done. }
  case_bool_decide as Hfi.
  { apply find_slot_Some in Hfi as (e0 & He0 & Ho0 & Hf0); [|done]. split; [|done].
    intros (j & ej & Hj & Hoj & Hfj & <-). list_update.
    - rewrite Hoj, Hfj, Z.eqb_refl in Eg. done.
    - match goal with H : ?i0 ≠ ?j0 |- _ => destruct H end. eapply Hw; eauto; congruence. }
  rewrite cow_get_Some by done. split.
  - intros (j & ej & Hj & Hoj & Hfj & <-). list_update; [|eauto 10]. rewrite Hoj, Z.eqb_refl in Eg. done.
  - intros (j & ej & Hj & Hoj & Hfj & <-). exists j, ej. rewrite list_lookup_insert_ne; [done|].
    intros ->. apply Hfi. apply find_slot_Some; eauto.
Qed.

Lemma share_spec f t r t' : cow_wf t → share f t = (r, t') →
  match r with
  | Ok _ => cow_wf t' ∧ ∀ f', cow_get t' f' = if f' =? f then Some (default 1 (cow_get t f) + 1) else cow_get t f'
  | Err _ => t' = t
  | Panic => False
  end.
Proof.
  intros Hw. unfold share. destruct (find_slot t f) as [i|] eqn:Ei.
  - pose proof Ei as (e & He & Ho & Hf)%find_slot_Some; [|done]. rewrite He.
    destruct (checked_add 32 (refcount e) 1) as [n|] eqn:En; [|by intros [= <- <-]].
    apply checked_add_Some in En as [-> _]. intros [= <- <-].
    assert (cow_get t f = Some (refcount e)) as Hg by (apply cow_get_Some; eauto 10). rewrite Hg. simpl.
    destruct (cow_store t i (mkCow (cow_frame e) (refcount e + 1) (occupied e)) Hw) as [Hw' Hget]; cbn.
    + by apply lookup_lt_Some in He.
    + intros. by simplify_eq.
    + intros _ j e' Hj Hoj Hfj. by eapply Hw.
    + split; [done|]. intros f'. rewrite Hget; cbn. rewrite Ho, Hf. cbn. rewrite (Z.eqb_sym f f').
      destruct (Z.eqb_spec f' f) as [|Hne]; [done|]. rewrite bool_decide_eq_false_2; [done|].
      intros (e' & He' & _ & Hf')%find_slot_Some; [|done]. congruence.
  - destruct (position _ t) as [i|] eqn:Ep; [|by intros [= <- <-]]. intros [= <- <-].
    apply position_Some_1 in Ep as (e & He & Ho). open_guards.
    assert (cow_get t f = None) as Hg by by apply cow_get_find. rewrite Hg. simpl.
    destruct (cow_store t i (mkCow f 2 true) Hw) as [Hw' Hget]; cbn.
    + by apply lookup_lt_Some in He.
    + intros. simplify_eq. congruence.
    + intros _ j e' Hj Hoj Hfj. exfalso. assert (find_slot t f = Some j) by (apply find_slot_Some; eauto). congruence.
    + split; [done|]. intros f'. rewrite Hget; cbn. rewrite (Z.eqb_sym f f').
      destruct (Z.eqb_spec f' f) as [|Hne]; [done|]. rewrite bool_decide_eq_false_2; [done|].
      intros (e' & He' & Ho' & _)%find_slot_Some; [|done]. congruence.
Qed.

Lemma clear_spec t f i : cow_wf t → find_slot t f = Some i →
  cow_wf (<[i := cow_empty]> t) ∧ ∀ f', cow_get (<[i := cow_empty]> t) f' = if f' =? f then None else cow_get t f'.
Proof.
  intros Hw Ei. pose proof Ei as (e & He & Ho & Hf)%find_slot_Some; [|done].
  destruct (cow_store t i cow_empty Hw) as [Hw' Hget]; [by apply lookup_lt_Some in He|done|done|].
  split; [done|]. intros f'. rewrite Hget. cbn. destruct (Z.eqb_spec f' f) as [->|Hne].
  - by rewrite bool_decide_eq_true_2.
  - rewrite bool_decide_eq_false_2; [done|]. intros (e' & He' & _ & Hf')%find_slot_Some; [|done]. congruence.
Qed.

Lemma release_spec f t b t' : cow_wf t → release f t = (b, t') →
  match cow_get t f with
  | None => b = true ∧ t' = t
  | Some n => 1 ≤ n → cow_wf t' ∧ b = (n =? 1) ∧
      ∀ f', cow_get t' f' = if f' =? f then (if n =? 1 then None else Some (n - 1)) else cow_get t f'
  end.
Proof.
  intros Hw. unfold release. destruct (find_slot t f) as [i|] eqn:Ei.
  2: { rewrite (proj2 (cow_get_find t f Hw) Ei). by intros [= <- <-]. }
  pose proof Ei as (e & He & Ho & Hf)%find_slot_Some; [|done]. rewrite He.
  assert (cow_get t f = Some (refcount e)) as -> by (apply cow_get_Some; eauto 10).
  intros Hr Hn. assert (saturating_sub (refcount e) 1 = refcount e - 1) as Hs by (unfold saturating_sub; lia).
  rewrite Hs in Hr. destruct (Z.eqb_spec (refcount e - 1) 0) as [E|E]; injection Hr as <- <-.
  - destruct (clear_spec t f i Hw Ei) as [Hw' Hget].
    rewrite (proj2 (Z.eqb_eq (refcount e) 1)) by lia. done.
  - rewrite (proj2 (Z.eqb_neq (refcount e) 1)) by lia.
    destruct (cow_store t i (mkCow (cow_frame e) (refcount e - 1) (occupied e)) Hw) as [Hw' Hget]; cbn.
    + by apply lookup_lt_Some in He.
    + intros. by simplify_eq.
    + intros _ j e' Hj Hoj Hfj. by eapply Hw.
    + split_and!; [done|done|]. intros f'. rewrite Hget; cbn. rewrite Ho, Hf. cbn. rewrite (Z.eqb_sym f f').
      destruct (Z.eqb_spec f' f) as [|Hne]; [done|]. rewrite bool_decide_eq_false_2; [done|].
      intros (e' & He' & _ & Hf')%find_slot_Some; [|done]. congruence.
Qed.

Lemma references_get t f : cow_wf t → references t f = default 1 (cow_get t f).
Proof. intros Hw. unfold references, cow_get. by destruct (find_slot t f). Qed.

(** ** Counting owners *)

Definition cnt (f : Z) (l : list Z) : Z := Z.of_nat (length (List.filter (Z.eqb f) l)).

Lemma cnt_cons f x l : cnt f (x :: l) = (if f =? x then 1 else 0) + cnt f l.
Proof. unfold cnt. cbn [List.filter]. destruct (f =? x); cbn [length]; lia. Qed.
Lemma cnt_app f l1 l2 : cnt f (l1 ++ l2) = cnt f l1 + cnt f l2.
Proof. induction l1 as [|x l1 IH]; [done|]. cbn [app]. rewrite !cnt_cons. lia. Qed.
Lemma cnt_nonneg f l : 0 ≤ cnt f l.
Proof. unfold cnt. lia. Qed.
Lemma cnt_pos f l : 1 ≤ cnt f l ↔ f ∈ l.
Proof.
  induction l as [|x l IH].
  - split; [unfold cnt; simpl; lia|by intros ?%not_elem_of_nil].
  - rewrite cnt_cons, elem_of_cons, <-IH. pose proof (cnt_nonneg f l). destruct (Z.eqb_spec f x); [|lia]. split; [by left|lia].
Qed.
#[export] Instance cnt_perm f : Proper ((≡ₚ) ==> (=)) (cnt f).
Proof. intros l1 l2 Hp. induction Hp; rewrite ?cnt_cons in *; lia. Qed.
Lemma cnt_zero f l : f ∉ l → cnt f l = 0.
Proof. intros Hf. pose proof (cnt_nonneg f l). destruct (decide (1 ≤ cnt f l)) as [?%cnt_pos|]; [done|lia]. Qed.

(** The table agrees with the owners. *)
Definition cow_ok (t : list CowEntry) (own : list Z) : Prop :=
  cow_wf t ∧ ∀ f, match cow_get t f with Some n => n = cnt f own ∧ 1 ≤ n | None => cnt f own ≤ 1 end.

#[export] Instance cow_ok_perm t : Proper ((≡ₚ) ==> iff) (cow_ok t).
Proof.
  intros l1 l2 Hp. unfold cow_ok. split; intros [Hw Hc]; (split; [done|]); intros f; specialize (Hc f);
    destruct (cow_get t f); [rewrite <-Hp|rewrite <-Hp|rewrite Hp|rewrite Hp]; done.
Qed.

Lemma cow_ok_references t own f : cow_ok t own → f ∈ own → references t f = cnt f own.
Proof.
  intros [Hw Hc] Hf. rewrite references_get by done. specialize (Hc f). apply cnt_pos in Hf.
  destruct (cow_get t f); simpl; lia.
Qed.

Lemma cow_ok_share t own f r t' : cow_ok t own → f ∈ own → share f t = (r, t') →
  match r with Ok _ => cow_ok t' (f :: own) | Err _ => t' = t | Panic => False end.
Proof.
  intros [Hw Hc] Hf Hs. pose proof (share_spec f t r t' Hw Hs) as H. destruct r as [[]| |]; [|done..].
  destruct H as [Hw' Hg]. split; [done|]. intros f'. rewrite Hg, cnt_cons. apply cnt_pos in Hf.
  destruct (Z.eqb_spec f' f) as [->|Hne]; [|exact (Hc f')].
  specialize (Hc f). destruct (cow_get t f); simpl; lia.
Qed.

Lemma cow_ok_release t own f b t' : cow_ok t (f :: own) → release f t = (b, t') →
  cow_ok t' own ∧ (b = true ↔ f ∉ own).
Proof.
  intros [Hw Hc] Hr. pose proof (release_spec f t b t' Hw Hr) as H. pose proof (Hc f) as Hcf.
  rewrite cnt_cons, Z.eqb_refl in Hcf. pose proof (cnt_nonneg f own). rewrite <-cnt_pos.
  destruct (cow_get t f) as [n|] eqn:E.
  - destruct (H ltac:(lia)) as (Hw' & -> & Hg). rewrite Z.eqb_eq. split; [|lia]. split; [done|]. intros f'. rewrite Hg.
    specialize (Hc f'). rewrite cnt_cons in Hc. destruct (Z.eqb_spec f' f) as [E'|]; [|done].
    subst f'. destruct (Z.eqb_spec n 1); lia.
  - destruct H as [-> ->]. split; [|split; [lia|done]]. split; [done|]. intros f'.
    specialize (Hc f'). rewrite cnt_cons in Hc. destruct (Z.eqb_spec f' f) as [E'|]; [|done].
    subst f'. rewrite E in *. lia.
Qed.

Lemma cow_ok_adopt t own f : cow_ok t own → f ∉ own → cow_ok t (f :: own).
Proof.
  intros [Hw Hc] Hf%cnt_zero. split; [done|]. intros f'. rewrite cnt_cons. specialize (Hc f').
  destruct (Z.eqb_spec f' f) as [->|]; [|done]. destruct (cow_get t f); lia.
Qed.

Lemma cow_ok_clear t own f i : cow_ok t own → cnt f own = 1 → find_slot t f = Some i → cow_ok (<[i := cow_empty]> t) own.
Proof.
  intros [Hw Hc] Hf Hi. destruct (clear_spec t f i Hw Hi) as [Hw' Hg]. split; [done|]. intros f'. rewrite Hg.
  destruct (Z.eqb_spec f' f) as [->|]; [lia|exact (Hc f')].
Qed.

(** ** The frames a map of pages uses *)

Abbreviation PageMap := (gmap (Z * Z) (Z * Flags)).
Definition frames_of (g : PageMap) : list Z := (λ kv, fst (snd kv)) <$> map_to_list g.

Lemma frames_of_insert (g : PageMap) k v : g !! k = None → frames_of (<[k := v]> g) ≡ₚ fst v :: frames_of g.
Proof. intros Hk. unfold frames_of. by rewrite map_to_list_insert. Qed.
Lemma frames_of_delete (g : PageMap) k v : g !! k = Some v → frames_of g ≡ₚ fst v :: frames_of (delete k g).
Proof. intros Hk. unfold frames_of. by rewrite <-(map_to_list_delete g k v Hk). Qed.
Lemma frames_of_update (g : PageMap) k v v' : g !! k = Some v → fst v' = fst v → frames_of (<[k := v']> g) ≡ₚ frames_of g.
Proof.
  intros Hk Hv. rewrite (frames_of_delete g k v Hk), <-Hv, <-frames_of_insert by apply lookup_delete_eq.
  by rewrite insert_delete_eq.
Qed.
Lemma elem_of_frames_of (g : PageMap) f : f ∈ frames_of g ↔ ∃ k fl, g !! k = Some (f, fl).
Proof.
  unfold frames_of. rewrite list_elem_of_fmap. split.
  - intros ([k [f' fl]] & -> & Hk%elem_of_map_to_list). eauto.
  - intros (k & fl & Hk). exists (k, (f, fl)). split; [done|]. by apply elem_of_map_to_list.
Qed.

(** A frame with one page has no other page. *)
Lemma frames_of_once (g : PageMap) k k' f fl fl' :
  cnt f (frames_of g) ≤ 1 → g !! k = Some (f, fl) → g !! k' = Some (f, fl') → k = k'.
Proof.
  intros Hc Hk Hk'. destruct (decide (k = k')) as [|Hne]; [done|exfalso].
  rewrite (frames_of_delete g k _ Hk) in Hc. rewrite (frames_of_delete (delete k g) k' (f, fl')) in Hc by by rewrite lookup_delete_ne.
  cbn [fst] in Hc. rewrite !cnt_cons, Z.eqb_refl in Hc. pose proof (cnt_nonneg f (frames_of (delete k' (delete k g)))). lia.
Qed.

(** ** Allocator steps with the frames as a multiset *)

Lemma frames_inv_perm s l l' : l ≡ₚ l' → frames_inv s l → frames_inv s l'.
Proof. intros Hp []. split; try done; [by rewrite <-Hp|by rewrite <-Hp]. Qed.

(** The frames a client of the allocator took, in order. *)
Inductive takes `{PhysFrames} : list Z → PhysicalFrameAllocator → PhysicalFrameAllocator → Prop :=
| takes_nil a : takes [] a a
| takes_some f new a a1 a2 : allocate_frame a = (Ok (Some f), a1) → takes new a1 a2 → takes (f :: new) a a2
| takes_none a a1 : allocate_frame a = (Ok None, a1) → takes [] a a1.

Lemma takes_inv `{PhysFrames} new a a' live : takes new a a' → frames_inv a live → initialized a = true →
  frames_inv a' (new ++ live) ∧ initialized a' = true.
Proof.
  intros Ht. revert live. induction Ht as [a|f new a a1 a2 Ha Ht IH|a a1 Ha]; intros live Hi Hini; [done| |].
  - destruct (allocate_spec a live Hi Hini) as (o & s' & Ha' & Hok & Hini'). rewrite Ha in Ha'. simplify_eq.
    destruct Hok as (_ & _ & Hok). destruct (IH _ Hok Hini') as [H1 H2]. split; [|done].
    eapply frames_inv_perm; [|exact H1]. simpl. by rewrite Permutation_middle.
  - destruct (allocate_spec a live Hi Hini) as (o & s' & Ha' & Hok & Hini'). rewrite Ha in Ha'. simplify_eq.
    by destruct Hok as [Hok _].
Qed.

(** ** The x86_64 crate's mapper, on the pages of user space *)

(** The pages served by the root entry of the user region. *)
Definition USER_REGION_START : Z := 0x400000000000.
Definition USER_REGION_END : Z := USER_REGION_START + 2 ^ 39.
Definition user_page (p : Z) : Prop := p mod PAGE = 0 ∧ USER_REGION_START ≤ p < USER_REGION_END.

(** What the mapper's documentation promises.  [tables_of] are the frames of the
    tables it created; [small] says that no huge page covers a user page. *)
Class PageTableLaws (PT : Type) `{PageTables PT, PhysFrames} := {
  tables_of : PT → list Z;
  small : PT → Prop;
  canonical_law a : 0 ≤ a < 2 ^ 47 → canonical a = true;
  translate_page_law p pt f o fl : user_page p → small pt → translate p pt = Some (f, o, fl) → o = 0;
  translate_law a pt : user_page (page_of a) → small pt →
    translate a pt = (λ '(f, _, fl), (f, a mod PAGE, fl)) <$> translate (page_of a) pt;
  map_to_law p f fl pt a b pt' a' : user_page p → small pt → map_to p f fl pt a = (b, (pt', a')) →
    (b = true → translate p pt = None) ∧ (∃ new, takes new a a' ∧ tables_of pt' = new ++ tables_of pt) ∧ small pt' ∧
    ∀ q, user_page q → translate q pt' = if b && (q =? p) then Some (f, 0, fl) else translate q pt;
  unmap_law p pt : user_page p → small pt →
    match unmap p pt with
    | Some (f, pt') => (∃ fl, translate p pt = Some (f, 0, fl)) ∧ tables_of pt' = tables_of pt ∧ small pt' ∧
        ∀ q, user_page q → translate q pt' = if q =? p then None else translate q pt
    | None => translate p pt = None
    end;
  update_law p fl pt : user_page p → small pt →
    match update_flags p fl pt with
    | Some pt' => tables_of pt' = tables_of pt ∧ small pt' ∧ ∃ f fl0, translate p pt = Some (f, 0, fl0) ∧
        ∀ q, user_page q → translate q pt' = if q =? p then Some (f, 0, fl) else translate q pt
    | None => translate p pt = None
    end;
  clone_law a pt : user_page (page_of a) → small (clone_without a pt) ∧ tables_of (clone_without a pt) = [] ∧
    ∀ q, user_page q → translate q (clone_without a pt) = None;
  lower_law a pt l : lower_tables a pt = Some l → ∃ rest, tables_of pt ≡ₚ l ++ rest;
  drop_law a pt : user_page (page_of a) → small (drop_slot a pt) ∧ tables_of (drop_slot a pt) = [] ∧
    ∀ q, user_page q → translate q (drop_slot a pt) = None }.

(** ** Bookkeeping *)

(** The mapped user pages, the roots of the user address spaces, the frames held
    outside the page tables with one entry per holder, and the frames in use
    that nobody gives back through this module. *)
Record Book := mkBook { pages : PageMap; roots : list Z; held : list Z; other : list Z }.
Definition owners (g : Book) : list Z := held g ++ frames_of (pages g).

Definition with_pages x g := mkBook x (roots g) (held g) (other g).
Definition with_held x g := mkBook (pages g) (roots g) x (other g).
Definition with_other x g := mkBook (pages g) (roots g) (held g) x.
Definition with_roots x g := mkBook (pages g) x (held g) (other g).

Section own.
Context {PT : Type} `{PageTableLaws PT}.
Implicit Types (m : Machine PT) (g : Book).

Definition entry (v : Z * Flags) : Z * Z * Flags := (fst v, 0, snd v).
Definition root_tables m (rs : list Z) : list Z := rs ≫= λ r, tables_of (tables m r).

#[export] Instance root_tables_perm m : Proper ((≡ₚ) ==> (≡ₚ)) (root_tables m).
Proof. intros l1 l2 Hp. unfold root_tables. by apply bind_Permutation. Qed.

(** The frames in use. *)
Definition in_use m g (fs : list Z) : list Z := fs ++ roots g ++ root_tables m (roots g) ++ other g.

Record owned m g : Prop := {
  ow_pages : ∀ r p, r ∈ roots g → user_page p → translate p (tables m r) = entry <$> pages g !! (r, p);
  ow_dom : ∀ r p v, pages g !! (r, p) = Some v → r ∈ roots g ∧ user_page p;
  ow_small : ∀ r, r ∈ roots g → small (tables m r);
  ow_cow : cow_ok (cow m) (owners g);
  ow_live : ∃ fs, (∀ f, f ∈ fs ↔ f ∈ owners g) ∧ frames_inv (memory m) (in_use m g fs);
  ow_init : initialized (memory m) = true;
  ow_offset : 0 < memory_offset m ∧ memory_offset m + 2 ^ 52 ≤ 2 ^ 64;
  ow_contents : ∀ f, length (contents m f) = PAGE_BYTES }.

Lemma in_use_nodup m g fs : frames_inv (memory m) (in_use m g fs) → NoDup (in_use m g fs).
Proof. intros Hi%frames_nodup. by apply NoDup_app in Hi as [? _]. Qed.

(** Owned frames are neither roots, nor tables, nor in [other]. *)
Lemma owned_disjoint m g f : owned m g → f ∈ owners g → f ∉ roots g ++ root_tables m (roots g) ++ other g.
Proof.
  intros Ho Hf. destruct (ow_live _ _ Ho) as (fs & Hfs & Hi). apply in_use_nodup in Hi.
  unfold in_use in Hi. apply NoDup_app in Hi as (_ & Hd & _). apply Hd. by apply Hfs.
Qed.

Lemma owned_roots_nodup m g : owned m g → NoDup (roots g).
Proof.
  intros Ho. destruct (ow_live _ _ Ho) as (fs & Hfs & Hi). apply in_use_nodup in Hi.
  unfold in_use in Hi. apply NoDup_app in Hi as (_ & _ & Hi). by apply NoDup_app in Hi as (? & _).
Qed.

Lemma owned_usable m g f : owned m g → f ∈ owners g ++ roots g ++ root_tables m (roots g) ++ other g →
  usable_frame (memory m) f.
Proof.
  intros Ho Hf. destruct (ow_live _ _ Ho) as (fs & Hfs & Hi). eapply live_usable; [exact Hi|].
  unfold in_use. rewrite elem_of_app in *. by rewrite Hfs.
Qed.

(** The direct map reaches every frame in use. *)
Lemma owned_reach m g f : owned m g → f ∈ owners g ++ roots g ++ root_tables m (roots g) ++ other g →
  0 ≤ f < 2 ^ 52 ∧ f mod PAGE = 0 ∧ checked_add 64 (memory_offset m) f = Some (memory_offset m + f).
Proof.
  intros Ho Hf. destruct (owned_usable m g f Ho Hf) as (Hm & Hb & _). destruct (ow_offset _ _ Ho) as [Hoff1 Hoff2].
  split_and!; [lia|lia|done|]. unfold checked_add. by rewrite (proj2 (Z.ltb_lt _ _)) by lia.
Qed.

(** One root's tables, and the rest. *)
Lemma root_tables_split m rs r : NoDup rs → r ∈ rs → ∃ rest, root_tables m rs ≡ₚ tables_of (tables m r) ++ rest ∧
  ∀ pt a, root_tables (set_memory a (set_tables r pt m)) rs ≡ₚ tables_of pt ++ rest.
Proof.
  intros Hn Hr. apply elem_of_Permutation in Hr as [l Hp]. exists (root_tables m l).
  assert (r ∉ l) as Hrl by (rewrite Hp in Hn; by apply NoDup_cons in Hn as [? _]).
  split; [by rewrite Hp|]. intros pt a. rewrite Hp. unfold root_tables at 1. cbn. rewrite Z.eqb_refl. apply Permutation_app_head.
  clear Hp. unfold root_tables. induction l as [|x l IH]; [done|]. apply not_elem_of_cons in Hrl as [Hx Hl].
  cbn. rewrite (proj2 (Z.eqb_neq x r)) by congruence. by apply Permutation_app_head, IH.
Qed.

(** ** What each call does to the bookkeeping *)

Lemma owned_perm m g g' : pages g' = pages g → roots g' ≡ₚ roots g → held g' ≡ₚ held g → other g' ≡ₚ other g →
  owned m g → owned m g'.
Proof.
  intros Hp Hr Hh Ho []. assert (owners g' ≡ₚ owners g) as Hown by (unfold owners; by rewrite Hp, Hh).
  split; try done; rewrite ?Hp, ?Hown; try done.
  - intros r p Hin. rewrite Hr in Hin. auto.
  - intros r p v Hv. rewrite Hr. eauto.
  - intros r Hin. rewrite Hr in Hin. auto.
  - destruct ow_live0 as (fs & Hfs & Hi). exists fs. split; [intros f; by rewrite Hown|].
    eapply frames_inv_perm; [|exact Hi]. unfold in_use. by rewrite Hr, Ho.
Qed.

Lemma owned_alloc m g r m' : owned m g → alloc m = (r, m') → contents m' = contents m ∧
  ∃ o, r = Ok o ∧ owned m' (match o with Some f => with_other (f :: other g) g | None => g end).
Proof.
  intros Ho Ha. pose proof Ho as []. destruct ow_live0 as (fs & Hfs & Hi). unfold alloc in Ha.
  destruct (allocate_spec (memory m) _ Hi ow_init0) as (o & a & Hal & Hok & Hini). rewrite Hal in Ha. simplify_eq.
  split; [done|]. exists o. split; [done|]. destruct o as [f|]; (split; try done); exists fs; (split; [done|]).
  - destruct Hok as (_ & _ & Hok). eapply frames_inv_perm; [|exact Hok]. unfold in_use; cbn.
    rewrite !(app_assoc fs), !app_assoc. by rewrite Permutation_middle.
  - by destruct Hok.
Qed.

Lemma owned_dealloc m g f rest r m' : owned m g → other g ≡ₚ f :: rest → dealloc f m = (r, m') →
  contents m' = contents m ∧ ∃ b : bool, r = Ok b ∧ owned m' (if b then with_other rest g else g).
Proof.
  intros Ho Hf Hd. pose proof Ho as []. destruct ow_live0 as (fs & Hfs & Hi). unfold dealloc in Hd.
  destruct (deallocate_frame f (memory m)) as [b a] eqn:E. simplify_eq. split; [done|]. exists b. split; [done|].
  assert (in_use m g fs ≡ₚ f :: in_use m (with_other rest g) fs) as Hp.
  { unfold in_use; cbn. rewrite Hf, !app_assoc. by rewrite Permutation_middle. }
  assert (initialized a = initialized (memory m)) as Hini.
  { unfold deallocate_frame in E. destruct (_ || _); by simplify_eq. }
  pose proof (deallocate_spec _ _ _ _ _ _ Hi Hp E) as Hs. destruct b.
  - split; try done; [|by rewrite <-Hini in ow_init0]. exists fs. split; [done|exact Hs].
  - destruct Hs as [-> _]. split; try done. by exists fs.
Qed.

(** A fresh frame gets its first holder. *)
Lemma owned_adopt m g f rest : owned m g → other g ≡ₚ f :: rest → owned m (mkBook (pages g) (roots g) (f :: held g) rest).
Proof.
  intros Ho Hf. assert (f ∉ owners g) as Hno.
  { intros Hin. apply (owned_disjoint m g f Ho Hin). rewrite !elem_of_app, Hf. right; right; left. }
  destruct Ho. destruct ow_live0 as (fs & Hfs & Hi). split; try done.
  - by apply cow_ok_adopt.
  - exists (f :: fs). split; [intros f'; unfold owners; cbn; rewrite !elem_of_cons; by rewrite Hfs|].
    eapply frames_inv_perm; [|exact Hi]. unfold in_use; cbn. rewrite Hf, !app_assoc. by rewrite Permutation_middle.
Qed.

Lemma owned_share m g f r m' : owned m g → f ∈ owners g → cow_share f m = (r, m') →
  (r = Ok (Ok tt) ∧ contents m' = contents m ∧ owned m' (with_held (f :: held g) g)) ∨ ((∃ e, r = Ok (Err e)) ∧ m' = m).
Proof.
  intros [] Hf Hs. unfold cow_share in Hs. destruct (share f (cow m)) as [r0 t] eqn:E.
  pose proof (cow_ok_share _ _ _ _ _ ow_cow0 Hf E) as H'. destruct r0 as [[]|e|]; [|subst t|done]; simplify_eq.
  - left. split_and!; [done|done|]. split; try done. destruct ow_live0 as (fs & Hfs & Hi). exists fs. split; [|done].
    intros f'. unfold owners; cbn. rewrite elem_of_cons, Hfs. fold (owners g). split; [by right|by intros [->|]].
  - right. split; [by exists e|]. by destruct m.
Qed.

(** A holder gives its frame back; a frame without owners is left to free. *)
Lemma owned_release m g f rest r m' : owned m g → held g ≡ₚ f :: rest → cow_release f m = (r, m') →
  contents m' = contents m ∧ ∃ b : bool, r = Ok b ∧ (b = true ↔ f ∉ rest ++ frames_of (pages g)) ∧
    owned m' (mkBook (pages g) (roots g) rest (if b then f :: other g else other g)).
Proof.
  intros [] Hh Hr. unfold cow_release in Hr. destruct (release f (cow m)) as [b t] eqn:E. simplify_eq.
  assert (owners g ≡ₚ f :: (rest ++ frames_of (pages g))) as Hown by (unfold owners; by rewrite Hh).
  rewrite Hown in ow_cow0. destruct (cow_ok_release _ _ _ _ _ ow_cow0 E) as [Hc Hb].
  split; [done|]. exists b. split_and!; [done|exact Hb|]. split; try done.
  destruct ow_live0 as (fs & Hfs & Hi). destruct b.
  - assert (f ∈ fs) as [fs' Hp]%elem_of_Permutation by (apply Hfs; rewrite Hown; left).
    pose proof (in_use_nodup _ _ _ Hi) as Hnd. unfold in_use in Hnd. apply NoDup_app in Hnd as (Hnd & _ & _).
    rewrite Hp in Hnd. apply NoDup_cons in Hnd as [Hnf _].
    exists fs'. split.
    + intros f'. unfold owners; cbn [held pages]. specialize (Hfs f'). rewrite Hp, Hown, !elem_of_cons in Hfs.
      destruct Hb as [Hb _]. specialize (Hb eq_refl). split; intros Hin.
      * destruct (proj1 Hfs (or_intror Hin)) as [->|]; done.
      * destruct (proj2 Hfs (or_intror Hin)) as [->|]; done.
    + eapply frames_inv_perm; [|exact Hi]. unfold in_use; cbn. rewrite Hp. simpl. rewrite !app_assoc.
      by rewrite Permutation_middle.
  - exists fs. split; [|exact Hi]. intros f'. rewrite Hfs, Hown. unfold owners; cbn [held pages].
    rewrite elem_of_cons. split; [|by right]. intros [->|]; [|done].
    destruct (decide (f ∈ rest ++ frames_of (pages g))) as [|Hn]; [done|]. by apply Hb in Hn.
Qed.

(** A table of one root, rewritten by the mapper. *)
Lemma owned_tables m g r pt a new fs : owned m g → r ∈ roots g → (∀ f, f ∈ fs ↔ f ∈ owners g) →
  frames_inv a (new ++ in_use m g fs) → tables_of pt = new ++ tables_of (tables m r) →
  frames_inv a (in_use (set_memory a (set_tables r pt m)) g fs).
Proof.
  intros Ho Hr Hfs Hi Ht. destruct (root_tables_split m (roots g) r (owned_roots_nodup _ _ Ho) Hr) as (rest & Hold & Hnew).
  eapply frames_inv_perm; [|exact Hi]. unfold in_use. rewrite (Hnew pt a), Hold, Ht.
  rewrite (Permutation_app_comm new), <-!app_assoc. do 2 f_equiv.
  by rewrite (Permutation_app_comm new), <-!app_assoc.
Qed.

Lemma owned_map m g r p f fl res m' : owned m g → r ∈ roots g → user_page p →
  pt_map r p f fl m = (res, m') → contents m' = contents m ∧ cow m' = cow m ∧ ∃ b : bool, res = Ok b ∧
    (b = true → pages g !! (r, p) = None) ∧
    if b then ∀ rest, held g ≡ₚ f :: rest → owned m' (mkBook (<[(r, p) := (f, fl)]> (pages g)) (roots g) rest (other g))
    else owned m' g.
Proof.
  intros Ho Hr Hp Hm. unfold pt_map in Hm. destruct (map_to p f fl (tables m r) (memory m)) as [b [pt a]] eqn:E.
  simplify_eq. split; [done|]. split; [done|]. exists b. split; [done|]. pose proof Ho as [].
  destruct (map_to_law _ _ _ _ _ _ _ _ Hp (ow_small0 r Hr) E) as (Hnone & (new & Htake & Htab) & Hsm & Htr).
  destruct ow_live0 as (fs & Hfs & Hi). destruct (takes_inv _ _ _ _ Htake Hi ow_init0) as [Hi' Hini].
  pose proof (owned_tables m g r pt a new fs Ho Hr Hfs Hi' Htab) as Hlive.
  assert (b = true → pages g !! (r, p) = None) as Hfree.
  { intros Hb. specialize (Hnone Hb). rewrite ow_pages0 in Hnone by done. by apply fmap_None in Hnone. }
  assert (∀ r', r' ∈ roots g → small (tables (set_memory a (set_tables r pt m)) r')) as Hsmall.
  { intros r' Hr'. cbn. destruct (Z.eqb_spec r' r) as [->|]; auto. }
  split; [done|]. destruct b; [intros rest Hh|]; (split; cbn [pages roots]; try done).
  - intros r' q Hr' Hq. cbn. destruct (Z.eqb_spec r' r) as [->|Hne].
    + rewrite Htr by done. cbn. destruct (Z.eqb_spec q p) as [->|Hqp].
      * by rewrite lookup_insert_eq.
      * rewrite lookup_insert_ne by congruence. auto.
    + rewrite lookup_insert_ne by congruence. auto.
  - intros r' q v [[[= <- <-] <-]|[_ Hv]]%lookup_insert_Some; [done|]. by eapply ow_dom0.
  - unfold owners; cbn [held pages]. rewrite frames_of_insert by auto. cbn [fst].
    rewrite <-Permutation_middle. unfold owners in ow_cow0. by rewrite Hh in ow_cow0.
  - exists fs. split; [|exact Hlive]. intros f'. rewrite Hfs. unfold owners; cbn [held pages].
    rewrite frames_of_insert by auto. cbn [fst]. rewrite <-Permutation_middle, Hh. done.
  - intros r' q Hr' Hq. cbn. destruct (Z.eqb_spec r' r) as [->|Hne]; [|auto]. rewrite Htr by done. cbn. auto.
  - by exists fs.
Qed.

(** The same with a fresh frame. *)
Lemma owned_map_fresh m g r p f fl rest res m' : owned m g → r ∈ roots g → user_page p → other g ≡ₚ f :: rest →
  pt_map r p f fl m = (res, m') → contents m' = contents m ∧ cow m' = cow m ∧ ∃ b : bool, res = Ok b ∧
    (b = true → pages g !! (r, p) = None) ∧
    owned m' (if b then mkBook (<[(r, p) := (f, fl)]> (pages g)) (roots g) (held g) rest else g).
Proof.
  intros Ho Hr Hp Hf Hm. destruct (owned_map _ _ _ _ _ _ _ _ Ho Hr Hp Hm) as (Hc & Hcow & b & -> & Hn & Hb).
  split; [done|]. split; [done|]. exists b. split; [done|]. split; [done|]. destruct b; [|done].
  pose proof (owned_adopt m g f rest Ho Hf) as Ho1.
  destruct (owned_map _ _ _ _ _ _ _ _ Ho1 Hr Hp Hm) as (_ & _ & b & [= <-] & _ & Hb'). by apply (Hb' (held g)).
Qed.

(** A holder without a table entry gives up its frame unrecorded. *)
Lemma owned_abandon m g f rest : owned m g → held g ≡ₚ f :: rest → f ∉ rest ++ frames_of (pages g) →
  cow_get (cow m) f = None → owned m (mkBook (pages g) (roots g) rest (f :: other g)).
Proof.
  intros Ho Hh Hf Hg. assert (release f (cow m) = (true, cow m)) as Hr.
  { destruct Ho as [? ? ? [Hw ?] ? ? ? ?]. unfold release. by rewrite (proj1 (cow_get_find _ f Hw) Hg). }
  destruct (owned_release m g f rest (Ok true) m Ho Hh) as (_ & b & Hb & _ & Ho').
  - unfold cow_release. rewrite Hr. by destruct m.
  - by injection Hb as <-.
Qed.

Lemma owned_set_tables_same m g r pt : owned m g → r ∈ roots g → tables_of pt = tables_of (tables m r) →
  ∀ fs, (∀ f, f ∈ fs ↔ f ∈ owners g) → frames_inv (memory m) (in_use m g fs) →
  frames_inv (memory m) (in_use (set_tables r pt m) g fs).
Proof. intros Ho Hr Ht fs Hfs Hi. exact (owned_tables m g r pt (memory m) [] fs Ho Hr Hfs Hi Ht). Qed.

Lemma owned_unmap m g r p res m' : owned m g → r ∈ roots g → user_page p → pt_unmap r p m = (res, m') →
  contents m' = contents m ∧
  match pages g !! (r, p) with
  | None => res = Ok None ∧ m' = m
  | Some (f, _) => res = Ok (Some f) ∧ owned m' (mkBook (delete (r, p) (pages g)) (roots g) (f :: held g) (other g))
  end.
Proof.
  intros Ho Hr Hp Hu. pose proof Ho as []. unfold pt_unmap in Hu. pose proof (unmap_law p (tables m r) Hp (ow_small0 r Hr)) as Hlaw.
  rewrite ow_pages0 in Hlaw by done. destruct (unmap p (tables m r)) as [[f pt]|]; simplify_eq.
  2: { apply fmap_None in Hlaw as ->. done. }
  destruct Hlaw as ((fl & Hfl) & Htab & Hsm & Htr). destruct (pages g !! (r, p)) as [[f0 fl0]|] eqn:Epg; [|done].
  cbn in Hfl. injection Hfl as -> ->. split; [done|]. split; [done|].
  assert (owners (mkBook (delete (r, p) (pages g)) (roots g) (f :: held g) (other g)) ≡ₚ owners g) as Hown.
  { unfold owners; cbn [held pages]. by rewrite (frames_of_delete _ _ _ Epg), <-Permutation_middle. }
  split; cbn [pages roots]; try done.
  - intros r' q Hr' Hq. cbn. destruct (Z.eqb_spec r' r) as [->|Hne].
    + rewrite Htr by done. destruct (Z.eqb_spec q p) as [->|Hqp].
      * by rewrite lookup_delete_eq.
      * rewrite lookup_delete_ne by congruence. auto.
    + rewrite lookup_delete_ne by congruence. auto.
  - intros r' q v [_ Hv]%lookup_delete_Some. by eapply ow_dom0.
  - intros r' Hr'. cbn. destruct (Z.eqb_spec r' r) as [->|]; auto.
  - by rewrite Hown.
  - destruct ow_live0 as (fs & Hfs & Hi). exists fs. split; [intros f'; by rewrite Hown|].
    exact (owned_set_tables_same m g r pt Ho Hr Htab fs Hfs Hi).
Qed.

Lemma owned_update m g r p fl res m' : owned m g → r ∈ roots g → user_page p → pt_update r p fl m = (res, m') →
  contents m' = contents m ∧
  match pages g !! (r, p) with
  | None => res = Ok false ∧ m' = m
  | Some (f, _) => res = Ok true ∧ owned m' (with_pages (<[(r, p) := (f, fl)]> (pages g)) g)
  end.
Proof.
  intros Ho Hr Hp Hu. pose proof Ho as []. unfold pt_update in Hu.
  pose proof (update_law p fl (tables m r) Hp (ow_small0 r Hr)) as Hlaw.
  rewrite ow_pages0 in Hlaw by done. destruct (update_flags p fl (tables m r)) as [pt|]; simplify_eq.
  2: { apply fmap_None in Hlaw as ->. done. }
  destruct Hlaw as (Htab & Hsm & f & fl0 & Hfl & Htr). destruct (pages g !! (r, p)) as [[f0 fl1]|] eqn:Epg; [|done].
  cbn in Hfl. injection Hfl as -> ->. split; [done|]. split; [done|].
  assert (owners (with_pages (<[(r, p) := (f, fl)]> (pages g)) g) ≡ₚ owners g) as Hown.
  { unfold owners; cbn [held pages with_pages]. by rewrite (frames_of_update _ _ (f, fl0)). }
  split; cbn [pages roots with_pages]; try done.
  - intros r' q Hr' Hq. cbn. destruct (Z.eqb_spec r' r) as [->|Hne].
    + rewrite Htr by done. destruct (Z.eqb_spec q p) as [->|Hqp].
      * by rewrite lookup_insert_eq.
      * rewrite lookup_insert_ne by congruence. auto.
    + rewrite lookup_insert_ne by congruence. auto.
  - intros r' q v [[[= <- <-] <-]|[_ Hv]]%lookup_insert_Some; [done|]. by eapply ow_dom0.
  - intros r' Hr'. cbn. destruct (Z.eqb_spec r' r) as [->|]; auto.
  - by rewrite Hown.
  - destruct ow_live0 as (fs & Hfs & Hi). exists fs. split; [intros f'; by rewrite Hown|].
    exact (owned_set_tables_same m g r pt Ho Hr Htab fs Hfs Hi).
Qed.

Lemma owned_poke m g f off b : owned m g → (off + length b ≤ PAGE_BYTES)%nat → owned (poke f off b m) g.
Proof.
  intros [] Hb. split; try done. intros f'. cbn. destruct (f' =? f); [|done]. rewrite length_splice; rewrite ow_contents0; done.
Qed.

(** The sole owner's entry is cleared. *)
Lemma owned_clear m g f : owned m g → cnt f (owners g) = 1 →
  owned (match find_slot (cow m) f with Some i => set_cow (<[i := cow_empty]> (cow m)) m | None => m end) g.
Proof.
  intros Ho Hc. pose proof Ho as []. destruct (find_slot (cow m) f) as [i|] eqn:E; [|done]. split; try done.
  by eapply cow_ok_clear.
Qed.

(** A fresh frame becomes the root of an empty address space. *)
Lemma owned_new_root m g root pt rest : owned m g → other g ≡ₚ root :: rest → small pt → tables_of pt = [] →
  (∀ q, user_page q → translate q pt = None) →
  owned (set_tables root pt m) (mkBook (pages g) (root :: roots g) (held g) rest).
Proof.
  intros Ho Hr Hsm Ht Htr. pose proof Ho as []. destruct ow_live0 as (fs & Hfs & Hi).
  assert (root ∉ roots g) as Hnr.
  { pose proof (in_use_nodup _ _ _ Hi) as Hnd. unfold in_use in Hnd. rewrite Hr in Hnd.
    apply NoDup_app in Hnd as (_ & _ & Hnd). apply NoDup_app in Hnd as (_ & Hd & _). intros Hin.
    apply (Hd root Hin). rewrite elem_of_app. right; left. }
  assert (∀ p, pages g !! (root, p) = None) as Hnp.
  { intros p. destruct (pages g !! (root, p)) eqn:E; [|done]. by apply ow_dom0 in E as [? _]. }
  split; cbn [pages roots]; try done.
  - intros r p Hin Hp. cbn. destruct (Z.eqb_spec r root) as [->|Hne]; [by rewrite Htr, Hnp|].
    apply elem_of_cons in Hin as [->|Hin]; [done|auto].
  - intros r p v Hv. apply ow_dom0 in Hv as [? ?]. split; [by right|done].
  - intros r Hin. cbn. destruct (Z.eqb_spec r root) as [->|Hne]; [done|]. apply elem_of_cons in Hin as [->|Hin]; [done|auto].
  - exists fs. split; [done|]. eapply frames_inv_perm; [|exact Hi]. unfold in_use; cbn [roots other]. rewrite Hr.
    assert (root_tables (set_tables root pt m) (root :: roots g) = root_tables m (roots g)) as ->.
    { unfold root_tables. cbn. rewrite Z.eqb_refl, Ht. cbn. clear -Hnr. induction (roots g) as [|x l IH]; [done|].
      apply not_elem_of_cons in Hnr as [Hx Hl]. cbn. rewrite (proj2 (Z.eqb_neq x root)) by congruence. by rewrite IH. }
    f_equiv. simpl. rewrite !app_assoc. by rewrite Permutation_middle.
Qed.
End own.
