(* ===== verification/PagingCow.v ===== *)
(** * Copy-on-write address spaces (kernel/src/paging.rs)

    What each call on user address spaces does to the mapped pages, their
    owners and their contents, and the main theorems: along every sequence of
    calls frames are owned exactly as counted, a writable page shares its frame
    with nobody, and a forked page keeps its contents whatever the other
    address spaces do. *)
From stdpp Require Import list gmap.
From S2P Require Import Prelude Memory Paging PagingOwn.

(** A range of the user region. *)
Definition user_range (start sz : Z) : Prop := USER_REGION_START ≤ start ∧ 0 ≤ sz ∧ start + sz ≤ USER_REGION_END.

(** [keys r ps]: the pages [ps] of the address space [r]. *)
Definition keys (r : Z) (ps : list Z) : list (Z * Z) := pair r <$> ps.

Lemma elem_of_keys r ps k : k ∈ keys r ps ↔ fst k = r ∧ snd k ∈ ps.
Proof. unfold keys. rewrite list_elem_of_fmap. destruct k as [r' p]; cbn. naive_solver. Qed.

(** A writable page's frame has one owner, unless it is [shared] on purpose. *)
Definition excl (shared : list Z) (g : Book) : Prop := ∀ k f fl,
  pages g !! k = Some (f, fl) → f_writable fl = true → f ∈ shared ∨ cnt f (owners g) = 1.

Lemma mapped_owned g k f fl : pages g !! k = Some (f, fl) → f ∈ owners g.
Proof. intros Hk. unfold owners. rewrite elem_of_app, elem_of_frames_of. eauto. Qed.

Lemma mapped_once g k k' f fl fl' : cnt f (owners g) = 1 →
  pages g !! k = Some (f, fl) → pages g !! k' = Some (f, fl') → k = k'.
Proof.
  intros Hc Hk Hk'. eapply frames_of_once; [|exact Hk|exact Hk']. unfold owners in Hc. rewrite cnt_app in Hc.
  pose proof (cnt_nonneg f (held g)). lia.
Qed.

(** A frame with one page and one owner has no holder. *)
Lemma mapped_not_held g k f fl : cnt f (owners g) = 1 → pages g !! k = Some (f, fl) → f ∉ held g.
Proof.
  intros Hc Hk Hh. unfold owners in Hc. rewrite cnt_app in Hc. apply cnt_pos in Hh.
  assert (1 ≤ cnt f (frames_of (pages g))) by (apply cnt_pos, elem_of_frames_of; eauto). lia.
Qed.

(** Pages and owners removed, flags weakened. *)
Lemma excl_mono sh g g' : excl sh g →
  (∀ k f fl, pages g' !! k = Some (f, fl) → ∃ fl0, pages g !! k = Some (f, fl0) ∧ (f_writable fl = true → f_writable fl0 = true)) →
  (∀ f, cnt f (owners g') ≤ cnt f (owners g)) → excl sh g'.
Proof.
  intros He Hp Hc k f fl Hk Hw. destruct (Hp k f fl Hk) as (fl0 & Hk0 & Hw0).
  destruct (He k f fl0 Hk0 (Hw0 Hw)) as [|H1]; [by left|right]. specialize (Hc f).
  pose proof (proj2 (cnt_pos f (owners g')) (mapped_owned g' k f fl Hk)). lia.
Qed.

Lemma frames_of_subset (g1 g2 : PageMap) f : g1 ⊆ g2 → cnt f (frames_of g1) ≤ cnt f (frames_of g2).
Proof.
  intros Hs. pose proof (map_to_list_submseteq _ _ Hs) as Hl. apply (fmap_submseteq (λ kv, fst (snd kv))) in Hl.
  apply submseteq_Permutation in Hl as [l Hl]. unfold frames_of at 2. rewrite Hl, cnt_app.
  pose proof (cnt_nonneg f l). unfold frames_of. lia.
Qed.

Section cow.
Context {PT : Type} `{PageTableLaws PT}.
Implicit Types (m : Machine PT) (g : Book).
#[local] Set Default Proof Using "All".

(** The bytes of a page, and of a page the bookkeeping lists. *)
Definition image m (r p : Z) : option (list byte) := (λ '(f, _, _), contents m f) <$> translate p (tables m r).
Definition bytes_at m g (k : Z * Z) : option (list byte) := (λ v, contents m (fst v)) <$> pages g !! k.

Lemma image_bytes m g r p : owned m g → r ∈ roots g → user_page p → image m r p = bytes_at m g (r, p).
Proof. intros Ho Hr Hp. unfold image, bytes_at. rewrite (ow_pages _ _ Ho) by done. by destruct (pages g !! (r, p)). Qed.

Lemma page_range_user start sz : user_range start sz →
  match page_range start sz with
  | Ok ps => Forall user_page ps ∧ NoDup ps ∧ ∀ p, p ∈ ps ↔ start ≤ p < start + sz ∧ p mod PAGE = 0
  | Err e => e = InvalidRange
  | Panic => False
  end.
Proof.
  intros (Hs & Hz & He). unfold USER_REGION_END, USER_REGION_START in *. unfold page_range. destruct ((_ || _) || _) eqn:Ec; [done|]. open_guards.
  unfold checked_add. rewrite (proj2 (Z.ltb_lt _ _)) by lia. rewrite !canonical_law by lia. cbn [andb].
  assert (∀ p, p ∈ pages_from start (Z.to_nat (sz / PAGE)) ↔ start ≤ p < start + sz ∧ p mod PAGE = 0) as Hel.
  { intros p. pose proof (frames_between_elem start (start + sz) p) as Hf. unfold frames_between, FRAME_SIZE in Hf.
    unfold pages_from, PAGE in *. rewrite Z.add_simpl_l in Hf. apply Hf; [done| |lia].
    rewrite Z.add_mod by lia. by replace (start mod 4096) with 0 by lia; replace (sz mod 4096) with 0 by lia. }
  split_and!; [|unfold pages_from; apply NoDup_fmap_2; [intros i j; unfold PAGE; lia|apply NoDup_seq]|exact Hel].
  apply Forall_forall. intros p Hp%Hel. unfold user_page, USER_REGION_START, USER_REGION_END, USER_REGION_START. lia.
Qed.

Lemma page_of_user a : USER_REGION_START ≤ a < USER_REGION_END → user_page (page_of a).
Proof.
  unfold user_page, page_of, USER_REGION_END, USER_REGION_START, PAGE. intros Ha.
  pose proof (Z.mod_pos_bound a 4096). pose proof (Z.div_mod a 4096). split; [|split; [|lia]].
  - replace (a - a mod 4096) with (a / 4096 * 4096) by lia. apply Z.mod_mul. lia.
  - lia.
Qed.

(** ** The tests every call makes *)

Lemma mapper_ok m g r : owned m g → r ∈ roots g → mapper_for r m = (Ok tt, m).
Proof.
  intros Ho Hr. unfold mapper_for, direct. rewrite bind_gets.
  destruct (owned_reach m g r Ho) as (_ & _ & ->); [|done]. rewrite !elem_of_app. auto.
Qed.

Lemma translate_run m g r p : owned m g → r ∈ roots g → user_page p →
  pt_translate r p m = (Ok (entry <$> pages g !! (r, p)), m).
Proof. intros Ho Hr Hp. unfold pt_translate, gets. by rewrite (ow_pages _ _ Ho). Qed.

(** ** Mapping fresh frames *)

(** [extends r fl g0 g ps]: [g] is [g0] with the pages [ps] of [r] mapped to
    frames of their own. *)
Definition extends r fl g0 g (ps : list Z) : Prop :=
  roots g = roots g0 ∧ held g ≡ₚ held g0 ∧
  (∀ k, k ∉ keys r ps → pages g !! k = pages g0 !! k) ∧ (∀ f, f ∈ owners g0 → cnt f (owners g) = cnt f (owners g0)) ∧
  ∀ p, p ∈ ps → pages g0 !! (r, p) = None ∧
    ∃ f, pages g !! (r, p) = Some (f, fl) ∧ f ∉ owners g0 ∧ cnt f (owners g) = 1.

Lemma map_page_spec m g r p fl res m' : owned m g → r ∈ roots g → user_page p → map_page r p fl m = (res, m') →
  contents m' = contents m ∧ cow m' = cow m ∧ ∃ o g', res = Ok o ∧ owned m' g' ∧ roots g' = roots g ∧ held g' = held g ∧
    match o with
    | None => pages g !! (r, p) = None ∧ ∃ f, f ∉ owners g ∧ pages g' = <[(r, p) := (f, fl)]> (pages g)
    | Some _ => pages g' = pages g
    end.
Proof.
  intros Ho Hr Hp Hm. unfold map_page in Hm. rewrite (bind_run _ _ _ _ _ (translate_run m g r p Ho Hr Hp)) in Hm.
  destruct (pages g !! (r, p)) as [v|] eqn:Ev; cbn [fmap option_fmap option_map] in Hm.
  { injection Hm as <- <-. split_and!; [done|done|]. by exists (Some AlreadyMapped), g. }
  destruct (alloc m) as [r1 m1] eqn:Ea. destruct (owned_alloc m g r1 m1 Ho Ea) as (Hc1 & o & -> & Ho1).
  assert (cow m1 = cow m) as Hcow1. { unfold alloc in Ea. destruct (allocate_frame (memory m)) as [[?| |] ?]; by simplify_eq. }
  rewrite (bind_run _ _ _ _ _ Ea) in Hm. destruct o as [f|].
  2: { injection Hm as <- <-. split_and!; [done|done|]. by exists (Some OutOfFrames), g. }
  assert (f ∉ owners g) as Hfresh.
  { intros Hf. apply (owned_disjoint m1 _ f Ho1 Hf). cbn. rewrite !elem_of_app. right; right; left. }
  destruct (pt_map r p f fl m1) as [r2 m2] eqn:Em.
  destruct (owned_map_fresh m1 _ r p f fl (other g) r2 m2 Ho1 Hr Hp ltac:(done) Em) as (Hc2 & Hcow2 & b & -> & _ & Ho2).
  rewrite (bind_run _ _ _ _ _ Em) in Hm. destruct b.
  - injection Hm as <- <-. split_and!; [congruence|congruence|]. eexists None, _.
    split_and!; [done|exact Ho2|done|done|done|]. by exists f.
  - destruct (dealloc f m2) as [r3 m3] eqn:Ed.
    destruct (owned_dealloc m2 _ f (other g) r3 m3 Ho2 ltac:(done) Ed) as (Hc3 & b & -> & Ho3).
    assert (cow m3 = cow m2) as Hcow3. { unfold dealloc in Ed. destruct (deallocate_frame _ _). by simplify_eq. }
    rewrite (bind_run _ _ _ _ _ Ed) in Hm. injection Hm as <- <-. split_and!; [congruence|congruence|].
    exists (Some MappingFailed). destruct b; eexists; (split; [done|]); (split; [exact Ho3|done]).
Qed.

Lemma extends_owners r fl g0 g ps f : extends r fl g0 g ps → f ∈ owners g0 → f ∈ owners g.
Proof. intros (_ & _ & _ & Hc & _) Hf. by rewrite <-cnt_pos, Hc, cnt_pos. Qed.

Lemma extends_nil r fl g0 g : extends r fl g0 g [] → pages g = pages g0.
Proof. intros (_ & _ & Hk & _). apply map_eq. intros k. apply Hk. apply not_elem_of_nil. Qed.

Lemma extends_snoc r fl g0 g ps g' p f : extends r fl g0 g ps → p ∉ ps → roots g' = roots g → held g' = held g →
  pages g !! (r, p) = None → f ∉ owners g → pages g' = <[(r, p) := (f, fl)]> (pages g) →
  extends r fl g0 g' (ps ++ [p]).
Proof.
  intros He Hps Hr Hh Hn Hf Hg. assert (f ∉ owners g0) as Hf0 by (intros ?; by eapply Hf, extends_owners).
  assert (owners g' ≡ₚ f :: owners g) as Hown.
  { unfold owners. rewrite Hg, frames_of_insert, Hh by done. by rewrite <-Permutation_middle. }
  pose proof (λ f', extends_owners _ _ _ _ _ f' He) as Hsub.
  destruct He as (Hr0 & Hh0 & Hk & Hc & Hp). split_and!; [congruence|by rewrite Hh| | |].
  - intros k Hkn. rewrite Hg. rewrite elem_of_keys, elem_of_app in Hkn. rewrite lookup_insert_ne.
    + apply Hk. rewrite elem_of_keys. naive_solver.
    + intros <-. apply Hkn. cbn. split; [done|]. right. left.
  - intros f' Hf'. rewrite Hown, cnt_cons, Hc by done. destruct (Z.eqb_spec f' f) as [->|]; [naive_solver|done].
  - intros q [Hq|Hq%list_elem_of_singleton]%elem_of_app.
    + destruct (Hp q Hq) as (Hn0 & fq & Hgq & Hfq & Hcq). split; [done|]. exists fq.
      rewrite Hg, lookup_insert_ne by congruence. split_and!; [done|done|]. rewrite Hown, cnt_cons.
      rewrite (proj2 (Z.eqb_neq fq f)); [done|]. intros ->. by eapply Hf, mapped_owned.
    + subst q. split.
      * rewrite <-Hk; [done|]. rewrite elem_of_keys. cbn. naive_solver.
      * exists f. rewrite Hg, lookup_insert_eq. split_and!; [done|done|]. rewrite Hown, cnt_cons, Z.eqb_refl.
        by rewrite cnt_zero by done.
Qed.

Lemma unmap_fresh_spec r fl g0 ps m g res m' : owned m g → r ∈ roots g → Forall user_page ps → NoDup ps →
  extends r fl g0 g ps → (∀ f, f ∉ owners g0 → cow_get (cow m) f = None) → unmap_fresh r ps m = (res, m') →
  res = Ok tt ∧ contents m' = contents m ∧
  ∃ g', owned m' g' ∧ roots g' = roots g0 ∧ held g' ≡ₚ held g0 ∧ pages g' = pages g0.
Proof.
  revert m g. induction ps as [|p ps IH]; intros m g Ho Hr Hu Hnd He Hcow Hm; cbn [unmap_fresh] in Hm.
  { injection Hm as <- <-. split_and!; [done|done|]. exists g. pose proof (extends_nil _ _ _ _ He).
    destruct He as (? & ? & _). done. }
  apply Forall_cons in Hu as [Hp Hu]. apply NoDup_cons in Hnd as [Hnp Hnd]. pose proof He as (Hr0 & Hh0 & Hk & Hcnt & Hpg).
  destruct (Hpg p ltac:(left)) as (Hn0 & f & Hgp & Hf0 & Hcf).
  destruct (pt_unmap r p m) as [r1 m1] eqn:E1. destruct (owned_unmap m g r p r1 m1 Ho Hr Hp E1) as (Hc1 & H1').
  assert (cow m1 = cow m) as Hcow1. { unfold pt_unmap in E1. destruct (unmap _ _) as [[]|]; by simplify_eq. }
  rewrite Hgp in H1'. destruct H1' as [-> Ho1]. rewrite (bind_run _ _ _ _ _ E1) in Hm.
  assert (f ∉ held g ++ frames_of (delete (r, p) (pages g))) as Hnf.
  { unfold owners in Hcf. rewrite (frames_of_delete _ _ _ Hgp), <-Permutation_middle, cnt_cons, Z.eqb_refl in Hcf.
    rewrite <-cnt_pos. lia. }
  pose proof (owned_abandon m1 _ f (held g) Ho1 ltac:(done) Hnf ltac:(rewrite Hcow1; auto)) as Ho2. cbn [pages roots other] in Ho2.
  destruct (dealloc f m1) as [r2 m2] eqn:E2.
  destruct (owned_dealloc m1 _ f (other g) r2 m2 Ho2 ltac:(done) E2) as (Hc2 & b & -> & Ho3).
  assert (cow m2 = cow m1) as Hcow2. { unfold dealloc in E2. destruct (deallocate_frame _ _). by simplify_eq. }
  rewrite (bind_run _ _ _ _ _ E2) in Hm. set (g2 := if b : bool then _ else _) in Ho3.
  assert (roots g2 = roots g ∧ held g2 = held g ∧ pages g2 = delete (r, p) (pages g)) as (Hr2 & Hh2 & Hp2) by (subst g2; by destruct b).
  rewrite <-Hc1, <-Hc2. eapply (IH m2 g2); [done|by rewrite Hr2|done|done| |rewrite Hcow2, Hcow1; done|done].
  assert (owners g ≡ₚ f :: owners g2) as Hown.
  { unfold owners. rewrite Hh2, Hp2, (frames_of_delete _ _ _ Hgp). by rewrite <-Permutation_middle. }
  split_and!; [congruence|by rewrite Hh2| | |].
  - intros k Hkn. rewrite Hp2. destruct (decide (k = (r, p))) as [->|Hne]; [by rewrite lookup_delete_eq|].
    rewrite lookup_delete_ne by done. apply Hk. rewrite elem_of_keys in *. rewrite elem_of_cons.
    destruct k as [r' p']. cbn in *. naive_solver.
  - intros f' Hf'. rewrite <-Hcnt, Hown, cnt_cons by done. destruct (Z.eqb_spec f' f) as [->|]; [done|lia].
  - intros q Hq. destruct (Hpg q ltac:(by right)) as (Hnq & fq & Hgq & Hfq & Hcq). split; [done|]. exists fq.
    rewrite Hp2, lookup_delete_ne by congruence. split_and!; [done|done|].
    rewrite Hown, cnt_cons in Hcq. destruct (Z.eqb_spec fq f) as [->|]; [|lia].
    pose proof (mapped_once g (r, p) (r, q) f fl fl Hcf Hgp Hgq). congruence.
Qed.

Lemma map_pages_spec r fl g0 ps dn m g res m' : owned m g → r ∈ roots g → Forall user_page (dn ++ ps) → NoDup (dn ++ ps) →
  extends r fl g0 g dn → (∀ f, f ∉ owners g0 → cow_get (cow m) f = None) → map_pages r fl dn ps m = (res, m') →
  contents m' = contents m ∧ ∃ g', owned m' g' ∧
  match res with
  | Ok _ => extends r fl g0 g' (dn ++ ps)
  | Err _ => roots g' = roots g0 ∧ held g' ≡ₚ held g0 ∧ pages g' = pages g0
  | Panic => False
  end.
Proof.
  revert dn m g. induction ps as [|p ps IH]; intros dn m g Ho Hr Hu Hnd He Hcow Hm; cbn [map_pages] in Hm.
  { injection Hm as <- <-. split; [done|]. exists g. split; [done|]. by rewrite app_nil_r. }
  assert (user_page p) as Hp by (apply Forall_app in Hu as [_ Hu]; by apply Forall_cons in Hu as [? _]).
  assert (p ∉ dn) as Hpd. { apply NoDup_app in Hnd as (_ & Hd & _). intros Hin. apply (Hd p Hin). left. }
  destruct (map_page r p fl m) as [r1 m1] eqn:E1.
  destruct (map_page_spec m g r p fl r1 m1 Ho Hr Hp E1) as (Hc1 & Hcow1 & o & g1 & -> & Ho1 & Hr1 & Hh1 & Hpg1).
  rewrite (bind_run _ _ _ _ _ E1) in Hm. destruct o as [e|].
  - destruct (unmap_fresh r dn m1) as [r2 m2] eqn:E2.
    destruct (unmap_fresh_spec r fl g0 dn m1 g1 r2 m2) as (-> & Hc2 & g2 & Ho2 & ?); [done|by rewrite Hr1| | | |by rewrite Hcow1|done|].
    + by apply Forall_app in Hu as [? _].
    + by apply NoDup_app in Hnd as (? & _).
    + assert (owners g1 = owners g) as Hown by (unfold owners; by rewrite Hpg1, Hh1).
      unfold extends in *. rewrite Hown, Hpg1, Hh1, Hr1. exact He.
    + rewrite (bind_run _ _ _ _ _ E2) in Hm. injection Hm as <- <-. split; [congruence|]. by exists g2.
  - destruct Hpg1 as (Hn & f & Hf & Hpg1). rewrite (app_assoc dn [p] ps : dn ++ p :: ps = _) in *.
    rewrite <-Hc1. eapply (IH (dn ++ [p]) m1 g1); [done|by rewrite Hr1|done|done| |by rewrite Hcow1|done].
    by eapply extends_snoc.
Qed.

Lemma extends_excl sh r fl g0 g ps : extends r fl g0 g ps → excl sh g0 → excl sh g.
Proof.
  intros (_ & _ & Hk & Hc & Hp) He k f fl' Hkf Hw. destruct (decide (k ∈ keys r ps)) as [[Hk1 Hk2]%elem_of_keys|Hn].
  - destruct (Hp _ Hk2) as (_ & f' & Hf' & _ & Hcf). destruct k as [r' q]; cbn in *. subst r'. rewrite Hf' in Hkf. simplify_eq. by right.
  - rewrite Hk in Hkf by done. destruct (He k f fl' Hkf Hw) as [|H1']; [by left|right].
    rewrite Hc; [done|]. by eapply mapped_owned.
Qed.

(** No entry counts a frame without owners. *)
Lemma owned_no_entry m g f : owned m g → f ∉ owners g → cow_get (cow m) f = None.
Proof.
  intros [? ? ? [_ Hc] ? ? ? ?] Hf%cnt_zero. specialize (Hc f). destruct (cow_get (cow m) f); [lia|done].
Qed.

(** The pages of a range get frames of their own; on an error nothing is mapped. *)
Lemma map_user_range_spec sh m g r start sz w x res m' : owned m g → excl sh g → r ∈ roots g → user_range start sz →
  map_user_range_in r start sz w x m = (res, m') → contents m' = contents m ∧ ∃ g', owned m' g' ∧ excl sh g' ∧
  roots g' = roots g ∧ held g' ≡ₚ held g ∧
  match res with
  | Ok _ => ∃ ps, page_range start sz = Ok ps ∧ extends r (user_flags w x) g g' ps
  | Err _ => pages g' = pages g
  | Panic => False
  end.
Proof.
  intros Ho He Hr Hu Hm. pose proof (page_range_user start sz Hu) as Hpr. unfold map_user_range_in in Hm. rewrite bind_lift in Hm.
  destruct (page_range start sz) as [ps|e|]; [|injection Hm as <- <-; split; [done|]; by exists g|done].
  destruct Hpr as (Hps & Hnd & _). rewrite (bind_run _ _ _ _ _ (mapper_ok m g r Ho Hr)) in Hm.
  destruct (map_pages_spec r (user_flags w x) g ps [] m g res m') as (Hc & g' & Ho' & Hres); try done.
  - split_and!; try done. intros p Hp. by apply not_elem_of_nil in Hp.
  - intros f. by apply owned_no_entry.
  - split; [done|]. exists g'. split; [done|]. destruct res as [[]|e|]; [| |done].
    + split; [by eapply extends_excl|]. pose proof Hres as (? & ? & _). split_and!; [done|done|by exists ps].
    + destruct Hres as (? & Hh & Hpg). split_and!; [|done|done|done]. eapply excl_mono; [exact He| |].
      * rewrite Hpg. eauto.
      * intros f. unfold owners. by rewrite Hpg, Hh.
Qed.

(** ** Giving pages back *)

(** The pages [ps] of [r] removed. *)
Definition unmapped r (ps : list Z) g g' : Prop :=
  roots g' = roots g ∧ held g' ≡ₚ held g ∧
  ∀ k, pages g' !! k = if bool_decide (k ∈ keys r ps) then None else pages g !! k.

(** What the removal of one page and the release of its frame leave. *)
Lemma drop_page m1 g r p f fl m2 b : pages g !! (r, p) = Some (f, fl) →
  owned m1 (mkBook (delete (r, p) (pages g)) (roots g) (f :: held g) (other g)) → cow_release f m1 = (Ok b, m2) →
  contents m2 = contents m1 ∧
  owned m2 (mkBook (delete (r, p) (pages g)) (roots g) (held g) (if b then f :: other g else other g)) ∧
  (b = true ↔ f ∉ held g ++ frames_of (delete (r, p) (pages g))).
Proof.
  intros Hk Ho Hr. destruct (owned_release m1 _ f (held g) (Ok b) m2 Ho ltac:(done) Hr) as (Hc & b' & [= <-] & Hb & Ho').
  done.
Qed.

Lemma unmapped_refl r g : unmapped r [] g g.
Proof. split_and!; [done|done|]. intros k. by rewrite bool_decide_eq_false_2 by apply not_elem_of_nil. Qed.

Lemma unmapped_cons r p ps g g1 g2 : roots g1 = roots g → held g1 = held g → pages g1 = delete (r, p) (pages g) →
  unmapped r ps g1 g2 → unmapped r (p :: ps) g g2.
Proof.
  intros Hr Hh Hp (Hr2 & Hh2 & Hk2). split_and!; [congruence|by rewrite Hh2, Hh|]. intros k. rewrite Hk2, Hp.
  destruct (decide (k = (r, p))) as [->|Hne].
  - rewrite lookup_delete_eq. rewrite (bool_decide_eq_true_2 (_ ∈ keys r (p :: ps))) by left. by case_bool_decide.
  - rewrite lookup_delete_ne by done. cbn. unfold keys; cbn.
    rewrite (bool_decide_ext (k ∈ (r, p) :: (pair r <$> ps)) (k ∈ pair r <$> ps)); [done|]. rewrite elem_of_cons. naive_solver.
Qed.

Lemma unmapped_skip r p ps g g2 : pages g !! (r, p) = None → unmapped r ps g g2 → unmapped r (p :: ps) g g2.
Proof. intros Hn. apply unmapped_cons; [done|done|]. by rewrite delete_id. Qed.

Lemma unmapped_excl sh r ps g g' : unmapped r ps g g' → excl sh g → excl sh g'.
Proof.
  intros (_ & Hh & Hk) He. eapply excl_mono; [exact He| |].
  - intros k f fl Hkf. rewrite Hk in Hkf. case_bool_decide; [done|]. eauto.
  - intros f. unfold owners. rewrite Hh, !cnt_app. assert (pages g' ⊆ pages g) as Hs; [|pose proof (frames_of_subset _ _ f Hs); lia].
    apply map_subseteq_spec. intros k v Hkv. rewrite Hk in Hkv. by case_bool_decide.
Qed.

Lemma release_frame_spec m g f rest res m' : owned m g → held g ≡ₚ f :: rest → release_frame f m = (res, m') →
  contents m' = contents m ∧ ∃ (b : bool) g', res = Ok b ∧ owned m' g' ∧ pages g' = pages g ∧ roots g' = roots g ∧ held g' = rest.
Proof.
  intros Ho Hh Hm. unfold release_frame in Hm. destruct (cow_release f m) as [r1 m1] eqn:E1.
  destruct (owned_release m g f rest r1 m1 Ho Hh E1) as (Hc1 & b & -> & _ & Ho1). rewrite (bind_run _ _ _ _ _ E1) in Hm.
  destruct b; [|injection Hm as <- <-; split; [done|]; by eexists true, _].
  destruct (owned_dealloc m1 _ f (other g) res m' Ho1 ltac:(done) Hm) as (Hc2 & b & -> & Ho2).
  split; [congruence|]. exists b. destruct b; eexists; (split; [done|]); (split; [exact Ho2|done]).
Qed.

(** The two ways the code gives a shared page's frame back are one. *)
Lemma rollback_shared_cons r p ps m : rollback_shared r (p :: ps) m =
  (o ← pt_unmap r p; match o with None => mret tt | Some f => _ ← release_frame f; mret tt end ;; rollback_shared r ps) m.
Proof.
  cbn [rollback_shared]. unfold mbind, M_bind, mret, M_ret. destruct (pt_unmap r p m) as [[[f|]| |] m1]; [|done..].
  unfold release_frame, mbind, M_bind. destruct (cow_release f m1) as [[[]| |] m2]; [|done..].
  destruct (dealloc f m2) as [[?| |] ?]; done.
Qed.

Lemma rollback_shared_spec r ps m g res m' : owned m g → r ∈ roots g → Forall user_page ps →
  rollback_shared r ps m = (res, m') →
  res = Ok tt ∧ contents m' = contents m ∧ ∃ g', owned m' g' ∧ unmapped r ps g g'.
Proof.
  revert m g. induction ps as [|p ps IH]; intros m g Ho Hr Hu Hm.
  { injection Hm as <- <-. split_and!; [done|done|]. exists g. split; [done|apply unmapped_refl]. }
  apply Forall_cons in Hu as [Hp Hu]. rewrite rollback_shared_cons in Hm.
  destruct (pt_unmap r p m) as [r1 m1] eqn:E1. destruct (owned_unmap m g r p r1 m1 Ho Hr Hp E1) as (Hc1 & H1').
  rewrite (bind_run _ _ _ _ _ E1) in Hm. destruct (pages g !! (r, p)) as [[f fl]|] eqn:Epg.
  - destruct H1' as [-> Ho1]. destruct (release_frame f m1) as [r2 m2] eqn:E2.
    destruct (release_frame_spec m1 _ f (held g) r2 m2 Ho1 ltac:(done) E2) as (Hc2 & b & g2 & -> & Ho2 & Hp2 & Hr2 & Hh2).
    rewrite (bind_run _ _ _ _ _ (bind_run _ _ _ _ _ E2)) in Hm. cbn in Hm.
    destruct (IH m2 g2 Ho2 ltac:(by rewrite Hr2) Hu Hm) as (-> & Hc & g' & Ho' & Hun).
    split_and!; [done|congruence|]. exists g'. split; [done|]. by eapply unmapped_cons.
  - destruct H1' as [-> ->]. rewrite bind_ret in Hm.
    destruct (IH m g Ho Hr Hu Hm) as (-> & Hc & g' & Ho' & Hun).
    split_and!; [done|congruence|]. exists g'. split; [done|]. by apply unmapped_skip.
Qed.

Lemma unmap_pages_spec r ps m g res m' : owned m g → r ∈ roots g → Forall user_page ps → unmap_pages r ps m = (res, m') →
  contents m' = contents m ∧ ∃ g' ps1 ps2, owned m' g' ∧ ps = ps1 ++ ps2 ∧ unmapped r ps1 g g' ∧
  match res with Ok _ => ps2 = [] | Err _ => True | Panic => False end.
Proof.
  revert m g. induction ps as [|p ps IH]; intros m g Ho Hr Hu Hm; cbn [unmap_pages] in Hm.
  { injection Hm as <- <-. split; [done|]. exists g, [], []. split_and!; try done; apply unmapped_refl. }
  apply Forall_cons in Hu as [Hp Hu].
  destruct (pt_unmap r p m) as [r1 m1] eqn:E1. destruct (owned_unmap m g r p r1 m1 Ho Hr Hp E1) as (Hc1 & H1').
  rewrite (bind_run _ _ _ _ _ E1) in Hm. destruct (pages g !! (r, p)) as [[f fl]|] eqn:Epg.
  2: { destruct H1' as [-> ->]. injection Hm as <- <-. split; [done|]. exists g, [], (p :: ps). split_and!; try done; apply unmapped_refl. }
  destruct H1' as [-> Ho1]. cbn [ok_or] in Hm. rewrite bind_lift in Hm. destruct (release_frame f m1) as [r2 m2] eqn:E2.
  destruct (release_frame_spec m1 _ f (held g) r2 m2 Ho1 ltac:(done) E2) as (Hc2 & b & g2 & -> & Ho2 & Hp2 & Hr2 & Hh2).
  rewrite (bind_run _ _ _ _ _ E2), bind_guard in Hm. destruct b.
  - destruct (IH m2 g2 Ho2 ltac:(by rewrite Hr2) Hu Hm) as (Hc & g' & ps1 & ps2 & Ho' & -> & Hun & Hres).
    split; [congruence|]. exists g', (p :: ps1), ps2. split; [done|]. split; [done|]. split; [|done]. by eapply unmapped_cons.
  - injection Hm as <- <-. split; [congruence|]. exists g2, [p], ps. split; [done|]. split; [done|]. split; [|done].
    eapply unmapped_cons; [exact Hr2|exact Hh2|exact Hp2|apply unmapped_refl].
Qed.

(** ** Sharing for fork *)

(** The page [k] maps the same frame after as before, writable only if it was. *)
Definition kept g g' (k : Z * Z) : Prop :=
  match pages g !! k, pages g' !! k with
  | Some (f, fl), Some (f', fl') => f' = f ∧ (f_writable fl' = true → f_writable fl = true)
  | None, None => True
  | _, _ => False
  end.

Lemma kept_eq g g' k : pages g' !! k = pages g !! k → kept g g' k.
Proof. intros Hk. unfold kept. rewrite Hk. by destruct (pages g !! k) as [[]|]. Qed.
Lemma kept_trans g1 g2 g3 k : kept g1 g2 k → kept g2 g3 k → kept g1 g3 k.
Proof.
  unfold kept. destruct (pages g1 !! k) as [[]|], (pages g2 !! k) as [[]|], (pages g3 !! k) as [[]|]; try done.
  intros [-> ?] [-> ?]. auto.
Qed.
Lemma kept_bytes m g g' k : kept g g' k → bytes_at m g' k = bytes_at m g k.
Proof. unfold kept, bytes_at. destruct (pages g !! k) as [[]|], (pages g' !! k) as [[]|]; try done. by intros [-> _]. Qed.

(** The copy of a page for [dst]. *)
Definition copied src dst x g g' (p : Z) : Prop :=
  pages g !! (dst, p) = None ∧
  ∃ f fl, pages g !! (src, p) = Some (f, fl) ∧ pages g' !! (dst, p) = Some (f, user_flags false x).

Lemma share_excl sh g src dst p f fl x g' (strip : bool) : src ≠ dst → excl sh g → pages g !! (src, p) = Some (f, fl) →
  pages g !! (dst, p) = None → held g' ≡ₚ held g →
  pages g' = (if strip then <[(src, p) := (f, user_flags false x)]> else λ z, z) (<[(dst, p) := (f, user_flags false x)]> (pages g)) →
  (strip = false → f_writable fl = true → f ∈ sh) → excl sh g'.
Proof.
  intros Hne He Hsrc Hdst Hh Hp Hs.
  assert (owners g' ≡ₚ f :: owners g) as Hown.
  { unfold owners. rewrite Hp, Hh. destruct strip.
    - rewrite (frames_of_update _ (src, p) (f, fl)); [|by rewrite lookup_insert_ne by congruence|done].
      rewrite frames_of_insert by done. by rewrite <-Permutation_middle.
    - rewrite frames_of_insert by done. by rewrite <-Permutation_middle. }
  intros k f' fl' Hk Hw. rewrite Hp in Hk.
  assert (k ≠ (dst, p) ∧ (k = (src, p) → strip = false) ∧ pages g !! k = Some (f', fl')) as (Hk1 & Hk2 & Hk3).
  { destruct strip.
    - apply lookup_insert_Some in Hk as [[<- [= <- <-]]|[Hk2 Hk]]; [done|].
      apply lookup_insert_Some in Hk as [[<- [= <- <-]]|[Hk1 Hk]]; [done|]. naive_solver.
    - apply lookup_insert_Some in Hk as [[<- [= <- <-]]|[Hk1 Hk]]; [done|]. naive_solver. }
  destruct (He k f' fl' Hk3 Hw) as [|Hc]; [by left|]. destruct (decide (k = (src, p))) as [->|Hks].
  - left. rewrite Hsrc in Hk3. simplify_eq. by apply Hs; [apply Hk2|].
  - right. rewrite Hown, cnt_cons. destruct (Z.eqb_spec f' f) as [->|]; [|done].
    destruct Hks. by eapply mapped_once.
Qed.

Lemma share_page_spec sh m g src dst p w x res m' : owned m g → excl sh g → src ∈ roots g → dst ∈ roots g → src ≠ dst →
  user_page p → (∀ f fl, pages g !! (src, p) = Some (f, fl) → f_writable fl = true → w = true ∨ f ∈ sh) →
  share_page src dst p w x m = (res, m') → contents m' = contents m ∧ ∃ o g', res = Ok o ∧ owned m' g' ∧ excl sh g' ∧
  roots g' = roots g ∧ held g' ≡ₚ held g ∧ (∀ k, k ≠ (dst, p) → kept g g' k ∧ (fst k ≠ src → pages g' !! k = pages g !! k)) ∧
  match o with
  | None => copied src dst x g g' p
  | Some (_, this) => this = false ∧ pages g' = pages g
  end.
Proof.
  intros Ho He Hs Hd Hne Hp Hw Hm. unfold share_page in Hm. rewrite (bind_run _ _ _ _ _ (translate_run m g src p Ho Hs Hp)) in Hm.
  assert (∀ e this, this = false → m' = m → res = Ok (Some (e, this)) → contents m' = contents m ∧ ∃ o g', res = Ok o ∧ owned m' g' ∧
    excl sh g' ∧ roots g' = roots g ∧ held g' ≡ₚ held g ∧ (∀ k, k ≠ (dst, p) → kept g g' k ∧ (fst k ≠ src → pages g' !! k = pages g !! k)) ∧
    match o with None => copied src dst x g g' p | Some (_, this) => this = false ∧ pages g' = pages g end) as Hstop.
  { intros e this -> -> ->. split; [done|]. exists (Some (e, false)), g. split_and!; try done. intros k _. split; [by apply kept_eq|done]. }
  destruct (pages g !! (src, p)) as [[f fl]|] eqn:Esrc; cbn [fmap option_fmap option_map entry] in Hm.
  2: { injection Hm as <- <-. by eapply Hstop. }
  cbn [fst snd Z.eqb negb orb] in Hm. destruct (f_user fl); cbn [negb] in Hm; [|injection Hm as <- <-; by eapply Hstop].
  rewrite (bind_run _ _ _ _ _ (translate_run m g dst p Ho Hd Hp)) in Hm.
  destruct (pages g !! (dst, p)) as [v|] eqn:Edst; cbn [fmap option_fmap option_map] in Hm; [injection Hm as <- <-; by eapply Hstop|].
  destruct (cow_share f m) as [r1 m1] eqn:E1. pose proof (mapped_owned g _ _ _ Esrc) as Hf.
  rewrite (bind_run _ _ _ _ _ E1) in Hm.
  destruct (owned_share m g f r1 m1 Ho Hf E1) as [(-> & Hc1 & Ho1)|[[e ->] ->]]; [|injection Hm as <- <-; by eapply Hstop].
  destruct (pt_map dst p f (user_flags false x) m1) as [r2 m2] eqn:E2. rewrite (bind_run _ _ _ _ _ E2) in Hm.
  destruct (owned_map m1 _ dst p f _ r2 m2 Ho1 Hd Hp E2) as (Hc2 & _ & b & -> & _ & Ho2). destruct b.
  - specialize (Ho2 (held g) ltac:(done)). cbn [pages roots other with_held] in Ho2.
    destruct (w && f_writable fl) eqn:Ew.
    + destruct (pt_update src p (user_flags false x) m2) as [r3 m3] eqn:E3. rewrite (bind_run _ _ _ _ _ E3) in Hm.
      destruct (owned_update m2 _ src p _ r3 m3 Ho2 Hs Hp E3) as (Hc3 & H3). cbn [pages] in H3.
      rewrite lookup_insert_ne, Esrc in H3 by congruence. destruct H3 as [-> Ho3]. injection Hm as <- <-.
      split; [congruence|]. eexists None, _. split; [done|]. split; [exact Ho3|].
      split; [|split; [done|split; [done|split]]]; cbn [pages with_pages].
      * eapply (share_excl sh g src dst p f fl x _ true); done.
      * intros k Hk. split; [|intros Hfk; by rewrite !lookup_insert_ne by (intros <-; done)].
        unfold kept; cbn [pages with_pages]. destruct (decide (k = (src, p))) as [->|Hks].
        { rewrite Esrc, lookup_insert_eq. done. }
        rewrite !lookup_insert_ne by congruence. by destruct (pages g !! k) as [[]|].
      * split; [done|]. exists f, fl. split; [done|]. cbn [pages with_pages]. rewrite lookup_insert_ne, lookup_insert_eq by congruence. done.
    + injection Hm as <- <-. split; [congruence|]. eexists None, _. split; [done|]. split; [exact Ho2|].
      split; [|split; [done|split; [done|split]]]; cbn [pages].
      * eapply (share_excl sh g src dst p f fl x _ false); try done. intros _ Hwf. destruct (Hw f fl eq_refl Hwf) as [->|]; [|done].
        by rewrite Hwf in Ew.
      * intros k Hk. assert (<[(dst, p) := (f, user_flags false x)]> (pages g) !! k = pages g !! k) as Hke
          by by rewrite lookup_insert_ne by congruence. split; [by apply kept_eq|done].
      * split; [done|]. exists f, fl. split; [done|]. cbn [pages]. by rewrite lookup_insert_eq.
  - destruct (cow_release f m2) as [r3 m3] eqn:E3. rewrite (bind_run _ _ _ _ _ E3) in Hm.
    destruct (owned_release m2 _ f (held g) r3 m3 Ho2 ltac:(done) E3) as (Hc3 & b & -> & Hb & Ho3).
    injection Hm as <- <-. split; [congruence|]. eexists (Some (MappingFailed, false)), _. split; [done|]. split; [exact Ho3|].
    cbn [pages with_held held] in *. fold (owners g) in Hb. destruct b; [naive_solver|].
    split_and!; try done. intros k _. split; [by apply kept_eq|done].
Qed.

Definition sharing src dst x g0 g (ps : list Z) : Prop :=
  roots g = roots g0 ∧ held g ≡ₚ held g0 ∧ (∀ k, k ∉ keys dst ps → kept g0 g k) ∧ ∀ p, p ∈ ps → copied src dst x g0 g p.

Lemma not_in_keys (r : Z) ps k : k ∉ keys r ps ↔ (fst k = r → snd k ∉ ps).
Proof. rewrite elem_of_keys. naive_solver. Qed.

Lemma sharing_snoc src dst x g0 g g' ps p : src ≠ dst → p ∉ ps → sharing src dst x g0 g ps →
  roots g' = roots g → held g' ≡ₚ held g →
  (∀ k, k ≠ (dst, p) → kept g g' k ∧ (fst k ≠ src → pages g' !! k = pages g !! k)) → copied src dst x g g' p →
  sharing src dst x g0 g' (ps ++ [p]).
Proof.
  intros Hne Hp (Hr & Hh & Hk & Hc) Hr' Hh' Hk' (Hn & f & fl & Hs & Hd). split_and!; [congruence|by rewrite Hh'| |].
  - intros k Hkn. rewrite not_in_keys in Hkn. eapply kept_trans; [apply Hk|apply Hk'].
    + apply not_in_keys. intros Hf Hin. apply (Hkn Hf). apply elem_of_app. by left.
    + intros ->. apply Hkn; [done|]. apply elem_of_app. right; left.
  - intros q [Hq|Hq%list_elem_of_singleton]%elem_of_app.
    + destruct (Hc q Hq) as (Hn0 & f0 & fl0 & Hs0 & Hd0). split; [done|]. exists f0, fl0. split; [done|].
      destruct (Hk' (dst, q)) as [_ Heq]; [congruence|]. rewrite Heq by (cbn; congruence). done.
    + subst q. assert (kept g0 g (dst, p)) as Hkd by (apply Hk, not_in_keys; cbn; done).
      assert (kept g0 g (src, p)) as Hks by (apply Hk, not_in_keys; cbn; congruence).
      unfold kept in Hkd, Hks. rewrite Hn in Hkd. rewrite Hs in Hks. split.
      * by destruct (pages g0 !! (dst, p)) as [[]|].
      * destruct (pages g0 !! (src, p)) as [[f0 fl0]|]; [|done]. destruct Hks as [-> _]. eauto.
Qed.

Lemma share_pages_spec sh src dst w x g0 ps dn m g res m' : owned m g → excl sh g → src ∈ roots g → dst ∈ roots g → src ≠ dst →
  Forall user_page (dn ++ ps) → NoDup (dn ++ ps) → sharing src dst x g0 g dn →
  (∀ p f fl, p ∈ ps → pages g0 !! (src, p) = Some (f, fl) → f_writable fl = true → w = true ∨ f ∈ sh) →
  share_pages src dst w x dn ps m = (res, m') → contents m' = contents m ∧ ∃ g', owned m' g' ∧ excl sh g' ∧
  match res with
  | Ok _ => sharing src dst x g0 g' (dn ++ ps)
  | Err _ => roots g' = roots g0 ∧ held g' ≡ₚ held g0 ∧ ∀ k, kept g0 g' k
  | Panic => False
  end.
Proof.
  revert dn m g. induction ps as [|p ps IH]; intros dn m g Ho He Hs Hd Hne Hu Hnd Hsh Hw Hm; cbn [share_pages] in Hm.
  { injection Hm as <- <-. split; [done|]. exists g. rewrite app_nil_r. done. }
  assert (user_page p) as Hp by (apply Forall_app in Hu as [_ Hu]; by apply Forall_cons in Hu as [? _]).
  assert (p ∉ dn) as Hpd. { apply NoDup_app in Hnd as (_ & Hdj & _). intros Hin. apply (Hdj p Hin). left. }
  destruct (share_page src dst p w x m) as [r1 m1] eqn:E1.
  destruct (share_page_spec sh m g src dst p w x r1 m1 Ho He Hs Hd Hne Hp) as (Hc1 & o & g1 & -> & Ho1 & He1 & Hr1 & Hh1 & Hk1 & Hres1); [|done|].
  { intros f fl Hf Hwf. destruct Hsh as (_ & _ & Hk & _). assert (kept g0 g (src, p)) as Hks by (apply Hk, not_in_keys; cbn; congruence).
    unfold kept in Hks. rewrite Hf in Hks. destruct (pages g0 !! (src, p)) as [[f0 fl0]|] eqn:E0; [|done].
    destruct Hks as [-> Hwk]. eapply (Hw p); [left|exact E0|by apply Hwk]. }
  rewrite (bind_run _ _ _ _ _ E1) in Hm. destruct o as [[e this]|].
  - destruct Hres1 as [-> Hpg1]. destruct (rollback_shared dst dn m1) as [r2 m2] eqn:E2. rewrite (bind_run _ _ _ _ _ E2) in Hm.
    destruct (rollback_shared_spec dst dn m1 g1 r2 m2 Ho1) as (-> & Hc2 & g2 & Ho2 & Hun); [by rewrite Hr1|by apply Forall_app in Hu as [? _]|done|].
    injection Hm as <- <-. split; [congruence|]. exists g2. split; [done|]. split; [by eapply unmapped_excl|].
    destruct Hun as (Hr2 & Hh2 & Hk2), Hsh as (Hr & Hh & Hk & Hcp). split_and!; [congruence|by rewrite Hh2, Hh1|].
    intros k. destruct (decide (k ∈ keys dst dn)) as [Hin|Hin].
    + unfold kept. rewrite Hk2, bool_decide_eq_true_2 by done. apply elem_of_keys in Hin as [Hd1 Hd2].
      destruct (Hcp _ Hd2) as [Hn _]. destruct k as [r q]; cbn in *. subst r. by rewrite Hn.
    + eapply kept_trans; [by apply Hk|]. apply kept_eq. rewrite Hk2, bool_decide_eq_false_2 by done. by rewrite Hpg1.
  - rewrite (app_assoc dn [p] ps : dn ++ p :: ps = _) in *. rewrite <-Hc1.
    eapply (IH (dn ++ [p]) m1 g1); [done|done|by rewrite Hr1|by rewrite Hr1|done|done|done| | |done].
    + by eapply sharing_snoc.
    + intros q f fl Hq. apply Hw. by right.
Qed.

Lemma share_user_range_spec sh m g src dst start sz w x res m' : owned m g → excl sh g → src ∈ roots g → dst ∈ roots g →
  user_range start sz →
  (∀ p f fl, start ≤ p < start + sz → pages g !! (src, p) = Some (f, fl) → f_writable fl = true → w = true ∨ f ∈ sh) →
  share_user_range_in src dst start sz w x m = (res, m') → contents m' = contents m ∧ ∃ g', owned m' g' ∧ excl sh g' ∧
  roots g' = roots g ∧ held g' ≡ₚ held g ∧
  match res with
  | Ok _ => src ≠ dst ∧ ∃ ps, page_range start sz = Ok ps ∧ sharing src dst x g g' ps
  | Err _ => ∀ k, kept g g' k
  | Panic => False
  end.
Proof.
  intros Ho He Hs Hd Hu Hw Hm. pose proof (page_range_user start sz Hu) as Hpr. unfold share_user_range_in in Hm.
  destruct (Z.eqb_spec src dst) as [->|Hne].
  { injection Hm as <- <-. split; [done|]. exists g. split_and!; try done. intros k. by apply kept_eq. }
  rewrite bind_lift in Hm. destruct (page_range start sz) as [ps|e|]; [| |done].
  2: { injection Hm as <- <-. split; [done|]. exists g. split_and!; try done. intros k. by apply kept_eq. }
  destruct Hpr as (Hps & Hnd & Hel).
  rewrite (bind_run _ _ _ _ _ (mapper_ok m g src Ho Hs)), (bind_run _ _ _ _ _ (mapper_ok m g dst Ho Hd)) in Hm.
  destruct (share_pages_spec sh src dst w x g ps [] m g res m') as (Hc & g' & Ho' & He' & Hres); try done.
  - split_and!; try done; [intros k _; by apply kept_eq|]. intros p Hp. by apply not_elem_of_nil in Hp.
  - intros p f fl Hp. apply Hw. by apply Hel.
  - split; [done|]. exists g'. split; [done|]. split; [done|]. destruct res as [[]|e|]; [| |done].
    + pose proof Hres as (? & ? & _). split_and!; try done. by exists ps.
    + destruct Hres as (? & ? & ?). done.
Qed.

(** ** Write faults *)

Lemma not_null m g f : owned m g → f ∈ owners g ++ roots g ++ root_tables m (roots g) ++ other g →
  null_pointer (memory_offset m) f = false.
Proof.
  intros Ho Hf. unfold null_pointer. destruct (owned_reach m g f Ho Hf) as (Hb & _ & ->).
  destruct (ow_offset _ _ Ho). apply Z.eqb_neq. lia.
Qed.

(** What a resolved or refused write fault leaves: every page its bytes. *)
Definition broken sh r p m g m' g' (b : bool) : Prop :=
  owned m' g' ∧ excl sh g' ∧ roots g' = roots g ∧ held g' = held g ∧
  (∀ k, k ≠ (r, p) → pages g' !! k = pages g !! k) ∧ (∀ k, bytes_at m' g' k = bytes_at m g k) ∧
  (if b then ∃ f fl, pages g' !! (r, p) = Some (f, break_flags fl) ∧ cnt f (owners g') = 1 else pages g' = pages g).

Lemma broken_refused sh r p m g : owned m g → excl sh g → broken sh r p m g m g false.
Proof. done. Qed.

Lemma copy_page_spec sh m g r p old fl res m' : owned m g → excl sh g → r ∈ roots g → user_page p →
  pages g !! (r, p) = Some (old, fl) → 1 < cnt old (owners g) → copy_page r p old fl m = (res, m') →
  match res with Ok b => ∃ g', broken sh r p m g m' g' b | Err _ => False | Panic => True end.
Proof.
  intros Ho He Hr Hp Hk Hc Hm. unfold copy_page in Hm. destruct (alloc m) as [r1 m1] eqn:E1.
  destruct (owned_alloc m g r1 m1 Ho E1) as (Hc1 & o & -> & Ho1). rewrite (bind_run _ _ _ _ _ E1) in Hm.
  destruct o as [fresh|]; [|injection Hm as <- <-; exists g; split_and!; try done; intros k; unfold bytes_at; by rewrite Hc1].
  set (g1 := with_other (fresh :: other g) g) in Ho1.
  assert (fresh ∉ owners g) as Hfresh.
  { intros Hf. apply (owned_disjoint m1 g1 fresh Ho1 Hf). cbn. rewrite !elem_of_app. right; right; left. }
  assert (old ∈ owners g) as Hold by by eapply mapped_owned.
  rewrite bind_gets in Hm. rewrite (not_null m1 g1 old Ho1), (not_null m1 g1 fresh Ho1) in Hm; cbn [orb] in Hm.
  2: { rewrite !elem_of_app. cbn. right; right; right; left. } 2: { rewrite !elem_of_app. by left. }
  rewrite bind_modify in Hm. set (m2 := poke fresh 0 (contents m1 old) m1) in Hm.
  assert (owned m2 g1) as Ho2. { apply owned_poke; [done|]. rewrite (ow_contents _ _ Ho1). lia. }
  assert (∀ f, contents m2 f = if f =? fresh then contents m old else contents m f) as Hc2.
  { intros f. subst m2. cbn. rewrite Hc1. destruct (Z.eqb_spec f fresh) as [->|]; [|done].
    apply splice_all. by rewrite !(ow_contents _ _ Ho). }
  destruct (pt_unmap r p m2) as [r3 m3] eqn:E3. destruct (owned_unmap m2 g1 r p r3 m3 Ho2 Hr Hp E3) as (Hc3 & H3).
  change (pages g1) with (pages g) in H3. rewrite Hk in H3. destruct H3 as [-> Ho3]. rewrite (bind_run _ _ _ _ _ E3) in Hm.
  destruct (pt_map r p fresh (break_flags fl) m3) as [r4 m4] eqn:E4.
  destruct (owned_map_fresh m3 _ r p fresh _ (other g) r4 m4 Ho3 Hr Hp ltac:(done) E4) as (Hc4 & _ & b & -> & _ & Ho4).
  rewrite (bind_run _ _ _ _ _ E4) in Hm. destruct b.
  2: { destruct (pt_map r p old fl m4) as [r5 m5] eqn:E5. rewrite (bind_run _ _ _ _ _ E5) in Hm.
       unfold pt_map in E5. destruct (map_to _ _ _ _ _) as [? [? ?]]. injection E5 as <- <-. by injection Hm as <- <-. }
  destruct (cow_release old m4) as [r5 m5] eqn:E5. cbn [pages roots other held] in Ho4.
  destruct (owned_release m4 _ old (held g) r5 m5 Ho4 ltac:(done) E5) as (Hc5 & b & -> & Hb & Ho5).
  rewrite (bind_run _ _ _ _ _ E5) in Hm. cbn [pages roots other held] in Hb, Ho5. rewrite insert_delete_eq in Hb, Ho5.
  assert (owners g ≡ₚ old :: (held g ++ frames_of (delete (r, p) (pages g)))) as Hown.
  { unfold owners. rewrite (frames_of_delete _ _ _ Hk). by rewrite <-Permutation_middle. }
  assert (held g ++ frames_of (<[(r, p) := (fresh, break_flags fl)]> (pages g)) ≡ₚ
          fresh :: (held g ++ frames_of (delete (r, p) (pages g)))) as Hown'.
  { rewrite <-insert_delete_eq, frames_of_insert by apply lookup_delete_eq. by rewrite <-Permutation_middle. }
  destruct b.
  { exfalso. destruct Hb as [Hb _]. specialize (Hb eq_refl). rewrite Hown' in Hb. apply not_elem_of_cons in Hb as [_ Hb].
    rewrite Hown, cnt_cons, Z.eqb_refl, cnt_zero in Hc by done. lia. }
  injection Hm as <- <-. eexists. split; [exact Ho5|].
  assert (contents m5 = contents m2) as Hc52 by congruence.
  assert (∀ f, f ∈ owners g → contents m5 f = contents m f) as Hsame.
  { intros f Hf. rewrite Hc52, Hc2, (proj2 (Z.eqb_neq f fresh)); [done|]. by intros ->. }
  split; [|split; [done|split; [done|split; [|split]]]]; cbn [pages].
  - intros k f fl' Hkf Hw. cbn [pages] in Hkf. unfold owners; cbn [held pages]. rewrite Hown', cnt_cons.
    apply lookup_insert_Some in Hkf as [[<- [= <- <-]]|[Hne Hkf]].
    + right. rewrite Z.eqb_refl, cnt_zero; [done|]. rewrite Hown in Hfresh. by apply not_elem_of_cons in Hfresh as [_ ?].
    + destruct (He k f fl' Hkf Hw) as [|H1']; [by left|right]. rewrite Hown, cnt_cons in H1'.
      rewrite (proj2 (Z.eqb_neq f fresh)); [|intros ->; apply Hfresh; by eapply mapped_owned].
      destruct (Z.eqb_spec f old) as [->|]; [|done]. rewrite Hown, cnt_cons, Z.eqb_refl in Hc. lia.
  - intros k Hne. by rewrite lookup_insert_ne by congruence.
  - intros k. unfold bytes_at; cbn [pages]. destruct (decide (k = (r, p))) as [->|Hne].
    + rewrite lookup_insert_eq, Hk. cbn. by rewrite Hc52, Hc2, Z.eqb_refl.
    + rewrite lookup_insert_ne by congruence. destruct (pages g !! k) as [[f fl']|] eqn:Ek; [|done]. cbn.
      rewrite Hsame; [done|]. by eapply mapped_owned.
  - exists fresh, fl. split; [by rewrite lookup_insert_eq|]. unfold owners; cbn [held pages]. rewrite Hown', cnt_cons, Z.eqb_refl, cnt_zero; [done|].
    rewrite Hown in Hfresh. by apply not_elem_of_cons in Hfresh as [_ ?].
Qed.

Lemma try_break_cow_spec sh m g r a res m' : owned m g → excl sh g → r ∈ roots g → USER_REGION_START ≤ a < USER_REGION_END →
  try_break_cow r a m = (res, m') →
  match res with Ok b => ∃ g', broken sh r (page_of a) m g m' g' b | Err _ => False | Panic => True end.
Proof.
  intros Ho He Hr Ha Hm. pose proof (page_of_user a Ha) as Hp. unfold try_break_cow in Hm.
  assert (∀ b, (Ok b, m) = (res, m') → b = false →
    match res with Ok b => ∃ g', broken sh r (page_of a) m g m' g' b | Err _ => False | Panic => True end) as Hstop.
  { intros b [= <- <-] ->. exists g. by apply broken_refused. }
  rewrite canonical_law in Hm by (unfold USER_REGION_END, USER_REGION_START in Ha; lia). cbn [negb] in Hm.
  rewrite bind_gets in Hm. destruct (owned_reach m g r Ho) as (_ & _ & Hd); [rewrite !elem_of_app; auto|]. rewrite Hd in Hm.
  rewrite (bind_run _ _ _ _ _ (translate_run m g r _ Ho Hr Hp)) in Hm.
  destruct (pages g !! (r, page_of a)) as [[old fl]|] eqn:Ek; cbn [fmap option_fmap option_map entry fst snd] in Hm; [|by eapply Hstop].
  cbn [Z.eqb negb orb] in Hm. destruct (f_present fl); cbn [negb] in Hm; [|by eapply Hstop].
  destruct (f_writable fl); [by eapply Hstop|]. rewrite bind_gets in Hm.
  pose proof (mapped_owned g _ _ _ Ek) as Hold. rewrite (cow_ok_references _ _ _ (ow_cow _ _ Ho) Hold) in Hm.
  pose proof (proj2 (cnt_pos _ _) Hold) as Hpos.
  destruct (Z.leb_spec (cnt old (owners g)) 1) as [Hle|Hgt]; [|by eapply copy_page_spec].
  destruct (pt_update r (page_of a) (break_flags fl) m) as [r1 m1] eqn:E1.
  destruct (owned_update m g r _ _ r1 m1 Ho Hr Hp E1) as (Hc1 & H1'). rewrite Ek in H1'. destruct H1' as [-> Ho1].
  rewrite (bind_run _ _ _ _ _ E1), bind_modify in Hm. injection Hm as <- <-.
  set (g1 := with_pages _ g) in Ho1.
  assert (owners g1 ≡ₚ owners g) as Hown by (unfold owners; cbn; by rewrite (frames_of_update _ _ (old, fl))).
  assert (cnt old (owners g1) = 1) as Hc1' by (rewrite Hown; lia).
  set (m2 := match find_slot (cow m1) old with Some _ => _ | None => _ end).
  assert (contents m2 = contents m) as Hc2 by (subst m2; by destruct (find_slot (cow m1) old)).
  exists g1. split; [exact (owned_clear m1 g1 old Ho1 Hc1')|]. split; [|split; [done|split; [done|split; [|split]]]].
  - intros k f fl' Hkf Hw. rewrite Hown. cbn in Hkf. apply lookup_insert_Some in Hkf as [[<- [= <- <-]]|[Hne Hkf]]; [right; lia|eauto].
  - intros k Hne. cbn. by rewrite lookup_insert_ne by congruence.
  - intros k. unfold bytes_at. rewrite Hc2. cbn. destruct (decide (k = (r, page_of a))) as [->|Hne].
    + by rewrite lookup_insert_eq, Ek.
    + by rewrite lookup_insert_ne by congruence.
  - exists old, fl. split; [cbn; by rewrite lookup_insert_eq|done].
Qed.

(** ** Address spaces come and go *)

Lemma create_spec m g a res m' : owned m g → user_page (page_of a) → canonical a = true →
  create_user_address_space a m = (res, m') → contents m' = contents m ∧ ∃ o g', res = Ok o ∧ owned m' g' ∧
  pages g' = pages g ∧ held g' = held g ∧ roots g' = (match o with Some root => [root] | None => [] end) ++ roots g.
Proof.
  intros Ho Ha Hcan Hm. unfold create_user_address_space in Hm. rewrite bind_gets in Hm.
  destruct (ready m); cbn [negb] in Hm; [|injection Hm as <- <-; split; [done|]; by exists None, g].
  destruct (alloc m) as [r1 m1] eqn:E1. destruct (owned_alloc m g r1 m1 Ho E1) as (Hc1 & o & -> & Ho1).
  rewrite (bind_run _ _ _ _ _ E1) in Hm. destruct o as [root|]; [|injection Hm as <- <-; split; [done|]; by exists None, g].
  rewrite !bind_gets in Hm.
  assert ((Ok None, m1) = (res, m') → contents m' = contents m ∧ ∃ o g', res = Ok o ∧ owned m' g' ∧
    pages g' = pages g ∧ held g' = held g ∧ roots g' = (match o with Some root => [root] | None => [] end) ++ roots g) as Hstop.
  { intros [= <- <-]. split; [done|]. exists None. eexists. split; [done|]. split; [exact Ho1|]. done. }
  destruct (checked_add 64 _ (kernel_root m1)); [|auto]. destruct (checked_add 64 _ root); [|auto].
  rewrite Hcan in Hm; cbn [negb] in Hm. rewrite bind_modify in Hm. injection Hm as <- <-. split; [done|].
  destruct (clone_law a (tables m1 (kernel_root m1)) Ha) as (Hsm & Ht & Htr).
  pose proof (owned_new_root m1 _ root _ (other g) Ho1 ltac:(done) Hsm Ht Htr) as Ho2.
  eexists (Some root), _. split; [done|]. split; [exact Ho2|done].
Qed.

(** A root whose pages are gone leaves; its tables are for nobody to give back. *)
Lemma owned_retire m g r rs : owned m g → roots g ≡ₚ r :: rs → (∀ p, pages g !! (r, p) = None) →
  owned m (mkBook (pages g) rs (held g) (r :: tables_of (tables m r) ++ other g)).
Proof.
  intros Ho Hr Hp. pose proof Ho as []. split; cbn [pages roots]; try done.
  - intros r' p Hin. apply ow_pages. rewrite Hr. by right.
  - intros r' p v Hv. pose proof (ow_dom _ _ _ Hv) as [Hin Hu]. split; [|done]. rewrite Hr in Hin.
    apply elem_of_cons in Hin as [->|]; [by rewrite Hp in Hv|done].
  - intros r' Hin. apply ow_small. rewrite Hr. by right.
  - destruct ow_live as (fs & Hfs & Hi). exists fs. split; [done|]. eapply frames_inv_perm; [|exact Hi].
    unfold in_use; cbn [roots other]. rewrite Hr. unfold root_tables at 1. cbn [mbind list_bind].
    fold (root_tables m rs). f_equiv. simpl.
    by rewrite (Permutation_app_comm (tables_of _)), <-(Permutation_middle (root_tables m rs)), <-(Permutation_middle rs), <-app_assoc.
Qed.

Lemma discard_spec m g r rs res m' : owned m g → roots g ≡ₚ r :: rs → (∀ p, pages g !! (r, p) = None) →
  discard_empty_user_address_space r m = (res, m') → contents m' = contents m ∧ ∃ (b : bool) g', res = Ok b ∧ owned m' g' ∧
  pages g' = pages g ∧ held g' = held g ∧ roots g' ≡ₚ if b then rs else roots g.
Proof.
  intros Ho Hr Hp Hm. unfold discard_empty_user_address_space in Hm. rewrite bind_gets in Hm.
  destruct (active_root m =? r); [injection Hm as <- <-; split; [done|]; by exists false, g|].
  pose proof (owned_retire m g r rs Ho Hr Hp) as Ho1.
  destruct (owned_dealloc m _ r (tables_of (tables m r) ++ other g) res m' Ho1 ltac:(done) Hm) as (Hc & b & -> & Ho2).
  split; [done|]. exists b. destruct b; [eexists; split; [done|]; split; [exact Ho2|done]|].
  unfold dealloc in Hm. destruct (deallocate_frame r (memory m)) as [b a] eqn:E. injection Hm as -> <-.
  assert (a = memory m) as ->. { unfold deallocate_frame in E. destruct (_ || _); by simplify_eq. }
  exists g. split_and!; try done. by destruct m.
Qed.

Lemma dealloc_all_app l1 l2 m : dealloc_all (l1 ++ l2) m = (_ ← dealloc_all l1; dealloc_all l2) m.
Proof.
  revert m. induction l1 as [|f l1 IH]; intros m; [done|]. cbn [dealloc_all app]. unfold mbind, M_bind.
  destruct (dealloc f m) as [[b| |] m1]; [|done..]. destruct b; cbn; [|done]. rewrite IH. done.
Qed.

Lemma dealloc_all_spec l m g rest res m' : owned m g → other g ≡ₚ l ++ rest → dealloc_all l m = (res, m') →
  contents m' = contents m ∧ tables m' = tables m ∧ res ≠ Panic ∧
  ∃ g', owned m' g' ∧ pages g' = pages g ∧ held g' = held g ∧ roots g' = roots g.
Proof.
  revert m g. induction l as [|f l IH]; intros m g Ho Hl Hm; cbn [dealloc_all] in Hm.
  { injection Hm as <- <-. split_and!; [done|done|done|]. by exists g. }
  destruct (dealloc f m) as [r1 m1] eqn:E1. destruct (owned_dealloc m g f (l ++ rest) r1 m1 Ho Hl E1) as (Hc1 & b & -> & Ho1).
  assert (tables m1 = tables m) as Ht1. { unfold dealloc in E1. destruct (deallocate_frame _ _). by simplify_eq. }
  rewrite (bind_run _ _ _ _ _ E1), bind_guard in Hm. destruct b.
  - destruct (IH m1 _ Ho1 ltac:(done) Hm) as (Hc & Ht & Hres & g' & ?). split_and!; [congruence|congruence|done|]. by exists g'.
  - injection Hm as <- <-. split_and!; [done|done|done|]. by exists g.
Qed.

(** Everything [ranges] covers. *)
Definition covered (ranges : list (Z * Z)) (p : Z) : Prop := ∃ start sz, (start, sz) ∈ ranges ∧ start ≤ p < start + sz.

Lemma unmap_ranges_spec r ranges m g res m' : owned m g → r ∈ roots g → Forall (λ '(s, z), user_range s z) ranges →
  unmap_ranges r ranges m = (res, m') → contents m' = contents m ∧ ∃ g', owned m' g' ∧ roots g' = roots g ∧ held g' ≡ₚ held g ∧
  (∀ k, fst k ≠ r → pages g' !! k = pages g !! k) ∧
  (∀ p, pages g' !! (r, p) = None ∨ pages g' !! (r, p) = pages g !! (r, p)) ∧
  match res with Ok _ => ∀ p, covered ranges p → pages g' !! (r, p) = None | Err _ => True | Panic => False end.
Proof.
  revert m g. induction ranges as [|[start sz] ranges IH]; intros m g Ho Hr Hu Hm; cbn [unmap_ranges] in Hm.
  { injection Hm as <- <-. split; [done|]. exists g. split_and!; try done; [by right|]. intros p (? & ? & []%not_elem_of_nil & _). }
  apply Forall_cons in Hu as [Hu Hus]. pose proof (page_range_user start sz Hu) as Hpr. rewrite bind_lift in Hm.
  destruct (page_range start sz) as [ps|e|]; [| |done].
  2: { injection Hm as <- <-. split; [done|]. exists g. split_and!; try done. by right. }
  destruct Hpr as (Hps & _ & Hel). destruct (unmap_pages r ps m) as [r1 m1] eqn:E1.
  destruct (unmap_pages_spec r ps m g r1 m1 Ho Hr Hps E1) as (Hc1 & g1 & ps1 & ps2 & Ho1 & -> & (Hr1 & Hh1 & Hk1) & Hres1).
  assert (∀ k, fst k ≠ r → pages g1 !! k = pages g !! k) as Hoth.
  { intros k Hk. rewrite Hk1, bool_decide_eq_false_2; [done|]. rewrite elem_of_keys. naive_solver. }
  assert (∀ p, pages g1 !! (r, p) = None ∨ pages g1 !! (r, p) = pages g !! (r, p)) as Hown.
  { intros p. rewrite Hk1. case_bool_decide; auto. }
  rewrite (bind_run _ _ _ _ _ E1) in Hm. destruct r1 as [[]|e|]; [| |done].
  2: { injection Hm as <- <-. split; [done|]. exists g1. done. }
  subst ps2. rewrite app_nil_r in *.
  destruct (IH m1 g1 Ho1 ltac:(by rewrite Hr1) Hus Hm) as (Hc & g' & Ho' & Hr' & Hh' & Hoth' & Hown' & Hres).
  split; [congruence|]. exists g'. split; [done|]. split; [congruence|]. split; [by rewrite Hh'|].
  split; [intros k Hk; rewrite Hoth', Hoth; done|].
  split; [intros p; destruct (Hown' p) as [->| ->]; auto|].
  destruct res as [[]|e|]; [|done..]. intros p (s & z & [[= -> ->]|Hin]%elem_of_cons & Hp); [|apply Hres; by exists s, z].
  destruct (pages g !! (r, p)) as [v|] eqn:Ep.
  - apply (ow_dom _ _ Ho) in Ep as [_ [Ham _]].
    assert (pages g1 !! (r, p) = None) as Hn.
    { rewrite Hk1, bool_decide_eq_true_2; [done|]. apply elem_of_keys. split; [done|]. by apply Hel. }
    destruct (Hown' p) as [->| ->]; done.
  - destruct (Hown' p) as [->| ->]; [done|]. by destruct (Hown p) as [->| ->].
Qed.

(** A destroyed address space is gone; an error leaves the other spaces alone. *)
Lemma destroy_spec m g r rs ranges res m' : owned m g → roots g ≡ₚ r :: rs → Forall (λ '(s, z), user_range s z ∧ 0 < z) ranges →
  (∀ p, is_Some (pages g !! (r, p)) → covered ranges p) →
  destroy_user_address_space r ranges m = (res, m') → contents m' = contents m ∧ ∃ g', owned m' g' ∧ held g' ≡ₚ held g ∧
  (∀ k, fst k ≠ r → pages g' !! k = pages g !! k) ∧
  (∀ p, pages g' !! (r, p) = None ∨ pages g' !! (r, p) = pages g !! (r, p)) ∧
  match res with
  | Ok _ => roots g' ≡ₚ rs ∧ ∀ p, pages g' !! (r, p) = None
  | Err _ => roots g' = roots g
  | Panic => False
  end.
Proof.
  intros Ho Hr Hu Hcov Hm. assert (r ∈ roots g) as Hin by (rewrite Hr; left).
  assert (∀ e : MapRangeError, (Err e, m) = (res, m') → contents m' = contents m ∧ ∃ g', owned m' g' ∧ held g' ≡ₚ held g ∧
    (∀ k, fst k ≠ r → pages g' !! k = pages g !! k) ∧
    (∀ p, pages g' !! (r, p) = None ∨ pages g' !! (r, p) = pages g !! (r, p)) ∧
    match res with Ok _ => roots g' ≡ₚ rs ∧ ∀ p, pages g' !! (r, p) = None | Err _ => roots g' = roots g | Panic => False end) as Hstop.
  { intros e [= <- <-]. split; [done|]. exists g. split_and!; try done. by right. }
  unfold destroy_user_address_space in Hm. rewrite bind_gets in Hm. destruct ranges as [|[first z0] ranges]; [by eapply Hstop|].
  rewrite bind_guard in Hm. destruct (negb _); [|by eapply Hstop].
  rewrite (bind_run _ _ _ _ _ (mapper_ok m g r Ho Hin)) in Hm. set (rgs := (first, z0) :: ranges) in *.
  assert (Forall (λ '(s, z), user_range s z) rgs) as Hu' by (apply (Forall_impl _ _ _ Hu); intros []; tauto).
  assert (user_page (page_of first)) as Hfirst.
  { apply Forall_cons in Hu as [[(Hs & Hz & He) Hz0] _]. apply page_of_user. lia. }
  destruct (unmap_ranges r rgs m) as [r1 m1] eqn:E1.
  destruct (unmap_ranges_spec r rgs m g r1 m1 Ho Hin Hu' E1) as (Hc1 & g1 & Ho1 & Hr1 & Hh1 & Hoth & Hown & Hres1).
  rewrite (bind_run _ _ _ _ _ E1) in Hm. destruct r1 as [[]|e|]; [| |done].
  2: { injection Hm as <- <-. split; [done|]. exists g1. done. }
  assert (∀ p, pages g1 !! (r, p) = None) as Hnone.
  { intros p. destruct (pages g !! (r, p)) eqn:Ep.
    - apply Hres1, Hcov. eauto.
    - destruct (Hown p) as [->| ->]; done. }
  rewrite bind_gets in Hm. destruct (lower_tables first (tables m1 r)) as [lower|] eqn:El; cbn [ok_or] in Hm; rewrite bind_lift in Hm.
  2: { injection Hm as <- <-. split; [done|]. exists g1. done. }
  rewrite bind_modify in Hm. set (m2 := set_tables r _ m1) in Hm.
  destruct (lower_law _ _ _ El) as [rest Hrest]. destruct (drop_law first (tables m1 r) Hfirst) as (Hsm & Ht & Htr).
  assert (roots g1 ≡ₚ r :: rs) as Hr1' by by rewrite Hr1.
  assert (owned m2 (with_other (lower ++ rest ++ other g1) g1)) as Ho2.
  { pose proof (owned_retire m1 g1 r rs Ho1 Hr1' Hnone) as Hret.
    pose proof (owned_new_root m1 _ r _ (tables_of (tables m1 r) ++ other g1) Hret ltac:(done) Hsm Ht Htr) as Hnew. cbn [pages roots held] in Hnew.
    eapply owned_perm; [| | | |exact Hnew]; cbn; try done. by rewrite Hrest, <-app_assoc. }
  rewrite dealloc_all_app in Hm. destruct (dealloc_all lower m2) as [r3 m3] eqn:E3.
  destruct (dealloc_all_spec lower m2 _ (rest ++ other g1) r3 m3 Ho2 ltac:(done) E3) as (Hc3 & Ht3 & Hnp & g3 & Ho3 & Hp3 & Hh3 & Hr3).
  rewrite (bind_run _ _ _ _ _ E3) in Hm. cbn in Hp3, Hh3, Hr3.
  destruct r3 as [[]|e|]; [| |done].
  2: { injection Hm as <- <-. split; [rewrite Hc3; exact Hc1|]. exists g3. rewrite Hp3, Hh3, Hr3. done. }
  cbn [dealloc_all] in Hm. destruct (dealloc r m3) as [r4 m4] eqn:E4.
  assert (roots g3 ≡ₚ r :: rs) as Hr3' by by rewrite Hr3.
  assert (∀ p, pages g3 !! (r, p) = None) as Hnone3 by (intros p; by rewrite Hp3).
  destruct (owned_dealloc m3 _ r (tables_of (tables m3 r) ++ other g3) r4 m4 (owned_retire m3 g3 r rs Ho3 Hr3' Hnone3) ltac:(done) E4) as (Hc4 & b & -> & Ho4).
  rewrite (bind_run _ _ _ _ _ E4), bind_guard in Hm. destruct b.
  - injection Hm as <- <-. split; [rewrite Hc4, Hc3; exact Hc1|]. eexists. split; [exact Ho4|]. cbn [pages held roots with_other].
    rewrite Hp3, Hh3. split_and!; done.
  - injection Hm as <- <-. split; [rewrite Hc4, Hc3; exact Hc1|]. exists g3.
    unfold dealloc in E4. destruct (deallocate_frame r (memory m3)) as [b a] eqn:E. injection E4 as -> <-.
    assert (a = memory m3) as ->. { unfold deallocate_frame in E. destruct (_ || _); by simplify_eq. }
    split; [by destruct m3|]. rewrite Hp3, Hh3, Hr3. done.
Qed.

Lemma unmap_user_range_spec m g r start sz res m' : owned m g → r ∈ roots g → user_range start sz →
  unmap_user_range_in r start sz m = (res, m') → contents m' = contents m ∧ ∃ g' ps, owned m' g' ∧ unmapped r ps g g' ∧
  match res with
  | Ok _ => page_range start sz = Ok ps
  | Err _ => ∀ p, p ∈ ps → start ≤ p < start + sz
  | Panic => False
  end.
Proof.
  intros Ho Hr Hu Hm. pose proof (page_range_user start sz Hu) as Hpr. unfold unmap_user_range_in in Hm. rewrite bind_lift in Hm.
  destruct (page_range start sz) as [ps|e|]; [| |done].
  2: { injection Hm as <- <-. split; [done|]. exists g, []. split; [done|]. split; [apply unmapped_refl|].
       intros p Hp. by apply not_elem_of_nil in Hp. }
  destruct Hpr as (Hps & _ & Hel). rewrite (bind_run _ _ _ _ _ (mapper_ok m g r Ho Hr)) in Hm.
  destruct (unmap_pages_spec r ps m g res m' Ho Hr Hps Hm) as (Hc & g' & ps1 & ps2 & Ho' & -> & Hun & Hres).
  split; [done|]. exists g', ps1. split; [done|]. split; [done|]. destruct res as [[]|e|]; [subst ps2; by rewrite app_nil_r| |done].
  intros p Hp. apply Hel. apply elem_of_app. by left.
Qed.

(** ** Permissions *)

(** The pages [ps] of [r] get the flags, if the call completes; the others keep theirs. *)
Definition reflagged r fl (ps : list Z) (res : res MapRangeError unit) g g' : Prop :=
  owners g' ≡ₚ owners g ∧ (∀ k, k ∉ keys r ps → pages g' !! k = pages g !! k) ∧
  (res = Ok tt → ∀ p, p ∈ ps → ∃ f, pages g' !! (r, p) = Some (f, fl)).

Lemma reflagged_refl r fl ps e g : e ≠ Ok tt → reflagged r fl ps e g g.
Proof. intros He. split; [done|]. split; [done|]. intros ->. done. Qed.

Lemma reflagged_cons r fl p ps res g g1 g' f : p ∉ ps → owners g1 ≡ₚ owners g → pages g1 = <[(r, p) := (f, fl)]> (pages g) →
  reflagged r fl ps res g1 g' → reflagged r fl (p :: ps) res g g'.
Proof.
  intros Hps Hown Hp (Ho & Hk & Hok). split; [by rewrite Ho|]. split.
  - intros k Hkn. rewrite elem_of_keys, elem_of_cons in Hkn. rewrite Hk by (rewrite elem_of_keys; naive_solver).
    rewrite Hp, lookup_insert_ne; [done|]. intros <-. apply Hkn. cbn. auto.
  - intros Hres q [->|Hq]%elem_of_cons; [|by apply Hok]. exists f. rewrite Hk, Hp; [apply lookup_insert_eq|].
    rewrite elem_of_keys. cbn. naive_solver.
Qed.

(** The pages keep their frames; a page becomes writable only if [w]. *)
Lemma protect_pages_spec sh r w x ps m g res m' : owned m g → excl sh g → r ∈ roots g → Forall user_page ps → NoDup ps →
  (∀ p f fl, w = true → p ∈ ps → pages g !! (r, p) = Some (f, fl) → f_writable fl = true) →
  protect_pages r (user_flags w x) ps m = (res, m') → res ≠ Panic ∧ contents m' = contents m ∧
  ∃ g', owned m' g' ∧ excl sh g' ∧ roots g' = roots g ∧ held g' = held g ∧ (∀ k, kept g g' k) ∧
    reflagged r (user_flags w x) ps res g g' ∧ ((∀ p, p ∈ ps → is_Some (pages g !! (r, p))) → res = Ok tt).
Proof.
  revert m g. induction ps as [|p ps IH]; intros m g Ho He Hr Hu Hnd Hw Hm; cbn [protect_pages] in Hm.
  { injection Hm as <- <-. split; [done|]. split; [done|]. exists g. do 4 (split; [done|]). split; [intros k; by apply kept_eq|]. split; [|done].
    split; [done|]. split; [done|]. intros _ p Hp. by apply not_elem_of_nil in Hp. }
  apply Forall_cons in Hu as [Hp Hu]. apply NoDup_cons in Hnd as [Hnp Hnd]. destruct (pt_update r p (user_flags w x) m) as [r1 m1] eqn:E1.
  destruct (owned_update m g r p _ r1 m1 Ho Hr Hp E1) as (Hc1 & H1'). rewrite (bind_run _ _ _ _ _ E1) in Hm.
  destruct (pages g !! (r, p)) as [[f fl]|] eqn:Ep; destruct H1' as [-> H1']; rewrite bind_guard in Hm.
  2: { injection Hm as <- <-. subst m1. split; [done|]. split; [done|]. exists g. do 4 (split; [done|]). split; [intros k; by apply kept_eq|]. split; [by apply reflagged_refl|].
       intros Hall. destruct (Hall p ltac:(left)) as [? ?]. congruence. }
  set (g1 := with_pages _ g) in H1'.
  assert (∀ k, kept g g1 k) as Hk1.
  { intros k. unfold kept; cbn. destruct (decide (k = (r, p))) as [->|Hne].
    - rewrite Ep, lookup_insert_eq. split; [done|]. intros Hwf. by eapply (Hw p); [|left|].
    - rewrite lookup_insert_ne by congruence. by destruct (pages g !! k) as [[]|]. }
  assert (owners g1 ≡ₚ owners g) as Hown by (unfold owners; cbn; by rewrite (frames_of_update _ _ (f, fl))).
  assert (excl sh g1) as He1.
  { eapply excl_mono; [exact He| |].
    - intros k f' fl' Hkf. specialize (Hk1 k). unfold kept in Hk1. rewrite Hkf in Hk1.
      destruct (pages g !! k) as [[f0 fl0]|]; [|done]. destruct Hk1 as [-> ?]. by exists fl0.
    - intros f'. by rewrite Hown. }
  destruct (IH m1 g1 H1' He1 Hr Hu Hnd) as (Hres & Hc & g' & Ho' & He' & Hr' & Hh' & Hk' & Hre & Hall); [|done|].
  - intros q f' fl' Hwt Hq Hg1. specialize (Hk1 (r, q)). unfold kept in Hk1. rewrite Hg1 in Hk1.
    cbn in Hg1. apply lookup_insert_Some in Hg1 as [[[= <-] [= <- <-]]|[Hne Hg1]]; [by subst w|].
    eapply (Hw q); [done|by right|exact Hg1].
  - split; [done|]. split; [congruence|]. exists g'. do 4 (split; [done|]). split; [|split].
    + intros k. eapply kept_trans; [apply Hk1|apply Hk'].
    + by eapply (reflagged_cons _ _ _ _ _ g g1).
    + intros Hm'. apply Hall. intros q Hq. cbn. destruct (decide (q = p)) as [->|]; [rewrite lookup_insert_eq; eauto|].
      rewrite lookup_insert_ne by congruence. apply Hm'. by right.
Qed.

Lemma protect_spec sh m g r start sz w x res m' : owned m g → excl sh g → r ∈ roots g → user_range start sz →
  (∀ p f fl, w = true → start ≤ p < start + sz → pages g !! (r, p) = Some (f, fl) → f_writable fl = true) →
  protect_user_range_in r start sz w x m = (res, m') → res ≠ Panic ∧ contents m' = contents m ∧
  ∃ g', owned m' g' ∧ excl sh g' ∧ roots g' = roots g ∧ held g' = held g ∧ (∀ k, kept g g' k) ∧
    ∀ ps, page_range start sz = Ok ps → reflagged r (user_flags w x) ps res g g' ∧
      ((∀ p, p ∈ ps → is_Some (pages g !! (r, p))) → res = Ok tt).
Proof.
  intros Ho He Hr Hu Hw Hm. pose proof (page_range_user start sz Hu) as Hpr. unfold protect_user_range_in in Hm. rewrite bind_lift in Hm.
  destruct (page_range start sz) as [ps|e|]; [| |done].
  2: { injection Hm as <- <-. split; [done|]. split; [done|]. exists g. split_and!; try done. intros k. by apply kept_eq. }
  destruct Hpr as (Hps & Hnd & Hel). rewrite (bind_run _ _ _ _ _ (mapper_ok m g r Ho Hr)) in Hm.
  destruct (protect_pages_spec sh r w x ps m g res m' Ho He Hr Hps Hnd) as (Hres & Hc & g' & Ho' & He' & Hr' & Hh' & Hk & Hre); [|done|].
  - intros p f fl Hwt Hp. apply Hw; [done|]. by apply Hel.
  - split; [done|]. split; [done|]. exists g'. split_and!; try done. intros ? [= <-]. done.
Qed.

(** ** Stores *)

(** Only frames of the writable pages [r] has in a range change. *)
Definition stores_to r (lo hi : Z) m g m' : Prop := owned m' g ∧
  ∀ f, contents m' f = contents m f ∨ ∃ p fl, pages g !! (r, p) = Some (f, fl) ∧ lo ≤ p < hi.

Lemma translate_user m g r a : owned m g → r ∈ roots g → user_page (page_of a) →
  translate a (tables m r) = (λ v, (fst v, a mod PAGE, snd v)) <$> pages g !! (r, page_of a).
Proof.
  intros Ho Hr Ha. rewrite translate_law by (done || exact (ow_small _ _ Ho r Hr)). rewrite (ow_pages _ _ Ho) by done.
  by destruct (pages g !! (r, page_of a)) as [[]|].
Qed.

Lemma page_of_bound a : 0 ≤ a → page_of a ≤ a < page_of a + PAGE ∧ page_of a mod PAGE = 0 ∧ a = page_of a + a mod PAGE.
Proof.
  unfold page_of, PAGE. intros Ha. pose proof (Z.mod_pos_bound a 4096). pose proof (Z.div_mod a 4096).
  split_and!; [lia|lia| |lia]. replace (a - a mod 4096) with (a / 4096 * 4096) by lia. apply Z.mod_mul. lia.
Qed.

Lemma page_of_mono a b : a ≤ b → page_of a ≤ page_of b.
Proof.
  unfold page_of, PAGE. intros Hab. pose proof (Z.div_mod a 4096). pose proof (Z.div_mod b 4096).
  pose proof (Z.div_le_mono a b 4096). lia.
Qed.

Lemma frame_addr f o : 0 ≤ f → f mod PAGE = 0 → 0 ≤ o < PAGE → page_of (f + o) = f ∧ (f + o) mod PAGE = o.
Proof.
  unfold page_of, PAGE. intros Hf Hm Ho. assert ((f + o) mod 4096 = o) as ->; [|split; [lia|done]].
  rewrite Z.add_mod, Hm by lia. rewrite (Z.mod_small o), Z.add_0_l by lia. apply Z.mod_small. lia.
Qed.

(** A round of the loop of [write_user_bytes]. *)
Lemma write_round fuel m g r a b : owned m g → r ∈ roots g → b ≠ [] → USER_REGION_START ≤ a < USER_REGION_END →
  let count := Nat.min (Z.to_nat (PAGE - a mod PAGE)) (length b) in
  write_loop (S fuel) r a b m =
  match pages g !! (r, page_of a) with
  | None => (Err NotMapped, m)
  | Some (f, _) => write_loop fuel r (a + Z.of_nat count) (drop count b) (poke f (Z.to_nat (a mod PAGE)) (take count b) m)
  end.
Proof.
  intros Ho Hr Hb Ha count. pose proof (page_of_user a Ha) as Hp. cbn [write_loop]. destruct b as [|x b]; [done|].
  set (bs := x :: b) in *. unfold USER_REGION_END, USER_REGION_START in Ha.
  rewrite bind_guard, (proj2 (Z.ltb_lt a (2 ^ 64))) by lia. rewrite canonical_law by lia. cbn [negb].
  unfold pt_translate. rewrite bind_gets, (translate_user m g r a Ho Hr Hp).
  destruct (pages g !! (r, page_of a)) as [[f fl]|] eqn:Ek; cbn [fmap option_fmap option_map fst snd ok_or]; rewrite bind_lift; [|done].
  pose proof (mapped_owned g _ _ _ Ek) as Hown. destruct (owned_reach m g f Ho) as (Hfb & Hfm & _); [apply elem_of_app; by left|].
  pose proof (Z.mod_pos_bound a PAGE ltac:(done)) as Hmod. unfold direct at 1.
  assert (checked_add 64 (memory_offset m) (f + a mod PAGE) = Some (memory_offset m + (f + a mod PAGE))) as Hd.
  { destruct (ow_offset _ _ Ho). unfold checked_add. rewrite (proj2 (Z.ltb_lt _ _)); [done|].
    assert (f + PAGE ≤ 2 ^ 52). { unfold PAGE in *. apply Z.mod_divide in Hfm as [q ->]; [|lia]. lia. } lia. }
  unfold gets, mbind, M_bind, lift, modify. rewrite Hd.
  destruct (frame_addr f (a mod PAGE) ltac:(lia) Hfm Hmod) as [-> ->]. done.
Qed.

Lemma write_loop_spec fuel m g r a b res m' : owned m g → r ∈ roots g → (length b ≤ fuel)%nat →
  USER_REGION_START ≤ a → a + Z.of_nat (length b) ≤ USER_REGION_END → write_loop fuel r a b m = (res, m') →
  res ≠ Panic ∧ stores_to r (page_of a) (a + Z.of_nat (length b)) m g m'.
Proof.
  revert m a b. induction fuel as [|fuel IH]; intros m a b Ho Hr Hf Ha Hb Hm.
  { destruct b; [|simpl in Hf; lia]. injection Hm as <- <-. split; [done|]. split; [done|]. by left. }
  destruct (decide (b = [])) as [->|Hne].
  { injection Hm as <- <-. split; [done|]. split; [done|]. by left. }
  assert (0 < Z.of_nat (length b)) as Hlen by (destruct b; [done|simpl; lia]).
  assert (USER_REGION_START ≤ a < USER_REGION_END) as Hau by lia.
  rewrite (write_round fuel m g r a b Ho Hr Hne Hau) in Hm. cbv zeta in Hm.
  destruct (pages g !! (r, page_of a)) as [[f fl]|] eqn:Ek.
  2: { injection Hm as <- <-. split; [done|]. split; [done|]. by left. }
  unfold USER_REGION_END, USER_REGION_START in Ha, Hb.
  pose proof (Z.mod_pos_bound a PAGE ltac:(done)) as Hmod. destruct (page_of_bound a) as (Hpa & _ & Hae); [lia|].
  set (count := Nat.min _ _) in Hm. set (m1 := poke f _ _ m) in Hm.
  assert (Z.of_nat count ≤ PAGE - a mod PAGE ∧ (0 < count ≤ length b)%nat) as [Hcp Hcl].
  { subst count. unfold PAGE in *. lia. }
  assert (owned m1 g) as Ho1.
  { apply owned_poke; [done|]. rewrite length_take. change PAGE_BYTES with (Z.to_nat PAGE). unfold PAGE in *. lia. }
  destruct (IH m1 (a + Z.of_nat count) (drop count b) Ho1 Hr) as [Hres [Ho' Hst]].
  - rewrite length_drop. lia.
  - unfold USER_REGION_START; lia.
  - rewrite length_drop. unfold USER_REGION_END, USER_REGION_START; lia.
  - exact Hm.
  - split; [done|]. split; [done|]. intros f'.
    destruct (Hst f') as [Heq|(p & fl' & Hpg & Hlt)].
    + rewrite Heq. subst m1. cbn. destruct (Z.eqb_spec f' f) as [->|]; [|by left]. right. exists (page_of a), fl. split; [done|lia].
    + right. exists p, fl'. split; [done|]. rewrite length_drop in Hlt.
      pose proof (page_of_mono a (a + Z.of_nat count)). lia.
Qed.

Lemma write_user_bytes_spec m g r a b res m' : owned m g → r ∈ roots g → USER_REGION_START ≤ a →
  a + Z.of_nat (length b) ≤ USER_REGION_END → write_user_bytes r a b m = (res, m') →
  res ≠ Panic ∧ stores_to r (page_of a) (a + Z.of_nat (length b)) m g m'.
Proof.
  intros Ho Hr Ha Hb Hm. unfold write_user_bytes in Hm. rewrite (bind_run _ _ _ _ _ (mapper_ok m g r Ho Hr)) in Hm.
  by eapply write_loop_spec.
Qed.

Lemma zero_user_range_spec m g r start sz res m' : owned m g → r ∈ roots g → user_range start sz →
  zero_user_range_in r start sz m = (res, m') → res ≠ Panic ∧ stores_to r (page_of start) (start + sz) m g m'.
Proof.
  intros Ho Hr Hu Hm. pose proof (page_range_user start sz Hu) as Hpr. destruct Hu as (Hs & Hz & He).
  unfold zero_user_range_in in Hm. rewrite bind_lift in Hm.
  destruct (page_range start sz) as [ps|e|]; [| |done].
  2: { injection Hm as <- <-. split; [done|]. split; [done|]. by left. }
  rewrite (bind_run _ _ _ _ _ (mapper_ok m g r Ho Hr)) in Hm.
  replace (start + sz) with (start + Z.of_nat (length (replicate (Z.to_nat sz) x00))) by (rewrite length_replicate; lia).
  eapply write_loop_spec; [done|done| |done| |exact Hm]; rewrite length_replicate; lia.
Qed.

(** Stores change only the bytes of [r]'s pages in the range, and of the pages
    that share a frame with one of them on purpose. *)
Lemma stores_bytes sh r lo hi m g m' k : excl sh g → stores_to r lo hi m g m' →
  (∀ p f fl, lo ≤ p < hi → pages g !! (r, p) = Some (f, fl) → f_writable fl = true) →
  (fst k = r → ¬ (lo ≤ snd k < hi)) → (∀ f fl, pages g !! k = Some (f, fl) → f ∉ sh) →
  bytes_at m' g k = bytes_at m g k.
Proof.
  intros He [_ Hst] Hw Hk Hns. unfold bytes_at. destruct (pages g !! k) as [[f fl]|] eqn:Ek; [|done]. cbn.
  destruct (Hst f) as [->|(p & fl' & Hp & Hlt)]; [done|]. exfalso.
  destruct (He (r, p) f fl' Hp (Hw p f fl' Hlt Hp)) as [Hin|Hc]; [by eapply Hns|].
  pose proof (mapped_once g _ _ _ _ _ Hc Hp Ek) as <-. by apply Hk.
Qed.

(** ** Frames of the file cache *)

Lemma allocate_file_frame_spec m g b res m' : owned m g → length b = PAGE_BYTES → allocate_file_frame b m = (res, m') →
  ∃ o g', res = Ok o ∧ owned m' g' ∧ pages g' = pages g ∧ roots g' = roots g ∧
  held g' = (match o with Some f => [f] | None => [] end) ++ held g ∧
  (∀ f, f ∈ owners g → contents m' f = contents m f) ∧
  match o with Some f => f ∉ owners g ∧ contents m' f = b | None => True end.
Proof.
  intros Ho Hb Hm. unfold allocate_file_frame in Hm. destruct (alloc m) as [r1 m1] eqn:E1.
  destruct (owned_alloc m g r1 m1 Ho E1) as (Hc1 & o & -> & Ho1). rewrite (bind_run _ _ _ _ _ E1) in Hm.
  destruct o as [f|].
  2: { injection Hm as <- <-. exists None, g. split_and!; try done. intros f _. by rewrite Hc1. }
  assert (f ∉ owners g) as Hfresh.
  { intros Hf. apply (owned_disjoint m1 _ f Ho1 Hf). cbn. rewrite !elem_of_app. right; right; left. }
  rewrite bind_gets in Hm. destruct (owned_reach m1 _ f Ho1) as (_ & _ & Hd).
  { rewrite !elem_of_app; cbn. right; right; right; left. }
  rewrite Hd, bind_modify in Hm. injection Hm as <- <-.
  pose proof (owned_adopt m1 _ f (other g) Ho1 ltac:(done)) as Ho2. cbn [pages roots held with_other] in Ho2.
  eexists (Some f), _. split; [done|]. split; [apply owned_poke; [exact Ho2|simpl; lia]|]. cbn [pages roots held].
  split_and!; try done.
  - intros f' Hf'. cbn. rewrite Hc1. by rewrite (proj2 (Z.eqb_neq f' f)) by (intros ->; done).
  - cbn. rewrite Z.eqb_refl. apply splice_all. by rewrite (ow_contents _ _ Ho1).
Qed.

Lemma release_file_frame_spec m g f rest res m' : owned m g → held g ≡ₚ f :: rest → release_file_frame f m = (res, m') →
  contents m' = contents m ∧ ∃ (b : bool) g', res = Ok b ∧ owned m' g' ∧ pages g' = pages g ∧ roots g' = roots g ∧ held g' = rest.
Proof.
  intros Ho Hh Hm. unfold release_file_frame in Hm. destruct (owned_reach m g f Ho) as (Hb & Hf & _).
  { apply elem_of_app. left. unfold owners. rewrite Hh. left. }
  rewrite phys_frame_law in Hm by (unfold FRAME_SIZE, PAGE in *; lia). by eapply release_frame_spec.
Qed.

(** A last reference the full list of reclaimed frames refuses is still the holder's. *)
Lemma release_file_frame_refused m g f rest m' : owned m g → held g ≡ₚ f :: rest → release_file_frame f m = (Ok false, m') →
  contents m' = contents m ∧ ∃ g', owned m' g' ∧ pages g' = pages g ∧ roots g' = roots g ∧ held g' = f :: rest.
Proof.
  intros Ho Hh Hm. unfold release_file_frame in Hm. destruct (owned_reach m g f Ho) as (Hb & Hf & _).
  { apply elem_of_app. left. unfold owners. rewrite Hh. left. }
  rewrite phys_frame_law in Hm by (unfold FRAME_SIZE, PAGE in *; lia). unfold release_frame in Hm.
  destruct (cow_release f m) as [r1 m1] eqn:E1. destruct (owned_release m g f rest r1 m1 Ho Hh E1) as (Hc1 & b & -> & _ & Ho1).
  rewrite (bind_run _ _ _ _ _ E1) in Hm. destruct b; [|done].
  destruct (owned_dealloc m1 _ f (other g) _ m' Ho1 ltac:(done) Hm) as (Hc2 & b & [= <-] & Ho2). split; [congruence|].
  pose proof (owned_adopt m' _ f (other g) Ho2 ltac:(done)) as Ho3. by eexists.
Qed.

Lemma page_start_run a : USER_REGION_START ≤ a < USER_REGION_END → page_start a = Ok (a mod PAGE =? 0).
Proof. intros Ha. unfold page_start. rewrite canonical_law; [done|]. unfold USER_REGION_END, USER_REGION_START in Ha. lia. Qed.

Lemma map_file_frame_spec sh m g r a f w res m' : owned m g → excl sh g → r ∈ roots g → USER_REGION_START ≤ a < USER_REGION_END →
  f ∈ held g → map_file_frame r a f w m = (res, m') → contents m' = contents m ∧ ∃ (b : bool) g', res = Ok b ∧ owned m' g' ∧
  roots g' = roots g ∧ held g' ≡ₚ held g ∧ excl (if b && w then f :: sh else sh) g' ∧
  if b then user_page a ∧ pages g !! (r, a) = None ∧ pages g' = <[(r, a) := (f, user_flags w false)]> (pages g)
  else pages g' = pages g.
Proof.
  intros Ho He Hr Ha Hf Hm. unfold map_file_frame in Hm. rewrite bind_gets in Hm.
  destruct (owned_reach m g r Ho) as (_ & _ & Hd); [rewrite !elem_of_app; auto|]. rewrite Hd in Hm.
  rewrite (page_start_run a Ha), bind_lift in Hm.
  assert ((Ok false, m) = (res, m') → contents m' = contents m ∧ ∃ (b : bool) g', res = Ok b ∧ owned m' g' ∧
    roots g' = roots g ∧ held g' ≡ₚ held g ∧ excl (if b && w then f :: sh else sh) g' ∧
    if b then user_page a ∧ pages g !! (r, a) = None ∧ pages g' = <[(r, a) := (f, user_flags w false)]> (pages g)
    else pages g' = pages g) as Hstop.
  { intros [= <- <-]. split; [done|]. by exists false, g. }
  destruct (Z.eqb_spec (a mod PAGE) 0) as [Hal|]; cbn [negb] in Hm; [|auto].
  assert (user_page a) as Hp by (split; [done|exact Ha]).
  rewrite (bind_run _ _ _ _ _ (translate_run m g r a Ho Hr Hp)) in Hm.
  destruct (pages g !! (r, a)) as [v|] eqn:Ek; cbn [fmap option_fmap option_map] in Hm; [auto|].
  assert (f ∈ owners g) as Hown by (unfold owners; apply elem_of_app; by left).
  destruct (owned_reach m g f Ho) as (Hb & Hfm & _); [apply elem_of_app; by left|].
  rewrite phys_frame_law in Hm by (unfold FRAME_SIZE, PAGE in *; lia).
  destruct (cow_share f m) as [r1 m1] eqn:E1. rewrite (bind_run _ _ _ _ _ E1) in Hm.
  destruct (owned_share m g f r1 m1 Ho Hown E1) as [(-> & Hc1 & Ho1)|[[e ->] ->]]; [|auto].
  destruct (pt_map r a f (user_flags w false) m1) as [r2 m2] eqn:E2. rewrite (bind_run _ _ _ _ _ E2) in Hm.
  destruct (owned_map m1 _ r a f _ r2 m2 Ho1 Hr Hp E2) as (Hc2 & _ & b & -> & _ & Ho2). destruct b.
  - specialize (Ho2 (held g) ltac:(done)). cbn [pages roots other with_held] in Ho2. injection Hm as <- <-.
    split; [congruence|]. eexists true, _. split; [done|]. split; [exact Ho2|]. cbn [pages roots held andb].
    split_and!; try done. intros k f' fl' Hk Hw. cbn [pages] in Hk.
    assert (owners (mkBook (<[(r, a) := (f, user_flags w false)]> (pages g)) (roots g) (held g) (other g)) ≡ₚ f :: owners g) as Hp'.
    { unfold owners; cbn [pages held]. rewrite frames_of_insert by done. by rewrite <-Permutation_middle. }
    rewrite Hp', cnt_cons. apply lookup_insert_Some in Hk as [[<- [= <- <-]]|[Hne Hk]].
    + cbn in Hw. subst w. left. left.
    + destruct (He k f' fl' Hk Hw) as [Hs|Hc]; [left; destruct w; [by right|done]|].
      right. destruct (Z.eqb_spec f' f) as [->|]; [|done]. by destruct (mapped_not_held g k f fl' Hc Hk).
  - destruct (cow_release f m2) as [r3 m3] eqn:E3. rewrite (bind_run _ _ _ _ _ E3) in Hm.
    destruct (owned_release m2 _ f (held g) r3 m3 Ho2 ltac:(done) E3) as (Hc3 & b & -> & Hb' & Ho3).
    injection Hm as <- <-. split; [congruence|]. eexists false, _. split; [done|]. split; [exact Ho3|].
    cbn [pages roots held with_held andb] in *. fold (owners g) in Hb'. destruct b; [naive_solver|]. done.
Qed.

Lemma map_private_frame_spec sh m g r a b w res m' : owned m g → excl sh g → r ∈ roots g → USER_REGION_START ≤ a < USER_REGION_END →
  length b = PAGE_BYTES → map_private_frame_from_bytes r a b w m = (res, m') →
  match res with
  | Ok ok => ∃ g', owned m' g' ∧ excl sh g' ∧ roots g' = roots g ∧ held g' = held g ∧
      (∀ f, f ∈ owners g → contents m' f = contents m f) ∧
      if ok then user_page a ∧ pages g !! (r, a) = None ∧ ∃ f, f ∉ owners g ∧
        pages g' = <[(r, a) := (f, user_flags w false)]> (pages g) ∧ contents m' f = b
      else pages g' = pages g
  | Err _ => False
  | Panic => True
  end.
Proof.
  intros Ho He Hr Ha Hb Hm. unfold map_private_frame_from_bytes in Hm. destruct (alloc m) as [r1 m1] eqn:E1.
  destruct (owned_alloc m g r1 m1 Ho E1) as (Hc1 & o & -> & Ho1). rewrite (bind_run _ _ _ _ _ E1) in Hm.
  destruct o as [f|]; [|injection Hm as <- <-; exists g; split_and!; try done; intros f _; by rewrite Hc1].
  set (g1 := with_other (f :: other g) g) in Ho1.
  assert (f ∉ owners g) as Hfresh.
  { intros Hf. apply (owned_disjoint m1 g1 f Ho1 Hf). cbn. rewrite !elem_of_app. right; right; left. }
  assert ((_ ← dealloc f; mret false) m1 = (res, m') → match res with
    | Ok ok => ∃ g', owned m' g' ∧ excl sh g' ∧ roots g' = roots g ∧ held g' = held g ∧
        (∀ f, f ∈ owners g → contents m' f = contents m f) ∧
        if ok then user_page a ∧ pages g !! (r, a) = None ∧ ∃ f, f ∉ owners g ∧
          pages g' = <[(r, a) := (f, user_flags w false)]> (pages g) ∧ contents m' f = b
        else pages g' = pages g
    | Err _ => False | Panic => True end) as Hstop.
  { intros Hd. destruct (dealloc f m1) as [r2 m2] eqn:E2.
    destruct (owned_dealloc m1 g1 f (other g) r2 m2 Ho1 ltac:(done) E2) as (Hc2 & b' & -> & Ho2).
    rewrite (bind_run _ _ _ _ _ E2) in Hd. injection Hd as <- <-.
    exists (if b' then with_other (other g) g1 else g1). destruct b'; split_and!; try done; intros f' _; by rewrite Hc2, Hc1. }
  rewrite bind_gets in Hm. destruct (owned_reach m1 g1 r Ho1) as (_ & _ & Hd); [rewrite !elem_of_app; auto|]. rewrite Hd in Hm.
  rewrite (page_start_run a Ha), bind_lift in Hm.
  destruct (Z.eqb_spec (a mod PAGE) 0) as [Hal|]; cbn [negb] in Hm; [|exact (Hstop Hm)].
  assert (user_page a) as Hp by (split; [done|exact Ha]).
  rewrite (bind_run _ _ _ _ _ (translate_run m1 g1 r a Ho1 Hr Hp)) in Hm. cbn [pages with_other g1] in Hm.
  destruct (pages g !! (r, a)) as [v|] eqn:Ek; cbn [fmap option_fmap option_map] in Hm; [exact (Hstop Hm)|].
  destruct (owned_reach m1 g1 f Ho1) as (_ & _ & Hdf). { rewrite !elem_of_app; cbn. right; right; right; left. }
  rewrite Hdf, bind_modify in Hm. set (m2 := poke f 0 b m1) in Hm.
  assert (owned m2 g1) as Ho2 by (apply owned_poke; [done|simpl; lia]).
  destruct (pt_map r a f (user_flags w false) m2) as [r3 m3] eqn:E3. rewrite (bind_run _ _ _ _ _ E3) in Hm.
  destruct (owned_map_fresh m2 g1 r a f _ (other g) r3 m3 Ho2 Hr Hp ltac:(done) E3) as (Hc3 & _ & ok & -> & _ & Ho3).
  destruct ok; [|by injection Hm as <- <-]. injection Hm as <- <-. eexists. split; [exact Ho3|]. cbn [pages roots held].
  split; [|split; [done|split; [done|split]]].
  - intros k f' fl' Hk Hw. cbn [pages] in Hk.
    assert (owners (mkBook (<[(r, a) := (f, user_flags w false)]> (pages g)) (roots g) (held g) (other g)) ≡ₚ f :: owners g) as Hp'.
    { unfold owners; cbn [pages held]. rewrite frames_of_insert by done. by rewrite <-Permutation_middle. }
    change (f' ∈ sh ∨ cnt f' (owners (mkBook (<[(r, a) := (f, user_flags w false)]> (pages g)) (roots g) (held g) (other g))) = 1).
    rewrite Hp', cnt_cons. apply lookup_insert_Some in Hk as [[<- [= <- <-]]|[Hne Hk]].
    + right. by rewrite Z.eqb_refl, cnt_zero.
    + destruct (He k f' fl' Hk Hw) as [Hs|Hc]; [by left|right].
      rewrite (proj2 (Z.eqb_neq f' f)); [done|]. intros ->. by eapply Hfresh, mapped_owned.
  - intros f' Hf'. rewrite Hc3. cbn. rewrite Hc1. by rewrite (proj2 (Z.eqb_neq f' f)) by (intros ->; done).
  - split; [done|]. split; [done|]. exists f. split_and!; try done. rewrite Hc3. cbn. rewrite Z.eqb_refl.
    apply splice_all. by rewrite (ow_contents _ _ Ho1).
Qed.
End cow.
