(* ===== verification/FlatTables.v ===== *)
(** * A mapper that keeps its promises

    The x86_64 crate's page tables are a parameter of the model.  This file shows
    that what the theorems assume of it can hold: a map of 4 KiB pages that
    takes three frames for its tables satisfies every law. *)
From stdpp Require Import list gmap.
From S2P Require Import Prelude Memory Paging PagingOwn.

Record Flat := mkFlat { leafs : gmap Z (Z * Flags); level_frames : list Z }.

#[export] Program Instance flat_frames : PhysFrames := {|
  phys_frame a := if (a mod FRAME_SIZE =? 0) && (a <? 2 ^ 52) then Some a else None |}.
Next Obligation. intros a Ha Hm. cbn beta. rewrite Hm, (proj2 (Z.ltb_lt _ _)) by lia. done. Qed.

(** Up to [n] frames, and whether all came. *)
Fixpoint grab (n : nat) (a : PhysicalFrameAllocator) : list Z * bool * PhysicalFrameAllocator :=
  match n with
  | O => ([], true, a)
  | S n =>
    match allocate_frame a with
    | (Ok (Some f), a1) => let '(new, ok, a2) := grab n a1 in (f :: new, ok, a2)
    | (Ok None, a1) => ([], false, a1)
    | _ => ([], false, a)
    end
  end.

#[export] Instance flat_tables : PageTables Flat := {|
  translate a pt := (λ '(f, fl), (f, a mod PAGE, fl)) <$> leafs pt !! page_of a;
  map_to p f fl pt a :=
    match leafs pt !! page_of p with
    | Some _ => (false, (pt, a))
    | None =>
      let '(new, ok, a) := grab (3 - length (level_frames pt)) a in
      (ok, (mkFlat (if ok : bool then <[page_of p := (f, fl)]> (leafs pt) else leafs pt) (new ++ level_frames pt), a))
    end;
  unmap p pt := (λ '(f, _), (f, mkFlat (delete (page_of p) (leafs pt)) (level_frames pt))) <$> leafs pt !! page_of p;
  update_flags p fl pt := (λ '(f, _), mkFlat (<[page_of p := (f, fl)]> (leafs pt)) (level_frames pt)) <$> leafs pt !! page_of p;
  clone_without _ _ := mkFlat ∅ [];
  lower_tables _ pt := if Nat.eqb (length (level_frames pt)) 3 then Some (level_frames pt) else None;
  drop_slot _ _ := mkFlat ∅ [];
  canonical a := a <? 2 ^ 47 |}.

Lemma grab_takes n a new ok a' : grab n a = (new, ok, a') → takes new a a'.
Proof.
  revert a new ok a'. induction n as [|n IH]; intros a new ok a' Hg; cbn [grab] in Hg; [injection Hg as <- <- <-; constructor|].
  destruct (allocate_frame a) as [[[f|]|e|] a1] eqn:Ea.
  - destruct (grab n a1) as [[new1 ok1] a2] eqn:E. injection Hg as <- <- <-. eapply takes_some; [done|by eapply IH].
  - injection Hg as <- <- <-. by apply takes_none.
  - injection Hg as <- <- <-. constructor.
  - injection Hg as <- <- <-. constructor.
Qed.

Lemma page_of_page p : user_page p → page_of p = p.
Proof. intros [Hp _]. unfold page_of. lia. Qed.

#[export] Program Instance flat_laws : PageTableLaws Flat := {| tables_of := level_frames; small _ := True |}.
Next Obligation. intros a Ha. cbn. apply Z.ltb_lt. lia. Qed.
Next Obligation.
  intros p pt f o fl [Hp _] _ Ht. cbn in Ht. destruct (leafs pt !! page_of p) as [[]|]; [|done]. cbn in Ht. injection Ht as _ <- _. done.
Qed.
Next Obligation.
  intros a pt Ha _. cbn. rewrite (page_of_page (page_of a)) by done. by destruct (leafs pt !! page_of a) as [[]|].
Qed.
Next Obligation.
  intros p f fl pt a b pt' a' Hp _ Hm. cbn in Hm. rewrite (page_of_page p) in Hm by done.
  destruct (leafs pt !! p) as [v|] eqn:El.
  { injection Hm as <- <- <-. split; [done|]. split; [|done]. exists []. split; [constructor|done]. }
  destruct (grab _ a) as [[new ok] a1] eqn:Eg. injection Hm as <- <- <-. split.
  { intros _. cbn. by rewrite page_of_page, El. }
  split; [exists new; split; [by eapply grab_takes|done]|]. split; [done|]. intros q Hq. cbn. rewrite (page_of_page q) by done.
  destruct ok; [|done]. destruct (Z.eqb_spec q p) as [->|Hne]; cbn.
  - rewrite lookup_insert_eq. cbn. by destruct Hp as [-> _].
  - by rewrite lookup_insert_ne by congruence.
Qed.
Next Obligation.
  intros p pt Hp _. cbn. rewrite (page_of_page p) by done. destruct (leafs pt !! p) as [[f fl]|] eqn:El; [|done]. cbn.
  split; [exists fl; by destruct Hp as [-> _]|]. split; [done|]. split; [done|]. intros q Hq. rewrite (page_of_page q) by done.
  destruct (Z.eqb_spec q p) as [->|Hne]; [by rewrite lookup_delete_eq|by rewrite lookup_delete_ne by congruence].
Qed.
Next Obligation.
  intros p fl pt Hp _. cbn. rewrite (page_of_page p) by done. destruct (leafs pt !! p) as [[f fl0]|] eqn:El; [|done]. cbn.
  split; [done|]. split; [done|]. exists f, fl0. split; [by destruct Hp as [-> _]|]. intros q Hq. rewrite (page_of_page q) by done.
  destruct (Z.eqb_spec q p) as [->|Hne]; [rewrite lookup_insert_eq; by destruct Hp as [-> _]|by rewrite lookup_insert_ne by congruence].
Qed.
Next Obligation. intros a pt Ha. split; [done|]. split; [done|]. intros q Hq. cbn. by rewrite lookup_empty. Qed.
Next Obligation.
  intros a pt l Hl. cbn in Hl. destruct (Nat.eqb _ 3); [|done]. injection Hl as <-. exists []. by rewrite app_nil_r.
Qed.
Next Obligation. intros a pt Ha. split; [done|]. split; [done|]. intros q Hq. cbn. by rewrite lookup_empty. Qed.
