(* ===== verification/AddressSpaces.v ===== *)
(** * Address spaces: the main theorems (kernel/src/paging.rs)

    Every sequence of the module's calls, with the stores of user programs in
    between: who owns which frame, and whose bytes a call or a store changes. *)
From stdpp Require Import list gmap.
From S2P Require Import Prelude Memory Paging PagingOwn PagingCow FlatTables.

(** What the callers of the module keep: the roots of their address spaces, the
    frames of the file cache (one entry per reference the cache holds), and the
    frames the cache has mapped writable, which are shared on purpose. *)
Record Client := mkClient { cl_roots : list Z; cl_held : list Z; cl_shared : list Z }.

Section steps.
Context {PT : Type} `{PageTableLaws PT}.
#[local] Set Default Proof Using "All".
Implicit Types (m : Machine PT) (g : Book) (c : Client).

(** A store of a user program through its page tables, inside one page. *)
Definition user_store (r a : Z) (b : list byte) m : option (Machine PT) :=
  match translate a (tables m r) with
  | Some (f, o, fl) =>
    if f_writable fl && f_user fl && Nat.leb (Z.to_nat o + length b) PAGE_BYTES then Some (poke f (Z.to_nat o) b m) else None
  | None => None
  end.

(** Every mapped page of the range is writable. *)
Definition all_writable (r lo hi : Z) m : Prop := ∀ p f o fl,
  lo ≤ p < hi → user_page p → translate p (tables m r) = Some (f, o, fl) → f_writable fl = true.

(** The calls, with what their callers must ensure: addresses in the user
    region; writable pages are shared as writable; loaders write and open pages
    that are writable; a destroyed space's ranges cover its pages; a frame
    mapped as shared leaves the cache when nothing maps it. *)
Inductive vm_step : option Z → Machine PT * Client → Machine PT * Client → Prop :=
| st_create m c a root m' : USER_REGION_START ≤ a < USER_REGION_END →
    create_user_address_space a m = (Ok (Some root), m') →
    vm_step None (m, c) (m', mkClient (root :: cl_roots c) (cl_held c) (cl_shared c))
| st_no_root m c a m' : USER_REGION_START ≤ a < USER_REGION_END →
    create_user_address_space a m = (Ok None, m') → vm_step None (m, c) (m', c)
| st_map m c r start sz w x res m' : r ∈ cl_roots c → user_range start sz →
    map_user_range_in r start sz w x m = (res, m') → vm_step (Some r) (m, c) (m', c)
| st_share m c src dst start sz w x res m' : src ∈ cl_roots c → dst ∈ cl_roots c → user_range start sz →
    (∀ p f o fl, start ≤ p < start + sz → user_page p → translate p (tables m src) = Some (f, o, fl) →
       f_writable fl = true → w = true ∨ f ∈ cl_shared c) →
    share_user_range_in src dst start sz w x m = (res, m') → vm_step (Some dst) (m, c) (m', c)
| st_break m c r a b m' : r ∈ cl_roots c → USER_REGION_START ≤ a < USER_REGION_END →
    try_break_cow r a m = (Ok b, m') → vm_step (Some r) (m, c) (m', c)
| st_store m c r a b m' : r ∈ cl_roots c → USER_REGION_START ≤ a < USER_REGION_END →
    user_store r a b m = Some m' → vm_step (Some r) (m, c) (m', c)
| st_write m c r a b res m' : r ∈ cl_roots c → USER_REGION_START ≤ a → a + Z.of_nat (length b) ≤ USER_REGION_END →
    all_writable r (page_of a) (a + Z.of_nat (length b)) m →
    write_user_bytes r a b m = (res, m') → vm_step (Some r) (m, c) (m', c)
| st_zero m c r start sz res m' : r ∈ cl_roots c → user_range start sz → all_writable r (page_of start) (start + sz) m →
    zero_user_range_in r start sz m = (res, m') → vm_step (Some r) (m, c) (m', c)
| st_protect m c r start sz w x res m' : r ∈ cl_roots c → user_range start sz →
    (w = true → all_writable r start (start + sz) m) →
    protect_user_range_in r start sz w x m = (res, m') → vm_step (Some r) (m, c) (m', c)
| st_unmap m c r start sz res m' : r ∈ cl_roots c → user_range start sz →
    unmap_user_range_in r start sz m = (res, m') → vm_step (Some r) (m, c) (m', c)
| st_destroy m c r rs ranges res m' : cl_roots c ≡ₚ r :: rs → Forall (λ '(s, z), user_range s z ∧ 0 < z) ranges →
    (∀ p, user_page p → translate p (tables m r) ≠ None → covered ranges p) →
    destroy_user_address_space r ranges m = (res, m') →
    vm_step (Some r) (m, c) (m', mkClient (match res with Ok _ => rs | _ => cl_roots c end) (cl_held c) (cl_shared c))
| st_discard m c r rs (b : bool) m' : cl_roots c ≡ₚ r :: rs → (∀ p, user_page p → translate p (tables m r) = None) →
    discard_empty_user_address_space r m = (Ok b, m') →
    vm_step (Some r) (m, c) (m', mkClient (if b then rs else cl_roots c) (cl_held c) (cl_shared c))
| st_file_alloc m c b f m' : length b = PAGE_BYTES → allocate_file_frame b m = (Ok (Some f), m') →
    vm_step None (m, c) (m', mkClient (cl_roots c) (f :: cl_held c) (cl_shared c))
| st_file_none m c b m' : length b = PAGE_BYTES → allocate_file_frame b m = (Ok None, m') → vm_step None (m, c) (m', c)
| st_file_release m c f rest res m' : cl_held c ≡ₚ f :: rest → (f ∈ cl_shared c → references (cow m) f = 1) →
    release_file_frame f m = (res, m') →
    vm_step None (m, c) (m', mkClient (cl_roots c) rest (List.filter (λ f', negb (f' =? f)) (cl_shared c)))
| st_file_kept m c f m' : f ∈ cl_held c → release_file_frame f m = (Ok false, m') → vm_step None (m, c) (m', c)
| st_file_map m c r a f w (b : bool) m' : r ∈ cl_roots c → USER_REGION_START ≤ a < USER_REGION_END → f ∈ cl_held c →
    map_file_frame r a f w m = (Ok b, m') →
    vm_step (Some r) (m, c) (m', mkClient (cl_roots c) (cl_held c) (if b && w then f :: cl_shared c else cl_shared c))
| st_file_write m c f off b res m' : f ∈ cl_shared c → write_file_frame f off b m = (res, m') → vm_step None (m, c) (m', c)
| st_private m c r a b w (ok : bool) m' : r ∈ cl_roots c → USER_REGION_START ≤ a < USER_REGION_END → length b = PAGE_BYTES →
    map_private_frame_from_bytes r a b w m = (Ok ok, m') → vm_step (Some r) (m, c) (m', c).

(** ** The invariant of every step *)

Record good m c g : Prop := {
  gd_owned : owned m g;
  gd_excl : excl (cl_shared c) g;
  gd_roots : roots g ≡ₚ cl_roots c;
  gd_held : held g ≡ₚ cl_held c;
  gd_shared : ∀ f, f ∈ cl_shared c → f ∈ cl_held c }.

(** Nobody but the actor loses a page or sees other bytes in a private frame. *)
Definition preserved (actor : option Z) m c g m' c' g' : Prop := ∀ r p f fl,
  actor ≠ Some r → pages g !! (r, p) = Some (f, fl) → f ∉ cl_held c →
  (∃ fl', pages g' !! (r, p) = Some (f, fl')) ∧ contents m' f = contents m f ∧ f ∉ cl_held c'.

Lemma preserved_pages actor m c g m' g' :
  (∀ k, Some (fst k) ≠ actor → kept g g' k) →
  (∀ k f fl, Some (fst k) ≠ actor → pages g !! k = Some (f, fl) → f ∉ cl_held c → contents m' f = contents m f) →
  preserved actor m c g m' c g'.
Proof.
  intros Hk Hc r p f fl Ha Hp Hf. split_and!; [|by eapply (Hc (r, p))|done]. specialize (Hk (r, p) ltac:(cbn; congruence)).
  unfold kept in Hk. rewrite Hp in Hk. destruct (pages g' !! (r, p)) as [[f' fl']|]; [|done]. destruct Hk as [-> _]. eauto.
Qed.

Lemma good_in m c g r : good m c g → r ∈ cl_roots c → r ∈ roots g.
Proof. intros [_ _ Hr _ _] Hin. by rewrite Hr. Qed.

Lemma all_writable_pages m c g r lo hi : good m c g → r ∈ cl_roots c → all_writable r lo hi m →
  ∀ p f fl, lo ≤ p < hi → pages g !! (r, p) = Some (f, fl) → f_writable fl = true.
Proof.
  intros Hg Hr Hw p f fl Hp Hk. pose proof Hg as [Ho _ _ _ _]. destruct (ow_dom _ _ Ho r p _ Hk) as [Hin Hu].
  eapply (Hw p f 0 fl Hp Hu). by rewrite (ow_pages _ _ Ho), Hk.
Qed.

(** A step that changes no holder. *)
Lemma good_same m c g m' g' : good m c g → owned m' g' → excl (cl_shared c) g' → roots g' = roots g → held g' ≡ₚ held g → good m' c g'.
Proof. intros [] Ho He Hr Hh. split; [done|done|by rewrite Hr|by rewrite Hh|done]. Qed.

Lemma kept_other r ps g g' k : (∀ k, k ∉ keys r ps → pages g' !! k = pages g !! k) → Some (fst k) ≠ Some r → kept g g' k.
Proof. intros Hk Hne. apply kept_eq, Hk. rewrite elem_of_keys. intros [? _]. congruence. Qed.

(** Stores reach no private frame of another space. *)
Lemma stores_preserved m c g r lo hi m' : good m c g → r ∈ cl_roots c → stores_to r lo hi m g m' → all_writable r lo hi m →
  preserved (Some r) m c g m' c g.
Proof.
  intros Hg Hr Hst Hw. pose proof Hg as [Ho He _ _ Hsh]. apply preserved_pages; [intros k _; by apply kept_eq|].
  intros k f fl Ha Hk Hf. pose proof (stores_bytes (cl_shared c) r lo hi m g m' k He Hst) as Hb.
  assert (bytes_at m' g k = bytes_at m g k) as Hbk.
  { apply Hb; [by eapply all_writable_pages|intros <-; done|]. intros f0 fl0 Hk0 Hin. rewrite Hk in Hk0. simplify_eq. auto. }
  unfold bytes_at in Hbk. rewrite Hk in Hbk. cbn in Hbk. by injection Hbk.
Qed.

Definition step_ok actor m c m' c' g : Prop := ∃ g', good m' c' g' ∧ preserved actor m c g m' c' g'.

Lemma step_spaces m c g a o m' : good m c g → USER_REGION_START ≤ a < USER_REGION_END →
  create_user_address_space a m = (Ok o, m') →
  step_ok None m c m' (match o with Some root => mkClient (root :: cl_roots c) (cl_held c) (cl_shared c) | None => c end) g.
Proof.
  intros [Ho He Hr Hh Hsh] Ha Hm.
  destruct (create_spec m g a _ m' Ho (page_of_user a Ha) ltac:(apply canonical_law; unfold USER_REGION_END, USER_REGION_START in Ha; lia) Hm)
    as (Hc & o' & g' & [= <-] & Ho' & Hp' & Hh' & Hr').
  assert (excl (cl_shared c) g') as He' by (unfold excl, owners; rewrite Hp', Hh'; exact He).
  exists g'. split; [destruct o; (split; [done|done|by rewrite Hr', Hr|by rewrite Hh'|done])|].
  intros r p f fl _ Hk Hf. rewrite Hp', Hc. destruct o; eauto.
Qed.

Lemma step_map m c g r start sz w x res m' : good m c g → r ∈ cl_roots c → user_range start sz →
  map_user_range_in r start sz w x m = (res, m') → step_ok (Some r) m c m' c g.
Proof.
  intros Hg Hr Hu Hm. pose proof Hg as [Ho He _ _ _].
  destruct (map_user_range_spec _ m g r start sz w x res m' Ho He (good_in _ _ _ _ Hg Hr) Hu Hm) as (Hc & g' & Ho' & He' & Hr' & Hh' & Hres).
  exists g'. split; [by eapply good_same|]. apply preserved_pages; [|intros; by rewrite Hc]. intros k Ha.
  destruct res as [[]|e|]; [|apply kept_eq; by rewrite Hres|done].
  destruct Hres as (ps & _ & _ & _ & Hk & _). eapply kept_other; [exact Hk|done].
Qed.

Lemma step_share m c g src dst start sz w x res m' : good m c g → src ∈ cl_roots c → dst ∈ cl_roots c → user_range start sz →
  (∀ p f o fl, start ≤ p < start + sz → user_page p → translate p (tables m src) = Some (f, o, fl) →
       f_writable fl = true → w = true ∨ f ∈ cl_shared c) →
  share_user_range_in src dst start sz w x m = (res, m') → step_ok (Some dst) m c m' c g.
Proof.
  intros Hg Hs Hd Hu Hw Hm. pose proof Hg as [Ho He _ _ _].
  destruct (share_user_range_spec (cl_shared c) m g src dst start sz w x res m' Ho He (good_in _ _ _ _ Hg Hs) (good_in _ _ _ _ Hg Hd) Hu)
    as (Hc & g' & Ho' & He' & Hr' & Hh' & Hres); [|done|].
  { intros p f fl Hp Hk Hwf. destruct (ow_dom _ _ Ho src p _ Hk) as [Hin Hup]. eapply (Hw p f 0 fl Hp Hup); [|done].
    by rewrite (ow_pages _ _ Ho), Hk. }
  exists g'. split; [by eapply good_same|]. apply preserved_pages; [|intros; by rewrite Hc]. intros k Ha.
  destruct res as [[]|e|]; [|apply Hres|done]. destruct Hres as (_ & ps & _ & _ & _ & Hk & _).
  apply Hk. rewrite elem_of_keys. intros [? _]. congruence.
Qed.

Lemma step_break m c g r a b m' : good m c g → r ∈ cl_roots c → USER_REGION_START ≤ a < USER_REGION_END →
  try_break_cow r a m = (Ok b, m') → step_ok (Some r) m c m' c g.
Proof.
  intros Hg Hr Ha Hm. pose proof Hg as [Ho He _ _ _].
  destruct (try_break_cow_spec _ m g r a _ m' Ho He (good_in _ _ _ _ Hg Hr) Ha Hm) as (g' & Ho' & He' & Hr' & Hh' & Hk & Hb & _).
  assert (∀ k, Some (fst k) ≠ Some r → pages g' !! k = pages g !! k) as Hk'. { intros k Hne. apply Hk. by intros ->. }
  exists g'. split; [eapply good_same; try done; by rewrite Hh'|]. apply preserved_pages.
  - intros k Hne. by apply kept_eq, Hk'.
  - intros k f fl Hne Hkf _. specialize (Hb k). unfold bytes_at in Hb. rewrite Hk', Hkf in Hb by done. cbn in Hb. by injection Hb.
Qed.

Lemma user_store_spec m c g r a b m' : good m c g → r ∈ cl_roots c → USER_REGION_START ≤ a < USER_REGION_END →
  user_store r a b m = Some m' →
  ∃ f fl, pages g !! (r, page_of a) = Some (f, fl) ∧ f_writable fl = true ∧ m' = poke f (Z.to_nat (a mod PAGE)) b m ∧
    (Z.to_nat (a mod PAGE) + length b ≤ PAGE_BYTES)%nat.
Proof.
  intros Hg Hr Ha Hs. pose proof Hg as [Ho _ _ _ _]. unfold user_store in Hs.
  rewrite (translate_user m g r a Ho (good_in _ _ _ _ Hg Hr) (page_of_user a Ha)) in Hs.
  destruct (pages g !! (r, page_of a)) as [[f fl]|]; [|done]. cbn [fmap option_fmap option_map fst snd] in Hs.
  destruct (f_writable fl) eqn:Ew; [|done]. destruct (f_user fl); [|done]. cbn [andb] in Hs.
  destruct (Nat.leb_spec (Z.to_nat (a mod PAGE) + length b) PAGE_BYTES); [|done]. injection Hs as <-. by exists f, fl.
Qed.

Lemma step_store m c g r a b m' : good m c g → r ∈ cl_roots c → USER_REGION_START ≤ a < USER_REGION_END →
  user_store r a b m = Some m' → step_ok (Some r) m c m' c g.
Proof.
  intros Hg Hr Ha Hs. destruct (user_store_spec m c g r a b m' Hg Hr Ha Hs) as (f & fl & Hk & Hw & -> & Hlen).
  pose proof Hg as [Ho He _ _ Hsh]. pose proof (owned_poke m g f _ b Ho Hlen) as Ho'.
  exists g. split; [by eapply good_same|]. apply preserved_pages; [intros k _; by apply kept_eq|].
  intros k f' fl' Hne Hk' Hf'. cbn. destruct (Z.eqb_spec f' f) as [->|]; [exfalso|done].
  destruct (He _ _ _ Hk Hw) as [Hin|Hc]; [by apply Hf', Hsh|].
  pose proof (mapped_once g _ _ _ _ _ Hc Hk Hk') as <-. by apply Hne.
Qed.

Lemma step_unmap m c g r start sz res m' : good m c g → r ∈ cl_roots c → user_range start sz →
  unmap_user_range_in r start sz m = (res, m') → step_ok (Some r) m c m' c g.
Proof.
  intros Hg Hr Hu Hm. pose proof Hg as [Ho He _ _ _].
  destruct (unmap_user_range_spec m g r start sz res m' Ho (good_in _ _ _ _ Hg Hr) Hu Hm) as (Hc & g' & ps & Ho' & Hun & _).
  pose proof (unmapped_excl _ _ _ _ _ Hun He) as He'. destruct Hun as (Hr' & Hh' & Hk).
  exists g'. split; [by eapply good_same|]. apply preserved_pages; [|intros; by rewrite Hc]. intros k Hne.
  eapply (kept_other r ps); [|done]. intros k' Hk'. by rewrite Hk, bool_decide_eq_false_2.
Qed.

(** The pages of a space whose ranges are its own. *)
Lemma space_pages m c g r p : good m c g → r ∈ cl_roots c → is_Some (pages g !! (r, p)) →
  user_page p ∧ translate p (tables m r) ≠ None.
Proof.
  intros Hg Hr [v Hv]. pose proof Hg as [Ho _ _ _ _]. destruct (ow_dom _ _ Ho r p v Hv) as [Hin Hu]. split; [done|].
  by rewrite (ow_pages _ _ Ho), Hv.
Qed.

Lemma step_destroy m c g r rs ranges res m' : good m c g → cl_roots c ≡ₚ r :: rs →
  Forall (λ '(s, z), user_range s z ∧ 0 < z) ranges →
  (∀ p, user_page p → translate p (tables m r) ≠ None → covered ranges p) →
  destroy_user_address_space r ranges m = (res, m') →
  step_ok (Some r) m c m' (mkClient (match res with Ok _ => rs | _ => cl_roots c end) (cl_held c) (cl_shared c)) g.
Proof.
  intros Hg Hr Hu Hcov Hm. pose proof Hg as [Ho He Hro Hh Hsh].
  assert (r ∈ cl_roots c) as Hin by (rewrite Hr; left).
  destruct (destroy_spec m g r rs ranges res m' Ho) as (Hc & g' & Ho' & Hh' & Hoth & Hown & Hres); [by rewrite Hro|done| |done|].
  { intros p Hp. destruct (space_pages m c g r p Hg Hin Hp) as [Hup Ht]. by apply Hcov. }
  assert (∀ k, pages g' !! k = None ∨ pages g' !! k = pages g !! k) as Hall.
  { intros [r' p]. destruct (decide (r' = r)) as [->|Hne]; [apply Hown|right; by apply Hoth]. }
  assert (excl (cl_shared c) g') as He'.
  { eapply excl_mono; [exact He| |].
    - intros k f fl Hk. destruct (Hall k) as [Hn|Heq]; [by rewrite Hn in Hk|rewrite Heq in Hk; eauto].
    - intros f. unfold owners. rewrite Hh', !cnt_app. assert (pages g' ⊆ pages g) as Hs; [|pose proof (frames_of_subset _ _ f Hs); lia].
      apply map_subseteq_spec. intros k v Hk. destruct (Hall k) as [Hn|Heq]; [by rewrite Hn in Hk|by rewrite <-Heq]. }
  exists g'. split.
  - split; [done|done| |by rewrite Hh'|done]. cbn [cl_roots]. destruct res as [[]|e|]; [by destruct Hres|by rewrite Hres|done].
  - intros r' p f fl Ha Hk Hf. rewrite Hc, Hoth by (cbn; congruence). eauto.
Qed.

Lemma step_discard m c g r rs (b : bool) m' : good m c g → cl_roots c ≡ₚ r :: rs →
  (∀ p, user_page p → translate p (tables m r) = None) →
  discard_empty_user_address_space r m = (Ok b, m') →
  step_ok (Some r) m c m' (mkClient (if b then rs else cl_roots c) (cl_held c) (cl_shared c)) g.
Proof.
  intros Hg Hr Hp Hm. pose proof Hg as [Ho He Hro Hh Hsh]. assert (r ∈ cl_roots c) as Hin by (rewrite Hr; left).
  destruct (discard_spec m g r rs (Ok b) m' Ho) as (Hc & b' & g' & [= <-] & Ho' & Hp' & Hh' & Hr'); [by rewrite Hro| |done|].
  { intros p. destruct (pages g !! (r, p)) eqn:E; [|done].
    destruct (space_pages m c g r p Hg Hin) as [Hup Ht]; [by rewrite E|]. by rewrite Hp in Ht. }
  exists g'. split.
  - split; [done|unfold excl, owners; by rewrite Hp', Hh'| |by rewrite Hh'|done]. cbn [cl_roots]. rewrite Hr'. by destruct b.
  - intros r' p f fl Ha Hk Hf. rewrite Hp', Hc. eauto.
Qed.

Lemma step_file_alloc m c g b o m' : good m c g → length b = PAGE_BYTES → allocate_file_frame b m = (Ok o, m') →
  step_ok None m c m' (match o with Some f => mkClient (cl_roots c) (f :: cl_held c) (cl_shared c) | None => c end) g.
Proof.
  intros Hg Hb Hm. pose proof Hg as [Ho He Hro Hh Hsh].
  destruct (allocate_file_frame_spec m g b _ m' Ho Hb Hm) as (o' & g' & [= <-] & Ho' & Hp' & Hr' & Hh' & Hc & Hf).
  exists g'. split.
  - destruct o as [f|]; (split; [done| |by rewrite Hr'|by rewrite Hh', Hh|]); cbn [cl_shared cl_held]; try done.
    + destruct Hf as [Hf _]. intros k f' fl' Hk Hw. rewrite Hp' in Hk. unfold owners. rewrite Hh', Hp'. cbn [app].
      rewrite cnt_cons. destruct (He k f' fl' Hk Hw) as [|H1']; [by left|right].
      rewrite (proj2 (Z.eqb_neq f' f)); [exact H1'|]. intros ->. by eapply Hf, mapped_owned.
    + intros f' Hf'. right. auto.
    + unfold excl, owners. by rewrite Hp', Hh'.
  - intros r p f' fl _ Hk Hf'. pose proof (mapped_owned _ _ _ _ Hk) as Hown. rewrite Hp', Hc by done.
    split_and!; [eauto|done|]. destruct o as [f|]; [|done]. cbn. destruct Hf as [Hf _]. rewrite elem_of_cons. by intros [->|].
Qed.

Lemma step_file_release m c g f rest res m' : good m c g → cl_held c ≡ₚ f :: rest →
  (f ∈ cl_shared c → references (cow m) f = 1) → release_file_frame f m = (res, m') →
  step_ok None m c m' (mkClient (cl_roots c) rest (List.filter (λ f', negb (f' =? f)) (cl_shared c))) g.
Proof.
  intros Hg Hf Href Hm. pose proof Hg as [Ho He Hro Hh Hsh].
  assert (held g ≡ₚ f :: rest) as Hhf by by rewrite Hh.
  destruct (release_file_frame_spec m g f rest res m' Ho Hhf Hm) as (Hc & b & g' & _ & Ho' & Hp' & Hr' & Hh').
  assert (∀ f', f' ∈ List.filter (λ f', negb (f' =? f)) (cl_shared c) ↔ f' ∈ cl_shared c ∧ f' ≠ f) as Hel.
  { intros f'. rewrite <-!list_elem_of_In, filter_In, negb_true_iff, Z.eqb_neq || rewrite !list_elem_of_In, filter_In, negb_true_iff, Z.eqb_neq. done. }
  assert (owners g ≡ₚ f :: owners g') as Hown by (unfold owners; by rewrite Hhf, Hp', Hh').
  exists g'. split.
  - split; [done| |by rewrite Hr'|by rewrite Hh'|].
    + intros k f' fl' Hk Hw. rewrite Hp' in Hk. destruct (He k f' fl' Hk Hw) as [Hin|H1'].
      * cbn [cl_shared]. destruct (decide (f' = f)) as [->|Hne]; [exfalso|left; by apply Hel].
        specialize (Href Hin). rewrite (cow_ok_references _ (owners g)) in Href; [|by apply ow_cow|rewrite Hown; left].
        eapply (mapped_not_held g k f fl' Href Hk). rewrite Hhf. left.
      * right. rewrite Hown, cnt_cons in H1'. pose proof (proj2 (cnt_pos f' (owners g'))) as Hpos.
        assert (f' ∈ owners g') as Hin. { eapply mapped_owned. by rewrite Hp'. } specialize (Hpos Hin). destruct (f' =? f); lia.
    + intros f' [Hin Hne]%Hel. cbn. apply Hsh in Hin. rewrite Hf in Hin. by apply elem_of_cons in Hin as [->|].
  - intros r p f' fl _ Hk Hf'. rewrite Hp', Hc. split_and!; [eauto|done|]. cbn. intros Hin. apply Hf'. rewrite Hf. by right.
Qed.

(** A refused release changes nothing. *)
Lemma step_file_kept m c g f m' : good m c g → f ∈ cl_held c → release_file_frame f m = (Ok false, m') → step_ok None m c m' c g.
Proof.
  intros Hg [rest Hf]%elem_of_Permutation Hm. pose proof Hg as [Ho He Hro Hh Hsh].
  assert (held g ≡ₚ f :: rest) as Hhf by by rewrite Hh.
  destruct (release_file_frame_refused m g f rest m' Ho Hhf Hm) as (Hc & g' & Ho' & Hp' & Hr' & Hh'). exists g'. split.
  - eapply good_same; try done; [|by rewrite Hh', Hhf].
    intros k f' fl Hk. rewrite Hp' in Hk. unfold owners. rewrite Hp', Hh', <-Hhf. by eapply He.
  - intros r p f' fl _ Hk Hf'. rewrite Hp', Hc. eauto.
Qed.

Lemma step_file_map m c g r a f w (b : bool) m' : good m c g → r ∈ cl_roots c → USER_REGION_START ≤ a < USER_REGION_END →
  f ∈ cl_held c → map_file_frame r a f w m = (Ok b, m') →
  step_ok (Some r) m c m' (mkClient (cl_roots c) (cl_held c) (if b && w then f :: cl_shared c else cl_shared c)) g.
Proof.
  intros Hg Hr Ha Hf Hm. pose proof Hg as [Ho He Hro Hh Hsh].
  destruct (map_file_frame_spec (cl_shared c) m g r a f w (Ok b) m' Ho He (good_in _ _ _ _ Hg Hr) Ha) as
    (Hc & b' & g' & [= <-] & Ho' & Hr' & Hh' & He' & Hp'); [by rewrite Hh|done|].
  exists g'. split.
  - split; [done|done|by rewrite Hr'|by rewrite Hh'|]. cbn. intros f' Hin. destruct (b && w); [|auto].
    apply elem_of_cons in Hin as [->|]; auto.
  - intros r' p f' fl' Hne Hk Hf'. rewrite Hc. split_and!; try done. destruct b; [|rewrite Hp'; eauto].
    destruct Hp' as (_ & _ & ->). rewrite lookup_insert_ne by congruence. eauto.
Qed.

Lemma step_file_write m c g f off b res m' : good m c g → f ∈ cl_shared c → write_file_frame f off b m = (res, m') →
  step_ok None m c m' c g.
Proof.
  intros Hg Hf Hm. pose proof Hg as [Ho He Hro Hh Hsh]. unfold write_file_frame in Hm.
  destruct (Nat.leb_spec off PAGE_BYTES); cbn [andb] in Hm; [|injection Hm as <- <-; exists g; split; [done|]; intros r p f' fl _ Hk Hf'; eauto].
  destruct (Nat.leb_spec (length b) (PAGE_BYTES - off)); [|injection Hm as <- <-; exists g; split; [done|]; intros r p f' fl _ Hk Hf'; eauto].
  injection Hm as <- <-. exists g. split.
  - eapply good_same; try done. apply owned_poke; [done|lia].
  - intros r p f' fl _ Hk Hf'. split_and!; [eauto| |done]. cbn. rewrite (proj2 (Z.eqb_neq f' f)); [done|]. intros ->. by apply Hf', Hsh.
Qed.

Lemma step_private m c g r a b w (ok : bool) m' : good m c g → r ∈ cl_roots c → USER_REGION_START ≤ a < USER_REGION_END →
  length b = PAGE_BYTES → map_private_frame_from_bytes r a b w m = (Ok ok, m') → step_ok (Some r) m c m' c g.
Proof.
  intros Hg Hr Ha Hb Hm. pose proof Hg as [Ho He _ _ _].
  destruct (map_private_frame_spec _ m g r a b w _ m' Ho He (good_in _ _ _ _ Hg Hr) Ha Hb Hm) as (g' & Ho' & He' & Hr' & Hh' & Hc & Hp').
  exists g'. split; [eapply good_same; try done; by rewrite Hh'|]. apply preserved_pages.
  - intros k Hne. apply kept_eq. destruct ok; [|by rewrite Hp']. destruct Hp' as (_ & _ & f & _ & -> & _).
    rewrite lookup_insert_ne; [done|]. intros <-. by apply Hne.
  - intros k f fl _ Hk _. apply Hc. by eapply mapped_owned.
Qed.

Lemma step_good actor mc mc' g : vm_step actor mc mc' → good (fst mc) (snd mc) g →
  step_ok actor (fst mc) (snd mc) (fst mc') (snd mc') g.
Proof.
  intros Hs Hg. destruct Hs; cbn [fst snd] in *.
  - by eapply (step_spaces m c g a (Some root)).
  - by eapply (step_spaces m c g a None).
  - eapply step_map; eassumption.
  - eapply (step_share m c g src dst); eassumption.
  - eapply step_break; eassumption.
  - eapply step_store; eassumption.
  - pose proof Hg as [Ho _ _ _ _]. destruct (write_user_bytes_spec m g r a b res m' Ho) as [_ Hst]; [by eapply (good_in m c)|done..|].
    exists g. split; [apply (good_same m c g); [done|by destruct Hst|exact (gd_excl _ _ _ Hg)|done|done]|]. by eapply stores_preserved.
  - pose proof Hg as [Ho _ _ _ _]. destruct (zero_user_range_spec m g r start sz res m' Ho) as [_ Hst]; [by eapply (good_in m c)|done..|].
    exists g. split; [apply (good_same m c g); [done|by destruct Hst|exact (gd_excl _ _ _ Hg)|done|done]|]. by eapply stores_preserved.
  - pose proof Hg as [Ho He _ _ _].
    destruct (protect_spec (cl_shared c) m g r start sz w x res m' Ho He) as (_ & Hc & g' & Ho' & He' & Hr' & Hh' & Hk & _);
      [by eapply (good_in m c)|done| |done|].
    + intros p f fl Hw. by eapply all_writable_pages; [| |auto].
    + exists g'. split; [eapply good_same; try done; by rewrite Hh'|]. apply preserved_pages; [done|]. intros; by rewrite Hc.
  - eapply step_unmap; eassumption.
  - eapply step_destroy; eassumption.
  - eapply step_discard; eassumption.
  - by eapply (step_file_alloc m c g b (Some f)).
  - by eapply (step_file_alloc m c g b None).
  - eapply step_file_release; eassumption.
  - by eapply step_file_kept.
  - eapply step_file_map; eassumption.
  - eapply step_file_write; eassumption.
  - eapply step_private; eassumption.
Qed.

(** ** From boot on *)

(** The kernel has its own frames, no user space exists yet. *)
Definition booted m : Prop := ∃ regions s0 used,
  map_ok regions ∧ initialize regions allocator_empty = (Ok tt, s0) ∧ rtc frame_step (s0, []) (memory m, used) ∧
  cow m = cow_new ∧ 0 < memory_offset m ∧ memory_offset m + 2 ^ 52 ≤ 2 ^ 64 ∧ ∀ f, length (contents m f) = PAGE_BYTES.

Definition nobody : Client := mkClient [] [] [].

Lemma cow_new_get f : cow_get cow_new f = None.
Proof.
  unfold cow_get, cow_new. assert (find_slot (replicate MAX_COW_FRAMES cow_empty) f = None) as ->; [|done].
  apply position_None. intros i e [-> _]%lookup_replicate. done.
Qed.

Lemma boot_good m : booted m → ∃ g, good m nobody g.
Proof.
  intros (regions & s0 & used & Hm & Hi & Hr & Hc & Hoff1 & Hoff2 & Hlen). exists (mkBook ∅ [] [] used).
  destruct (initialize_spec regions s0 Hm Hi) as (Hi0 & Hini0 & _).
  assert (∀ p p', rtc frame_step p p' → frames_inv (fst p) (snd p) ∧ initialized (fst p) = true →
    frames_inv (fst p') (snd p') ∧ initialized (fst p') = true) as Hsteps.
  { intros p p' Hp. induction Hp; [done|]. intros Hinv. eauto using frame_step_inv. }
  destruct (Hsteps _ _ Hr (conj Hi0 Hini0)) as [Hinv Hini]; cbn [fst snd] in Hinv, Hini.
  split; try done.
  - split; try done; cbn [roots pages held owners].
    + intros r p []%not_elem_of_nil.
    + intros r []%not_elem_of_nil.
    + rewrite Hc. split.
      * intros i j e e' [-> _]%lookup_replicate _ Ho. done.
      * intros f. rewrite cow_new_get. done.
    + exists []. split; [|exact Hinv]. intros f. unfold owners, frames_of; cbn [held pages]. by rewrite map_to_list_empty.
Qed.

Definition any_step (x y : Machine PT * Client) : Prop := ∃ actor, vm_step actor x y.

Lemma steps_good x y : rtc any_step x y → ∀ g, good (fst x) (snd x) g → ∃ g', good (fst y) (snd y) g'.
Proof.
  induction 1 as [|x y z [actor Hs] _ IH]; intros g Hg; [eauto|].
  destruct (step_good actor x y g Hs Hg) as (g' & Hg' & _). eauto.
Qed.

Lemma reachable_good m0 m c : booted m0 → rtc any_step (m0, nobody) (m, c) → ∃ g, good m c g.
Proof. intros [g Hg]%boot_good Hr. exact (steps_good _ _ Hr g Hg). Qed.

(** C2: Whatever calls the kernel makes and whatever user programs store: the
    reference counts are exact (a frame's count is the number of user pages that
    map it plus the references the file cache holds); every such frame is a usable
    frame that is no root and that the allocator will not hand out; and a
    writable page whose frame is not shared on purpose is the only page of any
    address space on that frame, which nobody else holds. *)
Theorem frames_counted_exactly m0 m c : booted m0 → rtc any_step (m0, nobody) (m, c) → ∃ g,
  held g ≡ₚ cl_held c ∧
  (∀ r p, r ∈ cl_roots c → user_page p → translate p (tables m r) = entry <$> pages g !! (r, p)) ∧
  (∀ r p v, pages g !! (r, p) = Some v → r ∈ cl_roots c ∧ user_page p) ∧
  (∀ f, f ∈ owners g → references (cow m) f = cnt f (owners g) ∧ usable_frame (memory m) f ∧ f ∉ cl_roots c) ∧
  (∀ f m', alloc m = (Ok (Some f), m') → f ∉ owners g ∧ f ∉ cl_roots c) ∧
  (∀ k f fl, pages g !! k = Some (f, fl) → f_writable fl = true → f ∉ cl_shared c →
     references (cow m) f = 1 ∧ f ∉ cl_held c ∧ ∀ k' fl', pages g !! k' = Some (f, fl') → k' = k).
Proof.
  intros Hb Hr. destruct (reachable_good m0 m c Hb Hr) as [g Hg]. exists g. pose proof Hg as [Ho He Hro Hh Hsh].
  split; [done|]. split; [intros r p Hin Hp; apply (ow_pages _ _ Ho); [by rewrite Hro|done]|].
  split; [intros r p v Hv; rewrite <-Hro; exact (ow_dom _ _ Ho r p v Hv)|].
  split; [|split].
  - intros f Hf. split; [exact (cow_ok_references _ _ _ (ow_cow _ _ Ho) Hf)|].
    split; [apply (owned_usable m g f Ho); apply elem_of_app; by left|].
    pose proof (owned_disjoint m g f Ho Hf) as Hd. rewrite <-Hro. intros Hin. apply Hd, elem_of_app. by left.
  - intros f m' Ha. destruct (owned_alloc m g _ m' Ho Ha) as (_ & o & [= <-] & Ho').
    pose proof (owned_disjoint m' _ f Ho') as Hd. cbn in Hd. split.
    + intros Hf. apply Hd; [exact Hf|]. rewrite !elem_of_app. right; right; left.
    + intros Hf. destruct (ow_live _ _ Ho') as (fs & Hfs & Hi). apply in_use_nodup in Hi. unfold in_use in Hi; cbn in Hi.
      apply NoDup_app in Hi as (_ & _ & Hi). apply NoDup_app in Hi as (_ & Hdj & _). rewrite <-Hro in Hf.
      apply (Hdj f Hf). apply elem_of_app. right. left.
  - intros k f fl Hk Hw Hns. destruct (He k f fl Hk Hw) as [|Hc]; [done|]. split_and!.
    + rewrite (cow_ok_references _ _ _ (ow_cow _ _ Ho)); [done|]. by eapply mapped_owned.
    + rewrite <-Hh. by eapply mapped_not_held.
    + intros k' fl' Hk'. by eapply mapped_once.
Qed.

(** ** Forked pages *)

Lemma preserved_steps r x y : rtc (λ x y, ∃ actor, actor ≠ Some r ∧ vm_step actor x y) x y → ∀ g p f fl,
  good (fst x) (snd x) g → pages g !! (r, p) = Some (f, fl) → f ∉ cl_held (snd x) →
  ∃ g' fl', good (fst y) (snd y) g' ∧ pages g' !! (r, p) = Some (f, fl') ∧ contents (fst y) f = contents (fst x) f.
Proof.
  induction 1 as [|x y z (actor & Ha & Hs) _ IH]; intros g p f fl Hg Hk Hf; [by exists g, fl|].
  destruct (step_good actor x y g Hs Hg) as (g1 & Hg1 & Hpr). destruct (Hpr r p f fl Ha Hk Hf) as ((fl1 & Hk1) & Hc1 & Hf1).
  destruct (IH g1 p f fl1 Hg1 Hk1 Hf1) as (g2 & fl2 & Hg2 & Hk2 & Hc2). exists g2, fl2. split_and!; [done|done|congruence].
Qed.

(** C1: Copy-on-write implements copying.  After a fork shares a range, the child's
    pages hold the bytes the parent's had, and each of the two keeps them through
    every call and store that is not its own, whatever the other one and the
    other processes write; file-cache frames apart, whose sharing is meant. *)
Theorem fork_snapshot m0 m c src dst start sz w x m1 r m2 c2 p f o fl :
  booted m0 → rtc any_step (m0, nobody) (m, c) → src ∈ cl_roots c → dst ∈ cl_roots c → user_range start sz →
  (∀ p f o fl, start ≤ p < start + sz → user_page p → translate p (tables m src) = Some (f, o, fl) →
       f_writable fl = true → w = true ∨ f ∈ cl_shared c) →
  share_user_range_in src dst start sz w x m = (Ok tt, m1) → r = src ∨ r = dst →
  rtc (λ x y, ∃ actor, actor ≠ Some r ∧ vm_step actor x y) (m1, c) (m2, c2) →
  user_page p → start ≤ p < start + sz → translate p (tables m src) = Some (f, o, fl) → f ∉ cl_held c →
  image m2 r p = Some (contents m f).
Proof.
  intros Hb Hr Hs Hd Hu Hw Hm Hrr Hst Hp Hps Htr Hf. destruct (reachable_good m0 m c Hb Hr) as [g Hg].
  pose proof Hg as [Ho He Hro Hh Hsh]. rewrite (ow_pages _ _ Ho) in Htr by (done || by rewrite Hro).
  destruct (pages g !! (src, p)) as [[f0 fl0]|] eqn:Ek; [|done]. cbn in Htr. injection Htr as -> <- ->.
  destruct (share_user_range_spec (cl_shared c) m g src dst start sz w x (Ok tt) m1 Ho He (good_in _ _ _ _ Hg Hs) (good_in _ _ _ _ Hg Hd) Hu)
    as (Hc & g1 & Ho1 & He1 & Hr1 & Hh1 & Hne & ps & Hpr & _ & _ & Hk1 & Hcp); [|done|].
  { intros q f' fl' Hq Hk Hwf. destruct (ow_dom _ _ Ho src q _ Hk) as [Hin Huq]. eapply (Hw q f' 0 fl' Hq Huq); [|done].
    by rewrite (ow_pages _ _ Ho), Hk. }
  assert (good m1 c g1) as Hg1 by by eapply good_same.
  assert (p ∈ ps) as Hpin. { pose proof (page_range_user start sz Hu) as H'. rewrite Hpr in H'. apply H'. split; [done|by destruct Hp]. }
  assert (∃ fl1, pages g1 !! (r, p) = Some (f, fl1)) as [fl1 Hkr].
  { destruct Hrr as [->| ->].
    - assert (kept g g1 (src, p)) as Hks by (apply Hk1; rewrite elem_of_keys; naive_solver). unfold kept in Hks. rewrite Ek in Hks.
      destruct (pages g1 !! (src, p)) as [[f1 fl1]|]; [|done]. destruct Hks as [-> _]. eauto.
    - destruct (Hcp p Hpin) as (_ & f1 & fl1 & Hs1 & Hd1). rewrite Ek in Hs1. simplify_eq. eauto. }
  destruct (preserved_steps r _ _ Hst g1 p f fl1 Hg1 Hkr Hf) as (g2 & fl2 & Hg2 & Hk2 & Hc2). cbn [fst snd] in *.
  pose proof Hg2 as [Ho2 _ _ _ _]. destruct (ow_dom _ _ Ho2 r p _ Hk2) as [Hin _].
  rewrite (image_bytes m2 g2 r p Ho2 Hin Hp). unfold bytes_at. rewrite Hk2. cbn. by rewrite Hc2, Hc.
Qed.


(** When a frame is left for the page but the mapper cannot get one for its
    tables, [map_private_frame_from_bytes] never returns: the branch that would
    give the frame back takes the allocator's lock a second time. *)
Theorem private_map_self_deadlock m0 m c r a b w f m1 z :
  booted m0 → rtc any_step (m0, nobody) (m, c) → r ∈ cl_roots c → user_page a → translate a (tables m r) = None →
  alloc m = (Ok (Some f), m1) → map_to a f (user_flags w false) (tables m1 r) (memory m1) = (false, z) →
  fst (map_private_frame_from_bytes r a b w m) = Panic.
Proof.
  intros Hb Hr Hin Hp Hn Ha Hmap. destruct (reachable_good m0 m c Hb Hr) as [g Hg]. pose proof Hg as [Ho He Hro Hh Hsh].
  unfold map_private_frame_from_bytes. rewrite (bind_run _ _ _ _ _ Ha).
  destruct (owned_alloc m g _ m1 Ho Ha) as (_ & o & [= <-] & Ho1). rewrite bind_gets.
  assert (r ∈ roots g) as Hrg by by rewrite Hro.
  destruct (owned_reach m1 _ r Ho1) as (_ & _ & ->); [cbn; rewrite !elem_of_app; auto|].
  rewrite page_start_run by (by destruct Hp). destruct Hp as [Hal Hrange]. rewrite Hal, bind_lift. cbn [Z.eqb negb].
  assert (translate a (tables m1 r) = None) as Hn1.
  { unfold alloc in Ha. destruct (allocate_frame (memory m)) as [[?| |] ?]; by simplify_eq. }
  unfold pt_translate. rewrite bind_gets, Hn1.
  destruct (owned_reach m1 _ f Ho1) as (_ & _ & ->). { rewrite !elem_of_app; cbn. right; right; right; left. }
  rewrite bind_modify. unfold pt_map, mbind, M_bind. cbn [tables memory poke set_contents]. rewrite Hmap. by destruct z.
Qed.
End steps.

(** ** A parent and its child, on concrete memory *)

Section example.

Definition small_map (top : Z) : list MemoryRegion := [mkRegion 0x100000 top true].
Definition boot_machine (top : Z) : Machine Flat :=
  mkMachine true 0x10000000000 0x7000 0x7000 (λ _, mkFlat ∅ []) (snd (initialize (small_map top) allocator_empty)) cow_new
    (λ _, replicate PAGE_BYTES x00).

Lemma boot_machine_booted top : 0 ≤ top ≤ 2 ^ 52 → fst (initialize (small_map top) allocator_empty) = Ok tt → booted (boot_machine top).
Proof.
  intros Ht Hi. exists (small_map top), (snd (initialize (small_map top) allocator_empty)), [].
  split; [split; [repeat constructor; simpl; lia|cbn; repeat constructor]|].
  split; [rewrite <-Hi; apply surjective_pairing|]. split; [apply rtc_refl|]. split; [done|]. split; [done|]. split; [done|].
  intros f. cbn. apply length_replicate.
Qed.

Definition HERE : Z := USER_REGION_START.
Definition PARENT : Z := 0x100000.
Definition CHILD : Z := 0x101000.
Definition family : Client := mkClient [CHILD; PARENT] [] [].

(** Two address spaces, a page of the parent, a fork, and the parent's first write. *)
Definition s1 := create_user_address_space HERE (boot_machine 0x110000).
Definition s2 := create_user_address_space HERE (snd s1).
Definition s3 := map_user_range_in PARENT HERE 0x1000 true false (snd s2).
Definition s4 := share_user_range_in PARENT CHILD HERE 0x1000 true false (snd s3).
Definition s5 := try_break_cow PARENT HERE (snd s4).

Lemma run_results : fst s1 = Ok (Some PARENT) ∧ fst s2 = Ok (Some CHILD) ∧ fst s3 = Ok tt ∧ fst s4 = Ok tt ∧ fst s5 = Ok true.
Proof. vm_compute. done. Qed.

Lemma paired {A B} (x : A * B) a : fst x = a → x = (a, snd x).
Proof. intros <-. apply surjective_pairing. Qed.

Lemma here_user : USER_REGION_START ≤ HERE < USER_REGION_END.
Proof. done. Qed.
Lemma here_range : user_range HERE 0x1000.
Proof. done. Qed.
Lemma here_page : user_page HERE.
Proof. done. Qed.

Lemma family_booted : booted (boot_machine 0x110000).
Proof. apply boot_machine_booted; [lia|vm_compute; done]. Qed.

Lemma family_reached : rtc any_step (boot_machine 0x110000, nobody) (snd s3, family).
Proof.
  destruct run_results as (H1 & H2 & H3 & _ & _).
  eapply rtc_l; [eexists; apply (st_create _ nobody HERE PARENT (snd s1) here_user); by apply paired|].
  eapply rtc_l; [eexists; apply (st_create _ _ HERE CHILD (snd s2) here_user); by apply paired|].
  eapply rtc_l; [eexists; apply (st_map _ family PARENT HERE 0x1000 true false (Ok tt) (snd s3))|apply rtc_refl].
  - right; left.
  - exact here_range.
  - by apply paired.
Qed.

Lemma frames_counted_witness : ∃ m, rtc any_step (boot_machine 0x110000, nobody) (m, family) ∧ ∃ g : Book,
  held g ≡ₚ [] ∧ ∀ f, f ∈ owners g → references (cow m) f = cnt f (owners g).
Proof.
  exists (snd s3). split; [exact family_reached|].
  destruct (frames_counted_exactly (boot_machine 0x110000) (snd s3) family family_booted family_reached) as (g & Hh & _ & _ & Hf & _).
  exists g. split; [exact Hh|]. intros f Hin. exact (proj1 (Hf f Hin)).
Defined.

Lemma mapped_here : translate HERE (tables (snd s3) PARENT) = Some (0x102000, 0, user_flags true false).
Proof. vm_compute. done. Qed.

Lemma not_held_here (f : Z) : f ∉ cl_held family.
Proof. apply not_elem_of_nil. Qed.

Lemma fork_snapshot_witness : fst s5 = Ok true ∧ image (snd s5) CHILD HERE = Some (contents (snd s3) 0x102000).
Proof.
  destruct run_results as (_ & _ & _ & H4 & H5). split; [exact H5|].
  refine (fork_snapshot (boot_machine 0x110000) (snd s3) family PARENT CHILD HERE 0x1000 true false (snd s4) CHILD (snd s5) family
    HERE 0x102000 0 (user_flags true false) family_booted family_reached _ _ here_range _ _ _ _ here_page _ mapped_here (not_held_here _)).
  - right; left.
  - left.
  - intros; by left.
  - by apply paired.
  - by right.
  - eapply rtc_l; [|apply rtc_refl]. exists (Some PARENT). split; [done|].
    apply (st_break _ family PARENT HERE true (snd s5)); [right; left|exact here_user|by apply paired].
  - unfold HERE. lia.
Defined.

(** The parent's write faults after the fork. *)
Lemma forked_reached : rtc any_step (boot_machine 0x110000, nobody) (snd s4, family).
Proof.
  destruct run_results as (_ & _ & _ & H4 & _). eapply rtc_r; [exact family_reached|]. exists (Some CHILD).
  apply (st_share _ family PARENT CHILD HERE 0x1000 true false (Ok tt) (snd s4)); [right; left|left|exact here_range|intros; by left|by apply paired].
Qed.


(** Three frames: a root, the page and one of the three tables it needs. *)
Definition t1 := create_user_address_space HERE (boot_machine 0x103000).
Definition t2 := alloc (snd t1).

Lemma private_map_witness : fst (map_private_frame_from_bytes PARENT HERE [] true (snd t1)) = Panic.
Proof.
  assert (fst t1 = Ok (Some PARENT) ∧ fst t2 = Ok (Some 0x101000)) as [H1 H2] by (vm_compute; done).
  destruct (map_to HERE 0x101000 (user_flags true false) (tables (snd t2) PARENT) (memory (snd t2))) as [ok z] eqn:E.
  assert (ok = false) as -> by (apply (f_equal fst) in E; vm_compute in E; by simplify_eq).
  refine (private_map_self_deadlock (boot_machine 0x103000) (snd t1) (mkClient [PARENT] [] []) PARENT HERE [] true 0x101000 (snd t2) z
    _ _ _ here_page _ _ E).
  - apply boot_machine_booted; [lia|vm_compute; done].
  - eapply rtc_l; [eexists; apply (st_create _ nobody HERE PARENT (snd t1) here_user); by apply paired|apply rtc_refl].
  - left.
  - vm_compute. done.
  - by apply paired.
Defined.
End example.
