(* ===== verification/UserBytes.v ===== *)
(** * The bytes a user program sees (kernel/src/paging.rs)

    [user_byte m r a] is the byte at address [a] of the address space [r].  In a
    space whose frames are all its own, a completed store changes exactly the
    bytes it names; the calls of the paging module are restated that way, for
    the code that builds address spaces. *)
From stdpp Require Import list gmap.
From S2P Require Import Prelude Memory Paging PagingOwn PagingCow.

Lemma rtc_trans {A} (R : A → A → Prop) x y z : rtc R x y → rtc R y z → rtc R x z.
Proof. apply transitivity. Qed.

Section bytes.
Context {PT : Type} `{PageTableLaws PT}.
#[local] Set Default Proof Using "All".
Implicit Types (m : Machine PT) (g : Book).

Definition user_byte m (r a : Z) : option byte :=
  '(f, o, _) ← translate a (tables m r); contents m f !! Z.to_nat o.
(** The bytes [l] from [a] on. *)
Definition stored m (r a : Z) (l : list byte) : Prop := ∀ i b, l !! i = Some b → user_byte m r (a + Z.of_nat i) = Some b.
Definition page_flags m (r a : Z) : option Flags := snd <$> translate a (tables m r).
Definition user_address (a : Z) : Prop := USER_REGION_START ≤ a < USER_REGION_END.

(** Every frame of the space has one owner. *)
Definition private g (r : Z) : Prop := ∀ p f fl, pages g !! (r, p) = Some (f, fl) → cnt f (owners g) = 1.
Definition mapped g (r lo hi : Z) : Prop := ∀ a, lo ≤ a < hi → is_Some (pages g !! (r, page_of a)).

Lemma user_byte_page m g r a : owned m g → r ∈ roots g → user_address a →
  user_byte m r a = v ← pages g !! (r, page_of a); contents m (fst v) !! Z.to_nat (a mod PAGE).
Proof.
  intros Ho Hr Ha. unfold user_byte. rewrite (translate_user m g r a Ho Hr (page_of_user a Ha)).
  by destruct (pages g !! (r, page_of a)) as [[f fl]|].
Qed.

Lemma page_flags_page m g r a : owned m g → r ∈ roots g → user_address a →
  page_flags m r a = snd <$> pages g !! (r, page_of a).
Proof.
  intros Ho Hr Ha. unfold page_flags. rewrite (translate_user m g r a Ho Hr (page_of_user a Ha)).
  by destruct (pages g !! (r, page_of a)) as [[f fl]|].
Qed.

(** Two addresses of one page. *)
Lemma page_offset a x : 0 ≤ a → 0 ≤ x → page_of x = page_of a ↔ x / PAGE = a / PAGE.
Proof. unfold page_of, PAGE. intros Ha Hx. pose proof (Z.div_mod a 4096). pose proof (Z.div_mod x 4096). lia. Qed.

(** One round's store. *)
Lemma poke_bytes m g r a fr fl b x : owned m g → r ∈ roots g → private g r → user_address a → user_address x →
  pages g !! (r, page_of a) = Some (fr, fl) → Z.of_nat (length b) ≤ PAGE - a mod PAGE →
  user_byte (poke fr (Z.to_nat (a mod PAGE)) b m) r x =
  if bool_decide (a ≤ x < a + Z.of_nat (length b)) then b !! Z.to_nat (x - a) else user_byte m r x.
Proof.
  intros Ho Hr Hpr Ha Hx Hk Hb. pose proof (Z.mod_pos_bound a PAGE ltac:(done)) as Hma.
  pose proof (Z.mod_pos_bound x PAGE ltac:(done)) as Hmx.
  assert (0 ≤ a ∧ 0 ≤ x) as [Ha0 Hx0] by (unfold user_address, USER_REGION_START in *; lia).
  destruct (page_of_bound a Ha0) as (_ & _ & Hae). destruct (page_of_bound x Hx0) as (_ & _ & Hxe).
  assert (owned (poke fr (Z.to_nat (a mod PAGE)) b m) g) as Ho'.
  { apply owned_poke; [done|]. change PAGE_BYTES with (Z.to_nat PAGE). unfold PAGE in *. lia. }
  rewrite (user_byte_page _ g r x Ho' Hr Hx), (user_byte_page m g r x Ho Hr Hx).
  destruct (decide (page_of x = page_of a)) as [Hpa|Hpa].
  - rewrite Hpa, Hk. cbn [mbind option_bind fst]. cbn [contents poke set_contents]. rewrite Z.eqb_refl.
    rewrite lookup_splice by (rewrite (ow_contents _ _ Ho); change PAGE_BYTES with (Z.to_nat PAGE); unfold PAGE in *; lia).
    case_decide as Hd; case_bool_decide as Hd'; try (exfalso; lia); [|done]. f_equal. lia.
  - rewrite bool_decide_eq_false_2.
    + destruct (pages g !! (r, page_of x)) as [[f' fl']|] eqn:Ex; [|done]. cbn [mbind option_bind fst]. cbn [contents poke set_contents].
      destruct (Z.eqb_spec f' fr) as [->|]; [|done]. exfalso. apply Hpa.
      pose proof (mapped_once g _ _ _ _ _ (Hpr _ _ _ Hk) Hk Ex) as [=]. congruence.
    + intros Hin. apply Hpa, page_offset; [done|done|]. unfold PAGE in *. pose proof (Z.div_mod a 4096). pose proof (Z.div_mod x 4096). lia.
Qed.

Lemma write_loop_bytes fuel m g r a b res m' : owned m g → r ∈ roots g → private g r → (length b ≤ fuel)%nat →
  USER_REGION_START ≤ a → a + Z.of_nat (length b) ≤ USER_REGION_END → write_loop fuel r a b m = (res, m') →
  tables m' = tables m ∧ memory m' = memory m ∧
  (mapped g r a (a + Z.of_nat (length b)) → res = Ok tt) ∧
  (res = Ok tt → ∀ x, user_address x → user_byte m' r x =
     if bool_decide (a ≤ x < a + Z.of_nat (length b)) then b !! Z.to_nat (x - a) else user_byte m r x).
Proof.
  revert m a b. induction fuel as [|fuel IH]; intros m a b Ho Hr Hpr Hf Ha Hb Hm; destruct (decide (b = [])) as [->|Hne].
  1,3: injection Hm as <- <-; split_and!; try done; intros _ x _; rewrite bool_decide_eq_false_2 by (cbn; lia); done.
  { destruct b; [done|simpl in Hf; lia]. }
  assert (0 < Z.of_nat (length b)) as Hlen by (destruct b; [done|simpl; lia]).
  assert (user_address a) as Hua by (unfold user_address; lia).
  rewrite (write_round fuel m g r a b Ho Hr Hne Hua) in Hm. cbv zeta in Hm.
  destruct (pages g !! (r, page_of a)) as [[f fl]|] eqn:Ek.
  2: { injection Hm as <- <-. split_and!; [done|done| |done]. intros Hmp. destruct (Hmp a ltac:(lia)) as [? ?]. congruence. }
  pose proof (Z.mod_pos_bound a PAGE ltac:(done)) as Hmod. set (count := Nat.min _ _) in Hm.
  assert (Z.of_nat count ≤ PAGE - a mod PAGE ∧ (0 < count ≤ length b)%nat) as [Hcp Hcl]. { subst count. unfold PAGE in *. lia. }
  assert (length (take count b) = count) as Hlt by (rewrite length_take; lia).
  assert (owned (poke f (Z.to_nat (a mod PAGE)) (take count b) m) g) as Ho1.
  { apply owned_poke; [done|]. rewrite Hlt. change PAGE_BYTES with (Z.to_nat PAGE). unfold PAGE in *. lia. }
  destruct (IH _ (a + Z.of_nat count) (drop count b) Ho1 Hr Hpr) as (Ht & Hmem & Hok & Hby); [| | |exact Hm|].
  1-3: rewrite ?length_drop; lia.
  rewrite length_drop in Hok, Hby. replace (a + Z.of_nat count + Z.of_nat (length b - count)) with (a + Z.of_nat (length b)) in * by lia.
  split_and!; [by rewrite Ht|by rewrite Hmem|intros Hmp; apply Hok; intros x Hx; apply Hmp; lia|].
  intros Hres x Hx. rewrite (Hby Hres x Hx), (poke_bytes m g r a f fl) by (done || lia). rewrite Hlt.
  repeat case_bool_decide; try (exfalso; lia); try done.
  - rewrite lookup_drop. f_equal. lia.
  - rewrite lookup_take_lt by lia. done.
Qed.

(** ** The calls, on bytes *)

Lemma write_user_bytes_bytes m g r a b res m' : owned m g → r ∈ roots g → private g r →
  USER_REGION_START ≤ a → a + Z.of_nat (length b) ≤ USER_REGION_END → write_user_bytes r a b m = (res, m') →
  tables m' = tables m ∧ memory m' = memory m ∧
  (mapped g r a (a + Z.of_nat (length b)) → res = Ok tt) ∧
  (res = Ok tt → ∀ x, user_address x → user_byte m' r x =
     if bool_decide (a ≤ x < a + Z.of_nat (length b)) then b !! Z.to_nat (x - a) else user_byte m r x).
Proof.
  intros Ho Hr Hpr Ha Hb Hm. unfold write_user_bytes in Hm. rewrite (bind_run _ _ _ _ _ (mapper_ok m g r Ho Hr)) in Hm.
  by eapply write_loop_bytes.
Qed.

Lemma page_range_ok start sz : user_range start sz → start mod PAGE = 0 → sz mod PAGE = 0 → 0 < sz →
  ∃ ps, page_range start sz = Ok ps ∧ Forall user_page ps ∧ ∀ a, start ≤ a < start + sz ↔ user_address a ∧ page_of a ∈ ps.
Proof.
  intros Hu Hs Hz Hpos. pose proof (page_range_user start sz Hu) as Hpr. pose proof Hu as (Hs1 & Hz1 & He1).
  destruct (page_range start sz) as [ps|e|] eqn:E; [| |done].
  - exists ps. destruct Hpr as (Hps & _ & Hel). split_and!; [done|done|]. intros a. rewrite Hel. unfold user_address.
    assert (0 ≤ a → start ≤ page_of a < start + sz ∧ page_of a mod PAGE = 0 ↔ start ≤ a < start + sz) as Hpage.
    { intros Ha. destruct (page_of_bound a Ha) as (Hb & Hm & _). pose proof (page_of_mono start a). pose proof (page_of_mono (start + sz) a).
      assert (page_of start = start) as Hst by (unfold page_of; lia).
      assert (page_of (start + sz) = start + sz) as Hen.
      { unfold page_of. rewrite Z.add_mod, Hs, Hz by done. rewrite Z.mod_0_l by done. lia. }
      split; [|split; [split|]]; lia. }
    unfold USER_REGION_START in *. split; [intros Ha; rewrite Hpage by lia; lia|intros [Ha Hp]; apply Hpage in Hp; lia].
  - exfalso. unfold page_range in E. rewrite Hs, Hz, (proj2 (Z.eqb_neq sz 0)) in E by lia. cbn in E.
    unfold USER_REGION_START, USER_REGION_END, USER_REGION_START in *. unfold checked_add in E.
    rewrite (proj2 (Z.ltb_lt _ _)), !canonical_law in E by lia. done.
Qed.

Lemma zero_user_range_bytes m g r start sz res m' : owned m g → r ∈ roots g → private g r → user_range start sz →
  start mod PAGE = 0 → sz mod PAGE = 0 → 0 < sz → zero_user_range_in r start sz m = (res, m') →
  tables m' = tables m ∧ memory m' = memory m ∧ (mapped g r start (start + sz) → res = Ok tt) ∧
  (res = Ok tt → ∀ x, user_address x → user_byte m' r x =
     if bool_decide (start ≤ x < start + sz) then Some x00 else user_byte m r x).
Proof.
  intros Ho Hr Hpr Hu Hs Hz Hpos Hm. destruct (page_range_ok start sz Hu Hs Hz Hpos) as (ps & Hps & _).
  unfold zero_user_range_in in Hm. rewrite bind_lift, Hps, (bind_run _ _ _ _ _ (mapper_ok m g r Ho Hr)) in Hm.
  destruct Hu as (Hs1 & _ & He1).
  destruct (write_loop_bytes (Z.to_nat sz) m g r start (replicate (Z.to_nat sz) x00) res m' Ho Hr Hpr) as (Ht & Hmem & Hok & Hby);
    rewrite ?length_replicate in *; [|lia|lia|exact Hm|]; [lia|]. rewrite Z2Nat.id in * by lia. split_and!; [done|done|done|].
  intros Hres x Hx. rewrite (Hby Hres x Hx). case_bool_decide; [|done]. by rewrite lookup_replicate_2 by lia.
Qed.

(** Addresses whose page and frame are what they were. *)
Lemma user_byte_same m g m' g' r a : owned m g → owned m' g' → r ∈ roots g → r ∈ roots g' → user_address a →
  fst <$> pages g' !! (r, page_of a) = fst <$> pages g !! (r, page_of a) → contents m' = contents m → user_byte m' r a = user_byte m r a.
Proof.
  intros Ho Ho' Hr Hr' Ha Hp Hc. rewrite (user_byte_page m' g'), (user_byte_page m g) by done. rewrite Hc.
  destruct (pages g !! _) as [[]|], (pages g' !! _) as [[]|]; try done. cbn in *. by injection Hp as ->.
Qed.

(** A range mapped to frames of its own. *)
Lemma extends_private r fl g g' ps : private g r → extends r fl g g' ps → private g' r.
Proof.
  intros Hpr (_ & _ & Hk & Hc & Hp) p f fl' Hpf. destruct (decide (p ∈ ps)) as [Hin|Hn].
  - destruct (Hp p Hin) as (_ & f' & Hf' & _ & Hcf). by simplify_eq.
  - rewrite Hk in Hpf by (rewrite elem_of_keys; naive_solver). rewrite Hc; [by eapply Hpr|]. by eapply mapped_owned.
Qed.

Lemma reflagged_private r fl ps res g g' : (∀ k, kept g g' k) → private g r → reflagged r fl ps res g g' → private g' r.
Proof.
  intros Hk Hpr (Hown & _) p f fl' Hpf. rewrite Hown. specialize (Hk (r, p)). unfold kept in Hk. rewrite Hpf in Hk.
  destruct (pages g !! (r, p)) as [[f0 fl0]|] eqn:E; [|done]. destruct Hk as [-> _]. by eapply Hpr.
Qed.

(** [map_user_range_in] into a private space: the range is mapped with the flags
    asked for, and nothing else changes; or the call fails and nothing does. *)
Lemma map_bytes sh m g r start sz w x res m' : owned m g → excl sh g → r ∈ roots g → private g r → user_range start sz →
  start mod PAGE = 0 → sz mod PAGE = 0 → 0 < sz → map_user_range_in r start sz w x m = (res, m') →
  ∃ g', owned m' g' ∧ excl sh g' ∧ roots g' = roots g ∧ held g' ≡ₚ held g ∧ private g' r ∧ res ≠ Panic ∧ contents m' = contents m ∧
  (∀ a, user_address a → pages g' !! (r, page_of a) =
     if bool_decide (res = Ok tt ∧ start ≤ a < start + sz) then (λ v, (fst v, user_flags w x)) <$> pages g' !! (r, page_of a)
     else pages g !! (r, page_of a)) ∧
  (res = Ok tt → mapped g' r start (start + sz) ∧ ∀ a, start ≤ a < start + sz → pages g !! (r, page_of a) = None).
Proof.
  intros Ho He Hr Hpr Hu Hs Hz Hpos Hm. destruct (page_range_ok start sz Hu Hs Hz Hpos) as (ps & Hps & Hpg & Hel).
  destruct (map_user_range_spec sh m g r start sz w x res m' Ho He Hr Hu Hm) as (Hc & g' & Ho' & He' & Hr' & Hh' & Hres).
  exists g'. do 4 (split; [done|]). destruct res as [[]|e|]; [| |done].
  - destruct Hres as (ps' & Hps' & Hext). rewrite Hps in Hps'. injection Hps' as <-. split; [by eapply extends_private|].
    split; [done|]. split; [done|]. destruct Hext as (_ & _ & Hk & _ & Hin). split.
    + intros a Ha. case_bool_decide as Hd.
      * destruct Hd as [_ Hd%Hel]. destruct (Hin _ (proj2 Hd)) as (_ & f & -> & _). done.
      * apply Hk. rewrite elem_of_keys. cbn. intros [_ Hp]. apply Hd. split; [done|]. by apply Hel.
    + intros _. split.
      * intros a Ha%Hel. destruct (Hin _ (proj2 Ha)) as (_ & f & -> & _). eauto.
      * intros a Ha%Hel. by destruct (Hin _ (proj2 Ha)) as (-> & _).
  - assert (owners g' ≡ₚ owners g) as Hown by (unfold owners; by rewrite Hres, Hh').
    split; [intros p f fl Hp; rewrite Hown; rewrite Hres in Hp; by eapply Hpr|]. split; [done|]. split; [done|].
    split; [intros a _; rewrite Hres; by rewrite bool_decide_eq_false_2 by naive_solver|done].
Qed.

(** [protect_user_range_in] of a mapped range of a private space. *)
Lemma protect_bytes sh m g r start sz w x res m' : owned m g → excl sh g → r ∈ roots g → private g r → user_range start sz →
  start mod PAGE = 0 → sz mod PAGE = 0 → 0 < sz → mapped g r start (start + sz) →
  (∀ p f fl, w = true → start ≤ p < start + sz → pages g !! (r, p) = Some (f, fl) → f_writable fl = true) →
  protect_user_range_in r start sz w x m = (res, m') →
  res = Ok tt ∧ ∃ g', owned m' g' ∧ excl sh g' ∧ roots g' = roots g ∧ held g' ≡ₚ held g ∧ private g' r ∧ contents m' = contents m ∧
  ∀ a, user_address a → pages g' !! (r, page_of a) =
    if bool_decide (start ≤ a < start + sz) then (λ v, (fst v, user_flags w x)) <$> pages g !! (r, page_of a)
    else pages g !! (r, page_of a).
Proof.
  intros Ho He Hr Hpr Hu Hs Hz Hpos Hmp Hw Hm. destruct (page_range_ok start sz Hu Hs Hz Hpos) as (ps & Hps & Hpg & Hel).
  destruct (protect_spec sh m g r start sz w x res m' Ho He Hr Hu Hw Hm) as (_ & Hc & g' & Ho' & He' & Hr' & Hh' & Hkept & Hre).
  destruct (Hre ps Hps) as [Hrefl Hok]. assert (res = Ok tt) as ->.
  { apply Hok. intros p Hp. assert (user_page p) as [Hpm Hpr'] by (rewrite Forall_forall in Hpg; auto).
    assert (page_of p = p) as Hpp by (unfold page_of; lia). rewrite <-Hpp. apply Hmp, Hel. rewrite Hpp. done. }
  split; [done|]. exists g'. split; [done|]. split; [done|]. split; [done|]. split; [by rewrite Hh'|].
  split; [by eapply reflagged_private|]. split; [done|]. destruct Hrefl as (_ & Hk & Hin). intros a Ha. case_bool_decide as Hd.
  - apply Hel in Hd as [_ Hd]. destruct (Hin eq_refl _ Hd) as [f Hf]. specialize (Hkept (r, page_of a)). unfold kept in Hkept.
    rewrite Hf in *. destruct (pages g !! _) as [[]|]; [|done]. destruct Hkept as [-> _]. done.
  - apply Hk. rewrite elem_of_keys. cbn. intros [_ Hp]. apply Hd. by apply Hel.
Qed.
End bytes.
