(* ===== verification/Loader.v ===== *)
(** * Loading programs (kernel/src/userspace.rs)

    An ELF image becomes an address space: its segments are mapped, cleared,
    filled from the file and given their protection, a stack is mapped above a
    guard page, and the argument vector is laid out on the stack.  Anonymous
    mappings live in fixed slots between the segments and the stack.

    A function that returns [Option] is a computation whose error is [tt]. *)
From stdpp Require Import list gmap.
From S2P Require Import Prelude Config Memory Paging PagingOwn.
From S2P Require Elf.

Definition USER_STACK_OFFSET : Z := 0x1f0000.

Record UserStack := mkStack { guard_base : Z; base : Z; top : Z; stack_size : Z }.
Definition GUARD_SIZE : Z := 4096.
Definition SIZE : Z := 4096 * 2.
Definition stack_new (b : Z) : UserStack := mkStack (b - GUARD_SIZE) b (b + SIZE) SIZE.
Definition stack_is_aligned (s : UserStack) : bool :=
  (guard_base s mod 4096 =? 0) && (base s =? guard_base s + GUARD_SIZE) && (base s mod 16 =? 0) && (top s mod 16 =? 0).

Definition MAX_ARGV : nat := 8.
Definition MAX_ARGV_BYTES : Z := 512.
(** The buffer of one argument. *)
Definition ARGUMENT_BUFFER : nat := 256.

Record UserMapping := mkMapping { m_start : Z; m_size : Z; m_writable : bool; m_executable : bool }.
Record AddressSpace := mkSpace { as_paging : Z; stack_base : Z; mappings : list UserMapping }.
Record UserImage := mkUserImage { ui_entry : Z; ui_stack_top : Z; ui_image_size : Z; ui_load_segments : nat }.
Definition is_valid (i : UserImage) : bool :=
  (USER_REGION_START <=? ui_entry i) && negb (ui_stack_top i =? 0) && (ui_stack_top i mod 16 =? 0)
  && negb (ui_image_size i =? 0) && negb (Nat.eqb (ui_load_segments i) 0).
Record UserProgram := mkUserProgram { up_image : UserImage; up_stack : UserStack; up_space : AddressSpace }.

Definition USER_MMAP_START : Z := USER_REGION_START + 0x0e0000.
Definition USER_MMAP_STRIDE : Z := 0x10000.
Definition USER_MMAP_MAX_SIZE : Z := USER_MMAP_STRIDE.

(** [bytes.get(first..last)] *)
Definition get_range (l : list byte) (first last : Z) : option (list byte) :=
  if (first <=? last) && (last <=? Z.of_nat (length l)) then Some (slice l (Z.to_nat first) (Z.to_nat (last - first))) else None.

(** The sum of the lengths with their terminators. *)
Fixpoint string_bytes_from (total : Z) (args : list (list byte)) : option Z :=
  match args with
  | [] => Some total
  | arg :: args => n ← checked_add 64 (Z.of_nat (length arg)) 1; total ← checked_add 64 total n; string_bytes_from total args
  end.

Section loader.
Context {PT : Type} `{PageTables PT, PhysFrames}.
#[local] Abbreviation Op := (M (Machine PT) unit).
Implicit Types m : Machine PT.

Definition some {T} (o : option T) : Op T := lift (ok_or tt o).
Definition require (b : bool) : Op unit := guard_ok b tt.
(** [.ok()?] *)
Definition ok {T} (f : M (Machine PT) MapRangeError T) : Op T := λ m, let '(r, m) := f m in (map_err (λ _, tt) r, m).
(** [.is_err()], [.is_ok()] and [let _ =] *)
Definition succeeds {T} (f : M (Machine PT) MapRangeError T) : Op bool := λ m,
  match f m with (Ok _, m) => (Ok true, m) | (Err _, m) => (Ok false, m) | (Panic, m) => (Panic, m) end.
Definition ask (f : Machine PT → res MapRangeError bool) : Op bool := λ m,
  (match f m with Ok b => Ok b | Err _ => Ok false | Panic => Panic end, m).

(** ** The argument vector *)

(** The loop over the arguments, the first one at [cursor]: where they are. *)
Fixpoint write_strings (root cursor : Z) (args : list (list byte)) : Op (list Z) :=
  match args with
  | [] => mret []
  | arg :: args =>
    _ ← require (Nat.ltb (length arg) ARGUMENT_BUFFER);
    _ ← ok (write_user_bytes root cursor (arg ++ [x00]));
    next ← some (checked_add 64 cursor (Z.of_nat (length arg) + 1));
    rest ← write_strings root next args;
    mret (cursor :: rest)
  end.
(** The loop over the pointers, at [address] and above. *)
Fixpoint write_pointers (root address : Z) (pointers : list Z) : Op unit :=
  match pointers with
  | [] => mret tt
  | p :: pointers => _ ← ok (write_user_bytes root address (to_le_bytes 8 p)); write_pointers root (address + 8) pointers
  end.

Definition setup_argv_stack (root : Z) (stack : UserStack) (args : list (list byte)) : Op Z :=
  _ ← require (Nat.leb (length args) MAX_ARGV);
  string_bytes ← some (string_bytes_from 0 args);
  _ ← require (string_bytes <=? MAX_ARGV_BYTES);
  strings_start ← some (if string_bytes <=? top stack then Some (top stack - string_bytes) else None);
  _ ← require (base stack <=? strings_start);
  argv_ptrs ← write_strings root strings_start args;
  let pointer_bytes := (1 + Z.of_nat (length args) + 1 + 1) * 8 in
  rsp ← some (if pointer_bytes <=? strings_start then Some (strings_start - pointer_bytes) else None);
  let rsp := Z.land rsp (bnot 64 0xf) in
  _ ← require (base stack <=? rsp);
  _ ← ok (write_user_bytes root rsp (to_le_bytes 8 (Z.of_nat (length args))));
  _ ← write_pointers root (rsp + 8) argv_ptrs;
  let argv_null := rsp + 8 + Z.of_nat (length args) * 8 in
  _ ← ok (write_user_bytes root argv_null (to_le_bytes 8 0));
  _ ← ok (write_user_bytes root (argv_null + 8) (to_le_bytes 8 0));
  mret rsp.

(** ** Loading *)

Definition ranges_of (mappings : list UserMapping) : list (Z * Z) := (λ u, (m_start u, m_size u)) <$> mappings.
Definition release_with_stack (root stack_base : Z) (mappings : list UserMapping) : Op unit :=
  _ ← succeeds (destroy_user_address_space root ((stack_base, SIZE) :: ranges_of mappings)); mret tt.
Definition release_partial (root : Z) (mappings : list UserMapping) : Op unit :=
  match mappings with
  | [] => _ ← ok (discard_empty_user_address_space root); mret tt
  | _ => _ ← succeeds (destroy_user_address_space root (ranges_of mappings)); mret tt
  end.

(** One round of the loop over the segments. *)
Definition load_segment (root guard : Z) (bytes : list byte) (mappings : list UserMapping) (s : Elf.LoadSegment) : Op (list UserMapping) :=
  let give_back mappings := (_ ← release_partial root mappings; fail tt) : Op (list UserMapping) in
  mapping_end ← some (checked_add 64 (Elf.mapping_start s) (Elf.mapping_size s));
  if (Elf.mapping_start s <? USER_REGION_START) || (guard <? mapping_end) then give_back mappings
  else if Nat.eqb (length mappings) MAX_ELF_SEGMENTS then give_back mappings else
  mapped ← succeeds (map_user_range_in root (Elf.mapping_start s) (Elf.mapping_size s) true false);
  if negb mapped then give_back mappings else
  let mappings := mappings ++ [mkMapping (Elf.mapping_start s) (Elf.mapping_size s) (Elf.writable s) (Elf.executable s)] in
  file_end ← some (checked_add 64 (Elf.file_offset s) (Elf.file_size s));
  memory_end ← some (checked_add 64 (Elf.virtual_address s) (Elf.memory_size s));
  limit ← some (checked_add 64 (Elf.mapping_start s) (Elf.mapping_size s));
  if limit <? memory_end then give_back mappings else
  zeroed ← succeeds (zero_user_range_in root (Elf.mapping_start s) (Elf.mapping_size s));
  if negb zeroed then give_back mappings else
  data ← some (get_range bytes (Elf.file_offset s) file_end);
  written ← succeeds (write_user_bytes root (Elf.virtual_address s) data);
  if negb written then give_back mappings else
  protected ← succeeds (protect_user_range_in root (Elf.mapping_start s) (Elf.mapping_size s) (Elf.writable s) (Elf.executable s));
  if negb protected then give_back mappings else mret mappings.

Fixpoint load_segments (root guard : Z) (bytes : list byte) (mappings : list UserMapping) (segments : list Elf.LoadSegment) : Op (list UserMapping) :=
  match segments with
  | [] => mret mappings
  | s :: segments => mappings ← load_segment root guard bytes mappings s; load_segments root guard bytes mappings segments
  end.

(** The stack behind the segments. *)
Definition load_stack (root : Z) (stack : UserStack) (mappings : list UserMapping) : Op unit :=
  let b := base stack in
  mapped ← succeeds (map_user_range_in root b SIZE true false);
  if negb mapped then _ ← release_partial root mappings; fail tt else
  zeroed ← succeeds (zero_user_range_in root b SIZE);
  if negb zeroed then _ ← release_with_stack root b mappings; fail tt else
  guarded ← ask (user_range_is_unmapped_in root (guard_base stack) GUARD_SIZE);
  protected ← (if guarded : bool then ask (user_range_has_protection_in root (base stack) (stack_size stack) true false) else mret false);
  if negb protected then _ ← release_with_stack root b mappings; fail tt else mret tt.

Definition load_elf (bytes : list byte) : Op UserProgram :=
  image ← lift (map_err (λ _, tt) (Elf.parse bytes));
  page_table ← ok (create_user_address_space (Elf.entry image));
  page_table ← some page_table;
  b ← some (checked_add 64 USER_REGION_START USER_STACK_OFFSET);
  let stack := stack_new b in
  mappings ← load_segments page_table (guard_base stack) bytes [] (Elf.segments image);
  _ ← load_stack page_table stack mappings;
  stack_top ← setup_argv_stack page_table stack [Prelude.bytes "a.out"];
  mret (mkUserProgram (mkUserImage (Elf.entry image) stack_top (Z.of_nat (length bytes)) (Elf.segment_count image))
          stack (mkSpace page_table b mappings)).

Definition load_elf_with_argv (bytes : list byte) (args : list (list byte)) : Op UserProgram :=
  program ← load_elf bytes;
  stack_top ← setup_argv_stack (as_paging (up_space program)) (up_stack program) args;
  let i := up_image program in
  mret (mkUserProgram (mkUserImage (ui_entry i) stack_top (ui_image_size i) (ui_load_segments i)) (up_stack program) (up_space program)).

Definition destroy (space : AddressSpace) : Op bool :=
  succeeds (destroy_user_address_space (as_paging space) ((stack_base space, SIZE) :: ranges_of (mappings space))).

(** ** Anonymous memory *)

Definition mmap_address (slot : nat) : option Z :=
  n ← checked_mul 64 (Z.of_nat slot) USER_MMAP_STRIDE; checked_add 64 USER_MMAP_START n.
(** The address, size and write permission of the mapping of a slot. *)
Definition map_anonymous (space : AddressSpace) (slot : nat) (size : Z) (writable : bool) : Op (Z * Z * bool) :=
  _ ← require (Nat.ltb slot MAX_ANONYMOUS_MAPPINGS && negb (size =? 0) && (size <=? USER_MMAP_MAX_SIZE) && (size mod 4096 =? 0));
  address ← some (mmap_address slot);
  mapped ← succeeds (map_user_range_in (as_paging space) address size writable false);
  _ ← require mapped;
  zeroed ← succeeds (zero_user_range_in (as_paging space) address size);
  if negb zeroed then _ ← succeeds (unmap_user_range_in (as_paging space) address size); fail tt else
  mret (address, size, writable).

(** An address falls in the stack, a writable segment or a writable mapping. *)
Definition inside (address start size : Z) : bool := (start <=? address) && (address <? start + size).
Definition is_logically_writable (space : AddressSpace) (address : Z) (anonymous : list (option (Z * Z * bool))) : bool :=
  inside address (stack_base space) SIZE
  || any (λ u, m_writable u && inside address (m_start u) (m_size u)) (mappings space)
  || any (λ '(a, s, w), (w : bool) && inside address a s) (omap id anonymous).
End loader.
