(* ===== verification/LoaderArgv.v ===== *)
(** * The argument vector on the new stack (kernel/src/userspace.rs)

    [setup_argv_stack] on a mapped stack: which bytes it writes, for every list
    of arguments, and which lists it refuses. *)
From stdpp Require Import list gmap.
From S2P Require Import Prelude Config Memory Paging PagingOwn PagingCow UserBytes Loader.

(** The strings with their terminators, and where each one starts. *)
Definition argv_strings (args : list (list byte)) : list byte := args ≫= λ a, a ++ [x00].
Fixpoint argv_pointers (cursor : Z) (args : list (list byte)) : list Z :=
  match args with [] => [] | a :: args => cursor :: argv_pointers (cursor + Z.of_nat (length a) + 1) args end.
(** The words at the new stack pointer: the count, the pointers, two nulls. *)
Definition argv_words (cursor : Z) (args : list (list byte)) : list Z :=
  Z.of_nat (length args) :: argv_pointers cursor args ++ [0; 0].
Definition words_bytes (ws : list Z) : list byte := ws ≫= to_le_bytes 8.

Definition args_small (args : list (list byte)) : bool :=
  Nat.leb (length args) MAX_ARGV && (Z.of_nat (length (argv_strings args)) <=? MAX_ARGV_BYTES).
Definition args_fit (args : list (list byte)) : bool :=
  args_small args && forallb (λ a, Nat.ltb (length a) ARGUMENT_BUFFER) args.

Definition strings_start (stack : UserStack) args : Z := top stack - Z.of_nat (length (argv_strings args)).
Definition argv_rsp (stack : UserStack) args : Z := Z.land (strings_start stack args - (Z.of_nat (length args) + 3) * 8) (bnot 64 0xf).

Lemma argv_strings_cons a args : argv_strings (a :: args) = (a ++ [x00]) ++ argv_strings args.
Proof. done. Qed.
Lemma length_argv_pointers cursor args : length (argv_pointers cursor args) = length args.
Proof. revert cursor. induction args as [|a args IH]; intros cursor; [done|]. cbn. by rewrite IH. Qed.
Lemma length_words_bytes ws : length (words_bytes ws) = (8 * length ws)%nat.
Proof. induction ws as [|w ws IH]; [done|]. unfold words_bytes in *. cbn [mbind list_bind length]. rewrite length_app, length_to_le_bytes, IH. lia. Qed.
Lemma words_bytes_app ws ws' : words_bytes (ws ++ ws') = words_bytes ws ++ words_bytes ws'.
Proof. unfold words_bytes. by rewrite bind_app. Qed.

Lemma string_bytes_from_total total args : 0 ≤ total → total + Z.of_nat (length (argv_strings args)) < 2 ^ 64 →
  string_bytes_from total args = Some (total + Z.of_nat (length (argv_strings args))).
Proof.
  revert total. induction args as [|a args IH]; intros total Ht Hb; [cbn; f_equal; lia|].
  rewrite argv_strings_cons, !length_app in *. cbn [length string_bytes_from] in *.
  rewrite checked_add_ok by lia. cbn [mbind option_bind]. rewrite checked_add_ok by lia. cbn [mbind option_bind].
  rewrite IH by lia. f_equal. lia.
Qed.

(** A list too long for the machine's arithmetic is refused as well. *)
Lemma string_bytes_from_some total args n : 0 ≤ total → string_bytes_from total args = Some n →
  n = total + Z.of_nat (length (argv_strings args)) .
Proof.
  revert total. induction args as [|a args IH]; intros total Ht Hb; [cbn in *; simplify_eq; lia|].
  cbn [string_bytes_from] in Hb. destruct (checked_add 64 (Z.of_nat (length a)) 1) as [k|] eqn:E1; [|done].
  cbn [mbind option_bind] in Hb. destruct (checked_add 64 total k) as [t|] eqn:E2; [|done]. cbn [mbind option_bind] in Hb.
  apply checked_add_Some in E1 as [-> _]. apply checked_add_Some in E2 as [-> _]. apply IH in Hb; [|lia]. subst n.
  rewrite argv_strings_cons, !length_app. cbn [length]. lia.
Qed.

(** Rounding down to sixteen. *)
Lemma align16 v : 0 ≤ v < 2 ^ 64 → Z.land v (bnot 64 0xf) = v - v mod 16.
Proof. intros. apply (land_bnot_ones 64 4); lia. Qed.

Section argv.
Context {PT : Type} `{PageTableLaws PT}.
#[local] Set Default Proof Using "All".
Implicit Types (m : Machine PT) (g : Book).

(** Calls of [write_user_bytes] inside a range. *)
Definition one_write (r lo hi : Z) m m' : Prop := ∃ a l res, lo ≤ a ∧ a + Z.of_nat (length l) ≤ hi ∧ write_user_bytes r a l m = (res, m').
Definition writes r lo hi m m' : Prop := rtc (one_write r lo hi) m m'.

(** [m'] is [m] with the bytes [l] at [a]. *)
Definition overwritten g r a (l : list byte) m m' : Prop := owned m' g ∧ tables m' = tables m ∧ memory m' = memory m ∧
  ∀ x, user_address x → user_byte m' r x =
    if bool_decide (a ≤ x < a + Z.of_nat (length l)) then l !! Z.to_nat (x - a) else user_byte m r x.

Lemma overwritten_nil g r a m : owned m g → overwritten g r a [] m m.
Proof. intros Ho. split_and!; try done. intros x _. rewrite bool_decide_eq_false_2 by (cbn; lia). done. Qed.

Lemma overwritten_app g r a l1 l2 m m1 m2 : overwritten g r a l1 m m1 → overwritten g r (a + Z.of_nat (length l1)) l2 m1 m2 →
  overwritten g r a (l1 ++ l2) m m2.
Proof.
  intros (_ & Ht1 & Hm1 & Hb1) (Ho & Ht2 & Hm2 & Hb2). split_and!; [done|congruence|congruence|]. intros x Hx.
  rewrite Hb2, Hb1, length_app by done. repeat case_bool_decide; try (exfalso; lia); try done.
  - rewrite lookup_app_r by lia. f_equal. lia.
  - by rewrite lookup_app_l by lia.
Qed.

Lemma overwritten_stored g r a l m m' : overwritten g r a l m m' → USER_REGION_START ≤ a → a + Z.of_nat (length l) ≤ USER_REGION_END →
  stored m' r a l.
Proof.
  intros (_ & _ & _ & Hb) Ha He i b Hi. pose proof (lookup_lt_Some _ _ _ Hi). unfold user_address in Hb. rewrite Hb by lia.
  rewrite bool_decide_eq_true_2 by lia. rewrite <-Hi. f_equal. lia.
Qed.

(** A store elsewhere. *)
Lemma overwritten_keeps g r a l a' l' m m' : overwritten g r a l m m' → stored m r a' l' → USER_REGION_START ≤ a' →
  a' + Z.of_nat (length l') ≤ USER_REGION_END → a' + Z.of_nat (length l') ≤ a ∨ a + Z.of_nat (length l) ≤ a' → stored m' r a' l'.
Proof.
  intros (_ & _ & _ & Hb) Hs Ha He Hd i b Hi. pose proof (lookup_lt_Some _ _ _ Hi). unfold user_address in Hb. rewrite Hb by lia.
  rewrite bool_decide_eq_false_2 by lia. by apply Hs.
Qed.

Lemma stored_app m r a l1 l2 : stored m r a (l1 ++ l2) → stored m r a l1 ∧ stored m r (a + Z.of_nat (length l1)) l2.
Proof.
  intros Hs. split; intros i b Hi.
  - apply Hs. by rewrite lookup_app_l by by apply lookup_lt_Some in Hi.
  - replace (a + Z.of_nat (length l1) + Z.of_nat i) with (a + Z.of_nat (length l1 + i)) by lia. apply Hs.
    rewrite lookup_app_r by lia. by replace (length l1 + i - length l1)%nat with i by lia.
Qed.

(** A store to mapped pages of the space completes. *)
Lemma store_run m g r lo hi a l : owned m g → r ∈ roots g → private g r → USER_REGION_START ≤ lo → hi ≤ USER_REGION_END →
  mapped g r lo hi → lo ≤ a → a + Z.of_nat (length l) ≤ hi →
  ∃ m', ok (write_user_bytes r a l) m = (Ok tt, m') ∧ overwritten g r a l m m' ∧ writes r lo hi m m'.
Proof.
  intros Ho Hr Hpr Hlo Hhi Hmp Ha He. unfold ok. destruct (write_user_bytes r a l m) as [res m'] eqn:E.
  destruct (write_user_bytes_bytes m g r a l res m' Ho Hr Hpr ltac:(lia) ltac:(lia) E) as (Ht & Hm & Hok & Hb).
  rewrite Hok in * by (intros x Hx; apply Hmp; lia). exists m'. split; [done|]. split; [|apply rtc_once; by exists a, l, (Ok tt)]. split_and!; [|done|done|by apply Hb].
  destruct (write_user_bytes_spec m g r a l (Ok tt) m' Ho Hr ltac:(lia) ltac:(lia) E) as (_ & Ho' & _). done.
Qed.

(** ** The two loops *)

Lemma write_strings_run m g r lo hi cursor args : owned m g → r ∈ roots g → private g r → USER_REGION_START ≤ lo → hi ≤ USER_REGION_END →
  mapped g r lo hi → lo ≤ cursor → cursor + Z.of_nat (length (argv_strings args)) ≤ hi →
  ∃ res m' l, write_strings r cursor args m = (res, m') ∧ overwritten g r cursor l m m' ∧ writes r lo hi m m' ∧ (length l ≤ length (argv_strings args))%nat ∧
    if forallb (λ a, Nat.ltb (length a) ARGUMENT_BUFFER) args then res = Ok (argv_pointers cursor args) ∧ l = argv_strings args
    else res = Err tt.
Proof.
  intros Ho Hr Hpr Hlo Hhi Hmp. revert m cursor Ho. induction args as [|a args IH]; intros m cursor Ho Hc He.
  { exists (Ok []), m, []. split; [done|]. split; [by apply overwritten_nil|]. split; [apply rtc_refl|done]. }
  rewrite argv_strings_cons in *. rewrite !length_app in *. cbn [length] in *. cbn [write_strings forallb]. unfold require. rewrite bind_guard.
  destruct (Nat.ltb (length a) ARGUMENT_BUFFER) eqn:Eb; cbn [andb].
  2: { exists (Err tt), m, []. split; [done|]. split; [by apply overwritten_nil|]. split; [apply rtc_refl|]. split; [cbn; lia|done]. }
  destruct (store_run m g r lo hi cursor (a ++ [x00]) Ho Hr Hpr Hlo Hhi Hmp Hc) as (m1 & E1 & Hw1 & Hs1); [rewrite length_app; cbn [length]; lia|].
  rewrite (bind_run _ _ _ _ _ E1). unfold some. rewrite checked_add_ok, bind_lift by (unfold USER_REGION_END, USER_REGION_START in *; lia).
  cbn [ok_or]. destruct (IH m1 (cursor + (Z.of_nat (length a) + 1))) as (res & m' & l & Em & Hw & Hs & Hl & Hres); [by destruct Hw1|lia|lia|].
  rewrite (bind_run _ _ _ _ _ Em). rewrite Z.add_assoc in *.
  assert (overwritten g r cursor ((a ++ [x00]) ++ l) m m') as Hall.
  { eapply overwritten_app; [exact Hw1|]. rewrite length_app. cbn [length]. by replace (cursor + Z.of_nat (length a + 1)) with (cursor + Z.of_nat (length a) + 1) by lia. }
  destruct (forallb _ args).
  - destruct Hres as [-> ->]. eexists _, m', _. split; [done|]. split; [exact Hall|]. split; [by eapply rtc_trans|]. split; [rewrite !length_app; cbn; lia|done].
  - subst res. eexists _, m', _. split; [done|]. split; [exact Hall|]. split; [by eapply rtc_trans|]. split; [rewrite !length_app; cbn; lia|done].
Qed.

Lemma write_pointers_run m g r lo hi a ps : owned m g → r ∈ roots g → private g r → USER_REGION_START ≤ lo → hi ≤ USER_REGION_END →
  mapped g r lo hi → lo ≤ a → a + 8 * Z.of_nat (length ps) ≤ hi →
  ∃ m', write_pointers r a ps m = (Ok tt, m') ∧ overwritten g r a (words_bytes ps) m m' ∧ writes r lo hi m m'.
Proof.
  intros Ho Hr Hpr Hlo Hhi Hmp. revert m a Ho. induction ps as [|p ps IH]; intros m a Ho Ha He.
  { exists m. split; [done|]. split; [by apply overwritten_nil|apply rtc_refl]. }
  cbn [length write_pointers] in *.
  destruct (store_run m g r lo hi a (to_le_bytes 8 p) Ho Hr Hpr Hlo Hhi Hmp Ha) as (m1 & E1 & Hw1 & Hs1); [rewrite length_to_le_bytes; lia|].
  rewrite (bind_run _ _ _ _ _ E1). destruct (IH m1 (a + 8)) as (m' & Em & Hw & Hs); [by destruct Hw1|lia|lia|].
  exists m'. split; [done|]. split; [|by eapply rtc_trans].
  apply (overwritten_app g r a (to_le_bytes 8 p) (words_bytes ps) m m1 m' Hw1). by rewrite length_to_le_bytes.
Qed.

(** ** The whole layout *)

(** What a program finds: a stack pointer aligned to 16, the count, a pointer for
    each argument to its bytes and a null byte, a null pointer, and the empty
    environment's null pointer; all inside the stack. *)
Definition argv_layout m r (stack : UserStack) (args : list (list byte)) (sp : Z) : Prop :=
  sp mod 16 = 0 ∧ base stack ≤ sp ∧ ∃ pointers, length pointers = length args ∧
  stored m r sp (words_bytes (Z.of_nat (length args) :: pointers ++ [0; 0])) ∧
  ∀ i a, args !! i = Some a → ∃ p, pointers !! i = Some p ∧ sp + 8 * (Z.of_nat (length args) + 3) ≤ p ∧
    p + Z.of_nat (length a) + 1 ≤ top stack ∧ stored m r p (a ++ [x00]).

Lemma stored_strings m r cursor args i a : stored m r cursor (argv_strings args) → args !! i = Some a →
  ∃ p, argv_pointers cursor args !! i = Some p ∧ cursor ≤ p ∧ p + Z.of_nat (length a) + 1 ≤ cursor + Z.of_nat (length (argv_strings args)) ∧
    stored m r p (a ++ [x00]).
Proof.
  revert cursor i. induction args as [|a' args IH]; intros cursor i Hs Hi; [done|]. rewrite argv_strings_cons in *.
  apply stored_app in Hs as [Hs1 Hs2]. rewrite !length_app in *. cbn [length] in *. destruct i as [|i]; cbn in Hi.
  - injection Hi as ->. exists cursor. split_and!; [done|lia|lia|done].
  - replace (cursor + Z.of_nat (length a' + 1)) with (cursor + Z.of_nat (length a') + 1) in Hs2 by lia.
    destruct (IH _ i Hs2 Hi) as (p & Hp & ? & ? & ?). exists p. split_and!; [done|lia|lia|done].
Qed.

Lemma argv_bounds (b : Z) args : b mod 16 = 0 → USER_REGION_START ≤ b → b + SIZE ≤ USER_REGION_END → args_small args = true →
  let sp := argv_rsp (stack_new b) args in
  sp mod 16 = 0 ∧ b ≤ sp ∧ sp + 8 * (Z.of_nat (length args) + 3) ≤ strings_start (stack_new b) args ∧
  strings_start (stack_new b) args = b + SIZE - Z.of_nat (length (argv_strings args)).
Proof.
  intros Hb Hlo Hhi Hf sp. unfold args_small, MAX_ARGV, MAX_ARGV_BYTES in Hf. open_guards.
  unfold sp, argv_rsp, strings_start. cbn [top stack_new]. unfold SIZE, USER_REGION_END, USER_REGION_START in *.
  set (v := _ - (_ + 3) * 8). assert (b ≤ v - 16 ∧ v < 2 ^ 64) as [Hv1 Hv2] by (subst v; lia). rewrite align16 by lia.
  pose proof (Z.mod_pos_bound v 16 ltac:(done)). split_and!; [|lia|subst v; lia|done].
  pose proof (Z.div_mod v 16). replace (v - v mod 16) with (v / 16 * 16) by lia. apply Z.mod_mul. lia.
Qed.

Definition argv_outcome m g r (b : Z) args (res : res unit Z) m' : Prop :=
  owned m' g ∧ tables m' = tables m ∧ memory m' = memory m ∧ writes r b (b + SIZE) m m' ∧
  (∀ x, user_address x → ¬ (b ≤ x < b + SIZE) → user_byte m' r x = user_byte m r x) ∧
  if args_fit args then res = Ok (argv_rsp (stack_new b) args) ∧ argv_layout m' r (stack_new b) args (argv_rsp (stack_new b) args)
  else res = Err tt.

(** The words behind the strings. *)
Lemma write_words_run m g r (b : Z) args : owned m g → r ∈ roots g → private g r → USER_REGION_START ≤ b → b + SIZE ≤ USER_REGION_END →
  mapped g r b (b + SIZE) → b mod 16 = 0 → args_small args = true →
  let sp := argv_rsp (stack_new b) args in let start := strings_start (stack_new b) args in
  ∃ m', (_ ← ok (write_user_bytes r sp (to_le_bytes 8 (Z.of_nat (length args))));
         _ ← write_pointers r (sp + 8) (argv_pointers start args);
         let argv_null := sp + 8 + Z.of_nat (length args) * 8 in
         _ ← ok (write_user_bytes r argv_null (to_le_bytes 8 0));
         _ ← ok (write_user_bytes r (argv_null + 8) (to_le_bytes 8 0));
         mret sp) m = (Ok sp, m') ∧ overwritten g r sp (words_bytes (argv_words start args)) m m' ∧ writes r b (b + SIZE) m m'.
Proof.
  intros Ho Hr Hpr Hlo Hhi Hmp Hb Hf sp start. destruct (argv_bounds b args Hb Hlo Hhi Hf) as (_ & Hsp & Hend & Hstart).
  fold sp in Hsp, Hend. fold start in Hend, Hstart. pose proof (Zle_0_nat (length (argv_strings args))).
  assert (∀ m a l, owned m g → b ≤ a → a + Z.of_nat (length l) ≤ b + SIZE → ∃ m', ok (write_user_bytes r a l) m = (Ok tt, m') ∧ overwritten g r a l m m' ∧ writes r b (b + SIZE) m m') as Hstore.
  { intros m1 a l Ho1 Ha He. exact (store_run m1 g r b (b + SIZE) a l Ho1 Hr Hpr Hlo Hhi Hmp Ha He). }
  destruct (Hstore m sp (to_le_bytes 8 (Z.of_nat (length args))) Ho) as (m1 & E1 & W1 & S1); [lia|rewrite length_to_le_bytes; lia|].
  rewrite (bind_run _ _ _ _ _ E1).
  destruct (write_pointers_run m1 g r b (b + SIZE) (sp + 8) (argv_pointers start args)) as (m2 & E2 & W2 & S2); try done;
    [by destruct W1|lia|rewrite length_argv_pointers; lia|].
  rewrite (bind_run _ _ _ _ _ E2). cbv zeta.
  destruct (Hstore m2 (sp + 8 + Z.of_nat (length args) * 8) (to_le_bytes 8 0)) as (m3 & E3 & W3 & S3); [by destruct W2|lia|rewrite length_to_le_bytes; lia|].
  rewrite (bind_run _ _ _ _ _ E3).
  destruct (Hstore m3 (sp + 8 + Z.of_nat (length args) * 8 + 8) (to_le_bytes 8 0)) as (m4 & E4 & W4 & S4); [by destruct W3|lia|rewrite length_to_le_bytes; lia|].
  rewrite (bind_run _ _ _ _ _ E4). exists m4. split; [done|]. split; [|do 3 (eapply rtc_trans; [eassumption|]); done].
  unfold argv_words. change (words_bytes (?x :: ?l)) with (to_le_bytes 8 x ++ words_bytes l).
  eapply overwritten_app; [exact W1|]. rewrite length_to_le_bytes, words_bytes_app. eapply overwritten_app; [exact W2|].
  rewrite length_words_bytes, length_argv_pointers. replace (sp + Z.of_nat 8 + Z.of_nat (8 * length args)) with (sp + 8 + Z.of_nat (length args) * 8) by lia.
  change (words_bytes [0; 0]) with (to_le_bytes 8 0 ++ to_le_bytes 8 0). eapply overwritten_app; [exact W3|]. exact W4.
Qed.

(** The strings and the words together are the layout. *)
Lemma argv_written m m1 m2 g r (b : Z) args : USER_REGION_START ≤ b → b + SIZE ≤ USER_REGION_END → b mod 16 = 0 → args_small args = true →
  let sp := argv_rsp (stack_new b) args in let start := strings_start (stack_new b) args in
  overwritten g r start (argv_strings args) m m1 → overwritten g r sp (words_bytes (argv_words start args)) m1 m2 →
  writes r b (b + SIZE) m m1 → writes r b (b + SIZE) m1 m2 →
  owned m2 g ∧ tables m2 = tables m ∧ memory m2 = memory m ∧ writes r b (b + SIZE) m m2 ∧
  (∀ x, user_address x → ¬ (b ≤ x < b + SIZE) → user_byte m2 r x = user_byte m r x) ∧
  Ok sp = Ok (E := unit) sp ∧ argv_layout m2 r (stack_new b) args sp.
Proof.
  intros Hlo Hhi Hb Hf sp start W1 W2 S1 S2. destruct (argv_bounds b args Hb Hlo Hhi Hf) as (Hsp16 & Hsp & Hend & Hstart).
  fold sp in Hsp16, Hsp, Hend. fold start in Hend, Hstart. pose proof (Zle_0_nat (length (argv_strings args))) as Hpos.
  pose proof W1 as (_ & Ht1 & Hm1 & Hb1). pose proof W2 as (Ho2 & Ht2 & Hm2 & Hb2).
  assert (Z.of_nat (length (words_bytes (argv_words start args))) = 8 * (Z.of_nat (length args) + 3)) as Hlen.
  { rewrite length_words_bytes. unfold argv_words. cbn [length]. rewrite length_app, length_argv_pointers. cbn [length]. lia. }
  rewrite Hlen in Hb2. clearbody sp start. split_and!; [done|congruence|congruence|by eapply rtc_trans| |done|].
  - intros x Hx Hn. rewrite Hb2 by done. rewrite bool_decide_eq_false_2 by lia. rewrite Hb1 by done. rewrite bool_decide_eq_false_2 by lia. done.
  - split; [done|]. split; [exact Hsp|]. exists (argv_pointers start args). split; [apply length_argv_pointers|]. split.
    + fold (argv_words start args). eapply overwritten_stored; [exact W2|lia|lia].
    + intros i a Hi. assert (stored m2 r start (argv_strings args)) as Hst.
      { eapply overwritten_keeps; [exact W2|eapply overwritten_stored; [exact W1|lia|lia]|lia|lia|lia]. }
      destruct (stored_strings m2 r start args i a Hst Hi) as (p & Hp & Hp1 & Hp2 & Hp3). exists p. cbn [top stack_new]. split_and!; [done|lia|lia|done].
Qed.

Lemma setup_argv_run m g r (b : Z) args : owned m g → r ∈ roots g → private g r → USER_REGION_START ≤ b → b + SIZE ≤ USER_REGION_END →
  mapped g r b (b + SIZE) → b mod 16 = 0 →
  ∃ res m', setup_argv_stack r (stack_new b) args m = (res, m') ∧ argv_outcome m g r b args res m'.
Proof.
  intros Ho Hr Hpr Hlo Hhi Hmp Hb. unfold setup_argv_stack, require, some. rewrite bind_guard.
  assert (argv_outcome m g r b args (Err tt) m ∨ args_fit args = true) as Href.
  { destruct (args_fit args) eqn:E; [by right|left]. unfold argv_outcome. rewrite E. split_and!; try done. apply rtc_refl. }
  destruct (args_small args) eqn:Esm.
  2: { unfold args_fit in Href. rewrite Esm in Href. destruct Href as [Href|]; [|done]. exists (Err tt), m. split; [|done].
       unfold args_small in Esm. destruct (Nat.leb _ _); [|done]. cbn [andb] in Esm. rewrite bind_lift.
       destruct (string_bytes_from 0 args) as [n|] eqn:Es; cbn [ok_or]; [|done]. apply string_bytes_from_some in Es as ->; [|done].
       rewrite bind_guard, Z.add_0_l, Esm. done. }
  destruct (argv_bounds b args Hb Hlo Hhi Esm) as (Hsp16 & Hsp & Hend & Hstart). pose proof Esm as Esm'. unfold args_small in Esm'.
  apply andb_true_iff in Esm' as [-> Htot]. rewrite bind_lift. pose proof (proj1 (Z.leb_le _ _) Htot) as Htot'.
  assert (Z.of_nat (length (argv_strings args)) < 2 ^ 64) as Hbig by (unfold MAX_ARGV_BYTES in *; lia).
  rewrite string_bytes_from_total by lia. cbn [ok_or]. rewrite Z.add_0_l, bind_guard, Htot, bind_lift.
  assert (0 ≤ b) as Hb0 by (unfold USER_REGION_START in *; lia). cbn [top base stack_new].
  unfold argv_rsp in *. set (start := strings_start (stack_new b) args) in *.
  replace (b + SIZE - Z.of_nat (length (argv_strings args))) with start by done.
  rewrite (proj2 (Z.leb_le _ (b + SIZE))) by lia. cbn [ok_or]. rewrite bind_guard, (proj2 (Z.leb_le b start)) by lia.
  destruct (write_strings_run m g r b (b + SIZE) start args Ho Hr Hpr Hlo Hhi Hmp) as (res & m1 & l & E1 & W1 & S1 & Hl & Hres); [lia|lia|].
  rewrite (bind_run _ _ _ _ _ E1). pose proof W1 as (Ho1 & Ht1 & Hm1 & Hb1).
  assert (∀ x, user_address x → ¬ (b ≤ x < b + SIZE) → user_byte m1 r x = user_byte m r x) as Hout1.
  { intros x Hx Hn. rewrite Hb1, bool_decide_eq_false_2 by (done || lia). done. }
  unfold argv_outcome, args_fit. rewrite Esm. cbn [andb]. destruct (forallb _ args); [destruct Hres as [-> ->]|subst res; by eexists _, _].
  rewrite bind_lift. replace ((1 + Z.of_nat (length args) + 1 + 1) * 8) with ((Z.of_nat (length args) + 3) * 8) by lia.
  rewrite (proj2 (Z.leb_le _ start)) by lia. cbn [ok_or]. rewrite bind_guard, (proj2 (Z.leb_le b _)) by lia.
  destruct (write_words_run m1 g r b args Ho1 Hr Hpr Hlo Hhi Hmp Hb Esm) as (m2 & E2 & W2 & S2).
  eexists _, m2. split; [exact E2|]. by eapply argv_written.
Qed.
End argv.
