(* ===== verification/LoaderImage.v ===== *)
(** * What a loaded program finds (kernel/src/userspace.rs)

    [load_elf] and [load_elf_with_argv] against the contract of the paging module:
    the calls they make, the bytes and permissions of the new address space, and
    what a refused image leaves behind. *)
From stdpp Require Import list gmap.
From S2P Require Import Prelude Config Memory Paging PagingOwn PagingCow AddressSpaces UserBytes Loader LoaderArgv.
From S2P Require Elf.

(** A page-aligned, nonempty range of the user region. *)
Definition page_aligned (start sz : Z) : Prop := user_range start sz ∧ start mod PAGE = 0 ∧ sz mod PAGE = 0 ∧ 0 < sz.
(** The address lies in one of the ranges. *)
Definition in_ranges (rs : list (Z * Z)) (a : Z) : Prop := ∃ start sz, (start, sz) ∈ rs ∧ start ≤ a < start + sz.

Lemma in_ranges_app rs start sz a : in_ranges (rs ++ [(start, sz)]) a ↔ in_ranges rs a ∨ start ≤ a < start + sz.
Proof.
  unfold in_ranges. split.
  - intros (s & z & [Hin|[= -> ->]%list_elem_of_singleton]%elem_of_app & Ha); [left; eauto|by right].
  - intros [(s & z & Hin & Ha)|Ha]; [exists s, z|exists start, sz]; (split; [apply elem_of_app|done]); [by left|right; by apply list_elem_of_singleton].
Qed.

Lemma page_aligned_page start sz a : page_aligned start sz → 0 ≤ a → start ≤ page_of a < start + sz ↔ start ≤ a < start + sz.
Proof.
  intros (_ & Hs & Hz & _) Ha. unfold page_of, PAGE in *.
  pose proof (Z.div_mod start 4096). pose proof (Z.div_mod sz 4096). pose proof (Z.div_mod a 4096).
  pose proof (Z.mod_pos_bound a 4096). lia.
Qed.

Section loading.
Context {PT : Type} `{PageTableLaws PT}.
#[local] Set Default Proof Using "All".
Implicit Types (m : Machine PT) (g : Book) (c : Client).

Definition with_space (root : Z) (c : Client) : Client := mkClient (root :: cl_roots c) (cl_held c) (cl_shared c).

(** Steps of the paging module's clients: a new space, then calls on it. *)
Definition own_step (root : Z) (x y : Machine PT * Client) : Prop := ∃ actor, (actor = None ∨ actor = Some root) ∧ vm_step actor x y.
Definition own_steps root : Machine PT * Client → Machine PT * Client → Prop := rtc (own_step root).

(** The space under construction: its frames are its own, and exactly the ranges
    are mapped. *)
Record loading m c g (root : Z) (rs : list (Z * Z)) : Prop := {
  ld_good : good m (with_space root c) g;
  ld_private : private g root;
  ld_ranges : Forall (λ '(start, sz), page_aligned start sz) rs;
  ld_mapped : ∀ a, user_address a → is_Some (pages g !! (root, page_of a)) ↔ in_ranges rs a }.

Lemma ld_root m c g root rs : loading m c g root rs → root ∈ roots g.
Proof. intros [Hg _ _ _]. eapply (good_in m); [exact Hg|left]. Qed.
Lemma ld_owned m c g root rs : loading m c g root rs → owned m g.
Proof. intros [[] _ _ _]. done. Qed.

(** The same bookkeeping after stores. *)
Lemma ld_stores m c g root rs m' : loading m c g root rs → owned m' g → loading m' c g root rs.
Proof. intros [[] ? ? ?] Ho. by split. Qed.

Lemma ld_range m c g root rs start sz : loading m c g root rs → (start, sz) ∈ rs → page_aligned start sz.
Proof. intros [_ _ Hr _] Hin. rewrite Forall_forall in Hr. exact (Hr _ Hin). Qed.

Lemma aligned_address start sz a : page_aligned start sz → start ≤ a < start + sz → user_address a.
Proof. intros ((? & ? & ?) & _) Ha. unfold user_address. lia. Qed.

Lemma ld_flags m c g root rs a : loading m c g root rs → user_address a → page_flags m root a = snd <$> pages g !! (root, page_of a).
Proof. intros Hl. apply page_flags_page; [by eapply ld_owned|by eapply ld_root]. Qed.

(** Addresses of the ranges are mapped, and only they. *)
Lemma ld_unmapped m c g root rs a : loading m c g root rs → user_address a → page_flags m root a = None ↔ ¬ in_ranges rs a.
Proof.
  intros Hl Ha. rewrite (ld_flags m c g root rs a Hl Ha), fmap_None, <-(ld_mapped _ _ _ _ _ Hl a Ha), <-eq_None_not_Some. done.
Qed.

(** The pages of a range whose addresses have the flags. *)
Lemma flags_pages m c g root rs lo hi fl p f fl' : loading m c g root rs → (∀ a, lo ≤ a < hi → user_address a ∧ page_flags m root a = Some fl) →
  lo ≤ p < hi → pages g !! (root, p) = Some (f, fl') → fl' = fl.
Proof.
  intros Hl Hf Hp Hk. pose proof (ld_owned _ _ _ _ _ Hl) as Ho. destruct (ow_dom _ _ Ho root p _ Hk) as [_ [Hpm Hu]].
  destruct (Hf p Hp) as [Ha Hfl]. rewrite (ld_flags m c g root rs p Hl Ha) in Hfl.
  assert (page_of p = p) as Hpp by (unfold page_of; lia). rewrite Hpp, Hk in Hfl. by injection Hfl.
Qed.

Lemma flags_writable m c g root rs lo hi fl : loading m c g root rs → f_writable fl = true →
  (∀ a, lo ≤ a < hi → user_address a ∧ page_flags m root a = Some fl) → all_writable root lo hi m.
Proof.
  intros Hl Hw Hf p f o fl' Hp Hu Ht. pose proof (ld_owned _ _ _ _ _ Hl) as Ho.
  rewrite (ow_pages _ _ Ho root p (ld_root _ _ _ _ _ Hl) Hu) in Ht.
  destruct (pages g !! (root, p)) as [[f0 fl0]|] eqn:Ek; [|done]. cbn in Ht. injection Ht as _ _ <-.
  by rewrite (flags_pages m c g root rs lo hi fl p f0 fl0).
Qed.

(** ** The calls of the loader *)

Lemma ld_map m c g root rs start sz w x res m' : loading m c g root rs → page_aligned start sz →
  map_user_range_in root start sz w x m = (res, m') →
  res ≠ Panic ∧ own_step root (m, with_space root c) (m', with_space root c) ∧
  ∃ g', loading m' c g' root (if bool_decide (res = Ok tt) then rs ++ [(start, sz)] else rs) ∧
  (∀ a, user_address a → in_ranges rs a → user_byte m' root a = user_byte m root a ∧ page_flags m' root a = page_flags m root a) ∧
  (res = Ok tt → ∀ a, start ≤ a < start + sz → ¬ in_ranges rs a ∧ page_flags m' root a = Some (user_flags w x)).
Proof.
  intros Hl Ha Hm. pose proof Hl as [Hg Hpr Hrs Hmp]. pose proof Hg as [Ho He Hroots Hheld Hsh]. pose proof (ld_root _ _ _ _ _ Hl) as Hr.
  pose proof Ha as (Hu & Hs & Hz & Hpos).
  destruct (map_bytes _ m g root start sz w x res m' Ho He Hr Hpr Hu Hs Hz Hpos Hm) as (g' & Ho' & He' & Hr' & Hh' & Hpr' & Hnp & Hc & Hpg & Hok).
  split; [done|]. split; [exists (Some root); split; [by right|]; eapply st_map; [left|exact Hu|exact Hm]|].
  assert (good m' (with_space root c) g') as Hg' by by eapply good_same.
  assert (root ∈ roots g') as Hr1 by by rewrite Hr'.
  assert (∀ a, user_address a → ¬ (res = Ok tt ∧ start ≤ a < start + sz) → pages g' !! (root, page_of a) = pages g !! (root, page_of a)) as Hout.
  { intros a Hua Hn. by rewrite (Hpg a Hua), bool_decide_eq_false_2. }
  assert (loading m' c g' root (if bool_decide (res = Ok tt) then rs ++ [(start, sz)] else rs)) as Hl'.
  { split; [done|done|case_bool_decide; [|done]; apply Forall_app_2; [done|by apply Forall_singleton]|].
    intros a Hua. case_bool_decide as Hres; [destruct (Hok Hres) as [Hmp' Hn]; rewrite in_ranges_app|].
    - destruct (decide (start ≤ a < start + sz)) as [Hd|Hd]; [split; [by right|by intros _; apply Hmp']|].
      rewrite Hout by naive_solver. rewrite (Hmp a Hua). tauto.
    - rewrite Hout by naive_solver. by apply Hmp. }
  exists g'. split; [exact Hl'|]. split.
  - intros a Hua Hin. apply (Hmp a Hua) in Hin as [[f fl] Hin].
    assert (pages g' !! (root, page_of a) = pages g !! (root, page_of a)) as Heq.
    { apply Hout; [done|]. intros [Hres Hd]. destruct (Hok Hres) as [_ Hn]. rewrite Hn in Hin; done. }
    split; [apply (user_byte_same m g m' g'); try done; by rewrite Heq|].
    by rewrite (page_flags_page m g), (page_flags_page m' g'), Heq by done.
  - intros Hres a Hd. destruct (Hok Hres) as [Hmp' Hn]. pose proof (aligned_address _ _ _ Ha Hd) as Hua. split.
    + rewrite <-(Hmp a Hua), (Hn a Hd). by intros [? ?].
    + rewrite (page_flags_page m' g') by done. rewrite (Hpg a Hua), bool_decide_eq_true_2 by done.
      destruct (Hmp' a Hd) as [[f fl] ->]. done.
Qed.

(** A store to pages that are mapped writable. *)
Lemma flags_mapped m c g root rs lo hi fl : loading m c g root rs →
  (∀ a, lo ≤ a < hi → user_address a ∧ page_flags m root a = Some fl) → mapped g root lo hi.
Proof.
  intros Hl Hf a Ha. destruct (Hf a Ha) as [Hua Hfl]. rewrite (ld_flags m c g root rs a Hl Hua) in Hfl.
  destruct (pages g !! (root, page_of a)); [eauto|done].
Qed.

Lemma ld_zero m c g root rs start sz fl res m' : loading m c g root rs → page_aligned start sz → f_writable fl = true →
  (∀ a, start ≤ a < start + sz → page_flags m root a = Some fl) → zero_user_range_in root start sz m = (res, m') →
  res = Ok tt ∧ own_step root (m, with_space root c) (m', with_space root c) ∧ loading m' c g root rs ∧ tables m' = tables m ∧
  ∀ a, user_address a → user_byte m' root a = if bool_decide (start ≤ a < start + sz) then Some x00 else user_byte m root a.
Proof.
  intros Hl Ha Hw Hf Hm. pose proof (ld_owned _ _ _ _ _ Hl) as Ho. pose proof (ld_root _ _ _ _ _ Hl) as Hr. pose proof Ha as (Hu & Hs & Hz & Hpos).
  assert (∀ a, start ≤ a < start + sz → user_address a ∧ page_flags m root a = Some fl) as Hf'.
  { intros a Hd. split; [by eapply aligned_address|by apply Hf]. }
  destruct (zero_user_range_bytes m g root start sz res m' Ho Hr (ld_private _ _ _ _ _ Hl) Hu Hs Hz Hpos Hm) as (Ht & _ & Hok & Hb).
  rewrite Hok in * by (by eapply flags_mapped). destruct (zero_user_range_spec m g root start sz (Ok tt) m' Ho Hr Hu Hm) as (_ & Ho' & _).
  split; [done|]. split; [|split; [by eapply ld_stores|split; [done|by apply Hb]]].
  exists (Some root). split; [by right|]. eapply st_zero; [left|exact Hu| |exact Hm]. eapply flags_writable; [exact Hl|exact Hw|].
  intros a Hd. apply Hf'. assert (page_of start = start) as Hps by (unfold page_of; lia). lia.
Qed.

Lemma ld_write m c g root rs start sz fl a l res m' : loading m c g root rs → page_aligned start sz → f_writable fl = true →
  (∀ a, start ≤ a < start + sz → page_flags m root a = Some fl) → start ≤ a → a + Z.of_nat (length l) ≤ start + sz →
  write_user_bytes root a l m = (res, m') →
  res = Ok tt ∧ own_step root (m, with_space root c) (m', with_space root c) ∧ loading m' c g root rs ∧ tables m' = tables m ∧
  ∀ x, user_address x → user_byte m' root x = if bool_decide (a ≤ x < a + Z.of_nat (length l)) then l !! Z.to_nat (x - a) else user_byte m root x.
Proof.
  intros Hl Ha Hw Hf Hlo Hhi Hm. pose proof (ld_owned _ _ _ _ _ Hl) as Ho. pose proof (ld_root _ _ _ _ _ Hl) as Hr. pose proof Ha as (Hu & Hs & Hz & Hpos).
  pose proof Hu as (Hu1 & Hu2 & Hu3).
  assert (∀ a, start ≤ a < start + sz → user_address a ∧ page_flags m root a = Some fl) as Hf'.
  { intros x Hd. split; [by eapply aligned_address|by apply Hf]. }
  destruct (write_user_bytes_bytes m g root a l res m' Ho Hr (ld_private _ _ _ _ _ Hl) ltac:(lia) ltac:(lia) Hm) as (Ht & _ & Hok & Hb).
  rewrite Hok in * by (eapply flags_mapped; [exact Hl|]; intros x Hx; apply Hf'; lia).
  destruct (write_user_bytes_spec m g root a l (Ok tt) m' Ho Hr ltac:(lia) ltac:(lia) Hm) as (_ & Ho' & _).
  split; [done|]. split; [|split; [by eapply ld_stores|split; [done|by apply Hb]]].
  exists (Some root). split; [by right|]. eapply (st_write m _ root a l); [left|lia|lia| |exact Hm]. eapply flags_writable; [exact Hl|exact Hw|].
  intros x Hd. apply Hf'. pose proof (page_of_mono start a Hlo). assert (page_of start = start) as Hps by (unfold page_of; lia). lia.
Qed.

Lemma ld_protect m c g root rs start sz w x fl res m' : loading m c g root rs → page_aligned start sz → f_writable fl = true →
  (∀ a, start ≤ a < start + sz → page_flags m root a = Some fl) → protect_user_range_in root start sz w x m = (res, m') →
  res = Ok tt ∧ own_step root (m, with_space root c) (m', with_space root c) ∧ ∃ g', loading m' c g' root rs ∧
  ∀ a, user_address a → user_byte m' root a = user_byte m root a ∧
    page_flags m' root a = if bool_decide (start ≤ a < start + sz) then Some (user_flags w x) else page_flags m root a.
Proof.
  intros Hl Ha Hw Hf Hm. pose proof Hl as [Hg Hpr Hrs Hmp]. pose proof Hg as [Ho He Hroots Hheld Hsh]. pose proof (ld_root _ _ _ _ _ Hl) as Hr.
  pose proof Ha as (Hu & Hs & Hz & Hpos).
  assert (∀ a, start ≤ a < start + sz → user_address a ∧ page_flags m root a = Some fl) as Hf'.
  { intros a Hd. split; [by eapply aligned_address|by apply Hf]. }
  assert (mapped g root start (start + sz)) as Hmap by by eapply flags_mapped.
  destruct (protect_bytes _ m g root start sz w x res m' Ho He Hr Hpr Hu Hs Hz Hpos Hmap) as (-> & g' & Ho' & He' & Hr' & Hh' & Hpr' & Hc & Hpg); [|done|].
  { intros p f fl' _ Hp Hk. by rewrite (flags_pages m c g root rs start (start + sz) fl p f fl'). }
  split; [done|]. split.
  { exists (Some root). split; [by right|]. eapply st_protect; [left|exact Hu| |exact Hm]. intros _. by eapply flags_writable. }
  assert (root ∈ roots g') as Hr1 by by rewrite Hr'.
  exists g'. split.
  - split; [by eapply good_same|done|done|]. intros a Hua. rewrite (Hpg a Hua), <-(Hmp a Hua). case_bool_decide; [|done]. by rewrite fmap_is_Some.
  - intros a Hua. split.
    + apply (user_byte_same m g m' g'); try done. rewrite (Hpg a Hua). case_bool_decide; [|done]. by destruct (pages g !! _) as [[]|].
    + rewrite (page_flags_page m g), (page_flags_page m' g'), (Hpg a Hua) by done. case_bool_decide as Hd; [|done].
      destruct (Hmap a Hd) as [[f fl'] ->]. done.
Qed.

(** Giving the space back: every step meets the contract, and on success the
    clients are those from before. *)
Definition gone_or_kept (root : Z) c c' : Prop := c' = c ∨ c' = with_space root c.

Lemma ld_destroy m c g root rs rgs res m' : loading m c g root rs → rgs ≠ [] → (∀ a, in_ranges rs a → in_ranges rgs a) →
  Forall (λ '(start, sz), page_aligned start sz) rgs →
  destroy_user_address_space root rgs m = (res, m') →
  res ≠ Panic ∧ own_step root (m, with_space root c) (m', if bool_decide (res = Ok tt) then c else with_space root c).
Proof.
  intros Hl Hne Hin Hal Hm. pose proof Hl as [Hg Hpr Hrs Hmp]. pose proof Hg as [Ho He Hroots Hheld Hsh].
  assert (Forall (λ '(s, z), user_range s z ∧ 0 < z) rgs) as Hu.
  { eapply Forall_impl; [exact Hal|]. intros [s z] (? & _ & _ & ?). done. }
  assert (∀ p, user_page p → translate p (tables m root) ≠ None → covered rgs p) as Hcov.
  { intros p Hp Ht. rewrite (ow_pages _ _ Ho root p (ld_root _ _ _ _ _ Hl) Hp) in Ht. destruct Hp as [Hpm Hpu].
    assert (page_of p = p) as Hpp by (unfold page_of; lia).
    assert (in_ranges rs p) as Hinp.
    { apply (Hmp p Hpu). rewrite Hpp. destruct (pages g !! (root, p)); [eauto|done]. }
    by apply Hin. }
  assert (res ≠ Panic) as Hnp.
  { destruct (destroy_spec m g root (cl_roots c) rgs res m' Ho Hroots Hu) as (_ & g' & _ & _ & _ & _ & Hres); [|done|by destruct res].
    intros p [[f fl] Hk]. destruct (ow_dom _ _ Ho root p _ Hk) as [_ Hp]. apply Hcov; [done|].
    by rewrite (ow_pages _ _ Ho root p (ld_root _ _ _ _ _ Hl) Hp), Hk. }
  split; [done|]. exists (Some root). split; [by right|].
  pose proof (st_destroy m (with_space root c) root (cl_roots c) rgs res m' ltac:(done) Hu Hcov Hm) as Hst. cbn in Hst.
  destruct c as [cr ch cs], res as [[]|e|]; cbn in *; exact Hst || done.
Qed.

Lemma ld_discard m c g root res m' : loading m c g root [] → discard_empty_user_address_space root m = (res, m') →
  ∃ b : bool, res = Ok b ∧ own_step root (m, with_space root c) (m', if b then c else with_space root c).
Proof.
  intros Hl Hm. pose proof Hl as [Hg Hpr Hrs Hmp]. pose proof Hg as [Ho He Hroots Hheld Hsh].
  assert (∀ p, pages g !! (root, p) = None) as Hnone.
  { intros p. destruct (pages g !! (root, p)) as [[f fl]|] eqn:Ek; [|done]. exfalso.
    destruct (ow_dom _ _ Ho root p _ Ek) as [_ [Hpm Hpu]]. assert (page_of p = p) as Hpp by (unfold page_of; lia).
    destruct (proj1 (Hmp p Hpu)) as (? & ? & Hin & _); [rewrite Hpp; eauto|by apply not_elem_of_nil in Hin]. }
  destruct (discard_spec m g root (cl_roots c) res m' Ho Hroots Hnone Hm) as (_ & b & _ & -> & _). exists b. split; [done|].
  exists (Some root). split; [by right|].
  assert (∀ p, user_page p → translate p (tables m root) = None) as Hpt.
  { intros p Hp. by rewrite (ow_pages _ _ Ho root p (ld_root _ _ _ _ _ Hl) Hp), Hnone. }
  pose proof (st_discard m (with_space root c) root (cl_roots c) b m' ltac:(done) Hpt Hm) as Hst. cbn in Hst.
  by destruct c as [cr ch cs], b; cbn in *.
Qed.

(** A refused image: the loader gives back what it built. *)
Definition refused root m c (x : Machine PT) : Prop := ∃ c', gone_or_kept root c c' ∧ own_steps root (m, with_space root c) (x, c').

Lemma refused_trans root m c m1 x : own_steps root (m, with_space root c) (m1, with_space root c) → refused root m1 c x → refused root m c x.
Proof. intros Hs (c' & Hc & Hs'). exists c'. split; [done|]. by eapply rtc_trans. Qed.

Lemma release_partial_run m c g root us res m' : loading m c g root (ranges_of us) → release_partial root us m = (res, m') →
  res = Ok tt ∧ refused root m c m'.
Proof.
  intros Hl Hm. unfold release_partial in Hm. destruct us as [|u us].
  - destruct (discard_empty_user_address_space root m) as [r1 m1] eqn:E. destruct (ld_discard m c g root r1 m1 Hl E) as (b & -> & Hst).
    assert (ok (discard_empty_user_address_space root) m = (Ok b, m1)) as E' by (unfold ok; by rewrite E).
    rewrite (bind_run _ _ _ _ _ E') in Hm. injection Hm as <- <-. split; [done|].
    eexists. split; [|apply rtc_once; exact Hst]. destruct b; [by left|by right].
  - set (us' := u :: us) in *. destruct (destroy_user_address_space root (ranges_of us') m) as [r1 m1] eqn:E.
    destruct (ld_destroy m c g root _ (ranges_of us') r1 m1 Hl ltac:(done) ltac:(done) (ld_ranges _ _ _ _ _ Hl) E) as (Hnp & Hst).
    assert (∃ b : bool, succeeds (destroy_user_address_space root (ranges_of us')) m = (Ok b, m1)) as [b E'].
    { unfold succeeds. rewrite E. destruct r1; eauto; done. }
    rewrite (bind_run _ _ _ _ _ E') in Hm. injection Hm as <- <-. split; [done|].
    eexists. split; [|apply rtc_once; exact Hst]. case_bool_decide; [by left|by right].
Qed.

(** ** The segments *)

(** The byte of the image at an address of the segment: the file's, or zero. *)
Definition segment_byte (bytes : list byte) (s : Elf.LoadSegment) (a : Z) : byte :=
  if bool_decide (Elf.virtual_address s ≤ a < Elf.virtual_address s + Elf.file_size s)
  then default x00 (bytes !! Z.to_nat (Elf.file_offset s + (a - Elf.virtual_address s))) else x00.
Definition segment_range (s : Elf.LoadSegment) : Z * Z := (Elf.mapping_start s, Elf.mapping_size s).
Definition segment_loaded m (root : Z) (bytes : list byte) (s : Elf.LoadSegment) : Prop := ∀ a,
  Elf.mapping_start s ≤ a < Elf.mapping_start s + Elf.mapping_size s →
  user_byte m root a = Some (segment_byte bytes s a) ∧ page_flags m root a = Some (user_flags (Elf.writable s) (Elf.executable s)).
Definition segment_mapping (s : Elf.LoadSegment) : UserMapping :=
  mkMapping (Elf.mapping_start s) (Elf.mapping_size s) (Elf.writable s) (Elf.executable s).
(** The test of the loader: between the start of the user region and the guard page. *)
Definition segment_placed (guard : Z) (s : Elf.LoadSegment) : Prop :=
  USER_REGION_START ≤ Elf.mapping_start s ∧ Elf.mapping_start s + Elf.mapping_size s ≤ guard.

Lemma ranges_of_mappings segs : ranges_of (segment_mapping <$> segs) = segment_range <$> segs.
Proof. unfold ranges_of. by rewrite <-list_fmap_compose. Qed.

(** What is mapped elsewhere stays loaded. *)
Lemma segment_kept m m' root bytes s : segment_loaded m root bytes s →
  (∀ a, Elf.mapping_start s ≤ a < Elf.mapping_start s + Elf.mapping_size s →
     user_byte m' root a = user_byte m root a ∧ page_flags m' root a = page_flags m root a) → segment_loaded m' root bytes s.
Proof. intros Hs Hk a Ha. destruct (Hk a Ha) as [-> ->]. by apply Hs. Qed.

Lemma page_flags_tables m m' root a : tables m' = tables m → page_flags m' root a = page_flags m root a.
Proof. intros Ht. unfold page_flags. by rewrite Ht. Qed.

(** Zeroing, copying and protecting a freshly mapped range. *)
Lemma fill_segment m c g root rs bytes s data m1 m2 m3 r1 r2 r3 :
  Elf.segment_ok (Z.of_nat (length bytes)) s → loading m c g root rs → page_aligned (Elf.mapping_start s) (Elf.mapping_size s) →
  (∀ a, Elf.mapping_start s ≤ a < Elf.mapping_start s + Elf.mapping_size s → page_flags m root a = Some (user_flags true false)) →
  get_range bytes (Elf.file_offset s) (Elf.file_offset s + Elf.file_size s) = Some data →
  zero_user_range_in root (Elf.mapping_start s) (Elf.mapping_size s) m = (r1, m1) →
  write_user_bytes root (Elf.virtual_address s) data m1 = (r2, m2) →
  protect_user_range_in root (Elf.mapping_start s) (Elf.mapping_size s) (Elf.writable s) (Elf.executable s) m2 = (r3, m3) →
  r1 = Ok tt ∧ r2 = Ok tt ∧ r3 = Ok tt ∧ own_steps root (m, with_space root c) (m3, with_space root c) ∧
  ∃ g', loading m3 c g' root rs ∧ segment_loaded m3 root bytes s ∧
  ∀ a, user_address a → ¬ (Elf.mapping_start s ≤ a < Elf.mapping_start s + Elf.mapping_size s) →
    user_byte m3 root a = user_byte m root a ∧ page_flags m3 root a = page_flags m root a.
Proof.
  intros [_ (Hfo & [Hfs Hfm] & Hfl) _ _ [Hc1 Hc2]] Hl Hal Hfg Hdata E1 E2 E3.
  set (start := Elf.mapping_start s) in *. set (sz := Elf.mapping_size s) in *. set (va := Elf.virtual_address s) in *.
  assert (Z.of_nat (length data) = Elf.file_size s ∧ ∀ i, (i < length data)%nat → data !! i = bytes !! (Z.to_nat (Elf.file_offset s) + i)%nat) as [Hlen Hby].
  { unfold get_range in Hdata. rewrite (proj2 (Z.leb_le _ _)), (proj2 (Z.leb_le _ _)) in Hdata by lia. cbn [andb] in Hdata. injection Hdata as <-.
    rewrite length_slice by lia. split; [lia|]. intros i Hi. rewrite lookup_slice by lia. done. }
  destruct (ld_zero m c g root rs start sz (user_flags true false) r1 m1 Hl Hal eq_refl Hfg E1) as (-> & S1 & L1 & T1 & B1).
  assert (∀ a, start ≤ a < start + sz → page_flags m1 root a = Some (user_flags true false)) as Hf1.
  { intros a Ha. rewrite (page_flags_tables m m1) by done. auto. }
  destruct (ld_write m1 c g root rs start sz (user_flags true false) va data r2 m2 L1 Hal eq_refl Hf1 ltac:(lia) ltac:(lia) E2) as (-> & S2 & L2 & T2 & B2).
  assert (∀ a, start ≤ a < start + sz → page_flags m2 root a = Some (user_flags true false)) as Hf2.
  { intros a Ha. rewrite (page_flags_tables m1 m2) by done. auto. }
  destruct (ld_protect m2 c g root rs start sz _ _ (user_flags true false) r3 m3 L2 Hal eq_refl Hf2 E3) as (-> & S3 & g' & L3 & B3).
  do 3 (split; [done|]). split.
  { eapply rtc_l; [exact S1|]. eapply rtc_l; [exact S2|]. by apply rtc_once. }
  exists g'. split; [exact L3|]. split.
  - intros a Ha. pose proof (aligned_address _ _ _ Hal Ha) as Hua. destruct (B3 a Hua) as [-> ->]. rewrite bool_decide_eq_true_2 by done.
    split; [|done]. rewrite (B2 a Hua), (B1 a Hua), Hlen. unfold segment_byte. fold va. case_bool_decide as Hd; [|by rewrite bool_decide_eq_true_2].
    rewrite Hby by lia. replace (Z.to_nat (Elf.file_offset s) + Z.to_nat (a - va))%nat with (Z.to_nat (Elf.file_offset s + (a - va))) by lia.
    destruct (lookup_lt_is_Some_2 bytes (Z.to_nat (Elf.file_offset s + (a - va)))) as [x ->]; [lia|done].
  - intros a Hua Hn. destruct (B3 a Hua) as [-> ->]. rewrite (B2 a Hua), (B1 a Hua). rewrite !bool_decide_eq_false_2 by lia.
    split; [done|]. rewrite (page_flags_tables m1 m2), (page_flags_tables m m1) by done. done.
Qed.

Lemma segment_aligned n guard s : Elf.segment_ok n s → guard ≤ USER_REGION_END → segment_placed guard s →
  page_aligned (Elf.mapping_start s) (Elf.mapping_size s).
Proof.
  intros [Hne (_ & [? ?] & _) _ [Hp1 Hp2] [Hc1 Hc2]] Hg [Hs He]. unfold page_aligned, user_range. change Elf.PAGE_SIZE with PAGE in *.
  split_and!; try done; lia.
Qed.

Lemma give_back_run {A} m c g root us (res : res unit A) m' : loading m c g root (ranges_of us) →
  (_ ← release_partial root us; fail tt) m = (res, m') → res = Err tt ∧ refused root m c m'.
Proof.
  intros Hl Hm. destruct (release_partial root us m) as [r1 m1] eqn:E. destruct (release_partial_run m c g root us r1 m1 Hl E) as [-> Href].
  rewrite (bind_run _ _ _ _ _ E) in Hm. injection Hm as <- <-. done.
Qed.

Lemma succeeds_run {A} (f : M (Machine PT) MapRangeError A) m r m' : f m = (r, m') → r ≠ Panic →
  succeeds f m = (Ok (match r with Ok _ => true | _ => false end), m').
Proof. intros E Hnp. unfold succeeds. rewrite E. by destruct r. Qed.

(** What one round of the loop guarantees. *)
Definition segment_outcome root guard bytes segs s m c (res : res unit (list UserMapping)) m' : Prop :=
  match res with
  | Ok ms => ms = segment_mapping <$> (segs ++ [s]) ∧ segment_placed guard s ∧
      own_steps root (m, with_space root c) (m', with_space root c) ∧
      ∃ g', loading m' c g' root (segment_range <$> (segs ++ [s])) ∧ ∀ s', s' ∈ segs ++ [s] → segment_loaded m' root bytes s'
  | Err _ => refused root m c m'
  | Panic => False
  end.

(** The part behind a successful mapping. *)
Lemma load_mapped m c g root guard bytes segs s m1 g1 res m' : Elf.segment_ok (Z.of_nat (length bytes)) s → guard ≤ USER_REGION_END →
  segment_placed guard s → (∀ s', s' ∈ segs → segment_loaded m root bytes s') → loading m c g root (segment_range <$> segs) →
  own_step root (m, with_space root c) (m1, with_space root c) → loading m1 c g1 root ((segment_range <$> segs) ++ [segment_range s]) →
  (∀ a, user_address a → in_ranges (segment_range <$> segs) a → user_byte m1 root a = user_byte m root a ∧ page_flags m1 root a = page_flags m root a) →
  (∀ a, Elf.mapping_start s ≤ a < Elf.mapping_start s + Elf.mapping_size s →
     ¬ in_ranges (segment_range <$> segs) a ∧ page_flags m1 root a = Some (user_flags true false)) →
  (let mappings := (segment_mapping <$> segs) ++ [segment_mapping s] in
   let give_back mappings := (_ ← release_partial root mappings; fail tt) : M (Machine PT) unit (list UserMapping) in
   file_end ← some (checked_add 64 (Elf.file_offset s) (Elf.file_size s));
   memory_end ← some (checked_add 64 (Elf.virtual_address s) (Elf.memory_size s));
   limit ← some (checked_add 64 (Elf.mapping_start s) (Elf.mapping_size s));
   if limit <? memory_end then give_back mappings else
   zeroed ← succeeds (zero_user_range_in root (Elf.mapping_start s) (Elf.mapping_size s));
   if negb zeroed then give_back mappings else
   data ← some (get_range bytes (Elf.file_offset s) file_end);
   written ← succeeds (write_user_bytes root (Elf.virtual_address s) data);
   if negb written then give_back mappings else
   protected ← succeeds (protect_user_range_in root (Elf.mapping_start s) (Elf.mapping_size s) (Elf.writable s) (Elf.executable s));
   if negb protected then give_back mappings else mret mappings) m1 = (res, m') →
  Z.of_nat (length bytes) < 2 ^ 64 → segment_outcome root guard bytes segs s m c res m'.
Proof.
  intros Hok Hg Hpl Hsegs Hl S1 L1 Hold Hnew Hm Hlen. pose proof (segment_aligned _ guard s Hok Hg Hpl) as Hal.
  pose proof Hok as [_ (Hfo & [Hfs Hfm] & Hfl) _ _ [Hc1 Hc2]]. unfold Elf.USER_ADDRESS_LIMIT in *. cbv zeta in Hm. unfold some in Hm.
  rewrite !checked_add_ok in Hm by lia. do 3 (rewrite bind_lift in Hm; cbn [ok_or] in Hm).
  rewrite (proj2 (Z.ltb_ge _ _)) in Hm by lia.
  assert (∃ data, get_range bytes (Elf.file_offset s) (Elf.file_offset s + Elf.file_size s) = Some data) as [data Hdata].
  { unfold get_range. rewrite (proj2 (Z.leb_le _ _)), (proj2 (Z.leb_le _ _)) by lia. eauto. }
  destruct (zero_user_range_in root (Elf.mapping_start s) (Elf.mapping_size s) m1) as [r2 m2] eqn:E2.
  destruct (write_user_bytes root (Elf.virtual_address s) data m2) as [r3 m3] eqn:E3.
  destruct (protect_user_range_in root (Elf.mapping_start s) (Elf.mapping_size s) (Elf.writable s) (Elf.executable s) m3) as [r4 m4] eqn:E4.
  destruct (fill_segment m1 c g1 root _ bytes s data m2 m3 m4 r2 r3 r4 Hok L1 Hal (λ a Ha, proj2 (Hnew a Ha)) Hdata E2 E3 E4)
    as (-> & -> & -> & S2 & g' & L2 & Hls & Hout).
  rewrite (bind_run _ _ _ _ _ (succeeds_run _ _ _ _ E2 ltac:(done))) in Hm. cbn [negb] in Hm.
  rewrite bind_lift, Hdata in Hm. cbn [ok_or] in Hm.
  rewrite (bind_run _ _ _ _ _ (succeeds_run _ _ _ _ E3 ltac:(done))) in Hm. cbn [negb] in Hm.
  rewrite (bind_run _ _ _ _ _ (succeeds_run _ _ _ _ E4 ltac:(done))) in Hm. cbn [negb] in Hm. injection Hm as <- <-.
  split; [by rewrite fmap_app|]. split; [done|]. split; [by eapply rtc_l|]. exists g'. rewrite fmap_app. split; [exact L2|].
  intros s' [Hin|Hin%list_elem_of_singleton]%elem_of_app; [|by subst s']. eapply segment_kept; [by apply Hsegs|]. intros a Ha.
  assert (in_ranges (segment_range <$> segs) a) as Hina.
  { exists (Elf.mapping_start s'), (Elf.mapping_size s'). split; [|done]. apply list_elem_of_fmap. by exists s'. }
  assert (user_address a) as Hua.
  { destruct Hina as (b & z & Hin' & Ha'). eapply aligned_address; [by eapply (ld_range m)|done]. }
  destruct (Hout a Hua) as [-> ->]; [|by apply Hold]. intros Hd. by destruct (Hnew a Hd).
Qed.

Lemma load_segment_spec m c g root guard bytes segs s res m' : Elf.segment_ok (Z.of_nat (length bytes)) s → guard ≤ USER_REGION_END →
  (∀ s', s' ∈ segs → segment_loaded m root bytes s') → loading m c g root (segment_range <$> segs) → Z.of_nat (length bytes) < 2 ^ 64 →
  load_segment root guard bytes (segment_mapping <$> segs) s m = (res, m') → segment_outcome root guard bytes segs s m c res m'.
Proof.
  intros Hok Hg Hsegs Hl Hlen Hm. unfold load_segment in Hm. pose proof Hok as [_ _ _ _ [Hc1 Hc2]]. unfold Elf.USER_ADDRESS_LIMIT in *.
  assert (loading m c g root (ranges_of (segment_mapping <$> segs))) as Hl' by by rewrite ranges_of_mappings.
  assert (some (checked_add 64 (Elf.mapping_start s) (Elf.mapping_size s)) m = (Ok (Elf.mapping_start s + Elf.mapping_size s), m)) as E0.
  { unfold some. by rewrite checked_add_ok by lia. }
  rewrite (bind_run _ _ _ _ _ E0) in Hm.
  destruct (_ || _) eqn:Ew in Hm; [apply (give_back_run m c g) in Hm as [-> Hm]; done|].
  destruct (Nat.eqb _ _) in Hm; [apply (give_back_run m c g) in Hm as [-> Hm]; done|].
  apply orb_false_iff in Ew as [Ew1%Z.ltb_ge Ew2%Z.ltb_ge].
  assert (segment_placed guard s) as Hpl by done. pose proof (segment_aligned _ guard s Hok Hg Hpl) as Hal.
  destruct (map_user_range_in root (Elf.mapping_start s) (Elf.mapping_size s) true false m) as [r1 m1] eqn:E1.
  destruct (ld_map m c g root _ _ _ true false r1 m1 Hl Hal E1) as (Hnp & S1 & g1 & L1 & Hold & Hnew).
  rewrite (bind_run _ _ _ _ _ (succeeds_run _ _ _ _ E1 Hnp)) in Hm. destruct r1 as [[]|e|]; [| |done]; cbn [negb] in Hm.
  - rewrite bool_decide_eq_true_2 in L1 by done. exact (load_mapped m c g root guard bytes segs s m1 g1 res m' Hok Hg Hpl Hsegs Hl S1 L1 Hold (Hnew eq_refl) Hm Hlen).
  - rewrite bool_decide_eq_false_2 in L1 by done. rewrite <-ranges_of_mappings in L1.
    apply (give_back_run m1 c g1) in Hm as [-> Hm]; [|done]. eapply refused_trans; [by apply rtc_once|done].
Qed.

Lemma load_segments_spec guard bytes todo m c g root segs res m' : Forall (Elf.segment_ok (Z.of_nat (length bytes))) todo → guard ≤ USER_REGION_END →
  (∀ s', s' ∈ segs → segment_loaded m root bytes s') → loading m c g root (segment_range <$> segs) → Z.of_nat (length bytes) < 2 ^ 64 →
  load_segments root guard bytes (segment_mapping <$> segs) todo m = (res, m') →
  match res with
  | Ok ms => ms = segment_mapping <$> (segs ++ todo) ∧ Forall (segment_placed guard) todo ∧
      own_steps root (m, with_space root c) (m', with_space root c) ∧
      ∃ g', loading m' c g' root (segment_range <$> (segs ++ todo)) ∧ ∀ s', s' ∈ segs ++ todo → segment_loaded m' root bytes s'
  | Err _ => refused root m c m'
  | Panic => False
  end.
Proof.
  intros Hok Hg. revert m g segs. induction Hok as [|s todo Hs Hok IH]; intros m g segs Hsegs Hl Hlen Hm; cbn [load_segments] in Hm.
  { injection Hm as <- <-. rewrite app_nil_r. split_and!; [done|done|apply rtc_refl|by exists g]. }
  destruct (load_segment root guard bytes (segment_mapping <$> segs) s m) as [r1 m1] eqn:E1.
  pose proof (load_segment_spec m c g root guard bytes segs s r1 m1 Hs Hg Hsegs Hl Hlen E1) as Hone.
  rewrite (bind_run _ _ _ _ _ E1) in Hm. destruct r1 as [ms|e|]; [|by injection Hm as <- <-|done].
  destruct Hone as (-> & Hpl & S1 & g1 & L1 & Hs1). specialize (IH m1 g1 (segs ++ [s]) Hs1 L1 Hlen Hm).
  rewrite <-(app_assoc segs [s] todo) in IH. cbn [app] in IH. destruct res as [ms|e|]; [|by eapply refused_trans|done].
  destruct IH as (-> & Hpl' & S2 & Hrest). split; [done|]. split; [by constructor|]. split; [by eapply rtc_trans|done].
Qed.

(** ** The stack *)

Lemma release_with_stack_run m c g root (b : Z) us res m' : loading m c g root (ranges_of us ++ [(b, SIZE)]) → page_aligned b SIZE →
  release_with_stack root b us m = (res, m') → res = Ok tt ∧ refused root m c m'.
Proof.
  intros Hl Hb Hm. unfold release_with_stack in Hm. destruct (destroy_user_address_space root ((b, SIZE) :: ranges_of us) m) as [r1 m1] eqn:E.
  destruct (ld_destroy m c g root _ ((b, SIZE) :: ranges_of us) r1 m1 Hl ltac:(done)) as (Hnp & Hst); [| |exact E|].
  - intros a [(s & z & Hin & Ha)|Ha]%in_ranges_app; [exists s, z|exists b, SIZE]; (split; [|done]); [by right|left].
  - constructor; [done|]. pose proof (ld_ranges _ _ _ _ _ Hl) as Hrs. by apply Forall_app in Hrs as [Hrs _].
  - rewrite (bind_run _ _ _ _ _ (succeeds_run _ _ _ _ E Hnp)) in Hm. injection Hm as <- <-. split; [done|].
    eexists. split; [|by apply rtc_once]. case_bool_decide; [by left|by right].
Qed.

Lemma ask_unmapped m root start sz : user_range start sz → ∃ b, ask (user_range_is_unmapped_in root start sz) m = (Ok b, m).
Proof.
  intros Hu. pose proof (page_range_user start sz Hu) as Hpr. unfold ask, user_range_is_unmapped_in.
  destruct (page_range start sz) as [ps|e|]; [eauto|eauto|done].
Qed.
Lemma ask_protection m root start sz w x : user_range start sz → ∃ b, ask (user_range_has_protection_in root start sz w x) m = (Ok b, m).
Proof.
  intros Hu. pose proof (page_range_user start sz Hu) as Hpr. unfold ask, user_range_has_protection_in.
  destruct (page_range start sz) as [ps|e|]; [eauto|eauto|done].
Qed.

(** The stack is above every segment, behind an unmapped page. *)
Definition stack_ready m (root : Z) (stack : UserStack) : Prop :=
  (∀ a, base stack ≤ a < top stack → page_flags m root a = Some (user_flags true false)) ∧
  (∀ a, guard_base stack ≤ a < base stack → page_flags m root a = None).

Lemma load_stack_spec m c g root b us rs res m' : loading m c g root rs → rs = ranges_of us → page_aligned b SIZE → USER_REGION_START + GUARD_SIZE ≤ b →
  (∀ start sz, (start, sz) ∈ rs → start + sz ≤ b - GUARD_SIZE) →
  load_stack root (stack_new b) us m = (res, m') →
  match res with
  | Ok _ => own_steps root (m, with_space root c) (m', with_space root c) ∧ stack_ready m' root (stack_new b) ∧
      (∃ g', loading m' c g' root (rs ++ [(b, SIZE)])) ∧
      ∀ a, user_address a → in_ranges rs a → user_byte m' root a = user_byte m root a ∧ page_flags m' root a = page_flags m root a
  | Err _ => refused root m c m'
  | Panic => False
  end.
Proof.
  intros Hl -> Hb Hgb Hbelow Hm. unfold load_stack in Hm. cbn [base guard_base stack_size stack_new] in Hm. pose proof Hb as ((Hu1 & Hu2 & Hu3) & _).
  destruct (map_user_range_in root b SIZE true false m) as [r1 m1] eqn:E1.
  destruct (ld_map m c g root _ _ _ true false r1 m1 Hl Hb E1) as (Hnp & S1 & g1 & L1 & Hold & Hnew).
  rewrite (bind_run _ _ _ _ _ (succeeds_run _ _ _ _ E1 Hnp)) in Hm. destruct r1 as [[]|e|]; [| |done]; cbn [negb] in Hm.
  2: { rewrite bool_decide_eq_false_2 in L1 by done. apply (give_back_run m1 c g1) in Hm as [-> Hm]; [|done].
       eapply refused_trans; [by apply rtc_once|done]. }
  rewrite bool_decide_eq_true_2 in L1 by done. specialize (Hnew eq_refl).
  destruct (zero_user_range_in root b SIZE m1) as [r2 m2] eqn:E2.
  destruct (ld_zero m1 c g1 root _ b SIZE (user_flags true false) r2 m2 L1 Hb eq_refl (λ a Ha, proj2 (Hnew a Ha)) E2) as (-> & S2 & L2 & T2 & B2).
  rewrite (bind_run _ _ _ _ _ (succeeds_run _ _ _ _ E2 ltac:(done))) in Hm. cbn [negb] in Hm.
  destruct (ask_unmapped m2 root (b - GUARD_SIZE) GUARD_SIZE) as [b1 Eb1].
  { unfold user_range, GUARD_SIZE, SIZE in *. lia. }
  rewrite (bind_run _ _ _ _ _ Eb1) in Hm. destruct (ask_protection m2 root b SIZE true false (proj1 Hb)) as [b2 Eb2].
  assert (own_steps root (m, with_space root c) (m2, with_space root c)) as S12 by (eapply rtc_l; [exact S1|by apply rtc_once]).
  assert (∃ b3 : bool, (if b1 then ask (user_range_has_protection_in root b SIZE true false) else mret false) m2 = (Ok b3, m2)) as [b3 Eb3].
  { destruct b1; [exists b2; exact Eb2|by exists false]. }
  rewrite (bind_run _ _ _ _ _ Eb3) in Hm. destruct b3; cbn [negb] in Hm.
  - injection Hm as <- <-. split; [exact S12|]. split; [|split; [by exists g1|]].
    + split; cbn [base top guard_base stack_new]; intros a Ha.
      * rewrite (page_flags_tables m1 m2) by done. by apply Hnew.
      * eapply (ld_unmapped m2); [exact L2|unfold user_address, GUARD_SIZE, SIZE in *; lia|]. rewrite in_ranges_app.
        intros [(s & z & Hin & Hsz)|?]; [|lia]. specialize (Hbelow s z Hin). lia.
    + intros a Hua Hin. destruct (Hold a Hua Hin) as [<- <-]. rewrite (page_flags_tables m1 m2) by done. split; [|done].
      rewrite (B2 a Hua), bool_decide_eq_false_2; [done|]. intros Hd. by destruct (Hnew a Hd).
  - destruct (release_with_stack root b us m2) as [r3 m3] eqn:E3.
    destruct (release_with_stack_run m2 c g1 root b us r3 m3 L2 Hb E3) as [-> Href].
    rewrite (bind_run _ _ _ _ _ E3) in Hm. injection Hm as <- <-. by eapply refused_trans.
Qed.

(** ** The argument vector *)

Lemma writes_steps m m' c g root rs b fl : loading m c g root rs → page_aligned b SIZE → f_writable fl = true →
  (∀ a, b ≤ a < b + SIZE → page_flags m root a = Some fl) → writes root b (b + SIZE) m m' →
  own_steps root (m, with_space root c) (m', with_space root c) ∧ loading m' c g root rs ∧ tables m' = tables m.
Proof.
  intros Hl Hb Hw Hf Hs. induction Hs as [m|m m1 m' (a & l & res & Ha & He & Hm) Hs IH]; [by split; [apply rtc_refl|]|].
  destruct (ld_write m c g root rs b SIZE fl a l res m1 Hl Hb Hw Hf Ha He Hm) as (_ & S1 & L1 & T1 & _).
  destruct (IH L1) as (S2 & L2 & T2).
  - intros x Hx. rewrite (page_flags_tables m m1) by done. by apply Hf.
  - split; [by eapply rtc_l|]. split; [done|congruence].
Qed.

(** A space with a stack, ready for its arguments. *)
Lemma ld_argv m c g root rs b args : loading m c g root (rs ++ [(b, SIZE)]) → page_aligned b SIZE →
  (∀ a, b ≤ a < b + SIZE → page_flags m root a = Some (user_flags true false)) →
  ∃ res m', setup_argv_stack root (stack_new b) args m = (res, m') ∧ argv_outcome m g root b args res m' ∧
    own_steps root (m, with_space root c) (m', with_space root c) ∧ loading m' c g root (rs ++ [(b, SIZE)]).
Proof.
  intros Hl Hb Hf. pose proof Hb as ((Hu1 & Hu2 & Hu3) & Hbm & _).
  destruct (setup_argv_run m g root b args (ld_owned _ _ _ _ _ Hl) (ld_root _ _ _ _ _ Hl) (ld_private _ _ _ _ _ Hl) Hu1 Hu3) as (res & m' & E & Hout).
  - eapply flags_mapped; [exact Hl|]. intros a Ha. split; [by eapply aligned_address|by apply Hf].
  - unfold PAGE in Hbm. pose proof (Z.div_mod b 4096). replace b with (b / 4096 * 256 * 16) by lia. apply Z.mod_mul. lia.
  - pose proof Hout as (_ & _ & _ & Hwr & _). destruct (writes_steps m m' c g root _ b (user_flags true false) Hl Hb eq_refl Hf Hwr) as (Hst & Hl' & _).
    exists res, m'. done.
Qed.

(** ** The whole program *)

Definition STACK_BASE : Z := USER_REGION_START + USER_STACK_OFFSET.
Lemma stack_base_aligned : page_aligned STACK_BASE SIZE.
Proof. split_and!; try done; unfold STACK_BASE, USER_REGION_END, SIZE; lia. Qed.

(** What the program finds: every segment's bytes and permissions, its entry
    executable, a stack of two pages above an unmapped one, and nothing else. *)
Record space_ready m (root : Z) (bytes : list byte) (image : Elf.Image) (stack : UserStack) : Prop := {
  sr_segments : ∀ s, s ∈ Elf.segments image → segment_loaded m root bytes s;
  sr_entry : page_flags m root (Elf.entry image) = Some (user_flags false true);
  sr_stack : stack_ready m root stack;
  sr_only : ∀ a, user_address a → page_flags m root a ≠ None →
    (∃ s, s ∈ Elf.segments image ∧ Elf.mapping_start s ≤ a < Elf.mapping_start s + Elf.mapping_size s) ∨ base stack ≤ a < top stack }.

(** Stores to the stack keep it. *)
Lemma space_ready_argv m m' g root bytes image args res : space_ready m root bytes image (stack_new STACK_BASE) →
  Forall (segment_placed (STACK_BASE - GUARD_SIZE)) (Elf.segments image) →
  argv_outcome m g root STACK_BASE args res m' → space_ready m' root bytes image (stack_new STACK_BASE).
Proof.
  intros [Hs He [Hst1 Hst2] Ho] Hpl (_ & Ht & _ & _ & Hb & _). rewrite Forall_forall in Hpl.
  assert (∀ a, page_flags m' root a = page_flags m root a) as Hf by (intros a; by apply page_flags_tables).
  split.
  - intros s Hin. eapply segment_kept; [by apply Hs|]. intros a Ha. split; [|by apply Hf]. destruct (Hpl s Hin) as [Hp1 Hp2].
    assert (STACK_BASE + SIZE ≤ USER_REGION_END) by (apply stack_base_aligned).
    apply Hb; unfold user_address, GUARD_SIZE, SIZE in *; lia.
  - by rewrite Hf.
  - split; intros a Ha; rewrite Hf; auto.
  - intros a Ha. rewrite Hf. auto.
Qed.

(** What loading guarantees, whatever it returns. *)
Definition load_outcome m c (bytes : list byte) (args : list (list byte)) (res : res unit UserProgram) m' : Prop :=
  match res with
  | Ok p => let root := as_paging (up_space p) in ∃ image, Elf.parse bytes = Ok image ∧
      own_steps root (m, c) (m', with_space root c) ∧ root ∉ cl_roots c ∧
      up_image p = mkUserImage (Elf.entry image) (ui_stack_top (up_image p)) (Z.of_nat (length bytes)) (Elf.segment_count image) ∧
      up_stack p = stack_new STACK_BASE ∧ up_space p = mkSpace root STACK_BASE (segment_mapping <$> Elf.segments image) ∧
      Forall (segment_placed (STACK_BASE - GUARD_SIZE)) (Elf.segments image) ∧
      space_ready m' root bytes image (up_stack p) ∧ argv_layout m' root (up_stack p) args (ui_stack_top (up_image p)) ∧
      ∃ g, loading m' c g root ((segment_range <$> Elf.segments image) ++ [(STACK_BASE, SIZE)])
  | Err _ => ∃ root c', root ∉ cl_roots c ∧ own_steps root (m, c) (m', c') ∧ gone_or_kept root c c'
  | Panic => False
  end.

Lemma create_loading m c g a res m' : good m c g → USER_REGION_START ≤ a < USER_REGION_END → create_user_address_space a m = (res, m') →
  ∃ o, res = Ok o ∧ match o with
  | Some root => root ∉ cl_roots c ∧ own_step root (m, c) (m', with_space root c) ∧ ∃ g', loading m' c g' root []
  | None => ∀ root, own_step root (m, c) (m', c)
  end.
Proof.
  intros Hg Ha Hm. pose proof Hg as [Ho He Hroots Hheld Hsh].
  assert (canonical a = true) as Hcan by (apply canonical_law; unfold USER_REGION_START, USER_REGION_END, USER_REGION_START in *; lia).
  destruct (create_spec m g a res m' Ho (page_of_user a Ha) Hcan Hm) as (Hc & o & g' & -> & Ho' & Hpg & Hh & Hr). exists o. split; [done|].
  destruct o as [root|]; [|intros root; exists None; split; [by left|by eapply st_no_root]]. cbn [app] in Hr.
  assert (root ∉ roots g) as Hfresh. { pose proof (owned_roots_nodup m' g' Ho') as Hnd. rewrite Hr in Hnd. by apply NoDup_cons in Hnd as [? _]. }
  split; [by rewrite <-Hroots|]. split; [exists None; split; [by left|by eapply st_create]|]. exists g'.
  assert (∀ p, pages g' !! (root, p) = None) as Hnone.
  { intros p. rewrite Hpg. destruct (pages g !! (root, p)) eqn:Ek; [|done]. by destruct (ow_dom _ _ Ho root p _ Ek). }
  assert (owners g' = owners g) as Hown by (unfold owners; by rewrite Hpg, Hh).
  split; [split|..]; cbn [with_space cl_roots cl_held cl_shared].
  - done.
  - eapply excl_mono; [exact He|rewrite Hpg; eauto|by rewrite Hown].
  - by rewrite Hr, Hroots.
  - by rewrite Hh.
  - done.
  - intros p f fl Hp. by rewrite Hnone in Hp.
  - constructor.
  - intros x _. rewrite Hnone. split; [by intros [? ?]|]. intros (? & ? & Hin & _). by apply not_elem_of_nil in Hin.
Qed.

Lemma nothing_done m c : ∃ root c', root ∉ cl_roots c ∧ own_steps root (m, c) (m, c') ∧ gone_or_kept root c c'.
Proof.
  exists (fresh (list_to_set (C := gset Z) (cl_roots c))), c. split; [|split; [apply rtc_refl|by left]].
  pose proof (is_fresh (list_to_set (C := gset Z) (cl_roots c))) as Hf. by rewrite elem_of_list_to_set in Hf.
Qed.

Lemma refused_outcome root m m1 c m' : root ∉ cl_roots c → own_step root (m, c) (m1, with_space root c) → refused root m1 c m' →
  ∃ root c', root ∉ cl_roots c ∧ own_steps root (m, c) (m', c') ∧ gone_or_kept root c c'.
Proof. intros Hr S1 (c' & Hc & S2). exists root, c'. split; [done|]. split; [by eapply rtc_l|done]. Qed.

Lemma entry_flags m root bytes image : Elf.image_ok (Z.of_nat (length bytes)) image → (∀ s, s ∈ Elf.segments image → segment_loaded m root bytes s) →
  page_flags m root (Elf.entry image) = Some (user_flags false true).
Proof.
  intros [_ Hsegs _ (s & Hs & Hx & He)] Hl. rewrite Forall_forall in Hsegs. destruct (Hsegs s Hs) as [_ _ Hwx _ [Hc1 Hc2]].
  destruct (Hl s Hs (Elf.entry image)) as [_ ->]; [lia|]. rewrite Hx, andb_true_r in Hwx. by rewrite Hx, Hwx.
Qed.

Lemma placed_below guard segs start sz : Forall (segment_placed guard) segs → (start, sz) ∈ segment_range <$> segs → start + sz ≤ guard.
Proof. intros Hpl (s & [= -> ->] & Hin)%list_elem_of_fmap. rewrite Forall_forall in Hpl. by destruct (Hpl s Hin). Qed.

(** Segments and stack together. *)
Lemma segments_stack_ready m m' c g g' root bytes image : Elf.image_ok (Z.of_nat (length bytes)) image →
  loading m c g root (segment_range <$> Elf.segments image) → (∀ s, s ∈ Elf.segments image → segment_loaded m root bytes s) →
  (∀ a, user_address a → in_ranges (segment_range <$> Elf.segments image) a →
     user_byte m' root a = user_byte m root a ∧ page_flags m' root a = page_flags m root a) →
  loading m' c g' root ((segment_range <$> Elf.segments image) ++ [(STACK_BASE, SIZE)]) → stack_ready m' root (stack_new STACK_BASE) →
  space_ready m' root bytes image (stack_new STACK_BASE).
Proof.
  intros Himg L Hs Hk L' Hst. assert (∀ s, s ∈ Elf.segments image → segment_loaded m' root bytes s) as Hs'.
  { intros s Hin. eapply segment_kept; [by apply Hs|]. intros a Ha.
    assert (in_ranges (segment_range <$> Elf.segments image) a) as Hina.
    { exists (Elf.mapping_start s), (Elf.mapping_size s). split; [|done]. apply list_elem_of_fmap. by exists s. }
    apply Hk; [|done]. destruct Hina as (b & z & Hin' & Ha'). eapply aligned_address; [by eapply (ld_range m)|done]. }
  split; [done|by eapply entry_flags|done|]. intros a Ha Hf.
  rewrite (ld_flags m' c g' root _ a L' Ha) in Hf. assert (is_Some (pages g' !! (root, page_of a))) as Hin by (destruct (pages g' !! _); [eauto|done]).
  apply (ld_mapped _ _ _ _ _ L' a Ha), in_ranges_app in Hin as [(st & z & (s & [= -> ->] & Hin)%list_elem_of_fmap & Hr)|Hr]; [left|by right].
  by exists s.
Qed.

Lemma load_elf_outcome m c g bytes res m' : good m c g → Z.of_nat (length bytes) < 2 ^ 63 →
  (∀ image, Elf.parse bytes = Ok image → user_address (Elf.entry image)) → load_elf bytes m = (res, m') →
  load_outcome m c bytes [Prelude.bytes "a.out"] res m'.
Proof.
  intros Hg Hlen Hentry Hm. unfold load_elf in Hm. rewrite bind_lift in Hm. pose proof (Elf.elf_parse_sound bytes Hlen) as Himg.
  destruct (Elf.parse bytes) as [image|e|] eqn:Ep; cbn [map_err] in Hm; [|injection Hm as <- <-; apply nothing_done|done].
  specialize (Hentry image eq_refl). destruct (create_user_address_space (Elf.entry image) m) as [r1 m1] eqn:E1.
  destruct (create_loading m c g _ r1 m1 Hg Hentry E1) as (o & -> & Ho).
  assert (ok (create_user_address_space (Elf.entry image)) m = (Ok o, m1)) as E1' by (unfold ok; by rewrite E1).
  rewrite (bind_run _ _ _ _ _ E1') in Hm. unfold some in Hm. rewrite bind_lift in Hm. destruct o as [root|]; cbn [ok_or] in Hm.
  2: { injection Hm as <- <-. destruct (nothing_done m c) as (root & c' & Hr & _ & _). exists root, c. split; [done|]. split; [by apply rtc_once|by left]. }
  destruct Ho as (Hfresh & S1 & g1 & L1). rewrite checked_add_ok, bind_lift in Hm by done. cbn [ok_or] in Hm. change (_ + USER_STACK_OFFSET) with STACK_BASE in Hm.
  cbv zeta in Hm. cbn [guard_base stack_new] in Hm. assert (STACK_BASE - GUARD_SIZE ≤ USER_REGION_END) as Hge by done.
  destruct (load_segments root (STACK_BASE - GUARD_SIZE) bytes [] (Elf.segments image) m1) as [r2 m2] eqn:E2.
  pose proof (load_segments_spec _ bytes _ m1 c g1 root [] r2 m2 (Elf.img_segments _ _ Himg) Hge ltac:(by intros ? ?%not_elem_of_nil) L1 ltac:(lia) E2) as H2.
  rewrite (bind_run _ _ _ _ _ E2) in Hm. destruct r2 as [ms|e|]; [|injection Hm as <- <-; by eapply refused_outcome|done].
  destruct H2 as (-> & Hpl & S2 & g2 & L2 & Hs2). cbn [app] in *.
  destruct (load_stack root (stack_new STACK_BASE) (segment_mapping <$> Elf.segments image) m2) as [r3 m3] eqn:E3.
  pose proof (load_stack_spec m2 c g2 root STACK_BASE (segment_mapping <$> Elf.segments image) _ r3 m3 L2 (eq_sym (ranges_of_mappings _)) stack_base_aligned ltac:(done)
    (λ start sz, placed_below _ _ start sz Hpl) E3) as H3.
  rewrite (bind_run _ _ _ _ _ E3) in Hm. assert (own_steps root (m, c) (m2, with_space root c)) as S12 by (by eapply rtc_l).
  destruct r3 as [[]|e|]; [|injection Hm as <- <-|done].
  2: { destruct H3 as (c' & Hc & S3). exists root, c'. split; [done|]. split; [by eapply rtc_trans|done]. }
  destruct H3 as (S3 & Hst & (g3 & L3) & Hk).
  pose proof (segments_stack_ready m2 m3 c g2 g3 root bytes image Himg L2 Hs2 Hk L3 Hst) as Hready.
  destruct (ld_argv m3 c g3 root _ STACK_BASE [Prelude.bytes "a.out"] L3 stack_base_aligned (proj1 Hst)) as (r4 & m4 & E4 & Hout & S4 & L4).
  rewrite (bind_run _ _ _ _ _ E4) in Hm. pose proof Hout as (_ & _ & _ & _ & _ & Hr4). destruct Hr4 as [-> Hlay]. injection Hm as <- <-.
  exists image. split; [done|]. split; [eapply rtc_trans; [exact S12|by eapply rtc_trans]|]. do 5 (split; [done|]).
  split; [by eapply space_ready_argv|]. split; [exact Hlay|by exists g3].
Qed.

Lemma load_elf_with_argv_outcome m c g bytes args res m' : good m c g → Z.of_nat (length bytes) < 2 ^ 63 →
  (∀ image, Elf.parse bytes = Ok image → user_address (Elf.entry image)) → load_elf_with_argv bytes args m = (res, m') →
  load_outcome m c bytes args res m' ∧ (∀ p, res = Ok p → args_fit args = true).
Proof.
  intros Hg Hlen Hentry Hm. unfold load_elf_with_argv in Hm. destruct (load_elf bytes m) as [r1 m1] eqn:E1.
  pose proof (load_elf_outcome m c g bytes r1 m1 Hg Hlen Hentry E1) as Hel. rewrite (bind_run _ _ _ _ _ E1) in Hm.
  destruct r1 as [p|e|]; [|by injection Hm as <- <-|done].
  destruct Hel as (image & Hp & S1 & Hfresh & Hi & Hst & Hsp & Hpl & Hready & _ & g1 & L1). rewrite Hst, Hsp in *. cbn [as_paging] in *.
  pose proof (sr_stack _ _ _ _ _ Hready) as [Hfl _]. cbn [base top stack_new] in Hfl.
  destruct (ld_argv m1 c g1 _ _ STACK_BASE args L1 stack_base_aligned Hfl) as (r2 & m2 & E2 & Hout & S2 & L2).
  rewrite (bind_run _ _ _ _ _ E2) in Hm. pose proof Hout as (_ & _ & _ & _ & _ & Hr2). destruct (args_fit args) eqn:Ef.
  - destruct Hr2 as [-> Hlay]. injection Hm as <- <-. split; [|done]. cbn [load_outcome up_space up_stack up_image ui_stack_top as_paging].
    exists image. split; [done|]. split; [by eapply rtc_trans|]. rewrite Hi. do 5 (split; [done|]). split; [by eapply space_ready_argv|].
    split; [exact Hlay|by exists g1].
  - subst r2. injection Hm as <- <-. split; [|done]. eexists _, _. split; [exact Hfresh|]. split; [by eapply rtc_trans|by right].
Qed.

(** An image that loads lies in the user region, and so does its entry. *)
Lemma load_segment_placed root guard bytes ms s m ms' m' : load_segment root guard bytes ms s m = (Ok ms', m') → segment_placed guard s.
Proof.
  unfold load_segment, some. rewrite bind_lift. destruct (checked_add 64 (Elf.mapping_start s) (Elf.mapping_size s)) as [e|] eqn:Ee; cbn [ok_or]; [|done].
  apply checked_add_Some in Ee as [-> _]. destruct (_ || _) eqn:Ew.
  - intros E. destruct (release_partial root ms m) as [[]]  eqn:Er in E; unfold mbind, M_bind in E; rewrite Er in E; done.
  - intros _. apply orb_false_iff in Ew as [?%Z.ltb_ge ?%Z.ltb_ge]. done.
Qed.

Lemma load_segments_placed root guard bytes todo ms m ms' m' : load_segments root guard bytes ms todo m = (Ok ms', m') → Forall (segment_placed guard) todo.
Proof.
  revert ms m. induction todo as [|s todo IH]; intros ms m Hm; [constructor|]. cbn [load_segments] in Hm.
  destruct (load_segment root guard bytes ms s m) as [r1 m1] eqn:E. rewrite (bind_run _ _ _ _ _ E) in Hm. destruct r1 as [ms1| |]; [|done..].
  constructor; [by eapply load_segment_placed|by eapply IH].
Qed.

Lemma load_elf_entry bytes m p m' : Z.of_nat (length bytes) < 2 ^ 63 → load_elf bytes m = (Ok p, m') →
  ∀ image, Elf.parse bytes = Ok image → user_address (Elf.entry image).
Proof.
  intros Hlen Hm image Hp. unfold load_elf in Hm. rewrite bind_lift, Hp in Hm. cbn [map_err] in Hm.
  pose proof (Elf.elf_parse_sound bytes Hlen) as Himg. rewrite Hp in Himg.
  destruct (ok (create_user_address_space (Elf.entry image)) m) as [[o| |] m1] eqn:E1; rewrite (bind_run _ _ _ _ _ E1) in Hm; [|done..].
  unfold some in Hm. rewrite bind_lift in Hm. destruct o as [root|]; cbn [ok_or] in Hm; [|done].
  rewrite checked_add_ok, bind_lift in Hm by done. cbn [ok_or] in Hm. cbv zeta in Hm.
  set (stack := stack_new (_ + USER_STACK_OFFSET)) in Hm. destruct (load_segments root (guard_base stack) bytes [] (Elf.segments image) m1) as [r2 m2] eqn:E2. rewrite (bind_run _ _ _ _ _ E2) in Hm.
  destruct r2 as [ms| |]; [|done..]. apply load_segments_placed in E2. destruct Himg as [_ Hs _ (s & Hin & _ & He)].
  rewrite Forall_forall in Hs, E2. destruct (Hs s Hin) as [_ _ _ _ [Hc1 Hc2]], (E2 s Hin) as [Hp1 Hp2].
  subst stack. cbn [guard_base stack_new] in Hp2. unfold user_address, USER_STACK_OFFSET, GUARD_SIZE, USER_REGION_END, USER_REGION_START in *.
  lia.
Qed.

(** ** The main theorems *)

Lemma own_steps_any root x y : own_steps root x y → rtc any_step x y.
Proof. induction 1 as [|x y z (actor & _ & Hs) _ IH]; [apply rtc_refl|]. eapply rtc_l; [by exists actor|exact IH]. Qed.

Lemma own_steps_others root r x y : own_steps root x y → r ≠ root → rtc (λ x y, ∃ actor, actor ≠ Some r ∧ vm_step actor x y) x y.
Proof.
  intros Hs Hr. induction Hs as [|x y z (actor & Ha & Hs) _ IH]; [apply rtc_refl|]. eapply rtc_l; [|exact IH]. exists actor. split; [|done].
  destruct Ha as [->| ->]; [done|congruence].
Qed.

Lemma loaded_valid m bytes image p args : Z.of_nat (length bytes) < 2 ^ 63 → Elf.parse bytes = Ok image → user_address (Elf.entry image) →
  up_image p = mkUserImage (Elf.entry image) (ui_stack_top (up_image p)) (Z.of_nat (length bytes)) (Elf.segment_count image) →
  up_stack p = stack_new STACK_BASE → argv_layout m (as_paging (up_space p)) (up_stack p) args (ui_stack_top (up_image p)) → is_valid (up_image p) = true.
Proof.
  intros Hlen Hp [He _] Hi Hst (H16 & Hb & _). pose proof (Elf.elf_parse_sound bytes Hlen) as Himg. rewrite Hp in Himg.
  destruct Himg as [[_ [Hc _]] _ _ _]. rewrite Hst in Hb. cbn [base stack_new] in Hb. rewrite Hi. unfold is_valid. cbn.
  assert (0 < Z.of_nat (length bytes)) as Hpos by (destruct bytes; [done|cbn; lia]).
  assert (0 < STACK_BASE) by done.
  rewrite H16, (proj2 (Z.leb_le _ _) He), (proj2 (Z.eqb_neq _ 0)), (proj2 (Z.eqb_neq (Z.of_nat _) 0)), (proj2 (Nat.eqb_neq _ 0)) by lia. done.
Qed.

(** C10: A program that loads is the file's: every byte of a segment is the file's or
    zero, every page has the permissions its segment asks for, the entry is
    executable and not writable, the kernel's own check accepts the image, the stack is writable and not executable behind
    an unmapped page, nothing else is mapped, and the arguments are on the stack. *)
Theorem loaded_program m0 m c bytes args p m' : booted m0 → rtc any_step (m0, nobody) (m, c) → Z.of_nat (length bytes) < 2 ^ 63 →
  load_elf_with_argv bytes args m = (Ok p, m') →
  let root := as_paging (up_space p) in
  ∃ image, Elf.parse bytes = Ok image ∧ ui_entry (up_image p) = Elf.entry image ∧ is_valid (up_image p) = true ∧
  root ∉ cl_roots c ∧ rtc any_step (m0, nobody) (m', with_space root c) ∧
  space_ready m' root bytes image (up_stack p) ∧ argv_layout m' root (up_stack p) args (ui_stack_top (up_image p)).
Proof.
  intros Hb Hr Hlen Hm root. destruct (reachable_good m0 m c Hb Hr) as [g Hg].
  assert (∀ image, Elf.parse bytes = Ok image → user_address (Elf.entry image)) as Hentry.
  { unfold load_elf_with_argv in Hm. destruct (load_elf bytes m) as [[p1| |] m1] eqn:E1; rewrite (bind_run _ _ _ _ _ E1) in Hm; [|done..].
    by eapply load_elf_entry. }
  destruct (load_elf_with_argv_outcome m c g bytes args (Ok p) m' Hg Hlen Hentry Hm) as [Hout _].
  destruct Hout as (image & Hp & Hs & Hfresh & Hi & Hst & _ & _ & Hready & Hlay & _). exists image. split; [done|]. split; [by rewrite Hi|].
  split; [exact (loaded_valid m' bytes image p args Hlen Hp (Hentry image Hp) Hi Hst Hlay)|]. split; [done|]. split; [eapply rtc_trans; [exact Hr|by eapply own_steps_any]|]. done.
Qed.


(** The argument vector: on the stack of a loaded program, every list of arguments
    within the limits is laid out as the program's start code reads it, and every
    other list is refused; nothing outside the stack changes. *)
Theorem arguments_on_stack m0 m c bytes p m1 args : booted m0 → rtc any_step (m0, nobody) (m, c) → Z.of_nat (length bytes) < 2 ^ 63 →
  load_elf bytes m = (Ok p, m1) →
  let root := as_paging (up_space p) in
  ∃ res m2, setup_argv_stack root (up_stack p) args m1 = (res, m2) ∧
    (∀ a, user_address a → ¬ (base (up_stack p) ≤ a < top (up_stack p)) → user_byte m2 root a = user_byte m1 root a) ∧
    if args_fit args then res = Ok (argv_rsp (up_stack p) args) ∧ argv_layout m2 root (up_stack p) args (argv_rsp (up_stack p) args)
    else res = Err tt.
Proof.
  intros Hb Hr Hlen Hm root. destruct (reachable_good m0 m c Hb Hr) as [g Hg].
  pose proof (load_elf_outcome m c g bytes (Ok p) m1 Hg Hlen (load_elf_entry bytes m p m1 Hlen Hm) Hm) as Hel.
  destruct Hel as (image & _ & _ & _ & _ & Hst & _ & _ & Hready & _ & g1 & L1). rewrite Hst in *.
  destruct (ld_argv m1 c g1 _ _ STACK_BASE args L1 stack_base_aligned (proj1 (sr_stack _ _ _ _ _ Hready))) as (res & m2 & E & Hout & _).
  exists res, m2. destruct Hout as (_ & _ & _ & _ & Hb2 & Hres). done.
Qed.

(** A refused argument leaks the program.  When the image loads and the arguments
    do not fit (one of 256 bytes is enough), [load_elf_with_argv] returns [None]
    with every frame still allocated and the new space still mapped, and its
    caller has no handle to destroy it. *)
Theorem refused_arguments_leak m0 m c bytes args p m1 : booted m0 → rtc any_step (m0, nobody) (m, c) → Z.of_nat (length bytes) < 2 ^ 63 →
  load_elf bytes m = (Ok p, m1) → args_fit args = false →
  let root := as_paging (up_space p) in
  ∃ m', load_elf_with_argv bytes args m = (Err tt, m') ∧ memory m' = memory m1 ∧ tables m' = tables m1 ∧
  root ∉ cl_roots c ∧ page_flags m' root (ui_entry (up_image p)) = Some (user_flags false true) ∧
  ∀ a, base (up_stack p) ≤ a < top (up_stack p) → page_flags m' root a = Some (user_flags true false).
Proof.
  intros Hb Hr Hlen Hm Hargs root. destruct (reachable_good m0 m c Hb Hr) as [g Hg].
  pose proof (load_elf_outcome m c g bytes (Ok p) m1 Hg Hlen (load_elf_entry bytes m p m1 Hlen Hm) Hm) as Hel.
  destruct Hel as (image & _ & _ & Hfresh & Hi & Hst & _ & _ & Hready & _ & g1 & L1). rewrite Hst in *. fold root in Hfresh, Hready.
  destruct (ld_argv m1 c g1 _ _ STACK_BASE args L1 stack_base_aligned (proj1 (sr_stack _ _ _ _ _ Hready))) as (res & m2 & E & Hout & _).
  destruct Hout as (_ & Ht & Hmem & _ & _ & Hres). rewrite Hargs in Hres. subst res. exists m2. split.
  - unfold load_elf_with_argv. rewrite (bind_run _ _ _ _ _ Hm), Hst, (bind_run _ _ _ _ _ E). done.
  - split; [done|]. split; [done|]. split; [done|]. rewrite Hi. cbn [ui_entry]. split.
    + rewrite (page_flags_tables m1 m2) by done. exact (sr_entry _ _ _ _ _ Hready).
    + intros a Ha. rewrite (page_flags_tables m1 m2) by done. by apply (sr_stack _ _ _ _ _ Hready).
Qed.
End loading.

(** ** A program of two segments *)

Module LoaderDemo.
Import FlatTables.

(** Code at the bottom of the user region, and a data page above it whose second
    half is zero-filled. *)
Definition program_header (flags offset address file_size memory_size : Z) : list byte :=
  to_le_bytes 4 1 ++ to_le_bytes 4 flags ++ to_le_bytes 8 offset ++ to_le_bytes 8 address ++ to_le_bytes 8 address
  ++ to_le_bytes 8 file_size ++ to_le_bytes 8 memory_size ++ to_le_bytes 8 8.
Definition demo_elf : list byte :=
  (z_byte <$> [0x7f; 0x45; 0x4c; 0x46; 2; 1; 1]) ++ replicate 9 x00
  ++ to_le_bytes 2 2 ++ to_le_bytes 2 0x3e ++ to_le_bytes 4 1
  ++ to_le_bytes 8 0x4000000000b0 ++ to_le_bytes 8 64 ++ to_le_bytes 8 0 ++ to_le_bytes 4 0
  ++ to_le_bytes 2 64 ++ to_le_bytes 2 56 ++ to_le_bytes 2 2 ++ replicate 6 x00
  ++ program_header 5 176 0x4000000000b0 2 2 ++ program_header 6 178 0x4000000010b2 3 8
  ++ (z_byte <$> [0xeb; 0xfe; 1; 2; 3]).
Definition long_argument : list byte := replicate 256 (z_byte 65).

Abbreviation start := (boot_machine 0x140000).
Abbreviation run args := (load_elf_with_argv demo_elf args start).

Definition demo_space : AddressSpace := mkSpace 0x100000 STACK_BASE
  [mkMapping 0x400000000000 4096 false true; mkMapping 0x400000001000 4096 true false].
Definition demo_program (sp : Z) : UserProgram :=
  mkUserProgram (mkUserImage 0x4000000000b0 sp 181 2) (stack_new STACK_BASE) demo_space.
Definition demo_args : list (list byte) := [[z_byte 65; z_byte 66]; []; [z_byte 67]].

Example demo_loads : fst (run demo_args) = Ok (demo_program 0x4000001f1fc0).
Proof. vm_compute. reflexivity. Qed.
Example demo_plain : fst (load_elf demo_elf start) = Ok (demo_program 0x4000001f1fd0).
Proof. vm_compute. reflexivity. Qed.
Example demo_fit : args_fit demo_args = true ∧ args_fit [long_argument] = false.
Proof. vm_compute. done. Qed.
Example demo_entry : from_option (λ e, bool_decide (user_address e)) true (match Elf.parse demo_elf with Ok im => Some (Elf.entry im) | _ => None end) = true.
Proof. vm_compute. reflexivity. Qed.

Lemma demo_length : Z.of_nat (length demo_elf) < 2 ^ 63.
Proof. vm_compute. reflexivity. Qed.
Lemma start_booted : booted start.
Proof. apply boot_machine_booted; [lia|vm_compute; done]. Qed.
Lemma start_reached : rtc any_step (start, nobody) (start, nobody).
Proof. apply rtc_refl. Qed.
Lemma demo_user image : Elf.parse demo_elf = Ok image → user_address (Elf.entry image).
Proof. intros E. pose proof demo_entry as H. rewrite E in H. cbn in H. by apply bool_decide_eq_true in H. Qed.

Lemma loaded_program_witness : ∃ p m', fst (run demo_args) = Ok p ∧ argv_layout m' (as_paging (up_space p)) (up_stack p) demo_args (ui_stack_top (up_image p)).
Proof.
  exists (demo_program 0x4000001f1fc0), (snd (run demo_args)). split; [exact demo_loads|].
  destruct (loaded_program start start nobody demo_elf demo_args _ _ start_booted start_reached demo_length (paired _ _ demo_loads))
    as (image & _ & _ & _ & _ & _ & _ & Hl). exact Hl.
Defined.


Lemma arguments_on_stack_witness : ∃ m2, argv_layout m2 0x100000 (stack_new STACK_BASE) demo_args (argv_rsp (stack_new STACK_BASE) demo_args).
Proof.
  destruct (arguments_on_stack start start nobody demo_elf _ _ demo_args start_booted start_reached demo_length (paired _ _ demo_plain))
    as (res & m2 & _ & _ & H). exists m2. rewrite (proj1 demo_fit) in H. exact (proj2 H).
Defined.

Lemma refused_arguments_witness : ∃ m', run [long_argument] = (Err tt, m') ∧ memory m' = memory (snd (load_elf demo_elf start)).
Proof.
  destruct (refused_arguments_leak start start nobody demo_elf [long_argument] _ _ start_booted start_reached demo_length (paired _ _ demo_plain) (proj2 demo_fit))
    as (m' & E & Hm & _). exists m'. split; [exact E|exact Hm].
Defined.
End LoaderDemo.
