(* ===== verification/StubElf.v ===== *)
(** * The images of the built-in programs (kernel/src/userspace.rs)

    The kernel installs its own user programs as ELF files it builds from their
    code: [build_stub_elf].  The parser of the loader reads back what it wrote. *)
From stdpp Require Import list.
From S2P Require Import Prelude Config Elf.
From S2P Require PagingOwn.

#[local] Abbreviation USER_REGION_START := PagingOwn.USER_REGION_START.

Definition USER_CODE_SIZE : Z := 4096.
Definition PAYLOAD_OFFSET : nat := 4096.
Definition PROGRAM_HEADER_OFFSET : nat := 64.

(** [write_u16], [write_u32] and [write_u64]: [None] behind the end. *)
Definition write_le (n : nat) (bytes : list byte) (offset : nat) (value : Z) : option (list byte) :=
  if Nat.leb (offset + n) (length bytes) then Some (splice bytes offset (to_le_bytes n value)) else None.
Definition write_u16 := write_le 2.
Definition write_u32 := write_le 4.
Definition write_u64 := write_le 8.

Definition stub_memory_size (stub : list byte) : option Z :=
  (λ n, Z.land n (bnot 64 4095)) <$> checked_add 64 (Z.max (Z.of_nat (length stub)) USER_CODE_SIZE) 4095.

Definition build_stub_elf (stub : list byte) : option (list byte) :=
  total_size ← checked_add 64 (Z.of_nat PAYLOAD_OFFSET) (Z.of_nat (length stub));
  let b := replicate (Z.to_nat total_size) x00 in
  let b := splice b 0 (z_byte <$> [0x7f; 0x45; 0x4c; 0x46]) in
  let b := <[4%nat := z_byte 2]> b in
  let b := <[5%nat := z_byte 1]> b in
  let b := <[6%nat := z_byte 1]> b in
  b ← write_u16 b 16 2;
  b ← write_u16 b 18 0x3e;
  b ← write_u32 b 20 1;
  b ← write_u64 b 24 USER_REGION_START;
  b ← write_u64 b 32 (Z.of_nat PROGRAM_HEADER_OFFSET);
  b ← write_u16 b 52 64;
  b ← write_u16 b 54 56;
  b ← write_u16 b 56 1;
  b ← write_u32 b PROGRAM_HEADER_OFFSET 1;
  b ← write_u32 b (PROGRAM_HEADER_OFFSET + 4) 5;
  b ← write_u64 b (PROGRAM_HEADER_OFFSET + 8) (Z.of_nat PAYLOAD_OFFSET);
  b ← write_u64 b (PROGRAM_HEADER_OFFSET + 16) USER_REGION_START;
  b ← write_u64 b (PROGRAM_HEADER_OFFSET + 32) (Z.of_nat (length stub));
  memory_size ← stub_memory_size stub;
  b ← write_u64 b (PROGRAM_HEADER_OFFSET + 40) memory_size;
  b ← write_u64 b (PROGRAM_HEADER_OFFSET + 48) 4096;
  Some (splice b PAYLOAD_OFFSET stub).

(** ** Disjoint stores *)

Fixpoint stores (b : list byte) (ws : list (nat * list byte)) : list byte :=
  match ws with [] => b | (o, d) :: ws => stores (splice b o d) ws end.
Definition ends_before (o n : nat) (w : nat * list byte) : bool := Nat.leb (o + n) (fst w) || Nat.leb (fst w + length (snd w)) o.
Definition fits (len : nat) (w : nat * list byte) : bool := Nat.leb (fst w + length (snd w)) len.

Lemma length_stores ws : ∀ b, forallb (fits (length b)) ws = true → length (stores b ws) = length b.
Proof.
  induction ws as [|[o d] ws IH]; intros b Hf; [done|]. cbn [forallb stores] in *. apply andb_true_iff in Hf as [Hf1 Hf2].
  unfold fits in Hf1. cbn [fst snd] in Hf1. apply Nat.leb_le in Hf1. rewrite IH; rewrite length_splice by done; done.
Qed.

(** A range no later store reaches. *)
Lemma slice_stores_other ws o n : ∀ b, forallb (fits (length b)) ws = true → forallb (ends_before o n) ws = true →
  slice (stores b ws) o n = slice b o n.
Proof.
  induction ws as [|[o' d] ws IH]; intros b Hf Hd; [done|]. cbn [forallb stores] in *. apply andb_true_iff in Hf as [Hf1 Hf2], Hd as [Hd1 Hd2].
  unfold fits in Hf1. cbn [fst snd] in Hf1. apply Nat.leb_le in Hf1.
  rewrite IH by (done || by rewrite length_splice). apply slice_splice_disjoint; [done|].
  unfold ends_before in Hd1. cbn [fst snd] in Hd1. apply orb_true_iff in Hd1 as [?%Nat.leb_le|?%Nat.leb_le]; lia.
Qed.

Lemma slice_stores b ws1 o d ws2 : forallb (fits (length b)) (ws1 ++ (o, d) :: ws2) = true → forallb (ends_before o (length d)) ws2 = true →
  slice (stores b (ws1 ++ (o, d) :: ws2)) o (length d) = d.
Proof.
  revert b. induction ws1 as [|[o' d'] ws1 IH]; intros b Hf Hd; cbn [app forallb stores] in *; apply andb_true_iff in Hf as [Hf1 Hf2];
    unfold fits in Hf1; cbn [fst snd] in Hf1; apply Nat.leb_le in Hf1.
  - rewrite slice_stores_other by (done || by rewrite length_splice). apply slice_splice_same. done.
  - apply IH; [|done]. by rewrite length_splice.
Qed.

(** ** The file as a list of stores *)

Definition header_stores (size memory_size : Z) : list (nat * list byte) :=
  [(0%nat, z_byte <$> [0x7f; 0x45; 0x4c; 0x46]); (4%nat, [z_byte 2]); (5%nat, [z_byte 1]); (6%nat, [z_byte 1]);
   (16%nat, to_le_bytes 2 2); (18%nat, to_le_bytes 2 0x3e); (20%nat, to_le_bytes 4 1); (24%nat, to_le_bytes 8 USER_REGION_START);
   (32%nat, to_le_bytes 8 64); (52%nat, to_le_bytes 2 64); (54%nat, to_le_bytes 2 56); (56%nat, to_le_bytes 2 1);
   (64%nat, to_le_bytes 4 1); (68%nat, to_le_bytes 4 5); (72%nat, to_le_bytes 8 4096); (80%nat, to_le_bytes 8 USER_REGION_START);
   (96%nat, to_le_bytes 8 size); (104%nat, to_le_bytes 8 memory_size); (112%nat, to_le_bytes 8 4096)].
Definition stub_stores (stub : list byte) (memory_size : Z) : list (nat * list byte) :=
  header_stores (Z.of_nat (length stub)) memory_size ++ [(PAYLOAD_OFFSET, stub)].

Lemma write_le_ok n b o v : (o + n ≤ length b)%nat → write_le n b o v = Some (splice b o (to_le_bytes n v)).
Proof. intros Hl. unfold write_le. by rewrite (proj2 (Nat.leb_le _ _)). Qed.

Lemma insert_splice (b : list byte) o x : (o < length b)%nat → <[o := x]> b = splice b o [x].
Proof.
  intros Ho. apply list_eq. intros i. rewrite lookup_splice by (cbn; lia). cbn [length].
  destruct (decide (i = o)) as [->|Hne]; [rewrite list_lookup_insert_eq by done; rewrite decide_True by lia; by rewrite Nat.sub_diag|].
  rewrite list_lookup_insert_ne by done. by rewrite decide_False by lia.
Qed.

Definition stub_bytes (stub : list byte) (memory_size : Z) : list byte :=
  stores (replicate (PAYLOAD_OFFSET + length stub) x00) (stub_stores stub memory_size).

Lemma long_splice (k : nat) (b : list byte) o d : (k ≤ length b)%nat → Nat.leb (o + length d) k = true → (k ≤ length (splice b o d))%nat.
Proof. intros Hk Hd%Nat.leb_le. by rewrite length_splice by lia. Qed.

(** A step of the builder is a store. *)
Lemma write_le_bind {A} (k : nat) n b o v (f : list byte → option A) : (k ≤ length b)%nat → Nat.leb (o + n) k = true →
  (write_le n b o v ≫= f) = f (splice b o (to_le_bytes n v)).
Proof. intros Hk Hd%Nat.leb_le. rewrite write_le_ok by lia. done. Qed.

#[local] Ltac long := repeat (apply long_splice; [|reflexivity]); assumption.

Lemma build_stub_elf_stores stub ms : Z.of_nat (length stub) ≤ 2 ^ 40 → stub_memory_size stub = Some ms →
  build_stub_elf stub = Some (stub_bytes stub ms).
Proof.
  intros Hl Hms. unfold build_stub_elf. rewrite checked_add_ok by (unfold PAYLOAD_OFFSET; lia). cbn [mbind option_bind]. cbv zeta.
  replace (Z.to_nat (Z.of_nat PAYLOAD_OFFSET + Z.of_nat (length stub))) with (PAYLOAD_OFFSET + length stub)%nat by lia.
  unfold stub_bytes. set (z := replicate _ x00).
  assert (120 ≤ length z)%nat as Hz by (unfold z; rewrite length_replicate; unfold PAYLOAD_OFFSET; lia). clearbody z.
  unfold write_u16, write_u32, write_u64.
  rewrite (insert_splice _ 4), (insert_splice _ 5), (insert_splice _ 6) by (apply (Nat.lt_le_trans _ 120); [apply Nat.ltb_lt; reflexivity|long]).
  do 13 (rewrite (write_le_bind 120); [cbv beta|long|reflexivity]).
  rewrite Hms. cbn [mbind option_bind].
  do 2 (rewrite (write_le_bind 120); [cbv beta|long|reflexivity]). done.
Qed.

(** ** Reading it back *)

Section reading.
Variables (stub : list byte) (ms : Z).
Let file := stub_bytes stub ms.

Lemma stub_fits : forallb (fits (PAYLOAD_OFFSET + length stub)) (stub_stores stub ms) = true.
Proof.
  unfold stub_stores. rewrite forallb_app. apply andb_true_iff. split.
  - apply forallb_forall. intros [o d] Hin. unfold fits. cbn [fst snd]. apply Nat.leb_le.
    assert (forallb (fits 120) (header_stores (Z.of_nat (length stub)) ms) = true) as Hf by reflexivity.
    rewrite forallb_forall in Hf. specialize (Hf _ Hin). unfold fits in Hf. cbn [fst snd] in Hf. apply Nat.leb_le in Hf. unfold PAYLOAD_OFFSET. lia.
  - cbn [forallb]. unfold fits. cbn [fst snd]. by rewrite Nat.leb_refl.
Qed.

Lemma length_file : length file = (PAYLOAD_OFFSET + length stub)%nat.
Proof. unfold file, stub_bytes. rewrite length_stores, length_replicate; [done|]. rewrite length_replicate. apply stub_fits. Qed.

(** The [k]-th store is what a reader finds, when no later one overlaps it. *)
Lemma stub_slice k o d : stub_stores stub ms !! k = Some (o, d) → forallb (ends_before o (length d)) (drop (S k) (stub_stores stub ms)) = true →
  slice file o (length d) = d.
Proof.
  intros Hk Hd. unfold file, stub_bytes. rewrite <-(take_drop_middle _ _ _ Hk). apply slice_stores; [|done].
  rewrite take_drop_middle by done. rewrite length_replicate. apply stub_fits.
Qed.

Lemma stub_read k n off v : stub_stores stub ms !! k = Some (Z.to_nat off, to_le_bytes n v) →
  forallb (ends_before (Z.to_nat off) (length (to_le_bytes n v))) (drop (S k) (stub_stores stub ms)) = true →
  0 ≤ off ∧ off + Z.of_nat n ≤ 120 → v mod 256 ^ Z.of_nat n = v → read_le n file off = Ok v.
Proof.
  intros Hk Hd Hn Hv. unfold read_le, add_or_panic. rewrite (proj2 (Z.ltb_lt _ _)) by lia. cbn [mbind res_bind].
  rewrite length_file, (proj2 (Z.leb_le _ _)) by (unfold PAYLOAD_OFFSET; lia).
  pose proof (stub_slice k _ _ Hk Hd) as Hs. rewrite length_to_le_bytes in Hs. by rewrite Hs, from_to_le_bytes, Hv.
Qed.

Lemma stub_byte k o b : stub_stores stub ms !! k = Some (o, [b]) → forallb (ends_before o 1) (drop (S k) (stub_stores stub ms)) = true → file !! o = Some b.
Proof.
  intros Hk Hd. pose proof (stub_slice k o [b] Hk Hd) as Hs. apply (f_equal (λ l, l !! 0%nat)) in Hs. rewrite lookup_slice in Hs by (cbn; lia).
  by rewrite Nat.add_0_r in Hs.
Qed.

Lemma stub_payload : slice file PAYLOAD_OFFSET (length stub) = stub.
Proof. apply (stub_slice 19); reflexivity. Qed.

Lemma stub_ident : check_ident file = Ok false.
Proof.
  unfold check_ident. assert (take 4 file = z_byte <$> [0x7f; 0x45; 0x4c; 0x46]) as ->.
  { change (take 4 file) with (slice file 0 (length (z_byte <$> [0x7f; 0x45; 0x4c; 0x46]))). apply (stub_slice 0); reflexivity. }
  unfold byte_ne. rewrite (stub_byte 1 4 (z_byte 2)), (stub_byte 2 5 (z_byte 1)), (stub_byte 3 6 (z_byte 1)) by reflexivity.
  unfold read_u16, read_u32.
  rewrite (stub_read 4 2 16 2), (stub_read 5 2 18 0x3e), (stub_read 6 4 20 1), (stub_read 9 2 52 64) by (reflexivity || lia). reflexivity.
Qed.

Hypothesis Hsize : Z.of_nat (length stub) ≤ 2 ^ 40.
Hypothesis Hms : stub_memory_size stub = Some ms.
#[local] Set Default Proof Using "All".

Lemma memory_size_bounds : Z.of_nat (length stub) ≤ ms < Z.of_nat (length stub) + 8192 ∧ 4096 ≤ ms ≤ 2 ^ 41 ∧ ms mod 4096 = 0.
Proof.
  unfold stub_memory_size in Hms. rewrite checked_add_ok in Hms by (unfold USER_CODE_SIZE; lia). cbn [fmap option_fmap option_map] in Hms.
  injection Hms as <-. unfold USER_CODE_SIZE. set (v := Z.max _ 4096 + 4095). assert (8191 ≤ v ≤ 2 ^ 40 + 4095 ∧ Z.of_nat (length stub) + 4095 ≤ v ≤ Z.of_nat (length stub) + 8191) as [Hv1 Hv2] by (subst v; lia).
  change 4095 with (2 ^ 12 - 1). rewrite (land_bnot_ones 64 12) by lia. change (2 ^ 12) with 4096.
  pose proof (Z.mod_pos_bound v 4096 ltac:(done)). pose proof (Z.div_mod v 4096 ltac:(done)) as Hdm.
  split; [lia|]. split; [lia|]. replace (v - v mod 4096) with (v / 4096 * 4096) by lia. apply Z.mod_mul. lia.
Qed.

Definition stub_segment : LoadSegment :=
  mkSegment (Z.of_nat PAYLOAD_OFFSET) (Z.of_nat (length stub)) USER_REGION_START ms USER_REGION_START ms false true.

Lemma align_memory_end : align_up (USER_REGION_START + ms) = Some (USER_REGION_START + ms).
Proof.
  destruct memory_size_bounds as (_ & Hb & Hm). unfold align_up, PAGE_SIZE. change USER_REGION_START with 0x400000000000.
  rewrite checked_add_ok by lia. cbn [fmap option_fmap option_map]. f_equal. rewrite align_down_spec by lia. unfold PAGE_SIZE.
  rewrite (Z.add_mod (_ + ms)), (Z.add_mod 0x400000000000), Hm by lia.
  change ((0x400000000000 mod 4096 + 0) mod 4096) with 0. change ((0 + (4096 - 1) mod 4096) mod 4096) with 4095. lia.
Qed.

Lemma stub_header im : segments im = [] → segment_count im = 0%nat → load_header file 64 im = Ok (Some (stub_segment, USER_REGION_START + ms)).
Proof.
  intros Him Hc. destruct memory_size_bounds as (Hfs & Hb & Hm). unfold load_header, read_u32, read_u64.
  rewrite (stub_read 12 4 64 1) by (reflexivity || lia). cbn [mbind res_bind]. change (negb (1 =? PT_LOAD)) with false. cbv iota. rewrite Hc. cbn [Nat.eqb].
  rewrite (stub_read 13 4 (64 + 4) 5), (stub_read 14 8 (64 + 8) 4096), (stub_read 15 8 (64 + 16) USER_REGION_START),
    (stub_read 16 8 (64 + 32) (Z.of_nat (length stub))), (stub_read 17 8 (64 + 40) ms), (stub_read 18 8 (64 + 48) 4096)
    by (reflexivity || lia || (apply Z.mod_small; lia)).
  cbn [mbind res_bind]. rewrite (proj2 (Z.eqb_neq ms 0)), (proj2 (Z.ltb_ge ms _)) by lia.
  match goal with |- context [if ?b then Err InvalidSegment else _] => change b with false end. cbv iota.
  change USER_REGION_START with 0x400000000000 in *. rewrite (checked_add_ok 64 4096) by lia. cbn [mbind option_bind].
  rewrite length_file, (proj2 (Z.leb_le _ _)) by (unfold PAYLOAD_OFFSET; lia). cbn [ok_or mbind res_bind].
  rewrite checked_add_ok by lia. cbn [mbind option_bind]. rewrite (proj2 (Z.ltb_lt _ _)) by (unfold USER_ADDRESS_LIMIT; lia).
  cbn [ok_or mbind res_bind]. pose proof align_memory_end as Ha. change USER_REGION_START with 0x400000000000 in Ha. rewrite Ha. cbn [ok_or mbind res_bind].
  rewrite align_down_spec by lia. change (0x400000000000 mod PAGE_SIZE) with 0. rewrite Z.sub_0_r. unfold sub_or_panic.
  rewrite (proj2 (Z.ltb_ge _ _)), Him by lia. replace (0x400000000000 + ms - 0x400000000000) with ms by lia. reflexivity.
Qed.

Definition stub_image : Image := mkImage USER_REGION_START (Some stub_segment :: replicate 7 None) 1.

Lemma stub_parses : parse file = Ok stub_image.
Proof.
  destruct memory_size_bounds as (Hfs & Hb & Hm). unfold parse. rewrite length_file.
  rewrite (proj2 (Z.ltb_ge _ _)) by (unfold PAYLOAD_OFFSET, ELF_HEADER_SIZE; lia). rewrite stub_ident. cbn [mbind res_bind]. unfold read_u16, read_u64.
  rewrite (stub_read 7 8 24 USER_REGION_START), (stub_read 8 8 32 64), (stub_read 10 2 54 56), (stub_read 11 2 56 1) by (reflexivity || lia).
  cbn [mbind res_bind]. change ((56 <? PROGRAM_HEADER_SIZE) || (1 =? 0)) with false. cbv iota.
  change (checked_mul 64 56 1) with (Some 56). cbn [ok_or mbind res_bind]. change (checked_add 64 64 56) with (Some 120). cbv iota beta.
  rewrite (proj2 (Z.ltb_ge _ 120)) by (unfold PAYLOAD_OFFSET; lia). change (seq 0 (Z.to_nat 1)) with [0%nat]. cbn [load_headers].
  change (add_or_panic 64 64 (Z.of_nat 0 * 56)) with (Ok (E := ElfError) 64). cbn [mbind res_bind].
  rewrite stub_header by reflexivity. cbn [mbind res_bind load_headers].
  assert (executable stub_segment && (virtual_address stub_segment <=? USER_REGION_START) && (USER_REGION_START <? USER_REGION_START + ms) = true) as Hin.
  { cbn. apply Z.ltb_lt. lia. }
  cbn [entry]. rewrite Hin. reflexivity.
Qed.
End reading.

(** C12: The kernel's own programs survive their file format: for every code up to
    2^40 bytes the builder succeeds, and the parser reads its file back as one
    segment at the start of the user region, not writable, that holds the code. *)
Theorem stub_elf_round_trip stub : Z.of_nat (length stub) ≤ 2 ^ 40 → ∃ file ms image,
  build_stub_elf stub = Some file ∧ parse file = Ok image ∧ entry image = USER_REGION_START ∧
  segments image = [mkSegment (Z.of_nat PAYLOAD_OFFSET) (Z.of_nat (length stub)) USER_REGION_START ms USER_REGION_START ms false true] ∧
  Z.of_nat (length stub) ≤ ms < Z.of_nat (length stub) + 8192 ∧ slice file PAYLOAD_OFFSET (length stub) = stub.
Proof.
  intros Hl. destruct (stub_memory_size stub) as [ms|] eqn:Hms.
  2: { exfalso. unfold stub_memory_size, USER_CODE_SIZE in Hms. by rewrite checked_add_ok in Hms by lia. }
  destruct (memory_size_bounds stub ms Hl Hms) as (H1 & H2 & H3). exists (stub_bytes stub ms), ms, (stub_image stub ms).
  split; [by apply build_stub_elf_stores|]. split; [by apply stub_parses|]. split; [done|]. split; [done|]. split; [exact H1|apply stub_payload].
Qed.

Lemma stub_elf_round_trip_witness : ∃ file image, build_stub_elf (z_byte <$> [0xeb; 0xfe]) = Some file ∧ parse file = Ok image ∧
  slice file PAYLOAD_OFFSET 2 = z_byte <$> [0xeb; 0xfe].
Proof.
  assert (Z.of_nat (length (z_byte <$> [0xeb; 0xfe])) ≤ 2 ^ 40) as Hl by (vm_compute; done).
  destruct (stub_elf_round_trip (z_byte <$> [0xeb; 0xfe]) Hl) as (file & ms & image & H1 & H2 & _ & _ & _ & H3).
  exists file, image. split; [exact H1|]. split; [exact H2|]. exact H3.
Defined.
