(* ===== verification/Sched.v ===== *)
(** * The scheduler (kernel/src/task.rs, the task table and its dispatcher)

    A fixed table of tasks pinned to processors, three priorities with a round
    robin in each, time slices, sleeping and waking, capabilities of tasks.
    Every function takes the scheduler's lock once, so it is one step; [cpu] is
    the processor that runs it ([smp::cpu_index()]).  A function that returns a
    [ContextSwitch] continues in the chosen task. *)
From stdpp Require Import list gmap.
From S2P Require Import Prelude Config Capability.

Definition MAX_CPUS : nat := 4.
Definition TASK_STACK_SIZE : Z := 4096 * 32.
Definition KERNEL_TASK_ID : Z := 0.
Definition IDLE_TASK_ID : Z := 1.

Inductive TaskState := Empty | Ready | Running | Blocked | Sleeping | Dead.
#[export] Instance TaskState_eq_dec : EqDecision TaskState.
Proof. solve_decision. Defined.

Definition LOW : Z := 0.
Definition NORMAL : Z := 1.
Definition HIGH : Z := 2.
Definition quantum (p : Z) : Z := if p =? LOW then 1 else if p =? NORMAL then 2 else if p =? HIGH then 4 else 1.

Record UserTaskContext := mkContext { uc_entry : Z; uc_stack_top : Z; uc_code : Z; uc_data : Z }.

Record TaskControlBlock := mkTask {
  t_id : Z; t_name : string; t_state : TaskState; t_priority : Z; t_stack_pointer : Z; t_capabilities : CapabilitySet;
  t_entry : option Z; t_wake_tick : Z; t_user_context : option UserTaskContext; t_address_space : option Z;
  t_remaining_ticks : Z; t_cpu : nat }.

Definition task_empty : TaskControlBlock :=
  mkTask (2 ^ 64 - 1) "" Empty NORMAL 0 Capability.empty None 0 None None 0 0.

Definition set_state (x : TaskState) (t : TaskControlBlock) : TaskControlBlock :=
  mkTask (t_id t) (t_name t) x (t_priority t) (t_stack_pointer t) (t_capabilities t) (t_entry t) (t_wake_tick t)
    (t_user_context t) (t_address_space t) (t_remaining_ticks t) (t_cpu t).
Definition set_name (x : string) (t : TaskControlBlock) : TaskControlBlock :=
  mkTask (t_id t) x (t_state t) (t_priority t) (t_stack_pointer t) (t_capabilities t) (t_entry t) (t_wake_tick t)
    (t_user_context t) (t_address_space t) (t_remaining_ticks t) (t_cpu t).
Definition set_stack_pointer (x : Z) (t : TaskControlBlock) : TaskControlBlock :=
  mkTask (t_id t) (t_name t) (t_state t) (t_priority t) x (t_capabilities t) (t_entry t) (t_wake_tick t)
    (t_user_context t) (t_address_space t) (t_remaining_ticks t) (t_cpu t).
Definition set_ticks (x : Z) (t : TaskControlBlock) : TaskControlBlock :=
  mkTask (t_id t) (t_name t) (t_state t) (t_priority t) (t_stack_pointer t) (t_capabilities t) (t_entry t) (t_wake_tick t)
    (t_user_context t) (t_address_space t) x (t_cpu t).
Definition set_wake (x : Z) (t : TaskControlBlock) : TaskControlBlock :=
  mkTask (t_id t) (t_name t) (t_state t) (t_priority t) (t_stack_pointer t) (t_capabilities t) (t_entry t) x
    (t_user_context t) (t_address_space t) (t_remaining_ticks t) (t_cpu t).
Definition set_capabilities (x : CapabilitySet) (t : TaskControlBlock) : TaskControlBlock :=
  mkTask (t_id t) (t_name t) (t_state t) (t_priority t) (t_stack_pointer t) x (t_entry t) (t_wake_tick t)
    (t_user_context t) (t_address_space t) (t_remaining_ticks t) (t_cpu t).
Definition set_cpu (x : nat) (t : TaskControlBlock) : TaskControlBlock :=
  mkTask (t_id t) (t_name t) (t_state t) (t_priority t) (t_stack_pointer t) (t_capabilities t) (t_entry t) (t_wake_tick t)
    (t_user_context t) (t_address_space t) (t_remaining_ticks t) x.
Definition set_image (c : UserTaskContext) (space : Z) (t : TaskControlBlock) : TaskControlBlock :=
  mkTask (t_id t) (t_name t) (t_state t) (t_priority t) (t_stack_pointer t) (t_capabilities t) (t_entry t) (t_wake_tick t)
    (Some c) (Some space) (t_remaining_ticks t) (t_cpu t).

Record Scheduler := mkSched {
  tasks : list TaskControlBlock; current_slot : list nat; task_count : Z; context_switches : Z;
  last_selected : list (list nat) }.
Definition scheduler_empty : Scheduler :=
  mkSched (replicate MAX_TASKS task_empty) (replicate MAX_CPUS O) 0 0 (replicate MAX_CPUS [O; O; O]).

Definition with_tasks x s := mkSched x (current_slot s) (task_count s) (context_switches s) (last_selected s).
Definition with_current x s := mkSched (tasks s) x (task_count s) (context_switches s) (last_selected s).
Definition with_count x s := mkSched (tasks s) (current_slot s) x (context_switches s) (last_selected s).
Definition with_switches x s := mkSched (tasks s) (current_slot s) (task_count s) x (last_selected s).
Definition with_last x s := mkSched (tasks s) (current_slot s) (task_count s) (context_switches s) x.
(** A change of one slot; every index the code uses is in range. *)
Definition update (slot : nat) (f : TaskControlBlock → TaskControlBlock) (s : Scheduler) : Scheduler :=
  with_tasks (alter f slot (tasks s)) s.

(** [cs_previous] is the slot whose saved stack pointer [previous_rsp] points at. *)
Record ContextSwitch := mkSwitch {
  cs_privilege_stack : Z; cs_previous : nat; cs_next : nat; cs_next_rsp : Z; cs_next_space : Z }.

Inductive SpawnError := Full.
Inductive CapabilityError := PermissionDenied | UnknownTask.
#[export] Instance CapabilityError_eq_dec : EqDecision CapabilityError.
Proof. solve_decision. Defined.


Section scheduler.
(** Where the linker put the tasks' stacks. *)
Context (stack_start : nat → Z).
Abbreviation Io := (M Scheduler SpawnError).

(** The prepared stack: an entry address and six registers below the aligned top. *)
Definition stack_top (slot : nat) : Z := Z.land (stack_start slot + TASK_STACK_SIZE) (bnot 64 15).
Definition initial_sp (slot : nat) : Z := stack_top slot - 8 - 8 - 6 * 8.
(** The same below a saved user frame of twenty words. *)
Definition fork_sp (slot : nat) : Z := stack_top slot - 20 * 8 - 8 - 6 * 8.

(** [TaskControlBlock::initialize]: the capabilities and the processor stay.
    [kernel_space] is [paging::kernel_address_space()]. *)
Definition initialize_task (slot : nat) (id : Z) (name : string) (entry : Z) (p : Z) (kernel_space : option Z) (t : TaskControlBlock) :=
  mkTask id name Ready p (initial_sp slot) (t_capabilities t) (Some entry) 0 None kernel_space (quantum p) (t_cpu t).

Definition initialize_user (slot : nat) (id : Z) (name : string) (c : UserTaskContext) (space : Z) (t : TaskControlBlock) :=
  mkTask id name Ready NORMAL (initial_sp slot) Capability.userspace None 0 (Some c) (Some space) (quantum NORMAL) (t_cpu t).

Definition initialize_fork (slot : nat) (id : Z) (space : Z) (caps : CapabilitySet) (t : TaskControlBlock) :=
  mkTask id "fork-child" Ready NORMAL (fork_sp slot) caps None 0 None (Some space) (quantum NORMAL) (t_cpu t).

(** [Scheduler::initialize]; [idle] is the address of [idle_task]. *)
Definition kernel_task (kernel_space : option Z) (t : TaskControlBlock) : TaskControlBlock :=
  mkTask KERNEL_TASK_ID "kernel" Running HIGH (t_stack_pointer t) Capability.kernel_bootstrap
    (t_entry t) (t_wake_tick t) (t_user_context t) kernel_space (quantum HIGH) (t_cpu t).
Definition initialize (idle : Z) (kernel_space : option Z) : Io unit :=
  n ← gets task_count;
  if negb (n =? 0) then lift Panic else
  _ ← modify (update 0%nat (kernel_task kernel_space));
  _ ← modify (update 1%nat (initialize_task 1%nat IDLE_TASK_ID "idle" idle LOW kernel_space));
  modify (with_count 2).

(** ** Choosing the next task *)

Definition current (cpu : nat) : Io nat := λ s, (or_panic (current_slot s !! cpu), s).
Definition task_at (slot : nat) : Io TaskControlBlock := λ s, (or_panic (tasks s !! slot), s).

Definition is_dead (cpu : nat) (t : TaskControlBlock) : bool := bool_decide (t_state t = Dead) && Nat.eqb (t_cpu t) cpu.
Definition is_ready (cpu : nat) (t : TaskControlBlock) : bool := bool_decide (t_state t = Ready) && Nat.eqb (t_cpu t) cpu.

Definition reap_dead (cpu : nat) : Io unit :=
  cur ← current cpu;
  modify (λ s, with_tasks (imap (λ slot t, if negb (Nat.eqb slot cur) && is_dead cpu t then task_empty else t) (tasks s)) s).

(** The greatest priority of a ready task. *)
Definition best_priority (cpu : nat) (ts : list TaskControlBlock) : option Z :=
  foldr (λ t o, if is_ready cpu t then Some (match o with Some b => Z.max (t_priority t) b | None => t_priority t end) else o) None ts.

(** The first ready task of that priority behind [start], around the table. *)
Definition ring (start : nat) : list nat := (λ offset, ((start + offset) mod MAX_TASKS)%nat) <$> seq 1 MAX_TASKS.
Definition candidate (cpu : nat) (best : Z) (ts : list TaskControlBlock) (slot : nat) : bool :=
  match ts !! slot with Some t => is_ready cpu t && (t_priority t =? best) | None => false end.
Definition find_next (cpu : nat) (best : Z) (start : nat) (ts : list TaskControlBlock) : option nat :=
  List.find (candidate cpu best ts) (ring start).

Definition demote (t : TaskControlBlock) : TaskControlBlock :=
  if bool_decide (t_state t = Running) then set_state Ready t else t.
Definition promote (t : TaskControlBlock) : TaskControlBlock := set_ticks (quantum (t_priority t)) (set_state Running t).

Definition prepare_switch (cpu : nat) : Io (option ContextSwitch) :=
  _ ← reap_dead cpu;
  ts ← gets tasks;
  match best_priority cpu ts with
  | None => mret None
  | Some best =>
    row ← (λ s, (or_panic (last_selected s !! cpu), s));
    start ← lift (or_panic (row !! Z.to_nat best));
    match find_next cpu best start ts with
    | None => mret None
    | Some next =>
      _ ← modify (λ s, with_last (<[cpu := <[Z.to_nat best := next]> row]> (last_selected s)) s);
      previous ← current cpu;
      _ ← task_at previous;
      _ ← modify (update previous demote);
      _ ← modify (update next promote);
      _ ← modify (λ s, with_current (<[cpu := next]> (current_slot s)) s);
      _ ← modify (λ s, with_switches (wrapping_add 64 (context_switches s) 1) s);
      t ← task_at next;
      mret ((λ space, mkSwitch (stack_top next) previous next (t_stack_pointer t) space) <$> t_address_space t)
    end
  end.

(** [task_bootstrap]: where a task goes when it first runs. *)
Inductive Resume := EnterUser (c : UserTaskContext) | CallEntry (entry : Z).
Definition task_bootstrap (cpu : nat) : Io Resume :=
  slot ← current cpu;
  t ← task_at slot;
  match t_user_context t with
  | Some c => mret (EnterUser c)
  | None => match t_entry t with Some e => mret (CallEntry e) | None => lift Panic end
  end.

(** [wake_sleeping] *)
Definition wake_if_due (now : Z) (t : TaskControlBlock) : TaskControlBlock :=
  if bool_decide (t_state t = Sleeping) && (t_wake_tick t <=? now) then set_wake 0 (set_state Ready t) else t.
Definition wake_sleeping (now : Z) : Io unit := modify (λ s, with_tasks (map (wake_if_due now) (tasks s)) s).
End scheduler.

(** ** The scheduler with the counters around it *)

Record Kernel := mkKernel {
  sched : Scheduler; next_task_id : Z; preemption_requested : list bool; now : Z; file_io_depth : Z }.
Definition with_sched x k := mkKernel x (next_task_id k) (preemption_requested k) (now k) (file_io_depth k).
Definition with_next_id x k := mkKernel (sched k) x (preemption_requested k) (now k) (file_io_depth k).
Definition with_requested x k := mkKernel (sched k) (next_task_id k) x (now k) (file_io_depth k).
Definition with_now x k := mkKernel (sched k) (next_task_id k) (preemption_requested k) x (file_io_depth k).
Definition with_depth x k := mkKernel (sched k) (next_task_id k) (preemption_requested k) (now k) x.

Section kernel.
Context (stack_start : nat → Z) (kernel_space : option Z).
Abbreviation Io := (M Kernel SpawnError).

(** A locked section of the scheduler. *)
Definition locked {A} (f : M Scheduler SpawnError A) : Io A := λ k,
  let '(r, s) := f (sched k) in (r, with_sched s k).

(** [NEXT_TASK_ID.fetch_add(1)] *)
Definition fetch_id : Io Z := λ k, (Ok (next_task_id k), with_next_id (wrapping_add 64 (next_task_id k) 1) k).

(** The assertion that the scheduler is initialized. *)
Definition running : Io unit := n ← gets (λ k, task_count (sched k)); if n =? 0 then lift Panic else mret tt.

Definition is_empty (t : TaskControlBlock) : bool := bool_decide (t_state t = Empty).
Definition empty_slot : Io nat := λ k, (ok_or Full (position is_empty (tasks (sched k))), k).

Definition place (slot : nat) (f : TaskControlBlock → TaskControlBlock) : Io unit :=
  _ ← locked (modify (update slot f)); locked (modify (λ s, with_count (task_count s + 1) s)).

Definition spawn_with_priority (name : string) (entry p : Z) : Io Z :=
  _ ← running;
  slot ← empty_slot;
  id ← fetch_id;
  _ ← place slot (initialize_task stack_start slot id name entry p kernel_space);
  mret id.

Definition spawn (name : string) (entry : Z) : Io Z := spawn_with_priority name entry NORMAL.

Definition yield_now (cpu : nat) : Io (option ContextSwitch) :=
  _ ← running; locked (prepare_switch stack_start cpu).

Definition request (cpu : nat) (b : bool) : Io unit := modify (λ k, with_requested (<[cpu := b]> (preemption_requested k)) k).

Definition requested (cpu : nat) : Io bool := λ k, (or_panic (preemption_requested k !! cpu), k).

(** The timer interrupt; [busy] says that the scheduler's lock is taken. *)
Definition tick (cpu : nat) (busy : bool) : Io unit :=
  if busy then request cpu true else
  t ← gets now;
  _ ← locked (wake_sleeping t);
  slot ← locked (current cpu);
  task ← locked (task_at slot);
  if negb (bool_decide (t_state task = Running)) then mret tt
  else if 1 <? t_remaining_ticks task then locked (modify (update slot (set_ticks (t_remaining_ticks task - 1))))
  else
    _ ← locked (modify (update slot (set_ticks 0)));
    request cpu true.

Definition preempt_from_interrupt (cpu : nat) (busy : bool) : Io (option ContextSwitch) :=
  depth ← gets file_io_depth;
  if Nat.eqb cpu 0 && negb (depth =? 0) then mret None else
  wanted ← requested cpu;
  _ ← request cpu false;
  if negb wanted then mret None
  else if busy then _ ← request cpu true; mret None
  else
    t ← gets now;
    _ ← locked (wake_sleeping t);
    locked (prepare_switch stack_start cpu).

(** [preemption_point]: what it does before the yielding task runs again,
    and the store of the flag after that. *)
Definition preemption_point (cpu : nat) : Io (option (option ContextSwitch)) :=
  wanted ← requested cpu;
  if wanted : bool then sw ← yield_now cpu; mret (Some sw) else mret None.
Definition preemption_point_resumed (cpu : nat) : Io unit := request cpu false.

(** The calls that stop the running task; the kernel's own task may not. *)
Definition not_kernel (cpu : nat) : M Scheduler SpawnError nat :=
  slot ← current cpu;
  t ← task_at slot;
  if t_id t =? KERNEL_TASK_ID then lift Panic else mret slot.

(** [block_current] and [block_current_from_exception] *)
Definition block_current (cpu : nat) : Io (option ContextSwitch) :=
  locked (slot ← not_kernel cpu;
          _ ← modify (update slot (set_state Blocked));
          prepare_switch stack_start cpu).

Definition sleep_current (cpu : nat) (ticks : Z) : Io (option ContextSwitch) :=
  t ← gets now;
  locked (slot ← not_kernel cpu;
          _ ← modify (update slot (λ x, set_state Sleeping (set_wake (saturating_add 64 t (Z.max ticks 1)) x)));
          prepare_switch stack_start cpu).

Definition exit_current_task (cpu : nat) : Io (option ContextSwitch) :=
  locked (slot ← not_kernel cpu;
          _ ← modify (update slot (set_state Dead));
          _ ← modify (λ s, with_count (saturating_sub (task_count s) 1) s);
          prepare_switch stack_start cpu).

Definition is_waiting (id : Z) (t : TaskControlBlock) : bool :=
  (t_id t =? id) && (bool_decide (t_state t = Blocked) || bool_decide (t_state t = Sleeping)).
Definition wake_task (id : Z) : Io bool :=
  o ← gets (λ k, position (is_waiting id) (tasks (sched k)));
  match o with
  | None => mret false
  | Some slot => _ ← locked (modify (update slot (λ t, set_wake 0 (set_state Ready t)))); mret true
  end.

(** [file_fault_io]: what the operation runs between. *)
Definition file_io_enter : Io unit := modify (λ k, with_depth (wrapping_add 64 (file_io_depth k) 1) k).
Definition file_io_leave : Io unit := modify (λ k, with_depth (wrap 64 (file_io_depth k - 1)) k).

(** A processor's bootstrap becomes its idle task. *)
Definition init_ap (cpu : nat) (idle : Z) : Io unit :=
  o ← gets (λ k, position is_empty (tasks (sched k)));
  slot ← lift (or_panic o);
  id ← fetch_id;
  _ ← locked (modify (update slot (λ t, set_state Running (set_cpu cpu (initialize_task stack_start slot id "cpu-idle" idle LOW kernel_space t)))));
  _ ← locked (current cpu);
  _ ← locked (modify (λ s, with_current (<[cpu := slot]> (current_slot s)) s));
  locked (modify (λ s, with_count (task_count s + 1) s)).

(** [online] is [smp::online_count()]. *)
Definition spawn_on (online cpu : nat) (name : string) (entry : Z) : Io Z :=
  if negb (Nat.ltb cpu online) then lift Panic else
  slot ← empty_slot;
  id ← fetch_id;
  _ ← place slot (λ t, set_cpu cpu (initialize_task stack_start slot id name entry NORMAL kernel_space t));
  mret id.

(** The processor with the fewest tasks, the first of them. *)
Definition load (s : Scheduler) (cpu : nat) : nat :=
  count (λ t, Nat.eqb (t_cpu t) cpu && negb (is_empty t || bool_decide (t_state t = Dead))) (tasks s).
Definition least_loaded (s : Scheduler) (online : nat) : nat :=
  foldl (λ best cpu, if Nat.ltb (load s cpu) (load s best) then cpu else best) O (seq 0 online).
Definition spawn_parallel (online : nat) (name : string) (entry : Z) : Io Z :=
  cpu ← gets (λ k, least_loaded (sched k) online);
  spawn_on online cpu name entry.

(** ** What the process calls do to the scheduler *)

(** [spawn_user_process] and [fork_current] reap, choose a slot, draw an
    identity and, when the rest of the process could be set up ([ready]), place
    the task [f slot id]. *)
Definition place_process (cpu : nat) (ready : bool) (f : nat → Z → TaskControlBlock → TaskControlBlock) : Io Z :=
  _ ← locked (reap_dead cpu);
  slot ← empty_slot;
  id ← fetch_id;
  if ready then _ ← place slot (f slot id); mret id else fail Full.
Definition spawn_user_task (cpu : nat) (ready : bool) (name : string) (c : UserTaskContext) (space : Z) : Io Z :=
  place_process cpu ready (λ slot id, initialize_user stack_start slot id name c space).
Definition fork_task (cpu : nat) (ready : bool) (space : Z) : Io Z :=
  slot ← locked (current cpu);
  t ← locked (task_at slot);
  place_process cpu ready (λ slot id, initialize_fork stack_start slot id space (t_capabilities t)).

(** [exec_current] gives the running task a new image. *)
Definition exec_task (cpu : nat) (c : UserTaskContext) (space : Z) : Io unit :=
  slot ← locked (current cpu);
  _ ← locked (task_at slot);
  locked (modify (update slot (set_image c space))).

(** [exit_current_process]: no next task is chosen for a process that has no
    address space left ([owned] false); the processor then halts with its
    interrupts disabled. *)
Definition exit_process_task (cpu : nat) (owned : bool) : Io (option ContextSwitch) :=
  locked (slot ← not_kernel cpu;
          _ ← modify (update slot (λ t, set_name "exited" (set_state Dead t)));
          _ ← modify (λ s, with_count (saturating_sub (task_count s) 1) s);
          if owned then prepare_switch stack_start cpu else mret None).

(** [kill_process] stops the tasks of the killed processes. *)
Definition killable (id : Z) (t : TaskControlBlock) : bool := (t_id t =? id) && negb (bool_decide (t_state t = Dead)).
Definition kill_one (id : Z) (t : TaskControlBlock) : TaskControlBlock :=
  if killable id t then set_name "killed" (set_state Dead t) else t.
Definition kill_loop (ids : list Z) (ts : list TaskControlBlock) : list TaskControlBlock * Z :=
  foldl (λ '(ts, n) id, (map (kill_one id) ts, n + Z.of_nat (count (killable id) ts))) (ts, 0) ids.
Definition kill_tasks (ids : list Z) : Io unit :=
  if bool_decide (ids = []) then mret tt else
  locked (modify (λ s, let '(ts, n) := kill_loop ids (tasks s) in
                       with_count (saturating_sub (task_count s) n) (with_tasks ts s))).

(** [switch_stacks] saves the stack pointer through [previous_rsp]. *)
Definition save_context (slot : nat) (rsp : Z) : Io unit := locked (modify (update slot (set_stack_pointer rsp))).

(** ** Capabilities of tasks *)

Definition is_task (id : Z) (t : TaskControlBlock) : bool := negb (is_empty t) && (t_id t =? id).

(** [grant] and [revoke]; the audit record of the outcome is [AuditLog.record]. *)
Definition change_caps (f : CapabilitySet → CapabilitySet) (allowed : CapabilitySet → bool) (cpu : nat) (target : Z) : Io (option CapabilityError) :=
  _ ← running;
  slot ← locked (current cpu);
  t ← locked (task_at slot);
  if negb (allowed (t_capabilities t)) then mret (Some PermissionDenied) else
  o ← gets (λ k, position (is_task target) (tasks (sched k)));
  match o with
  | None => mret (Some UnknownTask)
  | Some i => _ ← locked (modify (update i (λ t, set_capabilities (f (t_capabilities t)) t))); mret None
  end.

Definition grant (cpu : nat) (target : Z) (c : Capability) : Io (option CapabilityError) :=
  change_caps (λ s, with_cap s c) (λ a, contains a TaskControl && contains a c) cpu target.
Definition revoke (cpu : nat) (target : Z) (c : Capability) : Io (option CapabilityError) :=
  change_caps (λ s, without s c) (λ a, contains a TaskControl) cpu target.

Definition current_task (cpu : nat) : Io TaskControlBlock := slot ← locked (current cpu); locked (task_at slot).
Definition current_has (cpu : nat) (c : Capability) : Io bool :=
  _ ← running; t ← current_task cpu; mret (contains (t_capabilities t) c).
Definition current_task_id (cpu : nat) : Io Z := _ ← running; t ← current_task cpu; mret (t_id t).
Definition current_task_id_if_running (cpu : nat) : Io (option Z) :=
  n ← gets (λ k, task_count (sched k));
  if n =? 0 then mret None else t ← current_task cpu; mret (Some (t_id t)).

Definition task_has (id : Z) (c : Capability) : Io bool :=
  gets (λ k, match List.find (is_task id) (tasks (sched k)) with Some t => contains (t_capabilities t) c | None => false end).

Definition policy_capabilities : list Capability :=
  [Console; TimerRead; TaskInspect; TaskControl; DeviceIo; InterruptControl; MemoryInspect].
Definition capability_policy_valid : Io bool :=
  n ← gets (λ k, task_count (sched k));
  if n <? 2 then lift Panic else
  t0 ← locked (task_at 0%nat);
  t1 ← locked (task_at 1%nat);
  mret (forallb (contains (t_capabilities t0)) policy_capabilities
        && forallb (λ c, negb (contains (t_capabilities t1) c)) policy_capabilities).

Definition capability_delegation_valid (cpu : nat) : Io bool :=
  granted ← grant cpu IDLE_TASK_ID TimerRead;
  observed ← task_has IDLE_TASK_ID TimerRead;
  revoked ← revoke cpu IDLE_TASK_ID TimerRead;
  still ← task_has IDLE_TASK_ID TimerRead;
  mret (bool_decide (granted = None) && observed && bool_decide (revoked = None) && negb still).
End kernel.
