(* ===== verification/SchedSafe.v ===== *)
(** * Safety of the scheduler

    The invariant [sched_ok] of the task table, kept by every scheduler call:
    each started processor runs one task of its own, no table slot (and with it
    no stack) in use is given away, the tasks' identities are distinct and the
    task count is exact.  It implies that a processor that stops its task always
    has another one to run. *)
From stdpp Require Import list gmap.
From S2P Require Import Prelude Config Capability Sched.

(** ** Choosing the next task *)

Lemma best_priority_none_ready cpu ts i t : best_priority cpu ts = None → ts !! i = Some t → is_ready cpu t = false.
Proof.
  revert i. induction ts as [|u ts IH]; [done|]. simpl. destruct (is_ready cpu u) eqn:Hr; [done|].
  intros [|i] Hb ?; simplify_eq/=; eauto.
Qed.

Lemma best_priority_Some cpu ts b : best_priority cpu ts = Some b →
  (∃ i t, ts !! i = Some t ∧ is_ready cpu t = true ∧ t_priority t = b) ∧
  (∀ i t, ts !! i = Some t → is_ready cpu t = true → t_priority t ≤ b).
Proof.
  revert b. induction ts as [|t ts IH]; [done|]. intros b. simpl. destruct (is_ready cpu t) eqn:Hr.
  - destruct (best_priority cpu ts) as [b'|] eqn:Hb; intros [= <-].
    + destruct (IH b' eq_refl) as [(i & u & Hi & Hu & Hp) Hmax]. split.
      * destruct (decide (t_priority t < b')); [exists (S i), u|exists O, t]; (split; [done|split; [done|lia]]).
      * intros [|j] v Hj Hv; simplify_eq/=; [lia|]. pose proof (Hmax j v Hj Hv). lia.
    + split; [exists O, t; done|]. intros [|j] v Hj Hv; simplify_eq/=; [lia|].
      by rewrite (best_priority_none_ready _ _ _ _ Hb Hj) in Hv.
  - intros Hb. destruct (IH b Hb) as [(i & u & Hi & Hu & Hp) Hmax]. split; [by exists (S i), u|].
    intros [|j] v Hj Hv; simpl in Hj; [congruence|exact (Hmax j v Hj Hv)].
Qed.

Lemma best_priority_None cpu ts : best_priority cpu ts = None ↔ ∀ i t, ts !! i = Some t → is_ready cpu t = false.
Proof.
  split.
  - intros ? ? ?. by apply best_priority_none_ready.
  - intros H. destruct (best_priority cpu ts) eqn:Hb; [|done].
    destruct (best_priority_Some _ _ _ Hb) as [(i & t & Hi & Hr & _) _]. by rewrite (H i t Hi) in Hr.
Qed.

(** The distance to [slot] around the table, behind [start]. *)
Definition distance (start slot : nat) : nat := ((slot + MAX_TASKS - 1 - start mod MAX_TASKS) mod MAX_TASKS)%nat.

Lemma distance_lt start slot : (distance start slot < MAX_TASKS)%nat.
Proof. apply Nat.mod_upper_bound. unfold MAX_TASKS. lia. Qed.

Lemma mod_32 (x : nat) : ∃ q, x = (32 * q + x mod 32)%nat ∧ (x mod 32 < 32)%nat.
Proof. exists (x / 32)%nat. split; [apply Nat.div_mod_eq|]. apply Nat.mod_upper_bound. lia. Qed.

(** The search meets the slots in the order of their distance. *)
Lemma ring_lookup start k : (k < MAX_TASKS)%nat → ring start !! k = Some ((start + S k) mod MAX_TASKS)%nat.
Proof. intros Hk. unfold ring. rewrite list_lookup_fmap, lookup_seq_lt by done. done. Qed.
Lemma ring_at_distance start slot : (slot < MAX_TASKS)%nat → ring start !! distance start slot = Some slot.
Proof.
  intros Hs. rewrite ring_lookup by apply distance_lt. f_equal. unfold distance, MAX_TASKS in *.
  destruct (mod_32 start) as (q & Hq & ?). destruct (mod_32 (slot + 32 - 1 - start mod 32)) as (q2 & ? & ?).
  assert (start + S ((slot + 32 - 1 - start mod 32) mod 32) = slot + (q + 1 - q2) * 32)%nat as -> by lia.
  rewrite Nat.Div0.mod_add. apply Nat.mod_small. lia.
Qed.

Lemma find_first {A} (f : A → bool) l x j y : List.find f l = Some x → l !! j = Some y → f y = true →
  ∃ k, (k ≤ j)%nat ∧ l !! k = Some x.
Proof.
  revert j. induction l as [|a l IH]; intros j Hf Hj Hy; simplify_eq/=. destruct (f a) eqn:Ha.
  - injection Hf as ->. exists O. split; [lia|done].
  - destruct j as [|j]; simplify_eq/=; [congruence|]. destruct (IH j Hf Hj Hy) as (k & ? & ?). exists (S k). split; [lia|done].
Qed.

Lemma distance_of_ring start k slot : (k < MAX_TASKS)%nat → ring start !! k = Some slot → distance start slot = k.
Proof.
  intros Hk. rewrite ring_lookup by done. intros H%Some_inj. rewrite <-H. clear H. unfold distance, MAX_TASKS in *.
  destruct (mod_32 start) as (q & ? & ?). destruct (mod_32 (start + S k)) as (q2 & ? & ?).
  destruct (decide (start mod 32 + S k < 32)%nat).
  - assert ((start + S k) mod 32 = start mod 32 + S k)%nat as -> by lia.
    assert (start mod 32 + S k + 32 - 1 - start mod 32 = k + 1 * 32)%nat as -> by lia.
    rewrite Nat.Div0.mod_add. apply Nat.mod_small. lia.
  - assert ((start + S k) mod 32 = start mod 32 + S k - 32)%nat as -> by lia.
    assert (start mod 32 + S k - 32 + 32 - 1 - start mod 32 = k)%nat as -> by lia. apply Nat.mod_small. lia.
Qed.

(** The chosen task is the nearest ready one of the priority. *)
Lemma find_next_spec cpu b start ts slot : (slot < MAX_TASKS)%nat → candidate cpu b ts slot = true →
  ∃ next, find_next cpu b start ts = Some next ∧ (next < MAX_TASKS)%nat ∧ candidate cpu b ts next = true ∧
    (distance start next ≤ distance start slot)%nat.
Proof.
  intros Hs Hc. unfold find_next.
  destruct (List.find (candidate cpu b ts) (ring start)) as [next|] eqn:Hf.
  - exists next. split; [done|].
    pose proof (List.find_some _ _ Hf) as [Hin Hn].
    destruct (find_first _ _ _ _ _ Hf (ring_at_distance start slot Hs) Hc) as (k & Hk & Hkn).
    pose proof (distance_lt start slot).
    assert (next < MAX_TASKS)%nat.
    { rewrite ring_lookup in Hkn by lia. apply Some_inj in Hkn. rewrite <-Hkn. apply Nat.mod_upper_bound. unfold MAX_TASKS. lia. }
    split; [done|]. split; [done|]. rewrite (distance_of_ring start k next) by (done || lia). done.
  - exfalso. pose proof (List.find_none _ _ Hf slot) as Hn.
    rewrite Hc in Hn. enough (true = false) by done. apply Hn, list_elem_of_In, list_elem_of_lookup.
    eexists. by apply ring_at_distance.
Qed.

(** A dispatch of another task brings [slot] nearer. *)
Lemma distance_decreases start next slot : (slot < MAX_TASKS)%nat → (next < MAX_TASKS)%nat → next ≠ slot →
  (distance start next ≤ distance start slot)%nat → (distance next slot < distance start slot)%nat.
Proof.
  unfold distance, MAX_TASKS. intros Hs Hn Hne Hle.
  destruct (mod_32 start) as (q & ? & ?). rewrite (Nat.mod_small next 32) by done.
  set (a := (start mod 32)%nat) in *. clearbody a.
  destruct (mod_32 (slot + 32 - 1 - a)) as (q1 & ? & ?), (mod_32 (next + 32 - 1 - a)) as (q2 & ? & ?),
    (mod_32 (slot + 32 - 1 - next)) as (q3 & ? & ?). lia.
Qed.

(** ** The invariant *)

Section invariant.
Context (idle : Z).
Implicit Types (s : Scheduler) (t u : TaskControlBlock).

(** The tasks that never stop: the kernel's own and the processors' idle tasks. *)
Definition permanent t : Prop := t_id t = KERNEL_TASK_ID ∨ t_entry t = Some idle.
Definition runnable t : Prop := t_state t = Ready ∨ t_state t = Running.

Definition task_ok (next : Z) t : Prop :=
  (t_state t = Empty ∧ t = task_empty) ∨
  (t_state t ≠ Empty ∧ 0 ≤ t_id t < next ∧ 0 ≤ t_priority t ≤ 2 ∧ is_Some (t_address_space t) ∧ (t_cpu t < MAX_CPUS)%nat).

(** Processor [c] runs the task of slot [i]. *)
Definition runs s (c i : nat) : Prop := current_slot s !! c = Some i ∧ ∃ t, tasks s !! i = Some t ∧ t_cpu t = c ∧ t_state t ≠ Empty.
(** A started processor. *)
Definition active s (c : nat) : Prop := ∃ i, runs s c i.

Definition live t : bool := negb (is_empty t || bool_decide (t_state t = Dead)).

(** [E] are the processors whose task has just been stopped. *)
Record sched_ok (E : nat → Prop) s (next : Z) : Prop := {
  ok_length : length (tasks s) = MAX_TASKS;
  ok_current : length (current_slot s) = MAX_CPUS;
  ok_last : length (last_selected s) = MAX_CPUS ∧ Forall (λ r, length r = 3%nat) (last_selected s);
  ok_task : ∀ i t, tasks s !! i = Some t → task_ok next t;
  ok_ids : ∀ i j t u, tasks s !! i = Some t → tasks s !! j = Some u → t_state t ≠ Empty → t_state u ≠ Empty →
    t_id t = t_id u → i = j;
  ok_boot : ∃ t, tasks s !! 0%nat = Some t ∧ t_id t = KERNEL_TASK_ID ∧ t_cpu t = 0%nat;
  ok_permanent : ∀ i t, tasks s !! i = Some t → permanent t → runnable t;
  ok_home : ∀ c, active s c → ∃ i t, tasks s !! i = Some t ∧ permanent t ∧ t_cpu t = c;
  ok_slots : ∀ c i, current_slot s !! c = Some i → runs s c i ∨ i = 0%nat;
  ok_running : ∀ i t, tasks s !! i = Some t → t_state t = Running → runs s (t_cpu t) i;
  ok_runs : ∀ c i t, ¬ E c → runs s c i → tasks s !! i = Some t → t_state t = Running;
  ok_count : task_count s = Z.of_nat (count live (tasks s)) }.

Definition nobody_stopped (c : nat) : Prop := False.

(** ** Changes of tasks in place *)

Definition same_core t t' : Prop :=
  t_id t' = t_id t ∧ t_cpu t' = t_cpu t ∧ t_priority t' = t_priority t ∧ t_entry t' = t_entry t ∧
  (is_Some (t_address_space t) → is_Some (t_address_space t')).

Inductive task_step (E : nat → Prop) s (i : nat) t : TaskControlBlock → Prop :=
| step_same : task_step E s i t t
| step_reap : t_state t = Dead → (∀ c, ¬ runs s c i) → task_step E s i t task_empty
| step_change t' : same_core t t' → t_state t ≠ Empty → t_state t' ≠ Empty →
    (t_state t' = Running → t_state t = Running) → (permanent t → runnable t → runnable t') →
    (runs s (t_cpu t) i → E (t_cpu t) ∨ t_state t' = t_state t) →
    task_step E s i t t'.

Definition tasks_step E s (ts : list TaskControlBlock) : Prop :=
  length ts = length (tasks s) ∧ ∀ i t, tasks s !! i = Some t → ∃ t', ts !! i = Some t' ∧ task_step E s i t t'.

Lemma tasks_step_back E s ts i t' : tasks_step E s ts → ts !! i = Some t' → ∃ t, tasks s !! i = Some t ∧ task_step E s i t t'.
Proof.
  intros [Hlen Hs] Hi. destruct (lookup_lt_is_Some_2 (tasks s) i) as [t Ht]; [rewrite <-Hlen; by eapply lookup_lt_Some|].
  destruct (Hs i t Ht) as (u & Hu & ?). simplify_eq. by exists t.
Qed.

Lemma task_ok_empty next t : task_ok next t → t_state t = Empty → t = task_empty.
Proof. intros [[_ ->]|[? _]] ?; done. Qed.
Lemma empty_not_permanent : ¬ permanent task_empty.
Proof. intros [H|H]; [by vm_compute in H|done]. Qed.

(** The table after such changes, with the count they leave. *)
Lemma tasks_step_runs E s ts n c i : tasks_step E s ts → runs s c i ↔ runs (with_count n (with_tasks ts s)) c i.
Proof.
  intros Hst. split; intros (Hc & t & Ht & Hcpu & Hne); (split; [done|]).
  - destruct Hst as [_ Hst]. destruct (Hst i t Ht) as (t' & Ht' & Hstep). exists t'. simpl. split; [done|].
    destruct Hstep as [|? Hno|t' (_ & Hc' & _) ? ? _ _ _]; [done| |by rewrite Hc'].
    exfalso. eapply Hno. split; [done|]. eauto.
  - simpl in *. destruct (tasks_step_back _ _ _ _ _ Hst Ht) as (t' & Ht' & Hstep). exists t'.
    destruct Hstep as [|? Hno|t (_ & Hc' & _) ? ? _ _ _]; [done|done|]. by rewrite <-Hc'.
Qed.

Lemma tasks_step_ok E E' s ts next n : sched_ok E s next → (∀ c, E c → E' c) → tasks_step E' s ts →
  n = Z.of_nat (count live ts) → sched_ok E' (with_count n (with_tasks ts s)) next.
Proof.
  intros Hok HE Hst Hn.
  assert (Hruns : ∀ c i, runs s c i ↔ runs (with_count n (with_tasks ts s)) c i) by (intros; by apply tasks_step_runs with E').
  split; simpl.
  - destruct Hst as [-> _]. apply Hok.
  - apply Hok.
  - apply Hok.
  - intros i t' Hi. destruct (tasks_step_back _ _ _ _ _ Hst Hi) as (t & Ht & Hstep). pose proof (ok_task _ _ _ Hok i t Ht) as Htok.
    destruct Hstep as [| |t' (Hid & Hc & Hp & _ & Hsp) Hne Hne' _ _ _]; [done|by left|].
    destruct Htok as [[? _]|(_ & ? & ? & ? & ?)]; [done|]. right. rewrite Hid, Hc, Hp. split; [done|]; split; [done|]; split; [done|]; split; [by apply Hsp|done].
  - intros i j t' u' Hi Hj Hti Huj Heq.
    destruct (tasks_step_back _ _ _ _ _ Hst Hi) as (t & Ht & Hstep), (tasks_step_back _ _ _ _ _ Hst Hj) as (u & Hu & Hstepu).
    apply (ok_ids _ _ _ Hok i j t u Ht Hu); destruct Hstep as [| |t' (Hid & _) ? ? _ _ _], Hstepu as [| |u' (Hid' & _) ? ? _ _ _]; done || congruence.
  - destruct (ok_boot _ _ _ Hok) as (t & Ht & Hid & Hc). destruct Hst as [_ Hst]. destruct (Hst _ _ Ht) as (t' & Ht' & Hstep).
    exists t'. split; [done|]. destruct Hstep as [|Hd _|t' (Hid' & Hc' & _) ? ? _ _ _]; [done| |by rewrite Hid', Hc'].
    destruct (ok_permanent _ _ _ Hok _ _ Ht (or_introl Hid)); congruence.
  - intros i t' Hi Hp. destruct (tasks_step_back _ _ _ _ _ Hst Hi) as (t & Ht & Hstep).
    pose proof (ok_permanent _ _ _ Hok i t Ht) as Hperm.
    destruct Hstep as [| |t' (Hid & _ & _ & He & _) ? ? _ Hk _]; [auto|by apply empty_not_permanent in Hp|].
    assert (permanent t) by (unfold permanent in *; by rewrite <-Hid, <-He). auto.
  - intros c [i Hr%Hruns]. destruct (ok_home _ _ _ Hok c) as (j & t & Hj & Hp & Hc); [by exists i|].
    destruct Hst as [_ Hst]. destruct (Hst j t Hj) as (t' & Hj' & Hstep). exists j, t'. split; [done|].
    destruct Hstep as [|Hd _|t' (Hid & Hc' & _ & He & _) ? ? _ _ _]; [done| |unfold permanent; by rewrite Hid, Hc', He].
    destruct (ok_permanent _ _ _ Hok _ _ Hj Hp); congruence.
  - intros c i Hc. destruct (ok_slots _ _ _ Hok c i Hc) as [?|?]; [left; by apply Hruns|by right].
  - intros i t' Hi Hrun. apply Hruns. destruct (tasks_step_back _ _ _ _ _ Hst Hi) as (t & Ht & Hstep).
    destruct Hstep as [| |t' (_ & -> & _) ? ? Hr _ _]; [by apply (ok_running _ _ _ Hok)|done|].
    apply (ok_running _ _ _ Hok); auto.
  - intros c i t' HnE Hr Hi. apply Hruns in Hr. destruct (tasks_step_back _ _ _ _ _ Hst Hi) as (t & Ht & Hstep).
    assert (t_cpu t = c) as Hc by (destruct Hr as (_ & u & ? & ? & _); simplify_eq; done).
    pose proof (ok_runs _ _ _ Hok c i t ltac:(auto) Hr Ht) as Hrd.
    destruct Hstep as [|Hd _|t' _ _ _ _ _ Hkeep]; [done|congruence|]. subst c.
    destruct (Hkeep Hr) as [?| ->]; done.
  - done.
Qed.

(** One slot changed in place. *)
Lemma count_alter (f : TaskControlBlock → bool) g i ts t : ts !! i = Some t →
  (count f (alter g i ts) + Nat.b2n (f t) = count f ts + Nat.b2n (f (g t)))%nat.
Proof.
  unfold count. revert i. induction ts as [|u ts IH]; [done|]. intros [|i] Hi; simplify_eq/=.
  - destruct (f t), (f (g t)); simpl; lia.
  - specialize (IH i Hi). destruct (f u); simpl; lia.
Qed.

Lemma alter_alter (f g : TaskControlBlock → TaskControlBlock) i (ts : list TaskControlBlock) :
  alter f i (alter g i ts) = alter (λ t, f (g t)) i ts.
Proof. revert i. induction ts as [|t ts IH]; intros [|i]; simpl; [done..|]. f_equal. apply IH. Qed.

Lemma update_step E s i f : (∀ t, tasks s !! i = Some t → task_step E s i t (f t)) → tasks_step E s (alter f i (tasks s)).
Proof.
  intros Hf. split; [apply length_alter|]. intros j t Hj. destruct (decide (i = j)) as [->|].
  - exists (f t). rewrite list_lookup_alter_eq, Hj. auto.
  - exists t. rewrite list_lookup_alter_ne by done. split; [done|constructor].
Qed.

Lemma update_ok E E' s i f next n t : sched_ok E s next → (∀ c, E c → E' c) → tasks s !! i = Some t →
  task_step E' s i t (f t) → n = task_count s + Z.b2z (live (f t)) - Z.b2z (live t) →
  sched_ok E' (with_count n (update i f s)) next.
Proof.
  intros Hok HE Ht Hstep Hn. eapply (tasks_step_ok E E'); [done|done| |].
  - apply update_step. intros. by simplify_eq.
  - pose proof (count_alter live f i (tasks s) t Ht). rewrite Hn, (ok_count _ _ _ Hok).
    destruct (live t), (live (f t)); simpl in *; lia.
Qed.

Lemma live_state t : live t = match t_state t with Empty | Dead => false | _ => true end.
Proof. unfold live, is_empty. by destruct (t_state t). Qed.

(** ** A new task *)

Lemma place_ok E s i f next t : sched_ok E s next → tasks s !! i = Some t → t_state t = Empty → 0 ≤ next →
  t_state (f t) = Ready → t_id (f t) = next → task_ok (next + 1) (f t) →
  sched_ok E (with_count (task_count s + 1) (update i f s)) (next + 1).
Proof.
  intros Hok Ht He Hn Hst Hid Hnew.
  assert (Hi0 : i ≠ 0%nat).
  { intros ->. destruct (ok_boot _ _ _ Hok) as (u & Hu & Hk & _). simplify_eq.
    destruct (ok_permanent _ _ _ Hok _ _ Ht (or_introl Hk)); congruence. }
  assert (Hlook : ∀ j u, alter f i (tasks s) !! j = Some u → (j = i ∧ u = f t) ∨ (j ≠ i ∧ tasks s !! j = Some u)).
  { intros j u. destruct (decide (i = j)) as [->|].
    - rewrite list_lookup_alter_eq, Ht. intros [= <-]. by left.
    - rewrite list_lookup_alter_ne by done. by right. }
  assert (Hold : ∀ j u, tasks s !! j = Some u → t_state u ≠ Empty → alter f i (tasks s) !! j = Some u).
  { intros j u Hj Hne. rewrite list_lookup_alter_ne; [done|]. intros ->. by simplify_eq. }
  assert (Hruns : ∀ c j, runs s c j ↔ runs (with_count (task_count s + 1) (update i f s)) c j).
  { intros c j. split; intros (Hc & u & Hu & Hcu & Hne); (split; [done|]); simpl in *; [eauto|].
    destruct (Hlook j u Hu) as [[-> ->]|[? ?]]; [|eauto].
    destruct (ok_slots _ _ _ Hok c i Hc) as [(_ & v & ? & _ & ?)|?]; [|done]. by simplify_eq. }
  split; simpl.
  - rewrite length_alter. apply Hok.
  - apply Hok.
  - apply Hok.
  - intros j u Hj. destruct (Hlook j u Hj) as [[-> ->]|[_ Hu]]; [done|].
    destruct (ok_task _ _ _ Hok j u Hu) as [?|(? & ? & ?)]; [by left|right]. split; [done|]. split; [lia|done].
  - intros j k u v Hj Hk Huj Hvk Heq. destruct (Hlook j u Hj) as [[-> ->]|[? Hu]], (Hlook k v Hk) as [[-> ->]|[? Hv]]; [done| | |].
    + destruct (ok_task _ _ _ Hok k v Hv) as [[? _]|(_ & ? & _)]; [done|]. lia.
    + destruct (ok_task _ _ _ Hok j u Hu) as [[? _]|(_ & ? & _)]; [done|]. lia.
    + by apply (ok_ids _ _ _ Hok j k u v).
  - destruct (ok_boot _ _ _ Hok) as (u & Hu & ?). exists u. rewrite list_lookup_alter_ne by done. done.
  - intros j u Hj Hp. destruct (Hlook j u Hj) as [[-> ->]|[_ Hu]]; [by left|]. by apply (ok_permanent _ _ _ Hok j u).
  - intros c [j Hr%Hruns]. destruct (ok_home _ _ _ Hok c) as (k & u & Hk & Hp & Hc); [by exists j|].
    exists k, u. split; [|done]. apply Hold; [done|]. destruct (ok_permanent _ _ _ Hok k u Hk Hp); congruence.
  - intros c j Hc. destruct (ok_slots _ _ _ Hok c j Hc) as [?|?]; [left; by apply Hruns|by right].
  - intros j u Hj Hr. apply Hruns. destruct (Hlook j u Hj) as [[-> ->]|[_ Hu]]; [congruence|]. by apply (ok_running _ _ _ Hok).
  - intros c j u HnE Hr Hj. apply Hruns in Hr. destruct (Hlook j u Hj) as [[-> ->]|[_ Hu]].
    + destruct Hr as (_ & v & ? & _ & ?). by simplify_eq.
    + by apply (ok_runs _ _ _ Hok c j u).
  - pose proof (count_alter live f i (tasks s) t Ht) as Hc. rewrite (ok_count _ _ _ Hok).
    rewrite (live_state t), (live_state (f t)), He, Hst in Hc. simpl in Hc. lia.
Qed.

(** ** A processor taking over a task *)

Lemma take_over_ok (E E' : nat → Prop) s c j f next t : sched_ok E s next → (c < MAX_CPUS)%nat →
  tasks s !! j = Some t → t_state t = Ready → t_cpu t = c → same_core t (f t) → t_state (f t) = Running →
  (∀ i u, tasks s !! i = Some u → t_cpu u = c → t_state u ≠ Running) → active s c ∨ permanent t →
  (∀ d, E d → d = c ∨ E' d) →
  sched_ok E' (with_current (<[c := j]> (current_slot s)) (update j f s)) next.
Proof.
  intros Hok Hcb Ht Hst Hc (Hid & Hcpu & Hp & He & Hsp) Hrun Hfree Hhome HE.
  set (s' := with_current _ _).
  assert (Hlook : ∀ k u, alter f j (tasks s) !! k = Some u → (k = j ∧ u = f t) ∨ (k ≠ j ∧ tasks s !! k = Some u)).
  { intros k u. destruct (decide (j = k)) as [->|].
    - rewrite list_lookup_alter_eq, Ht. intros [= <-]. by left.
    - rewrite list_lookup_alter_ne by done. by right. }
  assert (Hj : alter f j (tasks s) !! j = Some (f t)) by (by rewrite list_lookup_alter_eq, Ht).
  assert (Hcj : runs s' c j).
  { split; [apply list_lookup_insert_eq; by rewrite (ok_current _ _ _ Hok)|].
    exists (f t). simpl. split; [done|]. split; [congruence|]. congruence. }
  assert (Hother : ∀ d i, d ≠ c → runs s d i ↔ runs s' d i).
  { intros d i Hd. unfold runs. simpl. rewrite list_lookup_insert_ne by done.
    split; intros (? & u & Hu & Hcu & Hne); (split; [done|]).
    - exists u. rewrite list_lookup_alter_ne; [done|]. intros ->. congruence.
    - destruct (Hlook i u Hu) as [[-> ->]|[? ?]]; [|eauto]. congruence. }
  assert (Hpf : permanent (f t) ↔ permanent t) by (unfold permanent; by rewrite Hid, He).
  split; simpl.
  - rewrite length_alter. apply Hok.
  - rewrite length_insert. apply Hok.
  - apply Hok.
  - intros k u Hk. destruct (Hlook k u Hk) as [[-> ->]|[_ Hu]]; [|by apply (ok_task _ _ _ Hok k)].
    destruct (ok_task _ _ _ Hok j t Ht) as [[? _]|(_ & ? & ? & ? & ?)]; [congruence|].
    right. rewrite Hid, Hp, Hcpu. split; [congruence|]. split; [done|]. split; [done|]. split; [by apply Hsp|done].
  - intros k l u v Hk Hl Huk Hvl Heq. destruct (Hlook k u Hk) as [[-> ->]|[? Hu]], (Hlook l v Hl) as [[-> ->]|[? Hv]]; [done| | |].
    + apply (ok_ids _ _ _ Hok j l t v); congruence.
    + apply (ok_ids _ _ _ Hok k j u t); congruence.
    + by apply (ok_ids _ _ _ Hok k l u v).
  - destruct (ok_boot _ _ _ Hok) as (u & Hu & Hk & Hc0). destruct (decide (j = 0%nat)) as [->|].
    + assert (u = t) as -> by congruence. exists (f t). split; [done|]. split; congruence.
    + exists u. rewrite list_lookup_alter_ne by done. done.
  - intros k u Hk Hpu. destruct (Hlook k u Hk) as [[-> ->]|[_ Hu]]; [by right|]. by apply (ok_permanent _ _ _ Hok k u).
  - intros d [i Hr]. assert (∃ k u, tasks s !! k = Some u ∧ permanent u ∧ t_cpu u = d) as (k & u & Hk & Hpu & Hdu).
    { destruct (decide (d = c)) as [->|].
      - destruct Hhome as [?|?]; [by apply (ok_home _ _ _ Hok)|by exists j, t].
      - apply (ok_home _ _ _ Hok). exists i. by apply Hother. }
    destruct (decide (k = j)) as [->|]; [exists j, (f t); simplify_eq; by rewrite Hpf|].
    exists k, u. by rewrite list_lookup_alter_ne.
  - intros d i. destruct (decide (d = c)) as [->|].
    + rewrite list_lookup_insert_eq by (by rewrite (ok_current _ _ _ Hok)). intros [= <-]. by left.
    + rewrite list_lookup_insert_ne by done. intros Hd.
      destruct (ok_slots _ _ _ Hok d i Hd) as [?|?]; [left; by apply Hother|by right].
  - intros k u Hk Hr. destruct (Hlook k u Hk) as [[-> ->]|[? Hu]]; [by rewrite Hcpu, Hc|].
    apply Hother; [|by apply (ok_running _ _ _ Hok)]. intros Hcu. by apply (Hfree k u).
  - intros d i u HnE Hr Hi. destruct (decide (d = c)) as [->|].
    + destruct Hr as [Hd _]. simpl in Hd. rewrite list_lookup_insert_eq in Hd by (by rewrite (ok_current _ _ _ Hok)).
      injection Hd as <-. rewrite Hj in Hi. by injection Hi as <-.
    + apply Hother in Hr; [|done]. destruct (Hlook i u Hi) as [[-> ->]|[? Hu]]; [done|].
      apply (ok_runs _ _ _ Hok d i u); [|done|done]. intros HEd. by destruct (HE d HEd).
  - pose proof (count_alter live f j (tasks s) t Ht) as Hcount. rewrite (ok_count _ _ _ Hok).
    rewrite (live_state t), (live_state (f t)), Hst, Hrun in Hcount. simpl in Hcount. lia.
Qed.
End invariant.

(** ** The dispatcher *)

Definition reaped (c prev : nat) (s : Scheduler) : Scheduler :=
  with_tasks (imap (λ slot t, if negb (Nat.eqb slot prev) && is_dead c t then task_empty else t) (tasks s)) s.

Lemma reaped_lookup c prev s i t : tasks s !! i = Some t →
  tasks (reaped c prev s) !! i = Some (if negb (Nat.eqb i prev) && is_dead c t then task_empty else t).
Proof. intros Hi. simpl. by rewrite list_lookup_imap, Hi. Qed.
Lemma reaped_lookup_inv c prev s i t : tasks (reaped c prev s) !! i = Some t →
  tasks s !! i = Some t ∨ (t = task_empty ∧ i ≠ prev ∧ ∃ u, tasks s !! i = Some u ∧ t_state u = Dead ∧ t_cpu u = c).
Proof.
  simpl. rewrite list_lookup_imap. destruct (tasks s !! i) as [u|] eqn:Hu; [|done]. simpl. intros [= <-].
  destruct (negb (Nat.eqb i prev) && is_dead c u) eqn:Hb; [|by left]. right.
  apply andb_true_iff in Hb as [?%negb_true_iff%Nat.eqb_neq Hd].
  apply andb_true_iff in Hd as [?%bool_decide_eq_true ?%Nat.eqb_eq]. split; [done|]. split; [done|]. eauto.
Qed.

Lemma count_pointwise {A} (f : A → bool) l l' : length l = length l' →
  (∀ i x y, l !! i = Some x → l' !! i = Some y → f x = f y) → count f l = count f l'.
Proof.
  unfold count. revert l'. induction l as [|x l IH]; intros [|y l'] Hlen Hf; simplify_eq/=; [done|].
  rewrite <-(Hf O x y eq_refl eq_refl). assert (length (List.filter f l) = length (List.filter f l')) as H.
  { apply IH; [done|]. intros i. apply (Hf (S i)). }
  destruct (f x); simpl; lia.
Qed.

Section dispatcher.
Context (stack_start : nat → Z) (idle : Z).
Abbreviation ok := (sched_ok idle).
Abbreviation prepare := (prepare_switch stack_start).

Lemma reaped_step E s next c prev : ok E s next → current_slot s !! c = Some prev →
  tasks_step idle E s (tasks (reaped c prev s)).
Proof.
  intros Hok Hc. split; [apply length_imap|]. intros i t Hi. eexists. split; [by apply reaped_lookup|].
  destruct (negb (Nat.eqb i prev) && is_dead c t) eqn:Hb; [|constructor].
  apply andb_true_iff in Hb as [?%negb_true_iff%Nat.eqb_neq Hd].
  apply andb_true_iff in Hd as [?%bool_decide_eq_true ?%Nat.eqb_eq].
  apply step_reap; [done|]. intros d (Hd & u & Hu & Hcpu & _). simplify_eq.
Qed.

Lemma reaped_ok E s next c prev : ok E s next → current_slot s !! c = Some prev → ok E (reaped c prev s) next.
Proof.
  intros Hok Hc. apply (tasks_step_ok idle E E s _ next (task_count s) Hok); [done|by eapply reaped_step|].
  rewrite (ok_count _ _ _ _ Hok). f_equal. apply count_pointwise; [symmetry; apply length_imap|].
  intros i t u Hi [Hu|(-> & _ & v & Hv & Hd & _)]%reaped_lookup_inv; simplify_eq; [done|].
  rewrite (live_state t), Hd. done.
Qed.

(** The state behind a dispatch of [j]. *)
Definition dispatch (s : Scheduler) (c prev j : nat) (row : list nat) (b : Z) : Scheduler :=
  let s := update j promote (update prev demote (with_last (<[c := <[Z.to_nat b := j]> row]> (last_selected s)) s)) in
  with_switches (wrapping_add 64 (context_switches s) 1) (with_current (<[c := j]> (current_slot s)) s).

(** What [prepare_switch] does: nothing is ready and the current task keeps the
    processor, or the nearest ready task of the greatest ready priority gets it. *)
Inductive switched (c : nat) (s : Scheduler) : option ContextSwitch → Scheduler → Prop :=
| no_switch prev : current_slot s !! c = Some prev →
    (∀ i t, tasks (reaped c prev s) !! i = Some t → is_ready c t = false) → switched c s None (reaped c prev s)
| switch prev j t row start space : current_slot s !! c = Some prev →
    tasks (reaped c prev s) !! j = Some t → is_ready c t = true →
    (∀ i u, tasks (reaped c prev s) !! i = Some u → is_ready c u = true → t_priority u ≤ t_priority t) →
    last_selected s !! c = Some row → row !! Z.to_nat (t_priority t) = Some start →
    (∀ i u, tasks (reaped c prev s) !! i = Some u → is_ready c u = true → t_priority u = t_priority t →
       (distance start j ≤ distance start i)%nat) →
    t_address_space t = Some space →
    switched c s (Some (mkSwitch (stack_top stack_start j) prev j (t_stack_pointer t) space))
      (dispatch (reaped c prev s) c prev j row (t_priority t)).

Lemma ready_not_empty c t : is_ready c t = true → t_state t = Ready ∧ t_cpu t = c.
Proof. intros [?%bool_decide_eq_true ?%Nat.eqb_eq]%andb_true_iff. done. Qed.

Lemma demote_promote_sp (ts : list TaskControlBlock) (prev j : nat) t : ts !! j = Some t → ∃ u, alter promote j (alter demote prev ts) !! j = Some u ∧
  t_stack_pointer u = t_stack_pointer t ∧ t_address_space u = t_address_space t.
Proof.
  intros Hj. rewrite list_lookup_alter_eq. destruct (decide (prev = j)) as [->|].
  - rewrite list_lookup_alter_eq, Hj. simpl. eexists. split; [done|]. unfold demote. by case_bool_decide.
  - rewrite list_lookup_alter_ne, Hj by done. simpl. by eexists.
Qed.

Lemma prepare_switch_run E s next c : ok E s next → active s c → ∃ o s', prepare c s = (Ok o, s') ∧ switched c s o s'.
Proof.
  intros Hok [prev (Hprev & pt & Hpt & _)].
  pose proof (reaped_ok _ _ _ _ _ Hok Hprev) as Hokr. set (s1 := reaped c prev s) in *.
  assert (Hreap : reap_dead c s = (Ok tt, s1)) by (unfold reap_dead; rewrite (bind_run _ _ _ _ _ (eq_refl : current c s = (or_panic (current_slot s !! c), s))), Hprev; done).
  unfold prepare_switch. rewrite (bind_run _ _ _ _ _ Hreap), bind_gets.
  destruct (best_priority c (tasks s1)) as [b|] eqn:Hb; cycle 1.
  { exists None, s1. split; [done|]. apply no_switch; [done|]. by apply best_priority_None. }
  destruct (best_priority_Some _ _ _ Hb) as [(j0 & t0 & Hj0 & Hr0 & Hp0) Hmax].
  destruct (ready_not_empty _ _ Hr0) as [Hst0 _].
  destruct (ok_task _ _ _ _ Hok j0 t0) as [[Hst0' _]|(_ & _ & Hp & Hsp & Hcb)].
  { destruct (reaped_lookup_inv _ _ _ _ _ Hj0) as [?|(-> & _)]; [done|]. done. }
  { congruence. }
  destruct (ok_last _ _ _ _ Hok) as [Hlen Hrows].
  destruct (lookup_lt_is_Some_2 (last_selected s) c) as [row Hrow].
  { rewrite Hlen. rewrite <-(ok_current _ _ _ _ Hok). by eapply lookup_lt_Some. }
  rewrite Forall_lookup in Hrows. pose proof (Hrows c row Hrow) as Hrl.
  destruct (lookup_lt_is_Some_2 row (Z.to_nat b)) as [start Hstart]; [lia|].
  assert (Hl1 : last_selected s1 !! c = Some row) by done.
  rewrite (bind_run _ _ _ _ _ (eq_refl : (λ s, (or_panic (last_selected s !! c), s)) s1 = (or_panic (last_selected s1 !! c), s1))), Hl1.
  cbn [or_panic]. rewrite bind_lift, Hstart. cbn [or_panic].
  assert (Hcand : ∀ i u, tasks s1 !! i = Some u → is_ready c u = true → t_priority u = b → candidate c b (tasks s1) i = true).
  { intros i u Hi Hr Hpu. unfold candidate. rewrite Hi, Hr, Hpu, Z.eqb_refl. done. }
  assert (Hin : ∀ i u, tasks s1 !! i = Some u → (i < MAX_TASKS)%nat).
  { intros i u Hi. rewrite <-(ok_length _ _ _ _ Hokr). by eapply lookup_lt_Some. }
  destruct (find_next_spec c b start (tasks s1) j0) as (j & Hfind & _ & Hj & _); [by eapply Hin|by eapply Hcand|].
  assert (Hnear : ∀ i u, tasks s1 !! i = Some u → is_ready c u = true → t_priority u = b → (distance start j ≤ distance start i)%nat).
  { intros i u Hi Hr Hpu. destruct (find_next_spec c b start (tasks s1) i) as (j' & Hfind' & _ & _ & Hle); [by eapply Hin|by eapply Hcand|].
    congruence. }
  rewrite Hfind, bind_modify.
  unfold candidate in Hj. destruct (tasks s1 !! j) as [t|] eqn:Ht; [|done].
  apply andb_true_iff in Hj as [Hr Hpt'%Z.eqb_eq].
  assert (is_Some (t_address_space t)) as [space Hspace].
  { destruct (ok_task _ _ _ _ Hokr j t Ht) as [[He _]|(_ & _ & _ & ? & _)]; [|done].
    apply ready_not_empty in Hr as [? _]. congruence. }
  assert (Hpt1 : ∃ p, tasks s1 !! prev = Some p) by (eexists; by apply reaped_lookup). destruct Hpt1 as [p Hp1].
  set (s2 := with_last _ s1).
  rewrite (bind_run _ _ _ _ _ (eq_refl : current c s2 = (or_panic (current_slot s !! c), s2))), Hprev. cbn [or_panic].
  rewrite (bind_run _ _ _ _ _ (eq_refl : task_at prev s2 = (or_panic (tasks s1 !! prev), s2))), Hp1. cbn [or_panic].
  rewrite !bind_modify.
  destruct (demote_promote_sp (tasks s1) prev j t Ht) as (u & Hu & Husp & Hus).
  set (s3 := with_switches _ _).
  rewrite (bind_run _ _ _ _ _ (eq_refl : task_at j s3 = (or_panic (tasks s3 !! j), s3))).
  change (tasks s3) with (alter promote j (alter demote prev (tasks s1))). rewrite Hu. cbn [or_panic].
  rewrite Hus, Hspace, Husp. simpl fmap.
  eexists _, s3. split; [done|]. subst s3 s2. clear Hp0. subst b.
  eapply (switch c s prev j t row start space); try done.
Qed.

Lemma ok_mono (E E' : nat → Prop) s next : ok E s next → (∀ d, E d → E' d) → ok E' s next.
Proof. intros [] HE. split; eauto. Qed.
Lemma ok_next E s next next' : ok E s next → next ≤ next' → ok E s next'.
Proof.
  intros [] Hle. split; try done. intros i t Ht.
  destruct (ok_task0 i t Ht) as [?|(? & ? & ?)]; [by left|right]. split; [done|]. split; [lia|done].
Qed.
Lemma ok_with_last E s next l : ok E s next → length l = MAX_CPUS → Forall (λ r, length r = 3%nat) l → ok E (with_last l s) next.
Proof. intros [] ? ?. split; eauto. Qed.
Lemma ok_with_switches E s next n : ok E s next → ok E (with_switches n s) next.
Proof. intros []. split; eauto. Qed.

Lemma demote_spec t : (t_state t = Running ∧ demote t = set_state Ready t) ∨ (t_state t ≠ Running ∧ demote t = t).
Proof. unfold demote. case_bool_decide; auto. Qed.

Lemma demote_ok E s next c prev : ok E s next → current_slot s !! c = Some prev → (∀ d, E d → d = c) → active s c →
  ok (λ d, d = c) (update prev demote s) next.
Proof.
  intros Hok Hc HE [i Hr]. assert (i = prev) as -> by (destruct Hr; congruence).
  destruct Hr as (_ & p & Hp & Hpc & Hne).
  apply (update_ok idle E _ s prev demote next (task_count s) p); [done|done|done| |].
  - destruct (demote_spec p) as [[Hr ->]|[_ ->]]; [|constructor].
    apply step_change; simpl; [by repeat split|congruence|done|done|by left|by left].
  - rewrite !live_state. destruct (demote_spec p) as [[Hr ->]|[_ ->]]; simpl; [rewrite Hr; simpl; lia|lia].
Qed.

Lemma demoted_free E s next c prev i u : ok E s next → current_slot s !! c = Some prev →
  tasks (update prev demote s) !! i = Some u → t_cpu u = c → t_state u ≠ Running.
Proof.
  intros Hok Hc Hi Hcpu Hrun. simpl in Hi. destruct (decide (prev = i)) as [->|Hne].
  - rewrite list_lookup_alter_eq in Hi. destruct (tasks s !! i) as [p|]; [|done]. injection Hi as <-.
    destruct (demote_spec p) as [[? He]|[? He]]; rewrite He in Hrun; done.
  - rewrite list_lookup_alter_ne in Hi by done. destruct (ok_running _ _ _ _ Hok i u Hi Hrun) as [H _]. congruence.
Qed.

Lemma reaped_active E s next c prev : ok E s next → active s c → current_slot s !! c = Some prev → active (reaped c prev s) c.
Proof.
  intros Hok [i Hr] Hc. exists i.
  apply (tasks_step_runs idle E s _ (task_count s) c i); [by eapply reaped_step|done].
Qed.

Lemma demote_active s c prev : active s c → current_slot s !! c = Some prev → active (update prev demote s) c.
Proof.
  intros [i (Hi & p & Hp & Hc & Hne)] Hprev. assert (i = prev) as -> by congruence. exists prev. split; [done|].
  exists (demote p). simpl. rewrite list_lookup_alter_eq, Hp. split; [done|].
  destruct (demote_spec p) as [[_ ->]|[_ ->]]; done.
Qed.

Lemma switched_ok E s next c o s' : ok E s next → active s c → (∀ d, E d → d = c) → switched c s o s' →
  (o = None → ¬ E c) → ok nobody_stopped s' next.
Proof.
  intros Hok Ha HE Hsw HnE.
  destruct Hsw as [prev Hc _|prev j t row start space Hc Hj Hr _ Hrow Hstart _ _].
  { apply ok_mono with E; [by apply reaped_ok|]. intros d Hd. pose proof (HE d Hd). subst d. by apply HnE. }
  pose proof (reaped_ok _ _ _ _ _ Hok Hc) as Hok1. pose proof (reaped_active _ _ _ _ _ Hok Ha Hc) as Ha1.
  set (s1 := reaped c prev s) in *. apply ready_not_empty in Hr as [Hst Hcpu].
  destruct (ok_last _ _ _ _ Hok1) as [Hll Hlr].
  unfold dispatch. apply ok_with_switches.
  set (s2 := with_last _ s1).
  assert (Hok2 : ok E s2 next).
  { apply ok_with_last; [done|by rewrite length_insert|]. apply Forall_insert; [done|]. rewrite length_insert.
    rewrite Forall_lookup in Hlr. by apply (Hlr c). }
  pose proof (demote_ok E s2 next c prev Hok2 Hc HE Ha1) as Hok3.
  assert (Hj3 : tasks (update prev demote s2) !! j = Some t).
  { assert (Hj2 : tasks s2 !! j = Some t) by exact Hj. change (alter demote prev (tasks s2) !! j = Some t).
    destruct (decide (prev = j)) as [->|]; [|by rewrite list_lookup_alter_ne].
    rewrite list_lookup_alter_eq, Hj2. simpl. f_equal.
    by destruct (demote_spec t) as [[? _]|[_ ->]]; [congruence|]. }
  change (ok nobody_stopped (with_current (<[c := j]> (current_slot (update prev demote s2))) (update j promote (update prev demote s2))) next).
  apply (take_over_ok idle (λ d, d = c) _ _ c j promote next t Hok3); [|done|done|done|by repeat split|done| | |by left].
  - rewrite <-(ok_current _ _ _ _ Hok). by eapply lookup_lt_Some.
  - intros i u. by apply (demoted_free E s2 next).
  - left. by apply demote_active.
Qed.

(** A processor whose task has stopped finds another one. *)
Lemma switched_total E s next c s' : ok E s next → switched c s None s' →
  (∃ i t, runs s c i ∧ tasks s !! i = Some t ∧ ¬ runnable t) → False.
Proof.
  intros Hok Hsw (i & t & Hr & Ht & Hn). inversion Hsw as [prev Hc Hnone|]; subst.
  destruct (ok_home _ _ _ _ Hok c) as (k & u & Hk & Hp & Hcu); [by exists i|].
  destruct (ok_permanent _ _ _ _ Hok k u Hk Hp) as [Hs|Hs].
  - pose proof (Hnone k u) as H. unfold is_ready in H. rewrite Hs, Hcu, Nat.eqb_refl in H. simpl in H.
    enough (true = false) by done. apply H. pose proof (reaped_lookup c prev s k u Hk) as Hl.
    unfold is_dead in Hl. rewrite Hs in Hl. simpl in Hl. by rewrite andb_false_r in Hl.
  - destruct (ok_running _ _ _ _ Hok k u Hk Hs) as [Hck _]. destruct Hr as [Hci _]. rewrite Hcu in Hck.
    assert (k = i) as -> by congruence. simplify_eq. apply Hn. by right.
Qed.
End dispatcher.
