(* ===== verification/SchedCalls.v ===== *)
(** * The scheduler's calls

    Every scheduler function as one step of the system; along every sequence of
    the steps the invariant of SchedSafe.v holds, no step panics and a
    processor that stops its task always gets another. *)
From stdpp Require Import list gmap relations.
From S2P Require Import Prelude Config Capability Sched SchedSafe.

(** The calls, each with the processor that makes it. *)
Inductive Call :=
| CSpawn (name : string) (entry p : Z)
| CSpawnOn (online cpu : nat) (name : string) (entry : Z)
| CSpawnParallel (online : nat) (name : string) (entry : Z)
| CInitAp (cpu : nat)
| CYield (cpu : nat)
| CTick (cpu : nat) (busy : bool)
| CPreempt (cpu : nat) (busy : bool)
| CPoint (cpu : nat)
| CResumed (cpu : nat)
| CBlock (cpu : nat)
| CSleep (cpu : nat) (ticks : Z)
| CExit (cpu : nat)
| CExitProcess (cpu : nat)
| CWake (id : Z)
| CKill (ids : list Z)
| CSpawnUser (cpu : nat) (ready : bool) (name : string) (c : UserTaskContext) (space : Z)
| CFork (cpu : nat) (ready : bool) (space : Z)
| CExec (cpu : nat) (c : UserTaskContext) (space : Z)
| CSave (slot : nat) (rsp : Z)
| CGrant (cpu : nat) (target : Z) (c : Capability)
| CRevoke (cpu : nat) (target : Z) (c : Capability)
| CClock (t : Z)
| CFileIo (enter : bool).

Section calls.
Context (stack_start : nat → Z) (root idle : Z).
Abbreviation ok := (sched_ok idle nobody_stopped).
Abbreviation prepare := (prepare_switch stack_start).
Abbreviation Io := (M Kernel SpawnError).
(** Paging is initialized before the scheduler. *)
Abbreviation kernel_space := (Some root).

Definition quietly {A} (f : Io A) : Io (option ContextSwitch) := _ ← f; mret None.

Definition run_call (c : Call) : Io (option ContextSwitch) :=
  match c with
  | CSpawn name entry p => quietly (spawn_with_priority stack_start kernel_space name entry p)
  | CSpawnOn online cpu name entry => quietly (spawn_on stack_start kernel_space online cpu name entry)
  | CSpawnParallel online name entry => quietly (spawn_parallel stack_start kernel_space online name entry)
  | CInitAp cpu => quietly (init_ap stack_start kernel_space cpu idle)
  | CYield cpu => yield_now stack_start cpu
  | CTick cpu busy => quietly (tick cpu busy)
  | CPreempt cpu busy => preempt_from_interrupt stack_start cpu busy
  | CPoint cpu => o ← preemption_point stack_start cpu; mret (o ≫= id)
  | CResumed cpu => quietly (preemption_point_resumed cpu)
  | CBlock cpu => block_current stack_start cpu
  | CSleep cpu ticks => sleep_current stack_start cpu ticks
  | CExit cpu => exit_current_task stack_start cpu
  | CExitProcess cpu => exit_process_task stack_start cpu true
  | CWake id => quietly (wake_task id)
  | CKill ids => quietly (kill_tasks ids)
  | CSpawnUser cpu ready name c space => quietly (spawn_user_task stack_start cpu ready name c space)
  | CFork cpu ready space => quietly (fork_task stack_start cpu ready space)
  | CExec cpu c space => quietly (exec_task cpu c space)
  | CSave slot rsp => quietly (save_context slot rsp)
  | CGrant cpu target c => quietly (grant cpu target c)
  | CRevoke cpu target c => quietly (revoke cpu target c)
  | CClock t => quietly (modify (with_now t))
  | CFileIo enter => quietly (if enter then file_io_enter else file_io_leave)
  end.

(** ** Who may make which call *)

(** The running task of [c] is neither the kernel's nor an idle task, whose
    loops only yield. *)
Definition may_stop (k : Kernel) (c : nat) : Prop :=
  ∃ i t, runs (sched k) c i ∧ tasks (sched k) !! i = Some t ∧ ¬ permanent idle t.
Definition id_left (k : Kernel) : Prop := next_task_id k < 2 ^ 64 - 1.

Definition allowed (k : Kernel) (c : Call) : Prop :=
  match c with
  | CSpawn _ _ p => p ∈ [LOW; NORMAL; HIGH] ∧ id_left k
  | CSpawnOn online cpu _ _ => (cpu < online ≤ MAX_CPUS)%nat ∧ id_left k
  | CSpawnParallel online _ _ => (0 < online ≤ MAX_CPUS)%nat ∧ id_left k
  | CInitAp cpu => (cpu < MAX_CPUS)%nat ∧ ¬ active (sched k) cpu ∧ id_left k ∧ Exists (λ t, is_empty t = true) (tasks (sched k))
  | CYield cpu | CTick cpu _ | CPreempt cpu _ | CPoint cpu | CExec cpu _ _ | CGrant cpu _ _ | CRevoke cpu _ _ => active (sched k) cpu
  | CBlock cpu | CSleep cpu _ | CExit cpu | CExitProcess cpu => may_stop k cpu
  | CKill ids => ∀ i t, tasks (sched k) !! i = Some t → t_id t ∈ ids →
      t_state t ≠ Empty ∧ t_state t ≠ Running ∧ ¬ permanent idle t
  | CSpawnUser cpu _ _ _ _ | CFork cpu _ _ => active (sched k) cpu ∧ id_left k
  | CSave slot _ => ∃ t, tasks (sched k) !! slot = Some t ∧ t_state t ≠ Empty
  | CWake _ | CResumed _ | CClock _ | CFileIo _ => True
  end.

Definition kernel_ok (k : Kernel) : Prop :=
  ok (sched k) (next_task_id k) ∧ 2 ≤ next_task_id k ∧ length (preemption_requested k) = MAX_CPUS.

(** ** Running the pieces *)

Lemma locked_run {A} (f : M Scheduler SpawnError A) k r s : f (sched k) = (r, s) → locked f k = (r, with_sched s k).
Proof. unfold locked. by intros ->. Qed.
Lemma with_sched_id k : with_sched (sched k) k = k.
Proof. by destruct k. Qed.

Lemma current_run s c i : runs s c i → current c s = (Ok i, s).
Proof. intros [Hc _]. unfold current. by rewrite Hc. Qed.
Lemma task_at_run s i t : tasks s !! i = Some t → task_at i s = (Ok t, s).
Proof. intros Ht. unfold task_at. by rewrite Ht. Qed.
Lemma locked_current k c i : runs (sched k) c i → locked (current c) k = (Ok i, k).
Proof. intros Hr. rewrite (locked_run _ k _ _ (current_run _ _ _ Hr)). by rewrite with_sched_id. Qed.
Lemma locked_task_at k i t : tasks (sched k) !! i = Some t → locked (task_at i) k = (Ok t, k).
Proof. intros Ht. rewrite (locked_run _ k _ _ (task_at_run _ _ _ Ht)). by rewrite with_sched_id. Qed.

Lemma running_run E s k next : sched_ok idle E s next → sched k = s → running k = (Ok tt, k).
Proof.
  intros Hok <-. unfold running. rewrite bind_gets.
  destruct (ok_boot _ _ _ _ Hok) as (t & Ht & Hid & _).
  assert (0 < task_count (sched k)); [|by rewrite (proj2 (Z.eqb_neq _ _)) by lia].
  rewrite (ok_count _ _ _ _ Hok). assert (Hl : live t = true).
  { rewrite live_state. by destruct (ok_permanent _ _ _ _ Hok _ _ Ht (or_introl Hid)) as [-> | ->]. }
  destruct (tasks (sched k)) as [|u ts]; simplify_eq/=. unfold count. simpl. rewrite Hl. simpl. lia.
Qed.

Lemma update_update i f g n s : update i f (with_count n (update i g s)) = with_count n (update i (λ t, f (g t)) s).
Proof. unfold update, with_tasks, with_count. simpl. by rewrite alter_alter. Qed.

Lemma runs_task s c i : runs s c i → ∃ t, tasks s !! i = Some t ∧ t_cpu t = c ∧ t_state t ≠ Empty.
Proof. by intros [_ H]. Qed.

(** A stopped task's processor gets another task. *)
Lemma stop_run s next c i t f n : ok s next → runs s c i → tasks s !! i = Some t → ¬ permanent idle t →
  same_core t (f t) → t_state (f t) = Blocked ∨ t_state (f t) = Sleeping ∨ t_state (f t) = Dead →
  n = task_count s + Z.b2z (live (f t)) - Z.b2z (live t) →
  ∃ sw s', prepare c (with_count n (update i f s)) = (Ok (Some sw), s') ∧
    switched stack_start c (with_count n (update i f s)) (Some sw) s' ∧ ok s' next ∧
    sched_ok idle (λ d, d = c) (with_count n (update i f s)) next.
Proof.
  intros Hok Hr Ht Hnp Hcore Hst Hn.
  destruct (runs_task _ _ _ Hr) as (t' & Ht' & Hcpu & Hne). simplify_eq.
  assert (Hstep : task_step idle (λ d, d = t_cpu t) s i t (f t)).
  { apply step_change; [done|done| | |by intros ?%Hnp|by left]; destruct Hst as [->|[->| ->]]; done. }
  set (s1 := with_count _ _).
  assert (Hok1 : sched_ok idle (λ d, d = t_cpu t) s1 next) by (eapply update_ok; [exact Hok|by intros ? []|exact Ht|exact Hstep|done]).
  assert (Hi1 : tasks s1 !! i = Some (f t)) by (simpl; by rewrite list_lookup_alter_eq, Ht).
  assert (Hr1 : runs s1 (t_cpu t) i).
  { split; [apply Hr|]. exists (f t). split; [done|]. destruct Hcore as (_ & -> & _). split; [done|]. by destruct Hst as [->|[->| ->]]. }
  destruct (prepare_switch_run stack_start idle _ _ _ _ Hok1 (ex_intro _ i Hr1)) as (o & s' & Hrun & Hsw).
  destruct o as [sw|].
  - exists sw, s'. split; [done|]. split; [done|]. split; [|done]. eapply (switched_ok stack_start idle); [exact Hok1|by exists i|done|exact Hsw|done].
  - exfalso. apply (switched_total stack_start idle _ _ _ _ _ Hok1 Hsw). exists i, (f t).
    split; [done|]. split; [done|]. unfold runnable. destruct Hst as [->|[->| ->]]; by intros [].
Qed.

(** ** Each call keeps the invariant and does not panic *)

Definition safe {A} (m : Io A) (k : Kernel) : Prop := ∃ r k', m k = (r, k') ∧ r ≠ Panic ∧ kernel_ok k'.

Lemma kernel_safe_ret {A} (m : Io A) k r k' : m k = (r, k') → r ≠ Panic → kernel_ok k' → safe m k.
Proof. intros. by exists r, k'. Qed.
Lemma kernel_safe_bind {A B} (m : Io A) (f : A → Io B) k :
  safe m k → (∀ a k', m k = (Ok a, k') → kernel_ok k' → safe (f a) k') → safe (m ≫= f) k.
Proof.
  intros (r & k' & Hm & Hr & Hk) Hf. destruct r as [a|e|]; [| |done].
  - destruct (Hf a k' Hm Hk) as (r & k2 & Hrun & ? & ?). exists r, k2. rewrite (bind_run _ _ _ _ _ Hm). done.
  - exists (Err e), k'. rewrite (bind_run _ _ _ _ _ Hm). done.
Qed.
Lemma safe_run {A B} (m : Io A) (f : A → Io B) k a k' : m k = (Ok a, k') → safe (f a) k' → safe (m ≫= f) k.
Proof. intros Hm (r & k2 & Hrun & ? & ?). exists r, k2. rewrite (bind_run _ _ _ _ _ Hm). done. Qed.
Lemma safe_mret {A} (a : A) k : kernel_ok k → safe (mret a) k.
Proof. intros. by apply (kernel_safe_ret (mret a) k (Ok a) k). Qed.
Lemma safe_quietly {A} (m : Io A) k : safe m k → safe (quietly m) k.
Proof. intros. apply kernel_safe_bind; [done|]. intros. by apply safe_mret. Qed.

(** The scheduler part replaced. *)
Lemma kernel_ok_with k s : kernel_ok k → ok s (next_task_id k) → kernel_ok (with_sched s k).
Proof. intros (_ & ? & ?) ?. done. Qed.

Lemma locked_prepare_safe k s c : kernel_ok k → (∃ o s', prepare c s = (Ok o, s') ∧ ok s' (next_task_id k)) →
  sched k = s → safe (locked (prepare c)) k.
Proof. intros Hk (o & s' & Hrun & Hok) <-. eapply kernel_safe_ret; [by apply locked_run|done|]. by apply kernel_ok_with. Qed.

Lemma dispatch_safe k c : kernel_ok k → active (sched k) c → safe (locked (prepare c)) k.
Proof.
  intros Hk Ha. destruct Hk as (Hok & Hk). destruct (prepare_switch_run stack_start idle _ _ _ _ Hok Ha) as (o & s' & Hrun & Hsw).
  eapply locked_prepare_safe; [done| |done]. exists o, s'. split; [done|].
  eapply (switched_ok stack_start idle); [exact Hok|done|by intros ? []|exact Hsw|by intros _ []].
Qed.

(** A new task in an empty slot. *)
Definition new_task (next : Z) (t : TaskControlBlock) : Prop :=
  t_state t = Ready ∧ t_id t = next ∧ 0 ≤ t_priority t ≤ 2 ∧ is_Some (t_address_space t) ∧ (t_cpu t < MAX_CPUS)%nat.

Lemma empty_slot_run k : kernel_ok k → (∃ slot, empty_slot k = (Ok slot, k) ∧ tasks (sched k) !! slot = Some task_empty) ∨ empty_slot k = (Err Full, k).
Proof.
  intros (Hok & _). unfold empty_slot. destruct (position is_empty (tasks (sched k))) as [slot|] eqn:Hp; [left|by right].
  exists slot. split; [done|]. apply position_Some_1 in Hp as (t & Ht & He%bool_decide_eq_true).
  by rewrite Ht, (task_ok_empty _ _ (ok_task _ _ _ _ Hok _ _ Ht) He).
Qed.

Lemma place_safe k slot f : kernel_ok k → id_left k → tasks (sched k) !! slot = Some task_empty →
  new_task (next_task_id k) (f task_empty) →
  kernel_ok (with_next_id (wrapping_add 64 (next_task_id k) 1) (with_sched (with_count (task_count (sched k) + 1) (update slot f (sched k))) k)).
Proof.
  intros (Hok & Hn & Hr) Hid Ht (Hst & Hi & Hp & Hs & Hc). unfold id_left in Hid.
  assert (wrapping_add 64 (next_task_id k) 1 = next_task_id k + 1) as -> by (unfold wrapping_add, wrap; rewrite Z.mod_small by lia; done).
  split; [|simpl; split; [lia|done]]. simpl.
  eapply (place_ok idle); [exact Hok|done|done|lia|done|done|]. right. rewrite Hst, Hi. split; [done|]. split; [lia|done].
Qed.

Lemma fresh_safe {A} k (g : nat → Z → TaskControlBlock → TaskControlBlock) (a : nat → Z → A) : kernel_ok k → id_left k →
  (∀ slot, new_task (next_task_id k) (g slot (next_task_id k) task_empty)) →
  safe (slot ← empty_slot; id ← fetch_id; _ ← place slot (g slot id); mret (a slot id)) k.
Proof.
  intros Hk Hid Hg. destruct (empty_slot_run k Hk) as [(slot & Hrun & Ht)|Hrun].
  - eapply safe_run; [done|]. eapply safe_run; [done|]. eapply safe_run; [done|]. apply safe_mret.
    destruct k. by apply (place_safe _ slot (g slot _) Hk Hid Ht).
  - eapply kernel_safe_ret; [by rewrite (bind_run _ _ _ _ _ Hrun)|done|done].
Qed.

Lemma quantum_priority p : p ∈ [LOW; NORMAL; HIGH] → 0 ≤ p ≤ 2.
Proof. unfold LOW, NORMAL, HIGH. set_solver by lia. Qed.

Lemma spawn_safe k name entry p : kernel_ok k → p ∈ [LOW; NORMAL; HIGH] → id_left k →
  safe (spawn_with_priority stack_start kernel_space name entry p) k.
Proof.
  intros Hk Hp Hid. eapply safe_run; [by eapply running_run; [apply Hk|]|].
  apply (fresh_safe k (λ slot id, initialize_task stack_start slot id name entry p kernel_space) (λ _ id, id) Hk Hid).
  intros slot. apply quantum_priority in Hp. repeat split; simpl; try lia; [done|]. unfold MAX_CPUS. lia.
Qed.

Lemma spawn_on_safe k online cpu name entry : kernel_ok k → (cpu < online ≤ MAX_CPUS)%nat → id_left k →
  safe (spawn_on stack_start kernel_space online cpu name entry) k.
Proof.
  intros Hk Hc Hid. unfold spawn_on. rewrite (proj2 (Nat.ltb_lt _ _)) by lia. simpl.
  apply (fresh_safe k (λ slot id t, set_cpu cpu (initialize_task stack_start slot id name entry NORMAL kernel_space t)) (λ _ id, id) Hk Hid).
  intros slot. repeat split; simpl; [done|done|done|lia].
Qed.

Lemma least_loaded_lt s online : (0 < online)%nat → (least_loaded s online < online)%nat.
Proof.
  intros Ho. unfold least_loaded.
  assert (∀ l best, (best < online)%nat → Forall (λ c, (c < online)%nat) l →
    (foldl (λ best cpu, if Nat.ltb (load s cpu) (load s best) then cpu else best) best l < online)%nat) as H.
  { induction l as [|c l IH]; [done|]. intros best Hb [Hc Hl]%Forall_cons. simpl. apply IH; [|done]. by destruct (Nat.ltb _ _). }
  apply H; [done|]. apply Forall_forall. intros c Hc%elem_of_seq. lia.
Qed.

Lemma place_process_safe k cpu ready g : kernel_ok k → active (sched k) cpu → id_left k →
  (∀ slot, new_task (next_task_id k) (g slot (next_task_id k) task_empty)) → safe (place_process cpu ready g) k.
Proof.
  intros Hk [i Hr] Hid Hg.
  assert (Hreap : locked (reap_dead cpu) k = (Ok tt, with_sched (reaped cpu i (sched k)) k)).
  { apply locked_run. unfold reap_dead. by rewrite (bind_run _ _ _ _ _ (current_run _ _ _ Hr)). }
  eapply safe_run; [done|]. set (k1 := with_sched _ k).
  assert (Hk1 : kernel_ok k1) by (apply kernel_ok_with; [done|]; eapply reaped_ok; [apply Hk|apply Hr]).
  destruct ready; [by apply (fresh_safe k1 g (λ _ id, id))|].
  destruct (empty_slot_run k1 Hk1) as [(slot & Hrun & Ht)|Hrun].
  - eapply safe_run; [done|]. eapply safe_run; [done|]. eapply kernel_safe_ret; [done|done|].
    destruct Hk1 as (Hok1 & Hn & Hl). unfold id_left in Hid.
    assert (wrapping_add 64 (next_task_id k1) 1 = next_task_id k1 + 1) as -> by (unfold wrapping_add, wrap; rewrite Z.mod_small by (subst k1; simpl in *; lia); done).
    split; [|simpl; split; [simpl in *; lia|done]]. simpl. by apply (ok_next idle _ _ (next_task_id k)); [|lia].
  - eapply kernel_safe_ret; [by rewrite (bind_run _ _ _ _ _ Hrun)|done|done].
Qed.

Lemma init_ap_safe k cpu : kernel_ok k → (cpu < MAX_CPUS)%nat → ¬ active (sched k) cpu → id_left k →
  Exists (λ t, is_empty t = true) (tasks (sched k)) → safe (init_ap stack_start kernel_space cpu idle) k.
Proof.
  intros Hk Hc Hna Hid Hex. unfold init_ap. rewrite bind_gets || (eapply safe_run; [done|]).
  destruct (empty_slot_run k Hk) as [(slot & Hrun & Ht)|Hrun]; cycle 1.
  { exfalso. apply Exists_exists in Hex as (t & Hin & He). apply list_elem_of_lookup in Hin as [i Hi].
    unfold empty_slot in Hrun. destruct (position_is_Some is_empty _ i t Hi He) as [j Hj]. by rewrite Hj in Hrun. }
  unfold empty_slot in Hrun. destruct (position is_empty (tasks (sched k))) as [i|]; [|done]. assert (i = slot) as -> by (by injection Hrun).
  eapply safe_run; [done|]. eapply safe_run; [done|]. eapply safe_run; [done|].
  assert (Hcur : is_Some (current_slot (sched k) !! cpu)).
  { apply lookup_lt_is_Some. by rewrite (ok_current _ _ _ _ (proj1 Hk)). }
  destruct Hcur as [old Hold].
  eapply safe_run; [apply locked_run; unfold current; cbn; by rewrite Hold|].
  eapply safe_run; [done|]. eapply kernel_safe_ret; [done|done|]. simpl.
  set (f := λ t, set_cpu cpu (initialize_task stack_start slot (next_task_id k) "cpu-idle" idle LOW kernel_space t)).
  assert (Hplace : kernel_ok (with_next_id (wrapping_add 64 (next_task_id k) 1) (with_sched (with_count (task_count (sched k) + 1) (update slot f (sched k))) k))).
  { apply place_safe; [done|done|done|]. repeat split; simpl; [done|done|done|done]. }
  destruct Hplace as (Hok1 & Hn1 & Hl1). split; [|done]. simpl in Hok1 |- *.
  assert (Hslot : tasks (update slot f (sched k)) !! slot = Some (f task_empty)) by (simpl; by rewrite list_lookup_alter_eq, Ht).
  apply (take_over_ok idle nobody_stopped nobody_stopped _ cpu slot (set_state Running) _ (f task_empty)) in Hok1;
    [|done|done|done|done|by repeat split|done| |by right; right|by intros ? []].
  - rewrite update_update in Hok1. exact Hok1.
  - intros j u Hj Hcu Hrun'. simpl in Hj. destruct (decide (slot = j)) as [<-|Hne].
    + rewrite list_lookup_alter_eq, Ht in Hj. injection Hj as <-. done.
    + rewrite list_lookup_alter_ne in Hj by done. apply Hna. exists j. rewrite <-Hcu.
      by apply (ok_running _ _ _ _ (proj1 Hk)).
Qed.


(** Changes of tasks in place. *)
Lemma tasks_safe k ts n : kernel_ok k → tasks_step idle nobody_stopped (sched k) ts → n = Z.of_nat (count live ts) →
  kernel_ok (with_sched (with_count n (with_tasks ts (sched k))) k).
Proof. intros Hk Hst Hn. apply kernel_ok_with; [done|]. by eapply (tasks_step_ok idle); [apply Hk|done|done|]. Qed.

Lemma live_count_kept k ts : kernel_ok k → length ts = length (tasks (sched k)) →
  (∀ i t t', tasks (sched k) !! i = Some t → ts !! i = Some t' → live t' = live t) → task_count (sched k) = Z.of_nat (count live ts).
Proof.
  intros [Hok _] Hlen Hl. rewrite (ok_count _ _ _ _ Hok). f_equal. apply count_pointwise; [done|].
  intros i x y Hx Hy. symmetry. by eapply Hl.
Qed.

(** One task changed without stopping or starting it. *)
Lemma update_safe k i f : kernel_ok k →
  (∀ t, tasks (sched k) !! i = Some t → task_step idle nobody_stopped (sched k) i t (f t) ∧ live (f t) = live t) →
  kernel_ok (with_sched (update i f (sched k)) k).
Proof.
  intros Hk Hf.
  assert (Hst : tasks_step idle nobody_stopped (sched k) (alter f i (tasks (sched k)))).
  { apply update_step. intros t Ht. by apply Hf. }
  assert (Hn : task_count (sched k) = Z.of_nat (count live (alter f i (tasks (sched k))))).
  { apply live_count_kept; [done|apply length_alter|]. intros j t t' Hj Hj'.
    destruct (decide (i = j)) as [->|]; [|rewrite list_lookup_alter_ne in Hj' by done; by simplify_eq].
    rewrite list_lookup_alter_eq, Hj in Hj'. injection Hj' as <-. by apply Hf. }
  exact (tasks_safe k _ _ Hk Hst Hn).
Qed.

Lemma waiting_step k i t t' : kernel_ok k → tasks (sched k) !! i = Some t → same_core t t' →
  t_state t = Sleeping ∨ t_state t = Blocked → t_state t' = Ready → task_step idle nobody_stopped (sched k) i t t'.
Proof.
  intros [Hok _] Ht Hcore Hs Hr. apply step_change; [done|destruct Hs; congruence|congruence|congruence|by left|].
  intros Hruns. pose proof (ok_runs _ _ _ _ Hok (t_cpu t) i t (λ H, H) Hruns Ht). exfalso. destruct Hs; congruence.
Qed.
Lemma keep_step k i t t' : t_state t ≠ Empty → same_core t t' → t_state t' = t_state t → task_step idle nobody_stopped (sched k) i t t'.
Proof.
  intros Hne Hcore Hs. apply step_change; [done|done|congruence|congruence| |by right].
  unfold runnable. by rewrite Hs.
Qed.

Lemma wake_sleeping_safe k t0 : kernel_ok k → ∃ k', locked (wake_sleeping t0) k = (Ok tt, k') ∧ kernel_ok k' ∧
  k' = with_sched (with_tasks (map (wake_if_due t0) (tasks (sched k))) (sched k)) k.
Proof.
  intros Hk. eexists. split; [done|]. split; [|done].
  assert (Hdue : ∀ t, wake_if_due t0 t = t ∨ (t_state t = Sleeping ∧ wake_if_due t0 t = set_wake 0 (set_state Ready t))).
  { intros t. unfold wake_if_due. destruct (bool_decide _ && _) eqn:H; [right|by left].
    by apply andb_true_iff in H as [?%bool_decide_eq_true _]. }
  apply (tasks_safe k (map (wake_if_due t0) (tasks (sched k))) (task_count (sched k)) Hk).
  - split; [apply length_fmap|]. intros i t Ht. exists (wake_if_due t0 t). rewrite list_lookup_fmap, Ht. split; [done|].
    destruct (Hdue t) as [->|[Hs ->]]; [constructor|]. apply waiting_step; [done|done|by repeat split|by left|done].
  - apply (live_count_kept k (map (wake_if_due t0) (tasks (sched k)))); [done|apply length_fmap|]. intros i t t' Ht. rewrite list_lookup_fmap, Ht. intros [= <-].
    destruct (Hdue t) as [->|[Hs ->]]; [done|]. rewrite !live_state, Hs. done.
Qed.

Lemma runs_after_wake s c i t0 : runs s c i → runs (with_tasks (map (wake_if_due t0) (tasks s)) s) c i.
Proof.
  intros (Hc & t & Ht & Hcpu & Hne). split; [done|]. exists (wake_if_due t0 t). simpl. rewrite list_lookup_fmap, Ht.
  split; [done|]. unfold wake_if_due. by destruct (bool_decide _ && _).
Qed.

Lemma request_safe k c b : kernel_ok k → kernel_ok (with_requested (<[c := b]> (preemption_requested k)) k).
Proof. intros (? & ? & ?). split; [done|]. split; [done|]. simpl. by rewrite length_insert. Qed.

Lemma requested_run k c : kernel_ok k → active (sched k) c → ∃ b, requested c k = (Ok b, k).
Proof.
  intros (Hok & _ & Hl) [i [Hc _]]. unfold requested.
  enough (is_Some (preemption_requested k !! c)) as [b ->] by (by exists b). apply lookup_lt_is_Some. rewrite Hl, <-(ok_current _ _ _ _ Hok). by eapply lookup_lt_Some.
Qed.

Lemma tick_safe k c busy : kernel_ok k → active (sched k) c → safe (tick c busy) k.
Proof.
  intros Hk [i Hr]. unfold tick. destruct busy; [eapply kernel_safe_ret; [done|done|by apply request_safe]|].
  eapply safe_run; [done|]. destruct (wake_sleeping_safe k (now k) Hk) as (k1 & Hrun & Hk1 & Heq).
  eapply safe_run; [done|].
  assert (Hr1 : runs (sched k1) c i) by (rewrite Heq; by apply runs_after_wake).
  eapply safe_run; [by apply locked_current|]. destruct (runs_task _ _ _ Hr1) as (t & Ht & _ & Hne).
  eapply safe_run; [by apply locked_task_at|]. case_bool_decide as Hrun'; simpl; [|by apply safe_mret].
  assert (Hticks : ∀ n, kernel_ok (with_sched (update i (set_ticks n) (sched k1)) k1)).
  { intros n. apply update_safe; [done|]. intros u Hu. assert (u = t) as -> by congruence.
    split; [|by rewrite !live_state]. apply keep_step; [done|by repeat split|done]. }
  destruct (1 <? _); [eapply kernel_safe_ret; [done|done|apply Hticks]|].
  eapply safe_run; [done|]. eapply kernel_safe_ret; [done|done|]. apply request_safe, Hticks.
Qed.

Lemma preempt_safe k c busy : kernel_ok k → active (sched k) c → safe (preempt_from_interrupt stack_start c busy) k.
Proof.
  intros Hk Ha. unfold preempt_from_interrupt. eapply safe_run; [done|].
  destruct (Nat.eqb c 0 && _); [by apply safe_mret|].
  destruct (requested_run k c Hk Ha) as [b Hb]. eapply safe_run; [exact Hb|].
  pose proof (request_safe k c false Hk) as Hk1. eapply safe_run; [done|].
  destruct b; simpl; [|by apply safe_mret].
  destruct busy; [eapply safe_run; [done|]; apply safe_mret; by apply request_safe|].
  set (k1 := with_requested _ k) in *. eapply safe_run; [done|].
  destruct (wake_sleeping_safe k1 (now k1) Hk1) as (k2 & Hrun & Hk2 & Heq). eapply safe_run; [done|].
  apply dispatch_safe; [done|]. destruct Ha as [i Hr]. exists i. rewrite Heq. by apply runs_after_wake.
Qed.

Lemma yield_safe k c : kernel_ok k → active (sched k) c → safe (yield_now stack_start c) k.
Proof. intros Hk Ha. eapply safe_run; [by eapply running_run; [apply Hk|]|]. by apply dispatch_safe. Qed.

Lemma point_safe k c : kernel_ok k → active (sched k) c → safe (preemption_point stack_start c) k.
Proof.
  intros Hk Ha. unfold preemption_point. destruct (requested_run k c Hk Ha) as [b Hb]. eapply safe_run; [exact Hb|].
  destruct b; [|by apply safe_mret]. apply kernel_safe_bind; [by apply yield_safe|]. intros. by apply safe_mret.
Qed.

(** The four calls that stop the running task. *)
Inductive stopping (c : nat) (now : Z) : (TaskControlBlock → TaskControlBlock) → (Z → Z) → Io (option ContextSwitch) → Prop :=
| stop_block : stopping c now (set_state Blocked) (λ n, n) (block_current stack_start c)
| stop_sleep ticks : stopping c now (λ x, set_state Sleeping (set_wake (saturating_add 64 now (Z.max ticks 1)) x)) (λ n, n) (sleep_current stack_start c ticks)
| stop_exit : stopping c now (set_state Dead) (λ n, saturating_sub n 1) (exit_current_task stack_start c)
| stop_exit_process : stopping c now (λ t, set_name "exited" (set_state Dead t)) (λ n, saturating_sub n 1) (exit_process_task stack_start c true).

Lemma not_kernel_run s c i t : runs s c i → tasks s !! i = Some t → t_id t ≠ KERNEL_TASK_ID → not_kernel c s = (Ok i, s).
Proof.
  intros Hr Ht Hid. unfold not_kernel. rewrite (bind_run _ _ _ _ _ (current_run _ _ _ Hr)), (bind_run _ _ _ _ _ (task_at_run _ _ _ Ht)).
  by rewrite (proj2 (Z.eqb_neq _ _) Hid).
Qed.

Lemma stopping_runs c k f g m i t : stopping c (now k) f g m → runs (sched k) c i → tasks (sched k) !! i = Some t →
  t_id t ≠ KERNEL_TASK_ID →
  m k = let '(r, s') := prepare c (with_count (g (task_count (sched k))) (update i f (sched k))) in (r, with_sched s' k).
Proof.
  intros Hm Hr Ht Hid. pose proof (not_kernel_run _ _ _ _ Hr Ht Hid) as Hn.
  destruct Hm; unfold block_current, sleep_current, exit_current_task, exit_process_task; rewrite ?bind_gets;
    unfold locked; rewrite (bind_run _ _ _ _ _ Hn), !bind_modify; done.
Qed.

(** Stopping the running task never fails and hands the processor over. *)
Lemma stopping_total c k f g m : kernel_ok k → may_stop k c → stopping c (now k) f g m →
  ∃ i sw s', runs (sched k) c i ∧ m k = (Ok (Some sw), with_sched s' k) ∧
    switched stack_start c (with_count (g (task_count (sched k))) (update i f (sched k))) (Some sw) s' ∧
    kernel_ok (with_sched s' k) ∧
    sched_ok idle (λ d, d = c) (with_count (g (task_count (sched k))) (update i f (sched k))) (next_task_id k).
Proof.
  intros Hk (i & t & Hr & Ht & Hnp) Hm. pose proof (proj1 Hk) as Hok. exists i.
  assert (Hid : t_id t ≠ KERNEL_TASK_ID) by (intros ?; apply Hnp; by left).
  assert (Hstate : t_state (f t) = Blocked ∨ t_state (f t) = Sleeping ∨ t_state (f t) = Dead) by (destruct Hm; auto).
  assert (Hcore : same_core t (f t)) by (destruct Hm; by repeat split).
  assert (Hlt : 0 ≤ Z.b2z (live t) ≤ task_count (sched k)).
  { rewrite (ok_count _ _ _ _ Hok). pose proof (count_alter live (λ _, task_empty) i _ _ Ht) as Hc.
    destruct (live t); simpl in *; lia. }
  assert (Hcount : g (task_count (sched k)) = task_count (sched k) + Z.b2z (live (f t)) - Z.b2z (live t)).
  { pose proof (ok_runs _ _ _ _ Hok c i t (λ H, H) Hr Ht) as Hs. rewrite !(live_state t), Hs in *.
    destruct Hm; rewrite live_state; simpl in *; unfold saturating_sub; lia. }
  destruct (stop_run _ _ _ _ _ f _ Hok Hr Ht Hnp Hcore Hstate Hcount) as (sw & s' & Hrun & Hsw & Hok' & Hpre).
  exists sw, s'. split; [done|]. rewrite (stopping_runs _ _ _ _ _ _ _ Hm Hr Ht Hid), Hrun.
  split; [done|]. split; [done|]. split; [by apply kernel_ok_with|done].
Qed.

Lemma wake_task_safe k id : kernel_ok k → safe (wake_task id) k.
Proof.
  intros Hk. unfold wake_task. eapply safe_run; [done|].
  destruct (position (is_waiting id) (tasks (sched k))) as [i|] eqn:Hp; [|by apply safe_mret].
  apply position_Some_1 in Hp as (t & Ht & Hw). unfold is_waiting in Hw.
  rewrite andb_true_iff, orb_true_iff, !bool_decide_eq_true in Hw. destruct Hw as [_ Hw].
  eapply safe_run; [done|]. apply safe_mret. apply update_safe; [done|]. intros u Hu. assert (u = t) as -> by congruence.
  split; [apply waiting_step; [done|done|by repeat split|by destruct Hw; [right|left]|done]|].
  rewrite !live_state. destruct Hw as [-> | ->]; done.
Qed.

Lemma keep_safe k i f : kernel_ok k → (∀ t, same_core t (f t)) → (∀ t, t_state (f t) = t_state t) →
  (∀ t, tasks (sched k) !! i = Some t → t_state t ≠ Empty) → kernel_ok (with_sched (update i f (sched k)) k).
Proof.
  intros Hk Hcore Hs Hne. apply update_safe; [done|]. intros t Ht. split; [|by rewrite !live_state, Hs].
  by apply keep_step; [eapply Hne| |].
Qed.

Lemma exec_safe k c ctx space : kernel_ok k → active (sched k) c → safe (exec_task c ctx space) k.
Proof.
  intros Hk [i Hr]. destruct (runs_task _ _ _ Hr) as (t & Ht & _ & Hne).
  eapply safe_run; [by apply locked_current|]. eapply safe_run; [by apply locked_task_at|].
  eapply kernel_safe_ret; [done|done|]. apply keep_safe; [done|by repeat split|done|]. intros u Hu. congruence.
Qed.

Lemma change_caps_safe k f permitted c target : kernel_ok k → active (sched k) c → safe (change_caps f permitted c target) k.
Proof.
  intros Hk [i Hr]. destruct (runs_task _ _ _ Hr) as (t & Ht & _ & Hne).
  eapply safe_run; [by eapply running_run; [apply Hk|]|].
  eapply safe_run; [by apply locked_current|]. eapply safe_run; [by apply locked_task_at|].
  destruct (negb _); [by apply safe_mret|]. eapply safe_run; [done|].
  destruct (position (is_task target) (tasks (sched k))) as [j|] eqn:Hp; [|by apply safe_mret].
  apply position_Some_1 in Hp as (u & Hu & Hw). unfold is_task, is_empty in Hw.
  apply andb_true_iff in Hw as [Hw%negb_true_iff%bool_decide_eq_false _].
  eapply safe_run; [done|]. apply safe_mret. apply keep_safe; [done|by repeat split|done|]. intros v Hv. congruence.
Qed.

Lemma user_safe k c ready name ctx space : kernel_ok k → active (sched k) c → id_left k → safe (spawn_user_task stack_start c ready name ctx space) k.
Proof.
  intros Hk Ha Hid. apply place_process_safe; [done|done|done|]. intros slot.
  repeat split; simpl; [done|done|done|]. unfold MAX_CPUS. lia.
Qed.
Lemma fork_safe k c ready space : kernel_ok k → active (sched k) c → id_left k → safe (fork_task stack_start c ready space) k.
Proof.
  intros Hk Ha Hid. destruct Ha as [i Hr]. destruct (runs_task _ _ _ Hr) as (t & Ht & _ & _).
  eapply safe_run; [by apply locked_current|]. eapply safe_run; [by apply locked_task_at|].
  apply (place_process_safe k c ready (λ slot id, initialize_fork stack_start slot id space (t_capabilities t))); [done|by exists i|done|]. intros slot.
  repeat split; simpl; [done|done|done|]. unfold MAX_CPUS. lia.
Qed.

(** ** Killed tasks *)

Definition may_kill (ts : list TaskControlBlock) (id : Z) : Prop :=
  ∀ i t, ts !! i = Some t → t_id t = id → t_state t ≠ Empty ∧ t_state t ≠ Running ∧ ¬ permanent idle t.

Lemma kill_one_spec id t : (killable id t = true ∧ t_id t = id ∧ t_state t ≠ Dead ∧ kill_one id t = set_name "killed" (set_state Dead t)) ∨
  (killable id t = false ∧ kill_one id t = t).
Proof.
  unfold kill_one. destruct (killable id t) eqn:Hk; [left|by right]. split; [done|]. unfold killable in Hk.
  apply andb_true_iff in Hk as [?%Z.eqb_eq ?%negb_true_iff%bool_decide_eq_false]. done.
Qed.

Lemma kill_count id ts : may_kill ts id → (count live (map (kill_one id) ts) + count (killable id) ts = count live ts)%nat.
Proof.
  unfold count. induction ts as [|t ts IH]; [done|]. intros Hm. simpl.
  assert (may_kill ts id) as Hm' by (intros i u Hu; by apply (Hm (S i))). specialize (IH Hm').
  destruct (kill_one_spec id t) as [(Hk & Hid & Hs & ->)|[Hk ->]]; rewrite Hk.
  - destruct (Hm O t eq_refl Hid) as (? & _ & _). rewrite !live_state. simpl.
    destruct (t_state t); simpl; done || lia.
  - destruct (live t); simpl; lia.
Qed.

Lemma kill_one_safe k id : kernel_ok k → may_kill (tasks (sched k)) id →
  kernel_ok (with_sched (with_count (task_count (sched k) - Z.of_nat (count (killable id) (tasks (sched k))))
    (with_tasks (map (kill_one id) (tasks (sched k))) (sched k))) k).
Proof.
  intros Hk Hm. pose proof (proj1 Hk) as Hok. apply tasks_safe; [done| |].
  - split; [apply length_fmap|]. intros i t Ht. exists (kill_one id t). rewrite list_lookup_fmap, Ht. split; [done|].
    destruct (kill_one_spec id t) as [(_ & Hid & Hs & ->)|[_ ->]]; [|constructor].
    destruct (Hm i t Ht Hid) as (Hne & Hnr & Hnp).
    apply step_change; [by repeat split|done|done|done|by intros ?%Hnp|].
    intros Hr. by destruct (Hnr (ok_runs _ _ _ _ Hok _ i t (λ H, H) Hr Ht)).
  - rewrite (ok_count _ _ _ _ Hok), <-(kill_count id _ Hm). lia.
Qed.

Lemma may_kill_kept ts id id' : may_kill ts id → may_kill (map (kill_one id') ts) id.
Proof.
  intros Hm i t'. rewrite list_lookup_fmap. destruct (ts !! i) as [t|] eqn:Ht; [|done]. simpl. intros [= <-].
  destruct (kill_one_spec id' t) as [(_ & _ & _ & ->)|[_ ->]]; [|by apply (Hm i t)].
  intros Hid. destruct (Hm i t Ht Hid) as (? & ? & ?). done.
Qed.

Lemma kill_loop_safe ids : ∀ k n, kernel_ok k → 0 ≤ n → Forall (may_kill (tasks (sched k))) ids →
  let '(ts, m) := foldl (λ '(ts, n) id, (map (kill_one id) ts, n + Z.of_nat (count (killable id) ts))) (tasks (sched k), n) ids in
  kernel_ok (with_sched (with_count (task_count (sched k) + n - m) (with_tasks ts (sched k))) k).
Proof.
  induction ids as [|id ids IH]; intros k n Hk Hn Hall.
  { simpl. replace (task_count (sched k) + n - n) with (task_count (sched k)) by lia. by destruct k as [[] ?]. }
  apply Forall_cons in Hall as [Hm Hall]. pose proof (kill_one_safe k id Hk Hm) as Hk1. cbn [foldl].
  set (k1 := with_sched _ k) in Hk1. set (d := Z.of_nat (count (killable id) (tasks (sched k)))) in *.
  specialize (IH k1 (n + d) Hk1 ltac:(lia)).
  change (tasks (sched k1)) with (map (kill_one id) (tasks (sched k))) in IH.
  change (task_count (sched k1)) with (task_count (sched k) - d) in IH.
  destruct (foldl _ _ ids) as [ts m].
  replace (task_count (sched k) + n - m) with (task_count (sched k) - d + (n + d) - m) by lia.
  apply IH. eapply Forall_impl; [exact Hall|]. intros. by apply may_kill_kept.
Qed.

Lemma kill_safe k ids : kernel_ok k → allowed k (CKill ids) → safe (kill_tasks ids) k.
Proof.
  intros Hk Hall. unfold kill_tasks. case_bool_decide; [by apply safe_mret|].
  assert (Forall (may_kill (tasks (sched k))) ids) as Hm.
  { apply Forall_forall. intros id Hin i t Ht Hid. apply (Hall i t Ht). by rewrite Hid. }
  pose proof (kill_loop_safe ids k 0 Hk ltac:(lia) Hm) as H'. unfold locked, modify, kill_loop.
  eapply kernel_safe_ret; [done|done|]. cbn beta. destruct (foldl _ _ ids) as [ts m].
  assert (task_count (sched k) + 0 - m = saturating_sub (task_count (sched k)) m) as Heq; [|rewrite Heq in H'; exact H'].
  pose proof (ok_count _ _ _ _ (proj1 H')) as Hc. simpl in Hc. unfold saturating_sub. lia.
Qed.

(** ** Every call *)

Lemma kernel_call_safe k c : kernel_ok k → allowed k c → safe (run_call c) k.
Proof.
  intros Hk Ha. destruct c; simpl in Ha; unfold run_call; try apply safe_quietly.
  - destruct Ha. by apply spawn_safe.
  - destruct Ha. by apply spawn_on_safe.
  - destruct Ha as [Ho Hid]. eapply safe_run; [done|]. apply spawn_on_safe; [done| |done].
    split; [apply least_loaded_lt; lia|lia].
  - destruct Ha as (? & ? & ? & ?). by apply init_ap_safe.
  - by apply yield_safe.
  - by apply tick_safe.
  - by apply preempt_safe.
  - apply kernel_safe_bind; [by apply point_safe|]. intros. by apply safe_mret.
  - eapply kernel_safe_ret; [done|done|by apply request_safe].
  - destruct (stopping_total cpu k _ _ _ Hk Ha (stop_block cpu (now k))) as (i & sw & s' & _ & Hrun & _ & Hk' & _). by eapply kernel_safe_ret.
  - destruct (stopping_total cpu k _ _ _ Hk Ha (stop_sleep cpu (now k) ticks)) as (i & sw & s' & _ & Hrun & _ & Hk' & _). by eapply kernel_safe_ret.
  - destruct (stopping_total cpu k _ _ _ Hk Ha (stop_exit cpu (now k))) as (i & sw & s' & _ & Hrun & _ & Hk' & _). by eapply kernel_safe_ret.
  - destruct (stopping_total cpu k _ _ _ Hk Ha (stop_exit_process cpu (now k))) as (i & sw & s' & _ & Hrun & _ & Hk' & _). by eapply kernel_safe_ret.
  - by apply wake_task_safe.
  - by apply kill_safe.
  - destruct Ha. by apply user_safe.
  - destruct Ha. by apply fork_safe.
  - by apply exec_safe.
  - destruct Ha as (t & Ht & Hne). eapply kernel_safe_ret; [done|done|]. apply keep_safe; [done|by repeat split|done|]. intros u Hu. congruence.
  - by apply change_caps_safe.
  - by apply change_caps_safe.
  - eapply kernel_safe_ret; [done|done|]. done.
  - destruct enter; (eapply kernel_safe_ret; [done|done|]); done.
Qed.

(** ** The system *)

(** What [init] leaves; identities are drawn from 2. *)
Definition boot : Kernel :=
  mkKernel (snd (initialize stack_start idle kernel_space scheduler_empty)) 2 (replicate MAX_CPUS false) 0 0.

Definition step (k k' : Kernel) : Prop := ∃ c r, allowed k c ∧ run_call c k = (r, k').
Definition reachable (k : Kernel) : Prop := rtc step boot k.

Lemma boot_tasks i t : tasks (sched boot) !! i = Some t →
  (i = 0%nat ∧ t = kernel_task kernel_space task_empty) ∨
  (i = 1%nat ∧ t = initialize_task stack_start 1%nat IDLE_TASK_ID "idle" idle LOW kernel_space task_empty) ∨ t = task_empty.
Proof.
  destruct i as [|[|i]]; simpl; [intros [= <-]; by left|intros [= <-]; by right; left|].
  intros Hi. right; right. do 30 (destruct i as [|i]; [by injection Hi|]). done.
Qed.

Lemma boot_current c i : current_slot (sched boot) !! c = Some i → i = 0%nat ∧ (c < MAX_CPUS)%nat.
Proof. simpl. intros Hi. do 4 (destruct c as [|c]; [injection Hi as <-; unfold MAX_CPUS; lia|]). done. Qed.

Lemma boot_ok : kernel_ok boot.
Proof.
  split; [|split; [done|done]].
  assert (Hruns : runs (sched boot) 0 0) by (split; [done|by eexists]).
  split.
  - done.
  - done.
  - split; [done|]. by repeat constructor.
  - intros i t [[_ ->]|[[_ ->]| ->]]%boot_tasks; [right|right|by left]; (split; [done|]); simpl; unfold MAX_CPUS; repeat split; done || lia.
  - intros i j t u Hi Hj. destruct (boot_tasks i t Hi) as [[-> ->]|[[-> ->]| ->]], (boot_tasks j u Hj) as [[-> ->]|[[-> ->]| ->]]; done.
  - by eexists.
  - intros i t [[_ ->]|[[_ ->]| ->]]%boot_tasks; [by right|by left|]. intros Hp. by apply empty_not_permanent in Hp.
  - intros c [i [Hc (t & Ht & Hcpu & _)]]. apply boot_current in Hc as [-> _]. injection Ht as <-. simpl in Hcpu. subst c.
    eexists 0%nat, _. split; [done|]. split; [by left|done].
  - intros c i [-> _]%boot_current. by right.
  - intros i t [[-> ->]|[[_ ->]| ->]]%boot_tasks Hrun; done.
  - intros c i t _ [Hc _]. apply boot_current in Hc as [-> _]. intros [= <-]. done.
  - done.
Qed.

Lemma reachable_ok k : reachable k → kernel_ok k.
Proof.
  revert k. apply (rtc_ind_r kernel_ok boot); [apply boot_ok|]. intros k1 k2 _ (c & r & Hc & Hrun) IH.
  destruct (kernel_call_safe k1 c IH Hc) as (r' & k' & Hrun' & _ & Hk'). congruence.
Qed.

(** C13: ** Theorems *)

End calls.

(** ** A concrete system: two tasks, one of them running *)

Lemma reachable_call stack_start root idle k c : reachable stack_start root idle k → allowed idle k c →
  reachable stack_start root idle (run_call stack_start root idle c k).2.
Proof. intros Hk Hc. eapply rtc_r; [exact Hk|]. exists c, (run_call stack_start root idle c k).1. split; [done|apply surjective_pairing]. Qed.

Definition demo_stacks (slot : nat) : Z := 0x100000 + Z.of_nat slot * TASK_STACK_SIZE.
Definition demo_call (c : Call) (k : Kernel) : Kernel := (run_call demo_stacks 4096 77 c k).2.
Definition demo_boot : Kernel := boot demo_stacks 4096 77.
Definition demo_two : Kernel := demo_call (CSpawn "b" 2000 NORMAL) (demo_call (CSpawn "a" 1000 NORMAL) demo_boot).
Definition demo_running : Kernel := demo_call (CYield 0) demo_two.
Definition demo_asleep : Kernel := demo_call (CSleep 0 5) demo_running.
Abbreviation demo_reachable := (reachable demo_stacks 4096 77).

Lemma active_run k c i t : current_slot (sched k) !! c = Some i → tasks (sched k) !! i = Some t → t_cpu t = c → t_state t ≠ Empty →
  active (sched k) c.
Proof. intros Hc Ht Hcpu Hne. exists i. split; [done|]. by exists t. Qed.

Lemma demo_two_reachable : demo_reachable demo_two.
Proof.
  apply reachable_call; [|split; [set_solver|done]]. apply reachable_call; [|split; [set_solver|done]]. apply rtc_refl.
Qed.
Lemma demo_two_active : active (sched demo_two) 0.
Proof. eapply active_run; by vm_compute. Qed.
Lemma demo_running_reachable : demo_reachable demo_running.
Proof. apply reachable_call; [apply demo_two_reachable|apply demo_two_active]. Qed.
Lemma demo_running_may_stop : may_stop 77 demo_running 0.
Proof.
  exists 2%nat. eexists. split; [split; [by vm_compute|eexists; by vm_compute]|]. split; [by vm_compute|].
  intros [H|H]; by vm_compute in H.
Qed.
Lemma demo_asleep_reachable : demo_reachable demo_asleep.
Proof. apply reachable_call; [apply demo_running_reachable|apply demo_running_may_stop]. Qed.

