(* ===== verification/SchedFair.v ===== *)
(** * Fairness, progress and time slices of the scheduler

    What a dispatch chooses, that a ready task waits for fewer than [MAX_TASKS]
    dispatches of its priority, that a stopped task's processor runs another
    one, and when sleeping tasks wake. *)
From stdpp Require Import list gmap relations.
From S2P Require Import Prelude Config Capability Sched SchedSafe SchedCalls.

(** ** Calls that relate the table before and after by a preorder *)

Section within.
Context (R : Scheduler → Scheduler → Prop) `{!PreOrder R}.
#[local] Set Default Proof Using "All".

Definition within {A} (m : M Kernel SpawnError A) : Prop := ∀ k, R (sched k) (sched (m k).2).
Definition swithin {A} (f : M Scheduler SpawnError A) : Prop := ∀ s, R s (f s).2.

Lemma within_bind {A B} (m : M Kernel SpawnError A) (f : A → M Kernel SpawnError B) :
  within m → (∀ a, within (f a)) → within (m ≫= f).
Proof.
  intros Hm Hf k. specialize (Hm k). unfold mbind, M_bind. destruct (m k) as [[a|e|] k']; simpl in *; [|done..].
  etrans; [exact Hm|]. apply Hf.
Qed.
Lemma swithin_bind {A B} (m : M Scheduler SpawnError A) (f : A → M Scheduler SpawnError B) :
  swithin m → (∀ a, swithin (f a)) → swithin (m ≫= f).
Proof.
  intros Hm Hf s. specialize (Hm s). unfold mbind, M_bind. destruct (m s) as [[a|e|] s']; simpl in *; [|done..].
  etrans; [exact Hm|]. apply Hf.
Qed.
Lemma within_locked {A} (f : M Scheduler SpawnError A) : swithin f → within (locked f).
Proof. intros Hf k. unfold locked. specialize (Hf (sched k)). by destruct (f (sched k)). Qed.
Lemma within_modify f : (∀ k, sched (f k) = sched k) → within (modify f).
Proof. intros Hf k. simpl. by rewrite Hf. Qed.
Lemma within_gets {A} (f : Kernel → A) : within (gets f).
Proof. intros k. done. Qed.
Lemma within_same {A} (f : Kernel → res SpawnError A) : within (λ k, (f k, k)).
Proof. intros k. done. Qed.
Lemma within_ret {A} (a : A) : within (mret a).
Proof. intros k. done. Qed.
Lemma within_lift {A} (r : res SpawnError A) : within (lift r).
Proof. intros k. done. Qed.
Lemma within_fetch : within fetch_id.
Proof. intros k. done. Qed.
Lemma within_current c : within (locked (current c)).
Proof. apply within_locked. intros s. done. Qed.
Lemma within_task_at i : within (locked (task_at i)).
Proof. apply within_locked. intros s. done. Qed.
Lemma within_running : within running.
Proof. apply within_bind; [apply within_gets|]. intros n. destruct (n =? 0); [apply within_lift|apply within_ret]. Qed.
End within.

(** Steps through the code; a change of the table is left to [tac]. *)
Ltac within_step tac :=
  lazymatch goal with
  | |- within ?R (mbind _ _) => apply (within_bind R); [|intros ?]
  | |- within _ (if ?b then _ else _) => destruct b
  | |- within _ (match ?o with Some _ => _ | None => _ end) => destruct o
  | |- within _ (quietly _) => unfold quietly
  | |- within _ (request _ _) => unfold request
  | |- within ?R (requested _) => apply (within_same R)
  | |- within _ (yield_now _ _) => unfold yield_now
  | |- within ?R running => apply (within_running R)
  | |- within ?R fetch_id => apply (within_fetch R)
  | |- within ?R empty_slot => apply (within_same R)
  | |- within ?R (gets _) => apply (within_gets R)
  | |- within ?R (lift _) => apply (within_lift R)
  | |- within ?R (fail _) => apply (within_same R)
  | |- within ?R (mret _) => apply (within_ret R)
  | |- within ?R (locked (current _)) => apply (within_current R)
  | |- within ?R (locked (task_at _)) => apply (within_task_at R)
  | |- within ?R (locked _) => apply (within_locked R); tac
  | |- within ?R (modify _) => apply (within_modify R); done
  end.
Ltac within_steps tac := repeat within_step tac.

(** ** The dispatch order is changed by dispatches only *)

Definition same_last (s s' : Scheduler) : Prop := last_selected s' = last_selected s.
#[export] Instance same_last_preorder : PreOrder same_last.
Proof. split; [done|]. unfold same_last. intros s1 s2 s3 -> ->. done. Qed.

(** The processor that makes a dispatching call. *)
Definition dispatches (call : Call) : option nat :=
  match call with
  | CYield c | CPreempt c _ | CPoint c | CBlock c | CSleep c _ | CExit c | CExitProcess c => Some c
  | _ => None
  end.

Section fairness.
Context (stack_start : nat → Z) (root idle : Z).
Abbreviation run := (run_call stack_start root idle).
Abbreviation good := (kernel_ok idle).
Abbreviation may := (allowed idle).
Abbreviation switches := (switched stack_start).

Ltac last_kept := intros ?; first [done
  | unfold same_last, modify; simpl; by destruct (kill_loop _ _)
  | unfold reap_dead, current, mbind, M_bind; by destruct (or_panic _)].

(** Unfolds the calls that do not dispatch. *)
Ltac unfold_quiet := unfold run_call, spawn_with_priority, spawn_on, spawn_parallel, init_ap, spawn_on, place, tick,
    preemption_point_resumed, wake_task, kill_tasks, spawn_user_task, fork_task, place_process, place, exec_task, save_context,
    grant, revoke, change_caps, file_io_enter, file_io_leave.

Lemma quiet_last call : dispatches call = None → within same_last (run call).
Proof. intros Hd. destruct call; try done; unfold_quiet; within_steps ltac:(last_kept). Qed.

(** A dispatching call ends with [prepare_switch] in a state [s1] in which the
    ready tasks are those of the state before. *)
Definition ready_kept (s s1 : Scheduler) : Prop :=
  last_selected s1 = last_selected s ∧ ∀ i t, tasks s !! i = Some t → t_state t = Ready → tasks s1 !! i = Some t.

Lemma stop_ready_kept k c i f n : good k → runs (sched k) c i → ready_kept (sched k) (with_count n (update i f (sched k))).
Proof.
  intros [Hok _] Hr. split; [done|]. intros j t Ht Hs. simpl.
  rewrite list_lookup_alter_ne; [done|]. intros ->. pose proof (ok_runs _ _ _ _ Hok c j t (λ H, H) Hr Ht). congruence.
Qed.

Lemma wake_ready_kept k t0 : ready_kept (sched k) (with_tasks (map (wake_if_due t0) (tasks (sched k))) (sched k)).
Proof.
  split; [done|]. intros j t Ht Hs. simpl. rewrite list_lookup_fmap, Ht. simpl. unfold wake_if_due. by rewrite Hs.
Qed.

(** What a call may do to the processor [c] that makes it: keep the dispatch
    order, or dispatch. *)
Definition dispatched (k : Kernel) (c : nat) (sw : ContextSwitch) (k' : Kernel) : Prop :=
  ∃ s1 E, ready_kept (sched k) s1 ∧ sched_ok idle E s1 (next_task_id k) ∧ switches c s1 (Some sw) (sched k').
Definition effect (k : Kernel) (c : nat) (r : res SpawnError (option ContextSwitch)) (k' : Kernel) : Prop :=
  (last_selected (sched k') = last_selected (sched k) ∧ ∀ sw, r ≠ Ok (Some sw)) ∨
  (∃ sw, r = Ok (Some sw) ∧ dispatched k c sw k').

(** [prepare_switch] in a state [k1] reached from [k] without a dispatch. *)
Lemma prepare_effect k k1 c : good k1 → next_task_id k1 = next_task_id k → active (sched k1) c → ready_kept (sched k) (sched k1) →
  ∃ o k', locked (prepare_switch stack_start c) k1 = (Ok o, k') ∧ effect k c (Ok o) k'.
Proof.
  intros Hk1 Hid Ha1 Hrk. destruct (prepare_switch_run stack_start idle _ _ _ _ (proj1 Hk1) Ha1) as (o & s' & Hps & Hsw).
  exists o, (with_sched s' k1). split; [by apply locked_run|]. destruct o as [sw|].
  - right. exists sw. split; [done|]. exists (sched k1), nobody_stopped. split; [done|]. split; [rewrite <-Hid; apply Hk1|done].
  - left. split; [|done]. inversion Hsw. simpl. apply Hrk.
Qed.

Lemma yield_effect k c : good k → active (sched k) c → ∃ o k', yield_now stack_start c k = (Ok o, k') ∧ effect k c (Ok o) k'.
Proof.
  intros Hk Ha. unfold yield_now. rewrite (bind_run _ _ _ _ _ (running_run idle _ _ k _ (proj1 Hk) eq_refl)).
  by apply prepare_effect.
Qed.

Lemma stop_effect k c f g m : good k → may_stop idle k c → stopping stack_start c (now k) f g m →
  ∃ r k', m k = (r, k') ∧ effect k c r k'.
Proof.
  intros Hk Hm Hst. destruct (stopping_total stack_start idle c k f g m Hk Hm Hst) as (i & sw & s' & Hr & Hmk & Hsw & _ & Hpre).
  eexists _, _. split; [exact Hmk|]. right. exists sw. split; [done|]. eexists _, _. split; [by eapply stop_ready_kept|].
  split; [exact Hpre|exact Hsw].
Qed.

Lemma preempt_effect k c busy : good k → active (sched k) c → ∃ o k', preempt_from_interrupt stack_start c busy k = (Ok o, k') ∧ effect k c (Ok o) k'.
Proof.
  intros Hk Ha. unfold preempt_from_interrupt. rewrite bind_gets.
  destruct (_ && _); [eexists _, _; split; [done|by left]|].
  destruct (requested_run idle k c Hk Ha) as [b Hb]. rewrite (bind_run _ _ _ _ _ Hb). unfold request. rewrite bind_modify.
  destruct b; cbv beta iota delta [negb]; [|eexists _, _; split; [done|by left]].
  destruct busy; [rewrite bind_modify; eexists _, _; split; [done|by left]|].
  rewrite bind_gets. pose proof (request_safe idle k c false Hk) as Hk1. set (k1 := with_requested _ k) in *.
  destruct (wake_sleeping_safe idle k1 (now k1) Hk1) as (k2 & Hw & Hk2 & Heq). rewrite (bind_run _ _ _ _ _ Hw).
  apply prepare_effect; [done| | |]; rewrite Heq; [done| |apply (wake_ready_kept k1)].
  destruct Ha as [i Hr]. exists i. by apply runs_after_wake.
Qed.

Lemma point_effect k c : good k → active (sched k) c →
  ∃ o k', (o ← preemption_point stack_start c; mret (o ≫= id)) k = (Ok o, k') ∧ effect k c (Ok o) k'.
Proof.
  intros Hk Ha. destruct (requested_run idle k c Hk Ha) as [b Hb]. unfold preemption_point.
  destruct b.
  - destruct (yield_effect k c Hk Ha) as (o & k' & Hy & He). exists o, k'. split; [|done].
    rewrite (bind_run _ _ k (Ok (Some o)) k'); [done|]. rewrite (bind_run _ _ _ _ _ Hb). by rewrite (bind_run _ _ _ _ _ Hy).
  - exists None, k. split; [|by left]. rewrite (bind_run _ _ k (Ok None) k); [done|]. by rewrite (bind_run _ _ _ _ _ Hb).
Qed.

Lemma effect_run {A} (m : M Kernel SpawnError A) (P : res SpawnError A → Kernel → Prop) k r k' :
  (∃ o k', m k = (o, k') ∧ P o k') → m k = (r, k') → P r k'.
Proof. intros (o & k2 & Hm & HP) Hm'. rewrite Hm in Hm'. by injection Hm' as <- <-. Qed.

Lemma effect_run_Ok {A} (m : M Kernel SpawnError A) (P : res SpawnError A → Kernel → Prop) k r k' :
  (∃ o k', m k = (Ok o, k') ∧ P (Ok o) k') → m k = (r, k') → P r k'.
Proof. intros (o & k2 & Hm & HP). apply effect_run. eauto. Qed.

Lemma call_effect k call r k' : good k → may k call → run call k = (r, k') →
  match dispatches call with
  | Some c => effect k c r k'
  | None => last_selected (sched k') = last_selected (sched k) ∧ ∀ sw, r ≠ Ok (Some sw)
  end.
Proof.
  intros Hk Ha Hrun. destruct (dispatches call) as [c|] eqn:Hd; cycle 1.
  { pose proof (quiet_last call Hd k) as Hl. rewrite Hrun in Hl. split; [done|]. intros sw ->.
    destruct call; try done; unfold run_call, quietly in Hrun; by apply M_bind_Ok_inv in Hrun as (? & ? & ? & ?). }
  destruct call; try done; injection Hd as ->; simpl in Ha.
  - eapply (effect_run_Ok _ (effect k c)); [by apply yield_effect|exact Hrun].
  - eapply (effect_run_Ok _ (effect k c)); [by apply preempt_effect|exact Hrun].
  - eapply (effect_run_Ok _ (effect k c)); [by apply point_effect|exact Hrun].
  - eapply (effect_run _ (effect k c)); [by eapply stop_effect; [| |apply (stop_block stack_start c (now k))]|exact Hrun].
  - eapply (effect_run _ (effect k c)); [by eapply stop_effect; [| |apply (stop_sleep stack_start c (now k) ticks)]|exact Hrun].
  - eapply (effect_run _ (effect k c)); [by eapply stop_effect; [| |apply (stop_exit stack_start c (now k))]|exact Hrun].
  - eapply (effect_run _ (effect k c)); [by eapply stop_effect; [| |apply (stop_exit_process stack_start c (now k))]|exact Hrun].
Qed.

(** The slot last chosen by processor [c] at priority [p]. *)
Definition entry (s : Scheduler) (c : nat) (p : Z) : nat :=
  match last_selected s !! c with Some row => default O (row !! Z.to_nat p) | None => O end.

Lemma entry_same s s' c p : last_selected s' = last_selected s → entry s' c p = entry s c p.
Proof. unfold entry. by intros ->. Qed.

Lemma reaped_ready c prev s i t : is_ready c t = true → tasks (reaped c prev s) !! i = Some t ↔ tasks s !! i = Some t.
Proof.
  intros Hr. split; intros Hi.
  - destruct (reaped_lookup_inv _ _ _ _ _ Hi) as [?|(-> & _)]; [done|]. done.
  - rewrite (reaped_lookup c prev s i t Hi). unfold is_dead. destruct (ready_not_empty _ _ Hr) as [-> _].
    simpl. by rewrite andb_false_r.
Qed.

(** The chosen task runs; ready tasks of its priority come nearer; the search
    order of other processors and priorities is kept. *)
Record chosen (c : nat) (s : Scheduler) (sw : ContextSwitch) (s' : Scheduler) (t : TaskControlBlock) : Prop := {
  chosen_task : tasks s !! cs_next sw = Some t;
  chosen_ready : is_ready c t = true;
  chosen_runs : tasks s' !! cs_next sw = Some (promote t) ∧ current_slot s' !! c = Some (cs_next sw);
  chosen_best : ∀ i v, tasks s !! i = Some v → is_ready c v = true → t_priority v ≤ t_priority t;
  chosen_nearer : ∀ i v, tasks s !! i = Some v → is_ready c v = true → t_priority v = t_priority t → i ≠ cs_next sw →
    (distance (entry s' c (t_priority t)) i < distance (entry s c (t_priority t)) i)%nat;
  chosen_others : ∀ d p, 0 ≤ p → d ≠ c ∨ p ≠ t_priority t → entry s' d p = entry s d p;
  chosen_stack : cs_next_rsp sw = t_stack_pointer t ∧ t_address_space t = Some (cs_next_space sw) }.

Lemma switched_chosen c s sw s' E next : sched_ok idle E s next → switches c s (Some sw) s' → ∃ t, chosen c s sw s' t.
Proof.
  intros Hok Hsw. inversion Hsw as [|prev j t row start space Hc Hj Hr Hbest Hrow Hstart Hnear Hsp]; subst. exists t.
  pose proof (proj1 (reaped_ready _ _ _ _ _ Hr) Hj) as Hj0.
  assert (Hjl : (j < MAX_TASKS)%nat) by (rewrite <-(ok_length _ _ _ _ Hok); by eapply lookup_lt_Some).
  destruct (ok_task _ _ _ _ Hok j t Hj0) as [[He _]|(_ & _ & Hp & _)]; [destruct (ready_not_empty _ _ Hr); congruence|].
  assert (Hentry : entry s c (t_priority t) = start) by (unfold entry; by rewrite Hrow, Hstart).
  assert (Hcl : (c < length (last_selected s))%nat) by (by eapply lookup_lt_Some).
  assert (Hpl : (Z.to_nat (t_priority t) < length row)%nat) by (by eapply lookup_lt_Some).
  assert (Hent' : entry (dispatch (reaped c prev s) c prev j row (t_priority t)) c (t_priority t) = j).
  { unfold entry, dispatch. simpl. rewrite list_lookup_insert_eq by done. by rewrite list_lookup_insert_eq by done. }
  split; simpl.
  - done.
  - done.
  - split.
    + unfold dispatch. simpl. rewrite list_lookup_alter_eq. destruct (decide (prev = j)) as [->|].
      * rewrite list_lookup_alter_eq. simpl in Hj. rewrite Hj. simpl. unfold demote.
        rewrite bool_decide_false; [done|]. destruct (ready_not_empty _ _ Hr). congruence.
      * rewrite list_lookup_alter_ne by done. simpl in Hj. by rewrite Hj.
    + apply list_lookup_insert_eq. by eapply lookup_lt_Some.
  - intros i v Hi Hv. apply (Hbest i v); [by apply reaped_ready|done].
  - intros i v Hi Hv Hpv Hne. rewrite Hent', Hentry.
    assert (Hil : (i < MAX_TASKS)%nat) by (rewrite <-(ok_length _ _ _ _ Hok); by eapply lookup_lt_Some).
    apply distance_decreases; [done|done|done|]. apply (Hnear i v); [by apply reaped_ready|done|done].
  - intros d p Hp0 Hd. unfold entry, dispatch. simpl. destruct (decide (d = c)) as [->|].
    + rewrite list_lookup_insert_eq by done. rewrite Hrow, list_lookup_insert_ne; [done|].
      destruct Hd as [?|?]; [done|]. lia.
    + by rewrite list_lookup_insert_ne by done.
  - done.
Qed.

(** ** A ready task waits for a bounded number of dispatches *)

Definition ready_at (k : Kernel) (c i : nat) (p : Z) : Prop :=
  ∃ t, tasks (sched k) !! i = Some t ∧ is_ready c t = true ∧ t_priority t = p.

(** Whether a call was a dispatch of processor [c] at priority [p]. *)
Definition turn (c : nat) (p : Z) (call : Call) (r : res SpawnError (option ContextSwitch)) (k' : Kernel) : nat :=
  match r with
  | Ok (Some sw) =>
    if bool_decide (dispatches call = Some c) &&
       match tasks (sched k') !! cs_next sw with Some t => t_priority t =? p | None => false end then 1%nat else 0%nat
  | _ => 0%nat
  end.

(** C14: From [k] to [k'] any calls of any processors were made, with [n] dispatches
    of [c] at priority [p], and the task of slot [i] was ready all along. *)
Inductive waits (c i : nat) (p : Z) : nat → Kernel → Kernel → Prop :=
| waits_here k : ready_at k c i p → waits c i p 0 k k
| waits_call n k k1 k2 call r : waits c i p n k k1 → may k1 call → run call k1 = (r, k2) → ready_at k2 c i p →
    waits c i p (n + turn c p call r k2) k k2.

Lemma turn_step c i p k call r k' : good k → may k call → run call k = (r, k') → ready_at k c i p → ready_at k' c i p →
  (turn c p call r k' + distance (entry (sched k') c p) i ≤ distance (entry (sched k) c p) i)%nat.
Proof.
  intros Hk Ha Hrun (t & Ht & Hr & Hp) (u & Hu & Hru & _).
  pose proof (call_effect k call r k' Hk Ha Hrun) as He.
  assert (Hquiet : last_selected (sched k') = last_selected (sched k) ∧ (∀ sw, r ≠ Ok (Some sw)) →
    (turn c p call r k' + distance (entry (sched k') c p) i ≤ distance (entry (sched k) c p) i)%nat).
  { intros [Hl Hns]. rewrite (entry_same _ _ _ _ Hl). assert (turn c p call r k' = 0)%nat as ->; [|done].
    unfold turn. destruct r as [[sw|]| |]; [|done..]. by destruct (Hns sw). }
  destruct (dispatches call) as [d|] eqn:Hd; [|by apply Hquiet].
  destruct He as [?|(sw & -> & s1 & E & [Hl1 Hkept] & Hpre & Hsw)]; [by apply Hquiet|].
  destruct (ready_not_empty _ _ Hr) as [Hst _]. pose proof (Hkept i t Ht Hst) as Ht1.
  destruct (switched_chosen d s1 sw (sched k') E _ Hpre Hsw) as [v Hv].
  destruct (chosen_runs _ _ _ _ _ Hv) as [Hrv _].
  destruct (ok_task _ _ _ _ (proj1 Hk) i t Ht) as [[He _]|(_ & _ & Hp0 & _)]; [congruence|].
  unfold turn. rewrite Hd, Hrv. change (t_priority (promote v)) with (t_priority v).
  rewrite <-(entry_same (sched k) s1 c p Hl1).
  destruct (decide (d = c)) as [->|Hdc]; cycle 1.
  { rewrite bool_decide_false by congruence. simpl. rewrite (chosen_others _ _ _ _ _ Hv c p); [done|lia|by left]. }
  rewrite bool_decide_true by done. simpl. destruct (Z.eqb_spec (t_priority v) p) as [Hvp|Hvp].
  - rewrite <-Hvp. apply (chosen_nearer _ _ _ _ _ Hv i t); [done|done|congruence|].
    intros ->. rewrite Hrv in Hu. injection Hu as <-. done.
  - rewrite (chosen_others _ _ _ _ _ Hv c p); [done|lia|right; done].
Qed.

Lemma waits_good c i p n k k' : good k → waits c i p n k k' → good k' ∧ ready_at k c i p ∧ ready_at k' c i p.
Proof.
  intros Hk. induction 1 as [k|n k k1 k2 call r _ IH Ha Hrun Hr]; [done|].
  destruct (IH Hk) as (Hk1 & Hr0 & _). destruct (kernel_call_safe stack_start root idle k1 call Hk1 Ha) as (r' & k' & Hrun' & _ & Hk').
  split; [congruence|done].
Qed.

Lemma waits_distance c i p n k k' : good k → waits c i p n k k' →
  (n + distance (entry (sched k') c p) i ≤ distance (entry (sched k) c p) i)%nat.
Proof.
  intros Hk. induction 1 as [k|n k k1 k2 call r Hw IH Ha Hrun Hr]; [done|].
  destruct (waits_good _ _ _ _ _ _ Hk Hw) as (Hk1 & _ & Hr1). specialize (IH Hk).
  pose proof (turn_step c i p k1 call r k2 Hk1 Ha Hrun Hr1 Hr). lia.
Qed.

Theorem ready_task_waits_boundedly c i p n k k' : reachable stack_start root idle k → waits c i p n k k' →
  (n < MAX_TASKS)%nat ∧
  ∀ call k2 sw, may k' call → run call k' = (Ok (Some sw), k2) → dispatches call = Some c →
    ∃ u, tasks (sched k2) !! cs_next sw = Some u ∧ t_state u = Running ∧ p ≤ t_priority u.
Proof.
  intros Hk%reachable_ok Hw. split.
  - pose proof (waits_distance _ _ _ _ _ _ Hk Hw). pose proof (distance_lt (entry (sched k) c p) i). lia.
  - intros call k2 sw Ha Hrun Hd. destruct (waits_good _ _ _ _ _ _ Hk Hw) as (Hk' & _ & t & Ht & Hr & <-).
    pose proof (call_effect k' call _ k2 Hk' Ha Hrun) as He. rewrite Hd in He.
    destruct He as [[_ Hns]|(sw' & Heq & s1 & E & [_ Hkept] & Hpre & Hsw)]; [by destruct (Hns sw)|]. injection Heq as <-.
    destruct (switched_chosen c s1 sw (sched k2) E _ Hpre Hsw) as [v Hv]. exists (promote v).
    split; [apply (chosen_runs _ _ _ _ _ Hv)|]. split; [done|].
    apply (chosen_best _ _ _ _ _ Hv i t); [|done]. apply Hkept; [done|by apply ready_not_empty in Hr as [? _]].
Qed.
End fairness.

(** In the demonstration system the second task waits for the first's dispatch. *)
Lemma demo_waits : waits demo_stacks 4096 77 0 3 NORMAL 1 demo_two demo_running.
Proof.
  apply (waits_call demo_stacks 4096 77 0 3 NORMAL 0 demo_two demo_two demo_running (CYield 0) (run_call demo_stacks 4096 77 (CYield 0) demo_two).1).
  - apply waits_here. eexists. by vm_compute.
  - apply demo_two_active.
  - apply surjective_pairing.
  - eexists. by vm_compute.
Qed.

Lemma ready_task_waits_witness : demo_reachable demo_two ∧ waits demo_stacks 4096 77 0 3 NORMAL 1 demo_two demo_running ∧ (1 < MAX_TASKS)%nat.
Proof.
  split; [exact demo_two_reachable|]. split; [exact demo_waits|].
  exact (proj1 (ready_task_waits_boundedly demo_stacks 4096 77 0 3 NORMAL 1 demo_two demo_running demo_two_reachable demo_waits)).
Defined.
