(* ===== verification/SchedSleep.v ===== *)
(** * Stopping, sleeping and waking

    A task that blocks, sleeps or exits leaves its processor to the best ready
    task; a sleeping task sleeps until the first tick at or after its deadline,
    unless it is woken by name or killed. *)
From stdpp Require Import list gmap relations.
From S2P Require Import Prelude Config Capability Sched SchedSafe SchedCalls SchedFair.

Section stopping.
Context (stack_start : nat → Z) (root idle : Z).
Abbreviation run := (run_call stack_start root idle).
Abbreviation good := (kernel_ok idle).
Abbreviation may := (allowed idle).
Abbreviation reach := (reachable stack_start root idle).

(** A dispatch leaves the tasks alone that are neither dead nor chosen nor running. *)
Lemma switched_keeps c s o s' i t : switched stack_start c s o s' → tasks s !! i = Some t →
  t_state t = Sleeping ∨ t_state t = Blocked → tasks s' !! i = Some t.
Proof.
  intros Hsw Hi Hs. assert (Hre : ∀ prev, tasks (reaped c prev s) !! i = Some t).
  { intros prev. rewrite (reaped_lookup c prev s i t Hi). unfold is_dead. destruct Hs as [-> | ->]; simpl; by rewrite andb_false_r. }
  destruct Hsw as [prev _ _|prev j u row start space _ Hj Hr _ _ _ _ _]; [done|].
  unfold dispatch. simpl. rewrite list_lookup_alter_ne.
  - destruct (decide (prev = i)) as [->|]; [|rewrite list_lookup_alter_ne by done; apply Hre].
    rewrite list_lookup_alter_eq. pose proof (Hre i) as H. simpl in H. rewrite H. simpl. unfold demote.
    by destruct Hs as [-> | ->].
  - intros ->. destruct (ready_not_empty _ _ Hr) as [Hst _]. rewrite Hre in Hj. injection Hj as <-.
    destruct Hs; congruence.
Qed.

Lemma prev_of_switched c s sw s' : switched stack_start c s (Some sw) s' → current_slot s !! c = Some (cs_previous sw).
Proof. intros Hsw. by inversion Hsw. Qed.

(** The dead task stays in its slot until the processor's next dispatch. *)
Lemma switched_previous c s sw s' t : switched stack_start c s (Some sw) s' → tasks s !! cs_previous sw = Some t →
  t_state t ≠ Running → t_state t ≠ Ready → tasks s' !! cs_previous sw = Some t.
Proof.
  intros Hsw Hi Hnr Hny. inversion Hsw as [|prev j u row start space _ Hj Hr _ _ _ _ _]; subst. simpl in *.
  assert (Hp : tasks (reaped c prev s) !! prev = Some t) by (by rewrite (reaped_lookup c prev s prev t Hi), Nat.eqb_refl).
  rewrite list_lookup_alter_ne.
  - rewrite list_lookup_alter_eq. simpl in Hp. rewrite Hp. simpl. unfold demote. by rewrite bool_decide_false.
  - intros ->. destruct (ready_not_empty _ _ Hr) as [Hst _]. simpl in Hp. rewrite Hp in Hj. by injection Hj as <-.
Qed.

Theorem stopped_processor_continues c k f g m : reach k → may_stop idle k c → stopping stack_start c (now k) f g m →
  ∃ i t sw k' u, runs (sched k) c i ∧ tasks (sched k) !! i = Some t ∧ m k = (Ok (Some sw), k') ∧
    cs_previous sw = i ∧ tasks (sched k') !! i = Some (f t) ∧
    runs (sched k') c (cs_next sw) ∧ tasks (sched k') !! cs_next sw = Some u ∧
    t_state u = Running ∧ t_remaining_ticks u = quantum (t_priority u) ∧
    cs_next_rsp sw = t_stack_pointer u ∧ t_address_space u = Some (cs_next_space sw) ∧
    ∀ j v, tasks (sched k) !! j = Some v → is_ready c v = true → t_priority v ≤ t_priority u.
Proof.
  intros Hk%reachable_ok Hm Hst.
  destruct (stopping_total stack_start idle c k f g m Hk Hm Hst) as (i & sw & s' & Hr & Hmk & Hsw & Hk' & Hpre).
  destruct (runs_task _ _ _ Hr) as (t & Ht & _ & _).
  destruct (switched_chosen stack_start idle _ _ _ _ _ _ Hpre Hsw) as [v Hv].
  pose proof (prev_of_switched _ _ _ _ Hsw) as Hprev. change (current_slot (sched k) !! c = Some (cs_previous sw)) in Hprev.
  assert (cs_previous sw = i) as Hpi by (destruct Hr; congruence).
  exists i, t, sw, (with_sched s' k), (promote v). destruct (chosen_runs _ _ _ _ _ Hv) as [Hrun Hcur].
  destruct (ready_not_empty _ _ (chosen_ready _ _ _ _ _ Hv)) as [_ Hvc].
  do 4 (split; [done|]). split.
  { rewrite <-Hpi. apply (switched_previous _ _ _ _ _ Hsw); [|destruct Hst; done..].
    rewrite Hpi. simpl. by rewrite list_lookup_alter_eq, Ht. }
  split; [split; [done|]; exists (promote v); done|]. do 3 (split; [done|]).
  split; [apply (chosen_stack _ _ _ _ _ Hv)|]. split; [apply (chosen_stack _ _ _ _ _ Hv)|].
  intros j u Hj Hu. apply (chosen_best _ _ _ _ _ Hv j u); [|done]. simpl.
  rewrite list_lookup_alter_ne; [done|]. intros ->.
  pose proof (ok_runs _ _ _ _ (proj1 Hk) c j u (λ H, H) Hr Hj). destruct (ready_not_empty _ _ Hu). congruence.
Qed.

(** ** Sleeping *)

Section sleeper.
Context (i : nat) (id w : Z).

(** The task of slot [i] sleeps until [w]. *)
Definition asleep (s : Scheduler) : Prop :=
  ∃ t, tasks s !! i = Some t ∧ t_state t = Sleeping ∧ t_id t = id ∧ t_wake_tick t = w.

Definition keeps_asleep (f : TaskControlBlock → TaskControlBlock) : Prop :=
  ∀ t, t_state t = Sleeping → t_state (f t) = Sleeping ∧ t_id (f t) = t_id t ∧ t_wake_tick (f t) = t_wake_tick t.

Lemma asleep_update j f s : asleep s → j ≠ i ∨ keeps_asleep f → asleep (update j f s).
Proof.
  intros (t & Ht & Hs & Hid & Hw) Hj. destruct (decide (j = i)) as [->|Hne].
  - destruct Hj as [?|Hf]; [done|]. exists (f t). simpl. rewrite list_lookup_alter_eq, Ht.
    destruct (Hf t Hs) as (? & ? & ?). split; [done|]. split; [done|]. split; congruence.
  - exists t. simpl. by rewrite list_lookup_alter_ne.
Qed.
Lemma asleep_map f s : asleep s → (∀ t, t_state t = Sleeping → t_id t = id → t_wake_tick t = w → f t = t) → asleep (with_tasks (map f (tasks s)) s).
Proof.
  intros (t & Ht & Hs & Hid & Hw) Hf. exists t. simpl. rewrite list_lookup_fmap, Ht. simpl. by rewrite Hf.
Qed.
Lemma asleep_switched c s o s' : switched stack_start c s o s' → asleep s → asleep s'.
Proof. intros Hsw (t & Ht & Hs & ?). exists t. split; [|done]. eapply switched_keeps; [exact Hsw|done|by left]. Qed.

(** A call of [m] in [k] leaves the sleeper asleep. *)
Definition lets_sleep {A} (m : M Kernel SpawnError A) (k : Kernel) : Prop := asleep (sched k) → asleep (sched (m k).2).

Lemma lets_bind {A B} (m : M Kernel SpawnError A) (f : A → M Kernel SpawnError B) k :
  lets_sleep m k → (∀ a k', m k = (Ok a, k') → asleep (sched k') → lets_sleep (f a) k') → lets_sleep (m ≫= f) k.
Proof.
  intros Hm Hf Hs. specialize (Hm Hs). unfold mbind, M_bind. destruct (m k) as [[a|e|] k'] eqn:Hmk; simpl in *; [|done..].
  by apply (Hf a k').
Qed.
Lemma lets_same {A} (m : M Kernel SpawnError A) k : sched (m k).2 = sched k → lets_sleep m k.
Proof. unfold lets_sleep. by intros ->. Qed.
Lemma lets_update k j f : j ≠ i ∨ keeps_asleep f → lets_sleep (locked (modify (update j f))) k.
Proof. intros Hf Hs. by apply asleep_update. Qed.

(** The running task is another one, and so is the task of an empty slot. *)
Lemma running_elsewhere k c j : good k → asleep (sched k) → runs (sched k) c j → j ≠ i.
Proof.
  intros Hk (t & Ht & Hs & _) Hr ->. pose proof (ok_runs _ _ _ _ (proj1 Hk) c i t (λ H, H) Hr Ht). congruence.
Qed.
Lemma empty_elsewhere k slot k' : asleep (sched k) → empty_slot k = (Ok slot, k') → k' = k ∧ slot ≠ i.
Proof.
  unfold empty_slot. intros (t & Ht & Hs & _) He. destruct (position is_empty (tasks (sched k))) as [j|] eqn:Hp; [|done].
  injection He as <- <-. split; [done|]. intros ->. apply position_Some_1 in Hp as (u & Hu & He%bool_decide_eq_true). congruence.
Qed.

Lemma place_lets k slot f : slot ≠ i → lets_sleep (place slot f) k.
Proof. intros Hne. apply lets_bind; [by apply lets_update; left|]. intros ? ? ? ? Hs. exact Hs. Qed.

Lemma fresh_lets {A} k (f : nat → Z → TaskControlBlock → TaskControlBlock) (a : nat → Z → A) :
  lets_sleep (slot ← empty_slot; id ← fetch_id; _ ← place slot (f slot id); mret (a slot id)) k.
Proof.
  intros Hs. apply lets_bind; [by apply lets_same| |done]. intros slot k' He _.
  destruct (empty_elsewhere k slot k' Hs He) as [-> Hne].
  apply lets_bind; [by apply lets_same|]. intros id' k1 _ _. apply lets_bind; [by apply place_lets|].
  intros. by apply lets_same.
Qed.

Lemma reap_lets k c j : runs (sched k) c j → lets_sleep (locked (reap_dead c)) k.
Proof.
  intros Hr Hs. unfold locked, reap_dead. rewrite (bind_run _ _ _ _ _ (current_run _ _ _ Hr)).
  destruct Hs as (t & Ht & Hst & ?). exists t. split; [|done]. change (tasks (reaped c j (sched k)) !! i = Some t).
  rewrite (reaped_lookup c j _ i t Ht). unfold is_dead. rewrite Hst. simpl. by rewrite andb_false_r.
Qed.

Lemma place_process_lets k c ready f : active (sched k) c → lets_sleep (place_process c ready f) k.
Proof.
  intros [j Hr] Hs. apply lets_bind; [by eapply reap_lets| |done]. intros _ k1 _ _. destruct ready.
  - apply (fresh_lets k1 f (λ _ id, id)).
  - intros Hs1. apply lets_bind; [by apply lets_same| |done]. intros slot k2 _ _.
    apply lets_bind; [by apply lets_same|]. intros. by apply lets_same.
Qed.

Lemma with_current_lets k c {A} (f : nat → TaskControlBlock → M Kernel SpawnError A) : active (sched k) c →
  (∀ j t, runs (sched k) c j → lets_sleep (f j t) k) →
  lets_sleep (slot ← locked (current c); t ← locked (task_at slot); f slot t) k.
Proof.
  intros [j Hr] Hf Hs. destruct (runs_task _ _ _ Hr) as (t & Ht & _ & _).
  rewrite (bind_run _ _ _ _ _ (locked_current _ _ _ Hr)), (bind_run _ _ _ _ _ (locked_task_at _ _ _ Ht)). by apply Hf.
Qed.

Lemma change_caps_lets k f permitted c target : good k → active (sched k) c → lets_sleep (change_caps f permitted c target) k.
Proof.
  intros Hk Ha. unfold change_caps. intros Hs.
  rewrite (bind_run _ _ _ _ _ (running_run idle _ _ k _ (proj1 Hk) eq_refl)). revert Hs.
  apply with_current_lets; [done|]. intros j t _. destruct (negb _); [by apply lets_same|].
  apply lets_bind; [by apply lets_same|]. intros o k1 _ _. destruct o; [|by apply lets_same].
  apply lets_bind; [by apply lets_update; right|]. intros. by apply lets_same.
Qed.

Lemma kill_lets k ids : id ∉ ids → lets_sleep (kill_tasks ids) k.
Proof.
  intros Hni. unfold kill_tasks. case_bool_decide; [by apply lets_same|]. intros Hs.
  unfold locked, modify, kill_loop. simpl.
  assert (∀ l ts n, id ∉ l → asleep (with_tasks ts (sched k)) →
    asleep (with_tasks (foldl (λ '(ts, n) id, (map (kill_one id) ts, n + Z.of_nat (count (killable id) ts))) (ts, n) l).1 (sched k))) as H'.
  { induction l as [|x l IH]; [done|]. intros ts n [Hx Hl]%not_elem_of_cons Ha. simpl. apply IH; [done|].
    change (asleep (with_tasks (map (kill_one x) (tasks (with_tasks ts (sched k)))) (with_tasks ts (sched k)))).
    apply asleep_map; [done|]. intros t _ Hid _. unfold kill_one, killable. rewrite Hid.
    by rewrite (proj2 (Z.eqb_neq _ _)) by congruence. }
  specialize (H' ids (tasks (sched k)) 0 Hni). destruct (foldl _ _ ids) as [ts m]. apply H'.
  by destruct k as [[] ?].
Qed.

Lemma wake_lets k t0 : t0 < w → lets_sleep (locked (wake_sleeping t0)) k.
Proof.
  intros Hlt Hs. apply (asleep_map (wake_if_due t0)); [done|]. intros t _ _ Hw. unfold wake_if_due.
  by rewrite (proj2 (Z.leb_gt _ _)), andb_false_r by lia.
Qed.

Lemma prepare_lets k c : good k → active (sched k) c → lets_sleep (locked (prepare_switch stack_start c)) k.
Proof.
  intros Hk Ha Hs. destruct (prepare_switch_run stack_start idle _ _ _ _ (proj1 Hk) Ha) as (o & s' & Hps & Hsw).
  rewrite (locked_run _ k _ _ Hps). by eapply asleep_switched.
Qed.

Lemma yield_lets k c : good k → active (sched k) c → lets_sleep (yield_now stack_start c) k.
Proof.
  intros Hk Ha. unfold yield_now, lets_sleep. rewrite (bind_run _ _ _ _ _ (running_run idle _ _ k _ (proj1 Hk) eq_refl)).
  by apply prepare_lets.
Qed.

Lemma preempt_lets k c busy : good k → active (sched k) c → now k < w → lets_sleep (preempt_from_interrupt stack_start c busy) k.
Proof.
  intros Hk Ha Hlt Hs. unfold preempt_from_interrupt. rewrite bind_gets. destruct (_ && _); [done|].
  destruct (requested_run idle k c Hk Ha) as [b Hb]. rewrite (bind_run _ _ _ _ _ Hb). unfold request. rewrite bind_modify.
  destruct b; cbv beta iota delta [negb]; [|done]. destruct busy; [done|]. rewrite bind_gets.
  pose proof (request_safe idle k c false Hk) as Hk1. set (k1 := with_requested _ k) in *.
  destruct (wake_sleeping_safe idle k1 (now k1) Hk1) as (k2 & Hw & Hk2 & Heq). rewrite (bind_run _ _ _ _ _ Hw).
  apply prepare_lets; [done| |].
  - destruct Ha as [j Hr]. exists j. rewrite Heq. by apply runs_after_wake.
  - pose proof (wake_lets k1 (now k1) Hlt) as H. unfold lets_sleep in H. rewrite Hw in H. by apply H.
Qed.

Lemma point_lets k c : good k → active (sched k) c → lets_sleep (preemption_point stack_start c) k.
Proof.
  intros Hk Ha. unfold preemption_point. destruct (requested_run idle k c Hk Ha) as [b Hb]. unfold lets_sleep.
  rewrite (bind_run _ _ _ _ _ Hb). destruct b; [|done].
  apply lets_bind; [by apply yield_lets|]. intros. by apply lets_same.
Qed.

Lemma stopping_lets k c f g m : good k → may_stop idle k c → stopping stack_start c (now k) f g m → lets_sleep m k.
Proof.
  intros Hk Hm Hst Hs. destruct (stopping_total stack_start idle c k f g m Hk Hm Hst) as (j & sw & s' & Hr & Hmk & Hsw & _).
  rewrite Hmk. simpl. eapply asleep_switched; [exact Hsw|].
  apply (asleep_update j f (sched k) Hs). left. by eapply running_elsewhere.
Qed.

Lemma tick_lets k c busy : good k → active (sched k) c → now k < w → lets_sleep (tick c busy) k.
Proof.
  intros Hk Ha Hlt Hs. unfold tick. destruct busy; [done|]. rewrite bind_gets.
  destruct (wake_sleeping_safe idle k (now k) Hk) as (k1 & Hw & Hk1 & Heq). rewrite (bind_run _ _ _ _ _ Hw).
  assert (Hs1 : asleep (sched k1)) by (pose proof (wake_lets k (now k) Hlt Hs) as H; by rewrite Hw in H).
  revert Hs1. apply with_current_lets; [destruct Ha as [j Hr]; exists j; rewrite Heq; by apply runs_after_wake|].
  intros j t Hr Hs1. pose proof (running_elsewhere k1 c j Hk1 Hs1 Hr) as Hne.
  destruct (negb _); [done|]. destruct (1 <? _); [by apply lets_update; [left|]|].
  apply lets_bind; [by apply lets_update; left| |done]. intros. by apply lets_same.
Qed.

Lemma init_ap_lets k c : lets_sleep (init_ap stack_start (Some root) c idle) k.
Proof.
  intros Hs. unfold init_ap. rewrite bind_gets. destruct (position is_empty (tasks (sched k))) as [slot|] eqn:Hp; [|done].
  cbn [or_panic]. rewrite bind_lift.
  assert (Hne : slot ≠ i).
  { intros ->. apply position_Some_1 in Hp as (u & Hu & He%bool_decide_eq_true). destruct Hs as (t & Ht & Hst & _). congruence. }
  apply lets_bind; [by apply lets_same| |done]. intros id' k1 _ _.
  apply lets_bind; [by apply lets_update; left|]. intros _ k2 _ _.
  apply lets_bind; [by apply lets_same|]. intros o k3 _ _.
  apply lets_bind; [by intros Hs3|]. intros _ k4 _ _ Hs4. exact Hs4.
Qed.

Lemma call_lets k call : good k → may k call → now k < w → call ≠ CWake id → (∀ ids, call = CKill ids → id ∉ ids) →
  lets_sleep (run call) k.
Proof.
  intros Hk Ha Hlt Hnw Hnk Hs.
  assert (Hq : ∀ A (m : M Kernel SpawnError A), lets_sleep m k → lets_sleep (quietly m) k).
  { intros A m Hm. apply lets_bind; [done|]. intros. by apply lets_same. }
  destruct call; simpl in Ha; unfold run_call; revert Hs; try apply Hq.
  - unfold spawn_with_priority, lets_sleep. rewrite (bind_run _ _ _ _ _ (running_run idle _ _ k _ (proj1 Hk) eq_refl)).
    apply (fresh_lets k (λ slot id, initialize_task stack_start slot id name entry p (Some root)) (λ _ id, id)).
  - unfold spawn_on. destruct (negb _); [by apply lets_same|].
    apply (fresh_lets k (λ slot id t, set_cpu cpu (initialize_task stack_start slot id name entry NORMAL (Some root) t)) (λ _ id, id)).
  - apply lets_bind; [by apply lets_same|]. intros cpu k1 _ _. unfold spawn_on. destruct (negb _); [by apply lets_same|].
    apply (fresh_lets k1 (λ slot id t, set_cpu cpu (initialize_task stack_start slot id name entry NORMAL (Some root) t)) (λ _ id, id)).
  - apply init_ap_lets.
  - by apply yield_lets.
  - by apply tick_lets.
  - by apply preempt_lets.
  - apply lets_bind; [by apply point_lets|]. intros. by apply lets_same.
  - by apply lets_same.
  - by apply (stopping_lets k cpu _ _ _ Hk Ha (stop_block stack_start cpu (now k))).
  - by apply (stopping_lets k cpu _ _ _ Hk Ha (stop_sleep stack_start cpu (now k) ticks)).
  - by apply (stopping_lets k cpu _ _ _ Hk Ha (stop_exit stack_start cpu (now k))).
  - by apply (stopping_lets k cpu _ _ _ Hk Ha (stop_exit_process stack_start cpu (now k))).
  - apply lets_bind; [by apply lets_same|]. intros o k1 Ho _. injection Ho as <- <-.
    destruct (position _ _) as [j|] eqn:Hp; [|by apply lets_same].
    apply lets_bind; [|intros; by apply lets_same]. intros Hs. apply (asleep_update j _ _ Hs). left. intros ->.
    apply position_Some_1 in Hp as (u & Hu & Hw). destruct Hs as (t & Ht & _ & Hid & _). unfold is_waiting in Hw.
    apply andb_true_iff in Hw as [Hw%Z.eqb_eq _]. congruence.
  - by apply kill_lets, Hnk.
  - destruct Ha. by apply place_process_lets.
  - destruct Ha. unfold fork_task. apply with_current_lets; [done|]. intros. by apply place_process_lets.
  - unfold exec_task. destruct Ha as [j Hr]. intros Hs. revert Hs.
    apply (with_current_lets k cpu (λ slot _, locked (modify (update slot (set_image c space))))); [by exists j|].
    intros j' t _. apply lets_update. by right.
  - apply lets_update. by right.
  - by apply change_caps_lets.
  - by apply change_caps_lets.
  - by apply lets_same.
  - destruct enter; by apply lets_same.
Qed.
End sleeper.

(** C15: A sleeping task wakes at the first tick that sees its deadline passed, and
    until then stays asleep unless it is woken by name or killed. *)
Theorem sleeps_until_deadline k i t : reach k → tasks (sched k) !! i = Some t → t_state t = Sleeping →
  (∀ c, active (sched k) c → t_wake_tick t ≤ now k → ∃ k', tick c false k = (Ok tt, k') ∧
     tasks (sched k') !! i = Some (set_wake 0 (set_state Ready t))) ∧
  (∀ call r k', may k call → run call k = (r, k') → now k < t_wake_tick t → call ≠ CWake (t_id t) →
     (∀ ids, call = CKill ids → t_id t ∉ ids) →
     ∃ t', tasks (sched k') !! i = Some t' ∧ t_state t' = Sleeping ∧ t_id t' = t_id t ∧ t_wake_tick t' = t_wake_tick t).
Proof.
  intros Hk%reachable_ok Ht Hs. split.
  - intros c [j Hr] Hle.
    assert (Hij : j ≠ i) by (intros ->; pose proof (ok_runs _ _ _ _ (proj1 Hk) c i t (λ H, H) Hr Ht); congruence).
    unfold tick. rewrite bind_gets. destruct (wake_sleeping_safe idle k (now k) Hk) as (k1 & Hw & Hk1 & Heq).
    rewrite (bind_run _ _ _ _ _ Hw).
    assert (Hr1 : runs (sched k1) c j) by (rewrite Heq; by apply runs_after_wake).
    assert (Ht1 : tasks (sched k1) !! i = Some (set_wake 0 (set_state Ready t))).
    { rewrite Heq. simpl. rewrite list_lookup_fmap, Ht. simpl. unfold wake_if_due.
      rewrite bool_decide_true by done. by rewrite (proj2 (Z.leb_le _ _)) by done. }
    destruct (runs_task _ _ _ Hr1) as (u & Hu & _ & _).
    rewrite (bind_run _ _ _ _ _ (locked_current _ _ _ Hr1)), (bind_run _ _ _ _ _ (locked_task_at _ _ _ Hu)).
    destruct (negb _); [by exists k1|].
    destruct (1 <? _); (eexists; split; [done|]); simpl; by rewrite list_lookup_alter_ne.
  - intros call r k' Ha Hrun Hlt Hnw Hnk.
    pose proof (call_lets i (t_id t) (t_wake_tick t) k call Hk Ha Hlt Hnw Hnk) as H. unfold lets_sleep in H. rewrite Hrun in H.
    apply H. by exists t.
Qed.
End stopping.

Lemma stopped_processor_witness : demo_reachable demo_running ∧ may_stop 77 demo_running 0 ∧
  ∃ sw k', sleep_current demo_stacks 0 5 demo_running = (Ok (Some sw), k') ∧ runs (sched k') 0 (cs_next sw).
Proof.
  split; [exact demo_running_reachable|]. split; [exact demo_running_may_stop|].
  destruct (stopped_processor_continues demo_stacks 4096 77 0 demo_running _ _ _ demo_running_reachable demo_running_may_stop
    (stop_sleep demo_stacks 0 (now demo_running) 5)) as (i & t & sw & k' & u & _ & _ & Hm & _ & _ & Hr & _).
  exists sw, k'. split; [exact Hm|exact Hr].
Defined.

(** The demonstration's sleeper is in slot 2 with deadline 5; the clock is moved to 5. *)
Definition demo_late : Kernel := demo_call (CClock 5) demo_asleep.
Lemma demo_late_reachable : demo_reachable demo_late.
Proof. by apply reachable_call; [apply demo_asleep_reachable|]. Qed.
Lemma demo_late_active : active (sched demo_late) 0.
Proof. eapply active_run; by vm_compute. Qed.

Lemma sleeps_until_witness : demo_reachable demo_late ∧ ∃ t k', tasks (sched demo_late) !! 2%nat = Some t ∧ t_state t = Sleeping ∧
  tick 0 false demo_late = (Ok tt, k') ∧ tasks (sched k') !! 2%nat = Some (set_wake 0 (set_state Ready t)).
Proof.
  split; [exact demo_late_reachable|]. destruct (tasks (sched demo_late) !! 2%nat) as [t|] eqn:Ht; [|by vm_compute in Ht].
  assert (Hs : t_state t = Sleeping) by (vm_compute in Ht; by injection Ht as <-).
  assert (Hw : t_wake_tick t ≤ now demo_late) by (vm_compute in Ht; by injection Ht as <-).
  destruct (proj1 (sleeps_until_deadline demo_stacks 4096 77 demo_late 2 t demo_late_reachable Ht Hs) 0%nat demo_late_active Hw) as (k' & Hk & Ht').
  exists t, k'. split; [done|]. split; [exact Hs|]. split; [exact Hk|exact Ht'].
Defined.
