(* ===== verification/SchedRights.v ===== *)
(** * Rights of tasks, and a task that kills itself

    Every right a task gains comes from [grant] by a task that controls tasks
    and holds the right, from its parent at a fork, or from the fixed set of a
    new user process.  A process that kills itself is not stopped: it keeps the
    processor, may come back to life, and leaves a task count that is too small. *)
From stdpp Require Import list gmap relations.
From S2P Require Import Prelude Config Capability Sched SchedSafe SchedCalls SchedFair.

(** A right that a task of [s'] holds, the same task held in [s]. *)
Definition holds (s : Scheduler) (i : nat) (id : Z) (c : Capability) : Prop :=
  ∃ t, tasks s !! i = Some t ∧ t_id t = id ∧ contains (t_capabilities t) c = true.
Definition no_gain (s s' : Scheduler) : Prop := ∀ i id c, holds s' i id c → holds s i id c.

#[export] Instance no_gain_preorder : PreOrder no_gain.
Proof. split; [intros s i id c; done|]. intros s1 s2 s3 H12 H23 i id c Hc. by apply H12, H23. Qed.

Lemma contains_empty c : contains Capability.empty c = false.
Proof. by destruct c. Qed.

(** A change of a task that gives it no right. *)
Definition keeps_rights (f : TaskControlBlock → TaskControlBlock) : Prop := ∀ t,
  (t_id (f t) = t_id t ∧ ∀ c, contains (t_capabilities (f t)) c = true → contains (t_capabilities t) c = true) ∨ f t = task_empty.

Lemma keeps_rights_holds f t id c : keeps_rights f → t_id (f t) = id → contains (t_capabilities (f t)) c = true →
  t_id t = id ∧ contains (t_capabilities t) c = true.
Proof.
  intros Hf Hid Hc. destruct (Hf t) as [[Hi Hk]|He]; [|by rewrite He, contains_empty in Hc].
  split; [congruence|by apply Hk].
Qed.
Lemma no_gain_imap s (f : nat → TaskControlBlock → TaskControlBlock) : (∀ i, keeps_rights (f i)) → no_gain s (with_tasks (imap f (tasks s)) s).
Proof.
  intros Hf i id c (t' & Ht & Hid & Hc). simpl in Ht. rewrite list_lookup_imap in Ht.
  destruct (tasks s !! i) as [t|] eqn:Hi; [|done]. injection Ht as <-.
  exists t. split; [done|]. by eapply keeps_rights_holds.
Qed.
Lemma no_gain_map s f : keeps_rights f → no_gain s (with_tasks (map f (tasks s)) s).
Proof.
  intros Hf i id c (t' & Ht & Hid & Hc). simpl in Ht. rewrite list_lookup_fmap in Ht.
  destruct (tasks s !! i) as [t|] eqn:Hi; [|done]. injection Ht as <-.
  exists t. split; [done|]. by eapply keeps_rights_holds.
Qed.
Lemma no_gain_alter s i f : keeps_rights f → no_gain s (update i f s).
Proof.
  intros Hf j id c (t' & Ht & Hid & Hc). simpl in Ht. destruct (decide (i = j)) as [->|Hne].
  - rewrite list_lookup_alter_eq in Ht. destruct (tasks s !! j) as [t|] eqn:Hj; [|done]. injection Ht as <-.
    exists t. split; [done|]. by eapply keeps_rights_holds.
  - rewrite list_lookup_alter_ne in Ht by done. by exists t'.
Qed.
Lemma no_gain_same_tasks s s' : tasks s' = tasks s → no_gain s s'.
Proof. intros He i id c. unfold holds. by rewrite He. Qed.

Ltac rights_kept := intros ?; left; by split.

Lemma reap_no_gain c : swithin no_gain (reap_dead c).
Proof.
  intros s. unfold reap_dead, current, mbind, M_bind. destruct (current_slot s !! c) as [j|]; simpl; [|done].
  apply no_gain_imap. intros i t. destruct (_ && _); [by right|by left].
Qed.
Lemma demote_rights : keeps_rights demote.
Proof. intros t. left. destruct (demote_spec t) as [[_ ->]|[_ ->]]; by split. Qed.
Lemma wake_rights t0 : keeps_rights (wake_if_due t0).
Proof. intros t. left. unfold wake_if_due. destruct (_ && _); by split. Qed.
Lemma revoke_rights c : keeps_rights (λ t, set_capabilities (without (t_capabilities t) c) t).
Proof. intros t. left. split; [done|]. intros c'. simpl. rewrite contains_without. by intros [_ ?]%andb_true_iff. Qed.
Lemma kill_rights id : keeps_rights (kill_one id).
Proof. intros t. left. destruct (kill_one_spec id t) as [(_ & _ & _ & ->)|[_ ->]]; by split. Qed.

Lemma kill_no_gain ids : swithin no_gain (modify (E := SpawnError) (λ s, let '(ts, n) := kill_loop ids (tasks s) in
  with_count (saturating_sub (task_count s) n) (with_tasks ts s))).
Proof.
  intros s. unfold kill_loop, modify. simpl.
  assert (∀ l ts n, no_gain s (with_tasks ts s) →
    no_gain s (with_tasks (foldl (λ '(ts, n) id, (map (kill_one id) ts, n + Z.of_nat (count (killable id) ts))) (ts, n) l).1 s)) as H.
  { induction l as [|id l IH]; [done|]. intros ts n Hts. simpl. apply IH. etrans; [exact Hts|].
    apply (no_gain_map (with_tasks ts s) (kill_one id)), kill_rights. }
  specialize (H ids (tasks s) 0 (no_gain_same_tasks _ _ eq_refl)). destruct (foldl _ _ ids) as [ts m]. exact H.
Qed.

Section rights.
Context (stack_start : nat → Z) (root idle : Z).
Abbreviation run := (run_call stack_start root idle).
Abbreviation good := (kernel_ok idle).
Abbreviation may := (allowed idle).
Abbreviation reach := (reachable stack_start root idle).

Ltac skip_read := apply (swithin_bind no_gain); [intros s; done|intros ?].
Ltac skip_write := apply (swithin_bind no_gain); [intros s; by apply no_gain_same_tasks|intros _].
Ltac skip_update tac := apply (swithin_bind no_gain); [intros s; apply no_gain_alter; tac|intros _].

Lemma prepare_no_gain c : swithin no_gain (prepare_switch stack_start c).
Proof.
  unfold prepare_switch. apply (swithin_bind no_gain); [apply reap_no_gain|intros _].
  skip_read. destruct (best_priority c _) as [b|]; [|intros s; done].
  do 2 skip_read. destruct (find_next c b _ _) as [j|]; [|intros s; done].
  skip_write. do 2 skip_read. skip_update ltac:(exact demote_rights). skip_update ltac:(rights_kept).
  do 2 skip_write. skip_read. intros s. done.
Qed.

Lemma not_kernel_no_gain c : swithin no_gain (not_kernel c).
Proof. do 2 skip_read. destruct (_ =? _); intros s; done. Qed.

Ltac stop_kept := apply (swithin_bind no_gain); [apply not_kernel_no_gain|intros slot];
  skip_update ltac:(rights_kept); repeat skip_write; apply prepare_no_gain.

Ltac gain_kept := first [apply prepare_no_gain | apply reap_no_gain | apply kill_no_gain | stop_kept
  | intros ?; first [done | by apply no_gain_same_tasks | apply no_gain_map, wake_rights
                    | apply no_gain_alter; first [rights_kept | apply revoke_rights]]].

(** The calls that neither make a task nor grant a right. *)
Definition plain (call : Call) : bool :=
  match call with
  | CYield _ | CPreempt _ _ | CPoint _ | CBlock _ | CSleep _ _ | CExit _ | CExitProcess _ | CRevoke _ _ _
  | CTick _ _ | CResumed _ | CWake _ | CKill _ | CExec _ _ _ | CSave _ _ | CClock _ | CFileIo _ => true
  | _ => false
  end.
Lemma plain_no_gain call : plain call = true → within no_gain (run call).
Proof.
  intros Hp. destruct call; try done; unfold run_call, yield_now, preempt_from_interrupt, preemption_point,
    revoke, change_caps, block_current, sleep_current, exit_current_task, exit_process_task, tick, preemption_point_resumed, wake_task, kill_tasks, exec_task,
    save_context, file_io_enter, file_io_leave; within_steps ltac:(gain_kept).
Qed.

(** C16: A task made in an empty slot. *)
Lemma place_gain k slot f i id c : tasks (sched k) !! slot = Some task_empty →
  holds (sched (place slot f k).2) i id c → holds (sched k) i id c ∨ (i = slot ∧ contains (t_capabilities (f task_empty)) c = true).
Proof.
  intros He (t & Ht & Hid & Hc). change (alter f slot (tasks (sched k)) !! i = Some t) in Ht.
  destruct (decide (slot = i)) as [->|Hne].
  - rewrite list_lookup_alter_eq, He in Ht. injection Ht as <-. by right.
  - rewrite list_lookup_alter_ne in Ht by done. left. by exists t.
Qed.

Lemma fresh_gain {A} k (g : nat → Z → TaskControlBlock → TaskControlBlock) (a : nat → Z → A) i id c : good k →
  holds (sched ((slot ← empty_slot; id ← fetch_id; _ ← place slot (g slot id); mret (a slot id)) k).2) i id c →
  holds (sched k) i id c ∨ ∃ slot, contains (t_capabilities (g slot (next_task_id k) task_empty)) c = true.
Proof.
  intros Hk. destruct (empty_slot_run idle k Hk) as [(slot & Hrun & Ht)|Hrun].
  - rewrite (bind_run _ _ _ _ _ Hrun). intros Hh. destruct (place_gain (with_next_id _ k) slot (g slot (next_task_id k)) i id c Ht Hh) as [?|[_ ?]]; [by left|].
    right. by exists slot.
  - rewrite (bind_run _ _ _ _ _ Hrun). by left.
Qed.

Lemma quiet_sched {A} (m : M Kernel SpawnError A) k : sched (quietly m k).2 = sched (m k).2.
Proof. unfold quietly, mbind, M_bind. by destruct (m k) as [[]]. Qed.

Lemma spawn_on_gain k online cpu name entry i id c : good k →
  holds (sched (spawn_on stack_start (Some root) online cpu name entry k).2) i id c → holds (sched k) i id c.
Proof.
  intros Hk. unfold spawn_on. destruct (negb _); [done|]. intros Hh.
  destruct (fresh_gain k (λ slot id t, set_cpu cpu (initialize_task stack_start slot id name entry NORMAL (Some root) t)) (λ _ id, id) i id c Hk Hh)
    as [?|[slot Hc]]; [done|]. simpl in Hc. by rewrite contains_empty in Hc.
Qed.

Lemma init_ap_gain k cpu i id c : good k → holds (sched (init_ap stack_start (Some root) cpu idle k).2) i id c → holds (sched k) i id c.
Proof.
  intros Hk. unfold init_ap. rewrite bind_gets. destruct (position is_empty (tasks (sched k))) as [slot|] eqn:Hp; [|done].
  cbn [or_panic]. rewrite bind_lift.
  destruct (position_Some_1 _ _ _ Hp) as (t & Ht & He%bool_decide_eq_true).
  pose proof (task_ok_empty _ _ (ok_task _ _ _ _ (proj1 Hk) _ _ Ht) He). subst t.
  set (f := λ t, set_state Running (set_cpu cpu (initialize_task stack_start slot (next_task_id k) "cpu-idle" idle LOW (Some root) t))).
  assert (Hsame : ∀ A (m : M Kernel SpawnError A) k1, within no_gain m → holds (sched (m k1).2) i id c → holds (sched k1) i id c) by (intros A m k1 Hm; apply Hm).
  rewrite (bind_run _ _ _ _ _ (eq_refl : fetch_id k = _)).
  set (k1 := with_next_id _ k). rewrite (bind_run _ _ _ _ _ (eq_refl : locked (modify (update slot f)) k1 = (Ok tt, with_sched (update slot f (sched k)) k1))).
  intros Hh. apply Hsame in Hh; [|within_steps ltac:(gain_kept)].
  destruct Hh as (t & Hi & Hid & Hc). simpl in Hi. destruct (decide (slot = i)) as [->|Hne].
  - rewrite list_lookup_alter_eq, Ht in Hi. injection Hi as <-. simpl in Hc. by rewrite contains_empty in Hc.
  - rewrite list_lookup_alter_ne in Hi by done. by exists t.
Qed.

Lemma process_gain k cpu ready g i id c : good k → active (sched k) cpu →
  holds (sched (place_process cpu ready g k).2) i id c →
  holds (sched k) i id c ∨ ∃ slot, contains (t_capabilities (g slot (next_task_id k) task_empty)) c = true.
Proof.
  intros Hk [j Hr]. unfold place_process.
  assert (Hreap : locked (reap_dead cpu) k = (Ok tt, with_sched (reaped cpu j (sched k)) k)).
  { apply locked_run. unfold reap_dead. by rewrite (bind_run _ _ _ _ _ (current_run _ _ _ Hr)). }
  rewrite (bind_run _ _ _ _ _ Hreap). set (k1 := with_sched _ k).
  assert (Hk1 : good k1) by (apply kernel_ok_with; [done|]; eapply reaped_ok; [apply Hk|apply Hr]).
  assert (Hback : holds (sched k1) i id c → holds (sched k) i id c).
  { pose proof (within_locked no_gain _ (reap_no_gain cpu) k) as H. rewrite Hreap in H. apply H. }
  destruct ready.
  - intros Hh. destruct (fresh_gain k1 g (λ _ id, id) i id c Hk1 Hh) as [?|?]; [left; by apply Hback|by right].
  - intros Hh. left. apply Hback. revert Hh. apply (within_bind no_gain empty_slot); [|intros ?]; within_steps ltac:(gain_kept).
Qed.

Lemma grant_gain k cpu target c0 i id c : good k → active (sched k) cpu →
  holds (sched (grant cpu target c0 k).2) i id c →
  holds (sched k) i id c ∨ (c = c0 ∧ id = target ∧ ∃ j a, runs (sched k) cpu j ∧ tasks (sched k) !! j = Some a ∧
    contains (t_capabilities a) TaskControl = true ∧ contains (t_capabilities a) c = true).
Proof.
  intros Hk [j Hr]. destruct (runs_task _ _ _ Hr) as (a & Ha & _ & _). unfold grant, change_caps.
  rewrite (bind_run _ _ _ _ _ (running_run idle _ _ k _ (proj1 Hk) eq_refl)),
    (bind_run _ _ _ _ _ (locked_current _ _ _ Hr)), (bind_run _ _ _ _ _ (locked_task_at _ _ _ Ha)).
  destruct (contains (t_capabilities a) TaskControl) eqn:Htc; [|by left].
  destruct (contains (t_capabilities a) c0) eqn:Hc0; [|by left]. cbv beta iota delta [negb andb]. rewrite bind_gets.
  destruct (position (is_task target) (tasks (sched k))) as [n|] eqn:Hp; [|by left].
  apply position_Some_1 in Hp as (t & Ht & Hid%andb_true_iff). destruct Hid as [_ Hid%Z.eqb_eq].
  intros (u & Hu & Huid & Hc).
  change (alter (λ t, set_capabilities (with_cap (t_capabilities t) c0) t) n (tasks (sched k)) !! i = Some u) in Hu.
  destruct (decide (n = i)) as [->|Hne]; [|rewrite list_lookup_alter_ne in Hu by done; left; by exists u].
  rewrite list_lookup_alter_eq, Ht in Hu. injection Hu as <-. simpl in Huid, Hc. rewrite contains_with in Hc.
  apply orb_true_iff in Hc as [->%bool_decide_eq_true|Hc]; [right|left; by exists t].
  split; [done|]. split; [congruence|]. by exists j, a.
Qed.

Theorem rights_come_from_holders k call r k' i id c : reach k → may k call → run call k = (r, k') → holds (sched k') i id c →
  holds (sched k) i id c ∨
  (∃ cpu j a, runs (sched k) cpu j ∧ tasks (sched k) !! j = Some a ∧ contains (t_capabilities a) c = true ∧
     ((call = CGrant cpu id c ∧ contains (t_capabilities a) TaskControl = true) ∨ ∃ ready space, call = CFork cpu ready space)) ∨
  ((∃ cpu ready name ctx space, call = CSpawnUser cpu ready name ctx space) ∧ c ∈ [Console; FileRead; FileWrite; Ipc; ProcessCreate]).
Proof.
  intros Hk%reachable_ok Ha Hrun Hh. assert (Hs : sched k' = sched (run call k).2) by (by rewrite Hrun). rewrite Hs in Hh.
  destruct (plain call) eqn:Hp; [left; exact (plain_no_gain call Hp k i id c Hh)|].
  destruct call; try done; simpl in Ha; unfold run_call in Hh; rewrite quiet_sched in Hh.
  - left. unfold spawn_with_priority in Hh. rewrite (bind_run _ _ _ _ _ (running_run idle _ _ k _ (proj1 Hk) eq_refl)) in Hh.
    destruct (fresh_gain k (λ slot id, initialize_task stack_start slot id name entry p (Some root)) (λ _ id, id) i id c Hk Hh) as [?|[slot Hc]]; [done|].
    simpl in Hc. by rewrite contains_empty in Hc.
  - left. by eapply spawn_on_gain.
  - left. unfold spawn_parallel in Hh. rewrite bind_gets in Hh. by eapply spawn_on_gain.
  - left. by eapply init_ap_gain.
  - destruct (process_gain _ _ _ _ _ _ _ Hk (proj1 Ha) Hh) as [?|[slot Hc]]; [by left|right; right].
    split; [by eexists _, _, _, _, _|]. by apply builtin_rights.
  - destruct Ha as [[j Hr] _]. destruct (runs_task _ _ _ Hr) as (a & Hta & _ & _). unfold fork_task in Hh.
    rewrite (bind_run _ _ _ _ _ (locked_current _ _ _ Hr)), (bind_run _ _ _ _ _ (locked_task_at _ _ _ Hta)) in Hh.
    destruct (process_gain _ _ _ _ _ _ _ Hk (ex_intro _ j Hr) Hh) as [?|[slot Hc]]; [by left|right; left].
    exists cpu, j, a. split; [done|]. split; [done|]. split; [done|]. right. by eexists _, _.
  - destruct (grant_gain _ _ _ _ _ _ _ Hk Ha Hh) as [?|(-> & -> & j & a & Hr & Hta & Htc & Hc)]; [by left|right; left].
    exists cpu, j, a. split; [done|]. split; [done|]. split; [done|]. by left.
Qed.
End rights.

Lemma rights_witness : demo_reachable demo_two ∧
  holds (sched (demo_call (CGrant 0 2 TimerRead) demo_two)) 2 2 TimerRead ∧ ¬ holds (sched demo_two) 2 2 TimerRead ∧
  (holds (sched demo_two) 2 2 TimerRead ∨
   (∃ cpu j a, runs (sched demo_two) cpu j ∧ tasks (sched demo_two) !! j = Some a ∧ contains (t_capabilities a) TimerRead = true ∧
      ((CGrant 0 2 TimerRead = CGrant cpu 2 TimerRead ∧ contains (t_capabilities a) TaskControl = true) ∨ ∃ ready space, CGrant 0 2 TimerRead = CFork cpu ready space)) ∨
   ((∃ cpu ready name ctx space, CGrant 0 2 TimerRead = CSpawnUser cpu ready name ctx space) ∧ TimerRead ∈ [Console; FileRead; FileWrite; Ipc; ProcessCreate])).
Proof.
  assert (Hh : holds (sched (demo_call (CGrant 0 2 TimerRead) demo_two)) 2 2 TimerRead) by (eexists; by vm_compute).
  split; [exact demo_two_reachable|]. split; [exact Hh|]. split; [intros (t & Ht & _ & Hc); vm_compute in Ht; by injection Ht as <-|].
  exact (rights_come_from_holders demo_stacks 4096 77 demo_two (CGrant 0 2 TimerRead) _ _ 2 2 TimerRead demo_two_reachable
    demo_two_active (surjective_pairing _) Hh).
Defined.

(** ** A process that kills itself *)

(** A timer interrupt of processor [c] at time [t]. *)
Definition timer_interrupt (stack_start : nat → Z) (c : nat) (t : Z) : M Kernel SpawnError (option ContextSwitch) :=
  _ ← modify (with_now t); _ ← tick c false; preempt_from_interrupt stack_start c false.
Fixpoint timer_interrupts (stack_start : nat → Z) (c : nat) (ts : list Z) (k : Kernel) : list (res SpawnError (option ContextSwitch)) * Kernel :=
  match ts with
  | [] => ([], k)
  | t :: ts => let '(r, k) := timer_interrupt stack_start c t k in
               let '(rs, k) := timer_interrupts stack_start c ts k in (r :: rs, k)
  end.

(** The running task is dead and no preemption is pending. *)
Definition dead_running (k : Kernel) (c i : nat) : Prop :=
  runs (sched k) c i ∧ (∃ t, tasks (sched k) !! i = Some t ∧ t_state t = Dead) ∧ preemption_requested k !! c = Some false.

Lemma dead_interrupt stack_start c i t k : dead_running k c i → ∃ k', timer_interrupt stack_start c t k = (Ok None, k') ∧ dead_running k' c i.
Proof.
  intros (Hr & (u & Hu & Hd) & Hp). unfold timer_interrupt, tick. rewrite bind_modify.
  set (k1 := with_now t k). set (s1 := with_tasks (map (wake_if_due t) (tasks (sched k))) (sched k)).
  assert (Hr1 : runs s1 c i) by (by apply runs_after_wake).
  assert (Hu1 : tasks s1 !! i = Some u).
  { simpl. rewrite list_lookup_fmap, Hu. simpl. unfold wake_if_due. by rewrite Hd. }
  assert (Htick : (t0 ← gets now; _ ← locked (wake_sleeping t0); slot ← locked (current c); task ← locked (task_at slot);
    if negb (bool_decide (t_state task = Running)) then mret tt
    else if 1 <? t_remaining_ticks task then locked (modify (update slot (set_ticks (t_remaining_ticks task - 1))))
    else _ ← locked (modify (update slot (set_ticks 0))); request c true) k1 = (Ok tt, with_sched s1 k1)).
  { rewrite bind_gets. change (now k1) with t. rewrite (bind_run _ _ k1 (Ok tt) (with_sched s1 k1) eq_refl).
    rewrite (bind_run _ _ _ _ _ (locked_current (with_sched s1 k1) _ _ Hr1)), (bind_run _ _ _ _ _ (locked_task_at (with_sched s1 k1) _ _ Hu1)).
    by rewrite Hd. }
  rewrite (bind_run _ _ _ _ _ Htick). unfold preempt_from_interrupt. rewrite bind_gets.
  destruct (_ && _); [eexists; split; [done|]; split; [done|split; [by exists u|done]]|].
  assert (Hreq : requested c (with_sched s1 k1) = (Ok false, with_sched s1 k1)) by (unfold requested; simpl; by rewrite Hp).
  rewrite (bind_run _ _ _ _ _ Hreq). eexists. split; [done|]. split; [done|]. split; [by exists u|].
  simpl. rewrite list_lookup_insert_eq; [done|]. by eapply lookup_lt_Some.
Qed.

(** The kernel after a list of calls. *)
Definition demo_calls (cs : list Call) (k : Kernel) : Kernel := foldl (λ k c, demo_call c k) k cs.
(** A new process runs, kills itself and exits. *)
Definition kill_round (id : Z) : list Call :=
  [CSpawnUser 0 true "p" (mkContext 0 0 0 0) 8192; CYield 0; CKill [id]; CExitProcess 0].

Theorem self_kill_not_stopped :
  (∀ stack_start c i ts k, dead_running k c i →
     ∃ k', timer_interrupts stack_start c ts k = (replicate (length ts) (Ok None), k') ∧ dead_running k' c i) ∧
  (let k := demo_calls [CSpawnUser 0 true "p" (mkContext 0 0 0 0) 8192; CYield 0; CKill [2]] demo_boot in
   dead_running k 0 2 ∧ is_waiting 2 <$> tasks (sched (demo_calls [CSleep 0 1] k)) !! 2%nat = Some true) ∧
  (let k := demo_calls (kill_round 2 ++ kill_round 3) demo_boot in
   task_count (sched k) = 0 ∧ count live (tasks (sched k)) = 2%nat ∧ (yield_now demo_stacks 0 k).1 = Panic).
Proof.
  split; [|split].
  - intros stack_start c i ts. induction ts as [|t ts IH]; intros k Hk; [by exists k|]. simpl.
    destruct (dead_interrupt stack_start c i t k Hk) as (k1 & -> & Hk1).
    destruct (IH k1 Hk1) as (k2 & -> & Hk2). by exists k2.
  - split; [|by vm_compute].
    split; [split; [by vm_compute|eexists; by vm_compute]|]. split; [eexists; by vm_compute|by vm_compute].
  - by vm_compute.
Qed.
