(* ===== verification/Environment.v ===== *)
(** * Environments of processes (kernel/src/task.rs, [ProcessEnvironment])

    A process has eight arrays of [KEY=VALUE] bytes with their lengths.  The
    main theorem is a refinement: whatever variables are set, in whatever
    order, the arrays answer every call as a finite map from keys to values of
    at most eight entries does. *)
From stdpp Require Import list gmap.
From S2P Require Import Prelude.

Definition MAX_ENV_VARS : nat := 8.
Definition MAX_ENV_ENTRY : nat := 96.

#[export] Instance byte_countable : Countable byte.
Proof. apply (inj_countable' Byte.to_N (λ n, default x00 (Byte.of_N n))). intros b. by rewrite Byte.of_to_N. Defined.

Record ProcessEnvironment := mkEnv { entries : list (list byte); lengths : list nat }.

Inductive EnvError := NoProcess | Invalid | Full | NotFound | BufferTooSmall.
#[export] Instance EnvError_eq_dec : EqDecision EnvError.
Proof. solve_decision. Defined.

Definition empty : ProcessEnvironment :=
  mkEnv (replicate MAX_ENV_VARS (replicate MAX_ENV_ENTRY x00)) (replicate MAX_ENV_VARS O).

Definition EQUALS : byte := z_byte 61.
Definition is_ascii (l : list byte) : bool := forallb (λ b, byte_z b <? 128) l.
Definition bad_key (key : list byte) : bool :=
  bool_decide (key = []) || any (λ b, bool_decide (b = EQUALS)) key || negb (is_ascii key).

(** [len > key.len() && entry[..key.len()] == key && entry[key.len()] == b'=']; the
    slices are in range because [key] is shorter than an entry. *)
Definition matches (key entry : list byte) (len : nat) : bool :=
  Nat.ltb (length key) len && bool_decide (take (length key) entry = key)
  && bool_decide (entry !! length key = Some EQUALS).

Definition slot_matches (key : list byte) (e : ProcessEnvironment) (i : nat) : bool :=
  match entries e !! i, lengths e !! i with
  | Some entry, Some len => matches key entry len
  | _, _ => false
  end.
Definition slot_free (e : ProcessEnvironment) (i : nat) : bool := bool_decide (lengths e !! i = Some O).
Definition slots : list nat := seq 0 MAX_ENV_VARS.

(** A zeroed entry with the key, the sign and the value copied into it. *)
Definition fill_entry (key value : list byte) : list byte :=
  splice (splice (splice (replicate MAX_ENV_ENTRY x00) 0 key) (length key) [EQUALS]) (length key + 1) value.

(** The cast of [total] to [u8] keeps it: it is at most [MAX_ENV_ENTRY]. *)
Definition set_bytes (key value : list byte) (e : ProcessEnvironment) : bool * ProcessEnvironment :=
  if bad_key key || negb (is_ascii value) then (false, e) else
  let total := (length key + length value + 1)%nat in
  if Nat.ltb MAX_ENV_ENTRY total then (false, e) else
  let existing := List.find (slot_matches key e) slots in
  match (match existing with Some i => Some i | None => List.find (slot_free e) slots end) with
  | None => (false, e)
  | Some slot => (true, mkEnv (<[slot := fill_entry key value]> (entries e)) (<[slot := total]> (lengths e)))
  end.

Definition defaults : ProcessEnvironment :=
  let set k v e := snd (set_bytes (bytes k) (bytes v) e) in
  set "TERM" "wovenhat" (set "SHELL" "/bin/sh" (set "HOME" "/" (set "PATH" "/bin" empty))).

(** The loop of [env_get]; the result carries the caller's buffer. *)
Fixpoint get_loop (key out : list byte) (e : ProcessEnvironment) (idx : list nat) : res EnvError (nat * list byte) :=
  match idx with
  | [] => Err NotFound
  | i :: idx =>
    len ← or_panic (lengths e !! i);
    entry ← or_panic (entries e !! i);
    if Nat.ltb (length entry) len then Panic
    else if matches key entry len then
      let value := drop (length key + 1) (take len entry) in
      if Nat.ltb (length out) (length value) then Err BufferTooSmall
      else Ok (length value, splice out 0 value)
    else get_loop key out e idx
  end.
(** [env_get] on the process it finds; the key is checked first. *)
Definition get_bytes (key out : list byte) (e : ProcessEnvironment) : res EnvError (nat * list byte) :=
  if bad_key key then Err Invalid else get_loop key out e slots.

(** [env_set] on the process it finds. *)
Definition set_checked (key value : list byte) (e : ProcessEnvironment) : res EnvError unit * ProcessEnvironment :=
  if bad_key key || negb (is_ascii value) then (Err Invalid, e)
  else if Nat.ltb MAX_ENV_ENTRY (length key + length value + 1) then (Err Invalid, e)
  else let '(b, e) := set_bytes key value e in (if b then Ok tt else Err Full, e).

(** [env_count] on the process it finds. *)
Definition var_count (e : ProcessEnvironment) : nat := count (λ len, negb (Nat.eqb len 0)) (lengths e).

(** The loop of [env_entry]. *)
Fixpoint entry_loop (index seen : nat) (out : list byte) (e : ProcessEnvironment) (idx : list nat) : res EnvError (nat * list byte) :=
  match idx with
  | [] => Err NotFound
  | i :: idx =>
    len ← or_panic (lengths e !! i);
    if Nat.eqb len 0 then entry_loop index seen out e idx
    else if Nat.eqb seen index then
      if Nat.ltb (length out) len then Err BufferTooSmall
      else
        entry ← or_panic (entries e !! i);
        if Nat.ltb (length entry) len then Panic else Ok (len, splice out 0 (take len entry))
    else entry_loop index (S seen) out e idx
  end.
Definition nth_entry (index : nat) (out : list byte) (e : ProcessEnvironment) := entry_loop index 0 out e slots.

(** ** The finite map it stands for *)

Abbreviation Variables := (gmap (list byte) (list byte)).

Inductive Call :=
| Set_ (key value : list byte) | Get (key out : list byte) | Count.
(** What a call answers: nothing, a value in the caller's buffer, a number. *)
Inductive Answer := Done (r : res EnvError unit) | Value (r : res EnvError (nat * list byte)) | Number (n : nat).

Definition code_call (c : Call) (e : ProcessEnvironment) : Answer * ProcessEnvironment :=
  match c with
  | Set_ key value => let '(r, e) := set_checked key value e in (Done r, e)
  | Get key out => (Value (get_bytes key out e), e)
  | Count => (Number (var_count e), e)
  end.

Definition spec_call (c : Call) (m : Variables) : Answer * Variables :=
  match c with
  | Set_ key value =>
    if bad_key key || negb (is_ascii value) || Nat.ltb MAX_ENV_ENTRY (length key + length value + 1) then (Done (Err Invalid), m)
    else if bool_decide (is_Some (m !! key)) || Nat.ltb (size m) MAX_ENV_VARS then (Done (Ok tt), <[key := value]> m)
    else (Done (Err Full), m)
  | Get key out =>
    (Value (if bad_key key then Err Invalid else
            match m !! key with
            | None => Err NotFound
            | Some v => if Nat.ltb (length out) (length v) then Err BufferTooSmall else Ok (length v, splice out 0 v)
            end), m)
  | Count => (Number (size m), m)
  end.

Fixpoint answers {S} (call : Call → S → Answer * S) (cs : list Call) (s : S) : list Answer :=
  match cs with [] => [] | c :: cs => let '(a, s) := call c s in a :: answers call cs s end.

Definition default_variables : Variables :=
  <[bytes "TERM" := bytes "wovenhat"]> (<[bytes "SHELL" := bytes "/bin/sh"]>
    (<[bytes "HOME" := bytes "/"]> (<[bytes "PATH" := bytes "/bin"]> ∅))).

(** ** Entries *)

Definition good_key (key : list byte) : Prop := key ≠ [] ∧ EQUALS ∉ key.
Lemma bad_key_false key : bad_key key = false → good_key key.
Proof.
  unfold bad_key. intros H. split_guards. split; [done|]. intros Hin.
  assert (any (λ b, bool_decide (b = EQUALS)) key = true) as Ht; [|congruence].
  apply existsb_exists. exists EQUALS. split; [by apply list_elem_of_In|by apply bool_decide_eq_true_2].
Qed.

Lemma length_fill_entry k v : (length k + length v + 1 ≤ MAX_ENV_ENTRY)%nat → length (fill_entry k v) = MAX_ENV_ENTRY.
Proof.
  intros H. unfold fill_entry.
  assert (length (splice (replicate MAX_ENV_ENTRY x00) 0 k) = MAX_ENV_ENTRY) as H0 by (rewrite length_splice; rewrite length_replicate; lia).
  assert (length (splice (splice (replicate MAX_ENV_ENTRY x00) 0 k) (length k) [EQUALS]) = MAX_ENV_ENTRY) as H1
    by (rewrite length_splice; rewrite H0; simpl; lia).
  rewrite length_splice; rewrite H1; lia.
Qed.

Lemma fill_entry_take k v : (length k + length v + 1 ≤ MAX_ENV_ENTRY)%nat →
  take (length k + length v + 1) (fill_entry k v) = k ++ EQUALS :: v.
Proof.
  intros H. unfold fill_entry.
  assert (splice (replicate MAX_ENV_ENTRY x00) 0 k = k ++ replicate (MAX_ENV_ENTRY - length k) x00) as ->.
  { unfold splice. by rewrite drop_replicate. }
  assert (splice (k ++ replicate (MAX_ENV_ENTRY - length k) x00) (length k) [EQUALS]
          = (k ++ [EQUALS]) ++ replicate (MAX_ENV_ENTRY - length k - 1) x00) as ->.
  { unfold splice. rewrite take_app_length, <-drop_drop, drop_app_length, drop_replicate. by rewrite <-(assoc_L (++)). }
  unfold splice. rewrite (take_app_length' (k ++ [EQUALS])) by (rewrite length_app; simpl; lia).
  rewrite (assoc_L (++)), take_app_length' by (rewrite !length_app; simpl; lia).
  by rewrite <-(assoc_L (++)).
Qed.

(** An entry matches exactly the key it was written with. *)
Lemma matches_fill k' k v : good_key k' → good_key k → (length k + length v + 1 ≤ MAX_ENV_ENTRY)%nat →
  matches k' (fill_entry k v) (length k + length v + 1) = bool_decide (k' = k).
Proof.
  intros [_ Hk'] [_ Hk] Hlen. pose proof (fill_entry_take k v Hlen) as Ht.
  assert (∀ i, (i < length k + length v + 1)%nat → fill_entry k v !! i = (k ++ EQUALS :: v) !! i) as Hlook.
  { intros i Hi. rewrite <-Ht, lookup_take_lt by lia. done. }
  assert (take (length k) (fill_entry k v) = k) as Hpk.
  { transitivity (take (length k) (k ++ EQUALS :: v)); [|apply take_app_length]. rewrite <-Ht, take_take. f_equal. lia. }
  apply eq_bool_prop_intro. unfold matches. rewrite !andb_True, !bool_decide_spec, Is_true_true, Nat.ltb_lt.
  split.
  - intros [[Hlt Hpre] Heq]. rewrite Hlook in Heq by done.
    destruct (lt_eq_lt_dec (length k') (length k)) as [[?|He]|?].
    + rewrite lookup_app_l in Heq by done. by apply list_elem_of_lookup_2 in Heq.
    + by rewrite <-Hpre, He.
    + assert (k' !! length k = Some EQUALS) as Hin; [|by apply list_elem_of_lookup_2 in Hin].
      rewrite <-Hpre, lookup_take_lt, Hlook by lia. by rewrite list_lookup_middle.
  - intros ->. split; [split; [lia|]|].
    + done.
    + rewrite Hlook by lia. by rewrite list_lookup_middle.
Qed.

(** ** Slots *)

Abbreviation Slot := (option (list byte * list byte)).
Definition render (o : Slot) : list byte * nat :=
  match o with
  | None => (replicate MAX_ENV_ENTRY x00, O)
  | Some (k, v) => (fill_entry k v, (length k + length v + 1)%nat)
  end.
Definition good_slot (o : Slot) : Prop :=
  match o with None => True | Some (k, v) => good_key k ∧ (length k + length v + 1 ≤ MAX_ENV_ENTRY)%nat end.

Record env_rel (e : ProcessEnvironment) (s : list Slot) (m : Variables) : Prop := {
  rel_entries : entries e = (fst ∘ render) <$> s;
  rel_lengths : lengths e = (snd ∘ render) <$> s;
  rel_slots : length s = MAX_ENV_VARS;
  rel_good : ∀ i o, s !! i = Some o → good_slot o;
  rel_lookup : ∀ k v, m !! k = Some v ↔ ∃ i, s !! i = Some (Some (k, v));
  rel_once : ∀ i j k v v', s !! i = Some (Some (k, v)) → s !! j = Some (Some (k, v')) → i = j;
  rel_size : size m = count (λ o, bool_decide (is_Some o)) s }.

Section slots.
Context (e : ProcessEnvironment) (s : list Slot) (m : Variables) (R : env_rel e s m).

Lemma slot_entry i o : s !! i = Some o → entries e !! i = Some (fst (render o)) ∧ lengths e !! i = Some (snd (render o)).
Proof using R. intros H. rewrite (rel_entries _ _ _ R), (rel_lengths _ _ _ R), !list_lookup_fmap, H. done. Qed.

Lemma slot_matches_spec k i : good_key k → slot_matches k e i = true ↔ ∃ v, s !! i = Some (Some (k, v)).
Proof using R.
  intros Hk. unfold slot_matches. destruct (s !! i) as [o|] eqn:Hi.
  - destruct (slot_entry i o Hi) as [-> ->]. pose proof (rel_good _ _ _ R i o Hi) as Hg.
    destruct o as [[k2 v]|]; simpl.
    + destruct Hg as [Hk2 Hlen]. rewrite matches_fill, bool_decide_eq_true by done. naive_solver.
    + unfold matches. naive_solver.
  - rewrite (rel_entries _ _ _ R), list_lookup_fmap, Hi. naive_solver.
Qed.

Lemma slot_free_spec i : slot_free e i = true ↔ s !! i = Some None.
Proof using R.
  unfold slot_free. rewrite bool_decide_eq_true. destruct (s !! i) as [o|] eqn:Hi.
  - destruct (slot_entry i o Hi) as [_ ->]. destruct o as [[k v]|]; simpl; [|done].
    split; [|done]. intros [=]. lia.
  - rewrite (rel_lengths _ _ _ R), list_lookup_fmap, Hi. done.
Qed.

Lemma find_slots f i : List.find f slots = Some i → (i < length s)%nat ∧ f i = true.
Proof using R.
  intros [Hin Hf]%List.find_some. apply in_seq in Hin. rewrite (rel_slots _ _ _ R). split; [lia|done].
Qed.
Lemma find_slots_none f i : List.find f slots = None → (i < length s)%nat → f i = false.
Proof using R.
  intros H Hi. eapply List.find_none; [exact H|]. apply in_seq. rewrite (rel_slots _ _ _ R) in Hi. lia.
Qed.

Lemma var_count_spec : var_count e = size m.
Proof using R.
  rewrite (rel_size _ _ _ R). unfold var_count, count. rewrite (rel_lengths _ _ _ R).
  clear R. induction s as [|o l IH]; [done|]. simpl.
  destruct o as [[k v]|]; simpl; [|exact IH]. rewrite (Nat.add_comm _ 1). simpl. f_equal. exact IH.
Qed.
End slots.

Lemma count_insert_some (s : list Slot) i p : s !! i = Some None →
  count (λ o, bool_decide (is_Some o)) (<[i := Some p]> s) = S (count (λ o, bool_decide (is_Some o)) s).
Proof.
  unfold count. revert i. induction s as [|o s IH]; intros [|i] H; simplify_eq/=; [done|].
  destruct o; simpl; rewrite IH by done; done.
Qed.
Lemma count_insert_same (s : list Slot) i p q : s !! i = Some (Some q) →
  count (λ o, bool_decide (is_Some o)) (<[i := Some p]> s) = count (λ o, bool_decide (is_Some o)) s.
Proof.
  unfold count. revert i. induction s as [|o s IH]; intros [|i] H; simplify_eq/=; [done|].
  destruct o; simpl; rewrite IH by done; done.
Qed.
Lemma count_full (s : list Slot) : (∀ i, (i < length s)%nat → s !! i ≠ Some None) →
  count (λ o, bool_decide (is_Some o)) s = length s.
Proof.
  unfold count. induction s as [|o s IH]; intros H; [done|]. simpl.
  destruct o; [|by destruct (H 0%nat); simpl; [lia|]]. simpl. f_equal. apply IH. intros i Hi. apply (H (S i)). simpl. lia.
Qed.
Lemma count_not_full (s : list Slot) i : s !! i = Some None → (count (λ o, bool_decide (is_Some o)) s < length s)%nat.
Proof.
  unfold count. revert i. induction s as [|o s IH]; intros [|i] H; simplify_eq/=.
  - pose proof (List.filter_length_le (λ o : Slot, bool_decide (is_Some o)) s). lia.
  - apply IH in H. destruct o; simpl; lia.
Qed.

(** ** The calls *)

Section calls.
Context (e : ProcessEnvironment) (s : list Slot) (m : Variables) (R : env_rel e s m).

Lemma rel_insert i k v o :
  good_slot (Some (k, v)) → s !! i = Some o →
  (match o with None => m !! k = None | Some (k', _) => k' = k end) →
  env_rel (mkEnv (<[i := fill_entry k v]> (entries e)) (<[i := (length k + length v + 1)%nat]> (lengths e)))
    (<[i := Some (k, v)]> s) (<[k := v]> m).
Proof using R.
  intros Hg Hi Ho. destruct R as [He Hl Hs Hgood Hlook Honce Hsize].
  assert (∀ j v', s !! j = Some (Some (k, v')) → j = i) as Hk.
  { intros j v' Hj. destruct o as [[k' w]|]; subst; [by eapply Honce|].
    assert (m !! k = Some v') by (apply Hlook; eauto). congruence. }
  assert (∀ j p, <[i := Some (k, v)]> s !! j = Some (Some p) ↔ (j = i ∧ p = (k, v)) ∨ (j ≠ i ∧ s !! j = Some (Some p))) as Hup.
  { intros j p. destruct (decide (j = i)) as [->|].
    - rewrite list_lookup_insert_eq by (by eapply lookup_lt_Some). naive_solver.
    - rewrite list_lookup_insert_ne by done. naive_solver. }
  split; simpl.
  - by rewrite list_fmap_insert, He.
  - by rewrite list_fmap_insert, Hl.
  - by rewrite length_insert.
  - intros j o' [(-> & <- & _)|[_ Hj]]%list_lookup_insert_Some; [done|by eapply Hgood].
  - intros k' v'. rewrite lookup_insert_Some, Hlook. setoid_rewrite Hup. split.
    + intros [[-> ->]|[Hne [j Hj]]]; [by exists i; left|]. exists j. right. split; [|done].
      intros ->. rewrite Hi in Hj. destruct o as [[]|]; naive_solver.
    + intros [j [[-> [= -> ->]]|[Hji Hj]]]; [by left|]. right. split; [|eauto]. intros <-. by apply Hk in Hj.
  - intros j1 j2 k' v1 v2 [[-> ?]|[? H1]]%Hup [[-> ?]|[? H2]]%Hup; simplify_eq; try done; [by apply Hk in H2|by apply Hk in H1|by eapply Honce].
  - destruct o as [[k' w]|].
    + subst k'. rewrite (count_insert_same _ _ _ _ Hi), <-Hsize. apply map_size_insert_Some.
      exists w. apply Hlook. eauto.
    + rewrite (count_insert_some _ _ _ Hi), <-Hsize. by apply map_size_insert_None.
Qed.

Lemma set_spec k v : good_slot (Some (k, v)) → bad_key k || negb (is_ascii v) = false →
  ∃ s', let '(b, e') := set_bytes k v e in
        let ok := bool_decide (is_Some (m !! k)) || Nat.ltb (size m) MAX_ENV_VARS in
        b = ok ∧ env_rel e' s' (if ok then <[k := v]> m else m).
Proof using R.
  intros Hg Hb. unfold set_bytes. rewrite Hb. pose proof Hg as [Hk Hlen].
  assert (Nat.ltb MAX_ENV_ENTRY (length k + length v + 1) = false) as -> by (apply Nat.ltb_ge; lia).
  pose proof (rel_lookup _ _ _ R) as Hlook.
  destruct (List.find (slot_matches k e) slots) as [i|] eqn:Hf.
  - destruct (find_slots _ _ _ R _ _ Hf) as [_ [w Hi]%(slot_matches_spec _ _ _ R) ]; [|done].
    exists (<[i := Some (k, v)]> s). rewrite bool_decide_eq_true_2; [|exists w; apply Hlook; eauto].
    split; [done|]. by apply (rel_insert i k v _ Hg Hi).
  - assert (m !! k = None) as Hm.
    { destruct (m !! k) as [w|] eqn:E; [|done]. apply Hlook in E as [i Hi].
      assert (slot_matches k e i = true) as Ht by (apply (slot_matches_spec _ _ _ R); eauto).
      rewrite (find_slots_none _ _ _ R _ i Hf) in Ht; [done|by eapply lookup_lt_Some]. }
    rewrite Hm, (bool_decide_eq_false_2 (is_Some None)) by (by intros []). rewrite orb_false_l.
    pose proof (rel_size _ _ _ R) as Hsize. pose proof (rel_slots _ _ _ R) as Hs.
    destruct (List.find (slot_free e) slots) as [i|] eqn:Hfr.
    + destruct (find_slots _ _ _ R _ _ Hfr) as [_ Hi%(slot_free_spec _ _ _ R)].
      pose proof (count_not_full _ _ Hi). exists (<[i := Some (k, v)]> s).
      assert (Nat.ltb (size m) MAX_ENV_VARS = true) as -> by (apply Nat.ltb_lt; lia).
      split; [done|]. by apply (rel_insert i k v _ Hg Hi).
    + exists s. assert (Nat.ltb (size m) MAX_ENV_VARS = false) as ->; [|done]. apply Nat.ltb_ge.
      rewrite Hsize, count_full; [lia|]. intros i Hi Hn%(slot_free_spec _ _ _ R).
      rewrite (find_slots_none _ _ _ R _ i Hfr Hi) in Hn. done.
Qed.

Lemma get_loop_spec k out idx : good_key k → Forall (λ i, (i < length s)%nat) idx →
  get_loop k out e idx =
  match List.find (slot_matches k e) idx with
  | None => Err NotFound
  | Some _ =>
    match m !! k with
    | None => Err NotFound
    | Some v => if Nat.ltb (length out) (length v) then Err BufferTooSmall else Ok (length v, splice out 0 v)
    end
  end.
Proof using R.
  intros Hk. induction idx as [|i idx IH]; intros Hidx; [done|]. apply Forall_cons in Hidx as [Hi Hidx].
  apply lookup_lt_is_Some in Hi as [o Ho]. destruct (slot_entry _ _ _ R i o Ho) as [He Hl]. pose proof (rel_good _ _ _ R _ _ Ho) as Hg.
  cbn [get_loop List.find]. rewrite He, Hl. simpl.
  destruct o as [[k2 v]|].
  - simpl in Hg |- *. destruct Hg as [Hk2 Hlen]. rewrite length_fill_entry by done.
    assert (Nat.ltb MAX_ENV_ENTRY (length k2 + length v + 1) = false) as -> by (apply Nat.ltb_ge; lia).
    unfold slot_matches. rewrite He, Hl. simpl. rewrite matches_fill by done.
    case_bool_decide as Heq; [|by apply IH]. subst k2.
    assert (m !! k = Some v) as -> by (apply (rel_lookup _ _ _ R); eauto).
    rewrite fill_entry_take by done.
    assert (drop (length k + 1) (k ++ EQUALS :: v) = v) as ->; [|done].
    rewrite <-drop_drop, drop_app_length. done.
  - unfold slot_matches. rewrite He, Hl. simpl. by apply IH.
Qed.

Lemma get_spec k out : code_call (Get k out) e = ((spec_call (Get k out) m).1, e).
Proof using R.
  simpl. f_equal. f_equal. unfold get_bytes. destruct (bad_key k) eqn:Hb; [done|]. apply bad_key_false in Hb.
  rewrite get_loop_spec; [|done|].
  2:{ apply Forall_forall. intros i Hi. apply list_elem_of_In, in_seq in Hi. rewrite (rel_slots _ _ _ R). lia. }
  destruct (List.find (slot_matches k e) slots) as [i|] eqn:Hf; [done|].
  destruct (m !! k) as [v|] eqn:E; [|done]. apply (rel_lookup _ _ _ R) in E as [i Hi].
  assert (slot_matches k e i = true) as Ht by (apply (slot_matches_spec _ _ _ R); eauto).
  rewrite (find_slots_none _ _ _ R _ i Hf) in Ht; [done|by eapply lookup_lt_Some].
Qed.
End calls.

Lemma call_sim c e s m : env_rel e s m → ∃ s',
  (code_call c e).1 = (spec_call c m).1 ∧ env_rel (code_call c e).2 s' (spec_call c m).2.
Proof.
  intros R. destruct c as [k v|k out|].
  - simpl. unfold set_checked. destruct (bad_key k || negb (is_ascii v)) eqn:Hb; [by exists s|].
    destruct (Nat.ltb_spec MAX_ENV_ENTRY (length k + length v + 1)) as [|Hlen]; [by exists s|].
    rewrite orb_false_l.
    destruct (set_spec _ _ _ R k v) as [s' Hs']; [split; [|done]|done|].
    { apply orb_false_iff in Hb as [Hb _]. by apply bad_key_false. }
    exists s'. destruct (set_bytes k v e) as [b e']. destruct Hs' as [-> HR].
    destruct (bool_decide _ || _); done.
  - exists s. rewrite (get_spec _ _ _ R). done.
  - exists s. simpl. by rewrite (var_count_spec _ _ _ R).
Qed.

Lemma answers_sim cs e s m : env_rel e s m → answers code_call cs e = answers spec_call cs m.
Proof.
  revert e s m. induction cs as [|c cs IH]; intros e s m R; [done|]. simpl.
  destruct (call_sim c e s m R) as (s' & Ha & HR).
  destruct (code_call c e), (spec_call c m); simpl in *. f_equal; [done|]. by eapply IH.
Qed.

Lemma env_rel_empty : env_rel empty (replicate MAX_ENV_VARS None) ∅.
Proof.
  split; try done.
  - intros i o [-> _]%lookup_replicate. done.
  - intros k v. rewrite lookup_empty. split; [done|]. intros [i [? _]%lookup_replicate]. done.
  - intros i j k v v' [? _]%lookup_replicate. done.
Qed.

Lemma env_rel_set e m k v : (∃ s, env_rel e s m) →
  bad_key k || negb (is_ascii v) || Nat.ltb MAX_ENV_ENTRY (length k + length v + 1) = false →
  Nat.ltb (size m) MAX_ENV_VARS = true → ∃ s, env_rel (set_bytes k v e).2 s (<[k := v]> m).
Proof.
  intros [s R] Hb Hsz. destruct (set_spec _ _ _ R k v) as [s' Hs'].
  - open_guards. split; [by apply bad_key_false|done].
  - by apply orb_false_iff in Hb as [? _].
  - exists s'. destruct (set_bytes k v e). rewrite Hsz, orb_true_r in Hs'. apply Hs'.
Qed.

(** The defaults are the map of the four variables. *)
Lemma defaults_rel : ∃ s, env_rel defaults s default_variables.
Proof.
  unfold default_variables, defaults.
  do 4 (apply env_rel_set; [|vm_compute; reflexivity|vm_compute; reflexivity]).
  eexists. apply env_rel_empty.
Qed.

(** C19: An environment made by [defaults] answers any calls as the map does. *)
Theorem environment_refines_map cs : answers code_call cs defaults = answers spec_call cs default_variables.
Proof. destruct defaults_rel as [s R]. by eapply answers_sim. Qed.
