(* ===== verification/Cwd.v ===== *)
(** * Working directories (kernel/src/task.rs, path resolution)

    A process resolves the paths it names against its working directory.  The
    theorems give the resolution a meaning: a directory is a list of names, a
    path is a walk over them, and changing to a directory and then naming [b]
    reaches what naming [a/b] reached before. *)
From stdpp Require Import list.
From S2P Require Import Prelude Config VfsPath.

(** [task::FileError] *)
Inductive FileError :=
| PermissionDenied | NoProcess | NotFound | TooManyFiles | BadDescriptor | AlreadyExists | NotEmpty.
#[export] Instance FileError_eq_dec : EqDecision FileError.
Proof. solve_decision. Defined.

Definition has_nul (c : list byte) : bool := any (λ b, bool_decide (b = x00)) c.
Definition is_skip (c : list byte) : bool := bool_decide (c = []) || bool_decide (c = [DOT]).
Definition is_up (c : list byte) : bool := bool_decide (c = [DOT; DOT]).
(** [Vec::pop] *)
Definition pop {A} (l : list A) : list A := take (length l - 1) l.

(** The loop of [normalize_absolute]. *)
Fixpoint normalize_loop (components stack : list (list byte)) : res FileError (list (list byte)) :=
  match components with
  | [] => Ok stack
  | c :: cs =>
    if is_skip c then normalize_loop cs stack
    else if is_up c then normalize_loop cs (pop stack)
    else if has_nul c then Err NotFound
    else normalize_loop cs (stack ++ [c])
  end.

(** The slash, the first name, then a slash and a name for each other one. *)
Definition join (stack : list (list byte)) : list byte :=
  SLASH :: concat (imap (λ i part, if Nat.ltb 0 i then SLASH :: part else part) stack).

Definition normalize_absolute (path : list byte) : res FileError (list byte) :=
  if negb (starts_with_slash path) then Err NotFound else
  stack ← normalize_loop (split_slash path) [];
  if bool_decide (stack = []) then Ok [SLASH] else
  let out := join stack in
  if Nat.ltb MAX_PATH_SIZE (length out) then Err NotFound else Ok out.

(** The array of a process and the length used. *)
Definition Dir : Type := list byte * nat.
Definition zeros : list byte := replicate MAX_PATH_SIZE x00.
(** [[0; MAX_PATH_SIZE]] with the bytes copied in. *)
Definition store_path (p : list byte) : Dir := (splice zeros 0 p, length p).
Definition root_dir : Dir := (<[0%nat := SLASH]> zeros, 1%nat).

Definition resolve_path_with_cwd (path : list byte) (cwd : Dir) : res FileError (list byte) :=
  if bool_decide (path = []) then Err NotFound
  else if starts_with_slash path then normalize_absolute path
  else if Nat.ltb (length cwd.1) cwd.2 then Panic
  else
    let cwd_str := take cwd.2 cwd.1 in
    if negb (utf8_valid cwd_str) then Err NotFound
    else if bool_decide (cwd_str = [SLASH]) then normalize_absolute ([] ++ [SLASH] ++ path)
    else normalize_absolute (cwd_str ++ [SLASH] ++ path).

(** [current_cwd_str] on the process's directory; the result carries the caller's buffer. *)
Definition cwd_str_into (buf : list byte) (cwd : Dir) : res FileError (nat * list byte) :=
  if Nat.ltb (length buf) cwd.2 then Err TooManyFiles
  else if Nat.ltb (length cwd.1) cwd.2 then Panic
  else Ok (cwd.2, splice buf 0 (take cwd.2 cwd.1)).

(** ** Walks *)

(** Where a path leads from a directory, both as lists of names. *)
Definition step (here : list (list byte)) (c : list byte) : list (list byte) :=
  if is_skip c then here else if is_up c then pop here else here ++ [c].
Definition walk (here : list (list byte)) (path : list byte) : list (list byte) := foldl step here (split_slash path).

(** A name that can be stored: not empty, no dots, no slash, no zero byte, UTF-8. *)
Definition name_ok (c : list byte) : Prop :=
  is_skip c = false ∧ is_up c = false ∧ SLASH ∉ c ∧ x00 ∉ c ∧ utf8_valid c = true.

(** The directory [names], as a process stores it. *)
Definition stands_for (names : list (list byte)) (cwd : Dir) : Prop :=
  cwd = store_path (render names) ∧ Forall name_ok names ∧ (length (render names) ≤ MAX_PATH_SIZE)%nat.

Lemma has_nul_false c : has_nul c = false ↔ x00 ∉ c.
Proof.
  unfold has_nul. rewrite any_false. split.
  - intros H [i Hi]%list_elem_of_lookup. apply H in Hi. by apply bool_decide_eq_false_1 in Hi.
  - intros H i b Hi. apply bool_decide_eq_false. intros ->. destruct H. by eapply list_elem_of_lookup_2.
Qed.

Lemma join_render stack : stack ≠ [] → join stack = render stack.
Proof.
  destruct stack as [|c stack]; [done|]. intros _. unfold join. rewrite imap_cons. simpl.
  unfold suffix_of. rewrite fmap_cons. simpl. f_equal. f_equal. f_equal.
  rewrite <-(imap_const (λ c, SLASH :: c)). by apply imap_ext.
Qed.

Lemma normalize_loop_spec cs stack :
  normalize_loop cs stack = if any has_nul cs then Err NotFound else Ok (foldl step stack cs).
Proof.
  revert stack. induction cs as [|c cs IH]; intros stack; [done|]. unfold any, step in *. simpl. rewrite !IH.
  destruct (is_skip c) eqn:Hs.
  { assert (has_nul c = false) as ->; [|done]. unfold is_skip in Hs. apply orb_true_iff in Hs as [Hs|Hs];
      apply bool_decide_eq_true_1 in Hs as ->; done. }
  destruct (is_up c) eqn:Hu; [apply bool_decide_eq_true_1 in Hu as ->; done|].
  by destruct (has_nul c).
Qed.

Lemma split_nul p : any has_nul (split_slash p) = has_nul p.
Proof.
  induction p as [|b p IH]; [done|]. simpl. destruct (split_slash_spec p) as (c & cs & Hs & _ & _).
  destruct (is_slash b) eqn:E; unfold any, has_nul, any in *; simpl.
  - apply is_slash_true in E as ->. exact IH.
  - rewrite Hs in *. simpl in *. by rewrite <-IH, orb_assoc.
Qed.

(** ** The resolution is a walk *)

Definition destination (names : list (list byte)) (path : list byte) : res FileError (list byte) :=
  let there := walk names path in
  if has_nul path then Err NotFound
  else if Nat.ltb MAX_PATH_SIZE (length (render there)) then Err NotFound else Ok (render there).

Lemma normalize_spec path : normalize_absolute (SLASH :: path) = destination [] path.
Proof.
  unfold normalize_absolute, destination, walk. change (starts_with_slash (SLASH :: path)) with true. cbn [negb].
  rewrite normalize_loop_spec, split_nul. change (has_nul (SLASH :: path)) with (has_nul path).
  destruct (has_nul path); [done|]. change (split_slash (SLASH :: path)) with ([] :: split_slash path).
  change (foldl step [] ([] :: split_slash path)) with (foldl step [] (split_slash path)).
  unfold mbind, res_bind. cbv beta iota zeta. case_bool_decide as He.
  - rewrite He. by vm_compute.
  - by rewrite !join_render by done.
Qed.

Lemma walk_app names a b : walk names (a ++ SLASH :: b) = walk (walk names a) b.
Proof.
  unfold walk. rewrite <-foldl_app. f_equal. induction a as [|x a IH]; [done|].
  simpl. rewrite IH. destruct (split_slash_spec a) as (c & cs & -> & _). by destruct (is_slash x).
Qed.

Lemma walk_names names : Forall name_ok names → walk [] (suffix_of names) = names.
Proof.
  intros H. unfold walk. destruct names as [|c names]; [done|].
  change (suffix_of (c :: names)) with ([] ++ suffix_of (c :: names)).
  rewrite split_suffix; [|apply not_elem_of_nil|eapply Forall_impl; [exact H|by intros ? (_ & _ & ? & _)]].
  change (foldl step [] ([] :: c :: names)) with (foldl step [] (c :: names)). generalize (c :: names), H.
  clear. intros l H. assert (∀ here, foldl step here l = here ++ l) as Hl; [|by rewrite Hl].
  induction H as [|c l (Hs & Hu & _) _ IH]; intros here; simpl; [by rewrite app_nil_r|].
  unfold step at 2. rewrite Hs, Hu, IH. by rewrite <-app_assoc.
Qed.

Lemma walk_render names path : Forall name_ok names → walk [] (render names ++ SLASH :: path) = walk names path.
Proof.
  intros H. destruct names as [|c names].
  - change (render [] ++ SLASH :: path) with ([] ++ SLASH :: [] ++ SLASH :: path). by rewrite !walk_app.
  - rewrite render_nonempty, walk_app, walk_names by done. done.
Qed.

(** ** Names stay well formed *)

Lemma slash_continues a l : utf8_valid (a ++ SLASH :: l) = true → utf8_valid a = true ∧ utf8_valid l = true.
Proof.
  induction (well_founded_ltof _ (length (A := byte)) a) as [a _ IH].
  assert (Hrec : ∀ a', (length a' < length a)%nat → utf8_valid (a' ++ SLASH :: l) = true → utf8_valid a' = true ∧ utf8_valid l = true)
    by (intros; by apply IH).
  clear IH. destruct a as [|b0 l1]; [done|]. simpl. destruct (byte_z b0 <? 0x80).
  { intros H. apply Hrec; [simpl; lia|done]. }
  destruct l1 as [|b1 l2]; simpl.
  { change (continuation SLASH) with false. rewrite andb_false_r. destruct l as [|b2 l]; [done|].
    assert (three_bytes b0 SLASH b2 = false) as ->.
    { unfold three_bytes, in_range, continuation. vm_compute (byte_z SLASH). simpl. by rewrite !andb_false_r. }
    destruct l as [|b3 l]; [done|].
    assert (four_bytes b0 SLASH b2 b3 = false) as ->; [|done].
    unfold four_bytes, in_range, continuation. vm_compute (byte_z SLASH). simpl. by rewrite !andb_false_r. }
  destruct (_ && _).
  { intros H. apply Hrec; [simpl; lia|done]. }
  destruct l2 as [|b2 l3]; simpl.
  { assert (∀ b, three_bytes b0 b1 SLASH = false ∧ four_bytes b0 b1 SLASH b = false) as Hs.
    { intros b. unfold three_bytes, four_bytes. change (continuation SLASH) with false. by rewrite !andb_false_r. }
    destruct (Hs x00) as [-> _]. destruct l as [|b3 l]; [done|]. by destruct (Hs b3) as [_ ->]. }
  destruct (three_bytes _ _ _).
  { intros H. apply Hrec; [simpl; lia|done]. }
  destruct l3 as [|b3 l4]; simpl.
  { unfold four_bytes. change (continuation SLASH) with false. by rewrite !andb_false_r. }
  destruct (four_bytes _ _ _ _); [|done]. intros H. apply Hrec; [simpl; lia|done].
Qed.

Lemma utf8_suffix cs : utf8_valid (suffix_of cs) = true ↔ Forall (λ c, utf8_valid c = true) cs.
Proof.
  induction cs as [|c cs IH]; [by split|]. change (suffix_of (c :: cs)) with (SLASH :: c ++ suffix_of cs).
  change (utf8_valid (SLASH :: c ++ suffix_of cs)) with (utf8_valid (c ++ suffix_of cs)).
  rewrite Forall_cons, <-IH. split; [|intros [Hc H]; by rewrite utf8_app].
  destruct cs as [|d cs]; [change (suffix_of []) with (@nil byte); by rewrite app_nil_r|].
  change (suffix_of (d :: cs)) with (SLASH :: d ++ suffix_of cs). intros H. by apply slash_continues in H.
Qed.

Lemma split_utf8 p : utf8_valid p = true → Forall (λ c, utf8_valid c = true) (split_slash p).
Proof.
  intros H. destruct (split_slash_spec p) as (c & cs & -> & -> & _). by apply (utf8_suffix (c :: cs)).
Qed.

Lemma walk_ok names p : Forall name_ok names → has_nul p = false → utf8_valid p = true → Forall name_ok (walk names p).
Proof.
  intros Hn Hz Hu%split_utf8. rewrite <-split_nul in Hz. unfold walk.
  destruct (split_slash_spec p) as (c & cs & Hs & _ & Hno). rewrite <-Hs in Hno. clear Hs.
  revert names Hn Hz. induction Hu as [|d l Hd _ IH]; intros names Hn Hz; [done|]. simpl.
  apply Forall_cons in Hno as [Hsl Hno]. unfold any in Hz. simpl in Hz. apply orb_false_iff in Hz as [Hz1 Hz2].
  apply IH; [done| |done]. unfold step. destruct (is_skip d) eqn:E1; [done|]. destruct (is_up d) eqn:E2.
  - by apply Forall_take.
  - apply Forall_app. split; [done|]. apply Forall_singleton. repeat split; [..|done]; [done..|]. by apply has_nul_false.
Qed.

Lemma render_utf8 names : Forall name_ok names → utf8_valid (render names) = true.
Proof.
  intros H. destruct names as [|c names]; [done|]. rewrite render_nonempty by done. apply utf8_suffix.
  eapply Forall_impl; [exact H|]. by intros ? (_ & _ & _ & _ & ?).
Qed.

Lemma stored_path names cwd : stands_for names cwd → take cwd.2 cwd.1 = render names ∧ (cwd.2 ≤ length cwd.1)%nat.
Proof.
  intros (-> & _ & Hlen). unfold store_path. cbn [fst snd].
  assert (length (render names) ≤ length zeros)%nat by (unfold zeros; rewrite length_replicate; lia). split.
  - unfold splice. rewrite take_0, app_nil_l. apply take_app_length.
  - rewrite length_splice; lia.
Qed.

Lemma starts_slash_inv p : starts_with_slash p = true → ∃ r, p = SLASH :: r.
Proof. destruct p as [|b p]; [done|]. simpl. rewrite is_slash_true. intros ->. eauto. Qed.

(** Where a path starts from. *)
Definition start (names : list (list byte)) (path : list byte) : list (list byte) :=
  if starts_with_slash path then [] else names.

Lemma resolve_walks names cwd path : stands_for names cwd → path ≠ [] →
  resolve_path_with_cwd path cwd = destination (start names path) path.
Proof.
  intros Hs Hp. pose proof Hs as (_ & Hn & _). destruct (stored_path _ _ Hs) as [Ht Hle].
  unfold resolve_path_with_cwd, start. rewrite bool_decide_eq_false_2 by done.
  destruct (starts_with_slash path) eqn:Ha.
  - apply starts_slash_inv in Ha as [r ->]. by rewrite normalize_spec.
  - assert (Nat.ltb (length cwd.1) cwd.2 = false) as -> by (by apply Nat.ltb_ge).
    rewrite Ht, render_utf8 by done. cbn [negb]. 
    assert (normalize_absolute (render names ++ [SLASH] ++ path) = destination names path) as Hd.
    { assert (∃ r, render names = SLASH :: r) as [r Hr] by (apply starts_slash_inv, render_starts).
      rewrite Hr. change ((SLASH :: r) ++ [SLASH] ++ path) with (SLASH :: r ++ SLASH :: path).
      rewrite normalize_spec. unfold destination.
      assert (walk [] (r ++ SLASH :: path) = walk names path) as ->.
      { rewrite <-(walk_render names path), Hr by done. done. }
      assert (has_nul (r ++ SLASH :: path) = has_nul path) as ->; [|done].
      assert (has_nul (render names) = false) as Hz.
      { apply has_nul_false. intros Hin. destruct names as [|c names].
        - by apply list_elem_of_singleton in Hin.
        - rewrite render_nonempty in Hin by done. apply elem_of_suffix in Hin as (d & Hd & [?|Hin]); [done|].
          rewrite Forall_forall in Hn. by destruct (Hn d Hd) as (_ & _ & _ & ? & _). }
      rewrite Hr in Hz. unfold has_nul, any in *. rewrite existsb_app. simpl in Hz |- *. by rewrite Hz. }
    case_bool_decide as He; [|done]. rewrite <-Hd, He. simpl app. rewrite !normalize_spec. done.
Qed.

(** A change of the working directory composes with the resolution. *)
Theorem chdir_composes names cwd a q :
  stands_for names cwd → utf8_valid a = true → resolve_path_with_cwd a cwd = Ok q →
  stands_for (walk (start names a) a) (store_path q) ∧
  ∀ b, b ≠ [] → starts_with_slash b = false →
    resolve_path_with_cwd b (store_path q) = resolve_path_with_cwd (a ++ [SLASH] ++ b) cwd.
Proof.
  intros Hs Hu Hq. assert (a ≠ []) as Ha by (by intros ->).
  rewrite (resolve_walks names) in Hq by done. unfold destination in Hq.
  destruct (has_nul a) eqn:Hz; [done|]. destruct (Nat.ltb_spec MAX_PATH_SIZE (length (render (walk (start names a) a)))); [done|].
  injection Hq as <-. pose proof Hs as (_ & Hn & _).
  assert (Forall name_ok (start names a)) as Hst by (unfold start; by destruct (starts_with_slash a)).
  assert (stands_for (walk (start names a) a) (store_path (render (walk (start names a) a)))) as Hs'
    by (split; [done|]; split; [by apply walk_ok|done]).
  split; [done|]. intros b Hb Hsb. rewrite (resolve_walks _ _ _ Hs' Hb). rewrite (resolve_walks _ _ _ Hs) by (by destruct a).
  unfold destination. unfold start at 1 2 3. rewrite Hsb.
  assert (start names (a ++ [SLASH] ++ b) = start names a) as -> by (by destruct a).
  change (a ++ [SLASH] ++ b) with (a ++ SLASH :: b). rewrite walk_app.
  assert (has_nul (a ++ SLASH :: b) = has_nul b) as ->; [|done].
  unfold has_nul, any in *. rewrite existsb_app, Hz. done.
Qed.

Lemma root_stands : stands_for [] root_dir.
Proof. split; [by vm_compute|]. split; [constructor|vm_compute; lia]. Qed.

Lemma chdir_composes_witness :
  (utf8_valid (bytes "usr/./lib/../bin") = true ∧
   resolve_path_with_cwd (bytes "usr/./lib/../bin") root_dir = Ok (bytes "/usr/bin")) ∧
  resolve_path_with_cwd (bytes "../tmp") (store_path (bytes "/usr/bin"))
  = resolve_path_with_cwd (bytes "usr/./lib/../bin" ++ [SLASH] ++ bytes "../tmp") root_dir.
Proof.
  split; [split; vm_compute; reflexivity|].
  apply (chdir_composes [] root_dir (bytes "usr/./lib/../bin") (bytes "/usr/bin") root_stands);
    [vm_compute; reflexivity|vm_compute; reflexivity|discriminate|reflexivity].
Defined.
