(* ===== verification/Process.v ===== *)
(** * Processes (kernel/src/task.rs, the process table and its calls)

    Each process has a task of the scheduler, a table of file descriptors that
    refer to open files of the VFS and to ends of pipes, a working directory,
    an environment, signals and a group.  Processes run on the boot processor
    with interrupts disabled, so a call is one step; [cpu] is the processor
    that runs it.  A function that takes a lock its caller holds spins forever:
    that is [Panic], as every call that never returns. *)
From stdpp Require Import list gmap.
From S2P Require Import Prelude Config Cwd Table.
From S2P Require Vfs VfsPath Pipe Ipc Sched Capability Environment.

(** ** Data *)

Inductive ProcessState := Ready | Exited.
#[export] Instance ProcessState_eq_dec : EqDecision ProcessState.
Proof. solve_decision. Defined.

Record Credentials := mkCredentials { uid : Z; gid : Z }.
#[export] Instance Credentials_eq_dec : EqDecision Credentials.
Proof. solve_decision. Defined.
Definition ROOT : Credentials := mkCredentials 0 0.
Definition USERSPACE : Credentials := mkCredentials 1000 1000.
Definition is_root (c : Credentials) : bool := uid c =? 0.

Inductive FdKind := File (id : nat) | PipeRead (id : nat) | PipeWrite (id : nat).
#[export] Instance FdKind_eq_dec : EqDecision FdKind.
Proof. solve_decision. Defined.
Abbreviation FileTable := (list (option FdKind)).

Inductive ProcessError := Full.
Inductive WaitError := NoSuchChild | StillRunning.
Inductive MemoryError := MPermission | MBadDescriptor | MNoProcess | MInvalidLength | MFull | MNotFound | MMappingFailed.

(** What the calls need of the address spaces of userspace.rs and the sockets
    of network.rs; [A] is an address space, [P] a mapping, [X] their state. *)
Class Others (A P X : Type) := {
  clone_address_space : A → list (option P) → X → option A * X;
  destroy : A → X → bool * X;
  unmap_anonymous : A → P → X → bool * X;
  map_anonymous : A → nat → Z → bool → X → option P * X;
  mapping_address : P → Z;
  mapping_size : P → Z;
  paging_root : A → Z;
  close_process_sockets : Z → X → X }.

(** What they need of the volume mounted at [/mnt] (storage.rs). *)
Module EnsureError.
Inductive t := Unmounted | NoDevice | NotFat32 | NotFound | NotUnderMount | InvalidPath | TooLarge | Vfs | Failed.
End EnsureError.
Module PersistError.
Inductive t := Unmounted | NotSupported | NotFound | NoDevice | BadName | TooLarge | Failed.
End PersistError.
Module MutationError.
Inductive t := Unmounted | NotSupported | NotFound | NoDevice | BadName | AlreadyExists | NotEmpty | ReadOnly | Failed.
End MutationError.
Class Mount (F K : Type) := {
  mnt_mounted : K → bool;
  mark_mnt_dirty : K → K;
  ensure_path : list byte → M (Vfs.Fs F K) EnsureError.t unit;
  persist_directory : list byte → M (Vfs.Fs F K) PersistError.t unit;
  delete_path : list byte → M (Vfs.Fs F K) MutationError.t unit;
  rename_path : list byte → list byte → M (Vfs.Fs F K) MutationError.t unit }.

Record Process (A P : Type) := mkProcess {
  p_id : Z; p_task : Z; p_state : ProcessState; p_parent : Z; p_credentials : Credentials; p_exit_code : Z;
  p_space : option A; p_files : FileTable; p_mappings : list (option P); p_cwd : Dir; p_pending : Z; p_group : Z;
  p_actions : list Z; p_env : Environment.ProcessEnvironment }.
Arguments mkProcess {A P}. Arguments p_id {A P}. Arguments p_task {A P}. Arguments p_state {A P}. Arguments p_parent {A P}.
Arguments p_credentials {A P}. Arguments p_exit_code {A P}. Arguments p_space {A P}. Arguments p_files {A P}.
Arguments p_mappings {A P}. Arguments p_cwd {A P}. Arguments p_pending {A P}. Arguments p_group {A P}.
Arguments p_actions {A P}. Arguments p_env {A P}.

(** The scheduler, [PROCESS_TABLE], [NEXT_PROCESS_ID], the globals of vfs.rs,
    pipe.rs and ipc.rs, the terminal's [FOREGROUND_PID], the rest. *)
Record World (A P X F K : Type) := mkWorld {
  kernel : Sched.Kernel; procs : list (option (Process A P)); next_pid : Z; vfs : Vfs.Fs F K; pipes : list Pipe.Pipe;
  ipc : Ipc.State; foreground : Z; others : X }.
Arguments mkWorld {A P X F K}. Arguments kernel {A P X F K}. Arguments procs {A P X F K}. Arguments next_pid {A P X F K}.
Arguments vfs {A P X F K}. Arguments pipes {A P X F K}. Arguments ipc {A P X F K}. Arguments foreground {A P X F K}.
Arguments others {A P X F K}.

(** The locks a caller may hold. *)
Inductive Lock := SCHEDULER | PROCESS_TABLE.
#[export] Instance Lock_eq_dec : EqDecision Lock.
Proof. solve_decision. Defined.

Section process.
Context {A P X F K : Type} `{Others A P X, Mount F K, Vfs.Frames F, Vfs.DiskFiles K}.
Context (stack_start : nat → Z) (cpu : nat).
#[local] Abbreviation Proc := (Process A P).
#[local] Abbreviation Wd := (World A P X F K).
#[local] Abbreviation Io := (M (World A P X F K)).

Definition set_state x (p : Proc) : Proc := mkProcess (p_id p) (p_task p) x (p_parent p) (p_credentials p)
    (p_exit_code p) (p_space p) (p_files p) (p_mappings p) (p_cwd p) (p_pending p) (p_group p) (p_actions p)
    (p_env p).
Definition set_exit_code x (p : Proc) : Proc := mkProcess (p_id p) (p_task p) (p_state p) (p_parent p)
    (p_credentials p) x (p_space p) (p_files p) (p_mappings p) (p_cwd p) (p_pending p) (p_group p) (p_actions p)
    (p_env p).
Definition set_space x (p : Proc) : Proc := mkProcess (p_id p) (p_task p) (p_state p) (p_parent p) (p_credentials p)
    (p_exit_code p) x (p_files p) (p_mappings p) (p_cwd p) (p_pending p) (p_group p) (p_actions p) (p_env p).
Definition set_files x (p : Proc) : Proc := mkProcess (p_id p) (p_task p) (p_state p) (p_parent p) (p_credentials p)
    (p_exit_code p) (p_space p) x (p_mappings p) (p_cwd p) (p_pending p) (p_group p) (p_actions p) (p_env p).
Definition set_mappings x (p : Proc) : Proc := mkProcess (p_id p) (p_task p) (p_state p) (p_parent p)
    (p_credentials p) (p_exit_code p) (p_space p) (p_files p) x (p_cwd p) (p_pending p) (p_group p) (p_actions p)
    (p_env p).
Definition set_cwd x (p : Proc) : Proc := mkProcess (p_id p) (p_task p) (p_state p) (p_parent p) (p_credentials p)
    (p_exit_code p) (p_space p) (p_files p) (p_mappings p) x (p_pending p) (p_group p) (p_actions p) (p_env p).
Definition set_pending x (p : Proc) : Proc := mkProcess (p_id p) (p_task p) (p_state p) (p_parent p)
    (p_credentials p) (p_exit_code p) (p_space p) (p_files p) (p_mappings p) (p_cwd p) x (p_group p) (p_actions p)
    (p_env p).
Definition set_group x (p : Proc) : Proc := mkProcess (p_id p) (p_task p) (p_state p) (p_parent p) (p_credentials p)
    (p_exit_code p) (p_space p) (p_files p) (p_mappings p) (p_cwd p) (p_pending p) x (p_actions p) (p_env p).
Definition set_actions x (p : Proc) : Proc := mkProcess (p_id p) (p_task p) (p_state p) (p_parent p)
    (p_credentials p) (p_exit_code p) (p_space p) (p_files p) (p_mappings p) (p_cwd p) (p_pending p) (p_group p) x
    (p_env p).
Definition set_env x (p : Proc) : Proc := mkProcess (p_id p) (p_task p) (p_state p) (p_parent p) (p_credentials p)
    (p_exit_code p) (p_space p) (p_files p) (p_mappings p) (p_cwd p) (p_pending p) (p_group p) (p_actions p) x.
Definition with_kernel x (w : Wd) : Wd := mkWorld x (procs w) (next_pid w) (vfs w) (pipes w) (ipc w) (foreground w)
    (others w).
Definition with_procs x (w : Wd) : Wd := mkWorld (kernel w) x (next_pid w) (vfs w) (pipes w) (ipc w) (foreground w)
    (others w).
Definition with_next_pid x (w : Wd) : Wd := mkWorld (kernel w) (procs w) x (vfs w) (pipes w) (ipc w) (foreground w)
    (others w).
Definition with_vfs x (w : Wd) : Wd := mkWorld (kernel w) (procs w) (next_pid w) x (pipes w) (ipc w) (foreground w)
    (others w).
Definition with_pipes x (w : Wd) : Wd := mkWorld (kernel w) (procs w) (next_pid w) (vfs w) x (ipc w) (foreground w)
    (others w).
Definition with_ipc x (w : Wd) : Wd := mkWorld (kernel w) (procs w) (next_pid w) (vfs w) (pipes w) x (foreground w)
    (others w).
Definition with_foreground x (w : Wd) : Wd := mkWorld (kernel w) (procs w) (next_pid w) (vfs w) (pipes w) (ipc w) x
    (others w).
Definition with_others x (w : Wd) : Wd := mkWorld (kernel w) (procs w) (next_pid w) (vfs w) (pipes w) (ipc w)
    (foreground w) x.
(** ** Running the components *)

Definition acquire {E} (l : Lock) (held : list Lock) : Io E unit := if bool_decide (l ∈ held) then lift Panic else mret tt.

(** A call of the scheduler that has no error. *)
Definition on_kernel {E T} (m : M Sched.Kernel Sched.SpawnError T) : Io E T := λ w,
  let '(r, k) := m (kernel w) in (match r with Ok a => Ok a | _ => Panic end, with_kernel k w).
Definition on_vfs {E E' T} (f : E' → E) (m : M (Vfs.Fs F K) E' T) : Io E T := λ w,
  let '(r, s) := m (vfs w) in (map_err f r, with_vfs s w).
(** The outcome as a value. *)
Definition try_vfs {E E' T} (m : M (Vfs.Fs F K) E' T) : Io E (res E' T) := λ w,
  let '(r, s) := m (vfs w) in (match r with Panic => Panic | _ => Ok r end, with_vfs s w).
Definition on_pipes {E T} (f : Pipe.PipeError → E) (m : M (list Pipe.Pipe) Pipe.PipeError T) : Io E T := λ w,
  let '(r, t) := m (pipes w) in (map_err f r, with_pipes t w).
Definition on_ipc {E T} (f : Ipc.IpcError → E) (m : M Ipc.State Ipc.IpcError T) : Io E T := λ w,
  let '(r, s) := m (ipc w) in (map_err f r, with_ipc s w).
Definition on_others {E T} (m : X → T * X) : Io E T := λ w, let '(a, x) := m (others w) in (Ok a, with_others x w).
(** [assert!] *)
Definition assert {E} (b : bool) : Io E unit := if b then mret tt else lift Panic.

Definition current_task_id {E} (held : list Lock) : Io E Z := _ ← acquire SCHEDULER held; on_kernel (Sched.current_task_id cpu).
Definition current_has {E} (c : Capability.Capability) : Io E bool := on_kernel (Sched.current_has cpu c).

(** The first process of the table that satisfies [f], and its slot. *)
Definition find_process (f : Proc → bool) (ps : list (option Proc)) : option (nat * Proc) :=
  i ← position (λ o, match o with Some p => f p | None => false end) ps;
  p ← mjoin (ps !! i);
  Some (i, p).
Definition of_task (id : Z) (p : Proc) : bool := p_task p =? id.
Definition of_id (id : Z) (p : Proc) : bool := p_id p =? id.
Definition find_by {E} (held : list Lock) (f : Proc → bool) : Io E (option (nat * Proc)) :=
  _ ← acquire PROCESS_TABLE held; gets (λ w, find_process f (procs w)).
(** The running process, or the error. *)
Definition current_process {E} (e : E) : Io E (nat * Proc) :=
  id ← current_task_id [];
  o ← find_by [] (of_task id);
  lift (ok_or e o).
Definition put_process {E} (slot : nat) (p : Proc) : Io E unit := modify (λ w, with_procs (<[slot := Some p]> (procs w)) w).

Definition current_process_id {E} (held : list Lock) : Io E Z :=
  id ← current_task_id held;
  o ← find_by held (of_task id);
  mret (match o with Some (_, p) => p_id p | None => id end).

(** ** Descriptors *)

(** pipe.rs's [wake_list] *)
Fixpoint wake_list {E} (held : list Lock) (waiters : list (option Z)) : Io E unit :=
  match waiters with
  | [] => mret tt
  | None :: l => wake_list held l
  | Some id :: l =>
    _ ← acquire SCHEDULER held;
    _ ← on_kernel (Sched.wake_task id);
    wake_list held l
  end.

Definition close_pipe {E} (held : list Lock) (f : list Pipe.Pipe → list (option Z) * list Pipe.Pipe) : Io E unit :=
  waiters ← (λ w, let '(l, t) := f (pipes w) in (Ok l, with_pipes t w));
  wake_list held waiters.

Definition release_fd {E} (held : list Lock) (fd : FdKind) : Io E unit :=
  match fd with
  | File id => _ ← try_vfs (Vfs.close_open_file id); mret tt
  | PipeRead id => close_pipe held (Pipe.close_reader id)
  | PipeWrite id => close_pipe held (Pipe.close_writer id)
  end.

(** The entries of a table, which becomes empty. *)
Fixpoint release_entries {E} (held : list Lock) (files : FileTable) : Io E unit :=
  match files with
  | [] => mret tt
  | None :: l => release_entries held l
  | Some fd :: l => _ ← release_fd held fd; release_entries held l
  end.
Definition release_file_table {E} (held : list Lock) (files : FileTable) : Io E FileTable :=
  _ ← release_entries held files; mret (replicate (length files) None).

(** One more reference to what [fd] refers to. *)
Definition clone_fd {E} (e : E) (fd : FdKind) : Io E FdKind :=
  match fd with
  | File id => id ← on_vfs (λ _, e) (Vfs.clone_open_file id); mret (File id)
  | PipeRead id => _ ← on_pipes (λ _, e) (Pipe.clone_reader id); mret (PipeRead id)
  | PipeWrite id => _ ← on_pipes (λ _, e) (Pipe.clone_writer id); mret (PipeWrite id)
  end.

Definition no_files : FileTable := replicate MAX_FILE_DESCRIPTORS None.

(** The loop of [clone_file_table] at entry [index]. *)
Fixpoint clone_entries (held : list Lock) (index : nat) (parent_files child_files : FileTable) : Io ProcessError FileTable :=
  match parent_files with
  | [] => mret child_files
  | None :: l => clone_entries held (S index) l child_files
  | Some fd :: l =>
    r ← attempt (clone_fd Full fd);
    match r with
    | Ok fd => clone_entries held (S index) l (<[index := Some fd]> child_files)
    | _ => _ ← release_file_table held child_files; fail Full
    end
  end.
Definition clone_file_table (held : list Lock) (parent_files : FileTable) := clone_entries held 0 parent_files no_files.

(** The first free descriptor behind the standard streams. *)
Definition free_descriptor (files : FileTable) : option nat :=
  List.find (λ d, bool_decide (files !! d = Some None)) (seq 3 (MAX_FILE_DESCRIPTORS - 3)).
(** [files.get(descriptor).copied().flatten()] *)
Definition descriptor_of (files : FileTable) (d : nat) : option FdKind := mjoin (files !! d).

Definition install (slot : nat) (p : Proc) (fd : FdKind) : Io FileError nat :=
  d ← lift (ok_or TooManyFiles (free_descriptor (p_files p)));
  _ ← put_process slot (set_files (<[d := Some fd]> (p_files p)) p);
  mret d.

Definition dup_current (descriptor : nat) : Io FileError nat :=
  '(slot, p) ← current_process NoProcess;
  fd ← lift (ok_or BadDescriptor (descriptor_of (p_files p) descriptor));
  cloned ← clone_fd TooManyFiles fd;
  install slot p cloned.

Definition dup2_current (old new : nat) : Io FileError nat :=
  if Nat.leb MAX_FILE_DESCRIPTORS new then fail BadDescriptor
  else if Nat.eqb old new then mret new
  else
    '(slot, p) ← current_process NoProcess;
    fd ← lift (ok_or BadDescriptor (descriptor_of (p_files p) old));
    cloned ← clone_fd TooManyFiles fd;
    o ← lift (or_panic (p_files p !! new));
    _ ← put_process slot (set_files (<[new := None]> (p_files p)) p);
    _ ← (match o with Some prev => release_fd [PROCESS_TABLE] prev | None => mret tt end);
    _ ← put_process slot (set_files (<[new := Some cloned]> (p_files p)) p);
    mret new.

Definition pipe_current : Io FileError (nat * nat) :=
  pipe_id ← on_pipes (λ _, TooManyFiles) Pipe.alloc;
  '(slot, p) ← current_process NoProcess;
  read_fd ← install slot p (PipeRead pipe_id);
  o ← gets (λ w, mjoin (procs w !! slot));
  p ← lift (or_panic o);
  write_fd ← install slot p (PipeWrite pipe_id);
  mret (read_fd, write_fd).

Definition close_current (descriptor : nat) : Io FileError unit :=
  if Nat.ltb descriptor 3 then fail BadDescriptor else
  '(slot, p) ← current_process NoProcess;
  fd ← lift (ok_or BadDescriptor (descriptor_of (p_files p) descriptor));
  _ ← put_process slot (set_files (<[descriptor := None]> (p_files p)) p);
  release_fd [] fd.

Definition descriptor_is_open (descriptor : nat) : Io FileError bool :=
  id ← current_task_id [];
  o ← find_by [] (of_task id);
  mret (match o with Some (_, p) => bool_decide (is_Some (descriptor_of (p_files p) descriptor)) | None => false end).
Definition open_file_count (w : Wd) : nat :=
  sum_list ((λ p, length (omap id (p_files p))) <$> omap id (procs w)).

(** The description behind a descriptor of the running process. *)
Definition target (descriptor : nat) : Io FileError FdKind :=
  '(_, p) ← current_process NoProcess;
  lift (ok_or BadDescriptor (descriptor_of (p_files p) descriptor)).

(** A call on a file is over; one on a pipe goes on as a thread of [Pipe]. *)
Inductive Transfer := Moved (n : nat) (buf : list byte) | OnPipe (pc : Pipe.PC).

Definition read_current (descriptor : nat) (buf : list byte) : Io FileError Transfer :=
  fd ← target descriptor;
  match fd with
  | File id => '(n, buf) ← on_vfs (λ _, BadDescriptor) (Vfs.read id buf); mret (Moved n buf)
  | PipeRead id => mret (OnPipe (Pipe.read id buf))
  | PipeWrite _ => fail BadDescriptor
  end.

Definition on_storage {E} (f : K → K) : Io E unit := modify (λ w,
  with_vfs (Vfs.mkFs (Vfs.registry (vfs w)) (Vfs.files (vfs w)) (Vfs.frames (vfs w)) (f (Vfs.storage (vfs w)))) w).
Definition mounted {E} : Io E bool := gets (λ w, mnt_mounted (Vfs.storage (vfs w))).

Definition write_current (descriptor : nat) (buf : list byte) : Io FileError Transfer :=
  fd ← target descriptor;
  match fd with
  | File id =>
    allowed ← current_has Capability.FileWrite;
    if negb allowed then fail PermissionDenied else
    r ← try_vfs (Vfs.open_file_path_starts_with id (bytes "/mnt/"));
    let under_mnt := match r with Ok b => b | _ => false end in
    m ← mounted;
    if under_mnt && negb m then fail NotFound else
    n ← on_vfs (λ _, BadDescriptor) (Vfs.write id buf);
    _ ← (if under_mnt then on_storage mark_mnt_dirty else mret tt);
    mret (Moved n buf)
  | PipeWrite id => mret (OnPipe (Pipe.write id buf))
  | PipeRead _ => fail BadDescriptor
  end.

Definition seek_current (descriptor offset : nat) : Io FileError nat :=
  fd ← target descriptor;
  match fd with
  | File id => on_vfs (λ _, BadDescriptor) (Vfs.seek id offset)
  | _ => fail BadDescriptor
  end.

(** ** Creation and the end *)

(** userspace.rs's [UserImage] and [UserProgram]. *)
Record UserImage := mkImage { i_entry : Z; i_stack_top : Z; i_image_size : Z; i_load_segments : nat }.
Definition USER_REGION_START : Z := 0x400000000000.
Definition is_valid (i : UserImage) : bool :=
  (USER_REGION_START <=? i_entry i) && negb (i_stack_top i =? 0) && (i_stack_top i mod 16 =? 0)
  && negb (i_image_size i =? 0) && negb (Nat.eqb (i_load_segments i) 0).
Record UserProgram := mkProgram { image : UserImage; program_space : A }.

(** The code and data selectors of gdt.rs's [user_segments], with the requested
    privilege level of user mode. *)
Definition prepare_user_context (segments : Z * Z) (i : UserImage) : Sched.UserTaskContext :=
  Sched.mkContext (i_entry i) (i_stack_top i) (Z.lor segments.1 3) (Z.lor segments.2 3).

Fixpoint unmap_all (space : A) (mappings : list (option P)) (x : X) : bool * X :=
  match mappings with
  | [] => (true, x)
  | None :: l => unmap_all space l x
  | Some m :: l => let '(b, x) := unmap_anonymous space m x in if b : bool then unmap_all space l x else (false, x)
  end.
Definition destroy_process_address_space (space : A) (mappings : list (option P)) (x : X) : bool * X :=
  let '(b, x) := unmap_all space mappings x in if b : bool then destroy space x else (false, x).

Definition no_mappings : list (option P) := replicate MAX_ANONYMOUS_MAPPINGS None.

(** [NEXT_PROCESS_ID.fetch_add(1)] *)
Definition fetch_pid {E} : Io E Z := λ w, (Ok (next_pid w), with_next_pid (wrapping_add 64 (next_pid w) 1) w).

Definition create_process {E} (held : list Lock) (task parent : Z) (space : A) : Io E Proc :=
  o ← find_by held (of_id parent);
  id ← fetch_pid;
  mret (let '(cwd, group, env) := match o with
          | Some (_, pp) => (p_cwd pp, p_group pp, p_env pp)
          | None => (root_dir, id, Environment.defaults)
          end in
        mkProcess id task Ready parent USERSPACE 0 (Some space) no_files no_mappings cwd 0 group (replicate 32 0) env).

Definition free_process {E} : Io E (option nat) := gets (λ w, position is_free (procs w)).
Definition free_task {E} : Io E (option nat) := gets (λ w, position Sched.is_empty (Sched.tasks (Sched.sched (kernel w)))).

(** Give up: the address space goes, the caller sees [Full]. *)
Definition abandon {T} (free : X → bool * X) : Io ProcessError T := _ ← on_others free; fail Full.

Definition spawn_user_process (segments : Z * Z) (name : string) (program : UserProgram)
    : Io ProcessError (Z * Sched.UserTaskContext) :=
  let space := program_space program in
  if negb (is_valid (image program)) then abandon (destroy space) else
  parent ← current_process_id [];
  let context := prepare_user_context segments (image program) in
  _ ← on_kernel (Sched.locked (Sched.reap_dead cpu));
  task_slot ← free_task;
  match task_slot with
  | None => abandon (destroy space)
  | Some task_slot =>
    task_id ← on_kernel Sched.fetch_id;
    process ← create_process [SCHEDULER] task_id parent space;
    process_slot ← free_process;
    match process_slot with
    | None => abandon (destroy space)
    | Some process_slot =>
      r ← attempt (on_ipc (λ _, Full) (Ipc.register (p_id process)));
      if is_err r then abandon (destroy space) else
      _ ← on_kernel (Sched.place task_slot (Sched.initialize_user stack_start task_slot task_id name context (paging_root space)));
      _ ← put_process process_slot process;
      mret (p_id process, context)
    end
  end.

Definition fork_current : Io ProcessError Z :=
  id ← current_task_id [];
  running ← on_kernel (Sched.current_task cpu);
  o ← find_by [SCHEDULER] (of_task id);
  '(_, parent) ← lift (ok_or Full o);
  source ← lift (ok_or Full (p_space parent));
  cloned ← on_others (clone_address_space source (p_mappings parent));
  space ← lift (ok_or Full cloned);
  let undo := destroy_process_address_space space (p_mappings parent) in
  _ ← on_kernel (Sched.locked (Sched.reap_dead cpu));
  task_slot ← free_task;
  match task_slot with
  | None => abandon undo
  | Some task_slot =>
    process_slot ← free_process;
    match process_slot with
    | None => abandon undo
    | Some process_slot =>
      child_task ← on_kernel Sched.fetch_id;
      child ← fetch_pid;
      r ← attempt (on_ipc (λ _, Full) (Ipc.register child));
      if is_err r then abandon undo else
      files ← attempt (clone_file_table [SCHEDULER; PROCESS_TABLE] (p_files parent));
      match files with
      | Ok files =>
        _ ← on_kernel (Sched.place task_slot (Sched.initialize_fork stack_start task_slot child_task (paging_root space)
                                               (Sched.t_capabilities running)));
        _ ← put_process process_slot
              (mkProcess child child_task Ready (p_id parent) (p_credentials parent) 0 (Some space) files
                 (p_mappings parent) (p_cwd parent) 0 (p_group parent) (p_actions parent) (p_env parent));
        mret child
      | _ => _ ← attempt (on_ipc (λ _, Full) (Ipc.unregister child)); abandon undo
      end
    end
  end.

(** Up to the switch to user mode; the assertions are the code's. *)
Definition exec_current (segments : Z * Z) (program : UserProgram) : Io ProcessError Sched.UserTaskContext :=
  _ ← assert (is_valid (image program));
  let context := prepare_user_context segments (image program) in
  let space := program_space program in
  id ← current_task_id [];
  running ← on_kernel (Sched.current_task cpu);
  _ ← assert (Sched.t_id running =? id);
  o ← find_by [SCHEDULER] (of_task id);
  '(slot, p) ← lift (or_panic o);
  old ← lift (or_panic (p_space p));
  _ ← put_process slot (set_mappings no_mappings (set_space (Some space) p));
  _ ← on_kernel (Sched.exec_task cpu context (paging_root space));
  unmapped ← on_others (unmap_all old (p_mappings p));
  _ ← assert unmapped;
  freed ← on_others (destroy old);
  _ ← assert freed;
  mret context.

Definition release_foreground {E} (pid : Z) : Io E unit := modify (λ w, if foreground w =? pid then with_foreground 0 w else w).

(** The result is the switch to the next task; without one the processor halts. *)
Definition exit_current_process (exit_code : Z) : Io ProcessError (option Sched.ContextSwitch) :=
  pid ← current_process_id [];
  _ ← release_foreground pid;
  _ ← on_others (λ x, (tt, close_process_sockets pid x));
  _ ← on_kernel (Sched.locked (Sched.not_kernel cpu));
  running ← on_kernel (Sched.current_task cpu);
  o ← find_by [SCHEDULER] (of_task (Sched.t_id running));
  owned ← (match o with
    | None => mret None
    | Some (slot, p) =>
      files ← release_file_table [SCHEDULER; PROCESS_TABLE] (p_files p);
      let p' := set_files files (set_exit_code exit_code (set_state Exited p)) in
      match p_space p with
      | None => _ ← put_process slot p'; mret None
      | Some space => _ ← put_process slot (set_mappings no_mappings (set_space None p')); mret (Some (space, p_mappings p))
      end
    end);
  switch ← on_kernel (Sched.exit_process_task stack_start cpu (bool_decide (is_Some owned)));
  match owned, switch with
  | Some (space, mappings), Some switch =>
    unmapped ← on_others (unmap_all space mappings);
    _ ← assert unmapped;
    freed ← on_others (destroy space);
    _ ← assert freed;
    mret (Some switch)
  | _, _ => mret None
  end.

Definition is_child (child parent : Z) (p : Proc) : bool := (p_id p =? child) && (p_parent p =? parent).
Definition wait_process (child : Z) : Io WaitError Z :=
  parent ← current_process_id [];
  o ← find_by [] (is_child child parent);
  '(slot, p) ← lift (ok_or NoSuchChild o);
  if negb (bool_decide (p_state p = Exited)) then fail StillRunning else
  files ← release_file_table [PROCESS_TABLE] (p_files p);
  _ ← put_process slot (set_files files p);
  r ← attempt (on_ipc (λ _, NoSuchChild) (Ipc.unregister child));
  _ ← assert (is_ok r);
  _ ← modify (λ w, with_procs (<[slot := None]> (procs w)) w);
  mret (p_exit_code p).

Definition process_exited (id : Z) (w : Wd) : bool :=
  match find_process (of_id id) (procs w) with Some (_, p) => bool_decide (p_state p = Exited) | None => false end.
Definition zombie_count (w : Wd) : nat := count (λ p, bool_decide (p_state p = Exited)) (omap id (procs w)).
Definition process_count (w : Wd) : nat := length (omap id (procs w)).

(** [ProcessInfo]: pid, ppid, pgrp, state, credentials, exit code. *)
Record ProcessInfo := mkInfo { pi_pid : Z; pi_ppid : Z; pi_pgrp : Z; pi_state : Z; pi_credentials : Credentials; pi_exit_code : Z }.
Definition process_info (index : nat) (w : Wd) : option ProcessInfo :=
  p ← omap id (procs w) !! index;
  Some (mkInfo (p_id p) (p_parent p) (p_group p) (match p_state p with Ready => 1 | Exited => 4 end) (p_credentials p) (p_exit_code p)).

(** ** Credentials *)

Definition credentials_may_ipc (sender receiver : Credentials) : bool :=
  is_root sender || (uid sender =? uid receiver) || (gid sender =? gid receiver).
Definition current_credentials {E} : Io E Credentials :=
  id ← current_task_id [];
  o ← find_by [] (of_task id);
  mret (match o with Some (_, p) => p_credentials p | None => ROOT end).
Definition process_credentials (pid : Z) (w : Wd) : option Credentials := p_credentials ∘ snd <$> find_process (of_id pid) (procs w).
Definition may_ipc_with {E} (receiver : Z) : Io E bool :=
  sender ← current_credentials;
  gets (λ w, match process_credentials receiver w with Some r => credentials_may_ipc sender r | None => false end).
Definition credential_policy_valid : bool :=
  let peer := mkCredentials (uid USERSPACE) 2000 in
  let group_peer := mkCredentials 2000 (gid USERSPACE) in
  let stranger := mkCredentials 2000 2000 in
  is_root ROOT && negb (is_root USERSPACE) && negb (bool_decide (ROOT = USERSPACE)) && credentials_may_ipc ROOT stranger
  && credentials_may_ipc USERSPACE peer && credentials_may_ipc USERSPACE group_peer
  && negb (credentials_may_ipc USERSPACE stranger).

(** ** Signals and groups *)

(** [pid as i64] below zero names a group, zero the caller's. *)
Definition target_group (pid current_group : Z) : option Z :=
  if pid =? 0 then Some current_group else if 2 ^ 63 <=? pid then Some (2 ^ 64 - pid) else None.
Definition selected (pid : Z) (group : option Z) (p : Proc) : bool :=
  match group with Some g => p_group p =? g | None => p_id p =? pid end.
Definition terminates (sig : Z) : bool := (sig =? 9) || (sig =? 15) || (sig =? 2).

(** One selected process; the result is the task to stop. *)
Definition signal_process (sig : Z) (slot : nat) (p : Proc) : Io FileError (option Z) :=
  if sig =? 0 then mret None else
  action ← lift (or_panic (p_actions p !! Z.to_nat sig));
  if action =? 1 then mret None
  else if (1 <? action) && negb (sig =? 9) then _ ← put_process slot (set_pending sig p); mret None
  else if terminates sig && negb (bool_decide (p_state p = Exited)) then
    files ← release_file_table [PROCESS_TABLE] (p_files p);
    _ ← put_process slot (set_files files (set_exit_code (128 + sig) (set_state Exited (set_pending sig p))));
    mret (Some (p_task p))
  else _ ← put_process slot (set_pending sig p); mret None.

(** The loop over the table: whether one matched, and the tasks to stop. *)
Fixpoint signal_loop (pid sig : Z) (group : option Z) (slots : list nat) (matched : bool) (killed : list Z)
    : Io FileError (bool * list Z) :=
  match slots with
  | [] => mret (matched, killed)
  | slot :: slots =>
    o ← gets (λ w, mjoin (procs w !! slot));
    match o with
    | Some p =>
      if selected pid group p then
        k ← signal_process sig slot p;
        signal_loop pid sig group slots true (killed ++ option_list k)
      else signal_loop pid sig group slots matched killed
    | None => signal_loop pid sig group slots matched killed
    end
  end.

Definition kill_process (pid sig : Z) : Io FileError unit :=
  if 31 <? sig then fail NotFound else
  current ← current_process_id [];
  o ← find_by [] (of_id current);
  let current_group := match o with Some (_, p) => p_group p | None => current end in
  n ← gets (λ w, length (procs w));
  '(matched, killed) ← signal_loop pid sig (target_group pid current_group) (seq 0 n) false [];
  _ ← on_kernel (Sched.kill_tasks killed);
  if matched : bool then mret tt else fail NotFound.

Definition sigaction_current (sig handler : Z) : Io FileError Z :=
  if (sig =? 0) || (31 <? sig) || (sig =? 9) then fail PermissionDenied else
  '(slot, p) ← current_process NoProcess;
  old ← lift (or_panic (p_actions p !! Z.to_nat sig));
  _ ← put_process slot (set_actions (<[Z.to_nat sig := handler]> (p_actions p)) p);
  mret old.

(** [unwrap_or(current_process_id())] runs its argument before the guard of the
    table is dropped. *)
Definition current_process_group : Io FileError Z :=
  id ← current_task_id [];
  o ← find_by [] (of_task id);
  other ← current_process_id [PROCESS_TABLE];
  mret (match o with Some (_, p) => p_group p | None => other end).

Definition set_process_group (pid pgid : Z) : Io FileError unit :=
  caller ← current_process_id [];
  let target := if pid =? 0 then caller else pid in
  let group := if pgid =? 0 then target else pgid in
  o ← find_by [] (of_id target);
  '(slot, p) ← lift (ok_or NotFound o);
  if negb (target =? caller) && negb (p_parent p =? caller) then fail PermissionDenied
  else put_process slot (set_group group p).

Definition take_pending_signal_current : Io FileError (option (Z * Z)) :=
  id ← current_task_id [];
  o ← find_by [] (of_task id);
  match o with
  | None => mret None
  | Some (slot, p) =>
    let sig := p_pending p in
    if (sig =? 0) || (31 <? sig) then mret None else
    handler ← lift (or_panic (p_actions p !! Z.to_nat sig));
    if handler <=? 1 then mret None else
    _ ← put_process slot (set_pending 0 p);
    mret (Some (sig, handler))
  end.

Definition getppid_current {E} : Io E Z :=
  id ← current_task_id [PROCESS_TABLE];
  o ← find_by [] (of_task id);
  mret (match o with Some (_, p) => p_parent p | None => 0 end).

(** ** The environment *)

Definition env_get (key out : list byte) : Io Environment.EnvError (nat * list byte) :=
  if Environment.bad_key key then fail Environment.Invalid else
  '(_, p) ← current_process Environment.NoProcess;
  lift (Environment.get_bytes key out (p_env p)).
Definition env_set (key value : list byte) : Io Environment.EnvError unit :=
  '(slot, p) ← current_process Environment.NoProcess;
  let '(r, e) := Environment.set_checked key value (p_env p) in
  _ ← put_process slot (set_env e p);
  lift r.
Definition env_count {E} : Io E nat :=
  id ← current_task_id [];
  o ← find_by [] (of_task id);
  mret (match o with Some (_, p) => Environment.var_count (p_env p) | None => O end).
Definition env_entry (index : nat) (out : list byte) : Io Environment.EnvError (nat * list byte) :=
  '(_, p) ← current_process Environment.NoProcess;
  lift (Environment.nth_entry index out (p_env p)).

(** ** Anonymous memory *)

(** [length.checked_add(4095).map(|size| size & !4095).filter(|size| *size != 0)] *)
Definition round_length (length : Z) : option Z :=
  size ← checked_add 64 length 4095;
  let size := Z.land size (bnot 64 4095) in
  if size =? 0 then None else Some size.

Definition mmap_current (length : Z) (writable : bool) : Io MemoryError Z :=
  size ← lift (ok_or MInvalidLength (round_length length));
  '(index, p) ← current_process MNoProcess;
  slot ← lift (ok_or MFull (position is_free (p_mappings p)));
  space ← lift (ok_or MNoProcess (p_space p));
  o ← on_others (map_anonymous space slot size writable);
  mapping ← lift (ok_or MMappingFailed o);
  o ← gets (λ w, mjoin (procs w !! index));
  p ← lift (ok_or MNoProcess o);
  old ← lift (or_panic (p_mappings p !! slot));
  if negb (is_free old) then _ ← on_others (unmap_anonymous space mapping); fail MFull else
  _ ← put_process index (set_mappings (<[slot := Some mapping]> (p_mappings p)) p);
  mret (mapping_address mapping).

Definition is_mapping (address size : Z) (o : option P) : bool :=
  match o with Some m => (mapping_address m =? address) && (mapping_size m =? size) | None => false end.
Definition munmap_current (address length : Z) : Io MemoryError unit :=
  size ← lift (ok_or MInvalidLength (round_length length));
  '(index, p) ← current_process MNoProcess;
  slot ← lift (ok_or MNotFound (position (is_mapping address size) (p_mappings p)));
  mapping ← lift (ok_or MNotFound (mjoin (p_mappings p !! slot)));
  space ← lift (ok_or MNoProcess (p_space p));
  b ← on_others (unmap_anonymous space mapping);
  if negb b then fail MMappingFailed else
  o ← gets (λ w, mjoin (procs w !! index));
  p ← lift (ok_or MNoProcess o);
  put_process index (set_mappings (<[slot := None]> (p_mappings p)) p).

Definition anonymous_mapping_count (w : Wd) : nat := sum_list ((λ p, length (omap id (p_mappings p))) <$> omap id (procs w)).

(** ** Paths *)

Definition current_cwd {E} : Io E Dir :=
  id ← current_task_id [PROCESS_TABLE];
  o ← find_by [] (of_task id);
  mret (match o with Some (_, p) => p_cwd p | None => root_dir end).
Definition current_cwd_str (buf : list byte) : Io FileError (nat * list byte) := cwd ← current_cwd; lift (cwd_str_into buf cwd).
Definition resolve_path_for_current (path : list byte) : Io FileError (list byte) :=
  cwd ← current_cwd; lift (resolve_path_with_cwd path cwd).

Definition MNT : list byte := bytes "/mnt".
Definition is_mnt_child (path : list byte) : bool := VfsPath.starts_with (bytes "/mnt/") path.
Definition touches_mnt (path : list byte) : bool := bool_decide (path = MNT) || is_mnt_child path.
Definition parent_path_string (path : list byte) : option (list byte) :=
  if negb (VfsPath.starts_with_slash path) || bool_decide (path = [VfsPath.SLASH]) then None else
  index ← VfsPath.rfind_slash path;
  Some (if Nat.eqb index 0 then [VfsPath.SLASH] else take index path).

Definition map_ensure_file_error (e : EnsureError.t) : FileError :=
  match e with EnsureError.TooLarge => TooManyFiles | _ => NotFound end.
Definition map_persist_file_error (e : PersistError.t) : FileError :=
  match e with PersistError.TooLarge => TooManyFiles | _ => NotFound end.
Definition map_vfs_file_error (e : VfsPath.VError) : FileError :=
  match e with
  | VfsPath.NotFound => NotFound | VfsPath.AlreadyExists => AlreadyExists | VfsPath.ReadOnly => PermissionDenied
  | VfsPath.NotEmpty => NotEmpty | VfsPath.Full => TooManyFiles | _ => NotFound
  end.
Definition map_mutation_file_error (e : MutationError.t) : FileError :=
  match e with
  | MutationError.AlreadyExists => AlreadyExists | MutationError.NotEmpty => NotEmpty
  | MutationError.ReadOnly => PermissionDenied | _ => NotFound
  end.

Definition ensure_existing_mnt_path (path : list byte) : Io FileError unit :=
  if touches_mnt path then
    m ← mounted;
    if negb m then fail NotFound else on_vfs map_ensure_file_error (ensure_path path)
  else mret tt.
Definition ensure_mnt_parent (path : list byte) : Io FileError unit :=
  match parent_path_string path with
  | Some parent => if touches_mnt parent then ensure_existing_mnt_path parent else mret tt
  | None => mret tt
  end.

(** A method of the VFS's registry; [gate c] is the check of a capability. *)
Definition on_registry {E T} (f : VfsPath.VError → E) (m : M Vfs.Registry VfsPath.VError T) : Io E T := on_vfs f (Vfs.on_registry m).
Definition gate (c : Capability.Capability) : Io FileError unit := b ← current_has c; guard_ok b PermissionDenied.
Definition not_found : VfsPath.VError → FileError := λ _, NotFound.

Definition open_current (path : list byte) : Io FileError nat :=
  _ ← gate Capability.FileRead;
  path ← resolve_path_for_current path;
  _ ← (if touches_mnt path then
         m ← mounted;
         if negb m then fail NotFound else
         r ← try_vfs (ensure_path path);
         match r with
         | Ok _ => mret tt
         | Err EnsureError.NotFound => ensure_mnt_parent path
         | Err e => fail (map_ensure_file_error e)
         | Panic => lift Panic
         end
       else mret tt);
  r ← try_vfs (Vfs.open path);
  file ← (match r with
    | Ok id => mret id
    | _ =>
      b ← current_has Capability.FileWrite;
      _ ← guard_ok b NotFound;
      _ ← on_vfs not_found (Vfs.write_file path []);
      _ ← (if is_mnt_child path then on_storage mark_mnt_dirty else mret tt);
      on_vfs not_found (Vfs.open path)
    end);
  '(slot, p) ← current_process NoProcess;
  install slot p (File file).

Definition stat_path (path : list byte) : Io FileError Vfs.Stat :=
  _ ← gate Capability.FileRead;
  path ← resolve_path_for_current path;
  _ ← ensure_existing_mnt_path path;
  on_registry not_found (λ r, (Vfs.stat path r, r)).
Definition readdir_path (path : list byte) (index : nat) : Io FileError Vfs.DirEntry :=
  _ ← gate Capability.FileRead;
  path ← resolve_path_for_current path;
  _ ← ensure_existing_mnt_path path;
  on_registry not_found (λ r, (Vfs.readdir path index r, r)).

Definition mkdir_path (path : list byte) : Io FileError unit :=
  _ ← gate Capability.FileWrite;
  path ← resolve_path_for_current path;
  m ← mounted;
  if touches_mnt path && negb m then fail NotFound else
  _ ← (if is_mnt_child path then ensure_mnt_parent path else mret tt);
  _ ← on_registry (λ e, match e with VfsPath.AlreadyExists => AlreadyExists | VfsPath.Full => TooManyFiles | _ => NotFound end)
        (Vfs.mkdir path);
  if is_mnt_child path then
    r ← try_vfs (persist_directory path);
    match r with
    | Ok _ => mret tt
    | Err e => _ ← try_vfs (Vfs.unlink path); fail (map_persist_file_error e)
    | Panic => lift Panic
    end
  else mret tt.

Definition chdir_current (path : list byte) : Io FileError unit :=
  _ ← gate Capability.FileRead;
  absolute ← resolve_path_for_current path;
  _ ← ensure_existing_mnt_path absolute;
  st ← on_registry not_found (λ r, (Vfs.stat absolute r, r));
  let is_directory := match Vfs.st_kind st with Vfs.Directory => true | _ => false end in
  if negb is_directory then fail NotFound
  else if Nat.ltb MAX_PATH_SIZE (length absolute) then fail NotFound else
  '(slot, p) ← current_process NoProcess;
  put_process slot (set_cwd (store_path absolute) p).

Definition unlink_current (path : list byte) : Io FileError unit :=
  _ ← gate Capability.FileWrite;
  path ← resolve_path_for_current path;
  _ ← (if is_mnt_child path then
         m ← mounted;
         if negb m then fail NotFound else
         _ ← ensure_existing_mnt_path path;
         _ ← on_vfs map_vfs_file_error (Vfs.can_remove_path path);
         _ ← on_vfs map_vfs_file_error (Vfs.prepare_remove path);
         on_vfs map_mutation_file_error (delete_path path)
       else mret tt);
  on_vfs map_vfs_file_error (Vfs.unlink path).

Definition rename_current (old new : list byte) : Io FileError unit :=
  _ ← gate Capability.FileWrite;
  old ← resolve_path_for_current old;
  new ← resolve_path_for_current new;
  _ ← (if touches_mnt old || touches_mnt new then
         m ← mounted;
         if negb m then fail NotFound
         else if negb (is_mnt_child old) || negb (is_mnt_child new) then fail NotFound else
         _ ← ensure_existing_mnt_path old;
         _ ← ensure_mnt_parent new;
         _ ← on_registry map_vfs_file_error (λ r, (Vfs.validate_rename old new r, r));
         on_vfs map_mutation_file_error (rename_path old new)
       else mret tt);
  on_registry map_vfs_file_error (_ ← Vfs.rename old new; mret tt).
End process.
