(* ===== verification/ProcessRefs.v ===== *)
(** * Reference counts of descriptors (kernel/src/task.rs with vfs.rs and pipe.rs)

    Every file descriptor of every process is one reference to an open-file
    description or to a pipe end.  The counts of vfs.rs and pipe.rs are never
    below the number of descriptors, whatever calls processes make in whatever
    order, so no descriptor ever refers to a description that was freed and
    given to another file.  Calls are specified by triples over a ledger: the
    descriptors of the table, and the references the running call holds. *)
From stdpp Require Import list gmap.
From S2P Require Import Prelude Config Cwd Process.
From S2P Require Vfs Pipe Ipc Sched Capability Environment.

(** ** Counting *)

Definition table_uses (fd : FdKind) (files : list (option FdKind)) : nat := count (λ o, bool_decide (o = Some fd)) files.
Definition held_uses (fd : FdKind) (held : list FdKind) : nat := count (λ x, bool_decide (x = fd)) held.
Definition file_refs (t : list Vfs.OpenFileDescription) (id : nat) : Z :=
  match t !! id with Some e => if Vfs.ooccupied e then Vfs.refcount e else 0 | None => 0 end.
Definition reader_refs (t : list Pipe.Pipe) (id : nat) : Z :=
  match t !! id with Some p => if Pipe.occupied p then Pipe.readers p else 0 | None => 0 end.
Definition writer_refs (t : list Pipe.Pipe) (id : nat) : Z :=
  match t !! id with Some p => if Pipe.occupied p then Pipe.writers p else 0 | None => 0 end.

Lemma held_uses_cons fd x l : held_uses fd (x :: l) = ((if bool_decide (x = fd) then 1 else 0) + held_uses fd l)%nat.
Proof. unfold held_uses, count. simpl. by case_bool_decide. Qed.
Lemma held_uses_app fd l k : held_uses fd (l ++ k) = (held_uses fd l + held_uses fd k)%nat.
Proof. induction l as [|x l IH]; [done|]. cbn [app]. rewrite !held_uses_cons, IH. lia. Qed.
Lemma table_uses_cons fd o l : table_uses fd (o :: l) = ((if bool_decide (o = Some fd) then 1 else 0) + table_uses fd l)%nat.
Proof. unfold table_uses, count. simpl. by case_bool_decide. Qed.
Lemma table_uses_held fd l : table_uses fd l = held_uses fd (omap id l).
Proof.
  induction l as [|[x|] l IH]; [done|..]; rewrite table_uses_cons; simpl.
  - rewrite held_uses_cons, IH. f_equal. do 2 case_bool_decide; naive_solver.
  - exact IH.
Qed.
Lemma table_uses_none fd n : table_uses fd (replicate n None) = 0%nat.
Proof. induction n as [|n IH]; [done|]. cbn [replicate]. by rewrite table_uses_cons, IH. Qed.
Lemma table_uses_insert fd l d o o' : l !! d = Some o' →
  (table_uses fd (<[d := o]> l) + (if bool_decide (o' = Some fd) then 1 else 0)
   = table_uses fd l + (if bool_decide (o = Some fd) then 1 else 0))%nat.
Proof.
  revert d. induction l as [|x l IH]; intros [|d] H; simplify_eq/=; rewrite !table_uses_cons; [lia|].
  specialize (IH d H). lia.
Qed.
Lemma held_uses_option fd o : held_uses fd (option_list o) = if bool_decide (o = Some fd) then 1%nat else 0%nat.
Proof.
  destruct o as [x|]; [|done]. change (option_list (Some x)) with [x]. rewrite held_uses_cons.
  rewrite (bool_decide_ext (Some x = Some fd) (x = fd)) by (split; congruence). by case_bool_decide.
Qed.
(** What an update of a table takes out and puts in. *)
Lemma table_uses_update fd l d o o' : l !! d = Some o' →
  (table_uses fd (<[d := o]> l) + held_uses fd (option_list o') = table_uses fd l + held_uses fd (option_list o))%nat.
Proof. rewrite !held_uses_option. apply table_uses_insert. Qed.
Lemma table_uses_le fd l : (table_uses fd l ≤ length l)%nat.
Proof. apply List.filter_length_le. Qed.

Section refs.
Context {A P X F K : Type} `{Others A P X, Mount F K, Vfs.Frames F, Vfs.DiskFiles K}.
#[local] Abbreviation Proc := (Process A P).
#[local] Abbreviation Wd := (World A P X F K).
#[local] Abbreviation Io := (M (World A P X F K)).
Implicit Types (w : Wd) (p : Proc) (ps : list (option Proc)).

Definition refs (fd : FdKind) (w : Wd) : Z :=
  match fd with
  | File id => file_refs (Vfs.files (vfs w)) id
  | PipeRead id => reader_refs (pipes w) id
  | PipeWrite id => writer_refs (pipes w) id
  end.
Definition slot_uses (fd : FdKind) (o : option Proc) : nat := match o with Some p => table_uses fd (p_files p) | None => 0%nat end.
Definition uses (fd : FdKind) (ps : list (option Proc)) : nat := sum_list (slot_uses fd <$> ps).

(** The tables have their fixed sizes. *)
Definition proc_shape (p : Proc) : Prop := length (p_files p) = MAX_FILE_DESCRIPTORS.
Definition shape (ps : list (option Proc)) : Prop :=
  length ps = MAX_PROCESSES ∧ ∀ i p, ps !! i = Some (Some p) → proc_shape p.

(** Descriptors and held references are covered by the counts. *)
Definition ledger (ps : list (option Proc)) (held : list FdKind) (w : Wd) : Prop :=
  ∀ fd, Z.of_nat (uses fd ps + held_uses fd held) ≤ refs fd w.
(** The table is [qs]; the counts cover [ps] and [held]. *)
Definition state (qs ps : list (option Proc)) (held : list FdKind) (w : Wd) : Prop := procs w = qs ∧ ledger ps held w.
Definition refs_ok (w : Wd) : Prop := shape (procs w) ∧ ledger (procs w) [] w.

Lemma uses_insert fd ps i o o' : ps !! i = Some o' →
  (uses fd (<[i := o]> ps) + slot_uses fd o' = uses fd ps + slot_uses fd o)%nat.
Proof using Type.
  unfold uses. revert i. induction ps as [|x l IH]; intros [|i] Hi; simplify_eq/=; [lia|]. specialize (IH i Hi). lia.
Qed.

Lemma uses_bound fd ps : shape ps → (uses fd ps ≤ MAX_PROCESSES * MAX_FILE_DESCRIPTORS)%nat.
Proof using Type.
  intros [Hl Hp]. rewrite <-Hl. clear Hl. unfold uses. induction ps as [|o l IH]; [done|].
  rewrite fmap_cons. cbn [sum_list length]. rewrite Nat.mul_succ_l.
  assert (slot_uses fd o ≤ MAX_FILE_DESCRIPTORS)%nat.
  { destruct o as [p|]; cbn [slot_uses]; [|lia]. rewrite <-(Hp 0%nat p eq_refl). apply table_uses_le. }
  etrans; [apply Nat.add_le_mono; [eassumption|apply (IH (λ i p Hi, Hp (S i) p Hi))]|]. by rewrite Nat.add_comm.
Qed.

Lemma held_uses_nil fd : held_uses fd [] = 0%nat.
Proof using Type. done. Qed.
Lemma state_refs_ok ps held w : shape ps → state ps ps held w → refs_ok w.
Proof using Type.
  intros Hs [Hps Hl]. unfold refs_ok. rewrite Hps. split; [done|].
  intros fd. specialize (Hl fd). rewrite held_uses_nil. lia.
Qed.

(** Steps elsewhere that leave the table and the counts alone. *)
Lemma state_frame qs ps held w w' : state qs ps held w → procs w' = procs w → (∀ fd, refs fd w' = refs fd w) → state qs ps held w'.
Proof using Type. intros [Hps Hl] Hp Hr. split; [congruence|]. intros fd. rewrite Hr. apply Hl. Qed.

Lemma shape_insert ps slot p : shape ps → proc_shape p → shape (<[slot := Some p]> ps).
Proof using Type.
  intros [Hlen Hs] Hp. split; [by rewrite length_insert|].
  intros j q [(-> & [= <-] & _)|[_ Hj]]%list_lookup_insert_Some; [done|by eapply Hs].
Qed.

(** A slot changes hands: what its new owner and the call hold together was
    held before. *)
Lemma ledger_move ps held held' w slot o o' :
  ledger ps held w → ps !! slot = Some o →
  (∀ fd, (slot_uses fd o' + held_uses fd held' ≤ slot_uses fd o + held_uses fd held)%nat) →
  ledger (<[slot := o']> ps) held' w.
Proof using Type.
  intros Hl Hi Hu fd. specialize (Hl fd). specialize (Hu fd). pose proof (uses_insert fd ps slot o' _ Hi). lia.
Qed.

(** ** Triples *)

(** From [Pre], a call that returns ends in [Post], one that fails in [Bad]. *)
Definition spec {E T} (Pre : Wd → Prop) (m : Io E T) (Post : T → Wd → Prop) (Bad : Wd → Prop) : Prop :=
  ∀ w, Pre w → match m w with (Ok a, w') => Post a w' | (Err _, w') => Bad w' | (Panic, _) => True end.

Lemma spec_bind {E T U} (m : Io E T) (f : T → Io E U) Pre Mid Post Bad :
  spec Pre m Mid Bad → (∀ a, spec (Mid a) (f a) Post Bad) → spec Pre (m ≫= f) Post Bad.
Proof using Type.
  intros Hm Hf w Hw. unfold mbind, M_bind. specialize (Hm w Hw). destruct (m w) as [[a|e|] w']; [|done|done].
  by apply Hf.
Qed.
Lemma spec_ret {E T} (a : T) (Pre Bad : Wd → Prop) (Post : T → Wd → Prop) :
  (∀ w, Pre w → Post a w) → spec Pre (mret a : Io E T) Post Bad.
Proof using Type. intros HP w Hw. by apply HP. Qed.
Lemma spec_fail {E T} (e : E) (Pre Bad : Wd → Prop) (Post : T → Wd → Prop) :
  (∀ w, Pre w → Bad w) → spec Pre (fail e : Io E T) Post Bad.
Proof using Type. intros HP w Hw. by apply HP. Qed.
Lemma spec_lift {E T} (r : res E T) (Pre Bad : Wd → Prop) (Post : T → Wd → Prop) :
  (∀ a w, r = Ok a → Pre w → Post a w) → (∀ w, Pre w → Bad w) → spec Pre (lift r : Io E T) Post Bad.
Proof using Type. intros HP HB w Hw. unfold lift. destruct r; eauto. Qed.
Lemma spec_pure {E T} φ (m : Io E T) Pre Post Bad :
  (φ → spec Pre m Post Bad) → spec (λ w, Pre w ∧ φ) m Post Bad.
Proof using Type. intros Hm w [Hw Hφ]. by apply Hm. Qed.
Lemma spec_weaken {E T} (m : Io E T) (Pre Pre' : Wd → Prop) Post Post' (Bad Bad' : Wd → Prop) :
  spec Pre m Post Bad → (∀ w, Pre' w → Pre w) → (∀ a w, Post a w → Post' a w) → (∀ w, Bad w → Bad' w) → spec Pre' m Post' Bad'.
Proof using Type.
  intros Hm Hpre Hpost Hbad w Hw. specialize (Hm w (Hpre w Hw)). destruct (m w) as [[a|e|] w']; eauto.
Qed.
Lemma spec_attempt {E T} (m : Io E T) Pre (Post : T → Wd → Prop) (Bad Bad' : Wd → Prop) :
  spec Pre m Post Bad →
  spec Pre (attempt m) (λ r w, match r with Ok a => Post a w | Err _ => Bad w | Panic => False end) Bad'.
Proof using Type.
  intros Hm w Hw. specialize (Hm w Hw). unfold attempt. destruct (m w) as [[a|e|] w']; done.
Qed.

(** ** The counts of the VFS and the pipes *)

(** An operation of the VFS that leaves every count alone. *)
Definition keeps {E T} (m : M (Vfs.Fs F K) E T) : Prop :=
  ∀ s j, file_refs (Vfs.files (m s).2) j = file_refs (Vfs.files s) j.
End refs.

Definition one (b : bool) : Z := if b then 1 else 0.

Lemma file_refs_insert t i e j : (i < length t)%nat →
  file_refs (<[i := e]> t) j =
  if decide (j = i) then if Vfs.ooccupied e then Vfs.refcount e else 0 else file_refs t j.
Proof.
  intros Hi. unfold file_refs. case_decide as Hj; [subst; by rewrite list_lookup_insert_eq|by rewrite list_lookup_insert_ne].
Qed.

Lemma clone_id_refs id t :
  match Vfs.clone_id id t with
  | (Ok id', t') => id' = id ∧ ∀ j, file_refs t' j = file_refs t j + one (bool_decide (j = id))
  | (Err _, t') => t' = t
  | (Panic, _) => True
  end.
Proof.
  unfold Vfs.clone_id, Vfs.get_mut. destruct (t !! id) as [e|] eqn:He; [|done]. simpl.
  destruct (Vfs.ooccupied e && (0 <? Vfs.refcount e)) eqn:Hg; [|done]. simpl. open_guards.
  destruct (checked_add 32 (Vfs.refcount e) 1) as [n|] eqn:Hn; [|done]. apply checked_add_Some in Hn as [-> _].
  split; [done|]. intros j. rewrite file_refs_insert by (by eapply lookup_lt_Some).
  case_decide as Hj; [subst j; rewrite bool_decide_eq_true_2 by done|rewrite bool_decide_eq_false_2 by done; simpl; lia].
  unfold file_refs. rewrite He. simpl. rewrite H. simpl. lia.
Qed.

Lemma drop_id_refs id t r t' : Vfs.drop_id id t = (r, t') → ∀ j, file_refs t j - one (bool_decide (j = id)) ≤ file_refs t' j.
Proof.
  unfold Vfs.drop_id. intros Hd j.
  assert (file_refs t j - one (bool_decide (j = id)) ≤ file_refs t j) as Hle by (unfold one; case_bool_decide; lia).
  destruct (t !! id) as [e|] eqn:He; [|by simplify_eq]. destruct (Vfs.ooccupied e) eqn:Ho; [|by simplify_eq/=].
  simpl in Hd. destruct (Z.eqb_spec (Vfs.refcount e) 0); [by simplify_eq/=|]. injection Hd as _ <-.
  rewrite file_refs_insert by (by eapply lookup_lt_Some). case_decide as Hj; [|done]. subst j.
  rewrite bool_decide_eq_true_2 by done. unfold file_refs. rewrite He, Ho. simpl.
  destruct (Z.eqb_spec (Vfs.refcount e - 1) 0); simpl; [lia|]. rewrite Ho. lia.
Qed.

Lemma file_alloc_refs n g t :
  match Vfs.alloc n g t with
  | (Ok id, t') => ∀ j, file_refs t' j = file_refs t j + one (bool_decide (j = id))
  | (_, t') => t' = t
  end.
Proof.
  unfold Vfs.alloc. destruct (position _ t) as [i|] eqn:Hp; [|done]. apply position_Some_1 in Hp as (e & He & Ho).
  intros j. rewrite file_refs_insert by (by eapply lookup_lt_Some). case_decide as Hj.
  - subst j. rewrite bool_decide_eq_true_2 by done. unfold file_refs. rewrite He. simpl. destruct (Vfs.ooccupied e); done.
  - rewrite bool_decide_eq_false_2 by done. simpl. lia.
Qed.

Lemma reader_refs_insert t i p j : (i < length t)%nat →
  reader_refs (<[i := p]> t) j = if decide (j = i) then if Pipe.occupied p then Pipe.readers p else 0 else reader_refs t j.
Proof.
  intros Hi. unfold reader_refs. case_decide as Hj; [subst; by rewrite list_lookup_insert_eq|by rewrite list_lookup_insert_ne].
Qed.
Lemma writer_refs_insert t i p j : (i < length t)%nat →
  writer_refs (<[i := p]> t) j = if decide (j = i) then if Pipe.occupied p then Pipe.writers p else 0 else writer_refs t j.
Proof.
  intros Hi. unfold writer_refs. case_decide as Hj; [subst; by rewrite list_lookup_insert_eq|by rewrite list_lookup_insert_ne].
Qed.

(** Both ends of a pipe at once. *)
Definition end_refs (t : list Pipe.Pipe) (fd : FdKind) : Z :=
  match fd with File _ => 0 | PipeRead id => reader_refs t id | PipeWrite id => writer_refs t id end.
Lemma end_refs_insert t i p fd : (i < length t)%nat →
  end_refs (<[i := p]> t) fd =
  match fd with
  | File _ => 0
  | PipeRead j => if decide (j = i) then if Pipe.occupied p then Pipe.readers p else 0 else reader_refs t j
  | PipeWrite j => if decide (j = i) then if Pipe.occupied p then Pipe.writers p else 0 else writer_refs t j
  end.
Proof. intros Hi. destruct fd; [done|by apply reader_refs_insert|by apply writer_refs_insert]. Qed.

Lemma pipe_alloc_refs t :
  match Pipe.alloc t with
  | (Ok id, t') => ∀ fd, end_refs t' fd = end_refs t fd + one (bool_decide (fd = PipeRead id)) + one (bool_decide (fd = PipeWrite id))
  | (_, t') => t' = t
  end.
Proof.
  unfold Pipe.alloc. destruct (position _ t) as [i|] eqn:Hp; [|done]. apply position_Some_1 in Hp as (p & Hi & Ho).
  apply negb_true_iff in Ho. intros fd. rewrite end_refs_insert by (by eapply lookup_lt_Some). destruct fd as [j|j|j]; cbn [end_refs].
  - done.
  - case_decide as Hj; [subst; unfold reader_refs; rewrite Hi, Ho, !bool_decide_decide; simpl|].
    + destruct (decide (PipeRead i = PipeRead i)); done.
    + rewrite !bool_decide_eq_false_2 by naive_solver. simpl. lia.
  - case_decide as Hj; [subst; unfold writer_refs; rewrite Hi, Ho, !bool_decide_decide; simpl|].
    + destruct (decide (PipeWrite i = PipeWrite i)); done.
    + rewrite !bool_decide_eq_false_2 by naive_solver. simpl. lia.
Qed.

(** A clone adds one, unless the count is at its maximum. *)
Definition clone_end (fd : FdKind) : M (list Pipe.Pipe) Pipe.PipeError unit :=
  match fd with PipeRead id => Pipe.clone_reader id | PipeWrite id => Pipe.clone_writer id | File _ => mret tt end.
Lemma clone_end_refs fd t : (∀ id, fd ≠ File id) →
  match clone_end fd t with
  | (Ok _, t') => ∀ g, end_refs t' g = (if decide (g = fd) then Z.min (end_refs t g + 1) (2 ^ 32 - 1) else end_refs t g)
  | (Err _, t') => t' = t
  | (Panic, _) => True
  end.
Proof.
  intros Hf. destruct fd as [id|id|id]; [by destruct (Hf id)|..];
    unfold clone_end, Pipe.clone_reader, Pipe.clone_writer, Pipe.with_pipe;
    (destruct (t !! id) as [p|] eqn:Hi; [|done]); (destruct (Pipe.occupied p) eqn:Ho; [|done]);
    intros g; rewrite end_refs_insert by (by eapply lookup_lt_Some); destruct g as [j|j|j]; cbn [end_refs];
    repeat case_decide; simplify_eq; try done; unfold reader_refs, writer_refs; rewrite ?Hi; simpl; rewrite ?Ho; done.
Qed.

Definition close_end (fd : FdKind) (t : list Pipe.Pipe) : list (option Z) * list Pipe.Pipe :=
  match fd with PipeRead id => Pipe.close_reader id t | PipeWrite id => Pipe.close_writer id t | File _ => ([], t) end.
Lemma close_end_refs fd t g : end_refs t g - one (bool_decide (g = fd)) ≤ end_refs (close_end fd t).2 g.
Proof.
  assert (end_refs t g - one (bool_decide (g = fd)) ≤ end_refs t g) as Hle by (unfold one; case_bool_decide; lia).
  destruct fd as [id|id|id]; [done|..]; unfold close_end, Pipe.close_reader, Pipe.close_writer;
    (destruct (t !! id) as [p|] eqn:Hi; [|done]); (destruct (Pipe.occupied p) eqn:Ho; [|done]);
    cbn [snd]; rewrite end_refs_insert by (by eapply lookup_lt_Some); destruct g as [j|j|j]; cbn [end_refs] in *; try done;
    (destruct (decide (j = id)) as [->|]; [|done]); unfold reader_refs, writer_refs in *; rewrite Hi, Ho in *; simpl;
    unfold saturating_sub;
    destruct (Z.eqb_spec (Z.max (Pipe.readers p - 1) 0) 0), (Z.eqb_spec (Pipe.writers p) 0),
      (Z.eqb_spec (Z.max (Pipe.writers p - 1) 0) 0), (Z.eqb_spec (Pipe.readers p) 0); simpl; rewrite ?Ho;
    unfold one in *; repeat case_bool_decide; simplify_eq; simpl in *; try lia.
Qed.

Section calls.
Context {A P X F K : Type} `{Others A P X, Mount F K, Vfs.Frames F, Vfs.DiskFiles K}.
Context (stack_start : nat → Z) (cpu : nat).
#[local] Abbreviation Proc := (Process A P).
#[local] Abbreviation Wd := (World A P X F K).
#[local] Abbreviation Io := (M (World A P X F K)).
Implicit Types (w : Wd) (p : Proc) (ps qs : list (option Proc)).

(** ** Calls of other components *)

Definition quiet {E T} (m : Io E T) : Prop :=
  ∀ w, procs (m w).2 = procs w ∧ ∀ fd, refs fd (m w).2 = refs fd w.

Lemma quiet_spec {E T} (m : Io E T) qs ps held (Bad : Wd → Prop) : quiet m → (∀ w, state qs ps held w → Bad w) →
  spec (state qs ps held) m (λ _, state qs ps held) Bad.
Proof using Type.
  intros Hq Hb w Hw. destruct (Hq w) as [Hp Hr].
  assert (state qs ps held (m w).2) as Hw' by (by eapply state_frame).
  destruct (m w) as [[a|e|] w']; [done|by apply Hb|done].
Qed.
Lemma quiet_bind {E T U} (m : Io E T) (f : T → Io E U) : quiet m → (∀ a, quiet (f a)) → quiet (m ≫= f).
Proof using Type.
  intros Hm Hf w. destruct (Hm w) as [Hp Hr]. unfold mbind, M_bind. destruct (m w) as [[a|e|] w']; [|done|done].
  destruct (Hf a w') as [Hp' Hr']. simpl in *. split; [congruence|]. intros fd. by rewrite Hr', Hr.
Qed.
Lemma quiet_same {E T} (m : Io E T) : (∀ w, (m w).2 = w) → quiet m.
Proof using Type. intros Hm w. by rewrite Hm. Qed.
Lemma quiet_ret {E T} (a : T) : quiet (mret a : Io E T).
Proof using Type. done. Qed.
Lemma quiet_fail {E T} (e : E) : quiet (fail e : Io E T).
Proof using Type. done. Qed.
Lemma quiet_lift {E T} (r : res E T) : quiet (lift r : Io E T).
Proof using Type. done. Qed.
Lemma quiet_gets {E T} (f : Wd → T) : quiet (gets f : Io E T).
Proof using Type. done. Qed.
Lemma quiet_guard {E} b (e : E) : quiet (guard_ok b e : Io E unit).
Proof using Type. by destruct b. Qed.
Lemma quiet_attempt {E T} (m : Io E T) : quiet m → quiet (attempt m).
Proof using Type. intros Hm w. specialize (Hm w). unfold attempt. by destruct (m w) as [[a|e|] w']. Qed.
Lemma quiet_kernel {E T} (m : M Sched.Kernel Sched.SpawnError T) : quiet (on_kernel m : Io E T).
Proof using Type. intros w. unfold on_kernel. by destruct (m (kernel w)) as [r k]. Qed.
Lemma quiet_ipc {E T} f (m : M Ipc.State Ipc.IpcError T) : quiet (on_ipc f m : Io E T).
Proof using Type. intros w. unfold on_ipc. by destruct (m (ipc w)) as [r k]. Qed.
Lemma quiet_others {E T} (m : X → T * X) : quiet (on_others m : Io E T).
Proof using Type. intros w. unfold on_others. by destruct (m (others w)). Qed.
Lemma quiet_vfs {E E' T} f (m : M (Vfs.Fs F K) E' T) : keeps m → quiet (on_vfs f m : Io E T).
Proof using Type.
  intros Hk w. unfold on_vfs. specialize (Hk (vfs w)). destruct (m (vfs w)) as [r s]. split; [done|].
  intros [id|id|id]; [|done..]. apply Hk.
Qed.
Lemma quiet_try_vfs {E E' T} (m : M (Vfs.Fs F K) E' T) : keeps m → quiet (try_vfs m : Io E (res E' T)).
Proof using Type.
  intros Hk w. unfold try_vfs. specialize (Hk (vfs w)). destruct (m (vfs w)) as [r s]. split; [done|].
  intros [id|id|id]; [|done..]. apply Hk.
Qed.
Lemma quiet_acquire {E} l held : quiet (acquire l held : Io E unit).
Proof using Type. unfold acquire. by case_bool_decide. Qed.
Lemma quiet_assert {E} b : quiet (assert b : Io E unit).
Proof using Type. by destruct b. Qed.
End calls.

Create HintDb quiet discriminated.
#[export] Hint Resolve quiet_bind quiet_ret quiet_fail quiet_lift quiet_gets quiet_guard quiet_attempt quiet_kernel quiet_ipc
  quiet_others quiet_vfs quiet_try_vfs quiet_acquire quiet_assert : quiet.
(** [quiet]: through the binds and the case distinctions of a call. *)
Ltac quiet_step :=
  match goal with
  | |- quiet (mbind _ _) => apply quiet_bind; [|intros]
  | |- quiet (let '_ := ?x in _) => destruct x
  | |- quiet (if ?x then _ else _) => destruct x
  | |- quiet (match ?x with _ => _ end) => destruct x
  | |- quiet _ => solve [eauto with quiet]
  end.
Ltac quiet_all := repeat quiet_step.

Section quiet_calls.
Context {A P X F K : Type} `{Others A P X, Mount F K, Vfs.Frames F, Vfs.DiskFiles K}.
Context (stack_start : nat → Z) (cpu : nat).
#[local] Abbreviation Proc := (Process A P).
#[local] Abbreviation Wd := (World A P X F K).
#[local] Abbreviation Io := (M (World A P X F K)).

Lemma quiet_current_task {E} hl : quiet (current_task_id cpu hl : Io E Z).
Proof using Type. unfold current_task_id. quiet_all. Qed.
Lemma quiet_find {E} hl f : quiet (find_by hl f : Io E (option (nat * Proc))).
Proof using Type. unfold find_by. quiet_all. Qed.
Lemma quiet_current_id {E} hl : quiet (current_process_id cpu hl : Io E Z).
Proof using Type.
  unfold current_process_id. apply quiet_bind; [apply quiet_current_task|intros id].
  apply quiet_bind; [apply quiet_find|intros o]. apply quiet_ret.
Qed.
Lemma quiet_current_process {E} (e : E) : quiet (current_process cpu e : Io E (nat * Proc)).
Proof using Type.
  unfold current_process. apply quiet_bind; [apply quiet_current_task|intros id].
  apply quiet_bind; [apply quiet_find|intros o]. apply quiet_lift.
Qed.
Lemma quiet_fetch_pid {E} : quiet (fetch_pid : Io E Z).
Proof using Type. done. Qed.
Lemma quiet_foreground {E} pid : quiet (release_foreground pid : Io E unit).
Proof using Type. intros w. unfold release_foreground, modify. simpl. by destruct (_ =? _). Qed.
Lemma quiet_has {E} c : quiet (current_has cpu c : Io E bool).
Proof using Type. unfold current_has. quiet_all. Qed.
Lemma quiet_wake {E} hl l : quiet (wake_list hl l : Io E unit).
Proof using Type. induction l as [|[id|] l IH]; simpl; [apply quiet_ret| |done]. quiet_all. Qed.
Lemma quiet_storage {E} (f : K → K) : quiet (on_storage f : Io E unit).
Proof using Type. intros w. split; [done|]. by intros []. Qed.
Lemma quiet_mounted {E} : quiet (mounted : Io E bool).
Proof using Type. done. Qed.
Lemma quiet_free_process {E} : quiet (free_process : Io E (option nat)).
Proof using Type. done. Qed.
Lemma quiet_free_task {E} : quiet (free_task : Io E (option nat)).
Proof using Type. done. Qed.
Lemma quiet_target d : quiet (target cpu d : Io FileError FdKind).
Proof using Type. unfold target. apply quiet_bind; [apply quiet_current_process|intros [i p]]. apply quiet_lift. Qed.
End quiet_calls.
#[export] Hint Resolve quiet_current_task quiet_find quiet_current_id quiet_current_process quiet_fetch_pid quiet_foreground
  quiet_has quiet_wake quiet_storage quiet_mounted quiet_free_process quiet_free_task quiet_target : quiet.

(** ** Operations of the VFS that leave the counts alone *)

Section keeps.
Context {F K : Type} `{Vfs.Frames F, Vfs.DiskFiles K}.
Abbreviation Op := (M (Vfs.Fs F K)).

Lemma keeps_bind {E T U} (m : Op E T) (f : T → Op E U) : keeps m → (∀ a, keeps (f a)) → keeps (m ≫= f).
Proof using Type.
  intros Hm Hf s j. specialize (Hm s j). unfold mbind, M_bind. destruct (m s) as [[a|e|] s']; [|done|done].
  rewrite (Hf a s' j). exact Hm.
Qed.
Lemma keeps_same {E T} (m : Op E T) : (∀ s, (m s).2 = s) → keeps m.
Proof using Type. intros Hm s j. by rewrite Hm. Qed.
Lemma keeps_lift {E T} (r : res E T) : keeps (lift r : Op E T).
Proof using Type. done. Qed.
Lemma keeps_ret {E T} (a : T) : keeps (mret a : Op E T).
Proof using Type. done. Qed.
Lemma keeps_registry {T} (m : M Vfs.Registry VfsPath.VError T) : keeps (Vfs.on_registry m : Op VfsPath.VError T).
Proof using Type. intros s j. unfold Vfs.on_registry. by destruct (m _). Qed.
Lemma keeps_frames f : keeps (Vfs.on_frames f : Op VfsPath.VError unit).
Proof using Type. done. Qed.
Lemma keeps_asks {T} (f : Vfs.Fs F K → res VfsPath.VError T) : keeps (Vfs.asks f : Op VfsPath.VError T).
Proof using Type. done. Qed.
Lemma keeps_gets {E T} (f : Vfs.Fs F K → T) : keeps (gets f : Op E T).
Proof using Type. done. Qed.
Lemma keeps_guard {E} b (e : E) : keeps (guard_ok b e : Op E unit).
Proof using Type. by destruct b. Qed.
Lemma keeps_node i : keeps (Vfs.reg_node i : Op VfsPath.VError _).
Proof using Type. done. Qed.
Lemma keeps_generation i : keeps (Vfs.reg_generation i : Op VfsPath.VError _).
Proof using Type. done. Qed.
Lemma keeps_entry id : keeps (Vfs.open_entry id : Op VfsPath.VError _).
Proof using Type. done. Qed.
Lemma keeps_put_node i n : keeps (Vfs.put_node i n : Op VfsPath.VError unit).
Proof using Type. apply keeps_registry. Qed.
Lemma keeps_live e i : keeps (Vfs.live_node e i : Op VfsPath.VError _).
Proof using Type. done. Qed.
Lemma keeps_is_open i n : keeps (Vfs.is_open_file i n : Op VfsPath.VError bool).
Proof using Type. done. Qed.
Lemma keeps_can_remove p : keeps (Vfs.can_remove_path p : Op VfsPath.VError unit).
Proof using Type. done. Qed.
End keeps.
Create HintDb keeps discriminated.
#[export] Hint Resolve keeps_lift keeps_ret keeps_registry keeps_frames keeps_asks keeps_gets keeps_guard keeps_node
  keeps_generation keeps_entry keeps_put_node keeps_live keeps_is_open keeps_can_remove : keeps.
Ltac keeps_step :=
  match goal with
  | |- keeps (mbind _ _) => apply keeps_bind; [|intros]
  | |- keeps (let '_ := ?x in _) => destruct x
  | |- keeps (if ?x then _ else _) => destruct x
  | |- keeps (match ?x with _ => _ end) => destruct x
  | |- keeps _ => solve [eauto with keeps]
  end.
Ltac keeps_all := repeat keeps_step.

Section vfs_calls.
Context {F K : Type} `{Vfs.Frames F, Vfs.DiskFiles K}.
Abbreviation Op := (M (Vfs.Fs F K) VfsPath.VError).

Lemma keeps_require b e : keeps (Vfs.require b e : Op unit).
Proof using Type. by destruct b. Qed.
Lemma keeps_materialize i : keeps (Vfs.materialize_disk_node i : Op unit).
Proof using Type.
  intros s j. unfold Vfs.materialize_disk_node. destruct (Vfs.nodes (Vfs.registry s) !! i) as [n|]; [|done].
  destruct (Vfs.backing n); [|done]. destruct (Nat.ltb _ _); [done|].
  destruct (Vfs.read_disk_file _ _ _ _) as [[r buf] k]. destruct r as [c|e|]; [|done|done]. by destruct (Nat.eqb _ _).
Qed.
Lemma keeps_disk_read p off buf : keeps (Vfs.disk_read p off buf : Op _).
Proof using Type.
  intros s j. unfold Vfs.disk_read. destruct (Vfs.read_disk_file _ _ _ _) as [[r b] k]. by destruct r.
Qed.
Lemma keeps_set_offset id n : keeps (Vfs.set_entry id (Vfs.set_offset n) : Op unit).
Proof using Type.
  intros s j. unfold Vfs.set_entry, mbind, M_bind, Vfs.open_entry, Vfs.get_mut.
  destruct (Vfs.files s !! id) as [e|] eqn:He; [|done]. simpl.
  destruct (Vfs.ooccupied e && (0 <? Vfs.refcount e)) eqn:Hg; [|done]. simpl.
  rewrite file_refs_insert by (by eapply lookup_lt_Some). case_decide as Hj; [|done]. subst j.
  unfold file_refs. rewrite He. simpl. open_guards. by rewrite H1.
Qed.
End vfs_calls.
#[export] Hint Resolve keeps_require keeps_materialize keeps_disk_read keeps_set_offset : keeps.

Section vfs_operations.
Context {F K : Type} `{Vfs.Frames F, Vfs.DiskFiles K}.
Abbreviation Op := (M (Vfs.Fs F K) VfsPath.VError).

Lemma keeps_write_file p d : keeps (Vfs.write_file p d : Op unit).
Proof using Type. unfold Vfs.write_file. keeps_all. Qed.
Lemma keeps_prepare_remove p : keeps (Vfs.prepare_remove p : Op unit).
Proof using Type. unfold Vfs.prepare_remove. keeps_all. Qed.
Lemma keeps_unlink p : keeps (Vfs.unlink p : Op unit).
Proof using Type. unfold Vfs.unlink. keeps_all. Qed.
Lemma keeps_read id buf : keeps (Vfs.read id buf : Op _).
Proof using Type. unfold Vfs.read, Vfs.read_from, Vfs.fetch. keeps_all. Qed.
Lemma keeps_seek id off : keeps (Vfs.seek id off : Op nat).
Proof using Type. unfold Vfs.seek. keeps_all. Qed.
Lemma keeps_write id buf : keeps (Vfs.write id buf : Op nat).
Proof using Type. unfold Vfs.write. keeps_all. Qed.
Lemma keeps_starts_with id prefix : keeps (Vfs.open_file_path_starts_with id prefix : Op bool).
Proof using Type. unfold Vfs.open_file_path_starts_with. keeps_all. Qed.
Lemma keeps_release_unnamed i : keeps (Vfs.release_unnamed i : Op unit).
Proof using Type. unfold Vfs.release_unnamed. keeps_all. Qed.

(** Closing takes one reference of its description, opening makes one. *)
Lemma close_open_file_refs id (s : Vfs.Fs F K) j :
  file_refs (Vfs.files s) j - one (bool_decide (j = id)) ≤ file_refs (Vfs.files (Vfs.close_open_file id s).2) j.
Proof using Type.
  unfold Vfs.close_open_file, mbind at 1, M_bind at 1. unfold Vfs.open_entry at 1.
  assert (file_refs (Vfs.files s) j - one (bool_decide (j = id)) ≤ file_refs (Vfs.files s) j) as Hle
    by (unfold one; case_bool_decide; lia).
  destruct (Vfs.get_mut id (Vfs.files s)) as [e|e|]; [|done|done].
  unfold mbind at 1, M_bind at 1. unfold Vfs.on_files at 1.
  destruct (Vfs.drop_id id (Vfs.files s)) as [r t] eqn:Hd. pose proof (drop_id_refs _ _ _ _ Hd j) as Ht.
  destruct r as [[]|?|]; [|exact Ht|exact Ht].
  assert (keeps (still ← gets (λ s, Vfs.is_open (Vfs.onode e) (Vfs.files s));
                 if still : bool then mret tt else Vfs.release_unnamed (Vfs.onode e) : Op unit)) as Hk.
  { apply keeps_bind; [apply keeps_gets|intros [|]; [apply keeps_ret|apply keeps_release_unnamed]]. }
  rewrite Hk. exact Ht.
Qed.

Lemma open_refs p (s : Vfs.Fs F K) :
  match Vfs.open p s with
  | (Ok id, s') => ∀ j, file_refs (Vfs.files s') j = file_refs (Vfs.files s) j + one (bool_decide (j = id))
  | (_, s') => ∀ j, file_refs (Vfs.files s') j = file_refs (Vfs.files s) j
  end.
Proof using Type.
  unfold Vfs.open. unfold mbind at 1, M_bind at 1, lift at 1. destruct (VfsPath.validate_absolute_path p); [|done|done].
  unfold mbind at 1, M_bind at 1. unfold Vfs.asks at 1. destruct (ok_or _ _) as [i|?|]; [|done|done].
  unfold mbind at 1, M_bind at 1. unfold Vfs.reg_generation at 1. destruct (or_panic _) as [g|?|]; [|done|done].
  unfold Vfs.on_files. pose proof (file_alloc_refs i g (Vfs.files s)) as Ha.
  destruct (Vfs.alloc i g (Vfs.files s)) as [[id|?|] t]; [exact Ha|by subst t..].
Qed.
Lemma clone_file_refs id (s : Vfs.Fs F K) :
  match Vfs.clone_open_file id s with
  | (Ok id', s') => id' = id ∧ ∀ j, file_refs (Vfs.files s') j = file_refs (Vfs.files s) j + one (bool_decide (j = id))
  | (_, s') => ∀ j, file_refs (Vfs.files s') j = file_refs (Vfs.files s) j
  end.
Proof using Type.
  unfold Vfs.clone_open_file, Vfs.on_files. pose proof (clone_id_refs id (Vfs.files s)) as Ha.
  destruct (Vfs.clone_id id (Vfs.files s)) as [[id'|?|] t] eqn:E; [exact Ha|by subst t|].
  exfalso. revert E. unfold Vfs.clone_id, Vfs.get_mut. destruct (_ ≫= _); simpl; [|done]. by destruct (checked_add _ _ _).
Qed.
End vfs_operations.
#[export] Hint Resolve keeps_write_file keeps_prepare_remove keeps_unlink keeps_read keeps_seek keeps_write keeps_starts_with : keeps.

Section descriptors.
Context {A P X F K : Type} `{Others A P X, Mount F K, Vfs.Frames F, Vfs.DiskFiles K}.
Context (stack_start : nat → Z) (cpu : nat).
#[local] Abbreviation Proc := (Process A P).
#[local] Abbreviation Wd := (World A P X F K).
#[local] Abbreviation Io := (M (World A P X F K)).
Implicit Types (w : Wd) (p : Proc) (ps qs : list (option Proc)).

(** ** One descriptor *)

Lemma refs_with_pipes w t fd : refs fd (with_pipes t w) = match fd with File _ => refs fd w | _ => end_refs t fd end.
Proof using Type. by destruct fd. Qed.
Lemma refs_with_vfs w s fd : refs fd (with_vfs s w) = match fd with File id => file_refs (Vfs.files s) id | _ => refs fd w end.
Proof using Type. by destruct fd. Qed.
Lemma one_file j id : one (bool_decide (File j = File id)) = one (bool_decide (j = id)).
Proof using Type. unfold one. do 2 case_bool_decide; congruence. Qed.

Lemma release_end_refs {E} hl fd w g : (∀ id, fd ≠ File id) →
  procs (close_pipe hl (close_end fd) w : res E unit * Wd).2 = procs w ∧
  refs g w - one (bool_decide (g = fd)) ≤ refs g (close_pipe hl (close_end fd) w : res E unit * Wd).2.
Proof using Type.
  intros Hfd. unfold close_pipe, mbind, M_bind. pose proof (close_end_refs fd (pipes w) g) as Hc.
  destruct (close_end fd (pipes w)) as [l t]. destruct (quiet_wake (E := E) hl l (with_pipes t w)) as [-> ->].
  split; [done|]. rewrite refs_with_pipes. destruct g as [j|j|j]; [|done|done].
  rewrite bool_decide_eq_false_2 by (intros <-; by destruct (Hfd j)). simpl. lia.
Qed.

Lemma release_refs {E} hl fd w g :
  procs (release_fd hl fd w : res E unit * Wd).2 = procs w ∧
  refs g w - one (bool_decide (g = fd)) ≤ refs g (release_fd hl fd w : res E unit * Wd).2.
Proof using Type.
  destruct fd as [id|id|id]; [|by apply (release_end_refs hl (PipeRead id))|by apply (release_end_refs hl (PipeWrite id))].
  unfold release_fd, mbind, M_bind, try_vfs.
  pose proof (close_open_file_refs id (vfs w)) as Hc. destruct (Vfs.close_open_file id (vfs w)) as [r s].
  assert (∀ v : res E unit, procs (v, with_vfs s w).2 = procs w ∧ refs g w - one (bool_decide (g = File id)) ≤ refs g (v, with_vfs s w).2) as Hs.
  { intros v. split; [done|]. simpl. rewrite refs_with_vfs. destruct g as [j|j|j]; [rewrite one_file; apply Hc|..];
      rewrite bool_decide_eq_false_2 by done; simpl; lia. }
  destruct r as [a|e|]; [apply (Hs (Ok tt))|apply (Hs (Ok tt))|apply (Hs Panic)].
Qed.

(** Releasing has no error. *)
Definition never_fails {E T} (m : Io E T) : Prop := ∀ w e, (m w).1 ≠ Err e.
Lemma never_fails_wake {E} hl l : never_fails (wake_list hl l : Io E unit).
Proof using Type.
  induction l as [|[id|] l IH]; [done| |exact IH]. intros w e. cbn [wake_list].
  unfold mbind, M_bind, acquire. case_bool_decide; [done|]. unfold mret, M_ret, on_kernel.
  destruct (Sched.wake_task id (kernel w)) as [[b|?|] k]; [apply IH|done|done].
Qed.
Lemma never_fails_release {E} hl fd : never_fails (release_fd hl fd : Io E unit).
Proof using Type.
  intros w e. destruct fd as [id|id|id]; unfold release_fd, close_pipe, mbind, M_bind.
  - unfold try_vfs. by destruct (Vfs.close_open_file id (vfs w)) as [[]].
  - destruct (Pipe.close_reader id (pipes w)). apply never_fails_wake.
  - destruct (Pipe.close_writer id (pipes w)). apply never_fails_wake.
Qed.

Lemma release_fd_spec {E} hl fd qs ps held (Bad : Wd → Prop) :
  spec (state qs ps (fd :: held)) (release_fd hl fd : Io E unit) (λ _, state qs ps held) Bad.
Proof using Type.
  intros w [Hps Hl].
  assert (state qs ps held (release_fd hl fd w : res E unit * Wd).2) as Hw'.
  { split; [by rewrite (proj1 (release_refs hl fd w fd))|]. intros g. specialize (Hl g).
    pose proof (proj2 (release_refs (E := E) hl fd w g)) as Hr. rewrite held_uses_cons in Hl. unfold one in Hr.
    destruct (decide (g = fd)) as [->|]; [rewrite !bool_decide_eq_true_2 in * by done|rewrite !bool_decide_eq_false_2 in * by congruence]; lia. }
  pose proof (never_fails_release (E := E) hl fd w) as Hn. destruct (release_fd hl fd w) as [[a|e|] w']; [done|by destruct (Hn e)|done].
Qed.

(** Releasing a whole table. *)
Lemma release_entries_spec {E} hl files qs ps held (Bad : Wd → Prop) :
  spec (state qs ps (omap id files ++ held)) (release_entries hl files : Io E unit) (λ _, state qs ps held) Bad.
Proof using Type.
  induction files as [|[fd|] l IH]; [by apply spec_ret| |apply IH].
  change (omap id (Some fd :: l) ++ held) with (fd :: (omap id l ++ held)). cbn [release_entries].
  apply (spec_bind _ _ _ (λ _, state qs ps (omap id l ++ held))); [apply release_fd_spec|intros _; exact IH].
Qed.
Lemma release_table_spec {E} hl files qs ps held (Bad : Wd → Prop) :
  spec (state qs ps (omap id files ++ held)) (release_file_table hl files : Io E _)
    (λ l w, l = replicate (length files) None ∧ state qs ps held w) Bad.
Proof using Type.
  unfold release_file_table. apply (spec_bind _ _ _ (λ _, state qs ps held)); [apply release_entries_spec|].
  intros _. by apply spec_ret.
Qed.

(** A clone is one reference more, which the call holds. *)
Definition room (ps : list (option Proc)) (held : list FdKind) : Prop := ∀ fd, Z.of_nat (uses fd ps + held_uses fd held) + 1 < 2 ^ 32.

Lemma clone_spec {E} (e : E) fd qs ps held (Bad : Wd → Prop) : room ps held → (∀ w, state qs ps held w → Bad w) →
  spec (state qs ps held) (clone_fd e fd) (λ fd' w, fd' = fd ∧ state qs ps (fd :: held) w) Bad.
Proof using Type.
  intros Hroom Hb.
  assert (∀ w w', state qs ps held w → procs w' = procs w →
    (∀ g, (if decide (g = fd) then Z.min (refs g w + 1) (2 ^ 32 - 1) else refs g w) ≤ refs g w') → state qs ps (fd :: held) w') as Hplus.
  { intros w w' [Hps Hl] Hp Hr. split; [congruence|]. intros g. specialize (Hl g). specialize (Hr g). specialize (Hroom g).
    rewrite held_uses_cons. destruct (decide (g = fd)) as [->|];
      [rewrite bool_decide_eq_true_2 by done|rewrite bool_decide_eq_false_2 by congruence]; lia. }
  assert (∀ id w, fd = File id → state qs ps held w →
    match (id' ← on_vfs (λ _, e) (Vfs.clone_open_file id); mret (File id') : Io E FdKind) w with
    | (Ok a, w') => a = fd ∧ state qs ps (fd :: held) w' | (Err _, w') => Bad w' | (Panic, _) => True end) as Hfile.
  { intros id w -> Hw. unfold mbind, M_bind, on_vfs. pose proof (clone_file_refs id (vfs w)) as Hc.
    destruct (Vfs.clone_open_file id (vfs w)) as [[id'|?|] s]; [|apply Hb; eapply state_frame; [exact Hw|done|intros [j|j|j]; [apply Hc|done..]]|done].
    destruct Hc as [-> Hc]. split; [done|]. eapply Hplus; [exact Hw|done|]. intros g. rewrite refs_with_vfs.
    case_decide as Hg; [subst g; rewrite Hc, bool_decide_eq_true_2 by done; simpl; lia|].
    destruct g as [j|j|j]; [|done|done]. rewrite Hc, bool_decide_eq_false_2 by congruence. simpl. lia. }
  assert (∀ w, (∀ id, fd ≠ File id) → state qs ps held w →
    match (_ ← on_pipes (λ _, e) (clone_end fd); mret fd : Io E FdKind) w with
    | (Ok a, w') => a = fd ∧ state qs ps (fd :: held) w' | (Err _, w') => Bad w' | (Panic, _) => True end) as Hend.
  { intros w Hfd Hw. unfold mbind, M_bind, on_pipes. pose proof (clone_end_refs fd (pipes w) Hfd) as Hc.
    destruct (clone_end fd (pipes w)) as [[[]|?|] t]; [|subst t; apply Hb; eapply state_frame; [exact Hw|done|by intros []]|done].
    split; [done|]. eapply Hplus; [exact Hw|done|]. intros g. rewrite refs_with_pipes.
    destruct g as [j|j|j]; [by rewrite decide_False by (by intros <-; destruct (Hfd j))|by rewrite Hc..]. }
  intros w Hw. destruct fd as [id|id|id]; [by apply Hfile|by apply Hend|by apply Hend].
Qed.
End descriptors.

Section tables.
Context {A P X F K : Type} `{Others A P X, Mount F K, Vfs.Frames F, Vfs.DiskFiles K}.
Context (cpu : nat).
#[local] Abbreviation Proc := (Process A P).
#[local] Abbreviation Wd := (World A P X F K).
#[local] Abbreviation Io := (M (World A P X F K)).
Implicit Types (w : Wd) (p : Proc) (ps qs : list (option Proc)).

(** ** The process table *)

Lemma room_of ps held : shape ps → (length held ≤ 1000)%nat → room ps held.
Proof using Type.
  intros Hs Hl fd. pose proof (uses_bound fd ps Hs) as Hu. assert (held_uses fd held ≤ length held)%nat by apply List.filter_length_le.
  change (MAX_PROCESSES * MAX_FILE_DESCRIPTORS)%nat with 512%nat in Hu. lia.
Qed.

(** [preserves]: a call that returns keeps the accounts in order. *)
Definition preserves {E T} (m : Io E T) : Prop := spec refs_ok m (λ _, refs_ok) refs_ok.
Lemma preserves_intro {E T} (m : Io E T) :
  (∀ ps, shape ps → spec (state ps ps []) m (λ _, refs_ok) refs_ok) → preserves m.
Proof using Type. intros Hm w [Hs Hl]. apply (Hm (procs w) Hs). done. Qed.
Lemma preserves_quiet {E T} (m : Io E T) : quiet m → preserves m.
Proof using Type.
  intros Hq. apply preserves_intro. intros ps Hs.
  assert (∀ w, state ps ps [] w → refs_ok w) as Hw by (intros w; by apply state_refs_ok).
  eapply spec_weaken; [apply (quiet_spec m ps ps [] refs_ok Hq Hw)|done|by intros ?; exact Hw|done].
Qed.

Lemma put_spec {E} slot p qs ps held (Bad : Wd → Prop) :
  spec (state qs ps held) (put_process slot p : Io E unit) (λ _, state (<[slot := Some p]> qs) ps held) Bad.
Proof using Type. intros w [<- Hl]. split; [done|]. intros fd. apply Hl. Qed.

(** A process is stored over the one that is accounted for. *)
Lemma put_same_spec {E} slot p p' ps held (Bad : Wd → Prop) :
  shape ps → ps !! slot = Some (Some p) → p_files p' = p_files p →
  spec (state ps ps held) (put_process slot p' : Io E unit) (λ _, refs_ok) Bad.
Proof using Type.
  intros Hs Hi Hf w [<- Hl]. eapply (state_refs_ok _ held).
  - eapply shape_insert; [exact Hs|]. unfold proc_shape. rewrite Hf. by apply (proj2 Hs slot).
  - split; [done|]. intros fd. apply (ledger_move _ held held _ slot (Some p) (Some p')); [done|done|]. intros g. simpl. by rewrite Hf.
Qed.

Lemma find_process_lookup f ps slot p : find_process f ps = Some (slot, p) → ps !! slot = Some (Some p) ∧ f p = true.
Proof using Type.
  unfold find_process. intros (i & Hp & Hf)%bind_Some. apply bind_Some in Hf as (q & Hq & [= <- <-]).
  apply position_Some_1 in Hp as (o & Hi & Ho). rewrite Hi in Hq. simpl in Hq. subst o. done.
Qed.

Lemma find_spec {E} hl f ps held (Bad : Wd → Prop) : (∀ w, state ps ps held w → Bad w) →
  spec (state ps ps held) (find_by hl f : Io E (option (nat * Proc)))
    (λ o w, state ps ps held w ∧ (∀ slot p, o = Some (slot, p) → ps !! slot = Some (Some p) ∧ f p = true)) Bad.
Proof using Type.
  intros Hb w Hw. unfold find_by, mbind, M_bind, acquire. case_bool_decide; [done|]. simpl. split; [done|].
  intros slot p Hf. destruct Hw as [<- _]. by apply find_process_lookup.
Qed.

Lemma current_process_spec {E} (e : E) ps held (Bad : Wd → Prop) : (∀ w, state ps ps held w → Bad w) →
  spec (state ps ps held) (current_process cpu e) (λ sp w, state ps ps held w ∧ ps !! sp.1 = Some (Some sp.2)) Bad.
Proof using Type.
  intros Hb. unfold current_process. eapply spec_bind; [apply quiet_spec; [apply quiet_current_task|exact Hb]|intros tid].
  eapply spec_bind; [apply find_spec, Hb|intros o].
  apply spec_lift; [|intros w [Hw _]; by apply Hb]. intros [slot p] w Ho [Hw Hf]. split; [done|].
  destruct o as [sp|]; [|done]. injection Ho as ->. by apply (Hf slot p).
Qed.

Lemma free_descriptor_spec files d : free_descriptor files = Some d → files !! d = Some None.
Proof using Type. unfold free_descriptor. intros [_ Hd]%List.find_some. by apply bool_decide_eq_true_1 in Hd. Qed.

(** A new descriptor takes over a reference the call holds. *)
Definition with_file (d : nat) (fd : FdKind) (p : Proc) : Proc := set_files (<[d := Some fd]> (p_files p)) p.
Lemma with_file_shape d fd p : proc_shape p → proc_shape (with_file d fd p).
Proof using Type. unfold proc_shape. simpl. by rewrite length_insert. Qed.

Lemma install_spec slot p fd ps held (Bad : Wd → Prop) :
  shape ps → ps !! slot = Some (Some p) → (∀ w, state ps ps (fd :: held) w → Bad w) →
  spec (state ps ps (fd :: held)) (install slot p fd)
    (λ d w, state (<[slot := Some (with_file d fd p)]> ps) (<[slot := Some (with_file d fd p)]> ps) held w) Bad.
Proof using Type.
  intros Hs Hi Hb. unfold install.
  apply (spec_bind _ _ _ (λ d w, state ps ps (fd :: held) w ∧ p_files p !! d = Some None)).
  { apply spec_lift; [|exact Hb]. intros d w Hd Hw. split; [done|]. apply free_descriptor_spec.
    destruct (free_descriptor (p_files p)); [by injection Hd as ->|done]. }
  intros d. apply spec_pure. intros Hd.
  apply (spec_bind _ _ _ (λ _ w, state (<[slot := Some (with_file d fd p)]> ps) (<[slot := Some (with_file d fd p)]> ps) held w));
    [|intros _; by apply spec_ret].
  intros w [<- Hl]. split; [done|]. intros g.
  apply (ledger_move (procs w) (fd :: held) held _ slot (Some p)); [done|done|]. clear g. intros g. simpl.
  rewrite held_uses_cons. pose proof (table_uses_insert g (p_files p) d (Some fd) None Hd) as Ht.
  rewrite (bool_decide_eq_false_2 (None = Some g)) in Ht by done.
  rewrite (bool_decide_ext (Some fd = Some g) (fd = g)) in Ht by naive_solver. unfold table_uses in *. lia.
Qed.

(** A descriptor, or all of them, becomes a reference the call holds. *)
Lemma ledger_take ps held w slot p d fd :
  ledger ps held w → ps !! slot = Some (Some p) → p_files p !! d = Some (Some fd) →
  ledger (<[slot := Some (set_files (<[d := None]> (p_files p)) p)]> ps) (fd :: held) w.
Proof using Type.
  intros Hl Hi Hd. apply (ledger_move ps held (fd :: held) w slot (Some p)); [done|done|]. intros g. simpl.
  rewrite held_uses_cons. pose proof (table_uses_insert g (p_files p) d None (Some fd) Hd) as Ht.
  rewrite (bool_decide_eq_false_2 (None = Some g)) in Ht by done.
  rewrite (bool_decide_ext (Some fd = Some g) (fd = g)) in Ht by naive_solver. unfold table_uses in *. lia.
Qed.
Lemma ledger_take_all ps held w slot p n :
  ledger ps held w → ps !! slot = Some (Some p) →
  ledger (<[slot := Some (set_files (replicate n None) p)]> ps) (omap id (p_files p) ++ held) w.
Proof using Type.
  intros Hl Hi. apply (ledger_move ps held _ w slot (Some p)); [done|done|]. intros g. simpl.
  rewrite held_uses_app, <-table_uses_held, table_uses_none. lia.
Qed.

(** The files of a process are released before its entry is stored. *)
Lemma release_process_spec {E} hl ps slot p (Bad : Wd → Prop) :
  ps !! slot = Some (Some p) →
  spec (state ps ps []) (release_file_table hl (p_files p) : Io E _)
    (λ l w, l = replicate (length (p_files p)) None ∧ state ps (<[slot := Some (set_files l p)]> ps) [] w) Bad.
Proof using Type.
  intros Hi. set (l := replicate (length (p_files p)) None).
  eapply spec_weaken; [apply (release_table_spec hl (p_files p) ps (<[slot := Some (set_files l p)]> ps) [] Bad)|..].
  - intros w [Hps Hl]. split; [done|]. by apply ledger_take_all.
  - intros k w [-> Hw]. by split.
  - done.
Qed.

(** The entry with the empty table is stored. *)
Lemma store_released {E} ps slot p l p' (Bad : Wd → Prop) :
  shape ps → ps !! slot = Some (Some p) → l = replicate (length (p_files p)) None → p_files p' = l →
  spec (state ps (<[slot := Some (set_files l p)]> ps) []) (put_process slot p' : Io E unit)
    (λ _ w, shape (<[slot := Some p']> ps) ∧ state (<[slot := Some p']> ps) (<[slot := Some p']> ps) [] w) Bad.
Proof using Type.
  intros Hs Hi Hl Hf w [<- Hled]. split.
  - apply shape_insert; [done|]. unfold proc_shape. rewrite Hf, Hl, length_replicate. by apply (proj2 Hs slot).
  - split; [done|]. rewrite <-(list_insert_insert_eq (procs w) slot (Some p') (Some (set_files l p))).
    apply (ledger_move _ [] [] w slot (Some (set_files l p))); [done| |].
    + apply list_lookup_insert_eq. by eapply lookup_lt_Some.
    + intros g. simpl. by rewrite Hf.
Qed.
End tables.
