(* ===== verification/ProcessCalls.v ===== *)
(** * Every call keeps the reference counts (kernel/src/task.rs)

    The triples of [ProcessRefs] for each call of a process, and the invariant
    of all reachable states that follows from them. *)
From stdpp Require Import list gmap.
From S2P Require Import Prelude Config Cwd Table Process ProcessRefs.
From S2P Require Vfs VfsPath Pipe Ipc Sched Capability Environment.

Section calls.
Context {A P X F K : Type} `{Others A P X, Mount F K, Vfs.Frames F, Vfs.DiskFiles K}.
Context (stack_start : nat → Z) (cpu : nat).
#[local] Abbreviation Proc := (Process A P).
#[local] Abbreviation Wd := (World A P X F K).
#[local] Abbreviation Io := (M (World A P X F K)).
#[local] Abbreviation kept m := (preserves (A:=A) (P:=P) (X:=X) (F:=F) (K:=K) m).
Implicit Types (w : Wd) (p : Proc) (ps qs : list (option Proc)).

Lemma bad_state ps held : shape ps → ∀ w, state ps ps held w → refs_ok w.
Proof using Type. intros Hs w. by apply state_refs_ok. Qed.

Lemma descriptor_lookup files d fd : descriptor_of files d = Some fd → files !! d = Some (Some fd).
Proof using Type. unfold descriptor_of. destruct (files !! d) as [o|]; simpl; [by intros ->|done]. Qed.

(** A call that looks its process up and goes on with it. *)
Lemma with_process_preserves {E T} (e : E) (f : nat * Proc → Io E T) ps held :
  shape ps → (∀ slot p, ps !! slot = Some (Some p) → spec (state ps ps held) (f (slot, p)) (λ _, refs_ok) refs_ok) →
  spec (state ps ps held) (current_process cpu e ≫= f) (λ _, refs_ok) refs_ok.
Proof using Type.
  intros Hs Hf. eapply spec_bind; [apply current_process_spec, bad_state, Hs|].
  intros [slot p]. apply spec_pure. intros Hi. by apply Hf.
Qed.
(** ... and reads a value that may be missing. *)
Lemma lift_preserves {E T U} (r : res E T) (f : T → Io E U) ps held :
  shape ps → (∀ a, r = Ok a → spec (state ps ps held) (f a) (λ _, refs_ok) refs_ok) →
  spec (state ps ps held) (lift r ≫= f) (λ _, refs_ok) refs_ok.
Proof using Type.
  intros Hs Hf w Hw. rewrite bind_lift. destruct r as [a|e|]; [by apply Hf|by apply (bad_state ps held Hs)|done].
Qed.
Lemma quiet_preserves {E T U} (m : Io E T) (f : T → Io E U) ps held :
  shape ps → quiet m → (∀ a, spec (state ps ps held) (f a) (λ _, refs_ok) refs_ok) →
  spec (state ps ps held) (m ≫= f) (λ _, refs_ok) refs_ok.
Proof using Type.
  intros Hs Hm Hf. eapply spec_bind; [apply (quiet_spec m ps ps held refs_ok Hm (bad_state ps held Hs))|exact Hf].
Qed.
Lemma clone_preserves {E T} (e : E) fd (f : FdKind → Io E T) ps held :
  shape ps → (length held ≤ 1000)%nat → spec (state ps ps (fd :: held)) (f fd) (λ _, refs_ok) refs_ok →
  spec (state ps ps held) (clone_fd e fd ≫= f) (λ _, refs_ok) refs_ok.
Proof using Type.
  intros Hs Hl Hf. eapply spec_bind; [apply clone_spec; [by apply room_of|by apply bad_state]|].
  intros fd' w [-> Hw]. by apply Hf.
Qed.
Lemma install_preserves slot p fd ps held :
  shape ps → ps !! slot = Some (Some p) → spec (state ps ps (fd :: held)) (install slot p fd : Io FileError nat) (λ _, refs_ok) refs_ok.
Proof using Type.
  intros Hs Hi. eapply spec_weaken; [by apply (install_spec slot p fd ps held refs_ok Hs Hi), bad_state|done| |done].
  intros d w Hw. eapply state_refs_ok; [|exact Hw]. apply shape_insert; [done|]. by apply with_file_shape, (proj2 Hs slot).
Qed.
Lemma ok_or_some {E T} (e : E) (o : option T) a : ok_or e o = Ok a → o = Some a.
Proof using Type. by destruct o; [intros [= ->]|]. Qed.

Lemma dup_kept d : kept (dup_current cpu d).
Proof using Type.
  apply preserves_intro. intros ps Hs. unfold dup_current. apply with_process_preserves; [done|intros slot p Hi].
  apply lift_preserves; [done|intros fd _]. apply clone_preserves; [done|simpl; lia|]. by apply install_preserves.
Qed.

Lemma close_kept d : kept (close_current cpu d).
Proof using Type.
  apply preserves_intro. intros ps Hs. unfold close_current. destruct (Nat.ltb d 3); [apply spec_fail, (bad_state ps [] Hs)|].
  apply with_process_preserves; [done|intros slot p Hi].
  apply lift_preserves; [done|intros fd Hd%ok_or_some%descriptor_lookup].
  set (ps' := <[slot := Some (set_files (<[d := None]> (p_files p)) p)]> ps).
  assert (shape ps') as Hs' by (apply shape_insert; [done|]; unfold proc_shape; simpl; rewrite length_insert; by apply (proj2 Hs slot)).
  apply (spec_bind _ _ _ (λ _, state ps' ps' [fd])).
  { intros w [<- Hl]. split; [done|]. by apply ledger_take. }
  intros ?. eapply spec_weaken; [apply (release_fd_spec [] fd ps' ps' [] refs_ok)|done|intros ?; by apply bad_state|done].
Qed.

(** A process is stored whose descriptors and the held references were held before. *)
Lemma put_move {E} slot p p' ps held held' (Bad : Wd → Prop) :
  ps !! slot = Some (Some p) →
  (∀ g, (table_uses g (p_files p') + held_uses g held' ≤ table_uses g (p_files p) + held_uses g held)%nat) →
  spec (state ps ps held) (put_process slot p' : Io E unit) (λ _, state (<[slot := Some p']> ps) (<[slot := Some p']> ps) held') Bad.
Proof using Type.
  intros Hi Hu w [<- Hl]. split; [done|]. by apply (ledger_move (procs w) held held' w slot (Some p)).
Qed.
Lemma shape_at ps slot p : shape ps → ps !! slot = Some (Some p) → length (p_files p) = MAX_FILE_DESCRIPTORS.
Proof using Type. intros Hs. apply (proj2 Hs slot). Qed.
Lemma shape_files ps slot p l : shape ps → ps !! slot = Some (Some p) → length l = length (p_files p) →
  shape (<[slot := Some (set_files l p)]> ps).
Proof using Type.
  intros Hs Hi Hl. apply shape_insert; [done|]. unfold proc_shape. simpl. rewrite Hl. by apply (proj2 Hs slot).
Qed.
(** The last store of a call. *)
Lemma put_end {E T} slot p p' ps held (a : T) :
  shape ps → ps !! slot = Some (Some p) → length (p_files p') = length (p_files p) →
  (∀ g, (table_uses g (p_files p') ≤ table_uses g (p_files p) + held_uses g held)%nat) →
  spec (state ps ps held) (_ ← put_process slot p'; mret a : Io E T) (λ _, refs_ok) refs_ok.
Proof using Type.
  intros Hs Hi Hlen Hu. eapply spec_bind.
  - apply (put_move slot p p' ps held [] refs_ok Hi). intros g. rewrite held_uses_nil. specialize (Hu g). lia.
  - intros ?. apply spec_ret. intros w. apply state_refs_ok, shape_insert; [done|].
    unfold proc_shape. rewrite Hlen. by apply (proj2 Hs slot).
Qed.

Lemma dup2_kept old new : kept (dup2_current cpu old new).
Proof using Type.
  apply preserves_intro. intros ps Hs. unfold dup2_current.
  destruct (Nat.leb _ _); [apply spec_fail, (bad_state ps [] Hs)|]. destruct (Nat.eqb _ _); [apply spec_ret, (bad_state ps [] Hs)|].
  apply with_process_preserves; [done|intros slot p Hi]. apply lift_preserves; [done|intros fd _].
  apply clone_preserves; [done|simpl; lia|]. apply lift_preserves; [done|intros o Ho].
  destruct (p_files p !! new) as [o'|] eqn:Hn; [|done]. simpl in Ho. injection Ho as ->.
  set (p' := set_files (<[new := None]> (p_files p)) p). set (ps' := <[slot := Some p']> ps).
  pose proof (λ g, table_uses_update g (p_files p) new None _ Hn) as Hnone.
  pose proof (λ g, table_uses_update g (p_files p) new (Some fd) _ Hn) as Hsome.
  assert (shape ps') as Hs' by (apply shape_files; [done|done|apply length_insert]).
  apply (spec_bind _ _ _ (λ _, state ps' ps' (option_list o ++ [fd]))).
  { apply (put_move slot p); [done|]. intros g. specialize (Hnone g). rewrite held_uses_app. subst p'.
    cbn [p_files set_files] in *. change (option_list (Some fd)) with [fd] in *. change (option_list (@None FdKind)) with (@nil FdKind) in *. rewrite held_uses_nil in Hnone. lia. }
  intros ?. apply (spec_bind _ _ _ (λ _, state ps' ps' [fd])).
  { destruct o as [prev|]; [apply release_fd_spec|by apply spec_ret]. }
  intros ?. apply (put_end slot p'); [done|apply list_lookup_insert_eq; by eapply lookup_lt_Some| |].
  - simpl. by rewrite !length_insert.
  - intros g. specialize (Hnone g). specialize (Hsome g). subst p'. cbn [p_files set_files] in *. change (option_list (Some fd)) with [fd] in *. change (option_list (@None FdKind)) with (@nil FdKind) in *.
    rewrite held_uses_nil in Hnone. lia.
Qed.

Lemma pipe_kept : kept (pipe_current cpu).
Proof using Type.
  apply preserves_intro. intros ps Hs. unfold pipe_current.
  apply (spec_bind _ _ _ (λ id, state ps ps [PipeRead id; PipeWrite id])).
  { intros w [Hps Hl]. unfold on_pipes. pose proof (pipe_alloc_refs (pipes w)) as Ha.
    destruct (Pipe.alloc (pipes w)) as [[id|?|] t]; [|subst t; apply (bad_state ps [] Hs); by destruct w|done].
    split; [done|]. intros g. specialize (Hl g). rewrite held_uses_nil in Hl. rewrite !held_uses_cons, held_uses_nil.
    rewrite refs_with_pipes. destruct g as [j|j|j].
    - rewrite !(bool_decide_eq_false_2 (_ = File j)) by done. lia.
    - rewrite Ha. change (end_refs (pipes w) (PipeRead j)) with (refs (PipeRead j) w). unfold one.
      rewrite (bool_decide_ext (PipeRead id = PipeRead j) (PipeRead j = PipeRead id)) by (split; congruence).
      rewrite !(bool_decide_eq_false_2 (PipeWrite id = _)), !(bool_decide_eq_false_2 (_ = PipeWrite id)) by done.
      case_bool_decide; lia.
    - rewrite Ha. change (end_refs (pipes w) (PipeWrite j)) with (refs (PipeWrite j) w). unfold one.
      rewrite (bool_decide_ext (PipeWrite id = PipeWrite j) (PipeWrite j = PipeWrite id)) by (split; congruence).
      rewrite !(bool_decide_eq_false_2 (PipeRead id = _)), !(bool_decide_eq_false_2 (_ = PipeRead id)) by done.
      case_bool_decide; lia. }
  intros id. apply with_process_preserves; [done|intros slot p Hi].
  eapply spec_bind; [apply (install_spec slot p (PipeRead id) ps [PipeWrite id] refs_ok Hs Hi), bad_state, Hs|].
  intros d. set (p' := with_file d (PipeRead id) p). set (ps' := <[slot := Some p']> ps).
  assert (shape ps') as Hs' by (apply shape_insert; [done|]; by apply with_file_shape, (proj2 Hs slot)).
  assert (ps' !! slot = Some (Some p')) as Hi' by (apply list_lookup_insert_eq; by eapply lookup_lt_Some).
  apply (spec_bind _ _ _ (λ o w, state ps' ps' [PipeWrite id] w ∧ o = Some p')).
  { intros w [Hw Hl]. unfold gets. split; [done|]. rewrite Hw. change (mjoin (ps' !! slot) = Some p'). by rewrite Hi'. }
  intros o. apply spec_pure. intros ->. apply lift_preserves; [done|intros ? [= <-]].
  eapply spec_bind; [apply (install_preserves slot p' (PipeWrite id) ps' [] Hs' Hi')|]. intros d'. by apply spec_ret.
Qed.

Lemma open_file_spec path ps (Bad : Wd → Prop) E (f : VfsPath.VError → E) : (∀ w, state ps ps [] w → Bad w) →
  spec (state ps ps []) (on_vfs f (Vfs.open path) : Io E nat) (λ id, state ps ps [File id]) Bad.
Proof using Type.
  intros Hb w [Hps Hl]. unfold on_vfs. pose proof (open_refs path (vfs w)) as Ho.
  assert (∀ s, (∀ j, file_refs (Vfs.files s) j = file_refs (Vfs.files (vfs w)) j) → state ps ps [] (with_vfs s w)) as Hsame.
  { intros s Hj. split; [done|]. intros g. specialize (Hl g). rewrite refs_with_vfs. destruct g; [by rewrite Hj|done..]. }
  destruct (Vfs.open path (vfs w)) as [[id|?|] s]; [|by apply Hb, Hsame|done].
  split; [done|]. intros g. specialize (Hl g). rewrite held_uses_nil in Hl. rewrite held_uses_cons, held_uses_nil, refs_with_vfs.
  destruct g as [j|j|j]; [|rewrite bool_decide_eq_false_2 by done; lia..]. rewrite Ho. simpl in Hl. unfold one.
  rewrite (bool_decide_ext (File id = File j) (j = id)) by (split; congruence). case_bool_decide; lia.
Qed.

(** ** The end of a process *)

Lemma preserves_bind {E T U} (m : Io E T) (f : T → Io E U) : kept m → (∀ a, kept (f a)) → kept (m ≫= f).
Proof using Type. intros Hm Hf. by eapply spec_bind. Qed.
Lemma preserves_weaken {E T} (m : Io E T) ps : kept m → shape ps → spec (state ps ps []) m (λ _, refs_ok) refs_ok.
Proof using Type. intros Hm Hs w Hw. apply (Hm w). by eapply state_refs_ok. Qed.

(** The running process, or another one, gives up its files. *)
Lemma release_store {E T} hl ps slot p (g : FileTable → Proc) (f : FileTable → Io E T) :
  shape ps → ps !! slot = Some (Some p) → (∀ l, p_files (g l) = l) →
  (∀ l ps', l = replicate (length (p_files p)) None → ps' = <[slot := Some (g l)]> ps → shape ps' →
    spec (state ps' ps' []) (f l) (λ _, refs_ok) refs_ok) →
  spec (state ps ps []) (l ← release_file_table hl (p_files p); _ ← put_process slot (g l); f l) (λ _, refs_ok) refs_ok.
Proof using Type.
  intros Hs Hi Hg Hf. eapply spec_bind; [apply (release_process_spec hl ps slot p refs_ok Hi)|]. intros l.
  intros w [Hl Hw]. revert w Hw. change (spec (state ps (<[slot:=Some (set_files l p)]> ps) [])
    (_ ← put_process slot (g l); f l) (λ _, refs_ok) refs_ok).
  eapply spec_bind; [apply (store_released ps slot p l (g l) refs_ok Hs Hi Hl (Hg l))|].
  intros ? w [Hs' Hw]. by eapply (Hf l).
Qed.

Lemma wait_kept child : kept (wait_process cpu child).
Proof using Type.
  apply preserves_intro. intros ps Hs. unfold wait_process.
  apply quiet_preserves; [done|apply quiet_current_id|intros parent].
  eapply spec_bind; [apply find_spec, (bad_state ps [] Hs)|]. intros o. apply spec_pure. intros Ho.
  apply lift_preserves; [done|]. intros [slot p] ->%ok_or_some. destruct (Ho slot p eq_refl) as [Hi _].
  destruct (negb _); [apply spec_fail, (bad_state ps [] Hs)|].
  apply (release_store [PROCESS_TABLE] ps slot p (λ l, set_files l p)); [done|done|done|].
  intros l ps' Hl Hps Hs'. apply quiet_preserves; [done|apply quiet_attempt, quiet_ipc|intros r].
  apply quiet_preserves; [done|apply quiet_assert|intros ?].
  apply (spec_bind _ _ _ (λ _, refs_ok)); [|intros ?; by apply spec_ret].
  assert (ps' !! slot = Some (Some (set_files l p))) as Hi'
    by (subst ps'; apply list_lookup_insert_eq; by eapply lookup_lt_Some).
  intros w [Hw Hled]. unfold modify, refs_ok. cbn [procs with_procs]. rewrite Hw. split; [split|].
  - rewrite length_insert. apply Hs'.
  - intros j q [(-> & ? & _)|[_ Hj]]%list_lookup_insert_Some; [done|by eapply (proj2 Hs')].
  - apply (ledger_move ps' [] [] _ slot (Some (set_files l p)) None); [done|done|]. intros g. simpl. lia.
Qed.

Lemma signal_one_kept sig slot p ps :
  shape ps → ps !! slot = Some (Some p) → spec (state ps ps []) (signal_process sig slot p : Io FileError (option Z)) (λ _, refs_ok) refs_ok.
Proof using Type.
  intros Hs Hi. unfold signal_process. destruct (sig =? 0); [apply spec_ret, (bad_state ps [] Hs)|].
  assert (spec (state ps ps []) (_ ← put_process slot (set_pending sig p); mret None : Io FileError (option Z)) (λ _, refs_ok) refs_ok) as Hput
    by (apply (put_end slot p); [done|done|done|intros g; simpl; lia]).
  apply lift_preserves; [done|intros action _]. destruct (action =? 1); [apply spec_ret, (bad_state ps [] Hs)|].
  destruct (_ && _); [exact Hput|]. destruct (_ && _); [|exact Hput].
  apply (release_store [PROCESS_TABLE] ps slot p (λ l, set_files l (set_exit_code (128 + sig) (set_state Exited (set_pending sig p))))); [done|done|done|].
  intros l ps' _ _ Hs'. by apply spec_ret, bad_state.
Qed.

Lemma signal_loop_kept pid sig group slots matched killed : kept (signal_loop pid sig group slots matched killed).
Proof using Type.
  revert matched killed. induction slots as [|slot slots IH]; intros matched killed; [by apply spec_ret|].
  apply preserves_intro. intros ps Hs. cbn [signal_loop].
  apply (spec_bind _ _ _ (λ o w, state ps ps [] w ∧ mjoin (ps !! slot) = o)).
  { intros w [<- Hl]. done. }
  intros o. apply spec_pure. intros Ho. destruct o as [p|]; [|by apply preserves_weaken].
  destruct (selected _ _ _); [|by apply preserves_weaken].
  destruct (ps !! slot) as [o'|] eqn:Hi; [|done]. simpl in Ho. subst o'.
  eapply spec_bind; [by apply signal_one_kept|]. intros k. apply IH.
Qed.

Lemma kill_kept pid sig : kept (kill_process cpu pid sig).
Proof using Type.
  unfold kill_process. destruct (31 <? sig); [by apply spec_fail|].
  apply preserves_bind; [apply preserves_quiet, quiet_current_id|intros current].
  apply preserves_bind; [apply preserves_quiet, quiet_find|intros o].
  apply preserves_bind; [apply preserves_quiet, quiet_gets|intros n].
  apply preserves_bind; [apply signal_loop_kept|intros [matched killed]].
  apply preserves_bind; [apply preserves_quiet, quiet_kernel|intros ?].
  destruct matched; [by apply spec_ret|by apply spec_fail].
Qed.

Lemma exit_kept code : kept (exit_current_process stack_start cpu code).
Proof using Type.
  unfold exit_current_process. apply preserves_bind; [apply preserves_quiet, quiet_current_id|intros pid].
  apply preserves_bind; [apply preserves_quiet, quiet_foreground|intros ?].
  apply preserves_bind; [apply preserves_quiet, quiet_others|intros ?].
  apply preserves_bind; [apply preserves_quiet, quiet_kernel|intros ?].
  apply preserves_bind; [apply preserves_quiet, quiet_kernel|intros running].
  apply preserves_intro. intros ps Hs. eapply spec_bind; [apply find_spec, (bad_state ps [] Hs)|]. intros o. apply spec_pure. intros Ho.
  eapply spec_bind.
  { instantiate (1 := λ _, refs_ok). destruct o as [[slot p]|]; [|apply spec_ret, (bad_state ps [] Hs)].
    destruct (Ho slot p eq_refl) as [Hi _]. destruct (p_space p) as [space|].
    - apply (release_store _ ps slot p (λ l, set_mappings no_mappings (set_space None (set_files l (set_exit_code code (set_state Exited p))))));
        [done|done|done|]. intros l ps' _ _ Hs'. by apply spec_ret, bad_state.
    - apply (release_store _ ps slot p (λ l, set_files l (set_exit_code code (set_state Exited p)))); [done|done|done|].
      intros l ps' _ _ Hs'. by apply spec_ret, bad_state. }
  intros owned. apply preserves_quiet. apply quiet_bind; [apply quiet_kernel|intros switch].
  destruct owned as [[space mappings]|]; [|apply quiet_ret]. destruct switch as [switch|]; [|apply quiet_ret].
  apply quiet_bind; [apply quiet_others|intros unmapped]. apply quiet_bind; [apply quiet_assert|intros ?].
  apply quiet_bind; [apply quiet_others|intros freed]. apply quiet_bind; [apply quiet_assert|intros ?]. apply quiet_ret.
Qed.

(** ** Creation *)

Lemma free_process_spec {E} ps held (Bad : Wd → Prop) :
  spec (state ps ps held) (free_process : Io E (option nat))
    (λ o w, state ps ps held w ∧ ∀ slot, o = Some slot → ps !! slot = Some None) Bad.
Proof using Type.
  intros w [<- Hl]. unfold free_process, gets. split; [done|]. intros slot Hp.
  apply position_Some_1 in Hp as (o & Hi & Hf). by destruct o.
Qed.

(** A new process takes over the references the call holds. *)
Lemma put_new {E} slot p ps held :
  shape ps → ps !! slot = Some None → proc_shape p → (∀ g, table_uses g (p_files p) = held_uses g held) →
  spec (state ps ps held) (put_process slot p : Io E unit) (λ _, refs_ok) refs_ok.
Proof using Type.
  intros Hs Hi Hp Hu w [<- Hl]. apply (state_refs_ok (<[slot := Some p]> (procs w)) []); [by apply shape_insert|].
  split; [done|]. apply (ledger_move (procs w) held [] w slot None (Some p)); [done|done|].
  intros g. simpl. rewrite held_uses_nil, Hu. lia.
Qed.

Lemma state_held ps held held' w : (∀ g, held_uses g held' = held_uses g held) → state ps ps held w → state ps ps held' w.
Proof using Type. intros He [Hw Hl]. split; [done|]. intros g. rewrite He. apply Hl. Qed.

Lemma no_table_uses g : table_uses g no_files = 0%nat.
Proof using Type. apply table_uses_none. Qed.

Lemma quiet_abandon {T} free : quiet (abandon free : Io ProcessError T).
Proof using Type. unfold abandon. apply quiet_bind; [apply quiet_others|intros ?; apply quiet_fail]. Qed.
Lemma abandon_spec {T} free ps : shape ps → spec (state ps ps []) (abandon free : Io ProcessError T) (λ _, refs_ok) refs_ok.
Proof using Type. intros Hs. apply (preserves_weaken _ ps); [apply preserves_quiet, quiet_abandon|done]. Qed.

(** The references of the child's table while it is built. *)
Definition building (ps : list (option Proc)) (child : FileTable) : Wd → Prop := state ps ps (omap id child).

Lemma omap_length (l : FileTable) : (length (omap id l) ≤ length l)%nat.
Proof using Type.
  induction l as [|[x|] l IH]; [done|cbn; apply le_n_S, IH|cbn; etrans; [apply IH|lia]].
Qed.
Lemma building_insert ps child index fd w : child !! index = Some None →
  state ps ps (fd :: omap id child) w → building ps (<[index := Some fd]> child) w.
Proof using Type.
  intros Hi. apply state_held. intros g. pose proof (table_uses_update g child index (Some fd) None Hi) as Ht.
  rewrite <-table_uses_held, held_uses_cons, <-table_uses_held. rewrite !held_uses_option in Ht.
  rewrite (bool_decide_eq_false_2 (None = Some g)), (bool_decide_ext (Some fd = Some g) (fd = g)) in Ht by (done || split; congruence). lia.
Qed.

Lemma clone_entries_spec hl ps index parent child :
  shape ps → length child = MAX_FILE_DESCRIPTORS → (index + length parent = MAX_FILE_DESCRIPTORS)%nat →
  (∀ i, (index ≤ i < MAX_FILE_DESCRIPTORS)%nat → child !! i = Some None) →
  spec (building ps child) (clone_entries hl index parent child)
    (λ files w, length files = MAX_FILE_DESCRIPTORS ∧ building ps files w) (state ps ps []).
Proof using Type.
  intros Hs. revert index child. induction parent as [|[fd|] l IH]; intros index child Hlen Hsum Hfree; [by apply spec_ret|..].
  - cbn [clone_entries]. cbn [length] in Hsum.
    assert (length (omap id child) ≤ 1000)%nat as Hroom.
    { pose proof (omap_length child). rewrite Hlen in *. change MAX_FILE_DESCRIPTORS with 16%nat in *. lia. }
    apply (spec_bind _ _ _ (λ r w, match r with Ok fd' => fd' = fd ∧ state ps ps (fd :: omap id child) w | _ => building ps child w end)).
    { eapply spec_weaken; [apply (spec_attempt (clone_fd Full fd)), (clone_spec Full fd ps ps (omap id child) (building ps child));
        [by apply room_of|done]|done| |intros ? Hf; exact Hf]. intros [fd'|?|] w Hw; [done|done|done]. }
    intros r.
    assert (spec (building ps child) (_ ← release_file_table hl child; fail Full : Io ProcessError FileTable)
      (λ files w, length files = MAX_FILE_DESCRIPTORS ∧ building ps files w) (state ps ps [])) as Hfail.
    { eapply spec_bind; [|intros ?; by apply (spec_fail _ (state ps ps []))].
      eapply spec_weaken; [apply (release_table_spec hl child ps ps [] (state ps ps []))|..].
      - intros w Hw. by rewrite app_nil_r.
      - by intros ? w [_ Hw].
      - done. }
    destruct r as [fd'|?|]; [|exact Hfail|exact Hfail].
    assert (child !! index = Some None) as Hi by (apply Hfree; lia).
    intros w [-> Hw]. apply (building_insert ps child index fd w Hi) in Hw. revert w Hw.
    apply (IH (S index)); [by rewrite length_insert|lia|]. intros i Hr. rewrite list_lookup_insert_ne by lia. apply Hfree. lia.
  - cbn [clone_entries]. cbn [length] in Hsum. apply IH; [done|lia|]. intros i Hi. apply Hfree. lia.
Qed.

Lemma no_files_free i : (i < MAX_FILE_DESCRIPTORS)%nat → no_files !! i = Some None.
Proof using Type. intros Hi. by apply lookup_replicate_2. Qed.

Lemma fork_kept : kept (fork_current stack_start cpu).
Proof using Type.
  apply preserves_intro. intros ps Hs. unfold fork_current.
  apply quiet_preserves; [done|apply quiet_current_task|intros tid].
  apply quiet_preserves; [done|apply quiet_kernel|intros running].
  eapply spec_bind; [apply find_spec, (bad_state ps [] Hs)|]. intros o. apply spec_pure. intros Ho.
  apply lift_preserves; [done|]. intros [pslot parent] ->%ok_or_some. destruct (Ho pslot parent eq_refl) as [Hp _].
  apply lift_preserves; [done|intros source _]. apply quiet_preserves; [done|apply quiet_others|intros cloned].
  apply lift_preserves; [done|intros space _]. apply quiet_preserves; [done|apply quiet_kernel|intros ?].
  apply quiet_preserves; [done|apply quiet_free_task|intros [task_slot|]]; [|by apply abandon_spec].
  eapply spec_bind; [apply (free_process_spec ps [] refs_ok)|]. intros pso. apply spec_pure. intros Hfree.
  destruct pso as [process_slot|]; [|by apply abandon_spec]. specialize (Hfree process_slot eq_refl).
  apply quiet_preserves; [done|apply quiet_kernel|intros child_task]. apply quiet_preserves; [done|apply quiet_fetch_pid|intros child].
  apply quiet_preserves; [done|apply quiet_attempt, quiet_ipc|intros r]. destruct (is_err r); [by apply abandon_spec|].
  eapply spec_bind.
  { apply (spec_attempt (clone_file_table [SCHEDULER; PROCESS_TABLE] (p_files parent)) _
      (λ files w, length files = MAX_FILE_DESCRIPTORS ∧ building ps files w) (state ps ps []) refs_ok).
    unfold clone_file_table. eapply spec_weaken; [apply (clone_entries_spec [SCHEDULER; PROCESS_TABLE] ps 0 (p_files parent) no_files Hs)|..].
    - apply length_replicate.
    - simpl. by apply (shape_at ps pslot).
    - intros i Hi. apply no_files_free. lia.
    - done.
    - intros ? w Hw. exact Hw.
    - done. }
  intros files. destruct files as [files|?|].
  - intros w [Hlen Hw]. revert w Hw. change (spec (state ps ps (omap id files))
      (_ ← on_kernel (Sched.place task_slot (Sched.initialize_fork stack_start task_slot child_task (paging_root space) (Sched.t_capabilities running)));
       _ ← put_process process_slot (mkProcess child child_task Ready (p_id parent) (p_credentials parent) 0 (Some space) files
             (p_mappings parent) (p_cwd parent) 0 (p_group parent) (p_actions parent) (p_env parent));
       mret child : Io ProcessError Z) (λ _, refs_ok) refs_ok).
    apply quiet_preserves; [done|apply quiet_kernel|intros ?]. eapply spec_bind; [|intros ?; by apply (spec_ret _ refs_ok)].
    apply put_new; [done|done|exact Hlen|]. intros g. apply table_uses_held.
  - apply quiet_preserves; [done|apply quiet_attempt, quiet_ipc|intros ?]. by apply abandon_spec.
  - by intros w [].
Qed.

Lemma spawn_kept segments name program : kept (spawn_user_process stack_start cpu segments name program).
Proof using Type.
  apply preserves_intro. intros ps Hs. unfold spawn_user_process. destruct (negb _); [by apply abandon_spec|].
  apply quiet_preserves; [done|apply quiet_current_id|intros parent]. apply quiet_preserves; [done|apply quiet_kernel|intros ?].
  apply quiet_preserves; [done|apply quiet_free_task|intros [task_slot|]]; [|by apply abandon_spec].
  apply quiet_preserves; [done|apply quiet_kernel|intros task_id].
  apply (spec_bind _ _ _ (λ p w, state ps ps [] w ∧ p_files p = no_files)).
  { unfold create_process. eapply spec_bind; [apply quiet_spec; [apply quiet_find|apply (bad_state ps [] Hs)]|intros o].
    eapply spec_bind; [apply quiet_spec; [apply quiet_fetch_pid|apply (bad_state ps [] Hs)]|intros pid].
    apply spec_ret. intros w Hw. split; [done|]. by destruct o as [[slot pp]|]. }
  intros p. apply spec_pure. intros Hfiles.
  eapply spec_bind; [apply (free_process_spec ps [] refs_ok)|]. intros pso. apply spec_pure. intros Hfree.
  destruct pso as [process_slot|]; [|by apply abandon_spec]. specialize (Hfree process_slot eq_refl).
  apply quiet_preserves; [done|apply quiet_attempt, quiet_ipc|intros r]. destruct (is_err r); [by apply abandon_spec|].
  apply quiet_preserves; [done|apply quiet_kernel|intros ?]. eapply spec_bind; [|intros ?; by apply (spec_ret _ refs_ok)].
  apply put_new; [done|done|unfold proc_shape; rewrite Hfiles; apply length_replicate|].
  intros g. rewrite Hfiles, no_table_uses. done.
Qed.
End calls.

(** What the mounted volume promises: it opens and closes files only in pairs. *)
Class MountKeeps (F K : Type) `{Mount F K} : Prop := {
  ensure_keeps p : keeps (ensure_path p);
  persist_keeps p : keeps (persist_directory p);
  delete_keeps p : keeps (delete_path p);
  rename_keeps p q : keeps (rename_path p q) }.

Section other_calls.
Context {A P X F K : Type} `{Others A P X, Mount F K, Vfs.Frames F, Vfs.DiskFiles K, !MountKeeps F K}.
Context (stack_start : nat → Z) (cpu : nat).
#[local] Abbreviation Proc := (Process A P).
#[local] Abbreviation Wd := (World A P X F K).
#[local] Abbreviation Io := (M (World A P X F K)).
#[local] Abbreviation kept m := (preserves (A:=A) (P:=P) (X:=X) (F:=F) (K:=K) m).
Implicit Types (w : Wd) (p : Proc) (ps qs : list (option Proc)).

(** ** Calls that change other fields *)

Lemma put_other {E} slot p p' ps :
  shape ps → ps !! slot = Some (Some p) → p_files p' = p_files p →
  spec (state ps ps []) (put_process slot p' : Io E unit) (λ _, refs_ok) refs_ok.
Proof using Type. intros. by apply (put_same_spec slot p p' ps []). Qed.
Lemma put_other_then {E T} slot p p' ps (f : Io E T) :
  shape ps → ps !! slot = Some (Some p) → p_files p' = p_files p → kept f →
  spec (state ps ps []) (_ ← put_process slot p'; f) (λ _, refs_ok) refs_ok.
Proof using Type. intros Hs Hi Hf Hk. eapply spec_bind; [by apply (put_other slot p)|intros ?; exact Hk]. Qed.

Lemma find_preserves {E T} hl fn (f : option (nat * Proc) → Io E T) ps :
  shape ps → (∀ o, (∀ slot p, o = Some (slot, p) → ps !! slot = Some (Some p)) → spec (state ps ps []) (f o) (λ _, refs_ok) refs_ok) →
  spec (state ps ps []) (find_by hl fn ≫= f) (λ _, refs_ok) refs_ok.
Proof using Type.
  intros Hs Hf. eapply spec_bind; [apply find_spec, (bad_state ps [] Hs)|]. intros o. apply spec_pure. intros Ho.
  apply Hf. intros slot p Hp. by apply (Ho slot p).
Qed.
Lemma lookup_preserves {E T} slot (f : option Proc → Io E T) ps :
  shape ps → (∀ o, mjoin (ps !! slot) = o → spec (state ps ps []) (f o) (λ _, refs_ok) refs_ok) →
  spec (state ps ps []) (gets (λ w, mjoin (procs w !! slot)) ≫= f) (λ _, refs_ok) refs_ok.
Proof using Type.
  intros Hs Hf. apply (spec_bind _ _ _ (λ o w, state ps ps [] w ∧ mjoin (ps !! slot) = o)).
  { intros w [<- Hl]. done. }
  intros o. apply spec_pure. by apply Hf.
Qed.
Lemma mjoin_some (ps : list (option Proc)) slot p : mjoin (ps !! slot) = Some p → ps !! slot = Some (Some p).
Proof using Type. by destruct (ps !! slot) as [o|]; simpl; [intros ->|]. Qed.

Lemma exec_kept segments program : kept (exec_current cpu segments program).
Proof using Type.
  apply preserves_intro. intros ps Hs. unfold exec_current.
  apply quiet_preserves; [done|apply quiet_assert|intros ?]. apply quiet_preserves; [done|apply quiet_current_task|intros tid].
  apply quiet_preserves; [done|apply quiet_kernel|intros running]. apply quiet_preserves; [done|apply quiet_assert|intros ?].
  apply find_preserves; [done|intros o Ho]. apply lift_preserves; [done|]. intros [slot p] Heq.
  destruct o as [sp|]; [|done]. injection Heq as ->. specialize (Ho slot p eq_refl).
  apply lift_preserves; [done|intros old _]. apply (put_other_then slot p); [done|done|done|].
  apply preserves_quiet. apply quiet_bind; [apply quiet_kernel|intros ?]. apply quiet_bind; [apply quiet_others|intros ?].
  apply quiet_bind; [apply quiet_assert|intros ?]. apply quiet_bind; [apply quiet_others|intros ?].
  apply quiet_bind; [apply quiet_assert|intros ?]. apply quiet_ret.
Qed.

Lemma sigaction_kept sig handler : kept (sigaction_current cpu sig handler).
Proof using Type.
  apply preserves_intro. intros ps Hs. unfold sigaction_current. destruct (_ || _); [apply spec_fail, (bad_state ps [] Hs)|].
  apply with_process_preserves; [done|intros slot p Hi]. apply lift_preserves; [done|intros old _].
  apply (put_other_then slot p); [done|done|done|by apply spec_ret].
Qed.
Lemma set_group_kept pid pgid : kept (set_process_group cpu pid pgid).
Proof using Type.
  apply preserves_intro. intros ps Hs. unfold set_process_group. apply quiet_preserves; [done|apply quiet_current_id|intros caller].
  apply find_preserves; [done|intros o Ho]. apply lift_preserves; [done|]. intros [slot p] ->%ok_or_some.
  destruct (_ && _); [apply spec_fail, (bad_state ps [] Hs)|]. by apply (put_other slot p); [|apply Ho|].
Qed.
Lemma take_signal_kept : kept (take_pending_signal_current cpu).
Proof using Type.
  apply preserves_intro. intros ps Hs. unfold take_pending_signal_current. apply quiet_preserves; [done|apply quiet_current_task|intros tid].
  apply find_preserves; [done|intros o Ho]. destruct o as [[slot p]|]; [|apply spec_ret, (bad_state ps [] Hs)].
  destruct (_ || _); [apply spec_ret, (bad_state ps [] Hs)|]. apply lift_preserves; [done|intros handler _].
  destruct (_ <=? _); [apply spec_ret, (bad_state ps [] Hs)|].
  apply (put_other_then slot p); [done|by apply Ho|done|by apply spec_ret].
Qed.
Lemma env_set_kept key value : kept (env_set cpu key value).
Proof using Type.
  apply preserves_intro. intros ps Hs. unfold env_set. apply with_process_preserves; [done|intros slot p Hi].
  destruct (Environment.set_checked key value (p_env p)) as [r e].
  apply (put_other_then slot p); [done|done|done|]. apply preserves_quiet, quiet_lift.
Qed.
Lemma mmap_kept length writable : kept (mmap_current cpu length writable).
Proof using Type.
  apply preserves_intro. intros ps Hs. unfold mmap_current. apply lift_preserves; [done|intros size _].
  apply with_process_preserves; [done|intros index p Hi]. apply lift_preserves; [done|intros slot _].
  apply lift_preserves; [done|intros space _]. apply quiet_preserves; [done|apply quiet_others|intros o].
  apply lift_preserves; [done|intros mapping _]. apply lookup_preserves; [done|intros q Hq].
  apply lift_preserves; [done|]. intros q' ->%ok_or_some. apply mjoin_some in Hq. apply lift_preserves; [done|intros old _].
  destruct (negb _).
  - apply quiet_preserves; [done|apply quiet_others|intros ?]. apply spec_fail, (bad_state ps [] Hs).
  - apply (put_other_then index q'); [done|done|done|by apply spec_ret].
Qed.
Lemma munmap_kept address length : kept (munmap_current cpu address length).
Proof using Type.
  apply preserves_intro. intros ps Hs. unfold munmap_current. apply lift_preserves; [done|intros size _].
  apply with_process_preserves; [done|intros index p Hi]. apply lift_preserves; [done|intros slot _].
  apply lift_preserves; [done|intros mapping _]. apply lift_preserves; [done|intros space _].
  apply quiet_preserves; [done|apply quiet_others|intros b]. destruct (negb b); [apply spec_fail, (bad_state ps [] Hs)|].
  apply lookup_preserves; [done|intros q Hq]. apply lift_preserves; [done|]. intros q' ->%ok_or_some. apply mjoin_some in Hq.
  by apply (put_other index q').
Qed.

(** ** Calls that name paths *)

Lemma quiet_registry {E T} f (m : M Vfs.Registry VfsPath.VError T) : quiet (on_registry f m : Io E T).
Proof using Type. apply quiet_vfs, keeps_registry. Qed.
Lemma quiet_gate c : quiet (gate cpu c : Io FileError unit).
Proof using Type. unfold gate. apply quiet_bind; [apply quiet_has|intros ?; apply quiet_guard]. Qed.
Lemma quiet_cwd {E} : quiet (current_cwd cpu : Io E Dir).
Proof using Type.
  unfold current_cwd. apply quiet_bind; [apply quiet_current_task|intros ?]. apply quiet_bind; [apply quiet_find|intros ?]. apply quiet_ret.
Qed.
Lemma quiet_resolve path : quiet (resolve_path_for_current cpu path : Io FileError _).
Proof using Type. unfold resolve_path_for_current. apply quiet_bind; [apply quiet_cwd|intros ?]. apply quiet_lift. Qed.
Lemma quiet_ensure path : quiet (ensure_existing_mnt_path path : Io FileError unit).
Proof using MountKeeps0.
  unfold ensure_existing_mnt_path. destruct (touches_mnt path); [|apply quiet_ret].
  apply quiet_bind; [apply quiet_mounted|intros m]. destruct (negb m); [apply quiet_fail|]. apply quiet_vfs, ensure_keeps.
Qed.
Lemma quiet_parent path : quiet (ensure_mnt_parent path : Io FileError unit).
Proof using MountKeeps0.
  unfold ensure_mnt_parent. destruct (parent_path_string path) as [q|]; [|apply quiet_ret].
  destruct (touches_mnt q); [apply quiet_ensure|apply quiet_ret].
Qed.
End other_calls.
#[export] Hint Resolve quiet_registry quiet_gate quiet_cwd quiet_resolve quiet_ensure quiet_parent : quiet.
#[export] Hint Resolve ensure_keeps persist_keeps delete_keeps rename_keeps : keeps.

Section path_calls.
Context {A P X F K : Type} `{Others A P X, Mount F K, Vfs.Frames F, Vfs.DiskFiles K, !MountKeeps F K}.
Context (stack_start : nat → Z) (cpu : nat).
#[local] Abbreviation Io := (M (World A P X F K)).
#[local] Abbreviation kept m := (preserves (A:=A) (P:=P) (X:=X) (F:=F) (K:=K) m).

Lemma quiet_mkdir path : quiet (mkdir_path cpu path : Io FileError unit).
Proof using MountKeeps0. unfold mkdir_path. quiet_all; eauto with quiet keeps. Qed.
Lemma quiet_unlink path : quiet (unlink_current cpu path : Io FileError unit).
Proof using MountKeeps0. unfold unlink_current. quiet_all; eauto with quiet keeps. Qed.
Lemma quiet_rename old new : quiet (rename_current cpu old new : Io FileError unit).
Proof using MountKeeps0. unfold rename_current. quiet_all; eauto with quiet keeps. Qed.
Lemma quiet_read d buf : quiet (read_current cpu d buf : Io FileError Transfer).
Proof using Type. unfold read_current. quiet_all; eauto with quiet keeps. Qed.
Lemma quiet_write d buf : quiet (write_current cpu d buf : Io FileError Transfer).
Proof using Type. unfold write_current. quiet_all; eauto with quiet keeps. Qed.
Lemma quiet_seek d off : quiet (seek_current cpu d off : Io FileError nat).
Proof using Type. unfold seek_current. quiet_all; eauto with quiet keeps. Qed.
Lemma quiet_stat path : quiet (stat_path cpu path : Io FileError Vfs.Stat).
Proof using MountKeeps0. unfold stat_path. quiet_all; eauto with quiet keeps. Qed.
Lemma quiet_readdir path index : quiet (readdir_path cpu path index : Io FileError Vfs.DirEntry).
Proof using MountKeeps0. unfold readdir_path. quiet_all; eauto with quiet keeps. Qed.

Lemma chdir_kept path : kept (chdir_current cpu path).
Proof using MountKeeps0.
  apply preserves_intro. intros ps Hs. unfold chdir_current.
  apply quiet_preserves; [done|apply quiet_gate|intros ?]. apply quiet_preserves; [done|apply quiet_resolve|intros q].
  apply quiet_preserves; [done|apply quiet_ensure|intros ?]. apply quiet_preserves; [done|apply quiet_registry|intros st].
  destruct (negb _); [apply spec_fail, (bad_state ps [] Hs)|]. destruct (Nat.ltb _ _); [apply spec_fail, (bad_state ps [] Hs)|].
  apply with_process_preserves; [done|intros slot p Hi]. by apply (put_other slot p).
Qed.

Lemma try_open_spec {E} path ps (Bad : World A P X F K → Prop) :
  spec (state ps ps []) (try_vfs (Vfs.open path) : Io E _)
    (λ r w, match r with Ok id => state ps ps [File id] w | _ => state ps ps [] w end) Bad.
Proof using Type.
  intros w Hw. pose proof (open_file_spec path ps (state ps ps []) VfsPath.VError (λ e, e) (λ w Hw, Hw) w Hw) as Ho.
  unfold on_vfs in Ho. unfold try_vfs. destruct (Vfs.open path (vfs w)) as [[id|?|] s]; exact Ho.
Qed.

Lemma open_kept path : kept (open_current cpu path).
Proof using MountKeeps0.
  apply preserves_intro. intros ps Hs. unfold open_current. pose proof (bad_state (X:=X) (F:=F) (K:=K) ps [] Hs) as Hb.
  apply quiet_preserves; [done|apply quiet_gate|intros ?]. apply quiet_preserves; [done|apply quiet_resolve|intros q].
  apply quiet_preserves; [done| |intros ?]. { quiet_all; eauto with quiet keeps. }
  eapply spec_bind; [apply (try_open_spec q ps refs_ok)|]. intros r.
  apply (spec_bind _ _ _ (λ id, state ps ps [File id])).
  - destruct r as [id|?|]; [by apply spec_ret| |];
      (eapply spec_bind; [apply quiet_spec; [apply quiet_has|exact Hb]|intros b];
       eapply spec_bind; [apply quiet_spec; [apply quiet_guard|exact Hb]|intros ?];
       eapply spec_bind; [apply quiet_spec; [apply quiet_vfs, keeps_write_file|exact Hb]|intros ?];
       eapply spec_bind; [apply quiet_spec; [destruct (is_mnt_child q); [apply quiet_storage|apply quiet_ret]|exact Hb]|intros ?];
       by apply open_file_spec).
  - intros id. apply with_process_preserves; [done|intros slot p Hi]. by apply install_preserves.
Qed.
End path_calls.

(** ** Reachable states *)

Section reachable.
Context {A P X F K : Type} `{Others A P X, Mount F K, Vfs.Frames F, Vfs.DiskFiles K, !MountKeeps F K}.
Context (stack_start : nat → Z) (cpu : nat).
#[local] Abbreviation Wd := (World A P X F K).
#[local] Abbreviation Io := (M (World A P X F K)).
Implicit Types (w : Wd).

(** The calls that change the table of processes or what descriptors refer to;
    reads, writes and the calls that only name paths are among the other steps. *)
Inductive Call :=
| COpen (path : list byte) | CDup (d : nat) | CDup2 (old new : nat) | CPipe | CClose (d : nat)
| CSpawn (segments : Z * Z) (name : string) (program : @UserProgram A) | CFork | CExec (segments : Z * Z) (program : @UserProgram A)
| CExit (code : Z) | CWait (child : Z) | CKill (pid sig : Z) | CSigaction (sig handler : Z) | CSetGroup (pid pgid : Z)
| CTakeSignal | CEnvSet (key value : list byte) | CMmap (length : Z) (writable : bool) | CMunmap (address length : Z)
| CChdir (path : list byte) | CMkdir (path : list byte) | CUnlink (path : list byte) | CRename (old new : list byte)
| CRead (d : nat) (buf : list byte) | CWrite (d : nat) (buf : list byte) | CSeek (d offset : nat).

(** The state a call leaves when it returns, with a value or an error. *)
Definition returned {E T} (m : Io E T) (w : Wd) : option Wd := match m w with (Panic, _) => None | (_, w') => Some w' end.
Definition run_call (c : Call) : Wd → option Wd :=
  match c with
  | COpen path => returned (open_current cpu path)
  | CDup d => returned (dup_current cpu d)
  | CDup2 old new => returned (dup2_current cpu old new)
  | CPipe => returned (pipe_current cpu)
  | CClose d => returned (close_current cpu d)
  | CSpawn segments name program => returned (spawn_user_process stack_start cpu segments name program)
  | CFork => returned (fork_current stack_start cpu)
  | CExec segments program => returned (exec_current cpu segments program)
  | CExit code => returned (exit_current_process stack_start cpu code)
  | CWait child => returned (wait_process cpu child)
  | CKill pid sig => returned (kill_process cpu pid sig)
  | CSigaction sig handler => returned (sigaction_current cpu sig handler)
  | CSetGroup pid pgid => returned (set_process_group cpu pid pgid)
  | CTakeSignal => returned (take_pending_signal_current cpu)
  | CEnvSet key value => returned (env_set cpu key value)
  | CMmap length writable => returned (mmap_current cpu length writable)
  | CMunmap address length => returned (munmap_current cpu address length)
  | CChdir path => returned (chdir_current cpu path)
  | CMkdir path => returned (mkdir_path cpu path)
  | CUnlink path => returned (unlink_current cpu path)
  | CRename old new => returned (rename_current cpu old new)
  | CRead d buf => returned (read_current cpu d buf)
  | CWrite d buf => returned (write_current cpu d buf)
  | CSeek d offset => returned (seek_current cpu d offset)
  end.

(** A call, or a step of another component (the scheduler, a transfer on a
    pipe, a message, the kernel's own files) that leaves the processes as they
    are and takes no reference of theirs away. *)
Inductive step : Wd → Wd → Prop :=
| step_call c w w' : run_call c w = Some w' → step w w'
| step_elsewhere w w' : procs w' = procs w → (∀ fd, refs fd w ≤ refs fd w') → step w w'.

(** No process yet, no description and no pipe in use. *)
Definition boot_state (w : Wd) : Prop :=
  procs w = replicate MAX_PROCESSES None ∧ Vfs.files (vfs w) = Vfs.table_empty ∧ pipes w = Pipe.new.
Definition reachable (w : Wd) : Prop := ∃ w0, boot_state w0 ∧ rtc step w0 w.

Lemma preserves_returned {E T} (m : Io E T) w w' : preserves m → returned m w = Some w' → refs_ok w → refs_ok w'.
Proof using Type.
  intros Hm Hr Hw. specialize (Hm w Hw). unfold returned in Hr. destruct (m w) as [[a|e|] w1]; [by injection Hr as <-..|done].
Qed.

Lemma call_kept c w w' : run_call c w = Some w' → refs_ok w → refs_ok w'.
Proof using MountKeeps0.
  destruct c; cbn [run_call]; apply preserves_returned;
    first [ apply open_kept | apply dup_kept | apply dup2_kept | apply pipe_kept | apply close_kept | apply spawn_kept | apply fork_kept
          | apply exec_kept | apply exit_kept | apply wait_kept | apply kill_kept | apply sigaction_kept | apply set_group_kept
          | apply take_signal_kept | apply env_set_kept | apply mmap_kept | apply munmap_kept | apply chdir_kept
          | apply preserves_quiet; first [ apply quiet_mkdir | apply quiet_unlink | apply quiet_rename | apply quiet_read
                                         | apply quiet_write | apply quiet_seek ] ].
Qed.

Lemma boot_refs w : boot_state w → refs_ok w.
Proof using Type.
  intros (Hp & Hf & Hq). split; rewrite Hp.
  - split; [apply length_replicate|]. intros i p [? _]%lookup_replicate. done.
  - intros fd. assert (uses fd (replicate MAX_PROCESSES (None : option (Process A P))) = 0%nat) as -> by done. rewrite held_uses_nil.
    assert (∀ t id, t = Vfs.table_empty → 0 ≤ file_refs t id) as H0f.
    { intros t id ->. unfold file_refs, Vfs.table_empty. destruct (_ !! id) as [e|] eqn:He; [|done].
      by apply lookup_replicate in He as [-> _]. }
    assert (∀ id pp, Pipe.new !! id = Some pp → pp = Pipe.pipe_empty) as H0p by (intros id pp [? _]%lookup_replicate; done).
    destruct fd as [id|id|id]; simpl; [by apply H0f|..]; rewrite Hq; unfold reader_refs, writer_refs;
      destruct (Pipe.new !! id) as [pp|] eqn:He; try done; apply H0p in He as ->; done.
Qed.

Lemma reachable_refs w : reachable w → refs_ok w.
Proof using MountKeeps0.
  intros (w0 & Hb%boot_refs & Hr). induction Hr as [w|w w1 w2 Hs _ IH]; [done|]. apply IH.
  destruct Hs as [c w w1 Hc|w w1 Hp Hr]; [by eapply call_kept|].
  destruct Hb as [Hs Hl]. split; rewrite Hp; [done|]. intros fd. specialize (Hl fd). specialize (Hr fd). lia.
Qed.

(** What a descriptor refers to is in use, with a count of at least [n]. *)
Definition in_use (fd : FdKind) (n : nat) (w : Wd) : Prop :=
  match fd with
  | File id => ∃ e, Vfs.get_mut id (Vfs.files (vfs w)) = Ok e ∧ Z.of_nat n ≤ Vfs.refcount e
  | PipeRead id => ∃ pp, pipes w !! id = Some pp ∧ Pipe.occupied pp = true ∧ Z.of_nat n ≤ Pipe.readers pp
  | PipeWrite id => ∃ pp, pipes w !! id = Some pp ∧ Pipe.occupied pp = true ∧ Z.of_nat n ≤ Pipe.writers pp
  end.
Lemma in_use_refs fd n w : (0 < n)%nat → Z.of_nat n ≤ refs fd w → in_use fd n w.
Proof using Type.
  intros Hn Hr. destruct fd as [id|id|id]; simpl in *; unfold file_refs, reader_refs, writer_refs in Hr.
  - destruct (Vfs.files (vfs w) !! id) as [e|] eqn:He; [|lia]. destruct (Vfs.ooccupied e) eqn:Ho; [|lia].
    exists e. split; [|done]. unfold Vfs.get_mut. rewrite He. simpl. rewrite Ho.
    assert (0 <? Vfs.refcount e = true) as -> by (apply Z.ltb_lt; lia). done.
  - destruct (pipes w !! id) as [pp|]; [|lia]. destruct (Pipe.occupied pp) eqn:Ho; [|lia]. eauto.
  - destruct (pipes w !! id) as [pp|]; [|lia]. destruct (Pipe.occupied pp) eqn:Ho; [|lia]. eauto.
Qed.

Lemma uses_pos fd ps i (p : Process A P) d : ps !! i = Some (Some p) → p_files p !! d = Some (Some fd) → (0 < uses fd ps)%nat.
Proof using Type.
  intros Hi Hd. pose proof (uses_insert fd ps i None _ Hi) as Hu. simpl in Hu.
  assert (0 < table_uses fd (p_files p))%nat; [|lia]. pose proof (table_uses_update fd (p_files p) d None _ Hd) as Ht.
  rewrite !held_uses_option, bool_decide_eq_true_2, bool_decide_eq_false_2 in Ht by done. lia.
Qed.

End reachable.

(** ** A system that runs *)

Module Demo.
(** An address space is its number; there are no mappings, files or sockets. *)
#[export] Instance others : Others Z unit unit := {
  clone_address_space a _ x := (Some (a + 1), x); destroy _ x := (true, x); unmap_anonymous _ _ x := (true, x);
  map_anonymous _ _ _ _ x := (None, x); mapping_address _ := 0; mapping_size _ := 0; paging_root a := a;
  close_process_sockets _ x := x }.
#[export] Instance frames : Vfs.Frames unit := {
  fr_replace _ _ _ f := f; fr_update _ _ _ _ f := f; fr_overlay _ _ _ buf _ := buf }.
#[export] Instance disk : Vfs.DiskFiles unit := { read_disk_file _ _ buf k := (Err tt, buf, k) }.
#[export] Instance mount : Mount unit unit := {
  mnt_mounted _ := false; mark_mnt_dirty k := k; ensure_path _ := fail EnsureError.Unmounted;
  persist_directory _ := fail PersistError.Unmounted; delete_path _ := fail MutationError.Unmounted;
  rename_path _ _ := fail MutationError.Unmounted }.
#[export] Instance mount_keeps : MountKeeps unit unit.
Proof. split; done. Qed.

Abbreviation Wd := (World Z unit unit unit unit).
Definition stacks (slot : nat) : Z := Z.of_nat slot * 131072.
Definition kernel0 : Sched.Kernel :=
  Sched.mkKernel (snd (Sched.initialize stacks 0 (Some 7) Sched.scheduler_empty)) 2 (replicate 4 false) 0 0.
Definition w0 : Wd :=
  mkWorld kernel0 (replicate MAX_PROCESSES None) 1 (Vfs.mkFs (Vfs.mkRegistry [] [] []) Vfs.table_empty tt tt) Pipe.new
    Ipc.new 0 tt.
Definition program : @UserProgram Z := mkProgram (mkImage USER_REGION_START 4096 1 1) 100.
Definition after (c : Call) (w : Wd) : Wd := default w (run_call stacks 0 c w).
(** The kernel's task starts a process and yields to it; it makes a pipe and forks. *)
Definition yielded (w : Wd) : Wd := with_kernel (snd (Sched.yield_now stacks 0 (kernel w))) w.
Abbreviation started := (yielded (after (CSpawn (8, 16) "init" program) w0)).
Abbreviation piped := (after CPipe started).
Abbreviation forked := (after CFork piped).

Lemma after_step c w : is_Some (run_call stacks 0 c w) → step stacks 0 w (after c w).
Proof. intros [w' Hw]. apply (step_call _ _ c). unfold after. by rewrite Hw. Qed.
Example spawn_returns : is_Some (run_call stacks 0 (CSpawn (8, 16) "init" program) w0).
Proof. vm_compute. eauto. Qed.
Example pipe_returns : is_Some (run_call stacks 0 CPipe started).
Proof. vm_compute. eauto. Qed.
Example fork_returns : is_Some (run_call stacks 0 CFork piped).
Proof. vm_compute. eauto. Qed.
Lemma yield_step w : step stacks 0 w (yielded w).
Proof. by apply step_elsewhere. Qed.
Lemma started_reachable : reachable stacks 0 started.
Proof.
  exists w0. split; [done|]. eapply rtc_l; [apply after_step, spawn_returns|]. apply rtc_once, yield_step.
Qed.
Lemma forked_reachable : reachable stacks 0 forked.
Proof.
  destruct started_reachable as (w & Hb & Hr). exists w. split; [exact Hb|].
  eapply rtc_r; [eapply rtc_r; [exact Hr|apply after_step, pipe_returns]|apply after_step, fork_returns].
Qed.

(** The child's process is in slot 1; its descriptor 3 is one of two on the pipe. *)
Definition holds {T} (o : option (option T)) (f : T → bool) : bool := match o with Some (Some p) => f p | _ => false end.
Lemma found {T} (o : option (option T)) (f : T → bool) : holds o f = true → ∃ p, o = Some (Some p) ∧ f p = true.
Proof. destruct o as [[p|]|]; [|done..]. intros Hf. by exists p. Qed.
Definition on_pipe (w : Wd) (p : Process Z unit) : bool :=
  bool_decide (p_files p !! 3%nat = Some (Some (PipeRead 0))) && Nat.eqb (uses (PipeRead 0) (procs w)) 2.
Example child_checked : holds (procs forked !! 1%nat) (on_pipe forked) = true.
Proof. vm_compute. reflexivity. Qed.
Lemma child_found : ∃ p, procs forked !! 1%nat = Some (Some p) ∧ p_files p !! 3%nat = Some (Some (PipeRead 0)) ∧
  uses (PipeRead 0) (procs forked) = 2%nat.
Proof.
  destruct (found (procs forked !! 1%nat) (on_pipe forked) child_checked) as (p & Hi & [Hf%bool_decide_eq_true_1 Hu%Nat.eqb_eq]%andb_true_iff).
  exists p. exact (conj Hi (conj Hf Hu)).
Qed.

End Demo.
