(* ===== verification/ProcessExit.v ===== *)
(** * How processes end (kernel/src/task.rs)

    A parent collects its exited child: [wait_process] on every branch.  Then
    three places where the calls do not do what they are for: a process that
    exits while another one sleeps on its pipe never gets off the processor,
    [getpgrp] never returns, and a [dup] without a free descriptor leaves a
    reference nobody holds. *)
From stdpp Require Import list gmap.
From S2P Require Import Prelude Config Cwd Table Process ProcessRefs.
From S2P Require Vfs Pipe Ipc Sched.
From S2P Require Import ProcessCalls.

Section ends.
Context {A P X F K : Type} `{Others A P X, Mount F K, Vfs.Frames F, Vfs.DiskFiles K}.
Context (stack_start : nat → Z) (cpu : nat).
#[local] Abbreviation Proc := (Process A P).
#[local] Abbreviation Wd := (World A P X F K).
#[local] Abbreviation Io := (M (World A P X F K)).
Implicit Types (w : Wd) (p : Proc).

(** The task that runs on the processor. *)
Definition runs (w : Wd) (t : Sched.TaskControlBlock) : Prop :=
  Sched.task_count (Sched.sched (kernel w)) ≠ 0 ∧
  ∃ s, Sched.current_slot (Sched.sched (kernel w)) !! cpu = Some s ∧ Sched.tasks (Sched.sched (kernel w)) !! s = Some t.

Lemma with_same_sched k : Sched.with_sched (Sched.sched k) k = k.
Proof using Type. by destruct k. Qed.
Lemma with_same_kernel w : with_kernel (kernel w) w = w.
Proof using Type. by destruct w. Qed.

Lemma sched_current_task w t : runs w t → Sched.current_task cpu (kernel w) = (Ok t, kernel w).
Proof using Type.
  intros (_ & s & Hs & Ht). unfold Sched.current_task, mbind, M_bind, Sched.locked, Sched.current, Sched.task_at.
  rewrite Hs. simpl. rewrite with_same_sched, Ht. simpl. by rewrite with_same_sched.
Qed.
Lemma current_task_run {E} w t : runs w t → on_kernel (Sched.current_task cpu) w = (Ok t : res E _, w).
Proof using Type. intros Hr. unfold on_kernel. rewrite (sched_current_task w t Hr). by rewrite with_same_kernel. Qed.
Lemma current_task_id_run {E} w t hl : runs w t → SCHEDULER ∉ hl → current_task_id cpu hl w = (Ok (Sched.t_id t) : res E Z, w).
Proof using Type.
  intros Hr Hh. unfold current_task_id, acquire. rewrite bool_decide_eq_false_2 by done. rewrite bind_ret. unfold on_kernel.
  assert (Sched.current_task_id cpu (kernel w) = (Ok (Sched.t_id t), kernel w)) as ->; [|by rewrite with_same_kernel].
  unfold Sched.current_task_id, Sched.running. pose proof (sched_current_task w t Hr) as Hc. destruct Hr as [Hn _].
  unfold mbind at 1, M_bind at 1. rewrite bind_gets. apply Z.eqb_neq in Hn. rewrite Hn. simpl.
  unfold mbind, M_bind. by rewrite Hc.
Qed.
Lemma find_run {E} f w : find_by [] f w = (Ok (find_process f (procs w)) : res E _, w).
Proof using Type. done. Qed.

Lemma current_process_run {E} (e : E) w t slot p : runs w t → find_process (of_task (Sched.t_id t)) (procs w) = Some (slot, p) →
  current_process cpu e w = (Ok (slot, p), w).
Proof using Type.
  intros Hr Hf. unfold current_process. rewrite (bind_run _ _ _ _ _ (current_task_id_run w t [] Hr (not_elem_of_nil _))).
  cbv beta iota. rewrite (bind_run _ _ _ _ _ (find_run _ w)). cbv beta iota. by rewrite Hf.
Qed.
Lemma current_pid_run {E} w t slot p : runs w t → find_process (of_task (Sched.t_id t)) (procs w) = Some (slot, p) →
  current_process_id cpu [] w = (Ok (p_id p) : res E Z, w).
Proof using Type.
  intros Hr Hf. unfold current_process_id. rewrite (bind_run _ _ _ _ _ (current_task_id_run w t [] Hr (not_elem_of_nil _))).
  cbv beta iota. rewrite (bind_run _ _ _ _ _ (find_run _ w)). cbv beta iota. by rewrite Hf.
Qed.

(** ** Collecting a child *)

(** [wait_process] on every branch: no such child, a child that still runs, an
    exited one, whose slot and endpoint it frees. *)
Theorem wait_process_spec w t pslot parent child :
  runs w t → find_process (of_task (Sched.t_id t)) (procs w) = Some (pslot, parent) →
  match find_process (is_child child (p_id parent)) (procs w) with
  | None => wait_process cpu child w = (Err NoSuchChild, w)
  | Some (slot, p) =>
    if decide (p_state p = Exited) then
      p_files p = no_files → is_Some (Ipc.endpoint_index child (ipc w)) →
      ∃ w', wait_process cpu child w = (Ok (p_exit_code p), w') ∧ procs w' = <[slot := None]> (procs w) ∧
            ipc w' = (Ipc.unregister child (ipc w)).2
    else wait_process cpu child w = (Err StillRunning, w)
  end.
Proof using Type.
  intros Hr Hp. unfold wait_process. rewrite (bind_run _ _ _ _ _ (current_pid_run w t pslot parent Hr Hp)). cbv beta iota.
  rewrite (bind_run _ _ _ _ _ (find_run _ w)). cbv beta iota.
  destruct (find_process (is_child child (p_id parent)) (procs w)) as [[slot p]|]; [|done]. rewrite bind_lift. cbn [ok_or]. cbv beta iota.
  destruct (decide (p_state p = Exited)) as [He|He]; [|by rewrite bool_decide_eq_false_2].
  rewrite bool_decide_eq_true_2 by done. cbv beta iota delta [negb]. intros Hf [i Hi]. rewrite Hf.
  assert (release_file_table [PROCESS_TABLE] no_files w = (Ok no_files : res WaitError _, w)) as Hrel by done.
  rewrite (bind_run _ _ _ _ _ Hrel). cbv beta iota. unfold put_process. rewrite bind_modify. cbv beta.
  set (w1 := with_procs _ w).
  assert (attempt (on_ipc (λ _, NoSuchChild) (Ipc.unregister child)) w1 = (Ok (Ok tt), with_ipc (Ipc.unregister child (ipc w)).2 w1)) as Hun.
  { unfold attempt, on_ipc. change (ipc w1) with (ipc w). unfold Ipc.unregister. by rewrite Hi. }
  rewrite (bind_run _ _ _ _ _ Hun). cbv beta iota. change (assert (is_ok (Ok tt : res WaitError unit))) with (mret tt : Io WaitError unit).
  rewrite bind_ret, bind_modify. eexists. split; [done|]. split; [|done]. simpl. apply list_insert_insert_eq.
Qed.

(** ** An exit that never ends *)

Lemma panic_bind {E T U} (m : Io E T) (f : T → Io E U) w : (m w).1 = Panic → ((m ≫= f) w).1 = Panic.
Proof using Type. unfold mbind, M_bind. by destruct (m w) as [[]]. Qed.

(** A list with a sleeper cannot be woken under the scheduler's lock. *)
Lemma wake_held {E} hl l w t : SCHEDULER ∈ hl → Some t ∈ l → (wake_list hl l w : res E unit * Wd).1 = Panic.
Proof using Type.
  intros Hh. induction l as [|[id|] l IH]; intros Hin; [by apply not_elem_of_nil in Hin|..]; cbn [wake_list].
  - unfold acquire. by rewrite bool_decide_eq_true_2.
  - apply IH. by apply elem_of_cons in Hin as [?|].
Qed.

Definition no_pipe (files : FileTable) : Prop := ∀ fd, Some fd ∈ files → ∃ id, fd = File id.
Definition is_end (fd : FdKind) : Prop := ∀ id, fd ≠ File id.

Lemma release_end_run {E} hl fd : is_end fd → release_fd hl fd = (close_pipe hl (close_end fd) : Io E unit).
Proof using Type. intros He. destruct fd as [id|id|id]; [by destruct (He id)|done|done]. Qed.

Lemma release_held {E} hl before fd rest w t : SCHEDULER ∈ hl → no_pipe before → is_end fd →
  Some t ∈ (close_end fd (pipes w)).1 → (release_entries hl (before ++ Some fd :: rest) w : res E unit * Wd).1 = Panic.
Proof using Type.
  intros Hh. revert w. induction before as [|[x|] l IH]; intros w Hn He Hin; cbn [app release_entries].
  - rewrite release_end_run by done. unfold close_pipe. destruct (close_end fd (pipes w)) as [ws ts] eqn:Hc.
    unfold mbind, M_bind. rewrite Hc. pose proof (wake_held (E := E) hl ws (with_pipes ts w) t Hh Hin) as Hw.
    destruct (wake_list hl ws (with_pipes ts w)) as [[]]; done.
  - destruct (Hn x) as [id ->]; [by left|]. unfold release_fd. unfold mbind, M_bind, try_vfs.
    destruct (Vfs.close_open_file id (vfs w)) as [r s].
    assert ((release_entries hl (l ++ Some fd :: rest) (with_vfs s w) : res E unit * Wd).1 = Panic) as Hi
      by (apply IH; [intros y Hy; apply Hn; by right|done|done]).
    destruct r; [exact Hi|exact Hi|done].
  - apply IH; [|done|done]. intros y Hy. apply Hn. by right.
Qed.

Lemma on_not_kernel_run {E} w : ∃ r : res E nat, on_kernel (Sched.locked (Sched.not_kernel cpu)) w = (r, w) ∧ (r = Panic ∨ ∃ s, r = Ok s).
Proof using Type.
  unfold on_kernel, Sched.locked, Sched.not_kernel, mbind, M_bind, Sched.current, Sched.task_at.
  destruct (Sched.current_slot _ !! cpu) as [s|]; simpl; [|rewrite with_same_sched, with_same_kernel; eauto].
  destruct (Sched.tasks _ !! s) as [t|]; simpl; [|rewrite with_same_sched, with_same_kernel; eauto].
  destruct (_ =? _); simpl; rewrite with_same_sched, with_same_kernel; eauto.
Qed.


(** ** A question without an answer *)

(** [getpgrp]: the default of [unwrap_or] is computed while the guard of the
    process table lives, and asks for the table again. *)
Theorem getpgrp_never_returns w : (current_process_group cpu w).1 = Panic.
Proof using Type.
  unfold current_process_group. unfold mbind at 1, M_bind at 1.
  assert (∀ hl w', ∃ r : res FileError Z, (r = Panic ∨ ∃ id, r = Ok id) ∧ ∃ w'', current_task_id cpu hl w' = (r, w'')) as Htask.
  { intros hl w2. unfold current_task_id, acquire, mbind, M_bind. case_bool_decide; [by eauto|]. simpl. unfold on_kernel.
    destruct (Sched.current_task_id cpu (kernel w2)) as [[id|err|] k]; eexists; (split; [|eexists; reflexivity]); eauto. }
  destruct (Htask [] w) as (r & [->|[id ->]] & w1 & ->); [done|].
  rewrite (bind_run _ _ _ _ _ (find_run _ w1)). cbv beta iota. apply panic_bind. unfold current_process_id.
  unfold mbind at 1, M_bind at 1. destruct (Htask [PROCESS_TABLE] w1) as (r & [->|[id2 ->]] & w2 & ->); [done|]. done.
Qed.

(** ** A reference nobody holds *)

(** [dup] clones first and looks for a free descriptor afterwards: without one
    it fails, and the description's count stays one higher. *)
Theorem dup_leaks w t slot p d id e :
  runs w t → find_process (of_task (Sched.t_id t)) (procs w) = Some (slot, p) →
  descriptor_of (p_files p) d = Some (File id) → free_descriptor (p_files p) = None →
  Vfs.get_mut id (Vfs.files (vfs w)) = Ok e → Vfs.refcount e + 1 < 2 ^ 32 →
  ∃ w', dup_current cpu d w = (Err TooManyFiles, w') ∧ procs w' = procs w ∧ refs (File id) w' = refs (File id) w + 1.
Proof using Type.
  intros Hr Hp Hd Hfree He Hmax. unfold dup_current. rewrite (bind_run _ _ _ _ _ (current_process_run NoProcess w t slot p Hr Hp)).
  cbv beta iota. rewrite bind_lift, Hd. cbn [ok_or]. cbv beta iota.
  pose proof (clone_file_refs id (vfs w)) as Hc.
  assert (∃ s, Vfs.clone_open_file id (vfs w) = (Ok id, s)) as [s Hs].
  { unfold Vfs.clone_open_file, Vfs.on_files, Vfs.clone_id. rewrite He. unfold checked_add.
    apply Z.ltb_lt in Hmax. rewrite Hmax. eauto. }
  rewrite Hs in Hc. destruct Hc as [_ Hc].
  assert (clone_fd TooManyFiles (File id) w = (Ok (File id), with_vfs s w)) as Hcl.
  { unfold clone_fd, mbind, M_bind, on_vfs. by rewrite Hs. }
  rewrite (bind_run _ _ _ _ _ Hcl). cbv beta iota. unfold install. rewrite Hfree, bind_lift. cbn [ok_or].
  eexists. split; [done|]. split; [done|]. simpl. rewrite Hc, bool_decide_eq_true_2 by done. done.
Qed.
End ends.

(** ** The same system, later *)

Module ExitDemo.
Import Demo.
(** The parent keeps the pipe's writing end, and the child, task 3, sleeps in a read. *)
Definition asleep (w : Wd) : Wd :=
  with_pipes (alter (λ p, Pipe.set_read_waiters (Pipe.push_waiter (Pipe.read_waiters p) 3) p) 0%nat (pipes w)) w.
Abbreviation closed := (after (CClose 3) forked).
Abbreviation sleeping := (asleep closed).

Definition running (w : Wd) : option Sched.TaskControlBlock :=
  s ← Sched.current_slot (Sched.sched (kernel w)) !! 0%nat; Sched.tasks (Sched.sched (kernel w)) !! s.
Lemma running_runs w t : Sched.task_count (Sched.sched (kernel w)) =? 0 = false → running w = Some t → runs 0 w t.
Proof. intros Hn%Z.eqb_neq (s & Hs & Ht)%bind_Some. split; [done|]. eauto. Qed.

Definition scene (w : Wd) : bool :=
  match running w with
  | Some t =>
    negb (Sched.task_count (Sched.sched (kernel w)) =? 0) &&
    match find_process (of_task (Sched.t_id t)) (procs w) with
    | Some (_, p) =>
      bool_decide (p_files p = replicate 4 None ++ Some (PipeWrite 0) :: replicate 11 None)
      && bool_decide (Some 3 ∈ (close_end (PipeWrite 0) (pipes w)).1)
    | None => false
    end
  | None => false
  end.
Example scene_set : scene sleeping = true.
Proof. vm_compute. reflexivity. Qed.
Lemma scene_found w : scene w = true → ∃ t slot p, runs 0 w t ∧ find_process (of_task (Sched.t_id t)) (procs w) = Some (slot, p) ∧
  p_files p = replicate 4 None ++ Some (PipeWrite 0) :: replicate 11 None ∧ Some 3 ∈ (close_end (PipeWrite 0) (pipes w)).1.
Proof.
  unfold scene. destruct (running w) as [t|] eqn:Hr; [|done]. intros [Hn%negb_true_iff Hs]%andb_true_iff.
  destruct (find_process _ _) as [[slot p]|] eqn:Hp; [|done].
  apply andb_true_iff in Hs as [Hf%bool_decide_eq_true_1 Hw%bool_decide_eq_true_1].
  exists t, slot, p. split; [by apply running_runs|]. done.
Qed.


(** The child exits with code 5, the parent, process 1, runs again. *)
Abbreviation collectable := (yielded (after (CExit 5) (yielded (yielded forked)))).
Definition exited_child (w : Wd) : bool :=
  match running w with
  | Some t =>
    negb (Sched.task_count (Sched.sched (kernel w)) =? 0) &&
    match find_process (of_task (Sched.t_id t)) (procs w) with
    | Some (_, parent) =>
      match find_process (is_child 2 (p_id parent)) (procs w) with
      | Some (_, p) => bool_decide (p_state p = Exited) && bool_decide (p_files p = no_files) && (p_exit_code p =? 5)
                       && bool_decide (is_Some (Ipc.endpoint_index 2 (ipc w)))
      | None => false
      end
    | None => false
    end
  | None => false
  end.
Example child_exited : exited_child collectable = true.
Proof. vm_compute. reflexivity. Qed.
Lemma exited_found w : exited_child w = true → ∃ t pslot parent slot p,
  runs 0 w t ∧ find_process (of_task (Sched.t_id t)) (procs w) = Some (pslot, parent) ∧
  find_process (is_child 2 (p_id parent)) (procs w) = Some (slot, p) ∧
  p_state p = Exited ∧ p_files p = no_files ∧ p_exit_code p = 5 ∧ is_Some (Ipc.endpoint_index 2 (ipc w)).
Proof.
  unfold exited_child. destruct (running w) as [t|] eqn:Hr; [|done]. intros [Hn%negb_true_iff Hs]%andb_true_iff.
  destruct (find_process (of_task _) _) as [[pslot parent]|] eqn:Hp; [|done].
  destruct (find_process (is_child _ _) _) as [[slot p]|] eqn:Hc; [|done]. open_guards.
  exists t, pslot, parent, slot, p. apply Z.eqb_neq in Hn. pose proof (running_runs w t Hn Hr) as Hruns. by split_and!.
Qed.

Lemma wait_process_spec_witness :
  ∃ (w : Wd) t pslot parent, (runs 0 w t ∧ find_process (of_task (Sched.t_id t)) (procs w) = Some (pslot, parent)) ∧
    ∃ w', wait_process 0 2 w = (Ok 5, w').
Proof.
  destruct (exited_found collectable child_exited) as (t & pslot & parent & slot & p & Hr & Hp & Hc & He & Hf & Hx & Hi).
  exists collectable, t, pslot, parent. split; [exact (conj Hr Hp)|].
  pose proof (wait_process_spec 0 collectable t pslot parent 2 Hr Hp) as Hw. rewrite Hc in Hw.
  destruct (decide (p_state p = Exited)) as [_|Hn]; [|destruct (Hn He)].
  destruct (Hw Hf Hi) as (w' & Hw' & _). exists w'. rewrite Hw', Hx. exact eq_refl.
Defined.
End ExitDemo.
