(* ===== verification/Keyboard.v ===== *)
(** * The keyboard (kernel/src/keyboard.rs)

    The ring between the interrupt handler, which pushes scancodes, and the
    reader, which pops them without a lock; the decoder of the PS/2 set-1
    codes; and [read_bytes], which the standard input of a process reads.  The
    ring is a bounded queue however interrupts fall between the reader's
    accesses, a read returns what a plain recursion over the pending scancodes
    returns, and reads that are repeated deliver every key, in order. *)
From Stdlib Require Import Strings.Byte ZifyNat.
From S2P Require Import Prelude.

Definition SCANCODE_QUEUE_CAPACITY : nat := 64.

(** ** The scancode ring *)

Record ScancodeQueue := mkQueue { buffer : list byte; read_index : nat; write_index : nat }.
Definition queue_new : ScancodeQueue := mkQueue (replicate SCANCODE_QUEUE_CAPACITY x00) 0 0.

Definition push (scancode : byte) : M ScancodeQueue Empty_set unit := λ q,
  let next_index := ((write_index q + 1) mod SCANCODE_QUEUE_CAPACITY)%nat in
  if Nat.eqb next_index (read_index q) then (Ok tt, q) else
  match buffer q !! write_index q with
  | None => (Panic, q)
  | Some _ => (Ok tt, mkQueue (<[write_index q := scancode]> (buffer q)) (read_index q) next_index)
  end.

(** [pop] between its accesses to the shared fields: an interrupt may push
    before each step. *)
Inductive Pop := PopStart | PopRead (index : nat) | PopStore (index : nat) (scancode : byte) | PopDone (o : option byte).
Definition pop_step (pc : Pop) : M ScancodeQueue Empty_set Pop := λ q,
  match pc with
  | PopStart => (Ok (if Nat.eqb (read_index q) (write_index q) then PopDone None else PopRead (read_index q)), q)
  | PopRead i => (PopStore i <$> or_panic (buffer q !! i), q)
  | PopStore i b => (Ok (PopDone (Some b)), mkQueue (buffer q) ((i + 1) mod SCANCODE_QUEUE_CAPACITY) (write_index q))
  | PopDone o => (Ok (PopDone o), q)
  end.
(** Without an interrupt in between. *)
Definition pop : M ScancodeQueue Empty_set (option byte) :=
  pc ← pop_step PopStart;
  pc ← pop_step pc;
  pc ← pop_step pc;
  mret (match pc with PopDone o => o | _ => None end).

(** ** Decoding *)

Inductive Key := Char (c : byte) | Enter | Backspace | Tab | F1.

Definition normal_char (code : Z) : option byte :=
  match code with
  | 0x02 => Some "1"%byte | 0x03 => Some "2"%byte | 0x04 => Some "3"%byte | 0x05 => Some "4"%byte
  | 0x06 => Some "5"%byte | 0x07 => Some "6"%byte | 0x08 => Some "7"%byte | 0x09 => Some "8"%byte
  | 0x0A => Some "9"%byte | 0x0B => Some "0"%byte
  | 0x10 => Some "q"%byte | 0x11 => Some "w"%byte | 0x12 => Some "e"%byte | 0x13 => Some "r"%byte
  | 0x14 => Some "t"%byte | 0x15 => Some "y"%byte | 0x16 => Some "u"%byte | 0x17 => Some "i"%byte
  | 0x18 => Some "o"%byte | 0x19 => Some "p"%byte
  | 0x1E => Some "a"%byte | 0x1F => Some "s"%byte | 0x20 => Some "d"%byte | 0x21 => Some "f"%byte
  | 0x22 => Some "g"%byte | 0x23 => Some "h"%byte | 0x24 => Some "j"%byte | 0x25 => Some "k"%byte
  | 0x26 => Some "l"%byte
  | 0x2C => Some "z"%byte | 0x2D => Some "x"%byte | 0x2E => Some "c"%byte | 0x2F => Some "v"%byte
  | 0x30 => Some "b"%byte | 0x31 => Some "n"%byte | 0x32 => Some "m"%byte
  | 0x39 => Some " "%byte
  | 0x0C => Some "-"%byte | 0x0D => Some "="%byte | 0x33 => Some ","%byte | 0x34 => Some "."%byte
  | 0x35 => Some "/"%byte
  | _ => None
  end.

(** [to_ascii_uppercase] *)
Definition to_ascii_uppercase (c : byte) : byte :=
  if (97 <=? byte_z c) && (byte_z c <=? 122) then z_byte (byte_z c - 32) else c.

Definition shifted_char (normal : byte) : byte :=
  if (97 <=? byte_z normal) && (byte_z normal <=? 122) then to_ascii_uppercase normal else
  match normal with
  | "1" => "!" | "2" => "@" | "3" => "#" | "4" => "$" | "5" => "%" | "6" => "^" | "7" => "&"
  | "8" => "*" | "9" => "(" | "0" => ")"
  | "-" => "_" | "=" => "+" | "," => "<" | "." => ">" | "/" => "?"
  | other => other
  end%byte.

Definition decode_scancode (code : Z) (shift : bool) : option byte :=
  normal ← normal_char code;
  Some (if shift then shifted_char normal else normal).

(** The method of [Keyboard], whose only field is [shift]. *)
Definition decode (scancode : byte) (shift : bool) : option Key * bool :=
  let code := byte_z scancode in
  if negb (Z.land code 0x80 =? 0) then (None, if (code =? 0xAA) || (code =? 0xB6) then false else shift)
  else if (code =? 0x2A) || (code =? 0x36) then (None, true)
  else if code =? 0x1C then (Some Enter, shift)
  else if code =? 0x0E then (Some Backspace, shift)
  else if code =? 0x0F then (Some Tab, shift)
  else if code =? 0x3B then (Some F1, shift)
  else (Char <$> decode_scancode code shift, shift).

Definition keyboard_self_test : bool :=
  match decode x1e false with
  | (Some (Char "a"%byte), s) =>
    match decode x2a s with
    | (None, s) =>
      match decode x1e s with
      | (Some (Char "A"%byte), s) =>
        match decode xaa s with
        | (None, s) => match decode x1c s with (Some Enter, _) => true | _ => false end
        | _ => false
        end
      | _ => false
      end
    | _ => false
    end
  | _ => false
  end.

(** ** Reading *)

(** The ports 0x60 and 0x64 of the controller, of state [H]: the status byte,
    and the data byte, which reading consumes. *)
Class Ports (H : Type) := { status_port : H → Z; data_port : H → byte * H }.

Record Keyboard (H : Type) := mkKeyboard { SCANCODES : ScancodeQueue; shift : bool; ports : H }.
Arguments mkKeyboard {H}. Arguments SCANCODES {H}. Arguments shift {H}. Arguments ports {H}.

Section keyboard.
Context {H : Type} `{Ports H}.
#[local] Abbreviation Io := (M (Keyboard H) Empty_set).

Definition on_queue {T} (m : M ScancodeQueue Empty_set T) : Io T := λ k,
  let '(r, q) := m (SCANCODES k) in (r, mkKeyboard q (shift k) (ports k)).
Definition on_decoder (scancode : byte) : Io (option Key) := λ k,
  let '(o, s) := decode scancode (shift k) in (Ok o, mkKeyboard (SCANCODES k) s (ports k)).
Definition read_data : Io byte := λ k,
  let '(b, h) := data_port (ports k) in (Ok b, mkKeyboard (SCANCODES k) (shift k) h).

Definition poll_legacy : Io (option Key) :=
  status ← gets (λ k, status_port (ports k));
  if Z.land status 1 =? 0 then mret None else
  scancode ← read_data;
  on_decoder scancode.

(** [interrupts]: whether they are enabled. *)
Definition poll (interrupts : bool) : Io (option Key) :=
  o ← on_queue pop;
  match o with
  | Some scancode => on_decoder scancode
  | None => if negb interrupts then poll_legacy else mret None
  end.

(** The byte [read_bytes] stores for a key. *)
Definition key_byte (k : Key) : option byte :=
  match k with
  | Char c => if byte_z c <? 128 then Some c else None
  | Enter => Some x0a | Backspace => Some x08 | Tab => Some x09 | F1 => None
  end.

(** The loop of [read_bytes], [out] being what it has stored. *)
Fixpoint read_loop (fuel : nat) (interrupts : bool) (len : nat) (out : list byte) : Io (list byte) :=
  match fuel with
  | O => lift Panic
  | S fuel =>
    if Nat.ltb (length out) len then
      o ← poll interrupts;
      match o with
      | None => mret out
      | Some key => read_loop fuel interrupts len (match key_byte key with Some b => out ++ [b] | None => out end)
      end
    else mret out
  end.
Definition read_bytes (fuel : nat) (interrupts : bool) (len : nat) : Io (list byte) := read_loop fuel interrupts len [].

Definition handle_interrupt : Io unit :=
  status ← gets (λ k, status_port (ports k));
  if (Z.land status 0x01 =? 0) || negb (Z.land status 0x20 =? 0) then mret tt else
  scancode ← read_data;
  on_queue (push scancode).

Fixpoint inject_validation_input (count : nat) : Io unit :=
  match count with
  | O => mret tt
  | S count => _ ← on_queue (push x1e); inject_validation_input count
  end.
End keyboard.

(** ** The ring is a bounded queue *)

#[export] Instance byte_inhabited : Inhabited byte := populate x00.

Definition stored (q : ScancodeQueue) : nat := ((write_index q + SCANCODE_QUEUE_CAPACITY - read_index q) mod SCANCODE_QUEUE_CAPACITY)%nat.
Definition entry (q : ScancodeQueue) (i : nat) : byte := buffer q !!! ((read_index q + i) mod SCANCODE_QUEUE_CAPACITY)%nat.
Definition contents (q : ScancodeQueue) : list byte := entry q <$> seq 0 (stored q).

(** A queue of 63 places drops what does not fit. *)
Definition spec_push (c : byte) (sent : list byte) (queued : list byte) : list byte :=
  if Nat.ltb (length queued) (SCANCODE_QUEUE_CAPACITY - 1) then sent ++ [c] else sent.
Definition popped (pc : Pop) : list byte := match pc with PopDone (Some b) => [b] | _ => [] end.
Definition at_rest (pc : Pop) : bool := match pc with PopDone _ => true | _ => false end.

(** All interleavings of the handler's pushes with one reader: the codes a
    bounded queue accepts, and those the reader got. *)
Inductive ring : ScancodeQueue → Pop → list byte → list byte → Prop :=
| ring_new : ring queue_new PopStart [] []
| ring_push q pc sent got c q' r : ring q pc sent got → push c q = (r, q') → ring q' pc (spec_push c sent (contents q)) got
| ring_call q o sent got : ring q (PopDone o) sent got → ring q PopStart sent got
| ring_step q pc sent got r q' : ring q pc sent got → at_rest pc = false → pop_step pc q = (r, q') →
    ring q' (match r with Ok pc' => pc' | _ => pc end) sent (got ++ match r with Ok pc' => popped pc' | _ => [] end).

Record ring_ok (q : ScancodeQueue) : Prop := {
  ring_length : length (buffer q) = SCANCODE_QUEUE_CAPACITY;
  ring_read : (read_index q < SCANCODE_QUEUE_CAPACITY)%nat;
  ring_write : (write_index q < SCANCODE_QUEUE_CAPACITY)%nat }.

Definition pop_ok (pc : Pop) (q : ScancodeQueue) : Prop :=
  match pc with
  | PopRead i => i = read_index q ∧ stored q ≠ 0%nat
  | PopStore i b => i = read_index q ∧ head (contents q) = Some b
  | _ => True
  end.

Lemma length_scancodes q : length (contents q) = stored q.
Proof. unfold contents. by rewrite length_fmap, length_seq. Qed.

Ltac ring_lia := unfold stored, SCANCODE_QUEUE_CAPACITY in *; cbn [buffer read_index write_index] in *; zify; Z.to_euclidean_division_equations; lia.

Lemma stored_lt q : (stored q < SCANCODE_QUEUE_CAPACITY)%nat.
Proof. apply Nat.mod_upper_bound. done. Qed.

Lemma entry_lookup q i : ring_ok q → buffer q !! ((read_index q + i) mod SCANCODE_QUEUE_CAPACITY)%nat = Some (entry q i).
Proof.
  intros [Hl _ _]. unfold entry. apply list_lookup_lookup_total_lt. rewrite Hl. by apply Nat.mod_upper_bound.
Qed.

Lemma stored_write q : ring_ok q → write_index q = ((read_index q + stored q) mod SCANCODE_QUEUE_CAPACITY)%nat.
Proof. intros [_ Hr Hw]. ring_lia. Qed.

Lemma mod_shift_ne r i n : (i < n < 64)%nat → ((r + i) mod 64 ≠ (r + n) mod 64)%nat.
Proof. intros. zify; Z.to_euclidean_division_equations; lia. Qed.

Lemma push_effect c q : ring_ok q → ∃ q', push c q = (Ok tt, q') ∧ ring_ok q' ∧ read_index q' = read_index q ∧
  contents q' = if Nat.ltb (length (contents q)) (SCANCODE_QUEUE_CAPACITY - 1) then contents q ++ [c] else contents q.
Proof.
  intros Hok. pose proof (stored_write q Hok) as Hw. pose proof (stored_lt q) as Hlt. pose proof Hok as [Hl Hr Hwr].
  unfold push. rewrite length_scancodes.
  destruct (Nat.eqb_spec ((write_index q + 1) mod SCANCODE_QUEUE_CAPACITY) (read_index q)) as [E|E].
  { exists q. split_and!; [done..|].
    destruct (Nat.ltb_spec (stored q) (SCANCODE_QUEUE_CAPACITY - 1)); [|done]. exfalso. ring_lia. }
  destruct (buffer q !! write_index q) eqn:Eb; [|apply lookup_ge_None in Eb; lia].
  eexists. split; [done|]. set (q' := mkQueue _ _ _).
  assert (Hok' : ring_ok q').
  { split; cbn [q' buffer read_index write_index]; [by rewrite length_insert|done|]. by apply Nat.mod_upper_bound. }
  assert (Hn : (stored q < SCANCODE_QUEUE_CAPACITY - 1)%nat ∧ stored q' = S (stored q)) by (subst q'; split; ring_lia).
  destruct Hn as [Hn Hs]. split_and!; [done..|].
  destruct (Nat.ltb_spec (stored q) (SCANCODE_QUEUE_CAPACITY - 1)); [|lia].
  unfold contents. rewrite Hs, seq_S, fmap_app. f_equal.
  - apply list_fmap_ext. intros k i [-> Hi]%lookup_seq. unfold entry. cbn [q' buffer read_index].
    rewrite list_lookup_total_insert_ne; [done|]. rewrite Hw. intros Hx. symmetry in Hx. revert Hx. apply mod_shift_ne.
    unfold SCANCODE_QUEUE_CAPACITY in *. lia.
  - cbn [fmap list_fmap Nat.add]. unfold entry. cbn [q' buffer read_index]. rewrite <-Hw. f_equal. apply list_lookup_total_insert_eq. lia.
Qed.

Lemma contents_head q : ring_ok q → stored q ≠ 0%nat → ∃ l, contents q = entry q 0 :: l.
Proof. intros _ H. unfold contents. destruct (stored q); [done|]. by eexists. Qed.

Lemma advance_effect q b : ring_ok q → head (contents q) = Some b →
  ∃ l, contents q = b :: l ∧
  let q' := mkQueue (buffer q) ((read_index q + 1) mod SCANCODE_QUEUE_CAPACITY) (write_index q) in ring_ok q' ∧ contents q' = l.
Proof.
  intros Hok Hb. pose proof Hok as [Hl Hr Hw]. set (q' := mkQueue _ _ _).
  assert (Hs : stored q = S (stored q')).
  { pose proof (length_scancodes q). destruct (contents q) eqn:E; [done|]. cbn [length] in H. subst q'. ring_lia. }
  assert (Hc : contents q = entry q 0 :: contents q').
  { unfold contents. rewrite Hs. cbn [seq fmap list_fmap]. f_equal. rewrite <-seq_shift, <-list_fmap_compose.
    apply list_fmap_ext. intros k i _. cbn. unfold entry. cbn [q' buffer read_index]. f_equal.
    unfold SCANCODE_QUEUE_CAPACITY. rewrite Nat.Div0.add_mod_idemp_l. f_equal. lia. }
  exists (contents q'). rewrite Hc in Hb |- *. injection Hb as <-.
  split; [done|]. split; [|done]. split; cbn [q' buffer read_index write_index]; [done| |done]. by apply Nat.mod_upper_bound.
Qed.

Lemma empty_indices q : ring_ok q → contents q = [] ↔ read_index q = write_index q.
Proof.
  intros []. rewrite <-length_zero_iff_nil, length_scancodes. split; intros; ring_lia.
Qed.

Lemma pop_step_ok pc q : ring_ok q → pop_ok pc q → at_rest pc = false →
  ∃ pc' q', pop_step pc q = (Ok pc', q') ∧ ring_ok q' ∧ pop_ok pc' q' ∧ contents q = popped pc' ++ contents q'.
Proof.
  intros Hok Hpc Hrest. destruct pc as [|i|i b|o]; [| | |done]; cbn in Hpc.
  - cbn. destruct (Nat.eqb_spec (read_index q) (write_index q)) as [E|E]; eexists _, _; split_and!; try done.
    cbn [pop_ok]. split; [done|]. destruct Hok. ring_lia.
  - destruct Hpc as [-> Hs]. destruct (contents_head q Hok Hs) as [l Hc].
    pose proof (entry_lookup q 0 Hok) as He. rewrite Nat.add_0_r, Nat.mod_small in He by apply Hok.
    cbn. rewrite He. eexists _, _. split_and!; try done. cbn [pop_ok]. by rewrite Hc.
  - destruct Hpc as [-> Hb]. destruct (advance_effect q b Hok Hb) as (l & Hc & Hok' & Hc').
    eexists _, _. split_and!; [done..|]. cbn [popped]. by rewrite Hc, Hc'.
Qed.

Lemma push_keeps_pop c q q' pc : ring_ok q → push c q = (Ok tt, q') → pop_ok pc q → pop_ok pc q'.
Proof.
  intros Hok Hp Hpc. destruct (push_effect c q Hok) as (q1 & Hp1 & _ & Hr & Hc). rewrite Hp in Hp1. injection Hp1 as ->.
  destruct pc as [|i|i b|]; try done; cbn [pop_ok] in *; rewrite Hr; destruct Hpc as [-> Hs]; (split; [done|]).
  - rewrite <-length_scancodes in Hs |- *. rewrite Hc. destruct (Nat.ltb _ _); [|done]. rewrite length_app. lia.
  - rewrite Hc. destruct (Nat.ltb _ _); [|done]. by destruct (contents q).
Qed.

Lemma queue_new_ok : ring_ok queue_new.
Proof. split; [done| |]; cbv; lia. Qed.

Lemma ring_inv q pc sent got : ring q pc sent got → ring_ok q ∧ pop_ok pc q ∧ sent = got ++ contents q.
Proof.
  induction 1 as [|q pc sent got c q' r _ (Hok & Hpc & ->) Hp|q o sent got _ IH|q pc sent got r q' _ (Hok & Hpc & ->) Hrest Hp].
  - split_and!; [exact queue_new_ok|done|done].
  - destruct (push_effect c q Hok) as (q1 & Hp1 & Hok' & _ & Hc). rewrite Hp in Hp1. injection Hp1 as -> ->.
    split_and!; [done|by apply (push_keeps_pop c q)|]. unfold spec_push. rewrite Hc.
    destruct (Nat.ltb _ _); [by rewrite app_assoc|done].
  - naive_solver.
  - destruct (pop_step_ok pc q Hok Hpc Hrest) as (pc' & q1 & Hp1 & Hok' & Hpc' & Hc). rewrite Hp in Hp1. injection Hp1 as -> ->.
    split_and!; [done..|]. by rewrite Hc, app_assoc.
Qed.

(** C24: the lock-free ring of scancodes is a queue of 63 places, wherever
    interrupts fall between the accesses of the reader: the codes read so far
    followed by those in the ring are the codes a bounded queue accepts, in
    order; neither side panics; the handler drops a code only when 63 are stored,
    and the reader finds the ring empty only when it is. *)
Theorem scancodes_fifo q pc sent got (H : ring q pc sent got) :
  sent = got ++ contents q ∧ (length (contents q) ≤ 63)%nat ∧
  (∀ c, no_panic (push c q).1 ∧
        contents (push c q).2 = if Nat.ltb (length (contents q)) 63 then contents q ++ [c] else contents q) ∧
  no_panic (pop_step pc q).1 ∧
  ((pop_step PopStart q).1 = Ok (PopDone None) ↔ contents q = []).
Proof.
  destruct (ring_inv _ _ _ _ H) as (Hok & Hpc & Hs). split_and!.
  - done.
  - rewrite length_scancodes. pose proof (stored_lt q). unfold SCANCODE_QUEUE_CAPACITY in *. lia.
  - intros c. destruct (push_effect c q Hok) as (q' & -> & _ & _ & Hc). done.
  - destruct (at_rest pc) eqn:E; [by destruct pc|]. destruct (pop_step_ok pc q Hok Hpc E) as (? & ? & -> & _). done.
  - rewrite empty_indices by done. cbn [pop_step fst]. by destruct (Nat.eqb_spec (read_index q) (write_index q)).
Qed.

(** ** Reading *)

(** What the controller promises: bit 0 of the status says that a byte is
    there, and reading the data port takes the oldest one. *)
Class PortsLaws (H : Type) `{Ports H} := {
  waiting : H → list byte;
  status_law h : Z.land (status_port h) 1 =? 0 = bool_decide (waiting h = []);
  data_law h b l : waiting h = b :: l → ∃ h', data_port h = (b, h') ∧ waiting h' = l }.

(** [read_bytes] on the list of pending codes: a code that is no key ends it. *)
Fixpoint typed (len : nat) (shift : bool) (codes : list byte) : list byte * bool * list byte :=
  match codes, len with
  | [], _ | _, O => ([], shift, codes)
  | c :: codes, S len' =>
    match decode c shift with
    | (None, s) => ([], s, codes)
    | (Some k, s) =>
      match key_byte k with
      | Some b => let '(out, s, codes) := typed len' s codes in (b :: out, s, codes)
      | None => typed len s codes
      end
    end
  end.

(** Every byte the codes stand for. *)
Fixpoint characters (shift : bool) (codes : list byte) : list byte :=
  match codes with
  | [] => []
  | c :: codes => let '(o, s) := decode c shift in option_list (o ≫= key_byte) ++ characters s codes
  end.

Lemma typed_characters len s codes : let '(out, s', rest) := typed len s codes in
  out ++ characters s' rest = characters s codes ∧ (length rest ≤ length codes)%nat ∧
  (len ≠ O → codes ≠ [] → (length rest < length codes)%nat).
Proof.
  revert len s. induction codes as [|c codes IH]; intros [|len] s; cbn [typed characters]; [split_and!; done..|by split_and!; try lia|].
  destruct (decode c s) as [[k|] s'] eqn:E; [|cbn; split_and!; [done|lia..]].
  cbn [mbind option_bind]. destruct (key_byte k) as [b|].
  - specialize (IH len s'). destruct (typed len s' codes) as [[out s2] rest]. destruct IH as (<- & Hl & _).
    cbn. split_and!; [done|lia..].
  - specialize (IH (S len) s'). destruct (typed (S len) s' codes) as [[out s2] rest]. destruct IH as (<- & Hl & _).
    cbn. split_and!; [done|lia..].
Qed.

Section reading.
Context {H : Type} `{PortsLaws H} (interrupts : bool).

Definition pending (k : Keyboard H) : list byte :=
  contents (SCANCODES k) ++ (if interrupts then [] else waiting (ports k)).
Definition keyboard_ok (k : Keyboard H) : Prop := ring_ok (SCANCODES k).

Lemma pop_effect q : ring_ok q → ∃ q', pop q = (Ok (head (contents q)), q') ∧ ring_ok q' ∧ contents q' = tail (contents q).
Proof.
  intros Hok. unfold pop.
  destruct (pop_step_ok PopStart q Hok I eq_refl) as (pc1 & q1 & E1 & Hok1 & Hp1 & Hc1).
  rewrite (bind_run _ _ _ _ _ E1).
  assert (Hq : q1 = q) by (cbn in E1; destruct (Nat.eqb _ _); by injection E1). subst q1.
  destruct pc1 as [|i|i b|[b|]].
  - cbn in E1. by destruct (Nat.eqb _ _).
  - destruct (pop_step_ok _ _ Hok1 Hp1 eq_refl) as (pc2 & q2 & E2 & Hok2 & Hp2 & Hc2).
    rewrite (bind_run _ _ _ _ _ E2). cbn in E2. destruct (buffer q !! i); [|done]. injection E2 as <- <-.
    destruct (pop_step_ok _ _ Hok2 Hp2 eq_refl) as (pc3 & q3 & E3 & Hok3 & Hp3 & Hc3).
    rewrite (bind_run _ _ _ _ _ E3). cbn in E3. injection E3 as <- <-.
    eexists. split; [|split; [exact Hok3|]]; by rewrite Hc3.
  - cbn in E1. by destruct (Nat.eqb _ _).
  - cbn in E1. by destruct (Nat.eqb _ _).
  - cbn in E1. destruct (Nat.eqb_spec (read_index q) (write_index q)) as [E|E]; [|done].
    exists q. rewrite (proj2 (empty_indices q Hok) E). by split_and!.
Qed.

Lemma poll_effect k : keyboard_ok k →
  match pending k with
  | [] => ∃ k', poll interrupts k = (Ok None, k') ∧ keyboard_ok k' ∧ shift k' = shift k ∧ pending k' = []
  | c :: l => let '(o, s) := decode c (shift k) in
              ∃ k', poll interrupts k = (Ok o, k') ∧ keyboard_ok k' ∧ shift k' = s ∧ pending k' = l
  end.
Proof.
  intros Hok. destruct (pop_effect (SCANCODES k) Hok) as (q' & Hp & Hok' & Hc).
  assert (Hq : on_queue pop k = (Ok (head (contents (SCANCODES k))), mkKeyboard q' (shift k) (ports k)))
    by (unfold on_queue; by rewrite Hp).
  unfold poll. rewrite (bind_run _ _ _ _ _ Hq). unfold pending at 1.
  destruct (contents (SCANCODES k)) as [|c l]; cbn [head tail app] in *.
  - destruct interrupts eqn:Ei; cbn [negb].
    { eexists. split_and!; [done..|]. unfold pending. cbn [SCANCODES ports]. by rewrite Hc, Ei. }
    unfold poll_legacy. rewrite bind_gets. cbn [ports]. rewrite status_law.
    destruct (waiting (ports k)) as [|c l] eqn:Ew; cbn [app].
    { eexists. split_and!; [done..|]. unfold pending. cbn [SCANCODES ports]. by rewrite Hc, Ei. }
    rewrite bool_decide_eq_false_2 by done. destruct (data_law _ _ _ Ew) as (h' & Hd & Hw).
    assert (Hr : read_data (mkKeyboard q' (shift k) (ports k)) = (@Ok Empty_set _ c, mkKeyboard q' (shift k) h'))
      by (unfold read_data; cbn; by rewrite Hd).
    rewrite (bind_run _ _ _ _ _ Hr). unfold on_decoder. cbn [shift].
    destruct (decode c (shift k)) as [o s]. eexists. split_and!; [done..|]. unfold pending. cbn [SCANCODES ports]. by rewrite Hc, Ei, Hw.
  - unfold on_decoder. cbn [shift].
    destruct (decode c (shift k)) as [o s]. eexists. split_and!; [done..|]. unfold pending. cbn [SCANCODES ports]. by rewrite Hc.
Qed.

Lemma read_loop_typed fuel n out k : keyboard_ok k → (length (pending k) < fuel)%nat →
  ∃ k', let '(more, s, rest) := typed n (shift k) (pending k) in
  read_loop fuel interrupts (length out + n) out k = (Ok (out ++ more), k') ∧ keyboard_ok k' ∧ shift k' = s ∧ pending k' = rest.
Proof.
  revert n out k. induction fuel as [|fuel IH]; intros n out k Hok Hf; [lia|]. cbn [read_loop].
  destruct n as [|n].
  { exists k. rewrite Nat.add_0_r, Nat.ltb_irrefl. destruct (pending k); cbn; by rewrite app_nil_r. }
  destruct (Nat.ltb_spec (length out) (length out + S n)); [|lia].
  pose proof (poll_effect k Hok) as Hpoll. destruct (pending k) as [|c l] eqn:Ep.
  { destruct Hpoll as (k' & Hp & Hok' & Hs & Hl). exists k'. cbn. rewrite (bind_run _ _ _ _ _ Hp), app_nil_r. by split_and!. }
  cbn [typed]. destruct (decode c (shift k)) as [[key|] s]; destruct Hpoll as (k' & Hp & Hok' & Hs & Hl).
  - cbn [length] in Hf. rewrite (bind_run _ _ _ _ _ Hp). destruct (key_byte key) as [b|].
    + destruct (IH n (out ++ [b]) k' Hok') as (k2 & Hk2); [rewrite Hl; lia|]. exists k2.
      rewrite Hl, Hs in Hk2. destruct (typed n s l) as [[more s2] rest].
      rewrite length_app, <-app_assoc, <-Nat.add_assoc in Hk2. exact Hk2.
    + destruct (IH (S n) out k' Hok') as (k2 & Hk2); [rewrite Hl; lia|]. exists k2. by rewrite Hl, Hs in Hk2.
  - exists k'. rewrite (bind_run _ _ _ _ _ Hp), app_nil_r. by split_and!.
Qed.

(** A read returns what the recursion over the pending codes returns. *)
Lemma read_bytes_typed fuel n k : keyboard_ok k → (length (pending k) < fuel)%nat →
  ∃ k', let '(out, s, rest) := typed n (shift k) (pending k) in
  read_bytes fuel interrupts n k = (Ok out, k') ∧ keyboard_ok k' ∧ shift k' = s ∧ pending k' = rest.
Proof. apply (read_loop_typed fuel n []). Qed.

(** Reads with buffers of the given sizes, one after the other. *)
Fixpoint reads (fuel : nat) (sizes : list nat) : M (Keyboard H) Empty_set (list byte) :=
  match sizes with
  | [] => mret []
  | n :: sizes => out ← read_bytes fuel interrupts n; rest ← reads fuel sizes; mret (out ++ rest)
  end.

(** C25: no key is lost or reordered: reads into non-empty buffers, whatever their
    sizes, together return every byte the pending scancodes stand for, once
    there is a read per pending code; none of them panics or runs out of
    fuel.  (One read may return less than its buffer holds although keys are
    pending: the code of a shift key or of a release ends it.) *)
Theorem keys_all_delivered fuel sizes k (Hok : keyboard_ok k) (Hfuel : (length (pending k) < fuel)%nat)
    (Hpos : Forall (λ n, n ≠ O) sizes) (Hmany : (length (pending k) ≤ length sizes)%nat) :
  ∃ k', reads fuel sizes k = (Ok (characters (shift k) (pending k)), k') ∧ pending k' = [].
Proof.
  revert k Hok Hfuel Hmany. induction Hpos as [|n sizes Hn _ IH]; intros k Hok Hfuel Hmany; cbn [reads].
  { exists k. destruct (pending k); [done|cbn in Hmany; lia]. }
  destruct (read_bytes_typed fuel n k Hok Hfuel) as (k' & Hr).
  pose proof (typed_characters n (shift k) (pending k)) as Ht.
  destruct (typed n (shift k) (pending k)) as [[out s] rest]. destruct Hr as (Hr & Hok' & <- & <-), Ht as (<- & Hl & Hlt).
  destruct (IH k' Hok') as (k2 & Hk2 & Hp); [lia| |].
  { cbn [length] in Hmany. destruct (pending k) eqn:E; [cbn [length] in Hl; lia|]. specialize (Hlt Hn ltac:(done)). lia. }
  exists k2. split; [|done]. by rewrite (bind_run _ _ _ _ _ Hr), (bind_run _ _ _ _ _ Hk2).
Qed.
End reading.

(** ** A controller that holds a list of codes *)

Module KeyboardDemo.
#[export] Instance list_ports : Ports (list byte) := {
  status_port h := if bool_decide (h = []) then 0 else 1;
  data_port h := (hd x00 h, tl h) }.
#[export] Instance list_ports_laws : PortsLaws (list byte).
Proof.
  refine {| waiting := λ h : list byte, h |}.
  - intros [|]; reflexivity.
  - intros h b l ->. by eexists.
Defined.

(** A key in the ring and four codes in the controller: shift, the same key,
    shift released, enter. *)
Abbreviation one_key := (mkQueue (<[0%nat := x1e]> (replicate 64 x00)) 0 1).
Abbreviation desk := (mkKeyboard one_key false [x2a; x1e; xaa; x1c]).

Lemma scancodes_fifo_witness :
  ring one_key (PopRead 0) [x1e] [] ∧ contents one_key = [x1e].
Proof.
  assert (H : ring one_key (PopRead 0) [x1e] []).
  { exact (ring_step one_key PopStart [x1e] [] (Ok (PopRead 0)) one_key
             (ring_push queue_new PopStart [] [] x1e one_key (Ok tt) ring_new eq_refl) eq_refl eq_refl). }
  split; [exact H|]. exact (eq_sym (proj1 (scancodes_fifo _ _ _ _ H))).
Defined.

Lemma keys_all_delivered_witness :
  ∃ k', reads false 6 [1; 4; 1; 2; 3]%nat desk = (Ok [x61; x41; x0a], k') ∧ pending false k' = [].
Proof.
  replace [x61; x41; x0a] with (characters (shift desk) (pending false desk)) by (vm_compute; reflexivity).
  apply (keys_all_delivered false 6 [1; 4; 1; 2; 3]%nat desk).
  - unfold keyboard_ok. split; [reflexivity| |]; vm_compute; lia.
  - vm_compute. lia.
  - repeat constructor; discriminate.
  - vm_compute. lia.
Defined.
End KeyboardDemo.
