(* ===== verification/Syscall.v ===== *)
(** * System calls (kernel/src/syscall.rs)

    The dispatcher behind interrupt 0x80 and its handlers: the arguments come
    in as 64-bit words and user addresses, each handler copies and checks them,
    calls the process layer, packs the result into one word, and the dispatcher
    delivers a pending signal before the return.  A read or write of a pipe
    goes on as a thread of [Pipe], and sleeping, exit and exec leave the
    dispatcher: [Reply] says how a call ends.

    Copies from and to user memory, the loader of programs, file mappings, the
    network and the write-back of mounted volumes are classes. *)
From stdpp Require Import list gmap.
From Stdlib Require Import Strings.Byte.
From S2P Require Import Prelude Config Cwd Process.
From S2P Require Vfs VfsPath Pipe Ipc Sched Capability Environment AuditLog Keyboard.

(** ** Data *)

Record UserForkFrame := mkFrame {
  r15 : Z; r14 : Z; r13 : Z; r12 : Z; r11 : Z; r10 : Z; r9 : Z; r8 : Z; rbp : Z; rdi : Z; rsi : Z; rdx : Z; rcx : Z;
  rbx : Z; rax : Z; rip : Z; cs : Z; rflags : Z; rsp : Z; ss : Z }.
Definition set_rax x (f : UserForkFrame) : UserForkFrame :=
  mkFrame (r15 f) (r14 f) (r13 f) (r12 f) (r11 f) (r10 f) (r9 f) (r8 f) (rbp f) (rdi f) (rsi f) (rdx f) (rcx f) (rbx f)
    x (rip f) (cs f) (rflags f) (rsp f) (ss f).
Definition child_return (self : UserForkFrame) : UserForkFrame := set_rax 0 self.
(** The three assignments at the end of [prepare_signal_delivery]. *)
Definition enter_handler (new_rsp handler sig : Z) (f : UserForkFrame) : UserForkFrame :=
  mkFrame (r15 f) (r14 f) (r13 f) (r12 f) (r11 f) (r10 f) (r9 f) (r8 f) (rbp f) sig (rsi f) (rdx f) (rcx f) (rbx f)
    (rax f) handler (cs f) (rflags f) new_rsp (ss f).

Definition IO_WRITE : Z := Z.shiftl 1 0.
Definition IO_OPEN : Z := Z.shiftl 1 1.
Definition IO_READ : Z := Z.shiftl 1 2.
Definition IO_CLOSE : Z := Z.shiftl 1 3.
Definition IO_MMAP : Z := Z.shiftl 1 4.
Definition IO_MUNMAP : Z := Z.shiftl 1 5.
Definition IO_FILE_WRITE : Z := Z.shiftl 1 6.
Definition IO_GETUID : Z := Z.shiftl 1 7.
Definition IO_GETGID : Z := Z.shiftl 1 8.
Definition IO_EXEC : Z := Z.shiftl 1 9.
Definition IO_FORK : Z := Z.shiftl 1 10.
Definition IO_STDIN : Z := Z.shiftl 1 11.
Definition IO_STDERR : Z := Z.shiftl 1 12.

Inductive Number :=
| Read | Write | Open | Exit | Getpid | Waitpid | Close | Yield | Mmap | Munmap | FileWrite | MessageSend
| MessageReceive | Getuid | Getgid | Exec | Fork | Stat | Readdir | Mkdir | Chdir | Getcwd | Dup | PipeCall | Dup2
| Getppid | Kill | Lseek | Unlink | Sleep | Rename | Getticks | Sync | Ioctl | Sigaction | Getpgrp | Setpgid
| Socket | Bind | Connect | NetSend | NetRecv | NetClose | NetInfo | DnsStart | DnsPoll | NetPeer | Dhcp
| PingStart | PingPoll | ExecCommand | EnvGet | EnvSet | EnvCount | EnvEntry | ProcessCount | ProcessInfoCall
| SpawnCommand | MmapFile | MmapFileWritable | MmapFileLazy | MmapFileLazyWritable | MmapFileShared | Msync.
#[export] Instance Number_eq_dec : EqDecision Number.
Proof. solve_decision. Defined.

(** In the order of the discriminants, from zero. *)
Definition numbers : list Number :=
  [Read; Write; Open; Exit; Getpid; Waitpid; Close; Yield; Mmap; Munmap; FileWrite; MessageSend;
   MessageReceive; Getuid; Getgid; Exec; Fork; Stat; Readdir; Mkdir; Chdir; Getcwd; Dup; PipeCall; Dup2;
   Getppid; Kill; Lseek; Unlink; Sleep; Rename; Getticks; Sync; Ioctl; Sigaction; Getpgrp; Setpgid;
   Socket; Bind; Connect; NetSend; NetRecv; NetClose; NetInfo; DnsStart; DnsPoll; NetPeer; Dhcp;
   PingStart; PingPoll; ExecCommand; EnvGet; EnvSet; EnvCount; EnvEntry; ProcessCount; ProcessInfoCall;
   SpawnCommand; MmapFile; MmapFileWritable; MmapFileLazy; MmapFileLazyWritable; MmapFileShared; Msync].
(** The comparisons of the dispatcher. *)
Definition number_of (value : Z) : option Number := if value <? 64 then numbers !! Z.to_nat value else None.

Definition SYSCALL_ERROR : Z := 2 ^ 64 - 1.
Definition WOULD_BLOCK : Z := 2 ^ 64 - 2.
(** userspace.rs *)
Definition MAX_ARGV : nat := 8.
Definition MAX_ARGV_BYTES : nat := 512.

(** ** Command lines *)

Definition SPACE : byte := x20.
(** [u8::is_ascii_whitespace] *)
Definition is_ascii_whitespace (b : byte) : bool :=
  let z := byte_z b in (z =? 32) || (z =? 9) || (z =? 10) || (z =? 12) || (z =? 13).
Definition is_ascii (l : list byte) : bool := forallb (λ b, byte_z b <? 128) l.

(** The inner loops: the first index from [cursor] on, below [length l], whose
    byte does not satisfy [f]. *)
Fixpoint skip_while (f : byte → bool) (fuel : nat) (l : list byte) (cursor : nat) : nat :=
  match fuel with
  | O => cursor
  | S fuel =>
    match l !! cursor with
    | Some b => if f b then skip_while f fuel l (cursor + 1) else cursor
    | None => cursor
    end
  end.

(** The outer loop: the ranges of the words, at most [MAX_ARGV]. *)
Fixpoint ranges_loop (fuel : nat) (command : list byte) (cursor : nat) (ranges : list (nat * nat)) : res unit (list (nat * nat)) :=
  match fuel with
  | O => Panic
  | S fuel =>
    if Nat.ltb cursor (length command) then
      let cursor := skip_while is_ascii_whitespace (length command) command cursor in
      if Nat.eqb cursor (length command) then Ok ranges
      else if Nat.eqb (length ranges) MAX_ARGV then Err tt
      else
        let end_ := skip_while (λ b, negb (is_ascii_whitespace b)) (length command) command cursor in
        ranges_loop fuel command end_ (ranges ++ [(cursor, end_)])
    else Ok ranges
  end.

(** The words, the first one made a path: bare names are below [/bin]. *)
Definition resolve_command (name : list byte) : list byte :=
  if bool_decide (VfsPath.SLASH ∈ name) then name else bytes "/bin/" ++ name.
Definition parse_command (command : list byte) : res unit (list (list byte)) :=
  ranges ← ranges_loop (length command + 1) command 0 [];
  match (λ '(start, end_), slice command start (end_ - start)) <$> ranges with
  | [] => Err tt
  | name :: arguments =>
    if negb (VfsPath.utf8_valid name) then Err tt else
    let resolved := resolve_command name in
    if Nat.ltb MAX_PATH_SIZE (length resolved) then Err tt
    else if negb (forallb VfsPath.utf8_valid arguments) then Err tt
    else Ok (resolved :: arguments)
  end.

(** ** The parts the handlers call *)

(** paging.rs's copies for the running process, which may run the fault
    handlers of task.rs: [None] and [false] are errors. *)
Class UserMemory (W : Type) := {
  copy_from_current_user : Z → nat → W → option (list byte) * W;
  copy_to_current_user : Z → list byte → W → bool * W }.
(** userspace.rs's loader, task.rs's file mappings, storage.rs's write-back. *)
Class Programs (A W : Type) := {
  load_elf_with_argv : list byte → list (list byte) → W → option (@UserProgram A) * W;
  mmap_file_current : Z → Z → Z → bool → bool → bool → W → option Z * W;
  msync_current : Z → Z → W → bool * W;
  sync_all_mounted : W → option nat * W }.
(** network.rs; the socket calls take the calling process. *)
Inductive SocketKind := Udp | Tcp.
Inductive SocketError := WouldBlock | SocketFailed.
Class Network (X : Type) := {
  socket_open : Z → SocketKind → X → option Z * X;
  socket_bind : Z → Z → Z → X → bool * X;
  socket_connect : Z → Z → Z * Z → X → bool * X;
  socket_send : Z → Z → list byte → X → option nat * X;
  socket_recv : Z → Z → nat → X → res SocketError (list byte) * X;
  socket_close : Z → Z → X → bool * X;
  socket_peer : Z → Z → X → option (option (Z * Z));
  net_info : X → list byte;
  dns_start : list byte → X → option Z * X;
  dns_poll : Z → X → option (option (list byte)) * X;
  set_dhcp : bool → X → bool * X;
  ping_start : list byte → X → bool * X;
  ping_poll : X → option (option Z) * X }.

(** network.rs's packing of an IPv4 address, as a number, and a port. *)
Definition endpoint_from_packed (value : Z) : option (Z * Z) :=
  let ip := Z.land value 0xffffffff in
  let port := Z.land (Z.shiftr value 32) 0xffff in
  if port =? 0 then None else Some (ip, port).
Definition endpoint_to_packed (endpoint : Z * Z) : Z := Z.lor endpoint.1 (Z.shiftl endpoint.2 32).

(** ** The state *)

(** The kernel's components, the audit log, the keyboard, the bytes written to
    the serial port and the terminal, and the counters of this file. *)
Record State (A P X F K H : Type) := mkState {
  world : World A P X F K; audit_log : AuditLog.Log; keyboard : Keyboard.Keyboard H; console : list byte;
  last_completed : Z; completions : Z; io_completions : Z; yield_pending : bool }.
Arguments mkState {A P X F K H}. Arguments world {A P X F K H}. Arguments audit_log {A P X F K H}.
Arguments keyboard {A P X F K H}. Arguments console {A P X F K H}. Arguments last_completed {A P X F K H}.
Arguments completions {A P X F K H}. Arguments io_completions {A P X F K H}. Arguments yield_pending {A P X F K H}.

Section syscall.
Context {A P X F K H : Type} `{Others A P X, Mount F K, Vfs.Frames F, Vfs.DiskFiles K}
        `{UserMemory (World A P X F K), Programs A (World A P X F K), Network X, Keyboard.Ports H}.
Context (stack_start : nat → Z) (cpu : nat) (segments : Z * Z) (keyboard_fuel : nat).
#[local] Abbreviation Wd := (World A P X F K).
#[local] Abbreviation St := (State A P X F K H).
#[local] Abbreviation Io := (M (State A P X F K H) unit).
Implicit Types s : St.

Definition with_world w s : St := mkState w (audit_log s) (keyboard s) (console s) (last_completed s) (completions s) (io_completions s) (yield_pending s).
Definition with_audit a s : St := mkState (world s) a (keyboard s) (console s) (last_completed s) (completions s) (io_completions s) (yield_pending s).
Definition with_keyboard k s : St := mkState (world s) (audit_log s) k (console s) (last_completed s) (completions s) (io_completions s) (yield_pending s).
Definition with_console c s : St := mkState (world s) (audit_log s) (keyboard s) c (last_completed s) (completions s) (io_completions s) (yield_pending s).
Definition with_last x s : St := mkState (world s) (audit_log s) (keyboard s) (console s) x (completions s) (io_completions s) (yield_pending s).
Definition with_completions x s : St := mkState (world s) (audit_log s) (keyboard s) (console s) (last_completed s) x (io_completions s) (yield_pending s).
Definition with_io x s : St := mkState (world s) (audit_log s) (keyboard s) (console s) (last_completed s) (completions s) x (yield_pending s).
Definition with_yield x s : St := mkState (world s) (audit_log s) (keyboard s) (console s) (last_completed s) (completions s) (io_completions s) x.

(** How a call ends: with a value; in a pipe, whose result [k] takes; asleep;
    in a new program; or never, for a process that exits. *)
Inductive Reply (T : Type) :=
| Return (v : T)
| InPipe (pc : Pipe.PC) (k : res Pipe.PipeError nat → list byte → Io T)
| Asleep (switch : option Sched.ContextSwitch) (k : Io T)
| EnterUser (c : Sched.UserTaskContext)
| Ended (switch : option Sched.ContextSwitch).
Arguments Return {T}. Arguments InPipe {T}. Arguments Asleep {T}. Arguments EnterUser {T}. Arguments Ended {T}.

(** A call of the process layer; every error becomes [SYSCALL_ERROR]. *)
Definition on_world {E T} (m : M Wd E T) : Io T := λ s,
  let '(r, w) := m (world s) in (map_err (λ _, tt) r, with_world w s).
(** ... its result as a value. *)
Definition try_world {E T} (m : M Wd E T) : Io (res E T) := λ s,
  let '(r, w) := m (world s) in (match r with Panic => Panic | _ => Ok r end, with_world w s).
Definition call {T} (m : Wd → T * Wd) : Io T := λ s, let '(a, w) := m (world s) in (Ok a, with_world w s).
Definition on_network {T} (m : X → T * X) : Io T := call (λ w, let '(a, x) := m (others w) in (a, with_others x w)).
Definition io_done (bit : Z) : Io unit := modify (λ s, with_io (Z.lor (io_completions s) bit) s).
(** audit.rs's [record] *)
Definition record (actor : Z) (action : AuditLog.Action) (target : Z) (allowed : bool) : Io unit :=
  modify (λ s, with_audit (AuditLog.record_event (Sched.now (kernel (world s))) actor action target allowed (audit_log s)) s).
Definition require (b : bool) : Io unit := guard_ok b tt.
Definition some {T} (o : option T) : Io T := lift (ok_or tt o).
Definition pid : Io Z := on_world (current_process_id (E:=unit) cpu []).
Definition has (c : Capability.Capability) : Io bool := on_world (current_has (E:=unit) cpu c).

(** The first [length] bytes of a buffer of [max], filled from user memory. *)
Definition copy_from (address : Z) (length : nat) : Io (list byte) := o ← call (copy_from_current_user address length); some o.
Definition copy_to (address : Z) (l : list byte) : Io unit := b ← call (copy_to_current_user address l); require b.
Definition copy_in (max : nat) (address length : Z) : Io (list byte) :=
  _ ← require (length <=? Z.of_nat max); copy_from address (Z.to_nat length).
(** The arguments of every call that names a path. *)
Definition user_path (address length : Z) : Io (list byte) :=
  _ ← require (negb (length =? 0) && (length <=? Z.of_nat MAX_PATH_SIZE));
  path ← copy_from address (Z.to_nat length);
  _ ← require (VfsPath.utf8_valid path);
  mret path.

(** ** Memory *)

Definition sys_mmap (length flags : Z) : Io Z :=
  _ ← require (Z.land flags (bnot 64 1) =? 0);
  address ← on_world (mmap_current cpu length (negb (Z.land flags 1 =? 0)));
  _ ← io_done IO_MMAP;
  mret address.
Definition sys_munmap (address length : Z) : Io Z :=
  _ ← on_world (munmap_current cpu address length);
  _ ← io_done IO_MUNMAP;
  mret 0.
Definition sys_mmap_file (fd length offset : Z) (writable lazily shared : bool) : Io Z :=
  o ← call (mmap_file_current fd length offset writable lazily shared); some o.
Definition sys_msync (address length : Z) : Io Z := b ← call (msync_current address length); _ ← require b; mret 0.

(** ** Files *)

Definition value (m : Io Z) : Io (Reply Z) := v ← m; mret (Return v).
(** What a read or write goes on with: [k] for its count and the buffer, [bad]
    for an error of a pipe. *)
Definition transferred (t : Transfer) (k : nat → list byte → Io Z) (bad : Io Z) : Io (Reply Z) :=
  match t with
  | Moved n buf => value (k n buf)
  | OnPipe pc => mret (InPipe pc (λ r buf, match r with Ok n => k n buf | Err _ => bad | Panic => lift Panic end))
  end.
Definition is_open (descriptor : Z) : Io bool := on_world (descriptor_is_open cpu (Z.to_nat descriptor)).

Definition sys_write (descriptor user_buffer length : Z) : Io (Reply Z) :=
  _ ← require ((descriptor =? 1) || (descriptor =? 2));
  buffer ← copy_in MAX_IO_SIZE user_buffer length;
  let written : Io unit :=
    (_ ← io_done IO_WRITE; if descriptor =? 2 then io_done IO_STDERR else mret tt) in
  redirected ← is_open descriptor;
  if redirected : bool then
    t ← on_world (write_current cpu (Z.to_nat descriptor) buffer);
    transferred t (λ count _, _ ← written; mret (Z.of_nat count)) (fail tt)
  else
    b ← has Capability.Console;
    _ ← require b;
    _ ← modify (λ s, with_console (console s ++ buffer) s);
    _ ← written;
    mret (Return length).

Definition sys_open (path length : Z) : Io Z :=
  path ← user_path path length;
  descriptor ← on_world (open_current cpu path);
  _ ← io_done IO_OPEN;
  mret (Z.of_nat descriptor).

Definition kind_code (k : Vfs.NodeKind) : Z := match k with Vfs.File => 0 | Vfs.Directory => 1 end.
Definition sys_stat (path length : Z) : Io Z :=
  path ← user_path path length;
  stat ← on_world (stat_path cpu path);
  let size := Z.land (Z.of_nat (Vfs.st_size stat)) 0x00FFFFFF in
  mret (Z.lor (Z.lor (kind_code (Vfs.st_kind stat)) (Z.shiftl size 8)) (Z.shiftl (Z.b2z (Vfs.st_writable stat)) 40)).

Definition sys_readdir (path path_len_and_index user_name_buf : Z) : Io Z :=
  let path_len := Z.land path_len_and_index 0xFFFF in
  let index := Z.shiftr path_len_and_index 16 in
  path ← user_path path path_len;
  entry ← on_world (readdir_path cpu path (Z.to_nat index));
  name ← lift (or_panic (if Nat.leb (Vfs.de_length entry) (length (Vfs.de_name entry))
                         then Some (take (Vfs.de_length entry) (Vfs.de_name entry)) else None));
  _ ← copy_to user_name_buf name;
  mret (Z.lor (Z.of_nat (Vfs.de_length entry)) (Z.shiftl (kind_code (Vfs.de_kind entry)) 8)).

Definition sys_chdir (path length : Z) : Io Z :=
  path ← user_path path length; _ ← on_world (chdir_current cpu path); mret 0.
Definition sys_getcwd (user_buffer capacity : Z) : Io Z :=
  _ ← require (negb (capacity =? 0) && (capacity <=? Z.of_nat MAX_PATH_SIZE));
  '(len, path) ← on_world (current_cwd_str cpu (replicate MAX_PATH_SIZE x00));
  _ ← require (Z.of_nat len <=? capacity);
  _ ← copy_to user_buffer (take len path);
  mret (Z.of_nat len).
Definition sys_mkdir (path length : Z) : Io Z :=
  path ← user_path path length; _ ← on_world (mkdir_path cpu path); mret 0.

(** The dispatcher runs with interrupts disabled. *)
Definition read_keyboard (length : nat) : Io (list byte) := λ s,
  let '(r, k) := Keyboard.read_bytes keyboard_fuel false length (keyboard s) in
  (match r with Ok l => Ok l | _ => Panic end, with_keyboard k s).

Definition sys_read (descriptor user_buffer length : Z) : Io (Reply Z) :=
  _ ← require (length <=? Z.of_nat MAX_IO_SIZE);
  redirected ← (if descriptor =? 0 then is_open 0 else mret true);
  if negb redirected then
    b ← has Capability.Console;
    _ ← require b;
    bytes ← read_keyboard (Z.to_nat length);
    _ ← copy_to user_buffer bytes;
    _ ← io_done IO_STDIN;
    mret (Return (Z.of_nat (List.length bytes)))
  else
    t ← on_world (read_current cpu (Z.to_nat descriptor) (replicate (Z.to_nat length) x00));
    transferred t (λ count buffer,
      _ ← copy_to user_buffer (take count buffer); _ ← io_done IO_READ; mret (Z.of_nat count)) (fail tt).

Definition sys_file_write (descriptor user_buffer length : Z) : Io (Reply Z) :=
  actor ← pid;
  buffer ← copy_in MAX_IO_SIZE user_buffer length;
  r ← try_world (write_current cpu (Z.to_nat descriptor) buffer);
  let failed : Io Z := (_ ← record actor AuditLog.FileWrite descriptor false; fail tt) in
  match r with
  | Ok t => transferred t (λ count _,
      _ ← record actor AuditLog.FileWrite descriptor true; _ ← io_done IO_FILE_WRITE; mret (Z.of_nat count)) failed
  | _ => value failed
  end.

Definition sys_lseek (fd offset : Z) : Io Z :=
  pos ← on_world (seek_current cpu (Z.to_nat fd) (Z.to_nat offset)); mret (Z.of_nat pos).
Definition sys_unlink (path length : Z) : Io Z :=
  path ← user_path path length; _ ← on_world (unlink_current cpu path); mret 0.
Definition path_len_ok (len : Z) : bool := negb (len =? 0) && (len <=? Z.of_nat MAX_PATH_SIZE).
Definition sys_rename (user_old old_len_and_new_len user_new : Z) : Io Z :=
  let old_len := Z.land old_len_and_new_len 0xffff in
  let new_len := Z.land (Z.shiftr old_len_and_new_len 16) 0xffff in
  _ ← require (path_len_ok old_len && path_len_ok new_len);
  old ← copy_from user_old (Z.to_nat old_len);
  new ← copy_from user_new (Z.to_nat new_len);
  _ ← require (VfsPath.utf8_valid old);
  _ ← require (VfsPath.utf8_valid new);
  _ ← on_world (rename_current cpu old new);
  mret 0.
Definition sys_sync : Io Z := o ← call sync_all_mounted; count ← some o; mret (Z.of_nat count).
Definition sys_ioctl (_fd _req _arg : Z) : Io Z := mret 0.

(** ** Messages *)

Definition sys_message_send (receiver user_buffer length : Z) : Io Z :=
  actor ← pid;
  b ← has Capability.Ipc;
  may ← (if b : bool then on_world (may_ipc_with (E:=unit) cpu receiver) else mret false);
  if negb may then _ ← record actor AuditLog.IpcSend receiver false; fail tt else
  buffer ← copy_in MAX_MESSAGE_SIZE user_buffer length;
  sender ← pid;
  result ← try_world (on_ipc id (Ipc.send sender receiver buffer));
  _ ← record actor AuditLog.IpcSend receiver (is_ok result);
  _ ← require (is_ok result);
  mret 0.
Definition sys_message_receive (user_buffer capacity user_sender : Z) : Io Z :=
  b ← has Capability.Ipc;
  _ ← require b;
  receiver ← pid;
  message ← on_world (on_ipc id (λ m, (Ipc.peek receiver m, m)));
  let payload := Ipc.payload message in
  _ ← require (Z.of_nat (List.length payload) <=? capacity);
  _ ← copy_to user_buffer payload;
  _ ← copy_to user_sender (to_le_bytes 8 (Ipc.sender message));
  _ ← on_world (on_ipc id (Ipc.receive receiver));
  mret (Z.of_nat (List.length payload)).

(** ** Descriptors *)

Definition sys_pipe : Io Z :=
  '(r, w) ← on_world (pipe_current cpu);
  mret (Z.lor (Z.of_nat r) (Z.shiftl (Z.of_nat w) 32)).
Definition sys_dup2 (old new : Z) : Io Z := fd ← on_world (dup2_current cpu (Z.to_nat old) (Z.to_nat new)); mret (Z.of_nat fd).
Definition sys_dup (descriptor : Z) : Io Z := fd ← on_world (dup_current cpu (Z.to_nat descriptor)); mret (Z.of_nat fd).
Definition sys_close (descriptor : Z) : Io Z :=
  _ ← on_world (close_current cpu (Z.to_nat descriptor)); _ ← io_done IO_CLOSE; mret 0.

(** ** Processes *)

Definition sys_getppid : Io Z := on_world (getppid_current (E:=unit) cpu).
Definition sys_getticks : Io Z := gets (λ s, Sched.now (kernel (world s))).
Definition sys_sleep (ticks : Z) : Io (Reply Z) :=
  switch ← on_world (on_kernel (E:=unit) (Sched.sleep_current stack_start cpu ticks));
  mret (Asleep switch (mret 0)).
Definition sys_kill (pid sig : Z) : Io Z := _ ← on_world (kill_process cpu pid sig); mret 0.
Definition sys_fork (frame : option UserForkFrame) : Io Z :=
  actor ← pid;
  let failed : Io Z := (_ ← record actor AuditLog.ProcessFork 0 false; fail tt) in
  b ← has Capability.ProcessCreate;
  if negb b then failed else
  match frame with
  | None => failed
  | Some _ =>
    r ← try_world (fork_current stack_start cpu);
    match r with
    | Ok child => _ ← io_done IO_FORK; _ ← record actor AuditLog.ProcessFork child true; mret child
    | _ => failed
    end
  end.
Definition sys_sigaction (sig handler : Z) : Io Z := on_world (sigaction_current cpu sig handler).
Definition sys_setpgid (pid pgid : Z) : Io Z := _ ← on_world (set_process_group cpu pid pgid); mret 0.

(** [FileRead] and [ProcessCreate], in this order. *)
Definition may_exec : Io bool :=
  b ← has Capability.FileRead; if b : bool then has Capability.ProcessCreate else mret false.
(** The file at [path] as a program with arguments [argv]. *)
Definition load_program (actor length : Z) (path : list byte) (argv : list (list byte)) : Io (@UserProgram A) :=
  let failed : Io (@UserProgram A) := (_ ← record actor AuditLog.ProcessExec length false; fail tt) in
  r ← try_world (on_vfs id (Vfs.read_all path (replicate VFS_NODE_CAPACITY x00)));
  match r with
  | Ok (image_length, image) =>
    o ← call (load_elf_with_argv (take image_length image) argv);
    match o with Some program => mret program | None => failed end
  | _ => failed
  end.
Definition exec_program (actor length : Z) (path : list byte) (argv : list (list byte)) : Io (Reply Z) :=
  program ← load_program actor length path argv;
  _ ← io_done IO_EXEC;
  _ ← record actor AuditLog.ProcessExec length true;
  context ← on_world (exec_current cpu segments program);
  mret (EnterUser context).

Definition sys_exec (path length : Z) : Io (Reply Z) :=
  actor ← pid;
  b ← may_exec;
  if negb b then _ ← record actor AuditLog.ProcessExec length false; fail tt else
  path ← user_path path length;
  exec_program actor length path [path].
(** The line of a command: its words. *)
Definition user_command (user_line length : Z) : Io (list (list byte)) :=
  _ ← require (negb (length =? 0) && (length <=? Z.of_nat MAX_ARGV_BYTES));
  command ← copy_from user_line (Z.to_nat length);
  _ ← require (is_ascii command);
  lift (parse_command command).
Definition sys_exec_command (user_line length : Z) : Io (Reply Z) :=
  actor ← pid;
  b ← may_exec;
  if negb b then _ ← record actor AuditLog.ProcessExec length false; fail tt else
  argv ← user_command user_line length;
  exec_program actor length (hd [] argv) argv.
Definition sys_spawn_command (user_line length : Z) : Io Z :=
  actor ← pid;
  b ← may_exec;
  _ ← require b;
  argv ← user_command user_line length;
  program ← load_program actor length (hd [] argv) argv;
  '(child, _) ← on_world (spawn_user_process stack_start cpu segments "cmd" program);
  _ ← record actor AuditLog.ProcessExec length true;
  mret child.
Definition sys_waitpid (child : Z) : Io Z :=
  r ← try_world (wait_process cpu child);
  match r with
  | Ok exit_code => mret (wrap 64 exit_code)
  | Err StillRunning => mret WOULD_BLOCK
  | _ => mret SYSCALL_ERROR
  end.
(** [as i32] *)
Definition as_i32 (z : Z) : Z := let w := wrap 32 z in if w <? 2 ^ 31 then w else w - 2 ^ 32.
Definition sys_exit (code : Z) : Io (Reply Z) :=
  switch ← on_world (exit_current_process stack_start cpu (as_i32 code)); mret (Ended switch).
Definition sys_getuid : Io Z := _ ← io_done IO_GETUID; c ← on_world (current_credentials (E:=unit) cpu); mret (uid c).
Definition sys_getgid : Io Z := _ ← io_done IO_GETGID; c ← on_world (current_credentials (E:=unit) cpu); mret (gid c).
Definition sys_yield : Io Z := _ ← modify (with_yield true); mret 0.

(** [ProcessInfo] in memory: [repr(C)], little-endian. *)
Definition info_bytes (i : ProcessInfo) : list byte :=
  to_le_bytes 8 (pi_pid i) ++ to_le_bytes 8 (pi_ppid i) ++ to_le_bytes 8 (pi_pgrp i) ++ to_le_bytes 8 (pi_state i)
  ++ to_le_bytes 4 (uid (pi_credentials i)) ++ to_le_bytes 4 (gid (pi_credentials i))
  ++ to_le_bytes 4 (pi_exit_code i) ++ to_le_bytes 4 0.
Definition sys_process_count : Io Z := gets (λ s, Z.of_nat (process_count (world s))).
Definition sys_process_info (index user_out : Z) : Io Z :=
  o ← gets (λ s, process_info (Z.to_nat index) (world s));
  info ← some o;
  _ ← copy_to user_out (info_bytes info);
  mret 0.

(** ** The environment *)

Definition env_buffer : list byte := replicate Environment.MAX_ENV_ENTRY x00.
Definition key_len_ok (len : Z) : bool := negb (len =? 0) && (len <? Z.of_nat Environment.MAX_ENV_ENTRY).
Definition sys_env_get (user_key key_len user_out : Z) : Io Z :=
  _ ← require (key_len_ok key_len);
  key ← copy_from user_key (Z.to_nat key_len);
  '(len, value) ← on_world (env_get cpu key env_buffer);
  _ ← copy_to user_out (take len value);
  mret (Z.of_nat len).
Definition sys_env_set (user_key packed_lengths user_value : Z) : Io Z :=
  let key_len := Z.land packed_lengths 0xffffffff in
  let value_len := Z.shiftr packed_lengths 32 in
  _ ← require (key_len_ok key_len && (value_len <? Z.of_nat Environment.MAX_ENV_ENTRY));
  key ← copy_from user_key (Z.to_nat key_len);
  value ← copy_from user_value (Z.to_nat value_len);
  _ ← on_world (env_set cpu key value);
  mret 0.
Definition sys_env_count : Io Z := n ← on_world (env_count (E:=unit) cpu); mret (Z.of_nat n).
Definition sys_env_entry (index user_out capacity : Z) : Io Z :=
  let capacity := Z.min capacity (Z.of_nat Environment.MAX_ENV_ENTRY) in
  _ ← require (negb (capacity =? 0));
  '(len, entry) ← on_world (env_entry cpu (Z.to_nat index) (replicate (Z.to_nat capacity) x00));
  _ ← copy_to user_out (take len entry);
  mret (Z.of_nat len).

(** ** The network *)

Definition sys_socket (kind : Z) : Io Z :=
  kind ← some (if kind =? 1 then Some Udp else if kind =? 2 then Some Tcp else None);
  owner ← pid;
  o ← on_network (socket_open owner kind);
  some o.
Definition sys_net_bind (socket port : Z) : Io Z :=
  _ ← require (port <? 2 ^ 16);
  owner ← pid; b ← on_network (socket_bind owner socket port); _ ← require b; mret 0.
Definition sys_net_connect (socket packed : Z) : Io Z :=
  endpoint ← some (endpoint_from_packed packed);
  owner ← pid; b ← on_network (socket_connect owner socket endpoint); _ ← require b; mret 0.
Definition sys_net_send (socket user_buffer length : Z) : Io Z :=
  buffer ← copy_in MAX_IO_SIZE user_buffer length;
  owner ← pid; o ← on_network (socket_send owner socket buffer); n ← some o; mret (Z.of_nat n).
Definition sys_net_recv (socket user_buffer capacity : Z) : Io Z :=
  _ ← require (capacity <=? Z.of_nat MAX_IO_SIZE);
  owner ← pid;
  r ← on_network (socket_recv owner socket (Z.to_nat capacity));
  match r with
  | Ok data => _ ← copy_to user_buffer data; mret (Z.of_nat (List.length data))
  | Err WouldBlock => mret WOULD_BLOCK
  | _ => fail tt
  end.
Definition sys_net_close (socket : Z) : Io Z :=
  owner ← pid; b ← on_network (socket_close owner socket); _ ← require b; mret 0.
Definition sys_net_info (user_buffer : Z) : Io Z :=
  info ← gets (λ s, net_info (others (world s))); _ ← copy_to user_buffer info; mret (Z.of_nat (List.length info)).
Definition sys_dns_start (user_name length : Z) : Io Z :=
  _ ← require (negb (length =? 0) && (length <=? 253));
  name ← copy_from user_name (Z.to_nat length);
  _ ← require (VfsPath.utf8_valid name);
  o ← on_network (dns_start name);
  some o.
Definition sys_dns_poll (query user_ipv4 : Z) : Io Z :=
  o ← on_network (dns_poll query);
  o ← some o;
  match o with None => mret 0 | Some octets => _ ← copy_to user_ipv4 octets; mret 1 end.
Definition sys_net_peer (socket : Z) : Io Z :=
  owner ← pid;
  o ← gets (λ s, socket_peer owner socket (others (world s)));
  o ← some o;
  mret (match o with Some endpoint => endpoint_to_packed endpoint | None => 0 end).
Definition sys_dhcp (enabled : Z) : Io Z := b ← on_network (set_dhcp (negb (enabled =? 0))); _ ← require b; mret 0.
(** The address in network order. *)
Definition sys_ping_start (ip_packed : Z) : Io Z :=
  let raw := Z.land ip_packed 0xffffffff in
  b ← on_network (ping_start (rev (to_le_bytes 4 raw))); _ ← require b; mret 0.
Definition sys_ping_poll : Io Z :=
  o ← on_network ping_poll;
  o ← some o;
  mret (match o with None => 0 | Some ticks => saturating_add 64 ticks 1 end).

(** ** The dispatcher *)

(** The [match] of [wovenhat_syscall_dispatch]. *)
Definition handle (number : option Number) (arg0 arg1 arg2 : Z) (frame : option UserForkFrame) : Io (Reply Z) :=
  match number with
  | Some Mmap => value (sys_mmap arg0 arg1)
  | Some Munmap => value (sys_munmap arg0 arg1)
  | Some Read => sys_read arg0 arg1 arg2
  | Some FileWrite => sys_file_write arg0 arg1 arg2
  | Some Write => sys_write arg0 arg1 arg2
  | Some Open => value (sys_open arg0 arg1)
  | Some Close => value (sys_close arg0)
  | Some Exec => sys_exec arg0 arg1
  | Some ExecCommand => sys_exec_command arg0 arg1
  | Some EnvGet => value (sys_env_get arg0 arg1 arg2)
  | Some EnvSet => value (sys_env_set arg0 arg1 arg2)
  | Some EnvCount => value sys_env_count
  | Some EnvEntry => value (sys_env_entry arg0 arg1 arg2)
  | Some ProcessCount => value sys_process_count
  | Some ProcessInfoCall => value (sys_process_info arg0 arg1)
  | Some SpawnCommand => value (sys_spawn_command arg0 arg1)
  | Some MmapFileShared => value (sys_mmap_file arg0 arg1 arg2 true true true)
  | Some Msync => value (sys_msync arg0 arg1)
  | Some MmapFileLazy => value (sys_mmap_file arg0 arg1 arg2 false true false)
  | Some MmapFileLazyWritable => value (sys_mmap_file arg0 arg1 arg2 true true false)
  | Some MmapFile => value (sys_mmap_file arg0 arg1 arg2 false false false)
  | Some MmapFileWritable => value (sys_mmap_file arg0 arg1 arg2 true false false)
  | Some Fork => value (sys_fork frame)
  | Some MessageSend => value (sys_message_send arg0 arg1 arg2)
  | Some MessageReceive => value (sys_message_receive arg0 arg1 arg2)
  | Some Getuid => value sys_getuid
  | Some Getgid => value sys_getgid
  | Some Yield => value sys_yield
  | Some Exit => sys_exit arg0
  | Some Getpid => value pid
  | Some Waitpid => value (sys_waitpid arg0)
  | Some Stat => value (sys_stat arg0 arg1)
  | Some Readdir => value (sys_readdir arg0 arg1 arg2)
  | Some Mkdir => value (sys_mkdir arg0 arg1)
  | Some Chdir => value (sys_chdir arg0 arg1)
  | Some Getcwd => value (sys_getcwd arg0 arg1)
  | Some Dup => value (sys_dup arg0)
  | Some PipeCall => value sys_pipe
  | Some Dup2 => value (sys_dup2 arg0 arg1)
  | Some Getppid => value sys_getppid
  | Some Kill => value (sys_kill arg0 arg1)
  | Some Lseek => value (sys_lseek arg0 arg1)
  | Some Unlink => value (sys_unlink arg0 arg1)
  | Some Sleep => sys_sleep arg0
  | Some Rename => value (sys_rename arg0 arg1 arg2)
  | Some Getticks => value sys_getticks
  | Some Sync => value sys_sync
  | Some Ioctl => value (sys_ioctl arg0 arg1 arg2)
  | Some Sigaction => value (sys_sigaction arg0 arg1)
  | Some Getpgrp => value (on_world (current_process_group cpu))
  | Some Setpgid => value (sys_setpgid arg0 arg1)
  | Some Socket => value (sys_socket arg0)
  | Some Bind => value (sys_net_bind arg0 arg1)
  | Some Connect => value (sys_net_connect arg0 arg1)
  | Some NetSend => value (sys_net_send arg0 arg1 arg2)
  | Some NetRecv => value (sys_net_recv arg0 arg1 arg2)
  | Some NetClose => value (sys_net_close arg0)
  | Some NetInfo => value (sys_net_info arg0)
  | Some DnsStart => value (sys_dns_start arg0 arg1)
  | Some DnsPoll => value (sys_dns_poll arg0 arg1)
  | Some NetPeer => value (sys_net_peer arg0)
  | Some Dhcp => value (sys_dhcp arg0)
  | Some PingStart => value (sys_ping_start arg0)
  | Some PingPoll => value sys_ping_poll
  | None => mret (Return SYSCALL_ERROR)
  end.

Definition prepare_signal_delivery (frame : option UserForkFrame) : Io (option UserForkFrame) :=
  o ← on_world (take_pending_signal_current cpu);
  match o, frame with
  | Some (sig, handler), Some f =>
    if rsp f <? 8 then mret frame else
    let new_rsp := rsp f - 8 in
    b ← call (copy_to_current_user new_rsp (to_le_bytes 8 (rip f)));
    mret (if b : bool then Some (enter_handler new_rsp handler sig f) else frame)
  | _, _ => mret frame
  end.

(** The end of the dispatcher, for the result [v]. *)
Definition finish (number : Z) (frame : option UserForkFrame) (v : Z) : Io (Z * option UserForkFrame) :=
  frame ← prepare_signal_delivery frame;
  _ ← modify (with_last number);
  _ ← modify (λ s, with_completions (wrapping_add 64 (completions s) 1) s);
  mret (v, frame).
Definition or_error (m : Io Z) : Io Z := r ← attempt m; mret (match r with Ok v => v | _ => SYSCALL_ERROR end).
(** ... once the call has a result. *)
Definition when_done {T} (k : Z → Io T) (r : Reply Z) : Io (Reply T) :=
  match r with
  | Return v => v ← k v; mret (Return v)
  | InPipe pc resume => mret (InPipe pc (λ r buf, v ← or_error (resume r buf); k v))
  | Asleep switch resume => mret (Asleep switch (v ← or_error resume; k v))
  | EnterUser c => mret (EnterUser c)
  | Ended switch => mret (Ended switch)
  end.

Definition wovenhat_syscall_dispatch (number arg0 arg1 arg2 : Z) (frame : option UserForkFrame) : Io (Reply (Z * option UserForkFrame)) :=
  r ← attempt (handle (number_of number) arg0 arg1 arg2 frame);
  when_done (finish number frame) (match r with Ok r => r | _ => Return SYSCALL_ERROR end).

(** The entry saves the registers in a frame, whose [rax], [rdi], [rsi] and [rdx]
    are the arguments, and restores them from it, with the result in [rax]. *)
Definition saved (o : option UserForkFrame) (frame : UserForkFrame) : UserForkFrame := default frame o.
Definition wovenhat_syscall_entry (frame : UserForkFrame) : Io (Reply UserForkFrame) :=
  r ← wovenhat_syscall_dispatch (rax frame) (rdi frame) (rsi frame) (rdx frame) (Some frame);
  let store := λ x : Z * option UserForkFrame, let '(v, o) := x in set_rax v (saved o frame) in
  mret (match r with
        | Return x => Return (store x)
        | InPipe pc k => InPipe pc (λ r buf, x ← k r buf; mret (store x))
        | Asleep switch k => Asleep switch (x ← k; mret (store x))
        | EnterUser c => EnterUser c
        | Ended switch => Ended switch
        end).

(** Called by the kernel's main loop; [None]: nothing was pending. *)
Definition service_pending : Io (option (option Sched.ContextSwitch)) :=
  b ← gets yield_pending;
  _ ← modify (with_yield false);
  if b : bool then sw ← on_world (on_kernel (E:=unit) (Sched.yield_now stack_start cpu)); mret (Some sw) else mret None.

(** ** Queries *)

Definition io_verified (mask : Z) (s : St) : bool := Z.land (io_completions s) mask =? mask.
Definition user_io_verified : St → bool := io_verified (Z.lor (Z.lor (Z.lor IO_WRITE IO_OPEN) IO_READ) IO_CLOSE).
Definition user_standard_streams_verified : St → bool := io_verified (Z.lor IO_STDIN IO_STDERR).
Definition user_memory_verified : St → bool := io_verified (Z.lor IO_MMAP IO_MUNMAP).
Definition user_identity_verified : St → bool := io_verified (Z.lor IO_GETUID IO_GETGID).
Definition user_exec_verified : St → bool := io_verified IO_EXEC.
Definition user_fork_verified : St → bool := io_verified IO_FORK.
End syscall.
