(* ===== verification/SyscallArgs.v ===== *)
(** * What the system calls make of their arguments (kernel/src/syscall.rs)

    The command lines of exec and spawn are split into the words a reference
    splitter gives, with the limits of the argument array; words packed into
    one argument or result come out again. *)
From stdpp Require Import list gmap.
From S2P Require Import Prelude Config Process ProcessRefs Syscall.
From S2P Require Cwd Vfs VfsPath Pipe AuditLog Keyboard ProcessCalls.

(** ** Words *)

(** The pieces between whitespace, and the nonempty ones among them. *)
Fixpoint split_space (l : list byte) : list (list byte) :=
  match l with
  | [] => [[]]
  | b :: l =>
    if is_ascii_whitespace b then [] :: split_space l
    else match split_space l with w :: ws => (b :: w) :: ws | [] => [[b]] end
  end.
Definition words (l : list byte) : list (list byte) := filter (λ w, w ≠ []) (split_space l).

Fixpoint prefix_len (f : byte → bool) (l : list byte) : nat :=
  match l with [] => O | b :: l => if f b then S (prefix_len f l) else O end.

Lemma prefix_len_le f l : (prefix_len f l ≤ length l)%nat.
Proof. induction l as [|b l IH]; cbn; [lia|]. destruct (f b); lia. Qed.

Lemma skip_while_spec f fuel l c : (length l - c ≤ fuel)%nat → skip_while f fuel l c = (c + prefix_len f (drop c l))%nat.
Proof.
  revert c. induction fuel as [|fuel IH]; intros c Hf; cbn [skip_while].
  { rewrite drop_ge by lia. cbn. lia. }
  destruct (l !! c) as [b|] eqn:E.
  - rewrite (drop_S l b c E). cbn [prefix_len]. pose proof (lookup_lt_Some _ _ _ E).
    destruct (f b); [rewrite IH by lia; rewrite Nat.add_1_r; lia|lia].
  - apply lookup_ge_None in E. rewrite drop_ge by done. cbn. lia.
Qed.

Lemma words_space b l : is_ascii_whitespace b = true → words (b :: l) = words l.
Proof. intros Hb. unfold words. cbn [split_space]. by rewrite Hb. Qed.

Lemma words_skip l : words (drop (prefix_len is_ascii_whitespace l) l) = words l.
Proof.
  induction l as [|b l IH]; [done|]. cbn [prefix_len]. destruct (is_ascii_whitespace b) eqn:E; [|done].
  cbn [drop]. by rewrite IH, words_space.
Qed.

Definition in_word (b : byte) : bool := negb (is_ascii_whitespace b).

Lemma split_space_word l :
  match drop (prefix_len in_word l) l with
  | [] => split_space l = [l] ∧ take (prefix_len in_word l) l = l
  | _ :: rest => split_space l = take (prefix_len in_word l) l :: split_space rest
  end.
Proof.
  induction l as [|b l IH]; [done|]. cbn [prefix_len split_space]. destruct (is_ascii_whitespace b) eqn:E.
  { assert (Hb : in_word b = false) by (unfold in_word; by rewrite E). by rewrite Hb. }
  assert (Hb : in_word b = true) by (unfold in_word; by rewrite E). rewrite Hb. cbn [drop take].
  destruct (drop (prefix_len in_word l) l); [by destruct IH as [-> ->]|by rewrite IH].
Qed.

Lemma drop_prefix_head f l : match drop (prefix_len f l) l with b :: _ => f b = false | [] => True end.
Proof. induction l as [|b l IH]; [done|]. cbn [prefix_len]. destruct (f b) eqn:E; [exact IH|exact E]. Qed.

(** The words of a text that starts inside one. *)
Lemma words_word b l : in_word b = true →
  words (b :: l) = take (prefix_len in_word (b :: l)) (b :: l) :: words (drop (prefix_len in_word (b :: l)) (b :: l)).
Proof.
  intros Hb. pose proof (split_space_word (b :: l)) as Hs. pose proof (drop_prefix_head in_word (b :: l)) as Hh.
  assert (Hne : take (prefix_len in_word (b :: l)) (b :: l) ≠ []) by (cbn [prefix_len]; by rewrite Hb).
  destruct (drop _ _) as [|c rest].
  - destruct Hs as [Hs Ht]. rewrite Ht. unfold words at 1. rewrite Hs, filter_cons, decide_True by done. done.
  - rewrite (words_space c rest) by (unfold in_word in Hh; by destruct (is_ascii_whitespace c)).
    unfold words at 1. rewrite Hs, filter_cons, decide_True by done. done.
Qed.

(** ** The loop *)

Definition piece (command : list byte) (r : nat * nat) : list byte := slice command r.1 (r.2 - r.1).

Lemma ranges_loop_spec fuel command c rs : (length command < fuel + c)%nat → (c ≤ length command)%nat → (length rs ≤ MAX_ARGV)%nat →
  if decide (length rs + length (words (drop c command)) ≤ MAX_ARGV)%nat
  then ∃ more, ranges_loop fuel command c rs = Ok (rs ++ more) ∧ piece command <$> more = words (drop c command)
  else ranges_loop fuel command c rs = Err tt.
Proof.
  revert c rs. induction fuel as [|fuel IH]; intros c rs Hf Hc Hrs; [lia|]. cbn [ranges_loop].
  destruct (Nat.ltb_spec c (length command)) as [Hlt|Hge].
  2:{ rewrite drop_ge by lia. change (words []) with (@nil (list byte)). cbn [length]. rewrite decide_True by lia. exists []. by rewrite app_nil_r. }
  rewrite skip_while_spec by lia. set (k := prefix_len _ _).
  assert (Hw : words (drop c command) = words (drop (c + k) command)).
  { rewrite <-drop_drop. symmetry. apply words_skip. }
  assert (Hk : (c + k ≤ length command)%nat).
  { pose proof (prefix_len_le is_ascii_whitespace (drop c command)) as Hl. rewrite length_drop in Hl. subst k. lia. }
  pose proof (drop_prefix_head is_ascii_whitespace (drop c command)) as Hh. rewrite drop_drop in Hh. fold k in Hh.
  rewrite Hw. destruct (Nat.eqb_spec (c + k) (length command)) as [E|E].
  { rewrite drop_ge by lia. change (words []) with (@nil (list byte)). cbn [length]. rewrite decide_True by lia. exists []. by rewrite app_nil_r. }
  destruct (drop (c + k) command) as [|b l] eqn:Ed.
  { apply (f_equal length) in Ed. rewrite length_drop in Ed. cbn in Ed. lia. }
  assert (Hb : in_word b = true) by (unfold in_word; by rewrite Hh).
  pose proof (words_word b l Hb) as Hwords. rewrite <-Ed in Hwords.
  destruct (Nat.eqb_spec (length rs) MAX_ARGV) as [Em|Em].
  { rewrite <-Ed, Hwords. cbn [length]. by rewrite decide_False by lia. }
  fold in_word. rewrite skip_while_spec by lia. set (n := prefix_len in_word (drop (c + k) command)).
  assert (Hn : (1 ≤ n ∧ c + k + n ≤ length command)%nat).
  { pose proof (prefix_len_le in_word (drop (c + k) command)) as Hl. rewrite length_drop in Hl. fold n in Hl.
    split; [|lia]. subst n. rewrite Ed. cbn [prefix_len]. rewrite Hb. lia. }
  fold n in Hwords. rewrite drop_drop in Hwords.
  specialize (IH (c + k + n)%nat (rs ++ [(c + k, c + k + n)%nat]) ltac:(lia) ltac:(lia)).
  rewrite length_app in IH. cbn [length] in IH. specialize (IH ltac:(lia)).
  rewrite <-Ed, Hwords. cbn [length].
  destruct (decide (length rs + 1 + _ ≤ _)%nat) as [Hle|Hgt].
  - rewrite decide_True by lia. destruct IH as (more & -> & Hm). exists ((c + k, c + k + n)%nat :: more).
    rewrite <-app_assoc. split; [done|]. rewrite fmap_cons, Hm. f_equal. unfold piece, slice. cbn [fst snd].
    f_equal. lia.
  - by rewrite decide_False by lia.
Qed.

(** ** Command lines *)

Lemma split_space_all (Q : byte → Prop) l : Forall Q l → Forall (Forall Q) (split_space l).
Proof.
  induction 1 as [|b l Hb _ IH]; cbn [split_space]; [by constructor|].
  destruct (is_ascii_whitespace b); [by constructor|]. destruct IH; by repeat constructor.
Qed.
Lemma ascii_utf8 l : Forall (λ b, byte_z b < 128) l → VfsPath.utf8_valid l = true.
Proof.
  induction 1 as [|b l Hb _ IH]; [done|]. cbn [VfsPath.utf8_valid].
  destruct (Z.ltb_spec (byte_z b) 0x80); [exact IH|lia].
Qed.
Lemma words_utf8 l : is_ascii l = true → forallb VfsPath.utf8_valid (words l) = true.
Proof.
  intros Hl. apply forallb_forall. intros w Hw. apply list_elem_of_In in Hw.
  apply list_elem_of_filter in Hw as [_ Hw]. apply ascii_utf8.
  assert (Hall : Forall (λ b, byte_z b < 128) l).
  { apply Forall_forall. intros b Hb. apply Z.ltb_lt. apply (proj1 (forallb_forall _ _) Hl). by apply list_elem_of_In. }
  pose proof (split_space_all _ _ Hall) as Hs. rewrite Forall_forall in Hs. by apply Hs.
Qed.


(** C23: a command line is split into its words, the nonempty pieces between
    ASCII whitespace, whatever the text: at least one and at most eight, the
    first one below /bin unless it names a path, which must fit a path buffer.
    The scanning loops never panic or run out of fuel. *)
Theorem command_line_words command (Hascii : is_ascii command = true) :
  parse_command command =
  match words command with
  | [] => Err tt
  | name :: arguments =>
    if Nat.ltb MAX_ARGV (length (name :: arguments)) || Nat.ltb MAX_PATH_SIZE (length (resolve_command name))
    then Err tt else Ok (resolve_command name :: arguments)
  end.
Proof.
  pose proof (ranges_loop_spec (length command + 1) command 0 [] ltac:(lia) ltac:(lia) ltac:(cbn; lia)) as Hr.
  rewrite drop_0 in Hr. cbn [length Nat.add app] in Hr. unfold parse_command.
  pose proof (words_utf8 command Hascii) as Hu.
  destruct (decide (length (words command) ≤ MAX_ARGV)%nat) as [Hle|Hgt].
  - destruct Hr as (more & -> & Hm). cbn [mbind res_bind].
    replace ((λ '(start, end_), slice command start (end_ - start)) <$> more) with (piece command <$> more)
      by (apply list_fmap_ext; by intros ? [? ?] _).
    rewrite Hm. destruct (words command) as [|name arguments]; [done|].
    cbn [forallb] in Hu. apply andb_true_iff in Hu as [-> ->]. cbn [negb].
    destruct (Nat.ltb_spec MAX_ARGV (length (name :: arguments))); [lia|]. cbn [orb]. by destruct (Nat.ltb _ _).
  - rewrite Hr. cbn [mbind res_bind]. destruct (words command) as [|name arguments]; [cbn in Hgt; lia|].
    destruct (Nat.ltb_spec MAX_ARGV (length (name :: arguments))); [done|lia].
Qed.

Lemma command_line_words_witness :
  is_ascii (bytes "  ls -l	/mnt ") = true ∧
  parse_command (bytes "  ls -l	/mnt ") = Ok [bytes "/bin/ls"; bytes "-l"; bytes "/mnt"].
Proof.
  split; [reflexivity|]. exact (command_line_words (bytes "  ls -l	/mnt ") eq_refl).
Defined.

(** ** Packed results *)

Lemma packed_low a b : 0 ≤ a < 2 ^ 32 → Z.land (Z.lor a (Z.shiftl b 32)) 0xffffffff = a.
Proof.
  intros Ha. change 0xffffffff with (Z.ones 32). apply Z.bits_inj'. intros n Hn.
  rewrite Z.land_spec, Z.lor_spec. destruct (decide (n < 32)).
  - rewrite Z.shiftl_spec_low, Z.ones_spec_low by lia. by rewrite orb_false_r, andb_true_r.
  - rewrite Z.ones_spec_high, andb_false_r by lia. symmetry. rewrite <-(Z.mod_small a (2 ^ 32)) by lia.
    apply Z.mod_pow2_bits_high. lia.
Qed.
Lemma packed_high a b : 0 ≤ a < 2 ^ 32 → Z.shiftr (Z.lor a (Z.shiftl b 32)) 32 = b.
Proof.
  intros Ha. rewrite Z.shiftr_lor, Z.shiftr_shiftl_l, Z.shiftl_0_r by lia.
  rewrite Z.shiftr_div_pow2, Z.div_small by lia. apply Z.lor_0_l.
Qed.

(** A packed endpoint comes out again. *)
Lemma endpoint_roundtrip ip port : 0 ≤ ip < 2 ^ 32 → 0 < port < 2 ^ 16 →
  endpoint_from_packed (endpoint_to_packed (ip, port)) = Some (ip, port).
Proof.
  intros Hi Hp. unfold endpoint_from_packed, endpoint_to_packed. cbn [fst snd].
  rewrite packed_high, packed_low by lia. change 0xffff with (Z.ones 16). rewrite Z.land_ones, Z.mod_small by lia.
  destruct (Z.eqb_spec port 0); [lia|done].
Qed.

Section packed.
Context {A P X F K H : Type} `{Others A P X, Mount F K, Vfs.Frames F, Vfs.DiskFiles K}.
Context (cpu : nat).
Implicit Types s : State A P X F K H.

Lemma find_process_slot (f : Process A P → bool) ps i p : find_process f ps = Some (i, p) → ps !! i = Some (Some p).
Proof using Type.
  unfold find_process. intros (j & _ & (q & Hq & [= <- <-])%bind_Some)%bind_Some.
  destruct (ps !! j) as [o|] eqn:E; [|done]. cbn in Hq. by subst o.
Qed.

Lemma free_descriptor_bounds files d : free_descriptor files = Some d → files !! d = Some None ∧ (3 ≤ d < MAX_FILE_DESCRIPTORS)%nat.
Proof using Type.
  intros [Hin Hd]%find_some. apply in_seq in Hin. split; [by apply bool_decide_eq_true_1 in Hd|].
  unfold MAX_FILE_DESCRIPTORS in *. lia.
Qed.

Lemma install_run (slot : nat) (p : Process A P) fd (w : World A P X F K) d w' : install slot p fd w = (Ok d, w') →
  p_files p !! d = Some None ∧ (3 ≤ d < MAX_FILE_DESCRIPTORS)%nat ∧
  w' = with_procs (<[slot := Some (set_files (<[d := Some fd]> (p_files p)) p)]> (procs w)) w.
Proof using Type.
  unfold install. rewrite bind_lift. destruct (free_descriptor (p_files p)) as [d'|] eqn:E; [|done].
  intros [= <- <-]. by destruct (free_descriptor_bounds _ _ E).
Qed.

Lemma current_process_slot {E} (e : E) (w : World A P X F K) i p w' : current_process cpu e w = (Ok (i, p), w') → procs w' !! i = Some (Some p).
Proof using Type.
  intros (id & w1 & _ & (o & w2 & Ho & Hl)%M_bind_Ok_inv)%M_bind_Ok_inv.
  injection Ho as <- <-. destruct (find_process _ (procs w1)) as [[j q]|] eqn:Ef; [|done].
  injection Hl as <- <- <-. by eapply find_process_slot.
Qed.

(** the result of the pipe call holds two descriptors of the caller, in its
    low and high 32 bits: the first one, free before, is the reading end and the
    second the writing end of one pipe. *)
Theorem pipe_call_unpacks s v s' (Hrun : sys_pipe cpu s = (Ok v, s')) :
  let r := Z.to_nat (Z.land v 0xffffffff) in
  let w := Z.to_nat (Z.shiftr v 32) in
  (3 ≤ r < MAX_FILE_DESCRIPTORS)%nat ∧ (3 ≤ w < MAX_FILE_DESCRIPTORS)%nat ∧ r ≠ w ∧
  ∃ slot p p' id, procs (world s) !! slot = Some (Some p) ∧ procs (world s') !! slot = Some (Some p') ∧
    p_files p !! r = Some None ∧ p_files p !! w = Some None ∧
    p_files p' = <[w := Some (PipeWrite id)]> (<[r := Some (PipeRead id)]> (p_files p)).
Proof using Type.
  unfold sys_pipe in Hrun. apply M_bind_Ok_inv in Hrun as ([r w] & s1 & Hp & [= <- <-]).
  unfold on_world in Hp. destruct (pipe_current cpu (world s)) as [q w'] eqn:E. destruct q as [[r' w'']| |]; try done.
  injection Hp as -> -> <-. cbn [world with_world].
  unfold pipe_current in E. apply M_bind_Ok_inv in E as (id & w1 & Hid & E).
  apply M_bind_Ok_inv in E as ([slot p] & w2 & Hcp & E).
  apply M_bind_Ok_inv in E as (rd & w3 & Hi1 & E). rewrite bind_gets in E.
  destruct (install_run _ _ _ _ _ _ Hi1) as (Hf1 & Hb1 & ->).
  pose proof (current_process_slot _ _ _ _ _ Hcp) as Hslot.
  cbn [procs with_procs] in E. rewrite list_lookup_insert_eq in E by (by eapply lookup_lt_Some). cbn [mjoin option_join] in E.
  rewrite bind_lift in E. cbn [or_panic] in E.
  apply M_bind_Ok_inv in E as (wd & w4 & Hi2 & [= -> -> <-]).
  destruct (install_run _ _ _ _ _ _ Hi2) as (Hf2 & Hb2 & ->). cbn [p_files set_files] in *.
  assert (Hne : r ≠ w).
  { intros ->. rewrite list_lookup_insert_eq in Hf2 by (by eapply lookup_lt_Some). done. }
  rewrite list_lookup_insert_ne in Hf2 by done.
  rewrite packed_low, packed_high, !Nat2Z.id by (unfold MAX_FILE_DESCRIPTORS in *; lia).
  assert (Hprocs : procs w2 = procs (world s)).
  { destruct (quiet_current_process cpu Cwd.NoProcess w1) as [Hq _]. rewrite Hcp in Hq. cbn [snd] in Hq. rewrite Hq.
    unfold on_pipes in Hid. destruct (Pipe.alloc _). by injection Hid as _ <-. }
  split_and!; try lia. eexists slot, p, _, id. cbn [procs with_procs]. rewrite <-Hprocs.
  split_and!; [done|by apply list_lookup_insert_eq; rewrite length_insert; eapply lookup_lt_Some|done..].
Qed.
End packed.

(** ** A process that makes a pipe *)

Module ArgsDemo.
Import ProcessCalls.Demo.
Abbreviation at_start := (mkState started AuditLog.new (Keyboard.mkKeyboard Keyboard.queue_new false (@nil byte)) [] 0 0 0 false).
Definition pipe_result : Z := Z.lor 3 (Z.shiftl 4 32).
Example pipe_runs : (sys_pipe 0 at_start).1 = Ok pipe_result.
Proof. vm_compute. reflexivity. Qed.
Lemma pipe_ran : sys_pipe 0 at_start = (Ok pipe_result, (sys_pipe 0 at_start).2).
Proof. rewrite <-pipe_runs. apply surjective_pairing. Qed.

Lemma pipe_call_unpacks_witness :
  sys_pipe 0 at_start = (Ok pipe_result, (sys_pipe 0 at_start).2) ∧
  ∃ slot p id, procs (world (sys_pipe 0 at_start).2) !! slot = Some (Some p) ∧
    p_files p !! 3%nat = Some (Some (PipeRead id)) ∧ p_files p !! 4%nat = Some (Some (PipeWrite id)).
Proof.
  split; [exact pipe_ran|].
  destruct (pipe_call_unpacks 0 at_start pipe_result _ pipe_ran) as (_ & _ & _ & slot & p & p' & id & _ & Hp & Hr & Hw & Hf).
  exists slot, p', id. change (Z.to_nat (Z.land pipe_result 0xffffffff)) with 3%nat in *.
  change (Z.to_nat (Z.shiftr pipe_result 32)) with 4%nat in *.
  split; [exact Hp|]. rewrite Hf. split.
  - rewrite list_lookup_insert_ne by discriminate. apply list_lookup_insert_eq. exact (lookup_lt_Some _ _ _ Hr).
  - apply list_lookup_insert_eq. rewrite length_insert. exact (lookup_lt_Some _ _ _ Hw).
Defined.
End ArgsDemo.
