(* ===== verification/SyscallRights.v ===== *)
(** * Rights at the system-call boundary (kernel/src/syscall.rs)

    A process whose task lacks the capability a call needs gets the error
    result, and neither files, pipes, mailboxes, processes nor the scheduler
    change.  Messages: sending and receiving implement the abstract mailboxes
    of [Ipc], with the kernel's own idea of who sends. *)
From stdpp Require Import list gmap.
From S2P Require Import Prelude Config Process ProcessRefs Syscall.
From S2P Require Cwd Vfs VfsPath Pipe Ipc Sched Capability AuditLog Keyboard.
From S2P Require Import ProcessCalls ProcessExit.

(** User memory whose pages are present: copies change page tables and frames,
    no other part of the kernel, and fill the whole buffer. *)
Class ResidentMemory (A P X F K : Type) `{UserMemory (World A P X F K)} := {
  copy_from_others a n w : ∃ x, (copy_from_current_user a n w).2 = with_others x w;
  copy_from_length a n w l w' : copy_from_current_user a n w = (Some l, w') → length l = n;
  copy_to_others a l w : ∃ x, (copy_to_current_user a l w).2 = with_others x w }.

Section rights.
Context {A P X F K H : Type} `{Others A P X, Mount F K, Vfs.Frames F, Vfs.DiskFiles K}
        `{UserMemory (World A P X F K), Programs A (World A P X F K), Network X, Keyboard.Ports H}
        `{!ResidentMemory A P X F K}.
Context (stack_start : nat → Z) (cpu : nat) (segments : Z * Z) (keyboard_fuel : nat).
#[local] Abbreviation Io := (M (State A P X F K H) unit).
Implicit Types (s : State A P X F K H) (w : World A P X F K).

(** [s'] is [s] up to user memory and the audit log. *)
Definition only_memory s s' : Prop := ∃ x a, s' = with_audit a (with_world (with_others x (world s)) s).
(** [m] ends in an error and has done nothing else. *)
Definition rejects {T} (m : Io T) s : Prop := ∃ s', m s = (Err tt, s') ∧ only_memory s s'.
(** The running task lacks [c]. *)
Definition lacks (c : Capability.Capability) s : Prop :=
  ∃ t, runs cpu (world s) t ∧ Capability.contains (Sched.t_capabilities t) c = false.

Lemma only_memory_refl s : only_memory s s.
Proof using Type. exists (others (world s)), (audit_log s). by destruct s as [[]]. Qed.
Lemma only_memory_trans s1 s2 s3 : only_memory s1 s2 → only_memory s2 s3 → only_memory s1 s3.
Proof using Type. intros (x & a & ->) (y & b & ->). by exists y, b. Qed.
Lemma lacks_frame c s s' : only_memory s s' → lacks c s → lacks c s'.
Proof using Type. by intros (x & a & ->) Ht. Qed.

(** A bind whose first computation returns, having touched memory only. *)
Lemma rejects_bind {T U} (m : Io T) (f : T → Io U) s a s' : m s = (Ok a, s') → only_memory s s' → rejects (f a) s' → rejects (m ≫= f) s.
Proof using Type.
  intros Hm Hs (s2 & Hf & Hs2). exists s2. rewrite (bind_run _ _ _ _ _ Hm). split; [done|]. by eapply only_memory_trans.
Qed.
Lemma rejects_first {T U} (m : Io T) (f : T → Io U) s : rejects m s → rejects (m ≫= f) s.
Proof using Type. intros (s' & Hm & Hs). exists s'. by rewrite (bind_run _ _ _ _ _ Hm). Qed.
Lemma rejects_fail {T} s : rejects (fail tt : Io T) s.
Proof using Type. exists s. split; [done|apply only_memory_refl]. Qed.
Lemma rejects_require {U} b (f : unit → Io U) s : (b = true → rejects (f tt) s) → rejects (require b ≫= f) s.
Proof using Type.
  intros Hf. unfold require. destruct b; [by apply Hf|]. apply rejects_first, rejects_fail.
Qed.

Lemma copy_from_frame a n s : only_memory s (copy_from a n s).2.
Proof using ResidentMemory0.
  unfold copy_from, call, some, lift, mbind, M_bind. destruct (copy_from_others a n (world s)) as [x Hx].
  destruct (copy_from_current_user a n (world s)) as [o w] eqn:E. cbn [snd] in Hx. subst w.
  exists x, (audit_log s). destruct o; cbn; by destruct s.
Qed.
Lemma copy_from_run a n s : copy_from a n s =
  let '(o, w) := copy_from_current_user a n (world s) in (match o with Some l => Ok l | None => Err tt end, with_world w s).
Proof using Type. unfold copy_from, call, some, lift, mbind, M_bind. by destruct (copy_from_current_user a n (world s)) as [[]]. Qed.
Lemma copy_to_run a l s : copy_to a l s =
  let '(b, w) := copy_to_current_user a l (world s) in (if b : bool then Ok tt else Err tt, with_world w s).
Proof using Type. unfold copy_to, call, require, mbind, M_bind. by destruct (copy_to_current_user a l (world s)) as [[]]. Qed.
Lemma copy_to_frame a l s : only_memory s (copy_to a l s).2.
Proof using ResidentMemory0.
  rewrite copy_to_run. destruct (copy_to_others a l (world s)) as [x Hx].
  destruct (copy_to_current_user a l (world s)) as [o w]. cbn [snd] in *. subst w.
  exists x, (audit_log s). by destruct s.
Qed.
Lemma rejects_copy_from {U} a n (f : list byte → Io U) s :
  (∀ l s', only_memory s s' → rejects (f l) s') → rejects (copy_from a n ≫= f) s.
Proof using ResidentMemory0.
  intros Hf. pose proof (copy_from_frame a n s) as Hs. destruct (copy_from a n s) as [r s'] eqn:E. cbn [snd] in Hs.
  destruct r as [l|[]|].
  - eapply rejects_bind; [exact E|exact Hs|by apply Hf].
  - apply rejects_first. by exists s'.
  - exfalso. clear -E. unfold copy_from, call, some, lift, mbind, M_bind in E.
    destruct (copy_from_current_user a n (world s)) as [[l|] w]; done.
Qed.
Lemma rejects_assoc {T U V} (m : Io T) (g : T → Io U) (f : U → Io V) s :
  rejects (m ≫= λ a, g a ≫= f) s → rejects ((m ≫= g) ≫= f) s.
Proof using Type.
  intros (s' & Hm & Hs). exists s'. split; [|done]. rewrite <-Hm. unfold mbind, M_bind. by destruct (m s) as [[]].
Qed.
Lemma rejects_ret {T U} (a : T) (f : T → Io U) s : rejects (f a) s → rejects (mret a ≫= f) s.
Proof using Type. done. Qed.
Lemma rejects_user_path {U} a n (f : list byte → Io U) s :
  (∀ l s', only_memory s s' → rejects (f l) s') → rejects (user_path a n ≫= f) s.
Proof using ResidentMemory0.
  intros Hf. unfold user_path. apply rejects_assoc, rejects_require. intros _.
  apply rejects_assoc, rejects_copy_from. intros l s' Hs. apply rejects_assoc, rejects_require. intros _.
  by apply rejects_ret, Hf.
Qed.

(** ** The checks of the process layer *)

Lemma world_same s : with_world (world s) s = s.
Proof using Type. by destruct s. Qed.

Lemma has_run {E} w t c : runs cpu w t → current_has cpu c w = (Ok (Capability.contains (Sched.t_capabilities t) c) : res E bool, w).
Proof using Type.
  intros Hr. unfold current_has, on_kernel, Sched.current_has, Sched.running. pose proof (sched_current_task _ _ _ Hr) as Hc.
  destruct Hr as [Hn _]. apply Z.eqb_neq in Hn. unfold mbind, M_bind, gets. rewrite Hn. cbn. rewrite Hc. cbn.
  by rewrite with_same_kernel.
Qed.
Lemma sys_has_run s t c : runs cpu (world s) t → has cpu c s = (Ok (Capability.contains (Sched.t_capabilities t) c), s).
Proof using Type. intros Hr. unfold has, on_world. rewrite (has_run _ _ _ Hr). cbn. by rewrite world_same. Qed.
Lemma pid_run s t : runs cpu (world s) t → ∃ z, pid cpu s = (Ok z, s).
Proof using Type.
  intros Hr. unfold pid, on_world, current_process_id.
  rewrite (bind_run _ _ _ _ _ (current_task_id_run cpu (world s) t [] Hr (not_elem_of_nil _))). cbv beta iota.
  rewrite (bind_run _ _ _ _ _ (find_run _ (world s))). cbv beta iota. cbn. rewrite world_same. by eexists.
Qed.

(** A call that starts with the check of a capability the task lacks. *)
Lemma gate_rejects {T U} c (m : M (World A P X F K) Cwd.FileError T) (k : T → Io U) s :
  lacks c s → (∀ w, current_has cpu c w = (Ok false : res Cwd.FileError bool, w) → m w = (Err Cwd.PermissionDenied, w)) →
  rejects (on_world m ≫= k) s.
Proof using Type.
  intros (t & Hr & Hc) Hm. apply rejects_first. exists s. split; [|apply only_memory_refl].
  unfold on_world. rewrite Hm by (rewrite (has_run _ _ _ Hr), Hc; done). cbn. by rewrite world_same.
Qed.
Lemma gate_fails {T} c (f : unit → M (World A P X F K) Cwd.FileError T) w :
  current_has cpu c w = (Ok false : res Cwd.FileError bool, w) → (gate cpu c ≫= f) w = (Err Cwd.PermissionDenied, w).
Proof using Type.
  intros Hc. unfold gate. unfold mbind at 1, M_bind at 1. by rewrite (bind_run _ _ _ _ _ Hc).
Qed.

Lemma rejects_pid {U} (f : Z → Io U) c s : lacks c s → (∀ z, rejects (f z) s) → rejects (pid cpu ≫= f) s.
Proof using Type.
  intros (t & Hr & _) Hf. destruct (pid_run s t Hr) as [z Hz].
  eapply rejects_bind; [exact Hz|apply only_memory_refl|apply Hf].
Qed.
Lemma rejects_has {U} (f : bool → Io U) c s : lacks c s → rejects (f false) s → rejects (has cpu c ≫= f) s.
Proof using Type.
  intros (t & Hr & Hc) Hf. eapply rejects_bind; [by apply sys_has_run|apply only_memory_refl|by rewrite Hc].
Qed.
Lemma rejects_record {U} actor action target b (f : unit → Io U) s :
  (∀ s', only_memory s s' → rejects (f tt) s') → rejects (record actor action target b ≫= f) s.
Proof using Type.
  intros Hf. eapply rejects_bind; [done| |apply Hf]; eexists (others (world s)), _; by destruct s as [[]].
Qed.
Lemma rejects_value (m : Io Z) s : rejects m s → rejects (value m) s.
Proof using Type. apply rejects_first. Qed.

(** ** No call without its rights *)

(** The capabilities a call cannot do without. *)
Definition needs (n : Number) : list Capability.Capability :=
  match n with
  | Open | Stat | Readdir | Chdir => [Capability.FileRead]
  | Mkdir | Unlink | Rename => [Capability.FileWrite]
  | Exec | ExecCommand | SpawnCommand => [Capability.FileRead; Capability.ProcessCreate]
  | Fork => [Capability.ProcessCreate]
  | MessageSend | MessageReceive => [Capability.Ipc]
  | _ => []
  end.

Lemma rejects_may_exec {U} (f : bool → Io U) c s : c ∈ [Capability.FileRead; Capability.ProcessCreate] → lacks c s →
  rejects (f false) s → rejects (may_exec cpu ≫= f) s.
Proof using Type.
  intros Hc (t & Hr & Hl) Hf. eapply rejects_bind; [|apply only_memory_refl|exact Hf].
  unfold may_exec. rewrite (bind_run _ _ _ _ _ (sys_has_run _ _ _ Hr)).
  destruct (Capability.contains _ Capability.FileRead) eqn:E; [|done]. rewrite (sys_has_run _ _ _ Hr).
  apply elem_of_cons in Hc as [->|Hc%list_elem_of_singleton]; [congruence|]. subst c. by rewrite Hl.
Qed.


(** ** Messages *)

(** The process [p] makes the call. *)
Definition caller s t (p : Process A P) : Prop :=
  runs cpu (world s) t ∧ ∃ slot, find_process (of_task (Sched.t_id t)) (procs (world s)) = Some (slot, p).

Lemma pid_is s t p : caller s t p → pid cpu s = (Ok (p_id p), s).
Proof using Type.
  intros (Hr & slot & Hp). unfold pid, on_world. rewrite (current_pid_run _ _ _ _ _ Hr Hp). cbn. by rewrite world_same.
Qed.
(** The processes are allowed to talk. *)
Definition may_talk (p : Process A P) (receiver : Z) s : bool :=
  match process_credentials receiver (world s) with Some r => credentials_may_ipc (p_credentials p) r | None => false end.
Lemma may_ipc_run s t p receiver : caller s t p → on_world (may_ipc_with (E:=unit) cpu receiver) s = (Ok (may_talk p receiver s), s).
Proof using Type.
  intros (Hr & slot & Hp). unfold on_world, may_ipc_with, current_credentials.
  assert (Hc : (id ← current_task_id cpu []; o ← find_by [] (of_task id); mret (match o with Some (_, p) => p_credentials p | None => ROOT end)) (world s)
    = (Ok (p_credentials p) : res unit Credentials, world s)).
  { rewrite (bind_run _ _ _ _ _ (current_task_id_run cpu (world s) t [] Hr (not_elem_of_nil _))). cbv beta iota.
    rewrite (bind_run _ _ _ _ _ (find_run _ (world s))). cbv beta iota. by rewrite Hp. }
  rewrite (bind_run _ _ _ _ _ Hc). cbn. by rewrite world_same.
Qed.

Lemma send_outcome from receiver payload m b : Ipc.ipc_rel m b →
  let '(r, m') := Ipc.send from receiver payload m in
  match r with
  | Ok _ => ∃ q, b !! receiver = Some q ∧ Ipc.ipc_rel m' (<[receiver := q ++ [(from, payload)]]> b)
  | Err _ => Ipc.ipc_rel m' b
  | Panic => False
  end.
Proof using Type.
  intros Hb. destruct (Ipc.send_sim from receiver payload m b Hb) as (m' & Hs & Hb').
  cbn [Ipc.code_step] in Hs. destruct (Ipc.send from receiver payload m) as [r m2]. injection Hs as Hr ->. revert Hr Hb'. 
  cbn [Ipc.spec_step]. repeat case_decide; try (destruct (b !! from)); try (destruct (b !! receiver) as [q|] eqn:Eq); try case_decide; cbn [fst snd].
  all: destruct r as [[]|e|]; try done; intros _ Hb'; eauto.
Qed.

Lemma receive_outcome o m b : Ipc.ipc_rel m b →
  match Ipc.peek o m with
  | Ok msg => ∃ q msg' m', b !! o = Some (Ipc.view msg :: q) ∧ Ipc.receive o m = (Ok msg', m') ∧ Ipc.ipc_rel m' (<[o := q]> b)
  | Err _ => True
  | Panic => False
  end.
Proof using Type.
  intros Hb. destruct (Ipc.peek_sim o m b Hb) as (m1 & Hpeek & _). destruct (Ipc.receive_sim o m b Hb) as (m' & Hrec & Hb').
  cbn [Ipc.code_step Ipc.spec_step] in *. destruct (Ipc.receive o m) as [r m2]. injection Hrec as Hr ->.
  injection Hpeek as Hp _. destruct (b !! o) as [[|x q]|]; cbn in *; destruct (Ipc.peek o m) as [msg|e|]; try done.
  injection Hp as ->. exists q. destruct r as [msg'|e|]; try done. by exists msg', m'.
Qed.

Lemma caller_frame s s' t p : only_memory s s' → caller s t p → caller s' t p.
Proof using Type. by intros (x & a & ->) Hc. Qed.
Lemma ipc_frame s s' : only_memory s s' → ipc (world s') = ipc (world s).
Proof using Type. by intros (x & a & ->). Qed.

Lemma try_ipc_run {T} (m : M Ipc.State Ipc.IpcError T) s : try_world (on_ipc id m) s =
  let '(r, i) := m (ipc (world s)) in (match r with Panic => Panic | _ => Ok r end, with_world (with_ipc i (world s)) s).
Proof using Type. unfold try_world, on_ipc. by destruct (m (ipc (world s))) as [[] i]. Qed.

Lemma peek_run z s : on_world (on_ipc id (λ m, (Ipc.peek z m, m))) s =
  (match Ipc.peek z (ipc (world s)) with Ok m => Ok m | Err _ => Err tt | Panic => Panic end, s).
Proof using Type. unfold on_world, on_ipc. destruct s as [[]]. cbn. by destruct (Ipc.peek _ _). Qed.
Lemma require_bind {U} c (f : unit → Io U) s : (require c ≫= f) s = if c then f tt s else (Err tt, s).
Proof using Type. by destruct c. Qed.

(** What a send may do. *)
Definition sent s b (p : Process A P) (receiver buffer len : Z) (r : res unit Z) s' : Prop :=
  match r with
  | Ok v => v = 0 ∧ ∃ q payload, b !! receiver = Some q ∧ may_talk p receiver s = true ∧
      0 ≤ len ≤ Z.of_nat MAX_MESSAGE_SIZE ∧ length payload = Z.to_nat len ∧
      (copy_from_current_user buffer (Z.to_nat len) (world s)).1 = Some payload ∧
      Ipc.ipc_rel (ipc (world s')) (<[receiver := q ++ [(p_id p, payload)]]> b)
  | Err _ => Ipc.ipc_rel (ipc (world s')) b
  | Panic => False
  end.

Lemma send_refines s t p b receiver buffer len : caller s t p → Ipc.ipc_rel (ipc (world s)) b → 0 ≤ len →
  sent s b p receiver buffer len (sys_message_send cpu receiver buffer len s).1 (sys_message_send cpu receiver buffer len s).2 ∧
  (is_ok (sys_message_send cpu receiver buffer len s).1 = true → Capability.contains (Sched.t_capabilities t) Capability.Ipc = true).
Proof using ResidentMemory0.
  intros Hc Hb Hlen. unfold sys_message_send. rewrite (bind_run _ _ _ _ _ (pid_is _ _ _ Hc)).
  rewrite (bind_run _ _ _ _ _ (sys_has_run _ _ _ (proj1 Hc))).
  destruct (Capability.contains _ Capability.Ipc); [|by rewrite bind_ret]. split; [|done].
  rewrite (bind_run _ _ _ _ _ (may_ipc_run _ _ _ receiver Hc)).
  destruct (may_talk p receiver s) eqn:Em; [|done]. cbn [negb].
  destruct (Z.leb_spec len (Z.of_nat MAX_MESSAGE_SIZE)) as [Hmax|Hmax].
  2:{ unfold copy_in. by rewrite (proj2 (Z.leb_gt _ _) Hmax). }
  pose proof (copy_from_frame buffer (Z.to_nat len) s) as Hf.
  pose proof (copy_from_run buffer (Z.to_nat len) s) as Hrun.
  assert (Hin : copy_in MAX_MESSAGE_SIZE buffer len s = copy_from buffer (Z.to_nat len) s)
    by (unfold copy_in; by rewrite (proj2 (Z.leb_le _ _) Hmax)). rewrite <-Hin in Hrun, Hf.
  destruct (copy_from_current_user buffer (Z.to_nat len) (world s)) as [[payload|] w] eqn:Ecopy; cbv beta iota in Hrun;
    rewrite Hrun in Hf; cbn [snd] in Hf; rewrite (bind_run _ _ _ _ _ Hrun); cbv beta iota.
  2:{ pose proof (ipc_frame _ _ Hf) as Hi. cbn in Hi |- *. by rewrite Hi. }
  rewrite (bind_run _ _ _ _ _ (pid_is _ _ _ (caller_frame _ _ _ _ Hf Hc))). cbv beta iota.
  rewrite <-(ipc_frame _ _ Hf) in Hb. cbn [world with_world] in Hb.
  pose proof (send_outcome (p_id p) receiver payload _ b Hb) as Ho.
  pose proof (try_ipc_run (Ipc.send (p_id p) receiver payload) (with_world w s)) as Hsend. cbn [world with_world] in Hsend.
  destruct (Ipc.send (p_id p) receiver payload (ipc w)) as [[[]|e|] m']; [| |done]; rewrite (bind_run _ _ _ _ _ Hsend).
  - destruct Ho as (q & Hq & Hr). cbn. split; [done|]. exists q, payload.
    rewrite Ecopy. split_and!; try done. by eapply copy_from_length.
  - exact Ho.
Qed.

Definition received s b (p : Process A P) (buffer capacity user_sender : Z) (r : res unit Z) s' : Prop :=
  match r with
  | Ok v => ∃ from payload q w1 w2, b !! p_id p = Some ((from, payload) :: q) ∧ v = Z.of_nat (length payload) ∧ v ≤ capacity ∧
      copy_to_current_user buffer payload (world s) = (true, w1) ∧ copy_to_current_user user_sender (to_le_bytes 8 from) w1 = (true, w2) ∧
      Ipc.ipc_rel (ipc (world s')) (<[p_id p := q]> b)
  | Err _ => Ipc.ipc_rel (ipc (world s')) b
  | Panic => False
  end.

Lemma receive_refines s t p b buffer capacity user_sender : caller s t p → Ipc.ipc_rel (ipc (world s)) b →
  let '(r, s') := sys_message_receive cpu buffer capacity user_sender s in
  received s b p buffer capacity user_sender r s' ∧
  (is_ok r = true → Capability.contains (Sched.t_capabilities t) Capability.Ipc = true).
Proof using ResidentMemory0.
  intros Hc Hb. unfold sys_message_receive. rewrite (bind_run _ _ _ _ _ (sys_has_run _ _ _ (proj1 Hc))).
  destruct (Capability.contains _ Capability.Ipc) eqn:Eipc; [|by rewrite require_bind]. rewrite require_bind.
  rewrite (bind_run _ _ _ _ _ (pid_is _ _ _ Hc)), (bind_run _ _ _ _ _ (peek_run (p_id p) s)).
  pose proof (receive_outcome (p_id p) _ b Hb) as Ho.
  destruct (Ipc.peek (p_id p) (ipc (world s))) as [msg|e|]; [|done|done]. rewrite require_bind.
  destruct (Z.leb_spec (Z.of_nat (length (Ipc.payload msg))) capacity) as [Hcap|]; [|done].
  pose proof (copy_to_frame buffer (Ipc.payload msg) s) as Hf1. pose proof (copy_to_run buffer (Ipc.payload msg) s) as H1run.
  destruct (copy_to_current_user buffer (Ipc.payload msg) (world s)) as [[] w1] eqn:E1; rewrite H1run in Hf1;
    rewrite (bind_run _ _ _ _ _ H1run); cbn [snd] in Hf1; pose proof (ipc_frame _ _ Hf1) as Hi1; cbn [world with_world] in Hi1.
  2:{ split; [|done]. cbn. by rewrite Hi1. }
  set (s1 := with_world w1 s) in *.
  pose proof (copy_to_frame user_sender (to_le_bytes 8 (Ipc.sender msg)) s1) as Hf2.
  pose proof (copy_to_run user_sender (to_le_bytes 8 (Ipc.sender msg)) s1) as H2run.
  cbn [s1 world with_world] in H2run.
  destruct (copy_to_current_user user_sender (to_le_bytes 8 (Ipc.sender msg)) w1) as [[] w2] eqn:E2; rewrite H2run in Hf2;
    rewrite (bind_run _ _ _ _ _ H2run); cbn [snd] in Hf2; pose proof (ipc_frame _ _ Hf2) as Hi2; cbn [world with_world s1] in Hi2.
  2:{ split; [|done]. cbn. by rewrite Hi2, Hi1. }
  destruct Ho as (q & msg' & m' & Hq & Hrec & Hb').
  assert (Hrun : on_world (on_ipc id (Ipc.receive (p_id p))) (with_world w2 s1) = (Ok msg', with_world (with_ipc m' w2) (with_world w2 s1))).
  { unfold on_world, on_ipc. cbn [world with_world]. rewrite Hi2, Hi1, Hrec. done. }
  rewrite (bind_run _ _ _ _ _ Hrun). split; [|done]. cbn.
  by exists (Ipc.sender msg), (Ipc.payload msg), q, w1, w2.
Qed.

End rights.

(** ** A process without the right to write files *)

Module RightsDemo.
Import ProcessCalls.Demo ProcessExit.ExitDemo.
(** User memory reads as slashes, and there is nothing else. *)
#[export] Instance memory : UserMemory Wd := {
  copy_from_current_user _ n w := (Some (replicate n VfsPath.SLASH), w); copy_to_current_user _ _ w := (true, w) }.
#[export] Instance programs : Programs Z Wd := {
  load_elf_with_argv _ _ w := (None, w); mmap_file_current _ _ _ _ _ _ w := (None, w);
  msync_current _ _ w := (false, w); sync_all_mounted w := (None, w) }.
#[export] Instance network : Network unit := {
  socket_open _ _ x := (None, x); socket_bind _ _ _ x := (false, x); socket_connect _ _ _ x := (false, x);
  socket_send _ _ _ x := (None, x); socket_recv _ _ _ x := (Err SocketFailed, x); socket_close _ _ x := (false, x);
  socket_peer _ _ _ := None; net_info _ := []; dns_start _ x := (None, x); dns_poll _ x := (None, x);
  set_dhcp _ x := (false, x); ping_start _ x := (false, x); ping_poll x := (None, x) }.
#[export] Instance resident : ResidentMemory Z unit unit unit unit.
Proof.
  split.
  - intros a n w. exists tt. by destruct w as [? ? ? ? ? ? ? []].
  - intros a n w l w' [= <- _]. apply length_replicate.
  - intros a l w. exists tt. by destruct w as [? ? ? ? ? ? ? []].
Qed.
#[export] Instance no_keys : Keyboard.Ports unit := { Keyboard.status_port _ := 0; Keyboard.data_port h := (x00, h) }.

(** The kernel takes the right from the new process, task 2, before it runs. *)
Definition without_right (w : Wd) : Wd := with_kernel (snd (Sched.revoke 0 2 Capability.FileWrite (kernel w))) w.
Abbreviation jailed_world := (yielded (without_right (after (CSpawn (8, 16) "init" program) w0))).
Definition with_parts (w : Wd) : State Z unit unit unit unit unit :=
  mkState w AuditLog.new (Keyboard.mkKeyboard Keyboard.queue_new false tt) [] 0 0 0 false.
Abbreviation jailed := (with_parts jailed_world).

Definition jail (w : Wd) : bool :=
  match running w with
  | Some t => negb (Sched.task_count (Sched.sched (kernel w)) =? 0) && negb (Capability.contains (Sched.t_capabilities t) Capability.FileWrite)
              && Capability.contains (Sched.t_capabilities t) Capability.FileRead
  | None => false
  end.
Example jail_closed : jail jailed_world = true.
Proof. vm_compute. reflexivity. Qed.
Lemma jailed_lacks w : jail w = true → lacks 0 Capability.FileWrite (with_parts w).
Proof.
  unfold jail. destruct (running w) as [t|] eqn:Hr; [|done]. intros [[Hn%negb_true_iff Hl%negb_true_iff]%andb_true_iff _]%andb_true_iff.
  exists t. split; [by apply running_runs|done].
Qed.


(** A process writes to itself. *)
Definition self_talk (w : Wd) : bool :=
  match running w with
  | Some t => negb (Sched.task_count (Sched.sched (kernel w)) =? 0) &&
    match find_process (of_task (Sched.t_id t)) (procs w) with Some (_, p) => p_id p =? 1 | None => false end
  | None => false
  end.
Example self_talks : self_talk started = true.
Proof. vm_compute. reflexivity. Qed.
Lemma self_found w : self_talk w = true → ∃ t p, caller 0 (with_parts w) t p ∧ p_id p = 1.
Proof.
  unfold self_talk. destruct (running w) as [t|] eqn:Hr; [|done]. intros [Hn%negb_true_iff Hs]%andb_true_iff.
  destruct (find_process _ _) as [[slot p]|] eqn:Hp; [|done]. apply Z.eqb_eq in Hs.
  exists t, p. split; [|exact Hs]. split; [by apply running_runs|]. by exists slot.
Qed.
Example one_box : ipc started = (Ipc.register 1 Ipc.new).2.
Proof. vm_compute. reflexivity. Qed.
Lemma box_rel : Ipc.ipc_rel (ipc started) {[ 1 := [] ]}.
Proof.
  destruct (Ipc.register_sim 1 Ipc.new ∅ Ipc.ipc_rel_new) as (m & Hm & Hb). rewrite one_box.
  cbn [Ipc.code_step Ipc.spec_step] in Hm, Hb. destruct (Ipc.register 1 Ipc.new) as [r m2]. injection Hm as _ ->.
  rewrite decide_False in Hb by (rewrite lookup_empty; by intros [? ?]).
  rewrite decide_False in Hb by (rewrite map_size_empty; vm_compute; discriminate). exact Hb.
Qed.

End RightsDemo.
