(* ===== verification/SyscallReturn.v ===== *)
(** * The return from a system call (kernel/src/syscall.rs)

    What the registers hold when a call returns, and what happens to a signal
    the process catches: it enters the handler on the way back, except when
    its stack cannot take the return address, and then it is lost. *)
From stdpp Require Import list gmap.
From S2P Require Import Prelude Config Process ProcessRefs Syscall SyscallArgs.
From S2P Require Cwd Vfs VfsPath Pipe Ipc Sched Capability AuditLog Keyboard.
From S2P Require Import ProcessCalls ProcessExit SyscallRights.

Section return_.
Context {A P X F K H : Type} `{Others A P X, Mount F K, Vfs.Frames F, Vfs.DiskFiles K}
        `{UserMemory (World A P X F K), Programs A (World A P X F K), Network X, Keyboard.Ports H}.
Context (stack_start : nat → Z) (cpu : nat) (segments : Z * Z) (keyboard_fuel : nat).
Implicit Types (s : State A P X F K H) (w : World A P X F K) (p : Process A P) (f : UserForkFrame).

(** A signal the process has a handler for waits. *)
Definition caught p (handler : Z) : Prop :=
  p_pending p ≠ 0 ∧ p_pending p ≤ 31 ∧ p_actions p !! Z.to_nat (p_pending p) = Some handler ∧ 1 < handler.

(** The pending signal is taken or nothing happens. *)
Lemma take_pending_cases w r w' : take_pending_signal_current cpu w = (r, w') →
  match r with
  | Ok (Some (sig, handler)) => ∃ slot p, procs w !! slot = Some (Some p) ∧ caught p handler ∧ sig = p_pending p ∧
      procs w' = <[slot := Some (set_pending 0 p)]> (procs w)
  | _ => procs w' = procs w
  end.
Proof using Type.
  unfold take_pending_signal_current. intros Ht.
  destruct (quiet_current_task (E:=Cwd.FileError) cpu [] w) as [Hq _].
  destruct (current_task_id cpu [] w) as [[id|e|] w1] eqn:E1; rewrite (bind_run _ _ _ _ _ E1) in Ht; cbn [snd] in Hq;
    [|by injection Ht as <- <-..].
  rewrite (bind_run _ _ _ _ _ (find_run _ w1)) in Ht. cbv beta iota in Ht.
  destruct (find_process (of_task id) (procs w1)) as [[slot p]|] eqn:Ef; [|by injection Ht as <- <-].
  apply find_process_slot in Ef. rewrite Hq in Ef. cbv zeta in Ht.
  destruct ((p_pending p =? 0) || (31 <? p_pending p)) eqn:Eg; [by injection Ht as <- <-|].
  apply orb_false_iff in Eg as [E0%Z.eqb_neq E31%Z.ltb_ge].
  rewrite bind_lift in Ht. destruct (p_actions p !! Z.to_nat (p_pending p)) as [handler|] eqn:Ea; [|by injection Ht as <- <-].
  cbn [or_panic] in Ht. destruct (Z.leb_spec handler 1); [by injection Ht as <- <-|].
  injection Ht as <- <-. exists slot, p. cbn [procs with_procs]. by rewrite Hq.
Qed.

(** The frame after the delivery of a signal, if one is delivered. *)
Definition signal_frame s f f' : Prop :=
  ∃ slot p handler w w', procs (world s) !! slot = Some (Some p) ∧ caught p handler ∧ 8 ≤ rsp f ∧
    copy_to_current_user (rsp f - 8) (to_le_bytes 8 (rip f)) w = (true, w') ∧
    f' = enter_handler (rsp f - 8) handler (p_pending p) f.

Lemma prepare_cases s f o s' : prepare_signal_delivery cpu (Some f) s = (Ok o, s') →
  ∃ f', o = Some f' ∧ (f' = f ∨ signal_frame s f f').
Proof using Type.
  unfold prepare_signal_delivery, on_world. intros Hp.
  destruct (take_pending_signal_current cpu (world s)) as [r w1] eqn:Et. pose proof (take_pending_cases _ _ _ Et) as Hc.
  unfold mbind at 1, M_bind at 1 in Hp. rewrite Et in Hp.
  destruct r as [[[sig handler]|]|e|]; cbn [map_err] in Hp; [|injection Hp as <- <-; by exists f; auto|done..].
  destruct Hc as (slot & p & Hs & Hcaught & -> & _).
  destruct (Z.ltb_spec (rsp f) 8); [injection Hp as <- <-; exists f; auto|].
  unfold call, mbind, M_bind in Hp. cbn [world with_world] in Hp.
  destruct (copy_to_current_user (rsp f - 8) (to_le_bytes 8 (rip f)) w1) as [[] w2] eqn:Ec; injection Hp as <- <-;
    [|exists f; auto].
  eexists. split; [done|]. right. by exists slot, p, handler, w1, w2.
Qed.


(** A call made while a caught signal is pending and the user stack cannot take
    the return address forgets the signal: the registers are those of a plain
    return, and the process is never told. *)
Theorem signal_lost_on_bad_stack `{!ResidentMemory A P X F K} number v f s t slot p handler
    (Hr : runs cpu (world s) t) (Hp : find_process (of_task (Sched.t_id t)) (procs (world s)) = Some (slot, p))
    (Hc : caught p handler)
    (Hbad : rsp f < 8 ∨ ∀ w, (copy_to_current_user (rsp f - 8) (to_le_bytes 8 (rip f)) w).1 = false) :
  ∃ s', finish cpu number (Some f) v s = (Ok (v, Some f), s') ∧ procs (world s') !! slot = Some (Some (set_pending 0 p)).
Proof using Type.
  clear stack_start segments keyboard_fuel. destruct Hc as (H0' & H31 & Ha & Hh).
  assert (Ht : take_pending_signal_current cpu (world s)
    = (Ok (Some (p_pending p, handler)) : res Cwd.FileError _, with_procs (<[slot := Some (set_pending 0 p)]> (procs (world s))) (world s))).
  { unfold take_pending_signal_current.
    rewrite (bind_run _ _ _ _ _ (current_task_id_run cpu (world s) t [] Hr (not_elem_of_nil _))). cbv beta iota.
    rewrite (bind_run _ _ _ _ _ (find_run _ (world s))). cbv beta iota. rewrite Hp.
    rewrite (proj2 (Z.eqb_neq _ _) H0'), (proj2 (Z.ltb_ge _ _) H31). cbn [orb]. rewrite bind_lift, Ha. cbn [or_panic].
    by rewrite (proj2 (Z.leb_gt _ _) Hh). }
  pose proof (find_process_slot _ _ _ _ Hp) as Hslot.
  unfold finish, prepare_signal_delivery, on_world. unfold mbind, M_bind. rewrite Ht. cbn [map_err].
  destruct (Z.ltb_spec (rsp f) 8).
  { eexists. split; [done|]. cbn. apply list_lookup_insert_eq. by eapply lookup_lt_Some. }
  destruct Hbad as [|Hbad]; [lia|]. unfold call. cbn [world with_world].
  set (w1 := with_procs _ _). specialize (Hbad w1). destruct (copy_to_others (rsp f - 8) (to_le_bytes 8 (rip f)) w1) as [x Hx].
  destruct (copy_to_current_user _ _ w1) as [b w2]. cbn [fst snd] in *. subst b w2.
  eexists. split; [done|]. cbn. apply list_lookup_insert_eq. by eapply lookup_lt_Some.
Qed.
End return_.

(** ** A process returns from a call *)

Module ReturnDemo.
Import ProcessCalls.Demo ProcessExit.ExitDemo RightsDemo.
(** Getpid, with the stack pointer at 4096. *)
Definition regs : UserForkFrame := mkFrame 0 0 0 0 0 0 0 0 0 0 0 0 0 0 4 8192 0 0 4096 0.
Abbreviation calling := (with_parts started).
Abbreviation entered := (wovenhat_syscall_entry stacks 0 (8, 16) 1 regs calling).
Definition returned (r : res unit (Reply (A:=Z) (P:=unit) (X:=unit) (F:=unit) (K:=unit) (H:=unit) UserForkFrame)) : option UserForkFrame :=
  match r with Ok (Return _ f) => Some f | _ => None end.
Example getpid_returns : rax <$> returned entered.1 = Some 1.
Proof. vm_compute. reflexivity. Qed.


(** The process catches signal 10 and sends it to itself. *)
Definition catching (w : Wd) : Wd := (kill_process 0 1 10 (sigaction_current 0 10 4096 w).2).2.
Abbreviation signalled := (catching started).
Definition stuck : UserForkFrame := mkFrame 0 0 0 0 0 0 0 0 0 0 0 0 0 0 4 8192 0 0 4 0.
Definition waiting_signal (w : Wd) : bool :=
  match running w with
  | Some t => negb (Sched.task_count (Sched.sched (kernel w)) =? 0) &&
    match find_process (of_task (Sched.t_id t)) (procs w) with
    | Some (_, p) => (p_pending p =? 10) && bool_decide (p_actions p !! 10%nat = Some 4096)
    | None => false
    end
  | None => false
  end.
Example signal_waits : waiting_signal signalled = true.
Proof. vm_compute. reflexivity. Qed.
Lemma waiting_found w : waiting_signal w = true → ∃ t slot p, runs 0 w t ∧
  find_process (of_task (Sched.t_id t)) (procs w) = Some (slot, p) ∧ caught p 4096 ∧ p_pending p = 10.
Proof.
  unfold waiting_signal. destruct (running w) as [t|] eqn:Hr; [|done]. intros [Hn%negb_true_iff Hs]%andb_true_iff.
  destruct (find_process _ _) as [[slot p]|] eqn:Hp; [|done].
  apply andb_true_iff in Hs as [Hs%Z.eqb_eq Ha%bool_decide_eq_true_1].
  exists t, slot, p. split; [by apply running_runs|]. split; [done|]. split; [|done]. unfold caught. rewrite Hs. by split_and!.
Qed.

Lemma signal_lost_witness :
  ∃ t slot p, (runs 0 signalled t ∧ find_process (of_task (Sched.t_id t)) (procs signalled) = Some (slot, p) ∧ caught p 4096 ∧ rsp stuck < 8) ∧
  ∃ s', finish 0 4 (Some stuck) 1 (with_parts signalled) = (Ok (1, Some stuck), s') ∧
    procs (world s') !! slot = Some (Some (set_pending 0 p)).
Proof.
  destruct (waiting_found signalled signal_waits) as (t & slot & p & Hr & Hp & Hc & _).
  assert (Hlow : rsp stuck < 8) by (vm_compute; reflexivity).
  exists t, slot, p. split; [exact (conj Hr (conj Hp (conj Hc Hlow)))|].
  exact (signal_lost_on_bad_stack 0 4 1 stuck (with_parts signalled) t slot p 4096 Hr Hp Hc (or_introl Hlow)).
Defined.
End ReturnDemo.
