(* ===== verification/FileFrames.v ===== *)
(** * Frames of mapped files (kernel/src/file_frames.rs)

    The cache of physical pages that file mappings share.  A shared page is the
    file's own memory: reads of the file are overlaid with it and writes of the
    file update it, which is what the VFS asks of its [Frames].  Filling the cache
    ([map]) needs the VFS and the mappings, and is in Mappings.v. *)
From stdpp Require Import list.
From S2P Require Import Prelude Memory Paging.
From S2P Require Vfs.

Definition CAPACITY : nat := 64.

Record Key := mkKey {
  k_node : nat; k_generation : Z; k_version : Z; k_offset : nat; k_count : nat; k_shared : bool; k_snapshot : Z }.
Record Entry := mkEntry { e_key : Key; e_frame : Z; e_age : Z }.

Definition same_page (a b : Key) : bool :=
  Nat.eqb (k_node a) (k_node b) && (k_generation a =? k_generation b) && (k_version a =? k_version b)
  && Nat.eqb (k_offset a) (k_offset b) && Bool.eqb (k_shared a) (k_shared b) && (k_snapshot a =? k_snapshot b)
  && (k_shared a || Nat.eqb (k_count a) (k_count b)).

(** The statics [CACHE] and [SNAPSHOTS], over the machine's frames. *)
Record FrameCache (PT : Type) := mkCache { fc_entries : list (option Entry); fc_snapshots : Z; fc_machine : Machine PT }.
Arguments mkCache {PT}. Arguments fc_entries {PT}. Arguments fc_snapshots {PT}. Arguments fc_machine {PT}.

Section cache.
Context {PT : Type} `{PageTables PT, PhysFrames}.
#[local] Abbreviation Op := (M (FrameCache PT) unit).
Implicit Types c : FrameCache PT.

Definition cache_new (m : Machine PT) : FrameCache PT := mkCache (replicate CAPACITY None) 1 m.
Definition set_entries es c : FrameCache PT := mkCache es (fc_snapshots c) (fc_machine c).
(** A call of paging.rs: [Ok], or any error. *)
Definition paging {A} (f : M (Machine PT) MapRangeError A) : Op (option A) := λ c,
  let '(r, m) := f (fc_machine c) in
  (match r with Ok a => Ok (Some a) | Err _ => Ok None | Panic => Panic end, mkCache (fc_entries c) (fc_snapshots c) m).
Definition paging_true (f : M (Machine PT) MapRangeError bool) : Op bool := o ← paging f; mret (bool_decide (o = Some true)).
Definition paging_unit {A} (f : M (Machine PT) MapRangeError A) : Op unit := _ ← paging f; mret tt.

Definition references c (frame : Z) : Z := Paging.references (cow (fc_machine c)) frame.

(** ** Giving unused pages back *)

Fixpoint reclaim_slots (es : list (option Entry)) : Op (list (option Entry) * nat) :=
  match es with
  | [] => mret ([], 0%nat)
  | None :: es => '(es, n) ← reclaim_slots es; mret (None :: es, n)
  | Some e :: es =>
    refs ← gets (λ c, references c (e_frame e));
    released ← (if refs =? 1 then paging_true (release_file_frame (e_frame e)) else mret false);
    '(es, n) ← reclaim_slots es;
    mret (if released : bool then (None :: es, S n) else (Some e :: es, n))
  end.
Definition reclaim_unused : Op nat :=
  es ← gets fc_entries;
  '(es, n) ← reclaim_slots es;
  _ ← modify (set_entries es);
  mret n.

(** ** The shared pages of a file *)

Definition of_file (node : nat) (generation : Z) (k : Key) : bool :=
  k_shared k && Nat.eqb (k_node k) node && (k_generation k =? generation).

Fixpoint overlay_entries (es : list (option Entry)) (node : nat) (generation : Z) (offset : nat) (bytes : list byte) : Op (list byte) :=
  match es with
  | [] => mret bytes
  | o :: es =>
    bytes ← (match o with
             | Some e =>
               if negb (of_file node generation (e_key e)) then mret bytes else
               let start := Nat.max offset (k_offset (e_key e)) in
               let stop := Nat.min (offset + length bytes) (k_offset (e_key e) + k_count (e_key e)) in
               if Nat.ltb start stop then
                 part ← paging (read_file_frame (e_frame e) (start - k_offset (e_key e)) (stop - start));
                 mret (match part with Some part => splice bytes (start - offset) part | None => bytes end)
               else mret bytes
             | None => mret bytes
             end);
    overlay_entries es node generation offset bytes
  end.
Definition overlay (node : nat) (generation : Z) (offset : nat) (bytes : list byte) : Op (list byte) :=
  es ← gets fc_entries; overlay_entries es node generation offset bytes.

Definition grown (offset len : nat) (k : Key) : Key :=
  if Nat.ltb offset (k_offset k + 4096) && Nat.ltb (k_offset k) (offset + len)
  then mkKey (k_node k) (k_generation k) (k_version k) (k_offset k)
         (Nat.max (k_count k) (Nat.min (offset + len - k_offset k) 4096)) (k_shared k) (k_snapshot k)
  else k.

(** The loops of [update] and [replace] over the entries of the file. *)
Fixpoint each_entry (es : list (option Entry)) (f : Entry → Op Entry) : Op (list (option Entry)) :=
  match es with
  | [] => mret []
  | None :: es => es ← each_entry es f; mret (None :: es)
  | Some e :: es => e ← f e; es ← each_entry es f; mret (Some e :: es)
  end.

Definition update_entry (node : nat) (generation : Z) (offset : nat) (bytes : list byte) (e : Entry) : Op Entry :=
  if negb (of_file node generation (e_key e)) then mret e else
  let k := grown offset (length bytes) (e_key e) in
  let start := Nat.max offset (k_offset k) in
  let stop := Nat.min (offset + length bytes) (k_offset k + k_count k) in
  _ ← (if Nat.ltb start stop
       then paging_unit (write_file_frame (e_frame e) (start - k_offset k) (slice bytes (start - offset) (stop - start)))
       else mret tt);
  mret (mkEntry k (e_frame e) (e_age e)).
Definition update (node : nat) (generation : Z) (offset : nat) (bytes : list byte) : Op unit :=
  es ← gets fc_entries; es ← each_entry es (update_entry node generation offset bytes); modify (set_entries es).

Definition replace_entry (node : nat) (generation : Z) (bytes : list byte) (e : Entry) : Op Entry :=
  let k := e_key e in
  if negb (of_file node generation k) then mret e else
  let count := Nat.min (length bytes - k_offset k) 4096 in
  let page := if Nat.ltb 0 count then slice bytes (k_offset k) count ++ replicate (4096 - count) x00 else replicate 4096 x00 in
  _ ← paging_unit (write_file_frame (e_frame e) 0 page);
  mret (mkEntry (mkKey (k_node k) (k_generation k) (k_version k) (k_offset k) count (k_shared k) (k_snapshot k)) (e_frame e) (e_age e)).
Definition replace (node : nat) (generation : Z) (bytes : list byte) : Op unit :=
  es ← gets fc_entries; es ← each_entry es (replace_entry node generation bytes); modify (set_entries es).

(** ** Looking up and evicting *)

(** [find] of a page; it becomes the youngest. *)
Definition find_page (key : Key) (es : list (option Entry)) : option (nat * Entry) :=
  i ← position (from_option (λ e, same_page (e_key e) key) false) es;
  e ← mjoin (es !! i);
  Some (i, e).
Definition touch (i : nat) (e : Entry) c : FrameCache PT := set_entries (<[i := Some (mkEntry (e_key e) (e_frame e) 0)]> (fc_entries c)) c.
Definition grow_older c : FrameCache PT :=
  set_entries (map (option_map (λ e, mkEntry (e_key e) (e_frame e) (Z.min (e_age e + 1) (2 ^ 64 - 1)))) (fc_entries c)) c.

(** [filter(references == 1).max_by_key(age)]: the last of the oldest. *)
Fixpoint oldest_from (i : nat) (es : list (option Entry)) (best : option (nat * Z)) c : option nat :=
  match es with
  | [] => fst <$> best
  | o :: es =>
    let best := match o with
                | Some e =>
                  if references c (e_frame e) =? 1 then
                    match best with
                    | Some (_, age) => if age <=? e_age e then Some (i, e_age e) else best
                    | None => Some (i, e_age e)
                    end
                  else best
                | None => best
                end in
    oldest_from (S i) es best c
  end.
Definition victim c : option nat :=
  match position (λ o, negb (bool_decide (is_Some o))) (fc_entries c) with
  | Some i => Some i
  | None => oldest_from 0 (fc_entries c) None c
  end.

(** The loop over the cache under physical pressure: the slots are emptied whether
    or not the frame could be given back. *)
Fixpoint drop_unused (es : list (option Entry)) : Op (list (option Entry)) :=
  match es with
  | [] => mret []
  | o :: es =>
    o ← (match o with
         | Some e =>
           refs ← gets (λ c, references c (e_frame e));
           if refs =? 1 then _ ← paging_unit (release_file_frame (e_frame e)); mret None else mret (Some e)
         | None => mret None
         end);
    es ← drop_unused es;
    mret (o :: es)
  end.

(** ** What the VFS sees *)

(** The state a call leaves; [overlay]'s bytes. *)
#[export] Instance cache_frames : Vfs.Frames (FrameCache PT) := {|
  Vfs.fr_replace node generation bytes c := snd (replace node generation bytes c);
  Vfs.fr_update node generation offset bytes c := snd (update node generation offset bytes c);
  Vfs.fr_overlay node generation offset bytes c := match fst (overlay node generation offset bytes c) with Ok b => b | _ => bytes end |}.
End cache.
