(* ===== verification/Mappings.v ===== *)
(** * Mapped files and the pager (userspace.rs, file_frames.rs, task.rs)

    File mappings of a process: pages that are absent until they are used, the
    cache that supplies their frames, eviction to the file or to swap, and the
    pager task that serves faults.  Files are the VFS of vfs.rs, whose shared
    pages are the frame cache; swapped pages are swap.rs.

    A function that returns [Option] is a computation whose error is [tt]. *)
From stdpp Require Import list.
From S2P Require Import Prelude Config Block Memory Paging PagingOwn Loader FileFrames.
From S2P Require VfsPath Vfs Swap FileMapping Process Capability.

(** ** Data *)

Definition USER_MMAP_PAGES : nat := 16.

Record LazyFile := mkLazy { lz_shared : bool; lz_file : nat; lz_generation : Z; lz_offset : nat; lz_length : nat }.
Record AnonymousMapping := mkAnon {
  an_address : Z; an_size : Z; an_writable : bool; an_lazy : option LazyFile;
  an_resident : Z; an_dirty : Z; an_swap : list (option Swap.Handle) }.

Definition with_resident (b : Z) (p : AnonymousMapping) : AnonymousMapping :=
  mkAnon (an_address p) (an_size p) (an_writable p) (an_lazy p) b (an_dirty p) (an_swap p).
Definition with_dirty (b : Z) (p : AnonymousMapping) : AnonymousMapping :=
  mkAnon (an_address p) (an_size p) (an_writable p) (an_lazy p) (an_resident p) b (an_swap p).
Definition with_swap (l : list (option Swap.Handle)) (p : AnonymousMapping) : AnonymousMapping :=
  mkAnon (an_address p) (an_size p) (an_writable p) (an_lazy p) (an_resident p) (an_dirty p) l.

(** [1_u16 << index], for the pages of a mapping. *)
Definition bit (index : nat) : Z := Z.shiftl 1 (Z.of_nat index).
Definition has (mask : Z) (index : nat) : bool := negb (Z.land mask (bit index) =? 0).
Definition page_count (p : AnonymousMapping) : nat := Z.to_nat (an_size p / 4096).
Definition contains (p : AnonymousMapping) (address : Z) : bool := (an_address p <=? address) && (address <? an_address p + an_size p).
Definition page_index (p : AnonymousMapping) (address : Z) : nat := Z.to_nat ((address - an_address p) / 4096).
Definition page_address (p : AnonymousMapping) (index : nat) : Z := an_address p + Z.of_nat (index * 4096).
(** [backing.length.saturating_sub(index * 4096).min(4096)] *)
Definition page_bytes (l : LazyFile) (index : nat) : nat := Nat.min (lz_length l - index * 4096) 4096.

(** The part of a process the pager uses. *)
Record Proc := mkProc {
  pr_task : Z; pr_space : option AddressSpace; pr_files : Process.FileTable; pr_mappings : list (option AnonymousMapping) }.
Definition with_mappings (ms : list (option AnonymousMapping)) (p : Proc) : Proc := mkProc (pr_task p) (pr_space p) (pr_files p) ms.

Record PagerRequest := mkRequest {
  rq_task : Z; rq_space : AddressSpace; rq_slot : nat; rq_mapping : AnonymousMapping; rq_address : Z; rq_write : bool }.
Record PagerCompletion := mkCompletion { cm_task : Z; cm_address : Z; cm_succeeded : bool }.
Record PagerQueue := mkPager { pq_entries : list (option PagerRequest); pq_completions : list (option PagerCompletion) }.
Definition pager_empty : PagerQueue := mkPager (replicate MAX_PAGER_REQUESTS None) (replicate MAX_PAGER_REQUESTS None).

Definition is_none {A} (o : option A) : bool := match o with None => true | Some _ => false end.
Definition pager_push (r : PagerRequest) (q : PagerQueue) : bool * PagerQueue :=
  match position is_none (pq_entries q) with
  | None => (false, q)
  | Some i => (true, mkPager (<[i := Some r]> (pq_entries q)) (pq_completions q))
  end.
Definition pager_pop (q : PagerQueue) : option PagerRequest * PagerQueue :=
  match position (λ o, negb (is_none o)) (pq_entries q) with
  | None => (None, q)
  | Some i => (mjoin (pq_entries q !! i), mkPager (<[i := None]> (pq_entries q)) (pq_completions q))
  end.
Definition pager_finish (c : PagerCompletion) (q : PagerQueue) : bool * PagerQueue :=
  match position is_none (pq_completions q) with
  | None => (false, q)
  | Some i => (true, mkPager (pq_entries q) (<[i := Some c]> (pq_completions q)))
  end.
Definition take_completion (task address : Z) (q : PagerQueue) : option bool * PagerQueue :=
  match position (from_option (λ c, (cm_task c =? task) && (cm_address c =? address)) false) (pq_completions q) with
  | None => (None, q)
  | Some i => (cm_succeeded <$> mjoin (pq_completions q !! i), mkPager (pq_entries q) (<[i := None]> (pq_completions q)))
  end.

(** A [[u8; 4096]] with the bytes at its start. *)
Definition page_buffer (l : list byte) : list byte := splice (replicate 4096 x00) 0 (take 4096 l).

(** The first mapping that satisfies the test. *)
Definition find_by {A} (f : A → bool) (l : list (option A)) : option A := i ← position (from_option f false) l; mjoin (l !! i).

(** The VFS with its frame cache, swap with the primary disk, the processes and
    the pager's queue. *)
Record World (PT K D : Type) := mkWorld {
  w_vfs : Vfs.Fs (FrameCache PT) K; w_swap : Swap.State; w_disk : option D; w_procs : list (option Proc); w_pager : PagerQueue }.
Arguments mkWorld {PT K D}. Arguments w_vfs {PT K D}. Arguments w_swap {PT K D}. Arguments w_disk {PT K D}.
Arguments w_procs {PT K D}. Arguments w_pager {PT K D}.

(** [vfs::persist_mapping], which the storage layer carries out. *)
Class Persistence (F K : Type) := { persist_mapping : nat → Vfs.Fs F K → bool * Vfs.Fs F K }.

Section world.
Context {PT K D : Type} `{PageTables PT, PhysFrames, Vfs.DiskFiles K, BlockDevice D, Persistence (FrameCache PT) K}.
#[local] Abbreviation Op := (M (World PT K D) unit).
Implicit Types w : World PT K D.

Definition set_vfs v w : World PT K D := mkWorld v (w_swap w) (w_disk w) (w_procs w) (w_pager w).
Definition set_procs ps w : World PT K D := mkWorld (w_vfs w) (w_swap w) (w_disk w) ps (w_pager w).
Definition set_pager q w : World PT K D := mkWorld (w_vfs w) (w_swap w) (w_disk w) (w_procs w) q.
Definition w_cache w : FrameCache PT := Vfs.frames (w_vfs w).
Definition w_machine w : Machine PT := fc_machine (w_cache w).

(** Calls of the other modules; an error is [None]. *)
Definition vfs {A} (f : M (Vfs.Fs (FrameCache PT) K) VfsPath.VError A) : Op (option A) := λ w,
  let '(r, v) := f (w_vfs w) in
  (match r with Ok a => Ok (Some a) | Err _ => Ok None | Panic => Panic end, set_vfs v w).
Definition on_cache {A} (f : M (FrameCache PT) unit A) : Op A := λ w,
  let v := w_vfs w in
  let '(r, c) := f (Vfs.frames v) in (r, set_vfs (Vfs.mkFs (Vfs.registry v) (Vfs.files v) c (Vfs.storage v)) w).
Definition on_machine {A} (f : M (Machine PT) MapRangeError A) : Op (option A) := on_cache (paging f).
Definition on_loader {A} (f : M (Machine PT) unit A) : Op (option A) := on_machine (λ m, let '(r, m) := f m in (map_err (λ _, MappingFailed) r, m)).
Definition asks_machine (f : Machine PT → res MapRangeError bool) : Op bool := λ w,
  (match f (w_machine w) with Ok b => Ok b | Err _ => Ok false | Panic => Panic end, w).
Definition is_true (o : option bool) : bool := match o with Some b => b | None => false end.
Definition some {A} (o : option A) : Op A := lift (ok_or tt o).
Definition require (b : bool) : Op unit := guard_ok b tt.

Definition swap_allocate (page : list byte) : Op (option Swap.Handle) := λ w,
  let '(h, s, d) := Swap.allocate_page page (w_swap w) (w_disk w) in (Ok h, mkWorld (w_vfs w) s d (w_procs w) (w_pager w)).
Definition swap_read (h : Swap.Handle) : Op (option (list byte)) := λ w,
  let '(b, page, d) := Swap.read_page h (replicate 4096 x00) (w_swap w) (w_disk w) in
  (Ok (if b : bool then Some (page_buffer page) else None), mkWorld (w_vfs w) (w_swap w) d (w_procs w) (w_pager w)).
Definition swap_share (h : Swap.Handle) : Op bool := λ w,
  let '(b, s) := Swap.share h (w_swap w) in (Ok b, mkWorld (w_vfs w) s (w_disk w) (w_procs w) (w_pager w)).
Definition swap_release (h : Swap.Handle) : Op unit := λ w,
  let '(_, s) := Swap.release h (w_swap w) in (Ok tt, mkWorld (w_vfs w) s (w_disk w) (w_procs w) (w_pager w)).

(** ** Swap slots of a mapping *)

Fixpoint release_slots (slots : list Swap.Handle) : Op unit :=
  match slots with [] => mret tt | h :: slots => _ ← swap_release h; release_slots slots end.
Fixpoint share_slots (prior slots : list Swap.Handle) : Op bool :=
  match slots with
  | [] => mret true
  | h :: slots =>
    ok ← swap_share h;
    if ok : bool then share_slots (prior ++ [h]) slots
    else _ ← release_slots prior; mret false
  end.
Definition share_mapping_swap_slots (p : AnonymousMapping) : Op bool := share_slots [] (omap id (an_swap p)).
Definition release_mapping_swap_slots (p : AnonymousMapping) : Op unit := release_slots (omap id (an_swap p)).

(** ** Writing a mapping back *)

(** One page of [sync_file_mapping], of [count] bytes. *)
Definition write_back (root : Z) (p : AnonymousMapping) (l : LazyFile) (index count : nat) : Op bool :=
  part ← on_machine (read_user_bytes_in root (page_address p index) count);
  match part with
  | None => mret false
  | Some part => o ← vfs (Vfs.write_mapping_at (lz_file l) (lz_offset l + index * 4096) part); mret (bool_decide (is_Some o))
  end.
Fixpoint sync_pages (root : Z) (p : AnonymousMapping) (l : LazyFile) (length : nat) (indices : list nat) : Op bool :=
  match indices with
  | [] => mret true
  | index :: indices =>
    if negb (has (an_resident p) index) then sync_pages root p l length indices else
    let count := Nat.min (Nat.min (length - (lz_offset l + index * 4096)) (lz_length l - index * 4096)) 4096 in
    if Nat.eqb count 0 then sync_pages root p l length indices else
    ok ← write_back root p l index count;
    if ok : bool then sync_pages root p l length indices else mret false
  end.
Definition persist (file : nat) : Op bool := λ w, let '(b, v) := persist_mapping file (w_vfs w) in (Ok b, set_vfs v w).
Definition sync_file_mapping (space : AddressSpace) (p : AnonymousMapping) (durable : bool) : Op bool :=
  match an_lazy p with
  | None => mret false
  | Some l =>
    if negb (lz_shared l) then mret false else
    length ← vfs (Vfs.file_size (lz_file l));
    match length with
    | None => mret false
    | Some length =>
      ok ← sync_pages (as_paging space) p l length (seq 0 (page_count p));
      if negb ok then mret false else
      if durable then persist (lz_file l) else mret true
    end
  end.

(** ** Creating and removing mappings *)

Definition no_swap : list (option Swap.Handle) := replicate USER_MMAP_PAGES None.
Definition map_anonymous (space : AddressSpace) (slot : nat) (size : Z) (writable : bool) : Op AnonymousMapping :=
  o ← on_loader (Loader.map_anonymous space slot size writable);
  '(address, size, writable) ← some o;
  mret (mkAnon address size writable None 0 0 no_swap).

(** The whole of [indices]' resident pages, until one cannot be unmapped. *)
Fixpoint unmap_resident (root : Z) (p : AnonymousMapping) (indices : list nat) : Op bool :=
  match indices with
  | [] => mret true
  | index :: indices =>
    if has (an_resident p) index then
      o ← on_machine (unmap_user_range_in root (page_address p index) 4096);
      if bool_decide (is_Some o) then unmap_resident root p indices else mret false
    else unmap_resident root p indices
  end.
Definition unmap_anonymous (space : AddressSpace) (p : AnonymousMapping) : Op bool :=
  match an_lazy p with
  | Some l =>
    synced ← (if lz_shared l then sync_file_mapping space p false else mret true);
    if negb synced then mret false else
    unmapped ← unmap_resident (as_paging space) p (seq 0 (page_count p));
    if negb unmapped then mret false else
    _ ← release_mapping_swap_slots p;
    closed ← vfs (Vfs.close_open_file (lz_file l));
    _ ← on_cache reclaim_unused;
    mret (bool_decide (is_Some closed))
  | None =>
    o ← on_machine (unmap_user_range_in (as_paging space) (an_address p) (an_size p));
    mret (bool_decide (is_Some o))
  end.

Definition checked_size (file : nat) (offset length : nat) : Op Z :=
  size ← vfs (Vfs.file_size file); size ← some size;
  some (FileMapping.mapped_size (Z.of_nat size) (Z.of_nat offset) (Z.of_nat length)).

(** The loop of [map_file_private], [copied] bytes done; every round copies at
    least one byte, so [length] rounds are enough. *)
Fixpoint copy_file (fuel : nat) (space : AddressSpace) (p : AnonymousMapping) (file offset length copied : nat) : Op bool :=
  match fuel with
  | O => mret true
  | S fuel =>
    if Nat.leb length copied then mret true else
    let count := Nat.min 1024 (length - copied) in
    part ← vfs (Vfs.read_at file (offset + copied) (replicate count x00));
    match part with
    | Some (n, part) =>
      if negb (Nat.eqb n count) then mret false else
      written ← on_machine (write_user_bytes (as_paging space) (an_address p + Z.of_nat copied) part);
      if bool_decide (is_Some written) then copy_file fuel space p file offset length (copied + count) else mret false
    | None => mret false
    end
  end.
Definition map_file_private (space : AddressSpace) (slot file offset length : nat) (writable : bool) : Op AnonymousMapping :=
  size ← checked_size file offset length;
  p ← map_anonymous space slot size writable;
  copied ← copy_file length space p file offset length 0;
  if copied : bool then mret p else _ ← unmap_anonymous space p; fail tt.

Definition map_file_lazy (space : AddressSpace) (slot file offset length : nat) (writable : bool) : Op AnonymousMapping :=
  _ ← require (Nat.ltb slot MAX_ANONYMOUS_MAPPINGS);
  size ← checked_size file offset length;
  address ← some (mmap_address slot);
  free ← asks_machine (user_range_is_unmapped_in (as_paging space) address size);
  _ ← require free;
  generation ← vfs (Vfs.file_generation file); generation ← some generation;
  copy ← vfs (Vfs.clone_open_file file); copy ← some copy;
  mret (mkAnon address size writable (Some (mkLazy false copy generation offset length)) 0 0 no_swap).

Definition map_file_shared (space : AddressSpace) (slot file offset length : nat) : Op AnonymousMapping :=
  size ← vfs (Vfs.file_size file); size ← some size;
  _ ← some (FileMapping.mapped_size (Z.of_nat size) (Z.of_nat offset) (Z.of_nat length));
  _ ← require (Nat.ltb slot MAX_ANONYMOUS_MAPPINGS);
  _ ← (if Nat.eqb (length mod 4096) 0 then mret tt
       else stop ← some (checked_add 64 (Z.of_nat offset) (Z.of_nat length)); require (stop =? Z.of_nat size));
  prepared ← vfs (Vfs.prepare_shared_file file); _ ← some prepared;
  p ← map_file_lazy space slot file offset length true;
  l ← some (an_lazy p);
  mret (mkAnon (an_address p) (an_size p) (an_writable p)
          (Some (mkLazy true (lz_file l) (lz_generation l) (lz_offset l) (lz_length l))) (an_resident p) (an_dirty p) (an_swap p)).

Fixpoint unmap_all (space : AddressSpace) (ps : list AnonymousMapping) : Op bool :=
  match ps with
  | [] => mret true
  | p :: ps => b ← unmap_anonymous space p; if b : bool then unmap_all space ps else mret false
  end.
Definition destroy_process_address_space (space : AddressSpace) (anonymous : list (option AnonymousMapping)) : Op bool :=
  b ← unmap_all space (omap id anonymous);
  if b : bool then o ← on_loader (Loader.destroy space); mret (is_true o) else mret false.

(** ** Copying an address space *)

Definition CLONE_RANGES : nat := MAX_ELF_SEGMENTS + 1 + MAX_ANONYMOUS_MAPPINGS * 16.

Definition release_clone (root : Z) (ranges : list (Z * Z)) : Op unit :=
  match ranges with
  | [] => _ ← on_machine (discard_empty_user_address_space root); mret tt
  | _ => _ ← on_machine (destroy_user_address_space root ranges); mret tt
  end.
(** [completed[completed_count] = range] *)
Definition complete (completed : list (Z * Z)) (range : Z * Z) : Op (list (Z * Z)) :=
  if Nat.ltb (length completed) CLONE_RANGES then mret (completed ++ [range]) else lift Panic.

Definition share_range (source destination start size : Z) (writable executable : bool) : Op bool :=
  o ← on_machine (share_user_range_in source destination start size writable executable); mret (bool_decide (is_Some o)).
(** The ranges of the program, its stack last. *)
Fixpoint clone_ranges (source destination : Z) (completed : list (Z * Z)) (ranges : list UserMapping) : Op (list (Z * Z)) :=
  match ranges with
  | [] => mret completed
  | u :: ranges =>
    ok ← share_range source destination (m_start u) (m_size u) (m_writable u) (m_executable u);
    if negb ok then _ ← release_clone destination completed; fail tt else
    completed ← complete completed (m_start u, m_size u);
    clone_ranges source destination completed ranges
  end.
Definition clone_page (source destination : Z) (p : AnonymousMapping) (page : Z) : Op bool :=
  if from_option lz_shared false (an_lazy p) then
    frame ← on_machine (user_frame_in source page);
    match mjoin frame with
    | Some frame => b ← on_machine (map_file_frame destination page frame true); mret (is_true b)
    | None => mret false
    end
  else share_range source destination page 4096 (an_writable p) false.
Fixpoint clone_pages (source destination : Z) (p : AnonymousMapping) (completed : list (Z * Z)) (indices : list nat) : Op (list (Z * Z)) :=
  match indices with
  | [] => mret completed
  | index :: indices =>
    if bool_decide (is_Some (an_lazy p)) && negb (has (an_resident p) index) then clone_pages source destination p completed indices else
    copied ← clone_page source destination p (page_address p index);
    if negb copied then _ ← release_clone destination completed; fail tt else
    completed ← complete completed (page_address p index, 4096);
    clone_pages source destination p completed indices
  end.
Fixpoint clone_mappings (source destination : Z) (completed : list (Z * Z)) (ps : list AnonymousMapping) : Op (list (Z * Z)) :=
  match ps with
  | [] => mret completed
  | p :: ps =>
    completed ← clone_pages source destination p completed (seq 0 (page_count p));
    clone_mappings source destination completed ps
  end.
Fixpoint close_files (files : list nat) : Op unit :=
  match files with [] => mret tt | f :: files => _ ← vfs (Vfs.close_open_file f); close_files files end.
Definition backing_files (ps : list AnonymousMapping) : list nat := omap (λ p, lz_file <$> an_lazy p) ps.
(** Every backing file gets another reference, or none does. *)
Fixpoint clone_files (prior files : list nat) : Op bool :=
  match files with
  | [] => mret true
  | f :: files =>
    o ← vfs (Vfs.clone_open_file f);
    if bool_decide (is_Some o) then clone_files (prior ++ [f]) files else _ ← close_files prior; mret false
  end.
Fixpoint release_all_slots (ps : list AnonymousMapping) : Op unit :=
  match ps with [] => mret tt | p :: ps => _ ← release_mapping_swap_slots p; release_all_slots ps end.
Fixpoint clone_slots (prior ps : list AnonymousMapping) : Op bool :=
  match ps with
  | [] => mret true
  | p :: ps =>
    ok ← share_mapping_swap_slots p;
    if ok : bool then clone_slots (prior ++ [p]) ps else _ ← release_all_slots prior; mret false
  end.

Definition clone_address_space (source : AddressSpace) (anonymous : list (option AnonymousMapping)) : Op AddressSpace :=
  let ps := omap id anonymous in
  o ← on_machine (create_user_address_space (stack_base source));
  destination ← some (mjoin o);
  completed ← clone_ranges (as_paging source) destination [] (mappings source ++ [mkMapping (stack_base source) SIZE true false]);
  completed ← clone_mappings (as_paging source) destination completed ps;
  cloned ← clone_files [] (backing_files ps);
  if negb cloned then _ ← release_clone destination completed; fail tt else
  shared ← clone_slots [] ps;
  if negb shared then _ ← close_files (backing_files ps); _ ← release_clone destination completed; fail tt else
  mret (mkSpace destination (stack_base source) (mappings source)).

(** ** Eviction *)

Definition reclaim : Op unit := _ ← on_cache reclaim_unused; mret tt.

(** The page's bytes go to a swap slot (dirty private pages) or to the file. *)
Definition save_page (root : Z) (p : AnonymousMapping) (l : LazyFile) (index : nat) : Op (option (option Swap.Handle)) :=
  let page := page_address p index in
  if negb (lz_shared l) && has (an_dirty p) index then
    bytes ← on_machine (read_user_bytes_in root page 4096);
    match bytes with
    | None => mret None
    | Some bytes => h ← swap_allocate bytes; mret (Some <$> h)
    end
  else if lz_shared l then
    let count := page_bytes l index in
    if Nat.eqb count 0 then mret (Some None) else
    ok ← write_back root p l index count;
    mret (if ok : bool then Some None else None)
  else mret (Some None).

Definition evict_file_page (space : AddressSpace) (p : AnonymousMapping) (address : Z) : Op (bool * AnonymousMapping) :=
  match an_lazy p with
  | None => mret (false, p)
  | Some l =>
    if negb (contains p address) then mret (false, p) else
    let index := page_index p address in
    if negb (has (an_resident p) index) then mret (false, p) else
    saved ← save_page (as_paging space) p l index;
    match saved with
    | None => mret (false, p)
    | Some new_slot =>
      unmapped ← on_machine (unmap_user_range_in (as_paging space) (page_address p index) 4096);
      match unmapped with
      | None => _ ← (match new_slot with Some h => swap_release h | None => mret tt end); mret (false, p)
      | Some _ =>
        old ← lift (or_panic (an_swap p !! index));
        _ ← (match old with Some h => swap_release h | None => mret tt end);
        let p := with_swap (<[index := new_slot]> (an_swap p)) p in
        let p := with_resident (Z.land (an_resident p) (bnot 16 (bit index))) p in
        _ ← reclaim;
        mret (true, p)
      end
    end
  end.

(** [evict_one_mapped_file_page]: the first page of the first mapping that goes. *)
Fixpoint evict_pages (space : AddressSpace) (p : AnonymousMapping) (indices : list nat) : Op (bool * AnonymousMapping) :=
  match indices with
  | [] => mret (false, p)
  | index :: indices =>
    '(ok, p) ← evict_file_page space p (page_address p index);
    if ok : bool then mret (true, p) else evict_pages space p indices
  end.
Fixpoint evict_mappings (space : AddressSpace) (ps : list (option AnonymousMapping)) : Op (bool * list (option AnonymousMapping)) :=
  match ps with
  | [] => mret (false, [])
  | None :: ps => '(ok, ps) ← evict_mappings space ps; mret (ok, None :: ps)
  | Some p :: ps =>
    '(ok, p) ← evict_pages space p (seq 0 (page_count p));
    if ok : bool then mret (true, Some p :: ps) else '(ok, ps) ← evict_mappings space ps; mret (ok, Some p :: ps)
  end.
Fixpoint evict_processes (ps : list (option Proc)) : Op (bool * list (option Proc)) :=
  match ps with
  | [] => mret (false, [])
  | o :: ps =>
    '(ok, o) ← (match o with
                | Some x =>
                  match pr_space x with
                  | Some space => '(ok, l) ← evict_mappings space (pr_mappings x); mret (ok, Some (with_mappings l x))
                  | None => mret (false, o)
                  end
                | None => mret (false, o)
                end);
    if ok : bool then mret (true, o :: ps) else '(ok, ps) ← evict_processes ps; mret (ok, o :: ps)
  end.
Definition evict_one_mapped_file_page : Op bool :=
  ps ← gets w_procs; '(ok, ps) ← evict_processes ps; _ ← modify (set_procs ps); mret ok.

(** ** Supplying a frame ([file_frames::map]) *)

Definition set_slot (i : nat) (o : option Entry) : Op unit := on_cache (modify (λ c, set_entries (<[i := o]> (fc_entries c)) c)).
Definition alloc_frame (bytes : list byte) : Op (option Z) := o ← on_machine (allocate_file_frame bytes); mret (mjoin o).
Definition map_frame (root address frame : Z) (writable : bool) : Op bool := o ← on_machine (map_file_frame root address frame writable); mret (is_true o).

(** A frame for the bytes; when there is none, unused entries go, then a mapped page. *)
Definition frame_for (bytes : list byte) : Op (option Z) :=
  o ← alloc_frame bytes;
  match o with
  | Some frame => mret (Some frame)
  | None =>
    es ← on_cache (gets fc_entries);
    es ← on_cache (drop_unused es);
    _ ← on_cache (modify (set_entries es));
    o ← alloc_frame bytes;
    match o with
    | Some frame => mret (Some frame)
    | None => evicted ← evict_one_mapped_file_page; if evicted : bool then alloc_frame bytes else mret None
    end
  end.

Definition map_cached (root address : Z) (key : Key) (shared : bool) : Op (option bool) :=
  found ← gets (λ w, find_page key (fc_entries (w_cache w)));
  match found with
  | Some (i, e) => _ ← on_cache (modify (touch i e)); b ← map_frame root address (e_frame e) shared; mret (Some b)
  | None => mret None
  end.

Definition publish (root address : Z) (key : Key) (shared : bool) (bytes : list byte) : Op bool :=
  index ← gets (λ w, victim (w_cache w));
  match index with
  | None => mret false
  | Some index =>
    old ← gets (λ w, mjoin (fc_entries (w_cache w) !! index));
    released ← (match old with
                | Some e => _ ← set_slot index None; on_cache (paging_true (release_file_frame (e_frame e)))
                | None => mret true
                end);
    if negb released then mret false else
    frame ← frame_for bytes;
    match frame with
    | None => mret false
    | Some frame =>
      mapped ← map_frame root address frame shared;
      if negb mapped then _ ← on_cache (paging_unit (release_file_frame frame)); mret false
      else _ ← set_slot index (Some (mkEntry key frame 0)); mret true
    end
  end.

Definition shared_entry (node : nat) (generation : Z) (o : option Entry) : bool :=
  match o with Some e => of_file node generation (e_key e) | None => false end.
Definition next_snapshot : Op Z :=
  n ← on_cache (gets fc_snapshots);
  _ ← on_cache (modify (λ c, mkCache (fc_entries c) (wrapping_add 64 n 1) (fc_machine c)));
  mret n.

Definition map_file_page (root address : Z) (file : nat) (generation : Z) (offset count : nat) (shared : bool) : Op bool :=
  identity ← vfs (Vfs.file_identity file);
  match identity with
  | None => mret false
  | Some (node, actual_generation, version) =>
    if negb (generation =? actual_generation) then mret false else
    changing ← gets (λ w, negb shared && existsb (shared_entry node generation) (fc_entries (w_cache w)));
    snapshot ← (if changing : bool then next_snapshot else mret 0);
    let key := mkKey node generation (if shared then 0 else version) offset count shared snapshot in
    _ ← on_cache (modify grow_older);
    cached ← map_cached root address key shared;
    match cached with
    | Some b => mret b
    | None =>
      part ← vfs (Vfs.read_mapping_at file generation offset (replicate count x00));
      match part with
      | None => mret false
      | Some (n, part) =>
        if negb (Nat.eqb n count) then mret false else
        cached ← map_cached root address key shared;
        match cached with
        | Some b => mret b
        | None => publish root address key shared (page_buffer (take count part))
        end
      end
    end
  end.

(** ** Faults *)

Definition populate_file_page (space : AddressSpace) (p : AnonymousMapping) (address : Z) (write : bool) : Op (bool * AnonymousMapping) :=
  match an_lazy p with
  | None => mret (false, p)
  | Some l =>
    if negb (contains p address) || (write && negb (an_writable p)) then mret (false, p) else
    let index := page_index p address in
    if has (an_resident p) index then mret (false, p) else
    let page := page_address p index in
    slot ← lift (or_panic (an_swap p !! index));
    match slot with
    | Some h =>
      bytes ← swap_read h;
      match bytes with
      | None => mret (false, p)
      | Some bytes =>
        mapped ← on_machine (map_private_frame_from_bytes (as_paging space) page bytes (an_writable p));
        if negb (is_true mapped) then mret (false, p) else
        _ ← swap_release h;
        let p := with_swap (<[index := None]> (an_swap p)) p in
        let p := with_resident (Z.lor (an_resident p) (bit index)) p in
        mret (true, with_dirty (Z.lor (an_dirty p) (bit index)) p)
      end
    | None =>
      mapped ← map_file_page (as_paging space) page (lz_file l) (lz_generation l) (lz_offset l + index * 4096) (page_bytes l index) (lz_shared l);
      if negb mapped then mret (false, p) else
      mret (true, with_resident (Z.lor (an_resident p) (bit index)) p)
    end
  end.

Definition mark_file_page_dirty (p : AnonymousMapping) (address : Z) : bool * AnonymousMapping :=
  match an_lazy p with
  | None => (false, p)
  | Some l =>
    if lz_shared l || negb (an_writable p) || negb (contains p address) then (false, p) else
    let index := page_index p address in
    if negb (has (an_resident p) index) then (false, p) else
    (true, with_dirty (Z.lor (an_dirty p) (bit index)) p)
  end.

(** ** The pager *)

Definition find_process (task : Z) (ps : list (option Proc)) : option nat := position (from_option (λ x, pr_task x =? task) false) ps.
Definition process_at (i : nat) w : option Proc := mjoin (w_procs w !! i).
Definition find_mapping (address : Z) (ms : list (option AnonymousMapping)) : option nat := position (from_option (λ p, contains p address) false) ms.

Definition pager {A} (f : PagerQueue → A * PagerQueue) : Op A := λ w, let '(a, q) := f (w_pager w) in (Ok a, set_pager q w).

(** The first half of [try_handle_file_fault]: the request, with a copy of the
    mapping; the task sleeps until the pager has answered. *)
Definition request_page (task address : Z) (write : bool) : Op bool :=
  o ← gets (λ w, i ← find_process task (w_procs w); x ← process_at i w; space ← pr_space x;
                 slot ← find_mapping address (pr_mappings x); p ← mjoin (pr_mappings x !! slot); Some (space, slot, p));
  match o with
  | None => mret false
  | Some (space, slot, p) => pager (pager_push (mkRequest task space slot p address write))
  end.
(** The second half: the answer is what the handler returns. *)
Definition resume_fault (task address : Z) : Op bool := o ← pager (take_completion task address); mret (is_true o).

Definition store_mapping (task : Z) (slot : nat) (p : AnonymousMapping) : Op unit :=
  modify (λ w, match find_process task (w_procs w) with
               | Some i => set_procs (alter (fmap (λ x, with_mappings (<[slot := Some p]> (pr_mappings x)) x)) i (w_procs w)) w
               | None => w
               end).

(** One round of [pager_task]: the task to wake, if there was a request and its
    answer was recorded. *)
Definition pager_round : Op (option Z) :=
  r ← pager pager_pop;
  match r with
  | None => mret None
  | Some r =>
    '(succeeded, p) ← populate_file_page (rq_space r) (rq_mapping r) (rq_address r) (rq_write r);
    _ ← (if succeeded : bool then store_mapping (rq_task r) (rq_slot r) p else mret tt);
    recorded ← pager (pager_finish (mkCompletion (rq_task r) (rq_address r) succeeded));
    mret (if recorded : bool then Some (rq_task r) else None)
  end.

(** A fault from the request to the answer, the pager running in between. *)
Definition file_fault (task address : Z) (write : bool) : Op bool :=
  pushed ← request_page task address write;
  if negb pushed then mret false else
  _ ← pager_round;
  resume_fault task address.

(** ** Write faults *)

(** [try_handle_cow_fault] of the task. *)
Definition mapping_triples (ms : list (option AnonymousMapping)) : list (option (Z * Z * bool)) :=
  map (option_map (λ p, (an_address p, an_size p, an_writable p))) ms.
Definition process_of (task : Z) w : option (nat * Proc) := i ← find_process task (w_procs w); x ← process_at i w; Some (i, x).
Definition mark_dirty (i : nat) (x : Proc) (address : Z) w : World PT K D :=
  match find_mapping address (pr_mappings x) with
  | Some slot =>
    set_procs (<[i := Some (with_mappings (alter (option_map (λ p, snd (mark_file_page_dirty p address))) slot (pr_mappings x)) x)]> (w_procs w)) w
  | None => w
  end.
Definition try_handle_cow_fault (task address : Z) : Op bool :=
  o ← gets (process_of task);
  match ('(_, x) ← o; space ← pr_space x; Some (x, space)) with
  | None => mret false
  | Some (x, space) =>
    if negb (is_logically_writable space address (mapping_triples (pr_mappings x))) then mret false else
    broken ← on_machine (try_break_cow (as_paging space) address);
    if negb (is_true broken) then mret false else
    o ← gets (process_of task);
    _ ← (match o with Some (i, x) => modify (mark_dirty i x address) | None => mret tt end);
    mret true
  end.

(** ** The calls of a program *)

Section calls.
(** The scheduler's answers to [current_has] and [current_task_id]. *)
Context (current_has : Capability.Capability → bool) (task : Z).
#[local] Abbreviation Call := (M (World PT K D) Process.MemoryError).

Definition call {A} (f : Op A) : Call (option A) := λ w,
  let '(r, w) := f w in (match r with Ok a => Ok (Some a) | Err _ => Ok None | Panic => Panic end, w).
Definition map_call (space : AddressSpace) (slot file offset length : nat) (writable lazily shared : bool) : Op AnonymousMapping :=
  if shared then map_file_shared space slot file offset length
  else if lazily then map_file_lazy space slot file offset length writable
  else map_file_private space slot file offset length writable.

Definition mmap_file_current (descriptor length offset : Z) (writable lazily shared : bool) : Call Z :=
  _ ← guard_ok (current_has Capability.FileRead && (negb shared || current_has Capability.FileWrite)) Process.MPermission;
  o ← gets (process_of task);
  '(index, x) ← lift (ok_or Process.MNoProcess o);
  match mjoin (pr_files x !! Z.to_nat descriptor) with
  | Some (Process.File file) =>
    slot ← lift (ok_or Process.MFull (position is_none (pr_mappings x)));
    space ← lift (ok_or Process.MNoProcess (pr_space x));
    p ← call (map_call space slot file (Z.to_nat offset) (Z.to_nat length) writable lazily shared);
    p ← lift (ok_or Process.MMappingFailed p);
    now ← gets (process_at index);
    match now with
    | Some x =>
      if (pr_task x =? task) && from_option is_none false (pr_mappings x !! slot) then
        _ ← modify (λ w, set_procs (<[index := Some (with_mappings (<[slot := Some p]> (pr_mappings x)) x)]> (w_procs w)) w);
        mret (an_address p)
      else _ ← call (unmap_anonymous space p); fail Process.MFull
    | None => _ ← call (unmap_anonymous space p); fail Process.MFull
    end
  | _ => fail Process.MBadDescriptor
  end.

Definition msync_current (address length : Z) : Call unit :=
  _ ← guard_ok (current_has Capability.FileWrite) Process.MPermission;
  size ← lift (ok_or Process.MInvalidLength (if length =? 0 then None else checked_add 64 length 4095));
  let size := Z.land size (bnot 64 4095) in
  o ← gets (process_of task);
  '(_, x) ← lift (ok_or Process.MNoProcess o);
  p ← lift (ok_or Process.MNotFound (find_by (λ p, (an_address p =? address) && (size =? an_size p)) (pr_mappings x)));
  space ← lift (ok_or Process.MNoProcess (pr_space x));
  b ← call (sync_file_mapping space p true);
  guard_ok (default false b) Process.MMappingFailed.
End calls.
End world.
