(* ===== verification/MappedSwap.v ===== *)
(** * Swap slots of file mappings (kernel/src/userspace.rs)

    What the swap calls of a mapping do to the stored pages: [stored_page w h] is
    the page and the reference count behind a handle.  Copying the slots of a
    mapping for a child process is all or nothing. *)
From stdpp Require Import list gmap.
From S2P Require Import Prelude Block Memory Paging Loader FileFrames Mappings.
From S2P Require Swap Vfs.

#[export] Instance handle_eq_dec : EqDecision Swap.Handle.
Proof. solve_decision. Defined.

Section swap.
Context {PT K D : Type} `{PageTables PT, PhysFrames, Vfs.DiskFiles K, BlockDeviceLaws D, !Persistence (FrameCache PT) K}.
#[local] Set Default Proof Using "All".
Implicit Types w : World PT K D.

Definition swap_sys w : Swap.Sys D := Swap.mkSys (w_swap w) (w_disk w) ∅.
Definition swap_ok w : Prop := Swap.sys_ok (swap_sys w).
Definition stored_page w (h : Swap.Handle) : option (list byte * Z) := Swap.live (swap_sys w) h.

(** What a swap call leaves alone. *)
Definition same_but_swap w w' : Prop := w_vfs w' = w_vfs w ∧ w_procs w' = w_procs w ∧ w_pager w' = w_pager w.
Lemma same_but_swap_refl w : same_but_swap w w.
Proof. done. Qed.
Lemma same_but_swap_trans w1 w2 w3 : same_but_swap w1 w2 → same_but_swap w2 w3 → same_but_swap w1 w3.
Proof. intros (?&?&?) (?&?&?). split; [|split]; congruence. Qed.

(** [allocate_page]: the disk first, RAM when it fails. *)
Lemma allocate_page_spec (page : list byte) s (k : option D) o s' k' :
  Swap.sys_ok (Swap.mkSys s k ∅) → length page = Swap.PAGE_SIZE → Swap.allocate_page page s k = (o, s', k') →
  Swap.sys_ok (Swap.mkSys s' k' ∅) ∧
  match o with
  | Some h => Swap.spec_step (Swap.LAlloc page h) (Swap.live (Swap.mkSys s k ∅)) (Swap.live (Swap.mkSys s' k' ∅))
  | None => ∀ h, Swap.live (Swap.mkSys s' k' ∅) h = Swap.live (Swap.mkSys s k ∅) h
  end.
Proof.
  intros Hok Hp. assert (∀ s1 (k1 : option D) o s' k', Swap.sys_ok (Swap.mkSys s1 k1 ∅) →
    (∀ h, Swap.live (Swap.mkSys s1 k1 ∅) h = Swap.live (Swap.mkSys s k ∅) h) →
    (let '(h, st) := Swap.allocate_ram page s1 in (h, st, k1)) = (o, s', k') →
    Swap.sys_ok (Swap.mkSys s' k' ∅) ∧ match o with
      | Some h => Swap.spec_step (Swap.LAlloc page h) (Swap.live (Swap.mkSys s k ∅)) (Swap.live (Swap.mkSys s' k' ∅))
      | None => ∀ h, Swap.live (Swap.mkSys s' k' ∅) h = Swap.live (Swap.mkSys s k ∅) h end) as Hram.
  { intros s1 k1 o0 s0 k0 Hok1 Hl1 Ha. destruct (Swap.allocate_ram page s1) as [[h|] s2] eqn:E; injection Ha as <- <- <-.
    - destruct (Swap.ram_sim s1 k1 ∅ page h s2 Hok1 Hp E) as (Hok2 & Hn & Hs & Ho). split; [done|].
      split; [by rewrite <-Hl1|]. split; [done|]. intros h' Hne. by rewrite Ho, Hl1.
    - assert (s2 = s1) as ->; [|split; [done|exact Hl1]].
      unfold Swap.allocate_ram in E. destruct (Swap.free_slot s1); [destruct (Swap.slots s1 !! _)|]; by simplify_eq. }
  unfold Swap.allocate_page. destruct (Swap.reserve_disk s) as [[[[i g] l]|] s1] eqn:Er.
  2: { assert (s1 = s) as ->; [|by apply Hram]. unfold Swap.reserve_disk in Er. repeat case_match; by simplify_eq. }
  destruct (Swap.reserve_sim s k ∅ 0%nat page i g l s1 Hok ltac:(apply lookup_empty) Hp Er) as [Hok1 Hl1].
  set (r := Swap.mkReservation i g l page Swap.Reserved) in *.
  assert (∀ k1 p1 r1, Swap.sys_ok (Swap.mkSys s1 k1 p1) → p1 = {[0%nat := r1]} → Swap.pi r1 = i → Swap.pgen r1 = g →
    (∀ h, Swap.live (Swap.mkSys s1 k1 p1) h = Swap.live (Swap.mkSys s k ∅) h) →
    (let '(h, st) := Swap.allocate_ram page (Swap.cancel_reserved i g s1) in (h, st, k1)) = (o, s', k') →
    Swap.sys_ok (Swap.mkSys s' k' ∅) ∧ match o with
      | Some h => Swap.spec_step (Swap.LAlloc page h) (Swap.live (Swap.mkSys s k ∅)) (Swap.live (Swap.mkSys s' k' ∅))
      | None => ∀ h, Swap.live (Swap.mkSys s' k' ∅) h = Swap.live (Swap.mkSys s k ∅) h end) as Hcancel.
  { intros k1 p1 r1 Hk1 -> Hi Hg Hl. destruct (Swap.cancel_sim s1 k1 _ 0%nat r1 Hk1 ltac:(by rewrite lookup_singleton_eq)) as [Hok2 Hl2].
    rewrite Hi, Hg, delete_singleton_eq in Hok2, Hl2. apply Hram; [done|]. intros h. by rewrite Hl2, Hl. }
  assert (∀ k1 (ok : bool), Swap.sys_ok (Swap.mkSys s1 k1 (<[0%nat := Swap.set_status (if ok then Swap.Written else Swap.Failed) r]> (<[0%nat := r]> ∅))) →
    (∀ h, Swap.live (Swap.mkSys s1 k1 (<[0%nat := Swap.set_status (if ok then Swap.Written else Swap.Failed) r]> (<[0%nat := r]> ∅))) h = Swap.live (Swap.mkSys s1 k (<[0%nat := r]> ∅)) h) →
    (let '(published, st) := if ok then Swap.publish_reserved_disk i g s1 else (None, s1) in
     match published with Some h => (Some h, st, k1) | None => let '(h, st) := Swap.allocate_ram page (Swap.cancel_reserved i g st) in (h, st, k1) end) = (o, s', k') →
    Swap.sys_ok (Swap.mkSys s' k' ∅) ∧ match o with
      | Some h => Swap.spec_step (Swap.LAlloc page h) (Swap.live (Swap.mkSys s k ∅)) (Swap.live (Swap.mkSys s' k' ∅))
      | None => ∀ h, Swap.live (Swap.mkSys s' k' ∅) h = Swap.live (Swap.mkSys s k ∅) h end) as Hgo.
  { intros k1 ok Hok2 Hl2. rewrite insert_insert_eq, insert_empty in Hok2, Hl2. rewrite insert_empty in Hl1, Hl2.
    assert (∀ h, Swap.live (Swap.mkSys s1 k1 {[0%nat := Swap.set_status (if ok then Swap.Written else Swap.Failed) r]}) h = Swap.live (Swap.mkSys s k ∅) h) as Hl3
      by (intros h; rewrite Hl2; apply Hl1). destruct ok; [|by eapply Hcancel].
    set (rw := Swap.set_status Swap.Written r) in *.
    assert (({[0%nat := rw]} : gmap nat Swap.Reservation) !! 0%nat = Some rw) as Hlk by apply lookup_singleton_eq.
    pose proof (Swap.publish_succeeds s1 k1 _ 0%nat rw Hok2 Hlk) as Hsome. change (Swap.pi rw) with i in Hsome. change (Swap.pgen rw) with g in Hsome.
    destruct (Swap.publish_reserved_disk i g s1) as [[h|] s2] eqn:Ep; [|done]. intros [= <- <- <-].
    destruct (Swap.publish_sim s1 k1 _ 0%nat rw h s2 Hok2 Hlk eq_refl Ep) as (Hok3 & Hn & Hs & Ho). rewrite delete_singleton_eq in *.
    split; [done|]. split; [by rewrite <-Hl3|]. split; [done|]. intros h' Hne. by rewrite Ho, Hl3. }
  destruct k as [d|].
  - destruct (Swap.write_and_flush l page d) as [ok d'] eqn:Ew. intros Hm.
    destruct (Swap.write_sim s1 d _ 0%nat r ok d' Hok1 ltac:(apply lookup_insert_eq) eq_refl Ew) as [Hok2 Hl2].
    by apply (Hgo (Some d') ok).
  - intros Hm. destruct (Swap.absent_sim s1 _ 0%nat r Hok1 ltac:(apply lookup_insert_eq)) as [Hok2 Hl2]. by apply (Hgo None false).
Qed.

(** ** The calls on the world *)

Lemma swap_allocate_run page w o w' : swap_ok w → length page = Swap.PAGE_SIZE → swap_allocate page w = (o, w') →
  same_but_swap w w' ∧ swap_ok w' ∧ ∃ h, o = Ok h ∧
  match h with
  | Some h => stored_page w h = None ∧ stored_page w' h = Some (page, 1) ∧ ∀ h', h' ≠ h → stored_page w' h' = stored_page w h'
  | None => ∀ h, stored_page w' h = stored_page w h
  end.
Proof.
  intros Hok Hp Ha. unfold swap_allocate in Ha. destruct (Swap.allocate_page page (w_swap w) (w_disk w)) as [[h s] d] eqn:E.
  injection Ha as <- <-. split; [done|]. destruct (allocate_page_spec _ _ _ _ _ _ Hok Hp E) as [Hok' Hs]. split; [done|]. by exists h.
Qed.

Lemma swap_read_run h w o w' : swap_ok w → swap_read h w = (o, w') →
  same_but_swap w w' ∧ swap_ok w' ∧ (∀ h, stored_page w' h = stored_page w h) ∧ ∃ page, o = Ok page ∧
  ∀ bytes, page = Some bytes → ∃ x n, stored_page w h = Some (x, n) ∧ bytes = page_buffer x.
Proof.
  intros Hok Ha. unfold swap_read in Ha. destruct (Swap.read_page h (replicate 4096 x00) (w_swap w) (w_disk w)) as [[b page] d] eqn:E.
  injection Ha as <- <-. split; [done|]. destruct (Swap.read_sim _ _ _ _ _ _ _ _ Hok ltac:(by rewrite length_replicate) E) as [Hok' [Hs Hr]].
  split; [done|]. split; [exact Hs|]. eexists. split; [done|]. intros bytes Hb. destruct b; [injection Hb as <-|done].
  unfold stored_page, swap_sys. destruct (Swap.live _ h) as [[b n]|]; [|done]. rewrite Hr by done. by exists b, n.
Qed.

Lemma swap_share_run h w o w' : swap_ok w → swap_share h w = (o, w') →
  same_but_swap w w' ∧ swap_ok w' ∧ ∃ ok : bool, o = Ok ok ∧
  match stored_page w h with
  | Some (b, n) => if ok then stored_page w' h = Some (b, n + 1) ∧ ∀ h', h' ≠ h → stored_page w' h' = stored_page w h'
                   else ∀ h, stored_page w' h = stored_page w h
  | None => ok = false ∧ ∀ h, stored_page w' h = stored_page w h
  end.
Proof.
  intros Hok Ha. unfold swap_share in Ha. destruct (Swap.share h (w_swap w)) as [ok s] eqn:E. injection Ha as <- <-. split; [done|].
  destruct (Swap.share_sim _ _ _ _ _ _ Hok E) as [Hok' Hs]. split; [done|]. exists ok. split; [done|].
  unfold stored_page, swap_sys. cbn [Swap.spec_step] in Hs. destruct (Swap.live _ h) as [[b n]|]; [|done]. destruct ok; [done|apply Hs].
Qed.

Lemma swap_release_run h w o w' : swap_ok w → swap_release h w = (o, w') →
  same_but_swap w w' ∧ swap_ok w' ∧ o = Ok tt ∧ (∀ h', h' ≠ h → stored_page w' h' = stored_page w h') ∧
  stored_page w' h = ('(b, n) ← stored_page w h; if decide (n = 1) then None else Some (b, n - 1)).
Proof.
  intros Hok Ha. unfold swap_release in Ha. destruct (Swap.release h (w_swap w)) as [ok s] eqn:E. injection Ha as <- <-. split; [done|].
  destruct (Swap.release_sim _ _ _ _ _ _ Hok E) as [Hok' Hs]. split; [done|]. split; [done|].
  unfold stored_page, swap_sys. cbn [Swap.spec_step] in Hs. destruct (Swap.live _ h) as [[b n]|] eqn:El.
  - destruct Hs as (_ & Hs & Ho). split; [exact Ho|exact Hs].
  - destruct Hs as (_ & Ho). split; [intros h' _; apply Ho|]. rewrite Ho. exact El.
Qed.

(** ** Copying the slots of a mapping *)

(** The counts after [n h] more references to each live page [h]. *)
Definition counted (n : Swap.Handle → Z) w w' : Prop := ∀ h, stored_page w' h = (λ '(b, k), (b, k + n h)) <$> stored_page w h.
Definition uses (slots : list Swap.Handle) (h : Swap.Handle) : Z := Z.of_nat (length (List.filter (λ x, bool_decide (x = h)) slots)).

Lemma uses_cons x l h : uses (x :: l) h = (if decide (x = h) then 1 else 0) + uses l h.
Proof. unfold uses. cbn. destruct (decide (x = h)); [rewrite bool_decide_eq_true_2 by done; cbn [length]; lia|by rewrite bool_decide_eq_false_2]. Qed.
Lemma uses_app l1 l2 h : uses (l1 ++ l2) h = uses l1 h + uses l2 h.
Proof. unfold uses. rewrite List.filter_app, length_app. lia. Qed.
Lemma uses_nonneg l h : 0 ≤ uses l h.
Proof. unfold uses. lia. Qed.

Lemma counted_zero w : counted (λ _, 0) w w.
Proof. intros h. destruct (stored_page w h) as [[b n]|]; [|done]. cbn. by rewrite Z.add_0_r. Qed.
Lemma counted_same w w' : counted (λ _, 0) w w' → ∀ h, stored_page w' h = stored_page w h.
Proof. intros Hc h. rewrite Hc. destruct (stored_page w h) as [[b n]|]; [|done]. cbn. by rewrite Z.add_0_r. Qed.
Lemma counted_ext n n' w w' : (∀ h, n h = n' h) → counted n w w' → counted n' w w'.
Proof. intros He Hc h. rewrite Hc. destruct (stored_page w h) as [[b k]|]; [|done]. cbn. by rewrite He. Qed.

(** Taking back references that are there. *)
Lemma release_slots_run slots w o w' n w0 : swap_ok w → counted (λ h, uses slots h + n h) w0 w → (∀ h, 0 ≤ n h) →
  (∀ h b k, stored_page w0 h = Some (b, k) → 1 ≤ k) → (∀ h, h ∈ slots → is_Some (stored_page w0 h)) →
  release_slots slots w = (o, w') → same_but_swap w w' ∧ swap_ok w' ∧ o = Ok tt ∧ counted n w0 w'.
Proof.
  revert w. induction slots as [|x slots IH]; intros w Hok Hc Hn Hpos Hin Hr.
  { injection Hr as <- <-. split; [done|]. split; [done|]. split; [done|]. eapply counted_ext; [|exact Hc]. done. }
  cbn [release_slots] in Hr. destruct (swap_release x w) as [r1 w1] eqn:E1. destruct (swap_release_run x w r1 w1 Hok E1) as (Hs1 & Hok1 & -> & Hoth & Hx).
  rewrite (bind_run _ _ _ _ _ E1) in Hr.
  destruct (IH w1 Hok1) as (Hs & Hok' & -> & Hc'); [|done|done|intros h Hh; apply Hin; by right|exact Hr|].
  2: { split; [by eapply same_but_swap_trans|done]. }
  intros h. destruct (decide (h = x)) as [->|Hne].
  - rewrite Hx, Hc. destruct (stored_page w0 x) as [[b k]|] eqn:Ex; [|done]. cbn. rewrite uses_cons, (decide_True (P := x = x)) by done.
    specialize (Hpos _ _ _ Ex). pose proof (uses_nonneg slots x). specialize (Hn x). rewrite decide_False by lia. do 2 f_equal. lia.
  - rewrite Hoth, Hc by done. destruct (stored_page w0 h) as [[b k]|]; [|done]. cbn. by rewrite uses_cons, decide_False.
Qed.

Lemma stored_positive w h b n : swap_ok w → stored_page w h = Some (b, n) → 1 ≤ n.
Proof.
  intros Hok (x & Hx & [= <- <-])%bind_Some. apply Swap.get_Some in Hx as (_ & _ & Hr & _). lia.
Qed.

Lemma share_slots_run prior slots w0 w o w' : swap_ok w0 → swap_ok w → counted (uses prior) w0 w →
  (∀ h, h ∈ prior → is_Some (stored_page w0 h)) →
  share_slots prior slots w = (o, w') → same_but_swap w w' ∧ swap_ok w' ∧ ∃ ok : bool, o = Ok ok ∧
  if ok then counted (uses (prior ++ slots)) w0 w' ∧ ∀ h, h ∈ slots → is_Some (stored_page w0 h)
  else counted (λ _, 0) w0 w'.
Proof.
  revert prior w. induction slots as [|x slots IH]; intros prior w Hok0 Hok Hc Hin Hr; cbn [share_slots] in Hr.
  { injection Hr as <- <-. split; [done|]. split; [done|]. exists true. rewrite app_nil_r. split; [done|]. split; [done|].
    intros h []%not_elem_of_nil. }
  destruct (swap_share x w) as [r1 w1] eqn:E1. destruct (swap_share_run x w r1 w1 Hok E1) as (Hs1 & Hok1 & ok & -> & Hx).
  rewrite (bind_run _ _ _ _ _ E1) in Hr. destruct ok.
  - destruct (stored_page w x) as [[b n]|] eqn:Ex; [|destruct Hx; done]. destruct Hx as [Hx Hoth].
    assert (is_Some (stored_page w0 x)) as Hx0 by (specialize (Hc x); rewrite Ex in Hc; destruct (stored_page w0 x); done).
    destruct (IH (prior ++ [x]) w1 Hok0 Hok1) as (Hs & Hok' & ok & -> & Hres); [| |exact Hr|].
    + intros h. rewrite uses_app, uses_cons. change (uses [] h) with 0. destruct (decide (h = x)) as [->|Hne].
      * rewrite Hx. specialize (Hc x). rewrite Ex in Hc. destruct (stored_page w0 x) as [[b' k]|]; [|done]. injection Hc as -> ->.
        cbn. rewrite (decide_True (P := x = x)) by done. do 2 f_equal. lia.
      * rewrite Hoth, Hc by done. destruct (stored_page w0 h) as [[b' k]|]; [|done]. cbn. rewrite (decide_False (P := x = h)) by done. do 2 f_equal. lia.
    + intros h [Hh|Hh]%elem_of_app; [auto|]. by apply list_elem_of_singleton in Hh as ->.
    + split; [by eapply same_but_swap_trans|]. split; [done|]. exists ok. split; [done|]. destruct ok; [|done].
      rewrite <-app_assoc in Hres. destruct Hres as [Hcn Hel]. split; [done|]. intros h [->|Hh]%elem_of_cons; auto.
  - assert (∀ h, stored_page w1 h = stored_page w h) as Hsame.
    { destruct (stored_page w x) as [[b n]|]; [exact Hx|]. by destruct Hx. }
    destruct (release_slots prior w1) as [r2 w2] eqn:E2. destruct (release_slots_run prior w1 r2 w2 (λ _, 0) w0 Hok1) as (Hs2 & Hok2 & -> & Hc2); [|done| |exact Hin|exact E2|].
    + intros h. rewrite Hsame, Hc. destruct (stored_page w0 h) as [[b k]|]; [|done]. cbn. by rewrite Z.add_0_r.
    + intros h b k Hh. exact (stored_positive w0 h b k Hok0 Hh).
    + rewrite (bind_run _ _ _ _ _ E2) in Hr. injection Hr as <- <-. split; [by eapply same_but_swap_trans|]. split; [done|]. by exists false.
Qed.

(** Copying the swap slots of a mapping for a child is all or nothing: if it
    succeeds every slot was live and each stored page has one more reference for
    each slot that names it; if any slot cannot be shared (it is dead, or its
    16-bit count is full) the references already taken are given back and every
    stored page is what it was. *)
Theorem share_slots_all_or_nothing (p : AnonymousMapping) w o w' : swap_ok w → share_mapping_swap_slots p w = (o, w') →
  same_but_swap w w' ∧ swap_ok w' ∧ ∃ ok : bool, o = Ok ok ∧
  if ok then (∀ h, h ∈ omap id (an_swap p) → is_Some (stored_page w h)) ∧
    ∀ h, stored_page w' h = (λ '(b, n), (b, n + uses (omap id (an_swap p)) h)) <$> stored_page w h
  else ∀ h, stored_page w' h = stored_page w h.
Proof.
  intros Hok Hr. destruct (share_slots_run [] (omap id (an_swap p)) w w o w' Hok Hok) as (Hs & Hok' & ok & -> & Hres); [| |exact Hr|].
  - exact (counted_zero w).
  - intros h []%not_elem_of_nil.
  - split; [done|]. split; [done|]. exists ok. split; [done|]. destruct ok; [naive_solver|by apply counted_same].
Qed.
End swap.
