(* ===== verification/MappedFrames.v ===== *)
(** * The frame cache as a client of the paging module

    The cache of file_frames.rs holds one reference for each of its entries.
    [tracked] says so: the machine is one that the calls of paging.rs lead to from
    boot (AddressSpaces.v), and the references the client holds are those of the
    cache, and of frames it has lost to a refused release.  Every call the cache
    makes of paging.rs is within that module's contract. *)
From stdpp Require Import list gmap.
From S2P Require Import Prelude Memory Paging PagingOwn PagingCow AddressSpaces FileFrames.

Definition tag (e : Entry) : Z * bool := (e_frame e, k_shared (e_key e)).
Definition tags (es : list (option Entry)) : list (option (Z * bool)) := option_map tag <$> es.
Definition frames_in (ts : list (option (Z * bool))) : list Z := fst <$> omap id ts.

Lemma frames_in_app ts1 ts2 : frames_in (ts1 ++ ts2) = frames_in ts1 ++ frames_in ts2.
Proof. unfold frames_in. by rewrite omap_app, fmap_app. Qed.
Lemma frames_in_middle ts1 f b ts2 : frames_in (ts1 ++ Some (f, b) :: ts2) ≡ₚ f :: frames_in (ts1 ++ None :: ts2).
Proof. rewrite !frames_in_app. cbn. by rewrite Permutation_middle. Qed.
Lemma frames_in_lookup ts f b : Some (f, b) ∈ ts → f ∈ frames_in ts.
Proof. intros Hin. unfold frames_in. apply list_elem_of_fmap. exists (f, b). split; [done|]. apply list_elem_of_omap. by exists (Some (f, b)). Qed.
Lemma tags_app es1 es2 : tags (es1 ++ es2) = tags es1 ++ tags es2.
Proof. apply fmap_app. Qed.
Lemma tags_length es : length (tags es) = length es.
Proof. apply length_fmap. Qed.
Lemma tags_insert i o es : tags (<[i := o]> es) = <[i := option_map tag o]> (tags es).
Proof. apply list_fmap_insert. Qed.
Lemma tags_lookup i es : tags es !! i = option_map tag <$> es !! i.
Proof. apply list_lookup_fmap. Qed.
Lemma tags_elem e es : Some e ∈ es → Some (tag e) ∈ tags es.
Proof. intros He. apply list_elem_of_fmap. by exists (Some e). Qed.

Section tracked.
Context {PT : Type} `{PageTableLaws PT} (m0 : Machine PT) (Hboot : booted m0).
#[local] Set Default Proof Using "All".
Implicit Types (m : Machine PT) (c : Client).

Definition tracked (rs lost : list Z) (ts : list (option (Z * bool))) m : Prop := ∃ c,
  rtc any_step (m0, nobody) (m, c) ∧ (∀ r, r ∈ rs → r ∈ cl_roots c) ∧ cl_held c ≡ₚ lost ++ frames_in ts ∧
  ∀ f, Some (f, true) ∈ ts → f ∈ cl_shared c.
(** A frame just allocated, not yet in the cache. *)
Definition fresh (f : Z) (rs lost : list Z) (ts : list (option (Z * bool))) m : Prop := ∃ c,
  rtc any_step (m0, nobody) (m, c) ∧ (∀ r, r ∈ rs → r ∈ cl_roots c) ∧ cl_held c ≡ₚ f :: lost ++ frames_in ts ∧
  f ∉ cl_shared c ∧ ∀ f, Some (f, true) ∈ ts → f ∈ cl_shared c.

Lemma one_step m c m' c' actor : rtc any_step (m0, nobody) (m, c) → vm_step actor (m, c) (m', c') → rtc any_step (m0, nobody) (m', c').
Proof. intros Hr Hs. eapply rtc_r; [exact Hr|]. by exists actor. Qed.

Lemma reached_good m c : rtc any_step (m0, nobody) (m, c) → ∃ g, good m c g.
Proof. by apply reachable_good. Qed.

Lemma tracked_unmap rs lost ts m r start sz res m' : tracked rs lost ts m → r ∈ rs → user_range start sz →
  unmap_user_range_in r start sz m = (res, m') → tracked rs lost ts m'.
Proof.
  intros (c & Hc & Hr & Hh & Hs) Hin Hu Hm. exists c. split; [|done]. eapply one_step; [exact Hc|]. eapply st_unmap; [by apply Hr|done|done].
Qed.

Lemma tracked_private rs lost ts m r a b w (ok : bool) m' : tracked rs lost ts m → r ∈ rs → USER_REGION_START ≤ a < USER_REGION_END →
  length b = PAGE_BYTES → map_private_frame_from_bytes r a b w m = (Ok ok, m') → tracked rs lost ts m'.
Proof.
  intros (c & Hc & Hr & Hh & Hs) Hin Ha Hb Hm. exists c. split; [|done]. eapply one_step; [exact Hc|]. eapply st_private; [by apply Hr|done..].
Qed.

Lemma tracked_break rs lost ts m r a (b : bool) m' : tracked rs lost ts m → r ∈ rs → USER_REGION_START ≤ a < USER_REGION_END →
  try_break_cow r a m = (Ok b, m') → tracked rs lost ts m'.
Proof.
  intros (c & Hc & Hr & Hh & Hs) Hin Ha Hm. exists c. split; [|done]. eapply one_step; [exact Hc|]. eapply st_break; [by apply Hr|done..].
Qed.

Lemma tracked_write rs lost ts m f off b res m' : tracked rs lost ts m → Some (f, true) ∈ ts →
  write_file_frame f off b m = (res, m') → tracked rs lost ts m'.
Proof.
  intros (c & Hc & Hr & Hh & Hs) Hf Hm. exists c. split; [|done]. eapply one_step; [exact Hc|]. eapply st_file_write; [by apply Hs|done].
Qed.

(** Mapping a cached frame; the call always answers. *)
Lemma tracked_map rs lost ts m f b r a w res m' : tracked rs lost ts m → Some (f, b) ∈ ts → r ∈ rs →
  USER_REGION_START ≤ a < USER_REGION_END → map_file_frame r a f w m = (res, m') → ∃ ok : bool, res = Ok ok ∧ tracked rs lost ts m'.
Proof.
  intros (c & Hc & Hr & Hh & Hs) Hf Hin Ha Hm. destruct (reached_good m c Hc) as [g [Ho He Hro Hheld Hsh]].
  assert (f ∈ cl_held c) as Hfh by (rewrite Hh; apply elem_of_app; right; by eapply frames_in_lookup).
  destruct (map_file_frame_spec (cl_shared c) m g r a f w res m' Ho He ltac:(rewrite Hro; auto) Ha ltac:(by rewrite Hheld) Hm)
    as (_ & ok & _ & -> & _). exists ok. split; [done|].
  exists (mkClient (cl_roots c) (cl_held c) (if ok && w then f :: cl_shared c else cl_shared c)). cbn [cl_roots cl_held cl_shared].
  split; [eapply one_step; [exact Hc|]; eapply st_file_map; [by apply Hr|done..]|].
  split; [done|]. split; [done|]. intros f' Hf'. specialize (Hs f' Hf'). destruct (ok && w); [by right|done].
Qed.

Lemma tracked_alloc rs lost ts m b res m' : tracked rs lost ts m → length b = PAGE_BYTES → allocate_file_frame b m = (res, m') →
  ∃ o, res = Ok o ∧ match o with Some f => fresh f rs lost ts m' | None => tracked rs lost ts m' end.
Proof.
  intros (c & Hc & Hr & Hh & Hs) Hb Hm. destruct (reached_good m c Hc) as [g [Ho He Hro Hheld Hsh]].
  destruct (allocate_file_frame_spec m g b res m' Ho Hb Hm) as (o & g' & -> & _ & _ & _ & _ & _ & Hf). exists o. split; [done|].
  destruct o as [f|]; [|exists c; split; [eapply one_step; [exact Hc|]; by eapply st_file_none|done]].
  exists (mkClient (cl_roots c) (f :: cl_held c) (cl_shared c)). split; [eapply one_step; [exact Hc|]; by eapply st_file_alloc|].
  cbn [cl_roots cl_held cl_shared]. split; [done|]. split; [by rewrite Hh|]. split; [|done].
  intros Hin%Hsh. destruct Hf as [Hf _]. apply Hf. unfold owners. apply elem_of_app. left. by rewrite Hheld.
Qed.

(** Giving up a cache entry that nothing maps. *)
Lemma tracked_release rs lost ts1 f b ts2 m res m' : tracked rs lost (ts1 ++ Some (f, b) :: ts2) m → Paging.references (cow m) f = 1 →
  release_file_frame f m = (res, m') → ∃ ok : bool, res = Ok ok ∧
  tracked rs lost (ts1 ++ (if ok then None else Some (f, b)) :: ts2) m'.
Proof.
  intros (c & Hc & Hr & Hh & Hs) Href Hm. destruct (reached_good m c Hc) as [g [Ho He Hro Hheld Hsh]].
  assert (cl_held c ≡ₚ f :: lost ++ frames_in (ts1 ++ None :: ts2)) as Hf.
  { rewrite Hh, frames_in_middle. by rewrite Permutation_middle. }
  assert (f ∈ cl_held c) as Hfh by (rewrite Hf; left).
  destruct (release_file_frame_spec m g f (lost ++ frames_in (ts1 ++ None :: ts2)) res m' Ho ltac:(by rewrite Hheld) Hm) as (_ & ok & _ & -> & _).
  exists ok. split; [done|]. destruct ok.
  2: { exists c. split; [|done]. eapply one_step; [exact Hc|]. by eapply st_file_kept. }
  exists (mkClient (cl_roots c) (lost ++ frames_in (ts1 ++ None :: ts2)) (List.filter (λ f', negb (f' =? f)) (cl_shared c))).
  split; [eapply one_step; [exact Hc|]; by eapply st_file_release|]. cbn [cl_roots cl_held cl_shared]. split; [done|]. split; [done|].
  intros f' Hf'. assert (f' ∈ cl_shared c) as Hin.
  { apply Hs. rewrite elem_of_app, elem_of_cons in *. destruct Hf' as [|[|]]; [auto|done|auto]. }
  assert (f' ≠ f) as Hne.
  { intros ->. rewrite (cow_ok_references _ (owners g)) in Href; [|apply (ow_cow _ _ Ho)|unfold owners; rewrite elem_of_app, Hheld; auto].
    unfold owners in Href. rewrite Hheld, Hf, cnt_app, cnt_cons, Z.eqb_refl, cnt_app in Href.
    assert (1 ≤ cnt f (frames_in (ts1 ++ None :: ts2))) by (by apply cnt_pos, (frames_in_lookup _ f true)).
    pose proof (cnt_nonneg f lost). pose proof (cnt_nonneg f (frames_of (pages g))). lia. }
  rewrite <-list_elem_of_In, filter_In, negb_true_iff, Z.eqb_neq || rewrite list_elem_of_In, filter_In, negb_true_iff, Z.eqb_neq.
  split; [|done]. by apply list_elem_of_In.
Qed.

(** An entry dropped without giving its frame back. *)
Lemma tracked_forget rs lost ts1 f b ts2 m : tracked rs lost (ts1 ++ Some (f, b) :: ts2) m → tracked rs (f :: lost) (ts1 ++ None :: ts2) m.
Proof.
  intros (c & Hc & Hr & Hh & Hs). exists c. split; [done|]. split; [done|]. split.
  - rewrite Hh, frames_in_middle. by rewrite <-Permutation_middle.
  - intros f' Hf'. apply Hs. rewrite elem_of_app, elem_of_cons in *. destruct Hf' as [|[|]]; [auto|done|auto].
Qed.

(** A fresh frame that is given back or lost. *)
Lemma fresh_release f rs lost ts m res m' : fresh f rs lost ts m → release_file_frame f m = (res, m') →
  ∃ (ok : bool) lost', res = Ok ok ∧ tracked rs lost' ts m'.
Proof.
  intros (c & Hc & Hr & Hh & Hns & Hs) Hm. destruct (reached_good m c Hc) as [g [Ho He Hro Hheld Hsh]].
  destruct (release_file_frame_spec m g f (lost ++ frames_in ts) res m' Ho ltac:(by rewrite Hheld) Hm) as (_ & ok & _ & -> & _).
  exists ok, lost. split; [done|].
  exists (mkClient (cl_roots c) (lost ++ frames_in ts) (List.filter (λ f', negb (f' =? f)) (cl_shared c))).
  split; [eapply one_step; [exact Hc|]; eapply st_file_release; [exact Hh|done|exact Hm]|].
  cbn [cl_roots cl_held cl_shared]. split; [done|]. split; [done|]. intros f' Hf'%Hs.
  rewrite <-list_elem_of_In, filter_In, negb_true_iff, Z.eqb_neq || rewrite list_elem_of_In, filter_In, negb_true_iff, Z.eqb_neq.
  split; [by apply list_elem_of_In|]. by intros ->.
Qed.

Lemma fresh_lost f rs lost ts m : fresh f rs lost ts m → tracked rs (f :: lost) ts m.
Proof. intros (c & Hc & Hr & Hh & _ & Hs). by exists c. Qed.

(** A fresh frame is mapped and enters an empty slot. *)
Lemma fresh_map f rs lost ts1 ts2 m r a w res m' : fresh f rs lost (ts1 ++ None :: ts2) m → r ∈ rs →
  USER_REGION_START ≤ a < USER_REGION_END → map_file_frame r a f w m = (res, m') → ∃ ok : bool, res = Ok ok ∧
  if ok then tracked rs lost (ts1 ++ Some (f, w) :: ts2) m' else fresh f rs lost (ts1 ++ None :: ts2) m'.
Proof.
  intros (c & Hc & Hr & Hh & Hns & Hs) Hin Ha Hm. destruct (reached_good m c Hc) as [g [Ho He Hro Hheld Hsh]].
  assert (f ∈ cl_held c) as Hfh by (rewrite Hh; left).
  destruct (map_file_frame_spec (cl_shared c) m g r a f w res m' Ho He ltac:(rewrite Hro; auto) Ha ltac:(by rewrite Hheld) Hm)
    as (_ & ok & _ & -> & _). exists ok. split; [done|].
  assert (rtc any_step (m0, nobody) (m', mkClient (cl_roots c) (cl_held c) (if ok && w then f :: cl_shared c else cl_shared c))) as Hc'.
  { eapply one_step; [exact Hc|]. eapply st_file_map; [by apply Hr|done..]. }
  destruct ok; eexists; (split; [exact Hc'|]); cbn [cl_roots cl_held cl_shared andb]; (split; [done|]).
  - split; [rewrite Hh, frames_in_middle; by rewrite Permutation_middle|].
    intros f' Hf'. rewrite elem_of_app, elem_of_cons in Hf'. assert (f' ∈ cl_shared c ∨ f' = f ∧ w = true) as [Hin'|[-> ->]].
    + destruct Hf' as [Hf'|[[= -> <-]|Hf']]; [left|by right|left]; apply Hs; rewrite elem_of_app, elem_of_cons; auto.
    + destruct w; [by right|done].
    + by left.
  - split; [exact Hh|]. by split.
Qed.
End tracked.
