(* ===== verification/MappedPages.v ===== *)
(** * The pager keeps the paging contract (file_frames.rs, userspace.rs, task.rs)

    Evicting, refaulting and supplying mapped pages, as steps that keep the frame
    cache [tracked] (MappedFrames.v): whatever the pager does, including the
    eviction it starts when frames run out, every reference count stays exact. *)
From stdpp Require Import list gmap.
From S2P Require Import Prelude Config Block Memory Paging PagingOwn PagingCow AddressSpaces Loader FileFrames Mappings MappedFrames.
From S2P Require Vfs VfsPath Swap Process.

(** ** Triples *)

(** From [P] the computation returns a value with [Q], or panics; it has no errors. *)
Definition runs {S E A} (P : S → Prop) (f : M S E A) (Q : A → S → Prop) : Prop := ∀ s, P s →
  match f s with (Ok a, s') => Q a s' | (Err _, _) => False | (Panic, _) => True end.

Section triples.
Context {S E : Type}.
Implicit Types (P : S → Prop).
Lemma runs_seq {A B} (f : M S E A) (g : A → M S E B) P Q R : runs P f Q → (∀ a, runs (Q a) (g a) R) → runs P (f ≫= g) R.
Proof. intros Hf Hg s Hs. specialize (Hf s Hs). unfold mbind, M_bind. destruct (f s) as [[a|e|] s']; [by apply Hg|done|done]. Qed.
Lemma runs_ret {A} (a : A) P Q : (∀ s, P s → Q a s) → runs P (mret a : M S E A) Q.
Proof. intros HQ s Hs. by apply HQ. Qed.
Lemma runs_gets {A} (f : S → A) P Q : (∀ s, P s → Q (f s) s) → runs P (gets f : M S E A) Q.
Proof. intros HQ s Hs. by apply HQ. Qed.
Lemma runs_modify (f : S → S) P Q : (∀ s, P s → Q tt (f s)) → runs P (modify f : M S E unit) Q.
Proof. intros HQ s Hs. by apply HQ. Qed.
Lemma runs_or_panic {A} (o : option A) P Q : (∀ a s, o = Some a → P s → Q a s) → runs P (lift (or_panic o) : M S E A) Q.
Proof. intros HQ s Hs. destruct o as [a|]; [by apply HQ|done]. Qed.
Lemma runs_weaken {A} (f : M S E A) P P' (Q Q' : A → S → Prop) : runs P f Q → (∀ s, P' s → P s) → (∀ a s, Q a s → Q' a s) → runs P' f Q'.
Proof. intros Hf HP HQ s Hs. specialize (Hf s (HP s Hs)). destruct (f s) as [[a|e|] s']; auto. Qed.
Lemma runs_pure {A} (φ : Prop) (f : M S E A) P Q : (φ → runs P f Q) → runs (λ s, P s ∧ φ) f Q.
Proof. intros Hf s [Hs Hφ]. by apply Hf. Qed.
Lemma runs_exists {A X} (f : M S E A) (P : X → S → Prop) Q : (∀ x, runs (P x) f Q) → runs (λ s, ∃ x, P x s) f Q.
Proof. intros Hf s [x Hs]. by apply (Hf x). Qed.
End triples.

(** Slots that are empty stay so. *)
Definition keeps_none (es es' : list (option Entry)) : Prop := length es' = length es ∧ ∀ i, es !! i = Some None → es' !! i = Some None.
Lemma keeps_none_refl es : keeps_none es es.
Proof. done. Qed.
Lemma keeps_none_trans es1 es2 es3 : keeps_none es1 es2 → keeps_none es2 es3 → keeps_none es1 es3.
Proof. intros [? H1] [? H2]. split; [congruence|auto]. Qed.
Lemma keeps_none_cons o o' es es' : (o = None → o' = None) → keeps_none es es' → keeps_none (o :: es) (o' :: es').
Proof. intros Ho [Hl Hi]. split; [cbn; by rewrite Hl|]. intros [|i]; cbn; [|apply Hi]. intros [= ->]. by rewrite Ho. Qed.

Section cache.
Context {PT : Type} `{PageTableLaws PT} (m0 : Machine PT) (Hboot : booted m0).
#[local] Set Default Proof Using "All".
#[local] Abbreviation Op := (M (FrameCache PT) unit).
Implicit Types (c : FrameCache PT).

(** The cache has these entries; the loop has already rewritten some of them to [es]. *)
Definition at_work (rs lost : list Z) (fixed es : list (option Entry)) c : Prop :=
  fc_entries c = fixed ∧ tracked m0 rs lost (tags es) (fc_machine c).

Lemma paging_runs {A} (f : M (Machine PT) MapRangeError A) rs lost fixed es (Q : option A → FrameCache PT → Prop) :
  (∀ m r m', tracked m0 rs lost (tags es) m → f m = (r, m') → ∀ c, fc_entries c = fixed → fc_machine c = m' →
     match r with Ok a => Q (Some a) c | Err _ => Q None c | Panic => True end) →
  runs (at_work rs lost fixed es) (paging f) Q.
Proof.
  intros HQ c [Hf Ht]. unfold paging. destruct (f (fc_machine c)) as [r m'] eqn:E. specialize (HQ _ _ _ Ht E).
  destruct r as [a|e|]; [|apply HQ; done|done]. by apply HQ.
Qed.

Lemma release_runs rs lost fixed pre e post : runs (λ c, at_work rs lost fixed (pre ++ Some e :: post) c ∧ FileFrames.references c (e_frame e) = 1)
  (paging_true (release_file_frame (e_frame e)))
  (λ b, at_work rs lost fixed (pre ++ (if b then None else Some e) :: post)).
Proof.
  intros c [[Hf Ht] Href]. unfold paging_true, paging, mbind, M_bind. destruct (release_file_frame (e_frame e) (fc_machine c)) as [r m'] eqn:E.
  rewrite tags_app in Ht. cbn in Ht. destruct (tracked_release m0 Hboot rs lost (tags pre) (e_frame e) _ (tags post) _ r m' Ht Href E) as (ok & -> & Ht').
  cbn. split; [done|]. cbn. rewrite tags_app. destruct ok; exact Ht'.
Qed.

Lemma reclaim_slots_runs rs lost fixed pre es : runs (at_work rs lost fixed (pre ++ es)) (reclaim_slots es)
  (λ r c, keeps_none es (fst r) ∧ at_work rs lost fixed (pre ++ fst r) c).
Proof.
  revert pre. induction es as [|[e|] es IH]; intros pre; cbn [reclaim_slots].
  - apply runs_ret. intros c Hc. split; [done|exact Hc].
  - eapply runs_seq; [apply (runs_gets _ _ (λ refs c, at_work rs lost fixed (pre ++ Some e :: es) c ∧ FileFrames.references c (e_frame e) = refs)); done|].
    intros refs. eapply (runs_seq _ _ _ (λ b : bool, at_work rs lost fixed (pre ++ (if b then None else Some e) :: es))).
    { destruct (Z.eqb_spec refs 1) as [->|]; [apply release_runs|]. apply runs_ret. by intros c [Hc _]. }
    intros b. eapply runs_seq.
    { eapply runs_weaken; [apply (IH (pre ++ [if b then None else Some e]))| |intros r c Hr; exact Hr]. intros c Hc. by rewrite <-app_assoc. }
    intros [es' n]. cbn [fst]. intros c [Hk Hc]. rewrite <-app_assoc in Hc. destruct b; (split; [by apply keeps_none_cons|exact Hc]).
  - eapply runs_seq.
    { eapply runs_weaken; [apply (IH (pre ++ [None]))| |intros r c Hr; exact Hr]. intros c Hc. by rewrite <-app_assoc. }
    intros [es' n]. cbn [fst]. intros c [Hk Hc]. rewrite <-app_assoc in Hc. split; [by apply keeps_none_cons|exact Hc].
Qed.

(** The state of a cache between calls; the slot [hole], if any, is empty. *)
Definition cache_inv (rs : list Z) (hole : option nat) c : Prop :=
  (∃ lost, tracked m0 rs lost (tags (fc_entries c)) (fc_machine c)) ∧ ∀ i, hole = Some i → fc_entries c !! i = Some None.

Lemma cache_inv_work rs hole c : cache_inv rs hole c → ∃ lost, at_work rs lost (fc_entries c) (fc_entries c) c.
Proof. intros [[lost Ht] _]. by exists lost. Qed.
Lemma at_work_inv rs lost fixed es hole c : at_work rs lost fixed es c → keeps_none fixed es → (∀ i, hole = Some i → fixed !! i = Some None) →
  cache_inv rs hole (set_entries es c).
Proof. intros [Hf Ht] [_ Hk] Hh. split; [by exists lost|]. intros i Hi. apply Hk, Hh, Hi. Qed.

Lemma reclaim_unused_runs rs hole : runs (cache_inv rs hole) reclaim_unused (λ _, cache_inv rs hole).
Proof.
  intros c Hc. destruct (cache_inv_work rs hole c Hc) as [lost Hw]. destruct Hc as [_ Hh].
  pose proof (reclaim_slots_runs rs lost (fc_entries c) [] (fc_entries c) c Hw) as Hr. unfold reclaim_unused, gets, mbind, M_bind.
  destruct (reclaim_slots (fc_entries c) c) as [[[es n]|e|] c']; [|done|done]. destruct Hr as [Hk Hw']. cbn. by eapply at_work_inv.
Qed.

(** The loop that empties the slots nobody maps, under pressure. *)
Lemma drop_unused_runs rs fixed pre es : runs (λ c, ∃ lost, at_work rs lost fixed (pre ++ es) c) (drop_unused es)
  (λ es' c, keeps_none es es' ∧ ∃ lost, at_work rs lost fixed (pre ++ es') c).
Proof.
  revert pre. induction es as [|o es IH]; intros pre; cbn [drop_unused].
  { apply runs_ret. intros c Hc. split; [done|exact Hc]. }
  eapply (runs_seq _ _ _ (λ o' c, (o = None → o' = None) ∧ ∃ lost, at_work rs lost fixed (pre ++ o' :: es) c)).
  - destruct o as [e|]; [|apply runs_ret; intros c Hc; by split].
    eapply runs_seq; [apply (runs_gets _ _ (λ refs c, (∃ lost, at_work rs lost fixed (pre ++ Some e :: es) c) ∧ FileFrames.references c (e_frame e) = refs)); done|].
    intros refs. destruct (Z.eqb_spec refs 1) as [->|]; [|apply runs_ret; intros c [Hc _]; by split].
    intros c [[lost Hc] Href]. pose proof (release_runs rs lost fixed pre e es c (conj Hc Href)) as Hr.
    unfold paging_true, paging_unit, mbind, M_bind in *. destruct (paging (release_file_frame (e_frame e)) c) as [[a|e'|] c']; [|done|done].
    cbn in *. split; [done|]. destruct (bool_decide (a = Some true)); [by exists lost|].
    destruct Hr as [Hf Ht]. exists (e_frame e :: lost). split; [done|]. rewrite tags_app in *. cbn in *. by eapply tracked_forget.
  - intros o'. intros c [Ho Hc]. assert (∃ lost, at_work rs lost fixed ((pre ++ [o']) ++ es) c) as Hc' by by setoid_rewrite <-app_assoc.
    pose proof (IH (pre ++ [o']) c Hc') as Hr. unfold mbind, M_bind. destruct (drop_unused es c) as [[es'|e'|] c']; [|done|done].
    cbn. destruct Hr as [Hk Hr]. split; [by apply keeps_none_cons|]. by setoid_rewrite <-app_assoc in Hr.
Qed.
End cache.

Section writes.
Context {PT : Type} `{PageTableLaws PT} (m0 : Machine PT) (Hboot : booted m0).
#[local] Set Default Proof Using "All".
Implicit Types (c : FrameCache PT).

(** Entries with the frames of before. *)
Lemma cache_inv_tags rs hole c es : cache_inv m0 rs hole c → tags es = tags (fc_entries c) → cache_inv m0 rs hole (set_entries es c).
Proof.
  intros [[lost Ht] Hh] He. split; [exists lost; change (tracked m0 rs lost (tags es) (fc_machine c)); by rewrite He|]. intros i Hi. specialize (Hh i Hi).
  change (es !! i = Some None).
  assert (tags es !! i = Some None) as Hl by (by rewrite He, tags_lookup, Hh). rewrite tags_lookup in Hl.
  destruct (es !! i) as [[e|]|]; done.
Qed.

Lemma grow_older_inv rs hole c : cache_inv m0 rs hole c → cache_inv m0 rs hole (grow_older c).
Proof.
  intros Hc. apply cache_inv_tags; [done|]. unfold tags. rewrite <-list_fmap_compose. apply list_fmap_ext. by intros _ [e|] _.
Qed.
Lemma touch_inv rs hole c i e : cache_inv m0 rs hole c → fc_entries c !! i = Some (Some e) → cache_inv m0 rs hole (touch i e c).
Proof.
  intros Hc Hi. apply cache_inv_tags; [done|]. rewrite tags_insert. apply list_insert_id. by rewrite tags_lookup, Hi.
Qed.

(** A loop that rewrites the keys of entries and stores into shared frames. *)
Lemma each_entry_inv rs lost ts (f : Entry → M (FrameCache PT) unit Entry) es c :
  (∀ e c, Some (tag e) ∈ ts → tracked m0 rs lost ts (fc_machine c) →
     fc_entries (snd (f e c)) = fc_entries c ∧ tracked m0 rs lost ts (fc_machine (snd (f e c))) ∧
     match fst (f e c) with Ok e' => tag e' = tag e | _ => True end) →
  (∀ e, Some e ∈ es → Some (tag e) ∈ ts) → tracked m0 rs lost ts (fc_machine c) →
  fc_entries (snd (each_entry es f c)) = fc_entries c ∧ tracked m0 rs lost ts (fc_machine (snd (each_entry es f c))) ∧
  match fst (each_entry es f c) with Ok es' => tags es' = tags es | _ => True end.
Proof.
  intros Hf. revert c. induction es as [|[e|] es IH]; intros c Hes Ht; cbn [each_entry].
  - done.
  - destruct (Hf e c ltac:(apply Hes; left) Ht) as (He1 & Ht1 & Hr1). unfold mbind, M_bind.
    destruct (f e c) as [[e'|x|] c1]; cbn [fst snd] in *; [|done|done].
    destruct (IH c1 ltac:(intros; apply Hes; by right) Ht1) as (He2 & Ht2 & Hr2).
    destruct (each_entry es f c1) as [[es'|x|] c2]; cbn [fst snd mret M_ret] in *; (split; [congruence|]); (split; [done|]); [|done|done].
    change (Some (tag e') :: tags es' = Some (tag e) :: tags es). by rewrite Hr1, Hr2.
  - destruct (IH c ltac:(intros; apply Hes; by right) Ht) as (He2 & Ht2 & Hr2). unfold mbind, M_bind.
    destruct (each_entry es f c) as [[es'|x|] c2]; cbn [fst snd mret M_ret] in *; (split; [done|]); (split; [done|]); [|done|done].
    change (None :: tags es' = None :: tags es). by rewrite Hr2.
Qed.

Lemma update_entry_inv rs lost ts node generation offset bytes e c : Some (tag e) ∈ ts → tracked m0 rs lost ts (fc_machine c) →
  let f := update_entry node generation offset bytes in
  fc_entries (snd (f e c)) = fc_entries c ∧ tracked m0 rs lost ts (fc_machine (snd (f e c))) ∧
  match fst (f e c) with Ok e' => tag e' = tag e | _ => True end.
Proof.
  intros Hin Ht. cbv zeta. unfold update_entry. destruct (of_file node generation (e_key e)) eqn:Eo; cbn [negb]; [|done].
  assert (k_shared (e_key e) = true) as Hsh by (unfold of_file in Eo; split_guards; done).
  assert (tag (mkEntry (grown offset (length bytes) (e_key e)) (e_frame e) (e_age e)) = tag e) as Htag by (unfold tag, grown; cbn; by case_match).
  destruct (Nat.ltb _ _); [|done]. set (off := Nat.sub _ _). set (b := slice _ _ _). unfold paging_unit, paging, mbind, M_bind.
  destruct (write_file_frame (e_frame e) off b (fc_machine c)) as [r m'] eqn:E.
  assert (tracked m0 rs lost ts m') as Ht' by (eapply tracked_write; [done|exact Ht| |exact E]; unfold tag in Hin; by rewrite Hsh in Hin).
  destruct r; done.
Qed.

Lemma update_inv rs hole node generation offset bytes c : cache_inv m0 rs hole c → cache_inv m0 rs hole (snd (update node generation offset bytes c)).
Proof.
  intros Hc. pose proof Hc as [[lost Ht] Hh]. unfold update, gets, mbind, M_bind.
  destruct (each_entry_inv rs lost (tags (fc_entries c)) (update_entry node generation offset bytes) (fc_entries c) c) as (He & Ht' & Hr);
    [intros; by apply update_entry_inv|intros; by apply tags_elem|exact Ht|].
  destruct (each_entry (fc_entries c) (update_entry node generation offset bytes) c) as [[es|x|] c']; cbn [fst snd] in *.
  - cbn. change (cache_inv m0 rs hole (set_entries es c')). apply cache_inv_tags; [|by rewrite He]. split; [exists lost; by rewrite He|by rewrite He].
  - split; [exists lost; by rewrite He|by rewrite He].
  - split; [exists lost; by rewrite He|by rewrite He].
Qed.
End writes.
