(* ===== verification/MappedPager.v ===== *)
(** * The pager keeps the paging contract (userspace.rs, task.rs)

    The operations of MappedPages.v on the whole world: the files, the mappings of
    the processes and the pager's queue. *)
From stdpp Require Import list gmap.
From S2P Require Import Prelude Config Block Memory Paging PagingOwn PagingCow AddressSpaces Loader FileFrames Mappings MappedFrames MappedPages.
From S2P Require Vfs VfsPath Swap Process.

(** ** What the VFS does to the frames of files *)

Section vfs.
Context {F K : Type} `{Vfs.Frames F, Vfs.DiskFiles K} (R : F → F → Prop) `{!Reflexive R, !Transitive R}.
#[local] Set Default Proof Using "All".

Definition on_frames_only {A} (f : M (Vfs.Fs F K) VfsPath.VError A) : Prop := ∀ s, R (Vfs.frames s) (Vfs.frames (snd (f s))).

Lemma frames_bind {A B} (f : M (Vfs.Fs F K) VfsPath.VError A) (g : A → M (Vfs.Fs F K) VfsPath.VError B) :
  on_frames_only f → (∀ a, on_frames_only (g a)) → on_frames_only (f ≫= g).
Proof.
  intros Hf Hg s. specialize (Hf s). unfold mbind, M_bind. destruct (f s) as [[a|e|] s']; [|done|done]. etrans; [exact Hf|apply Hg].
Qed.
Lemma frames_same {A} (f : M (Vfs.Fs F K) VfsPath.VError A) : (∀ s, Vfs.frames (snd (f s)) = Vfs.frames s) → on_frames_only f.
Proof. intros Hf s. by rewrite Hf. Qed.
Lemma frames_registry {A} (f : M Vfs.Registry VfsPath.VError A) : on_frames_only (Vfs.on_registry f).
Proof. apply frames_same. intros s. unfold Vfs.on_registry. by destruct (f (Vfs.registry s)). Qed.
Lemma frames_files {A} (f : M Vfs.OpenFileTable VfsPath.VError A) : on_frames_only (Vfs.on_files f).
Proof. apply frames_same. intros s. unfold Vfs.on_files. by destruct (f (Vfs.files s)). Qed.
Lemma frames_disk p off buf : on_frames_only (Vfs.disk_read p off buf).
Proof. apply frames_same. intros s. unfold Vfs.disk_read. by repeat case_match. Qed.
Lemma frames_guard (b : bool) e : on_frames_only (Vfs.require b e).
Proof. apply frames_same. by destruct b. Qed.

Ltac frames := repeat first
  [ apply frames_bind; [|intros ?] | apply frames_registry | apply frames_files | apply frames_disk | apply frames_guard
  | apply frames_same; done | case_match ].

Lemma frames_file_identity id : on_frames_only (Vfs.file_identity id).
Proof. unfold Vfs.file_identity. frames. Qed.
Lemma frames_file_size id : on_frames_only (Vfs.file_size id).
Proof. unfold Vfs.file_size. frames. Qed.
Lemma frames_fetch n off cnt buf : on_frames_only (Vfs.fetch n off cnt buf).
Proof. unfold Vfs.fetch. frames. Qed.
Lemma frames_read_mapping_at id gen off buf : on_frames_only (Vfs.read_mapping_at id gen off buf).
Proof. unfold Vfs.read_mapping_at, Vfs.read_from. repeat first [apply frames_fetch|progress frames]. Qed.
Lemma frames_write_mapping_at id off bs : (∀ node gen off bs c, R c (Vfs.fr_update node gen off bs c)) → on_frames_only (Vfs.write_mapping_at id off bs).
Proof. intros HR. unfold Vfs.write_mapping_at. frames. intros s. cbn. apply HR. Qed.
End vfs.

(** ** The state of the pager's world *)

(** A mapping lies in the user region, page by page. *)
Definition mapping_ok (p : AnonymousMapping) : Prop :=
  USER_REGION_START ≤ an_address p ∧ an_address p mod PAGE = 0 ∧ 0 ≤ an_size p ∧ an_address p + an_size p ≤ USER_REGION_END.
Definition proc_ok (rs : list Z) (x : Proc) : Prop :=
  (∀ space, pr_space x = Some space → as_paging space ∈ rs) ∧ ∀ p, Some p ∈ pr_mappings x → mapping_ok p.
Definition request_ok (rs : list Z) (r : PagerRequest) : Prop := as_paging (rq_space r) ∈ rs ∧ mapping_ok (rq_mapping r).
Definition procs_ok rs (ps : list (option Proc)) : Prop := ∀ x, Some x ∈ ps → proc_ok rs x.
Definition pager_ok rs (q : PagerQueue) : Prop := ∀ r, Some r ∈ pq_entries q → request_ok rs r.

Lemma region_page p : mapping_ok p → USER_REGION_END mod PAGE = 0 → ∀ a, contains p a = true →
  USER_REGION_START ≤ page_address p (page_index p a) ∧ page_address p (page_index p a) + PAGE ≤ USER_REGION_END ∧
  page_address p (page_index p a) = page_of a.
Proof.
  intros (Hs & Hm & Hz & He) Hend a Hc. unfold contains in Hc. split_guards. unfold page_address, page_index, page_of, PAGE in *.
  assert (an_address p + Z.of_nat (Z.to_nat ((a - an_address p) / 4096) * 4096) = a - a mod 4096) as Heq.
  { rewrite Nat2Z.inj_mul, Z2Nat.id by (apply Z.div_pos; lia). change (Z.of_nat 4096) with 4096.
    assert (a mod 4096 = (a - an_address p) mod 4096) as ->; [|pose proof (Z.div_mod (a - an_address p) 4096); lia].
    rewrite Zminus_mod, Hm, Z.sub_0_r, Z.mod_mod; done. }
  rewrite Heq. pose proof (Z.mod_pos_bound a 4096). assert ((a - a mod 4096) mod 4096 = 0) as Hal by (rewrite Zminus_mod, Z.mod_mod, Z.sub_diag; done).
  assert (a - a mod 4096 < USER_REGION_END) by lia. split; [|split; [|done]].
  - apply Z.le_trans with (an_address p); [done|].
    assert (an_address p / 4096 <= a / 4096) by (apply Z.div_le_mono; lia). pose proof (Z.div_mod (an_address p) 4096). pose proof (Z.div_mod a 4096). lia.
  - pose proof (Z.div_mod (a - a mod 4096) 4096). pose proof (Z.div_mod USER_REGION_END 4096). lia.
Qed.
Lemma region_end : USER_REGION_END mod PAGE = 0.
Proof. reflexivity. Qed.

(** The pages of a mapping. *)
Lemma indexed_page p i : mapping_ok p → (i < page_count p)%nat → contains p (page_address p i) = true ∧ page_index p (page_address p i) = i.
Proof.
  intros (Hs & Hm & Hz & He) Hi. unfold page_count, contains, page_index, page_address in *.
  rewrite Nat2Z.inj_mul. change (Z.of_nat 4096) with 4096. pose proof (Z.div_mod (an_size p) 4096). pose proof (Z.mod_pos_bound (an_size p) 4096). split.
  - apply andb_true_iff. split; [apply Z.leb_le; lia|apply Z.ltb_lt; lia].
  - replace (an_address p + Z.of_nat i * 4096 - an_address p) with (Z.of_nat i * 4096) by lia. rewrite Z.div_mul by done. lia.
Qed.

Section world.
Context {PT K D : Type} `{PageTableLaws PT, Vfs.DiskFiles K, BlockDevice D, !Persistence (FrameCache PT) K} (m0 : Machine PT) (Hboot : booted m0).
#[local] Set Default Proof Using "All".
#[local] Abbreviation Op := (M (World PT K D) unit).
Implicit Types (w : World PT K D).

(** What the frame operations do not touch. *)
Definition around rs w : Prop := procs_ok rs (w_procs w) ∧ pager_ok rs (w_pager w).
(** The world between calls; the cache slot [hole], if any, is empty. *)
Definition world_inv rs (hole : option nat) w : Prop := cache_inv m0 rs hole (w_cache w) ∧ around rs w.
(** The world with a frame just allocated. *)
Definition with_fresh f rs (hole : option nat) w : Prop :=
  (∃ lost, fresh m0 f rs lost (tags (fc_entries (w_cache w))) (w_machine w)) ∧
  (∀ i, hole = Some i → fc_entries (w_cache w) !! i = Some None) ∧ around rs w.

Lemma on_cache_runs {A} rs (P : FrameCache PT → Prop) (f : M (FrameCache PT) unit A) (Q : A → FrameCache PT → Prop) :
  runs P f Q → runs (λ w, P (w_cache w) ∧ around rs w) (on_cache f) (λ a w, Q a (w_cache w) ∧ around rs w).
Proof.
  intros Hf w [HP Ha]. specialize (Hf _ HP). unfold on_cache. destruct (f (Vfs.frames (w_vfs w))) as [r c] eqn:E.
  unfold w_cache in Hf. rewrite E in Hf. by destruct r.
Qed.

(** A call of paging.rs that keeps the machine tracked. *)
Lemma on_machine_runs {A} rs hole (f : M (Machine PT) MapRangeError A) (Q : option A → Prop) :
  (∀ lost ts m r m', tracked m0 rs lost ts m → f m = (r, m') →
     match r with Ok a => Q (Some a) ∧ tracked m0 rs lost ts m' | Err _ => Q None ∧ tracked m0 rs lost ts m' | Panic => True end) →
  runs (world_inv rs hole) (on_machine f) (λ o w, world_inv rs hole w ∧ Q o).
Proof.
  intros Hf. unfold on_machine. eapply runs_weaken.
  - apply (on_cache_runs rs (cache_inv m0 rs hole) _ (λ o c, cache_inv m0 rs hole c ∧ Q o)).
    intros c [[lost Ht] Hh]. unfold paging. destruct (f (fc_machine c)) as [r m'] eqn:E. specialize (Hf _ _ _ _ _ Ht E).
    destruct r as [a|e|]; [| |done]; destruct Hf as [HQ Ht']; (split; [|done]); (split; [by exists lost|done]).
  - done.
  - intros o w [[Hc HQ] Ha]. split; [by split|done].
Qed.

Lemma read_user_bytes_same r a n m : snd (read_user_bytes_in r a n m) = m.
Proof.
  assert (∀ fuel a n out m, snd (read_loop fuel r a n out m) = m) as Hl.
  { clear. induction fuel as [|fuel IH]; intros a [|n] out m; cbn [read_loop]; try done.
    rewrite bind_guard. case_match; [|done]. case_match; [done|]. unfold pt_translate. rewrite bind_gets, bind_lift.
    destruct (translate _ _) as [[[f o] fl]|]; [|done]. cbn [ok_or]. rewrite bind_guard. case_match; [|done].
    rewrite (bind_run _ _ _ _ _ (eq_refl : direct (f + o) InvalidRange m = (match checked_add 64 (memory_offset m) (f + o) with Some _ => Ok tt | None => Err InvalidRange end, m))).
    destruct (checked_add _ _ _); [|done]. rewrite bind_gets. apply IH. }
  unfold read_user_bytes_in, mapper_for.
  rewrite (bind_run _ _ _ _ _ (eq_refl : direct r MappingFailed m = (match checked_add 64 (memory_offset m) r with Some _ => Ok tt | None => Err MappingFailed end, m))).
  destruct (checked_add _ _ _); [apply Hl|done].
Qed.

Lemma read_user_runs rs hole r a n : runs (world_inv rs hole) (on_machine (read_user_bytes_in r a n)) (λ _, world_inv rs hole).
Proof.
  eapply runs_weaken.
  1: apply (on_machine_runs rs hole _ (λ _, True)).
  2: done.
  2: by intros o w [].
  intros lost ts m r0 m' Ht Hm. assert (m' = m) as -> by (rewrite <-(read_user_bytes_same r a n m); by rewrite Hm). by destruct r0.
Qed.

Definition kept_cache (c c' : FrameCache PT) : Prop := ∀ rs hole, cache_inv m0 rs hole c → cache_inv m0 rs hole c'.
#[local] Instance kept_cache_refl : Reflexive kept_cache.
Proof. by intros c rs hole. Qed.
#[local] Instance kept_cache_trans : Transitive kept_cache.
Proof. intros c1 c2 c3 H1' H2' rs hole Hc. auto. Qed.

Lemma vfs_runs {A} rs hole (f : M (Vfs.Fs (FrameCache PT) K) VfsPath.VError A) : on_frames_only kept_cache f →
  runs (world_inv rs hole) (vfs f) (λ _, world_inv rs hole).
Proof.
  intros Hf w [Hc Ha]. specialize (Hf (w_vfs w) rs hole Hc). unfold vfs. destruct (f (w_vfs w)) as [r v]. cbn [snd] in Hf. by destruct r.
Qed.
Lemma vfs_identity_runs rs hole id : runs (world_inv rs hole) (vfs (Vfs.file_identity id)) (λ _, world_inv rs hole).
Proof. apply vfs_runs. apply frames_file_identity; apply _. Qed.
Lemma vfs_read_runs rs hole id gen off buf : runs (world_inv rs hole) (vfs (Vfs.read_mapping_at id gen off buf)) (λ _, world_inv rs hole).
Proof. apply vfs_runs. apply frames_read_mapping_at; apply _. Qed.
Lemma vfs_write_runs rs hole id off bs : runs (world_inv rs hole) (vfs (Vfs.write_mapping_at id off bs)) (λ _, world_inv rs hole).
Proof.
  apply vfs_runs. apply frames_write_mapping_at; [apply _|apply _|]. intros node gen off' bs' c rs' hole' Hc. by apply update_inv.
Qed.

Lemma swap_allocate_runs rs hole page : runs (world_inv rs hole) (swap_allocate page) (λ _, world_inv rs hole).
Proof. intros w Hw. unfold swap_allocate. by destruct (Swap.allocate_page page (w_swap w) (w_disk w)) as [[h s] d]. Qed.
Lemma swap_read_runs rs hole h : runs (world_inv rs hole) (swap_read h) (λ _, world_inv rs hole).
Proof. intros w Hw. unfold swap_read. by destruct (Swap.read_page h (replicate 4096 x00) (w_swap w) (w_disk w)) as [[b page] d]. Qed.
Lemma swap_release_runs rs hole h : runs (world_inv rs hole) (swap_release h) (λ _, world_inv rs hole).
Proof. intros w Hw. unfold swap_release. by destruct (Swap.release h (w_swap w)) as [b s]. Qed.
Lemma reclaim_runs rs hole : runs (world_inv rs hole) reclaim (λ _, world_inv rs hole).
Proof.
  unfold reclaim. eapply runs_seq; [|intros a; apply runs_ret; intros w Hw; exact Hw].
  eapply runs_weaken; [apply (on_cache_runs rs (cache_inv m0 rs hole) _ (λ _, cache_inv m0 rs hole)), reclaim_unused_runs, Hboot|done|done].
Qed.

(** ** Eviction *)

Lemma write_back_runs rs hole root p l index count : runs (world_inv rs hole) (write_back root p l index count) (λ _, world_inv rs hole).
Proof.
  unfold write_back. eapply runs_seq; [apply read_user_runs|]. intros [part|]; [|by apply runs_ret].
  eapply runs_seq; [apply vfs_write_runs|]. intros o. by apply runs_ret.
Qed.

Lemma save_page_runs rs hole root p l index : runs (world_inv rs hole) (save_page root p l index) (λ _, world_inv rs hole).
Proof.
  unfold save_page. case_match.
  - eapply runs_seq; [apply read_user_runs|]. intros [part|]; [|by apply runs_ret].
    eapply runs_seq; [apply swap_allocate_runs|]. intros o. by apply runs_ret.
  - case_match; [|by apply runs_ret]. case_match; [by apply runs_ret|].
    eapply runs_seq; [apply write_back_runs|]. intros o. by apply runs_ret.
Qed.

Lemma unmap_page_runs rs hole root p address : root ∈ rs → mapping_ok p → contains p address = true →
  runs (world_inv rs hole) (on_machine (unmap_user_range_in root (page_address p (page_index p address)) 4096)) (λ _, world_inv rs hole).
Proof.
  intros Hr Hp Hc. destruct (region_page p Hp region_end address Hc) as (Hlo & Hhi & _). unfold PAGE in Hhi.
  eapply runs_weaken.
  1: apply (on_machine_runs rs hole _ (λ _, True)).
  2: done.
  2: by intros o w [].
  intros lost ts m r m' Ht Hm. assert (tracked m0 rs lost ts m') as Ht'; [|by destruct r].
  eapply tracked_unmap; [done|exact Ht|exact Hr| |exact Hm]. unfold user_range. lia.
Qed.

Lemma evict_file_page_runs rs hole space p address : as_paging space ∈ rs → mapping_ok p →
  runs (world_inv rs hole) (evict_file_page space p address) (λ r w, world_inv rs hole w ∧ mapping_ok (snd r)).
Proof.
  intros Hr Hp. unfold evict_file_page. destruct (an_lazy p) as [l|]; [|by apply runs_ret].
  destruct (contains p address) eqn:Ec; cbn [negb]; [|by apply runs_ret]. case_match; [by apply runs_ret|].
  eapply runs_seq; [apply save_page_runs|]. intros [slot|]; [|by apply runs_ret].
  eapply runs_seq; [by apply unmap_page_runs|]. intros [u|].
  2: { eapply runs_seq; [instantiate (1 := λ _, world_inv rs hole); destruct slot; [apply swap_release_runs|by apply runs_ret]|]. intros ?. by apply runs_ret. }
  eapply (runs_seq _ _ _ (λ _, world_inv rs hole)); [by apply runs_or_panic|]. intros old.
  eapply (runs_seq _ _ _ (λ _, world_inv rs hole)); [destruct old; [apply swap_release_runs|by apply runs_ret]|]. intros _.
  eapply runs_seq; [apply reclaim_runs|]. intros ?. by apply runs_ret.
Qed.

Lemma evict_pages_runs rs hole space p indices : as_paging space ∈ rs → mapping_ok p →
  runs (world_inv rs hole) (evict_pages space p indices) (λ r w, world_inv rs hole w ∧ mapping_ok (snd r)).
Proof.
  intros Hr. revert p. induction indices as [|i indices IH]; intros p Hp; cbn [evict_pages]; [by apply runs_ret|].
  eapply runs_seq; [by apply evict_file_page_runs|]. intros [ok p']. cbn [snd]. apply runs_pure. intros Hp'.
  destruct ok; [by apply runs_ret|by apply IH].
Qed.

Lemma evict_mappings_runs rs hole space ps : as_paging space ∈ rs → (∀ p, Some p ∈ ps → mapping_ok p) →
  runs (world_inv rs hole) (evict_mappings space ps) (λ r w, world_inv rs hole w ∧ ∀ p, Some p ∈ snd r → mapping_ok p).
Proof.
  intros Hr. induction ps as [|[p|] ps IH]; intros Hps; cbn [evict_mappings].
  - apply runs_ret. intros w Hw. split; [done|exact Hps].
  - eapply runs_seq; [apply evict_pages_runs; [done|apply Hps; left]|]. intros [ok p']. cbn [snd]. apply runs_pure. intros Hp'. destruct ok.
    + apply runs_ret. intros w Hw. split; [done|]. intros q [[= ->]|Hq]%elem_of_cons; [done|]. apply Hps. by right.
    + eapply runs_seq; [apply IH; intros; apply Hps; by right|]. intros [ok ps']. cbn [snd]. apply runs_pure. intros Hps'.
      apply runs_ret. intros w Hw. split; [done|]. intros q [[= ->]|Hq]%elem_of_cons; [done|auto].
  - eapply runs_seq; [apply IH; intros; apply Hps; by right|]. intros [ok ps']. cbn [snd]. apply runs_pure. intros Hps'.
    apply runs_ret. intros w Hw. split; [done|]. intros q [|Hq]%elem_of_cons; [done|auto].
Qed.

Lemma evict_processes_runs rs hole ps : procs_ok rs ps →
  runs (world_inv rs hole) (evict_processes ps) (λ r w, world_inv rs hole w ∧ procs_ok rs (snd r)).
Proof.
  induction ps as [|o ps IH]; intros Hps; cbn [evict_processes]; [by apply runs_ret|].
  eapply (runs_seq _ _ _ (λ r w, world_inv rs hole w ∧ ∀ x, snd r = Some x → proc_ok rs x)).
  { destruct o as [x|]; [|by apply runs_ret]. destruct (Hps x ltac:(left)) as [Hsp Hms].
    destruct (pr_space x) as [space|] eqn:Es; [|apply runs_ret; intros w Hw; split; [done|]; intros y [= <-]; apply Hps; left].
    eapply runs_seq; [apply evict_mappings_runs; [by apply Hsp|exact Hms]|]. intros [ok l]. cbn [snd]. apply runs_pure. intros Hl.
    apply runs_ret. intros w Hw. split; [done|]. intros y [= <-]. split; [|exact Hl]. cbn. rewrite Es. exact Hsp. }
  intros [ok o']. cbn [snd]. apply runs_pure. intros Ho. assert (procs_ok rs ps) as Hps' by (intros x Hx; apply Hps; by right). destruct ok.
  - apply runs_ret. intros w Hw. split; [done|]. intros x [<-|Hx]%elem_of_cons; auto.
  - eapply runs_seq; [by apply IH|]. intros [ok ps']. cbn [snd]. apply runs_pure. intros Hps2.
    apply runs_ret. intros w Hw. split; [done|]. intros x [<-|Hx]%elem_of_cons; auto.
Qed.

Lemma evict_one_runs rs hole : runs (world_inv rs hole) evict_one_mapped_file_page (λ _, world_inv rs hole).
Proof.
  unfold evict_one_mapped_file_page.
  eapply runs_seq; [apply (runs_gets _ _ (λ ps w, world_inv rs hole w ∧ procs_ok rs ps)); intros w Hw; split; [done|apply Hw]|].
  intros ps. apply runs_pure. intros Hps. eapply runs_seq; [by apply evict_processes_runs|]. intros [ok ps']. cbn [snd]. apply runs_pure. intros Hps'.
  eapply (runs_seq _ _ _ (λ _, world_inv rs hole)); [apply runs_modify|intros ?; by apply runs_ret].
  intros w [Hc [_ Hq]]. split; [exact Hc|]. split; [exact Hps'|exact Hq].
Qed.

(** ** Supplying a frame *)

Lemma alloc_frame_runs rs hole bytes : length bytes = PAGE_BYTES → runs (world_inv rs hole) (alloc_frame bytes)
  (λ o w, match o with Some f => with_fresh f rs hole w | None => world_inv rs hole w end).
Proof.
  intros Hb w [[[lost Ht] Hh] Ha]. destruct (allocate_file_frame bytes (w_machine w)) as [r m'] eqn:E.
  destruct (tracked_alloc m0 Hboot rs lost _ _ bytes r m' Ht Hb E) as (o & -> & Hf).
  unfold alloc_frame, on_machine, on_cache, paging, mbind, M_bind. unfold w_machine, w_cache in E. rewrite E. cbn.
  destruct o as [f|]; cbn.
  - split; [by exists lost|]. split; [exact Hh|exact Ha].
  - split; [split; [by exists lost|exact Hh]|exact Ha].
Qed.

Lemma frame_for_runs rs hole bytes : length bytes = PAGE_BYTES → runs (world_inv rs hole) (frame_for bytes)
  (λ o w, match o with Some f => with_fresh f rs hole w | None => world_inv rs hole w end).
Proof.
  intros Hb. unfold frame_for. eapply runs_seq; [by apply alloc_frame_runs|]. intros [f|]; [by apply runs_ret|].
  eapply (runs_seq _ _ _ (λ es w, world_inv rs hole w ∧ fc_entries (w_cache w) = es)).
  { intros w Hw. cbn. split; [exact Hw|done]. }
  intros es. eapply (runs_seq _ _ _ (λ es' w, (keeps_none es es' ∧ ∃ lost, at_work m0 rs lost es es' (w_cache w)) ∧ around rs w ∧ ∀ i, hole = Some i → es !! i = Some None)).
  { intros w [[[[lost Ht] Hh] Ha] He]. rewrite He in Hh, Ht.
    pose proof (on_cache_runs rs _ _ _ (drop_unused_runs m0 Hboot rs es [] es) w) as Hd. specialize (Hd (conj (ex_intro _ lost (conj He Ht)) Ha)).
    destruct (on_cache (drop_unused es) w) as [[es'|x|] w']; [|done|done]. destruct Hd as [Hd Ha']. split; [exact Hd|]. by split. }
  intros es'. eapply (runs_seq _ _ _ (λ _, world_inv rs hole)).
  { intros w [[Hk [lost Hw]] [Ha Hh]]. cbn. split; [|exact Ha]. by eapply at_work_inv. }
  intros _. eapply runs_seq; [by apply alloc_frame_runs|]. intros [f|]; [by apply runs_ret|].
  eapply runs_seq; [apply evict_one_runs|]. intros [|]; [by apply alloc_frame_runs|by apply runs_ret].
Qed.

Lemma map_cached_runs rs hole root address key shared : root ∈ rs → USER_REGION_START ≤ address < USER_REGION_END →
  runs (world_inv rs hole) (map_cached root address key shared) (λ _, world_inv rs hole).
Proof.
  intros Hr Ha. unfold map_cached.
  eapply (runs_seq _ _ _ (λ o w, world_inv rs hole w ∧ ∀ i e, o = Some (i, e) → fc_entries (w_cache w) !! i = Some (Some e))).
  { apply runs_gets. intros w Hw. split; [exact Hw|]. intros i e. unfold find_page.
    intros (j & Hj & (e' & He & [= <- <-])%bind_Some)%bind_Some. by destruct (fc_entries (w_cache w) !! j) as [[x|]|]; simplify_eq/=. }
  intros [[i e]|]; [|apply runs_ret; by intros w []].
  eapply (runs_seq _ _ _ (λ _ w, world_inv rs hole w ∧ Some (tag e) ∈ tags (fc_entries (w_cache w)))).
  { intros w [[Hc Hw] Hi]. specialize (Hi i e eq_refl). cbn. split; [split; [by apply touch_inv|exact Hw]|].
    apply (tags_elem (mkEntry (e_key e) (e_frame e) 0)). cbn. apply list_elem_of_lookup. exists i.
    apply list_lookup_insert_eq. by eapply lookup_lt_Some. }
  intros _. eapply (runs_seq _ _ _ (λ _, world_inv rs hole)); [|intros b; by apply runs_ret].
  unfold map_frame. eapply (runs_seq _ _ _ (λ _, world_inv rs hole)); [|intros b; by apply runs_ret].
  intros w [[[[lost Ht] Hh] Haw] Hin]. destruct (map_file_frame root address (e_frame e) shared (w_machine w)) as [r m'] eqn:E.
  destruct (tracked_map m0 Hboot rs lost _ _ (e_frame e) _ root address shared r m' Ht Hin Hr Ha E) as (ok & -> & Ht').
  unfold on_machine, on_cache, paging. unfold w_machine, w_cache in E. rewrite E. cbn. split; [|exact Haw]. split; [by exists lost|exact Hh].
Qed.

(** Slot [index] as the middle of the list. *)
Lemma middle {A} (l : list A) i x : l !! i = Some x → l = take i l ++ x :: drop (S i) l ∧ ∀ y, <[i := y]> l = take i l ++ y :: drop (S i) l.
Proof.
  intros Hi. split; [symmetry; by apply take_drop_middle|]. intros y. apply insert_take_drop. by eapply lookup_lt_Some.
Qed.

(** An entry [victim] chooses is mapped by nobody. *)
Lemma oldest_from_spec es i best (c : FrameCache PT) j : oldest_from i es best c = Some j →
  (∃ a, best = Some (j, a)) ∨ ∃ k e, j = (i + k)%nat ∧ es !! k = Some (Some e) ∧ FileFrames.references c (e_frame e) = 1.
Proof.
  revert i best. induction es as [|o es IH]; intros i best; cbn [oldest_from].
  { intros (a & -> & ->)%fmap_Some. left. destruct a as [j' a]. by exists a. }
  intros Hj. apply IH in Hj as [[a Ha]|(k & e & -> & He & Hr)].
  - destruct o as [e|]; [|left; by exists a]. destruct (Z.eqb_spec (FileFrames.references c (e_frame e)) 1) as [Hr|]; [|left; by exists a].
    assert (j = i ∨ ∃ a, best = Some (j, a)) as [->|]; [|right; exists 0%nat, e; split; [lia|done]|by left].
    destruct best as [[j' a']|]; [|left; by simplify_eq]. destruct (a' <=? e_age e); [left; by simplify_eq|right; by exists a].
  - right. exists (S k), e. split; [lia|done].
Qed.
Lemma victim_spec (c : FrameCache PT) i : victim c = Some i → fc_entries c !! i = Some None ∨
  ∃ e, fc_entries c !! i = Some (Some e) ∧ FileFrames.references c (e_frame e) = 1.
Proof.
  unfold victim. destruct (position _ (fc_entries c)) as [j|] eqn:E.
  - intros [= ->]. apply position_Some_1 in E as (x & Hx & Hn). left. rewrite Hx. by destruct x.
  - intros [[a Ha]|(k & e & -> & He & Hr)]%oldest_from_spec; [done|]. right. exists e. by cbn.
Qed.

Lemma publish_runs rs root address key shared bytes : k_shared key = shared → root ∈ rs → USER_REGION_START ≤ address < USER_REGION_END → length bytes = PAGE_BYTES →
  runs (world_inv rs None) (publish root address key shared bytes) (λ _, world_inv rs None).
Proof.
  intros Hk Hr Ha Hb. unfold publish.
  assert (∀ w i, world_inv rs (Some i) w → world_inv rs None w) as Hweak by (intros w i [[Ht _] Haw]; split; [split; [exact Ht|done]|exact Haw]).
  eapply (runs_seq _ _ _ (λ o w, world_inv rs None w ∧ victim (w_cache w) = o)); [by apply runs_gets|]. intros [index|]; [|apply runs_ret; by intros w []].
  eapply (runs_seq _ _ _ (λ o w, (world_inv rs None w ∧ victim (w_cache w) = Some index) ∧ o = mjoin (fc_entries (w_cache w) !! index))); [by apply runs_gets|]. intros old.
  eapply (runs_seq _ _ _ (λ _ w, world_inv rs (Some index) w)).
  { intros w [[[[[lost Ht] Hh] Haw] Hv] ->]. apply victim_spec in Hv as [Hn|(e & He & Hrf)].
    - rewrite Hn. cbn. split; [split; [by exists lost|]|exact Haw]. by intros i [= <-].
    - rewrite He. cbn [mjoin option_join]. destruct (middle _ _ _ He) as [Hes Hins].
      set (pre := take index (fc_entries (w_cache w))) in *. set (post := drop (S index) (fc_entries (w_cache w))) in *.
      destruct (release_file_frame (e_frame e) (w_machine w)) as [r m'] eqn:E.
      rewrite Hes, tags_app in Ht. destruct (tracked_release m0 Hboot rs lost (tags pre) (e_frame e) (k_shared (e_key e)) (tags post) _ r m' Ht Hrf E) as (ok & -> & Ht').
      unfold set_slot, on_cache, paging_true, paging, mbind, M_bind, modify. cbn. unfold w_machine, w_cache in E. rewrite E. cbn.
      split; [|exact Haw]. split; [|intros i [= <-]; apply list_lookup_insert_eq; by eapply lookup_lt_Some].
      cbn. unfold w_cache in Hins. rewrite Hins, tags_app. destruct ok; [by exists lost|]. exists (e_frame e :: lost).
      by apply (tracked_forget m0 Hboot) in Ht'. }
  intros released. case_match; [apply runs_ret; intros w; apply Hweak|].
  eapply runs_seq; [by apply frame_for_runs|]. intros [f|]; [|apply runs_ret; intros w; apply Hweak].
  eapply (runs_seq _ _ _ (λ b w, if b : bool then (∃ lost, fc_entries (w_cache w) !! index = Some None ∧
      tracked m0 rs lost (<[index := Some (f, shared)]> (tags (fc_entries (w_cache w)))) (w_machine w)) ∧ around rs w else with_fresh f rs (Some index) w)).
  { intros w [[lost Hf] [Hh Haw]]. specialize (Hh index eq_refl). destruct (map_file_frame root address f shared (w_machine w)) as [r m'] eqn:E.
    assert (tags (fc_entries (w_cache w)) !! index = Some None) as Hi by by rewrite tags_lookup, Hh.
    destruct (middle _ _ _ Hi) as [Hts Hins]. set (ts := tags (fc_entries (w_cache w))) in *. pose proof Hf as Hf0. rewrite Hts in Hf0.
    destruct (fresh_map m0 Hboot f rs lost (take index ts) (drop (S index) ts) _ root address shared r m' Hf0 Hr Ha E) as (ok & -> & Ht').
    unfold map_frame, on_machine, on_cache, paging, mbind, M_bind. unfold w_machine, w_cache in E. rewrite E. cbn. destruct ok; cbn.
    - split; [|exact Haw]. exists lost. split; [exact Hh|]. fold ts. by rewrite Hins.
    - split; [|split; [|exact Haw]]; [exists lost; rewrite <-Hts in Ht'; exact Ht'|by intros i [= <-]]. }
  intros [|]; cbn [negb].
  - eapply (runs_seq _ _ _ (λ _, world_inv rs None)); [|intros _; by apply runs_ret].
    intros w [[lost [Hn Ht]] Haw]. cbn. split; [|exact Haw]. split; [|done]. exists lost. cbn. rewrite tags_insert. cbn.
    unfold tag at 1; cbn [e_frame e_key]. rewrite Hk. exact Ht.
  - eapply (runs_seq _ _ _ (λ _, world_inv rs None)); [|intros _; by apply runs_ret].
    intros w [[lost Hf] [Hh Haw]]. destruct (release_file_frame f (w_machine w)) as [r m'] eqn:E.
    destruct (fresh_release m0 Hboot f rs lost _ _ r m' Hf E) as (ok & lost' & -> & Ht').
    unfold on_cache, paging_unit, paging, mbind, M_bind. unfold w_machine, w_cache in E. rewrite E. cbn.
    split; [|exact Haw]. split; [by exists lost'|done].
Qed.

Lemma length_page_buffer l : length (page_buffer l) = PAGE_BYTES.
Proof.
  unfold page_buffer. pose proof (length_replicate 4096 x00). pose proof (length_take l 4096). rewrite length_splice by lia; done.
Qed.

Lemma map_file_page_runs rs root address file generation offset count shared : root ∈ rs → USER_REGION_START ≤ address < USER_REGION_END →
  runs (world_inv rs None) (map_file_page root address file generation offset count shared) (λ _, world_inv rs None).
Proof.
  intros Hr Ha. unfold map_file_page. eapply runs_seq; [apply vfs_identity_runs|]. intros [[[node actual] version]|]; [|by apply runs_ret].
  case_match; [by apply runs_ret|].
  eapply (runs_seq _ _ _ (λ _, world_inv rs None)); [by apply runs_gets|]. intros changing.
  eapply (runs_seq _ _ _ (λ _, world_inv rs None)).
  { destruct changing; [|by apply runs_ret]. intros w Hw. exact Hw. }
  intros snapshot. set (key := mkKey _ _ _ _ _ _ _).
  eapply (runs_seq _ _ _ (λ _, world_inv rs None)).
  { intros w [Hc Haw]. cbn. split; [by apply grow_older_inv|exact Haw]. }
  intros _. eapply runs_seq; [by apply map_cached_runs|]. intros [b|]; [by apply runs_ret|].
  eapply runs_seq; [apply vfs_read_runs|]. intros [[n part]|]; [|by apply runs_ret]. case_match; [by apply runs_ret|].
  eapply runs_seq; [by apply map_cached_runs|]. intros [b|]; [by apply runs_ret|].
  apply publish_runs; [done..|apply length_page_buffer].
Qed.

Lemma map_private_runs rs hole root address bytes writable : root ∈ rs → USER_REGION_START ≤ address < USER_REGION_END → length bytes = PAGE_BYTES →
  runs (world_inv rs hole) (on_machine (map_private_frame_from_bytes root address bytes writable)) (λ _, world_inv rs hole).
Proof.
  intros Hr Ha Hb. eapply runs_weaken.
  1: apply (on_machine_runs rs hole _ (λ _, True)).
  2: done.
  2: by intros o w [].
  intros lost ts m r m' Ht Hm. pose proof Ht as (c & Hc & Hroots & _). destruct (reached_good m0 Hboot m c Hc) as [g [Ho He Hro _ _]].
  pose proof (map_private_frame_spec (cl_shared c) m g root address bytes writable r m' Ho He ltac:(rewrite Hro; auto) Ha Hb Hm) as Hs.
  destruct r as [ok|e|]; [|done|done]. split; [done|]. by eapply tracked_private.
Qed.

Lemma swap_read_buffer rs hole h : runs (world_inv rs hole) (swap_read h) (λ o w, world_inv rs hole w ∧ ∀ b, o = Some b → length b = PAGE_BYTES).
Proof.
  intros w Hw. unfold swap_read. destruct (Swap.read_page h (replicate 4096 x00) (w_swap w) (w_disk w)) as [[b page] d]. split; [done|].
  intros x. destruct b; [|done]. intros [= <-]. apply length_page_buffer.
Qed.

Lemma populate_runs rs space p address write : as_paging space ∈ rs → mapping_ok p →
  runs (world_inv rs None) (populate_file_page space p address write) (λ r w, world_inv rs None w ∧ mapping_ok (snd r)).
Proof.
  intros Hr Hp. unfold populate_file_page. destruct (an_lazy p) as [l|]; [|by apply runs_ret].
  destruct (contains p address) eqn:Ec; cbn [negb orb]; [|by apply runs_ret]. case_match; [by apply runs_ret|]. case_match; [by apply runs_ret|].
  destruct (region_page p Hp region_end address Ec) as (Hlo & Hhi & _).
  assert (USER_REGION_START ≤ page_address p (page_index p address) < USER_REGION_END) as Hpa by (unfold PAGE in Hhi; lia).
  eapply (runs_seq _ _ _ (λ _, world_inv rs None)); [by apply runs_or_panic|]. intros [h|].
  - eapply runs_seq; [apply swap_read_buffer|]. intros [b|]; [|apply runs_ret; by intros w []]. apply runs_pure. intros Hb.
    eapply runs_seq; [apply map_private_runs; [done|done|by apply Hb]|]. intros o. case_match; [by apply runs_ret|].
    eapply runs_seq; [apply swap_release_runs|]. intros ?. by apply runs_ret.
  - eapply runs_seq; [by apply map_file_page_runs|]. intros b. case_match; by apply runs_ret.
Qed.

(** ** The pager and the faulting tasks *)

Lemma pager_push_ok rs r q : pager_ok rs q → request_ok rs r → pager_ok rs (snd (pager_push r q)).
Proof.
  intros Hq Hr. unfold pager_push. destruct (position is_none (pq_entries q)) as [i|]; [|done].
  intros r'. cbn. intros [j Hj]%list_elem_of_lookup. apply list_lookup_insert_Some in Hj as [(_ & [= <-] & _)|[_ Hj]]; [done|].
  apply Hq. by eapply list_elem_of_lookup_2.
Qed.
Lemma pager_pop_ok rs q : pager_ok rs q → pager_ok rs (snd (pager_pop q)) ∧ ∀ r, fst (pager_pop q) = Some r → request_ok rs r.
Proof.
  intros Hq. unfold pager_pop. destruct (position _ (pq_entries q)) as [i|] eqn:E; [|done]. split.
  - intros r'. cbn. intros [j Hj]%list_elem_of_lookup. apply list_lookup_insert_Some in Hj as [(_ & [=] & _)|[_ Hj]].
    apply Hq. by eapply list_elem_of_lookup_2.
  - cbn. intros r Hr. apply Hq. apply list_elem_of_lookup. exists i. by destruct (pq_entries q !! i) as [[x|]|]; simplify_eq/=.
Qed.

Lemma process_at_ok rs w i x : procs_ok rs (w_procs w) → process_at i w = Some x → proc_ok rs x.
Proof.
  intros Hps Hx. apply Hps, list_elem_of_lookup. exists i. unfold process_at in Hx. by destruct (w_procs w !! i) as [[y|]|]; simplify_eq/=.
Qed.

Lemma request_page_runs rs task address write : runs (world_inv rs None) (request_page task address write) (λ _, world_inv rs None).
Proof.
  intros w [Hc [Hps Hq]]. unfold request_page. rewrite bind_gets.
  match goal with |- context [match ?o with Some _ => _ | None => _ end] => destruct o as [[[space slot] p]|] eqn:E end; [|done].
  apply bind_Some in E as (i & _ & E). apply bind_Some in E as (x & Ex & E). apply bind_Some in E as (space' & Es & E).
  apply bind_Some in E as (slot' & _ & E). apply bind_Some in E as (p' & Ep & E). injection E as -> -> ->.
  destruct (process_at_ok rs w i x Hps Ex) as [Hsp Hms].
  assert (request_ok rs (mkRequest task space slot p address write)) as Hr.
  { split; [by apply Hsp|]. apply Hms, list_elem_of_lookup. exists slot. cbn. by destruct (pr_mappings x !! slot) as [[y|]|]; simplify_eq/=. }
  unfold pager. pose proof (pager_push_ok rs _ _ Hq Hr) as Hq'. destruct (pager_push _ (w_pager w)) as [b q]. split; [exact Hc|]. by split.
Qed.

Lemma pager_finish_runs rs c : runs (world_inv rs None) (pager (pager_finish c)) (λ _, world_inv rs None).
Proof.
  intros w [Hc [Hps Hq]]. unfold pager. assert (pager_ok rs (snd (pager_finish c (w_pager w)))) as Hq'.
  { unfold pager_finish. destruct (position is_none (pq_completions (w_pager w))); exact Hq. }
  destruct (pager_finish c (w_pager w)) as [b q]. split; [exact Hc|]. by split.
Qed.
Lemma resume_fault_runs rs task address : runs (world_inv rs None) (resume_fault task address) (λ _, world_inv rs None).
Proof.
  unfold resume_fault. eapply (runs_seq _ _ _ (λ _, world_inv rs None)); [|intros o; by apply runs_ret].
  intros w [Hc [Hps Hq]]. unfold pager. assert (pager_ok rs (snd (take_completion task address (w_pager w)))) as Hq'.
  { unfold take_completion. destruct (position _ (pq_completions (w_pager w))); exact Hq. }
  destruct (take_completion task address (w_pager w)) as [b q]. split; [exact Hc|]. by split.
Qed.

Lemma store_mapping_runs rs task slot p : mapping_ok p → runs (world_inv rs None) (store_mapping task slot p) (λ _, world_inv rs None).
Proof.
  intros Hp w [Hc [Hps Hq]]. unfold store_mapping, modify. destruct (find_process task (w_procs w)) as [i|]; [|by split].
  split; [exact Hc|]. split; [|exact Hq]. intros x [j Hj]%list_elem_of_lookup. cbn in Hj. rewrite list_lookup_alter in Hj.
  destruct (decide (i = j)) as [->|]; [|apply Hps; by eapply list_elem_of_lookup_2].
  destruct (w_procs w !! j) as [[y|]|] eqn:Ey; cbn in Hj; simplify_eq.
  destruct (Hps y ltac:(by eapply list_elem_of_lookup_2)) as [Hsp Hms]. split; [exact Hsp|]. cbn.
  intros q [k Hk]%list_elem_of_lookup. apply list_lookup_insert_Some in Hk as [(_ & [= <-] & _)|[_ Hk]]; [done|]. apply Hms. by eapply list_elem_of_lookup_2.
Qed.

Lemma pager_round_runs rs : runs (world_inv rs None) pager_round (λ _, world_inv rs None).
Proof.
  unfold pager_round. eapply (runs_seq _ _ _ (λ o w, world_inv rs None w ∧ ∀ r, o = Some r → request_ok rs r)).
  { intros w [Hc [Hps Hq]]. unfold pager. destruct (pager_pop_ok rs _ Hq) as [Hq' Hr]. destruct (pager_pop (w_pager w)) as [o q].
    split; [|exact Hr]. split; [exact Hc|]. by split. }
  intros [r|]; [|apply runs_ret; by intros w []]. apply runs_pure. intros Hr. destruct (Hr r eq_refl) as [Hsp Hp].
  eapply runs_seq; [by apply populate_runs|]. intros [ok p]. cbn [snd]. apply runs_pure. intros Hp'.
  eapply (runs_seq _ _ _ (λ _, world_inv rs None)); [destruct ok; [by apply store_mapping_runs|by apply runs_ret]|].
  intros ?. eapply runs_seq; [apply pager_finish_runs|]. intros b. by apply runs_ret.
Qed.

Lemma try_break_answers r a rs lost ts m res m' : tracked m0 rs lost ts m → r ∈ rs → USER_REGION_START ≤ a < USER_REGION_END →
  try_break_cow r a m = (res, m') → match res with Err _ => False | _ => True end.
Proof.
  intros (c & Hc & Hroots & _) Hr Ha Hm. destruct (reached_good m0 Hboot m c Hc) as [g [Ho He Hro _ _]].
  pose proof (try_break_cow_spec (cl_shared c) m g r a res m' Ho He ltac:(rewrite Hro; auto) Ha Hm) as Hs. by destruct res.
Qed.

Lemma mark_dirty_ok rs w i x address : world_inv rs None w → process_at i w = Some x → world_inv rs None (mark_dirty i x address w).
Proof.
  intros [Hc [Hps Hq]] Hx. unfold mark_dirty. destruct (find_mapping address (pr_mappings x)) as [slot|]; [|by split].
  destruct (process_at_ok rs w i x Hps Hx) as [Hsp Hms].
  split; [exact Hc|]. split; [|exact Hq]. intros y [j Hj]%list_elem_of_lookup. cbn in Hj.
  apply list_lookup_insert_Some in Hj as [(_ & [= <-] & _)|[_ Hj]]; [|apply Hps; by eapply list_elem_of_lookup_2].
  split; [exact Hsp|]. cbn. intros p [k Hk]%list_elem_of_lookup. rewrite list_lookup_alter in Hk.
  destruct (decide (slot = k)) as [->|]; [|apply Hms; by eapply list_elem_of_lookup_2].
  destruct (pr_mappings x !! k) as [[p'|]|] eqn:Ep; cbn in Hk; simplify_eq.
  assert (mapping_ok p') as Hp' by (apply Hms; by eapply list_elem_of_lookup_2).
  unfold mark_file_page_dirty. by repeat case_match.
Qed.

Lemma cow_fault_runs rs task address : USER_REGION_START ≤ address < USER_REGION_END →
  runs (world_inv rs None) (try_handle_cow_fault task address) (λ _, world_inv rs None).
Proof.
  intros Ha. unfold try_handle_cow_fault.
  eapply (runs_seq _ _ _ (λ o w, world_inv rs None w ∧ ∀ i x, o = Some (i, x) → proc_ok rs x)).
  { apply runs_gets. intros w Hw. split; [exact Hw|]. intros i x (j & _ & (y & Hy & [= <- <-])%bind_Some)%bind_Some. eapply process_at_ok; [apply Hw|exact Hy]. }
  intros [[i x]|]; cbn [mbind option_bind]; [|apply runs_ret; by intros w []]. apply runs_pure. intros Hx. destruct (Hx i x eq_refl) as [Hsp _].
  destruct (pr_space x) as [space|] eqn:Es; cbn; [|by apply runs_ret]. case_match; [by apply runs_ret|].
  eapply (runs_seq _ _ _ (λ _, world_inv rs None)).
  { eapply runs_weaken.
    1: apply (on_machine_runs rs None _ (λ _, True)).
    2: done.
    2: by intros o w [].
    intros lost ts m r m' Ht Hm. pose proof (try_break_answers _ _ _ _ _ _ _ _ Ht (Hsp _ eq_refl) Ha Hm) as Hans. destruct r as [b|e|]; [|done|done].
    split; [done|]. eapply tracked_break; [exact Hboot|exact Ht|by apply Hsp|exact Ha|exact Hm]. }
  intros o. case_match; [by apply runs_ret|].
  eapply (runs_seq _ _ _ (λ o w, world_inv rs None w ∧ ∀ i x, o = Some (i, x) → process_at i w = Some x)).
  { apply runs_gets. intros w Hw. split; [exact Hw|]. intros j y (j' & _ & (y' & Hy & [= <- <-])%bind_Some)%bind_Some. exact Hy. }
  intros o'. eapply (runs_seq _ _ _ (λ _, world_inv rs None)); [|intros ?; by apply runs_ret].
  destruct o' as [[j y]|]; [|apply runs_ret; by intros w []]. apply runs_modify. intros w [Hw Hy]. apply mark_dirty_ok; [exact Hw|by apply Hy].
Qed.

(** ** Steps of the pager's world *)

(** A faulting task asks for a page or collects the answer, the pager serves a
    request, memory pressure evicts a page, a write fault is resolved, a program
    stores through its page tables. *)
Inductive pager_step (rs : list Z) : World PT K D → World PT K D → Prop :=
| ps_request task address write r w w' : request_page task address write w = (Ok r, w') → pager_step rs w w'
| ps_resume task address r w w' : resume_fault task address w = (Ok r, w') → pager_step rs w w'
| ps_round r w w' : pager_round w = (Ok r, w') → pager_step rs w w'
| ps_evict r w w' : evict_one_mapped_file_page w = (Ok r, w') → pager_step rs w w'
| ps_write_fault task address r w w' : USER_REGION_START ≤ address < USER_REGION_END →
    try_handle_cow_fault task address w = (Ok r, w') → pager_step rs w w'
| ps_store root address bytes w w' : root ∈ rs → USER_REGION_START ≤ address < USER_REGION_END →
    on_cache (λ c, match user_store root address bytes (fc_machine c) with
                   | Some m => (Ok tt, mkCache (fc_entries c) (fc_snapshots c) m)
                   | None => (Panic, c)
                   end) w = (Ok tt, w') → pager_step rs w w'.

Lemma runs_step {A} rs (f : Op A) w r w' : runs (world_inv rs None) f (λ _, world_inv rs None) → world_inv rs None w → f w = (Ok r, w') → world_inv rs None w'.
Proof. intros Hf Hw E. specialize (Hf w Hw). by rewrite E in Hf. Qed.

Lemma pager_step_inv rs w w' : pager_step rs w w' → world_inv rs None w → world_inv rs None w'.
Proof.
  intros Hs Hw. destruct Hs.
  - by eapply runs_step; [apply request_page_runs| |].
  - by eapply runs_step; [apply resume_fault_runs| |].
  - by eapply runs_step; [apply pager_round_runs| |].
  - by eapply runs_step; [apply evict_one_runs| |].
  - by eapply runs_step; [apply cow_fault_runs| |].
  - destruct Hw as [[[lost (c & Hc & Hr & Hh & Hsh)] Hhole] Ha]. unfold on_cache in *.
    destruct (user_store root address bytes (fc_machine (Vfs.frames (w_vfs w)))) as [m'|] eqn:E; [|done].
    match goal with Hm : _ = (Ok tt, w') |- _ => injection Hm as <- end. split; [|exact Ha]. split; [|done].
    exists lost, c. split; [|by split]. eapply one_step; [exact Hboot|exact Hc|]. eapply st_store; [by apply Hr|done|exact E].
Qed.

Lemma pager_steps_inv rs w w' : rtc (pager_step rs) w w' → world_inv rs None w → world_inv rs None w'.
Proof. induction 1 as [|w w1 w2 Hs _ IH]; [done|]. intros Hw. by eapply IH, pager_step_inv. Qed.
End world.
