(* ===== verification/MappedFaults.v ===== *)
(** * Faults and evictions of mapped pages (userspace.rs, task.rs)

    Swapping a dirty private page out and faulting it back in is invisible to
    every program; and what the pager loses: an eviction it causes itself, and
    tasks it cannot answer. *)
From stdpp Require Import list gmap.
From S2P Require Import Prelude Config Block Memory Paging PagingOwn PagingCow UserBytes AddressSpaces Loader FileFrames Mappings MappedSwap.
From S2P Require Import MappedFrames MappedPages MappedPager.
From S2P Require Vfs VfsPath Swap Process.

(** ** The bits of a mapping *)

Lemma has_testbit m i : has m i = Z.testbit m (Z.of_nat i).
Proof.
  unfold has, bit. rewrite Z.shiftl_1_l. destruct (Z.testbit m (Z.of_nat i)) eqn:E.
  - apply negb_true_iff, Z.eqb_neq. intros H. apply (f_equal (λ x, Z.testbit x (Z.of_nat i))) in H.
    rewrite Z.land_spec, E, Z.pow2_bits_true, Z.bits_0 in H by lia. done.
  - apply negb_false_iff, Z.eqb_eq. apply Z.bits_inj'. intros n Hn. rewrite Z.land_spec, Z.bits_0.
    destruct (Z.eqb_spec n (Z.of_nat i)) as [->|Hne]; [by rewrite E|]. by rewrite Z.pow2_bits_false, andb_false_r by lia.
Qed.
Lemma set_bit_same m i : has m i = true → Z.lor m (bit i) = m.
Proof.
  rewrite has_testbit. intros E. unfold bit. rewrite Z.shiftl_1_l. apply Z.bits_inj'. intros n Hn. rewrite Z.lor_spec.
  destruct (Z.eqb_spec n (Z.of_nat i)) as [->|Hne]; [by rewrite E|]. by rewrite Z.pow2_bits_false, orb_false_r by lia.
Qed.
Lemma has_small m i : 0 ≤ m < 2 ^ 16 → has m i = true → (i < 16)%nat.
Proof.
  intros Hm. rewrite has_testbit. intros E. destruct (decide (i < 16)%nat) as [|Hn]; [done|]. exfalso.
  assert (m < 2 ^ Z.of_nat i) as Hlt by (apply Z.lt_le_trans with (2 ^ 16); [lia|apply Z.pow_le_mono_r; lia]).
  destruct (Z.eq_dec m 0) as [->|]; [by rewrite Z.bits_0 in E|]. rewrite Z.bits_above_log2 in E; [done|lia|]. apply Z.log2_lt_pow2; lia.
Qed.
Lemma small_bits m n : 0 ≤ m < 2 ^ 16 → 16 ≤ n → Z.testbit m n = false.
Proof.
  intros Hm Hn. destruct (Z.eq_dec m 0) as [->|]; [apply Z.bits_0|]. apply Z.bits_above_log2; [lia|].
  apply Z.lt_le_trans with 16; [apply Z.log2_lt_pow2; lia|done].
Qed.
(** A bit cleared by an eviction and set by the next fault. *)
Lemma clear_set_bit m i : 0 ≤ m < 2 ^ 16 → has m i = true → Z.lor (Z.land m (bnot 16 (bit i))) (bit i) = m.
Proof.
  rewrite has_testbit. intros Hm E. unfold bnot, bit. rewrite Z.shiftl_1_l. replace (2 ^ 16 - 1) with (Z.ones 16) by reflexivity.
  apply Z.bits_inj'. intros n Hn. rewrite Z.lor_spec, Z.land_spec, Z.lxor_spec.
  destruct (Z.eqb_spec n (Z.of_nat i)) as [->|Hne]; [by rewrite E, Z.pow2_bits_true, orb_true_r by lia|].
  rewrite Z.pow2_bits_false, xorb_false_r, orb_false_r by lia. destruct (Z.ltb_spec n 16).
  - by rewrite Z.ones_spec_low, andb_true_r by lia.
  - by rewrite small_bits.
Qed.
Lemma has_cleared m i : has (Z.land m (bnot 16 (bit i))) i = false ∨ (16 ≤ i)%nat.
Proof.
  destruct (decide (i < 16)%nat) as [Hi|]; [left|right; lia]. rewrite has_testbit. unfold bnot, bit. rewrite Z.shiftl_1_l.
  replace (2 ^ 16 - 1) with (Z.ones 16) by reflexivity. by rewrite Z.land_spec, Z.lxor_spec, Z.pow2_bits_true, Z.ones_spec_low, andb_false_r by lia.
Qed.

(** ** The pages of a space *)

Section machine.
Context {PT : Type} `{PageTableLaws PT}.
#[local] Set Default Proof Using "All".
Implicit Types (m : Machine PT) (g : Book).

Lemma direct_run (physical : Z) e m : direct physical e m = (match checked_add 64 (memory_offset m) physical with Some _ => Ok tt | None => Err e end, m).
Proof. done. Qed.

(** One round of a read inside one page. *)
Lemma read_round fuel m g r p n : owned m g → r ∈ roots g → user_page p → (0 < n ≤ PAGE_BYTES)%nat →
  read_loop (S fuel) r p n [] m =
  match pages g !! (r, p) with
  | Some (f, fl) =>
    if f_user fl then
      match checked_add 64 (memory_offset m) (f + 0) with Some _ => (Ok (take n (contents m f)), m) | None => (Err InvalidRange, m) end
    else (Err InvalidRange, m)
  | None => (Err NotMapped, m)
  end.
Proof.
  intros Ho Hr Hp Hn. destruct n as [|n]; [lia|]. cbn [read_loop]. pose proof Hp as [Hal Hreg].
  assert (p <? 2 ^ 64 = true) as Hlt by (unfold USER_REGION_END, USER_REGION_START in Hreg; lia). rewrite bind_guard, Hlt.
  rewrite canonical_law by (unfold USER_REGION_END, USER_REGION_START in Hreg; lia). cbn [negb].
  rewrite (bind_run _ _ _ _ _ (translate_run m g r p Ho Hr Hp)), bind_lift.
  destruct (pages g !! (r, p)) as [[f fl]|]; cbn [fmap option_fmap option_map ok_or entry fst snd]; [|done].
  rewrite bind_guard. destruct (f_user fl); [|done]. rewrite (bind_run _ _ _ _ _ (direct_run _ _ m)).
  destruct (checked_add _ _ _); [|done]. rewrite bind_gets. set (count := Nat.min _ _).
  assert (count = S n) as -> by (subst count; change (Z.to_nat (PAGE - 0)) with PAGE_BYTES; lia).
  rewrite Nat.sub_diag. by destruct fuel.
Qed.

(** Reading a whole page. *)
Lemma read_page m g r p res m' : owned m g → r ∈ roots g → user_page p → read_user_bytes_in r p PAGE_BYTES m = (res, m') →
  m' = m ∧ ∀ b, res = Ok b → ∃ f fl, pages g !! (r, p) = Some (f, fl) ∧ b = contents m f.
Proof.
  intros Ho Hr Hp Hm. unfold read_user_bytes_in in Hm. rewrite (bind_run _ _ _ _ _ (mapper_ok m g r Ho Hr)) in Hm.
  assert (∃ k, PAGE_BYTES = S k) as [k Hk] by (exists (pred PAGE_BYTES); change PAGE_BYTES with (Z.to_nat PAGE); unfold PAGE; lia).
  assert (read_loop (S k) r p PAGE_BYTES [] m = (res, m')) as Hl by (by rewrite <-Hk).
  rewrite (read_round k m g r p PAGE_BYTES Ho Hr Hp) in Hl by (rewrite Hk; lia).
  destruct (pages g !! (r, p)) as [[f fl]|]; [|by injection Hl as <- <-].
  destruct (f_user fl); [|by injection Hl as <- <-]. destruct (checked_add _ _ _); injection Hl as <- <-; (split; [done|]); [|done].
  intros b [= <-]. exists f, fl. split; [done|]. apply take_ge. by rewrite (ow_contents _ _ Ho).
Qed.

(** The mappings of the space, as its tables say. *)
Lemma page_entry m g r p : owned m g → r ∈ roots g → user_page p → pages g !! (r, p) = (λ '(f, _, fl), (f, fl)) <$> translate p (tables m r).
Proof.
  intros Ho Hr Hp. rewrite (ow_pages _ _ Ho r p Hr Hp). by destruct (pages g !! (r, p)) as [[f fl]|].
Qed.

Lemma release_file_frame_tables f m : tables (snd (release_file_frame f m)) = tables m ∧ contents (snd (release_file_frame f m)) = contents m.
Proof.
  unfold release_file_frame. destruct (phys_frame f); [|done]. unfold release_frame, cow_release, dealloc, mbind, M_bind.
  destruct (release _ (cow m)) as [b t]. destruct b; [|done]. cbn. by destruct (deallocate_frame _ _) as [b a].
Qed.
Lemma reclaim_slots_tables es (c : FrameCache PT) :
  tables (fc_machine (snd (reclaim_slots es c))) = tables (fc_machine c) ∧ contents (fc_machine (snd (reclaim_slots es c))) = contents (fc_machine c).
Proof.
  revert c. induction es as [|[e|] es IH]; intros c; cbn [reclaim_slots]; [done| |].
  - rewrite bind_gets. set (f := if _ =? 1 then _ else _).
    assert (tables (fc_machine (snd (f c))) = tables (fc_machine c) ∧ contents (fc_machine (snd (f c))) = contents (fc_machine c)) as [Ht Hc].
    { subst f. case_match; [|done]. unfold paging_true, paging, mbind, M_bind.
      pose proof (release_file_frame_tables (e_frame e) (fc_machine c)) as Hr. by destruct (release_file_frame (e_frame e) (fc_machine c)) as [[]]. }
    unfold mbind, M_bind. destruct (f c) as [[b|x|] c1]; cbn [snd] in *; [|done|done]. destruct (IH c1) as [Ht2 Hc2].
    destruct (reclaim_slots es c1) as [[[es' n]|x|] c2]; cbn [snd mret M_ret] in *; (split; congruence).
  - unfold mbind, M_bind. destruct (IH c) as [Ht2 Hc2]. by destruct (reclaim_slots es c) as [[[es' n]|x|] c2].
Qed.
End machine.

Section faults.
Context {PT K D : Type} `{PageTableLaws PT, Vfs.DiskFiles K, BlockDeviceLaws D, !Persistence (FrameCache PT) K} (m0 : Machine PT) (Hboot : booted m0).
#[local] Set Default Proof Using "All".
Implicit Types (w : World PT K D).

Lemma same_but_swap_cache w w' : same_but_swap w w' → w_cache w' = w_cache w ∧ w_machine w' = w_machine w.
Proof. intros (Hv & _). unfold w_machine, w_cache. by rewrite Hv. Qed.
Lemma on_machine_run {A} (f : M (Machine PT) MapRangeError A) w o w' : on_machine f w = (Ok o, w') →
  ∃ r, f (w_machine w) = (r, w_machine w') ∧ o = (match r with Ok a => Some a | _ => None end) ∧
  w_swap w' = w_swap w ∧ w_disk w' = w_disk w.
Proof.
  unfold on_machine, on_cache, paging, w_machine, w_cache. destruct (f (fc_machine (Vfs.frames (w_vfs w)))) as [r m'] eqn:E.
  intros Hm. exists r. destruct r as [a|e|]; [| |done]; injection Hm as Ho <-; cbn; done.
Qed.
Lemma same_swap_stored w w' : w_swap w' = w_swap w → w_disk w' = w_disk w → swap_sys w' = swap_sys w.
Proof. intros Hs Hd. unfold swap_sys. by rewrite Hs, Hd. Qed.

(** Swapping a dirty private page out. *)
Lemma evict_dirty rs w space p l address p1 w1 : world_inv m0 rs None w → swap_ok w → as_paging space ∈ rs → mapping_ok p →
  an_lazy p = Some l → lz_shared l = false → has (an_dirty p) (page_index p address) = true →
  an_swap p !! page_index p address = Some None →
  evict_file_page space p address w = (Ok (true, p1), w1) →
  let index := page_index p address in let page := page_address p index in
  contains p address = true ∧ has (an_resident p) index = true ∧ ∃ h fr fl,
  p1 = with_resident (Z.land (an_resident p) (bnot 16 (bit index))) (with_swap (<[index := Some h]> (an_swap p)) p) ∧
  swap_ok w1 ∧ world_inv m0 rs None w1 ∧
  translate page (tables (w_machine w) (as_paging space)) = Some (fr, 0, fl) ∧
  contents (w_machine w1) = contents (w_machine w) ∧
  (∀ r q, r ∈ rs → user_page q → translate q (tables (w_machine w1) r) =
     if decide ((r, q) = (as_paging space, page)) then None else translate q (tables (w_machine w) r)) ∧
  stored_page w h = None ∧ stored_page w1 h = Some (contents (w_machine w) fr, 1) ∧
  ∀ h', h' ≠ h → stored_page w1 h' = stored_page w h'.
Proof.
  intros Hw Hok Hr Hp Hl Hsh Hd Hslot Hm. cbv zeta.
  assert (world_inv m0 rs None w1) as Hw1 by (pose proof (evict_file_page_runs m0 Hboot rs None space p address Hr Hp w Hw) as Hrun; rewrite Hm in Hrun; apply Hrun).
  unfold evict_file_page in Hm. rewrite Hl in Hm. destruct (contains p address) eqn:Ec; cbn [negb] in Hm; [|done].
  destruct (region_page p Hp region_end address Ec) as (Hlo & Hhi & Heq).
  set (index := page_index p address) in *. set (page := page_address p index) in *.
  assert (user_page page) as Hpage by (split; [rewrite Heq; unfold page_of, PAGE; rewrite Zminus_mod, Z.mod_mod, Z.sub_diag by done; done|unfold PAGE in Hhi; lia]).
  destruct (has (an_resident p) index) eqn:Er; cbn [negb] in Hm; [|done]. split; [done|]. split; [done|].
  pose proof Hw as [[[lost (c & Hc & Hroots & _)] _] _]. destruct (reached_good m0 Hboot _ c Hc) as [g [Ho He Hro _ _]].
  assert (∀ r, r ∈ rs → r ∈ roots g) as Hrg by (intros r Hin; rewrite Hro; auto).
  apply M_bind_Ok_inv in Hm as (saved & wa & Hsave & Hm). unfold save_page in Hsave. rewrite Hsh, Hd in Hsave. cbn [negb andb] in Hsave.
  apply M_bind_Ok_inv in Hsave as (bytes & wb & Hread & Hsave). destruct (on_machine_run _ _ _ _ Hread) as (r0 & Hread' & -> & Hs1 & Hd1).
  change 4096%nat with PAGE_BYTES in Hread'. destruct (read_page _ _ _ _ _ _ Ho (Hrg _ Hr) Hpage Hread') as [Hmb Hb].
  destruct r0 as [bytes|e|]; [|by injection Hsave as <- <-|by injection Hsave as <- <-]. destruct (Hb bytes eq_refl) as (fr & fl & Hk & ->).
  assert (length (contents (w_machine w) fr) = Swap.PAGE_SIZE) as Hlen by (rewrite (ow_contents _ _ Ho); reflexivity).
  assert (swap_ok wb) as Hokb by (unfold swap_ok; by rewrite (same_swap_stored w wb)).
  apply M_bind_Ok_inv in Hsave as (h & wc & Halloc & Hsave). injection Hsave as <- <-.
  destruct (swap_allocate_run _ _ _ _ Hokb Hlen Halloc) as (Hsame & Hokc & h' & [= <-] & Hh).
  destruct h as [h|]; cbn [fmap option_fmap option_map] in Hm; [|done]. destruct Hh as (Hnone & Hsome & Hoth).
  destruct (same_but_swap_cache _ _ Hsame) as [_ Hmc]. rewrite Hmb in Hmc.
  apply M_bind_Ok_inv in Hm as (u & wd & Hun & Hm). destruct (on_machine_run _ _ _ _ Hun) as (ru & Hun' & -> & Hs2 & Hd2). rewrite Hmc in Hun'.
  destruct ru as [[]|e|]; [|by apply M_bind_Ok_inv in Hm as (? & ? & _ & Hm)|by apply M_bind_Ok_inv in Hm as (? & ? & _ & Hm)].
  destruct (unmap_user_range_spec _ _ _ page 4096 _ _ Ho (Hrg _ Hr) ltac:(unfold user_range, PAGE in *; lia) Hun') as (Hcd & g1 & ps & Ho1 & (Hr1 & Hh1 & Hk1) & Hps).
  assert (ps = [page]) as ->.
  { destruct Hpage as [Hal Hreg]. unfold page_range in Hps. rewrite Hal in Hps. cbn in Hps. destruct (checked_add _ _ _); [|done].
    destruct (_ && _); [|done]. injection Hps as <-. unfold pages_from.
    change (Z.to_nat (4096 / PAGE)) with 1%nat. change ([page + Z.of_nat 0 * PAGE] = [page]). f_equal. lia. }
  rewrite bind_lift, Hslot in Hm. cbn [or_panic] in Hm. rewrite bind_ret in Hm.
  apply M_bind_Ok_inv in Hm as (u & we & Hrec & Hm). injection Hm as <- <-.
  assert (tables (w_machine we) = tables (w_machine wd) ∧ contents (w_machine we) = contents (w_machine wd) ∧ swap_sys we = swap_sys wd) as (Hte & Hce & Hse).
  { unfold reclaim, reclaim_unused, on_cache, mbind, M_bind, gets in Hrec.
    pose proof (reclaim_slots_tables (fc_entries (Vfs.frames (w_vfs wd))) (Vfs.frames (w_vfs wd))) as [Ht Hcn].
    destruct (reclaim_slots (fc_entries (Vfs.frames (w_vfs wd))) (Vfs.frames (w_vfs wd))) as [[[es n]|x|] c']; [|done|done].
    cbn in Hrec. injection Hrec as Hwe. subst we. cbn [snd] in *.
    split; [exact Ht|split; [exact Hcn|done]]. }
  exists h, fr, fl. split; [by unfold with_swap, with_resident|].
  assert (swap_sys wd = swap_sys wc) as Hsd by by apply same_swap_stored.
  split; [unfold swap_ok; by rewrite Hse, Hsd|]. split; [done|].
  assert (∀ r q, r ∈ rs → user_page q → translate q (tables (w_machine w) r) = entry <$> pages g !! (r, q)) as Htr
    by (intros r q Hin Hq; apply (ow_pages _ _ Ho); auto).
  split; [by rewrite Htr, Hk|]. split; [by rewrite Hce|]. split.
  { intros r q Hin Hq. rewrite Hte, (ow_pages _ _ Ho1) by (try rewrite Hr1; auto). rewrite Hk1, (Htr r q Hin Hq).
    case_bool_decide as Hb'; rewrite elem_of_keys in Hb'; cbn in Hb'; rewrite list_elem_of_singleton in Hb'.
    - destruct Hb' as [-> ->]. by rewrite decide_True.
    - by rewrite decide_False by (intros [= -> ->]; naive_solver). }
  assert (∀ h, stored_page we h = stored_page wc h) as Hst by (intros x; unfold stored_page; by rewrite Hse, Hsd).
  assert (∀ h, stored_page wb h = stored_page w h) as Hsb by (intros x; unfold stored_page; by rewrite (same_swap_stored w wb)).
  split; [by rewrite <-Hsb|]. split; [by rewrite Hst|]. intros h' Hne. by rewrite Hst, Hoth, Hsb.
Qed.

Lemma page_buffer_full l : length l = PAGE_BYTES → page_buffer l = l.
Proof.
  intros Hl. assert (take 4096 l = l) as Ht by (apply take_ge; rewrite Hl; reflexivity). unfold page_buffer. rewrite Ht. apply splice_all.
  rewrite Hl, length_replicate. reflexivity.
Qed.

(** Faulting a page back in from its slot. *)
Lemma populate_swapped rs w space p l address write h x n p2 w2 : world_inv m0 rs None w → swap_ok w → as_paging space ∈ rs → mapping_ok p →
  an_lazy p = Some l → an_swap p !! page_index p address = Some (Some h) → stored_page w h = Some (x, n) → length x = PAGE_BYTES →
  populate_file_page space p address write w = (Ok (true, p2), w2) →
  let index := page_index p address in let page := page_address p index in
  p2 = with_dirty (Z.lor (an_dirty p) (bit index)) (with_resident (Z.lor (an_resident p) (bit index)) (with_swap (<[index := None]> (an_swap p)) p)) ∧
  (∀ r a, r ∈ rs → user_address a → user_byte (w_machine w2) r a =
     if decide ((r, page_of a) = (as_paging space, page)) then x !! Z.to_nat (a mod PAGE) else user_byte (w_machine w) r a) ∧
  (∀ h', h' ≠ h → stored_page w2 h' = stored_page w h') ∧
  stored_page w2 h = (if decide (n = 1) then None else Some (x, n - 1)).
Proof.
  intros Hw Hok Hr Hp Hl Hslot Hst Hx Hm. cbv zeta. unfold populate_file_page in Hm. rewrite Hl in Hm.
  destruct (contains p address) eqn:Ec; cbn [negb orb] in Hm; [|done]. destruct (write && _); [done|]. destruct (has _ _); [done|].
  destruct (region_page p Hp region_end address Ec) as (Hlo & Hhi & Heq).
  set (index := page_index p address) in *. set (page := page_address p index) in *.
  assert (USER_REGION_START ≤ page < USER_REGION_END) as Hpa by (unfold PAGE in Hhi; lia).
  rewrite bind_lift, Hslot in Hm. cbn [or_panic] in Hm. apply M_bind_Ok_inv in Hm as (o & wa & Hread & Hm).
  destruct (swap_read_run h w _ _ Hok Hread) as (Hsame & Hoka & Hsta & pg & [= ->] & Hpg).
  destruct pg as [bytes|]; [|done]. destruct (Hpg bytes eq_refl) as (x' & n' & Hst' & ->). rewrite Hst in Hst'. injection Hst' as <- <-.
  rewrite page_buffer_full in Hm by done. destruct (same_but_swap_cache _ _ Hsame) as [_ Hma].
  apply M_bind_Ok_inv in Hm as (mapped & wb & Hmap & Hm). destruct (on_machine_run _ _ _ _ Hmap) as (r0 & Hmap' & -> & Hsb & Hdb). rewrite Hma in Hmap'.
  pose proof Hw as [[[lost (c & Hc & Hroots & _)] _] _]. destruct (reached_good m0 Hboot _ c Hc) as [g [Ho He Hro _ _]].
  assert (∀ r, r ∈ rs → r ∈ roots g) as Hrg by (intros r Hin; rewrite Hro; auto).
  pose proof (map_private_frame_spec (cl_shared c) _ g _ page x _ _ _ Ho He (Hrg _ Hr) Hpa Hx Hmap') as Hspec.
  destruct r0 as [ok|e|]; [|done|done]. destruct Hspec as (g2 & Ho2 & _ & Hr2 & _ & Hcont & Hpages). destruct ok; cbn [is_true negb] in Hm; [|done].
  destruct Hpages as (_ & Hnone & f & Hf & Hpg2 & Hcf).
  apply M_bind_Ok_inv in Hm as (u & wc & Hrel & Hm). injection Hm as <- <-.
  assert (swap_ok wb) as Hokb by (unfold swap_ok; by rewrite (same_swap_stored wa wb)).
  destruct (swap_release_run h wb _ _ Hokb Hrel) as (Hsame2 & _ & _ & Hoth & Hh). destruct (same_but_swap_cache _ _ Hsame2) as [_ Hmc].
  assert (∀ h, stored_page wb h = stored_page w h) as Hstb by (intros y; unfold stored_page; rewrite (same_swap_stored wa wb) by done; apply Hsta).
  split; [done|]. split; [|split; [intros h' Hne; by rewrite Hoth, Hstb|by rewrite Hh, Hstb, Hst]].
  intros r a Hin Ha. rewrite Hmc, (user_byte_page _ g2), (user_byte_page _ g) by (try rewrite Hr2; auto). rewrite Hpg2.
  destruct (decide ((r, page_of a) = (as_paging space, page))) as [E|E].
  - rewrite E, lookup_insert_eq. cbn. by rewrite Hcf.
  - rewrite lookup_insert_ne by congruence. destruct (pages g !! (r, page_of a)) as [[f' fl']|] eqn:Ek; [|done]. cbn.
    by rewrite Hcont by (by eapply mapped_owned).
Qed.

(** C7: Swapping is invisible.  When a dirty private page of a file mapping is
    evicted to swap and later faulted back in, every program sees the bytes it saw
    before, in every address space; the record of the mapping is the one from
    before the eviction; and the swap area stores what it stored. *)
Theorem swapped_page_returns rs w space p l address write p1 w1 p2 w2 :
  world_inv m0 rs None w → swap_ok w → as_paging space ∈ rs → mapping_ok p →
  an_lazy p = Some l → lz_shared l = false → 0 ≤ an_resident p < 2 ^ 16 →
  has (an_dirty p) (page_index p address) = true → an_swap p !! page_index p address = Some None →
  evict_file_page space p address w = (Ok (true, p1), w1) →
  populate_file_page space p1 address write w1 = (Ok (true, p2), w2) →
  p2 = p ∧ (∀ r a, r ∈ rs → user_address a → user_byte (w_machine w2) r a = user_byte (w_machine w) r a) ∧
  ∀ h, stored_page w2 h = stored_page w h.
Proof.
  intros Hw Hok Hr Hp Hl Hsh Hres Hd Hslot He Hpop.
  destruct (evict_dirty rs w space p l address p1 w1 Hw Hok Hr Hp Hl Hsh Hd Hslot He)
    as (Hcon & Hresi & h & fr & fl & Hp1 & Hok1 & Hw1 & Htr & Hcont & Htabs & Hnone & Hsome & Hoth).
  destruct (region_page p Hp region_end address Hcon) as (Hlo & Hhi & Heq).
  set (index := page_index p address) in *. set (page := page_address p index) in *.
  assert (mapping_ok p1 ∧ an_lazy p1 = Some l ∧ page_index p1 address = index ∧ page_address p1 index = page ∧
    an_swap p1 = <[index := Some h]> (an_swap p) ∧ an_dirty p1 = an_dirty p ∧
    an_resident p1 = Z.land (an_resident p) (bnot 16 (bit index))) as (Hmp1 & Hl1 & Hi1 & Hpg1 & Hsw1 & Hd1 & Hr1) by (rewrite Hp1; done).
  assert (length (contents (w_machine w) fr) = PAGE_BYTES) as Hlen.
  { pose proof Hw as [[[lost (c & Hc & _)] _] _]. destruct (reached_good m0 Hboot _ c Hc) as [g [Ho _ _ _ _]]. exact (ow_contents _ _ Ho fr). }
  destruct (populate_swapped rs w1 space p1 l address write h (contents (w_machine w) fr) 1 p2 w2 Hw1 Hok1 Hr Hmp1 Hl1) as (Hp2 & Hbytes & Hsto & Hsth);
    [rewrite Hi1, Hsw1; apply list_lookup_insert_eq; by eapply lookup_lt_Some|done|done|exact Hpop|].
  rewrite Hi1, Hpg1 in *. split; [|split].
  - rewrite Hp2, Hd1, Hr1, Hsw1, clear_set_bit, (set_bit_same _ _ Hd), list_insert_insert_eq, (list_insert_id _ _ _ Hslot) by done.
    rewrite Hp1. by destruct p.
  - intros r a Hin Ha. rewrite Hbytes by done. pose proof Hw as [[[lost (c & Hc & Hroots & _)] _] _].
    destruct (reached_good m0 Hboot _ c Hc) as [g [Ho _ Hro _ _]]. assert (r ∈ roots g) as Hrg by (rewrite Hro; auto).
    pose proof (page_of_user a Ha) as Hua. unfold user_byte. rewrite (translate_user (w_machine w) g r a Ho Hrg Hua).
    pose proof Hw1 as [[[lost1 (c1 & Hc1 & Hroots1 & _)] _] _]. destruct (reached_good m0 Hboot _ c1 Hc1) as [g1 [Ho1 _ Hro1 _ _]].
    assert (r ∈ roots g1) as Hrg1 by (rewrite Hro1; auto). rewrite (translate_user (w_machine w1) g1 r a Ho1 Hrg1 Hua), Hcont.
    rewrite (page_entry _ g r _ Ho Hrg Hua), (page_entry _ g1 r _ Ho1 Hrg1 Hua), Htabs by done.
    destruct (decide ((r, page_of a) = (as_paging space, page))) as [E|E]; [|done].
    injection E as Er Epg. rewrite Er, Epg.
    change (fc_machine (w_cache w)) with (w_machine w). by rewrite Htr.
  - intros h'. destruct (decide (h' = h)) as [->|Hne]; [by rewrite Hsth, Hnone, decide_True|by rewrite Hsto, Hoth].
Qed.

(** ** The contract *)

(** C6: The pager is within the contract of the paging module.  Whatever sequence of
    requests, pager rounds, evictions, write faults and program stores follows,
    also when frames run out: the machine stays one that the calls of that module
    lead to from boot, the references the frame cache holds are one for each of
    its entries (and for frames a refused release has lost), and the reference
    count of every owned frame is the number of cache entries and user pages on
    it. *)
Theorem pager_keeps_contract rs w w' : world_inv m0 rs None w → rtc (pager_step rs) w w' →
  world_inv m0 rs None w' ∧ ∃ c g lost, rtc any_step (m0, nobody) (w_machine w', c) ∧ good (w_machine w') c g ∧
  cl_held c ≡ₚ lost ++ frames_in (tags (fc_entries (w_cache w'))) ∧
  ∀ f, f ∈ owners g → Paging.references (cow (w_machine w')) f =
    cnt f (lost ++ frames_in (tags (fc_entries (w_cache w')))) + cnt f (frames_of (pages g)).
Proof.
  intros Hw Hs. pose proof (pager_steps_inv m0 Hboot rs w w' Hs Hw) as Hw'. split; [done|].
  pose proof Hw' as [[[lost (c & Hc & Hroots & Hh & _)] _] _]. destruct (reached_good m0 Hboot _ c Hc) as [g Hg].
  exists c, g, lost. split; [done|]. split; [done|]. split; [done|]. intros f Hf.
  change (fc_machine (w_cache w')) with (w_machine w') in Hg. pose proof Hg as [Ho _ _ Hheld _].
  rewrite (cow_ok_references _ _ _ (ow_cow _ _ Ho) Hf). unfold owners. by rewrite cnt_app, Hheld, Hh.
Qed.
End faults.

Section losses.
Context {PT K D : Type} `{PageTableLaws PT, Vfs.DiskFiles K, BlockDevice D, !Persistence (FrameCache PT) K}.
Implicit Types (w : World PT K D).

(** ** What the pager loses *)

(** A fault on a page recorded as resident is refused, and changes nothing. *)
Lemma resident_refused space p a write w : has (an_resident p) (page_index p a) = true →
  populate_file_page space p a write w = (Ok (false, p), w).
Proof.
  intros Hr. unfold populate_file_page. destruct (an_lazy p); [|done]. rewrite Hr. by destruct (negb (contains p a) || _).
Qed.

Lemma page_index_address p j : page_index p (page_address p j) = j.
Proof.
  unfold page_index, page_address. rewrite Nat2Z.inj_mul. change (Z.of_nat 4096) with 4096.
  replace (an_address p + Z.of_nat j * 4096 - an_address p) with (Z.of_nat j * 4096) by lia. rewrite Z.div_mul by done. lia.
Qed.

(** What a fault that succeeds makes of the record. *)
Lemma populate_record space p address write w p' w' : populate_file_page space p address write w = (Ok (true, p'), w') →
  let index := page_index p address in
  has (an_resident p) index = false ∧ an_resident p' = Z.lor (an_resident p) (bit index) ∧
  (∀ j, j ≠ index → an_swap p' !! j = an_swap p !! j) ∧ an_address p' = an_address p.
Proof.
  intros Hm. unfold populate_file_page in Hm. destruct (an_lazy p) as [l|]; [|done]. destruct (negb _ || _); [done|].
  destruct (has _ _) eqn:E; [done|]. cbv zeta. split; [done|]. apply M_bind_Ok_inv in Hm as (o & wa & _ & Hm). destruct o as [h|].
  - apply M_bind_Ok_inv in Hm as (bytes & wb & _ & Hm). destruct bytes as [bytes|]; [|done].
    apply M_bind_Ok_inv in Hm as (mapped & wc & _ & Hm). destruct (negb _); [done|]. apply M_bind_Ok_inv in Hm as (u & wd & _ & Hm).
    injection Hm as <- <-. split; [done|]. split; [|done]. intros j Hj. cbn. by rewrite list_lookup_insert_ne.
  - apply M_bind_Ok_inv in Hm as (mapped & wb & _ & Hm). destruct (negb mapped); [done|]. injection Hm as <- <-. done.
Qed.

(** C9: The pager forgets evictions.  It works on the copy of the mapping that the
    request carries and stores that copy back.  If another page of the mapping was
    evicted since the request was made (by the pager itself, when frames ran out),
    the table again says the page is resident and not swapped: its swap slot, with
    the page's only copy, is in no mapping any more, and every later fault on the
    page is refused. *)
Theorem pager_forgets_eviction w r q p w1 i x m j :
  pager_pop (w_pager w) = (Some r, q) →
  populate_file_page (rq_space r) (rq_mapping r) (rq_address r) (rq_write r) (set_pager q w) = (Ok (true, p), w1) →
  find_process (rq_task r) (w_procs w1) = Some i → process_at i w1 = Some x → pr_mappings x !! rq_slot r = Some (Some m) →
  has (an_resident (rq_mapping r)) j = true → has (an_resident m) j = false →
  ∃ o w2 x', pager_round w = (Ok o, w2) ∧ process_at i w2 = Some x' ∧ pr_mappings x' !! rq_slot r = Some (Some p) ∧
    w_vfs w2 = w_vfs w1 ∧ w_swap w2 = w_swap w1 ∧ has (an_resident p) j = true ∧ an_swap p !! j = an_swap (rq_mapping r) !! j ∧
    ∀ write w', populate_file_page (rq_space r) p (page_address p j) write w' = (Ok (false, p), w').
Proof.
  intros Hpop Hpo Hfind Hx Hm Hj Hmj. destruct (populate_record _ _ _ _ _ _ _ Hpo) as (Hnr & Hres & Hsw & Hadr).
  assert (has (an_resident p) j = true) as Hpj.
  { rewrite has_testbit in *. rewrite Hres, Z.lor_spec. by rewrite Hj. }
  unfold pager_round.
  assert (pager (D := D) (K := K) (PT := PT) pager_pop w = (Ok (Some r), set_pager q w)) as Hpp by (unfold pager; by rewrite Hpop).
  rewrite (bind_run _ _ _ _ _ Hpp), (bind_run _ _ _ _ _ Hpo). unfold store_mapping at 1. rewrite bind_modify, Hfind.
  set (w2 := set_procs _ w1).
  assert (process_at i w2 = Some (with_mappings (<[rq_slot r := Some p]> (pr_mappings x)) x)) as Hx2.
  { unfold process_at in *. subst w2. cbn. rewrite list_lookup_alter, decide_True by done. by destruct (w_procs w1 !! i) as [[y|]|]; simplify_eq/=. }
  destruct (pager_finish (mkCompletion (rq_task r) (rq_address r) true) (w_pager w2)) as [recorded q'] eqn:Ef.
  assert (pager (pager_finish (mkCompletion (rq_task r) (rq_address r) true)) w2 = (Ok recorded, set_pager q' w2)) as Hpf by (unfold pager; by rewrite Ef).
  rewrite (bind_run _ _ _ _ _ Hpf). eexists _, _, _. split; [reflexivity|]. split; [exact Hx2|].
  split; [cbn; apply list_lookup_insert_eq; by eapply lookup_lt_Some|]. split; [done|]. split; [done|]. split; [done|]. split.
  - apply Hsw. intros ->. congruence.
  - intros write w'. apply resident_refused. by rewrite page_index_address.
Qed.

(** ** Answers *)

(** Serving a page does not touch the pager's queue. *)
Definition calm {A} (f : M (World PT K D) unit A) : Prop := ∀ w, w_pager (snd (f w)) = w_pager w.
Lemma calm_bind {A B} (f : M (World PT K D) unit A) (g : A → M (World PT K D) unit B) : calm f → (∀ a, calm (g a)) → calm (f ≫= g).
Proof.
  intros Hf Hg w. specialize (Hf w). unfold mbind, M_bind. destruct (f w) as [[a|e|] w1]; cbn [snd] in *; [|done|done]. rewrite <-Hf. apply Hg.
Qed.
Lemma calm_ret {A} (a : A) : calm (mret a).
Proof. done. Qed.
Lemma calm_gets {A} (f : World PT K D → A) : calm (gets f).
Proof. done. Qed.
Lemma calm_lift {A} (r : res unit A) : calm (lift r).
Proof. done. Qed.
Lemma calm_procs ps : calm (modify (set_procs ps)).
Proof. done. Qed.
Lemma calm_vfs {A} (f : M (Vfs.Fs (FrameCache PT) K) VfsPath.VError A) : calm (vfs f).
Proof. intros w. unfold vfs. by destruct (f (w_vfs w)). Qed.
Lemma calm_cache {A} (f : M (FrameCache PT) unit A) : calm (on_cache f).
Proof. intros w. unfold on_cache. by destruct (f (Vfs.frames (w_vfs w))). Qed.
Lemma calm_allocate b : calm (swap_allocate b).
Proof. intros w. unfold swap_allocate. by destruct (Swap.allocate_page b (w_swap w) (w_disk w)) as [[]]. Qed.
Lemma calm_read h : calm (swap_read h).
Proof. intros w. unfold swap_read. by destruct (Swap.read_page h (replicate 4096 x00) (w_swap w) (w_disk w)) as [[]]. Qed.
Lemma calm_release h : calm (swap_release h).
Proof. intros w. unfold swap_release. by destruct (Swap.release h (w_swap w)). Qed.

Ltac be_calm := repeat first
  [ assumption | apply calm_ret | apply calm_gets | apply calm_lift | apply calm_procs | apply calm_vfs | apply calm_cache | apply calm_allocate
  | apply calm_read | apply calm_release | apply calm_bind; [|intros ?] | match goal with |- calm (match ?x with _ => _ end) => destruct x end ].

Lemma calm_evict_file_page space p a : calm (evict_file_page space p a).
Proof. unfold evict_file_page, save_page, write_back, reclaim, on_machine. be_calm. Qed.
Lemma calm_evict_pages space p indices : calm (evict_pages space p indices).
Proof. revert p. induction indices as [|i indices IH]; intros p; cbn [evict_pages]; [be_calm|]. apply calm_bind; [apply calm_evict_file_page|]. intros [[] p']; [be_calm|apply IH]. Qed.
Lemma calm_evict_mappings space ps : calm (evict_mappings space ps).
Proof.
  induction ps as [|[p|] ps IH]; cbn [evict_mappings]; [be_calm| |be_calm]. apply calm_bind; [apply calm_evict_pages|]. intros [[] p']; be_calm.
Qed.
Lemma calm_evict_one : calm evict_one_mapped_file_page.
Proof.
  unfold evict_one_mapped_file_page. apply calm_bind; [apply calm_gets|]. intros ps. apply calm_bind; [|intros []; be_calm].
  induction ps as [|o ps IH]; cbn [evict_processes]; [be_calm|]. apply calm_bind; [|intros [[] o']; be_calm].
  destruct o as [x|]; [|be_calm]. destruct (pr_space x); [|be_calm]. apply calm_bind; [apply calm_evict_mappings|]. intros []; be_calm.
Qed.
Lemma calm_populate space p address write : calm (populate_file_page space p address write).
Proof.
  pose proof calm_evict_one. unfold populate_file_page, map_file_page, map_cached, publish, frame_for, set_slot, alloc_frame, map_frame, next_snapshot, on_machine. be_calm.
Qed.

Lemma finish_room c (q : PagerQueue) : is_Some (position is_none (pq_completions q)) →
  (∀ c', Some c' ∈ pq_completions q → ¬ (cm_task c' = cm_task c ∧ cm_address c' = cm_address c)) →
  ∃ q', pager_finish c q = (true, q') ∧ pq_entries q' = pq_entries q ∧
  ∃ q2, take_completion (cm_task c) (cm_address c) q' = (Some (cm_succeeded c), q2).
Proof.
  intros [i Hi] Hno. unfold pager_finish. rewrite Hi. eexists. split; [done|]. split; [done|].
  destruct (position_Some_1 _ _ _ Hi) as (o & Ho & Hn). destruct o; [done|].
  unfold take_completion. cbn [pq_completions pq_entries]. set (f := from_option _ false).
  assert (position f (<[i := Some c]> (pq_completions q)) = Some i) as ->.
  { apply position_Some. split.
    - exists (Some c). split; [apply list_lookup_insert_eq; by eapply lookup_lt_Some|]. subst f. cbn. by rewrite !Z.eqb_refl.
    - intros j o Hj Hl. rewrite list_lookup_insert_ne in Hl by lia. subst f. destruct o as [c'|]; [|done]. cbn.
      destruct (Z.eqb_spec (cm_task c') (cm_task c)); [|done]. destruct (Z.eqb_spec (cm_address c') (cm_address c)); [|done].
      destruct (Hno c'); [by eapply list_elem_of_lookup_2|done]. }
  rewrite list_lookup_insert_eq by (by eapply lookup_lt_Some). cbn. by eexists.
Qed.

(** C8: The pager answers a request while it can record the answer.  With a free
    completion slot, the round that serves a request wakes the task that made it,
    and the task reads the outcome; with none, nobody is woken and no answer is
    left, and the request is gone: the task stays blocked.  Only the task itself
    frees its slot, so the completions of killed tasks accumulate. *)
Theorem faults_answered_while_room w r q b p w1 :
  pager_pop (w_pager w) = (Some r, q) →
  populate_file_page (rq_space r) (rq_mapping r) (rq_address r) (rq_write r) (set_pager q w) = (Ok (b, p), w1) →
  (∀ c, Some c ∈ pq_completions (w_pager w) → ¬ (cm_task c = rq_task r ∧ cm_address c = rq_address r)) →
  ∃ w2, pq_entries (w_pager w2) = pq_entries q ∧
  match position is_none (pq_completions (w_pager w)) with
  | Some _ => pager_round w = (Ok (Some (rq_task r)), w2) ∧ ∃ w3, resume_fault (rq_task r) (rq_address r) w2 = (Ok b, w3)
  | None => pager_round w = (Ok None, w2) ∧ fst (take_completion (rq_task r) (rq_address r) (w_pager w2)) = None
  end.
Proof.
  intros Hpop Hpo Hno. assert (w_pager w1 = q) as Hq.
  { pose proof (calm_populate (rq_space r) (rq_mapping r) (rq_address r) (rq_write r) (set_pager q w)) as Hq. by rewrite Hpo in Hq. }
  assert (pager (D := D) (K := K) (PT := PT) pager_pop w = (Ok (Some r), set_pager q w)) as Hpp by (unfold pager; by rewrite Hpop).
  assert (pq_completions q = pq_completions (w_pager w)) as Hcq.
  { unfold pager_pop in Hpop. destruct (position (λ o, negb (is_none o)) (pq_entries (w_pager w))); [|done]. by injection Hpop as _ <-. }
  unfold pager_round. rewrite (bind_run _ _ _ _ _ Hpp), (bind_run _ _ _ _ _ Hpo).
  assert (∃ w2, (if b then store_mapping (rq_task r) (rq_slot r) p else mret tt) w1 = (Ok tt, w2) ∧ w_pager w2 = q) as (w2 & Hst & Hq2).
  { destruct b; [|by exists w1]. unfold store_mapping, modify. eexists. split; [reflexivity|]. by case_match. }
  rewrite (bind_run _ _ _ _ _ Hst). set (c := mkCompletion (rq_task r) (rq_address r) b).
  assert (∀ c', Some c' ∈ pq_completions q → ¬ (cm_task c' = cm_task c ∧ cm_address c' = cm_address c)) as Hno' by (rewrite Hcq; exact Hno).
  rewrite <-Hcq. destruct (position is_none (pq_completions q)) as [i|] eqn:Ep.
  - destruct (finish_room c q ltac:(by rewrite Ep) Hno') as (q' & Hf & Hent & q2 & Ht).
    assert (pager (pager_finish c) w2 = (Ok true, set_pager q' w2)) as Hpf by (unfold pager; by rewrite Hq2, Hf).
    rewrite (bind_run _ _ _ _ _ Hpf). exists (set_pager q' w2). split; [done|]. split; [done|]. eexists. unfold resume_fault.
    assert (pager (take_completion (rq_task r) (rq_address r)) (set_pager q' w2) = (Ok (Some b), set_pager q2 (set_pager q' w2))) as Hpt.
    { unfold pager. cbn [w_pager set_pager]. change (rq_task r) with (cm_task c). change (rq_address r) with (cm_address c). by rewrite Ht. }
    rewrite (bind_run _ _ _ _ _ Hpt). done.
  - assert (pager (pager_finish c) w2 = (Ok false, set_pager q w2)) as Hpf by (unfold pager, pager_finish; by rewrite Hq2, Ep).
    rewrite (bind_run _ _ _ _ _ Hpf). exists (set_pager q w2). split; [done|]. split; [done|]. cbn [w_pager set_pager]. unfold take_completion.
    match goal with |- context [position ?f (pq_completions q)] => destruct (position f (pq_completions q)) as [i|] eqn:Et end; [|reflexivity].
    exfalso. apply position_Some_1 in Et as ([c'|] & Hc' & Hf); [|done]. cbn in Hf. split_guards.
    destruct (Hno' c'); [by eapply list_elem_of_lookup_2|]. cbn. lia.
Qed.
End losses.
