(* ===== verification/MappedDemo.v ===== *)
(** * A process with a mapped file, on concrete memory

    The scenarios that show the theorems of MappedSwap.v and MappedFaults.v apply:
    a private writable mapping of three pages of a file, faulted in, written,
    evicted and faulted in again, with frames to spare and without. *)
From stdpp Require Import list gmap.
From S2P Require Import Prelude Config Block Memory Paging PagingOwn PagingCow UserBytes AddressSpaces FlatTables Loader FileFrames Mappings.
From S2P Require Import MappedSwap MappedFrames MappedPages MappedPager MappedFaults.
From S2P Require Vfs VfsPath VfsFiles Swap Process.

Module MappedDemo.
Import VfsFiles.

#[local] Instance no_persistence : Persistence (FrameCache Flat) volume := {| persist_mapping _ s := (true, s) |}.
Abbreviation W := (World Flat volume RamDisk).

Definition file_name : list byte := bytes "/mnt/a".
Definition demo_volume : volume := [(file_name, (λ i, z_byte (Z.of_nat (i / 4096) + 65)) <$> seq 0 12288)].
Definition root : Z := 0x100000.
Definition demo_space : AddressSpace := mkSpace root (USER_REGION_START + USER_STACK_OFFSET) [].
Definition task : Z := 7.

(** Boot with memory up to [top], one address space, the file open, mapped lazily. *)
Definition space_made (top : Z) := create_user_address_space USER_REGION_START (boot_machine top).
Definition files_made : Vfs.Fs unit volume :=
  default (start tt demo_volume) (run_calls [CCreateDisk file_name 12288 true; COpen file_name] (start tt demo_volume)).
Definition demo_mapping : AnonymousMapping :=
  mkAnon USER_MMAP_START 12288 true (Some (mkLazy false 0 0 0 12288)) 0 0 no_swap.
Definition world_with (p : option AnonymousMapping) (top : Z) : W :=
  mkWorld (Vfs.mkFs (Vfs.registry files_made) (Vfs.files files_made) (cache_new (snd (space_made top))) (Vfs.storage files_made))
    Swap.new None [Some (mkProc task (Some demo_space) [] [p])] pager_empty.
Definition world1 (top : Z) : W := world_with (Some demo_mapping) top.

Definition page (i : nat) : Z := page_address demo_mapping i.
(** A fault on a page: the request, the pager's round, the answer. *)
Definition asked (i : nat) (w : W) := request_page task (page i) false w.
Definition served (w : W) := pager_round w.
Definition answered (i : nat) (w : W) := resume_fault task (page i) w.
Definition faulted (i : nat) (w : W) : W := snd (answered i (snd (served (snd (asked i w))))).
Definition wrote (i : nat) (w : W) := try_handle_cow_fault task (page i) w.

Definition is_ok_true {E} (r : res E bool) : bool := match r with Ok b => b | _ => false end.
Definition table_mapping (w : W) : AnonymousMapping := default demo_mapping (x ← process_at 0 w; mjoin (pr_mappings x !! 0%nat)).

Definition ROOMY : Z := 0x140000.
Definition TIGHT : Z := 0x106000.
Abbreviation roomy1 := (world1 ROOMY).
Abbreviation roomy2 := (faulted 0 roomy1).
Abbreviation roomy3 := (snd (wrote 0 roomy2)).
Abbreviation tight1 := (world1 TIGHT).
Abbreviation tight2 := (snd (wrote 0 (faulted 0 tight1))).
Abbreviation tight3 := (faulted 1 tight2).
Abbreviation tight4 := (snd (asked 2 tight3)).

(** The mapping is what [map_file_lazy] makes of the file. *)
Example demo_mapped : fst (map_file_lazy demo_space 0 0 0 12288 true (world_with None ROOMY)) = Ok demo_mapping.
Proof. vm_compute. reflexivity. Qed.

Definition root_client : Client := mkClient [root] [] [].
Lemma in_region : USER_REGION_START ≤ USER_REGION_START < USER_REGION_END.
Proof. unfold USER_REGION_END. lia. Qed.
Lemma space_ok top : fst (space_made top) = Ok (Some root) → rtc any_step (boot_machine top, nobody) (snd (space_made top), root_client).
Proof. intros E. eapply rtc_once. eexists. apply (st_create _ nobody USER_REGION_START root _ in_region). by apply paired. Qed.
Lemma demo_mapping_ok : mapping_ok demo_mapping.
Proof. unfold mapping_ok. vm_compute. split_and!; done. Qed.

Lemma world1_inv top : fst (space_made top) = Ok (Some root) → world_inv (boot_machine top) [root] None (world1 top).
Proof.
  intros E. split; [split; [|done]|split].
  - exists [], root_client. split; [exact (space_ok top E)|]. split; [done|]. split; [done|]. intros f Hf. change (Some (f, true) ∈ tags (replicate CAPACITY None)) in Hf.
    apply list_elem_of_lookup in Hf as [i Hi]. rewrite tags_lookup in Hi.
    destruct (replicate CAPACITY (None : option Entry) !! i) as [o|] eqn:Eo; [|done]. apply lookup_replicate in Eo as [-> _]. done.
  - intros x [[= ->]|[]%not_elem_of_nil]%elem_of_cons. split; [by intros s [= <-]; left|].
    intros p [[= ->]|[]%not_elem_of_nil]%elem_of_cons. apply demo_mapping_ok.
  - intros r [i Hi]%list_elem_of_lookup. change (replicate MAX_PAGER_REQUESTS None !! i = Some (Some r)) in Hi. by apply lookup_replicate in Hi as [? _].
Qed.
Example roomy_space : fst (space_made ROOMY) = Ok (Some root).
Proof. vm_compute. reflexivity. Qed.
Lemma roomy_booted : booted (boot_machine ROOMY).
Proof. apply boot_machine_booted; [unfold ROOMY; lia|vm_compute; done]. Qed.

(** Each step of the run, by evaluation. *)
Example roomy_asked : fst (asked 0 roomy1) = Ok true.
Proof. vm_compute. reflexivity. Qed.
Example roomy_served : fst (served (snd (asked 0 roomy1))) = Ok (Some task).
Proof. vm_compute. reflexivity. Qed.
Example roomy_answered : fst (answered 0 (snd (served (snd (asked 0 roomy1))))) = Ok true.
Proof. vm_compute. reflexivity. Qed.
Example roomy_wrote : fst (wrote 0 roomy2) = Ok true.
Proof. vm_compute. reflexivity. Qed.
Lemma page_in_region : USER_REGION_START ≤ page 0 < USER_REGION_END.
Proof. vm_compute. done. Qed.

Lemma roomy_steps : rtc (pager_step [root]) roomy1 roomy3.
Proof.
  eapply rtc_l; [eapply ps_request, (paired _ _ roomy_asked)|]. eapply rtc_l; [eapply ps_round, (paired _ _ roomy_served)|].
  eapply rtc_l; [eapply ps_resume, (paired _ _ roomy_answered)|]. eapply rtc_once. eapply ps_write_fault; [exact page_in_region|exact (paired _ _ roomy_wrote)].
Qed.

Lemma pager_keeps_contract_witness : ∃ c, rtc any_step (boot_machine ROOMY, nobody) (w_machine roomy3, c).
Proof.
  destruct (pager_keeps_contract (boot_machine ROOMY) roomy_booted [root] roomy1 roomy3 (world1_inv ROOMY roomy_space) roomy_steps)
    as (_ & c & _ & _ & Hc & _). exists c. exact Hc.
Defined.

(** ** A dirty page is swapped out and comes back *)

Abbreviation evicted := (evict_file_page demo_space (table_mapping roomy3) (page 0) roomy3).
Definition evicted_mapping : AnonymousMapping := match fst evicted with Ok (_, p) => p | _ => demo_mapping end.
Abbreviation returned := (populate_file_page demo_space evicted_mapping (page 0) false (snd evicted)).
Definition dirty_mapping : AnonymousMapping := with_dirty 1 (with_resident 1 demo_mapping).

Example roomy_mapping : table_mapping roomy3 = dirty_mapping.
Proof. vm_compute. reflexivity. Qed.
Example roomy_evicted : fst evicted = Ok (true, evicted_mapping) ∧ has (an_resident evicted_mapping) 0 = false.
Proof. vm_compute. split; reflexivity. Qed.
Example roomy_returned : fst returned = Ok (true, dirty_mapping).
Proof. vm_compute. reflexivity. Qed.
Example roomy_swap : w_swap roomy3 = Swap.new ∧ w_disk roomy3 = None.
Proof. vm_compute. split; reflexivity. Qed.
Lemma roomy_swap_ok : swap_ok roomy3.
Proof.
  unfold swap_ok, swap_sys. rewrite (proj1 roomy_swap), (proj2 roomy_swap).
  exact (Swap.configured_ok 0 0 (None : option RamDisk) ltac:(lia) ltac:(done)).
Qed.
Lemma roomy3_inv : world_inv (boot_machine ROOMY) [root] None roomy3.
Proof. exact (pager_steps_inv _ roomy_booted _ _ _ roomy_steps (world1_inv ROOMY roomy_space)). Qed.
Lemma root_in : as_paging demo_space ∈ [root].
Proof. left. Qed.

Lemma swapped_page_returns_witness : has (an_resident evicted_mapping) 0 = false ∧
  ∀ a, user_address a → user_byte (w_machine (snd returned)) root a = user_byte (w_machine roomy3) root a.
Proof.
  split; [exact (proj2 roomy_evicted)|].
  assert (fst evicted = Ok (true, evicted_mapping)) as He by exact (proj1 roomy_evicted). revert He. rewrite roomy_mapping. intros He.
  pose proof (swapped_page_returns (boot_machine ROOMY) roomy_booted [root] roomy3 demo_space dirty_mapping (mkLazy false 0 0 0 12288) (page 0) false
    evicted_mapping (snd (evict_file_page demo_space dirty_mapping (page 0) roomy3)) dirty_mapping
    (snd (populate_file_page demo_space evicted_mapping (page 0) false (snd (evict_file_page demo_space dirty_mapping (page 0) roomy3))))
    roomy3_inv roomy_swap_ok root_in demo_mapping_ok eq_refl eq_refl) as Ht.
  destruct Ht as (_ & Hb & _); [vm_compute; split; [discriminate|reflexivity]|vm_compute; reflexivity|vm_compute; reflexivity|exact (paired _ _ He)| |].
  - pose proof roomy_returned as Hr. rewrite roomy_mapping in Hr. exact (paired _ _ Hr).
  - intros a Ha. apply Hb; [exact root_in|exact Ha].
Defined.

(** ** Frames run out *)

Definition tight_request : PagerRequest := mkRequest task demo_space 0 (with_dirty 1 (with_resident 3 demo_mapping)) (page 2) false.
Definition tight_queue : PagerQueue := snd (pager_pop (w_pager tight4)).
Abbreviation tight_populate := (populate_file_page demo_space (rq_mapping tight_request) (page 2) false (set_pager tight_queue tight4)).
Definition tight_result : AnonymousMapping := match fst tight_populate with Ok (_, p) => p | _ => demo_mapping end.
Definition lost_handle : Swap.Handle := Swap.mkHandle 0 1.
(** The record of the mapping when the pager has evicted its first page. *)
Definition tight_record : AnonymousMapping := with_swap (Some lost_handle :: replicate 15 None) (with_dirty 1 (with_resident 2 demo_mapping)).

Example tight_popped : pager_pop (w_pager tight4) = (Some tight_request, tight_queue).
Proof. vm_compute. reflexivity. Qed.
Example tight_populated : fst tight_populate = Ok (true, tight_result).
Proof. vm_compute. reflexivity. Qed.
Example tight_found : find_process task (w_procs (snd tight_populate)) = Some 0%nat ∧
  process_at 0 (snd tight_populate) = Some (mkProc task (Some demo_space) [] [Some tight_record]).
Proof. vm_compute. split; reflexivity. Qed.

Lemma pager_forgets_eviction_witness : an_swap tight_record !! 0%nat = Some (Some lost_handle) ∧ an_swap tight_result !! 0%nat = Some None ∧
  ∃ o w2, pager_round tight4 = (Ok o, w2) ∧ ∀ write (w' : W), populate_file_page demo_space tight_result (page_address tight_result 0) write w' = (Ok (false, tight_result), w').
Proof.
  split; [reflexivity|].
  destruct (pager_forgets_eviction tight4 tight_request tight_queue tight_result (snd tight_populate) 0 (mkProc task (Some demo_space) [] [Some tight_record]) tight_record 0
    tight_popped (paired _ _ tight_populated) (proj1 tight_found) (proj2 tight_found) eq_refl eq_refl eq_refl)
    as (o & w2 & x' & Hr & _ & _ & _ & _ & _ & Hs & Hall).
  split; [rewrite Hs; reflexivity|]. exists o, w2. split; [exact Hr|exact Hall].
Defined.

(** ** Answers and copies *)

Abbreviation waiting := (snd (asked 0 roomy1)).
Definition roomy_request : PagerRequest := mkRequest task demo_space 0 demo_mapping (page 0) false.
Definition roomy_queue : PagerQueue := snd (pager_pop (w_pager waiting)).
Abbreviation roomy_populate := (populate_file_page demo_space demo_mapping (page 0) false (set_pager roomy_queue waiting)).
Definition roomy_result : AnonymousMapping := with_resident 1 demo_mapping.
Example roomy_popped : pager_pop (w_pager waiting) = (Some roomy_request, roomy_queue).
Proof. vm_compute. reflexivity. Qed.
Example roomy_populated : fst roomy_populate = Ok (true, roomy_result).
Proof. vm_compute. reflexivity. Qed.
Example roomy_queued : pq_completions (w_pager waiting) = replicate MAX_PAGER_REQUESTS None.
Proof. vm_compute. reflexivity. Qed.

Lemma faults_answered_while_room_witness : ∃ w2, pager_round waiting = (Ok (Some task), w2) ∧ ∃ w3, resume_fault task (page 0) w2 = (Ok true, w3).
Proof.
  destruct (faults_answered_while_room waiting roomy_request roomy_queue true roomy_result (snd roomy_populate)
    roomy_popped (paired _ _ roomy_populated)) as (w2 & _ & H).
  - rewrite roomy_queued. intros c [i Hi]%list_elem_of_lookup. apply lookup_replicate in Hi as [? _]. discriminate.
  - rewrite roomy_queued in H. exists w2. exact H.
Defined.

Abbreviation stored := (swap_allocate (replicate Swap.PAGE_SIZE x00) roomy3).
Example stored_handle : fst stored = Ok (Some lost_handle).
Proof. vm_compute. reflexivity. Qed.
Definition swapped_mapping : AnonymousMapping := with_swap (Some lost_handle :: replicate 15 None) demo_mapping.
Example stored_shared : fst (share_mapping_swap_slots swapped_mapping (snd stored)) = Ok true.
Proof. vm_compute. reflexivity. Qed.
Lemma stored_ok : swap_ok (snd stored).
Proof. exact (proj1 (proj2 (swap_allocate_run _ _ _ _ roomy_swap_ok (length_replicate _ _) (surjective_pairing _)))). Qed.

Lemma share_slots_all_or_nothing_witness : is_Some (stored_page (snd stored) lost_handle) ∧
  fst (share_mapping_swap_slots swapped_mapping (snd stored)) = Ok true.
Proof.
  destruct (share_slots_all_or_nothing swapped_mapping (snd stored) _ _ stored_ok (surjective_pairing _)) as (_ & _ & ok & Hok & Hres).
  rewrite stored_shared in Hok. injection Hok as <-. split; [|exact stored_shared]. apply (proj1 Hres). left.
Defined.
End MappedDemo.
