(* ===== verification/Storage.v ===== *)
(** * The storage service (kernel/src/storage.rs)

    The volume mounted at [/mnt]: finding it on the primary disk, importing its
    directories into the VFS, writing files and directories back, the cache of
    file pages, the state of the mount, and the swap area behind the volume.
    All definitions.  The primary disk is any block device that may be absent;
    the storage state is the [K] of the VFS, so the VFS and this layer call each
    other as in the code.

    The dispatch between an unpartitioned disk, an MBR partition and a GPT
    partition, which the code writes out in every call, is [on_volume]. *)
From stdpp Require Import list.
From S2P Require Import Prelude Config Block VfsPath.
From S2P Require Vfs Partition Gpt Fat FatDir PageCache Swap Process Mappings.

Definition READ_ONLY_ATTRIBUTE : Z := 0x01.
Definition DIRECTORY_ATTRIBUTE : Z := 0x10.
Definition MAX_BOOT_IMPORT_DEPTH : nat := 2.

Definition MOUNT_UNKNOWN : Z := 0.
Definition MOUNT_NO_DEVICE : Z := 1.
Definition MOUNT_NOT_FAT32 : Z := 2.
Definition MOUNT_MOUNTED : Z := 3.
Definition MOUNT_FAILED : Z := 4.
Definition MOUNT_UNMOUNTED : Z := 5.

Module MountLifecycleStatus.
Inductive t := Unknown | NoDevice | NotFat32 | Mounted | Failed | Unmounted.
End MountLifecycleStatus.
Module MountControlError.
Inductive t := NoDevice | NotMounted | SyncFailed | Failed.
End MountControlError.
Module SpaceError.
Inductive t := Unmounted | NoDevice | NotFat32 | Failed.
End SpaceError.
Module MountStatus.
Inductive t := NoDevice | NotFat32 | Mounted (entries : Z) | Failed.
End MountStatus.
Export Process (EnsureError.t, PersistError.t, MutationError.t).
Module EnsureError := Process.EnsureError.
Module PersistError := Process.PersistError.
Module MutationError := Process.MutationError.

Record MountInfo := mkInfo { mi_status : MountLifecycleStatus.t; mi_imported : Z; mi_dirty : bool; mi_syncs : Z }.

Definition status_code (s : MountStatus.t) : Z :=
  match s with
  | MountStatus.NoDevice => MOUNT_NO_DEVICE
  | MountStatus.NotFat32 => MOUNT_NOT_FAT32
  | MountStatus.Mounted _ => MOUNT_MOUNTED
  | MountStatus.Failed => MOUNT_FAILED
  end.
Definition lifecycle_from_code (code : Z) : MountLifecycleStatus.t :=
  if code =? MOUNT_NO_DEVICE then MountLifecycleStatus.NoDevice
  else if code =? MOUNT_NOT_FAT32 then MountLifecycleStatus.NotFat32
  else if code =? MOUNT_MOUNTED then MountLifecycleStatus.Mounted
  else if code =? MOUNT_FAILED then MountLifecycleStatus.Failed
  else if code =? MOUNT_UNMOUNTED then MountLifecycleStatus.Unmounted
  else MountLifecycleStatus.Unknown.

(** ** The state *)

(** The primary disk ([ata::PRIMARY_MASTER]), [FILE_PAGES], the four [MNT_]
    counters and [swap::SWAP]. *)
Record Storage (D : Type) := mkStorage {
  disk : option D; file_pages : PageCache.PageCache; mnt_status : Z; mnt_dirty : bool; mnt_imported : Z; mnt_syncs : Z;
  swap : Swap.State }.
Arguments mkStorage {D}. Arguments disk {D}. Arguments file_pages {D}. Arguments mnt_status {D}. Arguments mnt_dirty {D}.
Arguments mnt_imported {D}. Arguments mnt_syncs {D}. Arguments swap {D}.

Section setters.
Context {D : Type}.
Implicit Types k : Storage D.
Definition set_disk (d : option D) k : Storage D := mkStorage d (file_pages k) (mnt_status k) (mnt_dirty k) (mnt_imported k) (mnt_syncs k) (swap k).
Definition set_pages p k := mkStorage (disk k) p (mnt_status k) (mnt_dirty k) (mnt_imported k) (mnt_syncs k) (swap k).
Definition set_status s n k := mkStorage (disk k) (file_pages k) s (mnt_dirty k) n (mnt_syncs k) (swap k).
Definition set_dirty b k := mkStorage (disk k) (file_pages k) (mnt_status k) b (mnt_imported k) (mnt_syncs k) (swap k).
Definition add_imported n k :=
  mkStorage (disk k) (file_pages k) (mnt_status k) (mnt_dirty k) (wrapping_add 64 (mnt_imported k) n) (mnt_syncs k) (swap k).
Definition add_sync k :=
  mkStorage (disk k) (file_pages k) (mnt_status k) (mnt_dirty k) (mnt_imported k) (wrapping_add 64 (mnt_syncs k) 1) (swap k).
Definition set_swap s k := mkStorage (disk k) (file_pages k) (mnt_status k) (mnt_dirty k) (mnt_imported k) (mnt_syncs k) s.
End setters.

(** [block_io::PrimaryAta]: the disk if there is one.  The queue in front of it
    is the model of [BlockIo]; here a request is performed at once. *)
Section primary.
Context {D : Type} `{BlockDevice D}.
Implicit Types o : option D.
Definition primary_read (lba : Z) (buf : list byte) o : res Error unit * list byte * option D :=
  if negb (Nat.eqb (length buf) SECTOR_SIZE) then (Err InvalidBuffer, buf, o) else
  match o with
  | Some d => let '(r, b, d) := read_sector lba buf d in (r, b, Some d)
  | None => (Err DeviceFault, buf, None)
  end.
Definition primary_write (lba : Z) (buf : list byte) o : res Error unit * option D :=
  if negb (Nat.eqb (length buf) SECTOR_SIZE) then (Err InvalidBuffer, o) else
  match o with
  | Some d => let '(r, d) := write_sector lba buf d in (r, Some d)
  | None => (Err DeviceFault, None)
  end.
Definition primary_flush o : res Error unit * option D :=
  match o with Some d => let '(r, d) := flush d in (r, Some d) | None => (Err DeviceFault, None) end.
#[export] Instance primary_ata : BlockDevice (option D) := {|
  sector_count o := from_option sector_count 0 o;
  is_read_only o := from_option is_read_only true o;
  flush := primary_flush; read_sector := primary_read; write_sector := primary_write |}.
End primary.

(** ** Errors *)

Definition not_fat (e : Fat.FError) : bool :=
  match e with Fat.InvalidBootSector | Fat.UnsupportedGeometry => true | _ => false end.

Definition map_fat_err (e : Fat.FError) : EnsureError.t :=
  match e with
  | Fat.NotFound => EnsureError.NotFound
  | Fat.InvalidBootSector | Fat.UnsupportedGeometry => EnsureError.NotFat32
  | _ => EnsureError.Failed
  end.
Definition map_persist_err (e : Fat.FError) : PersistError.t :=
  match e with
  | Fat.NotFound => PersistError.NotFound
  | Fat.NameTooLong | Fat.DirectoryFull | Fat.InvalidPath => PersistError.BadName
  | Fat.NoSpace => PersistError.TooLarge
  | _ => PersistError.Failed
  end.
Definition map_mutation_err (e : Fat.FError) : MutationError.t :=
  match e with
  | Fat.NotFound => MutationError.NotFound
  | Fat.NameTooLong | Fat.InvalidPath => MutationError.BadName
  | Fat.AlreadyExists => MutationError.AlreadyExists
  | Fat.DirectoryNotEmpty => MutationError.NotEmpty
  | Fat.FReadOnly | Fat.FBlock Block.ReadOnly => MutationError.ReadOnly
  | _ => MutationError.Failed
  end.
Definition map_space_err (e : Fat.FError) : SpaceError.t :=
  if not_fat e then SpaceError.NotFat32 else SpaceError.Failed.

(** [m.map_err(f)] on a computation. *)
Definition map_failure {S E E' A} (f : E → E') (m : M S E A) : M S E' A := λ s, let '(r, s) := m s in (map_err f r, s).
(** The outcome of a computation as a value; a panic is not an outcome. *)
Definition outcome {S E E' A} (m : M S E A) : M S E' (res E A) := λ s,
  match m s with (Panic, s) => (Panic, s) | (Ok a, s) => (Ok (Ok a), s) | (Err e, s) => (Ok (Err e), s) end.

(** ** Finding the volume *)

#[export] Existing Instance Partition.PartitionDevice_device.
#[export] Existing Instance Vfs.NodeKind_eq_dec.

Section volume.
Context {B : Type} `{BlockDevice B}.

(** Run a call on the window of a partition, and a call on the disk inside it. *)
Definition in_window {E A} (failed : E) (p : Partition.Partition) (m : M (Partition.PartitionDevice B) E A) : M B E A := λ b,
  match Partition.pdevice_new b p with
  | Ok view => let '(r, view) := m view in (r, Partition.device view)
  | Err _ => (Err failed, b)
  | Panic => (Panic, b)
  end.
Definition inside {E A} (m : M B E A) : M (Partition.PartitionDevice B) E A := λ view,
  let '(r, b) := m (Partition.device view) in (r, Partition.mkPDevice b (Partition.partition view)).

(** The partition a call uses when the disk itself holds no FAT32 volume.  A bad
    MBR ends the search where [strict]; elsewhere the GPT is tried. *)
Definition gpt_partition {E} (failed none : E) : M B E Partition.Partition :=
  g ← outcome Gpt.find_fat_partition;
  match g with
  | Ok (Some part) => mret part
  | Ok None | Err Gpt.MissingProtectiveMbr => fail none
  | _ => fail failed
  end.
Definition find_partition {E} (strict : bool) (failed none : E) : M B E Partition.Partition :=
  p ← outcome Partition.find_fat32;
  match p with
  | Ok (Some part) => mret part
  | Err _ => if strict then fail failed else gpt_partition failed none
  | _ => gpt_partition failed none
  end.

(** Run [body] on the volume: on the disk, else on the window of the partition
    [find] yields.  [refuse] is the error for a disk that cannot be read. *)
Definition on_volume {E A} (refuse map_mount : Fat.FError → E) (failed : E) (find : M B E Partition.Partition)
    (body : ∀ V : Type, BlockDevice V → (∀ E' A', M B E' A' → M V E' A') → Fat.Volume → M V E A) : M B E A :=
  o ← outcome Fat.mount;
  match o with
  | Ok v => body B _ (λ _ _ m, m) v
  | Err e =>
    if not_fat e then
      part ← find;
      in_window failed part (v ← map_failure map_mount Fat.mount; body _ _ (λ _ _ m, inside m) v)
    else fail (refuse e)
  | Panic => lift Panic
  end.

(** The calls that write, report space or check, on the disk. *)
Definition persist_on_cached_device (path data : list byte) : M B PersistError.t unit :=
  on_volume (λ _, PersistError.Failed) map_persist_err PersistError.Failed (find_partition false PersistError.Failed PersistError.Failed)
    (λ V _ _ v, map_failure map_persist_err (FatDir.create_path_file v path data)).
Definition mkdir_on_cached_device (path : list byte) : M B PersistError.t unit :=
  on_volume (λ _, PersistError.Failed) map_persist_err PersistError.Failed (find_partition false PersistError.Failed PersistError.Failed)
    (λ V _ _ v, map_failure map_persist_err (FatDir.mkdir_path v path)).
Definition delete_on_cached_device (path : list byte) : M B MutationError.t unit :=
  on_volume (λ _, MutationError.Failed) map_mutation_err MutationError.Failed
    (find_partition false MutationError.Failed MutationError.Failed)
    (λ V _ _ v, map_failure map_mutation_err (FatDir.delete_path v path)).
Definition rename_on_cached_device (old new : list byte) : M B MutationError.t unit :=
  on_volume (λ _, MutationError.Failed) map_mutation_err MutationError.Failed
    (find_partition false MutationError.Failed MutationError.Failed)
    (λ V _ _ v, map_failure map_mutation_err (FatDir.rename_path v old new)).
Definition df_on_device : M B SpaceError.t Fat.SpaceInfo :=
  on_volume (λ _, SpaceError.Failed) map_space_err SpaceError.Failed (find_partition true SpaceError.Failed SpaceError.NotFat32)
    (λ V _ _ v, map_failure map_space_err (Fat.space_info v)).
Definition check_on_device : M B SpaceError.t FatDir.CheckReport :=
  on_volume (λ _, SpaceError.Failed) map_space_err SpaceError.Failed (find_partition true SpaceError.Failed SpaceError.NotFat32)
    (λ V _ _ v, map_failure map_space_err (FatDir.check_volume v)).

(** A page of a file, for the page cache. *)
Definition read_volume_page {V} `{BlockDevice V} (v : Fat.Volume) (path : list byte) (offset : Z) (output : list byte)
    : M V Fat.FError (nat * list byte) :=
  e ← FatDir.resolve_path v path;
  _ ← guard_ok (negb (FatDir.is_directory_entry e)) Fat.NotFound;
  Fat.read_file_at v e offset output.
Definition read_disk_page (path : list byte) (offset : Z) (output : list byte) : M B Fat.FError (nat * list byte) :=
  on_volume id id Fat.InvalidBootSector (find_partition false Fat.InvalidBootSector Fat.InvalidBootSector)
    (λ V _ _ v, read_volume_page v path offset output).
End volume.

(** ** Names and paths *)

Definition under_mnt (path : list byte) : bool := starts_with (bytes "/mnt/") path.
Definition mnt_path (path : list byte) : bool := bool_decide (path = bytes "/mnt") || under_mnt path.
(** [&path[5..]] *)
Definition relative (path : list byte) : list byte := drop 5 path.

Definition to_lower (b : byte) : option byte :=
  if in_range 0x41 0x5a b then Some (z_byte (byte_z b + 0x20))
  else if in_range 0x61 0x7a b || in_range 0x30 0x39 b || bool_decide (b = FatDir.UNDERSCORE) || bool_decide (b = FatDir.DASH) then Some b
  else None.
(** The characters up to the first space. *)
Fixpoint until_space (l : list byte) : list byte :=
  match l with [] => [] | b :: l => if FatDir.is_space b then [] else b :: until_space l end.
Definition short_name_to_str (short : list byte) : option (list byte) :=
  base ← mapM to_lower (until_space (take 8 short));
  if bool_decide (base = []) then None else
  if forallb FatDir.is_space (drop 8 short) then Some base else
  ext ← mapM to_lower (until_space (drop 8 short));
  Some (base ++ DOT :: ext).
Definition ends_with_slash (l : list byte) : bool := bool_decide (last l = Some SLASH).
Definition join_path (prefix name : list byte) (room : nat) : option (list byte) :=
  let path := prefix ++ (if ends_with_slash prefix then [] else [SLASH]) ++ name in
  if Nat.ltb room (length path) then None else Some path.

Definition self_test : bool :=
  bool_decide (short_name_to_str (bytes "KERNEL  BIN") = Some (bytes "kernel.bin")) &&
  bool_decide (short_name_to_str (bytes "README     ") = Some (bytes "readme")) &&
  bool_decide (short_name_to_str (bytes "BAD?    TXT") = None) &&
  bool_decide (FatDir.encode_short_name (bytes "kernel.bin") = Some (bytes "KERNEL  BIN")) &&
  bool_decide (FatDir.encode_short_name (bytes "readme") = Some (bytes "README     ")).
Example storage_self_test : self_test = true.
Proof. vm_compute. reflexivity. Qed.

(** The names FAT32 can store. *)
Definition bad_fat_name (c : list byte) : bool :=
  bool_decide (c = []) || bool_decide (c = [DOT]) || bool_decide (c = [DOT; DOT]) || bool_decide (FatDir.encode_short_name c = None).
Definition bad_relative (relative : list byte) : bool := bool_decide (relative = []) || any bad_fat_name (split_slash relative).

(** ** Reading files of the volume *)

(** [FILE_PAGES.lock().read(path, offset, output, |start, page| ...)]: the closure
    reads a page from the disk. *)
Section reading.
Context {D : Type} `{BlockDevice D}.
Implicit Types k : Storage D.

Definition mnt_mounted k : bool := mnt_status k =? MOUNT_MOUNTED.
Definition present k : bool := bool_decide (is_Some (disk k)).

Definition load_page (relative : list byte) (start : Z) (page : list byte) (o : option D) : res Error nat * list byte * option D :=
  match read_disk_page relative start page o with
  | (Ok (n, page), o) => (Ok n, page, o)
  | (Err _, o) => (Err DeviceFault, page, o)
  | (Panic, o) => (Panic, page, o)
  end.
Definition read_disk_file (path : list byte) (offset : Z) (output : list byte) k : res Error nat * list byte * Storage D :=
  if negb (mnt_mounted k) then (Err DeviceFault, output, k) else
  match strip_prefix (bytes "/mnt/") path with
  | None => (Err InvalidBuffer, output, k)
  | Some relative =>
    if negb (present k) then (Err DeviceFault, output, k) else
    let '(r, output, c, o) := PageCache.read (load_page relative) path offset output (file_pages k) (disk k) in
    (r, output, set_pages c (set_disk o k))
  end.
End reading.
#[export] Instance storage_files {D} `{BlockDevice D} : Vfs.DiskFiles (Storage D) := {|
  Vfs.read_disk_file path offset buffer k :=
    let '(r, buffer, k) := read_disk_file path (Z.of_nat offset) buffer k in (map_err (λ _, tt) r, buffer, k) |}.

(** ** The calls *)

Section calls.
Context {F D : Type} `{Vfs.Frames F, BlockDevice D}.
Abbreviation Fs := (Vfs.Fs F (Storage D)).
Implicit Types (s : Fs) (k : Storage D).

Definition with_storage (f : Storage D → Storage D) s : Fs := Vfs.mkFs (Vfs.registry s) (Vfs.files s) (Vfs.frames s) (f (Vfs.storage s)).
Definition disk_of s : option D := disk (Vfs.storage s).
Definition with_disk (o : option D) s : Fs := with_storage (set_disk o) s.
Definition on_storage {E} (f : Storage D → Storage D) : M Fs E unit := modify (with_storage f).
Definition asks {E A} (f : Storage D → A) : M Fs E A := gets (λ s, f (Vfs.storage s)).
Definition on_disk {E A} (m : M (option D) E A) : M Fs E A := λ s, let '(r, o) := m (disk_of s) in (r, with_disk o s).

(** The disk, while the VFS is at hand: what an import runs on. *)
Definition fs_read (lba : Z) (buf : list byte) s : res Error unit * list byte * Fs :=
  let '(r, b, o) := read_sector lba buf (disk_of s) in (r, b, with_disk o s).
Definition fs_write (lba : Z) (buf : list byte) s : res Error unit * Fs :=
  let '(r, o) := write_sector lba buf (disk_of s) in (r, with_disk o s).
Definition fs_flush s : res Error unit * Fs := let '(r, o) := flush (disk_of s) in (r, with_disk o s).
#[export] Instance fs_device : BlockDevice Fs := {|
  sector_count s := sector_count (disk_of s); is_read_only s := is_read_only (disk_of s);
  flush := fs_flush; read_sector := fs_read; write_sector := fs_write |}.

Definition record_mount_status (status : MountStatus.t) : Storage D → Storage D := λ k,
  set_dirty false (set_status (status_code status) (match status with MountStatus.Mounted n => n | _ => 0 end) k).
Definition mount_info k : MountInfo := mkInfo (lifecycle_from_code (mnt_status k)) (mnt_imported k) (mnt_dirty k) (mnt_syncs k).
Definition mark_mnt_dirty k : Storage D := if mnt_mounted k then set_dirty true k else k.
Definition mark_mnt_clean k : Storage D := set_dirty false k.
Definition fat32_writable k : bool := mnt_mounted k && present k.
Definition page_cache_stats k : PageCache.Stats := PageCache.stats (file_pages k).
Definition invalidate : Storage D → Storage D := λ k, set_pages (PageCache.invalidate (file_pages k)) k.

Definition unavailable_ensure_error k : EnsureError.t :=
  match lifecycle_from_code (mnt_status k) with
  | MountLifecycleStatus.NoDevice => EnsureError.NoDevice
  | MountLifecycleStatus.NotFat32 => EnsureError.NotFat32
  | MountLifecycleStatus.Failed => EnsureError.Failed
  | _ => EnsureError.Unmounted
  end.
Definition unavailable_persist_error k : PersistError.t :=
  match lifecycle_from_code (mnt_status k) with MountLifecycleStatus.NoDevice => PersistError.NoDevice | _ => PersistError.Unmounted end.
Definition unavailable_mutation_error k : MutationError.t :=
  match lifecycle_from_code (mnt_status k) with MountLifecycleStatus.NoDevice => MutationError.NoDevice | _ => MutationError.Unmounted end.
Definition unavailable_space_error k : SpaceError.t :=
  match lifecycle_from_code (mnt_status k) with
  | MountLifecycleStatus.NoDevice => SpaceError.NoDevice
  | MountLifecycleStatus.NotFat32 => SpaceError.NotFat32
  | MountLifecycleStatus.Failed => SpaceError.Failed
  | _ => SpaceError.Unmounted
  end.
(** [if !mnt_mounted() { return Err(unavailable()) }] *)
Definition while_mounted {E} (unavailable : Storage D → E) : M Fs E unit :=
  k ← asks id; if mnt_mounted k then mret tt else fail (unavailable k).
(** [if !primary_ata_present() { return Err(e) }] *)
Definition while_present {E} (e : E) : M Fs E unit := b ← asks present; guard_ok b e.

(** *** Importing directories *)

Section import.
Context {V : Type} `{BlockDevice V} (inner : ∀ E A, M Fs E A → M V E A) (v : Fat.Volume).

(** A call of the VFS whose result is looked at. *)
Definition try_vfs {E A} (m : M Fs VError A) : M V E (res VError A) := inner _ _ (outcome m).

Definition import_entry (levels : nat) (prefix : list byte) (writable_import : bool) (e : Fat.DirectoryEntry)
    (st : Z * list (Z * list byte)) : M V Fat.FError (Z * list (Z * list byte)) :=
  let '(mounted, children) := st in
  if FatDir.has_attribute (Fat.attributes e) 0x08 then mret st else
  if bool_decide (head (Fat.short_name e) = Some DOT) then mret st else
  match (name ← short_name_to_str (Fat.short_name e); _ ← guard (utf8_valid name = true);
         path ← join_path prefix name MAX_PATH_SIZE; _ ← guard (utf8_valid path = true); Some path) with
  | None => mret st
  | Some path =>
    if FatDir.has_attribute (Fat.attributes e) DIRECTORY_ATTRIBUTE then
      r ← try_vfs (Vfs.on_registry (Vfs.mkdir path));
      mounted ← (match r with
                 | Ok _ => mret (saturating_add 64 mounted 1)
                 | Err AlreadyExists | Err Full => mret mounted
                 | _ => fail Fat.DirectoryFull
                 end);
      let child := negb (Nat.eqb levels 0) && (2 <=? Fat.first_cluster e) && Nat.ltb (length children) MAX_VFS_NODES in
      mret (mounted, if child then children ++ [(Fat.first_cluster e, path)] else children)
    else if Z.of_nat Vfs.NODE_CAPACITY <? Fat.size e then mret st
    else
      let writable := writable_import && negb (FatDir.has_attribute (Fat.attributes e) READ_ONLY_ATTRIBUTE) in
      r ← try_vfs (Vfs.create_disk_file_with_writable path (Z.to_nat (Fat.size e)) writable);
      mret (if is_ok r then saturating_add 64 mounted 1 else mounted, children)
  end.

Section children.
Context (import : Z → list byte → M V Fat.FError Z).
Fixpoint import_children (children : list (Z * list byte)) (mounted : Z) : M V Fat.FError Z :=
  match children with
  | [] => mret mounted
  | (cluster, path) :: children =>
    n ← import cluster path;
    import_children children (saturating_add 64 mounted n)
  end.
End children.

(** [levels] is [MAX_BOOT_IMPORT_DEPTH - depth]. *)
Fixpoint import_directory (levels : nat) (writable_import : bool) (dir_cluster : Z) (prefix : list byte) : M V Fat.FError Z :=
  '(mounted, children) ← FatDir.for_each_directory_entry v dir_cluster (import_entry levels prefix writable_import) (0, []);
  match levels with
  | O => mret mounted
  | S levels => import_children (import_directory levels writable_import) children mounted
  end.

(** The import of a single directory, with the count of imported entries. *)
Definition import_listing (dir_cluster : Z) (path : list byte) : M V EnsureError.t unit :=
  ro ← gets is_read_only;
  imported ← map_failure map_fat_err (import_directory 0 (negb ro) dir_cluster path);
  inner _ _ (on_storage (add_imported imported)).
End import.

(** *** Mounting *)

Definition configure_swap_area (start_lba limit_lba : Z) : M Fs MountStatus.t unit :=
  if limit_lba <=? start_lba then mret tt
  else on_storage (λ k, set_swap (snd (Swap.configure_disk start_lba (limit_lba - start_lba) (swap k))) k).

Definition mount_device {V} `{BlockDevice V} (inner : ∀ E A, M Fs E A → M V E A) : M V MountStatus.t Z :=
  v ← map_failure (λ e, if not_fat e then MountStatus.NotFat32 else MountStatus.Failed) Fat.mount;
  _ ← try_vfs inner (Vfs.on_registry (Vfs.mkdir (bytes "/mnt")));
  ro ← gets is_read_only;
  map_failure (λ _, MountStatus.Failed) (import_directory inner v MAX_BOOT_IMPORT_DEPTH (negb ro) (Fat.root_cluster v) (bytes "/mnt")).

(** [let Ok(volume) = fat32::mount(device) else { return }] *)
Definition configure_direct_swap : M Fs MountStatus.t unit :=
  o ← outcome Fat.mount;
  match o with
  | Ok v => limit ← gets sector_count; configure_swap_area (Fat.total_sectors v) limit
  | _ => mret tt
  end.
Definition configure_partition_swap (p : Partition.Partition) : M Fs MountStatus.t unit :=
  o ← outcome (in_window Fat.InvalidBootSector p Fat.mount);
  match (match o with
         | Ok v =>
           start ← checked_add 64 (Partition.start_lba p) (Fat.total_sectors v);
           limit ← checked_add 64 (Partition.start_lba p) (Partition.psectors p);
           Some (start, limit)
         | _ => None
         end) with
  | Some (start, limit) => configure_swap_area start limit
  | None => mret tt
  end.

(** The closure of [mount_ata_root]; its error is a status that is not [Mounted]. *)
Definition mount_disk : M Fs MountStatus.t Z :=
  direct ← outcome (mount_device (λ _ _ m, m));
  match direct with
  | Ok n => _ ← configure_direct_swap; mret n
  | Err MountStatus.NotFat32 =>
    p ← find_partition true MountStatus.Failed MountStatus.NotFat32;
    n ← in_window MountStatus.Failed p (mount_device (λ _ _ m, inside m));
    _ ← configure_partition_swap p;
    mret n
  | Err status => fail status
  | Panic => lift Panic
  end.
Definition mount_ata_root {E} : M Fs E MountStatus.t :=
  here ← asks present;
  status ← (if here : bool then
              o ← outcome mount_disk;
              match o with Ok n => mret (MountStatus.Mounted n) | Err status => mret status | Panic => lift Panic end
            else mret MountStatus.NoDevice);
  _ ← on_storage (record_mount_status status);
  mret status.
Definition remount_mnt {E} : M Fs E MountStatus.t := _ ← on_storage invalidate; mount_ata_root.

(** *** Bringing a path into the VFS *)

Definition ensure_root_listing_on_disk : M Fs EnsureError.t unit :=
  on_volume (λ _, EnsureError.Failed) map_fat_err EnsureError.Failed (find_partition false EnsureError.Failed EnsureError.NotFat32)
    (λ V _ inner v, import_listing inner v (Fat.root_cluster v) (bytes "/mnt")).

(** [vfs::mkdir], where an existing directory is fine. *)
Definition mkdir_or_exists (path : list byte) : M Fs EnsureError.t unit :=
  r ← outcome (Vfs.on_registry (Vfs.mkdir path));
  match r with Ok _ | Err AlreadyExists => mret tt | _ => fail EnsureError.Vfs end.

(** The directories above [path]: [scanned] is the part of the path already
    passed, which ends before the slash that follows. *)
Fixpoint parent_dirs (scanned rest : list byte) : M Fs EnsureError.t unit :=
  match rest with
  | [] => mret tt
  | b :: rest =>
    _ ← (if is_slash b then
           _ ← guard_ok (utf8_valid scanned) EnsureError.InvalidPath;
           mkdir_or_exists scanned
         else mret tt);
    parent_dirs (scanned ++ [b]) rest
  end.
Definition create_parent_dirs (path : list byte) : M Fs EnsureError.t unit :=
  _ ← guard_ok (starts_with_slash path) EnsureError.InvalidPath;
  parent_dirs (take 1 path) (drop 1 path).

Definition import_resolved {V} `{BlockDevice V} (inner : ∀ E A, M Fs E A → M V E A) (v : Fat.Volume) (relative full_path : list byte)
    : M V EnsureError.t unit :=
  e ← map_failure map_fat_err (FatDir.resolve_path v relative);
  _ ← inner _ _ (create_parent_dirs full_path);
  if FatDir.has_attribute (Fat.attributes e) DIRECTORY_ATTRIBUTE then
    _ ← inner _ _ (mkdir_or_exists full_path);
    import_listing inner v (Fat.first_cluster e) full_path
  else
    _ ← guard_ok (negb (Z.of_nat Vfs.NODE_CAPACITY <? Fat.size e)) EnsureError.TooLarge;
    ro ← gets is_read_only;
    let writable := negb ro && negb (FatDir.has_attribute (Fat.attributes e) READ_ONLY_ATTRIBUTE) in
    r ← try_vfs inner (Vfs.create_disk_file_with_writable full_path (Z.to_nat (Fat.size e)) writable);
    match r with Ok _ | Err AlreadyExists => mret tt | _ => fail EnsureError.Vfs end.
Definition ensure_on_disk (relative full_path : list byte) : M Fs EnsureError.t unit :=
  on_volume (λ _, EnsureError.Failed) map_fat_err EnsureError.Failed (find_partition false EnsureError.Failed EnsureError.NotFat32)
    (λ V _ inner v, import_resolved inner v relative full_path).

Definition vfs_stat (path : list byte) : M Fs EnsureError.t (option Vfs.Stat) :=
  gets (λ s, match Vfs.stat path (Vfs.registry s) with Ok st => Some st | _ => None end).
Definition ensure_path (path : list byte) : M Fs EnsureError.t unit :=
  if negb (mnt_path path) then
    o ← vfs_stat path; guard_ok (bool_decide (is_Some o)) EnsureError.NotUnderMount
  else
    _ ← while_mounted unavailable_ensure_error;
    o ← vfs_stat path;
    if from_option (λ st, negb (bool_decide (Vfs.st_kind st = Vfs.Directory))) false o then mret tt else
    _ ← while_present EnsureError.NoDevice;
    if bool_decide (path = bytes "/mnt") then
      _ ← mkdir_or_exists (bytes "/mnt");
      ensure_root_listing_on_disk
    else ensure_on_disk (relative path) path.

(** *** Writing back *)

(** The path below [/mnt] of a call that writes, if FAT32 can store its names. *)
Definition fat_relative {E} (bad_name : E) (path : list byte) : M Fs E (list byte) :=
  _ ← guard_ok (negb (bad_relative (relative path))) bad_name;
  mret (relative path).

(** [result.and(flushed)] for a call [m] on the disk; the cached pages are dropped
    first, and success marks the volume as changed. *)
Definition written_through {E} (failed : E) (m : M (option D) E unit) : M Fs E unit :=
  _ ← on_storage invalidate;
  result ← outcome (on_disk m);
  flushed ← outcome (on_disk (map_failure (λ _, failed) (λ o, flush o)));
  _ ← lift (match result with Ok _ => flushed | r => r end);
  on_storage mark_mnt_dirty.

Definition persist_path (path : list byte) : M Fs PersistError.t unit :=
  _ ← guard_ok (under_mnt path) PersistError.NotSupported;
  _ ← while_mounted unavailable_persist_error;
  relative ← fat_relative PersistError.BadName path;
  '(length, data) ← map_failure (λ e, match e with NotFound => PersistError.NotFound | _ => PersistError.Failed end)
                      (Vfs.read_all path (replicate Vfs.NODE_CAPACITY x00));
  _ ← guard_ok (negb (Nat.ltb Vfs.NODE_CAPACITY length)) PersistError.TooLarge;
  _ ← while_present PersistError.NoDevice;
  written_through PersistError.Failed (persist_on_cached_device relative (take length data)).

Definition persist_directory (path : list byte) : M Fs PersistError.t unit :=
  if bool_decide (path = bytes "/mnt") then while_mounted unavailable_persist_error else
  _ ← guard_ok (under_mnt path) PersistError.NotSupported;
  _ ← while_mounted unavailable_persist_error;
  relative ← fat_relative PersistError.BadName path;
  _ ← while_present PersistError.NoDevice;
  written_through PersistError.Failed (mkdir_on_cached_device relative).

(** [if disk.is_read_only() { return Err(ReadOnly) }] *)
Definition while_writable : M Fs MutationError.t unit :=
  ro ← gets (λ s, is_read_only (disk_of s)); guard_ok (negb ro) MutationError.ReadOnly.

Definition delete_path (path : list byte) : M Fs MutationError.t unit :=
  _ ← guard_ok (under_mnt path) MutationError.NotSupported;
  _ ← while_mounted unavailable_mutation_error;
  relative ← fat_relative MutationError.BadName path;
  _ ← while_present MutationError.NoDevice;
  _ ← while_writable;
  written_through MutationError.Failed (delete_on_cached_device relative).

Definition rename_path (old new : list byte) : M Fs MutationError.t unit :=
  _ ← guard_ok (under_mnt old && under_mnt new) MutationError.NotSupported;
  _ ← while_mounted unavailable_mutation_error;
  old_relative ← fat_relative MutationError.BadName old;
  new_relative ← fat_relative MutationError.BadName new;
  _ ← while_present MutationError.NoDevice;
  _ ← while_writable;
  written_through MutationError.Failed (rename_on_cached_device old_relative new_relative).

(** [persist_path] for each path: how many were written, and whether one failed. *)
Fixpoint persist_all (paths : list (list byte)) (ok : nat) (failed : bool) : M Fs PersistError.t (nat * bool) :=
  match paths with
  | [] => mret (ok, failed)
  | path :: paths =>
    r ← outcome (persist_path path);
    if is_ok (E := PersistError.t) r then persist_all paths (S ok) failed else persist_all paths ok true
  end.
Definition sync_all_mounted : M Fs PersistError.t nat :=
  _ ← while_mounted unavailable_persist_error;
  paths ← gets (Vfs.for_each_file_with_prefix (bytes "/mnt/"));
  '(ok, failed) ← persist_all paths 0 false;
  here ← asks present;
  failed ← (if here : bool then
              r ← outcome (on_disk (λ o, flush o));
              mret (failed || is_err (E := Error) r)
            else mret true);
  if failed : bool then _ ← on_storage mark_mnt_dirty; fail PersistError.Failed
  else
    _ ← on_storage mark_mnt_clean;
    _ ← on_storage add_sync;
    mret ok.

Definition unmount_mnt : M Fs MountControlError.t unit :=
  _ ← while_mounted (λ k, match lifecycle_from_code (mnt_status k) with
                          | MountLifecycleStatus.NoDevice => MountControlError.NoDevice | _ => MountControlError.NotMounted end);
  _ ← map_failure (λ _, MountControlError.SyncFailed) sync_all_mounted;
  _ ← on_storage invalidate;
  here ← asks present;
  if negb here then
    _ ← on_storage (record_mount_status MountStatus.NoDevice); fail MountControlError.NoDevice
  else
    _ ← map_failure (λ _, MountControlError.Failed) (on_disk (λ o, flush o));
    _ ← on_storage (set_status MOUNT_UNMOUNTED 0);
    on_storage mark_mnt_clean.

Definition df_mnt : M Fs SpaceError.t Fat.SpaceInfo :=
  _ ← while_mounted unavailable_space_error;
  _ ← while_present SpaceError.NoDevice;
  on_disk df_on_device.
Definition fscheck_mnt : M Fs SpaceError.t FatDir.CheckReport :=
  _ ← while_mounted unavailable_space_error;
  _ ← while_present SpaceError.NoDevice;
  on_disk check_on_device.

(** [vfs::persist_mapping]. *)
Definition persist_mapping (id : nat) : M Fs VError unit :=
  e ← Vfs.open_entry id;
  n ← Vfs.reg_node (Vfs.onode e);
  let path := take (Vfs.path_length n) (Vfs.path n) in
  _ ← guard_ok (utf8_valid path) InvalidPath;
  if under_mnt path then map_failure (λ _, Io) (persist_path path) else mret tt.
End calls.

(** What tasks and mappings see of this layer. *)
#[export] Instance storage_mount {F D} `{Vfs.Frames F, BlockDevice D} : Process.Mount F (Storage D) := {|
  Process.mnt_mounted := mnt_mounted; Process.mark_mnt_dirty := mark_mnt_dirty; Process.ensure_path := ensure_path;
  Process.persist_directory := persist_directory; Process.delete_path := delete_path; Process.rename_path := rename_path |}.
#[export] Instance storage_persistence {F D} `{Vfs.Frames F, BlockDevice D} : Mappings.Persistence F (Storage D) := {|
  Mappings.persist_mapping id s := let '(r, s) := persist_mapping id s in (is_ok r, s) |}.
