(* ===== verification/StorageDevice.v ===== *)
(** * The disk under the storage service (kernel/src/storage.rs)

    The primary disk, the whole VFS state seen as its disk, and the window of a
    partition are block devices that keep the device contract, the last one
    with all of the disk in view.  Triples for the calls on them: [safe] of the
    FAT32 files, for any error type, carried through windows and dispatches. *)
From stdpp Require Import list.
From S2P Require Import Prelude Config Block VfsPath Fat FatChain FatDir FatSafe FatDirSafe Storage.
From S2P Require Vfs Partition Gpt FatVolume.

(** ** The primary disk *)

Section primary.
Context {D : Type} `{BlockDeviceLaws D}.

Definition primary_ok (o : option D) : Prop := match o with Some d => dev_ok d | None => True end.
Definition primary_view (o : option D) : Z → list byte := match o with Some d => dev_view d | None => λ _, [] end.

#[export] Program Instance primary_laws : BlockDeviceLaws (option D) := {| dev_ok := primary_ok; dev_view := primary_view |}.
Next Obligation. intros [d|] lba; cbn; [apply dev_view_length|lia]. Qed.
Next Obligation.
  intros [d|] lba buf r buf' d' Hok Hl; cbn; unfold primary_read; (destruct (negb _); [by intros [= <- <- <-]|]); [|by intros [= <- <- <-]].
  destruct (read_sector lba buf d) as [[r1 b] d1] eqn:E. intros [= <- <- <-].
  by apply (read_law d lba buf r1 b d1).
Qed.
Next Obligation.
  intros [d|] lba buf r d' Hok Hl; cbn; unfold primary_write; (destruct (negb _); [by intros [= <- <-]|]); [|by intros [= <- <-]].
  destruct (write_sector lba buf d) as [r1 d1] eqn:E. intros [= <- <-]. by apply (write_law d lba buf r1 d1).
Qed.
Next Obligation.
  intros [d|] r d' Hok; cbn; [|by intros [= <- <-]].
  destruct (flush d) as [r1 d1] eqn:E. intros [= <- <-]. by apply (flush_law d r1 d1).
Qed.
End primary.

(** ** The window of a partition, with the whole disk in view *)

Section window.
Context {B : Type} `{BlockDeviceLaws B} (p : Partition.Partition) (n : Z).
Implicit Types v : Partition.PartitionDevice B.

(** The window on [p] of a disk of [n] sectors. *)
Definition window_ok v : Prop :=
  dev_ok (Partition.device v) ∧ Partition.partition v = p ∧ sector_count (Partition.device v) = n ∧
  0 < Partition.start_lba p ∧ Partition.start_lba p + Partition.psectors p ≤ n.
Definition window_view v (l : Z) : list byte := dev_view (Partition.device v) (Partition.start_lba p + l).

Lemma window_same v b : window_ok v → same_dev dev_ok dev_view (Partition.device v) b →
  same_dev window_ok window_view v (Partition.mkPDevice b p).
Proof.
  intros (Hok & Hp & Hn & Hs) (Hok' & Hc & Hr & Hv). unfold same_dev, window_ok, window_view. cbn.
  split; [split_and!; [done|done|congruence|lia..]|]. split_and!; [by rewrite Hp|done|]. intros l. apply Hv.
Qed.

#[local, refine] Instance window_laws : BlockDeviceLaws (Partition.PartitionDevice B) := {| dev_ok := window_ok; dev_view := window_view |}.
Proof using H0 p n.
  - intros v lba (Hok & Hp & Hn & Hs) Hl. cbn in Hl. rewrite Hp in Hl. apply dev_view_length; [done|lia].
  - intros v lba buf r buf' v' Hw Hl Hr. cbn in Hr. unfold Partition.pdevice_read_sector in Hr.
    pose proof Hw as (Hok & Hp & Hn & Hs). assert (0 ≤ Partition.start_lba p + lba) as Hpos by lia.
    destruct (Partition.absolute_lba v lba) as [l|e|] eqn:Ha.
    2: { injection Hr as <- <- <-. split; [|by split]. pose proof (window_same v (Partition.device v) Hw) as Hd.
         destruct v as [b q]. cbn in *. subst q. apply Hd. by repeat split. }
    2: by apply Partition.absolute_lba_no_panic in Ha.
    apply Partition.absolute_lba_Ok in Ha as (Hlt & -> & _).
    destruct (read_sector _ buf (Partition.device v)) as [[r1 b] d'] eqn:E. injection Hr as <- <- <-. rewrite Hp in E.
    destruct (read_law _ _ _ _ _ _ Hok Hpos E) as (Hsd & Hb & Hrr). rewrite Hp. split; [by apply window_same|].
    split; [done|]. destruct r1; [|done..]. destruct Hrr as (? & ? & ->). split_and!; [done| |done]. cbn. by rewrite Hp in *.
  - intros v lba buf r v' Hw Hl Hr. cbn in Hr. unfold Partition.pdevice_write_sector in Hr.
    pose proof Hw as (Hok & Hp & Hn & Hs). assert (0 ≤ Partition.start_lba p + lba) as Hpos by lia.
    destruct (Partition.absolute_lba v lba) as [l|e|] eqn:Ha.
    2: by injection Hr as <- <-.
    2: by apply Partition.absolute_lba_no_panic in Ha.
    apply Partition.absolute_lba_Ok in Ha as (Hlt & -> & _).
    destruct (write_sector _ buf (Partition.device v)) as [r1 d'] eqn:E. injection Hr as <- <-. rewrite Hp in E |- *.
    destruct (write_law _ _ _ _ _ Hok Hpos E) as (Hok' & Hc & Hro & Hrr). unfold window_ok, window_view. cbn.
    split; [split_and!; [done|done|congruence|lia..]|]. split_and!; [by rewrite Hp|done|]. destruct r1; [|intros l Hne; apply Hrr; lia|done].
    destruct Hrr as (? & ? & ? & Hv). rewrite Hp in Hlt. split_and!; [done|by rewrite Hp|done|]. intros l. rewrite Hv.
    destruct (decide (l = lba)) as [->|Hne]; [by rewrite decide_True|by rewrite decide_False by lia].
  - intros v r v' Hw Hr. cbn in Hr. pose proof Hw as (Hok & Hp & Hn & Hs).
    destruct (flush (Partition.device v)) as [r1 d'] eqn:E. injection Hr as <- <-. rewrite Hp.
    destruct (flush_law _ _ _ Hok E) as [Hsd Hnp]. split; [by apply window_same|done].
Defined.
End window.

(** ** The VFS as its disk

    [I] is what else is known of the state; it must not depend on the disk. *)

Section world.
Context {F D : Type} `{Vfs.Frames F, BlockDeviceLaws D} (I : Vfs.Fs F (Storage D) → Prop).
Implicit Types s : Vfs.Fs F (Storage D).

Definition disk_free : Prop := ∀ o s, I s → I (with_disk o s).
Context (HI : disk_free).

Lemma disk_with_disk o s : disk_of (with_disk o s) = o.
Proof. done. Qed.
Definition world_ok s : Prop := dev_ok (disk_of s) ∧ I s.
Definition world_view s : Z → list byte := dev_view (disk_of s).

Lemma world_same_dev s o : world_ok s → same_dev dev_ok dev_view (disk_of s) o → same_dev world_ok world_view s (with_disk o s).
Proof using HI. intros [Hok Hs] (Hok' & Hc & Hr & Hv). by repeat split; [|apply HI|..]. Qed.

#[local, refine] Instance world_laws : BlockDeviceLaws (Vfs.Fs F (Storage D)) := {| dev_ok := world_ok; dev_view := world_view |}.
Proof using H1 HI I.
  - intros s lba [Hok _] Hl. by apply dev_view_length.
  - intros s lba buf r buf' s' [Hok Hs] Hl Hr. cbn in Hr. unfold fs_read in Hr.
    destruct (read_sector lba buf (disk_of s)) as [[r1 b] o] eqn:E. injection Hr as <- <- <-.
    destruct (read_law _ _ _ _ _ _ Hok Hl E) as (Hsd & Hb & Hrr). split; [by apply world_same_dev|done].
  - intros s lba buf r s' [Hok Hs] Hl Hr. cbn in Hr. unfold fs_write in Hr.
    destruct (write_sector lba buf (disk_of s)) as [r1 o] eqn:E. injection Hr as <- <-.
    destruct (write_law _ _ _ _ _ Hok Hl E) as (Hok' & Hc & Hro & Hrr). split; [by split; [|apply HI]|done].
  - intros s r s' [Hok Hs] Hr. cbn in Hr. unfold fs_flush in Hr.
    destruct (flush (disk_of s)) as [r1 o] eqn:E. injection Hr as <- <-.
    destruct (flush_law _ _ _ Hok E) as [Hsd Hnp]. split; [by apply world_same_dev|done].
Defined.
End world.

(** ** Triples *)

Section triples.
Context {B : Type} `{BlockDeviceLaws B} (P : Z → Prop).
Implicit Types b : B.

Lemma safe_outcome {Er Er' A} (m : M B Er A) Q : safe P m Q → safe P (outcome m : M B Er' _) (λ r, r ≠ Panic ∧ ∀ a, r = Ok a → Q a).
Proof.
  intros Hm b Hb. destruct (Hm b Hb) as (Ht & Hp & HQ). unfold outcome. destruct (m b) as [[a|e|] b']; cbn in *; [| |done].
  - split_and!; [done|done|]. intros r [= <-]. naive_solver.
  - split_and!; [done|done|]. by intros r [= <-].
Qed.
Lemma safe_map_failure {Er Er' A} (f : Er → Er') (m : M B Er A) Q : safe P m Q → safe P (map_failure f m) Q.
Proof.
  intros Hm b Hb. destruct (Hm b Hb) as (Ht & Hp & HQ). unfold map_failure. destruct (m b) as [[a|e|] b']; cbn in *; [| |done]; split_and!; naive_solver.
Qed.
Lemma safe_gets {Er A} (f : B → A) (Q : A → Prop) : (∀ b, dev_ok b → Q (f b)) → safe P (gets f : M B Er A) Q.
Proof. intros HQ b Hb. split_and!; [by apply touches_refl|done|]. intros a [= <-]. by apply HQ. Qed.
Lemma safe_flush : safe P (λ b, flush b) (λ _, True).
Proof.
  intros b Hb. destruct (flush b) as [r b'] eqn:E. destruct (flush_law b r b' Hb E) as ((Hok & Hc & _ & Hv) & Hp).
  cbn. by split_and!; [split_and!|..].
Qed.
Lemma safe_more {Er A} (P' : Z → Prop) (m : M B Er A) Q : (∀ l, P l → P' l) → safe P m Q → safe P' m Q.
Proof. intros HP Hm b Hb. destruct (Hm b Hb) as (Ht & ? & ?). split_and!; [by eapply touches_weaken|done|done]. Qed.

(** What a dispatch finds is not written by looking for it. *)
Definition placed (p : Partition.Partition) : Prop := 0 ≤ Partition.start_lba p ∧ 0 < Partition.psectors p.
Lemma safe_find_fat32 : safe P (Partition.find_fat32 (D := B)) (λ o, ∀ p, o = Some p → placed p).
Proof.
  intros b Hb. unfold Partition.find_fat32. destruct (read_sector 0 _ b) as [[r s] b'] eqn:E.
  pose proof (read_law b 0 _ r s b' Hb ltac:(lia) E) as ((Hok' & Hc & _ & Hv) & _ & Hr).
  assert (touches P b b') as Ht by by split_and!. destruct r as [u|e|]; [|by split_and!|done].
  case_match; cbn; split_and!; try done; [by intros o [= <-]| |].
  - clear. generalize (@None Partition.Partition). generalize (seq 0 Partition.PARTITION_COUNT).
    intros l. induction l as [|i l IH]; intros o; [done|]. cbn [Partition.scan_mbr]. repeat case_match; try done; apply IH.
  - intros o Ho p ->. apply Partition.scan_mbr_good in Ho as [(? & ? & ?) _]; [|done]. unfold placed. lia.
Qed.
Lemma safe_find_gpt : safe P (Gpt.find_fat_partition (D := B)) (λ o, ∀ p, o = Some p → placed p).
Proof.
  intros b Hb. destruct (Gpt.find_fat_partition b) as [r b'] eqn:E.
  destruct (Gpt.find_fat_partition_sound b b' r Hb E) as ((_ & Hok' & Hc & _ & Hv) & Hp & Hs). cbn.
  split_and!; [by split_and!|done|]. intros o -> p ->. destruct (Hs p eq_refl) as (_ & ? & ? & _). by split.
Qed.

Lemma safe_valid_fs_info lba reserved : 0 ≤ lba → safe P (valid_fs_info_sector lba reserved) (λ _, True).
Proof.
  intros Hl b Hb. unfold valid_fs_info_sector. case_match; [by split_and!; [apply touches_refl|..]|].
  destruct (read_sector lba zero_sector b) as [[r s] b'] eqn:E.
  pose proof (read_law b lba _ r s b' Hb Hl E) as ((Hok' & Hc & _ & Hv) & _ & Hr).
  assert (touches P b b') as Ht by by split_and!. by destruct r; split_and!.
Qed.
Lemma safe_mount : safe P mount geometry.
Proof.
  assert (safe P mount (λ _, True)) as Hs.
  { unfold mount. eapply safe_seq; [by apply (safe_dread P 0 zero_sector (λ _, True))|]. intros s _. eapply safe_seq; [apply safe_guard|]. intros _ _. cbv zeta.
    eapply safe_seq; [apply safe_guard|]. intros _ _. eapply safe_seq; [by apply (safe_gets sector_count (λ _, True))|]. intros n _.
    eapply safe_seq; [apply safe_guard|]. intros _ _. do 2 (eapply safe_seq; [apply safe_ok_or|]; intros ? _).
    do 2 (eapply safe_seq; [apply safe_guard|]; intros _ _).
    eapply safe_seq; [apply safe_valid_fs_info, fat_u16_bound|]. intros o _.
    eapply (safe_seq P _ _ (λ _, True)); [|intros ? _; by apply safe_ret].
    case_match; [by apply safe_ret|]. case_match eqn:E; [|by apply safe_ret]. apply checked_add_Some in E as [-> _].
    apply safe_valid_fs_info. pose proof (fat_u16_bound s 50). lia. }
  intros b Hb. destruct (Hs b Hb) as (Ht & Hp & _). split_and!; [done|done|]. intros v Hv.
  destruct (mount b) as [r b'] eqn:E. cbn in Hv. subst r. by apply (FatVolume.mount_runs b v b' Hb E).
Qed.
End triples.

(** ** The volume a call works on *)

Abbreviation nothing := (λ _ : Z, False).

Section dispatch.
Context {B : Type} `{BlockDeviceLaws B}.
Implicit Types b : B.

(** Looking at the disk [b] finds the volume [v], whose first sector is [start]. *)
Definition found b (start : Z) (v : Volume) : Prop :=
  (start = 0 ∧ ∃ b', mount b = (Ok v, b')) ∨
  (∃ p e b1 b2 view Er strict (failed none : Er), mount b = (Err e, b1) ∧ not_fat e = true ∧ touches nothing b b1 ∧
    find_partition strict failed none b1 = (Ok p, b2) ∧ touches nothing b b2 ∧
    start = Partition.start_lba p ∧ 0 < start ∧ 0 < Partition.psectors p ∧ start + Partition.psectors p ≤ sector_count b ∧
    mount (Partition.mkPDevice b2 p) = (Ok v, view)).

(** [inner] runs calls that do not write to the disk inside the device of [body]. *)
Definition inner_ok {V} `{BlockDeviceLaws V} (inner : ∀ Er A, M B Er A → M V Er A) : Prop :=
  ∀ Er A (m : M B Er A) Q, safe nothing m Q → safe (D := V) nothing (inner Er A m) Q.

Lemma inside_ok p n : ∀ Er A (m : M B Er A) Q, safe nothing m Q →
  safe (H0 := window_laws p n) nothing (inside m) Q.
Proof.
  intros Er A m Q Hm v (Hok & Hp & Hn & Hs). destruct (Hm _ Hok) as ((Hok' & Hc & Hv) & Hnp & HQ). unfold inside.
  destruct (m (Partition.device v)) as [r b']. cbn in *. split_and!; [|done|done]. split_and!; cbn; [|done|].
  - unfold window_ok. cbn. split_and!; try done; lia.
  - intros l Hl. apply Hv. tauto.
Qed.

Lemma safe_find_partition {Er} strict (failed none : Er) : safe (D := B) nothing (find_partition strict failed none) placed.
Proof.
  assert (safe (D := B) nothing (gpt_partition failed none) placed) as Hg.
  { unfold gpt_partition. eapply safe_seq; [apply safe_outcome, safe_find_gpt|].
    intros [[p|]|[]|] [Hp HQ]; try apply safe_fail. apply safe_ret. by eapply HQ. }
  unfold find_partition. eapply safe_seq; [apply safe_outcome, safe_find_fat32|].
  intros [[p|]|e|] [Hp HQ]; [apply safe_ret; by eapply HQ|exact Hg| |done].
  destruct strict; [apply safe_fail|exact Hg].
Qed.
Lemma pdevice_new_Ok b p view : Partition.pdevice_new b p = Ok view → placed p →
  view = Partition.mkPDevice b p ∧ 0 < Partition.start_lba p ∧ Partition.start_lba p + Partition.psectors p ≤ sector_count b.
Proof.
  unfold Partition.pdevice_new, placed. destruct (checked_add _ _ _) as [endp|] eqn:E; [|done]. apply checked_add_Some in E as [-> _]. cbn.
  case_match eqn:Hc; [done|]. split_guards. intros [= <-] ?. split; [done|]. lia.
Qed.

Lemma window_touches p b b1 view : placed p → dev_ok b → (0 < Partition.start_lba p ∧ Partition.start_lba p + Partition.psectors p ≤ sector_count b) →
  ∀ W' : Z → Prop, touches (H0 := window_laws p (sector_count b)) W' (Partition.mkPDevice b p) view → b1 = Partition.device view →
  touches (λ l, W' (l - Partition.start_lba p)) b b1.
Proof.
  intros Hp Hb Hs W' ((Hok & Hvp & Hvn & _) & _ & Hv) ->. cbn in *. split_and!; [done|done|]. intros l Hl.
  specialize (Hv (l - Partition.start_lba p) Hl). unfold window_view in Hv. rewrite !Zplus_minus in Hv. exact Hv.
Qed.

(** A window on a partition that is not written. *)
Lemma safe_in_window {Er A} (failed : Er) p (m : M (Partition.PartitionDevice B) Er A) (Q : A → Prop) : placed p →
  (∀ n, safe (H0 := window_laws p n) nothing m Q) → safe nothing (in_window failed p m) Q.
Proof.
  intros Hp Hm b Hb. unfold in_window. destruct (Partition.pdevice_new b p) as [view|e|] eqn:E.
  - destruct (pdevice_new_Ok b p view E Hp) as (-> & Hs & Hn).
    assert (@dev_ok _ _ (window_laws p (sector_count b)) (Partition.mkPDevice b p)) as Hw by by split_and!.
    destruct (Hm (sector_count b) _ Hw) as (Ht & Hnp & HQ). destruct (m (Partition.mkPDevice b p)) as [r view]. cbn [fst snd] in *.
    split_and!; [|done|done]. by eapply (window_touches p b _ view Hp Hb (conj Hs Hn) nothing).
  - by split_and!; [apply touches_refl|..].
  - unfold Partition.pdevice_new in E. destruct (checked_add _ _ _); [|done]. cbn in E. by case_match.
Qed.

(** A dispatch whose [body] is safe on every device, within [W v] of the volume [v]. *)
Section on_volume.
Context {Er A : Type} (refuse map_mount : FError → Er) (failed none : Er) (strict : bool) (W : Volume → Z → Prop) (Q : A → Prop).
Context (body : ∀ V : Type, BlockDevice V → (∀ E' A', M B E' A' → M V E' A') → Volume → M V Er A).
Context (Hbody : ∀ V (HV : BlockDevice V) (HL : BlockDeviceLaws V) inner v, inner_ok inner → geometry v →
  safe (D := V) (W v) (body V HV inner v) Q).

Lemma direct_inner : inner_ok (λ _ _ m, m).
Proof. by intros ????. Qed.

Definition confined b b' : Prop :=
  touches nothing b b' ∨ ∃ start v, found b start v ∧ touches (λ l, W v (l - start)) b b'.

Lemma on_volume_run b : dev_ok b →
  let '(r, b') := on_volume refuse map_mount failed (find_partition strict failed none) body b in
  r ≠ Panic ∧ (∀ a, r = Ok a → Q a) ∧ confined b b'.
Proof using Hbody.
  intros Hb. destruct (on_volume _ _ _ _ _ b) as [r b'] eqn:Hr. unfold on_volume in Hr.
  destruct (safe_mount nothing b Hb) as (Ht1 & Hp1 & Hg1). destruct (mount b) as [r1 b1] eqn:E1. cbn in *.
  unfold mbind at 1, M_bind at 1 in Hr. unfold outcome at 1 in Hr. rewrite E1 in Hr. destruct r1 as [v|e|]; [| |done].
  - destruct (Hbody B _ _ (λ _ _ m, m) v direct_inner (Hg1 v eq_refl) b1) as (Ht & Hp & HQ); [by destruct Ht1|].
    rewrite Hr in *. cbn in *. split_and!; [done|done|]. right. exists 0, v. split; [left; by eauto|].
    destruct Ht1 as (_ & Hc1 & Hv1), Ht as (Hok' & Hc' & Hv'). split_and!; [done|congruence|].
    intros l Hl. rewrite Z.sub_0_r in Hl. by rewrite Hv', Hv1 by tauto.
  - destruct (not_fat e) eqn:Hnf; [|injection Hr as <- <-; split_and!; [done|done|by left]].
    destruct (safe_find_partition strict failed none b1) as (Ht2 & Hp2 & Hpl); [by destruct Ht1|].
    unfold mbind at 1, M_bind at 1 in Hr.
    destruct (find_partition strict failed none b1) as [r2 b2] eqn:E2. cbn in *.
    assert (touches nothing b b2) as Ht12 by by eapply touches_trans.
    destruct r2 as [p|e'|]; [|injection Hr as <- <-; split_and!; [done|done|by left]|done].
    specialize (Hpl p eq_refl). unfold in_window in Hr. destruct (Partition.pdevice_new b2 p) as [view|e'|] eqn:Enew.
    2: injection Hr as <- <-; split_and!; [done|done|by left].
    2: { unfold Partition.pdevice_new in Enew. destruct (checked_add _ _ _); [|done]. cbn in Enew. by case_match. }
    destruct (pdevice_new_Ok b2 p view Enew Hpl) as (-> & Hs & Hn). assert (dev_ok b2) as Hb2 by by destruct Ht12.
    set (n := sector_count b2) in *. set (L := window_laws p n). assert (@dev_ok _ _ L (Partition.mkPDevice b2 p)) as Hw by by split_and!.
    destruct (safe_mount (H0 := L) nothing _ Hw) as (Ht3 & Hp3 & Hg3).
    unfold mbind, M_bind, map_failure in Hr. destruct (mount (Partition.mkPDevice b2 p)) as [r3 view3] eqn:E3. cbn [fst snd] in *.
    destruct r3 as [v|e3|]; cbn [map_err] in Hr; [| |done].
    2: { injection Hr as <- <-. split_and!; [done|done|left]. eapply touches_trans; [exact Ht12|].
         eapply touches_weaken; [|eapply (window_touches p b2 _ view3 Hpl Hb2 (conj Hs Hn) nothing); done]. done. }
    assert (@dev_ok _ _ L view3) as Hw3 by by destruct Ht3.
    destruct (Hbody _ _ L (λ _ _ m, inside m) v (inside_ok p n) (Hg3 v eq_refl) view3 Hw3) as (Ht4 & Hp4 & HQ4).
    destruct (body _ _ _ v view3) as [r4 view4]. cbn [fst snd] in *. injection Hr as <- <-. split_and!; [done|done|right].
    exists (Partition.start_lba p), v. split.
    + right. exists p, e, b1, b2, view3, Er, strict, failed, none. pose proof Ht12 as (_ & Hc2 & _). split_and!; try done; [by destruct Hpl|by rewrite <-Hc2].
    + assert (touches (H0 := L) (W v) (Partition.mkPDevice b2 p) view4) as Ht34.
      { eapply touches_trans; [eapply touches_weaken; [|exact Ht3]; done|exact Ht4]. }
      eapply touches_trans; [eapply touches_weaken; [|exact Ht12]; done|].
      by eapply (window_touches p b2 _ view4 Hpl Hb2 (conj Hs Hn)).
Qed.
End on_volume.
End dispatch.
