(* ===== verification/StorageReads.v ===== *)
(** * Reading files through the storage service (kernel/src/storage.rs)

    What a file of the volume contains is what reading it from a disk that
    never fails gives, page by page: [file_image].  A read through the dispatch,
    the page cache and a disk that may fail delivers those bytes or an error. *)
From stdpp Require Import list.
From S2P Require Import Prelude Config Block VfsPath Fat FatChain FatDir FatSafe Storage StorageDevice.
From S2P Require Vfs Partition Gpt PageCache.

(** ** A disk that never fails *)

Record Picture := mkPicture { sectors_of : Z → list byte; size_of : Z }.
Definition picture_read (lba : Z) (buf : list byte) (p : Picture) : res Error unit * list byte * Picture :=
  if negb (Nat.eqb (length buf) SECTOR_SIZE) then (Err InvalidBuffer, buf, p)
  else if (0 <=? lba) && (lba <? size_of p) then (Ok tt, sectors_of p lba, p) else (Err OutOfBounds, buf, p).
#[export] Instance picture_device : BlockDevice Picture := {|
  sector_count := size_of; is_read_only _ := true; flush p := (Ok tt, p); read_sector := picture_read;
  write_sector _ _ p := (Err Block.ReadOnly, p) |}.
Definition picture_ok (p : Picture) : Prop := size_of p < 2 ^ 64 ∧ ∀ l, 0 ≤ l < size_of p → length (sectors_of p l) = SECTOR_SIZE.
Lemma picture_same p : picture_ok p → same_dev picture_ok sectors_of p p.
Proof. intros Hok. by split; [exact Hok|]. Qed.
#[export, refine] Instance picture_laws : BlockDeviceLaws Picture := {| dev_ok := picture_ok; dev_view := sectors_of |}.
Proof.
  - intros p lba [_ Hok] Hl. by apply Hok.
  - intros p lba buf r buf' p' Hok Hl. cbn. unfold picture_read. case_match eqn:E1; [intros [= <- <- <-]; by split; [apply picture_same|]|].
    case_match eqn:E2; intros [= <- <- <-]; [|by split; [apply picture_same|]]. apply negb_false_iff, Nat.eqb_eq in E1. split_guards.
    split; [by apply picture_same|]. split; [|split_and!; [done|cbn; lia|done]]. rewrite E1. apply Hok. lia.
  - intros p lba buf r p' Hok Hl. cbn. intros [= <- <-]. done.
  - intros p r p' Hok. cbn. intros [= <- <-]. by split; [apply picture_same|].
Defined.

(** Reads inside the device succeed. *)
Class Reliable (D : Type) `{BlockDeviceLaws D} : Prop := {
  reliable_size : ∀ d : D, dev_ok d → sector_count d < 2 ^ 64;
  reliable : ∀ (d : D) lba buf, dev_ok d → length buf = SECTOR_SIZE → 0 ≤ lba < sector_count d →
    ∃ d', read_sector lba buf d = (Ok tt, dev_view d lba, d') }.
#[export] Instance picture_reliable : Reliable Picture.
Proof.
  split; [by intros p []|]. intros p lba buf Hok Hb Hl. exists p. cbn in *. unfold picture_read. rewrite Hb, Nat.eqb_refl. cbn.
  by rewrite (proj2 (Z.leb_le _ _)), (proj2 (Z.ltb_lt _ _)) by lia.
Qed.
Lemma window_reliable {D} `{Reliable D} p n : Reliable (H0 := window_laws p n) (Partition.PartitionDevice D).
Proof.
  split.
  - intros v (Hok & Hp & Hn & Hs). cbn. pose proof (reliable_size _ Hok). rewrite Hp. lia.
  - intros v lba buf (Hok & Hp & Hn & Hs) Hb Hl. pose proof (reliable_size _ Hok) as Hsize. cbn in *.
    unfold Partition.pdevice_read_sector, Partition.absolute_lba. rewrite Hp in *.
    rewrite (proj2 (Z.leb_gt _ _)) by lia. rewrite checked_add_ok by lia. cbn.
    destruct (reliable (Partition.device v) (Partition.start_lba p + lba) buf Hok Hb ltac:(lia)) as [d' ->].
    eexists. unfold window_view. done.
Qed.

(** ** Following a reliable disk *)

Section follows.
Context {D D0 : Type} `{BlockDeviceLaws D, Reliable D0}.
#[local] Set Default Proof Using "All".
Implicit Types (d : D).

Definition alike d (x : D0) : Prop := dev_ok d ∧ dev_ok x ∧ sector_count d = sector_count x ∧ ∀ l, dev_view d l = dev_view x l.

(** Whatever [m] does on a disk that may fail, when it returns a value or an error
    in [good], [m0] does on the reliable disk with the same contents. *)
Definition follows {E A A0} (good : E → bool) (R : A → A0 → Prop) (m : M D E A) (m0 : M D0 E A0) : Prop := ∀ d x r d',
  alike d x → m d = (r, d') →
  match r with
  | Ok a => ∃ a0 x', m0 x = (Ok a0, x') ∧ R a a0 ∧ alike d' x'
  | Err e => good e = true → ∃ x', m0 x = (Err e, x') ∧ alike d' x'
  | Panic => True
  end.

Lemma follows_ret {E A A0} good (R : A → A0 → Prop) a a0 : R a a0 → follows (E := E) good R (mret a) (mret a0).
Proof. intros HR d x r d' Ha [= <- <-]. by exists a0, x. Qed.
Lemma follows_lift {E A} good (r : res E A) : follows good (λ a a0, a = a0 ∧ r = Ok a) (lift r) (lift r).
Proof. intros d x r' d' Ha [= <- <-]. destruct r; [by eexists _, _| |done]. intros _. by exists x. Qed.
Lemma follows_fail {E A A0} good (R : A → A0 → Prop) (e : E) : follows good R (fail e) (fail e).
Proof. intros d x r d' Ha [= <- <-] _. by exists x. Qed.
Lemma follows_guard {E} good b (e : E) : follows good (λ _ _, b = true) (guard_ok b e) (guard_ok b e).
Proof. destruct b; [by apply follows_ret|apply follows_fail]. Qed.
Lemma follows_bind {E A A0 B B0} good (R : A → A0 → Prop) (S : B → B0 → Prop) (m : M D E A) m0 (f : A → M D E B) f0 :
  follows good R m m0 → (∀ a a0, R a a0 → follows good S (f a) (f0 a0)) → follows good S (m ≫= f) (m0 ≫= f0).
Proof.
  intros Hm Hf d x r d' Ha. unfold mbind, M_bind. destruct (m d) as [[a|e|] d1] eqn:Em.
  - destruct (Hm d x _ _ Ha Em) as (a0 & x1 & -> & HR & Ha1). intros Hr. exact (Hf a a0 HR d1 x1 r d' Ha1 Hr).
  - intros [= <- <-] Hg. destruct (Hm d x _ _ Ha Em Hg) as (x1 & -> & Ha1). by exists x1.
  - by intros [= <- <-].
Qed.
Lemma follows_sub {E A A0} good good' (R S : A → A0 → Prop) (m : M D E A) m0 :
  follows good R m m0 → (∀ e, good' e = true → good e = true) → (∀ a a0, R a a0 → S a a0) → follows good' S m m0.
Proof.
  intros Hm Hg HR d x r d' Ha Hr. specialize (Hm d x r d' Ha Hr). destruct r as [a|e|]; [| |done]; naive_solver.
Qed.
Lemma follows_count {E} good : follows (E := E) good eq (gets sector_count) (gets sector_count).
Proof. intros d x r d' Ha [= <- <-]. destruct Ha as (? & ? & Hc & ?). by eexists _, x. Qed.

(** One sector: both read it, or the disk fails. *)
Lemma alike_read d x lba buf r b d' : alike d x → 0 ≤ lba → read_sector lba buf d = (r, b, d') →
  match r with
  | Ok _ => ∃ x', read_sector lba buf x = (Ok tt, b, x') ∧ alike d' x'
  | Err _ => alike d' (snd (read_sector lba buf x))
  | Panic => False
  end.
Proof.
  intros (Hok & Hok0 & Hc & Hv) Hl Hr. destruct (read_law d lba buf r b d' Hok Hl Hr) as ((Hok' & Hc' & _ & Hv') & Hb & Hrr).
  destruct (read_sector lba buf x) as [[r0 b0] x'] eqn:E0.
  destruct (read_law x lba buf r0 b0 x' Hok0 Hl E0) as ((Hok0' & Hc0' & _ & Hv0') & Hb0 & Hrr0).
  assert (alike d' x') as Ha by (split_and!; [done|done|congruence|]; intros l; by rewrite Hv', Hv, Hv0').
  destruct r as [u|e|]; [|done|done]. destruct Hrr as (Hlen & Hlt & ->).
  destruct (reliable x lba buf Hok0 Hlen ltac:(lia)) as [d1 E1]. rewrite E1 in E0. injection E0 as <- <- <-.
  exists d1. rewrite Hv. done.
Qed.
Lemma follows_dread good lba buf : (∀ e, good (FBlock e) = false) → 0 ≤ lba → follows good eq (dread lba buf) (dread lba buf).
Proof.
  intros Hg Hl d x r d' Ha. unfold dread. destruct (read_sector lba buf d) as [[r1 b] d1] eqn:E.
  pose proof (alike_read d x lba buf r1 b d1 Ha Hl E) as Hr. destruct r1 as [u|e|]; [| |done].
  - intros [= <- <-]. destruct Hr as (x1 & -> & Ha1). by exists b, x1.
  - intros [= <- <-]. by rewrite Hg.
Qed.

(** ** Finding the volume *)

Definition anything {E} : E → bool := λ _, false.
Definition no_fault (e : Partition.PError) : bool := match e with Partition.BlockErr _ => false | _ => true end.

Lemma find_fat32_follows : follows no_fault eq Partition.find_fat32 Partition.find_fat32.
Proof.
  intros d x r d' Ha. unfold Partition.find_fat32. destruct (read_sector 0 _ d) as [[r1 b] d1] eqn:E.
  pose proof (alike_read d x 0 _ r1 b d1 Ha ltac:(lia) E) as Hr. destruct r1 as [u|e|]; [|by intros [= <- <-]|done].
  destruct Hr as (x' & -> & Ha1). case_match; [intros [= <- <-]; by eexists _, x'|].
  destruct Ha1 as (? & ? & Hc & ?). rewrite Hc. intros [= <- <-]. destruct (Partition.scan_mbr _ _ _ _) as [o|e|]; [by eexists _, x'| |done].
  intros _. by exists x'.
Qed.

Lemma validate_follows : follows anything (λ _ _, True) Gpt.validate_protective_mbr Gpt.validate_protective_mbr.
Proof.
  intros d x r d' Ha. unfold Gpt.validate_protective_mbr. destruct (read_sector 0 _ d) as [[r1 b] d1] eqn:E.
  pose proof (alike_read d x 0 _ r1 b d1 Ha ltac:(lia) E) as Hr. destruct r1 as [u|e|]; [|by intros [= <- <-]|done].
  destruct Hr as (x' & -> & Ha1). case_match; [by intros [= <- <-]|]. case_match; intros [= <- <-]; [by eexists _, x'|done].
Qed.
Lemma crc_follows fuel start len consumed state sector : 0 ≤ start →
  follows anything eq (Gpt.entries_crc_loop fuel start len consumed state sector) (Gpt.entries_crc_loop fuel start len consumed state sector).
Proof.
  intros Hs. revert consumed state sector. induction fuel as [|fuel IH]; intros consumed state sector d x r d' Ha; cbn [Gpt.entries_crc_loop];
    (case_match; [|intros [= <- <-]; by eexists _, x]); [by intros [= <- <-]|].
  set (lba := _ / _). destruct (read_sector lba sector d) as [[r1 b] d1] eqn:E.
  pose proof (alike_read d x lba sector r1 b d1 Ha ltac:(subst lba; apply Z.div_pos; [lia|by vm_compute]) E) as Hr.
  destruct r1 as [u|e|]; [|by intros [= <- <-]|done]. destruct Hr as (x' & -> & Ha1). by apply IH.
Qed.
Lemma read_bytes_follows fuel start copied out sector d x u b d' : 0 ≤ start → alike d x →
  Gpt.read_bytes_loop fuel start copied out sector d = (Ok u, b, d') →
  ∃ x', Gpt.read_bytes_loop fuel start copied out sector x = (Ok u, b, x') ∧ alike d' x'.
Proof.
  intros Hs. revert copied out sector d x. induction fuel as [|fuel IH]; intros copied out sector d x Ha; cbn [Gpt.read_bytes_loop];
    (case_match; [|intros [= <- <- <-]; by exists x]); [done|].
  set (lba := _ / _). destruct (read_sector lba sector d) as [[r1 s] d1] eqn:E.
  pose proof (alike_read d x lba sector r1 s d1 Ha ltac:(subst lba; apply Z.div_pos; [lia|by vm_compute]) E) as Hr.
  destruct r1 as [u1|e|]; [|done|done]. destruct Hr as (x' & -> & Ha1). by apply IH.
Qed.
Lemma scan_follows indices es size first last entry sel : 0 ≤ es →
  follows anything eq (Gpt.scan_entries indices es size first last entry sel) (Gpt.scan_entries indices es size first last entry sel).
Proof.
  intros Hs. revert entry sel. induction indices as [|i indices IH]; intros entry sel d x r d' Ha; cbn [Gpt.scan_entries].
  { intros [= <- <-]. by eexists _, x. }
  destruct (Gpt.read_bytes _ _ d) as [[r1 head] d1] eqn:E. destruct r1 as [u|e|]; [|by intros [= <- <-]..].
  assert (0 ≤ es + Z.of_nat (i * size)) as Hp by lia.
  destruct (read_bytes_follows _ _ _ _ _ d x u head d1 Hp Ha E) as (x' & E' & Ha1). fold (Gpt.read_bytes (es + Z.of_nat (i * size)) (take size entry) x) in E'. rewrite E'.
  case_match.
  { exact (IH _ _ d1 x' r d' Ha1). } case_match; [by intros [= <- <-]|]. exact (IH _ _ d1 x' r d' Ha1).
Qed.
Lemma find_gpt_follows : follows anything eq Gpt.find_fat_partition Gpt.find_fat_partition.
Proof.
  intros d x r d' Ha. unfold Gpt.find_fat_partition. destruct (Gpt.validate_protective_mbr d) as [r1 d1] eqn:E1.
  pose proof (validate_follows d x r1 d1 Ha E1) as Hr. destruct r1 as [u|e|]; [|by intros [= <- <-]..].
  destruct Hr as ([] & x1 & -> & _ & Ha1). destruct (read_sector 1 _ d1) as [[r2 header] d2] eqn:E2.
  pose proof (alike_read d1 x1 1 _ r2 header d2 Ha1 ltac:(lia) E2) as Hr. destruct r2 as [u2|e|]; [|by intros [= <- <-]|done].
  destruct Hr as (x2 & -> & Ha2). pose proof Ha2 as (_ & _ & Hc & _). rewrite <-Hc.
  destruct (Gpt.check_header header (sector_count d2)) as [[[[[[es n] size] first] last] crc]|e|] eqn:Eh; [|by intros [= <- <-]..].
  apply Gpt.check_header_spec in Eh as [Hes _]. destruct (Gpt.entries_crc es (n * size) d2) as [r3 d3] eqn:E3.
  pose proof (crc_follows _ _ _ _ _ _ Hes d2 x2 r3 d3 Ha2 E3) as Hr. destruct r3 as [c|e|]; [|by intros [= <- <-]..].
  destruct Hr as (c0 & x3 & E3' & <- & Ha3). fold (Gpt.entries_crc es (n * size) x2) in E3'. rewrite E3'. case_match; [by intros [= <- <-]|].
  exact (scan_follows _ _ _ _ _ _ _ Hes d3 x3 r d' Ha3).
Qed.

(** Volumes that differ in their FSInfo sectors at most, where the second one has
    those of the first. *)
Definition vol_alike (v v0 : Volume) : Prop :=
  total_sectors v = total_sectors v0 ∧ sectors_per_cluster v = sectors_per_cluster v0 ∧ fat_count v = fat_count v0 ∧
  fat_size v = fat_size v0 ∧ root_cluster v = root_cluster v0 ∧ first_fat_sector v = first_fat_sector v0 ∧
  first_data_sector v = first_data_sector v0 ∧ cluster_count v = cluster_count v0 ∧
  (∀ l, fs_info_sector v = Some l → fs_info_sector v0 = Some l) ∧
  ∀ l, backup_fs_info_sector v = Some l → backup_fs_info_sector v0 = Some l.

Definition info_alike (o o0 : option Z) : Prop := ∀ l, o = Some l → o0 = Some l.
Lemma info_follows good lba reserved : 0 ≤ lba → follows good info_alike (valid_fs_info_sector lba reserved) (valid_fs_info_sector lba reserved).
Proof.
  intros Hl d x r d' Ha. unfold valid_fs_info_sector. case_match; [intros [= <- <-]; by eexists _, x|].
  destruct (read_sector lba _ d) as [[r1 b] d1] eqn:E.
  pose proof (alike_read d x lba _ r1 b d1 Ha Hl E) as Hr. destruct r1 as [u|e|]; [| |done].
  - destruct Hr as (x' & -> & Ha1). intros [= <- <-]. eexists _, x'. split; [done|]. split; [by intros ?|done].
  - destruct (read_sector lba zero_sector x) as [[r0 b0] x'] eqn:E0. pose proof Ha as (_ & Hok0 & _).
    pose proof (read_law x lba _ r0 b0 x' Hok0 Hl E0) as (_ & _ & Hp). intros [= <- <-]. destruct r0; [by eexists _, x'|by eexists _, x'|done].
Qed.
Lemma mount_follows : follows not_fat vol_alike mount mount.
Proof.
  unfold mount. eapply follows_bind; [by apply follows_dread|]. intros s ? <-.
  eapply follows_bind; [apply follows_guard|]. intros _ _ _. cbv zeta. eapply follows_bind; [apply follows_guard|]. intros _ _ _.
  eapply follows_bind; [apply follows_count|]. intros n ? <-. eapply follows_bind; [apply follows_guard|]. intros _ _ _.
  eapply follows_bind; [apply follows_lift|]. intros fs ? [<- _]. eapply follows_bind; [apply follows_lift|]. intros fd ? [<- _].
  do 2 (eapply follows_bind; [apply follows_guard|]; intros _ _ _).
  eapply follows_bind; [apply info_follows, fat_u16_bound|]. intros o1 o2 Ho.
  eapply (follows_bind _ info_alike).
  - case_match; [by apply follows_ret; intros l|]. case_match eqn:E; [|by apply follows_ret; intros l]. apply checked_add_Some in E as [-> _].
    apply info_follows. pose proof (fat_u16_bound s 50). lia.
  - intros o3 o4 Ho'. by apply follows_ret.
Qed.
End follows.

(** ** Reading the volume *)

Section volume.
Context {D D0 : Type} `{BlockDeviceLaws D, Reliable D0} (v : Volume) (G : geometry v).
#[local] Set Default Proof Using "All".
Abbreviation tracks := (follows (D := D) (D0 := D0) anything eq).

Lemma tracks_bind {E A B} (m : M D E A) (m0 : M D0 E A) (f : A → M D E B) f0 :
  tracks m m0 → (∀ a, tracks (f a) (f0 a)) → tracks (m ≫= f) (m0 ≫= f0).
Proof. intros Hm Hf. eapply follows_bind; [exact Hm|]. by intros a ? <-. Qed.
Lemma tracks_lift {E A B} (r : res E A) (f : A → M D E B) f0 :
  (∀ a, r = Ok a → tracks (f a) (f0 a)) → tracks (lift r ≫= f) (lift r ≫= f0).
Proof. intros Hf. eapply follows_bind; [apply follows_lift|]. intros a ? [<- Ha]. by apply Hf. Qed.
Lemma tracks_guard {E B} b (e : E) (f : unit → M D E B) f0 : tracks (f tt) (f0 tt) → tracks (guard_ok b e ≫= f) (guard_ok b e ≫= f0).
Proof. intros Hf. eapply follows_bind; [apply follows_guard|]. by intros [] [] _. Qed.
Lemma tracks_dread {B} lba buf (f : list byte → M D FError B) f0 : 0 ≤ lba → (∀ s, tracks (f s) (f0 s)) →
  tracks (dread lba buf ≫= f) (dread lba buf ≫= f0).
Proof. intros Hl Hf. by apply tracks_bind; [apply follows_dread|]. Qed.
Lemma tracks_ret {E A} (a : A) : tracks (mret a : M D E A) (mret a).
Proof. by apply follows_ret. Qed.
Lemma tracks_fail {E A} (e : E) : tracks (fail e : M D E A) (fail e).
Proof. apply follows_fail. Qed.
Lemma tracks_value {E A} (r : res E A) : tracks (lift r) (lift r).
Proof. eapply follows_sub; [apply follows_lift|done|]. by intros ?? []. Qed.

Lemma lba_nonneg c lba : cluster_lba v c = Ok lba → 0 ≤ lba.
Proof. intros Hl. pose proof (cluster_inside v c lba G Hl). destruct G. lia. Qed.
Lemma next_cluster_tracks c : tracks (next_cluster v c) (next_cluster v c).
Proof.
  unfold next_cluster. apply tracks_lift. intros lba Hl. apply tracks_lift. intros [sector off] Hp.
  apply tracks_dread; [|intros s; cbv zeta].
  - unfold fat_position in Hp. apply res_bind_Ok_inv in Hp as (z & [-> _]%ok_or_Ok%checked_mul_Some & Hp).
    apply res_bind_Ok_inv in Hp as (z & [-> _]%ok_or_Ok%checked_add_Some & Hp). case_match; [done|]. injection Hp as <- <-.
    assert (is_allocatable_cluster v c = true) as Ha%allocatable_spec by (apply cluster_lba_range; eauto). destruct G.
    pose proof (Z.div_pos (c * 4) sector_z). pose proof SECTOR_SIZE_eq. unfold sector_z in *. lia.
  - case_match; [apply tracks_ret|]. apply tracks_guard. apply tracks_lift. intros. apply tracks_ret.
Qed.
Lemma once_tracks c : tracks (advance_chain_once v c) (advance_chain_once v c).
Proof. apply tracks_bind; [apply next_cluster_tracks|intros; apply tracks_ret]. Qed.
Lemma advance_tracks g : tracks (advance v g) (advance v g).
Proof.
  unfold advance. case_match; [apply tracks_ret|]. apply tracks_lift. intros n _. apply tracks_guard.
  apply tracks_bind; [apply once_tracks|]. intros [t|]; [|apply tracks_ret].
  apply tracks_bind; [apply once_tracks|]. intros [h1|]; [|apply tracks_ret].
  apply tracks_bind; [apply once_tracks|]. intros [h|]; [|apply tracks_ret]. case_match; [apply tracks_fail|apply tracks_ret].
Qed.
Lemma sectors_nonneg i : i ∈ sectors_of_cluster v → 0 ≤ i.
Proof. unfold sectors_of_cluster. intros (k & -> & _)%list_elem_of_fmap. lia. Qed.
Lemma read_sectors_tracks offset target idx lba st : 0 ≤ lba → (∀ i, i ∈ idx → 0 ≤ i) →
  tracks (read_sectors offset target idx lba st) (read_sectors offset target idx lba st).
Proof.
  intros Hl. revert st. induction idx as [|i idx IH]; intros st Hi; cbn [read_sectors]; [apply tracks_ret|].
  case_match; [apply tracks_ret|]. apply tracks_bind; [|intros st'; apply IH; intros; apply Hi; by right].
  case_match; [|apply tracks_ret]. assert (0 ≤ i) by (apply Hi; left). apply tracks_dread; [lia|]. intros. apply tracks_ret.
Qed.
Lemma read_chain_tracks offset target room c g st :
  tracks (read_chain v offset target room c g st) (read_chain v offset target room c g st).
Proof.
  revert c g st. induction room as [|room IH]; intros c g st; cbn [read_chain]; (case_match; [apply tracks_ret|]); [apply tracks_fail|].
  apply tracks_lift. intros lba Hl. apply tracks_bind; [apply read_sectors_tracks; [by eapply lba_nonneg|apply sectors_nonneg]|].
  intros st'. case_match; [apply tracks_ret|]. apply tracks_bind; [apply next_cluster_tracks|]. intros [n|]; [|apply tracks_fail].
  apply tracks_bind; [apply advance_tracks|]. intros g'. apply IH.
Qed.
Lemma read_file_at_tracks e offset buf : tracks (read_file_at v e offset buf) (read_file_at v e offset buf).
Proof.
  unfold read_file_at. cbv zeta. case_match; [apply tracks_ret|]. apply tracks_bind; [apply read_chain_tracks|]. intros. apply tracks_ret.
Qed.

Lemma each_sector_tracks {A R} (f : Z → list byte → A → M D FError (walked A R)) f0 idx base buf a :
  0 ≤ base → (∀ i, i ∈ idx → 0 ≤ i) → (∀ l s a, tracks (f l s a) (f0 l s a)) →
  tracks (each_sector f idx base buf a) (each_sector f0 idx base buf a).
Proof.
  intros Hb Hi Hf. revert buf a. induction idx as [|i idx IH]; intros buf a; cbn [each_sector]; [apply tracks_ret|].
  assert (0 ≤ i) by (apply Hi; left). apply tracks_dread; [lia|]. intros s. apply tracks_bind; [apply Hf|].
  intros [a'|r]; [|apply tracks_ret]. apply IH. intros; apply Hi; by right.
Qed.
Lemma walk_tracks {A R} (f : Z → list byte → A → M D FError (walked A R)) f0 fin fin0 room visited c buf a :
  (∀ l s a, tracks (f l s a) (f0 l s a)) → (∀ c a, tracks (fin c a) (fin0 c a)) →
  tracks (walk v f fin room visited c buf a) (walk v f0 fin0 room visited c buf a).
Proof.
  intros Hf Hfin. revert visited c buf a. induction room as [|room IH]; intros visited c buf a; cbn [walk]; [apply tracks_fail|].
  case_match; [apply tracks_fail|]. apply tracks_lift. intros base Hb.
  apply tracks_bind; [apply each_sector_tracks; [by eapply lba_nonneg|apply sectors_nonneg|done]|].
  intros [buf' [a'|r]]; [|apply tracks_ret]. apply tracks_bind; [apply next_cluster_tracks|]. intros [n|]; [apply IH|apply Hfin].
Qed.
Lemma find_in_directory_tracks dir short : tracks (find_in_directory v dir short) (find_in_directory v dir short).
Proof.
  apply walk_tracks; [|intros; apply tracks_fail]. intros _ s _. apply tracks_lift. intros [e| |] _; [apply tracks_ret|apply tracks_ret|apply tracks_fail].
Qed.
Lemma resolve_parts_tracks parts c cur : tracks (resolve_parts v parts c cur) (resolve_parts v parts c cur).
Proof.
  revert c cur. induction parts as [|p parts IH]; intros c cur; cbn [resolve_parts]; [apply tracks_value|].
  apply tracks_lift. intros short _. apply tracks_bind; [apply find_in_directory_tracks|]. intros e. destruct parts; [apply IH|].
  apply tracks_guard, IH.
Qed.
Lemma resolve_path_tracks path : tracks (FatDir.resolve_path v path) (FatDir.resolve_path v path).
Proof.
  unfold FatDir.resolve_path. cbv zeta. apply tracks_guard, tracks_lift. intros parts _. apply tracks_guard, resolve_parts_tracks.
Qed.
Lemma read_volume_page_tracks path offset buf : tracks (read_volume_page v path offset buf) (read_volume_page v path offset buf).
Proof.
  unfold read_volume_page. apply tracks_bind; [apply resolve_path_tracks|]. intros e. apply tracks_guard, read_file_at_tracks.
Qed.
End volume.

(** The FSInfo sectors play no part. *)
Lemma read_volume_page_alike {V} `{BlockDevice V} v v0 path offset buf : vol_alike v v0 →
  read_volume_page (V := V) v path offset buf = read_volume_page v0 path offset buf.
Proof. destruct v, v0. unfold vol_alike. cbn. intros (-> & -> & -> & -> & -> & -> & -> & -> & _). reflexivity. Qed.

Lemma resolve_path_alike {V} `{BlockDevice V} v v0 path : vol_alike v v0 → FatDir.resolve_path (D := V) v path = FatDir.resolve_path v0 path.
Proof. destruct v, v0. unfold vol_alike. cbn. intros (-> & -> & -> & -> & -> & -> & -> & -> & _). reflexivity. Qed.

(** ** Reading a page from the disk *)

Section disk.
Context {D D0 : Type} `{BlockDeviceLaws D, Reliable D0}.
#[local] Set Default Proof Using "All".
Implicit Types d : D.

(** A hybrid MBR: it names a FAT32 partition and protects a GPT.  Reading the MBR
    may fail in one call and not in the next, so the calls may look at either. *)
Definition hybrid {V} `{BlockDevice V} (x : V) : bool :=
  match fst (Partition.find_fat32 x), fst (Gpt.validate_protective_mbr x) with Ok (Some _), Ok _ => true | _, _ => false end.

Lemma alike_touches d x d' x' : alike d x → touches nothing d d' → touches nothing x x' → alike d' x'.
Proof.
  intros (_ & _ & Hc & Hv) (Hok & Hc1 & Hv1) (Hok0 & Hc0 & Hv0). split_and!; [done|done|congruence|].
  intros l. by rewrite Hv1, Hv0, Hv by tauto.
Qed.

Lemma outcome_follows {E E' A A0} (R : A → A0 → Prop) good (m : M D E A) (m0 : M D0 E A0) : follows good R m m0 →
  ∀ d x r d', alike d x → outcome (E' := E') m d = (r, d') →
  match r with
  | Ok (Ok a) => ∃ a0 x', outcome (E' := E') m0 x = (Ok (Ok a0), x') ∧ R a a0 ∧ alike d' x'
  | Ok (Err e) => good e = true → ∃ x', outcome (E' := E') m0 x = (Ok (Err e), x') ∧ alike d' x'
  | Ok Panic | Err _ => False
  | Panic => True
  end.
Proof.
  intros Hm d x r d' Ha. unfold outcome. destruct (m d) as [r1 d1] eqn:E1. pose proof (Hm d x r1 d1 Ha E1) as Hr.
  destruct r1 as [a|e|]; intros [= <- <-]; [| |done].
  - destruct Hr as (a0 & x' & -> & HR & Ha'). by exists a0, x'.
  - intros Hg. destruct (Hr Hg) as (x' & -> & Ha'). by exists x'.
Qed.

Lemma gpt_partition_tracks {E} (failed none : E) d x p d' : alike d x → gpt_partition failed none d = (Ok p, d') →
  ∃ x', gpt_partition failed none x = (Ok p, x') ∧ alike d' x' ∧ is_ok (fst (Gpt.validate_protective_mbr x)) = true.
Proof.
  intros Ha Hr. unfold gpt_partition in *. apply M_bind_Ok_inv in Hr as (o & d1 & Ho & Hr).
  pose proof (outcome_follows eq anything _ _ find_gpt_follows d x _ d1 Ha Ho) as Hx. destruct o as [[q|]|[]|]; try done.
  injection Hr as <- <-. destruct Hx as (o0 & x' & Hx & <- & Ha'). exists x'. rewrite (bind_run _ _ _ _ _ Hx).
  split_and!; [done|done|]. unfold outcome in Hx.
  destruct (Gpt.find_fat_partition x) as [[o1| |] x1] eqn:Eg; [|done..]. unfold Gpt.find_fat_partition in Eg.
  by destruct (Gpt.validate_protective_mbr x) as [[| |] ?].
Qed.

Lemma find_partition_tracks {E} (failed none : E) d x p d' : alike d x → hybrid x = false →
  find_partition false failed none d = (Ok p, d') → ∃ x', find_partition false failed none x = (Ok p, x') ∧ alike d' x'.
Proof.
  intros Ha Hh Hr. unfold find_partition in *. apply M_bind_Ok_inv in Hr as (o & d1 & Ho & Hr).
  pose proof (outcome_follows (E' := E) eq no_fault _ _ find_fat32_follows d x _ d1 Ha Ho) as Hx.
  pose proof Ha as (Hok & Hok0 & _). pose proof (safe_outcome (Er' := E) nothing _ _ (safe_find_fat32 nothing) d Hok) as (Ht & _ & _).
  pose proof (safe_outcome (Er' := E) nothing _ _ (safe_find_fat32 nothing) x Hok0) as (Ht0 & Hnp & HQ).
  rewrite Ho in Ht. cbn in Ht. destruct o as [[q|]|e|]; [| | |done].
  - injection Hr as <- <-. destruct Hx as (? & x' & Hx & <- & Ha'). exists x'. by rewrite (bind_run _ _ _ _ _ Hx).
  - destruct Hx as (? & x' & Hx & <- & Ha'). rewrite (bind_run _ _ _ _ _ Hx).
    destruct (gpt_partition_tracks failed none d1 x' p d' Ha' Hr) as (x2 & ? & ? & _). by exists x2.
  - (* reading the MBR failed: the reliable disk may have an MBR partition *)
    destruct (outcome (E' := E) Partition.find_fat32 x) as [r0 x'] eqn:E0. cbn in *.
    pose proof (alike_touches d x d1 x' Ha Ht Ht0) as Ha'.
    destruct (gpt_partition_tracks failed none d1 x' p d' Ha' Hr) as (x2 & Hx2 & Ha2 & _). exists x2.
    assert (alike d1 x) as Hax by (apply (alike_touches d x); [done|done|by apply touches_refl]).
    destruct (gpt_partition_tracks failed none d1 x p d' Hax Hr) as (_ & _ & _ & Hg).
    unfold hybrid in Hh. destruct (fst (Gpt.validate_protective_mbr x)); [|done..]. unfold outcome in E0.
    destruct (Partition.find_fat32 x) as [[o|e0|] x1] eqn:Ef; injection E0 as <- <-; [| |done].
    + destruct o; [done|]. unfold mbind, M_bind, outcome. by rewrite Ef.
    + unfold mbind, M_bind, outcome. by rewrite Ef.
Qed.
Lemma follows_map_failure {E E' A A0} (f : E → E') (R : A → A0 → Prop) (m : M D E A) m0 :
  follows anything R m m0 → follows anything R (map_failure f m) (map_failure f m0).
Proof.
  intros Hm d x r d' Ha. unfold map_failure. destruct (m d) as [[a|e|] d1] eqn:E1; intros [= <- <-]; [|done..].
  destruct (Hm d x _ _ Ha E1) as (a0 & x' & -> & HR & Ha'). by exists a0, x'.
Qed.
Lemma mounts_follow d x v d' : alike d x → mount d = (Ok v, d') → ∃ v0 x', mount x = (Ok v0, x') ∧ vol_alike v v0 ∧ alike d' x' ∧ geometry v.
Proof.
  intros Ha Hm. destruct (mount_follows d x _ _ Ha Hm) as (v0 & x' & ? & ? & ?). exists v0, x'. split_and!; [done|done|done|].
  destruct Ha as (Hok & _). pose proof (FatVolume.mount_runs d v d' Hok Hm) as Hg. apply Hg.
Qed.
Lemma volume_page_follows d x v v0 path offset buf a d' : alike d x → geometry v → vol_alike v v0 →
  read_volume_page v path offset buf d = (Ok a, d') → ∃ x', read_volume_page v0 path offset buf x = (Ok a, x').
Proof.
  intros Ha Hg Hv Hr. destruct (read_volume_page_tracks v Hg path offset buf d x _ _ Ha Hr) as (? & x' & Hx & <- & _).
  exists x'. by rewrite <-(read_volume_page_alike v v0).
Qed.
End disk.

(** The window on [p] of a disk and of its reliable image. *)
Lemma window_alike {D D0} `{BlockDeviceLaws D, Reliable D0} (d : D) (x : D0) p view : alike d x → placed p →
  Partition.pdevice_new d p = Ok view → Partition.pdevice_new x p = Ok (Partition.mkPDevice x p) ∧
  view = Partition.mkPDevice d p ∧
  alike (H0 := window_laws p (sector_count d)) (H2 := window_laws p (sector_count d)) view (Partition.mkPDevice x p).
Proof.
  intros (Hok & Hok0 & Hc & Hv) Hp Hn. destruct (pdevice_new_Ok d p view Hn Hp) as (-> & Hs & Hle).
  assert (Partition.pdevice_new x p = Ok (Partition.mkPDevice x p)) as ->.
  { unfold Partition.pdevice_new in *. rewrite Hc in Hn. destruct (checked_add _ _ _); [|done]. cbn in *. by case_match. }
  split; [done|]. split; [done|]. unfold alike. split_and!; try done. intros l. apply Hv.
Qed.

Section pages.
Context {D0 : Type} `{Reliable D0}.
#[local] Set Default Proof Using "All".

(** The reliable disk after a call has the partitions it had before. *)
Lemma alike_hybrid (x x' : D0) : alike x' x → hybrid x = false → hybrid x' = false.
Proof.
  intros Ha Hh. destruct (hybrid x') eqn:E; [|done]. unfold hybrid in *.
  destruct (Partition.find_fat32 x') as [[[p|]| |] x1] eqn:E1; cbn in E; try done.
  destruct (Gpt.validate_protective_mbr x') as [[q| |] x2] eqn:E2; cbn in E; try done.
  destruct (find_fat32_follows x' x _ _ Ha E1) as (? & ? & Hx1 & <- & _).
  destruct (validate_follows x' x _ _ Ha E2) as (? & ? & Hx2 & _). rewrite Hx1, Hx2 in Hh. done.
Qed.

Context {D : Type} `{BlockDeviceLaws D}.
Implicit Types d : D.

(** A call that succeeds on a disk that may fail does the same on the reliable
    disk, when its body does on every device. *)
Section on_volume.
Context {E A : Type} (refuse map_mount : FError → E) (failed none : E).
Context (body : ∀ V : Type, BlockDevice V → (∀ E' A', M D E' A' → M V E' A') → Volume → M V E A).
Context (body0 : ∀ V : Type, BlockDevice V → (∀ E' A', M D0 E' A' → M V E' A') → Volume → M V E A).
Context (Hbody : ∀ V V0 (HV : BlockDevice V) (HL : BlockDeviceLaws V) (HV0 : BlockDevice V0) (HL0 : BlockDeviceLaws V0) (HR : Reliable V0)
  inner inner0 v v0, geometry v → vol_alike v v0 → ∀ (s : V) (y : V0) a s', alike s y → body V HV inner v s = (Ok a, s') →
  ∃ y', body0 V0 HV0 inner0 v0 y = (Ok a, y')).

Lemma on_volume_tracks d (x : D0) a d' : alike d x → hybrid x = false →
  on_volume refuse map_mount failed (find_partition false failed none) body d = (Ok a, d') →
  ∃ x', on_volume refuse map_mount failed (find_partition false failed none) body0 x = (Ok a, x').
Proof.
  intros Ha Hh Hr. unfold on_volume in *. apply M_bind_Ok_inv in Hr as (o & d1 & Ho & Hr).
  pose proof (outcome_follows (E' := E) vol_alike not_fat _ _ mount_follows d x _ d1 Ha Ho) as Hx.
  pose proof Ha as (Hok & _). pose proof (safe_outcome (Er' := E) nothing _ _ (safe_mount nothing) d Hok) as (_ & _ & HQ).
  rewrite Ho in HQ. destruct (HQ _ eq_refl) as [Hp Hg]. destruct o as [v|e|]; [| |done].
  - destruct Hx as (v0 & x1 & Hx & Hv & Ha1). rewrite (bind_run _ _ _ _ _ Hx).
    exact (Hbody D D0 _ _ _ _ _ _ _ v v0 (Hg v eq_refl) Hv d1 x1 a d' Ha1 Hr).
  - destruct (not_fat e) eqn:Hnf; [|done]. destruct (Hx eq_refl) as (x1 & Hx1 & Ha1). rewrite (bind_run _ _ _ _ _ Hx1), Hnf.
    assert (hybrid x1 = false) as Hh1.
    { apply (alike_hybrid x); [|done]. destruct Ha as (_ & ? & Hc & Hv), Ha1 as (_ & ? & Hc1 & Hv1).
      pose proof (safe_outcome (Er' := E) nothing _ _ (safe_mount nothing) x) as Ht. rewrite Hx1 in Ht.
      destruct Ht as ((? & Hc2 & Hv2) & _); [done|]. split_and!; [done|done|done|].
      intros l. apply Hv2. tauto. }
    apply M_bind_Ok_inv in Hr as (p & d2 & Hp2 & Hr).
    destruct (find_partition_tracks failed none d1 x1 p d2 Ha1 Hh1 Hp2) as (x2 & Hx2 & Ha2). rewrite (bind_run _ _ _ _ _ Hx2).
    assert (placed p) as Hpl. { pose proof Ha1 as (Hok1 & _).
      pose proof (safe_find_partition false failed none d1 Hok1) as (_ & _ & HQ2). rewrite Hp2 in HQ2. by apply HQ2. }
    unfold in_window in *. destruct (Partition.pdevice_new d2 p) as [view|e2|] eqn:Enew; [|done..].
    destruct (window_alike d2 x2 p view Ha2 Hpl Enew) as (-> & -> & Haw).
    lazymatch type of Hr with context[let '(_, _) := ?m in _] => destruct m as [r view'] eqn:Ew end. injection Hr as -> <-.
    apply M_bind_Ok_inv in Ew as (v & view1 & Hm & Ew). unfold map_failure in Hm.
    destruct (mount (Partition.mkPDevice d2 p)) as [rm vw] eqn:Em. destruct rm as [v1| |]; [|done..]. injection Hm as -> ->.
    pose proof (window_reliable (D := D0) p (sector_count d2)) as Hrel.
    destruct (mounts_follow (H0 := window_laws p (sector_count d2)) (H3 := Hrel) _ _ v view1 Haw Em) as (v0 & w1 & Hw1 & Hv & Haw1 & Hgv).
    destruct (Hbody _ _ _ (window_laws p (sector_count d2)) _ _ Hrel (λ _ _ m, inside m) (λ _ _ m, inside m) v v0 Hgv Hv
      view1 w1 a view' Haw1 Ew) as (w2 & Hw2).
    unfold mbind, M_bind, map_failure. rewrite Hw1. cbn. rewrite Hw2. by eexists.
Qed.
End on_volume.

(** A page read from a disk that may fail is the page the reliable disk has. *)
Lemma read_disk_page_tracks d (x : D0) path offset buf a d' : alike d x → hybrid x = false →
  read_disk_page path offset buf d = (Ok a, d') → ∃ x', read_disk_page path offset buf x = (Ok a, x').
Proof.
  apply on_volume_tracks. intros V V0 HV HL HV0 HL0 HR inner inner0 v v0 Hg Hv s y a1 s' Hs Hr.
  exact (volume_page_follows s y v v0 path offset buf a1 s' Hs Hg Hv Hr).
Qed.
End pages.
