(* ===== verification/StorageFiles.v ===== *)
(** * The files behind the page cache (kernel/src/storage.rs)

    The bytes a file of the volume has, and the cache of its pages: a read
    through the status of the mount, the cache, the dispatch between partitions
    and a disk that may fail delivers those bytes or an error. *)
From stdpp Require Import list.
From S2P Require Import Prelude Config Block VfsPath Fat FatChain FatDir FatSafe FatDirSafe FatRead Storage StorageDevice StorageReads.
From S2P Require Vfs VfsFiles Partition Gpt PageCache.

(** ** What a read of the volume returns *)

(** The volume and the entry of the file at [path]. *)
Definition file_entry {B} `{BlockDevice B} (path : list byte) : M B FError DirectoryEntry :=
  on_volume id id InvalidBootSector (find_partition false InvalidBootSector InvalidBootSector)
    (λ V _ _ v, e ← FatDir.resolve_path v path;
                _ ← guard_ok (negb (FatDir.is_directory_entry e)) NotFound;
                mret e).

Section outcome.
Context {B : Type} `{BlockDevice B}.

(** A dispatch that succeeds with one body succeeds with another that does
    whenever the first one does. *)
Lemma on_volume_both {E A C} (R : A → C → Prop) (refuse map_mount : FError → E) failed find
    (body : ∀ V : Type, BlockDevice V → (∀ E' A', M B E' A' → M V E' A') → Volume → M V E A)
    (body' : ∀ V : Type, BlockDevice V → (∀ E' A', M B E' A' → M V E' A') → Volume → M V E C) b a b' :
  (∀ V HV inner v s a s', body V HV inner v s = (Ok a, s') → ∃ c s'', body' V HV inner v s = (Ok c, s'') ∧ R a c) →
  on_volume refuse map_mount failed find body b = (Ok a, b') →
  ∃ c b'', on_volume refuse map_mount failed find body' b = (Ok c, b'') ∧ R a c.
Proof.
  intros Hb Hr. unfold on_volume in *. apply M_bind_Ok_inv in Hr as (o & b1 & Ho & Hr). rewrite (bind_run _ _ _ _ _ Ho).
  destruct o as [v|e|]; [by eapply Hb| |done]. destruct (not_fat e); [|done].
  apply M_bind_Ok_inv in Hr as (p & b2 & Hp & Hr). rewrite (bind_run _ _ _ _ _ Hp). unfold in_window in *.
  destruct (Partition.pdevice_new b2 p) as [view|e2|]; [|done..].
  lazymatch type of Hr with context[let '(_, _) := ?m in _] => destruct m as [r view'] eqn:E1 end. injection Hr as -> <-.
  apply M_bind_Ok_inv in E1 as (v & view1 & Hm & Hr). rewrite (bind_run _ _ _ _ _ Hm).
  destruct (Hb _ _ _ _ _ _ _ Hr) as (c & s & -> & HR). by exists c, (Partition.device s).
Qed.

(** A read copies the bytes asked for, as far as the file goes. *)
Section copying.
Context {V : Type} `{BlockDevice V} (offset : Z) (target : nat).
Definition copying (st : ReadState) (len : nat) : Prop := (copied st ≤ target)%nat ∧ length (rbuffer st) = len ∧ (target ≤ len)%nat.

Lemma read_sectors_copying idx lba len : ∀ st (s : V) st' s', copying st len →
  read_sectors offset target idx lba st s = (Ok st', s') → copying st' len.
Proof.
  induction idx as [|i idx IH]; intros st s st' s' Hc; cbn [read_sectors]; [by intros [= <- <-]|].
  case_match; [by intros [= <- <-]|]. intros (st1 & s1 & Hr1 & Hr2)%M_bind_Ok_inv. eapply (IH _ _ _ _); [|exact Hr2].
  destruct Hc as (? & ? & ?). case_match; [|by injection Hr1 as <- <-]. apply M_bind_Ok_inv in Hr1 as (sec & s2 & _ & [= <- <-]).
  unfold copying. cbn [copied rbuffer]. set (n := Nat.min _ _). assert (copied st + n ≤ target)%nat as Hn by lia.
  assert (∀ m, length (slice sec m n) ≤ n)%nat as Hs by (intros; unfold slice; rewrite length_take; lia).
  split_and!; [done| |done]. rewrite length_splice; [done|]. specialize (Hs (Z.to_nat (saturating_sub offset (rposition st)))). lia.
Qed.
Lemma read_chain_copying v room len : ∀ c g st (s : V) st' s', copying st len →
  read_chain v offset target room c g st s = (Ok st', s') → copying st' len ∧ copied st' = target.
Proof.
  induction room as [|room IH]; intros c g st s st' s' Hc; cbn [read_chain]; (case_match eqn:E;
    [intros [= <- <-]; split; [done|]; destruct Hc; apply negb_true_iff, Nat.ltb_ge in E; lia|]); [done|].
  intros (lba & s1 & _ & Hr)%M_bind_Ok_inv. apply M_bind_Ok_inv in Hr as (st1 & s2 & Hr1 & Hr).
  pose proof (read_sectors_copying _ _ _ _ _ _ _ Hc Hr1) as Hc1. case_match eqn:E1; [injection Hr as <- <-; split; [done|by apply Nat.eqb_eq]|].
  apply M_bind_Ok_inv in Hr as ([n|] & s3 & _ & Hr); [|done]. apply M_bind_Ok_inv in Hr as (g' & s4 & _ & Hr).
  by eapply IH.
Qed.
End copying.

Lemma read_file_at_count {V} `{BlockDevice V} v e offset buf (s : V) n b s' : read_file_at v e offset buf s = (Ok (n, b), s') →
  n = file_target e offset buf ∧ length b = length buf.
Proof.
  unfold read_file_at. fold (file_target e offset buf). cbv zeta. case_match eqn:E.
  { intros [= <- <- <-]. by apply Nat.eqb_eq in E as ->. }
  intros (st & s1 & Hr & [= <- <- <-])%M_bind_Ok_inv.
  assert (copying (file_target e offset buf) (mkRead 0 0 buf zero_sector) (length buf)) as Hc.
  { unfold copying, file_target. cbn [copied rbuffer]. lia. }
  by destruct (read_chain_copying _ _ _ _ _ _ _ _ _ _ _ Hc Hr) as ((_ & ? & _) & ?).
Qed.
Lemma read_disk_page_count path offset buf (d : B) n b d' : read_disk_page path offset buf d = (Ok (n, b), d') →
  ∃ e d'', file_entry path d = (Ok e, d'') ∧ n = file_target e offset buf ∧ length b = length buf.
Proof.
  intros Hr. unfold read_disk_page in Hr.
  eapply (on_volume_both (λ a e, a.1 = file_target e offset buf ∧ length a.2 = length buf)) in Hr as (e & d'' & He & Hn); [by exists e, d''|].
  intros V HV inner v s [n1 b1] s' Hr'. unfold read_volume_page in Hr'. apply M_bind_Ok_inv in Hr' as (e & s1 & He & Hr').
  apply M_bind_Ok_inv in Hr' as ([] & s2 & Hg & Hr'). exists e, s2.
  rewrite (bind_run _ _ _ _ _ He), (bind_run _ _ _ _ _ Hg). split; [done|]. by apply (read_file_at_count v e offset buf _ _ _ _ Hr').
Qed.
End outcome.

(** The entry found on a disk that may fail is the entry the reliable disk has. *)
Lemma file_entry_tracks {D D0} `{BlockDeviceLaws D, Reliable D0} (d : D) (x : D0) path e d' : alike d x → hybrid x = false →
  file_entry path d = (Ok e, d') → ∃ x', file_entry path x = (Ok e, x').
Proof.
  apply on_volume_tracks. intros V V0 HV HL HV0 HL0 HR inner inner0 v v0 Hg Hv s y a1 s' Hs Hr.
  apply M_bind_Ok_inv in Hr as (e1 & s1 & He & Hr). destruct (resolve_path_tracks v Hg path s y _ _ Hs He) as (? & y1 & Hy & <- & _).
  apply M_bind_Ok_inv in Hr as ([] & s2 & Hgd & [= <- <-]). unfold guard_ok in Hgd. case_match eqn:Eg; [|done]. exists y1.
  rewrite <-(resolve_path_alike v v0) by done. rewrite (bind_run _ _ _ _ _ Hy). unfold guard_ok. by rewrite Eg.
Qed.

(** ** The bytes of a file *)

(** What a disk holds. *)
Definition picture_of {D} `{BlockDeviceLaws D} (d : D) : Picture := mkPicture (dev_view d) (sector_count d).
Definition zero_page : list byte := replicate PageCache.PAGE_SIZE x00.
Definition page_start (i : Z) : Z := i * Z.of_nat PageCache.PAGE_SIZE.
Definition page_of (x : Picture) (path : list byte) (i : nat) : list byte :=
  match fst (read_disk_page path (page_start (Z.of_nat i)) zero_page x) with Ok (n, b) => take n b | _ => [] end.
(** The pages of the file one after another, up to the size in its entry; a page
    the volume does not have reads as zeros. *)
Definition file_image (x : Picture) (path : list byte) : list byte :=
  match fst (file_entry path x) with
  | Ok e => take (Z.to_nat (size e))
              (concat ((λ i, resize PageCache.PAGE_SIZE x00 (page_of x path i)) <$> seq 0 (S (Z.to_nat (size e) / PageCache.PAGE_SIZE))))
  | _ => []
  end.
(** The bytes under the keys of the page cache. *)
Definition disk_files (x : Picture) (path : list byte) : list byte :=
  match strip_prefix (bytes "/mnt/") path with Some relative => file_image x relative | None => [] end.

(** A page of pages of one length. *)
Lemma concat_page {A} n (ls : list (list A)) i l : Forall (λ l, length l = n) ls → ls !! i = Some l → take n (drop (i * n) (concat ls)) = l.
Proof.
  revert i. induction ls as [|l0 ls IH]; intros i Hf Hi; [done|]. apply Forall_cons in Hf as [Hl Hf]. cbn [concat].
  destruct i as [|i]; cbn in Hi.
  - injection Hi as ->. rewrite drop_0. by rewrite take_app_length' by done.
  - rewrite drop_app_ge by lia. replace (S i * n - length l0)%nat with (i * n)%nat by lia. by apply IH.
Qed.

Lemma image_page (x : Picture) path i n b x' : 0 ≤ i → read_disk_page path (page_start i) zero_page x = (Ok (n, b), x') →
  (n ≤ PageCache.PAGE_SIZE)%nat ∧ length b = PageCache.PAGE_SIZE ∧ take n b = PageCache.page_content (file_image x path) i.
Proof.
  intros Hi Hr. destruct (read_disk_page_count path _ _ x n b x' Hr) as (e & x1 & He & Hn & Hb).
  unfold zero_page in Hb. rewrite length_replicate in Hb. unfold file_target, zero_page, page_start, saturating_sub in Hn. rewrite length_replicate in Hn.
  pose proof PageCache.PAGE_SIZE_eq as HP. split_and!; [lia|done|].
  unfold PageCache.page_content, file_image. rewrite He. cbn [fst]. set (sz := Z.to_nat (size e)).
  rewrite skipn_firstn_comm, firstn_firstn. set (P := PageCache.PAGE_SIZE) in *.
  unfold page_start in *. fold P in Hn |- *.
  replace (Z.to_nat (i * Z.of_nat P)) with (Z.to_nat i * P)%nat by lia.
  assert (n = Nat.min P (sz - Z.to_nat i * P)) as Hn' by lia.
  destruct (decide (n = 0%nat)) as [->|Hpos]; [by rewrite <-Hn'|].
  assert (Z.to_nat i < S (sz / P))%nat as Hlt.
  { apply Nat.lt_succ_r, Nat.div_le_lower_bound; lia. }
  assert (take P (drop (Z.to_nat i * P) (concat ((λ i, resize P x00 (page_of x path i)) <$> seq 0 (S (sz / P))))) = resize P x00 (take n b)) as Hpg.
  { apply concat_page; [apply Forall_fmap, Forall_true; intros; apply length_resize|].
    rewrite list_lookup_fmap, lookup_seq_lt by done. cbn [fmap option_fmap option_map]. unfold page_of. rewrite Nat.add_0_l, Z2Nat.id by done. unfold page_start. by rewrite Hr. }
  replace (Nat.min P (sz - Z.to_nat i * P)) with (Nat.min n P) by lia. rewrite <-firstn_firstn, Hpg.
  assert (length (take n b) = n) as Hl by (rewrite length_take; lia). rewrite resize_ge by lia. by rewrite take_app_length'.
Qed.

(** Disks that hold the same have the same files. *)
Lemma alike_pictures (x y : Picture) : alike x y → hybrid x = false → hybrid y = false → ∀ path, file_image x path = file_image y path.
Proof.
  intros Ha Hx Hy path. assert (alike y x) as Ha' by (destruct Ha as (? & ? & ? & ?); by split_and!).
  unfold file_image. destruct (file_entry path x) as [r x1] eqn:E1, (file_entry path y) as [r' y1] eqn:E2. cbn [fst].
  destruct r as [e|er|].
  - destruct (file_entry_tracks x y path e x1 Ha Hy E1) as (y' & E). rewrite E2 in E. injection E as -> _. do 2 f_equal.
    apply list_fmap_ext. intros i j _. f_equal. unfold page_of.
    destruct (read_disk_page path (page_start (Z.of_nat j)) zero_page x) as [p x2] eqn:P1, (read_disk_page path (page_start (Z.of_nat j)) zero_page y) as [q y2] eqn:P2.
    cbn [fst]. destruct p as [[n b]|ep|].
    + destruct (read_disk_page_tracks x y _ _ _ _ _ Ha Hy P1) as (y3 & P). rewrite P2 in P. injection P as -> _. done.
    + destruct q as [[n b]| |]; [|done..]. by destruct (read_disk_page_tracks y x _ _ _ _ _ Ha' Hx P2) as (x3 & P); rewrite P1 in P.
    + destruct q as [[n b]| |]; [|done..]. by destruct (read_disk_page_tracks y x _ _ _ _ _ Ha' Hx P2) as (x3 & P); rewrite P1 in P.
  - destruct r' as [e'| |]; [|done..]. by destruct (file_entry_tracks y x path e' y1 Ha' Hx E2) as (? & E); rewrite E1 in E.
  - destruct r' as [e'| |]; [|done..]. by destruct (file_entry_tracks y x path e' y1 Ha' Hx E2) as (? & E); rewrite E1 in E.
Qed.

(** ** The loader of the page cache *)

Lemma read_volume_page_safe {V} `{BlockDeviceLaws V} P v path offset buf : geometry v → safe P (read_volume_page v path offset buf) (λ _, True).
Proof.
  intros Hg. eapply safe_seq; [by apply resolve_path_safe|]. intros e _.
  eapply safe_seq; [apply safe_guard|]. intros _ _. by apply read_file_at_safe.
Qed.
Lemma read_disk_page_run {B} `{BlockDeviceLaws B} path offset buf (b : B) : dev_ok b →
  let '(r, b') := read_disk_page path offset buf b in r ≠ Panic ∧ touches nothing b b'.
Proof.
  intros Hok. pose proof (on_volume_run (A := nat * list byte) id id InvalidBootSector InvalidBootSector false (λ _ _, False) (λ _, True)
    (λ V _ _ v, read_volume_page v path offset buf) ltac:(intros; by apply read_volume_page_safe) b Hok) as Hrun. unfold read_disk_page.
  destruct (on_volume _ _ _ _ _ b) as [r b']. destruct Hrun as (Hp & _ & [Ht|(start & v & _ & Ht)]); by split.
Qed.


Section loader.
Context {D : Type} `{BlockDeviceLaws D}.
Implicit Types (o : option D) (k : Storage D).

Definition disk_ok o : Prop := dev_ok o ∧ sector_count o < 2 ^ 64.
Definition unambiguous o : Prop := hybrid (picture_of o) = false.
Lemma picture_alike o : disk_ok o → alike o (picture_of o).
Proof. intros [Hok Hn]. split_and!; [done| |done..]. split; [done|]. intros l Hl. by apply dev_view_length. Qed.


(** The disk holds what [x] shows. *)
Definition holds (x : Picture) o : Prop := disk_ok o ∧ alike o x.
Lemma holds_touches x o o' : holds x o → touches nothing o o' → holds x o'.
Proof.
  intros [[Hok Hn] (_ & Hx & Hc & Hv)] (Hok' & Hc' & Hv'). split; [by split; [|rewrite Hc']|].
  split_and!; [done|done|by rewrite Hc'|]. intros l. rewrite Hv' by tauto. apply Hv.
Qed.
Lemma holds_picture x o : holds x o → alike (picture_of o) x.
Proof. intros [Hd (Hok & Hx & Hc & Hv)]. destruct (picture_alike o Hd) as (_ & Hp & _). by split_and!. Qed.

Lemma load_page_loads x relative : hybrid x = false → PageCache.loads_from (holds x) (load_page relative) (file_image x relative).
Proof.
  intros Hh pg o r buf o' Hpg Hx Hr. unfold load_page in Hr. fold zero_page in Hr.
  pose proof Hx as [[Hok _] Ha]. pose proof (read_disk_page_run relative (pg * Z.of_nat PageCache.PAGE_SIZE) zero_page o Hok) as Hrun.
  destruct (read_disk_page relative _ zero_page o) as [rr oo] eqn:E. destruct Hrun as [Hnp Ht].
  destruct rr as [[n b]|e|]; [| |done]; injection Hr as <- <- <-.
  - destruct (read_disk_page_tracks o x relative _ zero_page (n, b) oo Ha Hh E) as (x' & Hx').
    destruct (image_page x relative pg n b x' Hpg Hx') as (Hn & Hb & Hi).
    split_and!; [by eapply holds_touches|done|done|]. by intros ? [= <-].
  - split_and!; [by eapply holds_touches|apply length_replicate|done|done].
Qed.

(** The cached pages are pages of the files of the disk. *)
Definition fresh k : Prop := PageCache.coherent (disk_files (picture_of (disk k))) (file_pages k).
Lemma coherent_same (f g : list byte → list byte) c : (∀ path, f path = g path) → PageCache.coherent f c → PageCache.coherent g c.
Proof.
  intros Hfg Hc. eapply Forall_impl; [exact Hc|]. intros s Hs. pose proof (PageCache.slot_page f s Hs) as Hp.
  by split; [apply Hs..|rewrite <-Hfg].
Qed.
Lemma fresh_holds x k : holds x (disk k) → hybrid x = false →
  PageCache.coherent (disk_files x) (file_pages k) ↔ unambiguous (disk k) ∧ fresh k.
Proof.
  intros Hx Hh. pose proof (holds_picture x _ Hx) as Ha.
  assert (unambiguous (disk k)) as Hu by (apply (alike_hybrid x); [done|done]).
  assert (∀ path, disk_files (picture_of (disk k)) path = disk_files x path) as He.
  { intros path. unfold disk_files. case_match; [|done]. by apply alike_pictures. }
  split; [|intros [_ Hf]; by eapply coherent_same].
  intros Hc. split; [done|]. unfold fresh. by eapply coherent_same; [intros; symmetry; apply He|].
Qed.
Lemma picture_holds o : disk_ok o → holds (picture_of o) o.
Proof. intros Hd. split; [done|by apply picture_alike]. Qed.

(** A read of a file through the mount, the cache and the disk. *)
Definition file_read (f : list byte) (off : nat) (out : list byte) (r : res Error nat) (out' : list byte) : Prop :=
  match r with
  | Ok n => n = PageCache.read_count f off (length out) ∧ out' = slice f off n ++ drop n out
  | Err _ => length out' = length out
  | Panic => False
  end.
Lemma read_disk_file_run path (off : nat) out k r out' k' : disk_ok (disk k) → unambiguous (disk k) → fresh k →
  read_disk_file path (Z.of_nat off) out k = (r, out', k') →
  file_read (disk_files (picture_of (disk k)) path) off out r out' ∧ holds (picture_of (disk k)) (disk k') ∧
  unambiguous (disk k') ∧ fresh k' ∧ k' = set_pages (file_pages k') (set_disk (disk k') k).
Proof.
  intros Hd Hu Hf. set (x := picture_of (disk k)). pose proof (picture_holds _ Hd) as Hx. fold x in Hx.
  assert (∀ e, (Err e : res Error nat, out, k) = (r, out', k') →
    file_read (disk_files x path) off out r out' ∧ holds x (disk k') ∧ unambiguous (disk k') ∧ fresh k' ∧ k' = set_pages (file_pages k') (set_disk (disk k') k)) as Hrej.
  { intros e [= <- <- <-]. split_and!; try done. by destruct k. }
  unfold read_disk_file. destruct (mnt_mounted k); [|apply Hrej]. destruct (strip_prefix _ path) as [rel|] eqn:Ep; [|apply Hrej].
  destruct (present k); [|apply Hrej]. cbn [negb]. destruct (PageCache.read _ path _ _ _ _) as [[[r1 o1] c1] d1] eqn:E.
  assert (disk_files x path = file_image x rel) as Hfile by (unfold disk_files; by rewrite Ep).
  destruct (PageCache.read_from_exact (disk_files x) (holds x) (load_page rel) path off out (file_pages k) (disk k) r1 o1 c1 d1) as (Hx1 & Hc1 & _ & Hres).
  { rewrite Hfile. by apply load_page_loads. } { done. } { exact Hf. } { exact E. }
  intros [= <- <- <-].
  pose proof (proj1 (fresh_holds x (set_pages c1 (set_disk d1 k)) Hx1 Hu) Hc1) as [Hu1 Hf1].
  split_and!; [|done|done|done|done].
  destruct Hres as [(-> & -> & _)|Hres]; [done|]. unfold PageCache.read_result in Hres. unfold file_read.
  destruct r1; [done|by destruct Hres|done].
Qed.
End loader.

(** ** The contract of the VFS

    The mount keeps what the VFS relies on ([VfsFiles.DiskLaws]).  The states:
    the disk holds what [x] shows, its MBR is not a hybrid one, and the cached
    pages are pages of its files. *)
Section contract.
Context {D : Type} `{BlockDeviceLaws D}.
Implicit Types k : Storage D.

Definition shows_mount (x : Picture) k : Prop :=
  holds x (disk k) ∧ hybrid x = false ∧ PageCache.coherent (disk_files x) (file_pages k).
Record mount_good k : Prop := {
  mg_disk : disk_ok (disk k); mg_unambiguous : unambiguous (disk k); mg_fresh : fresh k }.
Lemma shows_mount_good x k : shows_mount x k → mount_good k.
Proof. intros (Hx & Hh & Hc). destruct (proj1 (fresh_holds x k Hx Hh) Hc). split; [by destruct Hx|done..]. Qed.
Lemma mount_good_shows k : mount_good k → shows_mount (picture_of (disk k)) k.
Proof. intros [Hd Hu Hf]. split; [by apply picture_holds|done]. Qed.

Lemma shown_read x path (off : nat) out k r out' k' : shows_mount x k → read_disk_file path (Z.of_nat off) out k = (r, out', k') →
  file_read (disk_files x path) off out r out' ∧ shows_mount x k' ∧ k' = set_pages (file_pages k') (set_disk (disk k') k).
Proof.
  intros (Hx & Hh & Hc) Hr. destruct (proj1 (fresh_holds x k Hx Hh) Hc) as [Hu Hf].
  destruct (read_disk_file_run path off out k r out' k' (proj1 Hx) Hu Hf Hr) as (Hres & Hx' & Hu' & Hf' & Hk').
  assert (disk_files (picture_of (disk k)) path = disk_files x path) as <-.
  { unfold disk_files. case_match; [|done]. by apply alike_pictures; [apply holds_picture|..]. }
  assert (holds x (disk k')) as Hxk.
  { destruct Hx as [_ (_ & Hxo & Hc0 & Hv0)], Hx' as [Hd' (Hok' & _ & Hc1 & Hv1)]. split; [done|].
    split_and!; [done|done|by rewrite Hc1|]. intros l. rewrite Hv1. apply Hv0. }
  split; [done|]. split; [|done]. split; [done|]. split; [done|]. by apply (fresh_holds x k').
Qed.

#[local, refine] Instance shown_laws (x : Picture) : VfsFiles.DiskLaws (Storage D) := {|
  VfsFiles.disk_good := shows_mount x; VfsFiles.disk_content _ path := Some (disk_files x path) |}.
Proof using H0.
  intros p off buf k r buf' k' Hx. cbn. destruct (read_disk_file p (Z.of_nat off) buf k) as [[r1 b1] k1] eqn:E. intros [= <- <- <-].
  destruct (shown_read x p off buf k r1 b1 k1 Hx E) as (Hr & Hx' & _). set (f := disk_files x p) in *.
  assert (∀ n, PageCache.read_count f off (length buf) = n → length (slice f off n) = n) as Hsl.
  { intros n <-. unfold slice, PageCache.read_count. rewrite length_take, length_drop. lia. }
  split_and!; [by destruct r1| |done|done|].
  - destruct r1 as [n|e|]; [|done..]. destruct Hr as [-> ->]. rewrite length_app, Hsl by done. rewrite length_drop.
    unfold PageCache.read_count. lia.
  - intros c Hc. destruct r1 as [n| |]; simplify_eq/=. destruct Hr as [-> ->]. unfold PageCache.read_count.
    split; [lia|]. exists f. split_and!; [done|lia|]. by rewrite take_app_length' by (by rewrite Hsl).
Defined.
End contract.
