(* ===== verification/StorageEdits.v ===== *)
(** * What the storage service changes on the disk (kernel/src/storage.rs)

    The volume a disk holds, by its contents alone; the sectors a call may
    change; and what stays as it is when only those change: the partition the
    calls look for, and the MBR. *)
From stdpp Require Import list.
From S2P Require Import Prelude Config Block VfsPath Fat FatChain FatDir FatSafe FatDirSafe FatRead Storage StorageDevice StorageReads StorageFiles.
From S2P Require Vfs VfsFiles Partition Gpt PageCache.

(** ** The volume of a disk *)

(** Where the volume of a disk with these contents starts, and the volume. *)
Definition volume_of (x : Picture) : option (Z * Volume) :=
  match fst (mount x) with
  | Ok v => Some (0, v)
  | Err e =>
    if not_fat e then
      match fst (find_partition (E := unit) false tt tt x) with
      | Ok p => match fst (in_window InvalidBootSector p mount x) with Ok v => Some (Partition.start_lba p, v) | _ => None end
      | _ => None
      end
    else None
  | Panic => None
  end.

Section partition.
Context {D : Type} `{BlockDevice D}.
Implicit Types d : D.
Lemma gpt_partition_either {E E'} (failed none : E) (failed' none' : E') d d' p : gpt_partition failed none d = (Ok p, d') →
  gpt_partition failed' none' d = (Ok p, d').
Proof.
  unfold gpt_partition, mbind, M_bind, outcome. destruct (Gpt.find_fat_partition d) as [[[q|]|[]|] d2]; intros Hp; try done.
  by injection Hp as -> ->.
Qed.
Lemma find_partition_either {E E'} strict (failed none : E) (failed' none' : E') d d' p : find_partition strict failed none d = (Ok p, d') →
  find_partition false failed' none' d = (Ok p, d').
Proof.
  unfold find_partition, mbind, M_bind, outcome. destruct (Partition.find_fat32 d) as [[[q|]|e|] d2]; intros Hp; [| | |done].
  - by injection Hp as -> ->.
  - by eapply gpt_partition_either.
  - destruct strict; [done|by eapply gpt_partition_either].
Qed.
End partition.

Section hybrids.
(** Whether an MBR is a hybrid one is up to the first sector. *)
Lemma hybrid_first (x y : Picture) : sectors_of x 0 = sectors_of y 0 → size_of x = size_of y → hybrid x = hybrid y.
Proof.
  intros Hs Hn. unfold hybrid, Partition.find_fat32, Gpt.validate_protective_mbr. cbn. unfold picture_read. rewrite Hn, Hs.
  destruct (negb (Nat.eqb _ SECTOR_SIZE)); [done|]. destruct (_ && _); [|done].
  destruct (negb _ || _); [done|]. cbn [fst snd sector_count picture_device]. rewrite Hn.
  by destruct (Partition.scan_mbr _ _ _ _) as [[p|]| |]; [destruct (any _ _)|..].
Qed.
End hybrids.

Section edits.
Context {D : Type} `{BlockDeviceLaws D}.
Implicit Types (o : option D) (d : D).

(** A call changes nothing, or sectors of the volume: the FATs, the data area and
    the FSInfo sectors. *)
Definition edit o o' : Prop :=
  touches nothing o o' ∨
  ∃ start v, volume_of (picture_of o) = Some (start, v) ∧ 0 ≤ start ∧ geometry v ∧
    touches (λ l, volume_sector v (l - start)) o o'.
Inductive edits : option D → option D → Prop :=
| edits_none o o' : touches nothing o o' → edits o o'
| edits_more o o1 o2 : edit o o1 → edits o1 o2 → edits o o2.

Lemma edit_first o o' : edit o o' → sector_count o' = sector_count o ∧ dev_view o' 0 = dev_view o 0.
Proof.
  intros [(_ & Hc & Hv)|(start & v & _ & Hs & G & _ & Hc & Hv)]; (split; [done|]); apply Hv; [tauto|].
  intros Hl%volume_sector_pos; [lia|done].
Qed.
Lemma edit_ok o o' : edit o o' → dev_ok o'.
Proof. by intros [(? & _)|(? & ? & _ & _ & _ & ? & _)]. Qed.
(** The disk keeps its partitioning. *)
Lemma edit_disk o o' : edit o o' → disk_ok o → unambiguous o → disk_ok o' ∧ unambiguous o'.
Proof.
  intros He [Hok Hn] Hu. destruct (edit_first o o' He) as [Hc Hv]. split; [split; [by eapply edit_ok|by rewrite Hc]|].
  unfold unambiguous in *. rewrite <-Hu. by apply hybrid_first.
Qed.
Lemma edits_disk o o' : edits o o' → dev_ok o → disk_ok o → unambiguous o → disk_ok o' ∧ unambiguous o'.
Proof.
  induction 1 as [o o' Ht|o o1 o2 He _ IH]; intros Hok Hd Hu.
  - apply (edit_disk o o'); [by left|done..].
  - destruct (edit_disk o o1 He Hd Hu) as [Hd1 Hu1]. apply IH; [by eapply edit_ok|done..].
Qed.
Lemma edits_trans o o1 o2 : edits o o1 → edits o1 o2 → edits o o2.
Proof. induction 1; intros; [eapply edits_more; [by left|done]|eapply edits_more; [done|auto]]. Qed.
Lemma edits_one o o' : edit o o' → edits o o'.
Proof. intros He. eapply edits_more; [exact He|]. apply edits_none, touches_refl. by eapply edit_ok. Qed.

(** ** A call on the volume *)

(** *** The volume of a disk, from what a call sees of it *)

Section seen.
Context {B : Type} `{BlockDeviceLaws B} (x : Picture) (Hh : hybrid x = false).
Implicit Types b : B.

Lemma alike_still b b' : alike b x → touches nothing b b' → alike b' x.
Proof. intros Ha Ht. eapply alike_touches; [exact Ha|exact Ht|]. apply touches_refl, Ha. Qed.
Lemma direct_seen b v b' : alike b x → mount b = (Ok v, b') →
  ∃ v0, volume_of x = Some (0, v0) ∧ vol_alike v v0 ∧ geometry v0 ∧ total_sectors v0 ≤ size_of x.
Proof.
  intros Ha Hm. destruct (mounts_follow b x v b' Ha Hm) as (v0 & x' & Hmx & Hv & _). exists v0. unfold volume_of. rewrite Hmx.
  destruct (FatVolume.mount_runs x v0 x') as (G & Hn & _); [apply Ha|exact Hmx|]. done.
Qed.
Lemma partition_seen {E} b0 b1 b2 e strict (failed none : E) p v view b1' : alike b0 x → alike b1 x → alike b2 x →
  fst (mount b0) = Err e → not_fat e = true → find_partition strict failed none b1 = (Ok p, b1') →
  0 < Partition.start_lba p → 0 < Partition.psectors p → Partition.start_lba p + Partition.psectors p ≤ sector_count b2 →
  mount (Partition.mkPDevice b2 p) = (Ok v, view) →
  ∃ v0, volume_of x = Some (Partition.start_lba p, v0) ∧ vol_alike v v0 ∧ geometry v0 ∧ total_sectors v0 ≤ Partition.psectors p.
Proof using Hh.
  intros Ha0 Ha1 Ha2 Hm Hnf Hp Hs Hps Hn Hw. unfold volume_of.
  destruct (mount b0) as [r0 b0'] eqn:E0. cbn in Hm. subst r0.
  destruct (mount_follows b0 x _ _ Ha0 E0 Hnf) as (x1 & -> & _). cbn [fst]. rewrite Hnf.
  pose proof (find_partition_either strict failed none tt tt b1 b1' p Hp) as E3.
  destruct (find_partition_tracks tt tt b1 x p b1' Ha1 Hh E3) as (x2 & -> & _). cbn [fst].
  pose proof Ha2 as (Hok2 & Hxo & Hc & Hv2). assert (size_of x < 2 ^ 64) as Hwidth by apply Hxo.
  assert (sector_count b2 = size_of x) as Hsz by (rewrite Hc; done).
  assert (Partition.pdevice_new x p = Ok (Partition.mkPDevice x p)) as Hpx.
  { unfold Partition.pdevice_new. rewrite checked_add_ok by lia. cbn.
    by rewrite !(proj2 (Z.eqb_neq _ _)), (proj2 (Z.ltb_ge _ _)) by lia. }
  unfold in_window. rewrite Hpx.
  assert (alike (H0 := window_laws p (sector_count b2)) (H2 := window_laws p (sector_count b2)) (Partition.mkPDevice b2 p) (Partition.mkPDevice x p)) as Haw.
  { assert (∀ V (HV : BlockDevice V) (HL : BlockDeviceLaws V) (b : V), dev_ok b → sector_count b = sector_count b2 →
      @dev_ok _ _ (window_laws p (sector_count b2)) (Partition.mkPDevice b p)) as Hok.
    { intros V HV HL b Hb Hcb. by split_and!. }
    split; [by apply Hok|]. split; [by apply Hok|]. split; [done|]. intros l. apply Hv2. }
  pose proof (window_reliable (D := Picture) p (sector_count b2)) as Hrel.
  destruct (mounts_follow (H0 := window_laws p (sector_count b2)) (H3 := Hrel) _ _ v view Haw Hw) as (v0 & w1 & Hmx & Hv & _). rewrite Hmx.
  destruct Haw as (_ & Hwo & _). exists v0.
  destruct (FatVolume.mount_runs (H0 := window_laws p (sector_count b2)) _ v0 w1 Hwo Hmx) as (G & Hn0 & _). done.
Qed.
End seen.

(** The volume a call finds is the volume of the disk. *)
Lemma found_volume o start v : disk_ok o → unambiguous o → found o start v →
  ∃ v0, volume_of (picture_of o) = Some (start, v0) ∧ vol_alike v v0 ∧ geometry v0 ∧ 0 ≤ start.
Proof.
  intros Hd Hu [(-> & o' & Hm)|(p & e & o1 & o2 & view & Er & strict & failed & none & Hm & Hnf & Ht1 & Hp & Ht2 & -> & Hs & Hps & Hn & Hw)];
    pose proof (picture_alike o Hd) as Hx.
  - destruct (direct_seen _ o v o' Hx Hm) as (v0 & ? & ? & ? & _). by exists v0.
  - destruct (partition_seen _ Hu o o1 o2 e strict failed none p v view o2) as (v0 & ? & ? & ? & _); try done.
    + by eapply alike_still.
    + by eapply alike_still.
    + by rewrite Hm.
    + destruct Ht2 as (_ & Hc2 & _). by rewrite Hc2.
    + exists v0. split_and!; [done..|lia].
Qed.

Lemma alike_sectors v v0 l : vol_alike v v0 → volume_sector v l → volume_sector v0 l.
Proof.
  intros (Ht & _ & _ & _ & _ & Hf & _ & _ & Hi & Hb) [Hl|[Hl|Hl]]; [left|right; left|right; right]; [|auto..]. by rewrite <-Hf, <-Ht.
Qed.
Lemma confined_edit o o' : disk_ok o → unambiguous o → confined (volume_sector) o o' → edit o o'.
Proof.
  intros Hd Hu [Ht|(start & v & Hf & Ht)]; [by left|right].
  destruct (found_volume o start v Hd Hu Hf) as (v0 & Hv & Ha & G & Hs). exists start, v0. split_and!; [done..|].
  eapply touches_weaken; [|exact Ht]. intros l. by apply alike_sectors.
Qed.

Section on_volume.
Context {Er A : Type} (refuse map_mount : FError → Er) (failed none : Er) (strict : bool).
Context (body : ∀ V : Type, BlockDevice V → (∀ E' A', M (option D) E' A' → M V E' A') → Volume → M V Er A).
Context (Hbody : ∀ V (HV : BlockDevice V) (HL : BlockDeviceLaws V) inner v, inner_ok inner → geometry v →
  safe (D := V) (volume_sector v) (body V HV inner v) (λ _, True)).

Lemma on_volume_edit o : disk_ok o → unambiguous o →
  let '(r, o') := on_volume refuse map_mount failed (find_partition strict failed none) body o in r ≠ Panic ∧ edit o o'.
Proof using Hbody.
  intros Hd Hu. pose proof (on_volume_run refuse map_mount failed none strict volume_sector (λ _, True) body Hbody o (proj1 Hd)) as Hr.
  destruct (on_volume _ _ _ _ _ o) as [r o']. destruct Hr as (Hp & _ & Hc). split; [done|by apply confined_edit].
Qed.
End on_volume.

(** *** The calls of the service on the disk *)

Definition disk_call {E A} (m : M (option D) E A) : Prop := ∀ o, disk_ok o → unambiguous o →
  let '(r, o') := m o in r ≠ Panic ∧ edit o o'.
Ltac disk_call := intros o Hd Hu; apply on_volume_edit; [|done..]; intros V HV HL inner v _ Hg.
Lemma persist_disk_call path data : disk_call (persist_on_cached_device path data).
Proof. disk_call. by apply safe_map_failure, create_path_file_safe. Qed.
Lemma mkdir_disk_call path : disk_call (mkdir_on_cached_device path).
Proof. disk_call. by apply safe_map_failure, mkdir_path_safe. Qed.
Lemma delete_disk_call path : disk_call (delete_on_cached_device path).
Proof. disk_call. by apply safe_map_failure, delete_path_safe. Qed.
Lemma rename_disk_call old new : disk_call (rename_on_cached_device old new).
Proof. disk_call. by apply safe_map_failure, rename_path_safe. Qed.

(** A call that only reads. *)
Definition disk_query {E A} (m : M (option D) E A) : Prop := ∀ o, dev_ok o →
  let '(r, o') := m o in r ≠ Panic ∧ touches nothing o o'.
Lemma on_volume_query {Er A} refuse map_mount (failed none : Er) strict
  (body : ∀ V : Type, BlockDevice V → (∀ E' A', M (option D) E' A' → M V E' A') → Volume → M V Er A) :
  (∀ V (HV : BlockDevice V) (HL : BlockDeviceLaws V) inner v, inner_ok inner → geometry v →
    safe (D := V) nothing (body V HV inner v) (λ _, True)) →
  disk_query (on_volume refuse map_mount failed (find_partition strict failed none) body).
Proof.
  intros Hbody o Hok. pose proof (on_volume_run refuse map_mount failed none strict (λ _ _, False) (λ _, True) body Hbody o Hok) as Hr.
  destruct (on_volume _ _ _ _ _ o) as [r o']. destruct Hr as (Hp & _ & Hc). split; [done|].
  by destruct Hc as [Hc|(start & v & _ & Hc)].
Qed.
Lemma df_query : disk_query df_on_device.
Proof. apply on_volume_query. intros. by apply safe_map_failure, space_info_safe. Qed.
Lemma check_query : disk_query check_on_device.
Proof. apply on_volume_query. intros. by eapply safe_map_failure, safe_any, check_volume_safe. Qed.
Lemma flush_query {E} (f : Error → E) : disk_query (map_failure f (λ o, flush o)).
Proof.
  intros o Hok. destruct (safe_map_failure nothing f (λ o, flush o) _ (safe_flush nothing) o Hok) as (Ht & Hp & _).
  by destruct (map_failure _ _ o) as [r o'].
Qed.
End edits.
