(* ===== verification/StorageCalls.v ===== *)
(** * The calls of the storage service (kernel/src/storage.rs)

    Every call, on the state of the VFS with this service under it: none panics,
    each keeps the tree of the VFS, the contract of the disk and the freshness
    of the cached pages, and changes the disk only inside its volume. *)
From stdpp Require Import list.
From S2P Require Import Prelude Config Block VfsPath Fat FatChain FatDir FatSafe FatDirSafe Storage StorageDevice StorageReads StorageFiles StorageEdits.
From S2P Require Vfs VfsTree VfsFiles Partition Gpt PageCache.

Section calls.
Context {F D : Type} `{VfsFiles.FramesLaws F, BlockDeviceLaws D}.
#[local] Set Default Proof Using "All".
Abbreviation Fs := (Vfs.Fs F (Storage D)).
Implicit Types (s : Fs) (k : Storage D).

(** The states the calls start from and end in. *)
Definition fs_fit s : Prop := VfsFiles.vfs_ok (Vfs.registry s) (Vfs.files s) ∧ mount_good (Vfs.storage s).

(** ** Triples *)

(** [m] does not panic, ends in a fit state and a result in [Q], and edits the
    disk within its volume. *)
Definition fits {E A} (m : M Fs E A) (Q : A → Prop) : Prop := ∀ s, fs_fit s →
  fst (m s) ≠ Panic ∧ (∀ a, fst (m s) = Ok a → Q a) ∧ fs_fit (snd (m s)) ∧ edits (disk_of s) (disk_of (snd (m s))).

Lemma edits_refl s : fs_fit s → edits (disk_of s) (disk_of s).
Proof. intros [_ [[Hok _] _ _]]. apply edits_none, touches_refl, Hok. Qed.
Lemma fits_ret {E A} (a : A) (Q : A → Prop) : Q a → fits (E := E) (mret a) Q.
Proof. intros HQ s Hs. split_and!; [done|by intros a' [= <-]|done..|by apply edits_refl]. Qed.
Lemma fits_fail {E A} (e : E) (Q : A → Prop) : fits (fail e) Q.
Proof. intros s Hs. split_and!; [done..|by apply edits_refl]. Qed.
Lemma fits_lift {E A} (r : res E A) (Q : A → Prop) : r ≠ Panic → (∀ a, r = Ok a → Q a) → fits (lift r) Q.
Proof. intros Hp HQ s Hs. split_and!; [done..|by apply edits_refl]. Qed.
Lemma fits_seq {E A B} (m : M Fs E A) (f : A → M Fs E B) Q R : fits m Q → (∀ a, Q a → fits (f a) R) → fits (m ≫= f) R.
Proof.
  intros Hm Hf s Hs. destruct (Hm s Hs) as (Hp & HQ & Hs1 & He). unfold mbind, M_bind. destruct (m s) as [[a|e|] s1]; cbn in *; [|done..].
  destruct (Hf a (HQ a eq_refl) s1 Hs1) as (? & ? & ? & ?). split_and!; [done..|by eapply edits_trans].
Qed.
Lemma fits_any {E A} (m : M Fs E A) Q : fits m Q → fits m (λ _, True).
Proof. intros Hm s Hs. destruct (Hm s Hs) as (? & _ & ? & ?). by split_and!. Qed.
Lemma fits_guard {E} b (e : E) : fits (guard_ok b e) (λ _, b = true).
Proof. destruct b; [by apply fits_ret|apply fits_fail]. Qed.
Lemma fits_gets {E A} (f : Fs → A) (Q : A → Prop) : (∀ s, fs_fit s → Q (f s)) → fits (E := E) (gets f) Q.
Proof. intros HQ s Hs. split_and!; [done|intros a [= <-]; by apply HQ|done..|by apply edits_refl]. Qed.
Lemma fits_outcome {E E' A} (m : M Fs E A) Q : fits m Q → fits (E := E') (outcome m) (λ r, r ≠ Panic ∧ ∀ a, r = Ok a → Q a).
Proof.
  intros Hm s Hs. destruct (Hm s Hs) as (Hp & HQ & Hs1 & He). unfold outcome. destruct (m s) as [[a|e|] s1]; cbn in *; [| |done].
  - split_and!; [done| |done..]. intros r [= <-]. split; [done|]. intros a' [= <-]. by apply HQ.
  - split_and!; [done| |done..]. by intros r [= <-].
Qed.
Lemma fits_map_failure {E E' A} (f : E → E') (m : M Fs E A) Q : fits m Q → fits (map_failure f m) Q.
Proof.
  intros Hm s Hs. destruct (Hm s Hs) as (Hp & HQ & Hs1 & He). unfold map_failure. destruct (m s) as [[a|e|] s1]; cbn in *; [|done..].
  split_and!; [done| |done..]. intros a' [= <-]. by apply HQ.
Qed.

(** ** Steps *)

(** A change of the storage state that leaves the disk and fresh pages. *)
Lemma fits_storage {E} (f : Storage D → Storage D) : (∀ k, disk (f k) = disk k) →
  (∀ k, file_pages (f k) = file_pages k ∨ file_pages (f k) = PageCache.invalidate (file_pages k)) → fits (E := E) (on_storage f) (λ _, True).
Proof.
  intros Hd Hp s [Hv [Hk Hu Hf]]. set (s' := with_storage f s).
  assert (disk (Vfs.storage s') = disk (Vfs.storage s)) as Hd' by apply Hd.
  assert (fresh (Vfs.storage s')) as Hf'.
  { unfold fresh. rewrite Hd'. destruct (Hp (Vfs.storage s)) as [E1|E1]; cbn; rewrite E1; [done|]. by apply PageCache.invalidate_coherent. }
  change (snd (on_storage f s)) with s'. split_and!; [done|done|split; [done|]|].
  - split; [by rewrite Hd'|unfold unambiguous; by rewrite Hd'|done].
  - unfold disk_of. rewrite Hd'. apply edits_none, touches_refl, Hk.
Qed.
Lemma fits_flag {E} (f : Storage D → Storage D) : (∀ k, disk (f k) = disk k) → (∀ k, file_pages (f k) = file_pages k) →
  fits (E := E) (on_storage f) (λ _, True).
Proof. intros Hd Hp. apply fits_storage; [done|]. intros k. left. apply Hp. Qed.

(** A call that reads the disk. *)
Lemma fits_query {E A} (m : M (option D) E A) : disk_query m → fits (on_disk m) (λ _, True).
Proof.
  intros Hm s [Hv Hk]. pose proof (mount_good_shows _ Hk) as (Hx & Hh & Hc).
  pose proof (Hm (disk_of s) (proj1 (mg_disk _ Hk))) as Hr. unfold on_disk. destruct (m (disk_of s)) as [r o]. cbn. destruct Hr as [Hp Ht].
  split_and!; [done|done| |by apply edits_none]. split; [done|]. eapply (shows_mount_good (picture_of (disk_of s))).
  split; [by eapply holds_touches|done].
Qed.

(** Dropping the cached pages, a call on the disk, and a flush. *)
Definition blank k : Prop := PageCache.invalidate (file_pages k) = file_pages k.
Lemma disk_call_fits {E E'} (m : M (option D) E unit) : disk_call m → ∀ s, fs_fit s → blank (Vfs.storage s) →
  ∃ (r : res E unit) s', outcome (E' := E') (on_disk m) s = (Ok r, s') ∧ r ≠ Panic ∧ fs_fit s' ∧ blank (Vfs.storage s') ∧
    edits (disk_of s) (disk_of s').
Proof.
  intros Hm s [Hv [Hk Hu Hf]] Hpg. pose proof (Hm (disk_of s) Hk Hu) as Hr. unfold outcome, on_disk.
  destruct (m (disk_of s)) as [r o]. destruct Hr as [Hp He]. exists r, (with_disk o s).
  destruct (edit_disk _ _ He Hk Hu) as [Hk' Hu']. split_and!; [by destruct r|done| |done|by apply edits_one].
  split; [done|]. split; [done..|]. unfold fresh. cbn. rewrite <-Hpg. eapply PageCache.invalidate_any, Hf.
Qed.
Lemma query_call {E A} (m : M (option D) E A) : disk_query m → disk_call m.
Proof. intros Hm o [Hok _] _. pose proof (Hm o Hok) as Hr. destruct (m o). destruct Hr. split; [done|by left]. Qed.

Lemma fits_written {E} (failed : E) m : disk_call m → fits (written_through failed m) (λ _, True).
Proof.
  intros Hm s Hs.
  destruct (fits_storage (E := E) invalidate (λ _, eq_refl) (λ _, or_intror eq_refl) s Hs) as (_ & _ & Hs1 & He1). cbn [snd] in *.
  set (s1 := with_storage invalidate s) in *. assert (blank (Vfs.storage s1)) as Hb1 by apply PageCache.invalidate_twice.
  destruct (disk_call_fits (E' := E) m Hm s1 Hs1 Hb1) as (r2 & s2 & E2 & Hp2 & Hs2 & Hb2 & He2).
  destruct (disk_call_fits (E' := E) _ (query_call _ (flush_query (λ _, failed))) s2 Hs2 Hb2) as (r3 & s3 & E3 & Hp3 & Hs3 & _ & He3).
  assert (fits (_ ← lift (match r2 with Ok _ => r3 | r => r end); on_storage mark_mnt_dirty) (λ _ : unit, True)) as Hrest.
  { eapply fits_seq; [apply (fits_lift _ (λ _, True)); [by destruct r2|done]|]. intros _ _.
    apply fits_flag; intros k; unfold mark_mnt_dirty; by case_match. }
  assert (written_through failed m s = (_ ← lift (match r2 with Ok _ => r3 | r => r end); on_storage mark_mnt_dirty) s3) as ->.
  { unfold written_through. change (on_storage invalidate) with (λ s : Fs, (@Ok E unit tt, with_storage invalidate s)).
    unfold mbind at 1, M_bind at 1. cbv beta iota. fold s1. by rewrite (bind_run _ _ _ _ _ E2), (bind_run _ _ _ _ _ E3). }
  destruct (Hrest s3 Hs3) as (Hp & HQ & Hs4 & He4). split; [done|]. split; [done|]. split; [done|].
  eapply edits_trans; [exact He1|]. eapply edits_trans; [exact He2|]. by eapply edits_trans.
Qed.

(** *** Calls of the VFS *)

Lemma holds_both x o o' : holds x o → holds x o' → touches nothing o o'.
Proof.
  intros [_ (_ & _ & Hc & Hv)] [_ (Hok' & _ & Hc' & Hv')]. split_and!; [done|congruence|]. intros l _. by rewrite Hv, Hv'.
Qed.
Lemma fits_vfs {A} (m : M Fs VError A) :
  (∀ x s, VfsFiles.fs_ok (H2 := shown_laws x) s → VfsFiles.safe (H2 := shown_laws x) (m s)) → fits m (λ _, True).
Proof.
  intros Hm s [Hv Hk]. set (x := picture_of (disk_of s)). pose proof (mount_good_shows _ Hk : shows_mount x _) as Hx.
  destruct (Hm x s) as [Hp Hs']; [by split|]. destruct (VfsFiles.fs_disk (H2 := shown_laws x) _ Hs') as (Hx' & Hh & Hc).
  split; [done|]. split; [done|]. split; [split; [apply Hs'|by apply (shows_mount_good x)]|].
  apply edits_none, (holds_both x); [apply Hx|done].
Qed.
Lemma fits_read_all path buf : fits (Vfs.read_all path buf) (λ _, True).
Proof. apply fits_vfs. intros x s. apply (VfsFiles.read_all_safe (H2 := shown_laws x)). Qed.

(** *** Imports: the state of the VFS is the device *)

(** What is known of the state besides the disk: [R] of the cached pages and the
    swap area. *)
Definition around (R : PageCache.PageCache → Swap.State → Prop) s : Prop :=
  VfsFiles.vfs_ok (Vfs.registry s) (Vfs.files s) ∧ R (file_pages (Vfs.storage s)) (swap (Vfs.storage s)).
Lemma around_free R : disk_free (around R).
Proof. by intros o s [? ?]. Qed.
#[local] Instance fs_laws R : BlockDeviceLaws Fs := world_laws (around R) (around_free R).
Abbreviation still R := (safe (D := Fs) (H0 := fs_laws R) nothing).

Lemma fits_import {E A} (m : M Fs E A) Q : (∀ c, still (λ p _, p = c) m Q) → fits m Q.
Proof.
  intros Hm s [Hv Hk]. set (c := file_pages (Vfs.storage s)).
  destruct (Hm c s) as (Ht & Hp & HQ); [by split; [apply Hk|]|]. destruct Ht as ((Hok' & Hv' & Hc') & Hn & Hview).
  assert (touches nothing (disk_of s) (disk_of (snd (m s)))) as Ht by (split_and!; [done|exact Hn|exact Hview]).
  split; [done|]. split; [done|]. split; [|by apply edits_none]. split; [done|]. apply (shows_mount_good (picture_of (disk_of s))).
  destruct (mount_good_shows _ Hk) as (Hx & Hh & Hf). split; [by eapply holds_touches|]. split; [done|]. by rewrite Hc'.
Qed.

(** A call of the VFS that leaves the storage state alone. *)
Lemma still_vfs {E A} R (m : M Fs E A) : (∀ s, VfsFiles.vfs_ok (Vfs.registry s) (Vfs.files s) →
    fst (m s) ≠ Panic ∧ VfsFiles.vfs_ok (Vfs.registry (snd (m s))) (Vfs.files (snd (m s))) ∧ Vfs.storage (snd (m s)) = Vfs.storage s) →
  still R m (λ _, True).
Proof.
  intros Hm s [Hok [Hv Hc]]. destruct (Hm s Hv) as (Hp & Hv' & Hst). split_and!; [|done|done].
  assert (disk_of (snd (m s)) = disk_of s) as Hd by (unfold disk_of; by rewrite Hst).
  split; [|split].
  - change (world_ok (around R) (snd (m s))). split; [by rewrite Hd|]. split; [done|]. by rewrite Hst.
  - change (sector_count (disk_of (snd (m s))) = sector_count (disk_of s)). by rewrite Hd.
  - intros l _. change (dev_view (disk_of (snd (m s))) l = dev_view (disk_of s) l). by rewrite Hd.
Qed.
(** Making a node reads no disk. *)
#[local] Instance no_reads : Vfs.DiskFiles (Storage D) := {| Vfs.read_disk_file _ _ buf k := (Err tt, buf, k) |}.
#[local, refine] Instance no_reads_laws : VfsFiles.DiskLaws (Storage D) := {|
  VfsFiles.disk_good _ := True; VfsFiles.disk_content _ _ := None |}.
Proof using Type. by intros p off buf k r buf' k' _ [= <- <- <-]. Defined.
Lemma tree_only s : VfsFiles.vfs_ok (Vfs.registry s) (Vfs.files s) → VfsFiles.fs_ok (H2 := no_reads_laws) s.
Proof. by split. Qed.
Lemma still_mkdir R path : utf8_valid path = true → still R (Vfs.on_registry (Vfs.mkdir path)) (λ _, True).
Proof.
  intros Hu. apply still_vfs. intros s Hv.
  destruct (VfsFiles.mkdir_safe (H2 := no_reads_laws) path s (tree_only s Hv) Hu) as [Hp Hs'].
  split; [done|]. split; [apply Hs'|]. unfold Vfs.on_registry. by destruct (Vfs.mkdir path (Vfs.registry s)).
Qed.
Lemma create_disk_storage path n w s : Vfs.storage (snd (Vfs.create_disk_file_with_writable path n w s)) = Vfs.storage s.
Proof.
  unfold Vfs.create_disk_file_with_writable, Vfs.require, guard_ok, Vfs.on_registry, Vfs.reg_node, Vfs.put_node, mbind, M_bind.
  destruct (Nat.leb n _); [|done]. cbn. destruct (Vfs.insert path [] w (Vfs.registry s)) as [[i|e|] r]; [|done..]. cbn.
  by destruct (Vfs.nodes r !! i).
Qed.
Lemma still_create R path n w : utf8_valid path = true → still R (Vfs.create_disk_file_with_writable path n w) (λ _, True).
Proof.
  intros Hu. apply still_vfs. intros s Hv.
  destruct (VfsFiles.create_disk_file_safe (H2 := no_reads_laws) path n w s (tree_only s Hv) Hu) as [Hp Hs'].
  split; [done|]. split; [apply Hs'|apply create_disk_storage].
Qed.

Section import.
Context (R : PageCache.PageCache → Swap.State → Prop) {V : Type} `{BlockDeviceLaws V} (inner : ∀ E A, M Fs E A → M V E A).
Context (Hinner : inner_ok (H0 := fs_laws R) inner).
Abbreviation quiet := (safe (D := V) nothing).
Abbreviation any := (λ _, True).

Lemma safe_try {E A} (m : M Fs VError A) : still R m any → quiet (try_vfs (E := E) inner m) (λ r, r ≠ Panic).
Proof.
  intros Hm. unfold try_vfs. apply Hinner. intros s Hs. destruct (safe_outcome (H0 := fs_laws R) (Er' := E) nothing m any Hm s Hs) as (? & ? & HQ).
  split_and!; [done|done|]. intros r Hr. by destruct (HQ r Hr).
Qed.
Lemma safe_import_entry levels prefix wi e st : quiet (import_entry inner levels prefix wi e st) any.
Proof.
  unfold import_entry. destruct st as [mounted children]. case_match; [by apply safe_ret|]. case_match; [by apply safe_ret|].
  case_match eqn:Ep; [|by apply safe_ret].
  assert (utf8_valid l = true) as Hu.
  { apply bind_Some in Ep as (name & _ & Ep). apply bind_Some in Ep as (_ & _ & Ep). apply bind_Some in Ep as (path & _ & Ep).
    apply bind_Some in Ep as ([] & Hg & [= <-]). unfold guard in Hg. by case_match. }
  case_match.
  - eapply safe_seq; [by apply safe_try, still_mkdir|]. intros r Hr.
    eapply (safe_seq nothing _ _ any); [|intros; by apply safe_ret].
    destruct r as [a|[]|]; first [by apply safe_ret|apply safe_fail].
  - case_match; [by apply safe_ret|]. cbv zeta. eapply safe_seq; [by apply safe_try, still_create|]. intros; by apply safe_ret.
Qed.
Lemma safe_import_children f : (∀ cluster path, quiet (f cluster path) any) → ∀ children mounted, quiet (import_children f children mounted) any.
Proof.
  intros Hf. induction children as [|[cluster path] children IH]; intros mounted; cbn [import_children]; [by apply safe_ret|].
  eapply safe_seq; [apply Hf|]. intros n _. apply IH.
Qed.
Lemma safe_flag {E} (f : Storage D → Storage D) : (∀ k, disk (f k) = disk k) → (∀ k, file_pages (f k) = file_pages k) → (∀ k, swap (f k) = swap k) →
  quiet (inner E unit (on_storage f)) any.
Proof.
  intros Hd Hp Hw. apply Hinner. intros s [Hok [Hv Hc]]. split_and!; [|done|done].
  assert (disk_of (with_storage f s) = disk_of s) as Hs by apply Hd.
  change (snd (on_storage f s)) with (with_storage f s). split; [|split].
  - change (world_ok (around R) (with_storage f s)). split; [by rewrite Hs|]. split; [done|]. cbn. by rewrite Hp, Hw.
  - change (sector_count (disk_of (with_storage f s)) = sector_count (disk_of s)). by rewrite Hs.
  - intros l _. change (dev_view (disk_of (with_storage f s)) l = dev_view (disk_of s) l). by rewrite Hs.
Qed.

Context (v : Volume) (G : geometry v).
Lemma safe_import_directory levels wi : ∀ dir prefix, quiet (import_directory inner v levels wi dir prefix) any.
Proof.
  induction levels as [|levels IH]; intros dir prefix; cbn [import_directory];
    (eapply safe_seq; [apply (for_each_entry_safe v G); intros; apply safe_import_entry|]); intros [mounted children] _; [by apply safe_ret|].
  apply safe_import_children. intros. apply IH.
Qed.
Lemma safe_import_listing dir path : quiet (import_listing inner v dir path) any.
Proof.
  unfold import_listing. eapply safe_seq; [by apply (safe_gets nothing is_read_only any)|]. intros ro _.
  eapply safe_seq; [apply safe_map_failure, safe_import_directory|]. intros n _. by apply safe_flag.
Qed.
End import.

(** *** Bringing paths in, and mounting *)

Section still.
Context (R : PageCache.PageCache → Swap.State → Prop).
Abbreviation any := (λ _, True).
Abbreviation quiet_call m := (safe (D := Fs) (H0 := fs_laws R) nothing m any).

Lemma here_inner : inner_ok (H0 := fs_laws R) (H2 := fs_laws R) (λ E A (m : M Fs E A), m).
Proof. by intros ????. Qed.
Lemma still_on_volume {Er A} refuse map_mount (failed none : Er) strict
  (body : ∀ V : Type, BlockDevice V → (∀ E' A', M Fs E' A' → M V E' A') → Volume → M V Er A) :
  (∀ V (HV : BlockDevice V) (HL : BlockDeviceLaws V) inner v, inner_ok (H0 := fs_laws R) inner → geometry v →
    safe (D := V) nothing (body V HV inner v) any) →
  quiet_call (on_volume refuse map_mount failed (find_partition strict failed none) body).
Proof.
  intros Hbody s Hs. pose proof (on_volume_run (H0 := fs_laws R) refuse map_mount failed none strict (λ _ _, False) any body Hbody s Hs) as Hr.
  destruct (on_volume _ _ _ _ _ s) as [r s']. destruct Hr as (Hp & _ & Hc). split_and!; [|done|done].
  by destruct Hc as [Hc|(start & v & _ & Hc)].
Qed.
Lemma still_flag {E} (f : Storage D → Storage D) : (∀ k, disk (f k) = disk k) → (∀ k, file_pages (f k) = file_pages k) → (∀ k, swap (f k) = swap k) →
  quiet_call (on_storage (E := E) f).
Proof. apply (safe_flag R (H3 := fs_device) _ here_inner). Qed.

Lemma still_mkdir_or_exists path : utf8_valid path = true → quiet_call (mkdir_or_exists path).
Proof.
  intros Hu. unfold mkdir_or_exists. eapply safe_seq; [by apply safe_outcome, still_mkdir|].
  intros [i|[]|] [Hp _]; first [by apply safe_ret|apply safe_fail].
Qed.
Lemma still_parent_dirs rest : ∀ scanned, quiet_call (parent_dirs scanned rest).
Proof.
  induction rest as [|b rest IH]; intros scanned; cbn [parent_dirs]; [by apply safe_ret|].
  eapply (safe_seq nothing _ _ any); [|intros; apply IH]. case_match; [|by apply safe_ret].
  eapply safe_seq; [apply safe_guard|]. intros [] Hu. by apply still_mkdir_or_exists.
Qed.
Lemma still_create_parents path : quiet_call (create_parent_dirs path).
Proof. unfold create_parent_dirs. eapply safe_seq; [apply safe_guard|]. intros _ _. apply still_parent_dirs. Qed.

Lemma still_root_listing : quiet_call ensure_root_listing_on_disk.
Proof. apply still_on_volume. intros V HV HL inner v Hi G. by apply (safe_import_listing R). Qed.
Lemma still_ensure relative path : utf8_valid path = true → quiet_call (ensure_on_disk relative path).
Proof.
  intros Hu. apply still_on_volume. intros V HV HL inner v Hi G. unfold import_resolved.
  eapply safe_seq; [by apply safe_map_failure, (resolve_path_safe v G)|]. intros e _.
  eapply safe_seq; [apply Hi, still_create_parents|]. intros _ _. case_match.
  - eapply safe_seq; [by apply Hi, still_mkdir_or_exists|]. intros _ _. by apply (safe_import_listing R).
  - eapply safe_seq; [apply safe_guard|]. intros _ _. eapply safe_seq; [by apply (safe_gets nothing is_read_only any)|]. intros ro _. cbv zeta.
    eapply safe_seq; [by apply (safe_try R inner Hi), still_create|]. intros [a|[]|] Hp; first [by apply safe_ret|apply safe_fail].
Qed.

Lemma safe_mount_device {V} `{BlockDeviceLaws V} inner : inner_ok (H0 := fs_laws R) inner →
  safe (D := V) nothing (mount_device inner) any.
Proof.
  intros Hi. unfold mount_device. eapply safe_seq; [apply safe_map_failure, safe_mount|]. intros v G.
  eapply safe_seq; [by apply (safe_try R inner Hi), still_mkdir|]. intros _ _.
  eapply safe_seq; [by apply (safe_gets nothing is_read_only any)|]. intros ro _.
  by apply safe_map_failure, (safe_import_directory R).
Qed.
(** The swap area may change. *)
Context (Hfree : ∀ p st st', R p st → R p st').
Lemma still_swap_area start limit : quiet_call (configure_swap_area start limit).
Proof.
  unfold configure_swap_area. case_match; [by apply safe_ret|]. intros s [Hok [Hv Hc]]. split_and!; [|done|done].
  split_and!; [|done|done]. split; [done|]. split; [done|]. by eapply Hfree.
Qed.
Lemma still_direct_swap : quiet_call configure_direct_swap.
Proof.
  unfold configure_direct_swap. eapply safe_seq; [apply safe_outcome, safe_mount|]. intros [v|e|] [Hp _]; [|by apply safe_ret|done].
  eapply safe_seq; [by apply (safe_gets nothing sector_count any)|]. intros n _. apply still_swap_area.
Qed.
Lemma still_partition_swap p : placed p → quiet_call (configure_partition_swap p).
Proof.
  intros Hpl. unfold configure_partition_swap.
  eapply safe_seq; [apply safe_outcome, safe_in_window; [done|]; intros n; apply (safe_mount (H0 := window_laws p n))|].
  intros o _. case_match; [|by apply safe_ret]. destruct p0. apply still_swap_area.
Qed.
Lemma still_mount_disk : quiet_call mount_disk.
Proof.
  unfold mount_disk. eapply safe_seq; [apply safe_outcome, (safe_mount_device (λ _ _ m, m) here_inner)|].
  intros [n|status|] [Hp _]; [| |done].
  - eapply safe_seq; [apply still_direct_swap|]. intros _ _. by apply safe_ret.
  - destruct status; try apply safe_fail. eapply safe_seq; [apply safe_find_partition|]. intros p Hpl.
    eapply safe_seq.
    + apply safe_in_window; [done|]. intros n. apply (safe_mount_device (H4 := window_laws p n)). exact (inside_ok p n).
    + intros n _. eapply safe_seq; [by apply still_partition_swap|]. intros _ _. by apply safe_ret.
Qed.
Lemma still_mount {E} : quiet_call (mount_ata_root (E := E)).
Proof.
  unfold mount_ata_root, asks. eapply safe_seq; [by apply (safe_gets nothing (λ s, present (Vfs.storage s)) any)|]. intros here _.
  eapply (safe_seq nothing _ _ any).
  - destruct here; [|by apply safe_ret]. eapply safe_seq; [apply safe_outcome, still_mount_disk|].
    intros [n|status|] [Hp _]; [by apply safe_ret..|done].
  - intros status _. eapply safe_seq; [by apply still_flag|]. intros _ _. by apply safe_ret.
Qed.
End still.

(** ** The calls *)

Abbreviation fine m := (fits m (λ _, True)).
Lemma fits_mount {E} : fine (mount_ata_root (E := E)).
Proof. apply fits_import. intros c. apply still_mount. by intros p st st'. Qed.
Lemma fits_invalidate {E} : fine (on_storage (E := E) invalidate).
Proof. apply fits_storage; [done|by right]. Qed.
Lemma fits_remount {E} : fine (remount_mnt (E := E)).
Proof. unfold remount_mnt. eapply fits_seq; [apply fits_invalidate|]. intros _ _. apply fits_mount. Qed.
Lemma fits_mounted {E} (f : Storage D → E) : fine (while_mounted f).
Proof.
  unfold while_mounted, asks. eapply (fits_seq _ _ (λ _, True)); [by apply fits_gets|]. intros k _.
  case_match; [by apply fits_ret|apply fits_fail].
Qed.
Lemma fits_present {E} (e : E) : fine (while_present e).
Proof. unfold while_present, asks. eapply (fits_seq _ _ (λ _, True)); [by apply fits_gets|]. intros b _. eapply fits_any, fits_guard. Qed.
Lemma fits_relative {E} (e : E) path : fine (fat_relative e path).
Proof. unfold fat_relative. eapply fits_seq; [apply fits_guard|]. intros _ _. by apply fits_ret. Qed.
Lemma fits_writable : fine while_writable.
Proof. unfold while_writable. eapply (fits_seq _ _ (λ _, True)); [by apply fits_gets|]. intros b _. eapply fits_any, fits_guard. Qed.

(** The checks in front of a call, one after the other. *)
Ltac checks := repeat (eapply fits_seq;
  [first [apply fits_guard | apply fits_mounted | apply fits_present | apply fits_relative | apply fits_writable]|intros ? ?]).

Lemma fits_ensure path : utf8_valid path = true → fine (ensure_path path).
Proof.
  intros Hu. unfold ensure_path. case_match.
  - eapply (fits_seq _ _ (λ _, True)); [by apply fits_gets|]. intros o _. eapply fits_any, fits_guard.
  - checks. eapply (fits_seq _ _ (λ _, True)); [by apply fits_gets|]. intros o _. case_match; [by apply fits_ret|]. checks.
    case_match; [|by apply fits_import; intros c; apply still_ensure].
    apply fits_import. intros c. eapply safe_seq; [by apply still_mkdir_or_exists; vm_compute|]. intros _ _. apply still_root_listing.
Qed.
Lemma fits_persist path : fine (persist_path path).
Proof.
  unfold persist_path. checks. eapply fits_seq; [apply fits_map_failure, fits_read_all|]. intros [n data] _. checks.
  apply fits_written, persist_disk_call.
Qed.
Lemma fits_persist_directory path : fine (persist_directory path).
Proof. unfold persist_directory. case_match; [apply fits_mounted|]. checks. apply fits_written, mkdir_disk_call. Qed.
Lemma fits_delete path : fine (delete_path path).
Proof. unfold delete_path. checks. apply fits_written, delete_disk_call. Qed.
Lemma fits_rename old new : fine (rename_path old new).
Proof. unfold rename_path. checks. apply fits_written, rename_disk_call. Qed.
Lemma fits_persist_all paths : ∀ ok failed, fine (persist_all paths ok failed).
Proof.
  induction paths as [|path paths IH]; intros ok failed; cbn [persist_all]; [by apply fits_ret|].
  eapply fits_seq; [apply fits_outcome, fits_persist|]. intros r _. case_match; apply IH.
Qed.
Lemma fits_flush {E} (f : Error → E) : fine (map_failure f (on_disk (λ o, flush o))).
Proof.
  intros s Hs. destruct (fits_query (map_failure f (λ o, flush o)) (flush_query f) s Hs) as (Hp & HQ & Hs' & He).
  unfold on_disk, map_failure in *. by destruct (flush (disk_of s)) as [r o].
Qed.
Lemma fits_raw_flush : fine (on_disk (λ o, flush o)).
Proof.
  intros s Hs. destruct (fits_flush id s Hs) as (Hp & HQ & Hs' & He). unfold on_disk, map_failure in *.
  destruct (flush (disk_of s)) as [r o]. split_and!; [by destruct r|done..].
Qed.
Lemma fits_dirty {E} : fine (on_storage (E := E) mark_mnt_dirty).
Proof. apply fits_flag; intros k; unfold mark_mnt_dirty; by case_match. Qed.
Lemma fits_sync : fine sync_all_mounted.
Proof.
  unfold sync_all_mounted. checks. eapply (fits_seq _ _ (λ _, True)); [by apply fits_gets|]. intros paths _.
  eapply fits_seq; [apply fits_persist_all|]. intros [ok failed] _.
  eapply (fits_seq _ _ (λ _, True)); [by apply fits_gets|]. intros here _.
  eapply (fits_seq _ _ (λ _, True)).
  { case_match; [|by apply fits_ret]. eapply fits_seq; [apply fits_outcome, fits_raw_flush|]. intros r _. by apply fits_ret. }
  intros b _. case_match; [eapply fits_seq; [apply fits_dirty|]; intros _ _; apply fits_fail|].
  eapply fits_seq; [by apply fits_flag|]. intros _ _. eapply fits_seq; [by apply fits_flag|]. intros _ _. by apply fits_ret.
Qed.
Lemma fits_unmount : fine unmount_mnt.
Proof.
  unfold unmount_mnt. checks. eapply fits_seq; [apply fits_map_failure, fits_sync|]. intros _ _.
  eapply fits_seq; [apply fits_invalidate|]. intros _ _. eapply (fits_seq _ _ (λ _, True)); [by apply fits_gets|]. intros here _.
  case_match; [eapply fits_seq; [by apply fits_flag|]; intros _ _; apply fits_fail|].
  eapply fits_seq; [apply fits_flush|]. intros _ _. eapply fits_seq; [by apply fits_flag|]. intros _ _. by apply fits_flag.
Qed.
Lemma fits_df : fine df_mnt.
Proof. unfold df_mnt. checks. apply fits_query, df_query. Qed.
Lemma fits_fscheck : fine fscheck_mnt.
Proof. unfold fscheck_mnt. checks. apply fits_query, check_query. Qed.
Lemma fits_persist_mapping id : fine (persist_mapping id).
Proof.
  assert (∀ path, fine (_ ← guard_ok (utf8_valid path) VfsPath.InvalidPath;
    if under_mnt path then map_failure (λ _, VfsPath.Io) (persist_path path) else mret tt)) as Hrest.
  { intros path. checks. case_match; [|by apply fits_ret]. apply fits_map_failure, fits_persist. }
  intros s Hs. unfold persist_mapping. pose proof (VfsFiles.open_entry_cases (H2 := no_reads_laws) id s (tree_only s (proj1 Hs))) as Hc.
  destruct Hc as [E|(e & n & E & _ & _ & _ & Hi & _)]; rewrite (bind_run _ _ _ _ _ E); [by apply (fits_fail VfsPath.InvalidDescriptor)|].
  rewrite (VfsFiles.bind_reg_node (H2 := no_reads_laws) _ _ _ _ Hi). by apply Hrest.
Qed.
End calls.
