(* ===== verification/StorageImage.v ===== *)
(** * A file of the volume is its chain of clusters (kernel/src/storage.rs, fat32.rs)

    [StorageFiles.file_image] is defined by reading the pages of a file from a
    disk that does not fail.  For a file whose chain is intact these are the
    bytes of its clusters, up to the size in its directory entry. *)
From stdpp Require Import list.
From S2P Require Import Prelude Config Block VfsPath Fat FatChain FatRead FatDir FatSafe FatDirSafe Storage StorageDevice StorageReads StorageFiles StorageEdits.
From S2P Require Vfs VfsTree VfsFiles Partition Gpt PageCache FatVolume.

(** ** Reads of a reliable disk do not fault *)

Section sound.
Context {D : Type} `{Reliable D} (v : Volume) (G : geometry v).
#[local] Set Default Proof Using "All".
Implicit Types x : D.

Definition holds_volume x : Prop := dev_ok x ∧ total_sectors v ≤ sector_count x.
(** [m] does not report a fault of the device. *)
Definition sound {A} (m : M D FError A) (Q : A → Prop) : Prop := ∀ x, holds_volume x →
  (∀ b, fst (m x) ≠ Err (FBlock b)) ∧ (∀ a, fst (m x) = Ok a → Q a) ∧ holds_volume (snd (m x)).
Abbreviation any := (λ _, True).

Lemma sound_ret {A} (a : A) (Q : A → Prop) : Q a → sound (mret a) Q.
Proof. intros HQ x Hx. by split_and!; [|intros a' [= <-]|..]. Qed.
Lemma sound_lift {A} (r : res FError A) : (∀ b, r ≠ Err (FBlock b)) → sound (lift r) (λ a, r = Ok a).
Proof. intros Hr x Hx. by split_and!. Qed.
Lemma sound_fail {A} (e : FError) (Q : A → Prop) : (∀ b, e ≠ FBlock b) → sound (fail e) Q.
Proof. intros He x Hx. split; [|done]. intros b [= Hb]. by apply (He b). Qed.
Lemma sound_guard b e : (∀ b, e ≠ FBlock b) → sound (guard_ok b e) any.
Proof. intros He. destruct b; [by apply sound_ret|by apply sound_fail]. Qed.
Lemma sound_seq {A B} (m : M D FError A) (f : A → M D FError B) Q R : sound m Q → (∀ a, Q a → sound (f a) R) → sound (m ≫= f) R.
Proof.
  intros Hm Hf x Hx. destruct (Hm x Hx) as (He & HQ & Hx'). unfold mbind, M_bind. destruct (m x) as [[a|e|] x']; cbn in *.
  2, 3: split_and!; [intros b|done|done]; try intros [= ->]; by try apply (He b).
  by apply Hf; [apply HQ|].
Qed.
Lemma sound_dread lba buf : 0 ≤ lba < total_sectors v → length buf = SECTOR_SIZE → sound (dread lba buf) (λ s, length s = SECTOR_SIZE).
Proof.
  intros Hl Hb x [Hok Hn]. destruct (reliable x lba buf Hok Hb ltac:(lia)) as [x' E]. unfold dread. rewrite E. cbn.
  pose proof (read_law x lba buf _ _ x' Hok ltac:(lia) E) as ((Hok' & Hc & _) & Hlen & _).
  split_and!; [done|intros s [= <-]; congruence|split; [done|by rewrite Hc]].
Qed.

Lemma sound_cluster_lba c : sound (lift (cluster_lba v c)) (λ lba, cluster_lba v c = Ok lba).
Proof. apply sound_lift. intros b. rewrite cluster_lba_spec by done. by case_match. Qed.
Lemma sound_next c : sound (next_cluster v c) any.
Proof.
  unfold next_cluster. eapply sound_seq; [apply sound_cluster_lba|]. intros lba Hl. eapply sound_seq.
  { apply sound_lift. intros b. unfold fat_position. destruct (checked_mul 64 c 4); [|done]. cbn. destruct (checked_add 64 _ _); [|done]. cbn. by case_match. }
  intros [sector off] (-> & _ & Hs)%fat_position_spec; [|done].
  assert (is_allocatable_cluster v c = true) as Ha by (apply cluster_lba_range; [exact G|by exists lba]).
  pose proof (fat_sector_nonneg v c G Ha). pose proof (geo_total v G). pose proof (geo_clusters v G). pose proof (geo_spc v G).
  eapply sound_seq; [apply sound_dread; [nia|apply length_replicate]|]. intros s _. cbv zeta.
  case_match; [by apply sound_ret|]. eapply sound_seq; [by apply sound_guard|]. intros _ _.
  eapply sound_seq; [apply sound_cluster_lba|]. intros; by apply sound_ret.
Qed.
Lemma sound_advance g : sound (advance v g) any.
Proof.
  assert (∀ c, sound (advance_chain_once v c) any) as Honce.
  { intros c. eapply sound_seq; [apply sound_next|]. intros; by apply sound_ret. }
  unfold advance. case_match; [by apply sound_ret|]. eapply sound_seq; [apply sound_lift; by destruct (checked_add 32 _ _)|]. intros n _.
  eapply sound_seq; [by apply sound_guard|]. intros _ _.
  eapply sound_seq; [apply Honce|]. intros [t|] _; [|by apply sound_ret].
  eapply sound_seq; [apply Honce|]. intros [h1|] _; [|by apply sound_ret].
  eapply sound_seq; [apply Honce|]. intros [h|] _; [|by apply sound_ret]. case_match; [by apply sound_fail|by apply sound_ret].
Qed.
Abbreviation sector_held := (λ st, length (rsector st) = SECTOR_SIZE).
Lemma sound_read_sectors offset target idx lba : (∀ i, i ∈ idx → 0 ≤ lba + i < total_sectors v) → ∀ st, sector_held st →
  sound (read_sectors offset target idx lba st) sector_held.
Proof.
  induction idx as [|i idx IH]; intros Hi st Hs; cbn [read_sectors]; [by apply sound_ret|]. case_match; [by apply sound_ret|].
  eapply (sound_seq _ _ sector_held).
  - case_match; [|by apply sound_ret]. eapply sound_seq; [apply sound_dread; [apply Hi; left|done]|]. intros s Hl. by apply sound_ret.
  - intros st' Hs'. apply IH; [|done]. intros j Hj. apply Hi. by right.
Qed.
Lemma sound_read_chain offset target room : ∀ c g st, sector_held st → sound (read_chain v offset target room c g st) any.
Proof.
  induction room as [|room IH]; intros c g st Hs; cbn [read_chain]; (case_match; [by apply sound_ret|]); [by apply sound_fail|].
  eapply sound_seq; [apply sound_cluster_lba|]. intros lba Hl. eapply sound_seq.
  - apply sound_read_sectors; [|done]. intros i. unfold sectors_of_cluster. intros (k & -> & Hk%elem_of_seq)%list_elem_of_fmap.
    pose proof (cluster_inside v c lba G Hl). pose proof (geo_spc v G). pose proof (geometry_data_pos v G). lia.
  - intros st' Hs'. case_match; [by apply sound_ret|]. eapply sound_seq; [apply sound_next|]. intros [n|] _; [|by apply sound_fail].
    eapply sound_seq; [apply sound_advance|]. intros g' _. by apply IH.
Qed.
Lemma sound_read_file_at e offset buf : sound (read_file_at v e offset buf) any.
Proof.
  unfold read_file_at. cbv zeta. case_match; [by apply sound_ret|].
  eapply sound_seq; [apply sound_read_chain; apply length_replicate|]. intros; by apply sound_ret.
Qed.

(** A read of an intact file, on a disk that does not fail and shows [w]. *)
Lemma reliable_read w e offset buf l x : holds_volume x → (∀ i, dev_view x i = w i) → chain v w (first_cluster e) l → 0 ≤ offset →
  fst (read_file_at v e offset buf x) = file_read_spec (chain_data v w l) e offset buf.
Proof.
  intros Hx Hw Hc Hoff. destruct (sound_read_file_at e offset buf x Hx) as (Hf & _). destruct Hx as [Hok Hn].
  assert (∀ lba, 0 ≤ lba < sector_count x → length (w lba) = SECTOR_SIZE) as Hl by (intros lba Hlba; rewrite <-Hw; by apply dev_view_length).
  destruct (read_file_at_computes v G w (sector_count x) Hl Hn e offset buf l Hc Hoff x (conj Hok (conj eq_refl Hw)))
    as (d1 & Hd1 & [E|[b E]]); rewrite E in *; [done|]. by destruct (Hf b).
Qed.

(** The same through the entry of the file. *)
Lemma volume_page_image w path e offset buf l x x' : holds_volume x → (∀ i, dev_view x i = w i) → chain v w (first_cluster e) l → 0 ≤ offset →
  (e ← FatDir.resolve_path v path; _ ← guard_ok (negb (FatDir.is_directory_entry e)) NotFound; mret e) x = (Ok e, x') →
  fst (read_volume_page v path offset buf x) = file_read_spec (chain_data v w l) e offset buf.
Proof.
  intros [Hok Hn] Hw Hc Hoff Hr. apply M_bind_Ok_inv in Hr as (e1 & x1 & He & Hr). apply M_bind_Ok_inv in Hr as ([] & x2 & Hg & [= -> ->]).
  unfold read_volume_page. rewrite (bind_run _ _ _ _ _ He), (bind_run _ _ _ _ _ Hg).
  destruct (resolve_path_safe v G nothing path x Hok) as ((Hok1 & Hc1 & Hv1) & _). rewrite He in *. cbn in *.
  unfold guard_ok in Hg. destruct (negb _); [|done]. injection Hg as <-.
  apply reliable_read; [by split; [|rewrite Hc1]| |done|done]. intros i. rewrite Hv1 by tauto. apply Hw.
Qed.
End sound.

(** ** The image of an intact file *)

Lemma pages_eq (f g : list byte) : length f = length g →
  (∀ i, 0 ≤ i → PageCache.page_content f i = PageCache.page_content g i) → f = g.
Proof.
  intros Hl Hp. pose proof PageCache.PAGE_SIZE_eq as HP.
  assert (∀ n m, (m ≤ n * PageCache.PAGE_SIZE)%nat → take m f = take m g) as Ht.
  { induction n as [|n IH]; intros m Hm; [by replace m with 0%nat by lia|].
    assert (take (n * PageCache.PAGE_SIZE + PageCache.PAGE_SIZE) f = take (n * PageCache.PAGE_SIZE + PageCache.PAGE_SIZE) g) as Heq.
    { rewrite <-!take_take_drop, (IH (n * PageCache.PAGE_SIZE)%nat) by lia. f_equal. specialize (Hp (Z.of_nat n) ltac:(lia)). unfold PageCache.page_content in Hp.
      by replace (Z.to_nat (Z.of_nat n * Z.of_nat PageCache.PAGE_SIZE)) with (n * PageCache.PAGE_SIZE)%nat in Hp by lia. }
    apply (f_equal (take m)) in Heq. by rewrite !take_take, !Nat.min_l in Heq by lia. }
  specialize (Ht (length f) (length f) ltac:(nia)). rewrite take_ge in Ht by done. by rewrite take_ge in Ht by lia.
Qed.
Lemma length_image x path e x' : file_entry path x = (Ok e, x') → length (file_image x path) = Z.to_nat (size e).
Proof.
  intros He. unfold file_image. rewrite He. cbn [fst]. set (n := Z.to_nat (size e)). set (P := PageCache.PAGE_SIZE).
  assert (0 < P)%nat as HP by (pose proof PageCache.PAGE_SIZE_eq; subst P; lia).
  assert (length (concat ((λ i, resize P x00 (page_of x path i)) <$> seq 0 (S (n / P)))) = S (n / P) * P)%nat as Hl.
  { generalize (S (n / P)) at 1 2. generalize 0%nat. intros s k. revert s. induction k as [|k IH]; intros s; [done|].
    cbn [seq fmap list_fmap concat]. rewrite length_app, length_resize, IH. lia. }
  rewrite length_take, Hl. pose proof (Nat.mul_succ_div_gt n P). lia.
Qed.

(** What [spec] delivers for a page is the page of the contents. *)
Lemma page_of_spec data e i : 0 ≤ i → (Z.to_nat (size e) ≤ length data)%nat →
  ∃ n b, file_read_spec data e (page_start i) zero_page = Ok (n, b) ∧ take n b = PageCache.page_content (take (Z.to_nat (size e)) data) i.
Proof.
  intros Hi Hd. unfold file_read_spec. set (n := file_target e (page_start i) zero_page). cbv zeta.
  pose proof PageCache.PAGE_SIZE_eq as HP.
  assert (n = Nat.min PageCache.PAGE_SIZE (Z.to_nat (size e) - Z.to_nat (page_start i))) as Hn.
  { subst n. unfold file_target, zero_page, page_start, saturating_sub. rewrite length_replicate. lia. }
  unfold PageCache.page_content. fold (page_start i). rewrite skipn_firstn_comm, firstn_firstn, <-Hn.
  destruct (Nat.eqb_spec n 0) as [->|Hpos]; [by eexists _, _|]. rewrite (proj2 (Nat.leb_le _ _)) by lia.
  eexists _, _. split; [done|]. assert (length (slice data (Z.to_nat (page_start i)) n) = n) as Hl by (apply length_slice; lia).
  rewrite <-Hl at 1. rewrite VfsTree.take_splice; [done|]. rewrite Hl. unfold zero_page. rewrite length_replicate. lia.
Qed.

Section chain.
Context (x : Picture) (Hx : picture_ok x) (Hh : hybrid x = false) (start : Z) (v : Volume) (Hv : volume_of x = Some (start, v)).
Context (path : list byte) (e : DirectoryEntry) (l : list Z).
Abbreviation w := (λ i, sectors_of x (start + i)).
Context (He : fst (file_entry path x) = Ok e) (Hc : chain v w (first_cluster e) l).

Lemma disk_page_spec offset : 0 ≤ offset →
  fst (read_disk_page path offset zero_page x) = file_read_spec (chain_data v w l) e offset zero_page.
Proof using All.
  intros Hoff. unfold volume_of in Hv. unfold file_entry, on_volume in He. unfold read_disk_page, on_volume.
  pose proof (safe_mount nothing x Hx) as (Ht & _ & Hg). destruct (mount x) as [[v0|er|] x1] eqn:Em; cbn [fst snd] in *; [| |done].
  - injection Hv as <- ->. pose proof (FatVolume.mount_runs x v x1 Hx Em) as (G & Hn & _). destruct Ht as (Hok1 & Hc1 & Hv1).
    assert (outcome (E' := FError) mount x = (Ok (Ok v), x1)) as Ho by (unfold outcome; by rewrite Em).
    rewrite (bind_run _ _ _ _ _ Ho) in He. rewrite (bind_run _ _ _ _ _ Ho).
    lazymatch type of He with fst (?m x1) = _ => destruct (m x1) as [r x2] eqn:Er end. cbn in He. subst r.
    eapply (volume_page_image v G _ path e offset zero_page l x1 x2); [split; [done|by rewrite Hc1]|intros i; apply Hv1; tauto|exact Hc|done|exact Er].
  - destruct (not_fat er) eqn:Hnf; [|done]. assert (outcome (E' := FError) mount x = (Ok (Err er), x1)) as Ho by (unfold outcome; by rewrite Em).
    rewrite (bind_run _ _ _ _ _ Ho), Hnf in He. rewrite (bind_run _ _ _ _ _ Ho), Hnf.
    lazymatch type of He with fst (?m x1) = _ => destruct (m x1) as [r x2] eqn:Er end. cbn in He. subst r.
    apply M_bind_Ok_inv in Er as (p & x3 & Ep & Er). rewrite (bind_run _ _ _ _ _ Ep).
    assert (alike x1 x) as Ha1 by (apply (alike_still x x); [|done]; by split_and!).
    pose proof (safe_find_partition false InvalidBootSector InvalidBootSector x1) as (Ht3 & _ & Hpl); [by destruct Ha1|]. rewrite Ep in Ht3, Hpl. specialize (Hpl p eq_refl). cbn in Ht3.
    pose proof (alike_still x x1 x3 Ha1 Ht3) as Ha3.
    destruct (find_partition_tracks tt tt x1 x p x3 Ha1 Hh (find_partition_either false _ _ tt tt _ _ _ Ep)) as (xp & Epx). rewrite (proj1 Epx) in Hv. cbn [fst] in Hv.
    unfold in_window in Hv, Er |- *. destruct (Partition.pdevice_new x3 p) as [view|ew|] eqn:Ew; [|done..].
    destruct (window_alike x3 x p view Ha3 Hpl Ew) as (Hnew & -> & Haw). rewrite Hnew in Hv.
    destruct (mount (Partition.mkPDevice x p)) as [rv vx] eqn:Emx. cbn [fst] in Hv. destruct rv as [v1| |]; [|done..]. injection Hv as <- ->.
    lazymatch type of Er with context[let '(_, _) := ?m in _] => destruct m as [r view'] eqn:Ew2 end. injection Er as -> <-.
    apply M_bind_Ok_inv in Ew2 as (v2 & view1 & Hm & Er2). rewrite (bind_run _ _ _ _ _ Hm). unfold map_failure in Hm.
    destruct (mount (Partition.mkPDevice x3 p)) as [rm vw] eqn:Em3. destruct rm as [v3| |]; [|done..]. injection Hm as -> ->.
    set (L := window_laws p (sector_count x3)) in *. pose proof (window_reliable (D := Picture) p (sector_count x3)) as Hrel. fold L in Hrel.
    destruct (mounts_follow (H0 := L) (H3 := Hrel) _ _ v2 view1 Haw Em3) as (v0 & w1 & Hm0 & Hal & Haw1 & _).
    rewrite Emx in Hm0. injection Hm0 as <- <-. rewrite (resolve_path_alike v2 v) in Er2 by done. rewrite (read_volume_page_alike v2 v) by done.
    pose proof Haw as (_ & Hwo & _). pose proof (FatVolume.mount_runs (H0 := L) _ v vx Hwo Emx) as (G & Hn & _).
    destruct (safe_mount (H0 := L) nothing _ Hwo) as ((_ & Hcx & Hvx) & _). rewrite Emx in Hcx, Hvx. cbn [snd] in Hcx, Hvx.
    destruct Haw1 as (Hok1 & _ & Hc1 & Hv1).
    pose proof (volume_page_image (H0 := L) (H1 := Hrel) v G (λ i : Z, sectors_of x (Partition.start_lba p + i)) path e offset zero_page l view1 view') as Hpage.
    destruct (read_volume_page v path offset zero_page view1) as [r vw]. cbn [fst] in *. apply Hpage; [|intros i|exact Hc|done|exact Er2].
    + split; [done|]. by rewrite Hc1, Hcx.
    + rewrite Hv1. rewrite Hvx by tauto. done.
Qed.
End chain.

(** A file whose clusters form a chain that holds its size is that many bytes of
    the chain. *)
Lemma image_chain x start v path e l : picture_ok x → hybrid x = false → volume_of x = Some (start, v) →
  fst (file_entry path x) = Ok e → chain v (λ i, sectors_of x (start + i)) (first_cluster e) l →
  (Z.to_nat (size e) ≤ length (chain_data v (λ i, sectors_of x (start + i)) l))%nat →
  file_image x path = take (Z.to_nat (size e)) (chain_data v (λ i, sectors_of x (start + i)) l).
Proof.
  intros Hx Hh Hv He Hc Hd. destruct (file_entry path x) as [r x'] eqn:Ee. cbn in He. subst r. apply pages_eq.
  - by rewrite (length_image x path e x' Ee), length_take, Nat.min_l.
  - intros i Hi. destruct (page_of_spec _ e i Hi Hd) as (n & b & Hs & Hp).
    assert (0 ≤ page_start i) as Hoff by (unfold page_start; lia).
    pose proof (disk_page_spec x Hx Hh start v Hv path e l ltac:(by rewrite Ee) Hc (page_start i) Hoff) as Hr. rewrite Hs in Hr.
    destruct (read_disk_page path (page_start i) zero_page x) as [r x1] eqn:Er. cbn in Hr. subst r.
    destruct (image_page x path i n b x1 Hi Er) as (_ & _ & <-). exact Hp.
Qed.
