(* ===== verification/StorageKeeps.v ===== *)
(** * What the storage service leaves alone, and syncs (kernel/src/storage.rs)

    The table of open descriptions after a call of the storage service is the
    table before it, whatever the disk does: what [ProcessCalls.MountKeeps] asks
    of the mounted volume, so the reference counts of open files hold for the
    kernel with this volume.  Writing a file keeps the state of the mount, from
    which what the result of a sync says follows: success means that every file
    was written; a file whose name FAT32 cannot store makes every sync fail. *)
From stdpp Require Import list.
From S2P Require Import Prelude Config Block VfsPath Fat FatDir Storage.
From S2P Require Partition Gpt PageCache Swap Vfs Process ProcessRefs ProcessCalls.

(** ** What the reads of a volume leave alone *)

Section reads.
Context {V : Type} `{BlockDevice V} (J : V → Prop).
Context (HJ : ∀ lba buf s, J s → J (snd (read_sector lba buf s))).

(** [m] keeps [J]. *)
Definition kept {E A} (m : M V E A) : Prop := ∀ s, J s → J (snd (m s)).
Lemma kept_ret {E A} (a : A) : kept (E := E) (mret a).
Proof. by intros s. Qed.
Lemma kept_lift {E A} (r : res E A) : kept (lift r).
Proof. by intros s. Qed.
Lemma kept_fail {E A} (e : E) : kept (A := A) (fail e).
Proof. by intros s. Qed.
Lemma kept_gets {E A} (f : V → A) : kept (E := E) (gets f).
Proof. by intros s. Qed.
Lemma kept_guard {E} b (e : E) : kept (guard_ok b e).
Proof. by destruct b; intros s. Qed.
Lemma kept_bind {E A B} (m : M V E A) (f : A → M V E B) : kept m → (∀ a, kept (f a)) → kept (m ≫= f).
Proof.
  intros Hm Hf s Hs. specialize (Hm s Hs). unfold mbind, M_bind. destruct (m s) as [[a|e|] s']; [by apply Hf|done..].
Qed.
Lemma kept_outcome {E E' A} (m : M V E A) : kept m → kept (outcome (E' := E') m).
Proof. intros Hm s Hs. specialize (Hm s Hs). unfold outcome. by destruct (m s) as [[a|e|] s']. Qed.
Lemma kept_map_failure {E E' A} (f : E → E') (m : M V E A) : kept m → kept (map_failure f m).
Proof. intros Hm s Hs. specialize (Hm s Hs). unfold map_failure. by destruct (m s). Qed.
Lemma kept_dread lba buf : kept (dread lba buf).
Proof using HJ. intros s Hs. unfold dread. specialize (HJ lba buf s Hs). by destruct (read_sector lba buf s) as [[[]]]. Qed.
End reads.

(** One step of such a proof: a bind, a case, or a known computation. *)
#[local] Create HintDb kept discriminated.
#[local] Hint Resolve kept_ret kept_lift kept_fail kept_gets kept_guard kept_outcome kept_map_failure kept_dread : kept.
Ltac keeping := repeat first
  [ progress intros
  | progress cbv zeta
  | apply kept_bind
  | solve [auto with kept]
  | match goal with |- context[match ?x with _ => _ end] => destruct x end ].

Section volume.
Context {V : Type} `{BlockDevice V} (J : V → Prop) (HJ : ∀ lba buf s, J s → J (snd (read_sector lba buf s))).
#[local] Set Default Proof Using "All".
#[local] Hint Resolve HJ : kept.
Abbreviation kept := (kept J).

Lemma kept_info lba reserved : kept (valid_fs_info_sector lba reserved).
Proof.
  intros s Hs. unfold valid_fs_info_sector. case_match; [done|]. specialize (HJ lba zero_sector s Hs).
  by destruct (read_sector lba zero_sector s) as [[[]]].
Qed.
#[local] Hint Resolve kept_info : kept.
Lemma kept_mount : kept mount.
Proof. unfold mount. keeping.
Qed.
Lemma kept_find_fat32 : kept Partition.find_fat32.
Proof.
  intros s Hs. unfold Partition.find_fat32. pose proof (HJ 0 (replicate SECTOR_SIZE x00) s Hs) as Hs'.
  destruct (read_sector 0 _ s) as [[[]]]; cbn in *; by try case_match.
Qed.
Lemma kept_validate : kept Gpt.validate_protective_mbr.
Proof.
  intros s Hs. unfold Gpt.validate_protective_mbr. pose proof (HJ 0 (replicate SECTOR_SIZE x00) s Hs) as Hs'.
  destruct (read_sector 0 _ s) as [[[]]]; cbn in *; [|done..]. case_match; [done|]. by case_match.
Qed.
Lemma kept_crc fuel start len consumed state sector : kept (Gpt.entries_crc_loop fuel start len consumed state sector).
Proof.
  revert consumed state sector. induction fuel as [|fuel IH]; intros consumed state sector s Hs; cbn [Gpt.entries_crc_loop]; (case_match; [|done]); [done|].
  pose proof (HJ ((start + Z.of_nat consumed) / Z.of_nat SECTOR_SIZE) sector s Hs) as Hs'.
  lazymatch goal with |- context[read_sector ?l ?b s] => pose proof (HJ l b s Hs) as Hs2; destruct (read_sector l b s) as [[[u|er|] b'] s'] end; [by apply IH|done..].
Qed.
Lemma kept_read_bytes fuel start copied out sector s : J s → J (snd (Gpt.read_bytes_loop fuel start copied out sector s)).
Proof.
  revert copied out sector s. induction fuel as [|fuel IH]; intros copied out sector s Hs; cbn [Gpt.read_bytes_loop]; (case_match; [|done]); [done|].
  lazymatch goal with |- context[read_sector ?l ?b s] => pose proof (HJ l b s Hs) as Hs2; destruct (read_sector l b s) as [[[u|er|] b'] s'] end; [by apply IH|done..].
Qed.
Lemma kept_scan indices es size first last : ∀ entry sel, kept (Gpt.scan_entries indices es size first last entry sel).
Proof.
  induction indices as [|i indices IH]; intros entry sel s Hs; cbn [Gpt.scan_entries]; [done|].
  pose proof (kept_read_bytes size (es + Z.of_nat (i * size)) 0 (take size entry) zero_sector s) as Hb.
  lazymatch goal with |- context[Gpt.read_bytes ?p ?o s] => assert (J (snd (Gpt.read_bytes p o s))) as Hs2 by (by apply kept_read_bytes);
    destruct (Gpt.read_bytes p o s) as [[[u|er|] h] s'] end; [|done..].
  repeat case_match; first [done|by apply IH].
Qed.
Lemma kept_find_gpt : kept Gpt.find_fat_partition.
Proof.
  intros s Hs. unfold Gpt.find_fat_partition. pose proof (kept_validate s Hs) as H1. destruct (Gpt.validate_protective_mbr s) as [[u|e|] s1]; [|done..].
  pose proof (HJ 1 (replicate SECTOR_SIZE x00) s1 H1) as H2. destruct (read_sector 1 _ s1) as [[[u2|e2|] header] s2]; [|done..].
  destruct (Gpt.check_header header (sector_count s2)) as [[[[[[es n] size] first] last] crc]|e|]; [|done..].
  pose proof (kept_crc (n * size) es (n * size) 0 0 zero_sector s2) as H3. unfold Gpt.entries_crc.
  lazymatch goal with |- context[Gpt.entries_crc_loop ?f ?st ?l ?c ?x ?y s2] => pose proof (kept_crc f st l c x y s2 H2) as H4;
    destruct (Gpt.entries_crc_loop f st l c x y s2) as [[c4|e4|] s4] end; [|done..].
  case_match; [done|]. by apply kept_scan.
Qed.

(** *** Directories *)

Context (v : Volume).
Lemma kept_next c : kept (next_cluster v c).
Proof. unfold next_cluster. keeping. Qed.
#[local] Hint Resolve kept_next : kept.
Lemma kept_each_entry {A R} (f : nat → A → M V FError (walked A R)) : (∀ off a, kept (f off a)) → ∀ offs a, kept (each_entry f offs a).
Proof. intros Hf offs. induction offs as [|off offs IH]; intros a; cbn [each_entry]; keeping; auto. Qed.
Lemma kept_each_sector {A R} (f : Z → list byte → A → M V FError (walked A R)) : (∀ l s a, kept (f l s a)) →
  ∀ idx base buf a, kept (each_sector f idx base buf a).
Proof. intros Hf idx. induction idx as [|i idx IH]; intros base buf a; cbn [each_sector]; keeping; auto. Qed.
Lemma kept_walk {A R} (f : Z → list byte → A → M V FError (walked A R)) fin : (∀ l s a, kept (f l s a)) → (∀ c a, kept (fin c a)) →
  ∀ room visited c buf a, kept (walk v f fin room visited c buf a).
Proof.
  intros Hf Hfin room. induction room as [|room IH]; intros visited c buf a; cbn [walk]; [apply kept_fail|].
  case_match; [apply kept_fail|]. apply kept_bind; [apply kept_lift|]. intros base.
  apply kept_bind; [by apply kept_each_sector|]. intros [b [a'|r]]; [|apply kept_ret]. apply kept_bind; [apply kept_next|]. intros [n|]; auto.
Qed.
Lemma kept_for_each {A} dir (f : DirectoryEntry → A → M V FError A) a : (∀ e a, kept (f e a)) → kept (for_each_directory_entry v dir f a).
Proof.
  intros Hf. apply kept_walk; [|intros; apply kept_ret]. intros _ s a0. apply kept_each_entry. intros off a1. keeping.
Qed.
Lemma kept_find_in dir short : kept (find_in_directory v dir short).
Proof. apply kept_walk; [|intros; apply kept_fail]. intros _ s a. keeping. Qed.
Lemma kept_resolve_parts parts : ∀ c cur, kept (resolve_parts v parts c cur).
Proof.
  induction parts as [|p parts IH]; intros c cur; cbn [resolve_parts]; [apply kept_lift|].
  apply kept_bind; [apply kept_lift|]. intros short. apply kept_bind; [apply kept_find_in|]. intros e.
  destruct parts; [apply IH|]. apply kept_bind; [apply kept_guard|]. intros _. apply IH.
Qed.
Lemma kept_resolve path : kept (FatDir.resolve_path v path).
Proof.
  unfold FatDir.resolve_path. cbv zeta. repeat (apply kept_bind; [first [apply kept_guard|apply kept_lift]|intros ?]). apply kept_resolve_parts.
Qed.
End volume.

(** *** Dispatches *)

Section dispatch.
Context {B : Type} `{BlockDevice B} (J : B → Prop) (HJ : ∀ lba buf s, J s → J (snd (read_sector lba buf s))).
#[local] Set Default Proof Using "All".

Abbreviation inside_J := (λ w : Partition.PartitionDevice B, J (Partition.device w)).
Lemma window_reads lba buf (w : Partition.PartitionDevice B) : inside_J w → inside_J (snd (read_sector lba buf w)).
Proof.
  intros Hw. cbn. unfold Partition.pdevice_read_sector. destruct (Partition.absolute_lba w lba) as [l|e|]; [|done..].
  specialize (HJ l buf _ Hw). by destruct (read_sector l buf (Partition.device w)) as [[]].
Qed.
Lemma kept_in_window {E A} (failed : E) p (m : M (Partition.PartitionDevice B) E A) : kept inside_J m → kept J (in_window failed p m).
Proof using Type.
  intros Hm s Hs. unfold in_window. destruct (Partition.pdevice_new s p) as [view|e|] eqn:E1; [|done..].
  assert (Partition.device view = s) as Hd.
  { unfold Partition.pdevice_new in E1. destruct (checked_add _ _ _); [|done]. cbn in E1. case_match; [done|]. by injection E1 as <-. }
  specialize (Hm view ltac:(cbv beta; by rewrite Hd)). by destruct (m view).
Qed.
Lemma kept_find_partition {E} strict (failed none : E) : kept J (find_partition strict failed none).
Proof.
  assert (kept J (gpt_partition failed none)) as Hg.
  { apply kept_bind; [by apply kept_outcome, kept_find_gpt|]. intros [[p|]|[]|]; first [apply kept_ret|apply kept_fail]. }
  apply kept_bind; [by apply kept_outcome, kept_find_fat32|]. intros [[p|]|e|]; [apply kept_ret|done|case_match; [apply kept_fail|done]|done].
Qed.

(** What [inner] runs keeps [J'] where it keeps [J]. *)
Definition inner_keeps {V} (J' : V → Prop) (inner : ∀ E A, M B E A → M V E A) : Prop := ∀ E A (m : M B E A), kept J m → kept J' (inner E A m).
Lemma inside_keeps : inner_keeps inside_J (λ _ _ m, inside m).
Proof using Type. intros E A m Hm w Hw. unfold inside. specialize (Hm _ Hw). by destruct (m (Partition.device w)). Qed.
Lemma kept_on_volume {Er A} (refuse map_mount : FError → Er) failed none strict
  (body : ∀ V : Type, BlockDevice V → (∀ E' A', M B E' A' → M V E' A') → Volume → M V Er A) :
  (∀ V (HV : BlockDevice V) (J' : V → Prop) inner v, (∀ lba buf s, J' s → J' (snd (read_sector lba buf s))) → inner_keeps J' inner →
    kept J' (body V HV inner v)) →
  kept J (on_volume refuse map_mount failed (find_partition strict failed none) body).
Proof.
  intros Hbody. apply kept_bind; [by apply kept_outcome, kept_mount|]. intros [v|e|]; [|case_match; [|apply kept_fail]|apply kept_lift].
  - apply Hbody; [done|]. by intros ???.
  - apply kept_bind; [apply kept_find_partition|]. intros p. apply kept_in_window.
    apply kept_bind; [by apply kept_map_failure, (kept_mount inside_J window_reads)|]. intros v. apply Hbody; [apply window_reads|apply inside_keeps].
Qed.
End dispatch.

(** ** The calls *)

Section calls.
Context {F D : Type} `{Vfs.Frames F, BlockDevice D}.
Abbreviation Fs := (Vfs.Fs F (Storage D)).
Context (t : list Vfs.OpenFileDescription).
(** The table of open descriptions. *)
Definition table_is (s : Fs) : Prop := Vfs.files s = t.
Abbreviation still := (kept table_is).

Lemma table_reads lba buf s : table_is s → table_is (snd (read_sector lba buf s)).
Proof. cbn. unfold fs_read. by destruct (read_sector lba buf (disk_of s)) as [[]]. Qed.
Lemma still_registry {A} (m : M Vfs.Registry VError A) : still (Vfs.on_registry m).
Proof. intros s Hs. unfold Vfs.on_registry. by destruct (m (Vfs.registry s)). Qed.
Lemma still_storage {E} f : still (on_storage (E := E) f).
Proof. by intros s. Qed.
Lemma still_on_disk {E A} (m : M (option D) E A) : still (on_disk m).
Proof. intros s Hs. unfold on_disk. by destruct (m (disk_of s)). Qed.
Lemma table_create path n w : still (Vfs.create_disk_file_with_writable path n w).
Proof.
  unfold Vfs.create_disk_file_with_writable, Vfs.require. apply kept_bind; [apply kept_guard|]. intros _.
  apply kept_bind; [apply still_registry|]. intros i. apply kept_bind; [by intros s|]. intros n0. apply still_registry.
Qed.
Lemma table_mkdir_or_exists path : still (mkdir_or_exists path).
Proof.
  unfold mkdir_or_exists. apply kept_bind; [by apply kept_outcome, still_registry|]. intros [i|[]|]; first [apply kept_ret|apply kept_fail].
Qed.
Lemma still_parents path : still (create_parent_dirs path).
Proof.
  unfold create_parent_dirs. apply kept_bind; [apply kept_guard|]. intros _. generalize (take 1 path). generalize (drop 1 path).
  intros rest. induction rest as [|b rest IH]; intros scanned; cbn [parent_dirs]; [apply kept_ret|].
  apply kept_bind; [|intros _; apply IH]. case_match; [|apply kept_ret]. apply kept_bind; [apply kept_guard|]. intros _. apply table_mkdir_or_exists.
Qed.

Section import.
Context {V : Type} `{BlockDevice V} (J : V → Prop) (HJ : ∀ lba buf s, J s → J (snd (read_sector lba buf s))).
Context (inner : ∀ E A, M Fs E A → M V E A) (Hinner : inner_keeps table_is J inner) (v : Volume).
Lemma kept_try {E A} (m : M Fs VError A) : still m → kept J (try_vfs (E := E) inner m).
Proof using Hinner. intros Hm. by apply Hinner, kept_outcome. Qed.
Lemma kept_import_entry levels prefix wi e st : kept J (import_entry inner levels prefix wi e st).
Proof using Hinner.
  unfold import_entry. destruct st as [mounted children]. repeat (case_match; [apply kept_ret|]). case_match; [|apply kept_ret]. case_match.
  - apply kept_bind; [apply kept_try, still_registry|]. intros r. apply kept_bind; [|intros; apply kept_ret].
    destruct r as [a|[]|]; first [apply kept_ret|apply kept_fail].
  - case_match; [apply kept_ret|]. cbv zeta. apply kept_bind; [apply kept_try, table_create|]. intros. apply kept_ret.
Qed.
Lemma kept_import_listing dir path : kept J (import_listing inner v dir path).
Proof using Hinner HJ.
  unfold import_listing. apply kept_bind; [apply kept_gets|]. intros ro. apply kept_bind; [|intros n; apply Hinner, still_storage].
  apply kept_map_failure. cbn [import_directory]. apply kept_bind; [|intros []; apply kept_ret].
  apply (kept_for_each J HJ). intros. apply kept_import_entry.
Qed.
End import.

Lemma still_gets {E A} (f : Fs → A) : still (gets (E := E) f).
Proof. apply kept_gets. Qed.
Lemma still_mounted {E} (f : Storage D → E) : still (while_mounted f).
Proof. unfold while_mounted, asks. apply kept_bind; [apply kept_gets|]. intros k. case_match; [apply kept_ret|apply kept_fail]. Qed.
Lemma still_present {E} (e : E) : still (while_present e).
Proof. unfold while_present, asks. apply kept_bind; [apply kept_gets|]. intros b. apply kept_guard. Qed.
Lemma still_relative {E} (e : E) path : still (fat_relative e path).
Proof. unfold fat_relative. apply kept_bind; [apply kept_guard|]. intros _. apply kept_ret. Qed.
Lemma still_written {E} (failed : E) m : still (written_through failed m).
Proof.
  unfold written_through. apply kept_bind; [apply still_storage|]. intros _. apply kept_bind; [apply kept_outcome, still_on_disk|]. intros r.
  apply kept_bind; [apply kept_outcome, still_on_disk|]. intros r'. apply kept_bind; [apply kept_lift|]. intros _. apply still_storage.
Qed.
#[local] Hint Resolve still_gets still_mounted still_present still_relative still_written table_mkdir_or_exists still_parents kept_guard kept_ret kept_fail : still.
Ltac stilling := repeat first
  [ progress intros | solve [auto with still] | progress unfold while_writable, vfs_stat | apply kept_bind | progress unfold while_writable, vfs_stat | case_match ].

Lemma still_persist_directory path : still (persist_directory path).
Proof. unfold persist_directory. stilling.
Qed.
Lemma still_delete path : still (delete_path path).
Proof. unfold delete_path. stilling. Qed.
Lemma still_rename old new : still (rename_path old new).
Proof. unfold rename_path. stilling. Qed.
Lemma table_root_listing : still ensure_root_listing_on_disk.
Proof. apply kept_on_volume; [apply table_reads|]. intros V HV J' inner v HJ' Hi. by apply kept_import_listing. Qed.
Lemma still_ensure_on_disk relative path : still (ensure_on_disk relative path).
Proof.
  apply kept_on_volume; [apply table_reads|]. intros V HV J' inner v HJ' Hi. unfold import_resolved.
  apply kept_bind; [by apply kept_map_failure, kept_resolve|]. intros e. apply kept_bind; [apply Hi, still_parents|]. intros _. case_match.
  - apply kept_bind; [apply Hi, table_mkdir_or_exists|]. intros _. by apply kept_import_listing.
  - apply kept_bind; [apply kept_guard|]. intros _. apply kept_bind; [apply kept_gets|]. intros ro. cbv zeta.
    apply kept_bind; [by apply kept_try, table_create|]. intros [a|[]|]; first [apply kept_ret|apply kept_fail].
Qed.
#[local] Hint Resolve table_root_listing still_ensure_on_disk : still.
Lemma table_ensure path : still (ensure_path path).
Proof. unfold ensure_path. stilling. Qed.
End calls.

(** The kernel's file calls hold with this service mounted. *)
#[export] Instance storage_keeps {F D} `{Vfs.Frames F, BlockDevice D} : ProcessCalls.MountKeeps F (Storage D).
Proof.
  assert (∀ E (m : M (Vfs.Fs F (Storage D)) E unit), (∀ t, kept (table_is t) m) → ProcessRefs.keeps m) as Hk.
  { intros E m Hm s j. by rewrite (Hm (Vfs.files s) s eq_refl). }
  split; intros; apply Hk; intros t; [apply table_ensure|apply still_persist_directory|apply still_delete|apply still_rename].
Qed.

(** ** The state of the mount while files are written *)

Section status.
Context {F D : Type} `{Vfs.Frames F, BlockDevice D}.
#[local] Set Default Proof Using "Type".
Abbreviation Fs := (Vfs.Fs F (Storage D)).
Implicit Types s : Fs.

(** The status of the mount, its generation counts and the swap area. *)
Definition mount_state (k : Storage D) : Z * Z * Z * Swap.State := (mnt_status k, mnt_imported k, mnt_syncs k, swap k).
Definition status_of s := mount_state (Vfs.storage s).
Lemma dirty_state (k : Storage D) : mount_state (mark_mnt_dirty k) = mount_state k.
Proof. unfold mark_mnt_dirty. by destruct (mnt_mounted k). Qed.
Section frame.
Context (c : Z * Z * Z * Swap.State).
Definition status_is s : Prop := status_of s = c.
Abbreviation stays := (kept status_is).

Lemma stays_flag {E} (f : Storage D → Storage D) : (∀ k, mount_state (f k) = mount_state k) → stays (on_storage (E := E) f).
Proof. intros Hf s Hs. unfold status_is, status_of. cbn. by rewrite Hf. Qed.
Lemma stays_on_disk {E A} (m : M (option D) E A) : stays (on_disk m).
Proof. intros s Hs. unfold on_disk. by destruct (m (disk_of s)). Qed.
Lemma stays_files {A} (m : M (list Vfs.OpenFileDescription) VError A) : stays (Vfs.on_files m).
Proof. intros s Hs. unfold Vfs.on_files. by destruct (m (Vfs.files s)). Qed.
Lemma stays_registry {A} (m : M Vfs.Registry VError A) : stays (Vfs.on_registry m).
Proof. intros s Hs. unfold Vfs.on_registry. by destruct (m (Vfs.registry s)). Qed.
Lemma stays_asks {A} (f : Fs → res VError A) : stays (Vfs.asks f).
Proof. by intros s. Qed.
Lemma stays_attempt {E A} (m : M Fs E A) : stays m → stays (attempt m).
Proof. intros Hm s Hs. specialize (Hm s Hs). unfold attempt. by destruct (m s) as [[a|e|] s']. Qed.
Lemma stays_disk_read p off buf : stays (Vfs.disk_read p off buf).
Proof.
  intros s Hs. unfold Vfs.disk_read. cbn [Vfs.read_disk_file storage_files].
  assert (∀ r b k, read_disk_file p (Z.of_nat off) buf (Vfs.storage s) = (r, b, k) → mount_state k = mount_state (Vfs.storage s)) as Hk.
  { intros r b k. unfold read_disk_file. repeat (case_match; [by intros [= <- <- <-]|]). case_match; [|by intros [= <- <- <-]].
    case_match; [by intros [= <- <- <-]|]. repeat case_match. by intros [= <- <- <-]. }
  destruct (read_disk_file p _ buf _) as [[r b] k] eqn:E. specialize (Hk r b k eq_refl). by destruct r; cbn; unfold status_is, status_of; cbn; rewrite Hk.
Qed.
Lemma stays_state {E A} (f : Fs → res E A) : stays (λ s, (f s, s)).
Proof. by intros s. Qed.
#[local] Hint Resolve stays_state stays_on_disk stays_files stays_registry stays_asks stays_attempt stays_disk_read kept_ret kept_lift kept_fail kept_gets kept_guard : stays.
Ltac staying := repeat first
  [ lazymatch goal with |- kept _ _ => fail | |- ∀ _, _ => intro end | progress unfold Vfs.require, Vfs.open_entry, Vfs.reg_node, Vfs.reg_generation, Vfs.live_node, Vfs.put_node 
  | solve [auto with stays] | apply kept_bind | case_match ].

Lemma stays_set_entry id f : stays (Vfs.set_entry id f).
Proof. unfold Vfs.set_entry. staying. Qed.
#[local] Hint Resolve stays_set_entry : stays.
Lemma stays_read_from id pos buf gen : stays (Vfs.read_from id pos buf gen).
Proof. unfold Vfs.read_from, Vfs.fetch. cbv zeta. staying. Qed.
#[local] Hint Resolve stays_read_from : stays.
Lemma stays_close id : stays (Vfs.close_open_file id).
Proof. unfold Vfs.close_open_file, Vfs.release_unnamed. staying. Qed.
Lemma stays_read_all path buf : stays (Vfs.read_all path buf).
Proof.
  unfold Vfs.read_all. apply kept_bind; [unfold Vfs.open; staying|]. intros id. apply kept_bind.
  - apply stays_attempt. unfold Vfs.file_size, Vfs.read_at. staying.
  - intros r. apply kept_bind; [apply stays_attempt, stays_close|]. intros _. apply kept_lift.
Qed.
Lemma stays_written {E} (failed : E) m : stays (written_through failed m).
Proof.
  unfold written_through. apply kept_bind; [by apply stays_flag|]. intros _. apply kept_bind; [apply kept_outcome, stays_on_disk|]. intros r.
  apply kept_bind; [apply kept_outcome, stays_on_disk|]. intros r'. apply kept_bind; [apply kept_lift|]. intros _.
  apply stays_flag, dirty_state.
Qed.
Lemma stays_while {E} (f : Storage D → E) : stays (while_mounted f).
Proof. unfold while_mounted, asks. staying. Qed.
Lemma stays_persist path : stays (persist_path path).
Proof.
  unfold persist_path. apply kept_bind; [apply kept_guard|]. intros _. apply kept_bind; [apply stays_while|]. intros _.
  apply kept_bind; [unfold fat_relative; staying|]. intros relative. apply kept_bind; [apply kept_map_failure, stays_read_all|]. intros [n data].
  apply kept_bind; [apply kept_guard|]. intros _. apply kept_bind; [unfold while_present, asks; staying|]. intros _. apply stays_written.
Qed.
End frame.

Lemma persist_status path s : status_of (snd (persist_path path s)) = status_of s.
Proof. by apply (stays_persist (status_of s)). Qed.

(** ** What a sync reports *)

Definition storable (path : list byte) : Prop := under_mnt path = true ∧ bad_relative (relative path) = false.
Lemma persist_storable path s s' : persist_path path s = (Ok tt, s') → storable path.
Proof.
  unfold persist_path. intros ([] & s1 & Hu & Hr)%M_bind_Ok_inv. apply M_bind_Ok_inv in Hr as ([] & s2 & _ & Hr).
  apply M_bind_Ok_inv in Hr as (rel & s3 & Hf & _). unfold guard_ok in Hu. unfold fat_relative, guard_ok in Hf.
  destruct (under_mnt path) eqn:E1; [|done]. destruct (bad_relative (relative path)) eqn:E2; [done|]. done.
Qed.

(** Whether each of the files was written, in order, and the state after them. *)
Inductive persisted : list (list byte) → Fs → list bool → Fs → Prop :=
| persisted_none s : persisted [] s [] s
| persisted_file path paths s r s1 bs s2 : persist_path path s = (r, s1) → r ≠ Panic → persisted paths s1 bs s2 →
    persisted (path :: paths) s (is_ok r :: bs) s2.
Lemma persist_all_runs paths : ∀ ok failed s r s', persist_all paths ok failed s = (r, s') → r ≠ Panic →
  ∃ bs, persisted paths s bs s' ∧ status_of s' = status_of s ∧
    r = Ok (ok + length (filter (λ b, b = true) bs), failed || negb (forallb id bs))%nat.
Proof.
  induction paths as [|path paths IH]; intros ok failed s r s' Hr Hp; cbn [persist_all] in Hr.
  { injection Hr as <- <-. exists []. split_and!; [constructor|done|]. cbn. by rewrite Nat.add_0_r, orb_false_r. }
  pose proof (persist_status path s) as Hst. destruct (persist_path path s) as [r1 s1] eqn:E1. cbn in Hst.
  destruct r1 as [u|e|].
  - assert (outcome (E' := PersistError.t) (persist_path path) s = (Ok (Ok u), s1)) as Ho by (unfold outcome; by rewrite E1).
    rewrite (bind_run _ _ _ _ _ Ho) in Hr. cbn [is_ok] in Hr. destruct (IH _ _ _ _ _ Hr Hp) as (bs & Hbs & Hs' & ->).
    exists (true :: bs). split_and!; [by apply (persisted_file _ _ _ (Ok u) s1)|congruence|]. rewrite filter_cons_True by done. cbn. do 2 f_equal; lia.
  - assert (outcome (E' := PersistError.t) (persist_path path) s = (Ok (Err e), s1)) as Ho by (unfold outcome; by rewrite E1).
    rewrite (bind_run _ _ _ _ _ Ho) in Hr. cbn [is_ok] in Hr. destruct (IH _ _ _ _ _ Hr Hp) as (bs & Hbs & Hs' & ->).
    exists (false :: bs). split_and!; [by apply (persisted_file _ _ _ (Err e) s1)|congruence|]. rewrite filter_cons_False by done.
    cbn. by rewrite orb_true_r.
  - assert (outcome (E' := PersistError.t) (persist_path path) s = (Panic, s1)) as Ho by (unfold outcome; by rewrite E1).
    rewrite (bind_run _ _ _ _ _ Ho) in Hr. by injection Hr as <- <-.
Qed.
Lemma persisted_all paths s bs s' : persisted paths s bs s' → forallb id bs = true → Forall storable paths ∧ length (filter (λ b, b = true) bs) = length paths.
Proof.
  induction 1 as [s|path paths s r s1 bs s2 Hr Hp Hps IH]; intros Hall; [done|]. cbn in Hall. apply andb_true_iff in Hall as [Hok Hall].
  destruct (IH Hall) as [Hf Hl]. destruct r as [[]| |]; [|done..]. split.
  - apply Forall_cons. split; [by eapply persist_storable|done].
  - rewrite filter_cons_True by done. cbn. by rewrite Hl.
Qed.

(** The files below [/mnt], in the order a sync writes them. *)
Definition mnt_files s : list (list byte) := Vfs.for_each_file_with_prefix (bytes "/mnt/") s.
Definition clean_sync s n s' : Prop :=
  n = length (mnt_files s) ∧ Forall storable (mnt_files s) ∧ (∃ s1 bs, persisted (mnt_files s) s bs s1 ∧ forallb id bs = true) ∧
  mnt_dirty (Vfs.storage s') = false ∧ mnt_syncs (Vfs.storage s') = wrapping_add 64 (mnt_syncs (Vfs.storage s)) 1 ∧
  mnt_status (Vfs.storage s') = mnt_status (Vfs.storage s).
Definition failed_sync s s' : Prop := mnt_dirty (Vfs.storage s') = true ∧ status_of s' = status_of s.

Lemma mounted_status s s' : status_of s' = status_of s → mnt_mounted (Vfs.storage s') = mnt_mounted (Vfs.storage s).
Proof. unfold mnt_mounted. by intros [= -> _ _ _]. Qed.
Lemma while_mounted_ok {E A} (f : Storage D → E) (m : unit → M Fs E A) s : mnt_mounted (Vfs.storage s) = true →
  (while_mounted f ≫= m) s = m tt s.
Proof. intros Hm. unfold while_mounted, asks, mbind, M_bind, gets. cbv beta iota delta [id]. by rewrite Hm. Qed.
Lemma sync_cases s r s' : mnt_mounted (Vfs.storage s) = true → sync_all_mounted s = (r, s') → r ≠ Panic →
  (∃ n, r = Ok n ∧ clean_sync s n s') ∨ (r = Err PersistError.Failed ∧ failed_sync s s').
Proof.
  intros Hm Hr Hp. unfold sync_all_mounted in Hr. rewrite while_mounted_ok in Hr by done. rewrite bind_gets in Hr. fold (mnt_files s) in Hr.
  destruct (persist_all (mnt_files s) 0 false s) as [r1 s1] eqn:E1. rewrite (bind_run _ _ _ _ _ E1) in Hr.
  assert (r1 ≠ Panic) as Hp1 by (intros ->; by injection Hr as <- <-).
  destruct (persist_all_runs _ _ _ _ _ _ E1 Hp1) as (bs & Hbs & Hst & ->). cbn [Nat.add orb] in Hr. unfold asks in Hr. rewrite bind_gets in Hr.
  lazymatch type of Hr with (?m ≫= _) s1 = _ => destruct (m s1) as [r2 s2] eqn:E2 end. rewrite (bind_run _ _ _ _ _ E2) in Hr.
  assert (status_of s2 = status_of s1 ∧ (r2 = Ok false → forallb id bs = true) ∧ ∀ e, r2 ≠ Err e) as (Hst2 & Hbs2 & He2).
  { destruct (present (Vfs.storage s1)).
    2: { injection E2 as <- <-. by split_and!. }
    unfold outcome, on_disk in E2. revert E2. unfold mbind, M_bind. destruct (flush (disk_of s1)) as [[u|e|] o]; intros [= <- <-]; split_and!; try done.
    all: intros [= E]; apply orb_false_iff in E as [E _]; by apply negb_false_iff in E. }
  destruct r2 as [[]|e|]; [| |by destruct (He2 e)|by injection Hr as <- <-].
  - injection Hr as <- <-. right. split; [done|]. split; [|rewrite <-Hst, <-Hst2; apply dirty_state].
    cbn. unfold mark_mnt_dirty. rewrite <-(mounted_status s s2) in Hm by congruence. by rewrite Hm.
  - injection Hr as <- <-. specialize (Hbs2 eq_refl). destruct (persisted_all _ _ _ _ Hbs Hbs2) as [Hf Hl]. left.
    exists (length (mnt_files s)). split; [by rewrite Hl|]. split_and!; [done|done|by exists s1, bs|done| |]; rewrite Hst in Hst2; injection Hst2 as E3 _ E4 _; cbn; congruence.
Qed.
End status.
