(* ===== verification/StorageMount.v ===== *)
(** * The mounted volume (kernel/src/storage.rs, vfs.rs)

    Sessions of VFS calls and of calls of the storage service on one disk, from
    boot; what reading an open file of the volume delivers; what is refused
    while no volume is mounted; a volume that can no longer be synced; and the
    swap area, which mounting configures behind the volume. *)
From stdpp Require Import list.
From S2P Require Import Prelude Config Block VfsPath Fat FatDir FatChain FatRead FatSafe FatDirSafe Storage StorageDevice StorageReads StorageFiles StorageEdits StorageCalls StorageImage StorageKeeps.
From S2P Require Partition Gpt PageCache Swap Vfs VfsTree VfsFiles FatTest FatStore FatVolume.

Section swap.
Context {F D : Type} `{VfsFiles.FramesLaws F, BlockDeviceLaws D}.
#[local] Set Default Proof Using "All".
Abbreviation Fs := (Vfs.Fs F (Storage D)).
Implicit Types s : Fs.

(** The swap area [b] lies behind the volume of the disk. *)
Definition behind (x : Picture) (b : Swap.DiskBacking) : Prop := ∃ start v, volume_of x = Some (start, v) ∧ geometry v ∧ 0 ≤ start ∧
  start + total_sectors v ≤ Swap.start_lba b ∧
  Swap.start_lba b + Z.of_nat (Swap.dslots b) * Z.of_nat Swap.SECTORS_PER_PAGE ≤ size_of x.
Definition swap_behind x s : Prop := ∀ b, Swap.disk (swap (Vfs.storage s)) = Some b → behind x b.

Lemma configured_behind x start limit v at_sector st b : Swap.disk st = None → volume_of x = Some (start, v) → geometry v → 0 ≤ start →
  at_sector = start + total_sectors v → at_sector < limit → limit ≤ size_of x →
  Swap.disk (snd (Swap.configure_disk at_sector (limit - at_sector) st)) = Some b → behind x b.
Proof using Type.
  intros Hst Hv G Hs -> Hlt Hlim. unfold Swap.configure_disk. set (n := limit - (start + total_sectors v)).
  case_match; [cbn [snd]; by rewrite Hst|]. case_match; [cbn [snd]; by rewrite Hst|].
  cbn [snd Swap.disk]. intros Hb%(inj Some). rewrite <-Hb. exists start, v. split; [done|]. split; [done|]. split; [done|]. split; [apply Z.le_refl|].
  cbn [Swap.start_lba Swap.dslots]. assert (0 < Z.of_nat Swap.SECTORS_PER_PAGE) as Hpos by (vm_compute; reflexivity).
  set (k := Z.of_nat Swap.SECTORS_PER_PAGE) in *. assert (0 < n) as Hn by (subst n; lia).
  pose proof (Z.mul_div_le n k Hpos). pose proof (Z.div_pos n k ltac:(lia) Hpos).
  assert (Z.of_nat (Nat.min MAX_SWAP_SLOTS (Z.to_nat (n / k))) ≤ n / k) as Hm.
  { etrans; [apply inj_le, Nat.le_min_r|]. by rewrite Z2Nat.id. }
  revert Hm. generalize (Z.of_nat (Nat.min MAX_SWAP_SLOTS (Z.to_nat (n / k)))). intros z Hm.
  pose proof (Z.mul_le_mono_nonneg_r z (n / k) k ltac:(lia) Hm). assert (z * k ≤ n) by lia. subst n. lia.
Qed.

Section mounting.
Context (x : Picture) (c : PageCache.PageCache) (w : Swap.State) (Hh : hybrid x = false) (Hw : Swap.disk w = None).
(** The state of the VFS as the device: it shows [x], and its swap area is [w]. *)
Abbreviation R := (λ p st, p = c ∧ st = w).
Abbreviation L := (fs_laws (F := F) (D := D) R).
Abbreviation sees s := (alike (H0 := L) s x).

Lemma sees_swap s : sees s → swap (Vfs.storage s) = w.
Proof. by intros ((_ & _ & _ & ?) & _). Qed.
Lemma sees_none s : sees s → swap_behind x s.
Proof. intros Hs b. rewrite (sees_swap s Hs), Hw. done. Qed.
Lemma sees_safe {E A} (m : M Fs E A) Q s : sees s → safe (H0 := L) nothing m Q → sees (snd (m s)).
Proof. intros Hs Hm. destruct (Hm s) as (Ht & _); [by destruct Hs|]. by eapply (alike_still (H2 := L)). Qed.
Lemma sees_outcome {E E' A} (m : M Fs E A) Q s : sees s → safe (H0 := L) nothing m Q →
  ∃ r s', outcome (E' := E') m s = (Ok r, s') ∧ sees s' ∧ m s = (r, s').
Proof.
  intros Hs Hm. pose proof (sees_safe m Q s Hs Hm) as Hs'. destruct (Hm s) as (_ & Hp & _); [by destruct Hs|].
  unfold outcome. destruct (m s) as [[a|e|] s']; cbn in *; [by eexists _, _..|done].
Qed.

Lemma area_behind start limit at_sector v s : sees s → volume_of x = Some (start, v) → geometry v → 0 ≤ start → at_sector = start + total_sectors v →
  limit ≤ size_of x → swap_behind x (snd (configure_swap_area at_sector limit s)).
Proof.
  intros Hs Hv G H0s -> Hl. unfold configure_swap_area. case_match eqn:E; [by apply sees_none|]. apply Z.leb_gt in E.
  intros b. cbn. rewrite (sees_swap s Hs). by eapply configured_behind.
Qed.
Lemma direct_swap_behind s : sees s → swap_behind x (snd (configure_direct_swap s)).
Proof.
  intros Hs. unfold configure_direct_swap.
  destruct (sees_outcome (E' := MountStatus.t) mount _ s Hs (safe_mount (H0 := L) nothing)) as (r & s1 & E & Hs1 & Hm). rewrite (bind_run _ _ _ _ _ E).
  destruct r as [v|e|]; [|by apply sees_none..]. rewrite bind_gets.
  destruct (direct_seen (H2 := L) x s v s1 Hs Hm) as (v0 & Hv & Ha & G & _). destruct Ha as [-> _].
  apply (area_behind 0 _ _ v0); [done..|]. destruct Hs1 as (_ & _ & Hc & _). rewrite Hc. done.
Qed.

Lemma partition_swap_behind {E} s0 s1 s2 e strict (failed none : E) p s1' : sees s0 → sees s1 → sees s2 →
  fst (mount s0) = Err e → not_fat e = true → find_partition strict failed none s1 = (Ok p, s1') → placed p →
  swap_behind x (snd (configure_partition_swap p s2)).
Proof.
  intros H0s H1s Hs Hm Hnf Hp Hpl. unfold configure_partition_swap.
  assert (safe (H0 := L) nothing (in_window InvalidBootSector p mount) geometry) as Hsafe.
  { apply safe_in_window; [done|]. intros n. apply (safe_mount (H0 := window_laws p n)). }
  destruct (sees_outcome (E' := MountStatus.t) _ _ s2 Hs Hsafe) as (r & s3 & E3 & Hs3 & Hr). rewrite (bind_run _ _ _ _ _ E3).
  destruct r as [v|er|]; [|by apply sees_none..].
  destruct (checked_add 64 (Partition.start_lba p) (total_sectors v)) as [start|] eqn:Ea; [|by apply sees_none].
  destruct (checked_add 64 (Partition.start_lba p) (Partition.psectors p)) as [limit|] eqn:El; [|by apply sees_none].
  apply checked_add_Some in Ea as [-> _], El as [-> _]. cbn [mbind option_bind].
  unfold in_window in Hr. destruct (Partition.pdevice_new s2 p) as [view|ew|] eqn:Ew; [|done..].
  destruct (pdevice_new_Ok s2 p view Ew Hpl) as (-> & Hpos & Hn).
  destruct (mount (Partition.mkPDevice s2 p)) as [rm view'] eqn:Em. injection Hr as -> <-.
  destruct (partition_seen (H2 := L) x Hh s0 s1 s2 e strict failed none p v view' s1' H0s H1s Hs Hm Hnf Hp Hpos ltac:(by destruct Hpl) Hn Em)
    as (v0 & Hv & Ha & G & _). destruct Ha as [-> _].
  apply (area_behind (Partition.start_lba p) _ _ v0); [done|done|done|lia|done|]. destruct Hs as (_ & _ & Hc & _).
  transitivity (sector_count s2); [done|]. by rewrite Hc.
Qed.

Lemma mount_device_not_fat (s s' : Fs) : mount_device (λ _ _ m, m) s = (Err MountStatus.NotFat32, s') →
  ∃ e, fst (mount s) = Err e ∧ not_fat e = true.
Proof using Type.
  unfold mount_device, mbind, M_bind, map_failure at 1. destruct (mount s) as [[v|e|] s1] eqn:Em; cbn [map_err]; [|case_match; [|done]; by exists e|done].
  unfold try_vfs, outcome. destruct (Vfs.on_registry _ s1) as [[i|er|] s2]; cbn; [| |done]; unfold map_failure;
    lazymatch goal with |- context[let '(_, _) := ?m in _] => by destruct m as [[]] end.
Qed.
Lemma mount_disk_behind s : sees s → swap_behind x (snd (mount_disk s)).
Proof.
  intros Hs. unfold mount_disk.
  destruct (sees_outcome (E' := MountStatus.t) _ _ s Hs (safe_mount_device R (H4 := L) (λ _ _ m, m) (here_inner R))) as (r & s1 & E1 & Hs1 & Hm).
  rewrite (bind_run _ _ _ _ _ E1). destruct r as [n|status|]; [| |by apply sees_none].
  - pose proof (direct_swap_behind s1 Hs1) as Hb. unfold mbind, M_bind. by destruct (configure_direct_swap s1) as [[]].
  - destruct status; try by apply sees_none. destruct (mount_device_not_fat s s1 Hm) as (e & He & Hnf).
    destruct (find_partition true MountStatus.Failed MountStatus.NotFat32 s1) as [r s2] eqn:E2.
    pose proof (sees_safe _ _ s1 Hs1 (safe_find_partition (H0 := L) true MountStatus.Failed MountStatus.NotFat32)) as Hs2. rewrite E2 in Hs2. cbn in Hs2.
    destruct (safe_find_partition (H0 := L) true MountStatus.Failed MountStatus.NotFat32 s1) as (_ & _ & Hpl); [by destruct Hs1|]. rewrite E2 in Hpl.
    rewrite (bind_run _ _ _ _ _ E2). destruct r as [p|er|]; [|by apply sees_none..]. specialize (Hpl p eq_refl).
    assert (safe (H0 := L) nothing (in_window MountStatus.Failed p (mount_device (λ _ _ m, inside m))) (λ _, True)) as Hsafe.
    { apply safe_in_window; [done|]. intros n. apply (safe_mount_device R (H4 := window_laws p n)). exact (inside_ok p n). }
    pose proof (sees_safe _ _ s2 Hs2 Hsafe) as Hs3. destruct (in_window _ p _ s2) as [r3 s3] eqn:E3. cbn in Hs3.
    rewrite (bind_run _ _ _ _ _ E3). destruct r3 as [n|er|]; [|by apply sees_none..].
    pose proof (partition_swap_behind s s1 s3 e true MountStatus.Failed MountStatus.NotFat32 p s2 Hs Hs1 Hs3 He Hnf E2 Hpl) as Hb.
    unfold mbind, M_bind. by destruct (configure_partition_swap p s3) as [[]].
Qed.
End mounting.

Lemma mount_swap {E} s r s' : fs_fit s → Swap.disk (swap (Vfs.storage s)) = None → mount_ata_root (E := E) s = (r, s') →
  swap_behind (picture_of (disk_of s)) s'.
Proof.
  intros [Hv Hk] Hw Hm. set (x := picture_of (disk_of s)). destruct (mount_good_shows _ Hk) as ([Hd Hx] & Hh & _).
  unfold mount_ata_root, asks in Hm. rewrite bind_gets in Hm. destruct (present (Vfs.storage s)).
  2: { injection Hm as <- <-. intros b. cbn. by rewrite Hw. }
  pose proof (mount_disk_behind x (file_pages (Vfs.storage s)) (swap (Vfs.storage s)) Hh Hw s) as Hb.
  specialize (Hb ltac:(split; [by split; [apply Hd|]|by destruct Hx as (_ & ? & ? & ?)])).
  unfold mbind, M_bind, outcome in Hm. destruct (mount_disk s) as [[n|e|] s1]; cbn in *; injection Hm as <- <-; exact Hb.
Qed.
Lemma behind_volume x b start v l : behind x b → volume_of x = Some (start, v) → Swap.start_lba b ≤ l → ¬ volume_sector v (l - start).
Proof using Type.
  intros (start' & v' & Hv' & G & _ & Hb & _) Hv Hl. rewrite Hv in Hv'. injection Hv' as <- <-.
  pose proof (geo_fats v G). pose proof (geo_size v G). pose proof (geo_data v G). pose proof (geo_clusters v G). pose proof (geo_total v G).
  pose proof (geo_spc v G). intros [Hf|Hi]; [lia|]. apply (info_sector_pos v _ G) in Hi. nia.
Qed.
End swap.

Section sessions.
Context {F D : Type} `{VfsFiles.FramesLaws F, BlockDeviceLaws D}.
#[local] Set Default Proof Using "All".
Abbreviation Fs := (Vfs.Fs F (Storage D)).
Implicit Types s : Fs.

(** ** Sessions *)

Inductive Call :=
| CVfs (c : VfsFiles.Call) | CMount | CRemount | CEnsure (p : list byte) | CPersist (p : list byte) | CPersistDirectory (p : list byte)
| CDelete (p : list byte) | CRename (p q : list byte) | CSync | CUnmount | CDf | CCheck | CPersistMapping (id : nat).
(** The caller passes paths as text. *)
Definition call_text (c : Call) : bool :=
  match c with CVfs c => VfsFiles.call_ok c | CEnsure p => utf8_valid p | _ => true end.
(** The state after a call, unless it panics. *)
Definition finish {E A} (m : M Fs E A) s : option Fs := match m s with (Panic, _) => None | (_, s) => Some s end.
Definition run_call (c : Call) : Fs → option Fs :=
  match c with
  | CVfs c => finish (VfsFiles.run_call c)
  | CMount => finish (mount_ata_root (E := VError)) | CRemount => finish (remount_mnt (E := VError))
  | CEnsure p => finish (ensure_path p) | CPersist p => finish (persist_path p) | CPersistDirectory p => finish (persist_directory p)
  | CDelete p => finish (delete_path p) | CRename p q => finish (rename_path p q)
  | CSync => finish sync_all_mounted | CUnmount => finish unmount_mnt | CDf => finish df_mnt | CCheck => finish fscheck_mnt
  | CPersistMapping id => finish (persist_mapping id)
  end.
Fixpoint run_session (cs : list Call) s : option Fs :=
  match cs with [] => Some s | c :: cs => s ← run_call c s; run_session cs s end.

(** The storage state at boot. *)
Definition storage_new (d : option D) : Storage D := mkStorage d (PageCache.new 16) MOUNT_UNKNOWN false 0 0 Swap.new.
Definition booted (f : F) (d : option D) : Fs := VfsFiles.start f (storage_new d).
Lemma booted_fit f d : disk_ok d → unambiguous d → fs_fit (booted f d).
Proof.
  intros Hd Hu. assert (mount_good (storage_new d)) as Hk by (split; [done|done|apply PageCache.new_coherent]).
  split; [|exact Hk]. apply (VfsFiles.start_ok (H2 := shown_laws (picture_of d)) f (storage_new d)).
  exact (mount_good_shows _ Hk).
Qed.

Lemma finish_fits {E A} (m : M Fs E A) Q s : fits m Q → fs_fit s →
  ∃ s', finish m s = Some s' ∧ fs_fit s' ∧ edits (disk_of s) (disk_of s').
Proof.
  intros Hm Hs. destruct (Hm s Hs) as (Hp & _ & Hs' & He). unfold finish. destruct (m s) as [[a|e|] s']; cbn in *; [by exists s'..|done].
Qed.
Lemma run_call_fits c s : call_text c = true → fs_fit s → ∃ s', run_call c s = Some s' ∧ fs_fit s' ∧ edits (disk_of s) (disk_of s').
Proof.
  intros Hc Hs. destruct c; cbn [run_call]; (eapply finish_fits; [|exact Hs]).
  - apply fits_vfs. intros x s0 H0s. by apply (VfsFiles.run_call_safe (H2 := shown_laws x)).
  - apply fits_mount.
  - apply fits_remount.
  - by apply fits_ensure.
  - apply fits_persist.
  - apply fits_persist_directory.
  - apply fits_delete.
  - apply fits_rename.
  - apply fits_sync.
  - apply fits_unmount.
  - apply fits_df.
  - apply fits_fscheck.
  - apply fits_persist_mapping.
Qed.
Lemma run_session_fits cs s : Forall (λ c, call_text c = true) cs → fs_fit s →
  ∃ s', run_session cs s = Some s' ∧ fs_fit s' ∧ edits (disk_of s) (disk_of s').
Proof.
  intros Hcs. revert s. induction Hcs as [|c cs Hc _ IH]; intros s Hs; [exists s; split_and!; [done|done|by apply edits_refl]|].
  destruct (run_call_fits c s Hc Hs) as (s1 & E1 & Hs1 & He1). destruct (IH s1 Hs1) as (s2 & E2 & Hs2 & He2).
  exists s2. cbn [run_session]. rewrite E1. split_and!; [done|done|by eapply edits_trans].
Qed.

Lemma edits_first o o' : edits o o' → sector_count o' = sector_count o ∧ dev_view o' 0 = dev_view o 0.
Proof.
  induction 1 as [o o' Ht|o o1 o2 He _ [IHc IHv]]; [apply edit_first; by left|]. destruct (edit_first o o1 He) as [Hc Hv]. split; congruence.
Qed.

(** ** Without a mounted volume *)

Definition refused {E A} (m : M Fs E A) (e : E) s : Prop := m s = (Err e, s).
Lemma while_refused {E A} (f : Storage D → E) (m : unit → M Fs E A) s : mnt_mounted (Vfs.storage s) = false →
  refused (while_mounted f ≫= m) (f (Vfs.storage s)) s.
Proof using Type.
  intros Hm. unfold refused, while_mounted, asks, mbind, M_bind, gets. cbv beta iota delta [id]. by rewrite Hm.
Qed.
Lemma guard_refused {E A} b (e : E) (f : Storage D → E) (m : unit → M Fs E A) s : mnt_mounted (Vfs.storage s) = false → b = true →
  refused (guard_ok b e ≫= (λ _ : unit, while_mounted f ≫= m)) (f (Vfs.storage s)) s.
Proof using Type. intros Hm ->. by apply (while_refused f m). Qed.
End sessions.

(** ** The properties *)

(** C4: whatever calls of the VFS and of the storage service follow each other on a
    disk that obeys the device contract, none panics; after them the tree of
    the VFS is well formed, every open description refers to a live file, and
    the cached pages are pages of the files on the disk; the disk has its size
    and its first sector, and every change of it was made within the volume it
    held then. *)
Theorem mounted_sessions_safe {F D} `{VfsFiles.FramesLaws F, BlockDeviceLaws D} (cs : list Call) (f : F) (d : option D) :
  disk_ok d → unambiguous d → Forall (λ c, call_text c = true) cs →
  ∃ s, run_session cs (booted f d) = Some s ∧ VfsTree.tree_ok (Vfs.registry s) ∧
    (∀ id e, Vfs.files s !! id = Some e → Vfs.ooccupied e = true → 0 < Vfs.refcount e ∧ VfsFiles.entry_live (Vfs.registry s) e) ∧
    fresh (Vfs.storage s) ∧ sector_count (disk_of s) = sector_count d ∧ dev_view (disk_of s) 0 = dev_view d 0 ∧ edits d (disk_of s).
Proof.
  intros Hd Hu Hcs. destruct (run_session_fits cs (booted f d) Hcs (booted_fit f d Hd Hu)) as (s & Hr & [Hv Hk] & He).
  destruct (edits_first _ _ He) as [Hc H0v].
  exists s. split_and!; [done|apply (VfsFiles.vo_tree _ _ Hv)|apply (VfsFiles.vo_entries _ _ Hv)|apply Hk|done..].
Qed.

(** C5: a read of an open file of the volume, through the VFS, the cached pages, the
    search for the partition and a disk that may fail, delivers the bytes of
    the file's cluster chain at the offset, overlaid by the shared pages, as
    many as the file and the buffer hold; nothing on the disk changes. *)
Theorem mounted_read_is_chain {F D} `{VfsFiles.FramesLaws F, BlockDeviceLaws D} (s s' : Vfs.Fs F (Storage D)) id e n p rel start v en l buf c b :
  fs_fit s → Vfs.files s !! id = Some e → Vfs.ooccupied e = true → Vfs.nodes (Vfs.registry s) !! Vfs.onode e = Some n →
  Vfs.backing n = Some p → strip_prefix (bytes "/mnt/") (Vfs.as_str p) = Some rel →
  let x := picture_of (disk_of s) in
  let sectors := λ i, dev_view (disk_of s) (start + i) in
  volume_of x = Some (start, v) → fst (file_entry rel x) = Ok en → chain v sectors (first_cluster en) l →
  (Z.to_nat (size en) ≤ length (chain_data v sectors l))%nat →
  Vfs.read id buf s = (Ok (c, b), s') →
  c = Nat.min (Vfs.nlength n - Vfs.offset e) (length buf) ∧ (c = 0%nat ∨ Vfs.offset e + c ≤ Z.to_nat (size en))%nat ∧
  b = Vfs.fr_overlay (Vfs.onode e) (Vfs.ogeneration e) (Vfs.offset e) (slice (chain_data v sectors l) (Vfs.offset e) c) (Vfs.frames s) ++ drop c buf ∧
  Vfs.files s' = <[id := Vfs.set_offset (Vfs.offset e + c) e]> (Vfs.files s) ∧ Vfs.registry s' = Vfs.registry s ∧
  fs_fit s' ∧ touches nothing (disk_of s) (disk_of s').
Proof.
  intros [Hv Hk] Hid Ho Hn Hb Hp x sectors Hvol Hen Hch Hsz Hr. pose proof (mount_good_shows _ Hk : shows_mount x _) as Hx.
  assert (VfsFiles.fs_ok (H2 := shown_laws x) s) as Hs by (by split).
  destruct (VfsFiles.read_from_spec (H2 := shown_laws x) id None buf None s Hs) as (r & s1 & E & _ & Hs1 & Hreg & Hfr & _ & Hsp).
  unfold Vfs.read in Hr. rewrite E in Hr. injection Hr as -> ->.
  destruct (Hsp e n Hid Ho Hn) as [Hd _]. destruct (Hd c b eq_refl) as [(Hle & Hc & l1 & Hl1 & Hll & Hbb) Hf].
  cbn [default from_option Datatypes.id] in *.
  assert (disk_files x (Vfs.as_str p) = take (Z.to_nat (size en)) (chain_data v sectors l)) as Hi.
  { unfold disk_files. rewrite Hp. apply (image_chain x start v rel en l); [apply Hx|apply Hx|done..]. }
  unfold VfsFiles.stored in Hl1. rewrite Hb in Hl1. cbn in Hl1. rewrite Hi in Hl1. injection Hl1 as <-.
  destruct (VfsFiles.fs_disk (H2 := shown_laws x) _ Hs1) as (Hx' & Hh & Hcoh).
  rewrite !length_take in Hll.
  split_and!; [done|lia| |done|done| |by apply (holds_both x); [apply Hx|]].
  - rewrite Hbb. f_equal. f_equal. destruct Hll as [->|Hll]; [done|]. by rewrite !FatStore.take_slice by lia.
  - split; [apply Hs1|]. by apply (shows_mount_good x).
Qed.

(** C28: mounting configures at most a swap area that starts behind the volume of the
    disk and ends inside the disk, and shares no sector with what the calls of
    the file system may write. *)
Theorem swap_area_behind_volume {F D} `{VfsFiles.FramesLaws F, BlockDeviceLaws D} {E} (s s' : Vfs.Fs F (Storage D)) (r : res E MountStatus.t) b :
  fs_fit s → Swap.disk (swap (Vfs.storage s)) = None → mount_ata_root s = (r, s') → Swap.disk (swap (Vfs.storage s')) = Some b →
  ∃ start v, volume_of (picture_of (disk_of s)) = Some (start, v) ∧ start + total_sectors v ≤ Swap.start_lba b ∧
    Swap.start_lba b + Z.of_nat (Swap.dslots b) * Z.of_nat Swap.SECTORS_PER_PAGE ≤ sector_count (disk_of s) ∧
    ∀ l, Swap.start_lba b ≤ l → ¬ volume_sector v (l - start).
Proof.
  intros Hs Hn Hm Hb. pose proof (mount_swap s r s' Hs Hn Hm b Hb) as Hbe. pose proof Hbe as (start & v & Hv & G & _ & Hlo & Hhi).
  exists start, v. split_and!; [done..|]. intros l Hl. by apply (behind_volume (picture_of (disk_of s)) b start v l).
Qed.

(** while no volume is mounted, every call on [/mnt] other than mounting is
    refused with the error its status stands for, and nothing changes: neither
    the disk nor the VFS nor the cached pages. *)
Theorem unmounted_calls_refused {F D} `{Vfs.Frames F, BlockDevice D} (s : Vfs.Fs F (Storage D)) (p q : list byte) (off : Z) (out : list byte) :
  let k := Vfs.storage s in
  mnt_mounted k = false → under_mnt p = true → under_mnt q = true →
  refused (ensure_path p) (unavailable_ensure_error k) s ∧ refused (persist_path p) (unavailable_persist_error k) s ∧
  refused (persist_directory p) (unavailable_persist_error k) s ∧ refused (persist_directory (bytes "/mnt")) (unavailable_persist_error k) s ∧
  refused (delete_path p) (unavailable_mutation_error k) s ∧ refused (rename_path p q) (unavailable_mutation_error k) s ∧
  refused sync_all_mounted (unavailable_persist_error k) s ∧
  refused unmount_mnt (if mnt_status k =? MOUNT_NO_DEVICE then MountControlError.NoDevice else MountControlError.NotMounted) s ∧
  refused df_mnt (unavailable_space_error k) s ∧ refused fscheck_mnt (unavailable_space_error k) s ∧
  read_disk_file p off out k = (Err DeviceFault, out, k).
Proof.
  intros k Hm Hp Hq. assert (p ≠ bytes "/mnt") as Hne by (by intros ->).
  split_and!; first [by apply while_refused|by apply guard_refused|idtac].
  - unfold ensure_path, mnt_path. rewrite Hp, orb_true_r. by apply while_refused.
  - unfold persist_directory. rewrite bool_decide_false by done. by apply guard_refused.
  - unfold refused, persist_directory. rewrite bool_decide_true by done. unfold while_mounted, asks, mbind, M_bind, gets. cbv beta iota delta [id].
    by fold k; rewrite Hm.
  - apply guard_refused; [done|]. by rewrite Hp, Hq.
  - unfold refused, unmount_mnt. rewrite (while_refused _ _ _ Hm). fold k. do 2 f_equal. unfold lifecycle_from_code. by repeat case_match.
  - unfold read_disk_file. by rewrite Hm.
Qed.

(** C27: a sync of the mounted volume does not panic.  It succeeds only when every
    file below [/mnt] was written and has a name FAT32 can store; then it
    reports their number, marks the volume clean and counts the sync.
    Otherwise it fails, marks the volume dirty, and unmounting fails the same
    way and leaves the volume mounted. *)
Theorem sync_reports {F D} `{VfsFiles.FramesLaws F, BlockDeviceLaws D} (s : Vfs.Fs F (Storage D)) :
  fs_fit s → mnt_mounted (Vfs.storage s) = true →
  (∃ n s', sync_all_mounted s = (Ok n, s') ∧ fs_fit s' ∧ clean_sync s n s') ∨
  (∃ s', sync_all_mounted s = (Err PersistError.Failed, s') ∧ fs_fit s' ∧ failed_sync s s' ∧
     unmount_mnt s = (Err MountControlError.SyncFailed, s') ∧ mnt_mounted (Vfs.storage s') = true).
Proof.
  intros Hs Hm. destruct (fits_sync s Hs) as (Hp & _ & Hs' & _). destruct (sync_all_mounted s) as [r s'] eqn:E. cbn [fst snd] in *.
  destruct (sync_cases s r s' Hm E Hp) as [(n & -> & Hc)|[-> Hf]]; [left; by exists n, s'|]. right. exists s'.
  split; [done|]. split; [done|]. split; [done|]. split.
  - unfold unmount_mnt. rewrite while_mounted_ok by done.
    assert (map_failure (λ _, MountControlError.SyncFailed) sync_all_mounted s = (Err MountControlError.SyncFailed, s')) as E1 by (unfold map_failure; by rewrite E).
    by rewrite (bind_run _ _ _ _ _ E1).
  - rewrite <-Hm. apply mounted_status, Hf.
Qed.
