(* ===== verification/StorageTest.v ===== *)
(** * The live self-test and sessions on a test disk (kernel/src/storage.rs)

    The boot-time test on the mounted volume as a program over the model: files
    and directories are created, persisted, renamed, read back and removed, a
    directory grows past its cluster, and the volume is checked, synced,
    unmounted and mounted again.  Then the properties of the storage service on
    the FAT32 test disk: a file is written, persisted, forgotten, brought back
    and read; a name FAT32 cannot store stops every sync; the room behind a
    volume becomes swap space. *)
From stdpp Require Import list.
From S2P Require Import Prelude Config Block VfsPath Fat FatDir FatTest FatChain FatRead FatSafe FatDirSafe Storage StorageDevice StorageReads StorageFiles StorageEdits StorageCalls StorageKeeps StorageMount.
From S2P Require PageCache Swap Vfs VfsTree VfsFiles FatVolume.

Module LiveMutationTestStatus.
Inductive t := Skipped | Passed | Failed (stage : string).
End LiveMutationTestStatus.
#[export] Instance EnsureError_eq_dec : EqDecision EnsureError.t.
Proof. solve_decision. Defined.
#[export] Instance PersistError_eq_dec : EqDecision PersistError.t.
Proof. solve_decision. Defined.

Section tests.
Context {F D : Type} `{Vfs.Frames F, BlockDevice D}.
Abbreviation Fs := (Vfs.Fs F (Storage D)).
(** A test fails with the name of the stage that failed. *)
Abbreviation Test := (M Fs string unit).
Open Scope string_scope.

(** The outcome of [m] must satisfy [p]. *)
Definition stage {E A} (name : string) (p : res E A → bool) (m : M Fs E A) : Test := r ← outcome m; guard_ok (p r) name.
Definition succeeds {E A} (name : string) (m : M Fs E A) : Test := stage name is_ok m.
Definition exists_path (path : string) : M Fs string bool :=
  gets (λ s, is_ok (Vfs.stat (bytes path) (Vfs.registry s))).
Definition absent (name : string) (path : string) : Test := b ← exists_path path; guard_ok (negb b) name.
Definition vfs_mkdir (path : string) : M Fs VError nat := Vfs.on_registry (Vfs.mkdir (bytes path)).
Definition vfs_rename (old new : string) : M Fs VError unit := Vfs.on_registry (Vfs.rename (bytes old) (bytes new)).
(** The file at [path] holds [content]; [room] is the size of the buffer. *)
Definition reads_back (name : string) (path : list byte) (room : nat) (content : string) : Test :=
  stage name (λ r, match r with
                   | Ok (n, data) => Nat.eqb n (List.length (bytes content)) && bool_decide (take n data = bytes content)
                   | _ => false
                   end) (Vfs.read_all path (replicate room x00)).
Definition ensure_fails (name : string) (e : EnsureError.t) (path : string) : Test :=
  stage name (λ r, bool_decide (r = Err e)) (ensure_path (bytes path)).

Definition live_numbered_child_path (dir : string) (prefix : byte) (index : nat) : option (list byte) :=
  if Nat.leb 100 index then None else
  if Nat.ltb 40 (List.length (bytes dir) + 1 + 7) then None else
  let path := (bytes dir ++ [SLASH; prefix; z_byte (48 + Z.of_nat (index / 10)); z_byte (48 + Z.of_nat (index mod 10))] ++ bytes ".txt")%list in
  if utf8_valid path then Some path else None.
Definition numbered (name dir : string) (prefix : byte) (index : nat) (f : list byte → Test) : Test :=
  match live_numbered_child_path dir prefix index with Some path => f path | None => fail name end.

Definition create_live_test_file (path : list byte) (content : string) : Test :=
  _ ← succeeds "growth vfs write" (Vfs.write_file path (bytes content));
  succeeds "growth fat persist" (persist_path path).
Definition remove_live_test_file (path : list byte) : Test :=
  _ ← succeeds "growth fat delete file" (delete_path path);
  succeeds "growth vfs delete file" (Vfs.unlink path).
Definition remove_live_test_dir (path : string) : Test :=
  _ ← succeeds "growth fat delete dir" (delete_path (bytes path));
  succeeds "growth vfs delete dir" (Vfs.unlink (bytes path)).

(** A step for each index below [n]. *)
Definition for_indices (n : nat) (f : nat → Test) : Test := foldr (λ i m, _ ← f i; m) (mret tt) (seq 0 n).

Definition letter_d : byte := Corelib.Init.Byte.x64.
Definition letter_g : byte := Corelib.Init.Byte.x67.
Definition live_directory_growth_self_test : Test :=
  let GROW_DIR := "/mnt/tgrow" in
  let FULL_DIR := "/mnt/tfull" in
  let MOVE_FILE := "/mnt/tmv.txt" in
  let MOVED_FILE := "/mnt/tfull/tmv.txt" in
  _ ← absent "growth fixture exists" GROW_DIR;
  _ ← absent "growth fixture exists" FULL_DIR;
  _ ← absent "growth fixture exists" MOVE_FILE;
  _ ← succeeds "growth vfs mkdir" (vfs_mkdir GROW_DIR);
  _ ← succeeds "growth fat mkdir" (persist_directory (bytes GROW_DIR));
  _ ← for_indices 15 (λ i, numbered "growth path build" GROW_DIR letter_g i (λ path, create_live_test_file path "x"));
  _ ← numbered "growth path build" GROW_DIR letter_g 14 (λ last_path,
        _ ← succeeds "growth ensure" (ensure_path last_path);
        reads_back "growth readback" last_path 1 "x");
  _ ← succeeds "full vfs mkdir" (vfs_mkdir FULL_DIR);
  _ ← succeeds "full fat mkdir" (persist_directory (bytes FULL_DIR));
  _ ← for_indices 14 (λ i, numbered "full path build" FULL_DIR letter_d i (λ path, create_live_test_file path "q"));
  _ ← create_live_test_file (bytes MOVE_FILE) "z";
  _ ← succeeds "full fat rename" (rename_path (bytes MOVE_FILE) (bytes MOVED_FILE));
  _ ← succeeds "full vfs rename" (vfs_rename MOVE_FILE MOVED_FILE);
  _ ← ensure_fails "full old survived" EnsureError.NotFound MOVE_FILE;
  _ ← absent "full old survived" MOVE_FILE;
  _ ← succeeds "full new missing" (ensure_path (bytes MOVED_FILE));
  _ ← reads_back "full readback" (bytes MOVED_FILE) 1 "z";
  _ ← remove_live_test_file (bytes MOVED_FILE);
  _ ← for_indices 14 (λ i, numbered "full path build" FULL_DIR letter_d i remove_live_test_file);
  _ ← remove_live_test_dir FULL_DIR;
  _ ← for_indices 15 (λ i, numbered "growth path build" GROW_DIR letter_g i remove_live_test_file);
  remove_live_test_dir GROW_DIR.

Definition live_mutations : Test :=
  let OLD_DIR := "/mnt/tmutd" in
  let NEW_DIR := "/mnt/tmuta" in
  let OLD_FILE := "/mnt/tmutd/a.txt" in
  let NEW_FILE := "/mnt/tmuta/a.txt" in
  _ ← absent "fixture exists" OLD_DIR;
  _ ← absent "fixture exists" NEW_DIR;
  _ ← succeeds "vfs mkdir" (vfs_mkdir OLD_DIR);
  _ ← succeeds "fat mkdir" (persist_directory (bytes OLD_DIR));
  _ ← succeeds "vfs write" (Vfs.write_file (bytes OLD_FILE) (bytes "hello"));
  _ ← succeeds "fat persist" (persist_path (bytes OLD_FILE));
  _ ← succeeds "fat rename" (rename_path (bytes OLD_DIR) (bytes NEW_DIR));
  _ ← succeeds "vfs rename" (vfs_rename OLD_DIR NEW_DIR);
  _ ← ensure_fails "old path survived" EnsureError.NotFound OLD_FILE;
  _ ← absent "old path survived" OLD_FILE;
  _ ← succeeds "new path missing" (ensure_path (bytes NEW_FILE));
  _ ← reads_back "new data mismatch" (bytes NEW_FILE) 8 "hello";
  _ ← succeeds "fat delete file" (delete_path (bytes NEW_FILE));
  _ ← succeeds "vfs delete file" (Vfs.unlink (bytes NEW_FILE));
  _ ← succeeds "fat delete dir" (delete_path (bytes NEW_DIR));
  succeeds "vfs delete dir" (Vfs.unlink (bytes NEW_DIR)).

Definition live_remount : Test :=
  _ ← succeeds "df" df_mnt;
  r ← outcome fscheck_mnt;
  _ ← (match r with
       | Ok report => guard_ok (FatDir.cr_matches report) "fsinfo mismatch"
       | _ => fail "fscheck"
       end : Test);
  _ ← succeeds "sync" sync_all_mounted;
  dirty ← gets (λ s, mi_dirty (mount_info (Vfs.storage s)));
  _ ← guard_ok (negb dirty) "sync dirty";
  _ ← succeeds "umount" unmount_mnt;
  _ ← ensure_fails "umount ensure guard" EnsureError.Unmounted "/mnt/cache.txt";
  _ ← stage "umount persist guard" (λ r, bool_decide (r = Err PersistError.Unmounted)) (persist_path (bytes "/mnt/cache.txt"));
  _ ← stage "remount" (λ r, match r with Ok (MountStatus.Mounted _) => true | _ => false end) (remount_mnt (E := VError));
  k ← gets (λ s, mnt_mounted (Vfs.storage s));
  guard_ok k "remount".

Definition live_mutation_self_test : M Fs VError LiveMutationTestStatus.t :=
  here ← asks present;
  mounted ← gets (λ s, is_ok (Vfs.stat (bytes "/mnt") (Vfs.registry s)));
  if negb (here && mounted) then mret LiveMutationTestStatus.Skipped else
  r ← outcome (_ ← live_mutations; _ ← live_directory_growth_self_test; live_remount);
  mret (match r with Err name => LiveMutationTestStatus.Failed name | _ => LiveMutationTestStatus.Passed end).
End tests.

(** ** A disk that holds no volume *)

Section unmounted.
Context {F D : Type} `{VfsFiles.FramesLaws F, BlockDevice D}.
#[local] Set Default Proof Using "All".
Abbreviation Fs := (Vfs.Fs F (Storage D)).
Implicit Types s : Fs.

Lemma stage_run {E A} name (p : res E A → bool) (m : M Fs E A) s r s' {B} (f : unit → M Fs string B) : m s = (r, s') → r ≠ Panic →
  (stage name p m ≫= f) s = if p r then f tt s' else (Err name, s').
Proof using Type.
  intros Hm Hp. unfold stage, mbind, M_bind, outcome. rewrite Hm. destruct r; [..|done]; by destruct (p _).
Qed.
Lemma absent_run name path s {B} (f : unit → M Fs string B) :
  (absent name path ≫= f) s = if is_ok (Vfs.stat (bytes path) (Vfs.registry s)) then (Err name, s) else f tt s.
Proof using Type. unfold absent, exists_path, mbind, M_bind, gets. by destruct (is_ok _). Qed.

(** The first calls on the registry at boot. *)
Lemma boot_has_mnt : is_ok (Vfs.stat (bytes "/mnt") Vfs.boot) = true.
Proof using Type. vm_compute. reflexivity. Qed.
Lemma boot_has_no_fixture : is_ok (Vfs.stat (bytes "/mnt/tmutd") Vfs.boot) = false ∧ is_ok (Vfs.stat (bytes "/mnt/tmuta") Vfs.boot) = false.
Proof using Type. vm_compute. by split. Qed.
Lemma boot_mkdir_fixture : is_ok (fst (Vfs.mkdir (bytes "/mnt/tmutd") Vfs.boot)) = true.
Proof using Type. vm_compute. reflexivity. Qed.

Lemma live_mutations_unmounted (f : F) (k : Storage D) : mnt_mounted k = false →
  ∃ s, live_mutations (VfsFiles.start f k) = (Err "fat mkdir"%string, s).
Proof using Type.
  intros Hm. destruct boot_has_no_fixture as [H1a H1b]. unfold live_mutations.
  rewrite !absent_run. change (Vfs.registry (VfsFiles.start f k)) with Vfs.boot. rewrite H1a, H1b.
  pose proof boot_mkdir_fixture as Hk. destruct (Vfs.mkdir (bytes "/mnt/tmutd") Vfs.boot) as [r reg] eqn:Er. cbn in Hk.
  set (s1 := Vfs.mkFs reg (Vfs.files (VfsFiles.start f k)) f k : Fs).
  assert (E1 : vfs_mkdir "/mnt/tmutd" (VfsFiles.start f k) = (r, s1)).
  { unfold vfs_mkdir, Vfs.on_registry. change (Vfs.registry (VfsFiles.start f k)) with Vfs.boot. by rewrite Er. }
  unfold succeeds. rewrite (stage_run _ _ _ _ _ _ _ E1) by (by destruct r). rewrite Hk.
  assert (E2 : persist_directory (bytes "/mnt/tmutd") s1 = (Err (unavailable_persist_error k), s1)).
  { unfold persist_directory. rewrite bool_decide_false by done. unfold while_mounted, asks, mbind, M_bind, guard_ok, gets.
    change (under_mnt (bytes "/mnt/tmutd")) with true. cbn. unfold id. by rewrite Hm. }
  rewrite (stage_run _ _ _ _ _ _ _ E2) by done. by exists s1.
Qed.

(** the self-test of a machine whose disk holds no mounted volume does not skip:
    [/mnt] exists from boot on, so the test goes on and reports a failure. *)
Theorem live_test_not_skipped (f : F) (k : Storage D) : present k = true → mnt_mounted k = false →
  fst (live_mutation_self_test (VfsFiles.start f k)) = Ok (LiveMutationTestStatus.Failed "fat mkdir").
Proof using Type.
  intros Hd Hm. unfold live_mutation_self_test, asks. rewrite !bind_gets. change (Vfs.storage (VfsFiles.start f k)) with k. rewrite Hd.
  change (Vfs.registry (VfsFiles.start f k)) with Vfs.boot. rewrite boot_has_mnt. cbn [andb negb].
  destruct (live_mutations_unmounted f k Hm) as [s Hr].
  assert (E1 : ∃ s', outcome (E' := VError) (_ ← live_mutations; _ ← live_directory_growth_self_test; live_remount) (VfsFiles.start f k) = (Ok (Err "fat mkdir"%string), s')).
  { exists s. unfold outcome. by rewrite (bind_run _ _ _ _ _ Hr). }
  destruct E1 as [s' E1]. by rewrite (bind_run _ _ _ _ _ E1).
Qed.
End unmounted.

#[local] Existing Instances VfsFiles.no_frames VfsFiles.no_frames_laws.
Abbreviation DiskFs := (Vfs.Fs unit (Storage MutableFatDisk)).
Definition test_disk : option MutableFatDisk := Some mutable_new.
Definition boot_fs : DiskFs := booted tt test_disk.
Lemma test_disk_ok : disk_ok test_disk.
Proof. split; [exact FatVolume.mutable_new_ok|reflexivity]. Qed.
Lemma test_disk_unambiguous : unambiguous test_disk.
Proof. vm_compute. reflexivity. Qed.
Lemma boot_fit : fs_fit boot_fs.
Proof. exact (booted_fit tt test_disk test_disk_ok test_disk_unambiguous). Qed.

(** The state after a session. *)
Definition after (cs : list Call) : DiskFs := default boot_fs (run_session cs boot_fs).
Lemma after_fit cs : Forall (λ c, call_text c = true) cs → fs_fit (after cs).
Proof.
  intros Hcs. destruct (run_session_fits cs boot_fs Hcs boot_fit) as (s & Hr & Hs & _). unfold after. by rewrite Hr.
Qed.
Ltac texts := repeat (apply Forall_cons; split; [reflexivity|]); apply Forall_nil_2.

(** ** A file written, persisted, forgotten and read again *)

Definition a_txt : list byte := bytes "/mnt/a.txt".
Definition session : list Call :=
  [CMount; CVfs (VfsFiles.CWriteFile a_txt (bytes "hello")); CPersist a_txt; CVfs (VfsFiles.CRemove a_txt);
   CRemount; CEnsure a_txt; CVfs (VfsFiles.COpen a_txt)].
Lemma session_text : Forall (λ c, call_text c = true) session.
Proof. texts. Qed.

(** What a read of the first descriptor gives. *)
Definition first_read (s : DiskFs) : res VError (nat * list byte) := fst (Vfs.read 0 (bytes "........") s).
Lemma mounted_sessions_safe_witness : ∃ s, run_session session boot_fs = Some s ∧ VfsTree.tree_ok (Vfs.registry s) ∧
  fresh (Vfs.storage s) ∧ edits test_disk (disk_of s) ∧ first_read s = Ok (5%nat, bytes "hello...").
Proof.
  destruct (mounted_sessions_safe session tt test_disk test_disk_ok test_disk_unambiguous session_text) as (s & Hr & Ht & _ & Hf & _ & _ & He).
  exists s. split; [exact Hr|]. split; [exact Ht|]. split; [exact Hf|]. split; [exact He|].
  assert (E : first_read (after session) = Ok (5%nat, bytes "hello...")) by (vm_compute; reflexivity).
  unfold after, boot_fs in E. rewrite Hr in E. exact E.
Defined.

(** ** Reading the open file *)

Definition opened : DiskFs := after session.
Definition disk_picture : Picture := picture_of (disk_of opened).
Definition a_entry : DirectoryEntry := match fst (file_entry (bytes "a.txt") disk_picture) with Ok e => e | _ => mkDirEntry [] 0 0 0 end.
Definition first_entry : Vfs.OpenFileDescription := Vfs.mkOpen 8 1 0 1 true.
Lemma opened_fit : fs_fit opened.
Proof. exact (after_fit session session_text). Qed.
Lemma opened_file : Vfs.files opened !! 0%nat = Some first_entry.
Proof. vm_compute. reflexivity. Qed.
Lemma mounted_node : ∃ n p, Vfs.nodes (Vfs.registry opened) !! 8%nat = Some n ∧ Vfs.backing n = Some p ∧ Vfs.as_str p = a_txt ∧ Vfs.nlength n = 5%nat.
Proof.
  assert (E : option_map (λ n, (Vfs.as_str <$> Vfs.backing n, Vfs.nlength n)) (Vfs.nodes (Vfs.registry opened) !! 8%nat) = Some (Some a_txt, 5%nat))
    by (vm_compute; reflexivity).
  destruct (Vfs.nodes (Vfs.registry opened) !! 8%nat) as [n|]; [|discriminate E]. injection E as E1 E2.
  destruct (Vfs.backing n) as [p|] eqn:Eb; [|discriminate E1]. injection E1 as E1. by exists n, p.
Qed.
Lemma opened_volume : volume_of disk_picture = Some (0, FatVolume.test_volume).
Proof. vm_compute. reflexivity. Qed.
Lemma mounted_entry : fst (file_entry (bytes "a.txt") disk_picture) = Ok a_entry.
Proof. vm_compute. reflexivity. Qed.
Abbreviation volume_sectors := (λ i, dev_view (disk_of opened) (0 + i)).
Lemma opened_chain : chain FatVolume.test_volume volume_sectors (first_cluster a_entry) [3].
Proof. apply chain_end. vm_compute. reflexivity. Qed.
Lemma opened_room : (Z.to_nat (size a_entry) ≤ length (chain_data FatVolume.test_volume volume_sectors [3%Z]))%nat.
Proof. apply Nat.leb_le. vm_compute. reflexivity. Qed.

Lemma mounted_read_is_chain_witness : ∃ s', Vfs.read 0 (bytes "........") opened = (Ok (5%nat, bytes "hello..."), s') ∧
  bytes "hello..." = take 5 (chain_data FatVolume.test_volume volume_sectors [3]) ++ bytes "..." ∧ fs_fit s' ∧
  touches nothing (disk_of opened) (disk_of s').
Proof.
  destruct mounted_node as (n & p & Hn & Hb & Hp & Hl). destruct (Vfs.read 0 (bytes "........") opened) as [r s'] eqn:E.
  assert (Er : first_read opened = Ok (5%nat, bytes "hello...")) by (vm_compute; reflexivity).
  unfold first_read in Er. rewrite E in Er. cbn [fst] in Er. subst r. exists s'. split; [reflexivity|].
  assert (Hrel : strip_prefix (bytes "/mnt/") (Vfs.as_str p) = Some (bytes "a.txt")) by (rewrite Hp; vm_compute; reflexivity).
  destruct (mounted_read_is_chain opened s' 0 first_entry n p (bytes "a.txt") 0 FatVolume.test_volume a_entry [3] (bytes "........") 5 (bytes "hello...")
    opened_fit opened_file eq_refl Hn Hb Hrel opened_volume mounted_entry opened_chain opened_room E) as (_ & _ & Hbb & _ & _ & Hf & Ht).
  split; [exact Hbb|]. split; [exact Hf|exact Ht].
Defined.

(** ** No volume *)

Lemma unmounted_calls_refused_witness : mnt_mounted (Vfs.storage boot_fs) = false ∧ persist_path a_txt boot_fs = (Err PersistError.Unmounted, boot_fs).
Proof.
  split; [reflexivity|]. exact (proj1 (proj2 (unmounted_calls_refused boot_fs a_txt a_txt 0 [] eq_refl eq_refl eq_refl))).
Defined.

(** ** Syncs *)

(** A file that can be stored, and one that cannot. *)
Definition storable_session : list Call := [CMount; CVfs (VfsFiles.CWriteFile a_txt (bytes "hello"))].
Definition unstorable_session : list Call := storable_session ++ [CVfs (VfsFiles.CWriteFile (bytes "/mnt/long file name") (bytes "x"))].
Lemma storable_text : Forall (λ c, call_text c = true) storable_session.
Proof. texts. Qed.
Lemma unstorable_text : Forall (λ c, call_text c = true) unstorable_session.
Proof. texts. Qed.

Lemma sync_reports_witness :
  (∃ s', sync_all_mounted (after storable_session) = (Ok 1%nat, s') ∧ clean_sync (after storable_session) 1 s') ∧
  (∃ s', unmount_mnt (after unstorable_session) = (Err MountControlError.SyncFailed, s') ∧ mnt_mounted (Vfs.storage s') = true).
Proof.
  split.
  - destruct (sync_reports (after storable_session) (after_fit _ storable_text)) as [(n & s' & E & _ & Hc)|(s' & E & _)]; [vm_compute; reflexivity| |].
    + assert (n = 1%nat) as ->. { rewrite (proj1 Hc). vm_compute. reflexivity. } exists s'. split; [exact E|exact Hc].
    + assert (Er : fst (sync_all_mounted (after storable_session)) = Ok 1%nat) by (vm_compute; reflexivity). rewrite E in Er. discriminate Er.
  - destruct (sync_reports (after unstorable_session) (after_fit _ unstorable_text)) as [(n & s' & E & _)|(s' & _ & _ & _ & E & Hm)]; [vm_compute; reflexivity| |].
    + assert (Er : fst (sync_all_mounted (after unstorable_session)) = Err PersistError.Failed) by (vm_compute; reflexivity). rewrite E in Er. discriminate Er.
    + exists s'. split; [exact E|exact Hm].
Defined.

(** ** Swap space *)

(** The test disk with 64 more sectors, and its state at boot. *)
Definition roomy_disk : option Picture := Some (mkPicture (λ l, if l <? TOTAL_SECTORS then mutable_sector mutable_new l else zero_sector) (TOTAL_SECTORS + 64)).
Definition roomy_fs : Vfs.Fs unit (Storage Picture) := booted tt roomy_disk.
Lemma roomy_fit : fs_fit roomy_fs.
Proof.
  apply (booted_fit tt roomy_disk).
  - split; [|reflexivity]. split; [reflexivity|]. intros l _. cbn [sectors_of]. case_match; [|apply length_zero].
    apply mutable_sector_length. exact FatVolume.mutable_new_ok.
  - vm_compute. reflexivity.
Qed.
Lemma swap_area_behind_volume_witness : ∃ b, Swap.disk (swap (Vfs.storage (snd (mount_ata_root (E := VError) roomy_fs)))) = Some b ∧
  Swap.start_lba b = 70000 ∧ Swap.dslots b = 8%nat ∧ ∀ l, 70000 ≤ l → ¬ volume_sector FatVolume.test_volume (l - 0).
Proof.
  destruct (mount_ata_root (E := VError) roomy_fs) as [r s'] eqn:E. cbn [snd].
  assert (Eb : option_map (λ b, (Swap.start_lba b, Swap.dslots b)) (Swap.disk (swap (Vfs.storage (snd (mount_ata_root (E := VError) roomy_fs))))) = Some (70000, 8%nat))
    by (vm_compute; reflexivity).
  rewrite E in Eb. cbn [snd] in Eb. destruct (Swap.disk (swap (Vfs.storage s'))) as [b|] eqn:Hb; [|discriminate Eb]. injection Eb as E1 E2.
  exists b. split; [reflexivity|]. split; [exact E1|]. split; [exact E2|].
  destruct (swap_area_behind_volume roomy_fs s' r b roomy_fit eq_refl E Hb) as (start & v & Hv & _ & _ & Hl).
  assert (Ev : volume_of (picture_of (disk_of roomy_fs)) = Some (0, FatVolume.test_volume)) by (vm_compute; reflexivity).
  rewrite Ev in Hv. injection Hv as <- <-. rewrite E1 in Hl. exact Hl.
Defined.

(** ** The live self-test *)

(** the live self-test passes on the mounted FAT32 test disk: directories and
    files are created, renamed, read back and removed, two directories grow past
    a cluster, and the volume is checked, synced, unmounted and mounted again. *)
Theorem live_self_test_passes : fst (live_mutation_self_test (after [CMount])) = Ok LiveMutationTestStatus.Passed.
Proof. vm_compute. reflexivity. Qed.

Lemma live_test_not_skipped_witness : boot_fs = VfsFiles.start tt (storage_new test_disk) ∧
  fst (live_mutation_self_test boot_fs) = Ok (LiveMutationTestStatus.Failed "fat mkdir").
Proof. split; [reflexivity|]. exact (live_test_not_skipped tt (storage_new test_disk) eq_refl eq_refl). Defined.
